(* ===== verification/_CoqProject ===== *)
-Q . S2P
Prelude.v
CMem.v
UnixFile.v
OsRemoteInit.v
ArgConvert.v
MethodList.v
TableSpec.v
UnixVfs.v
ServerWrap.v
Messages.v
RemoteClient.v
RemoteVfs.v
RemoteRefinement.v
RemoteOpen.v
RemoteLimits.v
UnixLock.v
LockInvariant.v
LockSystem.v
LockKernel.v
LockWitnesses.v
UnixShm.v
UnixShmSpec.v
UnixIO.v
UnixIOSpec.v
UnixFileRefinement.v
UnixIOWitnesses.v
Varint.v
VarintSpec.v
Int64.v
IntegerWitnesses.v
Bitvec.v
BitvecSpec.v
Disk.v
DiskSpec.v
Pager.v
PagerPlayback.v
PagerRecovery.v
PagerTransaction.v
PagerWrite.v
PagerSync.v
PagerCommit.v
PagerAtomic.v
PagerWitnesses.v
SharedMem.v
WalIndex.v
WalIndexSpec.v
WalIndexReader.v
WalIndexWriter.v
WalIndexTheorems.v
WalHeader.v
WalLocks.v
UnixShmSystem.v
UnixShmWitnesses.v
WalFile.v
WalLog.v
WalCommit.v
WalLogSpec.v
WalIterator.v
WalSortSpec.v
WalIteratorSpec.v
WalFrame.v
WalRecovery.v
WalCheckpoint.v
WalProtocol.v
WalWrite.v
WalLogWriter.v
WalOpen.v
WalReset.v
WalUnreliable.v
WalRecoveryTheorems.v
WalCheckpointSpec.v
WalCheckpointTheorems.v
WalWitnesses.v
Instances.v
Witnesses.v
BtreeCell.v
BtreePage.v
BtreePageSpec.v
BtreeDefrag.v
BtreeRefinement.v
