(* ===== verification/Prelude.v ===== *)
(** Multi-master SQLite over a remote VFS: a verification library.

    * The program

    The repository is SQLite 3.28 with a VFS of its own, under src/os_remote/.
    The client is an SQLite library whose VFS forwards every operation on files
    to a server by gRPC; the server runs the operation with the unix VFS of
    SQLite (src/sqlite-src-3280000/src/os_unix.c) and sends back the result.

<<
      client                                     server
      SQLite                                     WrapRead ... (os_server_wrap.c)
        | xRead, xWrite, xLock ...                 | table of descriptors
      remoteRead ... (os_remote_client.c)          |   (os_arg_convert.c)
        | marshalling (os_arg_convert.c)         unixRead, unixLock ... (os_unix.c)
      OSRemoteClient (os_client_wrap.cc)           |
        +------------ gRPC (parameter) ----------> OSRemoteServiceImpl
                                                   (os_remote_server.cc)
>>

    Each request carries a copy of the client's file object, a [unixFile]; the
    reply carries the object back.  Two of its fields are pointers into the
    server, the methods and the path: the server keeps them in a linked list by
    descriptor and restores them at each request.

    * The files

    Shared:
    - [Prelude]: fixed-width integers, tactics.
    - [CMem]: C memory as bounds-checked byte regions, structure layout by the
      LP64 System V rules; an access outside an object is [None].
    - [UnixFile]: the layout of [unixFile] and access to its fields.

    The remote VFS:
    - [OsRemoteInit]: src/os_remote/os_remote_init.c, the client's method table
      and the methods that are not forwarded.
    - [ArgConvert]: the marshalling functions of
      src/os_remote/common/os_arg_convert.c, each with its round trip.
    - [MethodList]: the list of descriptors of the same file, in a heap of nodes;
      [TableSpec] shows that it implements a finite map.
    - [UnixVfs]: the interface of the unix VFS, a class of operations with the
      laws the server relies on.
    - [ServerWrap]: src/os_remote/server/os_server_wrap.c and os_remote_server.cc.
    - [Messages]: requests and replies of the file operations, composed.
    - [RemoteClient]: src/os_remote/client/os_remote_client.c and
      os_client_wrap.cc.  The transport is a parameter: a function that delivers
      a request or loses it.
    - [RemoteVfs]: one operation through client, transport and server.
    - [RemoteRefinement], [RemoteOpen], [RemoteLimits]: the theorems.
    - [Instances], [Witnesses]: an in-memory unix VFS and a transport that
      instantiate the interfaces, and the theorems at concrete inputs.

    POSIX advisory locking (os_unix.c, [unixLock] to [unixClose]):
    - [UnixLock]: the functions, as programs that make [fcntl] and [close] calls.
    - [LockInvariant]: the weakest precondition of such programs, the invariant of
      a process's bookkeeping, and that each function keeps it.
    - [LockSystem]: several processes, interleaved at their system calls, over a
      kernel given by an interface of POSIX laws, which may refuse any request.
    - [LockKernel], [LockWitnesses]: an executable kernel with these laws, runs of
      the protocol on it, some with refused releases, the theorems at these runs,
      and the race of [unixClose] with another thread.

    Shared memory (os_unix.c, [unixShmSystemLock] to [unixShmUnmap]):
    - [UnixShm]: the functions, as programs that make system calls on the file.
    - [UnixShmSpec]: the invariant of a process, by a weakest precondition that also
      counts on a size of the file.
    - [UnixShmSystem]: several processes, interleaved at their system calls; a
      simulation by the atomic lock bytes of [WalLocks].
    - [UnixShmWitnesses]: concrete runs.

    File input and output (os_unix.c, [unixRead] to [unixUnfetch]):
    - [UnixIO]: the functions over a file object and a kernel that may cut short,
      interrupt or fail any call.
    - [UnixIOSpec], [UnixFileRefinement]: the array of bytes they implement.
    - [UnixIOWitnesses]: concrete runs.

    Integers (util.c):
    - [Varint]: the variable-length and four-byte integers of the file format;
      [VarintSpec]: the byte-at-a-time format, equivalence and round trips, with a
      reflection on the bits of the decoder's expressions.
    - [Int64]: checked 64-bit arithmetic, in portable C and with GCC's builtins.
    - [IntegerWitnesses]: the theorems at concrete integers.

    The rollback journal (src/sqlite-src-3280000/src/pager.c, pcache.c and bitvec.c):
    - [Bitvec]: the sets of page numbers of bitvec.c, with their three
      representations; [BitvecSpec]: that they are finite sets.
    - [Disk]: files that outlive a loss of power, and programs that use them;
      [DiskSpec]: rules for their weakest preconditions with a crash condition.
    - [Pager]: the functions of the pager, from [sqlite3PagerSharedLock] to
      [sqlite3PagerCommitPhaseTwo] and [sqlite3PagerRollback], over a pager whose
      cache is a map of pages and flags.
    - [PagerPlayback]: the format of the journal, its chain of headers, and playing it
      back; [PagerRecovery]: making it unusable, and opening a database with a hot
      journal.
    - [PagerTransaction]: the state of a writer, that is, its journal, the database as
      the client sees it, the flags of the cache, and these together; [PagerWrite],
      [PagerSync], [PagerCommit]: that the operations keep it.
    - [PagerAtomic]: transactions of a client, and that they are atomic;
      [PagerWitnesses]: a transaction, a recovery and an overlooked journal.

    The write-ahead log (src/sqlite-src-3280000/src/wal.c):
    - [SharedMem]: memory shared between connections, programs that access it,
      their interleavings, and rely-guarantee reasoning.
    - [WalIndex]: the pages and hash tables of the wal-index, [sqlite3WalFindFrame],
      [walIndexAppend], [walCleanupHash]; [WalIndexSpec], [WalIndexReader],
      [WalIndexWriter]: what the index means, for readers and for a writer;
      [WalIndexTheorems].
    - [WalHeader]: checksums, and the two copies of the header;
      [WalCommit]: that a commit is atomic.
    - [WalLocks]: the lock bytes, by the interface of [xShmLock].  [WalFile]: system
      calls on the log and on the database.
    - [WalLog]: frames, [walEncodeFrame] and [walDecodeFrame], and recovery,
      [walIndexRecover].
    - [WalIterator]: the merge sort and the iterator of a checkpoint;
      [WalSortSpec], [WalIteratorSpec]: what they compute.
    - [WalCheckpoint]: [walCheckpoint], and reading a page; [WalFrame],
      [WalCheckpointSpec], [WalCheckpointTheorems]: checkpoints beside readers and a
      writer.  [WalWitnesses]: the theorems at concrete logs.
    - [WalProtocol]: [walIndexReadHdr], [walTryBeginRead], [walRestartLog],
      [sqlite3WalCheckpoint] and the start and end of transactions; [WalWrite]:
      [sqlite3WalFrames]; [WalOpen]: opening and closing.
    - [WalLogSpec]: the format of the log, its valid frames and its commits;
      [WalRecovery], [WalLogWriter], [WalRecoveryTheorems]: recovery and
      transactions, by that format.
    - [WalReset], [WalUnreliable]: two executions of the whole protocol that go
      wrong.

    The pages of the b-tree (src/sqlite-src-3280000/src/btree.c and btreeInt.h):
    - [BtreeCell]: parsing a cell, and its size.
    - [BtreePage]: the space of a page, from [freeSpace] and [allocateSpace] to
      [insertCell], [dropCell] and [btreeInitPage].  A page is the record [MemPage],
      with the bytes of [aData]; an access outside of them is [None].
    - [BtreePageSpec]: the division of a page into cells, free blocks and fragments,
      and that freeing and searching keep it; [BtreeDefrag]: defragmenting, and
      allocating; [BtreeRefinement]: a page is a list of cells.

    A connection of the log is the record [Wal]; an operation is a tree of accesses to the
    cells of shared memory, of the files and of the lock bytes, one for each access
    of the source.

    * What is shown

    Remote VFS: while the link is up, programs of file operations (transfers of at
    most 8192 bytes) have the results and effects of the unix VFS on the server
    (refinement); opening links the file object, its descriptor and its path; the
    descriptor list is a finite map under any sequence of operations, which all
    terminate; and the limits of the design: lost requests look like successes,
    transfers over 8192 bytes overflow, unmapped fetches and unknown descriptors
    crash the server, closing leaves entries behind, replies to writes carry stack
    contents.

    Locking: conflicting locks are never held by two processes, nor by two handles
    of one process, in any interleaving of system calls and whichever of them are
    refused, releases included; no assert fails; [unixLock] and [posixUnlock] keep
    the bookkeeping of all handles backed by the kernel on every outcome, and so
    does [unixClose], provided that no lock is taken between its critical section
    and the closing of the descriptor (executions with that race are left out, and
    [LockWitnesses] has one in which exclusion fails); PENDING keeps new readers
    out; [unixCheckReservedLock] is exact; what a handle reports after releasing a
    lock has failed.

    Shared memory: the locks of [unixShmLock], in any number of processes, refine the
    atomic locks that the write-ahead log is verified against, where a request that
    the kernel refuses, to release a lock included, does nothing; they exclude each
    other; the file is never truncated under a mapping, though the first process to
    open it may fail to truncate it; [unixShmMap] yields the region asked for, inside
    the file.

    File I/O: every operation implements an array of bytes, under partial
    transfers, interruptions and failures, with or without memory mapping; error
    codes; durability of sync; two boundary behaviours (size hints, 128 KiB writes).

    Integers: decoding inverts encoding for every 64-bit integer; the unrolled
    decoders are the byte-at-a-time one on every buffer; the length function, exact
    below 2^63; checked arithmetic is exact and free of undefined behaviour, and how
    the builtins differ from it.

    Rollback journal (synchronous=FULL, a device without claims on the order of its
    writes, sectors no larger than a page, no failed allocation): a transaction of the
    pager, whichever calls on files and locks fail and wherever it is interrupted,
    leaves files from which the old database can be restored or the new one without a
    hot journal; the recovery, by a process with the page and sector sizes of the
    writer, restores the old one, can itself be interrupted and done again, and settles
    for all later such openings which of the two it is; a commit that succeeds is there
    for good in the journal modes that sync, a rollback that succeeds leaves the old
    database; the cache stays well formed; no assert of the model fails.  The client is
    any sequence of reading, changing, spilling and dropping pages, and stops at its
    first error.  Bit vectors answer like sets.

    Write-ahead log: recovery finds exactly the valid frames of the log and its last
    commit; a transaction that is written by one call, without starting the log over
    and without padding, leaves the frames of the earlier commits valid, whichever of
    its writes fail, and its own once it has succeeded; a search finds the last frame
    of a page in the snapshot of the reader, beside a writer that appends; commits are
    atomic, access by access; rolling back to a savepoint leaves an index of the frames
    before it, and at each step their entries as they are; passive and full checkpoints
    leave readers their snapshots, whatever fails and wherever they are killed, and
    their iterator visits each page once.  The theorem on checkpoints takes the log not
    to be started over meanwhile: [WalReset] shows what happens otherwise.

    B-tree pages: any sequence of insertions and removals of cells is that on a list,
    however the free space is fragmented: every cell stays intact, the number of free
    bytes is exact, an insertion succeeds when the bytes are there and leaves the page as
    it was when they are not; no assert of the model fails, and no access is outside
    the page.  A page that is read again has the same cells and the same free bytes.
    Counting the free bytes is safe on any page, and accepts exactly the chains of free
    blocks that are in order.  The two ways to find the size of a cell agree.

    * Bounds and fuel

    Integers are [Z] with the ranges of their C types as hypotheses where they
    matter; sizes of requests are those of the C structures.  The search of the
    descriptor list takes the number of heap nodes as fuel, which [MethodList]
    proves enough for a list without cycles, and every operation keeps it so.  The
    loops over system calls take one iteration for each answer of the kernel's
    script and two more; [UnixIOSpec] proves that they end within it.  Locking has
    no fuel: its programs are finite trees.  The loops of the
    wal module take what bounds them in the source as fuel: [nCollide], the number of
    tables, of entries or of frames, 101 attempts to begin a read transaction; where
    the source has no bound, one more than the number of frames or bytes that fit in
    what is left of the log.  The loops of the pager take the size of the journal, and the
    programs of [Disk] count [Crash], which is what a lack of fuel answers, as a failure,
    so that every theorem on the pager shows its fuel enough; a bit vector has at most five
    levels.  The loops over the free blocks of a page take its size, since they go
    through ascending addresses.  Encoding an integer below 2^56 takes at
    most eight rounds of the loop of [putVarint64], whose fuel is the nine of its
    assert; [sqlite3VarintLen] takes at most ten of its eleven.

    * What is not modelled

    The gRPC library and generated stubs (parameters); debug and timing output;
    opening, deletion and path resolution inside os_unix.c;
    mutexes, represented by running one critical section of a process at a time;
    code for other platforms, SQLITE_DEBUG and fault injection.

    In the write-ahead log: the contents of a page are one number; words are those of
    a little-endian machine; a sync has no effect on the contents, so that a loss of
    power is not modelled, while a write that fails or a process that dies may leave
    anything where it wrote; in heap-memory mode the cells stand for the connection's
    own pages; SQLITE_ENABLE_SNAPSHOT is off.  Busy handlers are a number of further
    attempts, delays have no effect.

    In the rollback journal: savepoints and statement journals, pages whose content is
    not needed (PAGER_GET_NOCONTENT), truncating the image, journal modes MEMORY, OFF and
    WAL, temporary and in-memory files, and the batch-atomic extensions.  Which pages are
    spilled and dropped is the client's choice.  The theorems assume: syncs are on, and
    synchronous is FULL for a transaction; a sector is no larger than a page
    ([pagerWriteLargeSector] is modelled, without theorems); allocations succeed; the
    sector size of the journal is that of the pager that recovers (otherwise see
    [PagerWitnesses]); no other process uses the two files; a master journal that is
    named is there.  A sector is written as a whole or not at all, sectors since the
    last sync in any combination, and what a file grows by may be garbage until the next
    sync, but not by chance the header of a journal.

    In the b-tree: cursors, overflow pages, the balancing of the tree with the functions
    that rebuild its pages (rebuildPage, editPage), and the pointer map of databases with
    auto-vacuum.  Page buffers have no bytes behind the page, which only matters for
    cells of corrupt pages.  A write of the page to the journal
    ([sqlite3PagerWrite]) has happened before a cell is inserted.

    The rest of SQLite (SQL compiler, virtual machine) is unmodified and appears only as
    the clients of what is modelled. *)
From Stdlib Require Export ZArith Lia.
From coqutil Require Export Byte Word.LittleEndianList.
From stdpp Require Export base tactics list list_numbers gmap option.
Export list_numbers.list list_misc.list list_monad.list list_relations.list list_basics.list.
#[global] Open Scope Z_scope.

(** * Fixed-width integers

    A C integer is a [Z]; [wrap_s w] and [wrap_u w] are the two's complement
    and the unsigned reduction to [w] bits. *)

Definition wrap_u (w z : Z) : Z := z mod 2 ^ w.

Definition wrap_s (w z : Z) : Z := (z + 2 ^ (w - 1)) mod 2 ^ w - 2 ^ (w - 1).

Definition in_s (w z : Z) : Prop := - 2 ^ (w - 1) <= z < 2 ^ (w - 1).

Definition in_u (w z : Z) : Prop := 0 <= z < 2 ^ w.

#[global] Instance in_s_dec w z : Decision (in_s w z).
Proof. unfold in_s. apply _. Defined.

#[global] Instance in_u_dec w z : Decision (in_u w z).
Proof. unfold in_u. apply _. Defined.

(** [align_up off a] is the least multiple of [a] that is at least [off]. *)
Definition align_up (off a : Z) : Z := (off + a - 1) / a * a.

Lemma pow2_split w : 0 < w -> 2 ^ w = 2 * 2 ^ (w - 1).
Proof. intros. rewrite <- Z.pow_succ_r by lia. f_equal; lia. Qed.

Lemma wrap_s_id w z : 0 < w -> in_s w z -> wrap_s w z = z.
Proof.
  unfold in_s, wrap_s. intros Hw Hz. rewrite (pow2_split w) by lia.
  rewrite Z.mod_small; lia.
Qed.

Lemma wrap_u_id w z : in_u w z -> wrap_u w z = z.
Proof. unfold in_u, wrap_u. intros. apply Z.mod_small; lia. Qed.

Lemma wrap_s_range w z : 0 < w -> in_s w (wrap_s w z).
Proof.
  unfold in_s, wrap_s. intros Hw. pose proof (pow2_split w Hw).
  pose proof (Z.mod_pos_bound (z + 2 ^ (w - 1)) (2 ^ w) ltac:(apply Z.pow_pos_nonneg; lia)).
  lia.
Qed.

Lemma wrap_u_range w z : 0 <= w -> in_u w (wrap_u w z).
Proof.
  unfold in_u, wrap_u. intros. apply Z.mod_pos_bound, Z.pow_pos_nonneg; lia.
Qed.

Lemma wrap_s_mod w z : 0 < w -> wrap_s w (z mod 2 ^ w) = wrap_s w z.
Proof.
  intros Hw. unfold wrap_s. f_equal.
  rewrite <- (Z.add_mod_idemp_l z) by (apply Z.pow_nonzero; lia). reflexivity.
Qed.

(** * Automation *)

(** Case analysis on the boolean tests of a definition, one at a time. *)
Ltac case_bool :=
  match goal with
  | |- context [if ?b then _ else _] => destruct b eqn:?
  | H : context [if ?b then _ else _] |- _ => destruct b eqn:?
  end.

(** Turn boolean comparisons in the context into propositions. *)
Ltac bool_to_prop :=
  repeat match goal with
    | H : (_ && _) = true |- _ => apply andb_true_iff in H as [? ?]
    | H : (_ || _) = false |- _ => apply orb_false_iff in H as [? ?]
    | H : (_ && _) = false |- _ => apply andb_false_iff in H
    | H : (_ || _) = true |- _ => apply orb_true_iff in H
    | H : negb _ = true |- _ => apply negb_true_iff in H
    | H : negb _ = false |- _ => apply negb_false_iff in H
    | H : (_ =? _) = true |- _ => apply Z.eqb_eq in H
    | H : (_ =? _) = false |- _ => apply Z.eqb_neq in H
    | H : (_ <? _) = true |- _ => apply Z.ltb_lt in H
    | H : (_ <? _) = false |- _ => apply Z.ltb_ge in H
    | H : (_ <=? _) = true |- _ => apply Z.leb_le in H
    | H : (_ <=? _) = false |- _ => apply Z.leb_gt in H
    end.

(** Invert [x ← m; k = Some v] and [Some _ = Some _] hypotheses. *)
Ltac inv_opt :=
  repeat match goal with
    | H : (_ ≫= _) = Some _ |- _ =>
        apply bind_Some in H; destruct H as (? & ? & H)
    | H : Some _ = Some _ |- _ => injection H as H
    | H : None = Some _ |- _ => discriminate H
    | H : Some _ = None |- _ => discriminate H
    | x : (_ * _)%type |- _ => destruct x
    end; simplify_eq/=.
