(* ===== verification/CMem.v ===== *)
(** C memory as the marshalling code of os_remote sees it.

    A [region] is the contents of one allocated object; a pointer into it is
    an offset.  Every access is bounds-checked: [None] stands for the undefined
    behaviour of an access outside the object.  Integers are stored
    little-endian and structures are laid out by the LP64 System V rules. *)
From S2P Require Import Prelude.

Abbreviation region := (list Init.Byte.byte).

(** ** Raw accesses *)

Definition len (m : region) : Z := Z.of_nat (length m).

Definition slice (m : region) (off n : Z) : region :=
  take (Z.to_nat n) (drop (Z.to_nat off) m).

Definition splice (m : region) (off : Z) (d : region) : region :=
  take (Z.to_nat off) m ++ d ++ drop (Z.to_nat off + length d) m.

Definition mem_read (m : region) (off n : Z) : option region :=
  if (0 <=? off) && (0 <=? n) && (off + n <=? len m) then Some (slice m off n) else None.

Definition mem_write (m : region) (off : Z) (d : region) : option region :=
  if (0 <=? off) && (off + len d <=? len m) then Some (splice m off d) else None.

(** [memcpy(dst + doff, src + soff, n)]. *)
Definition memcpy (dst : region) (doff : Z) (src : region) (soff n : Z) : option region :=
  d ← mem_read src soff n; mem_write dst doff d.

(** An object of [n] bytes after [memset(p, 0, n)]. *)
Definition zeros (n : Z) : region := replicate (Z.to_nat n) Byte.x00.

(** [memset(dst + off, 0, n)]. *)
Definition memset0 (dst : region) (off n : Z) : option region :=
  if 0 <=? n then mem_write dst off (zeros n) else None.

(** ** C strings *)

Fixpoint strlen_list (m : region) : option Z :=
  match m with
  | [] => None
  | b :: m => if byte.unsigned b =? 0 then Some 0 else n ← strlen_list m; Some (1 + n)
  end.

(** [strlen(m + off)]: [None] when the object ends before a terminator. *)
Definition strlen (m : region) (off : Z) : option Z :=
  if (0 <=? off) && (off <=? len m) then strlen_list (drop (Z.to_nat off) m) else None.

(** [strcpy(dst + doff, src + soff)]: the terminator is copied too. *)
Definition strcpy (dst : region) (doff : Z) (src : region) (soff : Z) : option region :=
  n ← strlen src soff; memcpy dst doff src soff (n + 1).

(** The characters of the C string at [off], without the terminator. *)
Definition cstring (m : region) (off : Z) : option region :=
  n ← strlen m off; mem_read m off n.

(** ** Integers in memory *)

Definition enc (n : Z) (z : Z) : region := le_split (Z.to_nat n) z.

Definition store (m : region) (off n z : Z) : option region := mem_write m off (enc n z).

Definition load_s (m : region) (off n : Z) : option Z :=
  d ← mem_read m off n; Some (wrap_s (8 * n) (le_combine d)).

Definition load_u (m : region) (off n : Z) : option Z :=
  d ← mem_read m off n; Some (le_combine d).

Definition sz_int : Z := 4.
Definition sz_i64 : Z := 8.
Definition sz_ptr : Z := 8.

Definition store_int (m : region) (off z : Z) : option region := store m off sz_int z.
Definition load_int (m : region) (off : Z) : option Z := load_s m off sz_int.
Definition store_i64 (m : region) (off z : Z) : option region := store m off sz_i64 z.
Definition load_i64 (m : region) (off : Z) : option Z := load_s m off sz_i64.
Definition store_ptr (m : region) (off z : Z) : option region := store m off sz_ptr z.
Definition load_ptr (m : region) (off : Z) : option Z := load_u m off sz_ptr.

(** ** Structure layout *)

Inductive ctype :=
  | TChars (n : Z)   (** [char a[n]] *)
  | TU8 | TU16       (** unsigned char, unsigned short *)
  | TInt | TI64 | TPtr.

Definition size_of (t : ctype) : Z :=
  match t with
  | TChars n => n | TU8 => 1 | TU16 => 2 | TInt => 4 | TI64 => 8 | TPtr => 8
  end.

Definition align_of (t : ctype) : Z :=
  match t with TChars _ => 1 | _ => size_of t end.

(** Offsets of the fields, and the first free offset after them. *)
Fixpoint layout_from (off : Z) (fs : list ctype) : list Z * Z :=
  match fs with
  | [] => ([], off)
  | t :: fs =>
      let o := align_up off (align_of t) in
      let '(os, e) := layout_from (o + size_of t) fs in
      (o :: os, e)
  end.

Definition field_offsets (fs : list ctype) : list Z := (layout_from 0 fs).1.

Definition field_offset (fs : list ctype) (i : nat) : Z := field_offsets fs !!! i.

Definition sizeof_struct (fs : list ctype) : Z :=
  align_up (layout_from 0 fs).2 (foldr (fun t => Z.max (align_of t)) 1 fs).

(** ** Lemmas: lengths *)

Lemma len_nonneg m : 0 <= len m.
Proof. unfold len. lia. Qed.

Lemma len_app m1 m2 : len (m1 ++ m2) = len m1 + len m2.
Proof. unfold len. rewrite length_app. lia. Qed.

Lemma len_zeros n : 0 <= n -> len (zeros n) = n.
Proof. unfold len, zeros. intros. rewrite length_replicate. lia. Qed.

Lemma len_enc n z : 0 <= n -> len (enc n z) = n.
Proof. unfold len, enc. intros. rewrite length_le_split. lia. Qed.

Lemma len_slice m off n :
  0 <= off -> 0 <= n -> off + n <= len m -> len (slice m off n) = n.
Proof.
  unfold len, slice. intros. rewrite length_take, length_drop. lia.
Qed.

Lemma len_splice m off d :
  0 <= off -> off + len d <= len m -> len (splice m off d) = len m.
Proof.
  unfold len, splice. intros. rewrite !length_app, length_take, length_drop. lia.
Qed.

(** ** Lemmas: reads after writes *)

Lemma slice_splice_same m off d :
  0 <= off -> off + len d <= len m -> slice (splice m off d) off (len d) = d.
Proof.
  unfold slice, splice, len. intros.
  rewrite drop_app_length' by (rewrite length_take; lia).
  rewrite take_app_length' by lia. reflexivity.
Qed.

Lemma slice_splice_other m off d o n :
  0 <= off -> off + len d <= len m -> 0 <= o -> 0 <= n ->
  o + n <= off \/ off + len d <= o ->
  slice (splice m off d) o n = slice m o n.
Proof.
  intros Hoff Hd Ho Hn Hsep. apply list_eq. intros i. unfold slice, splice, len in *.
  destruct (decide (i < Z.to_nat n)%nat); cycle 1.
  { rewrite !lookup_take_ge by lia. reflexivity. }
  rewrite !lookup_take_lt, !lookup_drop by lia.
  destruct Hsep.
  - rewrite lookup_app_l by (rewrite length_take; lia).
    rewrite lookup_take_lt by lia. reflexivity.
  - rewrite lookup_app_r by (rewrite length_take; lia).
    rewrite lookup_app_r by (rewrite length_take; lia).
    rewrite lookup_drop, length_take. f_equal. lia.
Qed.

Lemma mem_read_Some m off n d :
  mem_read m off n = Some d <->
  0 <= off /\ 0 <= n /\ off + n <= len m /\ d = slice m off n.
Proof.
  unfold mem_read. case_bool; bool_to_prop.
  - split; [intros [= <-]; tauto | intros (?&?&?&->); done].
  - split; [discriminate|]. intros (?&?&?&->). lia.
Qed.

Lemma mem_write_Some m off d m' :
  mem_write m off d = Some m' <->
  0 <= off /\ off + len d <= len m /\ m' = splice m off d.
Proof.
  unfold mem_write. case_bool; bool_to_prop.
  - split; [intros [= <-]; tauto | intros (?&?&->); done].
  - split; [discriminate|]. intros (?&?&->). lia.
Qed.

Lemma mem_read_ok m off n :
  0 <= off -> 0 <= n -> off + n <= len m -> mem_read m off n = Some (slice m off n).
Proof. intros. apply mem_read_Some. tauto. Qed.

Lemma mem_write_ok m off d :
  0 <= off -> off + len d <= len m -> mem_write m off d = Some (splice m off d).
Proof. intros. apply mem_write_Some. tauto. Qed.

Lemma mem_read_len m off n d : mem_read m off n = Some d -> len d = n.
Proof. intros (?&?&?&->)%mem_read_Some. by apply len_slice. Qed.

Lemma mem_write_len m off d m' : mem_write m off d = Some m' -> len m' = len m.
Proof. intros (?&?&->)%mem_write_Some. by apply len_splice. Qed.

Lemma mem_read_all m n : n = len m -> mem_read m 0 n = Some m.
Proof.
  intros ->. apply mem_read_Some. pose proof (len_nonneg m).
  split_and!; [lia..|]. unfold slice. rewrite drop_0, firstn_all2; [done|].
  unfold len. lia.
Qed.

Lemma mem_write_all m d : len d = len m -> mem_write m 0 d = Some d.
Proof.
  intros Hl. apply mem_write_Some. split_and!; [lia..|].
  unfold splice, len in *. rewrite take_0, drop_ge by lia.
  rewrite app_nil_l, app_nil_r. done.
Qed.

Lemma read_splice_same m off d n :
  n = len d -> 0 <= off -> off + len d <= len m ->
  mem_read (splice m off d) off n = Some d.
Proof.
  intros -> ??. pose proof (len_nonneg d). apply mem_read_Some.
  rewrite len_splice, slice_splice_same by lia. split_and!; [lia..|done].
Qed.

Lemma read_splice_other m off d o n :
  0 <= off -> off + len d <= len m -> o + n <= off \/ off + len d <= o ->
  mem_read (splice m off d) o n = mem_read m o n.
Proof.
  intros ?? Hsep. unfold mem_read. rewrite len_splice by lia.
  case_bool; [|done]. bool_to_prop. rewrite slice_splice_other by lia. done.
Qed.

(** ** Lemmas: integers *)

Lemma dec_enc_s n z :
  0 < n -> in_s (8 * n) z -> wrap_s (8 * n) (le_combine (enc n z)) = z.
Proof.
  intros Hn Hz. unfold enc. rewrite le_combine_split.
  rewrite Z2Nat.id, (Z.mul_comm n 8) by lia.
  rewrite wrap_s_mod by lia. apply wrap_s_id; [lia|done].
Qed.

Lemma dec_enc_u n z :
  0 <= n -> in_u (8 * n) z -> le_combine (enc n z) = z.
Proof.
  intros Hn Hz. unfold enc. rewrite le_combine_split.
  rewrite Z2Nat.id, (Z.mul_comm n 8) by lia. by apply wrap_u_id.
Qed.

Lemma load_s_range m off n z : 0 < n -> load_s m off n = Some z -> in_s (8 * n) z.
Proof. unfold load_s. intros. inv_opt. apply wrap_s_range. lia. Qed.

(** ** One write at a time

    The forms the [mem_step] tactic below uses: a write that fits succeeds
    with some object of the same size, and a later read of that object sees
    either exactly the bytes written or what was there before. *)

Lemma mem_write_fits m off d :
  0 <= off -> off + len d <= len m ->
  exists m', mem_write m off d = Some m' /\ len m' = len m.
Proof.
  intros. eexists. split; [by apply mem_write_ok|]. by apply len_splice.
Qed.

Lemma mem_read_fits m off n :
  0 <= off -> 0 <= n -> off + n <= len m ->
  exists d, mem_read m off n = Some d /\ len d = n.
Proof. intros. eexists. split; [by apply mem_read_ok|]. by apply len_slice. Qed.

Lemma read_write_same m off d m' o n :
  mem_write m off d = Some m' -> o = off -> n = len d -> mem_read m' o n = Some d.
Proof.
  intros (?&?&->)%mem_write_Some -> ->. by apply read_splice_same.
Qed.

Lemma read_write_other m off d m' o n :
  mem_write m off d = Some m' -> o + n <= off \/ off + len d <= o ->
  mem_read m' o n = mem_read m o n.
Proof. intros (?&?&->)%mem_write_Some ?. by apply read_splice_other. Qed.

Lemma load_s_store_same m off n z m' o k :
  mem_write m off (enc n z) = Some m' -> o = off -> k = n ->
  0 < n -> in_s (8 * n) z -> load_s m' o k = Some z.
Proof.
  intros Hw -> -> Hn Hz. unfold load_s.
  rewrite (read_write_same _ _ _ _ _ _ Hw) by (rewrite ?len_enc; lia).
  cbn. f_equal. by apply dec_enc_s.
Qed.

Lemma load_u_store_same m off n z m' o k :
  mem_write m off (enc n z) = Some m' -> o = off -> k = n ->
  0 < n -> in_u (8 * n) z -> load_u m' o k = Some z.
Proof.
  intros Hw -> -> Hn Hz. unfold load_u.
  rewrite (read_write_same _ _ _ _ _ _ Hw) by (rewrite ?len_enc; lia).
  cbn. f_equal. apply dec_enc_u; [lia|done].
Qed.

Lemma load_s_write_other m off d m' o n :
  mem_write m off d = Some m' -> o + n <= off \/ off + len d <= o ->
  load_s m' o n = load_s m o n.
Proof. intros. unfold load_s. by erewrite read_write_other by done. Qed.

Lemma load_u_write_other m off d m' o n :
  mem_write m off d = Some m' -> o + n <= off \/ off + len d <= o ->
  load_u m' o n = load_u m o n.
Proof. intros. unfold load_u. by erewrite read_write_other by done. Qed.

(** Reads that stay inside the first part of a concatenation. *)
Lemma mem_read_app m x o n : o + n <= len m -> mem_read (m ++ x) o n = mem_read m o n.
Proof.
  intros Hb. unfold mem_read. pose proof (len_nonneg x).
  destruct ((0 <=? o) && (0 <=? n)) eqn:Hon; cbn; [|done]. bool_to_prop.
  assert (len (m ++ x) = len m + len x) by (unfold len; rewrite length_app; lia).
  rewrite (proj2 (Z.leb_le _ (len m))), (proj2 (Z.leb_le _ (len (m ++ x)))) by lia.
  f_equal. unfold slice, len in *. rewrite drop_app_le, take_app_le; [done| |lia].
  rewrite length_drop. lia.
Qed.

Lemma load_s_app m x o n : o + n <= len m -> load_s (m ++ x) o n = load_s m o n.
Proof. intros. unfold load_s. by rewrite mem_read_app. Qed.

Lemma load_u_app m x o n : o + n <= len m -> load_u (m ++ x) o n = load_u m o n.
Proof. intros. unfold load_u. by rewrite mem_read_app. Qed.

(** Writing the whole of an object replaces it. *)
Lemma write_all m d m' : mem_write m 0 d = Some m' -> len d = len m -> m' = d.
Proof. intros Hw Hl. rewrite mem_write_all in Hw by done. congruence. Qed.

(** Integers read back by the client are C ints. *)
Lemma load_s_fits m off n :
  0 <= off -> 0 <= n -> off + n <= len m -> exists z, load_s m off n = Some z.
Proof. intros. unfold load_s. rewrite mem_read_ok by lia. eauto. Qed.

Lemma load_u_fits m off n :
  0 <= off -> 0 <= n -> off + n <= len m -> exists z, load_u m off n = Some z.
Proof. intros. unfold load_u. rewrite mem_read_ok by lia. eauto. Qed.

(** ** C strings *)

Lemma strlen_list_bound m n : strlen_list m = Some n -> 0 <= n < len m.
Proof.
  revert n. induction m as [|b m IH]; intros n; cbn; [discriminate|].
  case_bool; intros; inv_opt; unfold len in *; cbn [length]; [lia|].
  edestruct IH; [done|]. lia.
Qed.

Lemma strlen_list_app m m2 n :
  strlen_list m = Some n -> strlen_list (m ++ m2) = Some n.
Proof.
  revert n. induction m as [|b m IH]; intros n; cbn; [discriminate|].
  case_bool; intros; inv_opt; [done|]. by erewrite IH.
Qed.

Lemma strlen_list_take m n :
  strlen_list m = Some n -> strlen_list (take (Z.to_nat (n + 1)) m) = Some n.
Proof.
  revert n. induction m as [|b m IH]; intros n; cbn; [discriminate|].
  case_bool; intros; inv_opt.
  - cbn. by rewrite Heqb0.
  - pose proof (strlen_list_bound _ _ ltac:(eassumption)).
    replace (Z.to_nat (1 + x + 1)) with (S (Z.to_nat (x + 1))) by lia.
    cbn. rewrite Heqb0. by rewrite IH.
Qed.

Lemma strlen_bound m off n : strlen m off = Some n -> 0 <= off /\ 0 <= n /\ off + n < len m.
Proof.
  unfold strlen. case_bool; [|discriminate]. bool_to_prop.
  intros ?%strlen_list_bound. unfold len in *. rewrite length_drop in *. lia.
Qed.

Lemma strlen_read m off n :
  strlen m off = Some n -> exists d, mem_read m off (n + 1) = Some d /\
    strlen_list d = Some n /\ len d = n + 1.
Proof.
  intros Hs. pose proof (strlen_bound _ _ _ Hs).
  eexists. split; [apply mem_read_ok; lia|]. split; [|apply len_slice; lia].
  unfold strlen in Hs. case_bool; [|discriminate]. by apply strlen_list_take.
Qed.

(** A string written at [off] can be read back there. *)
Lemma strlen_write m off d m' n :
  mem_write m off d = Some m' -> strlen_list d = Some n -> strlen m' off = Some n.
Proof.
  intros Hw Hn. pose proof (strlen_list_bound _ _ Hn).
  pose proof (mem_write_len _ _ _ _ Hw).
  apply mem_write_Some in Hw as (?&?&->). unfold strlen.
  rewrite (proj2 (Z.leb_le 0 off)), (proj2 (Z.leb_le off _)) by lia. cbn.
  unfold splice. rewrite drop_app_length' by (rewrite length_take; unfold len in *; lia).
  by apply strlen_list_app.
Qed.

Lemma strlen_write_other m off d m' o n :
  mem_write m off d = Some m' -> strlen m o = Some n ->
  o + n < off \/ off + len d <= o -> strlen m' o = Some n.
Proof.
  intros Hw Hs Hsep. destruct (strlen_read _ _ _ Hs) as (s & Hr & Hl & Hn).
  pose proof (strlen_bound _ _ _ Hs).
  rewrite <- (read_write_other _ _ _ _ _ _ Hw) in Hr by lia.
  apply mem_read_Some in Hr as (?&?&?&->).
  unfold strlen. rewrite (proj2 (Z.leb_le 0 o)), (proj2 (Z.leb_le o _)) by lia. cbn.
  rewrite <- (take_drop (Z.to_nat (n + 1)) (drop (Z.to_nat o) m')).
  by apply strlen_list_app.
Qed.

(** ** Automation

    [csizes] unfolds the size constants, [szlia] decides the bounds that
    remain; [mem_step] performs one memory access of the goal. *)
Create HintDb csizes.
#[export] Hint Unfold sz_int sz_i64 sz_ptr : csizes.

Ltac szlia := autounfold with csizes in *; lia.

Ltac len_simpl :=
  rewrite ?len_enc in * by (autounfold with csizes; lia);
  rewrite ?len_zeros in * by (autounfold with csizes; lia).

Ltac mem_unfold :=
  unfold memcpy, memset0, store_int, load_int, store_i64, load_i64, store_ptr, load_ptr, store in *.

Ltac mem_fact :=
  match goal with
  | H : mem_read ?m ?o ?n = Some ?d |- _ =>
      lazymatch goal with
      | _ : len d = _ |- _ => fail
      | _ => pose proof (mem_read_len _ _ _ _ H)
      end
  end.

Ltac mem_rw :=
  match goal with
  | H : mem_read ?m ?o ?n = Some ?d |- context [mem_read ?m ?o ?n] => rewrite H
  | H : mem_write ?m ?o ?d = Some ?m' |- context [mem_read ?m' ?o2 ?n] =>
      first
        [ rewrite (read_write_other _ _ _ _ o2 n H)
            by (len_simpl; szlia)
        | rewrite (read_write_same _ _ _ _ o2 n H)
            by (len_simpl; szlia) ]
  | H : mem_write ?m ?o (enc ?k ?z) = Some ?m' |- context [load_s ?m' ?o2 ?n] =>
      rewrite (load_s_store_same _ _ _ _ _ o2 n H)
        by first [assumption | szlia]
  | H : mem_write ?m ?o (enc ?k ?z) = Some ?m' |- context [load_u ?m' ?o2 ?n] =>
      rewrite (load_u_store_same _ _ _ _ _ o2 n H)
        by first [assumption | szlia]
  | H : mem_write ?m ?o ?d = Some ?m' |- context [load_s ?m' ?o2 ?n] =>
      rewrite (load_s_write_other _ _ _ _ o2 n H) by (len_simpl; szlia)
  | H : mem_write ?m ?o ?d = Some ?m' |- context [load_u ?m' ?o2 ?n] =>
      rewrite (load_u_write_other _ _ _ _ o2 n H) by (len_simpl; szlia)
  | |- context [mem_read (?m ++ ?x) ?o ?n] => rewrite (mem_read_app m x o n) by szlia
  | |- context [load_s (?m ++ ?x) ?o ?n] => rewrite (load_s_app m x o n) by szlia
  | |- context [load_u (?m ++ ?x) ?o ?n] => rewrite (load_u_app m x o n) by szlia
  | |- context [mem_read ?m ?o ?n] =>
      first [ rewrite (mem_read_all m n) by szlia
            | let H := fresh "Hrd" in
              let d := fresh "d" in
              destruct (mem_read_fits m o n) as (d & H & ?);
              [ szlia | szlia | szlia | rewrite H ] ]
  | |- context [mem_write ?m 0 ?d] =>
      rewrite (mem_write_all m d) by (len_simpl; szlia)
  | |- context [mem_write ?m ?o ?d] =>
      let m' := fresh "m" in let Hw := fresh "Hw" in let Hl := fresh "Hl" in
      destruct (mem_write_fits m o d) as (m' & Hw & Hl);
      [ len_simpl; szlia | len_simpl; szlia | rewrite Hw ]
  end; cbn [mbind option_bind].

Ltac mem_step := repeat mem_fact; mem_rw.

Ltac mem_run := mem_unfold; cbn [mbind option_bind]; repeat mem_step.

(** The lengths implied by accesses that succeeded. *)
Ltac mem_lens :=
  repeat match goal with
    | H : mem_write ?m ?o ?d = Some ?m' |- _ =>
        lazymatch goal with
        | _ : len m' = len m |- _ => fail
        | _ => pose proof (mem_write_len _ _ _ _ H);
               pose proof (proj1 (proj2 (proj1 (mem_write_Some _ _ _ _) H)))
        end
    | H : mem_read ?m ?o ?n = Some ?d |- _ =>
        lazymatch goal with
        | _ : len d = n |- _ => fail
        | _ => pose proof (mem_read_len _ _ _ _ H)
        end
    end.
