(* ===== verification/UnixFile.v ===== *)
(** The [unixFile] object (src/sqlite-src-3280000/src/os_unix.c) as raw bytes.

    os_remote ships the whole object over the wire with [memcpy], so it is
    modelled as a region of [SIZE_UNIXFILE] bytes with an accessor per field.
    The field list is the one of the configuration that os_remote builds:
    Linux, [SQLITE_MAX_MMAP_SIZE > 0], no locking styles, no debugging. *)
From S2P Require Import Prelude CMem.

(** The fields of [struct unixFile], in order. *)
Definition unixFile_fields : list ctype :=
  [ TPtr;   (* pMethod *)
    TPtr;   (* pVfs *)
    TPtr;   (* pInode *)
    TInt;   (* h *)
    TU8;    (* eFileLock *)
    TU16;   (* ctrlFlags *)
    TInt;   (* lastErrno *)
    TPtr;   (* lockingContext *)
    TPtr;   (* pPreallocatedUnused *)
    TPtr;   (* zPath *)
    TPtr;   (* pShm *)
    TInt;   (* szChunk *)
    TInt;   (* nFetchOut *)
    TI64;   (* mmapSize *)
    TI64;   (* mmapSizeActual *)
    TI64;   (* mmapSizeMax *)
    TPtr;   (* pMapRegion *)
    TInt;   (* sectorSize *)
    TInt    (* deviceCharacteristics *) ].

Definition SIZE_UNIXFILE : Z := Eval cbv in sizeof_struct unixFile_fields.

Definition off_pMethod : Z := Eval cbv in field_offset unixFile_fields 0.
Definition off_pVfs : Z := Eval cbv in field_offset unixFile_fields 1.
Definition off_pInode : Z := Eval cbv in field_offset unixFile_fields 2.
Definition off_h : Z := Eval cbv in field_offset unixFile_fields 3.
Definition off_eFileLock : Z := Eval cbv in field_offset unixFile_fields 4.
Definition off_ctrlFlags : Z := Eval cbv in field_offset unixFile_fields 5.
Definition off_lastErrno : Z := Eval cbv in field_offset unixFile_fields 6.
Definition off_pUnused : Z := Eval cbv in field_offset unixFile_fields 8.
Definition off_zPath : Z := Eval cbv in field_offset unixFile_fields 9.
Definition off_szChunk : Z := Eval cbv in field_offset unixFile_fields 11.
Definition off_nFetchOut : Z := Eval cbv in field_offset unixFile_fields 12.
Definition off_mmapSize : Z := Eval cbv in field_offset unixFile_fields 13.
Definition off_mmapSizeActual : Z := Eval cbv in field_offset unixFile_fields 14.
Definition off_mmapSizeMax : Z := Eval cbv in field_offset unixFile_fields 15.
Definition off_pMapRegion : Z := Eval cbv in field_offset unixFile_fields 16.
Definition off_sectorSize : Z := Eval cbv in field_offset unixFile_fields 17.
Definition off_deviceCharacteristics : Z := Eval cbv in field_offset unixFile_fields 18.

#[export] Hint Unfold SIZE_UNIXFILE off_pMethod off_pVfs off_pInode off_h off_eFileLock
  off_ctrlFlags off_lastErrno off_pUnused off_zPath off_szChunk off_nFetchOut
  off_mmapSize off_mmapSizeActual off_mmapSizeMax off_pMapRegion off_sectorSize
  off_deviceCharacteristics : csizes.

(** The fields os_remote itself reads or writes. *)
Definition uf_pMethods (f : region) : option Z := load_ptr f off_pMethod.
Definition uf_set_pMethods (f : region) (m : Z) : option region := store_ptr f off_pMethod m.
Definition uf_h (f : region) : option Z := load_int f off_h.
Definition uf_zPath (f : region) : option Z := load_ptr f off_zPath.
Definition uf_set_zPath (f : region) (p : Z) : option region := store_ptr f off_zPath p.

(** A file object is a full [unixFile]. *)
Definition is_unixFile (f : region) : Prop := len f = SIZE_UNIXFILE.

#[global] Instance is_unixFile_dec f : Decision (is_unixFile f).
Proof. unfold is_unixFile. apply _. Defined.

(** Two file objects with the same bytes outside the fields [pMethod] and
    [zPath], the two the server fills in for itself. *)
Definition same_handle (f g : region) : Prop :=
  len f = len g /\
  forall o n, 0 <= o -> 0 <= n -> o + n <= len f ->
    off_pMethod + sz_ptr <= o -> o + n <= off_zPath \/ off_zPath + sz_ptr <= o ->
    mem_read f o n = mem_read g o n.

#[global] Instance same_handle_equiv : Equivalence same_handle.
Proof.
  split.
  - intros f. by split.
  - intros f g [Hl Hr]. split; [done|]. intros. symmetry. apply Hr; lia.
  - intros f g k [Hl Hr] [Hl' Hr']. split; [lia|].
    intros. rewrite Hr by lia. apply Hr'; lia.
Qed.

Lemma uf_h_ok f : is_unixFile f -> exists h, uf_h f = Some h /\ in_s 32 h.
Proof.
  unfold is_unixFile. intros Hf. destruct (load_s_fits f off_h sz_int) as [h Hh]; [szlia..|].
  exists h. split; [done|]. by apply load_s_range in Hh; [|szlia].
Qed.

Lemma same_handle_h f g : same_handle f g -> is_unixFile f -> uf_h f = uf_h g.
Proof.
  intros [Hl Hr] Hf. unfold uf_h, load_int, load_s, is_unixFile in *.
  rewrite Hr by szlia. done.
Qed.

Lemma set_pMethods_ok f m :
  is_unixFile f -> exists f', uf_set_pMethods f m = Some f' /\ is_unixFile f' /\
    same_handle f f' /\ uf_zPath f' = uf_zPath f /\ (in_u 64 m -> uf_pMethods f' = Some m).
Proof.
  unfold is_unixFile, uf_set_pMethods, uf_zPath, uf_pMethods. intros Hf. mem_unfold.
  mem_step. eexists. split; [done|]. split; [lia|]. split_and!.
  - split; [lia|]. intros. by mem_step.
  - by mem_step.
  - intros. by mem_step.
Qed.

Lemma set_zPath_ok f m :
  is_unixFile f -> exists f', uf_set_zPath f m = Some f' /\ is_unixFile f' /\
    same_handle f f' /\ uf_pMethods f' = uf_pMethods f /\ (in_u 64 m -> uf_zPath f' = Some m).
Proof.
  unfold is_unixFile, uf_set_zPath, uf_zPath, uf_pMethods. intros Hf. mem_unfold.
  mem_step. eexists. split; [done|]. split; [lia|]. split_and!.
  - split; [lia|]. intros. by mem_step.
  - by mem_step.
  - intros. by mem_step.
Qed.

Lemma is_unixFile_zeros : is_unixFile (zeros SIZE_UNIXFILE).
Proof. reflexivity. Qed.
