(* ===== verification/OsRemoteInit.v ===== *)
(** The client's VFS registration (src/os_remote/os_remote_init.c): the remote
    method table, the methods that are stubs, and [setClientRemotePMethods]. *)
From S2P Require Import Prelude CMem UnixFile.
From stdpp Require Import strings.
Local Open Scope Z_scope.

Definition SQLITE_OK : Z := 0.

(** ** The methods that are not implemented

    Each prints a message and returns a constant; none touches its
    arguments. [remoteShmMap] leaves [*pp] as it was. *)
Definition remoteShmMap (fd : region) (iRegion szRegion bExtend : Z) (pp : Z) : Z * Z := (0, pp).

Definition remoteShmLock (fd : region) (ofst n flags : Z) : Z := 0.

Definition remoteShmBarrier (fd : region) : unit := tt.

Definition remoteShmUnmap (fd : region) (deleteFlag : Z) : Z := 0.

Definition remoteSetSystemCall (zName : region) (pNewFunc : Z) : Z := 0.

Definition remoteGetSystemCall (zName : region) : Z := 0.

Definition remoteNextSystemCall (zName : region) : Z := 0.

(** ** The method tables

    [io_methods] is [sqlite3_io_methods] with each slot naming the function
    that fills it. *)
Record io_methods := {
  iVersion : Z;
  xClose : string; xRead : string; xWrite : string; xTruncate : string; xSync : string;
  xFileSize : string; xLock : string; xUnlock : string; xCheckReservedLock : string;
  xFileControl : string; xSectorSize : string; xDeviceCharacteristics : string;
  xShmMap : string; xShmLock : string; xShmBarrier : string; xShmUnmap : string;
  xFetch : string; xUnfetch : string }.

(** The macro [REMOTE_IOMTETHODS]. *)
Definition REMOTE_IOMTETHODS (version : Z) (close lock unlock cklock shmmap : string) : io_methods :=
  {| iVersion := version;
     xClose := close;
     xRead := "remoteRead";
     xWrite := "remoteWrite";
     xTruncate := "remoteTruncate";
     xSync := "remoteSync";
     xFileSize := "remoteFileSize";
     xLock := lock;
     xUnlock := unlock;
     xCheckReservedLock := cklock;
     xFileControl := "remoteFileControl";
     xSectorSize := "remoteSectorSize";
     xDeviceCharacteristics := "remoteDeviceCharacteristics";
     xShmMap := shmmap;
     xShmLock := "remoteShmLock";
     xShmBarrier := "remoteShmBarrier";
     xShmUnmap := "remoteShmUnmap";
     xFetch := "remoteFetch";
     xUnfetch := "remoteUnfetch" |}.

Definition remote_posixIoMethods : io_methods :=
  REMOTE_IOMTETHODS 3 "remoteClose" "remoteLock" "remoteUnlock" "remoteCheckReservedLock"
    "remoteShmMap".

Section client.

(** The address of [remote_posixIoMethods] in the client process. *)
Variable remote_posixIoMethods_addr : Z.

(** [setClientRemotePMethods]: a file with methods gets the remote ones; a
    file without methods (not open) keeps none. *)
Definition setClientRemotePMethods (pf : region) : option region :=
  m ← uf_pMethods pf;
  if m =? 0 then Some pf else uf_set_pMethods pf remote_posixIoMethods_addr.

Lemma setClientRemotePMethods_ok f :
  is_unixFile f ->
  exists f', setClientRemotePMethods f = Some f' /\ is_unixFile f' /\ same_handle f f' /\
    uf_zPath f' = uf_zPath f.
Proof.
  intros Hf. unfold setClientRemotePMethods, uf_pMethods, load_ptr.
  destruct (load_u_fits f off_pMethod sz_ptr) as [m Hm]; [unfold is_unixFile in Hf; szlia..|].
  rewrite Hm. cbn. case_bool.
  - eexists. split_and!; [done|done|reflexivity|done].
  - destruct (set_pMethods_ok f remote_posixIoMethods_addr Hf) as (f' & ? & ? & ? & ? & ?).
    eexists. split_and!; eauto.
Qed.

End client.
