(* ===== verification/ArgConvert.v ===== *)
(** The argument marshalling of os_remote (src/os_remote/common/os_arg_convert.c).

    Four functions per VFS method, line for line: the client packs its
    arguments into a byte array, the server unpacks them, packs its results,
    and the client unpacks those.  A pointer parameter that is only read is
    passed as the region it points to; one that is written is returned.  A
    nullable pointer is an [option]. *)
From S2P Require Import Prelude CMem UnixFile OsRemoteInit.

Definition MAX_SIZE : Z := 8192.

(** Sizes of the request and reply structures, padding included. *)
Definition sizeof_ArgInInit : Z := Eval cbv in sizeof_struct [].
Definition sizeof_ReturnInit : Z := Eval cbv in sizeof_struct [TInt].
Definition sizeof_ArgInOpen : Z :=
  Eval cbv in sizeof_struct [TChars 512; TChars SIZE_UNIXFILE; TInt; TInt].
Definition sizeof_ReturnOpen : Z := Eval cbv in sizeof_struct [TChars SIZE_UNIXFILE; TInt; TInt].
Definition sizeof_ArgInDelete : Z := Eval cbv in sizeof_struct [TChars 512; TInt].
Definition sizeof_ReturnDelete : Z := Eval cbv in sizeof_struct [TInt].
Definition sizeof_ArgInAccess : Z := Eval cbv in sizeof_struct [TChars 512; TInt; TInt].
Definition sizeof_ReturnAccess : Z := Eval cbv in sizeof_struct [TInt; TInt].
Definition sizeof_ArgInGetLastError : Z := Eval cbv in sizeof_struct [TInt; TChars 2].
Definition sizeof_ReturnGetLastError : Z := Eval cbv in sizeof_struct [TInt].
Definition sizeof_ArgInRead : Z :=
  Eval cbv in sizeof_struct [TChars SIZE_UNIXFILE; TChars MAX_SIZE; TInt; TI64].
Definition sizeof_ReturnRead : Z :=
  Eval cbv in sizeof_struct [TChars SIZE_UNIXFILE; TChars MAX_SIZE; TInt].
Definition sizeof_ArgInWrite : Z :=
  Eval cbv in sizeof_struct [TChars SIZE_UNIXFILE; TChars MAX_SIZE; TInt; TI64].
Definition sizeof_ReturnWrite : Z :=
  Eval cbv in sizeof_struct [TChars SIZE_UNIXFILE; TChars MAX_SIZE; TInt].
Definition sizeof_ArgInTruncate : Z := Eval cbv in sizeof_struct [TChars SIZE_UNIXFILE; TI64].
Definition sizeof_ReturnTruncate : Z := Eval cbv in sizeof_struct [TChars SIZE_UNIXFILE; TInt].
Definition sizeof_ArgInSync : Z := Eval cbv in sizeof_struct [TChars SIZE_UNIXFILE; TInt].
Definition sizeof_ReturnSync : Z := Eval cbv in sizeof_struct [TChars SIZE_UNIXFILE; TInt].
Definition sizeof_ArgInFileSize : Z := Eval cbv in sizeof_struct [TChars SIZE_UNIXFILE; TI64].
Definition sizeof_ReturnFileSize : Z :=
  Eval cbv in sizeof_struct [TChars SIZE_UNIXFILE; TI64; TInt].
Definition sizeof_ArgInFileControl : Z :=
  Eval cbv in sizeof_struct [TChars SIZE_UNIXFILE; TInt; TChars 512; TInt].
Definition sizeof_ReturnFileControl : Z :=
  Eval cbv in sizeof_struct [TChars SIZE_UNIXFILE; TChars 512; TInt; TInt].
Definition sizeof_ArgInSectorSize : Z := Eval cbv in sizeof_struct [TChars SIZE_UNIXFILE].
Definition sizeof_ReturnSectorSize : Z := Eval cbv in sizeof_struct [TChars SIZE_UNIXFILE; TInt].
Definition sizeof_ArgInDeviceCharacteristics : Z :=
  Eval cbv in sizeof_struct [TChars SIZE_UNIXFILE].
Definition sizeof_ReturnDeviceCharacteristics : Z :=
  Eval cbv in sizeof_struct [TChars SIZE_UNIXFILE; TInt].
Definition sizeof_ArgInClose : Z := Eval cbv in sizeof_struct [TChars SIZE_UNIXFILE].
Definition sizeof_ReturnClose : Z := Eval cbv in sizeof_struct [TChars SIZE_UNIXFILE; TInt].
Definition sizeof_ArgInLock : Z := Eval cbv in sizeof_struct [TChars SIZE_UNIXFILE; TInt].
Definition sizeof_ReturnLock : Z := Eval cbv in sizeof_struct [TChars SIZE_UNIXFILE; TInt].
Definition sizeof_ArgInUnlock : Z := Eval cbv in sizeof_struct [TChars SIZE_UNIXFILE; TInt].
Definition sizeof_ReturnUnlock : Z := Eval cbv in sizeof_struct [TChars SIZE_UNIXFILE; TInt].
Definition sizeof_ArgInCheckReservedLock : Z :=
  Eval cbv in sizeof_struct [TChars SIZE_UNIXFILE; TInt].
Definition sizeof_ReturnCheckReservedLock : Z :=
  Eval cbv in sizeof_struct [TChars SIZE_UNIXFILE; TInt; TInt].
Definition sizeof_ArgInFetch : Z :=
  Eval cbv in sizeof_struct [TChars SIZE_UNIXFILE; TI64; TInt; TChars MAX_SIZE].
Definition sizeof_ReturnFetch : Z :=
  Eval cbv in sizeof_struct [TChars SIZE_UNIXFILE; TChars MAX_SIZE; TInt].
Definition sizeof_ArgInUnfetch : Z := Eval cbv in sizeof_struct [TChars SIZE_UNIXFILE; TI64; TInt].
Definition sizeof_ReturnUnfetch : Z := Eval cbv in sizeof_struct [TChars SIZE_UNIXFILE; TInt].

#[export] Hint Unfold MAX_SIZE sizeof_ArgInInit sizeof_ReturnInit sizeof_ArgInOpen
  sizeof_ReturnOpen sizeof_ArgInDelete sizeof_ReturnDelete sizeof_ArgInAccess
  sizeof_ReturnAccess sizeof_ArgInGetLastError sizeof_ReturnGetLastError sizeof_ArgInRead
  sizeof_ReturnRead sizeof_ArgInWrite sizeof_ReturnWrite sizeof_ArgInTruncate
  sizeof_ReturnTruncate sizeof_ArgInSync sizeof_ReturnSync sizeof_ArgInFileSize
  sizeof_ReturnFileSize sizeof_ArgInFileControl sizeof_ReturnFileControl
  sizeof_ArgInSectorSize sizeof_ReturnSectorSize sizeof_ArgInDeviceCharacteristics
  sizeof_ReturnDeviceCharacteristics sizeof_ArgInClose sizeof_ReturnClose sizeof_ArgInLock
  sizeof_ReturnLock sizeof_ArgInUnlock sizeof_ReturnUnlock sizeof_ArgInCheckReservedLock
  sizeof_ReturnCheckReservedLock sizeof_ArgInFetch sizeof_ReturnFetch sizeof_ArgInUnfetch
  sizeof_ReturnUnfetch : csizes.

(** ** File-control opcodes (sqlite3.h) *)

Definition SQLITE_FCNTL_LOCKSTATE : Z := 1.
Definition SQLITE_FCNTL_GET_LOCKPROXYFILE : Z := 2.
Definition SQLITE_FCNTL_SET_LOCKPROXYFILE : Z := 3.
Definition SQLITE_FCNTL_LAST_ERRNO : Z := 4.
Definition SQLITE_FCNTL_SIZE_HINT : Z := 5.
Definition SQLITE_FCNTL_CHUNK_SIZE : Z := 6.
Definition SQLITE_FCNTL_PERSIST_WAL : Z := 10.
Definition SQLITE_FCNTL_VFSNAME : Z := 12.
Definition SQLITE_FCNTL_POWERSAFE_OVERWRITE : Z := 13.
Definition SQLITE_FCNTL_BUSYHANDLER : Z := 15.
Definition SQLITE_FCNTL_TEMPFILENAME : Z := 16.
Definition SQLITE_FCNTL_MMAP_SIZE : Z := 18.
Definition SQLITE_FCNTL_HAS_MOVED : Z := 20.
Definition SQLITE_FCNTL_PDB : Z := 30.
Definition SQLITE_FCNTL_LOCK_TIMEOUT : Z := 34.

(** The type of the argument of a file-control: 1 int, 2 i64, 3 char*, 0 other. *)
Definition ControlType (op : Z) : Z :=
  if (SQLITE_FCNTL_LOCKSTATE =? op) || (SQLITE_FCNTL_LAST_ERRNO =? op)
     || (SQLITE_FCNTL_CHUNK_SIZE =? op) || (SQLITE_FCNTL_PERSIST_WAL =? op)
     || (SQLITE_FCNTL_POWERSAFE_OVERWRITE =? op) || (SQLITE_FCNTL_HAS_MOVED =? op)
     || (SQLITE_FCNTL_LOCK_TIMEOUT =? op) then 1
  else if (SQLITE_FCNTL_SIZE_HINT =? op) || (SQLITE_FCNTL_MMAP_SIZE =? op)
     || (SQLITE_FCNTL_PDB =? op) || (SQLITE_FCNTL_BUSYHANDLER =? op)
     || (SQLITE_FCNTL_CHUNK_SIZE =? op) || (SQLITE_FCNTL_PERSIST_WAL =? op) then 2
  else if (SQLITE_FCNTL_VFSNAME =? op) || (SQLITE_FCNTL_TEMPFILENAME =? op)
     || (SQLITE_FCNTL_GET_LOCKPROXYFILE =? op) then 3
  else 0.

(** [LenFileControlPArg]; [deref] is the memory of the process that calls it:
    the object that starts at an address, [None] when there is none. *)
Definition LenFileControlPArg (deref : Z -> option region) (op : Z) (pArg : option region)
    : option Z :=
  match pArg with
  | None => Some 0
  | Some pArg =>
      let type := ControlType op in
      if type =? 1 then Some sz_int
      else if type =? 2 then Some sz_i64
      else if type =? 3 then p ← load_ptr pArg 0; s ← deref p; strlen s 0
      else Some 0
  end.

Section convert.

(** The address of [remote_posixIoMethods] in the client process. *)
Variable remote_methods : Z.

Local Abbreviation setClientRemotePMethods :=
  (OsRemoteInit.setClientRemotePMethods remote_methods).

(** ** sqlite3_os_init *)

Definition sqlite3_os_initConvertCharToReturn (arg : region) : option Z := load_int arg 0.

Definition sqlite3_os_initConvertReturnToChar (rc : Z) (arg : region) : option region :=
  store_int arg 0 rc.

(** ** unixOpen *)

Definition unixOpenConvertArgInToChar (zPath pFile : region) (flags : Z) (pOutFlags : option Z)
    (arg : region) : option region :=
  arg ← strcpy arg 0 zPath 0;
  arg ← memcpy arg 512 pFile 0 SIZE_UNIXFILE;
  arg ← store_int arg (512 + SIZE_UNIXFILE) flags;
  let f := match pOutFlags with None => -1 | Some f => f end in
  store_int arg (512 + SIZE_UNIXFILE + sz_int) f.

Definition unixOpenConvertCharToReturn (arg pFile : region) (pOutFlags : option Z)
    : option (region * option Z * Z) :=
  pFile ← memcpy pFile 0 arg 0 SIZE_UNIXFILE;
  temp ← load_int arg SIZE_UNIXFILE;
  pRc ← load_int arg (SIZE_UNIXFILE + sz_int);
  pOutFlags ← (if -1 =? temp then Some pOutFlags
               else match pOutFlags with
                    | None => None
                    | Some _ => o ← load_int arg SIZE_UNIXFILE; Some (Some o)
                    end);
  pFile ← setClientRemotePMethods pFile;
  Some (pFile, pOutFlags, pRc).

Definition unixOpenConvertCharToArgIn (arg zPath pFile : region)
    : option (region * region * Z * Z) :=
  zPath ← strcpy zPath 0 arg 0;
  pFile ← memcpy pFile 0 arg 512 SIZE_UNIXFILE;
  flags ← load_int arg (512 + SIZE_UNIXFILE);
  pOutFlags ← load_int arg (512 + SIZE_UNIXFILE + sz_int);
  Some (zPath, pFile, flags, pOutFlags).

Definition unixOpenConvertReturnToChar (pFile : region) (pOutFlags pRc : Z) (arg : region)
    : option region :=
  arg ← memcpy arg 0 pFile 0 SIZE_UNIXFILE;
  arg ← store_int arg SIZE_UNIXFILE pOutFlags;
  store_int arg (SIZE_UNIXFILE + sz_int) pRc.

(** ** unixDelete *)

Definition unixDeleteConvertArgInToChar (zPath : region) (dirSync : Z) (arg : region)
    : option region :=
  arg ← strcpy arg 0 zPath 0;
  store_int arg 512 dirSync.

Definition unixDeleteConvertCharToReturn (arg : region) : option Z := load_int arg 0.

Definition unixDeleteConvertCharToArgIn (arg zPath : region) : option (region * Z) :=
  zPath ← strcpy zPath 0 arg 0;
  dirSync ← load_int arg 512;
  Some (zPath, dirSync).

Definition unixDeleteConvertReturnToChar (pRC : Z) (arg : region) : option region :=
  store_int arg 0 pRC.

(** ** unixAccess *)

Definition unixAccessConvertArgInToChar (zPath : region) (flags pResOut : Z) (arg : region)
    : option region :=
  arg ← strcpy arg 0 zPath 0;
  arg ← store_int arg 512 flags;
  store_int arg (512 + sz_int) pResOut.

Definition unixAccessConvertCharToReturn (arg : region) : option (Z * Z) :=
  pResOut ← load_int arg 0;
  pRc ← load_int arg sz_int;
  Some (pResOut, pRc).

Definition unixAccessConvertCharToArgIn (arg zPath : region) : option (region * Z * Z) :=
  zPath ← strcpy zPath 0 arg 0;
  flags ← load_int arg 512;
  pResOut ← load_int arg (512 + sz_int);
  Some (zPath, flags, pResOut).

Definition unixAccessConvertReturnToChar (pResOut pRc : Z) (arg : region) : option region :=
  arg ← store_int arg 0 pResOut;
  store_int arg sz_int pRc.

(** ** unixFullPathname

    [sizeof(int) + nOut] is computed in [size_t] and truncated to [int]. *)

Definition getFullPathname_ARG_LEN (nOut : Z) : Z := wrap_s 32 (wrap_u 64 (sz_int + wrap_u 64 nOut)).

Definition getFullPathname_RETURN_LEN (nOut : Z) : Z :=
  wrap_s 32 (wrap_u 64 (sz_int + wrap_u 64 nOut)).

Definition getFullPathname_OUT_LEN (arg : region) : option Z := load_int arg 0.

Definition unixFullPathnameConvertArgInToChar (zPath : region) (nOut : Z) (arg : region)
    : option region :=
  arg ← store_int arg 0 nOut;
  memcpy arg sz_int zPath 0 nOut.

Definition unixFullPathnameConvertCharToReturn (arg : region) (nOut : Z) (zOut : region)
    : option (region * Z) :=
  zOut ← memcpy zOut 0 arg 0 nOut;
  pRc ← load_int arg nOut;
  Some (zOut, pRc).

Definition unixFullPathnameConvertCharToArgIn (arg zPath : region) : option (region * Z) :=
  nOut ← getFullPathname_OUT_LEN arg;
  zPath ← strcpy zPath 0 arg sz_int;
  Some (zPath, nOut).

Definition unixFullPathnameConvertReturnToChar (nOut : Z) (zOut : region) (pRc : Z) (arg : region)
    : option region :=
  arg ← strcpy arg 0 zOut 0;
  store_int arg nOut pRc.

(** ** unixGetLastError: nothing is sent. *)

Definition unixGetLastErrorConvertArgInToChar (NotUsed2 : Z) (NotUsed3 arg : region)
    : option region := Some arg.

Definition unixGetLastErrorConvertCharToReturn (arg : region) : option Z := load_int arg 0.

Definition unixGetLastErrorConvertCharToArgIn (arg : region) (NotUsed2 : Z) (NotUsed3 : region)
    : option (Z * region) := Some (NotUsed2, NotUsed3).

Definition unixGetLastErrorConvertReturnToChar (pRc_errno : Z) (arg : region) : option region :=
  store_int arg 0 pRc_errno.

(** ** unixRead *)

Definition unixReadConvertArgInToChar (id pBuf : region) (amt offset : Z) (arg : region)
    : option region :=
  arg ← memcpy arg 0 id 0 SIZE_UNIXFILE;
  arg ← memcpy arg SIZE_UNIXFILE pBuf 0 amt;
  arg ← store_int arg (SIZE_UNIXFILE + MAX_SIZE) amt;
  store_i64 arg (SIZE_UNIXFILE + MAX_SIZE + sz_int) offset.

Definition unixReadConvertCharToReturn (arg id pBuf : region) (amt : Z)
    : option (region * region * Z) :=
  id ← memcpy id 0 arg 0 SIZE_UNIXFILE;
  pBuf ← memcpy pBuf 0 arg SIZE_UNIXFILE amt;
  pRc ← load_int arg (SIZE_UNIXFILE + MAX_SIZE);
  id ← setClientRemotePMethods id;
  Some (id, pBuf, pRc).

Definition unixReadConvertCharToArgIn (arg id pBuf : region)
    : option (region * region * Z * Z) :=
  id ← memcpy id 0 arg 0 SIZE_UNIXFILE;
  amt ← load_int arg (SIZE_UNIXFILE + MAX_SIZE);
  pBuf ← memcpy pBuf 0 arg SIZE_UNIXFILE amt;
  offset ← load_i64 arg (SIZE_UNIXFILE + MAX_SIZE + sz_int);
  Some (id, pBuf, amt, offset).

Definition unixReadConvertReturnToChar (id pBuf : region) (amt pRc : Z) (arg : region)
    : option region :=
  arg ← memcpy arg 0 id 0 SIZE_UNIXFILE;
  arg ← memcpy arg SIZE_UNIXFILE pBuf 0 amt;
  store_int arg (SIZE_UNIXFILE + MAX_SIZE) pRc.

(** ** unixWrite: the reply does not carry the data back. *)

Definition unixWriteConvertArgInToChar (id pBuf : region) (amt offset : Z) (arg : region)
    : option region :=
  arg ← memcpy arg 0 id 0 SIZE_UNIXFILE;
  arg ← memcpy arg SIZE_UNIXFILE pBuf 0 amt;
  arg ← store_int arg (SIZE_UNIXFILE + MAX_SIZE) amt;
  store_i64 arg (SIZE_UNIXFILE + MAX_SIZE + sz_int) offset.

Definition unixWriteConvertCharToReturn (arg id : region) : option (region * Z) :=
  id ← memcpy id 0 arg 0 SIZE_UNIXFILE;
  pRc ← load_int arg (SIZE_UNIXFILE + MAX_SIZE);
  id ← setClientRemotePMethods id;
  Some (id, pRc).

Definition unixWriteConvertCharToArgIn (arg id pBuf : region)
    : option (region * region * Z * Z) :=
  id ← memcpy id 0 arg 0 SIZE_UNIXFILE;
  amt ← load_int arg (SIZE_UNIXFILE + MAX_SIZE);
  pBuf ← memcpy pBuf 0 arg SIZE_UNIXFILE amt;
  offset ← load_i64 arg (SIZE_UNIXFILE + MAX_SIZE + sz_int);
  Some (id, pBuf, amt, offset).

Definition unixWriteConvertReturnToChar (id : region) (pRc : Z) (arg : region) : option region :=
  arg ← memcpy arg 0 id 0 SIZE_UNIXFILE;
  store_int arg (SIZE_UNIXFILE + MAX_SIZE) pRc.

(** ** unixTruncate *)

Definition unixTruncateConvertArgInToChar (id : region) (nByte : Z) (arg : region)
    : option region :=
  arg ← memcpy arg 0 id 0 SIZE_UNIXFILE;
  store_i64 arg SIZE_UNIXFILE nByte.

Definition unixTruncateConvertCharToReturn (arg id : region) : option (region * Z) :=
  id ← memcpy id 0 arg 0 SIZE_UNIXFILE;
  pRc ← load_int arg SIZE_UNIXFILE;
  id ← setClientRemotePMethods id;
  Some (id, pRc).

Definition unixTruncateConvertCharToArgIn (arg id : region) : option (region * Z) :=
  id ← memcpy id 0 arg 0 SIZE_UNIXFILE;
  nByte ← load_i64 arg SIZE_UNIXFILE;
  Some (id, nByte).

Definition unixTruncateConvertReturnToChar (id : region) (pRc : Z) (arg : region)
    : option region :=
  arg ← memcpy arg 0 id 0 SIZE_UNIXFILE;
  store_int arg SIZE_UNIXFILE pRc.

(** ** unixSync *)

Definition unixSyncConvertArgInToChar (id : region) (flags : Z) (arg : region) : option region :=
  arg ← memcpy arg 0 id 0 SIZE_UNIXFILE;
  store_int arg SIZE_UNIXFILE flags.

Definition unixSyncConvertCharToReturn (arg id : region) : option (region * Z) :=
  id ← memcpy id 0 arg 0 SIZE_UNIXFILE;
  pRc ← load_int arg SIZE_UNIXFILE;
  id ← setClientRemotePMethods id;
  Some (id, pRc).

Definition unixSyncConvertCharToArgIn (arg id : region) : option (region * Z) :=
  id ← memcpy id 0 arg 0 SIZE_UNIXFILE;
  flags ← load_int arg SIZE_UNIXFILE;
  Some (id, flags).

Definition unixSyncConvertReturnToChar (id : region) (pRc : Z) (arg : region) : option region :=
  arg ← memcpy arg 0 id 0 SIZE_UNIXFILE;
  store_int arg SIZE_UNIXFILE pRc.

(** ** unixFileSize *)

Definition unixFileSizeConvertArgInToChar (id : region) (pSize : Z) (arg : region)
    : option region :=
  arg ← memcpy arg 0 id 0 SIZE_UNIXFILE;
  store_i64 arg SIZE_UNIXFILE pSize.

Definition unixFileSizeConvertCharToReturn (arg id : region) : option (region * Z * Z) :=
  id ← memcpy id 0 arg 0 SIZE_UNIXFILE;
  pSize ← load_i64 arg SIZE_UNIXFILE;
  rc ← load_int arg (SIZE_UNIXFILE + sz_i64);
  id ← setClientRemotePMethods id;
  Some (id, pSize, rc).

Definition unixFileSizeConvertCharToArgIn (arg id : region) : option (region * Z) :=
  id ← memcpy id 0 arg 0 SIZE_UNIXFILE;
  pSize ← load_i64 arg SIZE_UNIXFILE;
  Some (id, pSize).

Definition unixFileSizeConvertReturnToChar (id : region) (pSize rc : Z) (arg : region)
    : option region :=
  arg ← memcpy arg 0 id 0 SIZE_UNIXFILE;
  arg ← store_i64 arg SIZE_UNIXFILE pSize;
  store_int arg (SIZE_UNIXFILE + sz_i64) rc.

(** ** unixFileControl: [pArg] is [None] for a null pointer. *)

Definition unixFileControlConvertArgInToChar (id : region) (op : Z) (pArg : option region)
    (arg : region) (size : Z) : option region :=
  arg ← memcpy arg 0 id 0 SIZE_UNIXFILE;
  arg ← store_int arg SIZE_UNIXFILE op;
  arg ← (if 0 <? size then p ← pArg; memcpy arg (SIZE_UNIXFILE + sz_int) p 0 size else Some arg);
  store_int arg (SIZE_UNIXFILE + sz_int + 512) size.

Definition unixFileControlConvertCharToReturn (arg id : region) (pArg : option region)
    : option (region * option region * Z) :=
  size ← load_int arg (SIZE_UNIXFILE + 512 + sz_int);
  id ← memcpy id 0 arg 0 SIZE_UNIXFILE;
  pArg ← (if 0 <? size
          then p ← pArg; p ← memcpy p 0 arg SIZE_UNIXFILE size; Some (Some p)
          else Some pArg);
  pRc ← load_int arg (SIZE_UNIXFILE + 512);
  id ← setClientRemotePMethods id;
  Some (id, pArg, pRc).

Definition unixFileControlConvertCharToArgIn (arg id pArg : region)
    : option (region * Z * region * Z) :=
  size ← load_int arg (SIZE_UNIXFILE + sz_int + 512);
  id ← memcpy id 0 arg 0 SIZE_UNIXFILE;
  op ← load_int arg SIZE_UNIXFILE;
  pArg ← (if 0 <? size then memcpy pArg 0 arg (SIZE_UNIXFILE + sz_int) size else Some pArg);
  Some (id, op, pArg, size).

Definition unixFileControlConvertReturnToChar (id pArg : region) (pRc : Z) (arg : region) (size : Z)
    : option region :=
  arg ← store_int arg (SIZE_UNIXFILE + 512 + sz_int) size;
  arg ← memcpy arg 0 id 0 SIZE_UNIXFILE;
  arg ← (if 0 <? size then memcpy arg SIZE_UNIXFILE pArg 0 size else Some arg);
  store_int arg (SIZE_UNIXFILE + 512) pRc.

(** ** unixSectorSize *)

Definition unixSectorSizeConvertArgInToChar (id arg : region) : option region :=
  memcpy arg 0 id 0 SIZE_UNIXFILE.

Definition unixSectorSizeConvertCharToReturn (arg id : region) : option (region * Z) :=
  id ← memcpy id 0 arg 0 SIZE_UNIXFILE;
  sectorSize ← load_int arg SIZE_UNIXFILE;
  id ← setClientRemotePMethods id;
  Some (id, sectorSize).

Definition unixSectorSizeConvertCharToArgIn (arg id : region) : option region :=
  memcpy id 0 arg 0 SIZE_UNIXFILE.

Definition unixSectorSizeConvertReturnToChar (id : region) (sectorSize : Z) (arg : region)
    : option region :=
  arg ← memcpy arg 0 id 0 SIZE_UNIXFILE;
  store_int arg SIZE_UNIXFILE sectorSize.

(** ** unixDeviceCharacteristics *)

Definition unixDeviceCharacteristicsConvertArgInToChar (id arg : region) : option region :=
  memcpy arg 0 id 0 SIZE_UNIXFILE.

Definition unixDeviceCharacteristicsConvertCharToReturn (arg id : region)
    : option (region * Z) :=
  id ← memcpy id 0 arg 0 SIZE_UNIXFILE;
  deviceCharacteristics ← load_int arg SIZE_UNIXFILE;
  id ← setClientRemotePMethods id;
  Some (id, deviceCharacteristics).

Definition unixDeviceCharacteristicsConvertCharToArgIn (arg id : region) : option region :=
  memcpy id 0 arg 0 SIZE_UNIXFILE.

Definition unixDeviceCharacteristicsConvertReturnToChar (id : region)
    (deviceCharacteristics : Z) (arg : region) : option region :=
  arg ← memcpy arg 0 id 0 SIZE_UNIXFILE;
  store_int arg SIZE_UNIXFILE deviceCharacteristics.

(** ** unixClose: the file object is not sent back. *)

Definition unixCloseConvertArgInToChar (id arg : region) : option region :=
  memcpy arg 0 id 0 SIZE_UNIXFILE.

Definition unixCloseConvertCharToReturn (arg id : region) : option (region * Z) :=
  rc ← load_int arg SIZE_UNIXFILE;
  id ← setClientRemotePMethods id;
  Some (id, rc).

Definition unixCloseConvertCharToArgIn (arg id : region) : option region :=
  memcpy id 0 arg 0 SIZE_UNIXFILE.

Definition unixCloseConvertReturnToChar (rc : Z) (arg : region) : option region :=
  store_int arg SIZE_UNIXFILE rc.

(** ** unixLock *)

Definition unixLockConvertArgInToChar (id : region) (eFileLock : Z) (arg : region)
    : option region :=
  arg ← memcpy arg 0 id 0 SIZE_UNIXFILE;
  store_int arg SIZE_UNIXFILE eFileLock.

Definition unixLockConvertCharToReturn (arg id : region) : option (region * Z) :=
  id ← memcpy id 0 arg 0 SIZE_UNIXFILE;
  pRc ← load_int arg SIZE_UNIXFILE;
  id ← setClientRemotePMethods id;
  Some (id, pRc).

Definition unixLockConvertCharToArgIn (arg id : region) : option (region * Z) :=
  id ← memcpy id 0 arg 0 SIZE_UNIXFILE;
  eFileLock ← load_int arg SIZE_UNIXFILE;
  Some (id, eFileLock).

Definition unixLockConvertReturnToChar (id : region) (pRc : Z) (arg : region) : option region :=
  arg ← memcpy arg 0 id 0 SIZE_UNIXFILE;
  store_int arg SIZE_UNIXFILE pRc.

(** ** unixUnlock *)

Definition unixUnlockConvertArgInToChar (id : region) (eFileLock : Z) (arg : region)
    : option region :=
  arg ← memcpy arg 0 id 0 SIZE_UNIXFILE;
  store_int arg SIZE_UNIXFILE eFileLock.

Definition unixUnlockConvertCharToReturn (arg id : region) : option (region * Z) :=
  id ← memcpy id 0 arg 0 SIZE_UNIXFILE;
  pRc ← load_int arg SIZE_UNIXFILE;
  id ← setClientRemotePMethods id;
  Some (id, pRc).

Definition unixUnlockConvertCharToArgIn (arg id : region) : option (region * Z) :=
  id ← memcpy id 0 arg 0 SIZE_UNIXFILE;
  eFileLock ← load_int arg SIZE_UNIXFILE;
  Some (id, eFileLock).

Definition unixUnlockConvertReturnToChar (id : region) (pRc : Z) (arg : region) : option region :=
  arg ← memcpy arg 0 id 0 SIZE_UNIXFILE;
  store_int arg SIZE_UNIXFILE pRc.

(** ** unixCheckReservedLock *)

Definition unixCheckReservedLockConvertArgInToChar (id : region) (pResOut : Z) (arg : region)
    : option region :=
  arg ← memcpy arg 0 id 0 SIZE_UNIXFILE;
  store_int arg SIZE_UNIXFILE pResOut.

Definition unixCheckReservedLockConvertCharToReturn (arg id : region)
    : option (region * Z * Z) :=
  id ← memcpy id 0 arg 0 SIZE_UNIXFILE;
  pResOut ← load_int arg SIZE_UNIXFILE;
  pRc ← load_int arg (SIZE_UNIXFILE + sz_int);
  id ← setClientRemotePMethods id;
  Some (id, pResOut, pRc).

Definition unixCheckReservedLockConvertCharToArgIn (arg id : region) : option (region * Z) :=
  id ← memcpy id 0 arg 0 SIZE_UNIXFILE;
  pResOut ← load_int arg SIZE_UNIXFILE;
  Some (id, pResOut).

Definition unixCheckReservedLockConvertReturnToChar (id : region) (pResOut pRc : Z) (arg : region)
    : option region :=
  arg ← memcpy arg 0 id 0 SIZE_UNIXFILE;
  arg ← store_int arg SIZE_UNIXFILE pResOut;
  store_int arg (SIZE_UNIXFILE + sz_int) pRc.

(** ** unixFetch: the server's mapping [pp] is copied into the reply. *)

Definition unixFetchConvertArgInToChar (fd : region) (iOff nAmt : Z) (arg : region)
    : option region :=
  arg ← memcpy arg 0 fd 0 SIZE_UNIXFILE;
  arg ← store_i64 arg SIZE_UNIXFILE iOff;
  store_int arg (SIZE_UNIXFILE + sz_i64) nAmt.

Definition unixFetchConvertCharToReturn (arg fd pp : region) (nAmt : Z)
    : option (region * region * Z) :=
  fd ← memcpy fd 0 arg 0 SIZE_UNIXFILE;
  pp ← memcpy pp 0 arg SIZE_UNIXFILE nAmt;
  rc ← load_int arg (SIZE_UNIXFILE + MAX_SIZE);
  fd ← setClientRemotePMethods fd;
  Some (fd, pp, rc).

Definition unixFetchConvertCharToArgIn (arg fd : region) : option (region * Z * Z) :=
  fd ← memcpy fd 0 arg 0 SIZE_UNIXFILE;
  iOff ← load_i64 arg SIZE_UNIXFILE;
  nAmt ← load_int arg (SIZE_UNIXFILE + sz_i64);
  Some (fd, iOff, nAmt).

Definition unixFetchsConvertReturnToChar (fd : region) (pp : option region) (nAmt rc : Z)
    (arg : region) : option region :=
  arg ← memcpy arg 0 fd 0 SIZE_UNIXFILE;
  pp ← pp;
  arg ← memcpy arg SIZE_UNIXFILE pp 0 nAmt;
  store_int arg (SIZE_UNIXFILE + MAX_SIZE) rc.

(** ** unixUnfetch: the client's copy back has length [sizeof(SIZE_UNIXFILE)],
    the size of a [size_t]. *)

Definition sizeof_SIZE_UNIXFILE : Z := 8.

#[local] Hint Unfold sizeof_SIZE_UNIXFILE : csizes.

Definition unixUnfetchConvertArgInToChar (fd : region) (iOff p_flag : Z) (arg : region)
    : option region :=
  arg ← memcpy arg 0 fd 0 SIZE_UNIXFILE;
  arg ← store_i64 arg SIZE_UNIXFILE iOff;
  store_int arg (SIZE_UNIXFILE + sz_i64) p_flag.

Definition unixUnfetchConvertCharToReturn (arg fd : region) : option (region * Z) :=
  fd ← memcpy fd 0 arg 0 sizeof_SIZE_UNIXFILE;
  rc ← load_int arg SIZE_UNIXFILE;
  fd ← setClientRemotePMethods fd;
  Some (fd, rc).

Definition unixUnfetchConvertCharToArgIn (arg fd : region) : option (region * Z * Z) :=
  fd ← memcpy fd 0 arg 0 SIZE_UNIXFILE;
  iOff ← load_i64 arg SIZE_UNIXFILE;
  p_flag ← load_int arg (SIZE_UNIXFILE + sz_i64);
  Some (fd, iOff, p_flag).

Definition unixUnfetchConvertReturnToChar (fd : region) (rc : Z) (arg : region) : option region :=
  arg ← memcpy arg 0 fd 0 SIZE_UNIXFILE;
  store_int arg SIZE_UNIXFILE rc.

End convert.
