(* ===== verification/MethodList.v ===== *)
(** The server's table of open descriptors (src/os_remote/common/os_arg_convert.c,
    [MethodAndFD] and the functions on [listHead]).

    The table is a singly linked list with a sentinel, held in a heap of nodes
    indexed by address.  [repr] relates the heap to the sequence of its nodes,
    [abs] reads that sequence as a finite map from descriptors; every operation
    is shown to be the corresponding operation on the map. *)
From S2P Require Import Prelude CMem UnixFile.

(** ** Data *)

Record MethodAndFD := mkNode { mf_fd : Z; mf_method : Z; mf_path : region; mf_next : Z }.

Definition MethodAndFD_fields : list ctype := [TInt; TPtr; TChars 512; TPtr].
Definition sizeof_MethodAndFD : Z := Eval cbv in sizeof_struct MethodAndFD_fields.
Definition off_path : Z := Eval cbv in field_offset MethodAndFD_fields 2.

#[export] Hint Unfold sizeof_MethodAndFD off_path : csizes.

(** The nodes allocated so far, the global [listHead] (0 for NULL), and the
    address of the next allocation. *)
Record mlist := mkList { heap : gmap Z MethodAndFD; listHead : Z; brk : Z }.

Definition set_next (n : MethodAndFD) (p : Z) : MethodAndFD :=
  mkNode (mf_fd n) (mf_method n) (mf_path n) p.
Definition set_method (n : MethodAndFD) (m : Z) : MethodAndFD :=
  mkNode (mf_fd n) m (mf_path n) (mf_next n).
Definition set_path (n : MethodAndFD) (p : region) : MethodAndFD :=
  mkNode (mf_fd n) (mf_method n) p (mf_next n).

Section methods.

(** The contents of a fresh allocation, by address. *)
Variable uninit : Z -> MethodAndFD.

(** The address of [posixIoMethods] in the server process. *)
Variable posixIoMethods : Z.

(** ** Operations *)

Definition malloc_node (s : mlist) : Z * mlist :=
  (brk s, mkList (<[brk s := uninit (brk s)]> (heap s)) (listHead s) (brk s + sizeof_MethodAndFD)).

Definition InitList (s : mlist) : mlist :=
  let '(a, s) := malloc_node s in
  mkList (<[a := set_next (uninit a) 0]> (heap s)) a (brk s).

(** [if (NULL == listHead) { InitList(); }] *)
Definition init_if_null (s : mlist) : mlist := if listHead s =? 0 then InitList s else s.

(** The loop of [FindNode]: the node with descriptor [fd] (0 if none) and the
    last node passed. *)
Fixpoint FindNode_loop (fuel : nat) (h : gmap Z MethodAndFD) (fd temp pre : Z) : option (Z * Z) :=
  if temp =? 0 then Some (0, pre)
  else
    n ← h !! temp;
    if fd =? mf_fd n then Some (temp, pre)
    else match fuel with
         | O => None
         | S fuel => FindNode_loop fuel h fd (mf_next n) temp
         end.

Definition FindNode (s : mlist) (fd pre : Z) : option (Z * Z * mlist) :=
  let s := init_if_null s in
  hd ← heap s !! listHead s;
  '(node, pre) ← FindNode_loop (size (heap s)) (heap s) fd (mf_next hd) pre;
  Some (node, pre, s).

Definition AddNode (s : mlist) (fd method : Z) : option mlist :=
  let s := init_if_null s in
  '(node, prev, s) ← FindNode s fd (listHead s);
  if node =? 0 then
    let '(temp, s) := malloc_node s in
    t ← heap s !! temp;
    let h := <[temp := mkNode fd method (mf_path t) node]> (heap s) in
    p ← h !! prev;
    Some (mkList (<[prev := set_next p temp]> h) (listHead s) (brk s))
  else
    n ← heap s !! node;
    Some (mkList (<[node := set_method n method]> (heap s)) (listHead s) (brk s)).

Definition DeleteNode (s : mlist) (fd : Z) : option mlist :=
  let s := init_if_null s in
  '(node, prev, s) ← FindNode s fd (listHead s);
  if node =? 0 then Some s
  else
    p ← heap s !! prev;
    pn ← heap s !! mf_next p;
    Some (mkList (delete node (<[prev := set_next p (mf_next pn)]> (heap s)))
            (listHead s) (brk s)).

(** [path] is the object the pointer argument points to. *)
Definition setServicePath (s : mlist) (fd : Z) (path : region) : option mlist :=
  '(node, prev, s) ← FindNode s fd (listHead s);
  if node =? 0 then Some s
  else
    n ← heap s !! node;
    p ← strcpy (mf_path n) 0 path 0;
    Some (mkList (<[node := set_path n p]> (heap s)) (listHead s) (brk s)).

Definition getServicePath (s : mlist) (fd : Z) (id : region) : option (region * mlist) :=
  '(node, prev, s) ← FindNode s fd (listHead s);
  if node =? 0 then Some (id, s)
  else id ← uf_set_zPath id (node + off_path); Some (id, s).

Definition setServerUnixPMethods (s : mlist) (fd : Z) (pf : region) : option mlist :=
  m ← uf_pMethods pf; AddNode s fd m.

Definition getServerUnixPMethods (s : mlist) (fd : Z) (pf : region) : option (region * mlist) :=
  '(node, prev, s) ← FindNode s fd (listHead s);
  m ← (if node =? 0 then Some 0 else n ← heap s !! node; Some (mf_method n));
  pf ← uf_set_pMethods pf (if m =? 0 then posixIoMethods else m);
  Some (pf, s).

(** The object a [zPath] pointer points to: the path array of a node. *)
Definition deref_path (s : mlist) (p : Z) : option region :=
  n ← heap s !! (p - off_path); Some (mf_path n).

End methods.

(** ** Representation *)

(** The nodes from address [a] to the end of the list. *)
Fixpoint chain (h : gmap Z MethodAndFD) (a : Z) (ns : list (Z * MethodAndFD)) : Prop :=
  match ns with
  | [] => a = 0
  | (x, n) :: ns => a = x /\ x <> 0 /\ h !! x = Some n /\ chain h (mf_next n) ns
  end.

Definition node_ok (n : MethodAndFD) : Prop := len (mf_path n) = 512.

Definition repr_nodes (s : mlist) (ns : list (Z * MethodAndFD)) : Prop :=
  if listHead s =? 0 then ns = []
  else exists hd, heap s !! listHead s = Some hd /\ chain (heap s) (mf_next hd) ns /\
         listHead s ∉ ns.*1.

Record repr (s : mlist) (ns : list (Z * MethodAndFD)) : Prop := {
  repr_chain : repr_nodes s ns;
  repr_nodup : NoDup ns.*1;
  repr_fds : NoDup ((mf_fd ∘ snd) <$> ns);
  repr_heap : forall a n, heap s !! a = Some n -> 0 < a < brk s;
  repr_brk : 0 < brk s;
  repr_paths : Forall (node_ok ∘ snd) ns }.

(** The table as a finite map: descriptor to (address, methods, path). *)
Definition entry (an : Z * MethodAndFD) : Z * (Z * Z * region) :=
  (mf_fd an.2, (an.1, mf_method an.2, mf_path an.2)).

Definition abs (ns : list (Z * MethodAndFD)) : gmap Z (Z * Z * region) :=
  list_to_map (entry <$> ns).

Definition empty_mlist (b : Z) : mlist := mkList ∅ 0 b.

Fixpoint find_node (fd pre : Z) (ns : list (Z * MethodAndFD)) : Z * Z :=
  match ns with
  | [] => (0, pre)
  | (x, n) :: ns => if fd =? mf_fd n then (x, pre) else find_node fd x ns
  end.

(** ** Lemmas on chains *)

Lemma chain_keys h a ns x n : chain h a ns -> (x, n) ∈ ns -> h !! x = Some n /\ x <> 0.
Proof.
  revert a. induction ns as [|[y m] ns IH]; intros a; cbn.
  - intros _ []%not_elem_of_nil.
  - intros (-> & Hy & Hm & Hc) [[= -> ->]|Hin]%elem_of_cons; [done|]. eauto.
Qed.

Lemma chain_insert_notin h a ns x n :
  x ∉ ns.*1 -> chain h a ns -> chain (<[x:=n]> h) a ns.
Proof.
  revert a. induction ns as [|[y m] ns IH]; intros a; cbn; [done|].
  intros [Hne Hni]%not_elem_of_cons (-> & Hy & Hm & Hc).
  split_and!; [done|done|by rewrite lookup_insert_ne|by apply IH].
Qed.

Lemma chain_delete_notin h a ns x :
  x ∉ ns.*1 -> chain h a ns -> chain (delete x h) a ns.
Proof.
  revert a. induction ns as [|[y m] ns IH]; intros a; cbn; [done|].
  intros [Hne Hni]%not_elem_of_cons (-> & Hy & Hm & Hc).
  split_and!; [done|done|by rewrite lookup_delete_ne|by apply IH].
Qed.

Lemma chain_update h a ns1 x n n' ns2 :
  NoDup (ns1 ++ (x, n) :: ns2).*1 -> mf_next n' = mf_next n ->
  chain h a (ns1 ++ (x, n) :: ns2) -> chain (<[x:=n']> h) a (ns1 ++ (x, n') :: ns2).
Proof.
  intros Hnd Hnx. revert a Hnd. induction ns1 as [|[y m] ns1 IH]; intros a Hnd; cbn in *.
  - intros (-> & Hx & Hn & Hc). apply NoDup_cons in Hnd as [Hni _].
    split_and!; [done|done|by rewrite lookup_insert_eq|].
    rewrite Hnx. by apply chain_insert_notin.
  - intros (-> & Hy & Hm & Hc). apply NoDup_cons in Hnd as [Hni Hnd].
    split_and!; [done|done| |by apply IH].
    rewrite lookup_insert_ne; [done|]. intros ->. apply Hni.
    rewrite fmap_app. cbn. set_solver.
Qed.

(** Linking a fresh node [t] after the last node [x]. *)
Lemma chain_snoc h a ns x n t m :
  NoDup (ns ++ [(x, n)]).*1 -> t ∉ (ns ++ [(x, n)]).*1 -> t <> 0 -> mf_next m = 0 ->
  chain h a (ns ++ [(x, n)]) ->
  chain (<[x := set_next n t]> (<[t := m]> h)) a (ns ++ [(x, set_next n t); (t, m)]).
Proof.
  intros Hnd Ht Ht0 Hm. revert a Hnd Ht. induction ns as [|[y k] ns IH]; intros a Hnd Ht; cbn in *.
  - intros (-> & Hx & Hn & Hc). apply not_elem_of_cons in Ht as [Ht _].
    split_and!; [done|done|by rewrite lookup_insert_eq|done|done| |done].
    rewrite lookup_insert_ne by done. by rewrite lookup_insert_eq.
  - intros (-> & Hy & Hk & Hc). apply NoDup_cons in Hnd as [Hni Hnd].
    apply not_elem_of_cons in Ht as [Hty Ht].
    assert (y <> x). { intros ->. apply Hni. rewrite fmap_app. cbn. set_solver. }
    split_and!; [done|done| |by apply IH].
    by rewrite !lookup_insert_ne.
Qed.

(** Unlinking node [x] from after node [y]. *)
Lemma chain_unlink h a ns1 y k x n ns2 :
  NoDup (ns1 ++ (y, k) :: (x, n) :: ns2).*1 ->
  chain h a (ns1 ++ (y, k) :: (x, n) :: ns2) ->
  chain (delete x (<[y := set_next k (mf_next n)]> h)) a
    (ns1 ++ (y, set_next k (mf_next n)) :: ns2).
Proof.
  revert a. induction ns1 as [|[z j] ns1 IH]; intros a Hnd; cbn in *.
  - intros (-> & Hy & Hk & <- & Hx & Hn & Hc).
    apply NoDup_cons in Hnd as [Hni1 Hnd]. apply NoDup_cons in Hnd as [Hni2 _].
    apply not_elem_of_cons in Hni1 as [Hne Hni1].
    split_and!; [done|done| |].
    + rewrite lookup_delete_ne by done. by rewrite lookup_insert_eq.
    + apply chain_delete_notin; [done|]. by apply chain_insert_notin.
  - intros (-> & Hz & Hj & Hc). apply NoDup_cons in Hnd as [Hni Hnd].
    rewrite fmap_app in Hni. cbn in Hni.
    split_and!; [done|done| |by apply IH].
    rewrite lookup_delete_ne by set_solver. rewrite lookup_insert_ne by set_solver. done.
Qed.

Lemma chain_length h a ns : chain h a ns -> NoDup ns.*1 -> (length ns <= size h)%nat.
Proof.
  intros Hc Hnd. rewrite <- size_dom, <- (length_fmap fst ns).
  rewrite <- (size_list_to_set (C := gset Z) _ Hnd). apply subseteq_size.
  intros x Hx. apply elem_of_list_to_set, list_elem_of_fmap in Hx as ([y n] & -> & Hin).
  apply elem_of_dom. cbn. by destruct (chain_keys _ _ _ _ _ Hc Hin) as [-> _].
Qed.

(** The loop computes [find_node], and its fuel is enough. *)
Lemma FindNode_loop_chain fuel h fd a pre ns :
  chain h a ns -> (length ns <= fuel)%nat ->
  FindNode_loop fuel h fd a pre = Some (find_node fd pre ns).
Proof.
  revert fuel a pre. induction ns as [|[x n] ns IH]; intros fuel a pre.
  - cbn. intros ->. by destruct fuel.
  - intros (-> & Hx & Hn & Hc) Hl. cbn [length find_node] in *. destruct fuel as [|fuel]; [lia|].
    cbn. rewrite (proj2 (Z.eqb_neq x 0)) by done. rewrite Hn. cbn.
    case_bool; [done|]. apply IH; [done|lia].
Qed.

Lemma default_last_cons x pre (l : list Z) :
  default pre (last (x :: l)) = default x (last l).
Proof. rewrite last_cons. by destruct (last l). Qed.

Lemma find_node_cases fd pre ns :
  (exists ns1 x n ns2, ns = ns1 ++ (x, n) :: ns2 /\ mf_fd n = fd /\
     find_node fd pre ns = (x, default pre (last ns1.*1))) \/
  ((fd ∉ ((mf_fd ∘ snd) <$> ns)) /\ find_node fd pre ns = (0, default pre (last ns.*1))).
Proof.
  revert pre. induction ns as [|[x n] ns IH]; intros pre; cbn [find_node].
  - right. split; [set_solver|done].
  - case_bool; bool_to_prop.
    + left. exists [], x, n, ns. done.
    + destruct (IH x) as [(ns1 & y & m & ns2 & -> & Hm & Hf)|[Hni Hf]].
      * left. exists ((x, n) :: ns1), y, m, ns2. split_and!; [done|done|].
        by rewrite Hf, fmap_cons, default_last_cons.
      * right. split; [rewrite fmap_cons, not_elem_of_cons; cbn; split; [congruence|done]|]. by rewrite Hf, fmap_cons, default_last_cons.
Qed.

(** ** The operations on the representation *)

Section ops.

Context (uninit : Z -> MethodAndFD) (posixIoMethods : Z).

(** [malloc] does not initialise the object, but an object has its size. *)
Hypothesis uninit_ok : forall a, node_ok (uninit a).

Lemma repr_empty b : 0 < b -> repr (empty_mlist b) [].
Proof.
  intros Hb. split; [done|constructor|constructor|done|done|constructor].
Qed.

Lemma repr_fresh s ns : repr s ns -> (brk s ∉ ns.*1) /\ brk s <> listHead s.
Proof.
  intros [Hc _ _ Hh Hb _]. unfold repr_nodes in Hc. case_bool; bool_to_prop.
  { subst. split; [set_solver|lia]. }
  destruct Hc as (hd & Hhd & Hc & Hni). split.
  - intros ([x n] & Hx & Hin)%list_elem_of_fmap. cbn in Hx. subst x.
    destruct (chain_keys _ _ _ _ _ Hc Hin) as [He _]. apply Hh in He. lia.
  - intros He. apply Hh in Hhd. lia.
Qed.

(** After the lazy initialisation the sentinel is there and the nodes are the
    same. *)
Lemma init_if_null_repr s ns :
  repr s ns -> repr (init_if_null uninit s) ns /\ listHead (init_if_null uninit s) <> 0.
Proof.
  intros Hr. unfold init_if_null. case_bool; bool_to_prop; [|done].
  destruct Hr as [Hc Hnd Hfd Hh Hb Hp]. unfold repr_nodes in Hc.
  rewrite (proj2 (Z.eqb_eq _ _)) in Hc by done. subst ns.
  split; [|cbn; lia]. split; cbn; try done.
  - unfold repr_nodes. cbn. rewrite (proj2 (Z.eqb_neq _ _)) by lia.
    eexists. split; [by rewrite lookup_insert_eq|]. split; [done|set_solver].
  - intros a n. rewrite !lookup_insert_Some. unfold sizeof_MethodAndFD.
    intros [[<- _]|[_ [[<- _]|[_ Ha]]]]; [lia|lia|]. apply Hh in Ha. lia.
  - unfold sizeof_MethodAndFD. lia.
Qed.

Lemma FindNode_repr s ns fd pre :
  repr s ns -> FindNode uninit s fd pre =
    Some (find_node fd pre ns, init_if_null uninit s).
Proof.
  intros Hr. destruct (init_if_null_repr s ns Hr) as [Hr' Hne].
  unfold FindNode. set (s' := init_if_null uninit s) in *.
  destruct Hr' as [Hc Hnd _ _ _ _]. unfold repr_nodes in Hc.
  rewrite (proj2 (Z.eqb_neq _ _)) in Hc by done.
  destruct Hc as (hd & Hhd & Hc & _). rewrite Hhd. cbn.
  rewrite (FindNode_loop_chain _ _ _ _ _ _ Hc) by (by apply chain_length in Hc).
  cbn. by destruct (find_node fd pre ns).
Qed.

Lemma init_idem s : listHead s <> 0 -> init_if_null uninit s = s.
Proof. intros. unfold init_if_null. by rewrite (proj2 (Z.eqb_neq _ _)). Qed.

Lemma repr_present s ns ns1 x n ns2 :
  repr s ns -> ns = ns1 ++ (x, n) :: ns2 ->
  heap s !! x = Some n /\ x <> 0 /\ node_ok n /\ listHead s <> 0.
Proof.
  intros [Hc Hnd _ _ _ Hp] ->. unfold repr_nodes in Hc. case_bool; bool_to_prop.
  { by destruct ns1. }
  destruct Hc as (hd & Hhd & Hc & _).
  destruct (chain_keys _ _ _ x n Hc ltac:(set_solver)) as [? ?].
  split_and!; [done|done| |done].
  apply Forall_app in Hp as [_ Hp]. by apply Forall_cons in Hp as [Hp _].
Qed.

(** Changing a node that keeps its place and its descriptor. *)
Lemma repr_update s ns1 x n n' ns2 :
  repr s (ns1 ++ (x, n) :: ns2) -> mf_next n' = mf_next n -> mf_fd n' = mf_fd n ->
  node_ok n' -> repr (mkList (<[x := n']> (heap s)) (listHead s) (brk s)) (ns1 ++ (x, n') :: ns2).
Proof.
  intros Hr Hn Hf Hok. destruct (repr_present _ _ _ _ _ _ Hr eq_refl) as (Hx & Hx0 & _ & Hl).
  destruct Hr as [Hc Hnd Hfd Hh Hb Hp]. split; cbn; try done.
  - unfold repr_nodes in *. cbn. rewrite (proj2 (Z.eqb_neq _ _)) in * by done.
    destruct Hc as (hd & Hhd & Hc & Hni). exists hd.
    rewrite fmap_app in Hni, Hnd |- *. cbn in Hni, Hnd |- *.
    split_and!; [rewrite lookup_insert_ne; [done|set_solver]| |done].
    apply chain_update with n; [by rewrite fmap_app|done|done].
  - rewrite fmap_app in *. done.
  - rewrite fmap_app in *. cbn in *. by rewrite Hf.
  - intros a m. rewrite lookup_insert_Some. intros [[<- _]|[_ Ha]]; eauto.
  - apply Forall_app in Hp as [Hp1 Hp2]. apply Forall_cons in Hp2 as [_ Hp2].
    apply Forall_app. split; [done|]. by apply Forall_cons.
Qed.

(** ** The abstraction of a changed list *)

Lemma abs_keys ns : (entry <$> ns).*1 = (mf_fd ∘ snd) <$> ns.
Proof. induction ns as [|[a n] ns IH]; [done|]. cbn. by rewrite IH. Qed.

Lemma abs_update ns1 x n n' ns2 :
  NoDup ((mf_fd ∘ snd) <$> (ns1 ++ (x, n) :: ns2)) -> mf_fd n' = mf_fd n ->
  abs (ns1 ++ (x, n') :: ns2) =
    <[mf_fd n := (x, mf_method n', mf_path n')]> (abs (ns1 ++ (x, n) :: ns2)).
Proof.
  intros Hnd Hf. rewrite fmap_app, fmap_cons, NoDup_app in Hnd.
  destruct Hnd as (_ & Hd & _).
  assert (Hni : (list_to_map (entry <$> ns1) : gmap Z _) !! mf_fd n = None).
  { apply not_elem_of_list_to_map_1. rewrite abs_keys. intros Hin.
    apply (Hd _ Hin). left. }
  unfold abs. rewrite !fmap_app, !fmap_cons, !list_to_map_app.
  cbn. rewrite Hf, <- !insert_union_r, insert_insert_eq; done.
Qed.

Lemma abs_lookup_mid ns1 x n ns2 :
  NoDup ((mf_fd ∘ snd) <$> (ns1 ++ (x, n) :: ns2)) ->
  abs (ns1 ++ (x, n) :: ns2) !! mf_fd n = Some (x, mf_method n, mf_path n).
Proof.
  intros Hnd. rewrite (abs_update ns1 x n n ns2) by done. by rewrite lookup_insert_eq.
Qed.

Lemma abs_lookup_None fd ns : (fd ∉ ((mf_fd ∘ snd) <$> ns)) -> abs ns !! fd = None.
Proof. intros Hni. apply not_elem_of_list_to_map_1. by rewrite abs_keys. Qed.

Lemma abs_app_fresh ns t m :
  (mf_fd m ∉ ((mf_fd ∘ snd) <$> ns)) ->
  abs (ns ++ [(t, m)]) = <[mf_fd m := (t, mf_method m, mf_path m)]> (abs ns).
Proof.
  intros Hni%abs_lookup_None. unfold abs in *.
  rewrite fmap_app, list_to_map_app. cbn.
  rewrite <- insert_union_r by done. by rewrite right_id_L by apply _.
Qed.

Lemma abs_delete_mid ns1 x n ns2 :
  NoDup ((mf_fd ∘ snd) <$> (ns1 ++ (x, n) :: ns2)) ->
  abs (ns1 ++ ns2) = delete (mf_fd n) (abs (ns1 ++ (x, n) :: ns2)).
Proof.
  intros Hnd. assert (Hni : abs (ns1 ++ ns2) !! mf_fd n = None).
  { apply abs_lookup_None. rewrite fmap_app in *. cbn in *.
    apply NoDup_app in Hnd as (_ & Hd & Hnd). apply NoDup_cons in Hnd as [Hnd _].
    rewrite not_elem_of_app. split; [|done]. intros Hin. apply (Hd _ Hin). left. }
  rewrite <- (delete_id (abs (ns1 ++ ns2)) (mf_fd n)) by done.
  rewrite <- (delete_insert_eq (abs (ns1 ++ ns2)) (mf_fd n) (x, mf_method n, mf_path n)).
  f_equal. unfold abs in *. rewrite !fmap_app, !fmap_cons, !list_to_map_app in *. cbn.
  apply insert_union_r. by apply lookup_union_None in Hni as [? _].
Qed.

Lemma abs_set_next ns1 x n p ns2 :
  abs (ns1 ++ (x, set_next n p) :: ns2) = abs (ns1 ++ (x, n) :: ns2).
Proof. unfold abs. by rewrite !fmap_app. Qed.

(** ** What the operations do to the table *)

Lemma find_node_repr s ns fd :
  repr s ns ->
  (exists ns1 x n ns2, ns = ns1 ++ (x, n) :: ns2 /\ mf_fd n = fd /\ x <> 0 /\
     heap s !! x = Some n /\ node_ok n /\ abs ns !! fd = Some (x, mf_method n, mf_path n) /\
     forall pre, find_node fd pre ns = (x, default pre (last ns1.*1))) \/
  (abs ns !! fd = None /\ (fd ∉ ((mf_fd ∘ snd) <$> ns)) /\
     forall pre, find_node fd pre ns = (0, default pre (last ns.*1))).
Proof.
  intros Hr. destruct (find_node_cases fd 0 ns) as [(ns1&x&n&ns2&->&<-&_)|[Hni _]].
  - left. exists ns1, x, n, ns2.
    destruct (repr_present _ _ _ _ _ _ Hr eq_refl) as (?&?&?&?).
    split_and!; try done; [apply abs_lookup_mid, (repr_fds _ _ Hr)|].
    intros pre. pose proof (repr_fds _ _ Hr) as Hnd.
    rewrite fmap_app, NoDup_app in Hnd. destruct Hnd as (_ & Hd & _).
    assert (Hni : mf_fd n ∉ ((mf_fd ∘ snd) <$> ns1)).
    { intros Hin. apply (Hd _ Hin). left. }
    clear -Hni. revert pre. induction ns1 as [|[y m] ns1 IH]; intros pre; cbn [find_node app].
    + by rewrite Z.eqb_refl.
    + rewrite fmap_cons, not_elem_of_cons in Hni. cbn in Hni.
      rewrite (proj2 (Z.eqb_neq _ _)) by tauto.
      rewrite IH by tauto. by rewrite fmap_cons, default_last_cons.
  - right. split_and!; [by apply abs_lookup_None|done|].
    intros pre. destruct (find_node_cases fd pre ns) as [(ns1&x&n&ns2&->&<-&_)|[_ ?]]; [|done].
    destruct Hni. rewrite fmap_app, fmap_cons. set_solver.
Qed.

(** Appending a node for a new descriptor. *)
Lemma repr_append s ns m t :
  repr s ns -> listHead s <> 0 -> (mf_fd m ∉ ((mf_fd ∘ snd) <$> ns)) ->
  node_ok m -> mf_next m = 0 -> t = brk s ->
  exists p ns', <[t := m]> (heap s) !! default (listHead s) (last ns.*1) = Some p /\
    repr (mkList (<[default (listHead s) (last ns.*1) := set_next p t]> (<[t := m]> (heap s)))
            (listHead s) (brk s + sizeof_MethodAndFD)) ns' /\
    abs ns' = <[mf_fd m := (t, mf_method m, mf_path m)]> (abs ns).
Proof.
  intros Hr Hl0 Hfd Hok Hm ->. destruct (repr_fresh _ _ Hr) as [Hfr Hfh].
  destruct Hr as [Hc Hnd Hfds Hh Hb Hp]. unfold repr_nodes in Hc.
  rewrite (proj2 (Z.eqb_neq _ _)) in Hc by done. destruct Hc as (hd & Hhd & Hc & Hni).
  assert (Hheap : forall h' : gmap Z MethodAndFD, (forall a, is_Some (h' !! a) -> is_Some (heap s !! a) \/ a = brk s) ->
            forall a n, h' !! a = Some n -> 0 < a < brk s + sizeof_MethodAndFD).
  { intros h' Hh' a n Ha. unfold sizeof_MethodAndFD.
    destruct (Hh' a) as [[k Hk]| ->]; [eauto| |lia]. apply Hh in Hk. lia. }
  destruct (decide (ns = [])) as [->|Hne]; cbn [last fmap list_fmap default].
  - exists hd, [(brk s, m)]. split; [by rewrite lookup_insert_ne|]. split; [split; cbn|].
    + unfold repr_nodes. cbn. rewrite (proj2 (Z.eqb_neq _ _)) by done.
      exists (set_next hd (brk s)). cbn. rewrite lookup_insert_eq, lookup_insert_ne by done.
      rewrite lookup_insert_eq. split_and!; [done|done|lia|done|done|set_solver].
    + apply NoDup_singleton.
    + apply NoDup_singleton.
    + apply Hheap. intros a. rewrite !lookup_insert_is_Some. intros [<-|[_ [<-|[_ ?]]]]; eauto.
    + unfold sizeof_MethodAndFD. lia.
    + by repeat constructor.
    + done.
  - destruct (exists_last Hne) as (ns0 & [x n] & ->).
    rewrite !fmap_app in *. cbn in *. rewrite last_snoc. cbn.
    assert (Hx : heap s !! x = Some n /\ x <> 0).
    { apply (chain_keys _ _ _ x n Hc). set_solver. }
    exists n, (ns0 ++ [(x, set_next n (brk s)); (brk s, m)]).
    split; [rewrite lookup_insert_ne; [tauto|set_solver]|]. split; [split; cbn|].
    + unfold repr_nodes. cbn. rewrite (proj2 (Z.eqb_neq _ _)) by done.
      exists hd. rewrite !lookup_insert_ne by set_solver. split; [done|]. split.
      * apply chain_snoc; rewrite ?fmap_app; try done; lia.
      * rewrite fmap_app. cbn. set_solver.
    + rewrite fmap_app. cbn. rewrite (app_assoc _ [x] [brk s]), NoDup_app.
      split_and!; [done|set_solver|apply NoDup_singleton].
    + rewrite fmap_app. cbn. rewrite (app_assoc _ [mf_fd n] [mf_fd m]), NoDup_app.
      split_and!; [done|set_solver|apply NoDup_singleton].
    + apply Hheap. intros a. rewrite !lookup_insert_is_Some. intros [<-|[_ [<-|[_ ?]]]]; [|eauto..].
      left. eexists. apply Hx.
    + unfold sizeof_MethodAndFD. lia.
    + apply Forall_app in Hp as [Hp1 Hp2]. apply Forall_cons in Hp2 as [Hp2 _].
      apply Forall_app. split; [done|]. by repeat constructor.
    + rewrite (cons_middle _ ns0), app_assoc, abs_app_fresh.
      * f_equal. apply abs_set_next.
      * by rewrite fmap_app.
Qed.

Lemma AddNode_repr s ns fd m :
  repr s ns ->
  exists s' ns' a p, AddNode uninit s fd m = Some s' /\ repr s' ns' /\ len p = 512 /\
    abs ns' = <[fd := (a, m, p)]> (abs ns) /\
    forall a0 m0 p0, abs ns !! fd = Some (a0, m0, p0) -> a = a0 /\ p = p0.
Proof.
  intros Hr. destruct (init_if_null_repr _ _ Hr) as [Hr' Hl].
  unfold AddNode. set (s0 := init_if_null uninit s) in *.
  rewrite (FindNode_repr s0 ns) by done. rewrite init_idem by done. cbn.
  destruct (find_node_repr s0 ns fd Hr') as
    [(ns1&x&n&ns2&->&Hn&Hx0&Hx&Hok&Ha&Hf)|(Ha&Hni&Hf)]; rewrite Hf; cbn.
  - rewrite (proj2 (Z.eqb_neq x 0)) by done. rewrite Hx. cbn.
    eexists _, (ns1 ++ (x, set_method n m) :: ns2), x, (mf_path n).
    split; [done|]. split; [by apply (repr_update _ _ _ n)|]. split; [done|]. split.
    + rewrite (abs_update ns1 x n); [by rewrite Hn|apply (repr_fds _ _ Hr')|done].
    + intros a0 m0 p0. rewrite Ha. by intros [= <- _ <-].
  - rewrite lookup_insert_eq. cbn. rewrite insert_insert_eq.
    destruct (repr_append s0 ns (mkNode fd m (mf_path (uninit (brk s0))) 0) (brk s0))
      as (p & ns' & Hp & Hr2 & Ha2); try done; [apply uninit_ok|].
    rewrite Hp. cbn. eexists _, ns', (brk s0), _. split; [done|]. split; [done|].
    split; [apply uninit_ok|]. split; [exact Ha2|]. intros a0 m0 p0. by rewrite Ha.
Qed.

Lemma DeleteNode_repr s ns fd :
  repr s ns ->
  exists s' ns', DeleteNode uninit s fd = Some s' /\ repr s' ns' /\ abs ns' = delete fd (abs ns).
Proof.
  intros Hr. destruct (init_if_null_repr _ _ Hr) as [Hr' Hl].
  unfold DeleteNode. set (s0 := init_if_null uninit s) in *.
  rewrite (FindNode_repr s0 ns) by done. rewrite init_idem by done. cbn.
  destruct (find_node_repr s0 ns fd Hr') as
    [(ns1&x&n&ns2&->&<-&Hx0&Hx&Hok&Ha&Hf)|(Ha&Hni&Hf)]; rewrite Hf; cbn; cycle 1.
  { exists s0, ns. split; [done|]. split; [done|]. by rewrite delete_id. }
  rewrite (proj2 (Z.eqb_neq x 0)) by done.
  pose proof Hr' as [Hc Hnd Hfds Hh Hb Hp]. unfold repr_nodes in Hc.
  rewrite (proj2 (Z.eqb_neq _ _)) in Hc by done. destruct Hc as (hd & Hhd & Hc & Hni).
  assert (Hheap : forall h' : gmap Z MethodAndFD, dom h' ⊆ dom (heap s0) ->
            forall a n, h' !! a = Some n -> 0 < a < brk s0).
  { intros h' Hsub a k Ha'. assert (a ∈ dom h') as [k' Hk']%Hsub%elem_of_dom
      by (by apply elem_of_dom). eauto. }
  destruct (decide (ns1 = [])) as [->|Hne]; cbn [app] in *.
  - cbn [last fmap list_fmap default] in *. destruct Hc as (Hnx & _ & _ & Hc).
    rewrite Hhd. cbn. rewrite Hnx, Hx. cbn.
    eexists _, ns2. split; [done|].
    split; [|by apply (abs_delete_mid [])].
    apply NoDup_cons in Hnd as [Hnd1 Hnd2]. apply not_elem_of_cons in Hni as [Hni1 Hni2].
    split; cbn; try done.
    + unfold repr_nodes. cbn. rewrite (proj2 (Z.eqb_neq _ _)) by done.
      exists (set_next hd (mf_next n)). rewrite lookup_delete_ne, lookup_insert_eq by done.
      split_and!; [done| |done]. apply chain_delete_notin; [done|]. by apply chain_insert_notin.
    + by apply NoDup_cons in Hfds as [_ ?].
    + apply Hheap. rewrite dom_delete, dom_insert.
      assert (listHead s0 ∈ dom (heap s0)) by (by apply elem_of_dom). set_solver.
    + by apply Forall_cons in Hp as [_ ?].
  - destruct (exists_last Hne) as (ns0 & [y k] & ->). rewrite !fmap_app in *.
    rewrite <- !app_assoc in *. cbn in *. rewrite last_snoc. cbn.
    assert (Hy : heap s0 !! y = Some k /\ mf_next k = x).
    { destruct (chain_keys _ _ _ y k Hc) as [Hy _]; [set_solver|]. split; [done|].
      clear -Hc. revert Hc. generalize (mf_next hd).
      induction ns0 as [|[z j] ns0 IH]; intros a; cbn; [tauto|].
      intros (_ & _ & _ & Hc). by apply IH in Hc. }
    destruct Hy as [Hy Hkx]. rewrite Hy. cbn. rewrite Hkx, Hx. cbn.
    eexists _, (ns0 ++ (y, set_next k (mf_next n)) :: ns2). split; [done|].
    pose proof (chain_unlink _ _ ns0 y k x n ns2 ltac:(by rewrite fmap_app) Hc) as Hu.
    split; [split; cbn; try done|].
    + unfold repr_nodes. cbn. rewrite (proj2 (Z.eqb_neq _ _)) by done.
      exists hd. rewrite lookup_delete_ne, lookup_insert_ne by set_solver.
      split_and!; [done|done|]. rewrite fmap_app. cbn. set_solver.
    + rewrite fmap_app. cbn. eapply sublist_NoDup; [exact Hnd|].
      apply sublist_app; [done|]. by repeat constructor.
    + rewrite fmap_app. cbn. eapply sublist_NoDup; [exact Hfds|].
      apply sublist_app; [done|]. by repeat constructor.
    + apply Hheap. rewrite dom_delete, dom_insert.
      assert (y ∈ dom (heap s0)) by (by apply elem_of_dom). set_solver.
    + apply Forall_app in Hp as [Hp1 Hp2]. apply Forall_cons in Hp2 as [Hp2 Hp3].
      apply Forall_cons in Hp3 as [_ Hp3]. apply Forall_app. split; [done|].
      by apply Forall_cons.
    + rewrite abs_set_next. rewrite (cons_middle _ ns0 ns2), app_assoc.
      rewrite (abs_delete_mid (ns0 ++ [(y, k)]) x n ns2); [by rewrite <- app_assoc|].
      rewrite <- app_assoc. apply (repr_fds _ _ Hr').
Qed.

(** An entry of the table is the node at its address. *)
Lemma abs_lookup_node s ns fd a m p :
  repr s ns -> abs ns !! fd = Some (a, m, p) ->
  exists n, heap s !! a = Some n /\ mf_fd n = fd /\ mf_method n = m /\ mf_path n = p /\
    0 < a < brk s /\ len p = 512.
Proof.
  intros Hr Hl. destruct (find_node_repr s ns fd Hr) as
    [(ns1&x&n&ns2&->&Hn&Hx0&Hx&Hok&Ha&Hf)|(Ha&Hni&Hf)]; rewrite Ha in Hl; simplify_eq.
  exists n. split_and!; try done; eapply (repr_heap _ _ Hr); eauto.
Qed.

Lemma FindNode_present s ns fd a m p pre :
  repr s ns -> abs ns !! fd = Some (a, m, p) ->
  exists pre', FindNode uninit s fd pre = Some (a, pre', s) /\ a <> 0 /\ listHead s <> 0.
Proof.
  intros Hr Hl. rewrite (FindNode_repr s ns) by done.
  destruct (find_node_repr s ns fd Hr) as
    [(ns1&x&n&ns2&->&Hn&Hx0&Hx&Hok&Ha&Hf)|(Ha&Hni&Hf)]; rewrite Ha in Hl; simplify_eq.
  destruct (repr_present _ _ _ _ _ _ Hr eq_refl) as (_&_&_&Hh).
  rewrite Hf, init_idem by done. eauto.
Qed.

Lemma FindNode_absent s ns fd pre :
  repr s ns -> abs ns !! fd = None ->
  exists pre', FindNode uninit s fd pre = Some (0, pre', init_if_null uninit s).
Proof.
  intros Hr Hl. rewrite (FindNode_repr s ns) by done.
  destruct (find_node_repr s ns fd Hr) as
    [(ns1&x&n&ns2&->&Hn&Hx0&Hx&Hok&Ha&Hf)|(Ha&Hni&Hf)]; rewrite Ha in Hl; simplify_eq.
  rewrite Hf. eauto.
Qed.

(** Replacing the node of an entry replaces the entry. *)
Lemma repr_set_node s ns fd a m p n n' :
  repr s ns -> abs ns !! fd = Some (a, m, p) -> heap s !! a = Some n ->
  mf_fd n' = mf_fd n -> mf_next n' = mf_next n -> node_ok n' ->
  exists ns', repr (mkList (<[a := n']> (heap s)) (listHead s) (brk s)) ns' /\
    abs ns' = <[fd := (a, mf_method n', mf_path n')]> (abs ns).
Proof.
  intros Hr Hl Hn Hfd Hnx Hok. destruct (find_node_repr s ns fd Hr) as
    [(ns1&x&k&ns2&->&<-&Hx0&Hx&_&Ha&Hf)|(Ha&Hni&Hf)]; rewrite Ha in Hl; simplify_eq.
  exists (ns1 ++ (a, n') :: ns2). split; [by apply (repr_update _ _ _ n)|].
  by apply abs_update; [apply (repr_fds _ _ Hr)|].
Qed.

Lemma setServicePath_present s ns fd a m p path n :
  repr s ns -> abs ns !! fd = Some (a, m, p) -> strlen path 0 = Some n -> n < 512 ->
  exists s' ns' p', setServicePath uninit s fd path = Some s' /\ repr s' ns' /\
    brk s' = brk s /\ strcpy p 0 path 0 = Some p' /\ len p' = 512 /\
    strlen p' 0 = Some n /\ abs ns' = <[fd := (a, m, p')]> (abs ns).
Proof.
  intros Hr Hl Hp Hn. destruct (strlen_read _ _ _ Hp) as (d & Hd & Hdl & Hdn).
  destruct (FindNode_present s ns fd a m p (listHead s) Hr Hl) as (pre' & Hf & Ha0 & _).
  destruct (abs_lookup_node s ns fd a m p Hr Hl) as (k & Hk & Hkf & <- & <- & _ & Hpl).
  destruct (mem_write_fits (mf_path k) 0 d) as (p' & Hw & Hl'); [lia..|].
  assert (Hcpy : strcpy (mf_path k) 0 path 0 = Some p').
  { unfold strcpy, memcpy. rewrite Hp. cbn. rewrite Hd. cbn. done. }
  destruct (repr_set_node s ns fd a _ _ k (set_path k p') Hr Hl Hk) as (ns' & Hr' & Ha');
    [done|done|unfold node_ok; cbn; lia|].
  unfold setServicePath. rewrite Hf. cbn. rewrite (proj2 (Z.eqb_neq _ _)) by done.
  rewrite Hk. cbn. rewrite Hcpy. cbn. eexists _, ns', p'.
  split_and!; try done; [lia|]. by eapply strlen_write.
Qed.

(** Copying a string onto itself changes nothing. *)
Lemma strcpy_self p n : strlen p 0 = Some n -> strcpy p 0 p 0 = Some p.
Proof.
  intros Hs. destruct (strlen_read _ _ _ Hs) as (d & Hd & _ & Hn).
  unfold strcpy, memcpy. rewrite Hs. cbn. rewrite Hd. cbn.
  apply mem_read_Some in Hd as (?&?&?&->). apply mem_write_Some.
  split_and!; [lia|rewrite len_slice by lia; lia|].
  unfold splice, slice, len in *. cbn. rewrite drop_0, length_take, Nat.min_l by lia.
  by rewrite take_drop.
Qed.

(** ** The two halves every handler shares *)

(** A client's file object gets the server's method table and path back. *)
Lemma getServerUnixPMethods_present s ns fd a m p id :
  repr s ns -> abs ns !! fd = Some (a, m, p) -> m <> 0 ->
  getServerUnixPMethods uninit posixIoMethods s fd id =
    (pf ← uf_set_pMethods id m; Some (pf, s)).
Proof.
  intros Hr Hl Hm. destruct (FindNode_present s ns fd a m p (listHead s) Hr Hl)
    as (pre' & Hf & Ha0 & _).
  destruct (abs_lookup_node s ns fd a m p Hr Hl) as (k & Hk & Hkf & <- & <- & _ & Hpl).
  unfold getServerUnixPMethods. rewrite Hf. cbn.
  rewrite (proj2 (Z.eqb_neq a 0)) by done. rewrite Hk. cbn.
  by rewrite (proj2 (Z.eqb_neq (mf_method k) 0)) by done.
Qed.

(** Unknown descriptors are given [posixIoMethods]. *)
Lemma getServerUnixPMethods_absent s ns fd id :
  repr s ns -> abs ns !! fd = None ->
  getServerUnixPMethods uninit posixIoMethods s fd id =
    (pf ← uf_set_pMethods id posixIoMethods; Some (pf, init_if_null uninit s)).
Proof.
  intros Hr Hl. destruct (FindNode_absent s ns fd (listHead s) Hr Hl) as (pre' & Hf).
  unfold getServerUnixPMethods. rewrite Hf. done.
Qed.

Lemma getServicePath_present s ns fd a m p id :
  repr s ns -> abs ns !! fd = Some (a, m, p) ->
  getServicePath uninit s fd id = (id ← uf_set_zPath id (a + off_path); Some (id, s)).
Proof.
  intros Hr Hl. destruct (FindNode_present s ns fd a m p (listHead s) Hr Hl)
    as (pre' & Hf & Ha0 & _).
  unfold getServicePath. rewrite Hf. cbn. by rewrite (proj2 (Z.eqb_neq a 0)) by done.
Qed.

Lemma getServicePath_absent s ns fd id :
  repr s ns -> abs ns !! fd = None ->
  getServicePath uninit s fd id = Some (id, init_if_null uninit s).
Proof.
  intros Hr Hl. destruct (FindNode_absent s ns fd (listHead s) Hr Hl) as (pre' & Hf).
  unfold getServicePath. by rewrite Hf.
Qed.

(** Storing the methods of a known descriptor keeps its node and path. *)
Lemma AddNode_present s ns fd a m0 p m :
  repr s ns -> abs ns !! fd = Some (a, m0, p) ->
  exists s' ns', AddNode uninit s fd m = Some s' /\ repr s' ns' /\ brk s' = brk s /\
    abs ns' = <[fd := (a, m, p)]> (abs ns).
Proof.
  intros Hr Hl. destruct (FindNode_present s ns fd a m0 p (listHead s) Hr Hl)
    as (pre' & Hf & Ha0 & Hh).
  destruct (abs_lookup_node s ns fd a m0 p Hr Hl) as (k & Hk & Hkf & <- & <- & _ & Hpl).
  destruct (repr_set_node s ns fd a _ _ k (set_method k m) Hr Hl Hk) as (ns' & Hr' & Ha');
    [done|done|done|].
  unfold AddNode. rewrite init_idem by done. rewrite Hf. cbn.
  rewrite (proj2 (Z.eqb_neq a 0)) by done. rewrite Hk. cbn. eauto 8.
Qed.

Lemma deref_path_node s ns fd a m p :
  repr s ns -> abs ns !! fd = Some (a, m, p) -> deref_path s (a + off_path) = Some p.
Proof.
  intros Hr Hl. destruct (abs_lookup_node s ns fd a m p Hr Hl) as (k & Hk & _ & _ & <- & _).
  unfold deref_path. by rewrite Z.add_simpl_r, Hk.
Qed.

End ops.
