(* ===== verification/TableSpec.v ===== *)
(** The descriptor table as an abstract map: sequences of table operations, run on
    the linked list of [MethodList] and on a finite map. *)
From S2P Require Import Prelude CMem UnixFile MethodList.

(** ** Commands *)

Inductive tcmd :=
  | TAdd (fd method : Z)
  | TDelete (fd : Z)
  | TSetPath (fd : Z) (path : region)
  | TFind (fd : Z).

(** A path is a C string that fits the node's array. *)
Definition tcmd_ok (c : tcmd) : Prop :=
  match c with
  | TSetPath _ path => exists n, strlen path 0 = Some n /\ n < 512
  | _ => True
  end.

(** The map: the methods of each descriptor, and the path last set, if any. *)
Abbreviation tmap := (gmap Z (Z * option region)).

(** What the table answers to a lookup: whether the descriptor is there. *)
Definition tmap_step (c : tcmd) (m : tmap) : tmap * option bool :=
  match c with
  | TAdd fd method =>
      (<[fd := (method, match m !! fd with Some (_, p) => p | None => None end)]> m, None)
  | TDelete fd => (delete fd m, None)
  | TSetPath fd path =>
      (match m !! fd with
       | Some (method, _) => <[fd := (method, cstring path 0)]> m
       | None => m
       end, None)
  | TFind fd => (m, Some (bool_decide (is_Some (m !! fd))))
  end.

Fixpoint tmap_run (cs : list tcmd) (m : tmap) : tmap * list (option bool) :=
  match cs with
  | [] => (m, [])
  | c :: cs => let '(m, r) := tmap_step c m in
               let '(m, rs) := tmap_run cs m in (m, r :: rs)
  end.

Section table.

Context (uninit : Z -> MethodAndFD).

Definition tlist_step (c : tcmd) (s : mlist) : option (mlist * option bool) :=
  match c with
  | TAdd fd method => s ← AddNode uninit s fd method; Some (s, None)
  | TDelete fd => s ← DeleteNode uninit s fd; Some (s, None)
  | TSetPath fd path => s ← setServicePath uninit s fd path; Some (s, None)
  | TFind fd =>
      '(node, _, s) ← FindNode uninit s fd (listHead s); Some (s, Some (negb (node =? 0)))
  end.

Fixpoint tlist_run (cs : list tcmd) (s : mlist) : option (mlist * list (option bool)) :=
  match cs with
  | [] => Some (s, [])
  | c :: cs =>
      '(s, r) ← tlist_step c s;
      '(s, rs) ← tlist_run cs s;
      Some (s, r :: rs)
  end.

Hypothesis uninit_ok : forall a, node_ok (uninit a).

(** [represents s m]: the list holds the descriptors of [m], with their methods,
    and where the map has a path, the node holds that string. *)
Definition represents (s : mlist) (m : tmap) : Prop :=
  exists ns, repr s ns /\ dom (abs ns) = dom m /\
    forall fd a method p q, abs ns !! fd = Some (a, method, p) -> m !! fd = Some q ->
      method = q.1 /\ forall str, q.2 = Some str -> cstring p 0 = Some str.

Lemma represents_empty b : 0 < b -> represents (empty_mlist b) ∅.
Proof.
  intros. exists []. split; [by apply repr_empty|]. split; [|done].
  change (abs []) with (∅ : gmap Z (Z * Z * region)). by rewrite !dom_empty_L.
Qed.

Lemma represents_lookup s ns (m : tmap) fd :
  repr s ns -> dom (abs ns) = dom m ->
  (exists a me p q, abs ns !! fd = Some (a, me, p) /\ m !! fd = Some q) \/
  (abs ns !! fd = None /\ m !! fd = None).
Proof.
  intros Hr Hd. destruct (abs ns !! fd) as [[[a me] p]|] eqn:Hl; destruct (m !! fd) as [q|] eqn:Hq.
  - left. eauto 8.
  - assert (fd ∈ dom m) as [? ?]%elem_of_dom by (rewrite <- Hd; apply elem_of_dom; eauto).
    congruence.
  - assert (fd ∈ dom (abs ns)) as [? ?]%elem_of_dom by (rewrite Hd; apply elem_of_dom; eauto).
    congruence.
  - by right.
Qed.

(** The string a [strcpy] leaves in its destination is the source string. *)
Lemma strcpy_cstring dst src n dst' :
  strlen src 0 = Some n -> strcpy dst 0 src 0 = Some dst' -> cstring dst' 0 = cstring src 0.
Proof.
  intros Hs Hc. destruct (strlen_read _ _ _ Hs) as (d & Hd & Hdl & Hdn).
  pose proof (strlen_bound _ _ _ Hs). unfold strcpy, memcpy in Hc. rewrite Hs in Hc. cbn in Hc.
  rewrite Hd in Hc. cbn in Hc. unfold cstring. rewrite (strlen_write _ _ _ _ _ Hc Hdl), Hs. cbn.
  apply mem_read_Some in Hd as (? & ? & ? & ->). apply mem_write_Some in Hc as (? & ? & ->).
  rewrite len_slice in * by lia.
  rewrite !mem_read_ok by (rewrite ?len_splice; rewrite ?len_slice; lia). f_equal.
  unfold splice, slice, len in *. rewrite take_0, !drop_0, app_nil_l.
  rewrite take_app_le by (rewrite length_take; lia). rewrite take_take. f_equal. lia.
Qed.

Lemma tlist_step_map c s m :
  tcmd_ok c -> represents s m ->
  exists s', tlist_step c s = Some (s', (tmap_step c m).2) /\ represents s' (tmap_step c m).1.
Proof.
  intros Hc (ns & Hr & Hd & Hrep). destruct c as [fd me|fd|fd path|fd]; cbn [tlist_step].
  - destruct (AddNode_repr uninit uninit_ok s ns fd me Hr) as (s' & ns' & a & p & -> & Hr' & _ & Ha & Hold).
    exists s'. split; [done|]. exists ns'. split; [done|]. cbn. rewrite Ha.
    split; [by rewrite !dom_insert_L, Hd|]. intros fd' a' me' p' q.
    rewrite !lookup_insert_Some.
    intros [[<- [= <- <- <-]]|[Hne Hl]] [[? <-]|[? Hq]]; try done; [|by eapply Hrep].
    split; [done|]. cbn. destruct (m !! fd) as [[me0 q0]|] eqn:Hm; [|done]. intros str ->.
    destruct (represents_lookup s ns m fd Hr Hd) as [(a0&me1&p0&q0&Hl&Hq)|[? ?]]; [|congruence].
    destruct (Hold _ _ _ Hl) as [-> ->]. rewrite Hm in Hq. injection Hq as <-.
    by eapply (Hrep _ _ _ _ _ Hl Hm).
  - destruct (DeleteNode_repr uninit uninit_ok s ns fd Hr) as (s' & ns' & -> & Hr' & Ha).
    exists s'. split; [done|]. exists ns'. split; [done|]. cbn. rewrite Ha.
    split; [by rewrite !dom_delete_L, Hd|]. intros fd' a' me' p' q.
    rewrite !lookup_delete_Some. intros [? ?] [? ?]. by eapply Hrep.
  - destruct Hc as (n & Hs & Hn). cbn.
    destruct (represents_lookup s ns m fd Hr Hd) as [(a0&me1&p0&[me2 q0]&Hl&Hq)|[Hl Hq]].
    + destruct (setServicePath_present uninit uninit_ok s ns fd a0 me1 p0 path n Hr Hl Hs Hn)
        as (s' & ns' & p' & -> & Hr' & _ & Hcp & _ & _ & Ha).
      exists s'. split; [done|]. exists ns'. split; [done|]. rewrite Ha, Hq.
      split. { rewrite !dom_insert_L, Hd. done. }
      intros fd' a' me' p1 q. rewrite !lookup_insert_Some.
      intros [[<- [= <- <- <-]]|[Hne Hl']] [[? <-]|[? Hq']]; try done; [|by eapply Hrep].
      destruct (Hrep _ _ _ _ _ Hl Hq) as [-> _]. split; [done|]. cbn. intros str <-.
      by eapply strcpy_cstring.
    + unfold setServicePath. destruct (FindNode_absent uninit uninit_ok s ns fd (listHead s) Hr Hl)
        as (pre & ->). cbn. rewrite Hq. eexists. split; [done|].
      exists ns. split; [by apply init_if_null_repr|done].
  - destruct (represents_lookup s ns m fd Hr Hd) as [(a0&me1&p0&q0&Hl&Hq)|[Hl Hq]].
    + destruct (FindNode_present uninit uninit_ok s ns fd a0 me1 p0 (listHead s) Hr Hl)
        as (pre & -> & Ha0 & _). cbn. rewrite (proj2 (Z.eqb_neq a0 0)) by done.
      exists s. split; [by rewrite bool_decide_true by (by eexists)|]. by exists ns.
    + destruct (FindNode_absent uninit uninit_ok s ns fd (listHead s) Hr Hl) as (pre & ->). cbn.
      eexists. split; [rewrite bool_decide_false; [done|by rewrite Hq; intros []]|].
      exists ns. split; [by apply init_if_null_repr|done].
Qed.

(** C4: Every sequence of table operations runs to completion on the linked list,
    from any well-formed list, with the answers of the finite map: a node is
    found exactly for the descriptors added and not deleted since, with the
    methods last stored and the path last set. *)
Theorem table_refines_map cs s m :
  Forall tcmd_ok cs -> represents s m ->
  exists s', tlist_run cs s = Some (s', (tmap_run cs m).2) /\ represents s' (tmap_run cs m).1.
Proof.
  intros Hok. revert s m. induction Hok as [|c cs Hc Hok IH]; intros s m Hrep; [by exists s|].
  destruct (tlist_step_map c s m Hc Hrep) as (s1 & Hs1 & Hrep1).
  destruct (IH s1 _ Hrep1) as (s2 & Hs2 & Hrep2). exists s2.
  cbn [tlist_run tmap_run]. rewrite Hs1. cbn. rewrite Hs2. cbn.
  destruct (tmap_step c m) as [m1 r1]. cbn in *.
  destruct (tmap_run cs m1) as [m2 rs]. done.
Qed.

End table.
