(* ===== verification/UnixVfs.v ===== *)
(** The interface between os_remote's server and the unix VFS it wraps.

    [UnixVfs W] lists the entry points of os_unix.c that the server calls, as
    functions of a world [W] (files, inodes, system state).  [UnixVfsOk] is what
    the server relies on: an operation on an open file returns a full file
    object and leaves the descriptor and the two fields the server manages,
    [pMethod] and [zPath], as they were. *)
From S2P Require Import Prelude CMem UnixFile ArgConvert.

(** Results are the C return value, the file object afterwards, the output
    parameters, and the world; [None] is a crash. *)
Class UnixVfs (W : Type) := {
  vOsInit : W -> option (Z * W);
  vOpen (zPath : region) (zPathAddr : Z) (pFile : region) (flags : Z) (pOutFlags : option Z) :
    W -> option (Z * region * option Z * W);
  vDelete (zPath : region) (dirSync : Z) : W -> option (Z * W);
  vAccess (zPath : region) (flags pResOut : Z) : W -> option (Z * Z * W);
  vFullPathname (zPath : region) (nOut : Z) (zOut : region) : W -> option (Z * region * W);
  vGetLastError : W -> option (Z * W);
  vRead (id pBuf : region) (amt offset : Z) : W -> option (Z * region * region * W);
  vWrite (id pBuf : region) (amt offset : Z) : W -> option (Z * region * W);
  vTruncate (id : region) (nByte : Z) : W -> option (Z * region * W);
  vSync (id : region) (flags : Z) : W -> option (Z * region * W);
  vFileSize (id : region) (pSize : Z) : W -> option (Z * region * Z * W);
  vFileControl (id : region) (op : Z) (pArg : option region) :
    W -> option (Z * region * option region * W);
  vSectorSize (id : region) : W -> option (Z * region * W);
  vDeviceCharacteristics (id : region) : W -> option (Z * region * W);
  vClose (methods : Z) (id : region) : W -> option (Z * region * W);
  vLock (id : region) (eFileLock : Z) : W -> option (Z * region * W);
  vUnlock (id : region) (eFileLock : Z) : W -> option (Z * region * W);
  vCheckReservedLock (id : region) (pResOut : Z) : W -> option (Z * region * Z * W);
  vFetch (id : region) (iOff nAmt : Z) : W -> option (Z * region * option region * W);
  vUnfetch (id : region) (iOff : Z) (p : bool) : W -> option (Z * region * W);
  (** the C string at an address of the server's memory *)
  vDeref : W -> Z -> option region }.

(** [frame id id']: [id'] is a file object with the descriptor, methods and
    path of [id]. *)
Definition frame (id id' : region) : Prop :=
  is_unixFile id' /\ uf_h id' = uf_h id /\ uf_pMethods id' = uf_pMethods id /\
  uf_zPath id' = uf_zPath id.

Class UnixVfsOk (W : Type) `{V : UnixVfs W} : Prop := {
  (* an open starts from scratch: the old contents of the object do not matter *)
  vOpen_ok p addr f flags out w rc f' out' w' :
    is_unixFile f -> vOpen p addr f flags out w = Some (rc, f', out', w') ->
    is_unixFile f' /\ in_s 32 rc;
  vOpen_fresh p addr f f' flags out w :
    is_unixFile f -> is_unixFile f' ->
    vOpen p addr f flags out w = vOpen p addr f' flags out w;
  (* paths are C strings *)
  vOpen_path p q addr f flags out w :
    cstring p 0 = cstring q 0 -> vOpen p addr f flags out w = vOpen q addr f flags out w;
  vDelete_path p q d w : cstring p 0 = cstring q 0 -> vDelete p d w = vDelete q d w;
  vDelete_ok p d w rc w' : vDelete p d w = Some (rc, w') -> in_s 32 rc;
  vAccess_path p q fl r w : cstring p 0 = cstring q 0 -> vAccess p fl r w = vAccess q fl r w;
  vAccess_ok p fl r w rc r' w' :
    vAccess p fl r w = Some (rc, r', w') -> in_s 32 rc /\ in_s 32 r';
  vRead_ok id pBuf amt offset w rc id' pBuf' w' :
    is_unixFile id -> vRead id pBuf amt offset w = Some (rc, id', pBuf', w') ->
    frame id id' /\ len pBuf' = len pBuf /\ in_s 32 rc;
  (* only the first [amt] bytes of a buffer are used *)
  vRead_local id p x amt offset w :
    is_unixFile id -> len p = amt ->
    vRead id (p ++ x) amt offset w =
      ('(rc, id', p', w') ← vRead id p amt offset w; Some (rc, id', p' ++ x, w'));
  vWrite_local id p x amt offset w :
    is_unixFile id -> len p = amt ->
    vWrite id (p ++ x) amt offset w = vWrite id p amt offset w;
  vWrite_ok id pBuf amt offset w rc id' w' :
    is_unixFile id -> vWrite id pBuf amt offset w = Some (rc, id', w') ->
    frame id id' /\ in_s 32 rc;
  vTruncate_ok id nByte w rc id' w' :
    is_unixFile id -> vTruncate id nByte w = Some (rc, id', w') -> frame id id' /\ in_s 32 rc;
  vSync_ok id flags w rc id' w' :
    is_unixFile id -> vSync id flags w = Some (rc, id', w') -> frame id id' /\ in_s 32 rc;
  vFileSize_ok id pSize w rc id' sz w' :
    is_unixFile id -> vFileSize id pSize w = Some (rc, id', sz, w') ->
    frame id id' /\ in_s 32 rc /\ (in_s 64 pSize -> in_s 64 sz);
  vFileControl_ok id op pArg w rc id' pArg' w' :
    is_unixFile id -> vFileControl id op pArg w = Some (rc, id', pArg', w') ->
    frame id id' /\ in_s 32 rc /\ len <$> pArg' = len <$> pArg;
  (* an integer argument is an [int] or an [i64] *)
  vFileControl_local id op p x w :
    is_unixFile id ->
    ControlType op = 1 /\ len p = sz_int \/ ControlType op = 2 /\ len p = sz_i64 ->
    vFileControl id op (Some (p ++ x)) w =
      ('(rc, id', q, w') ← vFileControl id op (Some p) w; Some (rc, id', option_map (fun b => b ++ x) q, w'));
  vSectorSize_ok id w rc id' w' :
    is_unixFile id -> vSectorSize id w = Some (rc, id', w') -> frame id id' /\ in_s 32 rc;
  vDeviceCharacteristics_ok id w rc id' w' :
    is_unixFile id -> vDeviceCharacteristics id w = Some (rc, id', w') ->
    frame id id' /\ in_s 32 rc;
  vClose_ok m id w rc id' w' :
    is_unixFile id -> vClose m id w = Some (rc, id', w') -> is_unixFile id' /\ in_s 32 rc;
  vLock_ok id e w rc id' w' :
    is_unixFile id -> vLock id e w = Some (rc, id', w') -> frame id id' /\ in_s 32 rc;
  vUnlock_ok id e w rc id' w' :
    is_unixFile id -> vUnlock id e w = Some (rc, id', w') -> frame id id' /\ in_s 32 rc;
  vCheckReservedLock_ok id r w rc id' r' w' :
    is_unixFile id -> vCheckReservedLock id r w = Some (rc, id', r', w') ->
    frame id id' /\ in_s 32 rc /\ in_s 32 r';
  vFetch_ok id iOff nAmt w rc id' pp w' :
    is_unixFile id -> vFetch id iOff nAmt w = Some (rc, id', pp, w') ->
    frame id id' /\ in_s 32 rc /\ forall p, pp = Some p -> nAmt <= len p;
  vUnfetch_ok id iOff p w rc id' w' :
    is_unixFile id -> vUnfetch id iOff p w = Some (rc, id', w') -> frame id id' /\ in_s 32 rc }.
