(* ===== verification/ServerWrap.v ===== *)
(** The server (src/os_remote/server/os_server_wrap.c and os_remote_server.cc).

    One [Wrap] function per VFS method unpacks the request, restores the
    server's own fields of the file object from the descriptor table, calls the
    unix VFS, records the fields again and packs the reply.  One service method
    per RPC allocates the reply buffer and calls it. *)
From S2P Require Import Prelude CMem UnixFile OsRemoteInit MethodList ArgConvert UnixVfs.

(** ** Requests and replies (os_remote.proto) *)

Record ArgRequest := { inarg : region; outlen : Z }.

Record ArgReply := { outarg : region }.

Inductive Method :=
  | MInit | MOpen | MDelete | MAccess | MFullPathname | MGetLastError | MWrite | MRead
  | MTruncate | MSync | MFileSize | MFileControl | MSectorSize | MDeviceCharacteristics
  | MClose | MLock | MUnlock | MCheckReservedLock | MFetch | MUnfetch.

(** The server process: the descriptor table and the world of the unix VFS. *)
Record server (W : Type) := mkServer { table : mlist; world : W }.
Arguments mkServer {W}. Arguments table {W}. Arguments world {W}.

Section server.

Context {W : Type} `{V : UnixVfs W}.

(** Contents of fresh heap nodes and of uninitialised arrays of a given size;
    the addresses of [posixIoMethods] and of [WrapOpen]'s local [path]. *)
Context (uninit : Z -> MethodAndFD) (uninit_bytes : Z -> region).
Context (posixIoMethods path_addr : Z).

Local Abbreviation getServerUnixPMethods := (getServerUnixPMethods uninit posixIoMethods).
Local Abbreviation getServicePath := (getServicePath uninit).
Local Abbreviation setServerUnixPMethods := (setServerUnixPMethods uninit).
Local Abbreviation setServicePath := (setServicePath uninit).

(** [getServerUnixPMethods(id.h, pId); getServicePath(id.h, &id);] *)
Definition restore_fields (t : mlist) (id : region) : option (region * mlist) :=
  h ← uf_h id;
  '(id, t) ← getServerUnixPMethods t h id;
  getServicePath t h id.

(** [setServerUnixPMethods(id.h, pId); setServicePath(id.h, id.zPath);] *)
Definition record_fields (t : mlist) (id : region) : option mlist :=
  h ← uf_h id;
  t ← setServerUnixPMethods t h id;
  zPath ← uf_zPath id;
  path ← deref_path t zPath;
  setServicePath t h path.

(** ** The [Wrap] functions *)

Definition WrapInit (argIn argOut : region) (s : server W) : option (region * server W) :=
  '(rc, w) ← vOsInit (world s);
  argOut ← sqlite3_os_initConvertReturnToChar rc argOut;
  Some (argOut, mkServer (table s) w).

Definition WrapOpen (argIn argOut : region) (s : server W) : option (region * server W) :=
  '(path, pId, in_flags, out_flags) ←
    unixOpenConvertCharToArgIn argIn (uninit_bytes 512) (uninit_bytes SIZE_UNIXFILE);
  '(pId, t) ← restore_fields (table s) pId;
  '(rc, pId, out, w) ←
    vOpen path path_addr pId (Z.land in_flags 0x87f7f)
      (if -1 =? out_flags then None else Some out_flags) (world s);
  let out_flags := default out_flags out in
  h ← uf_h pId;
  t ← setServerUnixPMethods t h pId;
  t ← setServicePath t h path;
  argOut ← unixOpenConvertReturnToChar pId out_flags rc argOut;
  Some (argOut, mkServer t w).

Definition WrapDelete (argIn argOut : region) (s : server W) : option (region * server W) :=
  '(path, dirSync) ← unixDeleteConvertCharToArgIn argIn (uninit_bytes 512);
  '(rc, w) ← vDelete path dirSync (world s);
  argOut ← unixDeleteConvertReturnToChar rc argOut;
  Some (argOut, mkServer (table s) w).

Definition WrapAccess (argIn argOut : region) (s : server W) : option (region * server W) :=
  '(path, flags, res) ← unixAccessConvertCharToArgIn argIn (uninit_bytes 512);
  '(rc, res, w) ← vAccess path flags res (world s);
  argOut ← unixAccessConvertReturnToChar res rc argOut;
  Some (argOut, mkServer (table s) w).

Definition WrapFullPathname (argIn argOut : region) (s : server W) : option (region * server W) :=
  nOut ← getFullPathname_OUT_LEN argIn;
  if nOut <? 0 then None else
  '(path, nOut) ← unixFullPathnameConvertCharToArgIn argIn (uninit_bytes nOut);
  '(rc, zOut, w) ← vFullPathname path nOut (uninit_bytes nOut) (world s);
  argOut ← unixFullPathnameConvertReturnToChar nOut zOut rc argOut;
  Some (argOut, mkServer (table s) w).

Definition WrapGetLastError (argIn argOut : region) (s : server W) : option (region * server W) :=
  '(rc_errno, w) ← vGetLastError (world s);
  argOut ← unixGetLastErrorConvertReturnToChar rc_errno argOut;
  Some (argOut, mkServer (table s) w).

Definition WrapWrite (argIn argOut : region) (s : server W) : option (region * server W) :=
  '(id, pBuf, amt, offset) ←
    unixWriteConvertCharToArgIn argIn (uninit_bytes SIZE_UNIXFILE) (uninit_bytes 8192);
  '(id, t) ← restore_fields (table s) id;
  '(rc, id, w) ← vWrite id pBuf amt offset (world s);
  t ← record_fields t id;
  argOut ← unixWriteConvertReturnToChar id rc argOut;
  Some (argOut, mkServer t w).

Definition WrapRead (argIn argOut : region) (s : server W) : option (region * server W) :=
  '(id, pBuf, amt, offset) ←
    unixReadConvertCharToArgIn argIn (uninit_bytes SIZE_UNIXFILE) (uninit_bytes 8192);
  '(id, t) ← restore_fields (table s) id;
  '(rc, id, pBuf, w) ← vRead id pBuf amt offset (world s);
  t ← record_fields t id;
  argOut ← unixReadConvertReturnToChar id pBuf amt rc argOut;
  Some (argOut, mkServer t w).

Definition WrapTruncate (argIn argOut : region) (s : server W) : option (region * server W) :=
  '(id, nByte) ← unixTruncateConvertCharToArgIn argIn (uninit_bytes SIZE_UNIXFILE);
  '(id, t) ← restore_fields (table s) id;
  '(rc, id, w) ← vTruncate id nByte (world s);
  t ← record_fields t id;
  argOut ← unixTruncateConvertReturnToChar id rc argOut;
  Some (argOut, mkServer t w).

Definition WrapSync (argIn argOut : region) (s : server W) : option (region * server W) :=
  '(id, flags) ← unixSyncConvertCharToArgIn argIn (uninit_bytes SIZE_UNIXFILE);
  '(id, t) ← restore_fields (table s) id;
  '(rc, id, w) ← vSync id flags (world s);
  t ← record_fields t id;
  argOut ← unixSyncConvertReturnToChar id rc argOut;
  Some (argOut, mkServer t w).

Definition WrapFileSize (argIn argOut : region) (s : server W) : option (region * server W) :=
  '(id, pSize) ← unixFileSizeConvertCharToArgIn argIn (uninit_bytes SIZE_UNIXFILE);
  '(id, t) ← restore_fields (table s) id;
  '(rc, id, pSize, w) ← vFileSize id pSize (world s);
  t ← record_fields t id;
  argOut ← unixFileSizeConvertReturnToChar id pSize rc argOut;
  Some (argOut, mkServer t w).

Definition WrapFileControl (argIn argOut : region) (s : server W) : option (region * server W) :=
  '(id, op, pArg, size) ←
    unixFileControlConvertCharToArgIn argIn (uninit_bytes SIZE_UNIXFILE) (uninit_bytes 512);
  '(id, t) ← restore_fields (table s) id;
  '(rc, id, pArg', w) ←
    vFileControl id op (if 0 <? size then Some pArg else None) (world s);
  let pArg := default pArg pArg' in
  t ← record_fields t id;
  size ← LenFileControlPArg (vDeref w) op (Some pArg);
  argOut ← unixFileControlConvertReturnToChar id pArg rc argOut size;
  Some (argOut, mkServer t w).

Definition WrapSectorSize (argIn argOut : region) (s : server W) : option (region * server W) :=
  id ← unixSectorSizeConvertCharToArgIn argIn (uninit_bytes SIZE_UNIXFILE);
  '(id, t) ← restore_fields (table s) id;
  '(sectorSize, id, w) ← vSectorSize id (world s);
  t ← record_fields t id;
  argOut ← unixSectorSizeConvertReturnToChar id sectorSize argOut;
  Some (argOut, mkServer t w).

Definition WrapDeviceCharacteristics (argIn argOut : region) (s : server W)
    : option (region * server W) :=
  id ← unixDeviceCharacteristicsConvertCharToArgIn argIn (uninit_bytes SIZE_UNIXFILE);
  '(id, t) ← restore_fields (table s) id;
  '(deviceCharacteristics, id, w) ← vDeviceCharacteristics id (world s);
  t ← record_fields t id;
  argOut ← unixDeviceCharacteristicsConvertReturnToChar id deviceCharacteristics argOut;
  Some (argOut, mkServer t w).

(** The table keeps the node of a closed descriptor. *)
Definition WrapClose (argIn argOut : region) (s : server W) : option (region * server W) :=
  id ← unixCloseConvertCharToArgIn argIn (uninit_bytes SIZE_UNIXFILE);
  '(id, t) ← restore_fields (table s) id;
  m ← uf_pMethods id;
  '(rc, w) ←
    (if m =? 0 then rc ← load_int (uninit_bytes sz_int) 0; Some (rc, world s)
     else '(rc, id, w) ← vClose m id (world s); Some (rc, w));
  argOut ← unixCloseConvertReturnToChar rc argOut;
  Some (argOut, mkServer t w).

Definition WrapLock (argIn argOut : region) (s : server W) : option (region * server W) :=
  '(id, eFileLock) ← unixLockConvertCharToArgIn argIn (uninit_bytes SIZE_UNIXFILE);
  '(id, t) ← restore_fields (table s) id;
  '(rc, id, w) ← vLock id eFileLock (world s);
  t ← record_fields t id;
  argOut ← unixLockConvertReturnToChar id rc argOut;
  Some (argOut, mkServer t w).

Definition WrapUnlock (argIn argOut : region) (s : server W) : option (region * server W) :=
  '(id, eFileLock) ← unixUnlockConvertCharToArgIn argIn (uninit_bytes SIZE_UNIXFILE);
  '(id, t) ← restore_fields (table s) id;
  '(rc, id, w) ← vUnlock id eFileLock (world s);
  t ← record_fields t id;
  argOut ← unixUnlockConvertReturnToChar id rc argOut;
  Some (argOut, mkServer t w).

Definition WrapCheckReservedLock (argIn argOut : region) (s : server W)
    : option (region * server W) :=
  '(id, pResOut) ←
    unixCheckReservedLockConvertCharToArgIn argIn (uninit_bytes SIZE_UNIXFILE);
  '(id, t) ← restore_fields (table s) id;
  '(rc, id, pResOut, w) ← vCheckReservedLock id pResOut (world s);
  t ← record_fields t id;
  argOut ← unixCheckReservedLockConvertReturnToChar id pResOut rc argOut;
  Some (argOut, mkServer t w).

Definition WrapFetch (argIn argOut : region) (s : server W) : option (region * server W) :=
  '(id, iOff, nAmt) ← unixFetchConvertCharToArgIn argIn (uninit_bytes SIZE_UNIXFILE);
  '(id, t) ← restore_fields (table s) id;
  '(rc, id, pData, w) ← vFetch id iOff nAmt (world s);
  t ← record_fields t id;
  argOut ← unixFetchsConvertReturnToChar id pData nAmt rc argOut;
  Some (argOut, mkServer t w).

Definition WrapUnfetch (argIn argOut : region) (s : server W) : option (region * server W) :=
  '(id, iOff, p_flag) ← unixUnfetchConvertCharToArgIn argIn (uninit_bytes SIZE_UNIXFILE);
  '(id, t) ← restore_fields (table s) id;
  '(rc, id, w) ← vUnfetch id iOff (negb (p_flag =? 0)) (world s);
  t ← record_fields t id;
  argOut ← unixUnfetchConvertReturnToChar id rc argOut;
  Some (argOut, mkServer t w).

(** ** The service methods

    [request->inarg().data()] is terminated by a zero byte past its size;
    [char out_struct[out_size]] is uninitialised. *)
Definition serve (wrap : region -> region -> server W -> option (region * server W))
    (request : ArgRequest) (s : server W) : option (ArgReply * server W) :=
  let out_size := wrap_s 32 (outlen request) in
  let in_ := inarg request ++ [Byte.x00] in
  if out_size <? 0 then None else
  '(out_struct, s) ← wrap in_ (uninit_bytes out_size) s;
  reply ← mem_read out_struct 0 out_size;
  Some ({| outarg := reply |}, s).

Definition OSRemote_Init := serve WrapInit.
Definition OSRemote_Open := serve WrapOpen.
Definition OSRemote_Delete := serve WrapDelete.
Definition OSRemote_Access := serve WrapAccess.
Definition OSRemote_FullPathname := serve WrapFullPathname.
Definition OSRemote_GetLastError := serve WrapGetLastError.
Definition OSRemote_Write := serve WrapWrite.
Definition OSRemote_Read := serve WrapRead.
Definition OSRemote_Truncate := serve WrapTruncate.
Definition OSRemote_Sync := serve WrapSync.
Definition OSRemote_FileSize := serve WrapFileSize.
Definition OSRemote_FileControl := serve WrapFileControl.
Definition OSRemote_SectorSize := serve WrapSectorSize.
Definition OSRemote_DeviceCharacteristics := serve WrapDeviceCharacteristics.
Definition OSRemote_Close := serve WrapClose.
Definition OSRemote_Lock := serve WrapLock.
Definition OSRemote_Unlock := serve WrapUnlock.
Definition OSRemote_CheckReservedLock := serve WrapCheckReservedLock.
Definition OSRemote_Fetch := serve WrapFetch.
Definition OSRemote_Unfetch := serve WrapUnfetch.

(** The RPC dispatch of the generated service. *)
Definition handler (m : Method) : ArgRequest -> server W -> option (ArgReply * server W) :=
  match m with
  | MInit => OSRemote_Init
  | MOpen => OSRemote_Open
  | MDelete => OSRemote_Delete
  | MAccess => OSRemote_Access
  | MFullPathname => OSRemote_FullPathname
  | MGetLastError => OSRemote_GetLastError
  | MWrite => OSRemote_Write
  | MRead => OSRemote_Read
  | MTruncate => OSRemote_Truncate
  | MSync => OSRemote_Sync
  | MFileSize => OSRemote_FileSize
  | MFileControl => OSRemote_FileControl
  | MSectorSize => OSRemote_SectorSize
  | MDeviceCharacteristics => OSRemote_DeviceCharacteristics
  | MClose => OSRemote_Close
  | MLock => OSRemote_Lock
  | MUnlock => OSRemote_Unlock
  | MCheckReservedLock => OSRemote_CheckReservedLock
  | MFetch => OSRemote_Fetch
  | MUnfetch => OSRemote_Unfetch
  end.

End server.
