(* ===== verification/Messages.v ===== *)
(** The messages of the file methods (src/os_remote/common/os_arg_convert.c): one
    type for the calls whose result travels back completely, the four
    marshalling functions by call, and their round trips.

    A call on the server carries the server's own, larger buffers; [op_ext]
    relates it to the call the client packed. *)
From S2P Require Import Prelude CMem UnixFile OsRemoteInit ArgConvert ServerWrap UnixVfs.

(** ** Calls and results *)

Inductive fop :=
  | OpRead (pBuf : region) (amt offset : Z)
  | OpWrite (pBuf : region) (amt offset : Z)
  | OpTruncate (nByte : Z)
  | OpSync (flags : Z)
  | OpFileSize (pSize : Z)
  | OpFileControl (op : Z) (pArg : option region)
  | OpSectorSize
  | OpDeviceCharacteristics
  | OpLock (eFileLock : Z)
  | OpUnlock (eFileLock : Z)
  | OpCheckReservedLock (pResOut : Z).

(** What a call leaves in its output parameter. *)
Inductive fout :=
  | NoOut
  | OutBuf (pBuf : region)
  | OutInt (z : Z)
  | OutArg (pArg : option region).

Definition op_method (o : fop) : Method :=
  match o with
  | OpRead _ _ _ => MRead
  | OpWrite _ _ _ => MWrite
  | OpTruncate _ => MTruncate
  | OpSync _ => MSync
  | OpFileSize _ => MFileSize
  | OpFileControl _ _ => MFileControl
  | OpSectorSize => MSectorSize
  | OpDeviceCharacteristics => MDeviceCharacteristics
  | OpLock _ => MLock
  | OpUnlock _ => MUnlock
  | OpCheckReservedLock _ => MCheckReservedLock
  end.

Definition request_size (o : fop) : Z :=
  match o with
  | OpRead _ _ _ => sizeof_ArgInRead
  | OpWrite _ _ _ => sizeof_ArgInWrite
  | OpTruncate _ => sizeof_ArgInTruncate
  | OpSync _ => sizeof_ArgInSync
  | OpFileSize _ => sizeof_ArgInFileSize
  | OpFileControl _ _ => sizeof_ArgInFileControl
  | OpSectorSize => sizeof_ArgInSectorSize
  | OpDeviceCharacteristics => sizeof_ArgInDeviceCharacteristics
  | OpLock _ => sizeof_ArgInLock
  | OpUnlock _ => sizeof_ArgInUnlock
  | OpCheckReservedLock _ => sizeof_ArgInCheckReservedLock
  end.

Definition reply_size (o : fop) : Z :=
  match o with
  | OpRead _ _ _ => sizeof_ReturnRead
  | OpWrite _ _ _ => sizeof_ReturnWrite
  | OpTruncate _ => sizeof_ReturnTruncate
  | OpSync _ => sizeof_ReturnSync
  | OpFileSize _ => sizeof_ReturnFileSize
  | OpFileControl _ _ => sizeof_ReturnFileControl
  | OpSectorSize => sizeof_ReturnSectorSize
  | OpDeviceCharacteristics => sizeof_ReturnDeviceCharacteristics
  | OpLock _ => sizeof_ReturnLock
  | OpUnlock _ => sizeof_ReturnUnlock
  | OpCheckReservedLock _ => sizeof_ReturnCheckReservedLock
  end.

(** The arguments a C caller can pass and the messages can carry. *)
Definition op_ok (o : fop) : Prop :=
  match o with
  | OpRead pBuf amt offset | OpWrite pBuf amt offset =>
      0 <= amt <= MAX_SIZE /\ amt <= len pBuf /\ in_s 64 offset
  | OpTruncate nByte => in_s 64 nByte
  | OpSync flags => in_s 32 flags
  | OpFileSize pSize => in_s 64 pSize
  | OpFileControl op None => in_s 32 op /\ ControlType op = 0
  | OpFileControl op (Some p) =>
      in_s 32 op /\ (ControlType op = 1 /\ len p = sz_int \/ ControlType op = 2 /\ len p = sz_i64)
  | OpSectorSize | OpDeviceCharacteristics => True
  | OpLock e | OpUnlock e => in_s 32 e
  | OpCheckReservedLock r => in_s 32 r
  end.

(** The results the messages can carry for a call. *)
Definition out_ok (o : fop) (r : fout) : Prop :=
  match o, r with
  | OpRead pBuf amt _, OutBuf b =>
      len b = len pBuf /\ drop (Z.to_nat amt) b = drop (Z.to_nat amt) pBuf
  | OpFileSize _, OutInt z => in_s 64 z
  | OpCheckReservedLock _, OutInt z => in_s 32 z
  | OpFileControl _ p, OutArg q => len <$> q = len <$> p
  | (OpRead _ _ _ | OpFileSize _ | OpCheckReservedLock _ | OpFileControl _ _), _ => False
  | _, NoOut => True
  | _, _ => False
  end.

(** The call as the server sees it: the client's bytes, then [y] up to the size
    of the server's buffer; and the same for a result. *)
Definition op_extend (y : region) (o : fop) : fop :=
  match o with
  | OpRead pBuf amt offset => OpRead (slice pBuf 0 amt ++ y) amt offset
  | OpWrite pBuf amt offset => OpWrite (slice pBuf 0 amt ++ y) amt offset
  | OpFileControl op (Some p) => OpFileControl op (Some (p ++ y))
  | o => o
  end.

Definition out_extend (y : region) (o : fop) (r : fout) : fout :=
  match o, r with
  | OpRead _ amt _, OutBuf b => OutBuf (slice b 0 amt ++ y)
  | OpFileControl _ (Some _), OutArg (Some q) => OutArg (Some (q ++ y))
  | _, r => r
  end.

(** [msgs] unfolds the marshalling functions. *)
Create HintDb msgs.
#[export] Hint Unfold unixReadConvertArgInToChar unixReadConvertCharToReturn
  unixReadConvertCharToArgIn unixReadConvertReturnToChar unixWriteConvertArgInToChar
  unixWriteConvertCharToReturn unixWriteConvertCharToArgIn unixWriteConvertReturnToChar
  unixTruncateConvertArgInToChar unixTruncateConvertCharToReturn
  unixTruncateConvertCharToArgIn unixTruncateConvertReturnToChar unixSyncConvertArgInToChar
  unixSyncConvertCharToReturn unixSyncConvertCharToArgIn unixSyncConvertReturnToChar
  unixFileSizeConvertArgInToChar unixFileSizeConvertCharToReturn
  unixFileSizeConvertCharToArgIn unixFileSizeConvertReturnToChar
  unixFileControlConvertArgInToChar unixFileControlConvertCharToReturn
  unixFileControlConvertCharToArgIn unixFileControlConvertReturnToChar
  unixSectorSizeConvertArgInToChar unixSectorSizeConvertCharToReturn
  unixSectorSizeConvertCharToArgIn unixSectorSizeConvertReturnToChar
  unixDeviceCharacteristicsConvertArgInToChar unixDeviceCharacteristicsConvertCharToReturn
  unixDeviceCharacteristicsConvertCharToArgIn unixDeviceCharacteristicsConvertReturnToChar
  unixLockConvertArgInToChar unixLockConvertCharToReturn unixLockConvertCharToArgIn
  unixLockConvertReturnToChar unixUnlockConvertArgInToChar unixUnlockConvertCharToReturn
  unixUnlockConvertCharToArgIn unixUnlockConvertReturnToChar
  unixCheckReservedLockConvertArgInToChar unixCheckReservedLockConvertCharToReturn
  unixCheckReservedLockConvertCharToArgIn unixCheckReservedLockConvertReturnToChar : msgs.

Section messages.

Context (remote_methods : Z) (deref : Z -> option region) (uninit_bytes : Z -> region).

(** ** Marshalling by call *)

(** The client's request. *)
Definition encode_request (o : fop) (id : region) : option region :=
  let arg := zeros (request_size o) in
  match o with
  | OpRead pBuf amt offset => unixReadConvertArgInToChar id pBuf amt offset arg
  | OpWrite pBuf amt offset => unixWriteConvertArgInToChar id pBuf amt offset arg
  | OpTruncate nByte => unixTruncateConvertArgInToChar id nByte arg
  | OpSync flags => unixSyncConvertArgInToChar id flags arg
  | OpFileSize pSize => unixFileSizeConvertArgInToChar id pSize arg
  | OpFileControl op pArg =>
      size ← LenFileControlPArg deref op pArg;
      unixFileControlConvertArgInToChar id op pArg arg size
  | OpSectorSize => unixSectorSizeConvertArgInToChar id arg
  | OpDeviceCharacteristics => unixDeviceCharacteristicsConvertArgInToChar id arg
  | OpLock e => unixLockConvertArgInToChar id e arg
  | OpUnlock e => unixUnlockConvertArgInToChar id e arg
  | OpCheckReservedLock r => unixCheckReservedLockConvertArgInToChar id r arg
  end.

(** The server's view of a request for method [m]. *)
Definition decode_request (m : Method) (arg : region) : option (region * fop) :=
  let id := uninit_bytes SIZE_UNIXFILE in
  match m with
  | MRead =>
      '(id, pBuf, amt, offset) ← unixReadConvertCharToArgIn arg id (uninit_bytes 8192);
      Some (id, OpRead pBuf amt offset)
  | MWrite =>
      '(id, pBuf, amt, offset) ← unixWriteConvertCharToArgIn arg id (uninit_bytes 8192);
      Some (id, OpWrite pBuf amt offset)
  | MTruncate => '(id, n) ← unixTruncateConvertCharToArgIn arg id; Some (id, OpTruncate n)
  | MSync => '(id, f) ← unixSyncConvertCharToArgIn arg id; Some (id, OpSync f)
  | MFileSize => '(id, n) ← unixFileSizeConvertCharToArgIn arg id; Some (id, OpFileSize n)
  | MFileControl =>
      '(id, op, pArg, size) ← unixFileControlConvertCharToArgIn arg id (uninit_bytes 512);
      Some (id, OpFileControl op (if 0 <? size then Some pArg else None))
  | MSectorSize => id ← unixSectorSizeConvertCharToArgIn arg id; Some (id, OpSectorSize)
  | MDeviceCharacteristics =>
      id ← unixDeviceCharacteristicsConvertCharToArgIn arg id; Some (id, OpDeviceCharacteristics)
  | MLock => '(id, e) ← unixLockConvertCharToArgIn arg id; Some (id, OpLock e)
  | MUnlock => '(id, e) ← unixUnlockConvertCharToArgIn arg id; Some (id, OpUnlock e)
  | MCheckReservedLock =>
      '(id, r) ← unixCheckReservedLockConvertCharToArgIn arg id; Some (id, OpCheckReservedLock r)
  | _ => None
  end.

(** The server's reply to a call, written into [arg]. *)
Definition encode_reply (o : fop) (id : region) (rc : Z) (r : fout) (arg : region)
    : option region :=
  match o, r with
  | OpRead _ amt _, OutBuf b => unixReadConvertReturnToChar id b amt rc arg
  | OpWrite _ _ _, NoOut => unixWriteConvertReturnToChar id rc arg
  | OpTruncate _, NoOut => unixTruncateConvertReturnToChar id rc arg
  | OpSync _, NoOut => unixSyncConvertReturnToChar id rc arg
  | OpFileSize _, OutInt z => unixFileSizeConvertReturnToChar id z rc arg
  | OpFileControl op _, OutArg q =>
      let pArg := default (uninit_bytes 512) q in
      size ← LenFileControlPArg deref op (Some pArg);
      unixFileControlConvertReturnToChar id pArg rc arg size
  | OpSectorSize, NoOut => unixSectorSizeConvertReturnToChar id rc arg
  | OpDeviceCharacteristics, NoOut => unixDeviceCharacteristicsConvertReturnToChar id rc arg
  | OpLock _, NoOut => unixLockConvertReturnToChar id rc arg
  | OpUnlock _, NoOut => unixUnlockConvertReturnToChar id rc arg
  | OpCheckReservedLock _, OutInt z => unixCheckReservedLockConvertReturnToChar id z rc arg
  | _, _ => None
  end.

(** What the client takes from a reply: return value, output, file object. *)
Definition decode_reply (o : fop) (arg id : region) : option (Z * fout * region) :=
  match o with
  | OpRead pBuf amt _ =>
      '(id, pBuf, rc) ← unixReadConvertCharToReturn remote_methods arg id pBuf amt;
      Some (rc, OutBuf pBuf, id)
  | OpWrite _ _ _ =>
      '(id, rc) ← unixWriteConvertCharToReturn remote_methods arg id; Some (rc, NoOut, id)
  | OpTruncate _ =>
      '(id, rc) ← unixTruncateConvertCharToReturn remote_methods arg id; Some (rc, NoOut, id)
  | OpSync _ =>
      '(id, rc) ← unixSyncConvertCharToReturn remote_methods arg id; Some (rc, NoOut, id)
  | OpFileSize _ =>
      '(id, n, rc) ← unixFileSizeConvertCharToReturn remote_methods arg id;
      Some (rc, OutInt n, id)
  | OpFileControl _ pArg =>
      '(id, pArg, rc) ← unixFileControlConvertCharToReturn remote_methods arg id pArg;
      Some (rc, OutArg pArg, id)
  | OpSectorSize =>
      '(id, z) ← unixSectorSizeConvertCharToReturn remote_methods arg id; Some (z, NoOut, id)
  | OpDeviceCharacteristics =>
      '(id, z) ← unixDeviceCharacteristicsConvertCharToReturn remote_methods arg id;
      Some (z, NoOut, id)
  | OpLock _ =>
      '(id, rc) ← unixLockConvertCharToReturn remote_methods arg id; Some (rc, NoOut, id)
  | OpUnlock _ =>
      '(id, rc) ← unixUnlockConvertCharToReturn remote_methods arg id; Some (rc, NoOut, id)
  | OpCheckReservedLock _ =>
      '(id, r, rc) ← unixCheckReservedLockConvertCharToReturn remote_methods arg id;
      Some (rc, OutInt r, id)
  end.

(** ** Round trips *)

Hypothesis uninit_bytes_ok : forall n, 0 <= n -> len (uninit_bytes n) = n.

(** Writing at the front of an object. *)
Lemma mem_write_front m d :
  len d <= len m -> mem_write m 0 d = Some (d ++ drop (length d) m).
Proof. intros. rewrite mem_write_ok by lia. done. Qed.

Lemma length_slice m n : 0 <= n <= len m -> length (slice m 0 n) = Z.to_nat n.
Proof. unfold slice, len. intros. rewrite length_take, length_drop. lia. Qed.

Lemma LenFileControlPArg_ok op p :
  op_ok (OpFileControl op p) ->
  LenFileControlPArg deref op p = Some (from_option len 0 p) /\
  forall b, LenFileControlPArg deref op (Some b) = Some (from_option len 0 p).
Proof.
  unfold LenFileControlPArg. destruct p as [p|]; cbn.
  - intros (_ & [[-> ->]|[-> ->]]); done.
  - intros (_ & ->). done.
Qed.

(** Pack or unpack a message, one access at a time. *)
Ltac run_message :=
  cbn -[zeros op_ok LenFileControlPArg setClientRemotePMethods]; autounfold with msgs; len_simpl; mem_run; len_simpl.

Lemma decode_encode_request o id :
  is_unixFile id -> op_ok o ->
  exists arg y, encode_request o id = Some arg /\ len arg = request_size o /\
    forall x, decode_request (op_method o) (arg ++ x) = Some (id, op_extend y o).
Proof.
  unfold is_unixFile. intros Hid Ho.
  pose proof (uninit_bytes_ok SIZE_UNIXFILE ltac:(done)).
  pose proof (uninit_bytes_ok 8192 ltac:(done)) as Hb.
  pose proof (uninit_bytes_ok 512 ltac:(done)).
  destruct o as [pBuf amt offset|pBuf amt offset| | | |op pArg| | | | |]; cbn [op_ok] in Ho.
  1,2: destruct Ho as (Ha & Hp & Ho); assert (in_s 32 amt) by (unfold in_s; szlia);
    run_message; eexists _, (drop (Z.to_nat amt) (uninit_bytes 8192));
    split; [done|]; split; [szlia|]; intros x; run_message;
    match goal with H : mem_write (uninit_bytes 8192) 0 _ = Some _ |- _ =>
      rewrite mem_write_front in H by szlia; injection H as <- end;
    apply mem_read_Some in Hrd as (_ & _ & _ & ->); do 4 f_equal;
    rewrite length_slice by lia; done.
  1-3,5-9: run_message; eexists _, []; split; [done|]; split; [szlia|]; intros x; by run_message.
  destruct (LenFileControlPArg_ok op pArg Ho) as [Hs _].
  assert (in_s 32 op) by (destruct pArg; tauto). destruct pArg as [p|]; cbn [from_option] in Hs.
  - assert (0 < len p <= 8) by szlia. assert (in_s 32 (len p)) by (unfold in_s; szlia).
    unfold encode_request. rewrite Hs.
    run_message. rewrite (proj2 (Z.ltb_lt 0 (len p))) by lia. run_message.
    eexists _, (drop (length p) (uninit_bytes 512)).
    split; [done|]; split; [szlia|]; intros x. run_message.
    rewrite (proj2 (Z.ltb_lt 0 (len p))) by lia. run_message.
    match goal with H : mem_write (uninit_bytes 512) 0 _ = Some _ |- _ =>
      rewrite mem_write_front in H by szlia; injection H as <- end.
    cbn. rewrite (proj2 (Z.ltb_lt 0 (len p))) by lia. done.
  - assert (in_s 32 0) by (unfold in_s; lia).
    unfold encode_request. rewrite Hs. run_message. change (0 <? 0) with false. run_message.
    eexists _, []. split; [done|]; split; [szlia|]; intros x.
    run_message. change (0 <? 0) with false. by run_message.
Qed.

Lemma decode_encode_reply o id id0 rc r y buf :
  is_unixFile id -> is_unixFile id0 -> in_s 32 rc -> op_ok o -> out_ok o r ->
  len buf = reply_size o ->
  exists arg, encode_reply (op_extend y o) id rc (out_extend y o r) buf = Some arg /\
    len arg = reply_size o /\
    forall x, decode_reply o (arg ++ x) id0 =
      (id' ← setClientRemotePMethods remote_methods id; Some (rc, r, id')).
Proof.
  unfold is_unixFile. intros Hid Hid0 Hrc Ho Hr Hbuf.
  pose proof (uninit_bytes_ok 512 ltac:(done)).
  destruct o, r; try done; cbn [reply_size op_ok out_ok] in *.
  all: try solve [run_message; eexists; split; [done|]; split; [szlia|]; intros x;
    run_message; by destruct (setClientRemotePMethods remote_methods id)].
  - destruct Ho as (Ha & Hp & Ho), Hr as (Hl & Hd).
    pose proof (len_slice pBuf0 0 amt ltac:(lia) ltac:(lia) ltac:(lia)).
    run_message. eexists; split; [done|]; split; [szlia|]; intros x. run_message.
    match goal with H : mem_write pBuf 0 _ = Some _ |- _ =>
      rewrite mem_write_front, length_slice, <- Hd in H by lia; injection H as <- end.
    unfold slice. rewrite drop_0, take_drop.
    by destruct (setClientRemotePMethods remote_methods id).
  - destruct (LenFileControlPArg_ok op pArg Ho) as [_ Hs]. 
    assert (in_s 32 0) by (unfold in_s; lia).
    destruct pArg as [p|], pArg0 as [q|]; try done; cbn [from_option] in Hs.
    + assert (0 < len p <= 8) by (cbn in Ho; szlia). assert (in_s 32 (len p)) by (unfold in_s; szlia).
      assert (len q = len p) by (cbn in Hr; congruence).
      unfold encode_reply, op_extend, out_extend. rewrite Hs. run_message.
      rewrite (proj2 (Z.ltb_lt 0 (len p))) by lia. run_message.
      eexists; split; [done|]; split; [szlia|]; intros x. run_message.
      rewrite (proj2 (Z.ltb_lt 0 (len p))) by lia. run_message.
      by destruct (setClientRemotePMethods remote_methods id).
    + unfold encode_reply, op_extend, out_extend. rewrite Hs. run_message.
      change (0 <? 0) with false. run_message.
      eexists; split; [done|]; split; [szlia|]; intros x. run_message.
      change (0 <? 0) with false. run_message.
      by destruct (setClientRemotePMethods remote_methods id).
Qed.

End messages.
