(* ===== verification/RemoteClient.v ===== *)
(** The client (src/os_remote/client/os_remote_client.c and os_client_wrap.cc).

    [remoteX] packs its arguments, calls the RPC and unpacks the reply.  The
    gRPC channel is a parameter: [rpc] performs one unary call against a network
    [N], and answers [None] when the status is not OK. *)
From S2P Require Import Prelude CMem UnixFile OsRemoteInit ArgConvert ServerWrap.

(** The process-wide stub: the host it is connected to. *)
Record client := { stub_ : option region }.

(** [initGrpcChannel]: host names of at most one character are ignored. *)
Definition initGrpcChannel (hostChar : region) (c : client) : option client :=
  host ← cstring hostChar 0;
  Some (if 1 <? len host then {| stub_ := Some host |} else c).

(** What [remoteFetch] stores in [*pp]: a pointer to an array of its own frame. *)
Inductive fetched := PDangling (contents : region).

Section client.

Context {N : Type} (rpc : Method -> ArgRequest -> N -> option ArgReply * N).

(** Contents of uninitialised arrays of the client, the address of
    [remote_posixIoMethods], and the C strings of its memory. *)
Context (uninit_bytes : Z -> region) (remote_methods : Z) (deref : Z -> option region).

(** ** The stubs of os_client_wrap.cc

    The twenty functions [clientX] differ only in the RPC they call: on an OK
    status [outlen] bytes of the reply are copied to [outarg], otherwise
    [outarg] is left alone.  Without a channel the call crashes. *)
Definition client_call (m : Method) (c : client) (argin : region) (inlen outlen : Z)
    (outarg : region) (n : N) : option (region * N) :=
  inarg ← mem_read argin 0 inlen;
  _ ← stub_ c;
  let '(status, n) := rpc m {| inarg := inarg; outlen := outlen |} n in
  match status with
  | Some reply =>
      out ← memcpy outarg 0 (ServerWrap.outarg reply ++ [Byte.x00]) 0 outlen;
      Some (out, n)
  | None => Some (outarg, n)
  end.

Definition clientInit := client_call MInit.
Definition clientOpen := client_call MOpen.
Definition clientDelete := client_call MDelete.
Definition clientAccess := client_call MAccess.
Definition clientFullPathname := client_call MFullPathname.
Definition clientGetLastError := client_call MGetLastError.
Definition clientWrite := client_call MWrite.
Definition clientRead := client_call MRead.
Definition clientTruncate := client_call MTruncate.
Definition clientSync := client_call MSync.
Definition clientFileSize := client_call MFileSize.
Definition clientFileControl := client_call MFileControl.
Definition clientSectorSize := client_call MSectorSize.
Definition clientDeviceCharacteristics := client_call MDeviceCharacteristics.
Definition clientClose := client_call MClose.
Definition clientLock := client_call MLock.
Definition clientUnlock := client_call MUnlock.
Definition clientCheckReservedLock := client_call MCheckReservedLock.
Definition clientFetch := client_call MFetch.
Definition clientUnfetch := client_call MUnfetch.

(** ** The remote VFS *)

Definition remote_sqlite3_os_init (c : client) (n : N) : option (Z * N) :=
  let argInChar := zeros sizeof_ArgInInit in
  let argOutChar := zeros sizeof_ReturnInit in
  '(argOutChar, n) ← clientInit c argInChar sizeof_ArgInInit sizeof_ReturnInit argOutChar n;
  rc ← sqlite3_os_initConvertCharToReturn argOutChar;
  Some (rc, n).

Definition remoteOpen (c : client) (zPath pFile : region) (flags : Z) (pOutFlags : option Z)
    (n : N) : option (Z * region * option Z * N) :=
  let argInChar := zeros sizeof_ArgInOpen in
  let argOutChar := zeros sizeof_ReturnOpen in
  argInChar ← unixOpenConvertArgInToChar zPath pFile flags pOutFlags argInChar;
  '(argOutChar, n) ← clientOpen c argInChar sizeof_ArgInOpen sizeof_ReturnOpen argOutChar n;
  '(pFile, pOutFlags, rc) ←
    unixOpenConvertCharToReturn remote_methods argOutChar pFile pOutFlags;
  Some (rc, pFile, pOutFlags, n).

Definition remoteDelete (c : client) (zPath : region) (dirSync : Z) (n : N) : option (Z * N) :=
  let argInChar := zeros sizeof_ArgInDelete in
  let argOutChar := zeros sizeof_ReturnDelete in
  argInChar ← unixDeleteConvertArgInToChar zPath dirSync argInChar;
  '(argOutChar, n) ← clientDelete c argInChar sizeof_ArgInDelete sizeof_ReturnDelete argOutChar n;
  rc ← unixDeleteConvertCharToReturn argOutChar;
  Some (rc, n).

Definition remoteAccess (c : client) (zPath : region) (flags pResOut : Z) (n : N)
    : option (Z * Z * N) :=
  let argInChar := zeros sizeof_ArgInAccess in
  let argOutChar := zeros sizeof_ReturnAccess in
  argInChar ← unixAccessConvertArgInToChar zPath flags pResOut argInChar;
  '(argOutChar, n) ← clientAccess c argInChar sizeof_ArgInAccess sizeof_ReturnAccess argOutChar n;
  '(pResOut, rc) ← unixAccessConvertCharToReturn argOutChar;
  Some (rc, pResOut, n).

Definition remoteFullPathname (c : client) (zPath : region) (nOut : Z) (zOut : region) (n : N)
    : option (Z * region * N) :=
  let arg_len := getFullPathname_ARG_LEN nOut in
  let return_len := getFullPathname_RETURN_LEN nOut in
  if (arg_len <? 0) || (return_len <? 0) then None else
  let argInChar := zeros arg_len in
  argInChar ← unixFullPathnameConvertArgInToChar zPath nOut argInChar;
  let outarg := uninit_bytes return_len in
  '(outarg, n) ← clientFullPathname c argInChar arg_len return_len outarg n;
  '(zOut, rc) ← unixFullPathnameConvertCharToReturn outarg nOut zOut;
  Some (rc, zOut, n).

Definition remoteGetLastError (c : client) (NotUsed2 : Z) (NotUsed3 : region) (n : N)
    : option (Z * N) :=
  let argInChar := zeros sizeof_ArgInGetLastError in
  let argOutChar := zeros sizeof_ReturnGetLastError in
  argInChar ← unixGetLastErrorConvertArgInToChar NotUsed2 NotUsed3 argInChar;
  '(argOutChar, n) ←
    clientGetLastError c argInChar sizeof_ArgInGetLastError sizeof_ReturnGetLastError argOutChar n;
  rc_errno ← unixGetLastErrorConvertCharToReturn argOutChar;
  Some (rc_errno, n).

Definition remoteWrite (c : client) (id pBuf : region) (amt offset : Z) (n : N)
    : option (Z * region * N) :=
  let argInChar := zeros sizeof_ArgInWrite in
  let argOutChar := zeros sizeof_ReturnWrite in
  argInChar ← unixWriteConvertArgInToChar id pBuf amt offset argInChar;
  '(argOutChar, n) ← clientWrite c argInChar sizeof_ArgInWrite sizeof_ReturnWrite argOutChar n;
  '(id, rc) ← unixWriteConvertCharToReturn remote_methods argOutChar id;
  Some (rc, id, n).

Definition remoteRead (c : client) (id pBuf : region) (amt offset : Z) (n : N)
    : option (Z * region * region * N) :=
  let argInChar := zeros sizeof_ArgInRead in
  let argOutChar := zeros sizeof_ReturnRead in
  argInChar ← unixReadConvertArgInToChar id pBuf amt offset argInChar;
  '(argOutChar, n) ← clientRead c argInChar sizeof_ArgInRead sizeof_ReturnRead argOutChar n;
  '(id, pBuf, rc) ← unixReadConvertCharToReturn remote_methods argOutChar id pBuf amt;
  Some (rc, id, pBuf, n).

Definition remoteTruncate (c : client) (id : region) (nByte : Z) (n : N)
    : option (Z * region * N) :=
  let argInChar := zeros sizeof_ArgInTruncate in
  let argOutChar := zeros sizeof_ReturnTruncate in
  argInChar ← unixTruncateConvertArgInToChar id nByte argInChar;
  '(argOutChar, n) ←
    clientTruncate c argInChar sizeof_ArgInTruncate sizeof_ReturnTruncate argOutChar n;
  '(id, rc) ← unixTruncateConvertCharToReturn remote_methods argOutChar id;
  Some (rc, id, n).

Definition remoteSync (c : client) (id : region) (flags : Z) (n : N) : option (Z * region * N) :=
  let argInChar := zeros sizeof_ArgInSync in
  let argOutChar := zeros sizeof_ReturnSync in
  argInChar ← unixSyncConvertArgInToChar id flags argInChar;
  '(argOutChar, n) ← clientSync c argInChar sizeof_ArgInSync sizeof_ReturnSync argOutChar n;
  '(id, rc) ← unixSyncConvertCharToReturn remote_methods argOutChar id;
  Some (rc, id, n).

Definition remoteFileSize (c : client) (id : region) (pSize : Z) (n : N)
    : option (Z * region * Z * N) :=
  let argInChar := zeros sizeof_ArgInFileSize in
  let argOutChar := zeros sizeof_ReturnFileSize in
  argInChar ← unixFileSizeConvertArgInToChar id pSize argInChar;
  '(argOutChar, n) ←
    clientFileSize c argInChar sizeof_ArgInFileSize sizeof_ReturnFileSize argOutChar n;
  '(id, pSize, rc) ← unixFileSizeConvertCharToReturn remote_methods argOutChar id;
  Some (rc, id, pSize, n).

Definition remoteFileControl (c : client) (id : region) (op : Z) (pArg : option region) (n : N)
    : option (Z * region * option region * N) :=
  let argInChar := zeros sizeof_ArgInFileControl in
  let argOutChar := zeros sizeof_ReturnFileControl in
  size ← LenFileControlPArg deref op pArg;
  argInChar ← unixFileControlConvertArgInToChar id op pArg argInChar size;
  '(argOutChar, n) ←
    clientFileControl c argInChar sizeof_ArgInFileControl sizeof_ReturnFileControl argOutChar n;
  '(id, pArg, rc) ← unixFileControlConvertCharToReturn remote_methods argOutChar id pArg;
  Some (rc, id, pArg, n).

Definition remoteSectorSize (c : client) (id : region) (n : N) : option (Z * region * N) :=
  let argInChar := zeros sizeof_ArgInSectorSize in
  let argOutChar := zeros sizeof_ReturnSectorSize in
  argInChar ← unixSectorSizeConvertArgInToChar id argInChar;
  '(argOutChar, n) ←
    clientSectorSize c argInChar sizeof_ArgInSectorSize sizeof_ReturnSectorSize argOutChar n;
  '(id, sectorSize) ← unixSectorSizeConvertCharToReturn remote_methods argOutChar id;
  Some (sectorSize, id, n).

Definition remoteDeviceCharacteristics (c : client) (id : region) (n : N)
    : option (Z * region * N) :=
  let argInChar := zeros sizeof_ArgInDeviceCharacteristics in
  let argOutChar := zeros sizeof_ReturnDeviceCharacteristics in
  argInChar ← unixDeviceCharacteristicsConvertArgInToChar id argInChar;
  '(argOutChar, n) ←
    clientDeviceCharacteristics c argInChar sizeof_ArgInDeviceCharacteristics
      sizeof_ReturnDeviceCharacteristics argOutChar n;
  '(id, deviceCharacteristics) ←
    unixDeviceCharacteristicsConvertCharToReturn remote_methods argOutChar id;
  Some (deviceCharacteristics, id, n).

Definition remoteClose (c : client) (id : region) (n : N) : option (Z * region * N) :=
  let argInChar := zeros sizeof_ArgInClose in
  let argOutChar := zeros sizeof_ReturnClose in
  argInChar ← unixCloseConvertArgInToChar id argInChar;
  '(argOutChar, n) ← clientClose c argInChar sizeof_ArgInClose sizeof_ReturnClose argOutChar n;
  '(id, rc) ← unixCloseConvertCharToReturn remote_methods argOutChar id;
  Some (rc, id, n).

Definition remoteLock (c : client) (id : region) (eFileLock : Z) (n : N)
    : option (Z * region * N) :=
  let argInChar := zeros sizeof_ArgInLock in
  let argOutChar := zeros sizeof_ReturnLock in
  argInChar ← unixLockConvertArgInToChar id eFileLock argInChar;
  '(argOutChar, n) ← clientLock c argInChar sizeof_ArgInLock sizeof_ReturnLock argOutChar n;
  '(id, rc) ← unixLockConvertCharToReturn remote_methods argOutChar id;
  Some (rc, id, n).

Definition remoteUnlock (c : client) (id : region) (eFileLock : Z) (n : N)
    : option (Z * region * N) :=
  let argInChar := zeros sizeof_ArgInUnlock in
  let argOutChar := zeros sizeof_ReturnUnlock in
  argInChar ← unixUnlockConvertArgInToChar id eFileLock argInChar;
  '(argOutChar, n) ← clientUnlock c argInChar sizeof_ArgInUnlock sizeof_ReturnUnlock argOutChar n;
  '(id, rc) ← unixUnlockConvertCharToReturn remote_methods argOutChar id;
  Some (rc, id, n).

Definition remoteCheckReservedLock (c : client) (id : region) (pResOut : Z) (n : N)
    : option (Z * region * Z * N) :=
  let argInChar := zeros sizeof_ArgInCheckReservedLock in
  let argOutChar := zeros sizeof_ReturnCheckReservedLock in
  argInChar ← unixCheckReservedLockConvertArgInToChar id pResOut argInChar;
  '(argOutChar, n) ←
    clientCheckReservedLock c argInChar sizeof_ArgInCheckReservedLock
      sizeof_ReturnCheckReservedLock argOutChar n;
  '(id, pResOut, rc) ←
    unixCheckReservedLockConvertCharToReturn remote_methods argOutChar id;
  Some (rc, id, pResOut, n).

(** [char str[nAmt]; ... *pp = str;] *)
Definition remoteFetch (c : client) (id : region) (iOff nAmt : Z) (n : N)
    : option (Z * region * fetched * N) :=
  let argInChar := zeros sizeof_ArgInFetch in
  let argOutChar := zeros sizeof_ReturnFetch in
  argInChar ← unixFetchConvertArgInToChar id iOff nAmt argInChar;
  '(argOutChar, n) ← clientFetch c argInChar sizeof_ArgInFetch sizeof_ReturnFetch argOutChar n;
  if nAmt <=? 0 then None else
  '(id, str, rc) ←
    unixFetchConvertCharToReturn remote_methods argOutChar id (uninit_bytes nAmt) nAmt;
  Some (rc, id, PDangling str, n).

Definition remoteUnfetch (c : client) (id : region) (iOff : Z) (p : bool) (n : N)
    : option (Z * region * N) :=
  let argInChar := zeros sizeof_ArgInUnfetch in
  let argOutChar := zeros sizeof_ReturnUnfetch in
  let p_flag := if p then 1 else 0 in
  argInChar ← unixUnfetchConvertArgInToChar id iOff p_flag argInChar;
  '(argOutChar, n) ←
    clientUnfetch c argInChar sizeof_ArgInUnfetch sizeof_ReturnUnfetch argOutChar n;
  '(id, rc) ← unixUnfetchConvertCharToReturn remote_methods argOutChar id;
  Some (rc, id, n).

End client.
