(* ===== verification/RemoteVfs.v ===== *)
(** The remote VFS end to end: what a [remoteX] call does to the client's file
    object, to the server's table and to the world of the unix VFS.

    While the link is up, a remote operation on an open file is the unix
    operation on the server's version of the file object ([remote_op_linked]);
    the properties follow from that lemma and from its counterpart for calls
    that get no answer. *)
From S2P Require Import Prelude CMem UnixFile OsRemoteInit MethodList ArgConvert UnixVfs.
From S2P Require Import ServerWrap Messages RemoteClient.

(** ** A file object is its bytes *)

Lemma load_ptr_eq f g o v :
  load_ptr f o = Some v -> load_ptr g o = Some v -> mem_read f o sz_ptr = mem_read g o sz_ptr.
Proof.
  unfold load_ptr, load_u. intros (d & Hd & [= Hv])%bind_Some (d' & Hd' & [= Hv'])%bind_Some.
  rewrite Hd, Hd'. f_equal. rewrite <- (split_le_combine d), <- (split_le_combine d').
  apply mem_read_len in Hd, Hd'. unfold len in *.
  replace (length d') with (length d) by lia. by rewrite Hv, Hv'.
Qed.

(** Two objects that agree on consecutive parts are equal. *)
Lemma read_eq_split f g (o n k : Z) :
  0 <= o -> 0 <= n -> 0 <= k -> o + (n + k) <= len f -> len f = len g ->
  mem_read f o n = mem_read g o n -> mem_read f (o + n) k = mem_read g (o + n) k ->
  mem_read f o (n + k) = mem_read g o (n + k).
Proof.
  intros ????? H1 H2. rewrite !mem_read_ok in * by lia. f_equal.
  injection H1 as H1. injection H2 as H2. unfold slice in *.
  rewrite !Z2Nat.inj_add, <- !drop_drop in * by lia.
  set (a := drop (Z.to_nat o) f) in *. set (b := drop (Z.to_nat o) g) in *.
  rewrite <- (take_drop (Z.to_nat n) (take _ a)), <- (take_drop (Z.to_nat n) (take _ b)).
  rewrite !take_take, !Nat.min_l, !skipn_firstn_comm by lia.
  rewrite Nat.add_comm, Nat.add_sub. congruence.
Qed.

Lemma same_handle_eq f g m z :
  is_unixFile f -> same_handle f g -> uf_pMethods f = Some m -> uf_pMethods g = Some m ->
  uf_zPath f = Some z -> uf_zPath g = Some z -> f = g.
Proof.
  unfold is_unixFile. intros Hf [Hl Hs] Hm Hm' Hz Hz'.
  pose proof (load_ptr_eq _ _ _ _ Hm Hm') as Hrm. pose proof (load_ptr_eq _ _ _ _ Hz Hz') as Hrz.
  assert (Hall : mem_read f 0 SIZE_UNIXFILE = mem_read g 0 SIZE_UNIXFILE).
  { apply (read_eq_split f g 0 sz_ptr (SIZE_UNIXFILE - sz_ptr)); try szlia; [exact Hrm|].
    apply (read_eq_split f g sz_ptr (off_zPath - sz_ptr) (SIZE_UNIXFILE - off_zPath)); try szlia;
      [apply Hs; szlia|].
    apply (read_eq_split f g off_zPath sz_ptr (SIZE_UNIXFILE - off_zPath - sz_ptr)); try szlia;
      [exact Hrz|apply Hs; szlia]. }
  rewrite !mem_read_all in Hall by szlia. congruence.
Qed.

(** Case analysis on the first computation of the left-hand side. *)
Ltac head_of t :=
  lazymatch t with
  | ?a ≫= _ => head_of a
  | _ => t
  end.

Ltac destruct_head :=
  lazymatch goal with
  | |- (?a ≫= _) = _ => let h := head_of a in destruct h
  end; repeat match goal with x : (_ * _)%type |- _ => destruct x end;
  cbn [mbind option_bind].

(** Run the first computation of the left-hand side, whose result is known. *)
Ltac bind_known :=
  match goal with
  | H : ?a = Some _ |- (?a ≫= _) = _ => rewrite H; cbn [mbind option_bind]
  end.

(** ** The operations of the client and of the unix VFS, by call *)

Definition local_op {W} `{V : UnixVfs W} (o : fop) (id : region) (w : W)
    : option (Z * fout * region * W) :=
  match o with
  | OpRead pBuf amt offset =>
      '(rc, id, pBuf, w) ← vRead id pBuf amt offset w; Some (rc, OutBuf pBuf, id, w)
  | OpWrite pBuf amt offset =>
      '(rc, id, w) ← vWrite id pBuf amt offset w; Some (rc, NoOut, id, w)
  | OpTruncate n => '(rc, id, w) ← vTruncate id n w; Some (rc, NoOut, id, w)
  | OpSync flags => '(rc, id, w) ← vSync id flags w; Some (rc, NoOut, id, w)
  | OpFileSize n => '(rc, id, n, w) ← vFileSize id n w; Some (rc, OutInt n, id, w)
  | OpFileControl op pArg =>
      '(rc, id, pArg, w) ← vFileControl id op pArg w; Some (rc, OutArg pArg, id, w)
  | OpSectorSize => '(rc, id, w) ← vSectorSize id w; Some (rc, NoOut, id, w)
  | OpDeviceCharacteristics =>
      '(rc, id, w) ← vDeviceCharacteristics id w; Some (rc, NoOut, id, w)
  | OpLock e => '(rc, id, w) ← vLock id e w; Some (rc, NoOut, id, w)
  | OpUnlock e => '(rc, id, w) ← vUnlock id e w; Some (rc, NoOut, id, w)
  | OpCheckReservedLock r =>
      '(rc, id, r, w) ← vCheckReservedLock id r w; Some (rc, OutInt r, id, w)
  end.

Section remote_op.

Context {N : Type} (rpc : Method -> ArgRequest -> N -> option ArgReply * N).
Context (remote_methods : Z) (deref : Z -> option region).

Definition remote_op (c : client) (o : fop) (id : region) (n : N)
    : option (Z * fout * region * N) :=
  match o with
  | OpRead pBuf amt offset =>
      '(rc, id, pBuf, n) ← remoteRead rpc remote_methods c id pBuf amt offset n;
      Some (rc, OutBuf pBuf, id, n)
  | OpWrite pBuf amt offset =>
      '(rc, id, n) ← remoteWrite rpc remote_methods c id pBuf amt offset n;
      Some (rc, NoOut, id, n)
  | OpTruncate nByte =>
      '(rc, id, n) ← remoteTruncate rpc remote_methods c id nByte n; Some (rc, NoOut, id, n)
  | OpSync flags =>
      '(rc, id, n) ← remoteSync rpc remote_methods c id flags n; Some (rc, NoOut, id, n)
  | OpFileSize z =>
      '(rc, id, z, n) ← remoteFileSize rpc remote_methods c id z n; Some (rc, OutInt z, id, n)
  | OpFileControl op pArg =>
      '(rc, id, pArg, n) ← remoteFileControl rpc remote_methods deref c id op pArg n;
      Some (rc, OutArg pArg, id, n)
  | OpSectorSize =>
      '(rc, id, n) ← remoteSectorSize rpc remote_methods c id n; Some (rc, NoOut, id, n)
  | OpDeviceCharacteristics =>
      '(rc, id, n) ← remoteDeviceCharacteristics rpc remote_methods c id n;
      Some (rc, NoOut, id, n)
  | OpLock e =>
      '(rc, id, n) ← remoteLock rpc remote_methods c id e n; Some (rc, NoOut, id, n)
  | OpUnlock e =>
      '(rc, id, n) ← remoteUnlock rpc remote_methods c id e n; Some (rc, NoOut, id, n)
  | OpCheckReservedLock r =>
      '(rc, id, r, n) ← remoteCheckReservedLock rpc remote_methods c id r n;
      Some (rc, OutInt r, id, n)
  end.

(** Every remote operation packs, calls and unpacks. *)
Lemma remote_op_eq c o id n :
  remote_op c o id n =
    (arg ← encode_request deref o id;
     '(out, n) ← client_call rpc (op_method o) c arg (request_size o) (reply_size o)
                   (zeros (reply_size o)) n;
     '(rc, r, id) ← decode_reply remote_methods o out id;
     Some (rc, r, id, n)).
Proof.
  destruct o; unfold remote_op, remoteRead, remoteWrite, remoteTruncate, remoteSync,
    remoteFileSize, remoteFileControl, remoteSectorSize, remoteDeviceCharacteristics,
    remoteLock, remoteUnlock, remoteCheckReservedLock, encode_request, decode_reply,
    clientRead, clientWrite, clientTruncate, clientSync, clientFileSize, clientFileControl,
    clientSectorSize, clientDeviceCharacteristics, clientLock, clientUnlock,
    clientCheckReservedLock;
    cbn [request_size reply_size op_method].
  all: repeat destruct_head; reflexivity.
Qed.

End remote_op.

(** ** What the unix VFS promises, by call *)

Section local_op.

Context {W : Type} `{V : UnixVfs W} {VOk : UnixVfsOk W}.

Lemma slice_drop (m : region) n : 0 <= n -> slice m 0 n ++ drop (Z.to_nat n) m = m.
Proof. intros. unfold slice. by rewrite drop_0, take_drop. Qed.

Lemma local_op_extend o y id w :
  is_unixFile id -> op_ok o ->
  local_op (op_extend y o) id w =
    ('(rc, r, id', w') ← local_op o id w; Some (rc, out_extend y o r, id', w')).
Proof.
  intros Hid Ho. destruct o as [pBuf amt off|pBuf amt off| | | |op [p|]| | | | |]; cbn in Ho;
    cbn [local_op op_extend]; try (by repeat destruct_head).
  - destruct Ho as (? & ? & ?).
    pose proof (len_slice pBuf 0 amt ltac:(lia) ltac:(lia) ltac:(lia)) as Hl.
    rewrite <- (slice_drop pBuf amt) at 2 by lia.
    rewrite !vRead_local by done. destruct (vRead id (slice pBuf 0 amt) amt off w) eqn:E;
      cbn; [|done]. repeat match goal with x : (_ * _)%type |- _ => destruct x end.
    apply vRead_ok in E as (_ & E & _); [|done]. cbn. unfold slice in *.
    rewrite drop_0, take_app_length'; [done|]. unfold len in *. rewrite drop_0 in *. lia.
  - destruct Ho as (? & ? & ?).
    pose proof (len_slice pBuf 0 amt ltac:(lia) ltac:(lia) ltac:(lia)) as Hl.
    rewrite <- (slice_drop pBuf amt) at 2 by lia. rewrite !vWrite_local by done.
    by repeat destruct_head.
  - rewrite vFileControl_local by tauto.
    destruct (vFileControl id op (Some p) w) as [[[[? ?] [q|]] ?]|]; done.
Qed.

Lemma local_op_ok o id w rc r id' w' :
  is_unixFile id -> op_ok o -> local_op o id w = Some (rc, r, id', w') ->
  frame id id' /\ in_s 32 rc /\ out_ok o r.
Proof.
  intros Hid Ho H. destruct o as [pBuf amt off| | | | | | | | | | ]; cbn in Ho.
  { cbn [local_op out_ok] in H |- *. destruct Ho as (Ha & Hp & Ho).
    pose proof (slice_drop pBuf amt ltac:(lia)) as Hs.
    pose proof (len_slice pBuf 0 amt ltac:(lia) ltac:(lia) ltac:(lia)) as Hl.
    rewrite <- Hs, vRead_local in H by done. inv_opt.
    match goal with E : vRead _ _ _ _ _ = _ |- _ => apply vRead_ok in E as (? & E & ?); [|done] end.
    split_and!; [done|done| |].
    + apply (f_equal len) in Hs. rewrite len_app in *. lia.
    + rewrite drop_app_length' by (unfold len in *; lia). done. }
  all: cbn in H |- *; inv_opt;
    match goal with
    | E : _ = Some _ |- _ =>
        first [ apply vWrite_ok in E | apply vTruncate_ok in E | apply vSync_ok in E
              | apply vFileSize_ok in E | apply vFileControl_ok in E | apply vSectorSize_ok in E
              | apply vDeviceCharacteristics_ok in E | apply vLock_ok in E | apply vUnlock_ok in E
              | apply vCheckReservedLock_ok in E ]; try done; intuition
    end.
Qed.
End local_op.

(** ** The server *)

Section handlers.

Context {W : Type} `{V : UnixVfs W} {VOk : UnixVfsOk W}.
Context (uninit : Z -> MethodAndFD) (uninit_bytes : Z -> region).
Context (posixIoMethods path_addr : Z).

Local Abbreviation handler := (handler uninit uninit_bytes posixIoMethods path_addr).
Local Abbreviation restore_fields := (restore_fields uninit posixIoMethods).
Local Abbreviation record_fields := (record_fields uninit).

(** Every handler of a file method unpacks, restores, runs, records and packs. *)
Lemma handler_run o m inarg outlen s id o' id1 t1 rc r id2 w' t2 out :
  op_method o = m -> 0 <= outlen < 2 ^ 31 -> op_ok o ->
  decode_request uninit_bytes m (inarg ++ [Byte.x00]) = Some (id, op_extend o' o) ->
  restore_fields (table s) id = Some (id1, t1) -> is_unixFile id1 ->
  local_op o id1 (world s) = Some (rc, r, id2, w') ->
  record_fields t1 id2 = Some t2 ->
  encode_reply (vDeref w') uninit_bytes (op_extend o' o) id2 rc (out_extend o' o r)
    (uninit_bytes outlen) = Some out ->
  len out = outlen ->
  handler m {| inarg := inarg; outlen := outlen |} s =
    Some ({| outarg := out |}, mkServer t2 w').
Proof.
  intros <- Ho Hop Hd Hr Hid1 Hl Ht Ho' Hlen.
  pose proof (local_op_ok _ _ _ _ _ _ _ Hid1 Hop Hl) as (_ & _ & Hok).
  pose proof (local_op_extend o o' id1 (world s) Hid1 Hop) as Hl'. rewrite Hl in Hl'. cbn in Hl'.
  assert (Hs : forall wrap, wrap (inarg ++ [Byte.x00]) (uninit_bytes outlen) s =
      Some (out, mkServer t2 w') ->
    serve uninit_bytes wrap {| inarg := inarg; outlen := outlen |} s =
      Some ({| outarg := out |}, mkServer t2 w')).
  { intros wrap Hw. unfold serve. cbn. rewrite wrap_s_id by (unfold in_s; lia).
    rewrite (proj2 (Z.ltb_ge _ _)) by lia. rewrite Hw. cbn. by rewrite mem_read_all. }
    clear Hl. destruct o as [| | | | |op pArg| | | | |]; apply Hs; clear Hs;
    cbn [decode_request op_method local_op op_extend] in *.
  6: { apply bind_Some in Hd as ([[[? ?] buf] size] & Hd & Hd').
    unfold WrapFileControl. rewrite Hd. cbn [mbind option_bind].
    destruct pArg as [p|], r as [| | |[q|]]; try done; injection Hd' as -> -> Hd';
      rewrite Hr; cbn [mbind option_bind]; rewrite Hd';
      cbn [encode_reply out_extend default] in Ho';
      apply bind_Some in Ho' as (z & Hz & Ho');
      apply bind_Some in Hl' as ([[[? ?] ?] ?] & Hl' & [= -> -> -> ->]);
      rewrite Hl'; cbn [mbind option_bind default]; rewrite Ht; cbn [mbind option_bind].
    - rewrite Hz. cbn [mbind option_bind]. unfold Datatypes.id in *. by rewrite Ho'.
    - unfold unixFileControlConvertCharToArgIn in Hd. repeat case_bool; try done.
      inv_opt. rewrite Heqb in *. inv_opt. rewrite Hz. cbn [mbind option_bind]. by rewrite Ho'. }
  all: inv_opt; unfold WrapRead, WrapWrite, WrapTruncate, WrapSync, WrapFileSize,
    WrapSectorSize, WrapDeviceCharacteristics, WrapLock, WrapUnlock, WrapCheckReservedLock.
  all: repeat bind_known; try (match goal with x : fout |- _ => destruct x end; simplify_eq);
    cbn in Ho'; first [done | by rewrite Ho'].
Qed.

End handlers.

(** ** Open files

    [entry_ok t h a m p]: the server's table holds an entry for descriptor [h]
    with node address [a], methods [m] and path [p]. *)
Record entry_ok (t : mlist) (h a m : Z) (p : region) : Prop := {
  eo_repr : exists ns, repr t ns /\ abs ns !! h = Some (a, m, p);
  eo_methods : in_u 64 m /\ m <> 0;
  eo_addr : in_u 64 (a + off_path);
  eo_path : exists k, strlen p 0 = Some k }.

(** [linked t id sid]: [sid] is the server's version of the client's object
    [id]: the same bytes, with the server's methods and path from the table. *)
Definition linked (t : mlist) (id sid : region) : Prop :=
  is_unixFile id /\ is_unixFile sid /\ same_handle id sid /\
  exists h a m p, entry_ok t h a m p /\ uf_h sid = Some h /\ uf_pMethods sid = Some m /\
    uf_zPath sid = Some (a + off_path).

(** Two states of the table with the same entries. *)
Definition table_equiv (t t' : mlist) : Prop :=
  exists ns ns', repr t ns /\ repr t' ns' /\ abs ns = abs ns'.

Lemma repr_unique t ns ns' : repr t ns -> repr t ns' -> ns = ns'.
Proof.
  intros [Hc _ _ _ _ _] [Hc' _ _ _ _ _]. unfold repr_nodes in *. case_bool; [congruence|].
  destruct Hc as (hd & Hh & Hc & _), Hc' as (hd' & Hh' & Hc' & _). simplify_eq.
  revert Hc Hc'. generalize (mf_next hd). clear.
  revert ns'. induction ns as [|[x n] ns IH]; intros [|[y m] ns'] a; cbn; [done|naive_solver..|].
  intros (-> & _ & Hx & Hc) (-> & _ & Hy & Hc'). simplify_eq. f_equal. eauto.
Qed.

Lemma entry_ok_equiv t t' h a m p : table_equiv t t' -> entry_ok t h a m p -> entry_ok t' h a m p.
Proof.
  intros (ns & ns' & Hr & Hr' & He) [(ns0 & Hr0 & Hl) ? ? ?].
  rewrite (repr_unique _ _ _ Hr0 Hr) in Hl. split; [|done..]. exists ns'. by rewrite <- He.
Qed.

Lemma linked_equiv t t' id sid : table_equiv t t' -> linked t id sid -> linked t' id sid.
Proof.
  intros Ht (? & ? & ? & h & a & m & p & He & ?). split_and!; try done.
  exists h, a, m, p. split; [|done]. by eapply entry_ok_equiv.
Qed.

Section sessions.

Context (uninit : Z -> MethodAndFD) (posixIoMethods remote_methods : Z).
Hypothesis uninit_ok : forall a, node_ok (uninit a).

Local Abbreviation restore_fields := (restore_fields uninit posixIoMethods).
Local Abbreviation record_fields := (record_fields uninit).

(** A request from a linked object gives the server its own object back. *)
Lemma restore_linked t id sid : linked t id sid -> restore_fields t id = Some (sid, t).
Proof.
  intros (Hf & Hf' & Hs & h & a & m & p & [(ns & Hr & Hl) [Hm Hm0] Ha Hp] & Hh & Hpm & Hz).
  unfold ServerWrap.restore_fields. rewrite (same_handle_h _ _ Hs Hf), Hh. cbn.
  erewrite getServerUnixPMethods_present by eauto.
  destruct (set_pMethods_ok id m Hf) as (f1 & Hf1 & Hf1ok & Hs1 & _ & Hm1).
  rewrite Hf1. cbn. erewrite getServicePath_present by eauto.
  destruct (set_zPath_ok f1 (a + off_path) Hf1ok) as (f2 & Hf2 & Hf2ok & Hs2 & Hm2 & Hz2).
  rewrite Hf2. cbn. do 2 f_equal.
  apply (same_handle_eq f2 sid m (a + off_path)); [done| |rewrite Hm2; auto|done|auto|done].
  etrans; [symmetry; exact Hs2|]. etrans; [symmetry; exact Hs1|done].
Qed.

(** Recording an object whose methods and path are the table's own. *)
Lemma record_linked t sid h a m p :
  entry_ok t h a m p -> uf_h sid = Some h -> uf_pMethods sid = Some m ->
  uf_zPath sid = Some (a + off_path) ->
  exists t', record_fields t sid = Some t' /\ table_equiv t t'.
Proof.
  intros [(ns & Hr & Hl) Hm Ha [k Hk]] Hh Hpm Hz. unfold ServerWrap.record_fields.
  rewrite Hh. cbn. unfold setServerUnixPMethods. rewrite Hpm. cbn.
  destruct (AddNode_present uninit uninit_ok t ns h a m p m Hr Hl)
    as (t1 & ns1 & -> & Hr1 & Hb1 & Ha1).
  cbn. rewrite Hz. cbn. rewrite (insert_id _ _ _ Hl) in Ha1.
  rewrite (deref_path_node uninit uninit_ok t1 ns1 h a m p) by (rewrite ?Ha1; done). cbn.
  destruct (abs_lookup_node uninit uninit_ok _ _ _ _ _ _ Hr Hl) as (_ & _ & _ & _ & _ & _ & Hpl).
  pose proof (strlen_bound _ _ _ Hk).
  destruct (setServicePath_present uninit uninit_ok t1 ns1 h a m p p k) as
    (t2 & ns2 & p' & -> & Hr2 & Hb2 & Hc & _ & _ & Ha2); [done|by rewrite Ha1|done|lia|].
  rewrite (strcpy_self _ _ Hk) in Hc. injection Hc as <-.
  rewrite insert_id in Ha2 by (by rewrite Ha1).
  exists t2. split; [done|]. exists ns, ns2. split_and!; try done. congruence.
Qed.

(** The object a reply leaves at the client is linked to the server's. *)
Lemma linked_reply t sid h a m p :
  is_unixFile sid -> entry_ok t h a m p -> uf_h sid = Some h -> uf_pMethods sid = Some m ->
  uf_zPath sid = Some (a + off_path) ->
  exists id, setClientRemotePMethods remote_methods sid = Some id /\ linked t id sid /\
    (in_u 64 remote_methods -> uf_pMethods id = Some remote_methods).
Proof.
  intros Hf He Hh Hm Hz. unfold setClientRemotePMethods. rewrite Hm. cbn.
  rewrite (proj2 (Z.eqb_neq m 0)) by apply He.
  destruct (set_pMethods_ok sid remote_methods Hf) as (id & Hid & Hidok & Hs & _ & Hpm).
  exists id. split_and!; [done| |done].
  split_and!; [done|done|by symmetry|]. by exists h, a, m, p.
Qed.

End sessions.
