(* ===== verification/RemoteRefinement.v ===== *)
(** The remote VFS refines the unix VFS while the link is up, and what it does
    when a call gets no answer.

    The transport is a parameter: [up] are the network states in which every
    call the server can serve is delivered and answered. *)
From S2P Require Import Prelude CMem UnixFile OsRemoteInit MethodList ArgConvert UnixVfs.
From S2P Require Import ServerWrap Messages RemoteClient RemoteVfs.

(** ** Programs

    A program calls operations on open files, named by position. *)

Section programs.

Context {S : Type} (step : fop -> region -> S -> option (Z * fout * region * S)).

Fixpoint run (prog : list (nat * fop)) (files : list region) (s : S)
    : option (list (Z * fout) * list region * S) :=
  match prog with
  | [] => Some ([], files, s)
  | (i, o) :: prog =>
      id ← files !! i;
      '(rc, r, id, s) ← step o id s;
      '(res, files, s) ← run prog (<[i := id]> files) s;
      Some ((rc, r) :: res, files, s)
  end.

End programs.

Section transparency.

Context {W : Type} `{V : UnixVfs W} {VOk : UnixVfsOk W}.
Context (uninit : Z -> MethodAndFD) (uninit_bytes : Z -> region).
Context (posixIoMethods path_addr remote_methods : Z) (deref : Z -> option region).
Context {N : Type} (rpc : Method -> ArgRequest -> N -> option ArgReply * N).
Context (srv : N -> server W) (up : N -> Prop).

Hypothesis uninit_ok : forall a, node_ok (uninit a).
Hypothesis uninit_bytes_ok : forall n, 0 <= n -> len (uninit_bytes n) = n.
Hypothesis remote_addr : in_u 64 remote_methods.

Local Abbreviation handler := (handler uninit uninit_bytes posixIoMethods path_addr).
Local Abbreviation remote_op := (remote_op rpc remote_methods deref).

(** The link delivers a call and its answer. *)
Hypothesis link_up : forall m req n reply s',
  up n -> handler m req (srv n) = Some (reply, s') ->
  exists n', rpc m req n = (Some reply, n') /\ srv n' = s' /\ up n'.

Lemma reply_size_range o : 0 < reply_size o < 2 ^ 31.
Proof. by destruct o. Qed.

Lemma client_call_answered m c arg inlen outlen reply n n' :
  stub_ c <> None -> len arg = inlen -> 0 <= outlen -> len (outarg reply) = outlen ->
  rpc m {| inarg := arg; outlen := outlen |} n = (Some reply, n') ->
  client_call rpc m c arg inlen outlen (zeros outlen) n = Some (outarg reply, n').
Proof.
  intros Hc Hl Ho Hr Hrpc. unfold client_call. rewrite mem_read_all by done. cbn.
  destruct (stub_ c) as [h|]; [|done]. cbn. rewrite Hrpc. cbn. unfold memcpy.
  rewrite mem_read_app, mem_read_all by lia. cbn.
  by rewrite mem_write_all by (rewrite len_zeros; lia).
Qed.

(** One remote operation on an open file. *)
Lemma remote_op_linked c o id sid n rc r sid' w' :
  stub_ c <> None -> up n -> op_ok o -> linked (table (srv n)) id sid ->
  local_op o sid (world (srv n)) = Some (rc, r, sid', w') ->
  exists id' n', remote_op c o id n = Some (rc, r, id', n') /\ up n' /\ world (srv n') = w' /\
    table_equiv (table (srv n)) (table (srv n')) /\ linked (table (srv n')) id' sid' /\
    uf_pMethods id' = Some remote_methods.
Proof.
  intros Hc Hup Ho Hlk Hl. pose proof Hlk as (Hid & Hsid & _ & h & a & m & p & He & Hh & Hm & Hz).
  destruct (local_op_ok _ _ _ _ _ _ _ Hsid Ho Hl) as ((Hf & Hh' & Hm' & Hz') & Hrc & Hr).
  rewrite <- Hh', <- Hm', <- Hz' in *.
  destruct (decode_encode_request deref uninit_bytes uninit_bytes_ok o id Hid Ho)
    as (arg & y & Harg & Hla & Hdec).
  destruct (record_linked uninit uninit_ok _ _ _ _ _ _ He Hh Hm Hz) as (t' & Ht' & Heq).
  pose proof (reply_size_range o) as Hsz.
  destruct (decode_encode_reply remote_methods (vDeref w') uninit_bytes uninit_bytes_ok
    o sid' id rc r y (uninit_bytes (reply_size o))) as (out & Hout & Hlo & Hback);
    try done; [apply uninit_bytes_ok; lia|].
  pose proof (handler_run uninit uninit_bytes posixIoMethods path_addr o _ arg (reply_size o)
    (srv n) id y sid _ rc r sid' w' t' out eq_refl ltac:(lia) Ho (Hdec _)
    (restore_linked _ _ uninit_ok _ _ _ Hlk) Hsid Hl Ht' Hout Hlo) as Hh2.
  destruct (link_up _ _ _ _ _ Hup Hh2) as (n' & Hrpc & Hsrv & Hup').
  destruct (linked_reply remote_methods t' sid' h a m p) as (id' & Hset & Hlk' & Hpm);
    try done; [by eapply entry_ok_equiv|].
  exists id', n'. rewrite remote_op_eq, Harg. cbn [mbind option_bind].
  rewrite (client_call_answered _ _ _ _ _ {| outarg := out |} _ _ Hc Hla
    (Z.lt_le_incl _ _ (proj1 Hsz)) Hlo Hrpc).
  cbn [mbind option_bind outarg]. rewrite <- (app_nil_r out), Hback, Hset. cbn.
  rewrite Hsrv. cbn. split_and!; auto.
Qed.

(** C1: While the link is up, a program of reads, writes, truncates, syncs, size
    queries, integer file-controls and lock operations on any number of open
    files, run through the remote VFS, returns the results and output buffers,
    and leaves the server's files and locks, exactly as the same program run by
    the unix VFS on the server; every file object stays linked. *)
Theorem remote_run_refines c prog ids sids n res sids' w' :
  stub_ c <> None -> up n -> Forall (op_ok ∘ snd) prog ->
  Forall2 (linked (table (srv n))) ids sids ->
  run local_op prog sids (world (srv n)) = Some (res, sids', w') ->
  exists ids' n', run (remote_op c) prog ids n = Some (res, ids', n') /\ up n' /\
    world (srv n') = w' /\ Forall2 (linked (table (srv n'))) ids' sids'.
Proof.
  intros Hc. revert ids sids n res. induction prog as [|[i o] prog IH];
    intros ids sids n res Hup Hok Hlk Hrun; cbn [run] in *.
  { injection Hrun as <- <- <-. by exists ids, n. }
  apply Forall_cons in Hok as [Ho Hok]. cbn in Ho.
  apply bind_Some in Hrun as (sid & Hsid & Hrun).
  apply bind_Some in Hrun as ([[[rc r] sid1] w1] & Hl & Hrun).
  apply bind_Some in Hrun as ([[res1 sids1] w2] & Hrun & [= <- <- <-]).
  destruct (Forall2_lookup_r _ _ _ _ _ Hlk Hsid) as (id & Hid & Hlki).
  destruct (remote_op_linked c o id sid n rc r sid1 w1)
    as (id1 & n1 & Hrem & Hup1 & <- & Heq & Hlk1 & _); [done..|].
  destruct (IH (<[i := id1]> ids) (<[i := sid1]> sids) n1 res1) as (ids' & n' & Hr & ?);
    [done|done| |done|].
  { apply Forall2_insert; [|done]. eapply Forall2_impl; [done|]. intros ??. by apply linked_equiv. }
  exists ids', n'. rewrite Hid. cbn. rewrite Hrem. cbn. rewrite Hr. done.
Qed.

End transparency.

(** ** Calls without an answer *)

Section unanswered.

Context {N : Type} (rpc : Method -> ArgRequest -> N -> option ArgReply * N).
Context (remote_methods : Z) (deref : Z -> option region).

Local Abbreviation remote_op := (remote_op rpc remote_methods deref).

(** The output of a call read from a reply of zeros. *)
Definition zero_out (o : fop) : fout :=
  match o with
  | OpRead pBuf amt _ => OutBuf (zeros amt ++ drop (Z.to_nat amt) pBuf)
  | OpFileSize _ | OpCheckReservedLock _ => OutInt 0
  | OpFileControl _ pArg => OutArg pArg
  | _ => NoOut
  end.

Lemma mem_read_zeros k o n :
  0 <= o -> 0 <= n -> o + n <= k -> mem_read (zeros k) o n = Some (zeros n).
Proof.
  intros. rewrite mem_read_ok by (rewrite ?len_zeros; lia). f_equal.
  unfold slice, zeros. rewrite drop_replicate, take_replicate. f_equal. lia.
Qed.

Lemma load_s_zeros k o : 0 <= o -> o + sz_int <= k -> load_s (zeros k) o sz_int = Some 0.
Proof. intros. unfold load_s. rewrite mem_read_zeros by szlia. done. Qed.

Lemma load_s_zeros8 k o : 0 <= o -> o + sz_i64 <= k -> load_s (zeros k) o sz_i64 = Some 0.
Proof. intros. unfold load_s. rewrite mem_read_zeros by szlia. done. Qed.

Lemma decode_reply_zeros o id :
  is_unixFile id -> op_ok o ->
  decode_reply remote_methods o (zeros (reply_size o)) id =
    Some (0, zero_out o, zeros SIZE_UNIXFILE).
Proof.
  unfold is_unixFile. intros Hid Ho.
  assert (Hz : setClientRemotePMethods remote_methods (zeros SIZE_UNIXFILE) =
    Some (zeros SIZE_UNIXFILE)) by reflexivity.
  destruct o; cbn [decode_reply reply_size zero_out op_ok] in *; autounfold with msgs; mem_unfold.
  all: rewrite ?load_s_zeros, ?load_s_zeros8 by szlia; rewrite ?mem_read_zeros by szlia;
    cbn [mbind option_bind].
  all: repeat first [rewrite load_s_zeros by szlia | rewrite load_s_zeros8 by szlia
      | rewrite mem_read_zeros by szlia]; cbn [mbind option_bind].
  all: try change (0 <? 0) with false; rewrite (mem_write_all id) by (len_simpl; szlia);
    cbn [mbind option_bind]; try (rewrite Hz; reflexivity).
  - rewrite mem_write_front by (len_simpl; szlia). cbn [mbind option_bind]. rewrite Hz. cbn.
    do 5 f_equal. unfold zeros. by rewrite length_replicate.
Qed.

(** C2: A call that gets no answer reports success.  For a read or write of at
    most 8192 bytes, truncate, sync, size query, file-control with an integer
    argument or none, sector size, device characteristics, lock, unlock and test
    of the reserved lock (the operations [fop]): when the RPC fails, the client
    returns 0, that is SQLITE_OK where the operation returns a code.  A read
    yields [amt] bytes of zeros, the size of the file and the test of the
    reserved lock yield 0, and the argument of a file-control is left as it was;
    and the file object is overwritten with zeros, methods and descriptor
    included.  ([remoteClose], [remoteFetch] and [remoteUnfetch], which do not copy
    the whole object back, are not among these operations.) *)
Theorem unanswered_reports_ok c o id n :
  stub_ c <> None -> is_unixFile id -> op_ok o ->
  (forall req, (rpc (op_method o) req n).1 = None) ->
  exists n', remote_op c o id n = Some (SQLITE_OK, zero_out o, zeros SIZE_UNIXFILE, n').
Proof.
  intros Hc Hid Ho Hdown.
  destruct (decode_encode_request deref zeros len_zeros o id Hid Ho)
    as (arg & y & Harg & Hla & _).
  rewrite remote_op_eq, Harg. cbn [mbind option_bind]. unfold client_call.
  rewrite mem_read_all by done. cbn. destruct (stub_ c); [|done]. cbn.
  specialize (Hdown {| inarg := arg; outlen := reply_size o |}).
  destruct (rpc _ _ n) as [[reply|] n']; [done|]. exists n'. cbn.
  by rewrite decode_reply_zeros.
Qed.

End unanswered.
