(* ===== verification/RemoteOpen.v ===== *)
(** Opening a file through the remote VFS, and the operations on path names.

    [remoteOpen] is what creates the link between a client's file object and
    the server's table that the operations of [RemoteRefinement] rely on. *)
From S2P Require Import Prelude CMem UnixFile OsRemoteInit MethodList TableSpec ArgConvert UnixVfs.
From S2P Require Import ServerWrap Messages RemoteClient RemoteVfs RemoteRefinement.

(** ** C strings in messages *)

(** Copying a string to the front of a buffer that can hold it. *)
Lemma strcpy_ok dst src n :
  strlen src 0 = Some n -> n < len dst ->
  exists dst', strcpy dst 0 src 0 = Some dst' /\ len dst' = len dst /\ strlen dst' 0 = Some n /\
    cstring dst' 0 = cstring src 0 /\
    forall o k, n + 1 <= o -> mem_read dst' o k = mem_read dst o k.
Proof.
  intros Hs Hn. destruct (strlen_read _ _ _ Hs) as (d & Hd & Hdl & Hdn).
  pose proof (strlen_bound _ _ _ Hs).
  destruct (mem_write_fits dst 0 d) as (dst' & Hw & Hl); [lia..|].
  exists dst'. unfold strcpy, memcpy. rewrite Hs. cbn. rewrite Hd. cbn. split; [done|].
  split; [done|]. split; [by eapply strlen_write|]. split.
  - unfold cstring. erewrite strlen_write by done. rewrite Hs. cbn.
    apply mem_read_Some in Hd as (? & ? & ? & ->). apply mem_write_Some in Hw as (? & ? & ->).
    rewrite !mem_read_ok by (rewrite ?len_splice; lia). f_equal.
    unfold splice, slice, len in *. rewrite take_0, !drop_0, app_nil_l, length_take.
    rewrite take_app_le by (rewrite length_take; lia). rewrite take_take. f_equal. lia.
  - intros o k Ho. apply (read_write_other _ _ _ _ _ _ Hw). lia.
Qed.

Lemma strlen_app m x n : strlen m 0 = Some n -> strlen (m ++ x) 0 = Some n.
Proof.
  intros Hs. pose proof (strlen_bound _ _ _ Hs). pose proof (len_nonneg x).
  unfold strlen in *. change (0 <=? 0) with true in *. change (Z.to_nat 0) with 0%nat in *.
  cbn [andb] in *. rewrite drop_0 in *.
  rewrite (proj2 (Z.leb_le 0 _)) in Hs by lia.
  rewrite (proj2 (Z.leb_le 0 _)) by (rewrite ?len_app; lia). by apply strlen_list_app.
Qed.

Lemma cstring_app m x n :
  strlen m 0 = Some n -> cstring (m ++ x) 0 = cstring m 0.
Proof.
  intros Hs. pose proof (strlen_bound _ _ _ Hs). unfold cstring.
  rewrite Hs, (strlen_app _ _ _ Hs). cbn. by rewrite mem_read_app by lia.
Qed.

(** A path too long for a message buffer. *)
Lemma strcpy_overflow dst src n :
  strlen src 0 = Some n -> len dst <= n -> strcpy dst 0 src 0 = None.
Proof.
  intros Hs Hn. destruct (strlen_read _ _ _ Hs) as (d & Hd & _ & Hdn).
  unfold strcpy, memcpy. rewrite Hs. cbn. rewrite Hd. cbn. unfold mem_write.
  case_bool; [|done]. bool_to_prop. lia.
Qed.

(** ** The table around an open *)

Section table.

Context (uninit : Z -> MethodAndFD) (posixIoMethods : Z).
Hypothesis uninit_ok : forall a, node_ok (uninit a).

Local Abbreviation restore_fields := (restore_fields uninit posixIoMethods).

Lemma init_brk s : brk (init_if_null uninit s) <= brk s + sizeof_MethodAndFD.
Proof.
  unfold init_if_null, InitList, malloc_node, sizeof_MethodAndFD. case_bool; cbn; lia.
Qed.

Lemma AddNode_brk s ns fd m s' :
  repr s ns -> AddNode uninit s fd m = Some s' -> brk s' <= brk s + 2 * sizeof_MethodAndFD.
Proof.
  intros Hr. pose proof (init_brk s) as Hb. destruct (init_if_null_repr _ uninit_ok s ns Hr) as [Hr' Hl].
  unfold AddNode. rewrite (FindNode_repr _ uninit_ok _ ns) by done. cbn.
  rewrite (init_idem _ (init_if_null uninit s)) by done. unfold sizeof_MethodAndFD in *.
  destruct (find_node _ _ _) as [node prev]. cbn. case_bool; intros H; inv_opt; lia.
Qed.

(** Restoring the fields of any object at all succeeds. *)
Lemma restore_total t ns id :
  repr t ns -> is_unixFile id ->
  exists id1 t1, restore_fields t id = Some (id1, t1) /\ is_unixFile id1 /\ repr t1 ns /\
    brk t1 <= brk t + sizeof_MethodAndFD.
Proof.
  intros Hr Hid. unfold ServerWrap.restore_fields.
  destruct (uf_h_ok id Hid) as (h & -> & _). cbn.
  unfold getServerUnixPMethods, getServicePath.
  rewrite (FindNode_repr _ uninit_ok _ ns) by done. cbn.
  destruct (init_if_null_repr _ uninit_ok t ns Hr) as [Hr' Hl]. pose proof (init_brk t) as Hb.
  destruct (find_node_repr uninit uninit_ok _ _ h Hr') as
    [(ns1&x&n&ns2&He&Hn&Hx0&Hx&_&_&Hf)|(_&_&Hf)]; rewrite !Hf.
  - rewrite (proj2 (Z.eqb_neq x 0)) by done. rewrite Hx. cbn.
    destruct (set_pMethods_ok id (if mf_method n =? 0 then posixIoMethods else mf_method n) Hid)
      as (f1 & -> & Hf1 & _). cbn. rewrite (FindNode_repr _ uninit_ok _ ns) by done. cbn.
    rewrite Hf, (proj2 (Z.eqb_neq x 0)) by done. cbn.
    destruct (set_zPath_ok f1 (x + off_path) Hf1) as (f2 & -> & Hf2 & _). cbn.
    rewrite (init_idem _ (init_if_null uninit t)) by done. eauto 6.
  - cbn. destruct (set_pMethods_ok id posixIoMethods Hid) as (f1 & -> & Hf1 & _). cbn.
    rewrite (FindNode_repr _ uninit_ok _ ns) by done. cbn. rewrite Hf. cbn.
    rewrite (init_idem _ (init_if_null uninit t)) by done. eauto 6.
Qed.

End table.

Section opening.

Context {W : Type} `{V : UnixVfs W} {VOk : UnixVfsOk W}.
Context (uninit : Z -> MethodAndFD) (uninit_bytes : Z -> region).
Context (posixIoMethods path_addr remote_methods : Z).
Context {N : Type} (rpc : Method -> ArgRequest -> N -> option ArgReply * N).
Context (srv : N -> server W) (up : N -> Prop).

Hypothesis uninit_ok : forall a, node_ok (uninit a).
Hypothesis uninit_bytes_ok : forall n, 0 <= n -> len (uninit_bytes n) = n.

Local Abbreviation handler := (handler uninit uninit_bytes posixIoMethods path_addr).

Hypothesis link_up : forall m req n reply s',
  up n -> handler m req (srv n) = Some (reply, s') ->
  exists n', rpc m req n = (Some reply, n') /\ srv n' = s' /\ up n'.

(** The values an open's flags may take on the wire: -1 stands for no pointer. *)
Definition flags_ok (inF : option Z) (out : option Z) : Prop :=
  match inF, out with
  | None, None => True
  | Some f, Some z => in_s 32 f /\ f <> -1 /\ in_s 32 z /\ z <> -1
  | _, _ => False
  end.

(** The server's side of an open: the object goes into the table under its
    descriptor, with the path. *)
Lemma record_open t ns path k f h m :
  repr t ns -> brk t + 2 * sizeof_MethodAndFD < 2 ^ 64 - 64 ->
  strlen path 0 = Some k -> k < 512 -> in_u 64 m -> m <> 0 ->
  is_unixFile f -> uf_h f = Some h -> uf_pMethods f = Some m ->
  exists t1 t2 ns2 a p sid, setServerUnixPMethods uninit t h f = Some t1 /\
    setServicePath uninit t1 h path = Some t2 /\ entry_ok t2 h a m p /\
    cstring p 0 = cstring path 0 /\ repr t2 ns2 /\ abs ns2 = <[h := (a, m, p)]> (abs ns) /\
    uf_set_zPath f (a + off_path) = Some sid /\ is_unixFile sid /\ same_handle f sid /\
    uf_h sid = Some h /\ uf_pMethods sid = Some m /\ uf_zPath sid = Some (a + off_path).
Proof.
  intros Hr Hb Hp Hk Hm Hm0 Hf Hh Hpm. unfold setServerUnixPMethods. rewrite Hpm. cbn.
  destruct (AddNode_repr uninit uninit_ok t ns h m Hr) as (t1 & ns1 & a & p & Ht1 & Hr1 & Hlp & Ha & _).
  assert (Hl1 : abs ns1 !! h = Some (a, m, p)) by (by rewrite Ha, lookup_insert_eq).
  pose proof (AddNode_brk uninit uninit_ok _ _ _ _ _ Hr Ht1) as Hb1.
  destruct (abs_lookup_node uninit uninit_ok _ _ _ _ _ _ Hr1 Hl1) as (nd & _ & _ & _ & _ & Hab & _).
  destruct (setServicePath_present uninit uninit_ok t1 ns1 h a m p path k) as
    (t2 & ns2 & p' & Ht2 & Hr2 & _ & Hcpy & _ & Hs & Ha2); [done..|].
  assert (Haddr : in_u 64 (a + off_path)) by (unfold in_u; unfold off_path; szlia).
  destruct (set_zPath_ok f (a + off_path) Hf) as (sid & Hsid & Hsok & Hsame & Hsm & Hsz).
  exists t1, t2, ns2, a, p', sid. split_and!; try done; [| | |by rewrite <- (same_handle_h f)|by rewrite Hsm|auto].
  - split; [|done|done|by exists k]. exists ns2. by rewrite Ha2, lookup_insert_eq.
  - by eapply strcpy_cstring.
  - by rewrite Ha2, Ha, insert_insert_eq.
Qed.

(** The value of [*pOutFlags] on the wire. *)
Definition wire_flags (o : option Z) : Z := default (-1) o.

(** Packing the arguments of an open, and unpacking them on the server. *)
Lemma open_request zPath pFile flags outF k :
  strlen zPath 0 = Some k -> k < 512 -> is_unixFile pFile -> in_s 32 flags ->
  in_s 32 (wire_flags outF) ->
  exists arg path, unixOpenConvertArgInToChar zPath pFile flags outF (zeros sizeof_ArgInOpen)
      = Some arg /\ len arg = sizeof_ArgInOpen /\ strlen path 0 = Some k /\
    cstring path 0 = cstring zPath 0 /\
    forall x, unixOpenConvertCharToArgIn (arg ++ x) (uninit_bytes 512) (uninit_bytes SIZE_UNIXFILE)
      = Some (path, pFile, flags, wire_flags outF).
Proof.
  unfold is_unixFile. intros Hs Hk Hf Hfl Hof.
  pose proof (uninit_bytes_ok SIZE_UNIXFILE ltac:(done)).
  pose proof (uninit_bytes_ok 512 ltac:(done)).
  destruct (strcpy_ok (zeros sizeof_ArgInOpen) zPath k Hs) as (a1 & Ha1 & Hl1 & Hs1 & Hc1 & _);
    [len_simpl; szlia|].
  unfold unixOpenConvertArgInToChar. rewrite Ha1. cbn [mbind option_bind]. len_simpl.
  replace (match outF with None => -1 | Some f => f end) with (wire_flags outF) by (by destruct outF).
  mem_run.
  assert (Hsm : forall m o d m' , mem_write m o d = Some m' -> 512 <= o -> strlen m 0 = Some k ->
    cstring m 0 = cstring zPath 0 ->
    strlen m' 0 = Some k /\ cstring m' 0 = cstring zPath 0).
  { intros b o d b' Hwb Ho Hsb Hcb.
    assert (Hsb' : strlen b' 0 = Some k) by (eapply strlen_write_other; [done..|lia]).
    split; [done|]. rewrite <- Hcb. unfold cstring. rewrite Hsb, Hsb'. cbn.
    apply (read_write_other _ _ _ _ _ _ Hwb). lia. }
  destruct (Hsm _ _ _ _ Hw) as [Hs2 Hc2]; [lia|done..|].
  destruct (Hsm _ _ _ _ Hw0) as [Hs3 Hc3]; [szlia|done..|].
  destruct (Hsm _ _ _ _ Hw1) as [Hs4 Hc4]; [szlia|done..|].
  destruct (strcpy_ok (uninit_bytes 512) m1 k Hs4) as (path & Hp & Hlp & Hsp & Hcp & _); [lia|].
  exists m1, path. split; [done|]. split; [szlia|]. split; [done|]. split; [congruence|].
  intros x. unfold unixOpenConvertCharToArgIn.
  assert (strcpy (uninit_bytes 512) 0 (m1 ++ x) 0 = Some path) as ->.
  { rewrite <- Hp. unfold strcpy, memcpy. rewrite (strlen_app _ _ _ Hs4), Hs4. cbn.
    pose proof (strlen_bound _ _ _ Hs4). by rewrite mem_read_app by lia. }
  cbn [mbind option_bind]. by mem_run.
Qed.

(** Packing the results of an open, and unpacking them on the client. *)
Lemma open_reply f inF out rc pFile id' buf :
  is_unixFile f -> is_unixFile pFile -> in_s 32 rc -> flags_ok inF out ->
  setClientRemotePMethods remote_methods f = Some id' -> len buf = sizeof_ReturnOpen ->
  exists arg, unixOpenConvertReturnToChar f (default (wire_flags inF) out) rc buf = Some arg /\
    len arg = sizeof_ReturnOpen /\
    forall x, unixOpenConvertCharToReturn remote_methods (arg ++ x) pFile inF = Some (id', out, rc).
Proof.
  unfold is_unixFile. intros Hf Hp Hrc Hfl Hset Hb.
  assert (in_s 32 (default (wire_flags inF) out)).
  { destruct inF, out; cbn in *; try done; try tauto; unfold in_s; lia. }
  unfold unixOpenConvertReturnToChar, unixOpenConvertCharToReturn. mem_run.
  eexists. split; [done|]. split; [szlia|]. intros x. mem_run.
  destruct inF, out; cbn [flags_ok default wire_flags] in Hfl |- *; try done.
  - rewrite (proj2 (Z.eqb_neq (-1) _)) by (unfold Datatypes.id; lia).
    cbn. by rewrite Hset.
  - cbn. by rewrite Hset.
Qed.

(** The server's handler for an open request. *)
Lemma handler_open arg path pFile flags inF rc f out w' t ns w k h m id' :
  repr t ns -> brk t + 3 * sizeof_MethodAndFD < 2 ^ 64 - 64 ->
  strlen path 0 = Some k -> k < 512 -> is_unixFile pFile -> in_u 64 m -> m <> 0 ->
  unixOpenConvertCharToArgIn (arg ++ [Byte.x00]) (uninit_bytes 512) (uninit_bytes SIZE_UNIXFILE)
    = Some (path, pFile, flags, wire_flags inF) ->
  vOpen path path_addr pFile (Z.land flags 0x87f7f) inF w = Some (rc, f, out, w') ->
  flags_ok inF out -> uf_h f = Some h -> uf_pMethods f = Some m ->
  setClientRemotePMethods remote_methods f = Some id' ->
  exists reply t2 ns2 a p sid,
    handler MOpen {| inarg := arg; outlen := sizeof_ReturnOpen |} (mkServer t w) =
      Some (reply, mkServer t2 w') /\
    len (outarg reply) = sizeof_ReturnOpen /\
    (forall x, unixOpenConvertCharToReturn remote_methods (outarg reply ++ x) pFile inF =
      Some (id', out, rc)) /\
    entry_ok t2 h a m p /\ cstring p 0 = cstring path 0 /\
    repr t2 ns2 /\ abs ns2 = <[h := (a, m, p)]> (abs ns) /\
    is_unixFile sid /\ same_handle f sid /\ uf_h sid = Some h /\ uf_pMethods sid = Some m /\
    uf_zPath sid = Some (a + off_path).
Proof.
  intros Hr Hb Hp Hk Hf Hm Hm0 Hdec Hop Hfl Hh Hpm Hset.
  destruct (restore_total uninit posixIoMethods uninit_ok t ns pFile Hr Hf)
    as (id1 & t1 & Hres & Hid1 & Hr1 & Hb1).
  rewrite (vOpen_fresh _ _ _ id1) in Hop by done.
  destruct (vOpen_ok _ _ _ _ _ _ _ _ _ _ Hid1 Hop) as [Hfok Hrc].
  destruct (record_open t1 ns path k f h m) as
    (t2 & t3 & ns2 & a & p & sid & Hs1 & Hs2 & He & Hpc & Hr2 & Ha & _ & Hsid); try done;
    [unfold sizeof_MethodAndFD in *; lia|].
  destruct (open_reply f inF out rc pFile id' (uninit_bytes sizeof_ReturnOpen)) as
    (ra & Hra & Hla & Hdr); try done; [by apply uninit_bytes_ok|].
  assert (Hin : (if -1 =? wire_flags inF then None else Some (wire_flags inF)) = inF).
  { destruct inF as [fl|]; [|done]. destruct out; [|done]. cbn [wire_flags default].
    unfold Datatypes.id. rewrite (proj2 (Z.eqb_neq (-1) fl)); [done|]. cbn in Hfl. lia. }
  exists {| outarg := ra |}, t3, ns2, a, p, sid.
  split; [|split_and!; try done; apply Hsid]. cbn [ServerWrap.handler].
  unfold OSRemote_Open, serve. cbn [ServerWrap.outlen ServerWrap.inarg].
  change (wrap_s 32 sizeof_ReturnOpen) with sizeof_ReturnOpen.
  change (sizeof_ReturnOpen <? 0) with false. cbv iota. unfold WrapOpen.
  rewrite Hdec. cbn [mbind option_bind table world]. rewrite Hres. cbn [mbind option_bind].
  rewrite Hin, Hop. cbn [mbind option_bind]. rewrite Hh. cbn [mbind option_bind].
  rewrite Hs1. cbn [mbind option_bind]. rewrite Hs2. cbn [mbind option_bind].
  rewrite Hra. cbn [mbind option_bind]. by rewrite mem_read_all.
Qed.

(** C3: Opening a file through the remote VFS returns what [unixOpen] returns on
    the server and links the client's object: the server's table maps the new
    descriptor to the object's methods and to a path that is the string of the
    [zPath] that the client asked for, and maps every other descriptor as
    before. *)
Theorem remoteOpen_links c n ns zPath pFile flags inF k rc f out w' h m :
  stub_ c <> None -> up n -> repr (table (srv n)) ns ->
  brk (table (srv n)) + 3 * sizeof_MethodAndFD < 2 ^ 64 - 64 ->
  strlen zPath 0 = Some k -> k < 512 -> is_unixFile pFile -> in_s 32 flags ->
  flags_ok inF out -> in_u 64 m -> m <> 0 ->
  vOpen zPath path_addr pFile (Z.land flags 0x87f7f) inF (world (srv n)) = Some (rc, f, out, w') ->
  uf_h f = Some h -> uf_pMethods f = Some m ->
  exists id' n' ns' a p sid,
    remoteOpen rpc remote_methods c zPath pFile flags inF n = Some (rc, id', out, n') /\
    up n' /\ world (srv n') = w' /\ repr (table (srv n')) ns' /\
    abs ns' = <[h := (a, m, p)]> (abs ns) /\ cstring p 0 = cstring zPath 0 /\
    same_handle f sid /\ linked (table (srv n')) id' sid.
Proof.
  intros Hc Hup Hr Hb Hp Hk Hf Hfl Hof Hm Hm0 Hop Hh Hpm.
  destruct (open_request zPath pFile flags inF k) as (arg & path & Harg & Hla & Hsp & Hcp & Hdec);
    try done. { destruct inF, out; cbn in *; try done; try tauto. }
  rewrite <- (vOpen_path path) in Hop by done.
  destruct (vOpen_ok _ _ _ _ _ _ _ _ _ _ Hf Hop) as [Hfok Hrc].
  destruct (set_pMethods_ok f remote_methods Hfok) as (id' & Hid & Hidok & Hsame & _).
  assert (Hset : setClientRemotePMethods remote_methods f = Some id').
  { unfold setClientRemotePMethods. rewrite Hpm. cbn. by rewrite (proj2 (Z.eqb_neq m 0)). }
  destruct (srv n) as [t w] eqn:Hsrv; cbn [table world] in *.
  destruct (handler_open arg path pFile flags inF rc f out w' t ns w k h m id') as
    (reply & t2 & ns2 & a & p & sid & Hha & Hlr & Hdr & He & Hpc & Hr2 & Ha & Hsid & Hfs & Hrest);
    try done.
  rewrite <- Hsrv in Hha. destruct (link_up _ _ _ _ _ Hup Hha) as (n' & Hrpc & Hsrv' & Hup').
  exists id', n', ns2, a, p, sid. rewrite Hsrv'. cbn [table world]. split.
  - unfold remoteOpen. rewrite Harg. cbn [mbind option_bind]. unfold clientOpen.
    erewrite client_call_answered by (done || exact Hrpc). cbn [mbind option_bind].
    rewrite <- (app_nil_r (outarg reply)), Hdr. done.
  - split_and!; try done; [by rewrite Hpc|]. split_and!; try done; [by etrans; [symmetry; exact Hsame|]|].
    by exists h, a, m, p.
Qed.

(** ** Deleting and testing files by name *)

(** A request that starts with a path: the server's copy is the same string. *)
Lemma path_request size zPath k :
  strlen zPath 0 = Some k -> k < 512 -> 512 < size ->
  exists arg, strcpy (zeros size) 0 zPath 0 = Some arg /\ len arg = size /\
    forall o d arg', mem_write arg o d = Some arg' -> 512 <= o ->
    forall o2 d2 arg2 x, mem_write arg' o2 d2 = Some arg2 \/ arg2 = arg' -> 512 <= o2 ->
    exists path, strcpy (uninit_bytes 512) 0 (arg2 ++ x) 0 = Some path /\
      cstring path 0 = cstring zPath 0.
Proof.
  intros Hs Hk Hsz. pose proof (uninit_bytes_ok 512 ltac:(done)).
  destruct (strcpy_ok (zeros size) zPath k Hs) as (arg & Ha & Hl & Hsa & Hc & _);
    [rewrite len_zeros; lia|].
  rewrite len_zeros in Hl by lia. exists arg. split; [done|]. split; [done|].
  assert (Hkeep : forall b o d b', mem_write b o d = Some b' -> 512 <= o -> strlen b 0 = Some k ->
    cstring b 0 = cstring zPath 0 -> strlen b' 0 = Some k /\ cstring b' 0 = cstring zPath 0).
  { intros b o d b' Hwb Ho Hsb Hcb.
    assert (Hsb' : strlen b' 0 = Some k) by (eapply strlen_write_other; [done..|lia]).
    split; [done|]. rewrite <- Hcb. unfold cstring. rewrite Hsb, Hsb'. cbn.
    apply (read_write_other _ _ _ _ _ _ Hwb). lia. }
  intros o d arg' Hw Ho o2 d2 arg2 x Hw2 Ho2.
  destruct (Hkeep _ _ _ _ Hw Ho Hsa Hc) as [Hs1 Hc1].
  assert (strlen arg2 0 = Some k /\ cstring arg2 0 = cstring zPath 0) as [Hs2 Hc2].
  { destruct Hw2 as [Hw2| ->]; [|done]. by apply (Hkeep _ _ _ _ Hw2). }
  destruct (strcpy_ok (uninit_bytes 512) arg2 k Hs2) as (path & Hp & _ & _ & Hcp & _); [lia|].
  exists path. split; [|congruence]. rewrite <- Hp. unfold strcpy, memcpy.
  rewrite (strlen_app _ _ _ Hs2), Hs2. cbn. pose proof (strlen_bound _ _ _ Hs2).
  by rewrite mem_read_app by lia.
Qed.

(** A call whose handler is known, up to the bytes the client gets. *)
Lemma call_served m c arg inlen outlen wrap out s' n :
  stub_ c <> None -> up n -> len arg = inlen -> 0 <= outlen < 2 ^ 31 -> len out = outlen ->
  (forall req s, handler m req s = serve uninit_bytes wrap req s) ->
  wrap (arg ++ [Byte.x00]) (uninit_bytes outlen) (srv n) = Some (out, s') ->
  exists n', client_call rpc m c arg inlen outlen (zeros outlen) n = Some (out, n') /\
    up n' /\ srv n' = s'.
Proof.
  intros Hc Hup Hl Ho Hlo Hh Hw.
  assert (Hha : handler m {| inarg := arg; outlen := outlen |} (srv n) =
    Some ({| outarg := out |}, s')).
  { rewrite Hh. unfold serve. cbn. rewrite wrap_s_id by (unfold in_s; lia).
    rewrite (proj2 (Z.ltb_ge _ _)) by lia. rewrite Hw. cbn. by rewrite mem_read_all. }
  destruct (link_up _ _ _ _ _ Hup Hha) as (n' & Hrpc & Hsrv & Hup').
  exists n'. split; [|done].
  by rewrite (client_call_answered _ _ _ _ _ _ {| outarg := out |} _ _ Hc Hl
    (proj1 Ho) Hlo Hrpc).
Qed.

(** Deleting a file and testing access to a file through the remote VFS have
    the result and the effect they have on the server, and leave the table of
    open files alone. *)
Theorem remote_path_ops c n zPath k a b :
  stub_ c <> None -> up n -> strlen zPath 0 = Some k -> k < 512 -> in_s 32 a -> in_s 32 b ->
  (forall rc w', vDelete zPath a (world (srv n)) = Some (rc, w') ->
    exists n', remoteDelete rpc c zPath a n = Some (rc, n') /\ up n' /\
      srv n' = mkServer (table (srv n)) w') /\
  (forall rc r w', vAccess zPath a b (world (srv n)) = Some (rc, r, w') ->
    exists n', remoteAccess rpc c zPath a b n = Some (rc, r, n') /\ up n' /\
      srv n' = mkServer (table (srv n)) w').
Proof.
  intros Hc Hup Hs Hk Ha Hb. split; intros * Hop.
  - destruct (path_request sizeof_ArgInDelete zPath k Hs Hk) as (arg & Harg & Hl & Hdec); [done|].
    pose proof (vDelete_ok _ _ _ _ _ Hop).
    pose proof (uninit_bytes_ok sizeof_ReturnDelete ltac:(done)).
    unfold remoteDelete, unixDeleteConvertArgInToChar. rewrite Harg. cbn [mbind option_bind].
    mem_run. destruct (Hdec _ _ _ Hw ltac:(lia) 512 [] _ [Byte.x00] (or_intror eq_refl) ltac:(lia))
      as (path & Hp & Hcp). rewrite (vDelete_path _ path) in Hop by done.
    destruct (mem_write_fits (uninit_bytes sizeof_ReturnDelete) 0 (enc sz_int rc)) as (out & Hout & Hlo);
      [lia|len_simpl; szlia|].
    unfold clientDelete.
    destruct (call_served MDelete c m sizeof_ArgInDelete sizeof_ReturnDelete
      (WrapDelete uninit_bytes) out (mkServer (table (srv n)) w') n) as (n' & -> & Hup' & Hsrv);
      try done; [szlia|szlia| |].
    + unfold WrapDelete, unixDeleteConvertCharToArgIn. rewrite Hp. cbn [mbind option_bind].
      mem_run. rewrite Hop. cbn [mbind option_bind].
      unfold unixDeleteConvertReturnToChar. mem_unfold. by rewrite Hout.
    + exists n'. cbn [mbind option_bind]. unfold unixDeleteConvertCharToReturn. by mem_run.
  - destruct (path_request sizeof_ArgInAccess zPath k Hs Hk) as (arg & Harg & Hl & Hdec); [done|].
    destruct (vAccess_ok _ _ _ _ _ _ _ Hop).
    pose proof (uninit_bytes_ok sizeof_ReturnAccess ltac:(done)).
    unfold remoteAccess, unixAccessConvertArgInToChar. rewrite Harg. cbn [mbind option_bind].
    mem_run. destruct (Hdec _ _ _ Hw ltac:(lia) _ _ _ [Byte.x00] (or_introl Hw0) ltac:(szlia))
      as (path & Hp & Hcp). rewrite (vAccess_path _ path) in Hop by done.
    destruct (mem_write_fits (uninit_bytes sizeof_ReturnAccess) 0 (enc sz_int r)) as (o1 & Ho1 & Hlo1);
      [lia|len_simpl; szlia|].
    destruct (mem_write_fits o1 sz_int (enc sz_int rc)) as (out & Hout & Hlo);
      [szlia|len_simpl; szlia|].
    unfold clientAccess.
    destruct (call_served MAccess c m0 sizeof_ArgInAccess sizeof_ReturnAccess
      (WrapAccess uninit_bytes) out (mkServer (table (srv n)) w') n) as (n' & -> & Hup' & Hsrv);
      try done; [szlia|szlia| |].
    + unfold WrapAccess, unixAccessConvertCharToArgIn. rewrite Hp. cbn [mbind option_bind].
      mem_run. rewrite Hop. cbn [mbind option_bind].
      unfold unixAccessConvertReturnToChar. mem_unfold. rewrite Ho1. cbn [mbind option_bind].
      by rewrite Hout.
    + exists n'. cbn [mbind option_bind]. unfold unixAccessConvertCharToReturn. by mem_run.
Qed.

End opening.
