(* ===== verification/RemoteLimits.v ===== *)
(** Where the remote VFS stops behaving like the unix VFS although the link is
    up: transfers larger than a message, memory-mapped access, string
    file-controls, descriptors the server does not know, and closed files. *)
From S2P Require Import Prelude CMem UnixFile OsRemoteInit MethodList ArgConvert UnixVfs.
From S2P Require Import ServerWrap Messages RemoteClient RemoteVfs RemoteRefinement.
From S2P Require Import RemoteOpen.

Section limits.

Context {W : Type} `{V : UnixVfs W} {VOk : UnixVfsOk W}.
Context (uninit : Z -> MethodAndFD) (uninit_bytes : Z -> region).
Context (posixIoMethods path_addr remote_methods : Z) (deref : Z -> option region).
Context {N : Type} (rpc : Method -> ArgRequest -> N -> option ArgReply * N).
Context (srv : N -> server W) (up : N -> Prop).

Hypothesis uninit_ok : forall a, node_ok (uninit a).
Hypothesis uninit_bytes_ok : forall n, 0 <= n -> len (uninit_bytes n) = n.
Hypothesis remote_addr : in_u 64 remote_methods.

Local Abbreviation handler := (handler uninit uninit_bytes posixIoMethods path_addr).

(** ** Large transfers *)

Lemma mem_write_overflow m o d : len m < o + len d -> mem_write m o d = None.
Proof. intros. unfold mem_write. case_bool; [bool_to_prop; lia|done]. Qed.

(** C38: A read or a write of more than 8192 bytes is a buffer overflow: either
    the client overruns the request it is packing, or the server overruns its
    8192-byte buffer when it unpacks the request. *)
Theorem large_transfer_overflows write pBuf amt offset id :
  is_unixFile id -> in_s 32 amt -> in_s 64 offset -> MAX_SIZE < amt <= len pBuf ->
  let o := if write : bool then OpWrite pBuf amt offset else OpRead pBuf amt offset in
  match encode_request deref o id with
  | None => True
  | Some arg => forall outlen s,
      handler (op_method o) {| inarg := arg; outlen := outlen |} s = None
  end.
Proof.
  intros Hid Ha Ho Hb o. unfold is_unixFile in Hid.
  pose proof (uninit_bytes_ok SIZE_UNIXFILE ltac:(done)).
  pose proof (uninit_bytes_ok 8192 ltac:(done)).
  assert (Hs : forall wrap outlen arg s, (forall out, wrap (arg ++ [Byte.x00]) out s = None) ->
      serve (W := W) uninit_bytes wrap {| inarg := arg; outlen := outlen |} s = None).
  { intros wrap outlen arg s Hw. unfold serve. cbn. case_bool; [done|]. by rewrite Hw. }
  destruct (encode_request deref o id) as [arg|] eqn:Henc; [|done].
  intros outlen s. subst o. destruct write; cbn [encode_request request_size] in Henc;
    cbn [op_method ServerWrap.handler]; apply Hs; intros out.
  - unfold unixWriteConvertArgInToChar in Henc. unfold WrapWrite, unixWriteConvertCharToArgIn.
    mem_unfold. inv_opt. mem_lens. len_simpl.
    mem_run.
    rewrite mem_write_overflow by szlia. done.
  - unfold unixReadConvertArgInToChar in Henc. unfold WrapRead, unixReadConvertCharToArgIn.
    mem_unfold. inv_opt. mem_lens. len_simpl.
    mem_run.
    rewrite mem_write_overflow by szlia. done.
Qed.

(** ** Memory-mapped access *)

(** A fetch the unix VFS answers with a null pointer, which is its answer
    whenever the range is not mapped, crashes the server. *)
Theorem fetch_unmapped_crashes id sid iOff nAmt n rc sid' w' :
  linked (table (srv n)) id sid -> in_s 64 iOff -> in_s 32 nAmt ->
  vFetch sid iOff nAmt (world (srv n)) = Some (rc, sid', None, w') ->
  exists arg, unixFetchConvertArgInToChar id iOff nAmt (zeros sizeof_ArgInFetch) = Some arg /\
    forall outlen, handler MFetch {| inarg := arg; outlen := outlen |} (srv n) = None.
Proof.
  intros Hlk Hi Hn Hv. pose proof Hlk as (Hid & _). unfold is_unixFile in Hid.
  pose proof (uninit_bytes_ok SIZE_UNIXFILE ltac:(done)).
  unfold unixFetchConvertArgInToChar. len_simpl. mem_run. len_simpl. eexists. split; [done|].
  intros outlen. cbn [ServerWrap.handler].
  unfold OSRemote_Fetch, serve. cbn [ServerWrap.outlen ServerWrap.inarg].
  case_bool; [done|]. unfold WrapFetch, unixFetchConvertCharToArgIn. mem_run.
  rewrite (restore_linked _ _ uninit_ok _ _ _ Hlk). cbn [mbind option_bind].
  rewrite Hv. cbn [mbind option_bind]. destruct (record_fields _ _ _); [|done].
  cbn [mbind option_bind]. unfold unixFetchsConvertReturnToChar.
  by destruct (memcpy _ _ _ _ _).
Qed.

Hypothesis link_up : forall m req n reply s',
  up n -> handler m req (srv n) = Some (reply, s') ->
  exists n', rpc m req n = (Some reply, n') /\ srv n' = s' /\ up n'.

(** What the last eight bytes of a method table pointer do: replacing the first
    pointer of an object leaves the same handle. *)
Lemma same_handle_head f d f' :
  is_unixFile f -> len d = sz_ptr -> mem_write f 0 d = Some f' ->
  is_unixFile f' /\ same_handle f f'.
Proof.
  unfold is_unixFile. intros Hf Hd Hw. pose proof (mem_write_len _ _ _ _ Hw). split; [lia|].
  split; [lia|]. intros o n Ho Hn Hb Hm _. symmetry.
  apply (read_write_other _ _ _ _ _ _ Hw). szlia.
Qed.

(** Releasing a fetched page returns the server's result, but the client copies
    back only the first eight bytes of the object: its own object keeps every
    byte outside the method pointer, the count of outstanding fetches included,
    so the server's update of the object is undone by the next request. *)
Theorem remoteUnfetch_stale c id sid iOff p n rc sid' w' :
  stub_ c <> None -> up n -> linked (table (srv n)) id sid -> in_s 64 iOff ->
  vUnfetch sid iOff p (world (srv n)) = Some (rc, sid', w') ->
  exists id' n', remoteUnfetch rpc remote_methods c id iOff p n = Some (rc, id', n') /\
    up n' /\ world (srv n') = w' /\ same_handle id id' /\ linked (table (srv n')) id' sid.
Proof.
  intros Hc Hup Hlk Hi Hv.
  pose proof Hlk as (Hid & Hsid & Hsame & h & a & m & pth & He & Hh & Hm & Hz).
  destruct (vUnfetch_ok _ _ _ _ _ _ _ Hsid Hv) as ((Hf & Hh' & Hm' & Hz') & Hrc).
  rewrite <- Hh', <- Hm', <- Hz' in *.
  destruct (record_linked uninit uninit_ok _ _ _ _ _ _ He Hh Hm Hz) as (t' & Ht' & Heq).
  unfold remoteUnfetch, unixUnfetchConvertArgInToChar, clientUnfetch.
  assert (in_s 32 (if p then 1 else 0)) by (unfold in_s; destruct p; lia).
  unfold is_unixFile in Hid, Hf. len_simpl. mem_run. len_simpl.
  pose proof (uninit_bytes_ok SIZE_UNIXFILE ltac:(done)).
  pose proof (uninit_bytes_ok sizeof_ReturnUnfetch ltac:(done)).
  destruct (mem_write_fits (uninit_bytes sizeof_ReturnUnfetch) 0 sid') as (o1 & Ho1 & Hlo1);
    [lia|szlia|].
  destruct (mem_write_fits o1 SIZE_UNIXFILE (enc sz_int rc)) as (out & Hout & Hlo);
    [szlia|len_simpl; szlia|].
  destruct (call_served uninit uninit_bytes posixIoMethods path_addr rpc srv up link_up
    MUnfetch c m2 sizeof_ArgInUnfetch sizeof_ReturnUnfetch
    (WrapUnfetch uninit uninit_bytes posixIoMethods) out (mkServer t' w') n)
    as (n' & -> & Hup' & Hsrv); try done; [szlia|szlia| |].
  - unfold WrapUnfetch, unixUnfetchConvertCharToArgIn. mem_run.
    rewrite (restore_linked _ _ uninit_ok _ _ _ Hlk). cbn [mbind option_bind].
    replace (negb ((if p then 1 else 0) =? 0)) with p by (by destruct p).
    rewrite Hv. cbn [mbind option_bind]. rewrite Ht'. cbn [mbind option_bind].
    unfold unixUnfetchConvertReturnToChar. mem_unfold. rewrite mem_read_all by done.
    cbn [mbind option_bind]. rewrite Ho1. cbn [mbind option_bind]. by rewrite Hout.
  - cbn [mbind option_bind]. unfold unixUnfetchConvertCharToReturn, sizeof_SIZE_UNIXFILE. mem_run.
    match goal with Hw' : mem_write id 0 ?d = Some ?f |- _ =>
      destruct (same_handle_head id d f Hid ltac:(szlia) Hw') as [Hok1 Hs1];
      destruct (setClientRemotePMethods_ok remote_methods f Hok1) as (id' & -> & Hok2 & Hs2 & _)
    end.
    cbn [mbind option_bind]. exists id', n'. rewrite Hsrv. cbn [table world].
    assert (same_handle id id') by (by etrans).
    split_and!; try done. split_and!; try done; [by etrans; [symmetry|]|].
    exists h, a, m, pth. rewrite <- Hh', <- Hm', <- Hz'. split_and!; try done.
    by eapply entry_ok_equiv.
Qed.

(** ** Replies *)

(** The reply to a write carries 8192 bytes of the server's uninitialised stack:
    the bytes between the file object and the return value are the ones that were
    in the array the service method allocated. *)
Theorem write_reply_leaks arg s reply s' :
  handler MWrite {| inarg := arg; outlen := sizeof_ReturnWrite |} s = Some (reply, s') ->
  mem_read (outarg reply) SIZE_UNIXFILE MAX_SIZE =
    mem_read (uninit_bytes sizeof_ReturnWrite) SIZE_UNIXFILE MAX_SIZE.
Proof.
  pose proof (uninit_bytes_ok sizeof_ReturnWrite ltac:(done)) as Hu.
  cbn [ServerWrap.handler]. unfold OSRemote_Write, serve. cbn [ServerWrap.outlen ServerWrap.inarg].
  change (wrap_s 32 sizeof_ReturnWrite) with sizeof_ReturnWrite.
  change (sizeof_ReturnWrite <? 0) with false. cbv iota. unfold WrapWrite. intros H.
  inv_opt. cbn [outarg].
  match goal with H : unixWriteConvertReturnToChar _ _ _ = Some ?o |- _ =>
    unfold unixWriteConvertReturnToChar in H end.
  mem_unfold. inv_opt. mem_lens. len_simpl.
  rewrite mem_read_all in * by szlia. simplify_eq. by mem_run.
Qed.

(** ** Closing *)

(** Closing a file through the remote VFS closes it on the server with the
    methods of its entry, but the entry stays in the table and the client's
    object stays linked to the closed descriptor. *)
Theorem remoteClose_keeps_link c id sid m n rc f' w' :
  stub_ c <> None -> up n -> linked (table (srv n)) id sid -> uf_pMethods sid = Some m ->
  vClose m sid (world (srv n)) = Some (rc, f', w') ->
  exists id' n', remoteClose rpc remote_methods c id n = Some (rc, id', n') /\
    up n' /\ srv n' = mkServer (table (srv n)) w' /\ linked (table (srv n')) id' sid.
Proof.
  intros Hc Hup Hlk Hm Hv. pose proof Hlk as (Hid & Hsid & Hsame & h & a & m' & pth & He & Hh & Hm' & Hz).
  rewrite Hm in Hm'. injection Hm' as <-. destruct (vClose_ok _ _ _ _ _ _ Hsid Hv) as [_ Hrc].
  pose proof (uninit_bytes_ok SIZE_UNIXFILE ltac:(done)).
  pose proof (uninit_bytes_ok sizeof_ReturnClose ltac:(done)).
  unfold remoteClose, unixCloseConvertArgInToChar, clientClose. pose proof Hid as Hid'.
  unfold is_unixFile in Hid. len_simpl. mem_run.
  destruct (mem_write_fits (uninit_bytes sizeof_ReturnClose) SIZE_UNIXFILE (enc sz_int rc))
    as (out & Hout & Hlo); [szlia|len_simpl; szlia|].
  destruct (call_served uninit uninit_bytes posixIoMethods path_addr rpc srv up link_up
    MClose c id sizeof_ArgInClose sizeof_ReturnClose
    (WrapClose uninit uninit_bytes posixIoMethods) out (mkServer (table (srv n)) w') n)
    as (n' & -> & Hup' & Hsrv); try done; [szlia| |].
  - unfold WrapClose, unixCloseConvertCharToArgIn. mem_run.
    rewrite (restore_linked _ _ uninit_ok _ _ _ Hlk). cbn [mbind option_bind].
    rewrite Hm. cbn [mbind option_bind].
    rewrite (proj2 (Z.eqb_neq m 0)) by apply He. rewrite Hv. cbn [mbind option_bind].
    unfold unixCloseConvertReturnToChar. mem_unfold. by rewrite Hout.
  - cbn [mbind option_bind]. unfold unixCloseConvertCharToReturn. mem_run.
    destruct (setClientRemotePMethods_ok remote_methods id Hid') as (id' & -> & Hok & Hs & _).
    cbn [mbind option_bind]. exists id', n'. rewrite Hsrv. split_and!; try done.
    split_and!; try done; [by etrans; [symmetry|]|]. by exists h, a, m, pth.
Qed.

(** ** Descriptors the server does not know *)

(** A handler crashes when the table cannot record the object it used. *)
Lemma handler_no_record o arg outlen s id id1 t1 :
  decode_request uninit_bytes (op_method o) (arg ++ [Byte.x00]) = Some (id, o) ->
  restore_fields uninit posixIoMethods (table s) id = Some (id1, t1) -> is_unixFile id1 ->
  (forall id2, frame id1 id2 -> record_fields uninit t1 id2 = None) ->
  handler (op_method o) {| inarg := arg; outlen := outlen |} s = None.
Proof.
  intros Hd Hr Hid1 Hrec.
  assert (Hs : forall wrap, (forall out, wrap (arg ++ [Byte.x00]) out s = None) ->
      serve (W := W) uninit_bytes wrap {| inarg := arg; outlen := outlen |} s = None).
  { intros wrap Hw. unfold serve. cbn. case_bool; [done|]. by rewrite Hw. }
  destruct o; cbn [op_method ServerWrap.handler]; apply Hs; intros out; clear Hs;
    cbn [decode_request op_method] in Hd; inv_opt;
    unfold WrapRead, WrapWrite, WrapTruncate, WrapSync, WrapFileSize, WrapFileControl,
      WrapSectorSize, WrapDeviceCharacteristics, WrapLock, WrapUnlock, WrapCheckReservedLock;
    repeat bind_known.
  all: match goal with |- (?v ≫= _) = None => destruct v as [x|] eqn:Hv; [|done] end;
    repeat match goal with x : (_ * _)%type |- _ => destruct x end; cbn [mbind option_bind].
  all: first [ apply vRead_ok in Hv as [Hv _] | apply vWrite_ok in Hv as [Hv _]
    | apply vTruncate_ok in Hv as [Hv _] | apply vSync_ok in Hv as [Hv _]
    | apply vFileSize_ok in Hv as [Hv _] | apply vFileControl_ok in Hv as [Hv _]
    | apply vSectorSize_ok in Hv as [Hv _] | apply vDeviceCharacteristics_ok in Hv as [Hv _]
    | apply vLock_ok in Hv as [Hv _] | apply vUnlock_ok in Hv as [Hv _]
    | apply vCheckReservedLock_ok in Hv as [Hv _] ]; try done.
  all: by rewrite (Hrec _ Hv).
Qed.

(** A request about a descriptor that is not in the server's table, for instance
    from a client that opened its files before the server was restarted, runs on
    the server's descriptor of that number and then crashes the server, which
    takes the client's stale path pointer for one of its own. *)
Theorem unknown_descriptor_crashes o id h z n ns :
  is_unixFile id -> op_ok o -> repr (table (srv n)) ns -> uf_h id = Some h ->
  abs ns !! h = None -> uf_zPath id = Some z ->
  ~ (0 < z - off_path < brk (table (srv n)) + 3 * sizeof_MethodAndFD) ->
  exists arg, encode_request deref o id = Some arg /\
    forall outlen, handler (op_method o) {| inarg := arg; outlen := outlen |} (srv n) = None.
Proof.
  intros Hid Ho Hr Hh Hl Hz Hout.
  destruct (decode_encode_request deref uninit_bytes uninit_bytes_ok o id Hid Ho)
    as (arg & y & Harg & _ & Hdec).
  exists arg. split; [done|]. intros outlen. set (t := table (srv n)) in *.
  destruct (init_if_null_repr _ uninit_ok t ns Hr) as [Hr1 Hl1].
  pose proof (init_brk uninit t) as Hb.
  destruct (set_pMethods_ok id posixIoMethods Hid) as (id1 & Hid1 & Hok1 & Hs1 & Hz1 & _).
  assert (Hres : restore_fields uninit posixIoMethods t id = Some (id1, init_if_null uninit t)).
  { unfold ServerWrap.restore_fields. rewrite Hh. cbn [mbind option_bind].
    rewrite (getServerUnixPMethods_absent _ _ uninit_ok _ ns) by done. rewrite Hid1.
    cbn [mbind option_bind]. rewrite (getServicePath_absent _ uninit_ok _ ns) by done.
    by rewrite (init_idem _ (init_if_null uninit t)). }
  replace (op_method o) with (op_method (op_extend y o)) by (by destruct o as [| | | | |? []| | | | |]).
  apply (handler_no_record _ _ _ _ id id1 (init_if_null uninit t)); [|done|done|].
  { replace (op_method (op_extend y o)) with (op_method o)
      by (by destruct o as [| | | | |? []| | | | |]). apply Hdec. }
  intros id2 (_ & Hh2 & _ & Hz2). unfold ServerWrap.record_fields.
  rewrite Hh2, <- (same_handle_h _ _ Hs1 Hid), Hh. cbn [mbind option_bind].
  unfold setServerUnixPMethods. destruct (uf_pMethods id2) as [m|]; [|done]. cbn [mbind option_bind].
  destruct (AddNode_repr uninit uninit_ok _ _ h m Hr1) as (t2 & ns2 & a & p & Ht2 & Hr2 & _).
  pose proof (AddNode_brk uninit uninit_ok _ _ _ _ _ Hr1 Ht2). rewrite Ht2.
  cbn [mbind option_bind]. rewrite Hz2, Hz1, Hz. cbn [mbind option_bind]. unfold deref_path.
  destruct (heap t2 !! (z - off_path)) as [nd|] eqn:Hnd; [|done].
  apply (repr_heap _ _ Hr2) in Hnd. lia.
Qed.

(** ** File-controls with a string argument *)

(** A file-control whose argument is the address of a string pointer ([VFSNAME],
    [TEMPFILENAME], [GET_LOCKPROXYFILE]) crashes the client when the pointer is
    null, which is what callers pass: the length of the string is taken before
    the call. *)
Theorem remoteFileControl_string_null c id op pArg n :
  ControlType op = 3 -> load_ptr pArg 0 = Some 0 -> deref 0 = None ->
  remoteFileControl rpc remote_methods deref c id op (Some pArg) n = None.
Proof.
  intros Hop Hp Hd. unfold remoteFileControl, LenFileControlPArg. rewrite Hop.
  cbn [Z.eqb Pos.eqb]. rewrite Hp. cbn [mbind option_bind]. by rewrite Hd.
Qed.

End limits.
