(* ===== verification/UnixLock.v ===== *)
(** POSIX advisory locking of the unix VFS (src/sqlite-src-3280000/src/os_unix.c,
    [unixLock], [posixUnlock], [unixClose] and the functions they call).

    The operations are written against one inode, as programs ([prog]) that
    perform [fcntl] and [close] calls and continue with their results, so that
    the calls of different processes can be interleaved.  The [assert]s of the
    source are kept: one that fails ends the program in [Crash].  The threads of
    a process take turns at [pLockMutex]; a function that holds it from its
    first to its last call is one program.  [unixClose] enters it twice, in
    [unixUnlock] and in [unixClose_park], and closes the descriptor without it,
    in [unixClose_finish]: other threads of the process may come in between. *)
From S2P Require Import Prelude.

(** ** Constants (sqlite3.h, os.h, errno.h) *)

Definition SQLITE_OK : Z := 0.
Definition SQLITE_PERM : Z := 3.
Definition SQLITE_BUSY : Z := 5.
Definition SQLITE_NOMEM : Z := 7.
Definition SQLITE_IOERR : Z := 10.
Definition SQLITE_IOERR_UNLOCK : Z := 2058.
Definition SQLITE_IOERR_RDLOCK : Z := 2314.
Definition SQLITE_IOERR_CHECKRESERVEDLOCK : Z := 3594.
Definition SQLITE_IOERR_LOCK : Z := 3850.

Definition NO_LOCK : Z := 0.
Definition SHARED_LOCK : Z := 1.
Definition RESERVED_LOCK : Z := 2.
Definition PENDING_LOCK : Z := 3.
Definition EXCLUSIVE_LOCK : Z := 4.

Definition PENDING_BYTE : Z := 0x40000000.
Definition RESERVED_BYTE : Z := PENDING_BYTE + 1.
Definition SHARED_FIRST : Z := PENDING_BYTE + 2.
Definition SHARED_SIZE : Z := 510.

Definition EPERM : Z := 1.
Definition EINTR : Z := 4.
Definition EAGAIN : Z := 11.
Definition EACCES : Z := 13.
Definition EBUSY : Z := 16.
Definition ENOLCK : Z := 37.
Definition ETIMEDOUT : Z := 110.

Definition UNIXFILE_EXCL : Z := 1.
Definition UNIXFILE_RDONLY : Z := 2.

Create HintDb locks.
#[export] Hint Unfold SQLITE_OK SQLITE_PERM SQLITE_BUSY SQLITE_IOERR SQLITE_IOERR_UNLOCK
  SQLITE_IOERR_RDLOCK SQLITE_IOERR_CHECKRESERVEDLOCK SQLITE_IOERR_LOCK NO_LOCK SHARED_LOCK
  RESERVED_LOCK PENDING_LOCK EXCLUSIVE_LOCK PENDING_BYTE RESERVED_BYTE SHARED_FIRST
  SHARED_SIZE : locks.

(** ** The system calls *)

Inductive ltype := F_RDLCK | F_WRLCK | F_UNLCK.

#[global] Instance ltype_eq_dec : EqDecision ltype.
Proof. solve_decision. Defined.

(** [struct flock] with [l_whence = SEEK_SET]; length 0 reaches to the end. *)
Record flock := mkFlock { l_type : ltype; l_start : Z; l_len : Z }.

Definition in_flock (fl : flock) (b : Z) : bool :=
  (l_start fl <=? b) && ((l_len fl =? 0) || (b <? l_start fl + l_len fl)).

(** A program that makes system calls on the database file. [fcntl] answers 0
    or an errno. *)
Inductive prog (A : Type) :=
  | Ret (a : A)
  | Setlk (fl : flock) (k : Z -> prog A)
  | Getlk (fl : flock) (k : Z -> ltype -> prog A)
  | CloseFd (fd : Z) (k : prog A)
  | Crash.
Arguments Ret {A}. Arguments Setlk {A}. Arguments Getlk {A}. Arguments CloseFd {A}.
Arguments Crash {A}.

Fixpoint pbind {A B} (p : prog A) (f : A -> prog B) : prog B :=
  match p with
  | Ret a => f a
  | Setlk fl k => Setlk fl (fun e => pbind (k e) f)
  | Getlk fl k => Getlk fl (fun e t => pbind (k e t) f)
  | CloseFd fd k => CloseFd fd (pbind k f)
  | Crash => Crash
  end.

#[global] Instance prog_ret : MRet prog := @Ret.
#[global] Instance prog_bind : MBind prog := fun A B f p => pbind p f.

Definition assert {A} (b : bool) (p : prog A) : prog A := if b then p else Crash.

(** ** Data *)

Record unixInodeInfo := mkInode {
  nShared : Z;             (** number of SHARED locks held *)
  nLock : Z;               (** number of outstanding file locks *)
  i_eFileLock : Z;
  bProcessLock : bool;
  pUnused : list Z;        (** descriptors to close *)
  nRef : Z }.

Record unixFile := mkFile {
  h : Z;
  eFileLock : Z;
  ctrlFlags : Z;
  lastErrno : Z;
  pPreallocatedUnused : option Z }.

Definition set_eFileLock (f : unixFile) (e : Z) : unixFile :=
  mkFile (h f) e (ctrlFlags f) (lastErrno f) (pPreallocatedUnused f).
Definition storeLastErrno (f : unixFile) (e : Z) : unixFile :=
  mkFile (h f) (eFileLock f) (ctrlFlags f) e (pPreallocatedUnused f).
Definition set_i_eFileLock (i : unixInodeInfo) (e : Z) : unixInodeInfo :=
  mkInode (nShared i) (nLock i) e (bProcessLock i) (pUnused i) (nRef i).
Definition set_counts (i : unixInodeInfo) (s l : Z) : unixInodeInfo :=
  mkInode s l (i_eFileLock i) (bProcessLock i) (pUnused i) (nRef i).
Definition set_pUnused (i : unixInodeInfo) (l : list Z) : unixInodeInfo :=
  mkInode (nShared i) (nLock i) (i_eFileLock i) (bProcessLock i) l (nRef i).
Definition set_nRef (i : unixInodeInfo) (n : Z) : unixInodeInfo :=
  mkInode (nShared i) (nLock i) (i_eFileLock i) (bProcessLock i) (pUnused i) n.

(** ** Operations *)

Definition sqliteErrorFromPosixError (posixError sqliteIOErr : Z) : Z :=
  if (posixError =? EACCES) || (posixError =? EAGAIN) || (posixError =? ETIMEDOUT)
     || (posixError =? EBUSY) || (posixError =? EINTR) || (posixError =? ENOLCK)
  then SQLITE_BUSY
  else if posixError =? EPERM then SQLITE_PERM
  else sqliteIOErr.

(** The value is the errno of the failed [fcntl], 0 when none failed. *)
Definition unixFileLock (pFile : unixFile) (pInode : unixInodeInfo) (pLock : flock)
    : prog (Z * unixInodeInfo) :=
  if Z.land (ctrlFlags pFile) (Z.lor UNIXFILE_EXCL UNIXFILE_RDONLY) =? UNIXFILE_EXCL then
    if negb (bProcessLock pInode) then
      assert (nLock pInode =? 0)
        (Setlk (mkFlock F_WRLCK SHARED_FIRST SHARED_SIZE) (fun rc =>
           if rc =? 0 then
             mret (0, mkInode (nShared pInode) (nLock pInode + 1) (i_eFileLock pInode) true
                        (pUnused pInode) (nRef pInode))
           else mret (rc, pInode)))
    else mret (0, pInode)
  else Setlk pLock (fun rc => mret (rc, pInode)).

Definition unixCheckReservedLock (pFile : unixFile) (pInode : unixInodeInfo)
    : prog (Z * bool * unixFile) :=
  assert (eFileLock pFile <=? SHARED_LOCK)
    (let reserved := SHARED_LOCK <? i_eFileLock pInode in
     if negb reserved && negb (bProcessLock pInode) then
       Getlk (mkFlock F_WRLCK RESERVED_BYTE 1) (fun rc t =>
         if negb (rc =? 0) then mret (SQLITE_IOERR_CHECKRESERVEDLOCK, reserved, storeLastErrno pFile rc)
         else mret (SQLITE_OK, bool_decide (t <> F_UNLCK), pFile))
     else mret (SQLITE_OK, reserved, pFile)).

(** The error exit of a failed lock call. *)
Definition lock_error (pFile : unixFile) (rc tErrno : Z) : unixFile :=
  if rc =? SQLITE_BUSY then pFile else storeLastErrno pFile tErrno.

(** The assignments before [end_lock:]. *)
Definition unixLock_finish (pFile : unixFile) (pInode : unixInodeInfo) (eFileLock rc : Z)
    : Z * unixFile * unixInodeInfo :=
  if rc =? SQLITE_OK then
    (rc, set_eFileLock pFile eFileLock, set_i_eFileLock pInode eFileLock)
  else if eFileLock =? EXCLUSIVE_LOCK then
    (rc, set_eFileLock pFile PENDING_LOCK, set_i_eFileLock pInode PENDING_LOCK)
  else (rc, pFile, pInode).

(** The part of [unixLock] that asks for a SHARED lock, after the PENDING byte is
    read-locked. *)
Definition unixLock_shared (pFile : unixFile) (pInode : unixInodeInfo)
    : prog (Z * unixFile * unixInodeInfo) :=
  assert ((nShared pInode =? 0) && (i_eFileLock pInode =? 0))
    ('(e1, pInode) ← unixFileLock pFile pInode (mkFlock F_RDLCK SHARED_FIRST SHARED_SIZE);
     let rc := if e1 =? 0 then SQLITE_OK else sqliteErrorFromPosixError e1 SQLITE_IOERR_LOCK in
     '(e2, pInode) ← unixFileLock pFile pInode (mkFlock F_UNLCK PENDING_BYTE 1);
     let '(tErrno, rc) :=
       if negb (e2 =? 0) && (rc =? SQLITE_OK) then (e2, SQLITE_IOERR_UNLOCK) else (e1, rc) in
     if negb (rc =? 0) then mret (rc, lock_error pFile rc tErrno, pInode)
     else
       mret (unixLock_finish (set_eFileLock pFile SHARED_LOCK)
               (set_counts pInode 1 (nLock pInode + 1)) SHARED_LOCK rc)).

(** The part that asks for a RESERVED or an EXCLUSIVE lock. *)
Definition unixLock_write (pFile : unixFile) (pInode : unixInodeInfo) (lk : Z)
    : prog (Z * unixFile * unixInodeInfo) :=
  if (lk =? EXCLUSIVE_LOCK) && (1 <? nShared pInode) then
    mret (unixLock_finish pFile pInode lk SQLITE_BUSY)
  else
    assert (negb (0 =? eFileLock pFile))
      (assert ((lk =? RESERVED_LOCK) || (lk =? EXCLUSIVE_LOCK))
         ('(e, pInode) ← unixFileLock pFile pInode
            (if lk =? RESERVED_LOCK then mkFlock F_WRLCK RESERVED_BYTE 1
             else mkFlock F_WRLCK SHARED_FIRST SHARED_SIZE);
          if negb (e =? 0) then
            let rc := sqliteErrorFromPosixError e SQLITE_IOERR_LOCK in
            mret (unixLock_finish (lock_error pFile rc e) pInode lk rc)
          else mret (unixLock_finish pFile pInode lk SQLITE_OK))).

Definition unixLock (pFile : unixFile) (pInode : unixInodeInfo) (lk : Z)
    : prog (Z * unixFile * unixInodeInfo) :=
  if lk <=? eFileLock pFile then mret (SQLITE_OK, pFile, pInode) else
  assert (negb (eFileLock pFile =? NO_LOCK) || (lk =? SHARED_LOCK))
   (assert (negb (lk =? PENDING_LOCK))
    (assert (negb (lk =? RESERVED_LOCK) || (eFileLock pFile =? SHARED_LOCK))
     (if negb (eFileLock pFile =? i_eFileLock pInode)
         && ((PENDING_LOCK <=? i_eFileLock pInode) || (SHARED_LOCK <? lk)) then
        mret (SQLITE_BUSY, pFile, pInode)
      else if (lk =? SHARED_LOCK)
         && ((i_eFileLock pInode =? SHARED_LOCK) || (i_eFileLock pInode =? RESERVED_LOCK)) then
        assert (eFileLock pFile =? 0) (assert (0 <? nShared pInode)
          (mret (SQLITE_OK, set_eFileLock pFile SHARED_LOCK,
                 set_counts pInode (nShared pInode + 1) (nLock pInode + 1))))
      else
        '(e, pInode) ←
          (if (lk =? SHARED_LOCK) || ((lk =? EXCLUSIVE_LOCK) && (eFileLock pFile <? PENDING_LOCK))
           then unixFileLock pFile pInode
                  (mkFlock (if lk =? SHARED_LOCK then F_RDLCK else F_WRLCK) PENDING_BYTE 1)
           else mret (0, pInode));
        if negb (e =? 0) then
          let rc := sqliteErrorFromPosixError e SQLITE_IOERR_LOCK in
          mret (rc, lock_error pFile rc e, pInode)
        else if lk =? SHARED_LOCK then unixLock_shared pFile pInode
        else unixLock_write pFile pInode lk))).

(** [closePendingFds] *)
Fixpoint close_fds (fds : list Z) : prog unit :=
  match fds with
  | [] => mret tt
  | fd :: fds => CloseFd fd (close_fds fds)
  end.

Definition closePendingFds (pInode : unixInodeInfo) : prog unixInodeInfo :=
  _ ← close_fds (pUnused pInode); mret (set_pUnused pInode []).

Definition setPendingFd (pFile : unixFile) (pInode : unixInodeInfo)
    : prog (unixFile * unixInodeInfo) :=
  match pPreallocatedUnused pFile with
  | None => Crash
  | Some fd =>
      mret (mkFile (-1) (eFileLock pFile) (ctrlFlags pFile) (lastErrno pFile) None,
            set_pUnused pInode (fd :: pUnused pInode))
  end.

(** The first half of [posixUnlock], for a lock above SHARED: the value is [rc]. *)
Definition posixUnlock_lower (pFile : unixFile) (pInode : unixInodeInfo) (lk : Z)
    : prog (Z * unixFile * unixInodeInfo) :=
  assert (i_eFileLock pInode =? eFileLock pFile)
   ('(e1, pInode) ←
      (if lk =? SHARED_LOCK then unixFileLock pFile pInode (mkFlock F_RDLCK SHARED_FIRST SHARED_SIZE)
       else mret (0, pInode));
    if negb (e1 =? 0) then mret (SQLITE_IOERR_RDLOCK, storeLastErrno pFile e1, pInode)
    else
      '(e2, pInode) ← unixFileLock pFile pInode (mkFlock F_UNLCK PENDING_BYTE 2);
      if e2 =? 0 then mret (SQLITE_OK, pFile, set_i_eFileLock pInode SHARED_LOCK)
      else mret (SQLITE_IOERR_UNLOCK, storeLastErrno pFile e2, pInode)).

(** The second half, which gives up the SHARED lock. *)
Definition posixUnlock_release (pFile : unixFile) (pInode : unixInodeInfo)
    : prog (Z * unixFile * unixInodeInfo) :=
  let pInode := set_counts pInode (nShared pInode - 1) (nLock pInode) in
  '(rc, pFile, pInode) ←
    (if nShared pInode =? 0 then
       '(e, pInode) ← unixFileLock pFile pInode (mkFlock F_UNLCK 0 0);
       if e =? 0 then mret (SQLITE_OK, pFile, set_i_eFileLock pInode NO_LOCK)
       else mret (SQLITE_IOERR_UNLOCK, set_eFileLock (storeLastErrno pFile e) NO_LOCK,
                  set_i_eFileLock pInode NO_LOCK)
     else mret (SQLITE_OK, pFile, pInode));
  let pInode := set_counts pInode (nShared pInode) (nLock pInode - 1) in
  assert (0 <=? nLock pInode)
   (pInode ← (if nLock pInode =? 0 then closePendingFds pInode else mret pInode);
    mret (rc, pFile, pInode)).

Definition posixUnlock (pFile : unixFile) (pInode : unixInodeInfo) (lk : Z)
    : prog (Z * unixFile * unixInodeInfo) :=
  assert (lk <=? SHARED_LOCK)
   (if eFileLock pFile <=? lk then mret (SQLITE_OK, pFile, pInode) else
    assert (negb (nShared pInode =? 0))
     ('(rc, pFile, pInode) ←
        (if SHARED_LOCK <? eFileLock pFile then posixUnlock_lower pFile pInode lk
         else mret (SQLITE_OK, pFile, pInode));
      if negb (rc =? SQLITE_OK) then mret (rc, pFile, pInode) else
      '(rc, pFile, pInode) ←
        (if lk =? NO_LOCK then posixUnlock_release pFile pInode
         else mret (SQLITE_OK, pFile, pInode));
      mret (rc, if rc =? SQLITE_OK then set_eFileLock pFile lk else pFile, pInode))).

(** The condition on outstanding fetches is checked by the caller's object, see
    [UnixIO]; here only the lock is lowered. *)
Definition unixUnlock := posixUnlock.

(** Closing the descriptor and clearing the object; the mapping is not modelled
    here. *)
Definition closeUnixFile (pFile : unixFile) : prog Z :=
  if 0 <=? h pFile then CloseFd (h pFile) (mret SQLITE_OK) else mret SQLITE_OK.

(** The inode is freed, [None], with its last file. *)
Definition releaseInodeInfo (pInode : unixInodeInfo) : prog (option unixInodeInfo) :=
  let pInode := set_nRef pInode (nRef pInode - 1) in
  if nRef pInode =? 0 then _ ← closePendingFds pInode; mret None
  else mret (Some pInode).

(** [osFstat] answers [rc]; on success the inode of the file is the one the search
    of [inodeList] found, if any, or a new one, when the allocations succeed. *)
Definition findInodeInfo (rc : Z) (alloc : bool) (found : option unixInodeInfo)
    : Z * option unixInodeInfo :=
  if negb (rc =? 0) then (SQLITE_IOERR, found)
  else match found with
       | None =>
           if alloc then (SQLITE_OK, Some (mkInode 0 0 NO_LOCK false [] 1)) else (SQLITE_NOMEM, None)
       | Some i => (SQLITE_OK, Some (set_nRef i (nRef i + 1)))
       end.

(** The second critical section of [unixClose]: if the process has locks, the
    descriptor is put on the list of the inode instead of being closed.  The
    [assert] stands before [pLockMutex] is entered. *)
Definition unixClose_park (pFile : unixFile) (pInode : unixInodeInfo)
    : prog (unixFile * unixInodeInfo) :=
  assert ((0 <? nLock pInode) || negb (bProcessLock pInode))
   (if negb (nLock pInode =? 0) then setPendingFd pFile pInode else mret (pFile, pInode)).

(** The rest, after [pLockMutex] is left. *)
Definition unixClose_finish (pFile : unixFile) (pInode : unixInodeInfo)
    : prog (Z * option unixInodeInfo) :=
  inode ← releaseInodeInfo pInode;
  rc ← closeUnixFile pFile;
  mret (rc, inode).

Definition unixClose (pFile : unixFile) (pInode : unixInodeInfo)
    : prog (Z * option unixInodeInfo) :=
  '(_, pFile, pInode) ← unixUnlock pFile pInode NO_LOCK;
  '(pFile, pInode) ← unixClose_park pFile pInode;
  unixClose_finish pFile pInode.

(** ** No-op locking *)

Definition nolockCheckReservedLock (NotUsed : unixFile) : Z * Z := (SQLITE_OK, 0).
Definition nolockLock (NotUsed : unixFile) (NotUsed2 : Z) : Z := SQLITE_OK.
Definition nolockUnlock (NotUsed : unixFile) (NotUsed2 : Z) : Z := SQLITE_OK.
Definition nolockClose (id : unixFile) : prog Z := closeUnixFile id.
