(* ===== verification/LockInvariant.v ===== *)
(** The invariant of a process's locks on one database file, and that every
    locking operation of [UnixLock] keeps it, whatever other processes do between
    its system calls.

    [wp p Q h]: the program [p], started with the locks [h] of its process in
    the kernel, does not crash and ends in [Q], for every outcome of its calls.
    [wf] relates the inode to the file handles, [backs] relates it to [h]. *)
From S2P Require Import Prelude UnixLock.

(** ** Locks of a process *)

(** The lock a process holds on each byte, [F_UNLCK] for none. *)
Definition held := Z -> ltype.

Definition apply_lk (hd : held) (fl : flock) : held :=
  fun b => if in_flock fl b then l_type fl else hd b.

Definition no_locks : held := fun _ => F_UNLCK.

Definition held_eq (hd hd' : held) : Prop := forall b, hd b = hd' b.

#[global] Instance held_eq_equiv : Equivalence held_eq.
Proof. split; [done|by intros ?? H b; rewrite H|intros ??? H1 H2 b; by rewrite H1]. Qed.

#[global] Instance apply_lk_proper : Proper (held_eq ==> eq ==> held_eq) apply_lk.
Proof. intros hd hd' He fl ? <- b. unfold apply_lk. by rewrite He. Qed.

Definition shared_range (b : Z) : Prop := SHARED_FIRST <= b < SHARED_FIRST + SHARED_SIZE.

(** What a process knows of its locks: those it holds, and a ghost component
    that only the proofs update: whether it is alone on the shared range.  It
    becomes so when it is granted a write lock on the range while it has one on
    the PENDING byte, and stays so, also when it then only reads the range,
    until it releases a lock. *)
Record view := mkView { v_held :> Z -> ltype; v_sole : bool }.

Definition on_shared_range (fl : flock) : bool :=
  (l_start fl =? SHARED_FIRST) && (l_len fl =? SHARED_SIZE).

Definition sole_after (v : view) (fl : flock) : bool :=
  match l_type fl with
  | F_WRLCK => v_sole v || on_shared_range fl && bool_decide (v PENDING_BYTE = F_WRLCK)
  | F_RDLCK => v_sole v && on_shared_range fl
  | F_UNLCK => false
  end.

Definition granted (v : view) (fl : flock) : view := mkView (apply_lk v fl) (sole_after v fl).

Definition closed : view := mkView no_locks false.

Definition view_eq (v v' : view) : Prop := held_eq v v' /\ v_sole v = v_sole v'.

(** The order of the protocol: a read lock on the shared range is asked for with
    a lock on the PENDING byte, unless the range is locked already. *)
Definition disciplined (v : view) (fl : flock) : Prop :=
  l_type fl = F_RDLCK -> forall b, in_flock fl b = true -> shared_range b ->
    v PENDING_BYTE <> F_UNLCK \/ v b <> F_UNLCK.

(** Every call that sets or releases a lock may fail, and then changes nothing;
    closing a descriptor of the file drops all locks of the process on it. *)
Fixpoint wp {A} (p : prog A) (Q : A -> view -> Prop) (v : view) : Prop :=
  match p with
  | Ret a => Q a v
  | Setlk fl k =>
      disciplined v fl /\ wp (k 0) Q (granted v fl) /\ forall e, e <> 0 -> wp (k e) Q v
  | Getlk fl k => forall e t, wp (k e t) Q v
  | CloseFd fd k => wp k Q closed
  | Crash => False
  end.

Lemma granted_proper v v' fl : view_eq v v' -> view_eq (granted v fl) (granted v' fl).
Proof.
  intros [He Hs]. split; cbn.
  - intros b. unfold apply_lk. by rewrite He.
  - unfold sole_after. by rewrite Hs, He.
Qed.

Lemma wp_bind {A B} (p : prog A) (f : A -> prog B) Q hd :
  wp p (fun a hd => wp (f a) Q hd) hd -> wp (p ≫= f) Q hd.
Proof.
  revert hd. induction p as [a|fl k IH|fl k IH|fd k IH|]; intros hd; cbn; try done.
  - intros (Hd & H0 & He). split_and!; [done|by apply IH|]. intros. apply IH. by apply He.
  - intros H e t. by apply IH.
  - apply IH.
Qed.

Lemma wp_mono {A} (p : prog A) (Q Q' : A -> view -> Prop) hd :
  (forall a hd, Q a hd -> Q' a hd) -> wp p Q hd -> wp p Q' hd.
Proof.
  intros HQ. revert hd. induction p as [a|fl k IH|fl k IH|fd k IH|]; intros hd; cbn; auto.
  intros (Hd & H0 & He). split_and!; [done|by apply IH|]. intros. apply IH. by apply He.
Qed.

Lemma wp_view_eq {A} (p : prog A) (Q : A -> view -> Prop) hd hd' :
  (forall a hd hd', view_eq hd hd' -> Q a hd -> Q a hd') ->
  view_eq hd hd' -> wp p Q hd -> wp p Q hd'.
Proof.
  intros HQ. revert hd hd'. induction p as [a|fl k IH|fl k IH|fd k IH|]; intros hd hd' He; cbn; eauto.
  intros (Hd & H0 & H1). split_and!.
  - intros Ht b Hb Hr. rewrite <- !(proj1 He). by apply Hd.
  - eapply IH; [|exact H0]. by apply granted_proper.
  - intros. eapply IH; eauto.
Qed.

Lemma wp_assert {A} (b : bool) (p : prog A) Q hd : b = true -> wp p Q hd -> wp (assert b p) Q hd.
Proof. by intros ->. Qed.

(** ** The invariant *)

Definition excl_mode (f : unixFile) : bool :=
  Z.land (ctrlFlags f) (Z.lor UNIXFILE_EXCL UNIXFILE_RDONLY) =? UNIXFILE_EXCL.

(** The number of open handles, and of those with a SHARED lock or more. *)
Definition weight (o : option unixFile) : Z :=
  match o with Some f => if SHARED_LOCK <=? eFileLock f then 1 else 0 | None => 0 end.

Fixpoint lock_count (fs : list (option unixFile)) : Z :=
  match fs with [] => 0 | o :: fs => weight o + lock_count fs end.

Definition opened (o : option unixFile) : Z := match o with Some _ => 1 | None => 0 end.

Fixpoint open_count (fs : list (option unixFile)) : Z :=
  match fs with [] => 0 | o :: fs => opened o + open_count fs end.

Record wf (md : bool) (i : unixInodeInfo) (fs : list (option unixFile)) : Prop := {
  wf_level j g : fs !! j = Some (Some g) ->
    NO_LOCK <= eFileLock g <= i_eFileLock i /\
    (SHARED_LOCK < eFileLock g -> eFileLock g = i_eFileLock i);
  wf_unique j k g g' : fs !! j = Some (Some g) -> fs !! k = Some (Some g') ->
    SHARED_LOCK < eFileLock g -> SHARED_LOCK < eFileLock g' -> j = k;
  wf_file j g : fs !! j = Some (Some g) ->
    excl_mode g = md /\ is_Some (pPreallocatedUnused g);
  wf_range : NO_LOCK <= i_eFileLock i <= EXCLUSIVE_LOCK;
  wf_count : lock_count fs <= nShared i;
  wf_nLock : nLock i = nShared i + if bProcessLock i then 1 else 0;
  wf_no : i_eFileLock i = NO_LOCK <-> nShared i = 0;
  wf_excl : i_eFileLock i = EXCLUSIVE_LOCK -> nShared i = 1;
  wf_mode : md = false -> bProcessLock i = false;
  wf_process : md = true -> SHARED_LOCK <= i_eFileLock i -> bProcessLock i = true }.

(** The kernel's locks justify the level of the inode.  An EXCLUSIVE lock may be
    left with read locks on the shared range only, when the release of the
    PENDING and RESERVED bytes was refused; the process is alone on it still. *)
Definition backs (i : unixInodeInfo) (hd : view) : Prop :=
  if bProcessLock i then forall b, shared_range b -> hd b = F_WRLCK
  else
    (SHARED_LOCK <= i_eFileLock i -> forall b, shared_range b -> hd b <> F_UNLCK) /\
    (i_eFileLock i = RESERVED_LOCK -> hd RESERVED_BYTE = F_WRLCK) /\
    (PENDING_LOCK <= i_eFileLock i -> hd PENDING_BYTE = F_WRLCK) /\
    (i_eFileLock i = EXCLUSIVE_LOCK -> v_sole hd = true).

Lemma backs_proper i hd hd' : view_eq hd hd' -> backs i hd -> backs i hd'.
Proof.
  intros [He Hs]. unfold backs. case_bool.
  - intros H b Hb. rewrite <- He. auto.
  - intros (H1 & H2 & H3 & H4). rewrite <- !He, <- Hs. split_and!; auto; intros; rewrite <- He; auto.
Qed.

Lemma lock_count_nonneg fs : 0 <= lock_count fs.
Proof. induction fs as [|[f|] fs IH]; cbn; [lia| |lia]. case_bool; lia. Qed.

Lemma lock_count_insert fs j o o' :
  fs !! j = Some o -> lock_count (<[j := o']> fs) = lock_count fs - weight o + weight o'.
Proof.
  revert j. induction fs as [|x fs IH]; intros [|j]; cbn [lookup list_lookup insert list_insert lock_count];
    try done.
  - intros [= ->]. cbn. lia.
  - intros H. cbn. rewrite IH by done. lia.
Qed.

Lemma open_count_insert fs j o o' :
  fs !! j = Some o -> open_count (<[j := o']> fs) = open_count fs - opened o + opened o'.
Proof.
  revert j. induction fs as [|x fs IH]; intros [|j]; cbn [lookup list_lookup insert list_insert open_count];
    try done.
  - intros [= ->]. cbn. lia.
  - intros H. cbn. rewrite IH by done. lia.
Qed.

(** A handle with a lock is counted. *)
Lemma lock_count_pos fs j f :
  fs !! j = Some (Some f) -> SHARED_LOCK <= eFileLock f -> 1 <= lock_count fs.
Proof.
  intros Hj Hf. pose proof (lock_count_insert fs j (Some f) None Hj) as H.
  pose proof (lock_count_nonneg (<[j := None]> fs)). unfold weight in H.
  rewrite (proj2 (Z.leb_le _ _)) in H by done. lia.
Qed.

Lemma lock_count_two fs j k f g :
  j <> k -> fs !! j = Some (Some f) -> fs !! k = Some (Some g) ->
  SHARED_LOCK <= eFileLock f -> SHARED_LOCK <= eFileLock g -> 2 <= lock_count fs.
Proof.
  intros Hne Hj Hk Hf Hg. pose proof (lock_count_insert fs j (Some f) None Hj) as H.
  assert (H2 : 1 <= lock_count (<[j := None]> fs)).
  { eapply (lock_count_pos _ k); [|exact Hg]. by rewrite list_lookup_insert_ne. }
  unfold weight in H. rewrite (proj2 (Z.leb_le _ _)) in H by done. lia.
Qed.

(** ** One handle at a time *)

(** What the operations on handle [f] may assume of the inode. *)
Record local (md : bool) (i : unixInodeInfo) (f : unixFile) : Prop := {
  lc_level : NO_LOCK <= eFileLock f <= i_eFileLock i;
  lc_owner : SHARED_LOCK < eFileLock f -> eFileLock f = i_eFileLock i;
  lc_mode : excl_mode f = md;
  lc_unused : is_Some (pPreallocatedUnused f);
  lc_range : i_eFileLock i <= EXCLUSIVE_LOCK;
  lc_shared : (if SHARED_LOCK <=? eFileLock f then 1 else 0) <= nShared i;
  lc_nLock : nLock i = nShared i + if bProcessLock i then 1 else 0;
  lc_no : i_eFileLock i = NO_LOCK <-> nShared i = 0;
  lc_excl : i_eFileLock i = EXCLUSIVE_LOCK -> nShared i = 1;
  lc_unlocked : md = false -> bProcessLock i = false;
  lc_process : md = true -> SHARED_LOCK <= i_eFileLock i -> bProcessLock i = true }.

Lemma wf_local md i fs j f : wf md i fs -> fs !! j = Some (Some f) -> local md i f.
Proof.
  intros H Hj. destruct (wf_level _ _ _ H j f Hj), (wf_file _ _ _ H j f Hj).
  destruct (wf_range _ _ _ H). split; try done; try apply H.
  etrans; [|apply (wf_count _ _ _ H)]. case_bool; bool_to_prop.
  - by apply (lock_count_pos fs j f).
  - apply lock_count_nonneg.
Qed.

(** A change of handle [j] and of the inode that the other handles tolerate. *)
Lemma wf_change md i fs j f i' f' :
  wf md i fs -> fs !! j = Some (Some f) -> local md i' f' ->
  nShared i' = nShared i - weight (Some f) + weight (Some f') ->
  (forall k g, k <> j -> fs !! k = Some (Some g) ->
    eFileLock g <= i_eFileLock i' /\
    (SHARED_LOCK < eFileLock g -> eFileLock g = i_eFileLock i' /\ eFileLock f' <= SHARED_LOCK)) ->
  wf md i' (<[j := Some f']> fs).
Proof.
  intros H Hj L Hs Ho. assert (Hlt : (j < length fs)%nat) by (by eapply lookup_lt_Some).
  assert (Hcase : forall k g, <[j := Some f']> fs !! k = Some (Some g) ->
      k = j /\ g = f' \/ k <> j /\ fs !! k = Some (Some g)).
  { intros k g. destruct (decide (k = j)) as [->|Hne].
    - rewrite list_lookup_insert_eq by done. intros [= <-]. by left.
    - rewrite list_lookup_insert_ne by done. by right. }
  split.
  - intros k g [[-> ->]|[Hk Hg]]%Hcase; [split; apply L|].
    destruct (Ho k g Hk Hg) as [? Hgt]. destruct (wf_level _ _ _ H k g Hg) as [? _].
    split; [lia|]. intros ?. by apply Hgt.
  - intros k l g g' [[-> ->]|[Hk Hg]]%Hcase [[-> ->]|[Hl Hg']]%Hcase Hs1 Hs2; [done| | |].
    + destruct (Ho l g' Hl Hg') as [_ Hgt]. destruct (Hgt Hs2). lia.
    + destruct (Ho k g Hk Hg) as [_ Hgt]. destruct (Hgt Hs1). lia.
    + by apply (wf_unique _ _ _ H k l g g').
  - intros k g [[-> ->]|[Hk Hg]]%Hcase; [split; apply L|by apply (wf_file _ _ _ H k)].
  - pose proof (lc_level _ _ _ L). pose proof (lc_range _ _ _ L). lia.
  - rewrite (lock_count_insert _ _ _ _ Hj). pose proof (wf_count _ _ _ H). lia.
  - apply L.
  - apply L.
  - apply L.
  - apply L.
  - apply L.
Qed.

(** The outcome of a call through [unixFileLock]. *)
Lemma wp_unixFileLock md i f fl (Q : Z * unixInodeInfo -> view -> Prop) hd :
  excl_mode f = md -> (md = false -> bProcessLock i = false) ->
  (md = true -> bProcessLock i = false -> nLock i = 0) ->
  (md = false -> disciplined hd fl /\ Q (0, i) (granted hd fl) /\
    forall e, e <> 0 -> Q (e, i) hd) ->
  (md = true -> bProcessLock i = true -> Q (0, i) hd) ->
  (md = true -> bProcessLock i = false ->
    Q (0, mkInode (nShared i) (nLock i + 1) (i_eFileLock i) true (pUnused i) (nRef i))
      (granted hd (mkFlock F_WRLCK SHARED_FIRST SHARED_SIZE)) /\
    forall e, e <> 0 -> Q (e, i) hd) ->
  wp (unixFileLock f i fl) Q hd.
Proof.
  intros Hm Hb Hn Hf Ht Ht'. unfold unixFileLock. change (Z.land _ _ =? _) with (excl_mode f).
  rewrite Hm. destruct md; [|by apply Hf]. destruct (bProcessLock i) eqn:Hp; cbn [negb].
  - by apply Ht.
  - rewrite (Hn eq_refl eq_refl). cbn. destruct (Ht' eq_refl eq_refl) as [H0 He].
    split; [done|]. split; [by rewrite (Hn eq_refl eq_refl) in H0|].
    intros e Hne. rewrite (proj2 (Z.eqb_neq e 0)) by done. by apply He.
Qed.

(** What one operation on a handle may do to the inode and to the handle. *)
Record trans (md : bool) (i : unixInodeInfo) (f : unixFile) (i' : unixInodeInfo) (f' : unixFile)
    : Prop := {
  tr_local : local md i' f';
  tr_nRef : nRef i' = nRef i;
  tr_shared : nShared i' = nShared i - weight (Some f) + weight (Some f');
  tr_level :
    (i_eFileLock i' = i_eFileLock i /\ (eFileLock f' = eFileLock f \/ eFileLock f' <= SHARED_LOCK)) \/
    (eFileLock f = i_eFileLock i /\ i_eFileLock i <= i_eFileLock i') \/
    (SHARED_LOCK < eFileLock f /\ SHARED_LOCK <= i_eFileLock i') \/
    nShared i' = 0 }.

Lemma wf_trans md i fs j f i' f' :
  wf md i fs -> fs !! j = Some (Some f) -> trans md i f i' f' -> wf md i' (<[j := Some f']> fs).
Proof.
  intros H Hj [L Hn Hs Ht]. apply (wf_change _ i _ _ f); try done.
  intros k g Hk Hg. destruct (wf_level _ _ _ H k g Hg) as [Hl Hgt].
  destruct (wf_level _ _ _ H j f Hj) as [Hlf Hgtf].
  assert (Hu : SHARED_LOCK < eFileLock g -> eFileLock f <= SHARED_LOCK).
  { intros Hs1. destruct (Z.le_gt_cases (eFileLock f) SHARED_LOCK) as [|Hs2]; [done|].
    destruct Hk. by apply (wf_unique _ _ _ H k j g f); [..|lia]. }
  destruct Ht as [[He Hef]|[[He Hle]|[[He Hle]|H0]]].
  - rewrite He. split; [lia|]. intros Hs1. specialize (Hu Hs1). split; [auto|lia].
  - split; [lia|]. intros Hs1. specialize (Hu Hs1). specialize (Hgt Hs1). lia.
  - assert (eFileLock g <= SHARED_LOCK) by (destruct (Z.le_gt_cases (eFileLock g) SHARED_LOCK); [done|lia]).
    split; [lia|]. lia.
  - assert (eFileLock g < SHARED_LOCK).
    { destruct (Z.lt_ge_cases (eFileLock g) SHARED_LOCK) as [|Hge]; [done|].
      pose proof (lock_count_insert fs j _ (Some f') Hj) as Hc. pose proof (wf_count _ _ _ H) as Hn2.
      pose proof (lock_count_pos (<[j := Some f']> fs) k g) as Hp.
      rewrite list_lookup_insert_ne in Hp by done. specialize (Hp Hg Hge). lia. }
    pose proof (lc_level _ _ _ L). unfold SHARED_LOCK, NO_LOCK in *. lia.
Qed.

(** ** Arithmetic of the lock bytes *)

Lemma apply_in hd t s l b : s <= b < s + l -> apply_lk hd (mkFlock t s l) b = t.
Proof.
  intros Hb. unfold apply_lk, in_flock. cbn. rewrite (proj2 (Z.leb_le s b)) by lia.
  rewrite (proj2 (Z.ltb_lt b (s + l))) by lia. by rewrite orb_true_r.
Qed.

Lemma apply_out hd t s l b : 0 < l -> ~ (s <= b < s + l) -> apply_lk hd (mkFlock t s l) b = hd b.
Proof.
  intros Hl Hb. unfold apply_lk, in_flock. cbn. rewrite (proj2 (Z.eqb_neq l 0)) by lia.
  destruct (s <=? b) eqn:?; cbn; [|done]. rewrite (proj2 (Z.ltb_ge b (s + l))); [done|].
  bool_to_prop. lia.
Qed.

Ltac lk_arith :=
  unfold shared_range in *; autounfold with locks in *; lia.

(** Simplify the lock of a byte after calls. *)
Ltac lk_simpl :=
  repeat first
    [ rewrite apply_in by lk_arith | rewrite apply_out by lk_arith ].

(** Setting the level by hand. *)
Lemma local_set md i f : local md i f -> set_eFileLock f (eFileLock f) = f.
Proof. by destruct f. Qed.

(** ** [unixLock] *)

Lemma posix_error_nonzero e d : d <> 0 -> sqliteErrorFromPosixError e d <> SQLITE_OK.
Proof. unfold sqliteErrorFromPosixError, SQLITE_BUSY, SQLITE_PERM, SQLITE_OK. intros. repeat case_bool; lia. Qed.

(** Requests the pager makes: what the [assert]s of [unixLock] demand. *)
Definition legal_lock (f : unixFile) (lk : Z) : Prop :=
  (lk = SHARED_LOCK \/ lk = RESERVED_LOCK /\ SHARED_LOCK <= eFileLock f \/
   lk = EXCLUSIVE_LOCK /\ SHARED_LOCK <= eFileLock f).

(** What [unixLock] tells its caller. *)
Definition lock_outcome (f : unixFile) (lk rc : Z) (f' : unixFile) : Prop :=
  if rc =? SQLITE_OK then eFileLock f' = Z.max lk (eFileLock f)
  else eFileLock f' = eFileLock f \/ lk = EXCLUSIVE_LOCK /\ eFileLock f' = PENDING_LOCK.

Definition lock_post md i f lk (r : Z * unixFile * unixInodeInfo) (hd : view) : Prop :=
  let '(rc, f', i') := r in trans md i f i' f' /\ backs i' hd /\ lock_outcome f lk rc f'.

Lemma lock_error_eq f rc e :
  eFileLock (lock_error f rc e) = eFileLock f /\ excl_mode (lock_error f rc e) = excl_mode f /\
  pPreallocatedUnused (lock_error f rc e) = pPreallocatedUnused f.
Proof. unfold lock_error. by case_bool. Qed.

Lemma local_same md i f f' :
  eFileLock f' = eFileLock f -> excl_mode f' = excl_mode f ->
  pPreallocatedUnused f' = pPreallocatedUnused f -> local md i f -> local md i f'.
Proof. intros He Hm Hp []. split; rewrite ?He, ?Hm, ?Hp; done. Qed.

Lemma trans_same md i f f' :
  eFileLock f' = eFileLock f -> excl_mode f' = excl_mode f ->
  pPreallocatedUnused f' = pPreallocatedUnused f -> local md i f -> trans md i f i f'.
Proof.
  intros He Hm Hp L. split; [by apply (local_same _ _ f)|done| |left; rewrite He; tauto].
  unfold weight. rewrite He. lia.
Qed.

Lemma trans_error md i f rc e : local md i f -> trans md i f i (lock_error f rc e).
Proof. intros. destruct (lock_error_eq f rc e) as (? & ? & ?). by apply trans_same. Qed.

Lemma lock_post_error md i f lk rc e hd :
  local md i f -> backs i hd -> rc <> SQLITE_OK ->
  lock_post md i f lk (rc, lock_error f rc e, i) hd.
Proof.
  intros L B Hrc. split; [by apply trans_error|]. split; [done|].
  unfold lock_outcome. rewrite (proj2 (Z.eqb_neq _ _)) by done. left. apply lock_error_eq.
Qed.

(** The file after the process-wide lock of unix-excl has been taken. *)
Lemma local_process md i f :
  local md i f -> md = true -> bProcessLock i = false -> 
  local md (mkInode (nShared i) (nLock i + 1) (i_eFileLock i) true (pUnused i) (nRef i)) f.
Proof. intros [] -> Hb. split; cbn; try done. rewrite Hb in *. lia. Qed.

(** Field projections after the setters. *)
Ltac lk_cbn :=
  cbn [eFileLock h ctrlFlags lastErrno pPreallocatedUnused set_eFileLock storeLastErrno
    nShared nLock i_eFileLock bProcessLock pUnused nRef set_i_eFileLock set_counts set_pUnused
    set_nRef weight] in *.

(** Decide the level tests that remain, then the arithmetic. *)
Ltac lk_fin := repeat case_bool; bool_to_prop; lk_arith.

Lemma trans_join md i f :
  local md i f -> eFileLock f = NO_LOCK -> i_eFileLock i = SHARED_LOCK \/ i_eFileLock i = RESERVED_LOCK ->
  trans md i f (set_counts i (nShared i + 1) (nLock i + 1)) (set_eFileLock f SHARED_LOCK).
Proof.
  intros L Hf Hi. destruct L. split; [split|..]; lk_cbn; try done; try lk_arith; lk_fin.
Qed.

Lemma trans_first md i f :
  local md i f -> eFileLock f = NO_LOCK -> i_eFileLock i = NO_LOCK -> (md = true -> bProcessLock i = true) ->
  trans md i f (set_i_eFileLock (set_counts i 1 (nLock i + 1)) SHARED_LOCK)
    (set_eFileLock (set_eFileLock f SHARED_LOCK) SHARED_LOCK).
Proof.
  intros L Hf Hi Hp. destruct L. split; [split|..]; lk_cbn; try done; try lk_arith; first [tauto | lk_fin].
Qed.

(** Raising the lock of the handle that has the inode's level. *)
Lemma trans_raise md i f f0 e :
  local md i f -> local md i f0 -> eFileLock f0 = eFileLock f ->
  eFileLock f = i_eFileLock i -> SHARED_LOCK <= eFileLock f <= e ->
  SHARED_LOCK < e <= EXCLUSIVE_LOCK -> (e = EXCLUSIVE_LOCK -> nShared i = 1) ->
  trans md i f (set_i_eFileLock i e) (set_eFileLock f0 e).
Proof.
  intros L L0 He Hi Hf Hr Hx. destruct L, L0.
  split; [split|..]; lk_cbn; try done; try lk_arith; first [ intros; apply lc_process0; [done|lk_arith] | lk_fin ].
Qed.

(** A request that is not a read lock on the shared range needs no discipline. *)
Lemma disciplined_other hd fl :
  l_type fl <> F_RDLCK \/ (forall b, in_flock fl b = true -> ~ shared_range b) -> disciplined hd fl.
Proof. intros [H|H] Ht b Hb Hr; [done|by destruct (H b)]. Qed.

Lemma in_flock_range t s l b : 0 < l -> in_flock (mkFlock t s l) b = true -> s <= b < s + l.
Proof.
  intros Hl. unfold in_flock. cbn. rewrite (proj2 (Z.eqb_neq l 0)) by lia. cbn. intros H.
  bool_to_prop. lia.
Qed.

Ltac lk_disc :=
  first
    [ apply disciplined_other; left; try case_bool; discriminate
    | apply disciplined_other; right; intros ? ?%in_flock_range ?; lk_arith
    | idtac ].

(** Cases of a system call through [unixFileLock]. *)
Ltac lk_call md L :=
  let Hmd := fresh "Hmd" in let Hpr := fresh "Hpr" in let e := fresh "e" in
  let Hne := fresh "Hne" in
  apply wp_bind; apply (wp_unixFileLock md);
  [ apply L | apply L | | intros Hmd; split; [lk_disc|split; [|intros e Hne]]
  | intros Hmd Hpr | intros Hmd Hpr; split; [|intros e Hne] ].

(** An inode whose level needs no lock of the kernel. *)
Lemma backs_none i hd : bProcessLock i = false -> i_eFileLock i = NO_LOCK -> backs i hd.
Proof. unfold backs. intros -> ->. lk_arith. Qed.

Lemma wp_unixLock_shared md i f hd :
  local md i f -> backs i hd -> (md = true -> bProcessLock i = true) ->
  eFileLock f = NO_LOCK -> i_eFileLock i = NO_LOCK ->
  (bProcessLock i = false -> hd PENDING_BYTE <> F_UNLCK) ->
  wp (unixLock_shared f i) (lock_post md i f SHARED_LOCK) hd.
Proof.
  intros L B Hp Hf Hi Hpd. unfold unixLock_shared.
  assert (nShared i = 0) as Hn by (by apply L).
  apply wp_assert; [by rewrite Hn, Hi|].
  assert (Hok : forall hd' : view, (bProcessLock i = false -> forall b, shared_range b -> hd' b <> F_UNLCK) ->
      (bProcessLock i = true -> forall b, shared_range b -> hd' b = F_WRLCK) ->
      lock_post md i f SHARED_LOCK (unixLock_finish (set_eFileLock f SHARED_LOCK)
        (set_counts i 1 (nLock i + 1)) SHARED_LOCK SQLITE_OK) hd').
  { intros hd' H0 H1. unfold unixLock_finish. cbn [Z.eqb]. split; [by apply trans_first|].
    split; [|unfold lock_outcome; cbn; lk_arith].
    unfold backs. lk_cbn. destruct (bProcessLock i); [auto|]. split_and!; [auto|lk_arith..]. }
  assert (Herr : forall rc e (hd' : view), rc <> SQLITE_OK -> bProcessLock i = false ->
      lock_post md i f SHARED_LOCK (rc, lock_error f rc e, i) hd').
  { intros rc e hd' He Hb. apply lock_post_error; [done| |done]. by apply backs_none. }
  (* what follows the request for the shared range, which is answered [e] *)
  assert (Htail : forall e (hd' : view), (md = true -> e = 0) ->
      (e = 0 -> bProcessLock i = false -> forall b, shared_range b -> hd' b <> F_UNLCK) ->
      (bProcessLock i = true -> forall b, shared_range b -> hd' b = F_WRLCK) ->
      wp ('(e2, pInode) ← unixFileLock f i (mkFlock F_UNLCK PENDING_BYTE 1);
        let '(tErrno, rc) :=
          if negb (e2 =? 0) && ((if e =? 0 then SQLITE_OK else sqliteErrorFromPosixError e SQLITE_IOERR_LOCK) =? SQLITE_OK)
          then (e2, SQLITE_IOERR_UNLOCK)
          else (e, if e =? 0 then SQLITE_OK else sqliteErrorFromPosixError e SQLITE_IOERR_LOCK) in
        if negb (rc =? 0) then mret (rc, lock_error f rc tErrno, pInode)
        else mret (unixLock_finish (set_eFileLock f SHARED_LOCK)
               (set_counts pInode 1 (nLock pInode + 1)) SHARED_LOCK rc))
      (lock_post md i f SHARED_LOCK) hd').
  { intros e hd' Hm H0 H1. pose proof (posix_error_nonzero e SQLITE_IOERR_LOCK ltac:(done)) as Hpe.
    lk_call md L; try (intros; rewrite Hp in *; done).
    - assert (bProcessLock i = false) as Hb by (by apply L).
      change (negb (0 =? 0)) with false. cbn [andb]. destruct (e =? 0) eqn:He; bool_to_prop.
      + apply Hok; [|congruence]. intros _ b Hb2. cbn. lk_simpl. auto.
      + rewrite (proj2 (Z.eqb_neq _ 0)) by done. by apply Herr.
    - assert (bProcessLock i = false) as Hb by (by apply L).
      rewrite (proj2 (Z.eqb_neq e0 0)) by done. cbn [negb andb]. destruct (e =? 0) eqn:He; bool_to_prop.
      + by apply Herr.
      + rewrite (proj2 (Z.eqb_neq _ SQLITE_OK)) by done. rewrite (proj2 (Z.eqb_neq _ 0)) by done.
        by apply Herr.
    - rewrite Hm by done. apply Hok; [congruence|done]. }
  lk_call md L; try (intros; rewrite Hp in *; done).
  - intros _ b Hin Hb. left. apply Hpd. by apply L.
  - apply Htail; [done| |intros Hb; apply L in Hmd; congruence]. intros _ _ b Hb. cbn. by lk_simpl.
  - apply Htail; [congruence|done|]. intros Hb. apply L in Hmd. congruence.
  - apply Htail; [done|congruence|]. intros _. unfold backs in B. by rewrite Hpr in B.
Qed.

(** A write lock is asked for by the handle with the inode's level. *)
Lemma wp_unixLock_write md i f lk hd :
  local md i f -> backs i hd -> eFileLock f = i_eFileLock i -> SHARED_LOCK <= eFileLock f < lk ->
  lk = RESERVED_LOCK \/
  lk = EXCLUSIVE_LOCK /\ (bProcessLock i = false -> hd PENDING_BYTE = F_WRLCK) ->
  wp (unixLock_write f i lk) (lock_post md i f lk) hd.
Proof.
  intros L B Hfi Hf Hlk. unfold unixLock_write.
  assert (Hp : md = true -> bProcessLock i = true) by (intros; apply L; [done|lia]).
  (* the file ends at PENDING when an EXCLUSIVE lock is not granted *)
  assert (Hpend : forall f0 rc, local md i f0 -> eFileLock f0 = eFileLock f ->
      rc <> SQLITE_OK -> lk = EXCLUSIVE_LOCK ->
      lock_post md i f lk (unixLock_finish f0 i lk rc) hd).
  { intros f0 rc L0 He Hrc ->. unfold unixLock_finish.
    rewrite (proj2 (Z.eqb_neq rc SQLITE_OK)) by done. cbn [Z.eqb]. destruct Hlk as [?|[_ Hpb]]; [done|].
    split; [apply trans_raise; try done; lk_arith|]. split.
    - unfold backs in *. lk_cbn.
      destruct (bProcessLock i); [done|]. split_and!; try lk_arith; [|auto].
      intros _. apply B. lia.
    - unfold lock_outcome. rewrite (proj2 (Z.eqb_neq rc SQLITE_OK)) by done. by right. }
  destruct ((lk =? EXCLUSIVE_LOCK) && (1 <? nShared i)) eqn:Hx.
  { apply andb_true_iff in Hx as [->%Z.eqb_eq _]. by apply Hpend. }
  apply andb_false_iff in Hx. rewrite Z.eqb_neq, Z.ltb_ge in Hx.
  assert (Hn : lk = EXCLUSIVE_LOCK -> nShared i = 1).
  { intros ->. destruct L. lk_fin. }
  apply wp_assert; [apply negb_true_iff, Z.eqb_neq; lk_arith|].
  apply wp_assert; [apply orb_true_iff; rewrite !Z.eqb_eq; lk_arith|].
  assert (Hok : forall hd' : view, backs (set_i_eFileLock i lk) hd' ->
    lock_post md i f lk (unixLock_finish f i lk SQLITE_OK) hd').
  { intros hd' B'. unfold unixLock_finish. cbn [Z.eqb]. split; [apply trans_raise; try done; lk_arith|].
    split; [done|]. unfold lock_outcome. cbn. lk_arith. }
  assert (Herr : forall e, e <> 0 -> lock_post md i f lk (unixLock_finish
      (lock_error f (sqliteErrorFromPosixError e SQLITE_IOERR_LOCK) e) i lk
      (sqliteErrorFromPosixError e SQLITE_IOERR_LOCK)) hd).
  { intros e He. pose proof (posix_error_nonzero e SQLITE_IOERR_LOCK ltac:(done)).
    destruct Hlk as [->|[-> _]].
    - unfold unixLock_finish. rewrite (proj2 (Z.eqb_neq _ SQLITE_OK)) by done. cbn [Z.eqb].
      by apply lock_post_error.
    - destruct (lock_error_eq f (sqliteErrorFromPosixError e SQLITE_IOERR_LOCK) e) as (? & ? & ?).
      apply Hpend; try done. by apply (local_same _ _ f). }
  assert (Hproc : bProcessLock i = true -> backs (set_i_eFileLock i lk) hd).
  { intros Hb. unfold backs in *. lk_cbn. by rewrite Hb in *. }
  lk_call md L; try (intros; rewrite Hp in *; done).
  - change (0 =? 0) with true. cbn [negb wp]. apply Hok.
    assert (bProcessLock i = false) as Hb by (by apply L).
    unfold backs in *. lk_cbn. rewrite Hb in *. destruct B as (B1 & B2 & B3 & B4).
    destruct Hlk as [->|[-> Hpb]].
    + change (RESERVED_LOCK =? RESERVED_LOCK) with true. cbv iota.
      split_and!; try lk_arith; [intros _ b Hb2|intros _]; cbn; lk_simpl; [|done].
      apply B1; [lk_arith|done].
    + change (EXCLUSIVE_LOCK =? RESERVED_LOCK) with false. cbv iota.
      split_and!; try lk_arith; [intros _ b Hb2|intros _|intros _]; cbn; lk_simpl; auto.
      unfold sole_after. cbn. rewrite bool_decide_eq_true_2 by auto. apply orb_true_r.
  - rewrite (proj2 (Z.eqb_neq e 0)) by done. cbn [negb wp]. by apply Herr.
  - change (0 =? 0) with true. cbn [negb wp]. by apply Hok, Hproc.
Qed.

Lemma lock_outcome_same f lk : eFileLock f >= lk -> lock_outcome f lk SQLITE_OK f.
Proof. unfold lock_outcome. cbn. lia. Qed.

Lemma trans_refl md i f : local md i f -> trans md i f i f.
Proof. by apply trans_same. Qed.

(** A write lock on the PENDING byte changes nothing else. *)
Lemma backs_pending i hd :
  backs i hd -> backs i (granted hd (mkFlock F_WRLCK PENDING_BYTE 1)).
Proof.
  unfold backs. destruct (bProcessLock i).
  - intros H b Hb. cbn. lk_simpl. auto.
  - intros (B1 & B2 & B3 & B4). split_and!; intros; cbn; lk_simpl; auto.
    unfold sole_after. cbn. by rewrite B4.
Qed.

Lemma wp_unixLock md i f lk hd :
  local md i f -> backs i hd -> legal_lock f lk ->
  wp (unixLock f i lk) (lock_post md i f lk) hd.
Proof.
  intros L B Hlg. unfold unixLock.
  destruct (lk <=? eFileLock f) eqn:Hle; bool_to_prop.
  { split; [by apply trans_refl|]. split; [done|]. apply lock_outcome_same. lia. }
  unfold legal_lock in Hlg. destruct (lc_level _ _ _ L) as [Hl1 Hl2].
  apply wp_assert; [apply orb_true_iff; rewrite negb_true_iff, Z.eqb_neq, Z.eqb_eq; lk_arith|].
  apply wp_assert; [apply negb_true_iff, Z.eqb_neq; lk_arith|].
  apply wp_assert; [apply orb_true_iff; rewrite negb_true_iff, Z.eqb_neq, Z.eqb_eq; lk_arith|].
  destruct (negb (eFileLock f =? i_eFileLock i) &&
    ((PENDING_LOCK <=? i_eFileLock i) || (SHARED_LOCK <? lk))) eqn:Hbusy.
  { split; [by apply trans_refl|]. split; [done|]. unfold lock_outcome. cbn. by left. }
  apply andb_false_iff in Hbusy. rewrite negb_false_iff, Z.eqb_eq, orb_false_iff, Z.leb_gt,
    Z.ltb_ge in Hbusy.
  destruct ((lk =? SHARED_LOCK) && _) eqn:Hjoin.
  { apply andb_true_iff in Hjoin as [->%Z.eqb_eq Hi]. rewrite orb_true_iff, !Z.eqb_eq in Hi.
    assert (eFileLock f = NO_LOCK) as Hf by lk_arith.
    apply wp_assert; [by rewrite Hf|].
    apply wp_assert; [apply Z.ltb_lt; destruct L; lk_fin|].
    split; [by apply trans_join|]. split; [done|]. unfold lock_outcome. cbn. lk_arith. }
  apply andb_false_iff in Hjoin. rewrite orb_false_iff, Z.eqb_neq, !Z.eqb_neq in Hjoin.
  destruct Hlg as [->|Hlg].
  - (* SHARED, from an unlocked inode *)
    assert (eFileLock f = NO_LOCK) as Hf by lk_arith.
    assert (i_eFileLock i = NO_LOCK) as Hi by lk_arith.
    assert (nShared i = 0) as Hn by (by apply L).
    change (SHARED_LOCK =? SHARED_LOCK) with true. cbn [orb]. cbv iota.
    lk_call md L; try done.
    + intros _ Hb. pose proof (lc_nLock _ _ _ L) as Hnl. rewrite Hb in Hnl. lia.
    + change (0 =? 0) with true. cbn [negb]. cbv iota.
      assert (bProcessLock i = false) as Hb by (by apply L).
      apply wp_unixLock_shared; try congruence; [by apply backs_none|].
      intros _. cbn. by lk_simpl.
    + rewrite (proj2 (Z.eqb_neq e 0)) by done. cbn [negb wp].
      apply lock_post_error; [done..|]. by apply posix_error_nonzero.
    + change (0 =? 0) with true. cbn [negb]. cbv iota. apply wp_unixLock_shared; try done. congruence.
    + change (0 =? 0) with true. cbn [negb]. cbv iota.
      pose proof (local_process md i f L Hmd Hpr) as L'.
      eapply wp_mono; [|apply (wp_unixLock_shared md _ f); try done].
      * intros [[rc f'] i'] hd' ([] & Hb & Ho). split; [|done]. by split.
      * unfold backs. cbn. intros b Hb. by lk_simpl.
    + rewrite (proj2 (Z.eqb_neq e 0)) by done. cbn [negb wp].
      apply lock_post_error; [done..|]. by apply posix_error_nonzero.
  - (* RESERVED or EXCLUSIVE, by the handle with the inode's level *)
    assert (eFileLock f = i_eFileLock i) as Hfi by lk_arith.
    assert (md = true -> bProcessLock i = true) as Hp by (intros; apply L; [done|lk_arith]).
    rewrite (proj2 (Z.eqb_neq lk SHARED_LOCK)) by lk_arith. cbn [orb].
    destruct ((lk =? EXCLUSIVE_LOCK) && _) eqn:Hx.
    + apply andb_true_iff in Hx as [->%Z.eqb_eq _].
      lk_call md L; try (intros; rewrite Hp in *; done).
      * change (0 =? 0) with true. cbn [negb]. cbv iota.
        apply wp_unixLock_write; try done; [by apply backs_pending|lk_arith|].
        right. split; [done|]. intros _. cbn. by lk_simpl.
      * rewrite (proj2 (Z.eqb_neq e 0)) by done. cbn [negb wp].
        apply lock_post_error; [done..|]. by apply posix_error_nonzero.
      * change (0 =? 0) with true. cbn [negb]. cbv iota.
        apply wp_unixLock_write; try done; [lk_arith|]. right. split; [done|congruence].
    + cbn [mbind prog_bind pbind]. change (0 =? 0) with true. cbn [negb mret prog_ret pbind]. cbv iota.
      apply wp_unixLock_write; try done; [lk_arith|].
      destruct Hlg as [[-> _]|[-> _]]; [by left|]. right. split; [done|]. intros Hb.
      unfold backs in B. rewrite Hb in B. destruct B as (_ & _ & B3 & _). apply B3.
      cbn in Hx. apply Z.ltb_ge in Hx. lk_arith.
Qed.

(** ** [posixUnlock] *)

Lemma wp_close_fds fds (Q : unit -> view -> Prop) hd :
  Q tt hd -> Q tt closed -> wp (close_fds fds) Q hd.
Proof.
  intros H0 H1. revert hd H0. induction fds as [|fd fds IH]; intros hd H0; [done|]. by apply IH.
Qed.

Lemma wp_closePendingFds i (Q : unixInodeInfo -> view -> Prop) hd :
  Q (set_pUnused i []) hd -> Q (set_pUnused i []) closed -> wp (closePendingFds i) Q hd.
Proof. intros. apply wp_bind. by apply wp_close_fds. Qed.

(** What [posixUnlock_release] leaves: the lock is given up also when the
    release is refused, which is reported. *)
Definition release_post (i : unixInodeInfo) (f : unixFile) (r : Z * unixFile * unixInodeInfo) (hd : view) : Prop :=
  let '(rc, f', i') := r in
  (rc = SQLITE_OK /\ f' = f \/
   rc = SQLITE_IOERR_UNLOCK /\ exists e, f' = set_eFileLock (storeLastErrno f e) NO_LOCK) /\
  nShared i' = nShared i - 1 /\ nLock i' = nLock i - 1 /\
  i_eFileLock i' = (if nShared i =? 1 then NO_LOCK else i_eFileLock i) /\
  bProcessLock i' = bProcessLock i /\ nRef i' = nRef i /\ backs i' hd.

Lemma wp_posixUnlock_release md i f hd :
  excl_mode f = md -> (md = false -> bProcessLock i = false) -> (md = true -> bProcessLock i = true) ->
  nLock i = nShared i + (if bProcessLock i then 1 else 0) -> 1 <= nShared i -> backs i hd ->
  wp (posixUnlock_release f i) (release_post i f) hd.
Proof.
  intros Hm Hb0 Hb1 Hn Hs B. unfold posixUnlock_release. lk_cbn.
  (* the tail, from the inode [i2] with its final level *)
  assert (Htail : forall rc f2 i2 (hd' : view),
      (rc = SQLITE_OK /\ f2 = f \/
       rc = SQLITE_IOERR_UNLOCK /\ exists e, f2 = set_eFileLock (storeLastErrno f e) NO_LOCK) ->
      nShared i2 = nShared i - 1 -> nLock i2 = nLock i ->
      i_eFileLock i2 = (if nShared i =? 1 then NO_LOCK else i_eFileLock i) ->
      bProcessLock i2 = bProcessLock i -> nRef i2 = nRef i -> backs i2 hd' ->
      wp (assert (0 <=? nLock i2 - 1)
        (pInode ← (if nLock i2 - 1 =? 0
           then closePendingFds (set_counts i2 (nShared i2) (nLock i2 - 1))
           else mret (set_counts i2 (nShared i2) (nLock i2 - 1)));
         mret (rc, f2, pInode))) (release_post i f) hd').
  { intros rc f2 i2 hd' Hrc E1 E2 E3 E4 E5 B2.
    apply wp_assert; [apply Z.leb_le; destruct (bProcessLock i); lia|]. apply wp_bind.
    destruct (nLock i2 - 1 =? 0) eqn:Hz; bool_to_prop.
    - destruct (bProcessLock i) eqn:Hp; [lia|].
      rewrite (proj2 (Z.eqb_eq (nShared i) 1)) in E3 by lia.
      apply wp_closePendingFds; (split; [done|]); lk_cbn; rewrite (proj2 (Z.eqb_eq (nShared i) 1)) by lia;
        split_and!; try done; try lia; try (by rewrite Hp); by apply backs_none.
    - split; [done|]. lk_cbn. split_and!; try done; lia. }
  apply wp_bind. destruct (nShared i - 1 =? 0) eqn:Hz; bool_to_prop.
  - rewrite (proj2 (Z.eqb_eq (nShared i) 1)) in Htail by lia.
    apply wp_bind, (wp_unixFileLock md); try done;
      [intros Hmd Hp; cbn in Hp; rewrite Hb1 in Hp; done| | |].
    + intros Hmd. split; [lk_disc|]. split.
      * change (0 =? 0) with true. cbn [wp mret prog_ret].
        apply Htail; try done; [by left|]. apply backs_none; [by apply Hb0|done].
      * intros e He. rewrite (proj2 (Z.eqb_neq e 0)) by done. cbn [wp mret prog_ret].
        apply Htail; try done; [right; split; [done|by exists e]|]. apply backs_none; [by apply Hb0|done].
    + intros _ Hp. change (0 =? 0) with true. apply Htail; try done; [by left|].
      cbn in Hp. unfold backs in B |- *. cbn. rewrite Hp in B |- *. exact B.
    + intros Hmd Hp. cbn in Hp. rewrite Hb1 in Hp; done.
  - rewrite (proj2 (Z.eqb_neq (nShared i) 1)) in Htail by lia. apply Htail; try done; [by left].
Qed.

(** The first half: the level of the inode becomes SHARED, or nothing changes
    but, maybe, that the process only reads the shared range. *)
Definition lower_post (lk : Z) (f : unixFile) (i : unixInodeInfo) (r : Z * unixFile * unixInodeInfo) (hd : view) : Prop :=
  r = (SQLITE_OK, f, set_i_eFileLock i SHARED_LOCK) /\ backs (set_i_eFileLock i SHARED_LOCK) hd \/
  backs i hd /\ exists rc e, r = (rc, storeLastErrno f e, i) /\
    (rc = SQLITE_IOERR_UNLOCK \/ rc = SQLITE_IOERR_RDLOCK /\ lk = SHARED_LOCK).

Lemma wp_posixUnlock_lower md i f lk hd :
  local md i f -> backs i hd -> SHARED_LOCK < eFileLock f -> lk = NO_LOCK \/ lk = SHARED_LOCK ->
  wp (posixUnlock_lower f i lk) (lower_post lk f i) hd.
Proof.
  intros L B Hf Hlk. unfold posixUnlock_lower.
  assert (eFileLock f = i_eFileLock i) as Hfi by (by apply L).
  assert (Hp : md = true -> bProcessLock i = true) by (intros; apply L; [done|lk_arith]).
  apply wp_assert; [by rewrite Hfi, Z.eqb_refl|].
  (* the second call *)
  assert (Htail : forall hd' : view, backs i hd' ->
      wp ('(e2, pInode) ← unixFileLock f i (mkFlock F_UNLCK PENDING_BYTE 2);
          if e2 =? 0 then mret (SQLITE_OK, f, set_i_eFileLock pInode SHARED_LOCK)
          else mret (SQLITE_IOERR_UNLOCK, storeLastErrno f e2, pInode)) (lower_post lk f i) hd').
  { intros hd' B'. lk_call md L; try (intros; rewrite Hp in *; done).
    - change (0 =? 0) with true. left. split; [done|]. unfold backs in *. lk_cbn.
      assert (bProcessLock i = false) as Hb by (by apply L). rewrite Hb in *.
      split_and!; try lk_arith. intros _ b Hb2. cbn. lk_simpl. apply B'; [lk_arith|done].
    - rewrite (proj2 (Z.eqb_neq e 0)) by done. right. split; [done|].
      exists SQLITE_IOERR_UNLOCK, e. split; [done|by left].
    - change (0 =? 0) with true. left. split; [done|]. unfold backs in *. lk_cbn. by rewrite Hpr in *. }
  apply wp_bind. destruct (lk =? SHARED_LOCK) eqn:Hs; bool_to_prop; [|by apply Htail].
  apply (wp_unixFileLock md); [apply L|apply L|intros; rewrite Hp in *; done| | |].
  - intros Hmd. assert (bProcessLock i = false) as Hb by (by apply L).
    unfold backs in B. rewrite Hb in B. destruct B as (B1 & B2 & B3 & B4). split; [|split].
    + intros _ b Hin Hb2. right. apply B1; [lk_arith|done].
    + apply Htail. unfold backs. rewrite Hb. split_and!.
      * intros _ b Hb2. cbn. by lk_simpl.
      * intros He. cbn. lk_simpl. auto.
      * intros He. cbn. lk_simpl. auto.
      * intros He. cbn. unfold sole_after. cbn. by rewrite B4.
    + intros e He. rewrite (proj2 (Z.eqb_neq e 0)) by done. right. unfold backs. rewrite Hb.
      split; [done|]. exists SQLITE_IOERR_RDLOCK, e. split; [done|by right].
  - intros Hmd Hpr. by apply Htail.
  - intros; rewrite Hp in *; done.
Qed.

(** What [posixUnlock] leaves.  The lock is lowered; or the kernel refuses the
    read lock, or the release of the PENDING and RESERVED bytes, and the handle
    keeps its lock; or it refuses the last release, and the handle gives its
    lock up all the same. *)
Definition unlock_outcome (f : unixFile) (lk rc : Z) (f' : unixFile) : Prop :=
  rc = SQLITE_OK /\ eFileLock f' = Z.min lk (eFileLock f) \/
  rc = SQLITE_IOERR_RDLOCK /\ lk = SHARED_LOCK /\ SHARED_LOCK < eFileLock f /\ eFileLock f' = eFileLock f \/
  rc = SQLITE_IOERR_UNLOCK /\ SHARED_LOCK < eFileLock f /\ eFileLock f' = eFileLock f \/
  rc = SQLITE_IOERR_UNLOCK /\ lk = NO_LOCK /\ eFileLock f' = NO_LOCK.

(** The descriptor of the handle does not change. *)
Definition same_fd (f f' : unixFile) : Prop := h f' = h f /\ pPreallocatedUnused f' = pPreallocatedUnused f.

Definition unlock_post md i f lk (r : Z * unixFile * unixInodeInfo) (hd : view) : Prop :=
  let '(rc, f', i') := r in trans md i f i' f' /\ backs i' hd /\ unlock_outcome f lk rc f' /\ same_fd f f'.

(** The second half of [posixUnlock], from the inode [i1] with the level SHARED
    or the old one. *)
Lemma wp_posixUnlock_tail md i f lk i1 hd :
  local md i f -> lk = NO_LOCK \/ lk = SHARED_LOCK -> lk < eFileLock f -> backs i1 hd ->
  i_eFileLock i1 = (if SHARED_LOCK <? eFileLock f then SHARED_LOCK else i_eFileLock i) ->
  i1 = set_i_eFileLock i (i_eFileLock i1) ->
  wp ('(rc, f', i') ← (if lk =? NO_LOCK then posixUnlock_release f i1 else mret (SQLITE_OK, f, i1));
      mret (rc, if rc =? SQLITE_OK then set_eFileLock f' lk else f', i'))
    (unlock_post md i f lk) hd.
Proof.
  intros L Hlk Hle B1 E1 E2. apply wp_bind.
  assert (Hs : 1 <= nShared i) by (destruct L; lk_fin).
  assert (Hi : SHARED_LOCK <= i_eFileLock i) by (destruct L; lk_arith).
  assert (Hp : md = true -> bProcessLock i = true) by (intros; apply L; done).
  assert (nShared i1 = nShared i /\ nLock i1 = nLock i /\ bProcessLock i1 = bProcessLock i /\
    nRef i1 = nRef i) as (F1 & F2 & F3 & F4) by (by rewrite E2).
  destruct (lk =? NO_LOCK) eqn:Hlk0; bool_to_prop.
  - eapply wp_mono; [|apply (wp_posixUnlock_release md)].
    + intros [[rc f'] i'] hd2 (Hrc & G1 & G2 & G3 & G4 & G5 & G6). cbn [wp mret prog_ret].
      assert (Htr : forall f2, eFileLock f2 = NO_LOCK -> excl_mode f2 = excl_mode f ->
          pPreallocatedUnused f2 = pPreallocatedUnused f -> trans md i f i' f2).
      { intros f2 H1 H2 H3. rewrite F1, E1 in G3. destruct L.
        split; [split|..]; lk_cbn; rewrite ?H1, ?H2, ?H3, ?G1, ?G2, ?G3, ?G4, ?G5, ?F1, ?F2, ?F3, ?F4;
          try done; try lk_arith.
        all: try lk_fin. intros; by apply Hp. }
      destruct Hrc as [[-> ->]|[-> (e & ->)]].
      * change (SQLITE_OK =? SQLITE_OK) with true.
        split; [by apply Htr|]. split; [done|]. split; [|done]. left. split; [done|]. cbn. lk_arith.
      * change (SQLITE_IOERR_UNLOCK =? SQLITE_OK) with false.
        split; [by apply Htr|]. split; [done|]. split; [|done]. unfold unlock_outcome. cbn. tauto.
    + apply L.
    + rewrite F3. apply L.
    + by rewrite F3.
    + rewrite F1, F2, F3. apply L.
    + lia.
    + done.
  - cbn [wp mret prog_ret]. change (SQLITE_OK =? SQLITE_OK) with true.
    rewrite (proj2 (Z.ltb_lt _ _)) in E1 by lk_arith. rewrite E2, E1. destruct L.
    split; [|split; [by rewrite E2, E1 in B1|split; [left; split; [done|]; cbn; lk_arith|done]]].
    split; [split|..]; lk_cbn; try done; try lk_arith; try lk_fin.
    intros; by apply Hp.
Qed.

Lemma wp_posixUnlock md i f lk hd :
  local md i f -> backs i hd -> lk = NO_LOCK \/ lk = SHARED_LOCK ->
  wp (posixUnlock f i lk) (unlock_post md i f lk) hd.
Proof.
  intros L B Hlk. unfold posixUnlock. apply wp_assert; [apply Z.leb_le; lk_arith|].
  destruct (eFileLock f <=? lk) eqn:Hle; bool_to_prop.
  { split; [by apply trans_refl|]. split; [done|]. split; [|done]. left. split; [done|lia]. }
  apply wp_assert; [apply negb_true_iff, Z.eqb_neq; destruct L; lk_fin|].
  apply wp_bind. destruct (SHARED_LOCK <? eFileLock f) eqn:Hgt; bool_to_prop.
  - eapply wp_mono; [|by apply (wp_posixUnlock_lower md)].
    intros r hd' [[-> B']|(B' & rc & e & -> & Hrc)].
    + change (SQLITE_OK =? SQLITE_OK) with true. cbn [negb]. apply wp_posixUnlock_tail; try done.
      by rewrite (proj2 (Z.ltb_lt _ _)).
    + assert (rc <> SQLITE_OK) by (by destruct Hrc as [->|[-> _]]).
      rewrite (proj2 (Z.eqb_neq rc SQLITE_OK)) by done. cbn. split; [by apply trans_same|]. split; [done|].
      split; [|done]. unfold unlock_outcome. cbn. tauto.
  - cbn [wp mret prog_ret]. change (SQLITE_OK =? SQLITE_OK) with true. cbn [negb].
    apply wp_posixUnlock_tail; try done; [by rewrite (proj2 (Z.ltb_ge _ _))|by destruct i].
Qed.

(** ** [unixClose] and [findInodeInfo] *)

(** The state of a process: its inode object, if the file is open, its handles
    by slot, and the handles that are being closed: [unixClose] has left
    [pLockMutex] and the descriptor is not closed yet. *)
Record pstate := mkP {
  p_inode : option unixInodeInfo;
  p_files : list (option unixFile);
  p_closing : list unixFile }.

Definition p_refs (s : pstate) : Z := open_count (p_files s) + Z.of_nat (length (p_closing s)).

Definition p_wf (md : bool) (s : pstate) : Prop :=
  match p_inode s with
  | None => p_refs s = 0
  | Some i => wf md i (p_files s) /\ nRef i = p_refs s /\ 0 < nRef i
  end.

Definition p_backs (s : pstate) (hd : view) : Prop :=
  match p_inode s with None => True | Some i => backs i hd end.

Lemma open_count_nonneg fs : 0 <= open_count fs.
Proof. induction fs as [|[] fs IH]; cbn; lia. Qed.

Lemma open_count_pos fs j f : fs !! j = Some (Some f) -> 1 <= open_count fs.
Proof.
  intros Hj. pose proof (open_count_insert fs j _ None Hj) as H. cbn in H.
  pose proof (open_count_nonneg (<[j := None]> fs)). lia.
Qed.

(** Forgetting a handle.  Its lock, if the kernel refused to release it, stays
    counted. *)
Lemma wf_forget md i fs j f :
  wf md i fs -> fs !! j = Some (Some f) -> wf md i (<[j := None]> fs).
Proof.
  intros H Hj. assert (Hlt : (j < length fs)%nat) by (by eapply lookup_lt_Some).
  assert (Hsub : forall k g, <[j := None]> fs !! k = Some (Some g) -> fs !! k = Some (Some g)).
  { intros k g. destruct (decide (k = j)) as [->|Hne].
    - by rewrite list_lookup_insert_eq.
    - by rewrite list_lookup_insert_ne. }
  destruct H. split; lk_cbn; try done; eauto.
  rewrite (lock_count_insert _ _ _ _ Hj). cbn. case_bool; lia.
Qed.

Lemma wf_pUnused md i fs l : wf md i fs -> wf md (set_pUnused i l) fs.
Proof. intros []. split; lk_cbn; try done; eauto. Qed.

Lemma wf_nRef md i fs n : wf md i fs -> wf md (set_nRef i n) fs.
Proof. intros []. split; lk_cbn; try done; eauto. Qed.

(** What [unixClose_park] leaves: the descriptor is kept for later if there is a
    lock, and otherwise is to be closed. *)
Definition park_post (f : unixFile) (i : unixInodeInfo) (r : unixFile * unixInodeInfo) : Prop :=
  r = (f, i) /\ nLock i = 0 \/
  exists fd, pPreallocatedUnused f = Some fd /\
    r = (mkFile (-1) (eFileLock f) (ctrlFlags f) (lastErrno f) None, set_pUnused i (fd :: pUnused i)) /\
    nLock i <> 0.

Lemma wp_unixClose_park md i f hd :
  local md i f -> wp (unixClose_park f i) (fun r hd' => park_post f i r /\ hd' = hd) hd.
Proof.
  intros L. unfold unixClose_park. apply wp_assert.
  { destruct L, (bProcessLock i); cbn; [|apply orb_true_r]. rewrite orb_false_r. apply Z.ltb_lt. lk_fin. }
  destruct (negb (nLock i =? 0)) eqn:Hl; bool_to_prop.
  - unfold setPendingFd. destruct (lc_unused _ _ _ L) as [fd E]. rewrite E. split; [|done].
    right. exists fd. done.
  - split; [|done]. by left.
Qed.

Lemma wf_park md i fs j f r :
  wf md i fs -> fs !! j = Some (Some f) -> park_post f i r ->
  wf md r.2 (<[j := None]> fs) /\ (forall hd, backs i hd -> backs r.2 hd) /\ nRef r.2 = nRef i /\
  (0 <= h r.1 -> nLock r.2 = 0).
Proof.
  intros W Hj Hr. pose proof (wf_forget _ _ _ _ _ W Hj) as W'.
  destruct Hr as [[-> Hl]|(fd & _ & -> & Hl)]; cbn; (split; [|split; [|split]]); try done.
  by apply wf_pUnused.
Qed.

Lemma wp_unixClose_finish md i fs f hd :
  wf md i fs -> backs i hd -> (0 <= h f -> nLock i = 0) ->
  wp (unixClose_finish f i) (fun '(rc, inode) hd' => rc = SQLITE_OK /\
    match inode with
    | None => nRef i = 1
    | Some i' => i' = set_nRef i (nRef i - 1) /\ nRef i <> 1 /\ backs i' hd'
    end) hd.
Proof.
  intros W B Hc. unfold unixClose_finish, releaseInodeInfo. apply wp_bind. lk_cbn.
  destruct (nRef i - 1 =? 0) eqn:Hz; bool_to_prop.
  - assert (nRef i = 1) by lia.
    apply wp_bind, wp_closePendingFds; cbn [wp mret prog_ret]; unfold closeUnixFile;
      case_bool; by cbn.
  - cbn [wp mret prog_ret]. unfold closeUnixFile. destruct (0 <=? h f) eqn:Hh; bool_to_prop; cbn.
    + split; [done|]. split; [done|]. split; [lia|]. specialize (Hc Hh). destruct W.
      pose proof (lock_count_nonneg fs). destruct (bProcessLock i) eqn:E; [lia|]. apply backs_none; [done|]. apply wf_no0. lia.
    + split; [done|]. split; [done|]. split; [lia|done].
Qed.

Lemma wf_open md s f rc i :
  p_wf md s -> findInodeInfo 0 true (p_inode s) = (rc, Some i) ->
  eFileLock f = NO_LOCK -> excl_mode f = md -> is_Some (pPreallocatedUnused f) ->
  p_wf md (mkP (Some i) (p_files s ++ [Some f]) (p_closing s)).
Proof.
  destruct s as [inode fs cl]. unfold p_wf, p_refs, findInodeInfo. cbn [p_inode p_files p_closing negb Z.eqb].
  pose proof (open_count_nonneg fs) as Hnn.
  intros Hw Hi Hf Hm Hu.
  assert (Happ : forall (g : option unixFile -> Z) (c : list (option unixFile) -> Z), (c [] = 0) -> (forall o l, c (o :: l) = g o + c l) ->
      c (fs ++ [Some f]) = c fs + g (Some f)).
  { intros g c H0 Hc. induction fs as [|o l IH]; cbn; rewrite ?Hc, ?H0; [lia|].
    assert (Heq : c (l ++ [Some f]) = c l + g (Some f)). 
    { clear -H0 Hc. induction l as [|o l IH]; cbn; rewrite ?Hc, ?H0; lia. }
    lia. }
  pose proof (Happ weight lock_count eq_refl ltac:(done)) as Hlc.
  pose proof (Happ opened open_count eq_refl ltac:(done)) as Hoc. cbn [opened] in Hoc. clear Happ.
  assert (Hcase : forall k g, (fs ++ [Some f]) !! k = Some (Some g) ->
      fs !! k = Some (Some g) \/ g = f /\ k = length fs).
  { intros k g. rewrite lookup_app. destruct (fs !! k) eqn:Hk; [by left|].
    destruct (k - length fs)%nat eqn:Hd; cbn; [|done]. intros [= <-]. right. split; [done|].
    apply lookup_ge_None in Hk. lia. }
  assert (Hw0 : weight (Some f) = 0) by (cbn; by rewrite Hf).
  destruct inode as [i0|]; injection Hi as <- <-; [rename i0 into i|]; cbn [nRef set_nRef].
  - destruct Hw as [[] Hr]. split; [|split; lk_cbn; lia]. split; lk_cbn; try done; try lia.
    + intros k g [Hg|[-> _]]%Hcase; [eauto|]. rewrite Hf. lk_arith.
    + intros k l g g' [Hg|[-> ->]]%Hcase [Hg'|[-> ->]]%Hcase Hs1 Hs2; eauto; lk_arith.
    + intros k g [Hg|[-> _]]%Hcase; eauto.
  - assert (Hno : forall k g, fs !! k <> Some (Some g)).
    { intros k g Hk%open_count_pos. lia. }
    assert (Hl0 : lock_count fs = 0).
    { clear -Hno. induction fs as [|[g|] l IH]; [done| |].
      - by destruct (Hno 0%nat g).
      - cbn. apply IH. intros k g. apply (Hno (S k)). }
    split; [|split; lk_cbn; lia]. split; lk_cbn; try done; try lia; try lk_arith.
    + intros k g [Hg|[-> _]]%Hcase; [by destruct (Hno k g)|]. rewrite Hf. lk_arith.
    + intros k l g g' [Hg|[-> ->]]%Hcase [Hg'|[-> ->]]%Hcase; try done; by edestruct Hno.
    + intros k g [Hg|[-> _]]%Hcase; [by destruct (Hno k g)|done].
Qed.

(** ** The contract of the operations *)

(** C35: [unixLock], for a request that keeps the pager's order, never fails an
    assertion and leaves the bookkeeping of the inode and of all its handles
    right and backed by the kernel's locks, whatever [fcntl] answers: any call
    of it, a release included, may fail with any errno.  On SQLITE_OK the handle
    has the requested lock; on an error it keeps its lock, or has PENDING after
    a request for EXCLUSIVE. *)
Theorem unixLock_correct md i fs j f lk hd :
  wf md i fs -> backs i hd -> fs !! j = Some (Some f) -> legal_lock f lk ->
  wp (unixLock f i lk) (fun '(rc, f', i') hd' =>
    wf md i' (<[j := Some f']> fs) /\ backs i' hd' /\ lock_outcome f lk rc f') hd.
Proof.
  intros W B Hj Hl. eapply wp_mono; [|by apply (wp_unixLock md); [eapply wf_local|..]].
  intros [[rc f'] i'] hd' (T & B' & O). split; [|done]. by eapply wf_trans.
Qed.

(** C36: [posixUnlock] to SHARED or to no lock keeps the bookkeeping in the same
    sense, whatever [fcntl] answers, and has one of four outcomes: it succeeds
    and lowers the lock; the read lock is refused (SQLITE_IOERR_RDLOCK), or the
    release of the PENDING and RESERVED bytes (SQLITE_IOERR_UNLOCK), and the
    handle keeps its lock above SHARED; or the last release is refused, and the
    handle has no lock although SQLITE_IOERR_UNLOCK is answered. *)
Theorem posixUnlock_correct md i fs j f lk hd :
  wf md i fs -> backs i hd -> fs !! j = Some (Some f) -> lk = NO_LOCK \/ lk = SHARED_LOCK ->
  wp (posixUnlock f i lk) (fun '(rc, f', i') hd' =>
    wf md i' (<[j := Some f']> fs) /\ backs i' hd' /\ unlock_outcome f lk rc f') hd.
Proof.
  intros W B Hj Hl. eapply wp_mono; [|by apply (wp_posixUnlock md); [eapply wf_local|..]].
  intros [[rc f'] i'] hd' (T & B' & O & _). split; [|done]. by eapply wf_trans.
Qed.

(** C37: [unixClose] of handle [j].  Its two critical sections leave the
    bookkeeping of the other handles right and backed, whatever [fcntl] answers,
    and either put the descriptor on the list of the inode or find that the
    process has no lock.  What follows without the mutex, from any state [i2],
    [fs2] that other threads have reached meanwhile, answers SQLITE_OK, frees
    the inode with its last reference, and keeps the locks of all handles
    backed, provided that no lock was taken meanwhile if the descriptor is to be
    closed (nothing in the source excludes that one is, see [close_race]). *)
Theorem unixClose_correct md i fs j f hd :
  wf md i fs -> backs i hd -> fs !! j = Some (Some f) ->
  wp ('(_, f1, i1) ← unixUnlock f i NO_LOCK; unixClose_park f1 i1) (fun '(f', i') hd' =>
    wf md i' (<[j := None]> fs) /\ backs i' hd' /\ nRef i' = nRef i /\
    (nLock i' = 0 /\ h f' = h f \/
     exists fd, pPreallocatedUnused f = Some fd /\ h f' = -1 /\ fd ∈ pUnused i') /\
    forall i2 fs2 hd2, wf md i2 fs2 -> backs i2 hd2 -> (0 <= h f' -> nLock i2 = 0) ->
      wp (unixClose_finish f' i2) (fun '(rc, inode) hd3 => rc = SQLITE_OK /\
        match inode with
        | None => nRef i2 = 1
        | Some i3 => wf md i3 fs2 /\ backs i3 hd3 /\ nRef i3 = nRef i2 - 1 /\ nRef i2 <> 1
        end) hd2) hd.
Proof.
  intros W B Hj. apply wp_bind. unfold unixUnlock.
  eapply wp_mono; [|apply (wp_posixUnlock md); [by eapply wf_local|done|by left]].
  intros [[rc f1] i1] hd1 (T & B1 & _ & Eh & Ep). pose proof (wf_trans _ _ _ _ _ _ _ W Hj T) as W1.
  assert (Hj1 : <[j := Some f1]> fs !! j = Some (Some f1)).
  { apply list_lookup_insert_eq. by eapply lookup_lt_Some. }
  eapply wp_mono; [|apply (wp_unixClose_park md); by eapply wf_local].
  intros [f' i'] hd' [Hp ->]. destruct (wf_park _ _ _ _ _ _ W1 Hj1 Hp) as (W' & B' & En & _).
  rewrite list_insert_insert_eq in W'. cbn in *. split_and!; [done|auto|by rewrite En, (tr_nRef _ _ _ _ _ T)| |].
  - destruct Hp as [[[= -> ->] ?]|(fd & Hfd & [= -> ->] & ?)]; [left; by rewrite Eh|].
    right. exists fd. rewrite <- Ep. split_and!; [done..|]. cbn. by left.
  - intros i2 fs2 hd2 W2 B2 Hc. eapply wp_mono; [|by apply (wp_unixClose_finish md _ fs2)].
    intros [rc2 [i3|]] hd3 [-> H]; [|done]. destruct H as (-> & Hn & B3).
    split_and!; [done|by apply wf_nRef|done..].
Qed.
