(* ===== verification/LockSystem.v ===== *)
(** Several processes locking one database file: the locking protocol of
    os_unix.c excludes conflicting locks in every interleaving of their system
    calls.

    The kernel is an interface ([PosixLocks]): what POSIX documents of
    [fcntl(F_SETLK)] and of [close].  Every request may be refused, also one that
    releases a lock.  Every system call is one step; the threads of one process
    take turns at [pLockMutex].  [unixClose] is therefore three operations: its
    [unixUnlock], [unixClose_park] and [unixClose_finish].  The last one runs
    without that mutex, and loses the locks of the process if another thread
    takes one before the descriptor is closed; executions with this race (see
    [close_race] in [LockWitnesses]) are left out by [lop_ok]. *)
From S2P Require Import Prelude UnixLock LockInvariant.

(** ** The kernel *)

(** Advisory record locks of the processes on one file. *)
Class PosixLocks (L : Type) := {
  k_held : L -> Z -> held;
  k_setlk : L -> Z -> flock -> Z * L;
  k_getlk : L -> Z -> flock -> Z * ltype;
  k_close : L -> Z -> L }.

Definition conflicts (t1 t2 : ltype) : Prop :=
  t1 = F_WRLCK /\ t2 <> F_UNLCK \/ t2 = F_WRLCK /\ t1 <> F_UNLCK.

#[global] Instance conflicts_dec t1 t2 : Decision (conflicts t1 t2).
Proof. unfold conflicts. apply _. Defined.

Class PosixLocksOk (L : Type) `{K : PosixLocks L} : Prop := {
  (* a granted request replaces the caller's locks on the range *)
  k_setlk_granted l p fl l' :
    k_setlk l p fl = (0, l') -> held_eq (k_held l' p) (apply_lk (k_held l p) fl);
  (* it conflicts with no lock of another process *)
  k_setlk_compatible l p fl l' q b :
    k_setlk l p fl = (0, l') -> q <> p -> in_flock fl b = true ->
    ~ conflicts (l_type fl) (k_held l q b);
  k_setlk_refused l p fl e l' :
    k_setlk l p fl = (e, l') -> e <> 0 -> held_eq (k_held l' p) (k_held l p);
  (* a conflicting request is refused *)
  k_setlk_conflict l p fl e l' q b :
    k_setlk l p fl = (e, l') -> q <> p -> in_flock fl b = true ->
    conflicts (l_type fl) (k_held l q b) -> e = EACCES \/ e = EAGAIN;
  k_setlk_other l p fl e l' q :
    k_setlk l p fl = (e, l') -> q <> p -> held_eq (k_held l' q) (k_held l q);
  (* F_GETLK finds a lock of another process that would conflict *)
  k_getlk_found l p fl t :
    k_getlk l p fl = (0, t) ->
    (t <> F_UNLCK <-> exists q b, q <> p /\ in_flock fl b = true /\
                        conflicts (l_type fl) (k_held l q b));
  (* closing any descriptor of the file drops all locks of the process on it *)
  k_close_self l p : held_eq (k_held (k_close l p) p) no_locks;
  k_close_other l p q : q <> p -> held_eq (k_held (k_close l p) q) (k_held l q) }.

(** ** The system *)

Inductive lop :=
  | LOpen (f : unixFile)
  | LLock (j : nat) (lk : Z)
  | LUnlock (j : nat) (lk : Z)
  | LCheckReserved (j : nat)
  | LPark (j : nat)
  | LFinish (k : nat).

(** What the code above the VFS guarantees of its calls: a new handle has no lock
    and the locking mode of the process, an operation names an open handle, lock
    requests follow the order the [assert]s of the code demand.  And the scheduling
    that the source takes for granted in [unixClose]: no lock was taken between
    the moment it left [pLockMutex] and the closing of the descriptor. *)
Definition lop_ok (md : bool) (s : pstate) (o : lop) : Prop :=
  match o with
  | LOpen f => eFileLock f = NO_LOCK /\ excl_mode f = md /\ is_Some (pPreallocatedUnused f)
  | LLock j lk => exists f, p_files s !! j = Some (Some f) /\ legal_lock f lk
  | LUnlock j lk =>
      (exists f, p_files s !! j = Some (Some f)) /\ (lk = NO_LOCK \/ lk = SHARED_LOCK)
  | LCheckReserved j =>
      exists f, p_files s !! j = Some (Some f) /\ eFileLock f <= SHARED_LOCK
  | LPark j => exists f, p_files s !! j = Some (Some f)
  | LFinish k => exists f, p_closing s !! k = Some f /\
      (0 <= h f -> forall i, p_inode s = Some i -> nLock i = 0)
  end.

(** The result code and the new state of the process.  Opening is the part of
    [unixOpen] that finds the inode; [fstat] and the allocation succeed. *)
Definition lop_prog (s : pstate) (o : lop) : prog (Z * pstate) :=
  match o, p_inode s with
  | LOpen f, inode =>
      let '(rc, inode) := findInodeInfo 0 true inode in
      mret (rc, mkP inode (p_files s ++ [Some f]) (p_closing s))
  | _, None => Crash
  | LLock j lk, Some i =>
      match p_files s !! j with
      | Some (Some f) =>
          '(rc, f, i) ← unixLock f i lk; mret (rc, mkP (Some i) (<[j := Some f]> (p_files s)) (p_closing s))
      | _ => Crash
      end
  | LUnlock j lk, Some i =>
      match p_files s !! j with
      | Some (Some f) =>
          '(rc, f, i) ← unixUnlock f i lk; mret (rc, mkP (Some i) (<[j := Some f]> (p_files s)) (p_closing s))
      | _ => Crash
      end
  | LCheckReserved j, Some i =>
      match p_files s !! j with
      | Some (Some f) =>
          '(rc, _, f) ← unixCheckReservedLock f i;
          mret (rc, mkP (Some i) (<[j := Some f]> (p_files s)) (p_closing s))
      | _ => Crash
      end
  | LPark j, Some i =>
      match p_files s !! j with
      | Some (Some f) =>
          '(f, i) ← unixClose_park f i;
          mret (SQLITE_OK, mkP (Some i) (<[j := None]> (p_files s)) (f :: p_closing s))
      | _ => Crash
      end
  | LFinish k, Some i =>
      match p_closing s !! k with
      | Some f =>
          '(rc, inode) ← unixClose_finish f i;
          mret (rc, mkP inode (p_files s) (delete k (p_closing s)))
      | None => Crash
      end
  end.

(** A process is between operations, in the middle of one, or has failed an
    assertion. *)
Inductive proc :=
  | Idle (s : pstate)
  | Busy (p : prog (Z * pstate)).

Section system.

Context {L : Type} `{K : PosixLocks L} {KOk : PosixLocksOk L}.

(** Whether the handles of a process use unix-excl locking. *)
Context (mode : Z -> bool).

Record sys := mkSys { kern : L; procs : gmap Z proc }.

Inductive step : sys -> sys -> Prop :=
  | step_start l ps p s o :
      ps !! p = Some (Idle s) -> lop_ok (mode p) s o ->
      step (mkSys l ps) (mkSys l (<[p := Busy (lop_prog s o)]> ps))
  | step_setlk l ps p fl k e l' :
      ps !! p = Some (Busy (Setlk fl k)) -> k_setlk l p fl = (e, l') ->
      step (mkSys l ps) (mkSys l' (<[p := Busy (k e)]> ps))
  | step_getlk l ps p fl k e t :
      ps !! p = Some (Busy (Getlk fl k)) -> k_getlk l p fl = (e, t) ->
      step (mkSys l ps) (mkSys l (<[p := Busy (k e t)]> ps))
  | step_close l ps p fd k :
      ps !! p = Some (Busy (CloseFd fd k)) ->
      step (mkSys l ps) (mkSys (k_close l p) (<[p := Busy k]> ps))
  | step_return l ps p rc s :
      ps !! p = Some (Busy (Ret (rc, s))) ->
      step (mkSys l ps) (mkSys l (<[p := Idle s]> ps)).

(** At first no file is open and no lock is held. *)
Definition initial (st : sys) : Prop :=
  (forall p pr, procs st !! p = Some pr -> pr = Idle (mkP None [] [])) /\
  forall p, held_eq (k_held (kern st) p) no_locks.

Definition reachable (st : sys) : Prop := exists st0, initial st0 /\ rtc step st0 st.

(** ** The invariant *)

Definition op_post (p : Z) (r : Z * pstate) (hd : view) : Prop :=
  p_wf (mode p) r.2 /\ p_backs r.2 hd.

Definition proc_inv (p : Z) (pr : proc) (hd : view) : Prop :=
  match pr with
  | Idle s => p_wf (mode p) s /\ p_backs s hd
  | Busy pg => wp pg (op_post p) hd
  end.

(** What the ghost component of a process's view stands for. *)
Definition alone (l : L) (p : Z) : Prop :=
  k_held l p PENDING_BYTE = F_WRLCK /\
  forall b, shared_range b -> k_held l p b <> F_UNLCK /\
    forall q, q <> p -> k_held l q b = F_UNLCK.

Record sys_inv_at (sole : Z -> bool) (st : sys) : Prop := {
  si_procs p pr : procs st !! p = Some pr -> proc_inv p pr (mkView (k_held (kern st) p) (sole p));
  si_exclusive p q b : p <> q -> ~ conflicts (k_held (kern st) p b) (k_held (kern st) q b);
  si_alone p : sole p = true -> alone (kern st) p }.

Definition sys_inv (st : sys) : Prop := exists sole, sys_inv_at sole st.

Lemma p_backs_proper s hd hd' : view_eq hd hd' -> p_backs s hd -> p_backs s hd'.
Proof. unfold p_backs. destruct (p_inode s); [|done]. apply backs_proper. Qed.

Lemma proc_inv_proper p pr hd hd' : view_eq hd hd' -> proc_inv p pr hd -> proc_inv p pr hd'.
Proof.
  intros He. destruct pr as [s|pg]; cbn.
  - intros [? ?]. split; [done|]. by eapply p_backs_proper.
  - apply wp_view_eq; [|done]. intros [rc s] h1 h2 He2 [? ?]. split; [done|].
    by eapply p_backs_proper.
Qed.

(** Each operation, from a good state, runs to a good state. *)
Lemma wp_lop p s o hd :
  p_wf (mode p) s -> p_backs s hd -> lop_ok (mode p) s o -> wp (lop_prog s o) (op_post p) hd.
Proof.
  intros Hw Hb Ho. destruct s as [inode fs cl]. unfold p_backs in Hb. cbn in Hb.
  pose proof (open_count_nonneg fs) as Hnn.
  assert (Hopen : forall j f, fs !! j = Some (Some f) ->
      exists i, inode = Some i /\ wf (mode p) i fs /\ nRef i = p_refs (mkP inode fs cl)).
  { intros j f Hj. unfold p_wf in Hw. cbn in Hw. destruct inode as [i|].
    - exists i. tauto.
    - apply open_count_pos in Hj. unfold p_refs in Hw. cbn in Hw. lia. }
  assert (Hkeep : forall i i' j f f', fs !! j = Some (Some f) -> nRef i = p_refs (mkP inode fs cl) ->
      wf (mode p) i' (<[j := Some f']> fs) -> nRef i' = nRef i ->
      p_wf (mode p) (mkP (Some i') (<[j := Some f']> fs) cl)).
  { intros i i' j f f' Hj Hn W Hn'. pose proof (open_count_insert _ _ _ (Some f') Hj) as Hc.
    pose proof (open_count_pos _ _ _ Hj). unfold p_wf, p_refs in *. cbn in *. split_and!; [done|lia|lia]. }
  destruct o as [f|j lk|j lk|j|j|k]; cbn [lop_ok p_files p_closing p_inode] in Ho.
  - destruct Ho as (Hf & Hm & Hu). unfold lop_prog. cbn [p_inode p_files p_closing].
    destruct (findInodeInfo 0 true inode) as [rc [i|]] eqn:Hfi; [|by destruct inode].
    split; [by apply (wf_open _ (mkP inode fs cl) f rc)|].
    unfold p_backs. cbn. destruct inode as [i0|]; cbn in Hfi; injection Hfi as <- <-; [done|].
    by apply backs_none.
  - destruct Ho as (f & Hj & Hlg). destruct (Hopen _ _ Hj) as (i & -> & W & Hn). cbn. rewrite Hj.
    apply wp_bind. eapply wp_mono; [|apply (wp_unixLock (mode p)); [by eapply wf_local|done|done]].
    intros [[rc f'] i'] hd' (T & B & _). split; [|done]. apply (Hkeep i _ _ f); try done.
    + by eapply wf_trans.
    + apply T.
  - destruct Ho as ((f & Hj) & Hlk). destruct (Hopen _ _ Hj) as (i & -> & W & Hn). cbn. rewrite Hj.
    apply wp_bind. eapply wp_mono; [|apply (wp_posixUnlock (mode p)); [by eapply wf_local|done|done]].
    intros [[rc f'] i'] hd' (T & B & _). split; [|done]. apply (Hkeep i _ _ f); try done.
    + by eapply wf_trans.
    + apply T.
  - destruct Ho as (f & Hj & Hlf). destruct (Hopen _ _ Hj) as (i & -> & W & Hn). cbn. rewrite Hj.
    apply wp_bind. unfold unixCheckReservedLock. apply wp_assert; [by apply Z.leb_le|].
    assert (Hpost : forall rc f', eFileLock f' = eFileLock f -> excl_mode f' = excl_mode f ->
        pPreallocatedUnused f' = pPreallocatedUnused f ->
        op_post p (rc, mkP (Some i) (<[j := Some f']> fs) cl) hd).
    { intros rc f' E1 E2 E3. split; [|done]. apply (Hkeep i _ _ f); try done.
      apply (wf_trans _ i fs j f); [done|done|].
      apply trans_same; try done. by eapply wf_local. }
    case_bool; [|by apply Hpost]. cbn. intros e t. case_bool; cbn; by apply Hpost.
  - destruct Ho as (f & Hj). destruct (Hopen _ _ Hj) as (i & -> & W & Hn). cbn. rewrite Hj.
    apply wp_bind. eapply wp_mono; [|apply (wp_unixClose_park (mode p)); by eapply wf_local].
    intros [f' i'] hd' [Hp ->]. destruct (wf_park _ _ _ _ _ _ W Hj Hp) as (W' & B' & Hn' & _).
    pose proof (open_count_insert _ _ _ None Hj) as Hc. pose proof (open_count_pos _ _ _ Hj).
    unfold op_post, p_wf, p_refs in *. cbn in *. split; [split_and!; [done|lia|lia]|auto].
  - destruct Ho as (f & Hk & Hc). pose proof (length_delete cl k (mk_is_Some _ _ Hk)) as Hlen.
    apply lookup_lt_Some in Hk as Hlt.
    unfold p_wf, p_refs in Hw. cbn in Hw. destruct inode as [i|]; [|lia]. destruct Hw as (W & Hn & Hr).
    cbn. rewrite Hk. apply wp_bind.
    eapply wp_mono; [|apply (wp_unixClose_finish (mode p) _ fs); [done|done|intros; by apply Hc]].
    intros [rc inode] hd' [-> H]. unfold op_post, p_wf, p_backs, p_refs. cbn. destruct inode as [i'|].
    + destruct H as (-> & Hne & B'). cbn. split; [split_and!; [by apply wf_nRef|lia|lia]|done].
    + split; [lia|done].
Qed.

Lemma initial_inv st : initial st -> sys_inv st.
Proof.
  intros [Hp Hh]. exists (fun _ => false). split; [| |done].
  - intros p pr H. rewrite (Hp _ _ H). by split.
  - intros p q b _. unfold conflicts. rewrite (Hh p b), (Hh q b). unfold no_locks. naive_solver.
Qed.

(** Replacing one process: the others are unaffected when the kernel changed
    only that process's locks, to compatible ones. *)
Lemma inv_update sole x l l' ps p pr :
  sys_inv_at sole (mkSys l ps) -> proc_inv p pr (mkView (k_held l' p) x) ->
  (forall q, q <> p -> held_eq (k_held l' q) (k_held l q)) ->
  (forall q b, q <> p -> ~ conflicts (k_held l' p b) (k_held l q b)) ->
  (x = true -> alone l' p) ->
  (forall q b, q <> p -> sole q = true -> shared_range b -> k_held l' p b = F_UNLCK) ->
  sys_inv (mkSys l' (<[p := pr]> ps)).
Proof.
  intros [Hps Hex Hal] Hpr Ho Hc Hx Hq'. cbn in Hps, Hex, Hal.
  exists (fun q => if decide (q = p) then x else sole q). split; cbn.
  - intros q pr'. destruct (decide (q = p)) as [->|Hne].
    + rewrite lookup_insert_eq. by intros [= <-].
    + rewrite lookup_insert_ne by done. intros Hq.
      apply (proc_inv_proper _ _ (mkView (k_held l q) (sole q))); [|auto].
      split; [|done]. symmetry. cbn. auto.
  - assert (Hsym : forall t1 t2, conflicts t1 t2 -> conflicts t2 t1)
      by (unfold conflicts; naive_solver).
    intros q r b Hne. destruct (decide (q = p)) as [->|Hq].
    + rewrite (Ho r) by done. by apply Hc.
    + destruct (decide (r = p)) as [->|Hr].
      * rewrite (Ho q) by done. intros ?%Hsym. by eapply Hc.
      * rewrite (Ho q), (Ho r) by done. auto.
  - intros q. case_decide as Hq; [subst; auto|]. intros Hs. destruct (Hal q Hs) as [Hpb Hb].
    split; [by rewrite Ho|]. intros b Hr. destruct (Hb b Hr) as [Hb1 Hb2]. split; [by rewrite Ho|].
    intros r Hne. destruct (decide (r = p)) as [->|Hrp]; [by eapply Hq'|]. rewrite Ho by done. auto.
Qed.

(** A granted request keeps the process alone on the shared range, or makes it
    so, as the ghost component says. *)
Lemma alone_granted sole l ps p fl l' :
  sys_inv_at sole (mkSys l ps) -> k_setlk l p fl = (0, l') ->
  sole_after (mkView (k_held l p) (sole p)) fl = true -> alone l' p.
Proof.
  intros [_ _ Hal] Hk Hs. cbn in Hal. pose proof (k_setlk_granted _ _ _ _ Hk) as Hg.
  pose proof (fun q b Hne => k_setlk_compatible _ _ _ _ q b Hk Hne) as Hc.
  assert (Hrange : on_shared_range fl = true -> forall b, in_flock fl b = true <-> shared_range b).
  { unfold on_shared_range, in_flock. intros [->%Z.eqb_eq ->%Z.eqb_eq]%andb_true_iff b.
    change (SHARED_SIZE =? 0) with false. cbn [orb]. rewrite andb_true_iff, Z.leb_le, Z.ltb_lt. done. }
  assert (Hold : sole p = true -> l_type fl <> F_UNLCK ->
      (in_flock fl PENDING_BYTE = true -> l_type fl = F_WRLCK) -> alone l' p).
  { intros Hsp Ht Hpb. destruct (Hal _ Hsp) as [Ha Hb]. split.
    - rewrite (Hg _). unfold apply_lk. case_bool; auto.
    - intros b Hr. destruct (Hb b Hr) as [Hb1 Hb2]. split.
      + rewrite (Hg _). unfold apply_lk. by case_bool.
      + intros q Hq. rewrite (k_setlk_other _ _ _ _ _ _ Hk Hq b). auto. }
  unfold sole_after in Hs. cbn in Hs. destruct (l_type fl) eqn:Ht; [|apply orb_true_iff in Hs as [Hs|Hs]|done].
  - apply andb_true_iff in Hs as [Hs Hr]. apply Hold; try done.
    intros Hin%(Hrange Hr). lk_arith.
  - by apply Hold.
  - apply andb_true_iff in Hs as [Hr Hpb]. apply bool_decide_eq_true in Hpb. split.
    + rewrite (Hg _). unfold apply_lk. case_bool; [done|exact Hpb].
    + intros b Hb. apply (Hrange Hr) in Hb as Hin. split.
      * rewrite (Hg _). unfold apply_lk. by rewrite Hin, Ht.
      * intros q Hq. rewrite (k_setlk_other _ _ _ _ _ _ Hk Hq b).
        specialize (Hc q b Hq Hin). unfold conflicts in Hc. destruct (k_held l q b); naive_solver.
Qed.

(** A process that keeps to the order of the protocol gets no lock on the shared
    range while another process is alone on it. *)
Lemma alone_excludes sole l ps p fl l' q b :
  sys_inv_at sole (mkSys l ps) -> k_setlk l p fl = (0, l') ->
  disciplined (mkView (k_held l p) (sole p)) fl ->
  q <> p -> sole q = true -> shared_range b -> k_held l' p b = F_UNLCK.
Proof.
  intros [_ Hex Hal] Hk Hd Hq Hs Hr. cbn in Hex, Hal. destruct (Hal _ Hs) as [Hpb Hb].
  destruct (Hb b Hr) as [Hb1 Hb2]. specialize (Hb2 p ltac:(done)).
  rewrite (k_setlk_granted _ _ _ _ Hk b). unfold apply_lk. destruct (in_flock fl b) eqn:Hin; [|done].
  pose proof (k_setlk_compatible _ _ _ _ q b Hk Hq Hin) as Hc. unfold conflicts in Hc, Hex.
  destruct (l_type fl) eqn:Ht; [|naive_solver|done].
  destruct (Hd Ht b Hin Hr) as [Hp|Hp]; cbn in Hp; [|done].
  specialize (Hex q p PENDING_BYTE Hq). naive_solver.
Qed.

Lemma step_inv st st' : step st st' -> sys_inv st -> sys_inv st'.
Proof.
  intros Hs [sole I]. pose proof I as [Hps Hex Hal].
  assert (Hout : forall p q b, q <> p -> sole q = true -> shared_range b -> k_held (kern st) p b = F_UNLCK).
  { intros p q b Hq Hsq Hr. destruct (Hal q Hsq) as [_ Hb]. by apply (Hb b Hr). }
  destruct Hs as [l ps p s o Hp Ho|l ps p fl k e l' Hp Hk|l ps p fl k e t Hp Hk|l ps p fd k Hp
    |l ps p rc s Hp]; cbn in Hps, Hex, Hal, Hout; pose proof (Hps _ _ Hp) as Hi; cbn in Hi.
  - eapply (inv_update _ (sole p)); try exact I; try done; eauto. destruct Hi. by apply wp_lop.
  - destruct Hi as (Hd & H0 & He). destruct (decide (e = 0)) as [->|Hne].
    + eapply (inv_update _ (sole_after (mkView (k_held l p) (sole p)) fl)); try exact I.
      * apply (proc_inv_proper p (Busy (k 0)) (granted (mkView (k_held l p) (sole p)) fl)); [|done].
        split; [|done]. cbn. symmetry. by apply k_setlk_granted.
      * intros q Hq. by eapply k_setlk_other.
      * intros q b Hq. rewrite (k_setlk_granted _ _ _ _ Hk b). unfold apply_lk. case_bool; [|auto].
        by eapply k_setlk_compatible.
      * by eapply alone_granted.
      * intros. by eapply alone_excludes.
    + pose proof (k_setlk_refused _ _ _ _ _ Hk Hne) as Hr.
      eapply (inv_update _ (sole p)); try exact I.
      * apply (proc_inv_proper p (Busy (k e)) (mkView (k_held l p) (sole p))); [|by apply He].
        split; [|done]. cbn. by symmetry.
      * intros q Hq. by eapply k_setlk_other.
      * intros q b Hq. rewrite (Hr b). auto.
      * intros [Ha Hb]%Hal. split; [by rewrite (Hr _)|]. intros b Hb1. destruct (Hb b Hb1).
        split; [by rewrite (Hr _)|]. intros q Hq. rewrite (k_setlk_other _ _ _ _ _ _ Hk Hq b). auto.
      * intros q b Hq Hsq Hb. rewrite (Hr b). eauto.
  - eapply (inv_update _ (sole p)); try exact I; try done; eauto. cbn in Hi. by apply Hi.
  - eapply (inv_update _ false); try exact I; try done.
    + apply (proc_inv_proper p (Busy k) closed); [|done]. split; [|done]. symmetry. apply k_close_self.
    + intros q Hq. by apply k_close_other.
    + intros q b Hq. rewrite (k_close_self l p b). unfold conflicts, no_locks. naive_solver.
    + intros q b _ _ _. by rewrite (k_close_self l p b).
  - eapply (inv_update _ (sole p)); try exact I; try done; eauto.
Qed.

Lemma reachable_inv st : reachable st -> sys_inv st.
Proof.
  intros (st0 & H0 & Hs). apply initial_inv in H0. induction Hs as [|st0 st1 st2 H1 _ IH]; [done|].
  apply IH. by eapply step_inv.
Qed.

(** A process between operations whose inode has a level holds the shared range. *)
Lemma backs_shared s i hd :
  p_backs s hd -> p_inode s = Some i -> SHARED_LOCK <= i_eFileLock i ->
  hd SHARED_FIRST <> F_UNLCK.
Proof.
  intros Hb Hi Hl. unfold p_backs in Hb. rewrite Hi in Hb. unfold backs in Hb.
  assert (shared_range SHARED_FIRST) by lk_arith.
  destruct (bProcessLock i); [by rewrite Hb|naive_solver].
Qed.

Lemma reachable_exclusive st p q b :
  reachable st -> p <> q -> ~ conflicts (k_held (kern st) p b) (k_held (kern st) q b).
Proof. intros [sole I]%reachable_inv. by apply (si_exclusive _ _ I). Qed.

Lemma idle_facts st p s :
  reachable st -> procs st !! p = Some (Idle s) ->
  p_wf (mode p) s /\ exists x, p_backs s (mkView (k_held (kern st) p) x) /\
    (x = true -> forall q b, q <> p -> shared_range b -> k_held (kern st) q b = F_UNLCK).
Proof.
  intros [sole I]%reachable_inv Hp. destruct (si_procs _ _ I _ _ Hp) as [Hw Hb]. split; [done|].
  exists (sole p). split; [done|]. intros Hs q b Hq Hr. destruct (si_alone _ _ I _ Hs) as [_ Ha].
  by apply (Ha b Hr).
Qed.

(** C5: No two processes hold conflicting locks.  Whenever two processes are
    between operations, however the system calls of all processes interleaved
    and whichever of them were refused (releases included) before: while one has
    an EXCLUSIVE lock (or the process lock of unix-excl), the other has none;
    they never both have a RESERVED lock; and they never both have PENDING or
    more.  The operations are those of [lop_ok]: the pager's order of requests, and
    no lock of the process taken between [unixClose_park] and the closing of the
    descriptor ([close_race] shows two processes with EXCLUSIVE otherwise). *)
Theorem lock_exclusion st p q s s' i i' :
  reachable st -> p <> q ->
  procs st !! p = Some (Idle s) -> procs st !! q = Some (Idle s') ->
  p_inode s = Some i -> p_inode s' = Some i' ->
  (i_eFileLock i = EXCLUSIVE_LOCK \/ bProcessLock i = true ->
    i_eFileLock i' < SHARED_LOCK /\ bProcessLock i' = false) /\
  ~ (i_eFileLock i = RESERVED_LOCK /\ i_eFileLock i' = RESERVED_LOCK) /\
  ~ (PENDING_LOCK <= i_eFileLock i /\ PENDING_LOCK <= i_eFileLock i').
Proof.
  intros Hr Hne Hp Hq Hi Hi'.
  destruct (idle_facts _ _ _ Hr Hp) as (Hw & x & Hb & Hx), (idle_facts _ _ _ Hr Hq) as (Hw' & x' & Hb' & _).
  pose proof (backs_shared _ _ _ Hb Hi) as Hs. pose proof (backs_shared _ _ _ Hb' Hi') as Hs'.
  pose proof (fun b => reachable_exclusive st p q b Hr Hne) as Hex.
  unfold p_backs in Hb, Hb'. rewrite Hi in Hb. rewrite Hi' in Hb'. unfold backs in Hb, Hb'. cbn in *.
  assert (Hsf : shared_range SHARED_FIRST) by lk_arith.
  assert (Hnone : k_held (kern st) q SHARED_FIRST = F_UNLCK ->
      i_eFileLock i' < SHARED_LOCK /\ bProcessLock i' = false).
  { intros E. split.
    - apply Z.nle_gt. intros ?%Hs'. done.
    - destruct (bProcessLock i'); [|done]. by rewrite Hb' in E. }
  unfold conflicts in Hex.
  assert (Hproc : bProcessLock i = true -> k_held (kern st) q SHARED_FIRST = F_UNLCK).
  { intros E. rewrite E in Hb. specialize (Hex SHARED_FIRST). rewrite Hb in Hex by done.
    destruct (k_held (kern st) q SHARED_FIRST); naive_solver. }
  assert (Hproc' : bProcessLock i' = true -> k_held (kern st) p SHARED_FIRST = F_UNLCK).
  { intros E. rewrite E in Hb'. specialize (Hex SHARED_FIRST). rewrite Hb' in Hex by done.
    destruct (k_held (kern st) p SHARED_FIRST); naive_solver. }
  assert (Hmode : SHARED_LOCK <= i_eFileLock i -> SHARED_LOCK <= i_eFileLock i' ->
      bProcessLock i = false /\ bProcessLock i' = false).
  { intros F F'. split; apply not_true_is_false; intros E; [apply Hs'|apply Hs]; auto. }
  split; [|split].
  - intros [E|E]; apply Hnone; [|auto]. destruct (bProcessLock i) eqn:Eb; [auto|].
    destruct Hb as (_ & _ & _ & Hb). by apply Hx; [apply Hb|..].
  - intros [E E']. destruct Hmode as [Eb Eb']; [lk_arith..|]. rewrite Eb in Hb. rewrite Eb' in Hb'.
    destruct Hb as (_ & Hb & _), Hb' as (_ & Hb' & _). specialize (Hex RESERVED_BYTE).
    rewrite Hb, Hb' in Hex by done. naive_solver.
  - intros [E E']. destruct Hmode as [Eb Eb']; [lk_arith..|]. rewrite Eb in Hb. rewrite Eb' in Hb'.
    destruct Hb as (_ & _ & Hb & _), Hb' as (_ & _ & Hb' & _). specialize (Hex PENDING_BYTE).
    rewrite Hb, Hb' in Hex by done. naive_solver.
Qed.

(** C7: No [assert] of the locking functions ever fails, whichever requests the
    kernel refuses (to set a lock or to release one, with any errno) and however
    the processes interleave, as long as the pager keeps the order of lock
    requests it promises and no lock is taken between the critical sections of
    [unixClose] and the closing of the descriptor ([lop_ok]). *)
Theorem locking_never_crashes st p : reachable st -> procs st !! p <> Some (Busy Crash).
Proof. intros [sole I]%reachable_inv Hp. exact (si_procs _ _ I _ _ Hp). Qed.

(** C6: Handles of one process, which the kernel does not tell apart, exclude
    each other through the shared inode: at most one handle is above SHARED, it
    then has the level of the inode, and a handle with an EXCLUSIVE lock is the
    only one with any lock. *)
Theorem handles_exclude st p s i j k f g :
  reachable st -> procs st !! p = Some (Idle s) -> p_inode s = Some i ->
  p_files s !! j = Some (Some f) -> p_files s !! k = Some (Some g) -> j <> k ->
  (SHARED_LOCK < eFileLock f -> eFileLock f = i_eFileLock i /\ eFileLock g <= SHARED_LOCK) /\
  (eFileLock f = EXCLUSIVE_LOCK -> eFileLock g = NO_LOCK).
Proof.
  intros Hr Hp Hi Hj Hk Hne. destruct (idle_facts _ _ _ Hr Hp) as [Hw _].
  unfold p_wf in Hw. rewrite Hi in Hw. destruct Hw as [W _].
  destruct (wf_level _ _ _ W _ _ Hj) as [Hl Ho], (wf_level _ _ _ W _ _ Hk) as [Hl' _]. split.
  - intros Hs. split; [auto|]. apply Z.nlt_ge. intros Hs'. apply Hne. by apply (wf_unique _ _ _ W j k f g).
  - intros Hx. assert (i_eFileLock i = EXCLUSIVE_LOCK) as Hi2 by (rewrite <- Ho; lk_arith).
    pose proof (wf_excl _ _ _ W Hi2) as H1. pose proof (wf_count _ _ _ W) as H2.
    destruct (Z.lt_ge_cases (eFileLock g) SHARED_LOCK) as [|Hg]; [lk_arith|].
    assert (Hf : SHARED_LOCK <= eFileLock f) by lk_arith.
    pose proof (lock_count_two _ _ _ _ _ Hne Hj Hk Hf Hg). lia.
Qed.

(** ** A whole operation against the kernel *)

Fixpoint run {A} (l : L) (p : Z) (pg : prog A) : option (A * L) :=
  match pg with
  | Ret a => Some (a, l)
  | Setlk fl k => let '(e, l') := k_setlk l p fl in run l' p (k e)
  | Getlk fl k => let '(e, t) := k_getlk l p fl in run l p (k e t)
  | CloseFd fd k => run (k_close l p) p k
  | Crash => None
  end.

Lemma run_steps l l' ps p pg a :
  ps !! p = Some (Busy pg) -> run l p pg = Some (a, l') ->
  rtc step (mkSys l ps) (mkSys l' (<[p := Busy (Ret a)]> ps)).
Proof.
  revert l ps. induction pg as [r|fl k IH|fl k IH|fd k IH|]; intros l ps Hp; cbn; [| | | |done].
  - intros [= -> ->]. by rewrite insert_id.
  - destruct (k_setlk l p fl) as [e l2] eqn:Hk. intros Hr. eapply rtc_l; [by eapply step_setlk|].
    rewrite <- (insert_insert_eq ps p (Busy (Ret a)) (Busy (k e))). apply (IH e); [|done].
    by rewrite lookup_insert_eq.
  - destruct (k_getlk l p fl) as [e t] eqn:Hk. intros Hr. eapply rtc_l; [by eapply step_getlk|].
    rewrite <- (insert_insert_eq ps p (Busy (Ret a)) (Busy (k e t))). apply (IH e t); [|done].
    by rewrite lookup_insert_eq.
  - intros Hr. eapply rtc_l; [by eapply step_close|].
    rewrite <- (insert_insert_eq ps p (Busy (Ret a)) (Busy k)). apply IH; [|done].
    by rewrite lookup_insert_eq.
Qed.

(** One process performs a whole operation while the others wait. *)
Lemma run_op l l' ps p s o rc s' :
  ps !! p = Some (Idle s) -> lop_ok (mode p) s o -> run l p (lop_prog s o) = Some ((rc, s'), l') ->
  rtc step (mkSys l ps) (mkSys l' (<[p := Idle s']> ps)).
Proof.
  intros Hp Ho Hr. eapply rtc_l; [by eapply step_start|]. eapply rtc_r.
  - eapply run_steps; [|exact Hr]. by rewrite lookup_insert_eq.
  - rewrite insert_insert_eq. rewrite <- (insert_insert_eq ps p (Idle s') (Busy (Ret (rc, s')))).
    apply (step_return _ _ _ rc). by rewrite lookup_insert_eq.
Qed.

(** A writer that waits for readers is not starved: while a process (not of
    unix-excl) has a PENDING or an EXCLUSIVE lock, a request for SHARED in any other process
    without locks is answered SQLITE_BUSY and changes nothing. *)
Theorem pending_blocks_readers st p q s s' i i' j f :
  reachable st -> p <> q ->
  procs st !! p = Some (Idle s) -> procs st !! q = Some (Idle s') ->
  p_inode s = Some i -> PENDING_LOCK <= i_eFileLock i -> bProcessLock i = false ->
  p_inode s' = Some i' -> i_eFileLock i' = NO_LOCK -> p_files s' !! j = Some (Some f) ->
  exists l', run (kern st) q (unixLock f i' SHARED_LOCK) = Some ((SQLITE_BUSY, f, i'), l') /\
    held_eq (k_held l' q) (k_held (kern st) q).
Proof.
  intros Hr Hne Hp Hq Hi Hl Hbp Hi' Hl' Hj.
  destruct (idle_facts _ _ _ Hr Hp) as (Hw & x & Hb & _), (idle_facts _ _ _ Hr Hq) as (Hw' & x' & Hb' & _).
  pose proof (backs_shared _ _ _ Hb Hi ltac:(lk_arith)) as Hs.
  unfold p_wf in Hw, Hw'. unfold p_backs in Hb, Hb'. rewrite Hi in Hw, Hb. rewrite Hi' in Hw', Hb'. cbn in Hs.
  pose proof (wf_local _ _ _ _ _ (proj1 Hw') Hj) as L'.
  assert (Hf0 : eFileLock f = NO_LOCK) by (destruct L'; lk_arith).
  assert (Hsf : shared_range SHARED_FIRST) by lk_arith.
  pose proof (reachable_exclusive st p q SHARED_FIRST Hr Hne) as Hex. unfold conflicts in Hex.
  assert (Hpr : bProcessLock i' = false).
  { destruct (bProcessLock i') eqn:E; [|done]. unfold backs in Hb'. rewrite E in Hb'. cbn in Hb'.
    rewrite Hb' in Hex by done. naive_solver. }
  assert (Hbusy : forall fl, conflicts (l_type fl) (k_held (kern st) p (l_start fl)) ->
      in_flock fl (l_start fl) = true ->
      exists e l', k_setlk (kern st) q fl = (e, l') /\ e <> 0 /\
        sqliteErrorFromPosixError e SQLITE_IOERR_LOCK = SQLITE_BUSY /\
        held_eq (k_held l' q) (k_held (kern st) q)).
  { intros fl Hc Hin. destruct (k_setlk (kern st) q fl) as [e l'] eqn:Hk. exists e, l'.
    destruct (k_setlk_conflict _ _ _ _ _ p _ Hk Hne Hin Hc) as [-> | ->];
      (split_and!; [done|done|done|]; by eapply k_setlk_refused). }
  unfold unixLock. rewrite Hf0, Hl'. cbn [Z.leb Z.eqb Z.compare negb orb andb assert].
  change (SHARED_LOCK <=? NO_LOCK) with false. change (SHARED_LOCK =? SHARED_LOCK) with true.
  cbn -[unixLock_shared unixLock_write unixFileLock sqliteErrorFromPosixError].
  unfold unixFileLock. destruct (Z.land (ctrlFlags f) _ =? UNIXFILE_EXCL) eqn:Hmd.
  - rewrite Hpr. cbn [negb]. rewrite (lc_nLock _ _ _ L'), Hpr.
    rewrite (proj1 (lc_no _ _ _ L') Hl'). change (0 + 0 =? 0) with true.
    cbn -[sqliteErrorFromPosixError].
    destruct (Hbusy (mkFlock F_WRLCK SHARED_FIRST SHARED_SIZE)) as (e & l' & -> & He & Hsq & Hh);
      [by left|done|].
    rewrite (proj2 (Z.eqb_neq e 0)) by done. cbn -[sqliteErrorFromPosixError].
    rewrite (proj2 (Z.eqb_neq e 0)) by done. cbn -[sqliteErrorFromPosixError].
    rewrite Hsq. by exists l'.
  - cbn -[sqliteErrorFromPosixError].
    destruct (Hbusy (mkFlock F_RDLCK PENDING_BYTE 1)) as (e & l' & -> & He & Hsq & Hh); [|done|].
    { right. split; [|done]. cbn. unfold backs in Hb. rewrite Hbp in Hb.
      destruct Hb as (_ & _ & Hb & _). by apply Hb. }
    cbn -[sqliteErrorFromPosixError]. rewrite (proj2 (Z.eqb_neq e 0)) by done. cbn -[sqliteErrorFromPosixError].
    rewrite Hsq. by exists l'.
Qed.

(** [unixCheckReservedLock] in process [q] (not of unix-excl) either reports
    the failure of the system call or answers exactly whether some process, this
    one or another, has a lock above SHARED that is marked on the RESERVED byte;
    in particular it sees every RESERVED lock of another process. *)
Theorem check_reserved_correct st q s i j f rc r f' l' :
  reachable st -> procs st !! q = Some (Idle s) -> p_inode s = Some i -> bProcessLock i = false ->
  p_files s !! j = Some (Some f) ->
  run (kern st) q (unixCheckReservedLock f i) = Some ((rc, r, f'), l') ->
  l' = kern st /\
  (rc = SQLITE_IOERR_CHECKRESERVEDLOCK \/
   rc = SQLITE_OK /\ f' = f /\
   (r = true <-> SHARED_LOCK < i_eFileLock i \/
      exists p, p <> q /\ k_held (kern st) p RESERVED_BYTE <> F_UNLCK) /\
   (r = false -> forall p s' i', p <> q -> procs st !! p = Some (Idle s') -> p_inode s' = Some i' ->
      bProcessLock i' = false -> i_eFileLock i' <> RESERVED_LOCK)).
Proof.
  intros Hr Hq Hi Hb Hj. unfold unixCheckReservedLock. rewrite Hb.
  destruct (eFileLock f <=? SHARED_LOCK); [|done]. cbn [assert].
  assert (Hres : forall p s' i', p <> q -> procs st !! p = Some (Idle s') -> p_inode s' = Some i' ->
      bProcessLock i' = false -> i_eFileLock i' = RESERVED_LOCK ->
      exists p, p <> q /\ k_held (kern st) p RESERVED_BYTE <> F_UNLCK).
  { intros p s' i' Hne Hp Hi' Hb' He. exists p. split; [done|].
    destruct (idle_facts _ _ _ Hr Hp) as (_ & x & Bk & _). unfold p_backs, backs in Bk. rewrite Hi', Hb' in Bk.
    destruct Bk as (_ & Bk & _). cbn in Bk. by rewrite Bk. }
  destruct (SHARED_LOCK <? i_eFileLock i) eqn:Hlt; bool_to_prop; cbn.
  { intros [= <- <- <- <-]. split; [done|]. right. split_and!; [done|done| |done]. split; auto. }
  destruct (k_getlk _ _ _) as [e t] eqn:Hk. destruct (decide (e = 0)) as [->|Hne]; cbn.
  - intros [= <- <- <- <-]. split; [done|]. right.
    assert (Hiff : bool_decide (t <> F_UNLCK) = true <-> SHARED_LOCK < i_eFileLock i \/
        exists p, p <> q /\ k_held (kern st) p RESERVED_BYTE <> F_UNLCK).
    { rewrite bool_decide_eq_true, (k_getlk_found _ _ _ _ Hk). cbn. split.
      - intros (p & b & Hp & Hin & Hc). right. exists p. split; [done|].
        assert (b = RESERVED_BYTE) as ->; [|by destruct Hc as [[_ ?]|[-> _]]].
        unfold in_flock in Hin. cbn in Hin. bool_to_prop. lk_arith.
      - intros [?|(p & Hp & Hh)]; [lia|]. exists p, RESERVED_BYTE. split_and!; [done|done|by left]. }
    split_and!; [done|done|exact Hiff|]. intros Hf p s' i' Hp Hps Hi' Hb' He.
    rewrite (proj2 Hiff) in Hf; [done|]. right. by eapply Hres.
  - rewrite (proj2 (Z.eqb_neq e 0)) by done. cbn. intros [= <- <- <- <-]. split; [done|by left].
Qed.

End system.

(** A release that the kernel refuses.  When [posixUnlock] lowers an
    EXCLUSIVE lock to SHARED, the read lock on the shared range is granted and
    then the release of the PENDING and RESERVED bytes fails, the handle still
    reports EXCLUSIVE: a later request for EXCLUSIVE is answered SQLITE_OK
    without a system call, although the process now only has a read lock on the
    shared range.  By [lock_exclusion] no other process gets a lock all the same:
    the PENDING byte is still locked. *)
Theorem failed_unlock_keeps_level `{K : PosixLocks L} l l1 l2 p f i e :
  excl_mode f = false -> eFileLock f = EXCLUSIVE_LOCK -> i_eFileLock i = EXCLUSIVE_LOCK ->
  nShared i <> 0 -> e <> 0 ->
  k_setlk l p (mkFlock F_RDLCK SHARED_FIRST SHARED_SIZE) = (0, l1) ->
  k_setlk l1 p (mkFlock F_UNLCK PENDING_BYTE 2) = (e, l2) ->
  exists f', run l p (posixUnlock f i SHARED_LOCK) = Some ((SQLITE_IOERR_UNLOCK, f', i), l2) /\
    run l2 p (unixLock f' i EXCLUSIVE_LOCK) = Some ((SQLITE_OK, f', i), l2).
Proof.
  intros Hm Hf Hi Hn He H1 H2. unfold posixUnlock, posixUnlock_lower, unixFileLock.
  unfold excl_mode in Hm. rewrite Hm, Hf, Hi. cbn -[PENDING_BYTE SHARED_FIRST SHARED_SIZE].
  rewrite (proj2 (Z.eqb_neq _ 0)) by done. cbn -[PENDING_BYTE SHARED_FIRST SHARED_SIZE].
  rewrite H1. cbn -[PENDING_BYTE SHARED_FIRST SHARED_SIZE]. rewrite H2. cbn.
  rewrite (proj2 (Z.eqb_neq e 0)) by done. cbn. eexists. split; [done|].
  unfold unixLock. cbn. by rewrite Hf.
Qed.
