(* ===== verification/LockKernel.v ===== *)
(** A kernel with POSIX record locks, an instance of the interface of
    [LockSystem]: the requests granted so far, newest first.  It grants locks
    only on [size] bytes from [base] on, and refuses every other request; it
    also refuses the releases that [refused] names, with ENOLCK. *)
From S2P Require Import Prelude UnixLock LockInvariant LockSystem.

(** The requests granted to a process that has not closed the file since. *)
Abbreviation lock_log := (list (Z * flock)).

Fixpoint log_lookup (l : lock_log) (p : Z) : held :=
  match l with
  | [] => no_locks
  | (q, fl) :: l => if q =? p then apply_lk (log_lookup l p) fl else log_lookup l p
  end.

Section kernel.
Context (base size : Z) (refused : Z -> flock -> bool).

Definition is_lock_byte (b : Z) : bool := (base <=? b) && (b <? base + size).

Definition log_held (l : lock_log) (p : Z) : held :=
  fun b => if is_lock_byte b then log_lookup l p b else F_UNLCK.

Definition log_pids (l : lock_log) : list Z := remove_dups l.*1.

Definition lock_bytes : list Z := seqZ base size.

(** The lock of another process that stands against a request. *)
Definition log_conflict (l : lock_log) (p : Z) (fl : flock) : option ltype :=
  head (q ← log_pids l; b ← lock_bytes;
        if decide (q <> p /\ in_flock fl b = true /\ conflicts (l_type fl) (log_held l q b))
        then [log_held l q b] else []).

Definition log_setlk (l : lock_log) (p : Z) (fl : flock) : Z * lock_log :=
  match l_type fl with
  | F_UNLCK => if refused p fl then (ENOLCK, l) else (0, (p, fl) :: l)
  | _ =>
      if (base <=? l_start fl) && (0 <? l_len fl)
         && (l_start fl + l_len fl <=? base + size)
         && bool_decide (log_conflict l p fl = None)
      then (0, (p, fl) :: l) else (EAGAIN, l)
  end.

Definition log_getlk (l : lock_log) (p : Z) (fl : flock) : Z * ltype :=
  (0, default F_UNLCK (log_conflict l p fl)).

Definition log_close (l : lock_log) (p : Z) : lock_log := filter (fun e => e.1 <> p) l.

#[local] Instance log_locks : PosixLocks lock_log := {
  k_held := log_held; k_setlk := log_setlk; k_getlk := log_getlk; k_close := log_close }.

Lemma lock_bytes_spec b : b ∈ lock_bytes <-> is_lock_byte b = true.
Proof.
  unfold lock_bytes, is_lock_byte. rewrite elem_of_seqZ, andb_true_iff, Z.leb_le, Z.ltb_lt. lia.
Qed.

Lemma log_lookup_pid l p b : log_lookup l p b <> F_UNLCK -> p ∈ log_pids l.
Proof.
  unfold log_pids. rewrite elem_of_remove_dups. induction l as [|[q fl] l IH]; cbn; [done|].
  rewrite elem_of_cons. destruct (q =? p) eqn:E; bool_to_prop; [by left|right; auto].
Qed.

Lemma conflicts_locked t1 t2 : conflicts t1 t2 -> t1 <> F_UNLCK /\ t2 <> F_UNLCK.
Proof. intros [[-> ?]|[-> ?]]; by split. Qed.

Lemma log_conflict_elem l p fl t :
  t ∈ (q ← log_pids l; b ← lock_bytes;
        if decide (q <> p /\ in_flock fl b = true /\ conflicts (l_type fl) (log_held l q b))
        then [log_held l q b] else []) <->
  exists q b, q <> p /\ in_flock fl b = true /\ conflicts (l_type fl) (log_held l q b) /\
    t = log_held l q b.
Proof.
  rewrite list_elem_of_bind. split.
  - intros (q & Hb & _). apply list_elem_of_bind in Hb as (b & Ht & _).
    case_decide as Hd; [|by apply not_elem_of_nil in Ht]. apply list_elem_of_singleton in Ht.
    exists q, b. naive_solver.
  - intros (q & b & Hq & Hin & Hc & ->). exists q.
    destruct (conflicts_locked _ _ Hc) as [_ Hl].
    assert (is_lock_byte b = true /\ log_lookup l q b <> F_UNLCK) as [Hb Hl'].
    { unfold log_held in Hl. by destruct (is_lock_byte b). }
    split; [|by eapply log_lookup_pid]. apply list_elem_of_bind. exists b.
    split; [|by apply lock_bytes_spec]. rewrite decide_True by done. by apply list_elem_of_singleton.
Qed.

Lemma log_conflict_none l p fl :
  log_conflict l p fl = None <->
  forall q b, q <> p -> in_flock fl b = true -> ~ conflicts (l_type fl) (log_held l q b).
Proof.
  unfold log_conflict. rewrite head_None. split.
  - intros Hn q b Hq Hin Hc.
    assert (log_held l q b ∈ (@nil ltype)); [|by eapply not_elem_of_nil].
    rewrite <- Hn. apply log_conflict_elem. by exists q, b.
  - intros H. destruct (_ ≫= _) as [|t ts] eqn:E; [done|].
    assert (Ht : t ∈ t :: ts) by (by left). rewrite <- E in Ht.
    apply log_conflict_elem in Ht as (q & b & Hq & Hin & Hc & _). by destruct (H q b).
Qed.

Lemma log_conflict_some l p fl t :
  log_conflict l p fl = Some t ->
  exists q b, q <> p /\ in_flock fl b = true /\ conflicts (l_type fl) (log_held l q b) /\
    t = log_held l q b.
Proof.
  unfold log_conflict. intros H. apply log_conflict_elem. destruct (_ ≫= _); [done|].
  injection H as ->. by left.
Qed.

(** What a request does: it is granted, or refused with no change. *)
Lemma log_setlk_cases l p fl :
  log_setlk l p fl = (EAGAIN, l) /\ l_type fl <> F_UNLCK \/
  log_setlk l p fl = (ENOLCK, l) /\ l_type fl = F_UNLCK \/
  log_setlk l p fl = (0, (p, fl) :: l) /\
  (l_type fl = F_UNLCK \/
   log_conflict l p fl = None /\ forall b, in_flock fl b = true -> is_lock_byte b = true).
Proof.
  unfold log_setlk. destruct (l_type fl) eqn:Ht; [| |destruct (refused p fl); tauto].
  all: destruct (_ && _) eqn:Hc; [do 2 right|left; by split]; split; [done|right].
  all: rewrite !andb_true_iff in Hc; destruct Hc as [[[H1 H2] H3] H4].
  all: apply bool_decide_eq_true in H4; split; [done|]; intros b Hin.
  all: unfold in_flock in Hin; unfold is_lock_byte; bool_to_prop.
  all: apply andb_true_iff; split; [apply Z.leb_le|apply Z.ltb_lt]; lia.
Qed.

Lemma log_held_self l p fl :
  l_type fl = F_UNLCK \/ (forall b, in_flock fl b = true -> is_lock_byte b = true) ->
  held_eq (log_held ((p, fl) :: l) p) (apply_lk (log_held l p) fl).
Proof.
  intros H b. unfold log_held. cbn. rewrite Z.eqb_refl. unfold apply_lk.
  destruct (in_flock fl b) eqn:Hin; [|done].
  destruct (is_lock_byte b) eqn:Hb; [done|]. destruct H as [->|H]; [done|].
  rewrite H in Hb; done.
Qed.

Lemma log_held_other l p fl q : q <> p -> held_eq (log_held ((p, fl) :: l) q) (log_held l q).
Proof. intros Hq b. unfold log_held. cbn. by rewrite (proj2 (Z.eqb_neq p q)). Qed.

Lemma log_lookup_close l p q : log_lookup (log_close l p) q = if decide (q = p) then no_locks else log_lookup l q.
Proof.
  unfold log_close. induction l as [|[r fl] l IH]; [by case_decide|].
  rewrite filter_cons. cbn. destruct (decide (r <> p)) as [Hr|Hr].
  - cbn. rewrite IH. destruct (r =? q) eqn:E; [|done]. bool_to_prop. subst.
    by rewrite !decide_False.
  - assert (r = p) as -> by (destruct (decide (r = p)); tauto). rewrite IH. case_decide; [done|].
    by rewrite (proj2 (Z.eqb_neq p q)).
Qed.

#[local] Instance log_locks_ok : PosixLocksOk lock_log.
Proof.
  split; cbn.
  - intros l p fl l' H. destruct (log_setlk_cases l p fl) as [[E _]|[[E _]|[E Hc]]]; rewrite E in H; [done..|].
    injection H as <-. apply log_held_self. naive_solver.
  - intros l p fl l' q b H Hq Hin. destruct (log_setlk_cases l p fl) as [[E _]|[[E _]|[E Hc]]]; rewrite E in H; [done..|].
    destruct Hc as [Hu|[Hn _]]; [by intros [? _]%conflicts_locked|]. by apply log_conflict_none with p.
  - intros l p fl e l' H He. destruct (log_setlk_cases l p fl) as [[E _]|[[E _]|[E _]]]; rewrite E in H;
      by injection H as <- <-.
  - intros l p fl e l' q b H Hq Hin Hcf. destruct (conflicts_locked _ _ Hcf) as [Ht _].
    destruct (log_setlk_cases l p fl) as [[E _]|[[E Hu]|[E Hc]]]; rewrite E in H; [|done|];
      injection H as <- <-; [by right|].
    destruct Hc as [Hu|[Hn _]]; [done|].
    by destruct (proj1 (log_conflict_none l p fl) Hn q b).
  - intros l p fl e l' q H Hq. destruct (log_setlk_cases l p fl) as [[E _]|[[E _]|[E _]]]; rewrite E in H;
      injection H as <- <-; [done|done|by apply log_held_other].
  - intros l p fl t [= <-]. destruct (log_conflict l p fl) as [t|] eqn:E; cbn.
    + apply log_conflict_some in E as (q & b & ? & ? & Hc & ->). split; [by exists q, b|].
      intros _. by apply conflicts_locked in Hc as [_ ?].
    + split; [done|]. intros (q & b & Hq & Hin & Hc).
      by destruct (proj1 (log_conflict_none l p fl) E q b).
  - intros l p b. unfold log_held. rewrite log_lookup_close, decide_True by done.
    by destruct (is_lock_byte b).
  - intros l p q Hq b. unfold log_held. by rewrite log_lookup_close, decide_False.
Qed.
End kernel.

(** The kernel of the database file: the lock bytes of SQLite.  The default
    refuses no release. *)
Definition db_kernel (refused : Z -> flock -> bool) : PosixLocks lock_log :=
  log_locks PENDING_BYTE 512 refused.
Lemma db_kernel_ok refused : PosixLocksOk lock_log (K := db_kernel refused).
Proof. apply log_locks_ok. Qed.

#[global] Instance db_locks : PosixLocks lock_log := db_kernel (fun _ _ => false).
#[global] Instance db_locks_ok : PosixLocksOk lock_log := db_kernel_ok _.
