(* ===== verification/LockWitnesses.v ===== *)
(** Concrete runs of the locking protocol, on the kernel of [LockKernel], at
    which the theorems of [LockInvariant] and [LockSystem] apply. *)
From S2P Require Import Prelude UnixLock LockInvariant LockSystem LockKernel.

(** ** Playing operations *)

Definition lop_okb (md : bool) (s : pstate) (o : lop) : bool :=
  match o with
  | LOpen f => (eFileLock f =? NO_LOCK) && eqb (excl_mode f) md
               && match pPreallocatedUnused f with Some _ => true | None => false end
  | LLock j lk =>
      match p_files s !! j with
      | Some (Some f) => (lk =? SHARED_LOCK)
          || (SHARED_LOCK <=? eFileLock f) && ((lk =? RESERVED_LOCK) || (lk =? EXCLUSIVE_LOCK))
      | _ => false
      end
  | LUnlock j lk =>
      match p_files s !! j with
      | Some (Some f) => (lk =? NO_LOCK) || (lk =? SHARED_LOCK)
      | _ => false
      end
  | LCheckReserved j =>
      match p_files s !! j with Some (Some f) => eFileLock f <=? SHARED_LOCK | _ => false end
  | LPark j => match p_files s !! j with Some (Some _) => true | _ => false end
  | LFinish k =>
      match p_closing s !! k with
      | Some f => (h f <? 0) || match p_inode s with Some i => nLock i =? 0 | None => true end
      | None => false
      end
  end.

Lemma lop_okb_ok md s o : lop_okb md s o = true -> lop_ok md s o.
Proof.
  destruct o as [f|j lk|j lk|j|j|k]; cbn.
  - rewrite !andb_true_iff, Z.eqb_eq, eqb_true_iff. intros [[? ?] Hp].
    by destruct (pPreallocatedUnused f).
  - destruct (p_files s !! j) as [[f|]|]; [|done..].
    rewrite orb_true_iff, andb_true_iff, orb_true_iff, !Z.eqb_eq, Z.leb_le. intros H. exists f.
    split; [done|]. unfold legal_lock. tauto.
  - destruct (p_files s !! j) as [[f|]|]; [|done..]. rewrite orb_true_iff, !Z.eqb_eq. eauto.
  - destruct (p_files s !! j) as [[f|]|]; [|done..]. rewrite Z.leb_le. eauto.
  - destruct (p_files s !! j) as [[f|]|]; [|done..]. eauto.
  - destruct (p_closing s !! k) as [f|]; [|done]. rewrite orb_true_iff, Z.ltb_lt. intros H.
    exists f. split; [done|]. intros Hh i Hi. destruct H as [H|H]; [lia|].
    rewrite Hi in H. by apply Z.eqb_eq.
Qed.

Section play.
Context `{K : PosixLocks lock_log} {KOk : PosixLocksOk lock_log}.

Definition play_op (mode : Z -> bool) (st : sys (L := lock_log)) (e : Z * lop) : option (sys (L := lock_log)) :=
  match procs st !! e.1 with
  | Some (Idle s) =>
      if lop_okb (mode e.1) s e.2 then
        '((_, s'), l') ← run (kern st) e.1 (lop_prog s e.2);
        Some (mkSys l' (<[e.1 := Idle s']> (procs st)))
      else None
  | _ => None
  end.

Fixpoint play (mode : Z -> bool) (st : sys (L := lock_log)) (es : list (Z * lop)) : option (sys (L := lock_log)) :=
  match es with [] => Some st | e :: es => st ← play_op mode st e; play mode st es end.

Lemma play_reachable mode st es st' :
  play mode st es = Some st' -> reachable mode st -> reachable mode st'.
Proof.
  revert st. induction es as [|[p o] es IH]; intros st; cbn; [by intros [= ->]|].
  unfold play_op. cbn. destruct st as [l ps]. cbn.
  destruct (ps !! p) as [[s|]|] eqn:Hp; [|done..]. destruct (lop_okb (mode p) s o) eqn:Ho; [|done].
  destruct (run l p (lop_prog s o)) as [[[rc s'] l']|] eqn:Hr; cbn; [|done].
  intros Hpl (st0 & H0 & Hs). eapply IH; [exact Hpl|]. exists st0. split; [done|].
  etrans; [exact Hs|]. eapply run_op; [done| |done]. by apply lop_okb_ok.
Qed.

Definition start (ps : list Z) : sys (L := lock_log) :=
  mkSys (L := lock_log) [] (list_to_map ((fun p => (p, Idle (mkP None [] []))) <$> ps)).

Lemma start_reachable mode ps :
  (forall p, held_eq (k_held ([] : lock_log) p) no_locks) -> reachable mode (start ps).
Proof.
  intros H0. exists (start ps). split; [|done]. split; [|done].
  intros p pr. cbn. intros Hl. apply elem_of_list_to_map_2 in Hl.
  apply list_elem_of_fmap in Hl as (q & [= -> ->] & _). done.
Qed.

Definition inode_of (st : option (sys (L := lock_log))) (p : Z) : option unixInodeInfo :=
  match st with
  | Some st => match procs st !! p with Some (Idle s) => p_inode s | _ => None end
  | None => None
  end.

Definition file_of (st : option (sys (L := lock_log))) (p : Z) (j : nat) : option unixFile :=
  match st with
  | Some st => match procs st !! p with Some (Idle s) => mjoin (p_files s !! j) | _ => None end
  | None => None
  end.

Definition state_after (mode : Z -> bool) (ps : list Z) (es : list (Z * lop)) : sys (L := lock_log) :=
  default (start ps) (play mode (start ps) es).

Lemma state_after_reachable mode ps es :
  (forall p, held_eq (k_held ([] : lock_log) p) no_locks) ->
  is_Some (play mode (start ps) es) -> reachable mode (state_after mode ps es).
Proof.
  intros H0 [st E]. unfold state_after. rewrite E. eapply play_reachable; [exact E|].
  by apply start_reachable.
Qed.

Definition pstate_at (st : sys (L := lock_log)) (p : Z) : pstate :=
  match procs st !! p with Some (Idle s) => s | _ => mkP None [] [] end.
End play.

Lemma db_start refused p : held_eq (k_held (PosixLocks := db_kernel refused) [] p) no_locks.
Proof. intros b. cbn. unfold log_held. by destruct (is_lock_byte _ _ b). Qed.

(** ** The runs *)

Definition handle (fd : Z) : unixFile := mkFile fd NO_LOCK 0 0 (Some fd).

Definition normal : Z -> bool := fun _ => false.

(** Process 1 has a RESERVED lock and process 2 a SHARED one; process 1 then asks
    for EXCLUSIVE and is left with PENDING; process 2 unlocks and process 1 gets
    its EXCLUSIVE lock. *)
Definition ex_reserved : list (Z * lop) :=
  [(1, LOpen (handle 3)); (1, LOpen (handle 4)); (2, LOpen (handle 5)); (1, LLock 0 SHARED_LOCK);
   (2, LLock 0 SHARED_LOCK); (1, LLock 0 RESERVED_LOCK); (2, LLock 0 RESERVED_LOCK)].
Definition ex_pending : list (Z * lop) := ex_reserved ++ [(1, LLock 0 EXCLUSIVE_LOCK)].
Definition ex_waiting : list (Z * lop) := ex_pending ++ [(2, LUnlock 0 NO_LOCK)].
Definition ex_exclusive : list (Z * lop) := ex_waiting ++ [(1, LLock 0 EXCLUSIVE_LOCK)].

Example ex_reserved_levels :
  (fun st => (i_eFileLock <$> inode_of st 1, i_eFileLock <$> inode_of st 2))
    (play normal (start [1; 2]) ex_reserved) = (Some RESERVED_LOCK, Some SHARED_LOCK).
Proof. vm_compute. reflexivity. Qed.

Example ex_pending_levels :
  (fun st => (i_eFileLock <$> inode_of st 1, i_eFileLock <$> inode_of st 2))
    (play normal (start [1; 2]) ex_pending) = (Some PENDING_LOCK, Some SHARED_LOCK).
Proof. vm_compute. reflexivity. Qed.

Example ex_exclusive_levels :
  (fun st => (i_eFileLock <$> inode_of st 1, i_eFileLock <$> inode_of st 2))
    (play normal (start [1; 2]) ex_exclusive) = (Some EXCLUSIVE_LOCK, Some NO_LOCK).
Proof. vm_compute. reflexivity. Qed.

(** A kernel that refuses to release the PENDING and RESERVED bytes to process 1,
    and a run in which it lowers its EXCLUSIVE lock, in vain; process 2 then asks
    for SHARED. *)
Definition refuse_pending (p : Z) (fl : flock) : bool :=
  (p =? 1) && (l_start fl =? PENDING_BYTE) && (l_len fl =? 2).
Definition ex_refused : list (Z * lop) :=
  ex_exclusive ++ [(1, LUnlock 0 SHARED_LOCK); (2, LLock 0 SHARED_LOCK)].
Definition refused_state : sys (L := lock_log) :=
  state_after (K := db_kernel refuse_pending) normal [1; 2] ex_refused.

Example ex_refused_levels :
  i_eFileLock <$> p_inode (pstate_at refused_state 1) = Some EXCLUSIVE_LOCK /\
  k_held (PosixLocks := db_kernel refuse_pending) (kern refused_state) 1 SHARED_FIRST = F_RDLCK /\
  i_eFileLock <$> p_inode (pstate_at refused_state 2) = Some NO_LOCK.
Proof. vm_compute. done. Qed.

(** A race of [unixClose], which [lop_ok] leaves out.  Process 1 has opened the
    file twice.  One thread closes handle 0 and has left [pLockMutex]; another
    takes an EXCLUSIVE lock with handle 1; then the first thread closes its
    descriptor, and the kernel drops the locks of the process.  Process 2 gets
    an EXCLUSIVE lock too. *)
Definition play_any (st : option (sys (L := lock_log))) (e : Z * lop) : option (sys (L := lock_log)) :=
  st ← st;
  match procs st !! e.1 with
  | Some (Idle s) =>
      '((_, s'), l') ← run (kern st) e.1 (lop_prog s e.2);
      Some (mkSys l' (<[e.1 := Idle s']> (procs st)))
  | _ => None
  end.

Definition close_race_run : list (Z * lop) :=
  [(1, LOpen (handle 3)); (1, LOpen (handle 4)); (1, LUnlock 0 NO_LOCK); (1, LPark 0);
   (1, LLock 1 SHARED_LOCK); (1, LLock 1 RESERVED_LOCK); (1, LLock 1 EXCLUSIVE_LOCK); (1, LFinish 0);
   (2, LOpen (handle 5)); (2, LLock 0 SHARED_LOCK); (2, LLock 0 RESERVED_LOCK); (2, LLock 0 EXCLUSIVE_LOCK)].

Example close_race :
  (fun st => (i_eFileLock <$> inode_of st 1, i_eFileLock <$> inode_of st 2))
    (foldl play_any (Some (start [1; 2])) close_race_run) = (Some EXCLUSIVE_LOCK, Some EXCLUSIVE_LOCK).
Proof. vm_compute. reflexivity. Qed.

(** ** The theorems at these runs *)

Definition exclusive_state : sys (L := lock_log) := state_after normal [1; 2] ex_exclusive.
Definition pending_state : sys (L := lock_log) := state_after normal [1; 2] ex_waiting.

Lemma lock_exclusion_witness :
  exists i i', p_inode (pstate_at refused_state 1) = Some i /\
    p_inode (pstate_at refused_state 2) = Some i' /\ i_eFileLock i = EXCLUSIVE_LOCK /\
    (i_eFileLock i' < SHARED_LOCK /\ bProcessLock i' = false).
Proof.
  eexists _, _. split; [vm_compute; reflexivity|]. split; [vm_compute; reflexivity|].
  split; [reflexivity|].
  refine (proj1 (lock_exclusion (K := db_kernel refuse_pending) (KOk := db_kernel_ok _) normal
    refused_state 1 2 (pstate_at refused_state 1) (pstate_at refused_state 2) _ _ _ _ _ _ _ _) _).
  - apply state_after_reachable; [apply db_start|]. vm_compute. eexists. reflexivity.
  - lia.
  - vm_compute. reflexivity.
  - vm_compute. reflexivity.
  - vm_compute. reflexivity.
  - vm_compute. reflexivity.
  - left. reflexivity.
Defined.

Lemma locking_never_crashes_witness :
  is_Some (procs refused_state !! 1) /\ procs refused_state !! 1 <> Some (Busy Crash).
Proof.
  split; [vm_compute; eexists; reflexivity|].
  apply (locking_never_crashes (K := db_kernel refuse_pending) (KOk := db_kernel_ok _) normal).
  apply state_after_reachable; [apply db_start|]. vm_compute. eexists. reflexivity.
Defined.

Lemma handles_exclude_witness :
  exists f g, p_files (pstate_at exclusive_state 1) !! 0%nat = Some (Some f) /\
    p_files (pstate_at exclusive_state 1) !! 1%nat = Some (Some g) /\
    eFileLock f = EXCLUSIVE_LOCK /\ eFileLock g = NO_LOCK.
Proof.
  eexists _, _. split; [vm_compute; reflexivity|]. split; [vm_compute; reflexivity|].
  split; [reflexivity|].
  refine (proj2 (handles_exclude normal exclusive_state 1 (pstate_at exclusive_state 1) _ 0 1 _ _
    _ _ _ _ _ _) _).
  - apply state_after_reachable; [apply db_start|]. vm_compute. eexists. reflexivity.
  - vm_compute. reflexivity.
  - vm_compute. reflexivity.
  - vm_compute. reflexivity.
  - vm_compute. reflexivity.
  - lia.
  - vm_compute. reflexivity.
Defined.

Lemma pending_blocks_readers_witness :
  exists f i' l', p_files (pstate_at pending_state 2) !! 0%nat = Some (Some f) /\
    run (kern pending_state) 2 (unixLock f i' SHARED_LOCK) = Some ((SQLITE_BUSY, f, i'), l') /\
    held_eq (k_held l' 2) (k_held (kern pending_state) 2).
Proof.
  eexists _, _.
  edestruct (pending_blocks_readers normal pending_state 1 2 (pstate_at pending_state 1)
    (pstate_at pending_state 2)) as (l' & Hrun & Hh);
    [| | | |vm_compute; reflexivity|..|].
  - apply state_after_reachable; [apply db_start|]. vm_compute. eexists. reflexivity.
  - lia.
  - vm_compute. reflexivity.
  - vm_compute. reflexivity.
  - vm_compute. discriminate.
  - reflexivity.
  - vm_compute. reflexivity.
  - reflexivity.
  - instantiate (2 := 0%nat). vm_compute. reflexivity.
  - exists l'. split; [vm_compute; reflexivity|]. split; [exact Hrun|exact Hh].
Defined.

Lemma check_reserved_correct_witness :
  exists i f, p_inode (pstate_at (state_after normal [1; 2] ex_reserved) 2) = Some i /\
    run (kern (state_after normal [1; 2] ex_reserved)) 2 (unixCheckReservedLock f i)
      = Some ((SQLITE_OK, true, f), kern (state_after normal [1; 2] ex_reserved)) /\
    exists p, p <> 2 /\ k_held (kern (state_after normal [1; 2] ex_reserved)) p RESERVED_BYTE <> F_UNLCK.
Proof.
  eexists _, (mkFile 5 SHARED_LOCK 0 0 (Some 5)). split; [vm_compute; reflexivity|].
  edestruct (check_reserved_correct normal (state_after normal [1; 2] ex_reserved) 2
    (pstate_at (state_after normal [1; 2] ex_reserved) 2)
    (mkInode 1 1 SHARED_LOCK false [] 1) 0 (mkFile 5 SHARED_LOCK 0 0 (Some 5)) SQLITE_OK true
    (mkFile 5 SHARED_LOCK 0 0 (Some 5)) (kern (state_after normal [1; 2] ex_reserved))) as (_ & [Hc|(_ & _ & Hr & _)]);
    [|vm_compute; reflexivity..| |].
  - apply state_after_reachable; [apply db_start|]. vm_compute. eexists. reflexivity.
  - discriminate Hc.
  - split; [vm_compute; reflexivity|].
    destruct (proj1 Hr eq_refl) as [Hl|Hp]; [vm_compute in Hl; discriminate Hl|exact Hp].
Defined.

(** One handle with an EXCLUSIVE lock. *)
Definition one_file : unixFile := mkFile 3 EXCLUSIVE_LOCK 0 0 (Some 3).
Definition one_inode : unixInodeInfo := mkInode 1 1 EXCLUSIVE_LOCK false [] 1.
Definition one_view : view := mkView (fun _ => F_WRLCK) true.

Lemma one_wf : wf false one_inode [Some one_file] /\ backs one_inode one_view.
Proof.
  split; [|by split_and!].
  split; try done; try lia.
  - intros [|[]] g; cbn; [|done..]. intros [= <-]. by cbn.
  - intros [|[]] [|[]] g g'; by cbn.
  - intros [|[]] g; cbn; [|done..]. intros [= <-]. by split; [|eexists].
Qed.

(** Three handles, one with a SHARED lock, one with a RESERVED lock and one
    without. *)
Definition shared_file : unixFile := mkFile 3 SHARED_LOCK 0 0 (Some 3).
Definition reserved_file : unixFile := mkFile 4 RESERVED_LOCK 0 0 (Some 4).
Definition three_files : list (option unixFile) := [Some shared_file; Some reserved_file; Some (handle 5)].
Definition three_inode : unixInodeInfo := mkInode 2 2 RESERVED_LOCK false [] 3.
Definition three_view : view :=
  mkView (apply_lk (apply_lk no_locks (mkFlock F_RDLCK SHARED_FIRST SHARED_SIZE))
            (mkFlock F_WRLCK RESERVED_BYTE 1)) false.

Lemma three_wf : wf false three_inode three_files /\ backs three_inode three_view.
Proof.
  split.
  - split; try done; try lia.
    + intros [|[|[|[]]]] g; cbn; try done; intros [= <-]; by cbn.
    + intros [|[|[|[]]]] [|[|[|[]]]] g g'; cbn; try done; intros [= <-] [= <-]; by cbn.
    + intros [|[|[|[]]]] g; cbn; try done; intros [= <-]; by split; [|eexists].
  - split_and!; try done. intros _ b Hb. cbn. by lk_simpl.
Qed.

Lemma unixLock_correct_witness :
  wp (unixLock (handle 5) three_inode SHARED_LOCK) (fun '(rc, f', i') hd' =>
    wf false i' (<[2%nat := Some f']> three_files) /\ backs i' hd' /\
    lock_outcome (handle 5) SHARED_LOCK rc f') three_view /\
  wp (unixLock (handle 4) (mkInode 0 0 NO_LOCK false [] 1) SHARED_LOCK) (fun '(rc, f', i') hd' =>
    wf false i' (<[0%nat := Some f']> [Some (handle 4)]) /\ backs i' hd' /\
    lock_outcome (handle 4) SHARED_LOCK rc f') closed.
Proof.
  split.
  - apply (unixLock_correct false _ _ 2); [apply three_wf|apply three_wf|reflexivity|]. left. reflexivity.
  - apply (unixLock_correct false _ _ 0).
    + apply (wf_open false (mkP None [] []) (handle 4) 0); try reflexivity. eexists. reflexivity.
    + apply backs_none; reflexivity.
    + reflexivity.
    + left. reflexivity.
Defined.

Lemma posixUnlock_correct_witness :
  wp (posixUnlock one_file one_inode SHARED_LOCK) (fun '(rc, f', i') hd' =>
    wf false i' (<[0%nat := Some f']> [Some one_file]) /\ backs i' hd' /\
    unlock_outcome one_file SHARED_LOCK rc f') one_view.
Proof.
  apply (posixUnlock_correct false _ _ 0).
  - apply one_wf.
  - apply one_wf.
  - reflexivity.
  - right. reflexivity.
Defined.

Lemma unixClose_correct_witness :
  wp ('(_, f1, i1) ← unixUnlock shared_file three_inode NO_LOCK; unixClose_park f1 i1) (fun '(f', i') hd' =>
    wf false i' (<[0%nat := None]> three_files) /\ backs i' hd' /\ nRef i' = nRef three_inode /\
    (nLock i' = 0 /\ h f' = h shared_file \/
     exists fd, pPreallocatedUnused shared_file = Some fd /\ h f' = -1 /\ fd ∈ pUnused i') /\
    forall i2 fs2 hd2, wf false i2 fs2 -> backs i2 hd2 -> (0 <= h f' -> nLock i2 = 0) ->
      wp (unixClose_finish f' i2) (fun '(rc, inode) hd3 => rc = SQLITE_OK /\
        match inode with
        | None => nRef i2 = 1
        | Some i3 => wf false i3 fs2 /\ backs i3 hd3 /\ nRef i3 = nRef i2 - 1 /\ nRef i2 <> 1
        end) hd2) three_view.
Proof.
  apply (unixClose_correct false).
  - apply three_wf.
  - apply three_wf.
  - reflexivity.
Defined.

(** A kernel that grants every lock and fails to release any. *)
Definition stuck_locks : PosixLocks unit := {|
  k_held := fun _ _ => no_locks;
  k_setlk := fun l _ fl => (if decide (l_type fl = F_UNLCK) then ENOLCK else 0, l);
  k_getlk := fun _ _ _ => (0, F_UNLCK);
  k_close := fun l _ => l |}.

Lemma failed_unlock_keeps_level_witness :
  exists f', run (K := stuck_locks) tt 1 (posixUnlock one_file one_inode SHARED_LOCK)
      = Some ((SQLITE_IOERR_UNLOCK, f', one_inode), tt) /\
    run (K := stuck_locks) tt 1 (unixLock f' one_inode EXCLUSIVE_LOCK)
      = Some ((SQLITE_OK, f', one_inode), tt).
Proof.
  apply (failed_unlock_keeps_level (K := stuck_locks) tt tt tt 1 one_file one_inode ENOLCK);
    (reflexivity || discriminate).
Defined.
