(* ===== verification/UnixShm.v ===== *)
(** The shared memory of the unix VFS (src/sqlite-src-3280000/src/os_unix.c,
    [unixShmSystemLock] to [unixShmUnmap]): the file that holds the wal-index, its locks
    and its mappings.

    The functions of one process run one after the other, under [pShmMutex] and the
    mutex of the VFS; they are programs that make system calls, so that the calls of
    different processes can be interleaved.  A connection, a [unixShm], is named by the
    number of the file object that has it.  Asserts are kept, but for those on mutexes. *)
From S2P Require Import Prelude UnixLock LockInvariant.

(** ** Constants *)

Definition SQLITE_CANTOPEN : Z := 14.
Definition SQLITE_READONLY : Z := 8.
Definition SQLITE_READONLY_CANTINIT : Z := 1288.
Definition SQLITE_IOERR_FSTAT : Z := 1802.
Definition SQLITE_IOERR_NOMEM : Z := 3082.
Definition SQLITE_IOERR_SHMOPEN : Z := 4618.
Definition SQLITE_IOERR_SHMSIZE : Z := 4874.
Definition SQLITE_IOERR_SHMMAP : Z := 5386.
Definition SQLITE_SHM_UNLOCK : Z := 1.
Definition SQLITE_SHM_LOCK : Z := 2.
Definition SQLITE_SHM_SHARED : Z := 4.
Definition SQLITE_SHM_EXCLUSIVE : Z := 8.
Definition SQLITE_SHM_NLOCK : Z := 8.
Definition UNIX_SHM_BASE : Z := (22 + SQLITE_SHM_NLOCK) * 4.
Definition UNIX_SHM_DMS : Z := UNIX_SHM_BASE + SQLITE_SHM_NLOCK.

(** ** Programs *)

(** An address: a byte of a mapping of the file from an offset on, or of a block of the
    heap. *)
Inductive ptr := Mapped (off delta : Z) | Heap (block delta : Z).

(** The calls on the file.  [Truncate] and [WriteByte] answer whether they succeeded;
    [WriteByte] is [seekAndWriteFd] of one byte; [FileSize] and [Mmap] answer nothing if
    they fail.  [Environ] is any other answer of the system. *)
Inductive prog (A : Type) :=
  | Ret (a : A)
  | Setlk (fl : flock) (k : Z -> prog A)
  | Getlk (fl : flock) (k : Z -> ltype -> prog A)
  | Truncate (size : Z) (k : bool -> prog A)
  | FileSize (k : option Z -> prog A)
  | WriteByte (off : Z) (k : bool -> prog A)
  | Mmap (len off : Z) (k : bool -> prog A)
  | CloseFd (k : prog A)
  | Unlink (k : prog A)
  | Environ (k : Z -> prog A)
  | Crash.
Arguments Ret {A}. Arguments Setlk {A}. Arguments Getlk {A}. Arguments Truncate {A}. Arguments FileSize {A}.
Arguments WriteByte {A}. Arguments Mmap {A}. Arguments CloseFd {A}. Arguments Unlink {A}. Arguments Environ {A}. Arguments Crash {A}.

Fixpoint pbind {A B} (p : prog A) (f : A -> prog B) : prog B :=
  match p with
  | Ret a => f a
  | Setlk fl k => Setlk fl (fun e => pbind (k e) f)
  | Getlk fl k => Getlk fl (fun e t => pbind (k e t) f)
  | Truncate size k => Truncate size (fun b => pbind (k b) f)
  | FileSize k => FileSize (fun s => pbind (k s) f)
  | WriteByte off k => WriteByte off (fun b => pbind (k b) f)
  | Mmap len off k => Mmap len off (fun b => pbind (k b) f)
  | CloseFd k => CloseFd (pbind k f)
  | Unlink k => Unlink (pbind k f)
  | Environ k => Environ (fun v => pbind (k v) f)
  | Crash => Crash
  end.

#[global] Instance shm_prog_ret : MRet prog := @Ret.
#[global] Instance shm_prog_bind : MBind prog := fun A B f p => pbind p f.

Definition assert {A} (b : bool) (p : prog A) : prog A := if b then p else Crash.

(** ** Data *)

(** The masks of the locks of a connection, 16 bits each. *)
Record unixShm := mkShm { sharedMask : Z; exclMask : Z }.

Record unixShmNode := mkNode {
  hShm : Z;
  szRegion : Z;
  nRegion : Z;
  isReadonly : bool;
  isUnlocked : bool;
  apRegion : list ptr;
  nRef : Z;
  pFirst : list (Z * unixShm) }.

Definition set_unlocked (n : unixShmNode) (b : bool) : unixShmNode :=
  mkNode (hShm n) (szRegion n) (nRegion n) (isReadonly n) b (apRegion n) (nRef n) (pFirst n).
Definition set_handle (n : unixShmNode) (h : Z) (ro : bool) : unixShmNode :=
  mkNode h (szRegion n) (nRegion n) ro (isUnlocked n) (apRegion n) (nRef n) (pFirst n).
Definition set_regions (n : unixShmNode) (sz nr : Z) (ap : list ptr) : unixShmNode :=
  mkNode (hShm n) sz nr (isReadonly n) (isUnlocked n) ap (nRef n) (pFirst n).
Definition set_conns (n : unixShmNode) (r : Z) (l : list (Z * unixShm)) : unixShmNode :=
  mkNode (hShm n) (szRegion n) (nRegion n) (isReadonly n) (isUnlocked n) (apRegion n) r l.

(** The connection of a file object. *)
Fixpoint conn (l : list (Z * unixShm)) (j : Z) : option unixShm :=
  match l with [] => None | (k, p) :: l => if k =? j then Some p else conn l j end.

Definition set_conn (l : list (Z * unixShm)) (j : Z) (p : unixShm) : list (Z * unixShm) :=
  (fun x => if x.1 =? j then (j, p) else x) <$> l.

(** ** Locks *)

Definition unixShmSystemLock (n : unixShmNode) (lockType : ltype) (ofst len : Z) : prog Z :=
  assert ((len =? 1) || negb (bool_decide (lockType = F_RDLCK)))
    (assert ((1 <=? len) && (len <=? SQLITE_SHM_NLOCK))
      (if 0 <=? hShm n then Setlk (mkFlock lockType ofst len) (fun e => Ret (if e =? 0 then SQLITE_OK else SQLITE_BUSY))
       else Ret SQLITE_OK)).

Definition lock_mask (ofst n : Z) : Z := wrap_u 16 (Z.shiftl 1 (ofst + n) - Z.shiftl 1 ofst).

(** The loops over the connections.  Unlocking: the shared locks of the siblings,
    nothing if an assert fails. *)
Fixpoint unixShmLock_allMask (l : list (Z * unixShm)) (j : Z) (p : unixShm) (allMask : Z) : option Z :=
  match l with
  | [] => Some allMask
  | (k, pX) :: l =>
      if k =? j then unixShmLock_allMask l j p allMask else
      if Z.land (exclMask pX) (Z.lor (exclMask p) (sharedMask p)) =? 0
      then unixShmLock_allMask l j p (Z.lor allMask (sharedMask pX)) else None
  end.

(** Locking for reading: the shared locks, nothing if there is an exclusive one. *)
Fixpoint unixShmLock_allShared (l : list (Z * unixShm)) (mask allShared : Z) : option Z :=
  match l with
  | [] => Some allShared
  | (_, pX) :: l =>
      if negb (Z.land (exclMask pX) mask =? 0) then None
      else unixShmLock_allShared l mask (Z.lor allShared (sharedMask pX))
  end.

(** Locking for writing: whether there is any lock. *)
Fixpoint unixShmLock_busy (l : list (Z * unixShm)) (mask : Z) : bool :=
  match l with
  | [] => false
  | (_, pX) :: l =>
      if negb (Z.land (exclMask pX) mask =? 0) || negb (Z.land (sharedMask pX) mask =? 0) then true
      else unixShmLock_busy l mask
  end.

(** The three branches: the code, and the node with the new masks of the connection. *)
Definition unixShmLock_unlock (node : unixShmNode) (j : Z) (p : unixShm) (ofst n mask : Z) : prog (Z * unixShmNode) :=
  match unixShmLock_allMask (pFirst node) j p 0 with
  | None => Crash
  | Some allMask =>
      rc ← (if Z.land mask allMask =? 0 then unixShmSystemLock node F_UNLCK (ofst + UNIX_SHM_BASE) n else Ret SQLITE_OK);
      Ret (if rc =? SQLITE_OK
           then (rc, set_conns node (nRef node)
                  (set_conn (pFirst node) j (mkShm (Z.land (sharedMask p) (Z.lnot mask)) (Z.land (exclMask p) (Z.lnot mask)))))
           else (rc, node))
  end.

Definition unixShmLock_shared (node : unixShmNode) (j : Z) (p : unixShm) (ofst n mask : Z) : prog (Z * unixShmNode) :=
  match unixShmLock_allShared (pFirst node) mask 0 with
  | None => Ret (SQLITE_BUSY, node)
  | Some allShared =>
      rc ← (if Z.land allShared mask =? 0 then unixShmSystemLock node F_RDLCK (ofst + UNIX_SHM_BASE) n else Ret SQLITE_OK);
      Ret (if rc =? SQLITE_OK
           then (rc, set_conns node (nRef node) (set_conn (pFirst node) j (mkShm (Z.lor (sharedMask p) mask) (exclMask p))))
           else (rc, node))
  end.

Definition unixShmLock_exclusive (node : unixShmNode) (j : Z) (p : unixShm) (ofst n mask : Z) : prog (Z * unixShmNode) :=
  if unixShmLock_busy (pFirst node) mask then Ret (SQLITE_BUSY, node) else
  rc ← unixShmSystemLock node F_WRLCK (ofst + UNIX_SHM_BASE) n;
  if rc =? SQLITE_OK then
    assert (Z.land (sharedMask p) mask =? 0)
      (Ret (rc, set_conns node (nRef node) (set_conn (pFirst node) j (mkShm (sharedMask p) (Z.lor (exclMask p) mask)))))
  else Ret (rc, node).

Definition unixShmLock (bProcessLock : bool) (node : unixShmNode) (j ofst n flags : Z) : prog (Z * unixShmNode) :=
  match conn (pFirst node) j with
  | None => Crash
  | Some p =>
      assert ((0 <=? ofst) && (ofst + n <=? SQLITE_SHM_NLOCK))
        (assert (1 <=? n)
          (assert ((flags =? Z.lor SQLITE_SHM_LOCK SQLITE_SHM_SHARED) || (flags =? Z.lor SQLITE_SHM_LOCK SQLITE_SHM_EXCLUSIVE)
                   || (flags =? Z.lor SQLITE_SHM_UNLOCK SQLITE_SHM_SHARED) || (flags =? Z.lor SQLITE_SHM_UNLOCK SQLITE_SHM_EXCLUSIVE))
            (assert ((n =? 1) || negb (Z.land flags SQLITE_SHM_EXCLUSIVE =? 0))
              (assert (eqb (0 <=? hShm node) (negb bProcessLock))
                (let mask := lock_mask ofst n in
                 assert ((1 <? n) || (mask =? Z.shiftl 1 ofst))
                   (if negb (Z.land flags SQLITE_SHM_UNLOCK =? 0) then unixShmLock_unlock node j p ofst n mask
                    else if negb (Z.land flags SQLITE_SHM_SHARED =? 0) then unixShmLock_shared node j p ofst n mask
                    else unixShmLock_exclusive node j p ofst n mask))))))
  end.

(** ** Opening *)

Definition unixLockSharedMemory (n : unixShmNode) : prog (Z * unixShmNode) :=
  Getlk (mkFlock F_WRLCK UNIX_SHM_DMS 1) (fun e t =>
    '(rc, n) ←
      (if negb (e =? 0) then Ret (SQLITE_IOERR_LOCK, n)
       else if decide (t = F_UNLCK) then
         if isReadonly n then Ret (SQLITE_READONLY_CANTINIT, set_unlocked n true)
         else
           rc ← unixShmSystemLock n F_WRLCK UNIX_SHM_DMS 1;
           if rc =? SQLITE_OK then Truncate 3 (fun ok => Ret (if ok : bool then SQLITE_OK else SQLITE_IOERR_SHMOPEN, n))
           else Ret (rc, n)
       else if decide (t = F_WRLCK) then Ret (SQLITE_BUSY, n)
       else Ret (SQLITE_OK, n));
    if rc =? SQLITE_OK then rc ← unixShmSystemLock n F_RDLCK UNIX_SHM_DMS 1; Ret (rc, n) else Ret (rc, n)).

Section open.
(** The size of the pages of the system. *)
Context (pgsz : Z).

Definition unixShmRegionPerMap : Z := if pgsz <? 32 * 1024 then 1 else pgsz / (32 * 1024).

(** The node is freed, after its file was closed; unmapping has no other effect. *)
Definition unixShmPurge (n : option unixShmNode) : prog (option unixShmNode) :=
  match n with
  | Some n => if nRef n =? 0 then if 0 <=? hShm n then CloseFd (Ret None) else Ret None else Ret (Some n)
  | None => Ret None
  end.

(** The part of [unixOpenSharedMemory] that makes a node: the code, the node, and
    whether to go to the label [shm_open_err]. *)
Definition unixOpenSharedMemory_node (bProcessLock : bool) : prog (Z * option unixShmNode * bool) :=
  Environ (fun stat =>
    if negb (stat =? 0) then Ret (SQLITE_IOERR_FSTAT, None, true) else
    Environ (fun mem =>
      if mem =? 0 then Ret (SQLITE_NOMEM, None, true) else
      let n := mkNode (-1) 0 0 false false [] 0 [] in
      Environ (fun mutex =>
        if mutex =? 0 then Ret (SQLITE_NOMEM, Some n, true) else
        if bProcessLock then Ret (SQLITE_OK, Some n, false) else
        Environ (fun readonly_shm => Environ (fun fd =>
          let h := if readonly_shm =? 0 then fd else -1 in
          Environ (fun fd' =>
            let n := if h <? 0 then set_handle n fd' true else set_handle n h false in
            if hShm n <? 0 then Ret (SQLITE_CANTOPEN, Some (set_handle n (hShm n) false), true) else
            '(rc, n) ← unixLockSharedMemory n;
            Ret (rc, Some n, negb (rc =? SQLITE_OK) && negb (rc =? SQLITE_READONLY_CANTINIT)))))))).

Definition unixOpenSharedMemory (bProcessLock : bool) (j : Z) (node : option unixShmNode) : prog (Z * option unixShmNode) :=
  Environ (fun mem =>
    if mem =? 0 then Ret (SQLITE_NOMEM, node) else
    '(rc, node, err) ←
      match node with
      | None => unixOpenSharedMemory_node bProcessLock
      | Some n => Ret (SQLITE_OK, Some n, false)
      end;
    if (err : bool) then node ← unixShmPurge node; Ret (rc, node) else
    match node with
    | None => Crash
    | Some n => Ret (rc, Some (set_conns n (nRef n + 1) ((j, mkShm 0 0) :: pFirst n)))
    end).

(** ** Mapping *)

(** One byte at the end of each page of 4096 bytes, [k] of them from page [iPg] on;
    whether all were written. *)
Fixpoint unixShmMap_extend (k : nat) (iPg : Z) : prog bool :=
  match k with
  | O => Ret true
  | S k => WriteByte (iPg * 4096 + 4096 - 1) (fun ok => if ok : bool then unixShmMap_extend k (iPg + 1) else Ret false)
  end.

Definition shift (p : ptr) (d : Z) : ptr :=
  match p with Mapped off delta => Mapped off (delta + d) | Heap b delta => Heap b (delta + d) end.

(** The loop that maps regions, until there are [nReqRegion]; [fuel] is one more than
    that, since each round adds at least one. *)
Fixpoint unixShmMap_map (fuel : nat) (n : unixShmNode) (nReqRegion : Z) : prog (Z * unixShmNode) :=
  match fuel with
  | O => Crash
  | S fuel =>
      if nRegion n <? nReqRegion then
        let nMap := szRegion n * unixShmRegionPerMap in
        let next pMem :=
          unixShmMap_map fuel
            (set_regions n (szRegion n) (wrap_u 16 (nRegion n + unixShmRegionPerMap))
              (apRegion n ++ ((fun i => shift pMem (szRegion n * i)) <$> seqZ 0 unixShmRegionPerMap))) nReqRegion in
        if 0 <=? hShm n then
          Mmap nMap (szRegion n * nRegion n) (fun ok => if ok : bool then next (Mapped (szRegion n * nRegion n) 0) else Ret (SQLITE_IOERR_SHMMAP, n))
        else Environ (fun b => if b =? 0 then Ret (SQLITE_NOMEM, n) else next (Heap b 0))
      else Ret (SQLITE_OK, n)
  end.

(** At the label [shmpage_out]: the code, the region, and the node. *)
Definition unixShmMap_out (rc : Z) (n : unixShmNode) (iRegion : Z) : Z * option ptr * unixShmNode :=
  (if isReadonly n && (rc =? SQLITE_OK) then SQLITE_READONLY else rc,
   if iRegion <? nRegion n then apRegion n !! Z.to_nat iRegion else None, n).

(** Whether the regions are in the file, which is extended if [bExtend] is set: the
    code, and whether to go to [shmpage_out]. *)
Definition unixShmMap_file (n : unixShmNode) (bExtend : bool) (nByte : Z) : prog (Z * bool) :=
  if 0 <=? hShm n then
    FileSize (fun sz =>
      match sz with
      | None => Ret (SQLITE_IOERR_SHMSIZE, true)
      | Some st_size =>
          if st_size <? nByte then
            if negb bExtend then Ret (SQLITE_OK, true) else
            assert (nByte mod 4096 =? 0)
              (ok ← unixShmMap_extend (Z.to_nat (nByte / 4096 - st_size / 4096)) (st_size / 4096);
               Ret (if ok : bool then (SQLITE_OK, false) else (SQLITE_IOERR_SHMSIZE, true)))
          else Ret (SQLITE_OK, false)
      end)
  else Ret (SQLITE_OK, false).

(** From the size of the request on; an overflow is undefined. *)
Definition unixShmMap_regions (n : unixShmNode) (iRegion sz : Z) (bExtend : bool) : prog (Z * unixShmNode) :=
  let nReqRegion := (iRegion + unixShmRegionPerMap) / unixShmRegionPerMap * unixShmRegionPerMap in
  if nRegion n <? nReqRegion then
    let nByte := nReqRegion * sz in
    assert (bool_decide (in_s 32 nByte))
      (let n := set_regions n sz (nRegion n) (apRegion n) in
       '(rc, out) ← unixShmMap_file n bExtend nByte;
       if (out : bool) then Ret (rc, n) else
       Environ (fun mem =>
         if mem =? 0 then Ret (SQLITE_IOERR_NOMEM, n) else
         unixShmMap_map (S (Z.to_nat nReqRegion)) n nReqRegion))
  else Ret (SQLITE_OK, n).

(** The code, the region, and the node; [pp] is set only if there is a connection. *)
Definition unixShmMap (bProcessLock : bool) (j : Z) (node : option unixShmNode) (iRegion sz : Z) (bExtend : bool)
    : prog (Z * option ptr * option unixShmNode) :=
  '(rc, node) ←
    (if bool_decide (is_Some (n ← node; conn (pFirst n) j)) then Ret (SQLITE_OK, node)
     else unixOpenSharedMemory bProcessLock j node);
  if negb (rc =? SQLITE_OK) then Ret (rc, None, node) else
  match node with
  | None => Crash
  | Some n =>
      '(rc, n) ←
        (if isUnlocked n then
           '(rc, n) ← unixLockSharedMemory n;
           Ret (rc, if rc =? SQLITE_OK then set_unlocked n false else n)
         else Ret (SQLITE_OK, n));
      '(rc, n) ←
        (if negb (rc =? SQLITE_OK) then Ret (rc, n) else
         assert ((sz =? szRegion n) || (nRegion n =? 0))
           (assert (eqb (0 <=? hShm n) (negb bProcessLock)) (unixShmMap_regions n iRegion sz bExtend)));
      let '(rc, pp, n) := unixShmMap_out rc n iRegion in Ret (rc, pp, Some n)
  end.

Definition unixShmUnmap (j : Z) (node : option unixShmNode) (deleteFlag : bool) : prog (Z * option unixShmNode) :=
  match node with
  | Some n =>
      if bool_decide (is_Some (conn (pFirst n) j)) then
        assert (0 <? nRef n)
          (let n := set_conns n (nRef n - 1) (filter (fun x => negb (x.1 =? j) = true) (pFirst n)) in
           if nRef n =? 0 then
             node ← (if deleteFlag && (0 <=? hShm n) then Unlink (unixShmPurge (Some n)) else unixShmPurge (Some n));
             Ret (SQLITE_OK, node)
           else Ret (SQLITE_OK, Some n))
      else Ret (SQLITE_OK, node)
  | None => Ret (SQLITE_OK, None)
  end.
End open.
