(* ===== verification/UnixShmSpec.v ===== *)
(** The invariant of a process's shared memory, and that every function of [UnixShm]
    keeps it, whatever other processes do between its system calls.

    [wp p Q hd lb]: the program, started with the locks [hd] of its process in the kernel
    and a file of at least [lb] bytes, does not crash, truncates the file only under an
    exclusive lock on the byte [UNIX_SHM_DMS], and ends in [Q].  Every call may fail, one
    that releases a lock too.  While the process has a
    lock on that byte, nobody else truncates the file. *)
From S2P Require Import Prelude UnixLock LockInvariant UnixShm.

(** ** Programs *)

(** What is known of the size is lost without the lock. *)
Definition bound (hd : held) (lb : Z) : Z := if decide (hd UNIX_SHM_DMS = F_UNLCK) then 0 else lb.

Fixpoint wp {A} (p : prog A) (Q : A -> held -> Z -> Prop) (hd : held) (lb : Z) : Prop :=
  match p with
  | Ret a => Q a hd lb
  | Setlk fl k =>
      wp (k 0) Q (apply_lk hd fl) (bound (apply_lk hd fl) lb) /\
      (forall e, e <> 0 -> wp (k e) Q hd lb)
  | Getlk fl k => forall e t, wp (k e t) Q hd lb
  | Truncate size k => hd UNIX_SHM_DMS = F_WRLCK /\ 0 <= size /\ wp (k true) Q hd (Z.min lb size) /\ wp (k false) Q hd lb
  | FileSize k => wp (k None) Q hd lb /\ forall s, lb <= s -> 0 <= s -> wp (k (Some s)) Q hd (bound hd s)
  | WriteByte off k => wp (k true) Q hd (bound hd (Z.max lb (off + 1))) /\ wp (k false) Q hd lb
  | Mmap len off k => forall b, wp (k b) Q hd lb
  | CloseFd k => wp k Q no_locks 0
  | Unlink k => False
  | Environ k => forall v, wp (k v) Q hd lb
  | Crash => False
  end.

Lemma shm_wp_bind {A B} (p : prog A) (f : A -> prog B) Q hd lb :
  wp p (fun a hd lb => wp (f a) Q hd lb) hd lb -> wp (p ≫= f) Q hd lb.
Proof.
  revert hd lb. induction p as [a|fl k IH|fl k IH|s k IH|k IH|o k IH|l o k IH|k IH|k IH|k IH|]; intros hd lb; cbn; try done; naive_solver.
Qed.

Lemma shm_wp_mono {A} (p : prog A) (Q Q' : A -> held -> Z -> Prop) hd lb :
  (forall a hd lb, Q a hd lb -> Q' a hd lb) -> wp p Q hd lb -> wp p Q' hd lb.
Proof.
  intros HQ. revert hd lb. induction p as [a|fl k IH|fl k IH|s k IH|k IH|o k IH|l o k IH|k IH|k IH|k IH|]; intros hd lb; cbn; naive_solver.
Qed.

Lemma bound_proper hd hd' lb : held_eq hd hd' -> bound hd lb = bound hd' lb.
Proof. intros He. unfold bound. by rewrite He. Qed.

Lemma shm_wp_held_eq {A} (p : prog A) (Q : A -> held -> Z -> Prop) hd hd' lb :
  (forall a hd hd' lb, held_eq hd hd' -> Q a hd lb -> Q a hd' lb) -> held_eq hd hd' -> wp p Q hd lb -> wp p Q hd' lb.
Proof.
  intros HQ. revert hd hd' lb.
  induction p as [a|fl k IH|fl k IH|s k IH|k IH|o k IH|l o k IH|k IH|k IH|k IH|]; intros hd hd' lb He; cbn; try naive_solver.
  - assert (Ha : held_eq (apply_lk hd fl) (apply_lk hd' fl)) by (by rewrite He). rewrite (bound_proper _ _ lb Ha). naive_solver.
  - rewrite (He UNIX_SHM_DMS). naive_solver.
  - intros [H1 H2]. split; [by apply (IH _ hd)|]. intros s0 Hs H0. rewrite <- (bound_proper _ _ _ He). apply (IH _ hd); auto.
  - rewrite (bound_proper _ _ _ He). naive_solver.
Qed.

Lemma shm_wp_assert {A} (b : bool) (p : prog A) Q hd lb : b = true -> wp p Q hd lb -> wp (assert b p) Q hd lb.
Proof. by intros ->. Qed.

(** ** Masks *)

Lemma lock_mask_bit ofst n i :
  0 <= ofst -> 1 <= n -> ofst + n <= 8 -> 0 <= i -> Z.testbit (lock_mask ofst n) i = (ofst <=? i) && (i <? ofst + n).
Proof.
  intros Ho Hn H8 Hi. unfold lock_mask, wrap_u. rewrite Z.shiftl_1_l, Z.shiftl_1_l.
  assert (E : 2 ^ (ofst + n) - 2 ^ ofst = Z.shiftl (Z.ones n) ofst).
  { rewrite Z.shiftl_mul_pow2, Z.ones_equiv, Z.pow_add_r by lia. lia. }
  rewrite E. destruct (decide (i < 16)).
  - rewrite Z.mod_pow2_bits_low by lia. rewrite Z.shiftl_spec by lia. destruct (Z.leb_spec ofst i); cbn [andb].
    + rewrite Z.testbit_ones_nonneg by lia. destruct (Z.ltb_spec (i - ofst) n), (Z.ltb_spec i (ofst + n)); lia || done.
    + by rewrite Z.testbit_neg_r by lia.
  - rewrite Z.mod_pow2_bits_high by lia. symmetry. apply andb_false_iff. right. apply Z.ltb_ge. lia.
Qed.

Lemma land_zero a b : Z.land a b = 0 <-> forall i, 0 <= i -> Z.testbit a i = true -> Z.testbit b i = false.
Proof.
  split.
  - intros H i Hi Ha. apply (f_equal (fun x => Z.testbit x i)) in H. rewrite Z.land_spec, Z.bits_0, Ha in H. done.
  - intros H. apply Z.bits_inj'. intros i Hi. rewrite Z.land_spec, Z.bits_0. destruct (Z.testbit a i) eqn:E; [|done]. cbn. auto.
Qed.

Lemma mask_land ofst n b :
  0 <= ofst -> 1 <= n -> ofst + n <= 8 -> Z.land (lock_mask ofst n) b = 0 <-> forall i, ofst <= i < ofst + n -> Z.testbit b i = false.
Proof.
  intros Ho Hn H8. rewrite land_zero. split.
  - intros H i Hi. apply H; [lia|]. rewrite lock_mask_bit by lia. apply andb_true_iff. rewrite Z.leb_le, Z.ltb_lt. lia.
  - intros H i Hi Hm. rewrite lock_mask_bit in Hm by lia. bool_to_prop. apply H. lia.
Qed.

(** ** Connections *)

Definition shared (p : unixShm) (i : Z) : bool := Z.testbit (sharedMask p) i.
Definition excl (p : unixShm) (i : Z) : bool := Z.testbit (exclMask p) i.

(** Connections of a process exclude each other. *)
Record conns_ok (l : list (Z * unixShm)) : Prop := {
  cn_nodup : NoDup l.*1;
  cn_excl j k p q i : conn l j = Some p -> conn l k = Some q -> 0 <= i -> excl p i = true ->
    shared q i = false /\ (j <> k -> excl q i = false) }.

Definition any (f : unixShm -> bool) (l : list (Z * unixShm)) : bool := existsb (fun x => f x.2) l.

(** The lock of the process on byte [i]. *)
Definition lock_of (l : list (Z * unixShm)) (i : Z) : ltype :=
  if any (fun p => excl p i) l then F_WRLCK else if any (fun p => shared p i) l then F_RDLCK else F_UNLCK.

Lemma conn_elem l j p : conn l j = Some p -> (j, p) ∈ l.
Proof.
  induction l as [|[k q] l IH]; [done|]. cbn. destruct (Z.eqb_spec k j) as [->|]; [intros [= ->]; by left|]. right. auto.
Qed.

Lemma elem_conn l j p : NoDup l.*1 -> (j, p) ∈ l -> conn l j = Some p.
Proof.
  induction l as [|[k q] l IH]; cbn; [by intros _ ?%not_elem_of_nil|]. intros [Hk Hn]%NoDup_cons [[= -> ->]|Hin]%elem_of_cons.
  - by rewrite Z.eqb_refl.
  - destruct (Z.eqb_spec k j) as [->|]; [|auto]. destruct Hk. apply list_elem_of_fmap. by exists (j, p).
Qed.

Lemma conn_none l j : conn l j = None <-> j ∉ l.*1.
Proof.
  induction l as [|[k q] l IH]; cbn; [split; [intros _; apply not_elem_of_nil|done]|].
  rewrite not_elem_of_cons. destruct (Z.eqb_spec k j); [naive_solver|]. rewrite IH. naive_solver.
Qed.

Lemma any_true f l : NoDup l.*1 -> any f l = true <-> exists j p, conn l j = Some p /\ f p = true.
Proof.
  intros Hn. unfold any. rewrite existsb_exists. split.
  - intros ([j p] & Hin & Hf). exists j, p. split; [|done]. apply elem_conn; [done|]. by apply list_elem_of_In.
  - intros (j & p & Hc & Hf). exists (j, p). split; [|done]. by apply list_elem_of_In, conn_elem.
Qed.

Lemma any_false f l : NoDup l.*1 -> any f l = false <-> forall j p, conn l j = Some p -> f p = false.
Proof.
  intros Hn. rewrite <- not_true_iff_false, any_true by done. split.
  - intros H j p Hc. apply not_true_is_false. intros Hf. apply H. eauto.
  - intros H (j & p & Hc & Hf). by rewrite (H j p Hc) in Hf.
Qed.

Lemma set_conn_keys l j p : (set_conn l j p).*1 = l.*1.
Proof.
  induction l as [|[k q] l IH]; [done|]. cbn. rewrite <- IH. f_equal. by destruct (Z.eqb_spec k j).
Qed.

Lemma conn_set l j p q k : conn l j = Some q -> conn (set_conn l j p) k = if k =? j then Some p else conn l k.
Proof.
  intros Hj. induction l as [|[k' q'] l IH]; [done|]. cbn in Hj |- *. destruct (Z.eqb_spec k' j) as [->|Hne]; cbn.
  - destruct (Z.eqb_spec j k) as [->|Hk]; [by rewrite Z.eqb_refl|]. rewrite (proj2 (Z.eqb_neq k j)) by done. clear IH Hj.
    induction l as [|[k1 q1] l IH]; [done|]. cbn. destruct (Z.eqb_spec k1 j) as [->|]; cbn; [by rewrite (proj2 (Z.eqb_neq j k)) by done|by rewrite IH].
  - destruct (Z.eqb_spec k' k) as [->|]; [|by apply IH]. by rewrite (proj2 (Z.eqb_neq k j)).
Qed.

Lemma set_conn_length l j p : length (set_conn l j p) = length l.
Proof. apply length_fmap. Qed.

(** ** Locking *)

Definition in_range (ofst n i : Z) : bool := (ofst <=? i) && (i <? ofst + n).

(** The masks of the connection after the operation. *)
Definition relock (flags ofst n : Z) (p : unixShm) : unixShm :=
  let mask := lock_mask ofst n in
  if negb (Z.land flags SQLITE_SHM_UNLOCK =? 0) then mkShm (Z.land (sharedMask p) (Z.lnot mask)) (Z.land (exclMask p) (Z.lnot mask))
  else if negb (Z.land flags SQLITE_SHM_SHARED =? 0) then mkShm (Z.lor (sharedMask p) mask) (exclMask p)
  else mkShm (sharedMask p) (Z.lor (exclMask p) mask).

(** What wal.c asks for: it locks what it has not locked, and unlocks what it has. *)
Inductive legal (p : unixShm) (ofst n : Z) : Z -> Prop :=
  | legal_shared : n = 1 -> shared p ofst = false -> legal p ofst n (Z.lor SQLITE_SHM_LOCK SQLITE_SHM_SHARED)
  | legal_exclusive : legal p ofst n (Z.lor SQLITE_SHM_LOCK SQLITE_SHM_EXCLUSIVE)
  | legal_unlock_shared : n = 1 -> shared p ofst = true -> legal p ofst n (Z.lor SQLITE_SHM_UNLOCK SQLITE_SHM_SHARED)
  | legal_unlock_exclusive : (forall i, ofst <= i < ofst + n -> excl p i = true) ->
      legal p ofst n (Z.lor SQLITE_SHM_UNLOCK SQLITE_SHM_EXCLUSIVE).

Definition range_ok (ofst n : Z) : Prop := 0 <= ofst /\ 1 <= n /\ ofst + n <= SQLITE_SHM_NLOCK.

Definition kind (flags : Z) : ltype :=
  if negb (Z.land flags SQLITE_SHM_UNLOCK =? 0) then F_UNLCK else if negb (Z.land flags SQLITE_SHM_SHARED =? 0) then F_RDLCK else F_WRLCK.

(** The bits of the connection afterwards. *)
Lemma relock_shared flags ofst n p i :
  range_ok ofst n -> 0 <= i ->
  shared (relock flags ofst n p) i = if in_range ofst n i then match kind flags with F_UNLCK => false | F_RDLCK => true | F_WRLCK => shared p i end
                                     else shared p i.
Proof.
  intros (H1 & H2 & H3) Hi. change SQLITE_SHM_NLOCK with 8 in H3. unfold relock, kind, shared, in_range.
  destruct (negb (Z.land flags SQLITE_SHM_UNLOCK =? 0)), (negb (Z.land flags SQLITE_SHM_SHARED =? 0)); cbn [sharedMask];
    rewrite ?Z.land_spec, ?Z.lor_spec, ?Z.lnot_spec, ?lock_mask_bit by lia;
    destruct ((ofst <=? i) && (i <? ofst + n)); cbn; by rewrite ?andb_true_r, ?andb_false_r, ?orb_true_r, ?orb_false_r.
Qed.

Lemma relock_excl flags ofst n p i :
  range_ok ofst n -> 0 <= i ->
  excl (relock flags ofst n p) i = if in_range ofst n i then match kind flags with F_UNLCK => false | F_RDLCK => excl p i | F_WRLCK => true end
                                   else excl p i.
Proof.
  intros (H1 & H2 & H3) Hi. change SQLITE_SHM_NLOCK with 8 in H3. unfold relock, kind, excl, in_range.
  destruct (negb (Z.land flags SQLITE_SHM_UNLOCK =? 0)), (negb (Z.land flags SQLITE_SHM_SHARED =? 0)); cbn [exclMask];
    rewrite ?Z.land_spec, ?Z.lor_spec, ?Z.lnot_spec, ?lock_mask_bit by lia;
    destruct ((ofst <=? i) && (i <? ofst + n)); cbn; by rewrite ?andb_true_r, ?andb_false_r, ?orb_true_r, ?orb_false_r.
Qed.

(** *** The loops *)

Lemma exists_cons (K : Z -> Prop) (P : unixShm -> Prop) k0 q0 l :
  (exists k q, K k /\ (k, q) ∈ (k0, q0) :: l /\ P q) <-> K k0 /\ P q0 \/ exists k q, K k /\ (k, q) ∈ l /\ P q.
Proof.
  split.
  - intros (k & q & Hk & [[= -> ->]|Hin]%elem_of_cons & Hp); [by left|right]. by exists k, q.
  - intros [[Hk Hp]|(k & q & Hk & Hin & Hp)]; [exists k0, q0|exists k, q]; (split_and!; [done| |done]); [by left|by right].
Qed.

Lemma allMask_spec l j p a :
  conns_ok l -> conn l j = Some p ->
  exists m, unixShmLock_allMask l j p a = Some m /\
    forall i, 0 <= i -> Z.testbit m i = true <-> Z.testbit a i = true \/ exists k q, k <> j /\ conn l k = Some q /\ shared q i = true.
Proof.
  intros [Hn He] Hj.
  assert (Hall : forall k q, (k, q) ∈ l -> k <> j -> Z.land (exclMask q) (Z.lor (exclMask p) (sharedMask p)) = 0).
  { intros k q Hin Hk. apply elem_conn in Hin; [|done]. apply land_zero. intros i Hi Hx. rewrite Z.lor_spec.
    destruct (He k j q p i Hin Hj Hi Hx) as [E1 E2]. unfold shared in E1. unfold excl in E2. by rewrite E1, E2. }
  assert (Hgen : forall l', (forall x, x ∈ l' -> x ∈ l) -> exists m, unixShmLock_allMask l' j p a = Some m /\
    forall i, 0 <= i -> Z.testbit m i = true <-> Z.testbit a i = true \/ exists k q, k <> j /\ (k, q) ∈ l' /\ shared q i = true).
  { clear Hj. intros l'. revert a. induction l' as [|[k q] l' IH]; intros a Hsub; cbn [unixShmLock_allMask].
    - exists a. split; [done|]. intros i _. split; [by left|]. intros [H|(k & q & _ & H & _)]; [done|by apply not_elem_of_nil in H].
    - destruct (Z.eqb_spec k j) as [->|Hk].
      + destruct (IH a) as (m & E & Hm); [intros x Hx; apply Hsub; by right|]. exists m. split; [done|]. intros i Hi. rewrite (Hm i Hi).
        rewrite (exists_cons (fun k => k <> j) (fun q => shared q i = true)). tauto.
      + rewrite (Hall k q), Z.eqb_refl by (done || apply Hsub; by left).
        destruct (IH (Z.lor a (sharedMask q))) as (m & E & Hm); [intros x Hx; apply Hsub; by right|]. exists m. split; [done|]. intros i Hi.
        rewrite (Hm i Hi), Z.lor_spec, orb_true_iff, (exists_cons (fun k => k <> j) (fun q => shared q i = true)). unfold shared at 2. tauto. }
  destruct (Hgen l) as (m & E & Hm); [done|]. exists m. split; [done|]. intros i Hi. rewrite (Hm i Hi).
  split; (intros [H|(k & q & H1 & H2 & H3)]; [by left|right]); exists k, q; split_and!; try done; [by apply elem_conn|by apply conn_elem].
Qed.

Lemma allShared_spec l mask a :
  NoDup l.*1 ->
  match unixShmLock_allShared l mask a with
  | Some m => (forall k q, conn l k = Some q -> Z.land (exclMask q) mask = 0) /\
      forall i, 0 <= i -> Z.testbit m i = true <-> Z.testbit a i = true \/ exists k q, conn l k = Some q /\ shared q i = true
  | None => exists k q, conn l k = Some q /\ Z.land (exclMask q) mask <> 0
  end.
Proof.
  intros Hn. enough (Hgen : match unixShmLock_allShared l mask a with
    | Some m => (forall k q, (k, q) ∈ l -> Z.land (exclMask q) mask = 0) /\
        forall i, 0 <= i -> Z.testbit m i = true <-> Z.testbit a i = true \/ exists k q, True /\ (k, q) ∈ l /\ shared q i = true
    | None => exists k q, (k, q) ∈ l /\ Z.land (exclMask q) mask <> 0 end).
  { destruct (unixShmLock_allShared l mask a) as [m|].
    - destruct Hgen as [H1 H2]. split; [intros k q Hc; by apply (H1 k), conn_elem|]. intros i Hi. rewrite (H2 i Hi).
      split; [intros [H|(k & q & _ & H & H')]|intros [H|(k & q & H & H')]]; [by left| |by left|]; right; exists k, q; split_and!; try done; [by apply elem_conn|by apply conn_elem].
    - destruct Hgen as (k & q & H & H'). exists k, q. split; [by apply elem_conn|done]. }
  clear Hn. revert a. induction l as [|[k q] l IH]; intros a; cbn [unixShmLock_allShared].
  - split; [by intros k q ?%not_elem_of_nil|]. intros i _. split; [by left|]. intros [H|(k & q & _ & H & _)]; [done|by apply not_elem_of_nil in H].
  - destruct (Z.eqb_spec (Z.land (exclMask q) mask) 0) as [E|E]; cbn [negb]; [|exists k, q; split; [by left|done]].
    specialize (IH (Z.lor a (sharedMask q))). destruct (unixShmLock_allShared l mask _) as [m|].
    + destruct IH as [H1 H2]. split; [intros k' q' [[= -> ->]|H]%elem_of_cons; [done|by apply (H1 k')]|]. intros i Hi.
      rewrite (H2 i Hi), Z.lor_spec, orb_true_iff, (exists_cons (fun _ => True) (fun q => shared q i = true)). unfold shared at 2. tauto.
    + destruct IH as (k' & q' & H & H'). exists k', q'. split; [by right|done].
Qed.

Lemma busy_spec l mask :
  NoDup l.*1 ->
  if unixShmLock_busy l mask then exists k q, conn l k = Some q /\ (Z.land (exclMask q) mask <> 0 \/ Z.land (sharedMask q) mask <> 0)
  else forall k q, conn l k = Some q -> Z.land (exclMask q) mask = 0 /\ Z.land (sharedMask q) mask = 0.
Proof.
  intros Hn. enough (Hgen : if unixShmLock_busy l mask then exists k q, (k, q) ∈ l /\ (Z.land (exclMask q) mask <> 0 \/ Z.land (sharedMask q) mask <> 0)
    else forall k q, (k, q) ∈ l -> Z.land (exclMask q) mask = 0 /\ Z.land (sharedMask q) mask = 0).
  { destruct (unixShmLock_busy l mask).
    - destruct Hgen as (k & q & H & H'). exists k, q. split; [by apply elem_conn|done].
    - intros k q Hc. by apply (Hgen k), conn_elem. }
  clear Hn. induction l as [|[k q] l IH]; cbn [unixShmLock_busy]; [by intros k q ?%not_elem_of_nil|].
  destruct (Z.eqb_spec (Z.land (exclMask q) mask) 0) as [E|E]; cbn [negb orb]; [|exists k, q; split; [by left|by left]].
  destruct (Z.eqb_spec (Z.land (sharedMask q) mask) 0) as [E2|E2]; cbn [negb orb]; [|exists k, q; split; [by left|by right]].
  destruct (unixShmLock_busy l mask).
  - destruct IH as (k' & q' & H & H'). exists k', q'. split; [by right|done].
  - intros k' q' [[= -> ->]|H]%elem_of_cons; [done|by apply (IH k')].
Qed.

(** *** The operation *)

Lemma in_range_spec ofst n i : in_range ofst n i = true <-> ofst <= i < ofst + n.
Proof. unfold in_range. rewrite andb_true_iff, Z.leb_le, Z.ltb_lt. done. Qed.

(** No lock of the process stands against the request. *)
Definition grantable (l : list (Z * unixShm)) (flags ofst n : Z) : Prop :=
  forall k q i, conn l k = Some q -> ofst <= i < ofst + n ->
    match kind flags with F_UNLCK => True | F_RDLCK => excl q i = false | F_WRLCK => excl q i = false /\ shared q i = false end.

(** Some lock of the process does. *)
Definition refused (l : list (Z * unixShm)) (flags ofst n : Z) : Prop :=
  exists k q i, conn l k = Some q /\ ofst <= i < ofst + n /\ (excl q i = true \/ kind flags = F_WRLCK /\ shared q i = true).

Lemma mask_land_ne ofst n b :
  0 <= ofst -> 1 <= n -> ofst + n <= 8 -> Z.land b (lock_mask ofst n) <> 0 -> exists i, ofst <= i < ofst + n /\ Z.testbit b i = true.
Proof.
  intros Ho Hn H8 Hne. destruct (decide (Forall (fun i => Z.testbit b i = false) (seqZ ofst n))) as [Hf|Hf].
  - destruct Hne. rewrite Z.land_comm. apply mask_land; [done..|]. intros i Hi. rewrite Forall_forall in Hf. apply Hf, elem_of_seqZ. lia.
  - apply not_Forall_Exists in Hf; [|apply _]. apply Exists_exists in Hf as (i & Hi & Hb). exists i. split; [apply elem_of_seqZ in Hi; lia|].
    cbn in Hb. by apply not_false_is_true.
Qed.

Lemma lock_of_cases l i :
  NoDup l.*1 ->
  match lock_of l i with
  | F_WRLCK => exists k q, conn l k = Some q /\ excl q i = true
  | F_RDLCK => (forall k q, conn l k = Some q -> excl q i = false) /\ exists k q, conn l k = Some q /\ shared q i = true
  | F_UNLCK => forall k q, conn l k = Some q -> excl q i = false /\ shared q i = false
  end.
Proof.
  intros Hn. unfold lock_of. destruct (any (fun p => excl p i) l) eqn:E1; [by apply any_true in E1|].
  rewrite any_false in E1 by done. destruct (any (fun p => shared p i) l) eqn:E2; [by apply any_true in E2|].
  rewrite any_false in E2 by done. naive_solver.
Qed.

Lemma lock_of_w l i k q : NoDup l.*1 -> conn l k = Some q -> excl q i = true -> lock_of l i = F_WRLCK.
Proof. intros Hn Hc He. unfold lock_of. rewrite (proj2 (any_true (fun p => excl p i) l Hn)); [done|eauto]. Qed.

Lemma lock_of_r l i k q :
  NoDup l.*1 -> conn l k = Some q -> shared q i = true -> (forall k q, conn l k = Some q -> excl q i = false) -> lock_of l i = F_RDLCK.
Proof.
  intros Hn Hc Hs He. unfold lock_of. rewrite (proj2 (any_false (fun p => excl p i) l Hn)) by done.
  rewrite (proj2 (any_true (fun p => shared p i) l Hn)); [done|eauto].
Qed.

Lemma lock_of_u l i : NoDup l.*1 -> (forall k q, conn l k = Some q -> excl q i = false /\ shared q i = false) -> lock_of l i = F_UNLCK.
Proof.
  intros Hn H. unfold lock_of. rewrite (proj2 (any_false (fun p => excl p i) l Hn)) by (intros; by eapply H).
  by rewrite (proj2 (any_false (fun p => shared p i) l Hn)) by (intros; by eapply H).
Qed.

Lemma lock_of_ext l l' i :
  NoDup l.*1 -> NoDup l'.*1 ->
  (forall k q, conn l k = Some q -> exists q', conn l' k = Some q' /\ excl q' i = excl q i /\ shared q' i = shared q i) ->
  (forall k q, conn l' k = Some q -> exists q', conn l k = Some q' /\ excl q' i = excl q i /\ shared q' i = shared q i) ->
  lock_of l' i = lock_of l i.
Proof.
  intros Hn Hn' H1 H2. pose proof (lock_of_cases l i Hn) as Hc. destruct (lock_of l i).
  - destruct Hc as [He (k & q & Hc & Hs)]. destruct (H1 _ _ Hc) as (q' & Hc' & E1 & E2). apply (lock_of_r _ _ k q'); [done..|by rewrite E2|].
    intros k1 q1 Hq. destruct (H2 _ _ Hq) as (q2 & Hq2 & <- & _). eauto.
  - destruct Hc as (k & q & Hc & Hs). destruct (H1 _ _ Hc) as (q' & Hc' & E1 & E2). by apply (lock_of_w _ _ k q'); [..|rewrite E1].
  - apply lock_of_u; [done|]. intros k q Hq. destruct (H2 _ _ Hq) as (q' & Hq' & <- & <-). eauto.
Qed.

Section lock.
Context (l : list (Z * unixShm)) (flags ofst n j : Z) (p : unixShm).
Hypothesis Hok : conns_ok l.
Hypothesis Hj : conn l j = Some p.
Hypothesis Hr : range_ok ofst n.
Abbreviation l' := (set_conn l j (relock flags ofst n p)).

Lemma relock_nodup : NoDup l'.*1.
Proof. rewrite set_conn_keys. apply Hok. Qed.

Lemma relock_conn k : conn l' k = if k =? j then Some (relock flags ofst n p) else conn l k.
Proof. by apply conn_set with p. Qed.

(** What a connection has had before. *)
Lemma relock_before k q : conn l' k = Some q -> exists q0, conn l k = Some q0 /\ q = (if k =? j then relock flags ofst n p else q0).
Proof. rewrite relock_conn. destruct (Z.eqb_spec k j) as [->|]; [intros [= <-]; by exists p|intros H; by exists q]. Qed.

Lemma relock_ok : grantable l flags ofst n -> conns_ok l'.
Proof.
  intros Hg. split; [apply relock_nodup|]. intros k1 k2 q1 q2 i H1 H2 Hi.
  apply relock_before in H1 as (p1 & H1 & ->). apply relock_before in H2 as (p2 & H2 & ->).
  assert (E1 : k1 = j -> p1 = p) by (intros ->; congruence). assert (E2 : k2 = j -> p2 = p) by (intros ->; congruence).
  pose proof (cn_excl _ Hok k1 k2 p1 p2 i H1 H2 Hi) as Hx.
  destruct (in_range ofst n i) eqn:Ei.
  - pose proof (proj1 (in_range_spec _ _ _) Ei) as Hin. pose proof (Hg k1 p1 i H1 Hin) as G1. pose proof (Hg k2 p2 i H2 Hin) as G2.
    destruct (Z.eqb_spec k1 j) as [Ek1|], (Z.eqb_spec k2 j) as [Ek2|]; try rewrite (E1 Ek1) in *; try rewrite (E2 Ek2) in *;
      rewrite ?relock_excl, ?relock_shared, ?Ei by done; destruct (kind flags); intuition congruence.
  - destruct (Z.eqb_spec k1 j) as [Ek1|], (Z.eqb_spec k2 j) as [Ek2|]; try rewrite (E1 Ek1) in *; try rewrite (E2 Ek2) in *;
      rewrite ?relock_excl, ?relock_shared, ?Ei by done; intuition congruence.
Qed.

Lemma relock_other i : 0 <= i -> in_range ofst n i = false -> lock_of l' i = lock_of l i.
Proof.
  intros Hi Ei. apply lock_of_ext; [apply Hok|apply relock_nodup| |].
  - intros k q Hk. rewrite relock_conn. destruct (Z.eqb_spec k j) as [->|]; [|by exists q]. rewrite Hj in Hk. injection Hk as <-.
    eexists. split; [done|]. by rewrite relock_excl, relock_shared, Ei by done.
  - intros k q Hk. apply relock_before in Hk as (q0 & Hk & ->). exists q0. split; [done|]. destruct (Z.eqb_spec k j) as [->|]; [|done].
    rewrite Hj in Hk. injection Hk as <-. by rewrite relock_excl, relock_shared, Ei by done.
Qed.

Lemma relock_w i : kind flags = F_WRLCK -> ofst <= i < ofst + n -> lock_of l' i = F_WRLCK.
Proof.
  intros Hk Hi. destruct Hr as [H0 _]. apply (lock_of_w _ _ j (relock flags ofst n p)); [apply relock_nodup|by rewrite relock_conn, Z.eqb_refl|].
  rewrite relock_excl by (done || lia). rewrite (proj2 (in_range_spec _ _ _) Hi). by rewrite Hk.
Qed.

Lemma relock_r i : kind flags = F_RDLCK -> grantable l flags ofst n -> ofst <= i < ofst + n -> lock_of l' i = F_RDLCK.
Proof.
  intros Hk Hg Hi. destruct Hr as [H0 _].
  apply (lock_of_r _ _ j (relock flags ofst n p)); [apply relock_nodup|by rewrite relock_conn, Z.eqb_refl| |].
  - rewrite relock_shared by (done || lia). rewrite (proj2 (in_range_spec _ _ _) Hi). by rewrite Hk.
  - intros k q Hq. apply relock_before in Hq as (q0 & Hq & ->). pose proof (Hg _ _ _ Hq Hi) as G. rewrite Hk in G.
    destruct (Z.eqb_spec k j) as [->|]; [|done]. rewrite Hj in Hq. injection Hq as <-.
    rewrite relock_excl by (done || lia). by rewrite (proj2 (in_range_spec _ _ _) Hi), Hk.
Qed.

(** Unlocking, where the connection has a lock. *)
Lemma relock_u i :
  kind flags = F_UNLCK -> ofst <= i < ofst + n -> shared p i = true \/ excl p i = true ->
  lock_of l' i = if any (fun q => shared q i) (filter (fun x => negb (x.1 =? j) = true) l) then F_RDLCK else F_UNLCK.
Proof.
  intros Hk Hi Hp. destruct Hr as [H0 _]. assert (Hno : forall k q, conn l k = Some q -> k <> j -> excl q i = false).
  { intros k q Hq Hkj. apply not_true_is_false. intros Hx. destruct (cn_excl _ Hok k j q p i Hq Hj ltac:(lia) Hx) as [E1 E2].
    specialize (E2 Hkj). destruct Hp; congruence. }
  assert (Hsib : any (fun q => shared q i) (filter (fun x => negb (x.1 =? j) = true) l) = true <->
    exists k q, conn l k = Some q /\ k <> j /\ shared q i = true).
  { unfold any. rewrite existsb_exists. split.
    - intros ([k q] & Hin & Hs). apply list_elem_of_In, list_elem_of_filter in Hin as [Hkj Hin]. cbn in Hkj, Hs. bool_to_prop.
      exists k, q. split_and!; [|done..]. apply elem_conn; [apply Hok|done].
    - intros (k & q & Hq & Hkj & Hs). exists (k, q). split; [|done]. apply list_elem_of_In, list_elem_of_filter. split; [|by apply conn_elem].
      cbn. by rewrite (proj2 (Z.eqb_neq k j)). }
  assert (Hne : forall k q, conn l' k = Some q -> excl q i = false).
  { intros k q Hq. apply relock_before in Hq as (q0 & Hq & ->). destruct (Z.eqb_spec k j) as [->|Hkj]; [|by apply (Hno k)].
    rewrite relock_excl by (done || lia). by rewrite (proj2 (in_range_spec _ _ _) Hi), Hk. }
  destruct (any _ (filter _ l)).
  - destruct (proj1 Hsib eq_refl) as (k & q & Hq & Hkj & Hs). apply (lock_of_r _ _ k q); [apply relock_nodup| |done|done].
    rewrite relock_conn. by rewrite (proj2 (Z.eqb_neq k j)).
  - apply lock_of_u; [apply relock_nodup|]. intros k q Hq. split; [by apply (Hne k)|].
    apply relock_before in Hq as (q0 & Hq & ->). destruct (Z.eqb_spec k j) as [->|Hkj].
    + rewrite relock_shared by (done || lia). by rewrite (proj2 (in_range_spec _ _ _) Hi), Hk.
    + apply not_true_is_false. intros Hs. assert (false = true) by (apply Hsib; eauto). done.
Qed.
End lock.

(** The system call of an operation, for locks that are within range. *)
Lemma unixShmSystemLock_shape node t ofst n :
  0 <= hShm node -> 1 <= n <= SQLITE_SHM_NLOCK -> t <> F_RDLCK \/ n = 1 ->
  unixShmSystemLock node t ofst n = Setlk (mkFlock t ofst n) (fun e => Ret (if e =? 0 then SQLITE_OK else SQLITE_BUSY)).
Proof.
  intros Hh Hn Ht. unfold unixShmSystemLock. assert (E1 : (n =? 1) || negb (bool_decide (t = F_RDLCK)) = true).
  { destruct Ht as [Ht| ->]; [|done]. by rewrite bool_decide_false, orb_true_r. }
  rewrite E1. cbn [assert]. rewrite !(proj2 (Z.leb_le _ _)) by lia. done.
Qed.

(** The branch that the flags select. *)
Lemma unixShmLock_branch node j p ofst n flags :
  conn (pFirst node) j = Some p -> 0 <= hShm node -> range_ok ofst n -> legal p ofst n flags ->
  unixShmLock false node j ofst n flags =
    match kind flags with
    | F_UNLCK => unixShmLock_unlock node j p ofst n (lock_mask ofst n)
    | F_RDLCK => unixShmLock_shared node j p ofst n (lock_mask ofst n)
    | F_WRLCK => unixShmLock_exclusive node j p ofst n (lock_mask ofst n)
    end.
Proof.
  intros Hj Hh (H1 & H2 & H3) Hl. unfold unixShmLock. change SQLITE_SHM_NLOCK with 8 in *.
  assert (Hm : (1 <? n) || (lock_mask ofst n =? Z.shiftl 1 ofst) = true).
  { destruct (Z.ltb_spec 1 n); [done|]. assert (n = 1) as -> by lia. apply Z.eqb_eq, Z.bits_inj'. intros i Hi.
    rewrite lock_mask_bit, Z.shiftl_1_l, Z.pow2_bits_eqb by lia.
    destruct (Z.leb_spec ofst i), (Z.ltb_spec i (ofst + 1)), (Z.eqb_spec ofst i); cbn; lia. }
  rewrite Hj, (proj2 (Z.leb_le 0 ofst)), (proj2 (Z.leb_le (ofst + n) 8)), (proj2 (Z.leb_le 1 n)), (proj2 (Z.leb_le 0 (hShm node))), Hm by done.
  destruct Hl as [En _| | En _|_]; try subst n; try reflexivity; by destruct (n =? 1).
Qed.


(** An operation on locks makes at most one call, which decides: it is refused for
    another connection of the process; or the process has the lock already, or keeps
    it; or it depends on the kernel. *)
Section shape.
Context (node : unixShmNode) (j : Z) (p : unixShm) (ofst n flags : Z).
Hypothesis Hok : conns_ok (pFirst node).
Hypothesis Hj : conn (pFirst node) j = Some p.
Hypothesis Hh : 0 <= hShm node.
Hypothesis Hr : range_ok ofst n.
Abbreviation l' := (set_conn (pFirst node) j (relock flags ofst n p)).
Abbreviation node' := (set_conns node (nRef node) l').

Inductive lock_shape (pg : prog (Z * unixShmNode)) : Prop :=
  | shape_refused : pg = Ret (SQLITE_BUSY, node) -> refused (pFirst node) flags ofst n -> kind flags <> F_UNLCK -> lock_shape pg
  | shape_local : pg = Ret (SQLITE_OK, node') -> grantable (pFirst node) flags ofst n -> kind flags <> F_WRLCK -> n = 1 ->
      lock_of (pFirst node) ofst = F_RDLCK -> lock_of l' ofst = F_RDLCK -> lock_shape pg
  | shape_call k : pg = Setlk (mkFlock (kind flags) (ofst + UNIX_SHM_BASE) n) k -> grantable (pFirst node) flags ofst n ->
      k 0 = Ret (SQLITE_OK, node') -> (forall e, e <> 0 -> k e = Ret (SQLITE_BUSY, node)) ->
      (forall i, ofst <= i < ofst + n -> lock_of l' i = kind flags) -> lock_shape pg.

Lemma range_one : n = 1 -> forall i, ofst <= i < ofst + n -> i = ofst.
Proof. lia. Qed.

Lemma shared_shape :
  kind flags = F_RDLCK -> n = 1 -> relock flags ofst n p = mkShm (Z.lor (sharedMask p) (lock_mask ofst n)) (exclMask p) ->
  lock_shape (unixShmLock_shared node j p ofst n (lock_mask ofst n)).
Proof.
  intros Hk Hn1 Er. pose proof Hr as (H1 & H2 & H3). change SQLITE_SHM_NLOCK with 8 in H3. pose proof (cn_nodup _ Hok) as Hn.
  unfold unixShmLock_shared. rewrite <- Er. pose proof (allShared_spec (pFirst node) (lock_mask ofst n) 0 Hn) as Hs.
  destruct (unixShmLock_allShared (pFirst node) (lock_mask ofst n) 0) as [m|].
  - destruct Hs as [Hx Hm]. assert (Hg : grantable (pFirst node) flags ofst n).
    { intros k q i Hq Hi. rewrite Hk. specialize (Hx k q Hq). rewrite Z.land_comm, mask_land in Hx by lia. by apply Hx. }
    destruct (Z.eqb_spec (Z.land m (lock_mask ofst n)) 0) as [E|E].
    + rewrite unixShmSystemLock_shape by (first [done|by right|unfold SQLITE_SHM_NLOCK; lia]).
      eapply shape_call; [cbn; by rewrite Hk|done|done| |].
      * intros e He. cbn. by rewrite (proj2 (Z.eqb_neq e 0) He).
      * intros i Hi. rewrite Hk. by apply relock_r.
    + apply shape_local; [done|done|by rewrite Hk|done| |apply relock_r; try done; lia].
      assert (Hb : Z.testbit m ofst = true).
      { apply not_false_is_true. intros Hb. apply E. rewrite Z.land_comm. apply mask_land; [lia..|]. intros i Hi. by rewrite (range_one Hn1 i Hi). }
      apply Hm in Hb as [Hb|(k & q & Hq & Hb)]; [by rewrite Z.bits_0 in Hb| |lia]. apply (lock_of_r _ _ k q); [done..|].
      intros k' q' Hq'. specialize (Hg k' q' ofst Hq' ltac:(lia)). by rewrite Hk in Hg.
  - apply shape_refused; [done| |by rewrite Hk]. destruct Hs as (k & q & Hq & Hne). destruct (mask_land_ne ofst n (exclMask q)) as (i & Hi & Hb); [done..|].
    exists k, q, i. split_and!; try done; try lia. by left.
Qed.

Lemma exclusive_shape :
  kind flags = F_WRLCK -> relock flags ofst n p = mkShm (sharedMask p) (Z.lor (exclMask p) (lock_mask ofst n)) ->
  lock_shape (unixShmLock_exclusive node j p ofst n (lock_mask ofst n)).
Proof.
  intros Hk Er. pose proof Hr as (H1 & H2 & H3). change SQLITE_SHM_NLOCK with 8 in H3. pose proof (cn_nodup _ Hok) as Hn.
  unfold unixShmLock_exclusive. rewrite <- Er. pose proof (busy_spec (pFirst node) (lock_mask ofst n) Hn) as Hb.
  destruct (unixShmLock_busy (pFirst node) (lock_mask ofst n)).
  - apply shape_refused; [done| |by rewrite Hk].
    destruct Hb as (k & q & Hq & [Hne|Hne]); [destruct (mask_land_ne ofst n (exclMask q)) as (i & Hi & Hb)|destruct (mask_land_ne ofst n (sharedMask q)) as (i & Hi & Hb)];
      try done; exists k, q, i; (split; [done|]; split; [done|]); [by left|by right].
  - assert (Hg : grantable (pFirst node) flags ofst n).
    { intros k q i Hq Hi. rewrite Hk. destruct (Hb k q Hq) as [E1 E2]. rewrite Z.land_comm, mask_land in E1 by lia.
      rewrite Z.land_comm, mask_land in E2 by lia. split; [by apply E1|by apply E2]. }
    rewrite unixShmSystemLock_shape by (first [done|by left|unfold SQLITE_SHM_NLOCK; lia]).
    eapply shape_call; [cbn; by rewrite Hk|done| | |].
    + cbn. by rewrite (proj2 (Hb j p Hj)).
    + intros e He. cbn. by rewrite (proj2 (Z.eqb_neq e 0) He).
    + intros i Hi. rewrite Hk. by apply relock_w.
Qed.

Lemma unlock_shape :
  kind flags = F_UNLCK -> (n = 1 /\ shared p ofst = true \/ forall i, ofst <= i < ofst + n -> excl p i = true) ->
  relock flags ofst n p = mkShm (Z.land (sharedMask p) (Z.lnot (lock_mask ofst n))) (Z.land (exclMask p) (Z.lnot (lock_mask ofst n))) ->
  lock_shape (unixShmLock_unlock node j p ofst n (lock_mask ofst n)).
Proof.
  intros Hk Hp Er. pose proof Hr as (H1 & H2 & H3). change SQLITE_SHM_NLOCK with 8 in H3. pose proof (cn_nodup _ Hok) as Hn.
  assert (Hhas : forall i, ofst <= i < ofst + n -> shared p i = true \/ excl p i = true).
  { intros i Hi. destruct Hp as [[Hn1 Hs]|Hx]; [left; by rewrite (range_one Hn1 i Hi)|right; auto]. }
  assert (Hg : grantable (pFirst node) flags ofst n) by (intros k q i _ _; by rewrite Hk).
  unfold unixShmLock_unlock. rewrite <- Er. destruct (allMask_spec (pFirst node) j p 0 Hok Hj) as (m & -> & Hm).
  assert (Hsib : forall i, ofst <= i < ofst + n ->
    lock_of l' i = if Z.testbit m i then F_RDLCK else F_UNLCK).
  { intros i Hi. rewrite (relock_u (pFirst node) flags ofst n j p Hok Hj Hr i Hk Hi (Hhas i Hi)).
    assert (E : any (fun q => shared q i) (filter (fun x => negb (x.1 =? j) = true) (pFirst node)) = Z.testbit m i); [|by rewrite E].
    apply eq_true_iff_eq. rewrite Hm by lia. unfold any. rewrite existsb_exists. split.
    - intros ([k q] & Hin & Hs). right. apply list_elem_of_In, list_elem_of_filter in Hin as [Hkj Hin]. cbn in Hkj, Hs. bool_to_prop.
      exists k, q. split_and!; try done. by apply elem_conn.
    - intros [Hb|(k & q & Hkj & Hq & Hs)]; [by rewrite Z.bits_0 in Hb|]. exists (k, q). split; [|done].
      apply list_elem_of_In, list_elem_of_filter. split; [|by apply conn_elem]. cbn. by rewrite (proj2 (Z.eqb_neq k j)). }
  destruct (Z.eqb_spec (Z.land (lock_mask ofst n) m) 0) as [E|E].
  - rewrite mask_land in E by lia. rewrite unixShmSystemLock_shape by (first [done|by left|unfold SQLITE_SHM_NLOCK; lia]).
    eapply shape_call; [cbn; by rewrite Hk|done|done| |].
    + intros e He. cbn. by rewrite (proj2 (Z.eqb_neq e 0) He).
    + intros i Hi. by rewrite Hk, Hsib, E.
  - destruct Hp as [[Hn1 Hs]|Hx].
    + assert (Hb : Z.testbit m ofst = true).
      { apply not_false_is_true. intros Hb. apply E. apply mask_land; [lia..|]. intros i Hi. by rewrite (range_one Hn1 i Hi). }
      apply shape_local; [done|done|by rewrite Hk|done| |by rewrite Hsib, Hb by lia].
      apply (lock_of_r _ _ j p); [done..|]. intros k q Hq. apply not_true_is_false. intros Hx.
      destruct (cn_excl _ Hok k j q p ofst Hq Hj ltac:(lia) Hx). congruence.
    + destruct E. apply mask_land; [lia..|]. intros i Hi. apply not_true_is_false. intros Hb.
      apply Hm in Hb as [Hb|(k & q & Hkj & Hq & Hs)]; [by rewrite Z.bits_0 in Hb| |lia].
      destruct (cn_excl _ Hok j k p q i Hj Hq ltac:(lia) (Hx i Hi)). congruence.
Qed.

End shape.

Lemma unixShmLock_shape node j p ofst n flags :
  conns_ok (pFirst node) -> conn (pFirst node) j = Some p -> 0 <= hShm node -> range_ok ofst n -> legal p ofst n flags ->
  lock_shape node j p ofst n flags (unixShmLock false node j ofst n flags).
Proof.
  intros Hok Hj Hh Hr Hl. rewrite (unixShmLock_branch node j p) by done. destruct Hl as [Hn1 Hs| |Hn1 Hs|Hx].
  - by apply shared_shape.
  - by apply exclusive_shape.
  - apply unlock_shape; try done. by left.
  - apply unlock_shape; try done. by right.
Qed.

(** ** The invariant of a process *)

Section invariant.
(** The size of the pages of the system. *)
Context (pgsz : Z).

(** The regions are those of the file, one after the other, and mapped together as
    [unixShmRegionPerMap] says. *)
Definition regions_ok (n : unixShmNode) : Prop :=
  Z.of_nat (length (apRegion n)) = nRegion n /\ nRegion n mod unixShmRegionPerMap pgsz = 0 /\
  forall i, 0 <= i < nRegion n -> exists off d, apRegion n !! Z.to_nat i = Some (Mapped off d) /\ off + d = i * szRegion n.

Record node_ok (n : unixShmNode) (hd : held) (lb : Z) : Prop := {
  nd_conns : conns_ok (pFirst n);
  nd_locks i : 0 <= i < SQLITE_SHM_NLOCK -> hd (UNIX_SHM_BASE + i) = lock_of (pFirst n) i;
  nd_dms : hd UNIX_SHM_DMS = if isUnlocked n then F_UNLCK else F_RDLCK;
  nd_ref : nRef n = Z.of_nat (length (pFirst n));
  nd_handle : 0 <= hShm n;
  nd_unlocked : isUnlocked n = true -> isReadonly n = true /\ nRegion n = 0;
  nd_regions : regions_ok n;
  nd_size : nRegion n * szRegion n <= lb }.

(** The process has no locks on the file. *)
Definition free (hd : held) : Prop := forall i, 0 <= i <= SQLITE_SHM_NLOCK -> hd (UNIX_SHM_BASE + i) = F_UNLCK.

Definition state_ok (s : option unixShmNode) (hd : held) (lb : Z) : Prop :=
  0 <= lb /\ match s with Some n => node_ok n hd lb /\ 0 < nRef n | None => free hd end.

Lemma node_ok_proper n hd hd' lb : held_eq hd hd' -> node_ok n hd lb -> node_ok n hd' lb.
Proof. intros He [A1 A2 A3 A4 A5 A6 A7 A8]. split; try done; [intros i Hi; rewrite <- He; auto|by rewrite <- He]. Qed.

Lemma state_ok_proper s hd hd' lb : held_eq hd hd' -> state_ok s hd lb -> state_ok s hd' lb.
Proof.
  intros He [H0 H]. split; [done|]. destruct s as [n|]; [destruct H; split; [by apply (node_ok_proper n hd)|done]|].
  intros i Hi. rewrite <- He. auto.
Qed.

(** Other locks than that on the byte [UNIX_SHM_DMS] are the same. *)
Definition same_locks (hd hd' : held) : Prop := forall i, 0 <= i < SQLITE_SHM_NLOCK -> hd' (UNIX_SHM_BASE + i) = hd (UNIX_SHM_BASE + i).

Lemma dms_locks hd t : same_locks hd (apply_lk hd (mkFlock t UNIX_SHM_DMS 1)).
Proof.
  intros i Hi. unfold apply_lk, in_flock. cbn [l_start l_len]. unfold UNIX_SHM_DMS. rewrite (proj2 (Z.leb_gt _ _)) by lia. done.
Qed.

Lemma dms_self hd t : apply_lk hd (mkFlock t UNIX_SHM_DMS 1) UNIX_SHM_DMS = t.
Proof. done. Qed.

(** The byte [UNIX_SHM_BASE + i] after a call on [n] bytes from [ofst] on. *)
Lemma apply_base hd t ofst n i :
  1 <= n -> apply_lk hd (mkFlock t (ofst + UNIX_SHM_BASE) n) (UNIX_SHM_BASE + i) =
    if in_range ofst n i then t else hd (UNIX_SHM_BASE + i).
Proof.
  intros Hn. unfold apply_lk, in_flock, in_range. cbn [l_start l_len l_type]. rewrite (proj2 (Z.eqb_neq n 0)) by lia. cbn [orb].
  destruct (Z.leb_spec (ofst + UNIX_SHM_BASE) (UNIX_SHM_BASE + i)), (Z.leb_spec ofst i); try lia; cbn [andb]; [|done].
  destruct (Z.ltb_spec (UNIX_SHM_BASE + i) (ofst + UNIX_SHM_BASE + n)), (Z.ltb_spec i (ofst + n)); lia || done.
Qed.

Lemma apply_dms hd t ofst n :
  range_ok ofst n -> apply_lk hd (mkFlock t (ofst + UNIX_SHM_BASE) n) UNIX_SHM_DMS = hd UNIX_SHM_DMS.
Proof.
  intros (H1 & H2 & H3). unfold UNIX_SHM_DMS. rewrite apply_base by done. destruct (in_range ofst n SQLITE_SHM_NLOCK) eqn:E; [|done].
  apply in_range_spec in E. lia.
Qed.

Lemma bound_le hd lb : 0 <= lb -> 0 <= bound hd lb <= lb.
Proof. intros H. unfold bound. case_decide; lia. Qed.

Lemma bound_locked hd lb : hd UNIX_SHM_DMS <> F_UNLCK -> bound hd lb = lb.
Proof. intros H. unfold bound. by rewrite decide_False. Qed.

(** ** Locking *)

Lemma relock_node n j p flags ofst k hd hd' lb lb' :
  node_ok n hd lb -> conn (pFirst n) j = Some p -> range_ok ofst k -> grantable (pFirst n) flags ofst k ->
  hd' UNIX_SHM_DMS = hd UNIX_SHM_DMS ->
  (forall i, 0 <= i < SQLITE_SHM_NLOCK -> hd' (UNIX_SHM_BASE + i) =
     if in_range ofst k i then lock_of (set_conn (pFirst n) j (relock flags ofst k p)) i else hd (UNIX_SHM_BASE + i)) ->
  nRegion n * szRegion n <= lb' ->
  node_ok (set_conns n (nRef n) (set_conn (pFirst n) j (relock flags ofst k p))) hd' lb'.
Proof.
  intros [A1 A2 A3 A4 A5 A6 A7 A8] Hj Hr Hg Hd Hl Hlb. split; cbn; try done.
  - by apply relock_ok.
  - intros i Hi. rewrite Hl by done. destruct (in_range ofst k i) eqn:E; [done|]. rewrite A2 by done. symmetry. apply relock_other; try done. lia.
  - by rewrite Hd.
  - by rewrite set_conn_length.
Qed.

Lemma node_bound n hd hd' lb :
  node_ok n hd lb -> 0 <= lb -> hd' UNIX_SHM_DMS = hd UNIX_SHM_DMS -> nRegion n * szRegion n <= bound hd' lb.
Proof.
  intros Hn H0 Hd. pose proof (nd_dms _ _ _ Hn) as Hdms. destruct (isUnlocked n) eqn:E.
  - destruct (nd_unlocked _ _ _ Hn E) as [_ E0]. rewrite E0. pose proof (bound_le hd' lb H0). lia.
  - rewrite bound_locked; [apply Hn|by rewrite Hd, Hdms].
Qed.

Lemma wp_unixShmLock n j p ofst k flags hd lb :
  state_ok (Some n) hd lb -> conn (pFirst n) j = Some p -> range_ok ofst k -> legal p ofst k flags ->
  wp (unixShmLock false n j ofst k flags) (fun '(_, n') hd' lb' => state_ok (Some n') hd' lb') hd lb.
Proof.
  intros (H0 & Hn & Href) Hj Hr Hl. pose proof Hr as (R1 & R2 & R3).
  destruct (unixShmLock_shape n j p ofst k flags (nd_conns _ _ _ Hn) Hj (nd_handle _ _ _ Hn) Hr Hl)
    as [Epg _ _|Epg Hg _ E1 E2 E3|k' Epg Hg E0 Ee El]; rewrite Epg.
  - by split.
  - split; [done|]. split; [|done]. apply (relock_node n j p flags ofst k hd _ lb); try done; [|apply Hn].
    intros i Hi. destruct (in_range ofst k i) eqn:E; [|done]. apply in_range_spec in E. assert (i = ofst) as -> by lia.
    by rewrite (nd_locks _ _ _ Hn), E2, E3 by done.
  - cbn [wp]. pose proof (apply_dms hd (kind flags) ofst k Hr) as Hd. split.
    + rewrite E0. cbn [wp]. split; [by apply bound_le|]. split; [|done].
      apply (relock_node n j p flags ofst k hd _ lb); try done; [|by apply (node_bound n hd)].
      intros i Hi. rewrite apply_base by done. destruct (in_range ofst k i) eqn:E; [|done]. apply in_range_spec in E. symmetry. auto.
    + intros e He. rewrite (Ee e He). cbn [wp]. by split.
Qed.

(** ** Counting locks

    What a lock byte of [WalLocks] holds: the number of shared locks, less one for an
    exclusive lock. *)
Definition weight (p : unixShm) (i : Z) : Z := Z.b2z (shared p i) - Z.b2z (excl p i).

Fixpoint conns_weight (l : list (Z * unixShm)) (i : Z) : Z :=
  match l with [] => 0 | (_, p) :: l => weight p i + conns_weight l i end.

Definition state_conns (s : option unixShmNode) : list (Z * unixShm) := match s with Some n => pFirst n | None => [] end.

(** The locks of the process are the same. *)
Definition same_weights (s s' : option unixShmNode) : Prop :=
  forall i, 0 <= i -> conns_weight (state_conns s') i = conns_weight (state_conns s) i.

Lemma conns_weight_set l j p p' i :
  NoDup l.*1 -> conn l j = Some p -> conns_weight (set_conn l j p') i = conns_weight l i - weight p i + weight p' i.
Proof.
  induction l as [|[k q] l IH]; [done|]. cbn [fmap list_fmap fst]. intros [Hk Hn]%NoDup_cons. cbn. destruct (Z.eqb_spec k j) as [->|Hne]; cbn.
  - intros [= ->]. assert (E : set_conn l j p' = l); [|unfold set_conn in E; rewrite E; lia]. clear IH Hn.
    induction l as [|[k1 q1] l IH]; [done|]. cbn in Hk. apply not_elem_of_cons in Hk as [H1 H2]. cbn. rewrite (proj2 (Z.eqb_neq k1 j)) by done.
    f_equal. by apply IH.
  - intros Hc. fold (set_conn l j p'). rewrite IH by done. lia.
Qed.

Lemma conns_weight_cons l j i : conns_weight ((j, mkShm 0 0) :: l) i = conns_weight l i.
Proof. cbn. unfold weight, shared, excl. cbn. by rewrite !Z.bits_0. Qed.

(** ** Opening *)

(** What [unixLockSharedMemory] leaves: it may keep an exclusive lock when it fails. *)
Definition lock_memory_post (n : unixShmNode) (hd : held) (r : Z * unixShmNode) (hd' : held) (lb' : Z) : Prop :=
  let '(rc, n') := r in
  0 <= lb' /\ same_locks hd hd' /\
  (rc = SQLITE_OK -> n' = n /\ hd' UNIX_SHM_DMS = F_RDLCK) /\
  (rc = SQLITE_READONLY_CANTINIT -> isReadonly n = true /\ n' = set_unlocked n true /\ hd' UNIX_SHM_DMS = F_UNLCK) /\
  (rc <> SQLITE_OK -> isReadonly n = true -> (n' = n \/ n' = set_unlocked n true) /\ hd' UNIX_SHM_DMS = F_UNLCK) /\
  (n' = n \/ n' = set_unlocked n true).

Lemma same_locks_trans hd1 hd2 hd3 : same_locks hd1 hd2 -> same_locks hd2 hd3 -> same_locks hd1 hd3.
Proof. intros H1 H2 i Hi. by rewrite H2, H1. Qed.

Lemma lock_memory_failed n hd rc hd' lb' :
  rc <> SQLITE_OK -> rc <> SQLITE_READONLY_CANTINIT -> 0 <= lb' -> same_locks hd hd' ->
  (isReadonly n = true -> hd' UNIX_SHM_DMS = F_UNLCK) -> lock_memory_post n hd (rc, n) hd' lb'.
Proof. intros H1 H2 H3 H4 H5. do 4 (split; [done|]). split; [|by left]. intros _ Hr. split; [by left|auto]. Qed.

(** The shared lock at the end. *)
Lemma wp_shared_dms n hd0 hd lb :
  0 <= hShm n -> 0 <= lb -> same_locks hd0 hd -> (isReadonly n = true -> hd UNIX_SHM_DMS = F_UNLCK) ->
  wp (rc ← unixShmSystemLock n F_RDLCK UNIX_SHM_DMS 1; Ret (rc, n)) (lock_memory_post n hd0) hd lb.
Proof.
  intros Hh H0 Hs Hro. apply shm_wp_bind. rewrite unixShmSystemLock_shape by (first [done|by right]). cbn [wp]. split.
  - rewrite Z.eqb_refl. split; [by apply bound_le|]. split; [apply (same_locks_trans _ hd); [done|apply dms_locks]|].
    split; [by intros _|]. split; [done|]. split; [done|by left].
  - intros e He. rewrite (proj2 (Z.eqb_neq e 0) He). by apply lock_memory_failed.
Qed.

Lemma wp_unixLockSharedMemory n hd lb :
  0 <= hShm n -> 0 <= lb -> hd UNIX_SHM_DMS = F_UNLCK -> wp (unixLockSharedMemory n) (lock_memory_post n hd) hd lb.
Proof.
  intros Hh H0 Hd. unfold unixLockSharedMemory. cbn [wp]. intros e t. apply shm_wp_bind.
  assert (Hsame : same_locks hd hd) by done.
  destruct (negb (e =? 0)) eqn:Ee.
  { by apply lock_memory_failed. }
  destruct (decide (t = F_UNLCK)) as [->|Ht].
  - destruct (isReadonly n) eqn:Ero.
    + cbn. do 3 (split; [done|]). split; [done|]. split; [|by right]. intros _ _. split; [by right|done].
    + apply shm_wp_bind. rewrite unixShmSystemLock_shape by (first [done|by left]). cbn [wp]. split.
      * rewrite Z.eqb_refl. change (SQLITE_OK =? SQLITE_OK) with true. cbn [wp]. split; [by rewrite dms_self|]. split; [done|].
        pose proof (bound_le (apply_lk hd (mkFlock F_WRLCK UNIX_SHM_DMS 1)) lb H0). split.
        -- change (SQLITE_OK =? SQLITE_OK) with true. cbn iota. apply wp_shared_dms; [done|lia|apply dms_locks|by rewrite Ero].
        -- change (SQLITE_IOERR_SHMOPEN =? SQLITE_OK) with false. cbn iota. apply lock_memory_failed; [done|done|lia|apply dms_locks|by rewrite Ero].
      * intros e' He'. rewrite (proj2 (Z.eqb_neq e' 0) He'). change (SQLITE_BUSY =? SQLITE_OK) with false. cbn iota.
        by apply lock_memory_failed.
  - destruct (decide (t = F_WRLCK)) as [->|Hw].
    + by apply lock_memory_failed.
    + cbn [wp]. change (SQLITE_OK =? SQLITE_OK) with true. cbn iota. by apply wp_shared_dms.
Qed.

(** A new node, without connections. *)
Record fresh (n : unixShmNode) (hd : held) : Prop := {
  fr_conns : pFirst n = [] /\ nRef n = 0;
  fr_regions : apRegion n = [] /\ nRegion n = 0 /\ szRegion n = 0;
  fr_handle : 0 <= hShm n;
  fr_dms : hd UNIX_SHM_DMS = if isUnlocked n then F_UNLCK else F_RDLCK;
  fr_unlocked : isUnlocked n = true -> isReadonly n = true;
  fr_locks i : 0 <= i < SQLITE_SHM_NLOCK -> hd (UNIX_SHM_BASE + i) = F_UNLCK }.

Definition open_node_post (r : Z * option unixShmNode * bool) (hd : held) (lb : Z) : Prop :=
  let '(rc, node, err) := r in
  0 <= lb /\
  if err : bool then rc <> SQLITE_OK /\ match node with None => free hd | Some n => nRef n = 0 /\ (hShm n < 0 -> free hd) end
  else (rc = SQLITE_OK \/ rc = SQLITE_READONLY_CANTINIT) /\ exists n, node = Some n /\ fresh n hd.

Lemma free_dms hd : free hd -> hd UNIX_SHM_DMS = F_UNLCK.
Proof. intros H. apply (H SQLITE_SHM_NLOCK). unfold SQLITE_SHM_NLOCK. lia. Qed.

Lemma wp_unixOpenSharedMemory_node hd lb : 0 <= lb -> free hd -> wp (unixOpenSharedMemory_node false) open_node_post hd lb.
Proof.
  intros H0 Hf. unfold unixOpenSharedMemory_node. cbn [wp]. intros stat. case_bool; [by split_and!|].
  cbn [wp]. intros mem. case_bool; [by split_and!|]. cbn [wp]. intros mutex. case_bool; [by split_and!|].
  cbn [wp]. intros ro fd. set (h := if ro =? 0 then fd else -1). intros fd'.
  set (n0 := mkNode (-1) 0 0 false false [] 0 []). set (n := if h <? 0 then set_handle n0 fd' true else set_handle n0 h false).
  assert (Hn : pFirst n = [] /\ nRef n = 0 /\ apRegion n = [] /\ nRegion n = 0 /\ szRegion n = 0 /\ isUnlocked n = false) by (unfold n; by case_bool).
  destruct Hn as (N1 & N2 & N3 & N4 & N5 & N6). clearbody n. destruct (Z.ltb_spec (hShm n) 0) as [Hh|Hh].
  { by split_and!. }
  apply shm_wp_bind. eapply shm_wp_mono; [|apply wp_unixLockSharedMemory; [done|done|by apply free_dms]].
  intros [rc n'] hd' lb' (L0 & L1 & L2 & L3 & L4 & L5). cbn [wp].
  assert (Hl : forall i, 0 <= i < SQLITE_SHM_NLOCK -> hd' (UNIX_SHM_BASE + i) = F_UNLCK) by (intros i Hi; rewrite L1 by done; apply Hf; lia).
  assert (Hrc : rc = SQLITE_OK \/ rc = SQLITE_READONLY_CANTINIT \/ negb (rc =? SQLITE_OK) && negb (rc =? SQLITE_READONLY_CANTINIT) = true).
  { destruct (Z.eqb_spec rc SQLITE_OK); [by left|]. destruct (Z.eqb_spec rc SQLITE_READONLY_CANTINIT); [right; by left|by right; right]. }
  split; [done|]. destruct Hrc as [->|[->|Hrc]].
  - destruct (L2 eq_refl) as [-> Hd]. cbn. split; [by left|]. exists n. split; [done|]. split; try done; [by rewrite N6|by rewrite N6].
  - destruct (L3 eq_refl) as (Hro & -> & Hd). cbn. split; [by right|]. eexists. split; [done|]. by split.
  - rewrite Hrc. bool_to_prop. split; [done|]. destruct L5 as [->| ->]; (split; [done|]); cbn; lia.
Qed.

Lemma wp_unixShmPurge n (Q : option unixShmNode -> held -> Z -> Prop) hd lb :
  nRef n = 0 -> (hShm n < 0 -> free hd /\ 0 <= lb) -> (forall hd lb, free hd -> 0 <= lb -> Q None hd lb) -> wp (unixShmPurge (Some n)) Q hd lb.
Proof.
  intros Hr Hf HQ. unfold unixShmPurge. rewrite Hr, Z.eqb_refl. destruct (Z.leb_spec 0 (hShm n)) as [Hh|Hh]; cbn [wp]; [by apply HQ|].
  destruct (Hf Hh). by apply HQ.
Qed.

(** A connection without locks is added. *)
Lemma conns_cons l j : conns_ok l -> conn l j = None -> conns_ok ((j, mkShm 0 0) :: l).
Proof.
  intros [Hn He] Hj. split; [cbn; apply NoDup_cons; split; [by apply conn_none|done]|].
  assert (Hb : forall i, excl (mkShm 0 0) i = false /\ shared (mkShm 0 0) i = false) by (intros i; unfold excl, shared; cbn; by rewrite Z.bits_0).
  intros j1 k p q i H1 H2 Hi Hx. cbn in H1, H2. destruct (Z.eqb_spec j j1) as [->|]; [injection H1 as <-; destruct (Hb i); congruence|].
  destruct (Z.eqb_spec j k) as [->|]; [injection H2 as <-; destruct (Hb i); naive_solver|]. by apply (He j1 k p q i).
Qed.

Lemma lock_of_cons l j i : lock_of ((j, mkShm 0 0) :: l) i = lock_of l i.
Proof. unfold lock_of, any, excl, shared. cbn. by rewrite !Z.bits_0. Qed.

Lemma node_cons n j hd lb :
  node_ok n hd lb -> conn (pFirst n) j = None -> node_ok (set_conns n (nRef n + 1) ((j, mkShm 0 0) :: pFirst n)) hd lb.
Proof.
  intros [A1 A2 A3 A4 A5 A6 A7 A8] Hj. split; cbn [pFirst nRef hShm isUnlocked isReadonly nRegion apRegion szRegion set_conns]; try done.
  - by apply conns_cons.
  - intros i Hi. rewrite lock_of_cons. auto.
  - cbn [length]. lia.
Qed.

Lemma regionPerMap_pos : unixShmRegionPerMap pgsz <> 0.
Proof. unfold unixShmRegionPerMap. case_bool; [done|]. bool_to_prop. pose proof (Z.div_le_lower_bound pgsz (32 * 1024) 1). lia. Qed.

Lemma fresh_node n hd lb : fresh n hd -> 0 <= lb -> node_ok n hd lb.
Proof.
  intros [[F1 F2] (F3 & F4 & F5) F6 F7 F8 F9] H0. split; try done.
  - rewrite F1. split; [apply NoDup_nil_2|done].
  - rewrite F1. intros i Hi. by apply F9.
  - by rewrite F1, F2.
  - auto.
  - split; [by rewrite F3, F4|]. rewrite F4, Z.mod_0_l by apply regionPerMap_pos. split; [done|lia].
  - lia.
Qed.

Lemma wp_unixOpenSharedMemory j s hd lb :
  state_ok s hd lb -> (forall n, s = Some n -> conn (pFirst n) j = None) ->
  wp (unixOpenSharedMemory false j s)
    (fun '(rc, s') hd' lb' => state_ok s' hd' lb' /\ same_weights s s' /\ (rc = SQLITE_OK -> exists n, s' = Some n /\
      (nRegion n = 0 \/ exists n0, s = Some n0 /\ nRegion n = nRegion n0 /\ szRegion n = szRegion n0))) hd lb.
Proof.
  intros [H0 Hs] Hj. unfold unixOpenSharedMemory. cbn [wp]. intros mem. case_bool; [by split|]. apply shm_wp_bind.
  assert (Hcons : forall n r, pFirst n = state_conns s -> same_weights s (Some (set_conns n r ((j, mkShm 0 0) :: pFirst n)))).
  { intros n r E i _. unfold state_conns at 1. cbn [pFirst set_conns]. by rewrite conns_weight_cons, E. }
  destruct s as [n|].
  - destruct Hs as [Hn Hr]. cbn [wp]. split; [|split; [by apply Hcons|by intros _; eexists; split; [done|]; right; exists n]]. split; [done|].
    split; [by apply node_cons; [|apply Hj]|cbn; lia].
  - eapply shm_wp_mono; [|by apply wp_unixOpenSharedMemory_node]. intros [[rc node] err] hd' lb' [L0 Hp]. destruct err.
    + destruct Hp as [Hrc Hp]. apply shm_wp_bind. destruct node as [n|].
      * destruct Hp as [Hr Hf]. apply wp_unixShmPurge; [done|by intros H; split; [apply Hf|]|]. intros hd2 lb2 Hf2 H2. by split.
      * cbn. by split.
    + destruct Hp as [Hrc (n & -> & Hf)]. cbn [wp].
      split; [|split; [by apply Hcons; destruct Hf as [[-> _] _ _ _ _ _]|intros _; eexists; split; [done|]; left; by destruct Hf as [_ (_ & E & _) _ _ _ _]]].
      split; [done|]. split.
      * apply node_cons; [by apply fresh_node|]. destruct Hf as [[-> _] _ _ _ _ _]. done.
      * destruct Hf as [[_ E] _ _ _ _ _]. cbn. lia.
Qed.

(** ** Mapping *)

Abbreviation per := (unixShmRegionPerMap pgsz).

Lemma per_pos : 0 < per.
Proof.
  unfold unixShmRegionPerMap. case_bool; [done|]. bool_to_prop. pose proof (Z.div_le_lower_bound pgsz (32 * 1024) 1). lia.
Qed.

(** The regions that a request maps. *)
Definition req_regions (iRegion : Z) : Z := (iRegion + per) / per * per.

(** What wal.c asks for, within the range of the integers. *)
Record map_ok (iRegion sz : Z) : Prop := {
  mp_region : 0 <= iRegion;
  mp_size : 0 < sz /\ sz mod 4096 = 0;
  mp_range : req_regions iRegion < 2 ^ 16 /\ req_regions iRegion * sz < 2 ^ 31 }.

Lemma req_regions_bounds iRegion : 0 <= iRegion -> iRegion < req_regions iRegion /\ req_regions iRegion mod per = 0.
Proof.
  intros H. pose proof per_pos as Hp. unfold req_regions. split; [|by rewrite Z.mod_mul by lia].
  pose proof (Z.mod_pos_bound (iRegion + per) per Hp). pose proof (Z.div_mod (iRegion + per) per ltac:(lia)). nia.
Qed.

Lemma wp_extend k iPg hd lb (Q : bool -> held -> Z -> Prop) :
  0 <= lb -> hd UNIX_SHM_DMS <> F_UNLCK ->
  (forall b lb', lb <= lb' -> (b = true -> k <> O -> (iPg + Z.of_nat k) * 4096 <= lb') -> Q b hd lb') ->
  wp (unixShmMap_extend k iPg) Q hd lb.
Proof.
  intros H0 Hd. revert iPg lb H0 Q. induction k as [|k IH]; intros iPg lb H0 Q HQ; cbn [unixShmMap_extend wp].
  { apply HQ; [lia|done]. }
  rewrite bound_locked by done. split; [|by apply HQ; [lia|]]. apply IH; [lia|]. intros b lb' Hlb Hb. apply HQ; [lia|].
  intros Hbt _. destruct k as [|k]; [lia|]. specialize (Hb Hbt ltac:(lia)). lia.
Qed.

(** The node with other regions. *)
Definition with_regions (n : unixShmNode) (nr : Z) (ap : list ptr) : unixShmNode := set_regions n (szRegion n) nr ap.

Lemma regions_app n :
  0 <= nRegion n -> regions_ok n ->
  regions_ok (with_regions n (nRegion n + per) (apRegion n ++ ((fun i => shift (Mapped (szRegion n * nRegion n) 0) (szRegion n * i)) <$> seqZ 0 per))).
Proof.
  intros H0 (R1 & R2 & R3). pose proof per_pos as Hp. split; [|split]; cbn [apRegion nRegion szRegion with_regions set_regions].
  - rewrite length_app, length_fmap, length_seqZ. lia.
  - by rewrite <- Z.add_mod_idemp_r, Z.mod_same, Z.add_0_r by lia.
  - intros i Hi. destruct (Z.ltb_spec i (nRegion n)) as [Hlt|Hge].
    + destruct (R3 i ltac:(lia)) as (off & d & E & Eo). exists off, d. split; [|done]. by apply lookup_app_l_Some.
    + exists (szRegion n * nRegion n), (szRegion n * (i - nRegion n)). split; [|lia]. rewrite lookup_app_r by lia.
      rewrite list_lookup_fmap. replace (Z.to_nat i - length (apRegion n))%nat with (Z.to_nat (i - nRegion n)) by lia.
      rewrite lookup_seqZ_lt, Z2Nat.id by lia. cbn. f_equal.
Qed.

Lemma wp_map fuel n nReq hd lb (Q : Z * unixShmNode -> held -> Z -> Prop) :
  0 <= hShm n -> 0 <= nRegion n -> 0 <= szRegion n -> regions_ok n -> nReq < 2 ^ 16 -> nReq mod per = 0 ->
  nRegion n * szRegion n <= lb -> nReq * szRegion n <= lb -> Z.max 0 (nReq - nRegion n) < Z.of_nat fuel ->
  (forall rc nr ap, regions_ok (with_regions n nr ap) -> nr * szRegion n <= lb -> nRegion n <= nr ->
     (rc = SQLITE_OK /\ nReq <= nr \/ rc <> SQLITE_OK /\ nr < nReq) -> Q (rc, with_regions n nr ap) hd lb) ->
  wp (unixShmMap_map pgsz fuel n nReq) Q hd lb.
Proof.
  intros Hh H0 Hs Hr Hreq Hmod Hlb Hlb2. revert n Hh H0 Hs Hr Hlb Hlb2. induction fuel as [|fuel IH]; intros n Hh H0 Hs Hr Hlb Hlb2 Hf HQ; [lia|].
  pose proof per_pos as Hp. assert (En : with_regions n (nRegion n) (apRegion n) = n) by (by destruct n). cbn [unixShmMap_map].
  destruct (Z.ltb_spec (nRegion n) nReq) as [Hlt|Hge].
  2: { cbn. rewrite <- En. apply HQ; [by rewrite En|done|lia|by left]. }
  rewrite (proj2 (Z.leb_le 0 (hShm n))) by done. cbn [wp]. intros [|].
  - assert (Hnext : nRegion n + per <= nReq).
    { destruct Hr as (_ & R2 & _). destruct (proj1 (Z.mod_divide (nRegion n) per ltac:(lia)) R2) as [a Ha], (proj1 (Z.mod_divide nReq per ltac:(lia)) Hmod) as [b Hb].
      assert (a < b) by (apply (Z.mul_lt_mono_pos_r per); lia). assert ((a + 1) * per <= b * per) by (apply Z.mul_le_mono_nonneg_r; lia). lia. }
    rewrite (wrap_u_id 16 (nRegion n + per)) by (unfold in_u; lia). set (n1 := set_regions n (szRegion n) _ _).
    apply IH; try done; try (cbn; lia); [by apply regions_app|cbn; nia|].
    intros rc nr ap E1 E2 E3 E4. change (with_regions n1 nr ap) with (with_regions n nr ap). apply HQ; try done. cbn in E3. lia.
  - rewrite <- En. apply HQ; [by rewrite En|done|lia|by right].
Qed.

Lemma wp_map_file n bExtend nByte hd lb (Q : Z * bool -> held -> Z -> Prop) :
  0 <= hShm n -> 0 <= lb -> hd UNIX_SHM_DMS <> F_UNLCK -> nByte mod 4096 = 0 ->
  (forall rc out lb', lb <= lb' -> (out = false -> nByte <= lb') -> (out = true -> rc <> SQLITE_OK \/ bExtend = false) -> Q (rc, out) hd lb') ->
  wp (unixShmMap_file n bExtend nByte) Q hd lb.
Proof.
  intros Hh H0 Hd Hmod HQ. unfold unixShmMap_file. rewrite (proj2 (Z.leb_le 0 (hShm n))) by done. cbn [wp]. split; [by apply HQ; [lia| |by left]|].
  intros s Hs Hs0. rewrite bound_locked by done. destruct (Z.ltb_spec s nByte) as [Hlt|Hge]; [|by apply HQ; [lia| |]].
  destruct bExtend; cbn [negb]; [|by apply HQ; [lia| |by right]]. apply shm_wp_assert; [by apply Z.eqb_eq|]. apply shm_wp_bind.
  apply wp_extend; [done|done|]. intros b lb' Hlb Hb. destruct b; [|by apply HQ; [lia| |by left]]. apply HQ; [lia| |done]. intros _.
  pose proof (Z.div_mod nByte 4096 ltac:(lia)). pose proof (Z.div_mod s 4096 ltac:(lia)). pose proof (Z.mod_pos_bound s 4096 ltac:(lia)).
  specialize (Hb eq_refl ltac:(lia)). lia.
Qed.

(** The node that a request leaves; a region that was asked for is there, or there was
    an error, or the file was not to be extended. *)
Definition mapped_to (n n' : unixShmNode) : Prop :=
  pFirst n' = pFirst n /\ nRef n' = nRef n /\ hShm n' = hShm n /\ isReadonly n' = isReadonly n /\ isUnlocked n' = isUnlocked n.

Lemma node_regions n n' hd lb lb' :
  node_ok n hd lb -> mapped_to n n' -> isUnlocked n = false -> regions_ok n' -> nRegion n' * szRegion n' <= lb' -> node_ok n' hd lb'.
Proof.
  intros [A1 A2 A3 A4 A5 A6 A7 A8] (E1 & E2 & E3 & E4 & E5) Hu Hr Hs. split; rewrite ?E1, ?E2, ?E3, ?E4, ?E5; try done. by rewrite Hu.
Qed.

Lemma nRegion_nonneg n : regions_ok n -> 0 <= nRegion n.
Proof. intros (H & _). lia. Qed.

Lemma below_request n iRegion : 0 <= iRegion -> regions_ok n -> nRegion n < req_regions iRegion -> nRegion n <= iRegion.
Proof.
  intros Hi (_ & Hm & _) Hlt. pose proof per_pos as Hp. destruct (req_regions_bounds iRegion Hi) as [_ Hm2].
  destruct (proj1 (Z.mod_divide (nRegion n) per ltac:(lia)) Hm) as [a Ha].
  pose proof (Z.mod_pos_bound (iRegion + per) per Hp). pose proof (Z.div_mod (iRegion + per) per ltac:(lia)) as Hd. unfold req_regions in Hlt.
  assert (a < (iRegion + per) / per) by (apply (Z.mul_lt_mono_pos_r per); lia).
  assert ((a + 1) * per <= (iRegion + per) / per * per) by (apply Z.mul_le_mono_nonneg_r; lia). lia.
Qed.

Lemma wp_unixShmMap_regions n iRegion sz bExtend hd lb (Q : Z * unixShmNode -> held -> Z -> Prop) :
  node_ok n hd lb -> isUnlocked n = false -> 0 <= lb -> map_ok iRegion sz -> sz = szRegion n \/ nRegion n = 0 ->
  (forall rc n' lb', mapped_to n n' -> regions_ok n' -> nRegion n' * szRegion n' <= lb' -> 0 <= lb' ->
     (rc = SQLITE_OK /\ iRegion < nRegion n' /\ szRegion n' = sz \/ nRegion n' <= iRegion /\ (rc <> SQLITE_OK \/ bExtend = false)) -> Q (rc, n') hd lb') ->
  wp (unixShmMap_regions pgsz n iRegion sz bExtend) Q hd lb.
Proof.
  intros Hn Hu H0 [M1 [M2 M3] [M4 M5]] Hsz HQ. pose proof (nd_regions _ _ _ Hn) as Hr. pose proof (nRegion_nonneg n Hr) as Hnr.
  destruct (req_regions_bounds iRegion M1) as [B1 B2]. unfold unixShmMap_regions. fold (req_regions iRegion).
  destruct (Z.ltb_spec (nRegion n) (req_regions iRegion)) as [Hlt|Hge].
  2: { cbn. apply HQ; [done|done|apply Hn|done|]. left. split; [done|]. split; [lia|]. destruct Hsz as [->|E0]; [done|lia]. }
  apply shm_wp_assert; [apply bool_decide_eq_true; unfold in_s; cbn; nia|]. set (n1 := set_regions n sz (nRegion n) (apRegion n)).
  assert (Hn1 : regions_ok n1 /\ nRegion n1 * szRegion n1 <= lb).
  { destruct Hsz as [->|E0]; [split; [by destruct n|apply Hn]|]. destruct Hr as (R1 & R2 & _). split; [|cbn; rewrite E0; lia].
    split; [done|]. split; [done|]. intros i Hi. cbn in Hi. lia. }
  destruct Hn1 as [Hr1 Hs1]. assert (Hd : hd UNIX_SHM_DMS <> F_UNLCK) by (rewrite (nd_dms _ _ _ Hn), Hu; done).
  apply shm_wp_bind. apply wp_map_file; [apply Hn|done|done| |].
  { rewrite <- Z.mul_mod_idemp_r, M3, Z.mul_0_r by lia. done. }
  intros rc out lb' Hlb Hout Hout2. destruct out.
  { cbn. apply HQ; [done|done|lia|lia|]. right. split; [|by apply Hout2]. apply (below_request n1); [done|done|cbn; lia]. }
  specialize (Hout eq_refl). clear Hout2. cbn [wp]. intros mem. case_bool.
  { cbn. apply HQ; [done|done|lia|lia|]. right. split; [|by left]. apply (below_request n1); [done|done|cbn; lia]. }
  apply wp_map; cbn [nRegion szRegion hShm n1 set_regions]; try done; try lia; [apply Hn|cbn in Hs1; lia|].
  intros rc2 nr ap E1 E2 E3 [[E4 E5]|[E4 E5]]; (apply HQ; [done|done|done|lia|]).
  - left. split; [done|]. split; [cbn; lia|done].
  - right. split; [|by left]. apply (below_request (with_regions n1 nr ap)); [done|done|cbn; lia].
Qed.

(** The result of a request, in a file of at least [lb] bytes. *)
Definition map_post (s0 : option unixShmNode) (iRegion sz : Z) (bExtend : bool) (r : Z * option ptr * option unixShmNode) (hd : held) (lb : Z) : Prop :=
  let '(rc, pp, s) := r in
  state_ok s hd lb /\ same_weights s0 s /\
  (forall q, pp = Some q -> (rc = SQLITE_OK \/ rc = SQLITE_READONLY) /\ exists off d, q = Mapped off d /\ off + d = iRegion * sz /\ iRegion * sz + sz <= lb) /\
  (pp = None -> rc = SQLITE_OK -> bExtend = false).

(** What was opened may not yet have the lock on [UNIX_SHM_DMS]. *)
Lemma wp_map_unlock n hd lb :
  state_ok (Some n) hd lb ->
  wp (if isUnlocked n then '(rc, n) ← unixLockSharedMemory n; Ret (rc, if rc =? SQLITE_OK then set_unlocked n false else n) else Ret (SQLITE_OK, n))
    (fun '(rc, n') hd' lb' => state_ok (Some n') hd' lb' /\ pFirst n' = pFirst n /\ szRegion n' = szRegion n /\ nRegion n' = nRegion n /\
       (rc = SQLITE_OK -> isUnlocked n' = false) /\ (rc <> SQLITE_OK -> nRegion n' = 0)) hd lb.
Proof.
  intros (H0 & Hn & Href). destruct (isUnlocked n) eqn:Hu; [|by cbn]. destruct Hn as [A1 A2 A3 A4 A5 A6 A7 A8]. destruct (A6 Hu) as [Hro Hnr].
  apply shm_wp_bind. eapply shm_wp_mono; [|apply wp_unixLockSharedMemory; [done|done|by rewrite A3, Hu]].
  intros [rc n'] hd' lb' (L0 & L1 & L2 & _ & L4 & _). cbn [wp].
  assert (Hlocks : forall i, 0 <= i < SQLITE_SHM_NLOCK -> hd' (UNIX_SHM_BASE + i) = lock_of (pFirst n) i) by (intros i Hi; rewrite L1 by done; auto).
  assert (Hnode : forall n1, n1 = n \/ n1 = set_unlocked n true \/ n1 = set_unlocked n false -> hd' UNIX_SHM_DMS = (if isUnlocked n1 then F_UNLCK else F_RDLCK) ->
    node_ok n1 hd' lb').
  { intros n1 Hn1 Hd. destruct Hn1 as [->|[->| ->]]; (split; try done); cbn; try rewrite Hnr; lia. }
  destruct (Z.eqb_spec rc SQLITE_OK) as [->|Hrc].
  - destruct (L2 eq_refl) as [-> Hd]. split; [|done]. split; [done|]. split; [|done]. apply Hnode; [by right; right|done].
  - destruct (L4 Hrc Hro) as [[->| ->] Hd].
    + split; [|done]. split; [done|]. split; [|done]. apply Hnode; [by left|by rewrite Hd, Hu].
    + split; [|done]. split; [done|]. split; [|done]. apply Hnode; [by right; left|by rewrite Hd].
Qed.

Lemma wp_unixShmMap j s iRegion sz bExtend hd lb :
  state_ok s hd lb -> map_ok iRegion sz -> (forall n, s = Some n -> sz = szRegion n \/ nRegion n = 0) ->
  wp (unixShmMap pgsz false j s iRegion sz bExtend) (map_post s iRegion sz bExtend) hd lb.
Proof.
  intros Hs Hm Hsz. unfold unixShmMap. apply shm_wp_bind.
  apply (shm_wp_mono _ (fun '(rc, s') hd' lb' => state_ok s' hd' lb' /\ same_weights s s' /\ (rc = SQLITE_OK -> exists n, s' = Some n /\ (sz = szRegion n \/ nRegion n = 0)))).
  2: { case_bool_decide as Hc.
    - cbn. split; [done|]. split; [done|]. intros _. destruct s as [n|]; [exists n; split; [done|by apply Hsz]|by destruct Hc].
    - eapply shm_wp_mono; [|apply wp_unixOpenSharedMemory; [exact Hs|]].
      + intros [rc s'] hd' lb' (E1 & Ew & E2). split; [done|]. split; [done|]. intros Hrc. destruct (E2 Hrc) as (n & -> & Hn). exists n. split; [done|].
        destruct Hn as [E|(n0 & E0 & E3 & E4)]; [by right|]. rewrite E3, E4. by apply Hsz.
      + intros n ->. cbn in Hc. destruct (conn (pFirst n) j); [destruct Hc; eauto|done]. }
  intros [rc s'] hd' lb' (Hs' & Hw & Hrc). destruct (negb (rc =? SQLITE_OK)) eqn:Erc; bool_to_prop; [by split_and!|].
  destruct (Hrc Erc) as (n & -> & Hn). apply shm_wp_bind. eapply shm_wp_mono; [|by apply wp_map_unlock].
  intros [rc1 n1] hd1 lb1 ((H01 & Hn1 & Href1) & E1 & E2 & E3 & E4 & E5). apply shm_wp_bind. rewrite <- E2, <- E3 in Hn.
  destruct (negb (rc1 =? SQLITE_OK)) eqn:Erc1; bool_to_prop.
  { cbn. rewrite (E5 Erc1). pose proof (mp_region _ _ Hm). rewrite (proj2 (Z.ltb_ge iRegion 0)) by done. split; [by split|].
    split; [intros i Hi; rewrite <- (Hw i Hi); cbn; by rewrite E1|]. split; [done|].
    intros _. by case_bool; bool_to_prop. }
  apply shm_wp_assert. { destruct Hn as [->| ->]; [by rewrite Z.eqb_refl|by rewrite orb_true_r]. }
  apply shm_wp_assert; [by rewrite (proj2 (Z.leb_le 0 (hShm n1))) by apply Hn1|].
  apply wp_unixShmMap_regions; try done; [by apply E4|]. intros rc2 n2 lb2 Hmt Hr2 Hs2 H02 Hres. cbn [wp unixShmMap_out].
  assert (Hst : state_ok (Some n2) hd1 lb2).
  { split; [done|]. split; [by apply (node_regions n1 n2 hd1 lb1); [..|apply E4|done|done]|]. destruct Hmt as (_ & -> & _). done. }
  split; [done|]. split.
  { intros i Hi. rewrite <- (Hw i Hi). destruct Hmt as (E & _). cbn. by rewrite E, E1. }
  destruct Hres as [(-> & Hlt & Hsz2)|[Hle Hor]].
  - rewrite (proj2 (Z.ltb_lt _ _) Hlt). destruct Hr2 as (R1 & R2 & R3). pose proof (mp_region _ _ Hm) as Hi. split.
    + intros q Hq. split; [destruct (isReadonly n2); cbn; (by left) || by right|]. destruct (R3 iRegion ltac:(lia)) as (off & d & Ed & Eo).
      rewrite Ed in Hq. injection Hq as <-. exists off, d. split; [done|]. rewrite <- Hsz2. split; [done|]. nia.
    + intros Hnone. destruct (R3 iRegion ltac:(lia)) as (off & d & Ed & Eo). by rewrite Ed in Hnone.
  - rewrite (proj2 (Z.ltb_ge _ _) Hle). split; [done|]. intros _ Hok. destruct Hor as [Hne|Hb]; [|done].
    destruct (isReadonly n2); cbn in Hok; [|done]. by case_bool; bool_to_prop.
Qed.

(** ** Closing *)

Lemma conn_filter l j k : conn (filter (fun x => negb (x.1 =? j) = true) l) k = if k =? j then None else conn l k.
Proof.
  induction l as [|[k1 q] l IH]; [by destruct (k =? j)|]. rewrite filter_cons. cbn [fst]. destruct (Z.eqb_spec k1 j) as [->|Hne]; cbn [negb].
  - rewrite decide_False by done. rewrite IH. cbn. destruct (Z.eqb_spec k j) as [E|E]; [done|]. by rewrite (proj2 (Z.eqb_neq j k)).
  - rewrite decide_True by done. cbn. rewrite IH. destruct (Z.eqb_spec k1 k) as [E|E]; [rewrite E in Hne; by rewrite (proj2 (Z.eqb_neq k j))|done].
Qed.

Lemma filter_keys_length l j p :
  NoDup l.*1 -> conn l j = Some p -> S (length (filter (fun x => negb (x.1 =? j) = true) l)) = length l.
Proof.
  induction l as [|[k q] l IH]; [done|]. cbn [fmap list_fmap fst]. intros [Hk Hn]%NoDup_cons. cbn [conn length]. rewrite filter_cons. cbn [fst].
  destruct (Z.eqb_spec k j) as [->|Hne]; cbn [negb].
  - intros _. rewrite decide_False by done. f_equal. apply conn_none in Hk. clear IH Hn.
    induction l as [|[k1 q1] l IH]; [done|]. cbn in Hk. destruct (Z.eqb_spec k1 j) as [->|H1]; [done|]. rewrite filter_cons. cbn [fst].
    rewrite (proj2 (Z.eqb_neq k1 j) H1). cbn [negb]. rewrite decide_True by done. cbn [length]. f_equal. by apply IH.
  - intros Hc. rewrite decide_True by done. cbn [length]. f_equal. by apply IH.
Qed.

Lemma lock_of_filter l j p i :
  conns_ok l -> conn l j = Some p -> shared p i = false -> excl p i = false ->
  NoDup (filter (fun x => negb (x.1 =? j) = true) l).*1 -> lock_of (filter (fun x => negb (x.1 =? j) = true) l) i = lock_of l i.
Proof.
  intros Hl Hj Hs Hx Hn. set (l1 := filter _ l) in *.
  assert (Hc : forall k q, conn l1 k = Some q -> conn l k = Some q) by (intros k q; unfold l1; rewrite conn_filter; by destruct (k =? j)).
  assert (Hc2 : forall k q, conn l k = Some q -> shared q i = true \/ excl q i = true -> conn l1 k = Some q).
  { intros k q Hq Hsx. unfold l1. rewrite conn_filter. destruct (Z.eqb_spec k j) as [->|]; [|done]. rewrite Hj in Hq. injection Hq as <-.
    destruct Hsx; congruence. }
  pose proof (lock_of_cases l i (cn_nodup _ Hl)) as H. destruct (lock_of l i).
  - destruct H as [He (k & q & Hq & Hqs)]. apply (lock_of_r _ _ k q); [done|apply Hc2; auto|done|]. intros k' q' Hq'. eapply He, Hc, Hq'.
  - destruct H as (k & q & Hq & Hqx). apply (lock_of_w _ _ k q); [done|apply Hc2; auto|done].
  - apply lock_of_u; [done|]. intros k q Hq. eapply H, Hc, Hq.
Qed.

Lemma conns_weight_filter l j p i :
  NoDup l.*1 -> conn l j = Some p -> conns_weight (filter (fun x => negb (x.1 =? j) = true) l) i = conns_weight l i - weight p i.
Proof.
  induction l as [|[k q] l IH]; [done|]. cbn [fmap list_fmap fst]. intros [Hk Hn]%NoDup_cons. cbn [conn conns_weight].
  rewrite filter_cons. cbn [fst]. destruct (Z.eqb_spec k j) as [->|Hne]; cbn [negb].
  - intros [= ->]. rewrite decide_False by done. assert (E : filter (fun x => negb (x.1 =? j) = true) l = l); [|rewrite E; lia].
    apply conn_none in Hk. clear IH Hn. induction l as [|[k1 q1] l IH]; [done|]. cbn in Hk. destruct (Z.eqb_spec k1 j) as [->|H1]; [done|].
    rewrite filter_cons. cbn [fst]. rewrite (proj2 (Z.eqb_neq k1 j) H1). cbn [negb]. rewrite decide_True by done. by rewrite IH.
  - intros Hc. rewrite decide_True by done. cbn [conns_weight]. rewrite IH by done. lia.
Qed.

(** A connection without locks is closed. *)
Lemma wp_unixShmUnmap j s hd lb :
  state_ok s hd lb -> (forall n p, s = Some n -> conn (pFirst n) j = Some p -> forall i, 0 <= i -> shared p i = false /\ excl p i = false) ->
  wp (unixShmUnmap j s false) (fun '(rc, s') hd' lb' => rc = SQLITE_OK /\ state_ok s' hd' lb' /\ same_weights s s') hd lb.
Proof.
  intros [H0 Hs] Hp. destruct s as [n|]; [|by cbn]. destruct Hs as [Hn Href]. unfold unixShmUnmap. case_bool_decide as Hc; [|by cbn].
  destruct Hc as [p Hj]. specialize (Hp n p eq_refl Hj). apply shm_wp_assert; [by apply Z.ltb_lt|].
  set (l := filter (fun x => negb (x.1 =? j) = true) (pFirst n)). destruct Hn as [A1 A2 A3 A4 A5 A6 A7 A8].
  pose proof (filter_keys_length (pFirst n) j p (cn_nodup _ A1) Hj) as Hlen. fold l in Hlen.
  assert (Hl : conns_ok l).
  { split.
    - apply (sublist_NoDup _ (pFirst n).*1); [apply A1|apply fmap_sublist, sublist_filter].
    - intros j1 k p1 q i H1 H2 Hi Hx. unfold l in H1, H2. rewrite conn_filter in H1, H2. destruct (j1 =? j); [done|]. destruct (k =? j); [done|].
      by apply (cn_excl _ A1 j1 k p1 q i). }
  assert (Hw : same_weights (Some n) (Some (set_conns n (nRef n - 1) l))).
  { intros i Hi. cbn. unfold l. rewrite (conns_weight_filter _ j p) by (done || apply A1). unfold weight. destruct (Hp i Hi) as [-> ->]. cbn. lia. }
  cbn [nRef set_conns]. destruct (Z.eqb_spec (nRef n - 1) 0) as [E0|E0].
  - cbn [andb]. apply shm_wp_bind. apply wp_unixShmPurge; [done|cbn; lia|]. intros hd1 lb1 Hf H1. cbn. split; [done|]. split; [by split|].
    intros i Hi. rewrite <- (Hw i Hi). cbn. assert (l = []) as -> by (apply nil_length_inv; lia). done.
  - cbn [wp]. split; [done|]. split; [|done]. split; [done|]. split; [|cbn; lia]. split; cbn; try done; [|lia].
    intros i Hi. rewrite A2 by done. symmetry. destruct Hi as [Hi _]. destruct (Hp i Hi). by apply (lock_of_filter _ j p); [..|apply Hl].
Qed.
End invariant.
