(* ===== verification/UnixIO.v ===== *)
(** File input and output of the unix VFS (src/sqlite-src-3280000/src/os_unix.c,
    [unixRead] to [unixUnfetch]), as configured on 64-bit Linux: [pread64] and
    [pwrite64], [mremap], no [posix_fallocate], memory mapping enabled.

    The operations act on one file object and on the kernel's view of its file.
    The kernel may transfer less than asked, or fail, at every call: [script]
    says what it does at the next calls, and an empty script that it does all it
    is asked.  Asserts are [assert_]: they stop the program unless [NDEBUG]. *)
From S2P Require Import Prelude CMem.

(** ** Constants *)

Definition SQLITE_OK : Z := 0.
Definition SQLITE_NOTFOUND : Z := 12.
Definition SQLITE_FULL : Z := 13.
Definition SQLITE_CANTOPEN : Z := 14.
Definition SQLITE_IOERR_READ : Z := 266.
Definition SQLITE_IOERR_SHORT_READ : Z := 522.
Definition SQLITE_IOERR_WRITE : Z := 778.
Definition SQLITE_IOERR_FSYNC : Z := 1034.
Definition SQLITE_IOERR_TRUNCATE : Z := 1546.
Definition SQLITE_IOERR_FSTAT : Z := 1802.

Definition EINTR : Z := 4.
Definition EFAULT : Z := 14.
Definition EINVAL : Z := 22.
Definition ENOSPC : Z := 28.

Definition UNIXFILE_PERSIST_WAL : Z := 0x04.
Definition UNIXFILE_DIRSYNC : Z := 0x08.
Definition UNIXFILE_PSOW : Z := 0x10.

Definition SQLITE_SYNC_NORMAL : Z := 2.
Definition SQLITE_SYNC_FULL : Z := 3.
Definition SQLITE_SYNC_DATAONLY : Z := 16.

Definition SQLITE_FCNTL_LOCKSTATE : Z := 1.
Definition SQLITE_FCNTL_LAST_ERRNO : Z := 4.
Definition SQLITE_FCNTL_SIZE_HINT : Z := 5.
Definition SQLITE_FCNTL_CHUNK_SIZE : Z := 6.
Definition SQLITE_FCNTL_PERSIST_WAL : Z := 10.
Definition SQLITE_FCNTL_VFSNAME : Z := 12.
Definition SQLITE_FCNTL_POWERSAFE_OVERWRITE : Z := 13.
Definition SQLITE_FCNTL_TEMPFILENAME : Z := 16.
Definition SQLITE_FCNTL_MMAP_SIZE : Z := 18.
Definition SQLITE_FCNTL_HAS_MOVED : Z := 20.

Definition SQLITE_DEFAULT_SECTOR_SIZE : Z := 4096.
Definition SQLITE_IOCAP_POWERSAFE_OVERWRITE : Z := 0x1000.

(** ** The file object *)

(** The fields the operations use; [pMapRegion] says whether the pointer is set. *)
Record unixFile := mkFile {
  h : Z;
  eFileLock : Z;
  ctrlFlags : Z;
  lastErrno : Z;
  szChunk : Z;
  nFetchOut : Z;
  mmapSize : Z;
  mmapSizeActual : Z;
  mmapSizeMax : Z;
  pMapRegion : bool;
  sectorSize : Z;
  deviceCharacteristics : Z }.

Definition storeLastErrno (e : Z) (f : unixFile) : unixFile :=
  mkFile (h f) (eFileLock f) (ctrlFlags f) e (szChunk f) (nFetchOut f) (mmapSize f)
    (mmapSizeActual f) (mmapSizeMax f) (pMapRegion f) (sectorSize f) (deviceCharacteristics f).
Definition set_ctrlFlags (c : Z) (f : unixFile) : unixFile :=
  mkFile (h f) (eFileLock f) c (lastErrno f) (szChunk f) (nFetchOut f) (mmapSize f)
    (mmapSizeActual f) (mmapSizeMax f) (pMapRegion f) (sectorSize f) (deviceCharacteristics f).
Definition set_szChunk (c : Z) (f : unixFile) : unixFile :=
  mkFile (h f) (eFileLock f) (ctrlFlags f) (lastErrno f) c (nFetchOut f) (mmapSize f)
    (mmapSizeActual f) (mmapSizeMax f) (pMapRegion f) (sectorSize f) (deviceCharacteristics f).
Definition set_nFetchOut (n : Z) (f : unixFile) : unixFile :=
  mkFile (h f) (eFileLock f) (ctrlFlags f) (lastErrno f) (szChunk f) n (mmapSize f)
    (mmapSizeActual f) (mmapSizeMax f) (pMapRegion f) (sectorSize f) (deviceCharacteristics f).
Definition set_mmapSize (n : Z) (f : unixFile) : unixFile :=
  mkFile (h f) (eFileLock f) (ctrlFlags f) (lastErrno f) (szChunk f) (nFetchOut f) n
    (mmapSizeActual f) (mmapSizeMax f) (pMapRegion f) (sectorSize f) (deviceCharacteristics f).
Definition set_mmapSizeMax (n : Z) (f : unixFile) : unixFile :=
  mkFile (h f) (eFileLock f) (ctrlFlags f) (lastErrno f) (szChunk f) (nFetchOut f) (mmapSize f)
    (mmapSizeActual f) n (pMapRegion f) (sectorSize f) (deviceCharacteristics f).
Definition set_map (p : bool) (n a : Z) (f : unixFile) : unixFile :=
  mkFile (h f) (eFileLock f) (ctrlFlags f) (lastErrno f) (szChunk f) (nFetchOut f) n
    a (mmapSizeMax f) p (sectorSize f) (deviceCharacteristics f).
Definition set_device (s c : Z) (f : unixFile) : unixFile :=
  mkFile (h f) (eFileLock f) (ctrlFlags f) (lastErrno f) (szChunk f) (nFetchOut f) (mmapSize f)
    (mmapSizeActual f) (mmapSizeMax f) (pMapRegion f) s c.

(** ** The kernel *)

(** What the kernel does at a call: all that is asked, a transfer of at most
    [n + 1] bytes, or a failure. *)
Inductive answer := Done | Part (n : nat) | Fail (e : Z).

Record kernel := mkKernel {
  data : region;            (** the contents of the file *)
  durable : region;         (** what of it is on stable storage *)
  dir_durable : bool;       (** whether its directory entry is *)
  script : list answer }.

Definition set_data (d : region) (k : kernel) : kernel :=
  mkKernel d (durable k) (dir_durable k) (script k).

(** [pwrite]: a hole before the offset reads as zeros. *)
Definition pwrite (d : region) (off : Z) (bs : region) : region :=
  match bs with
  | [] => d
  | _ => take (Z.to_nat off) (d ++ zeros (off - len d)) ++ bs ++ drop (Z.to_nat off + length bs) d
  end.

(** [ftruncate]. *)
Definition resize_to (d : region) (n : Z) : region := take (Z.to_nat n) d ++ zeros (n - len d).

(** ** The monad of operations *)

Definition state : Type := unixFile * kernel.
Definition io (A : Type) : Type := state -> option (A * state).

#[global] Instance io_ret : MRet io := fun A a s => Some (a, s).
#[global] Instance io_bind : MBind io := fun A B f m s =>
  match m s with Some (a, s') => f a s' | None => None end.

Definition crash {A} : io A := fun _ => None.
Definition get_file : io unixFile := fun s => Some (s.1, s).
Definition get_kernel : io kernel := fun s => Some (s.2, s).
Definition upd_file (g : unixFile -> unixFile) : io unit := fun s => Some (tt, (g s.1, s.2)).
Definition upd_kernel (g : kernel -> kernel) : io unit := fun s => Some (tt, (s.1, g s.2)).

(** ** System calls: the value, and [errno] when it is negative *)

Definition next : io answer := fun s =>
  match script s.2 with
  | [] => Some (Done, s)
  | a :: l => Some (a, (s.1, mkKernel (data s.2) (durable s.2) (dir_durable s.2) l))
  end.

Definition osPread64 (cnt offset : Z) : io (Z * Z * region) :=
  a ← next; k ← get_kernel;
  mret (if offset <? 0 then (-1, EINVAL, []) else
        match a with
        | Fail e => (-1, e, [])
        | Done => let bs := slice (data k) offset cnt in (len bs, 0, bs)
        | Part n => let bs := slice (data k) offset (Z.min cnt (Z.of_nat n + 1)) in (len bs, 0, bs)
        end).

Definition osPwrite64 (pBuf : region) (offset : Z) : io (Z * Z) :=
  a ← next;
  if offset <? 0 then mret (-1, EINVAL) else
  match a with
  | Fail e => mret (-1, e)
  | Done =>
      _ ← upd_kernel (fun k => set_data (pwrite (data k) offset pBuf) k);
      mret (len pBuf, 0)
  | Part n =>
      let bs := take (S n) pBuf in
      _ ← upd_kernel (fun k => set_data (pwrite (data k) offset bs) k);
      mret (len bs, 0)
  end.

Definition osFtruncate (sz : Z) : io (Z * Z) :=
  a ← next;
  if sz <? 0 then mret (-1, EINVAL) else
  match a with
  | Fail e => mret (-1, e)
  | _ => _ ← upd_kernel (fun k => set_data (resize_to (data k) sz) k); mret (0, 0)
  end.

(** The value, [errno] and [st_size]. *)
Definition osFstat : io (Z * Z * Z) :=
  a ← next; k ← get_kernel;
  mret (match a with Fail e => (-1, e, 0) | _ => (0, 0, len (data k)) end).

Definition fdatasync : io (Z * Z) :=
  a ← next;
  match a with
  | Fail e => mret (-1, e)
  | _ => _ ← upd_kernel (fun k => mkKernel (data k) (data k) (dir_durable k) (script k)); mret (0, 0)
  end.

(** Opening the directory of the file, and synchronising it. *)
Definition osOpenDirectory : io Z :=
  a ← next; mret (match a with Fail e => SQLITE_CANTOPEN | _ => SQLITE_OK end).

Definition dir_fdatasync : io (Z * Z) :=
  a ← next;
  match a with
  | Fail e => mret (-1, e)
  | _ => _ ← upd_kernel (fun k => mkKernel (data k) (durable k) true (script k)); mret (0, 0)
  end.

(** [mmap] and [mremap]: whether a mapping is obtained. *)
Definition osMmap : io bool := a ← next; mret (match a with Fail _ => false | _ => true end).
Definition osMremap (nReuse : Z) : io bool :=
  a ← next; mret (match a with Fail _ => false | _ => negb (nReuse =? 0) end).

Definition pagesize : Z := 4096.

(** Reading the mapping, which shows the file: bytes past its end are zero up to
    the end of the page, and a fault beyond. *)
Definition map_read (off n : Z) : io region :=
  f ← get_file; k ← get_kernel;
  if pMapRegion f && (0 <=? off) && (off + n <=? mmapSizeActual f)
     && (off + n <=? align_up (len (data k)) pagesize)
  then mret (slice (data k ++ zeros (off + n - len (data k))) off n)
  else crash.

Section io.

Context (NDEBUG : bool).

Definition assert_ (b : bool) : io unit := if NDEBUG || b then mret tt else crash.

(** Enough iterations for a loop that retries a call: each either uses up an
    answer of the script or is one of the last two. *)
Definition retries : io nat := k ← get_kernel; mret (length (script k) + 2)%nat.

Fixpoint robust_ftruncate_loop (fuel : nat) (sz : Z) : io (Z * Z) :=
  match fuel with
  | O => crash
  | S fuel =>
      '(rc, errno) ← osFtruncate sz;
      if (rc <? 0) && (errno =? EINTR) then robust_ftruncate_loop fuel sz else mret (rc, errno)
  end.

Definition robust_ftruncate (sz : Z) : io (Z * Z) := fuel ← retries; robust_ftruncate_loop fuel sz.

(** [pos] is the offset of [pBuf] in the caller's buffer [buf]. *)
Fixpoint seekAndRead_loop (fuel : nat) (offset : Z) (buf : region) (pos cnt prior : Z)
    : io (Z * region) :=
  match fuel with
  | O => crash
  | S fuel =>
      '(got, errno, bs) ← osPread64 cnt offset;
      let buf := splice buf pos bs in
      if got =? cnt then mret (got + prior, buf)
      else if got <? 0 then
        if errno =? EINTR then seekAndRead_loop fuel offset buf pos cnt prior
        else _ ← upd_file (storeLastErrno errno); mret (got + 0, buf)
      else if 0 <? got then
        seekAndRead_loop fuel (offset + got) buf (pos + got) (cnt - got) (prior + got)
      else mret (got + prior, buf)
  end.

Definition seekAndRead (offset : Z) (buf : region) (pos cnt : Z) : io (Z * region) :=
  f ← get_file;
  _ ← assert_ (cnt =? Z.land cnt 0x1ffff);
  _ ← assert_ (2 <? h f);
  fuel ← retries;
  seekAndRead_loop fuel offset buf pos cnt 0.

(** The part of [unixRead] that the mapping does not serve. *)
Definition unixRead_rest (buf : region) (pos amt offset : Z) : io (Z * region) :=
  '(got, buf) ← seekAndRead offset buf pos amt;
  if got =? amt then mret (SQLITE_OK, buf)
  else if got <? 0 then mret (SQLITE_IOERR_READ, buf)
  else
    _ ← upd_file (storeLastErrno 0);
    mret (SQLITE_IOERR_SHORT_READ, splice buf (pos + got) (zeros (amt - got))).

Definition unixRead (buf : region) (amt offset : Z) : io (Z * region) :=
  _ ← assert_ (0 <=? offset);
  _ ← assert_ (0 <? amt);
  f ← get_file;
  if offset <? mmapSize f then
    if offset + amt <=? mmapSize f then
      bs ← map_read offset amt; mret (SQLITE_OK, splice buf 0 bs)
    else
      let nCopy := mmapSize f - offset in
      bs ← map_read offset nCopy;
      unixRead_rest (splice buf 0 bs) nCopy (amt - nCopy) (offset + nCopy)
  else unixRead_rest buf 0 amt offset.

Fixpoint seekAndWriteFd_loop (fuel : nat) (iOff : Z) (pBuf : region) : io (Z * Z) :=
  match fuel with
  | O => crash
  | S fuel =>
      '(rc, errno) ← osPwrite64 pBuf iOff;
      if (rc <? 0) && (errno =? EINTR) then seekAndWriteFd_loop fuel iOff pBuf
      else mret (rc, errno)
  end.

(** The value and what is stored to [*piErrno], if anything. *)
Definition seekAndWriteFd (fd iOff : Z) (pBuf : region) (nBuf : Z) : io (Z * option Z) :=
  _ ← assert_ (nBuf =? Z.land nBuf 0x1ffff);
  _ ← assert_ (2 <? fd);
  fuel ← retries;
  '(rc, errno) ← seekAndWriteFd_loop fuel iOff (slice pBuf 0 (Z.land nBuf 0x1ffff));
  mret (rc, if rc <? 0 then Some errno else None).

Definition seekAndWrite (offset : Z) (pBuf : region) (cnt : Z) : io Z :=
  f ← get_file;
  '(rc, e) ← seekAndWriteFd (h f) offset pBuf cnt;
  _ ← (match e with Some e => upd_file (storeLastErrno e) | None => mret tt end);
  mret rc.

(** The loop gives back [wrote] and what is left of [amt]. *)
Fixpoint unixWrite_loop (fuel : nat) (pBuf : region) (amt offset : Z) : io (Z * Z) :=
  match fuel with
  | O => crash
  | S fuel =>
      wrote ← seekAndWrite offset pBuf amt;
      if (wrote <? amt) && (0 <? wrote) then
        unixWrite_loop fuel (drop (Z.to_nat wrote) pBuf) (amt - wrote) (offset + wrote)
      else mret (wrote, amt)
  end.

Definition unixWrite (pBuf : region) (amt offset : Z) : io Z :=
  _ ← assert_ (0 <? amt);
  '(wrote, amt) ← unixWrite_loop (S (Z.to_nat amt)) pBuf amt offset;
  f ← get_file;
  if wrote <? amt then
    if (wrote <? 0) && negb (lastErrno f =? ENOSPC) then mret SQLITE_IOERR_WRITE
    else _ ← upd_file (storeLastErrno 0); mret SQLITE_FULL
  else mret SQLITE_OK.

Definition full_fsync : io (Z * Z) := fdatasync.

Definition unixSync (flags : Z) : io Z :=
  _ ← assert_ ((Z.land flags 0x0F =? SQLITE_SYNC_NORMAL) || (Z.land flags 0x0F =? SQLITE_SYNC_FULL));
  '(rc, errno) ← full_fsync;
  if negb (rc =? 0) then _ ← upd_file (storeLastErrno errno); mret SQLITE_IOERR_FSYNC
  else
    f ← get_file;
    if negb (Z.land (ctrlFlags f) UNIXFILE_DIRSYNC =? 0) then
      rc ← osOpenDirectory;
      rc ← (if rc =? SQLITE_OK then _ ← dir_fdatasync; mret rc
            else _ ← assert_ (rc =? SQLITE_CANTOPEN); mret SQLITE_OK);
      _ ← upd_file (fun f => set_ctrlFlags (Z.ldiff (ctrlFlags f) UNIXFILE_DIRSYNC) f);
      mret rc
    else mret rc.

(** [((n + szChunk - 1) / szChunk) * szChunk], in C division. *)
Definition round_chunk (n c : Z) : Z := Z.quot (n + c - 1) c * c.

Definition unixTruncate (nByte : Z) : io Z :=
  f ← get_file;
  let nByte := if 0 <? szChunk f then round_chunk nByte (szChunk f) else nByte in
  '(rc, errno) ← robust_ftruncate nByte;
  if negb (rc =? 0) then _ ← upd_file (storeLastErrno errno); mret SQLITE_IOERR_TRUNCATE
  else
    _ ← upd_file (fun f => if nByte <? mmapSize f then set_mmapSize nByte f else f);
    mret SQLITE_OK.

(** The result code and [*pSize], when it is set. *)
Definition unixFileSize : io (Z * option Z) :=
  '(rc, errno, size) ← osFstat;
  if negb (rc =? 0) then _ ← upd_file (storeLastErrno errno); mret (SQLITE_IOERR_FSTAT, None)
  else mret (SQLITE_OK, Some (if size =? 1 then 0 else size)).

(** *** Memory mapping *)

Definition unixUnmapfile : io unit :=
  f ← get_file;
  _ ← assert_ (nFetchOut f =? 0);
  if pMapRegion f then upd_file (set_map false 0 0) else mret tt.

Definition unixRemapfile (nNew : Z) : io unit :=
  f ← get_file;
  _ ← assert_ (nFetchOut f =? 0);
  _ ← assert_ (mmapSize f <? nNew);
  _ ← assert_ (nNew <=? mmapSizeMax f);
  _ ← assert_ (0 <? nNew);
  _ ← assert_ (mmapSize f <=? mmapSizeActual f);
  pNew ← (if pMapRegion f then osMremap (mmapSize f) else osMmap);
  if (pNew : bool) then upd_file (set_map true nNew nNew)
  else upd_file (fun f => set_map false 0 0 (set_mmapSizeMax 0 f)).

Definition unixMapfile (nMap : Z) : io Z :=
  f ← get_file;
  _ ← assert_ ((0 <=? nMap) || (nFetchOut f =? 0));
  _ ← assert_ ((0 <? nMap) || (mmapSize f =? 0) && negb (pMapRegion f));
  if 0 <? nFetchOut f then mret SQLITE_OK else
  r ← (if nMap <? 0 then
         '(rc, _, size) ← osFstat;
         mret (if rc =? 0 then Some size else None)
       else mret (Some nMap));
  match r with
  | None => mret SQLITE_IOERR_FSTAT
  | Some nMap =>
      let nMap := Z.min nMap (mmapSizeMax f) in
      _ ← assert_ ((0 <? nMap) || (mmapSize f =? 0) && negb (pMapRegion f));
      _ ← (if negb (nMap =? mmapSize f) then unixRemapfile nMap else mret tt);
      mret SQLITE_OK
  end.

(** The offset in the mapping that [*pp] points to. *)
Definition unixFetch (iOff nAmt : Z) : io (Z * option Z) :=
  f ← get_file;
  if 0 <? mmapSizeMax f then
    rc ← (if negb (pMapRegion f) then unixMapfile (-1) else mret SQLITE_OK);
    if negb (rc =? SQLITE_OK) then mret (rc, None) else
    f ← get_file;
    if iOff + nAmt <=? mmapSize f then
      _ ← upd_file (set_nFetchOut (nFetchOut f + 1)); mret (SQLITE_OK, Some iOff)
    else mret (SQLITE_OK, None)
  else mret (SQLITE_OK, None).

Definition unixUnfetch (iOff : Z) (p : option Z) : io Z :=
  f ← get_file;
  _ ← assert_ (eqb (bool_decide (p = None)) (nFetchOut f =? 0));
  _ ← assert_ (bool_decide (p = None) || bool_decide (p = Some iOff));
  _ ← (match p with
       | Some _ => upd_file (fun f => set_nFetchOut (nFetchOut f - 1) f)
       | None => unixUnmapfile
       end);
  f ← get_file;
  _ ← assert_ (0 <=? nFetchOut f);
  mret SQLITE_OK.

(** *** File control *)

(** The loop that writes one byte to each new block: [None] when all are written. *)
Fixpoint fcntlSizeHint_loop (fuel : nat) (nBlk nSize iWrite : Z) : io (option Z) :=
  match fuel with
  | O => crash
  | S fuel =>
      if iWrite <? nSize + nBlk - 1 then
        let iWrite := if nSize <=? iWrite then nSize - 1 else iWrite in
        nWrite ← seekAndWrite iWrite [Init.Byte.x00] 1;
        if negb (nWrite =? 1) then mret (Some SQLITE_IOERR_WRITE)
        else fcntlSizeHint_loop fuel nBlk nSize (iWrite + nBlk)
      else mret None
  end.

(** [st_blksize] is the block size of the file system. *)
Definition fcntlSizeHint (st_blksize nByte : Z) : io Z :=
  f ← get_file;
  r ← (if 0 <? szChunk f then
         '(rc, _, st_size) ← osFstat;
         if negb (rc =? 0) then mret (Some SQLITE_IOERR_FSTAT) else
         let nSize := round_chunk nByte (szChunk f) in
         if st_size <? nSize then
           let nBlk := st_blksize in
           let iWrite := Z.quot st_size nBlk * nBlk + nBlk - 1 in
           _ ← assert_ (st_size <=? iWrite);
           _ ← assert_ (Z.rem (iWrite + 1) nBlk =? 0);
           fcntlSizeHint_loop (S (Z.to_nat (nSize + nBlk - iWrite))) nBlk nSize iWrite
         else mret None
       else mret None);
  match r with
  | Some rc => mret rc
  | None =>
      if (0 <? mmapSizeMax f) && (mmapSize f <? nByte) then
        r ← (if szChunk f <=? 0 then
               '(rc, errno) ← robust_ftruncate nByte;
               if negb (rc =? 0) then
                 _ ← upd_file (storeLastErrno errno); mret (Some SQLITE_IOERR_TRUNCATE)
               else mret None
             else mret None);
        match r with Some rc => mret rc | None => unixMapfile nByte end
      else mret SQLITE_OK
  end.

(** The new value of [*pArg]. *)
Definition unixModeBit (mask arg : Z) : io Z :=
  f ← get_file;
  if arg <? 0 then mret (if negb (Z.land (ctrlFlags f) mask =? 0) then 1 else 0)
  else if arg =? 0 then _ ← upd_file (set_ctrlFlags (Z.ldiff (ctrlFlags f) mask)); mret arg
  else _ ← upd_file (set_ctrlFlags (Z.lor (ctrlFlags f) mask)); mret arg.

(** What [pArg] points to: an [int] or [i64], or a string pointer. *)
Inductive fcntl_arg := AInt (z : Z) | AStr (s : option region).

(** The rest of the system, as far as a file-control asks about it. *)
Record fcntl_env := mkEnv {
  st_blksize : Z;
  mxMmap : Z;                     (** [sqlite3GlobalConfig.mxMmap] *)
  vfs_name : option region;       (** [sqlite3_mprintf] of the VFS name, if memory allows *)
  temp_name : option region;      (** [unixGetTempname], if memory allows *)
  has_moved : bool }.

Definition int_arg (a : fcntl_arg) : io Z := match a with AInt z => mret z | AStr _ => crash end.

Definition unixFileControl (env : fcntl_env) (op : Z) (pArg : fcntl_arg) : io (Z * fcntl_arg) :=
  f ← get_file;
  if op =? SQLITE_FCNTL_LOCKSTATE then mret (SQLITE_OK, AInt (eFileLock f))
  else if op =? SQLITE_FCNTL_LAST_ERRNO then mret (SQLITE_OK, AInt (lastErrno f))
  else if op =? SQLITE_FCNTL_CHUNK_SIZE then
    z ← int_arg pArg; _ ← upd_file (set_szChunk z); mret (SQLITE_OK, pArg)
  else if op =? SQLITE_FCNTL_SIZE_HINT then
    z ← int_arg pArg; rc ← fcntlSizeHint (st_blksize env) z; mret (rc, pArg)
  else if op =? SQLITE_FCNTL_PERSIST_WAL then
    z ← int_arg pArg; z ← unixModeBit UNIXFILE_PERSIST_WAL z; mret (SQLITE_OK, AInt z)
  else if op =? SQLITE_FCNTL_POWERSAFE_OVERWRITE then
    z ← int_arg pArg; z ← unixModeBit UNIXFILE_PSOW z; mret (SQLITE_OK, AInt z)
  else if op =? SQLITE_FCNTL_VFSNAME then mret (SQLITE_OK, AStr (vfs_name env))
  else if op =? SQLITE_FCNTL_TEMPFILENAME then
    mret (SQLITE_OK, match temp_name env with Some s => AStr (Some s) | None => pArg end)
  else if op =? SQLITE_FCNTL_HAS_MOVED then mret (SQLITE_OK, AInt (if has_moved env then 1 else 0))
  else if op =? SQLITE_FCNTL_MMAP_SIZE then
    z ← int_arg pArg;
    let newLimit := Z.min z (mxMmap env) in
    rc ← (if (0 <=? newLimit) && negb (newLimit =? mmapSizeMax f) && (nFetchOut f =? 0) then
            _ ← upd_file (set_mmapSizeMax newLimit);
            if 0 <? mmapSize f then _ ← unixUnmapfile; unixMapfile (-1) else mret SQLITE_OK
          else mret SQLITE_OK);
    mret (rc, AInt (mmapSizeMax f))
  else mret (SQLITE_NOTFOUND, pArg).

(** *** Device characteristics *)

Definition setDeviceCharacteristics : io unit :=
  f ← get_file;
  _ ← assert_ ((deviceCharacteristics f =? 0) || negb (sectorSize f =? 0));
  if sectorSize f =? 0 then
    upd_file (set_device SQLITE_DEFAULT_SECTOR_SIZE
      (if negb (Z.land (ctrlFlags f) UNIXFILE_PSOW =? 0)
       then Z.lor (deviceCharacteristics f) SQLITE_IOCAP_POWERSAFE_OVERWRITE
       else deviceCharacteristics f))
  else mret tt.

Definition unixSectorSize : io Z := _ ← setDeviceCharacteristics; f ← get_file; mret (sectorSize f).

Definition unixDeviceCharacteristics : io Z :=
  _ ← setDeviceCharacteristics; f ← get_file; mret (deviceCharacteristics f).

End io.
