(* ===== verification/UnixIOSpec.v ===== *)
(** What the file operations of [UnixIO] do to the file: reads, with or without
    the memory mapping, and writes are those of an array of bytes, whatever
    partial transfers and interrupted calls the kernel makes. *)
From S2P Require Import Prelude CMem UnixIO.

(** ** Bytes *)

Lemma len_slice_min m off n :
  0 <= off -> 0 <= n -> len (slice m off n) = Z.max 0 (Z.min n (len m - off)).
Proof. unfold len, slice. intros. rewrite length_take, length_drop. lia. Qed.

Lemma slice_app m off n1 n2 :
  0 <= off -> 0 <= n1 -> 0 <= n2 ->
  slice m off n1 ++ slice m (off + n1) n2 = slice m off (n1 + n2).
Proof.
  unfold slice. intros. rewrite (Z2Nat.inj_add n1 n2), (Z2Nat.inj_add off n1) by lia.
  by rewrite <- drop_drop, take_take_drop.
Qed.

(** A short transfer is the whole of a smaller one. *)
Lemma slice_short m off n : slice m off (len (slice m off n)) = slice m off n.
Proof.
  unfold len, slice. rewrite Nat2Z.id, length_take.
  destruct (Nat.le_ge_cases (Z.to_nat n) (length (drop (Z.to_nat off) m))).
  - by rewrite Nat.min_l.
  - rewrite Nat.min_r by done. by rewrite !take_ge.
Qed.

Lemma slice_nil m off n : 0 <= off -> len m <= off -> slice m off n = [].
Proof. unfold slice, len. intros. by rewrite drop_ge, take_nil by lia. Qed.

Lemma slice_zero m off n : n <= 0 -> slice m off n = [].
Proof. unfold slice. intros. replace (Z.to_nat n) with 0%nat by lia. apply take_0. Qed.

Lemma slice_app_l m m' off n :
  0 <= off -> 0 <= n -> off + n <= len m -> slice (m ++ m') off n = slice m off n.
Proof.
  unfold slice, len. intros. rewrite drop_app_le by lia. rewrite take_app_le; [done|].
  rewrite length_drop. lia.
Qed.

Lemma splice_nil m off : splice m off [] = m.
Proof. unfold splice. cbn. by rewrite Nat.add_0_r, take_drop. Qed.

Lemma splice_app m off a b :
  0 <= off -> off <= len m -> splice (splice m off a) (off + len a) b = splice m off (a ++ b).
Proof.
  unfold splice, len. intros Ho Hm. rewrite Z2Nat.inj_add, Nat2Z.id by lia.
  rewrite length_app. set (o := Z.to_nat off). assert (Ht : length (take o m) = o) by (rewrite length_take; lia).
  rewrite !(app_assoc (take o m)), take_app_le by (rewrite length_app; lia).
  rewrite take_ge by (rewrite length_app; lia).
  rewrite <- !app_assoc. do 3 f_equal.
  rewrite (app_assoc (take o m)), drop_app_ge by (rewrite length_app; lia).
  rewrite drop_drop, length_app. f_equal. lia.
Qed.

Lemma pwrite_eq d off bs :
  bs <> [] -> pwrite d off bs =
    take (Z.to_nat off) (d ++ zeros (off - len d)) ++ bs ++ drop (Z.to_nat off + length bs) d.
Proof. by destruct bs. Qed.

Lemma length_hole d off : 0 <= off -> length (take (Z.to_nat off) (d ++ zeros (off - len d))) = Z.to_nat off.
Proof. unfold zeros, len. intros. rewrite length_take, length_app, length_replicate. lia. Qed.

Lemma len_pwrite d off bs :
  0 <= off -> bs <> [] -> len (pwrite d off bs) = Z.max (len d) (off + len bs).
Proof.
  intros. rewrite pwrite_eq by done. rewrite len_app, len_app. unfold len at 1.
  rewrite length_hole by done. unfold len. rewrite length_drop. lia.
Qed.

Lemma pwrite_grows d off bs : 0 <= off -> len d <= len (pwrite d off bs).
Proof. intros. destruct (decide (bs = [])) as [->|]; [done|]. rewrite len_pwrite by done. lia. Qed.

(** Writing in pieces. *)
Lemma pwrite_app d off a b :
  0 <= off -> pwrite (pwrite d off a) (off + len a) b = pwrite d off (a ++ b).
Proof.
  intros Ho. destruct (decide (a = [])) as [->|Ha].
  { unfold len. cbn. by rewrite Z.add_0_r. }
  destruct (decide (b = [])) as [->|Hb]; [by rewrite app_nil_r|].
  pose proof (len_pwrite d off a Ho Ha) as Hl.
  rewrite (pwrite_eq _ _ b) by done.
  replace (zeros (off + len a - len (pwrite d off a))) with (@nil Init.Byte.byte)
    by (unfold zeros; rewrite Z2Nat.nonpos by lia; done).
  rewrite app_nil_r, !pwrite_eq by (done || by destruct a).
  pose proof (length_hole d off Ho) as Hh. unfold len at 1 2. rewrite Z2Nat.inj_add, Nat2Z.id by lia.
  set (p := take (Z.to_nat off) (d ++ zeros (off - len d))) in *.
  rewrite (app_assoc p a), take_app_le by (rewrite length_app; lia).
  rewrite take_ge by (rewrite length_app; lia).
  rewrite (app_assoc p a (drop _ d)), drop_app_ge by (rewrite length_app; unfold len; lia).
  rewrite drop_drop, <- !app_assoc, !length_app. do 4 f_equal. unfold len. lia.
Qed.

Lemma len_resize_to d n : 0 <= n -> len (resize_to d n) = n.
Proof. intros. unfold resize_to, zeros, len. rewrite length_app, length_take, length_replicate. lia. Qed.

(** ** Running an operation *)

(** [m] ends, in a state that satisfies [Q]. *)
Definition wpi {A} (m : io A) (Q : A -> state -> Prop) (s : state) : Prop :=
  match m s with Some (a, s') => Q a s' | None => False end.

Lemma wpi_bind {A B} (m : io A) (g : A -> io B) Q s :
  wpi m (fun a s' => wpi (g a) Q s') s -> wpi (m ≫= g) Q s.
Proof. unfold wpi, mbind, io_bind. by destruct (m s) as [[a s']|]. Qed.

Lemma wpi_ret {A} (a : A) (Q : A -> state -> Prop) s : Q a s -> wpi (mret a) Q s.
Proof. done. Qed.

Lemma wpi_mono {A} (m : io A) (Q Q' : A -> state -> Prop) s :
  (forall a s', Q a s' -> Q' a s') -> wpi m Q s -> wpi m Q' s.
Proof. unfold wpi. destruct (m s) as [[a s']|]; auto. Qed.

Lemma wpi_assert_ {A} nd b (m : io A) Q s :
  b = true -> wpi m Q s -> wpi (_ ← assert_ nd b; m) Q s.
Proof. intros -> H. unfold assert_. by rewrite orb_true_r. Qed.

(** What the calls of an operation leave of the kernel: only [data] may have
    changed, and a part of the script is used. *)
Definition only_data (k k' : kernel) : Prop :=
  durable k' = durable k /\ dir_durable k' = dir_durable k /\
  exists used, script k = used ++ script k'.

#[global] Instance only_data_preorder : PreOrder only_data.
Proof.
  split; [by intros k; split_and!; [..|exists []]|].
  intros k1 k2 k3 (E1 & E2 & u & Hu) (F1 & F2 & v & Hv). split_and!; [congruence..|].
  exists (u ++ v). by rewrite <- app_assoc, <- Hv.
Qed.

(** A call failed with [e], which is not an interruption. *)
Definition failed (k : kernel) (e : Z) : Prop := Fail e ∈ script k /\ e <> EINTR.

Lemma failed_later k k' e : only_data k k' -> failed k' e -> failed k e.
Proof. intros (_ & _ & u & Hu) [H ?]. split; [|done]. rewrite Hu. apply elem_of_app. by right. Qed.

Lemma wpi_next (Q : answer -> state -> Prop) f k :
  (script k = [] -> Q Done (f, k)) ->
  (forall a l, script k = a :: l -> Q a (f, mkKernel (data k) (durable k) (dir_durable k) l)) ->
  wpi next Q (f, k).
Proof. unfold wpi, next. cbn. destruct (script k) eqn:E; auto. Qed.

(** One answer of the script is used, if there is one. *)
Definition shorter (k k' : kernel) : Prop :=
  script k = [] /\ script k' = [] \/ (length (script k') < length (script k))%nat.

Lemma only_data_next k l a d :
  script k = a :: l -> only_data k (mkKernel d (durable k) (dir_durable k) l).
Proof. intros E. split_and!; [done..|]. by exists [a]. Qed.

Lemma only_data_set k d : only_data k (set_data d k).
Proof. split_and!; [done..|]. by exists []. Qed.

Lemma failed_next k l e : script k = Fail e :: l -> e <> EINTR -> failed k e.
Proof. intros E ?. split; [|done]. rewrite E. by left. Qed.

Lemma wpi_osPread64 cnt off (Q : Z * Z * region -> state -> Prop) f k :
  0 <= off -> 0 < cnt ->
  (forall n k', only_data k k' -> data k' = data k -> shorter k k' -> 0 < n <= cnt ->
    (script k = [] -> n = cnt) ->
    Q (len (slice (data k) off n), 0, slice (data k) off n) (f, k')) ->
  (forall e k', only_data k k' -> data k' = data k ->
    (length (script k') < length (script k))%nat -> (e <> EINTR -> failed k e) ->
    Q (-1, e, []) (f, k')) ->
  wpi (osPread64 cnt off) Q (f, k).
Proof.
  intros Ho Hc Hok Hfail. unfold osPread64. apply wpi_bind, wpi_next.
  - intros E. cbn. rewrite (proj2 (Z.ltb_ge off 0)) by done. apply Hok; [done|done|by left|lia|done].
  - intros a l E. cbn. rewrite (proj2 (Z.ltb_ge off 0)) by done.
    pose proof (only_data_next k l a (data k) E) as Hd.
    assert (Hs : (length l < length (script k))%nat) by (rewrite E; cbn; lia).
    destruct a as [|n|e].
    + apply Hok; [done|done|by right|lia|done].
    + apply Hok; [done|done|by right|lia|congruence].
    + apply Hfail; [done|done|done|]. intros. by eapply failed_next.
Qed.

Lemma wpi_osPwrite64 bs off (Q : Z * Z -> state -> Prop) f k :
  0 <= off -> bs <> [] ->
  (forall n k', only_data k k' -> shorter k k' -> 0 < n <= len bs -> (script k = [] -> n = len bs) ->
    data k' = pwrite (data k) off (slice bs 0 n) -> Q (n, 0) (f, k')) ->
  (forall e k', only_data k k' -> data k' = data k ->
    (length (script k') < length (script k))%nat -> (e <> EINTR -> failed k e) ->
    Q (-1, e) (f, k')) ->
  wpi (osPwrite64 bs off) Q (f, k).
Proof.
  intros Ho Hbs Hok Hfail. assert (Hp : 0 < len bs) by (unfold len; destruct bs; cbn; [done|lia]).
  assert (Hall : slice bs 0 (len bs) = bs).
  { unfold slice, len. rewrite Nat2Z.id. cbn. by rewrite drop_0, take_ge. }
  unfold osPwrite64. apply wpi_bind, wpi_next.
  - intros E. cbn. rewrite (proj2 (Z.ltb_ge off 0)) by done. cbn. apply Hok; try done; [|by left|].
    + split_and!; [done..|]. by exists [].
    + cbn. by rewrite Hall.
  - intros a l E. cbn. rewrite (proj2 (Z.ltb_ge off 0)) by done.
    assert (Hs : (length l < length (script k))%nat) by (rewrite E; cbn; lia).
    destruct a as [|n|e]; cbn.
    + apply Hok; try done; [by eapply (only_data_next k l)|by right|by rewrite Hall].
    + assert (Hn : take (S n) bs = slice bs 0 (len (take (S n) bs))).
      { unfold slice, len. rewrite Nat2Z.id, length_take. cbn [drop].
        destruct (Nat.le_ge_cases (S n) (length bs)); [by rewrite Nat.min_l|].
        rewrite Nat.min_r by done. by rewrite !take_ge. }
      apply Hok; [by eapply (only_data_next k l)|by right| |congruence|by rewrite <- Hn].
      unfold len in *. rewrite length_take. lia.
    + apply Hfail; [by eapply (only_data_next k l)|done|done|]. intros. by eapply failed_next.
Qed.

Lemma wpi_retries {B} (g : nat -> io B) Q f k :
  wpi (g (length (script k) + 2)%nat) Q (f, k) -> wpi (retries ≫= g) Q (f, k).
Proof. done. Qed.

(** ** Reading *)

Lemma seekAndRead_loop_spec fuel offset buf pos cnt prior f k :
  0 <= offset -> 0 < cnt -> 0 <= pos -> pos + cnt <= len buf ->
  (length (script k) + (if (offset <? len (data k))%Z then 2 else 1) <= fuel)%nat ->
  wpi (seekAndRead_loop fuel offset buf pos cnt prior) (fun '(r, buf') '(f', k') =>
    only_data k k' /\ data k' = data k /\
    (r = len (slice (data k) offset cnt) + prior /\
     buf' = splice buf pos (slice (data k) offset cnt) /\ f' = f \/
     exists e n, r = -1 /\ failed k e /\ f' = storeLastErrno e f /\ 0 <= n <= cnt /\
       buf' = splice buf pos (slice (data k) offset n))) (f, k).
Proof.
  revert offset buf pos cnt prior k.
  induction fuel as [|fuel IH]; intros offset buf pos cnt prior k Ho Hc Hp Hb Hf.
  { destruct (offset <? _); lia. }
  cbn [seekAndRead_loop]. apply wpi_bind, wpi_osPread64; [done|done| |].
  - intros n k' Hk Hd Hs Hn Hnil. set (bs := slice (data k) offset n).
    assert (Hbs : len bs = Z.max 0 (Z.min n (len (data k) - offset))) by (apply len_slice_min; lia).
    destruct (len bs =? cnt) eqn:Hgot; bool_to_prop.
    + assert (n = cnt) as -> by lia. cbn. split_and!; [done|done|]. left. done.
    + rewrite (proj2 (Z.ltb_ge (len bs) 0)) by lia.
      assert (Hsp : forall m, 0 <= m ->
        splice (splice buf pos bs) (pos + len bs) (slice (data k) (offset + len bs) m)
          = splice buf pos (slice (data k) offset (len bs + m))).
      { intros m Hm. rewrite splice_app by lia. rewrite <- slice_app by lia.
        unfold bs at 3. by rewrite slice_short. }
      destruct (0 <? len bs) eqn:Hpos; bool_to_prop.
      * rewrite (proj2 (Z.ltb_lt offset _)) in Hf by lia.
        eapply wpi_mono; [|apply IH; [lia..|rewrite len_splice by lia; lia|]].
        -- intros [r buf'] [f' k2] (Hk2 & Hd2 & Hr). rewrite Hd in *. split; [by etrans|].
           split; [done|]. destruct Hr as [(-> & -> & ->)|(e & m & -> & He & -> & Hm & ->)]; [left|right].
           ++ rewrite Hsp by lia. replace (len bs + (cnt - len bs)) with cnt by lia.
              split_and!; [|done|done]. rewrite !len_slice_min by lia. lia.
           ++ exists e, (len bs + m). rewrite Hsp by lia. split_and!; try done; try lia.
              by eapply failed_later.
        -- rewrite Hd. destruct Hs as [[E E']|Hs]; [|destruct (_ <? _); lia].
           rewrite E', (proj2 (Z.ltb_ge _ _)) by (specialize (Hnil E); lia). rewrite E in Hf. cbn in *. lia.
      * cbn. split_and!; [done|done|]. left. split_and!; [|f_equal|done].
        -- rewrite len_slice_min by lia. lia.
        -- unfold bs. rewrite !slice_nil; [done|lia..].
  - intros e k' Hk Hd Hs He. rewrite splice_nil, (proj2 (Z.eqb_neq (-1) cnt)) by lia.
    change (-1 <? 0) with true. destruct (e =? EINTR) eqn:Hi; bool_to_prop.
    + eapply wpi_mono; [|apply IH; [done..|rewrite Hd; destruct (_ <? _); lia]].
      intros [r buf'] [f' k2] (Hk2 & Hd2 & Hr). rewrite Hd in *. split; [by etrans|].
      split; [done|]. destruct Hr as [?|(e' & m & -> & He' & -> & Hm & ->)]; [by left|right].
      exists e', m. split_and!; try done; try lia. by eapply failed_later.
    + cbn. split_and!; [done|done|]. right. exists e, 0. split_and!; try done; try lia; [auto|].
      by rewrite slice_zero, splice_nil.
Qed.

Section spec.

Context (NDEBUG : bool).

(** What the callers promise of the arguments. *)
Definition io_size (n : Z) : Prop := 0 < n <= 0x1ffff.

Lemma io_size_land n : io_size n -> Z.land n 0x1ffff = n.
Proof. intros [? ?]. change 0x1ffff with (Z.ones 17). rewrite Z.land_ones by lia. apply Z.mod_small. lia. Qed.

(** The state of a file object with respect to the file: the mapping, if any, is
    within the file. *)
Record file_ok (f : unixFile) (k : kernel) : Prop := {
  fo_h : 2 < h f;
  fo_map : 0 <= mmapSize f <= mmapSizeActual f;
  fo_max : mmapSize f <= mmapSizeMax f;
  fo_none : pMapRegion f = false -> mmapSizeActual f = 0;
  fo_data : mmapSize f <= len (data k);
  fo_out : 0 <= nFetchOut f;
  fo_fetch : 0 < nFetchOut f -> pMapRegion f = true }.

Lemma seekAndRead_spec offset buf pos cnt f k :
  2 < h f -> io_size cnt -> 0 <= offset -> 0 <= pos -> pos + cnt <= len buf ->
  wpi (seekAndRead NDEBUG offset buf pos cnt) (fun '(r, buf') '(f', k') =>
    only_data k k' /\ data k' = data k /\
    (r = len (slice (data k) offset cnt) /\
     buf' = splice buf pos (slice (data k) offset cnt) /\ f' = f \/
     exists e n, r = -1 /\ failed k e /\ f' = storeLastErrno e f /\ 0 <= n <= cnt /\
       buf' = splice buf pos (slice (data k) offset n))) (f, k).
Proof.
  intros Hh Hc Ho Hp Hb. unfold seekAndRead. apply wpi_bind. cbn -[assert_ retries Z.land].
  apply wpi_assert_; [apply Z.eqb_eq; by rewrite io_size_land|].
  apply wpi_assert_; [by apply Z.ltb_lt|]. apply wpi_retries.
  eapply wpi_mono; [|apply seekAndRead_loop_spec; try done; [apply Hc|destruct (_ <? _); lia]].
  intros [r buf'] [f' k'] (? & ? & Hr). rewrite Z.add_0_r in Hr. done.
Qed.

(** A read of an array of bytes: the result code and the bytes. *)
Definition read_result (d : region) (off amt : Z) : Z * region :=
  let bs := slice d off amt in
  (if len bs =? amt then SQLITE_OK else SQLITE_IOERR_SHORT_READ, bs ++ zeros (amt - len bs)).

(** What [unixRead] promises: the read of the array, or the failure of a call. *)
Definition read_post f k buf amt offset : Z * region -> state -> Prop := fun '(rc, buf') '(f', k') =>
  only_data k k' /\ data k' = data k /\
  ((rc, buf') = ((read_result (data k) offset amt).1, splice buf 0 (read_result (data k) offset amt).2) /\
   (f' = f \/ f' = storeLastErrno 0 f) \/
   exists e n, rc = SQLITE_IOERR_READ /\ failed k e /\ f' = storeLastErrno e f /\
     0 <= n <= amt /\ buf' = splice buf 0 (slice (data k) offset n)).

(** The rest of a read, of which the first [pos] bytes came from the mapping. *)
Lemma unixRead_rest_spec buf pos amt offset f k :
  2 < h f -> 0 <= pos -> io_size (amt - pos) -> 0 <= offset -> offset + pos <= len (data k) \/ pos = 0 ->
  amt <= len buf ->
  wpi (unixRead_rest NDEBUG (splice buf 0 (slice (data k) offset pos)) pos (amt - pos) (offset + pos))
    (read_post f k buf amt offset) (f, k).
Proof.
  intros Hh Hp Hc Ho Hd Hb. pose proof Hc as [Hc0 _].
  assert (Hl : len (slice (data k) offset pos) = pos).
  { destruct Hd as [Hd|Hd]; [by apply len_slice|]. rewrite Hd. by rewrite slice_zero. }
  assert (Hsp : forall m, 0 <= m ->
    splice (splice buf 0 (slice (data k) offset pos)) pos (slice (data k) (offset + pos) m)
      = splice buf 0 (slice (data k) offset (pos + m))).
  { intros m Hm. rewrite <- Hl at 2. change (len (slice ?a ?b ?c)) with (0 + len (slice a b c)).
    rewrite splice_app by lia. by rewrite slice_app. }
  unfold unixRead_rest. apply wpi_bind. eapply wpi_mono; [|apply seekAndRead_spec; try done; try lia].
  - intros [r buf'] [f' k'] (Hk & Hd' & Hr). unfold read_post, read_result.
    destruct Hr as [(-> & -> & ->)|(e & n & -> & He & -> & Hn & ->)].
    + assert (Hlen : len (slice (data k) offset amt) = pos + len (slice (data k) (offset + pos) (amt - pos))).
      { rewrite !len_slice_min by lia. lia. }
      rewrite Hlen. rewrite Hsp by lia. replace (pos + (amt - pos)) with amt by lia.
      set (got := len (slice (data k) (offset + pos) (amt - pos))) in *.
      assert (0 <= got <= amt - pos) by (unfold got; rewrite len_slice_min by lia; lia).
      destruct (got =? amt - pos) eqn:Hg; bool_to_prop.
      * rewrite (proj2 (Z.eqb_eq (pos + got) amt)) by lia. apply wpi_ret. split_and!; [done|done|].
        left. split; [|by left]. f_equal. replace (amt - (pos + got)) with 0 by lia.
        cbn. by rewrite app_nil_r.
      * rewrite (proj2 (Z.eqb_neq (pos + got) amt)) by lia. rewrite (proj2 (Z.ltb_ge got 0)) by lia.
        apply wpi_bind. cbn. split_and!; [done|done|]. left. split; [|by right]. f_equal.
        replace (pos + got) with (0 + len (slice (data k) offset amt)) by lia.
        rewrite splice_app by lia. do 3 f_equal. lia.
    + rewrite (proj2 (Z.eqb_neq (-1) _)) by lia. change (-1 <? 0) with true. apply wpi_ret.
      split_and!; [done|done|]. right. exists e, (pos + n). rewrite Hsp by lia.
      split_and!; try done; lia.
  - rewrite len_splice by lia. lia.
Qed.

(** The bytes of the mapping are those of the file. *)
Lemma wpi_map_read off n (Q : region -> state -> Prop) f k :
  pMapRegion f = true -> 0 <= off -> 0 <= n -> off + n <= mmapSizeActual f -> off + n <= len (data k) ->
  Q (slice (data k) off n) (f, k) -> wpi (map_read off n) Q (f, k).
Proof.
  intros Hp Ho Hn Ha Hd HQ. unfold wpi, map_read, mbind, io_bind. cbn -[align_up]. rewrite Hp.
  rewrite (proj2 (Z.leb_le 0 off)), (proj2 (Z.leb_le (off + n) (mmapSizeActual f))) by done.
  rewrite (proj2 (Z.leb_le (off + n) (align_up _ _))).
  - cbn. by rewrite slice_app_l.
  - unfold align_up, pagesize. pose proof (Z.div_mod (len (data k) + 4096 - 1) 4096 ltac:(lia)).
    pose proof (Z.mod_pos_bound (len (data k) + 4096 - 1) 4096 ltac:(lia)). lia.
Qed.

Lemma unixRead_spec buf amt offset f k :
  file_ok f k -> io_size amt -> 0 <= offset -> amt <= len buf ->
  wpi (unixRead NDEBUG buf amt offset) (read_post f k buf amt offset) (f, k).
Proof.
  intros [] Ha Ho Hb. pose proof Ha as [? ?]. unfold unixRead.
  apply wpi_assert_; [by apply Z.leb_le|]. apply wpi_assert_; [by apply Z.ltb_lt|].
  apply wpi_bind. cbn -[unixRead_rest map_read].
  assert (Hm : offset < mmapSize f -> pMapRegion f = true).
  { intros. destruct (pMapRegion f); [done|]. specialize (fo_none0 eq_refl). lia. }
  destruct (offset <? mmapSize f) eqn:H1; bool_to_prop.
  - destruct (offset + amt <=? mmapSize f) eqn:H2; bool_to_prop.
    + apply wpi_bind, wpi_map_read; [auto|lia..|]. apply wpi_ret. split_and!; [done|done|]. left.
      split; [|by left]. unfold read_result. rewrite len_slice by lia. rewrite Z.eqb_refl, Z.sub_diag.
      cbn. by rewrite app_nil_r.
    + apply wpi_bind, wpi_map_read; [auto|lia..|].
      apply (unixRead_rest_spec buf (mmapSize f - offset)); try done; try lia.
      split; lia.
  - pose proof (unixRead_rest_spec buf 0 amt offset f k) as Hr.
    rewrite Z.sub_0_r, Z.add_0_r, slice_zero, splice_nil in Hr by lia. apply Hr; try done; auto.
Qed.

(** ** Writing *)

Lemma seekAndWriteFd_loop_spec fuel iOff bs f k :
  0 <= iOff -> bs <> [] -> (length (script k) < fuel)%nat ->
  wpi (seekAndWriteFd_loop fuel iOff bs) (fun '(rc, errno) '(f', k') =>
    only_data k k' /\ f' = f /\
    (0 < rc <= len bs /\ data k' = pwrite (data k) iOff (slice bs 0 rc) \/
     rc = -1 /\ data k' = data k /\ failed k errno)) (f, k).
Proof.
  intros Ho Hbs. revert k. induction fuel as [|fuel IH]; intros k Hf; [lia|].
  cbn [seekAndWriteFd_loop]. apply wpi_bind, wpi_osPwrite64; [done|done| |].
  - intros n k' Hk Hs Hn _ Hd. rewrite (proj2 (Z.ltb_ge n 0)) by lia. cbn.
    split_and!; [done..|]. by left.
  - intros e k' Hk Hd Hs He. change (-1 <? 0) with true. rewrite andb_true_l.
    destruct (e =? EINTR) eqn:Hi; bool_to_prop.
    + eapply wpi_mono; [|apply IH; lia]. intros [rc errno] [f' k2] (Hk2 & -> & Hr).
      rewrite Hd in Hr. split_and!; [by etrans|done|]. destruct Hr as [?|(?&?&?)]; [by left|right].
      split_and!; try done. by eapply failed_later.
    + cbn. split_and!; [done..|]. right. auto.
Qed.

Lemma slice_slice m off n i k :
  0 <= off -> 0 <= i -> 0 <= k -> i + k <= n -> slice (slice m off n) i k = slice m (off + i) k.
Proof.
  unfold slice. intros. rewrite skipn_firstn_comm, take_take, drop_drop. f_equal; [lia|]. f_equal. lia.
Qed.

Lemma slice_of_drop m j off n : 0 <= j -> 0 <= off -> slice (drop (Z.to_nat j) m) off n = slice m (j + off) n.
Proof. unfold slice. intros. rewrite drop_drop. do 2 f_equal. lia. Qed.

(** The outcome of a write of [amt] bytes of [pBuf], of which [n] are written. *)
Lemma seekAndWrite_spec offset pBuf cnt f k :
  2 < h f -> io_size cnt -> 0 <= offset -> cnt <= len pBuf ->
  wpi (seekAndWrite NDEBUG offset pBuf cnt) (fun rc '(f', k') =>
    only_data k k' /\
    (0 < rc <= cnt /\ f' = f /\ data k' = pwrite (data k) offset (slice pBuf 0 rc) \/
     rc = -1 /\ data k' = data k /\ exists e, failed k e /\ f' = storeLastErrno e f)) (f, k).
Proof.
  intros Hh Hc Ho Hb. pose proof Hc as [? ?]. unfold seekAndWrite, seekAndWriteFd.
  apply wpi_bind. cbn -[assert_ retries Z.land]. apply wpi_bind.
  rewrite io_size_land by done. apply wpi_assert_; [by apply Z.eqb_eq|].
  apply wpi_assert_; [by apply Z.ltb_lt|]. apply wpi_retries, wpi_bind.
  assert (Hl : len (slice pBuf 0 cnt) = cnt) by (apply len_slice; lia).
  eapply wpi_mono; [|apply seekAndWriteFd_loop_spec; [done| |lia]].
  - intros [rc errno] [f' k'] (Hk & -> & [(Hrc & Hd)|(-> & Hd & He)]).
    + rewrite (proj2 (Z.ltb_ge rc 0)) by lia. cbn. split; [done|]. left. rewrite Hl in Hrc.
      split_and!; [lia|lia|done|]. rewrite slice_slice in Hd by lia. done.
    + cbn. split; [done|]. right. split_and!; [done|done|]. by exists errno.
  - intros E. rewrite E in Hl. unfold len in Hl. cbn in Hl. lia.
Qed.

Lemma unixWrite_loop_spec fuel pBuf amt offset f k :
  2 < h f -> io_size amt -> 0 <= offset -> amt <= len pBuf -> (Z.to_nat amt < fuel)%nat ->
  wpi (unixWrite_loop NDEBUG fuel pBuf amt offset) (fun '(wrote, amt') '(f', k') =>
    only_data k k' /\ exists n, 0 <= n <= amt /\ data k' = pwrite (data k) offset (slice pBuf 0 n) /\
    (n = amt /\ wrote = amt' /\ f' = f \/
     n < amt /\ amt' = amt - n /\ wrote = -1 /\ exists e, failed k e /\ f' = storeLastErrno e f)) (f, k).
Proof.
  intros Hh. revert pBuf amt offset k. induction fuel as [|fuel IH]; intros pBuf amt offset k Hc Ho Hb Hf; [lia|].
  pose proof Hc as [? ?]. cbn [unixWrite_loop]. apply wpi_bind.
  eapply wpi_mono; [|by apply seekAndWrite_spec].
  intros rc [f' k1] (Hk & [(Hrc & -> & Hd)|(-> & Hd & e & He & ->)]).
  - destruct ((rc <? amt) && (0 <? rc)) eqn:Hgo; bool_to_prop.
    + eapply wpi_mono; [|apply IH; [split; lia|lia| |lia]].
      * intros [wrote amt'] [f2 k2] (Hk2 & n & Hn & Hd2 & Hr). split; [by etrans|].
        exists (rc + n). rewrite Hd2, Hd. split; [lia|]. split.
        -- rewrite slice_of_drop, Z.add_0_r by lia. rewrite <- (slice_app pBuf 0 rc n) by lia.
           assert (Hl : len (slice pBuf 0 rc) = rc) by (apply len_slice; lia).
           rewrite <- pwrite_app by lia. by rewrite Hl.
        -- destruct Hr as [(-> & -> & ->)|(? & -> & -> & e & He & ->)]; [left; split; [lia|done]|right].
           split_and!; [lia|lia|done|]. exists e. split; [|done]. by eapply failed_later.
      * unfold len in *. rewrite length_drop. lia.
    + assert (rc = amt) as -> by (destruct Hgo as [?|?]; bool_to_prop; lia). cbn. split; [done|].
      exists amt. split_and!; [lia|lia|done|]. by left.
  - rewrite andb_false_r. cbn. split; [done|]. exists 0. split; [lia|].
    split; [by rewrite slice_zero|]. right. split_and!; [lia|lia|done|]. by exists e.
Qed.

(** What [unixWrite] promises: all bytes are written, or a call failed and a
    part of them is. *)
Definition write_post f k pBuf amt offset : Z -> state -> Prop := fun rc '(f', k') =>
  only_data k k' /\
  (rc = SQLITE_OK /\ f' = f /\ data k' = pwrite (data k) offset (slice pBuf 0 amt) \/
   exists n e, 0 <= n < amt /\ failed k e /\ data k' = pwrite (data k) offset (slice pBuf 0 n) /\
     (e = ENOSPC /\ rc = SQLITE_FULL /\ f' = storeLastErrno 0 f \/
      e <> ENOSPC /\ rc = SQLITE_IOERR_WRITE /\ f' = storeLastErrno e f)).

Lemma unixWrite_spec pBuf amt offset f k :
  2 < h f -> io_size amt -> 0 <= offset -> amt <= len pBuf ->
  wpi (unixWrite NDEBUG pBuf amt offset) (write_post f k pBuf amt offset) (f, k).
Proof.
  intros Hh Hc Ho Hb. pose proof Hc as [? ?]. unfold unixWrite.
  apply wpi_assert_; [by apply Z.ltb_lt|]. apply wpi_bind.
  eapply wpi_mono; [|apply unixWrite_loop_spec; [done..|lia]].
  intros [wrote amt'] [f' k'] (Hk & n & Hn & Hd & [(-> & -> & ->)|(Hlt & -> & -> & e & He & ->)]).
  - cbn. rewrite Z.ltb_irrefl. cbn. split; [done|]. by left.
  - cbn. rewrite (proj2 (Z.ltb_lt _ _)) by lia. unfold wpi, mbind, io_bind. cbn -[ENOSPC].
    destruct (e =? ENOSPC) eqn:Hf; bool_to_prop; cbn.
    + split; [done|]. right. exists n, e. split_and!; try done; try lia. by left.
    + split; [done|]. right. exists n, e. split_and!; try done; try lia. by right.
Qed.

(** ** Size and mapping *)

Lemma file_ok_errno e f k : file_ok f k -> file_ok (storeLastErrno e f) k.
Proof. intros []. by split. Qed.

Lemma file_ok_grow f k k' : file_ok f k -> len (data k) <= len (data k') -> file_ok f k'.
Proof. intros [] ?. split; try done. lia. Qed.

Lemma wpi_osFstat (Q : Z * Z * Z -> state -> Prop) f k :
  (forall k', only_data k k' -> data k' = data k -> Q (0, 0, len (data k)) (f, k')) ->
  (forall e k', only_data k k' -> data k' = data k -> Fail e ∈ script k -> Q (-1, e, 0) (f, k')) ->
  wpi osFstat Q (f, k).
Proof.
  intros H0 He. unfold osFstat. apply wpi_bind, wpi_next.
  - intros E. cbn. by apply H0.
  - intros a l E. cbn. pose proof (only_data_next k l a (data k) E) as Hd.
    destruct a as [|n|e]; [by apply (H0 _ Hd)..|]. apply (He e _ Hd); [done|]. rewrite E. by left.
Qed.

Lemma robust_ftruncate_spec sz f k :
  0 <= sz ->
  wpi (robust_ftruncate sz) (fun '(rc, errno) '(f', k') => only_data k k' /\ f' = f /\
    (rc = 0 /\ data k' = resize_to (data k) sz \/ rc = -1 /\ failed k errno /\ data k' = data k)) (f, k).
Proof.
  intros Hs. unfold robust_ftruncate. apply wpi_retries.
  assert (Hf : (length (script k) < length (script k) + 2)%nat) by lia. revert Hf.
  generalize (length (script k) + 2)%nat. intros fuel. revert k.
  induction fuel as [|fuel IH]; intros k Hf; [lia|]. cbn [robust_ftruncate_loop]. apply wpi_bind.
  unfold osFtruncate. apply wpi_bind, wpi_next.
  - intros E. cbn. rewrite (proj2 (Z.ltb_ge sz 0)) by done. cbn. split_and!; [apply only_data_set|done|by left].
  - intros a l E. cbn -[robust_ftruncate_loop]. rewrite (proj2 (Z.ltb_ge sz 0)) by done.
    assert (Hok : wpi (_ ← upd_kernel (fun k => set_data (resize_to (data k) sz) k); mret (0, 0))
      (fun a s' => wpi (let '(rc, errno) := a in
          if (rc <? 0) && (errno =? EINTR) then robust_ftruncate_loop fuel sz else mret (rc, errno))
        (fun '(rc, errno) '(f', k') => only_data k k' /\ f' = f /\
          (rc = 0 /\ data k' = resize_to (data k) sz \/ rc = -1 /\ failed k errno /\ data k' = data k)) s')
      (f, mkKernel (data k) (durable k) (dir_durable k) l)).
    { cbn. split_and!; [by eapply (only_data_next k l)|done|by left]. }
    destruct a as [|n|e]; [exact Hok..|]. cbn -[robust_ftruncate_loop].
    destruct (e =? EINTR) eqn:Hi; bool_to_prop.
    + eapply wpi_mono; [|apply IH; rewrite E in Hf; cbn in *; lia].
      pose proof (only_data_next k l (Fail e) (data k) E) as Hd.
      intros [rc errno] [f' k2] (Hk2 & -> & Hr). split_and!; [by etrans|done|].
      destruct Hr as [?|(?&?&?)]; [by left|right]. split_and!; try done. by eapply failed_later.
    + cbn. split_and!; [by eapply (only_data_next k l)|done|]. right.
      split_and!; [done| |done]. by eapply failed_next.
Qed.

Lemma unixFileSize_spec f k :
  wpi unixFileSize (fun '(rc, size) '(f', k') => only_data k k' /\ data k' = data k /\
    (rc = SQLITE_OK /\ size = Some (if len (data k) =? 1 then 0 else len (data k)) /\ f' = f \/
     rc = SQLITE_IOERR_FSTAT /\ size = None /\
     exists e, Fail e ∈ script k /\ f' = storeLastErrno e f)) (f, k).
Proof.
  unfold unixFileSize. apply wpi_bind, wpi_osFstat.
  - intros k' Hk Hd. cbn. split_and!; [done..|]. by left.
  - intros e k' Hk Hd He. cbn. split_and!; [done..|]. right. eauto.
Qed.

Lemma round_chunk_spec n c : 0 <= n -> 0 < c -> n <= round_chunk n c < n + c /\ (c | round_chunk n c).
Proof.
  intros Hn Hc. unfold round_chunk. rewrite Z.quot_div_nonneg by lia. split; [|by apply Z.divide_factor_r].
  pose proof (Z.div_mod (n + c - 1) c ltac:(lia)). pose proof (Z.mod_pos_bound (n + c - 1) c ltac:(lia)). lia.
Qed.

(** The size [unixTruncate] gives to the file. *)
Definition chunked (c n : Z) : Z := if 0 <? c then round_chunk n c else n.

Lemma chunked_ge c n : 0 <= n -> n <= chunked c n.
Proof. intros. unfold chunked. case_bool; [|lia]. bool_to_prop. by apply round_chunk_spec. Qed.

Lemma unixTruncate_spec nByte f k :
  0 <= nByte -> file_ok f k ->
  wpi (unixTruncate nByte) (fun rc '(f', k') => only_data k k' /\ file_ok f' k' /\ szChunk f' = szChunk f /\
    (rc = SQLITE_OK /\ data k' = resize_to (data k) (chunked (szChunk f) nByte) \/
     rc = SQLITE_IOERR_TRUNCATE /\ data k' = data k /\ exists e, failed k e)) (f, k).
Proof.
  intros Hn Hok. unfold unixTruncate. apply wpi_bind. cbn -[robust_ftruncate].
  fold (chunked (szChunk f) nByte). pose proof (chunked_ge (szChunk f) nByte Hn).
  apply wpi_bind. eapply wpi_mono; [|apply robust_ftruncate_spec; lia].
  intros [rc errno] [f' k'] (Hk & -> & [(-> & Hd)|(-> & He & Hd)]); cbn.
  - split_and!; [done| | |by left]; cbn [fst]; [|by case_bool]. destruct Hok.
    destruct (chunked (szChunk f) nByte <? mmapSize f) eqn:Hlt; bool_to_prop; split; cbn; rewrite ?Hd, ?len_resize_to by lia;
      try done; lia.
  - apply wpi_bind. cbn. split_and!; [done| |done|right; eauto]. apply file_ok_errno. eapply file_ok_grow; [done|]. by rewrite Hd.
Qed.

Lemma wpi_mapping (n : option Z) (Q : bool -> state -> Prop) f k :
  (forall p k', only_data k k' -> data k' = data k -> Q p (f, k')) ->
  wpi (match n with Some n => osMremap n | None => osMmap end) Q (f, k).
Proof.
  intros H. destruct n; [unfold osMremap|unfold osMmap]; apply wpi_bind, wpi_next; intros; apply wpi_ret, H;
    (reflexivity || by eapply only_data_next).
Qed.

(** The mapping is set, or the limit is lowered to zero. *)
Lemma unixRemapfile_spec nNew f k :
  file_ok f k -> nFetchOut f = 0 -> mmapSize f < nNew -> nNew <= mmapSizeMax f -> nNew <= len (data k) ->
  wpi (unixRemapfile NDEBUG nNew) (fun _ '(f', k') =>
    only_data k k' /\ data k' = data k /\ file_ok f' k' /\ szChunk f' = szChunk f) (f, k).
Proof.
  intros [] Hn Hlt Hm Hd. unfold unixRemapfile. apply wpi_bind. cbn -[assert_ osMmap osMremap].
  do 5 (apply wpi_assert_; [first [by apply Z.eqb_eq|apply Z.ltb_lt; lia|apply Z.leb_le; lia]|]).
  assert (Hgo : forall p k', only_data k k' -> data k' = data k ->
    wpi (if (p : bool) then upd_file (set_map true nNew nNew)
         else upd_file (fun f => set_map false 0 0 (set_mmapSizeMax 0 f)))
      (fun _ '(f', k') =>
        only_data k k' /\ data k' = data k /\ file_ok f' k' /\ szChunk f' = szChunk f) (f, k')).
  { intros p k' Hk E. destruct p; cbn; split_and!; try done; split; cbn; rewrite ?E; try done; try lia. }
  apply wpi_bind. destruct (pMapRegion f).
  - apply (wpi_mapping (Some (mmapSize f))). apply Hgo.
  - apply (wpi_mapping None). apply Hgo.
Qed.

Lemma unixMapfile_spec nMap f k :
  file_ok f k ->
  mmapSize f < nMap <= len (data k) /\ 0 < mmapSizeMax f \/
    nMap < 0 /\ nFetchOut f = 0 /\ mmapSize f = 0 /\ pMapRegion f = false ->
  wpi (unixMapfile NDEBUG nMap) (fun rc '(f', k') =>
    only_data k k' /\ data k' = data k /\ file_ok f' k' /\ szChunk f' = szChunk f /\
    (rc = SQLITE_OK \/ rc = SQLITE_IOERR_FSTAT /\ exists e, Fail e ∈ script k)) (f, k).
Proof.
  intros Hok Hn. pose proof Hok as []. unfold unixMapfile. apply wpi_bind.
  cbn -[assert_ unixRemapfile osFstat].
  apply wpi_assert_.
  { destruct Hn as [[? ?]|(? & -> & _)]; [|by rewrite orb_true_r].
    by rewrite (proj2 (Z.leb_le 0 nMap)) by lia. }
  apply wpi_assert_.
  { destruct Hn as [[? ?]|(? & _ & -> & ->)]; [|by rewrite orb_true_r].
    by rewrite (proj2 (Z.ltb_lt 0 nMap)) by lia. }
  destruct (0 <? nFetchOut f) eqn:Hf; bool_to_prop.
  { cbn. split_and!; try done. by left. }
  (* the tail, with the size to map *)
  assert (Htail : forall n k', only_data k k' -> data k' = data k -> 
      mmapSize f <= n <= len (data k) -> (mmapSize f < n /\ 0 < mmapSizeMax f \/ mmapSize f = 0 /\ pMapRegion f = false) ->
      wpi (_ ← assert_ NDEBUG ((0 <? Z.min n (mmapSizeMax f)) || (mmapSize f =? 0) && negb (pMapRegion f));
           _ ← (if negb (Z.min n (mmapSizeMax f) =? mmapSize f)
                then unixRemapfile NDEBUG (Z.min n (mmapSizeMax f)) else mret tt);
           mret SQLITE_OK) (fun rc '(f', k') =>
        only_data k k' /\ data k' = data k /\ file_ok f' k' /\ szChunk f' = szChunk f /\
        (rc = SQLITE_OK \/ rc = SQLITE_IOERR_FSTAT /\ exists e, Fail e ∈ script k)) (f, k')).
  { intros n k' Hk Hd Hn1 Hn2. apply wpi_assert_.
    { destruct Hn2 as [[? ?]|(-> & ->)]; [|by rewrite orb_true_r].
      by rewrite (proj2 (Z.ltb_lt 0 _)) by lia. }
    assert (Hok' : file_ok f k') by (eapply file_ok_grow; [done|]; by rewrite Hd).
    apply wpi_bind. destruct (Z.min n (mmapSizeMax f) =? mmapSize f) eqn:He; bool_to_prop.
    - cbn. split_and!; try done. by left.
    - eapply wpi_mono; [|apply unixRemapfile_spec; [done|lia|lia|lia|rewrite Hd; lia]].
      intros _ [f' k2] (Hk2 & Hd2 & ? & ?). cbn. split_and!; try done; [by etrans|congruence|by left]. }
  apply wpi_bind. destruct Hn as [[Hn Hm]|(Hneg & Hf0 & Hm0 & Hp)].
  - rewrite (proj2 (Z.ltb_ge nMap 0)) by lia. cbn -[assert_ unixRemapfile]. apply Htail; try done; [lia|].
    left. lia.
  - rewrite (proj2 (Z.ltb_lt nMap 0)) by done. apply wpi_bind, wpi_osFstat.
    + intros k' Hk Hd. cbn -[assert_ unixRemapfile]. apply Htail; [done|done|lia|by right].
    + intros e k' Hk Hd He. cbn. split_and!; try done; [|right; eauto].
      eapply file_ok_grow; [done|]. by rewrite Hd.
Qed.

End spec.
