(* ===== verification/UnixFileRefinement.v ===== *)
(** The file operations of os_unix.c implement an array of bytes: each call, from
    a consistent file object, runs to an end without failing an assertion or
    touching memory outside the mapping, keeps the object consistent, and has the
    result and effect of the array operation, or reports a failed system call. *)
From S2P Require Import Prelude CMem UnixIO UnixIOSpec.

(** ** The abstract file *)

Inductive fop :=
  | FRead (amt off : Z)
  | FWrite (bs : region) (off : Z)
  | FTruncate (n : Z)
  | FSync (flags : Z)
  | FSize
  | FFetch (off n : Z)
  | FUnfetch (off : Z) (p : option Z)
  | FSizeHint (n : Z)
  | FChunkSize (n : Z)
  | FMmapSize (n : Z).

Inductive fres :=
  | RCode (rc : Z)
  | RRead (rc : Z) (buf : region)
  | RSize (rc : Z) (size : option Z)
  | RFetch (rc : Z) (bytes : option region).

(** [d], extended with zeros to [n] bytes if it is shorter. *)
Definition extend (d : region) (n : Z) : region := d ++ zeros (n - len d).

(** What may happen to a file with contents [d] and chunk size [c]; [F] says that
    some system call fails. *)
Inductive astep (F : Prop) (c : Z) (d : region) : fop -> fres -> region -> Prop :=
  | a_read amt off rc bs :
      read_result d off amt = (rc, bs) -> astep F c d (FRead amt off) (RRead rc bs) d
  | a_read_fail amt off buf : F -> astep F c d (FRead amt off) (RRead SQLITE_IOERR_READ buf) d
  | a_write bs off : astep F c d (FWrite bs off) (RCode SQLITE_OK) (pwrite d off bs)
  | a_write_fail bs off rc n :
      F -> rc = SQLITE_IOERR_WRITE \/ rc = SQLITE_FULL -> 0 <= n < len bs ->
      astep F c d (FWrite bs off) (RCode rc) (pwrite d off (slice bs 0 n))
  | a_truncate n : astep F c d (FTruncate n) (RCode SQLITE_OK) (resize_to d (chunked c n))
  | a_truncate_fail n : F -> astep F c d (FTruncate n) (RCode SQLITE_IOERR_TRUNCATE) d
  | a_sync flags : astep F c d (FSync flags) (RCode SQLITE_OK) d
  | a_sync_fail flags : F -> astep F c d (FSync flags) (RCode SQLITE_IOERR_FSYNC) d
  | a_size : astep F c d FSize (RSize SQLITE_OK (Some (if len d =? 1 then 0 else len d))) d
  | a_size_fail : F -> astep F c d FSize (RSize SQLITE_IOERR_FSTAT None) d
  | a_fetch off n :
      off + n <= len d -> astep F c d (FFetch off n) (RFetch SQLITE_OK (Some (slice d off n))) d
  | a_fetch_none off n : astep F c d (FFetch off n) (RFetch SQLITE_OK None) d
  | a_fetch_fail off n : F -> astep F c d (FFetch off n) (RFetch SQLITE_IOERR_FSTAT None) d
  | a_unfetch off p : astep F c d (FUnfetch off p) (RCode SQLITE_OK) d
  | a_hint_chunk n rc :
      0 < c -> rc = SQLITE_OK \/ F ->
      astep F c d (FSizeHint n) (RCode rc) (extend d (round_chunk n c))
  | a_hint_chunk_fail n m :
      0 < c -> F -> 0 <= m -> astep F c d (FSizeHint n) (RCode SQLITE_IOERR_WRITE) (d ++ zeros m)
  | a_hint_fail n rc : F -> rc <> SQLITE_OK -> astep F c d (FSizeHint n) (RCode rc) d
  | a_hint_resize n rc :
      c <= 0 -> rc = SQLITE_OK \/ F -> astep F c d (FSizeHint n) (RCode rc) (resize_to d n)
  | a_hint_none n : c <= 0 -> astep F c d (FSizeHint n) (RCode SQLITE_OK) d
  | a_chunk n : astep F c d (FChunkSize n) (RCode SQLITE_OK) d
  | a_mmap n rc : rc = SQLITE_OK \/ F -> astep F c d (FMmapSize n) (RCode rc) d.

(** ** The operations of the file object *)

Section refinement.

Context (NDEBUG : bool) (env : fcntl_env).

Definition exec (o : fop) : io fres :=
  match o with
  | FRead amt off => '(rc, buf) ← unixRead NDEBUG (zeros amt) amt off; mret (RRead rc buf)
  | FWrite bs off => rc ← unixWrite NDEBUG bs (len bs) off; mret (RCode rc)
  | FTruncate n => rc ← unixTruncate n; mret (RCode rc)
  | FSync flags => rc ← unixSync NDEBUG flags; mret (RCode rc)
  | FSize => '(rc, size) ← unixFileSize; mret (RSize rc size)
  | FFetch off n =>
      '(rc, p) ← unixFetch NDEBUG off n;
      match p with
      | Some a => bs ← map_read a n; mret (RFetch rc (Some bs))
      | None => mret (RFetch rc None)
      end
  | FUnfetch off p => rc ← unixUnfetch NDEBUG off p; mret (RCode rc)
  | FSizeHint n =>
      '(rc, _) ← unixFileControl NDEBUG env SQLITE_FCNTL_SIZE_HINT (AInt n); mret (RCode rc)
  | FChunkSize n =>
      '(rc, _) ← unixFileControl NDEBUG env SQLITE_FCNTL_CHUNK_SIZE (AInt n); mret (RCode rc)
  | FMmapSize n =>
      '(rc, _) ← unixFileControl NDEBUG env SQLITE_FCNTL_MMAP_SIZE (AInt n); mret (RCode rc)
  end.

(** What the pager guarantees of its calls. *)
Definition fop_ok (f : unixFile) (o : fop) : Prop :=
  match o with
  | FRead amt off => io_size amt /\ 0 <= off
  | FWrite bs off => io_size (len bs) /\ 0 <= off
  | FTruncate n => 0 <= n
  | FSync flags => Z.land flags 0x0F = SQLITE_SYNC_NORMAL \/ Z.land flags 0x0F = SQLITE_SYNC_FULL
  | FFetch off n => 0 <= off /\ 0 < n
  | FUnfetch off p => if decide (nFetchOut f = 0) then p = None else p = Some off
  | FSizeHint n => 0 <= n /\ 0 < st_blksize env
  | _ => True
  end.

Definition step_post (f : unixFile) (k : kernel) (o : fop) (r : fres) (s : state) : Prop :=
  file_ok s.1 s.2 /\ astep (exists e, Fail e ∈ script k) (szChunk f) (data k) o r (data s.2).

Lemma failed_some k e : failed k e -> exists e, Fail e ∈ script k.
Proof. intros [? _]. eauto. Qed.

Lemma exec_read f k amt off :
  file_ok f k -> fop_ok f (FRead amt off) -> wpi (exec (FRead amt off)) (step_post f k (FRead amt off)) (f, k).
Proof.
  intros Hok [Ha Ho]. apply wpi_bind. pose proof Ha as [? ?].
  assert (Hl : len (zeros amt) = amt) by (apply len_zeros; lia).
  eapply wpi_mono; [|apply unixRead_spec; [done|done|done|lia]].
  intros [rc buf] [f' k'] (Hk & Hd & Hr). apply wpi_ret. unfold step_post. cbn [fst snd]. rewrite Hd.
  destruct Hr as [[Heq Hf]|(e & n & -> & He & -> & _)].
  - split.
    + apply (file_ok_grow _ k); [|by rewrite Hd]. destruct Hf as [-> | ->]; [done|by apply file_ok_errno].
    + apply a_read. injection Heq as -> ->. rewrite (surjective_pairing (read_result _ _ _)). f_equal.
      assert (Hlr : len (read_result (data k) off amt).2 = amt).
      { unfold read_result, snd. rewrite len_app, len_slice_min by lia. rewrite len_zeros; lia. }
      change (slice (data k) off amt ++ zeros _) with (read_result (data k) off amt).2.
      unfold splice. change (Z.to_nat 0) with 0%nat. rewrite take_0, drop_ge; [by rewrite app_nil_r|].
      unfold len in *. lia.
  - split; [apply (file_ok_grow _ k); [by apply file_ok_errno|by rewrite Hd]|].
    apply a_read_fail. by eapply failed_some.
Qed.

Lemma exec_write f k bs off :
  file_ok f k -> fop_ok f (FWrite bs off) -> wpi (exec (FWrite bs off)) (step_post f k (FWrite bs off)) (f, k).
Proof.
  intros Hok [Ha Ho]. apply wpi_bind. pose proof Hok as [].
  assert (Hall : slice bs 0 (len bs) = bs).
  { unfold slice, len. rewrite Nat2Z.id. cbn. by rewrite drop_0, take_ge. }
  eapply wpi_mono; [|apply unixWrite_spec; [done|done|done|lia]].
  intros rc [f' k'] (Hk & Hr). apply wpi_ret. unfold step_post. cbn [fst snd].
  destruct Hr as [(-> & -> & Hd)|(n & e & Hn & He & Hd & Hrc)].
  - rewrite Hall in Hd. rewrite Hd. split; [|apply a_write].
    apply (file_ok_grow _ k); [done|]. rewrite Hd. by apply pwrite_grows.
  - rewrite Hd. split.
    + apply (file_ok_grow _ k); [|rewrite Hd; by apply pwrite_grows].
      destruct Hrc as [(_ & _ & ->)|(_ & _ & ->)]; by apply file_ok_errno.
    + apply a_write_fail; [by eapply failed_some| |done]. destruct Hrc as [(_ & -> & _)|(_ & -> & _)]; auto.
Qed.

Lemma exec_truncate f k n :
  file_ok f k -> fop_ok f (FTruncate n) -> wpi (exec (FTruncate n)) (step_post f k (FTruncate n)) (f, k).
Proof.
  intros Hok Hn. apply wpi_bind. eapply wpi_mono; [|by apply unixTruncate_spec].
  intros rc [f' k'] (Hk & Hok' & _ & [(-> & Hd)|(-> & Hd & e & He)]); apply wpi_ret;
    unfold step_post; cbn [fst snd]; rewrite Hd; (split; [done|]); constructor.
  by eapply failed_some.
Qed.

Lemma exec_size f k : file_ok f k -> wpi (exec FSize) (step_post f k FSize) (f, k).
Proof.
  intros Hok. apply wpi_bind. eapply wpi_mono; [|apply unixFileSize_spec].
  intros [rc size] [f' k'] (Hk & Hd & [(-> & -> & ->)|(-> & -> & e & He & ->)]); apply wpi_ret;
    unfold step_post; cbn [fst snd]; rewrite Hd.
  - split; [|constructor]. apply (file_ok_grow _ k); [done|by rewrite Hd].
  - split; [|constructor; eauto]. apply (file_ok_grow _ k); [by apply file_ok_errno|by rewrite Hd].
Qed.

Lemma wpi_next_any (Q : answer -> state -> Prop) f k :
  (forall a k', data k' = data k -> durable k' = durable k -> dir_durable k' = dir_durable k ->
    (exists used, script k = used ++ script k') ->
    (forall e, a = Fail e -> Fail e ∈ script k) -> Q a (f, k')) ->
  wpi next Q (f, k).
Proof.
  intros H. apply wpi_next.
  - intros E. apply H; try done. by exists [].
  - intros a l E. apply H; try done; [by exists [a]|]. intros e ->. rewrite E. by left.
Qed.

(** [unixSync] answers SQLITE_OK only after the contents are on stable storage,
    and never forgets to synchronise the directory when that is due. *)
Definition sync_post (f : unixFile) (k : kernel) (rc : Z) (s : state) : Prop :=
  data s.2 = data k /\ szChunk s.1 = szChunk f /\
  (rc = SQLITE_OK /\ durable s.2 = data k /\
   s.1 = set_ctrlFlags (Z.ldiff (ctrlFlags f) UNIXFILE_DIRSYNC) f /\
   (Z.land (ctrlFlags f) UNIXFILE_DIRSYNC <> 0 -> Forall (fun a => forall e, a <> Fail e) (script k) ->
    dir_durable s.2 = true) \/
   rc = SQLITE_IOERR_FSYNC /\ durable s.2 = durable k /\
   exists e, Fail e ∈ script k /\ s.1 = storeLastErrno e f).

Lemma not_fail k e : Forall (fun a => forall e, a <> Fail e) (script k) -> Fail e ∈ script k -> False.
Proof. rewrite Forall_forall. intros H He. by apply (H _ He e). Qed.

Lemma unixSync_spec flags f k :
  Z.land flags 0x0F = SQLITE_SYNC_NORMAL \/ Z.land flags 0x0F = SQLITE_SYNC_FULL ->
  wpi (unixSync NDEBUG flags) (sync_post f k) (f, k).
Proof.
  intros Hf. unfold unixSync. apply wpi_assert_.
  { destruct Hf as [-> | ->]; reflexivity. }
  apply wpi_bind. unfold full_fsync, fdatasync. apply wpi_bind, wpi_next_any.
  intros a k1 Hd Hdu Hdd (u1 & Hu1) Ha.
  assert (Hrest : wpi (f ← get_file;
      if negb (Z.land (ctrlFlags f) UNIXFILE_DIRSYNC =? 0) then
        rc ← osOpenDirectory;
        rc ← (if rc =? SQLITE_OK then _ ← dir_fdatasync; mret rc
              else _ ← assert_ NDEBUG (rc =? SQLITE_CANTOPEN); mret SQLITE_OK);
        _ ← upd_file (fun f => set_ctrlFlags (Z.ldiff (ctrlFlags f) UNIXFILE_DIRSYNC) f);
        mret rc
      else mret 0) (sync_post f k) (f, mkKernel (data k1) (data k1) (dir_durable k1) (script k1))).
  { apply wpi_bind. cbn -[osOpenDirectory dir_fdatasync assert_ Z.land UNIXFILE_DIRSYNC].
    destruct (Z.land (ctrlFlags f) UNIXFILE_DIRSYNC =? 0) eqn:Hz; bool_to_prop.
    - apply wpi_ret. split_and!; [done|done|]. left. cbn [fst snd durable]. split_and!; [done|done| |done].
      replace (Z.ldiff (ctrlFlags f) UNIXFILE_DIRSYNC) with (ctrlFlags f); [by destruct f|].
      symmetry. apply Z.bits_inj'. intros n Hn. rewrite Z.ldiff_spec.
      assert (Hb : Z.testbit (Z.land (ctrlFlags f) UNIXFILE_DIRSYNC) n = false) by (by rewrite Hz, Z.bits_0).
      rewrite Z.land_spec in Hb. destruct (Z.testbit (ctrlFlags f) n), (Z.testbit UNIXFILE_DIRSYNC n); done.
    - (* the end, whatever became of the directory *)
      assert (Hend : forall k2 dd, data k2 = data k -> durable k2 = data k ->
          (Forall (fun a => forall e, a <> Fail e) (script k) -> dir_durable k2 = true) -> dd = SQLITE_OK ->
          wpi (_ ← upd_file (fun f => set_ctrlFlags (Z.ldiff (ctrlFlags f) UNIXFILE_DIRSYNC) f); mret dd)
            (sync_post f k) (f, k2)).
      { intros k2 dd E1 E2 E3 ->. apply wpi_bind. split_and!; [done|done|]. left. cbn [fst snd].
        split_and!; [done|done|done|]. intros _. exact E3. }
      apply wpi_bind. unfold osOpenDirectory. apply wpi_bind, wpi_next_any.
      intros a2 k2 Hd2 Hdu2 _ (u2 & Hu2) Ha2. apply wpi_ret, wpi_bind.
      cbn [data durable dir_durable script] in *.
      assert (Hdir : wpi (_ ← dir_fdatasync; mret SQLITE_OK) (fun rc s' => wpi
          (_ ← upd_file (fun f => set_ctrlFlags (Z.ldiff (ctrlFlags f) UNIXFILE_DIRSYNC) f); mret rc)
            (sync_post f k) s') (f, k2)).
      { unfold dir_fdatasync. apply wpi_bind, wpi_bind, wpi_next_any. intros a3 k3 Hd3 Hdu3 _ _ Ha3.
        destruct a3 as [|n|e]; [apply Hend; cbn; congruence..|]. apply Hend; [congruence|congruence| |done].
        intros HF. exfalso. apply (not_fail k e HF). rewrite Hu1, Hu2. rewrite !elem_of_app. auto. }
      destruct a2 as [|n|e]; [exact Hdir..|]. cbn -[UNIXFILE_DIRSYNC upd_file assert_].
      apply wpi_assert_; [done|]. apply wpi_ret, Hend; [congruence|congruence| |done].
      intros HF. exfalso. apply (not_fail k e HF). rewrite Hu1. rewrite elem_of_app. auto. }
  destruct a as [|n|e]; [exact Hrest..|]. apply wpi_ret. cbn -[upd_file]. apply wpi_bind.
  split_and!; [done|done|]. right. cbn [fst snd]. split_and!; [done|done|]. exists e. auto.
Qed.

Lemma exec_sync f k flags :
  file_ok f k -> fop_ok f (FSync flags) -> wpi (exec (FSync flags)) (step_post f k (FSync flags)) (f, k).
Proof.
  intros Hok Hf. apply wpi_bind. eapply wpi_mono; [|by apply unixSync_spec].
  intros rc [f' k'] (Hd & Hc & Hr). apply wpi_ret. unfold step_post. cbn [fst snd] in *. rewrite Hd.
  destruct Hr as [(-> & _ & -> & _)|(-> & _ & e & He & ->)]; (split; [apply (file_ok_grow _ k); [|by rewrite Hd]|constructor]).
  - destruct Hok. by split.
  - by apply file_ok_errno.
  - eauto.
Qed.

Lemma exec_fetch f k off n :
  file_ok f k -> fop_ok f (FFetch off n) -> wpi (exec (FFetch off n)) (step_post f k (FFetch off n)) (f, k).
Proof.
  intros Hok [Ho Hn]. apply wpi_bind. unfold unixFetch. apply wpi_bind.
  cbn -[unixMapfile]. destruct (0 <? mmapSizeMax f) eqn:Hm; bool_to_prop.
  2:{ apply wpi_ret. cbn. split; [done|constructor]. }
  (* once the file is mapped, if it can be *)
  assert (Hgo : forall f1 k1, data k1 = data k -> file_ok f1 k1 ->
    wpi (f ← get_file;
         if off + n <=? mmapSize f then
           _ ← upd_file (set_nFetchOut (nFetchOut f + 1)); mret (SQLITE_OK, Some off)
         else mret (SQLITE_OK, None))
      (fun a s' => wpi (let '(rc, p) := a in
         match p with Some a => bs ← map_read a n; mret (RFetch rc (Some bs)) | None => mret (RFetch rc None) end)
         (step_post f k (FFetch off n)) s') (f1, k1)).
  { intros f1 k1 Hd Hok1. apply wpi_bind. cbn -[map_read].
    destruct (off + n <=? mmapSize f1) eqn:Hle; bool_to_prop.
    - apply wpi_bind, wpi_ret. cbn -[map_read]. pose proof Hok1 as [].
      assert (Hp : pMapRegion f1 = true).
      { destruct (pMapRegion f1) eqn:Hp1; [done|]. pose proof (fo_none eq_refl). lia. }
      apply wpi_bind, wpi_map_read; cbn; [done|lia..|]. unfold step_post. cbn [fst snd]. rewrite Hd.
      split; [|constructor; rewrite <- Hd; lia].
      split; cbn; try done; lia.
    - apply wpi_ret. cbn. unfold step_post. cbn [fst snd]. rewrite Hd. split; [done|constructor]. }
  apply wpi_bind. destruct (pMapRegion f) eqn:Hp; cbn [negb].
  - apply wpi_ret. change (negb (SQLITE_OK =? SQLITE_OK)) with false. by apply Hgo.
  - pose proof Hok as []. eapply wpi_mono; [|apply unixMapfile_spec; [done|right]].
    + intros rc [f1 k1] (Hk & Hd & Hok1 & _ & [-> |(-> & e & He)]).
      * change (negb (SQLITE_OK =? SQLITE_OK)) with false. by apply Hgo.
      * cbn. unfold step_post. cbn [fst snd]. rewrite Hd. split; [done|constructor; eauto].
    + pose proof (UnixIOSpec.fo_none _ _ Hok Hp). split_and!; [lia| |lia|done].
      destruct (Z.le_gt_cases (nFetchOut f) 0) as [|Hgt]; [lia|].
      pose proof (UnixIOSpec.fo_fetch _ _ Hok ltac:(lia)). congruence.
Qed.

Lemma unixUnmapfile_spec f k :
  file_ok f k -> nFetchOut f = 0 ->
  wpi (unixUnmapfile NDEBUG) (fun _ '(f', k') => k' = k /\ file_ok f' k /\
    mmapSize f' = 0 /\ pMapRegion f' = false /\ nFetchOut f' = 0 /\ szChunk f' = szChunk f /\
    mmapSizeMax f' = mmapSizeMax f) (f, k).
Proof.
  intros Hok Hn. unfold unixUnmapfile. apply wpi_bind. cbn -[assert_]. apply wpi_assert_; [by apply Z.eqb_eq|].
  pose proof (len_nonneg (data k)). pose proof Hok as [].
  destruct (pMapRegion f) eqn:Hp; cbn.
  - split_and!; try done. split; cbn; try done; lia.
  - pose proof (UnixIOSpec.fo_none _ _ Hok Hp). split_and!; try done; lia.
Qed.

Lemma exec_unfetch f k off p :
  file_ok f k -> fop_ok f (FUnfetch off p) -> wpi (exec (FUnfetch off p)) (step_post f k (FUnfetch off p)) (f, k).
Proof.
  intros Hok Hp. apply wpi_bind. unfold unixUnfetch. apply wpi_bind. cbn -[assert_ unixUnmapfile].
  unfold fop_ok in Hp. pose proof Hok as [].
  apply wpi_assert_. { case_decide; subst p; [|rewrite (proj2 (Z.eqb_neq _ _)) by done; done].
    by rewrite (proj2 (Z.eqb_eq _ _)). }
  apply wpi_assert_. { case_decide; subst p; [done|]. apply orb_true_iff. right. by apply bool_decide_eq_true. }
  apply wpi_bind. case_decide as Hz; subst p.
  - eapply wpi_mono; [|by apply unixUnmapfile_spec]. intros _ [f' k'] (-> & Hok' & _ & _ & Hn & _ & _).
    apply wpi_bind. cbn -[assert_]. apply wpi_assert_; [by rewrite Hn|].
    apply wpi_ret, wpi_ret. split; [done|constructor].
  - cbn -[assert_]. apply wpi_bind. cbn -[assert_]. apply wpi_assert_; [apply Z.leb_le; cbn; lia|].
    apply wpi_ret, wpi_ret. split; [|constructor]. split; cbn; try done; try lia.
    intros _. apply fo_fetch. lia.
Qed.

(** *** File control *)

Lemma extend_extend d n m : len d <= n <= m -> extend (extend d n) m = extend d m.
Proof.
  intros Hn. unfold extend. rewrite len_app, len_zeros, <- app_assoc by lia. f_equal.
  unfold zeros. rewrite <- replicate_add. f_equal. lia.
Qed.

Lemma extend_len d : extend d (len d) = d.
Proof. unfold extend. rewrite Z.sub_diag. cbn. by rewrite app_nil_r. Qed.

Lemma len_extend d n : len d <= n -> len (extend d n) = n.
Proof. intros. unfold extend. rewrite len_app, len_zeros; lia. Qed.

(** One zero byte past the end. *)
Lemma pwrite_zero_byte d off : len d <= off -> pwrite d off [Init.Byte.x00] = extend d (off + 1).
Proof.
  intros Hd. pose proof (len_nonneg d). rewrite pwrite_eq by done. rewrite take_ge, drop_ge.
  - rewrite app_nil_r, <- app_assoc. unfold extend. f_equal. unfold zeros.
    replace (Z.to_nat (off + 1 - len d)) with (Z.to_nat (off - len d) + 1)%nat by lia.
    by rewrite replicate_add.
  - unfold len in *. cbn. lia.
  - unfold zeros, len in *. rewrite length_app, length_replicate. lia.
Qed.

(** The loop of [fcntlSizeHint] extends the file to [nSize] bytes, or a write failed. *)
Lemma fcntlSizeHint_loop_spec fuel nBlk nSize iWrite f k :
  file_ok f k -> 0 < nBlk ->
  (if iWrite <? nSize + nBlk - 1 then len (data k) <= iWrite /\ len (data k) < nSize
   else len (data k) = nSize) ->
  (Z.to_nat (nSize + nBlk - iWrite) < fuel)%nat ->
  wpi (fcntlSizeHint_loop NDEBUG fuel nBlk nSize iWrite) (fun r '(f', k') =>
    only_data k k' /\ file_ok f' k' /\
    (r = None /\ data k' = extend (data k) nSize /\ f' = f \/
     r = Some SQLITE_IOERR_WRITE /\ (exists n, len (data k) <= n /\ data k' = extend (data k) n) /\
     exists e, failed k e)) (f, k).
Proof.
  revert iWrite k. induction fuel as [|fuel IH]; intros iWrite k Hok Hb Hinv Hf; [lia|].
  cbn [fcntlSizeHint_loop]. destruct (iWrite <? nSize + nBlk - 1) eqn:Hlt; bool_to_prop.
  2:{ apply wpi_ret. split_and!; [done|done|]. left. split_and!; [done| |done].
      by rewrite <- Hinv, extend_len. }
  set (w := if nSize <=? iWrite then nSize - 1 else iWrite).
  assert (Hw : w <= iWrite /\ w < nSize /\ len (data k) <= w /\ (w = iWrite \/ w = nSize - 1)).
  { unfold w. case_bool; bool_to_prop; lia. }
  pose proof (len_nonneg (data k)). clearbody w. apply wpi_bind.
  eapply wpi_mono; [|apply seekAndWrite_spec; [apply Hok|done|lia|done]].
  intros rc [f' k1] (Hk & [(Hrc & -> & Hd)|(-> & Hd & e & He & ->)]).
  - assert (rc = 1) as -> by lia. cbn [negb Z.eqb Pos.eqb]. change (slice [Init.Byte.x00] 0 1) with [Init.Byte.x00] in Hd.
    rewrite pwrite_zero_byte in Hd by lia. pose proof (len_extend (data k) (w + 1) ltac:(lia)) as Hl.
    rewrite <- Hd in Hl. eapply wpi_mono; [|apply IH].
    + intros r [f2 k2] (Hk2 & Hok2 & Hr). split_and!; [by etrans|done|]. rewrite Hd in Hr.
      destruct Hr as [(-> & Hd2 & ->)|(-> & (n & Hn & Hd2) & e & He)]; [left|right].
      * split_and!; [done| |done]. by rewrite Hd2, extend_extend by lia.
      * rewrite len_extend in Hn by lia. split_and!; [done| |exists e; by eapply failed_later].
        exists n. split; [lia|]. by rewrite Hd2, extend_extend by lia.
    + eapply file_ok_grow; [done|]. lia.
    + done.
    + rewrite Hl. case_bool; bool_to_prop; lia.
    + lia.
  - apply wpi_ret. split_and!; [done| |].
    + eapply file_ok_grow; [by apply file_ok_errno|]. by rewrite Hd.
    + right. split_and!; [done| |by exists e]. exists (len (data k)). by rewrite Hd, extend_len.
Qed.

(** The outcome of the first half of [fcntlSizeHint], with a chunk size: an error, or
    the file has at least the size asked for. *)
Lemma fcntlSizeHint_chunk_spec n f k :
  file_ok f k -> 0 < szChunk f -> 0 <= n -> 0 < st_blksize env ->
  wpi ('(rc, _, st_size) ← osFstat;
       if negb (rc =? 0) then mret (Some SQLITE_IOERR_FSTAT) else
       let nSize := round_chunk n (szChunk f) in
       if st_size <? nSize then
         let nBlk := st_blksize env in
         let iWrite := Z.quot st_size nBlk * nBlk + nBlk - 1 in
         _ ← assert_ NDEBUG (st_size <=? iWrite);
         _ ← assert_ NDEBUG (Z.rem (iWrite + 1) nBlk =? 0);
         fcntlSizeHint_loop NDEBUG (S (Z.to_nat (nSize + nBlk - iWrite))) nBlk nSize iWrite
       else mret None) (fun r '(f', k') =>
    file_ok f' k' /\ (forall e, Fail e ∈ script k' -> Fail e ∈ script k) /\
    (r = None /\ f' = f /\ data k' = extend (data k) (round_chunk n (szChunk f)) \/
     (exists e, Fail e ∈ script k) /\
     (r = Some SQLITE_IOERR_FSTAT /\ data k' = data k \/
      r = Some SQLITE_IOERR_WRITE /\ exists m, 0 <= m /\ data k' = data k ++ zeros m))) (f, k).
Proof.
  intros Hok Hc Hn Hb. apply wpi_bind, wpi_osFstat.
  2:{ intros e k' (_ & _ & u & Hu) Hd He. apply wpi_ret. split_and!.
      - eapply file_ok_grow; [done|by rewrite Hd].
      - intros e' ?. rewrite Hu. apply elem_of_app. by right.
      - right. split; [by exists e|]. by left. }
  intros k1 Hk Hd. cbn [negb Z.eqb]. pose proof (round_chunk_spec n (szChunk f) Hn Hc) as [Hr _].
  assert (Hok1 : file_ok f k1) by (eapply file_ok_grow; [done|by rewrite Hd]).
  assert (Hlater : forall k2, only_data k k2 -> forall e, Fail e ∈ script k2 -> Fail e ∈ script k).
  { intros k2 (_ & _ & u & Hu) e ?. rewrite Hu. apply elem_of_app. by right. }
  pose proof (len_nonneg (data k)).
  destruct (len (data k) <? round_chunk n (szChunk f)) eqn:Hlt; bool_to_prop.
  2:{ apply wpi_ret. split_and!; [done|by apply Hlater|]. left. split_and!; [done|done|].
      rewrite Hd. unfold extend, zeros. rewrite Z2Nat.nonpos by lia. cbn. by rewrite app_nil_r. }
  pose proof (Z.quot_rem' (len (data k)) (st_blksize env)) as Hq.
  pose proof (Z.rem_bound_pos (len (data k)) (st_blksize env) ltac:(lia) Hb) as Hrem.
  apply wpi_assert_; [apply Z.leb_le; lia|]. apply wpi_assert_.
  { apply Z.eqb_eq. rewrite Z.sub_add. replace (_ * _ + _) with ((Z.quot (len (data k)) (st_blksize env) + 1) * st_blksize env) by lia.
    apply Z.rem_mul. lia. }
  eapply wpi_mono; [|apply fcntlSizeHint_loop_spec; [done|done| |lia]].
  - intros r [f' k'] (Hk' & Hok' & Hres). split_and!; [done|apply Hlater; by etrans|].
    rewrite Hd in Hres. destruct Hres as [(-> & Hd' & ->)|(-> & (m & Hm & Hd') & e & He)]; [by left|right].
    split; [apply (failed_later _ _ _ Hk) in He; by eapply failed_some|]. right. split; [done|].
    exists (m - len (data k)). split; [lia|done].
  - rewrite (proj2 (Z.ltb_lt _ _)) by lia. rewrite Hd. lia.
Qed.

(** The mapping that a hint asks for, of a file that is long enough. *)
Lemma hint_map_spec n f k (Q : Z -> state -> Prop) :
  file_ok f k -> n <= len (data k) ->
  (forall rc f' k', file_ok f' k' -> data k' = data k ->
    rc = SQLITE_OK \/ (exists e, Fail e ∈ script k) -> Q rc (f', k')) ->
  0 < mmapSizeMax f -> mmapSize f < n -> wpi (unixMapfile NDEBUG n) Q (f, k).
Proof.
  intros Hok Hn HQ Hm Hlt. eapply wpi_mono; [|apply unixMapfile_spec; [done|left; lia]].
  intros rc [f' k'] (_ & Hd & Hok' & _ & Hrc). apply HQ; [done|done|]. destruct Hrc as [?|[_ ?]]; auto.
Qed.

Lemma resize_len d n : 0 <= n -> n <= len (resize_to d n).
Proof. intros. by rewrite len_resize_to. Qed.

Lemma fcntlSizeHint_spec n f k :
  file_ok f k -> fop_ok f (FSizeHint n) ->
  wpi (fcntlSizeHint NDEBUG (st_blksize env) n) (fun rc => step_post f k (FSizeHint n) (RCode rc)) (f, k).
Proof.
  intros Hok [Hn Hb]. unfold fcntlSizeHint. apply wpi_bind.
  cbn -[osFstat fcntlSizeHint_loop assert_ robust_ftruncate unixMapfile Z.quot Z.rem].
  apply wpi_bind. destruct (0 <? szChunk f) eqn:Hc; bool_to_prop.
  - eapply wpi_mono; [|by apply fcntlSizeHint_chunk_spec].
    pose proof (round_chunk_spec n (szChunk f) Hn Hc) as [Hr _].
    intros r [f' k'] (Hok' & Hl & [(-> & -> & Hd)|(He & Hr')]).
    + assert (Hlen : n <= len (data k')).
      { rewrite Hd. unfold extend. rewrite len_app. pose proof (len_nonneg (data k)).
        destruct (Z.le_gt_cases (round_chunk n (szChunk f)) (len (data k))).
        - pose proof (len_nonneg (zeros (round_chunk n (szChunk f) - len (data k)))). lia.
        - rewrite len_zeros by lia. lia. }
      destruct ((0 <? mmapSizeMax f) && (mmapSize f <? n)) eqn:Hm; bool_to_prop.
      * rewrite (proj2 (Z.leb_gt _ _)) by lia. apply wpi_bind, wpi_ret.
        apply (hint_map_spec n f k'); try done. intros rc f2 k2 Hok2 Hd2 Hrc. split; [done|].
        cbn [fst snd]. rewrite Hd2, Hd. constructor; [done|]. destruct Hrc as [?|[e ?]]; [by left|right; eauto].
      * apply wpi_ret. split; [done|]. cbn [fst snd]. rewrite Hd. constructor; [done|by left].
    + destruct Hr' as [[-> Hd]|[-> (m & Hm & Hd)]]; apply wpi_ret; (split; [done|]); cbn [fst snd]; rewrite Hd.
      * by apply a_hint_fail.
      * by apply a_hint_chunk_fail.
  - apply wpi_ret. destruct ((0 <? mmapSizeMax f) && (mmapSize f <? n)) eqn:Hm; bool_to_prop.
    2:{ apply wpi_ret. split; [done|]. by constructor. }
    rewrite (proj2 (Z.leb_le _ _)) by lia. apply wpi_bind, wpi_bind.
    eapply wpi_mono; [|by apply robust_ftruncate_spec].
    intros [rc errno] [f' k'] ((_ & _ & u & Hu) & -> & [(-> & Hd)|(-> & He & Hd)]).
    + apply wpi_ret. pose proof (len_resize_to (data k) n Hn).
      apply (hint_map_spec n f k'); [|rewrite Hd; lia| |done|done].
      * destruct Hok. split; try done. rewrite Hd. lia.
      * intros rc f2 k2 Hok2 Hd2 Hrc. split; [done|]. cbn [fst snd]. rewrite Hd2, Hd.
        apply a_hint_resize; [done|]. destruct Hrc as [?|[e He]]; [by left|right].
        exists e. rewrite Hu. apply elem_of_app. by right.
    + apply wpi_bind. apply wpi_ret, wpi_ret. split.
      * apply (file_ok_grow _ k); [by apply file_ok_errno|]. cbn. by rewrite Hd.
      * cbn [fst snd]. rewrite Hd. apply a_hint_fail; [by eapply failed_some|done].
Qed.

Lemma exec_control f k :
  file_ok f k ->
  (forall n, fop_ok f (FSizeHint n) -> wpi (exec (FSizeHint n)) (step_post f k (FSizeHint n)) (f, k)) /\
  (forall n, wpi (exec (FChunkSize n)) (step_post f k (FChunkSize n)) (f, k)) /\
  (forall n, wpi (exec (FMmapSize n)) (step_post f k (FMmapSize n)) (f, k)).
Proof.
  intros Hok. split_and!; intros n.
  - intros Ho. apply wpi_bind, wpi_bind. cbn -[fcntlSizeHint]. apply wpi_bind, wpi_bind.
    eapply wpi_mono; [|by apply fcntlSizeHint_spec]. intros rc s H. apply wpi_ret, wpi_ret. exact H.
  - apply wpi_bind, wpi_bind. cbn. split; [|constructor]. destruct Hok. by split.
  - apply wpi_bind, wpi_bind. cbn -[unixUnmapfile unixMapfile]. apply wpi_bind, wpi_ret, wpi_bind.
    set (nl := Z.min n (mxMmap env)).
    assert (Hend : forall rc f' k', file_ok f' k' -> data k' = data k ->
        rc = SQLITE_OK \/ (exists e, Fail e ∈ script k) ->
        wpi (mret (rc, AInt (mmapSizeMax f))) (fun a => wpi (let '(rc, _) := a in mret (RCode rc))
          (step_post f k (FMmapSize n))) (f', k')).
    { intros rc f' k' Hok' Hd Hrc. apply wpi_ret, wpi_ret. split; [done|]. cbn [fst snd]. rewrite Hd.
      by constructor. }
    destruct ((0 <=? nl) && negb (nl =? mmapSizeMax f) && (nFetchOut f =? 0)) eqn:Hgo;
      [|apply wpi_ret, Hend; auto].
    bool_to_prop. apply wpi_bind. cbn -[unixUnmapfile unixMapfile].
    destruct (0 <? mmapSize f) eqn:Hm; bool_to_prop.
    + pose proof Hok as []. apply wpi_bind. unfold unixUnmapfile. apply wpi_bind. cbn -[unixMapfile assert_].
      apply wpi_assert_; [by apply Z.eqb_eq|].
      destruct (pMapRegion f) eqn:Hp; [|specialize (fo_none eq_refl); lia]. cbn -[unixMapfile].
      assert (Hok1 : file_ok (set_map false 0 0 (set_mmapSizeMax nl f)) k).
      { pose proof (len_nonneg (data k)). split; cbn; try done; lia. }
      eapply wpi_mono; [|apply unixMapfile_spec; [exact Hok1|right; by split_and!]].
      intros rc [f' k'] (_ & Hd & Hok' & _ & Hrc). apply Hend; [done|done|]. destruct Hrc as [?|[_ ?]]; auto.
    + pose proof Hok as []. apply wpi_ret, Hend; [|done|by left]. split; cbn; try done; lia.
Qed.

Lemma exec_spec f k o : file_ok f k -> fop_ok f o -> wpi (exec o) (step_post f k o) (f, k).
Proof.
  intros Hok Ho. destruct (exec_control f k Hok) as (? & ? & ?).
  destruct o; auto using exec_read, exec_write, exec_truncate, exec_sync, exec_size, exec_fetch, exec_unfetch.
Qed.

(** C16: Refinement.  From a consistent file object, every call the pager may make
    ends, with all asserts satisfied and no access outside the mapping; the object
    stays consistent; and the result and the new contents of the file are those of
    the abstract file, an array of bytes, with an error result only if a system
    call failed.  In particular a read sees the same bytes through the mapping as
    through [pread]. *)
Theorem file_ops_refine_bytes f k o :
  file_ok f k -> fop_ok f o ->
  exists r f' k', exec o (f, k) = Some (r, (f', k')) /\ file_ok f' k' /\
    astep (exists e, Fail e ∈ script k) (szChunk f) (data k) o r (data k').
Proof.
  intros Hok Ho. pose proof (exec_spec f k o Hok Ho) as H. unfold wpi in H.
  destruct (exec o (f, k)) as [[r [f' k']]|]; [|done]. destruct H. by exists r, f', k'.
Qed.

(** *** What a client sees *)

Lemma slice_pwrite_same d off bs : 0 <= off -> slice (pwrite d off bs) off (len bs) = bs.
Proof.
  intros Ho. destruct (decide (bs = [])) as [->|Hb]; [by rewrite slice_zero|].
  rewrite pwrite_eq by done. pose proof (length_hole d off Ho) as Hh. unfold slice, len in *.
  rewrite drop_app_ge, Hh, Nat.sub_diag, drop_0 by lia. rewrite Nat2Z.id, take_app_length'; done.
Qed.

Lemma slice_pwrite_before d off bs o n :
  0 <= off -> 0 <= o -> 0 <= n -> o + n <= off -> o + n <= len d -> slice (pwrite d off bs) o n = slice d o n.
Proof.
  intros Ho Hp Hn Hb Hd. destruct (decide (bs = [])) as [->|Hne]; [done|].
  rewrite pwrite_eq by done. pose proof (length_hole d off Ho) as Hh.
  rewrite slice_app_l by (unfold len in *; lia). unfold slice.
  rewrite skipn_firstn_comm, take_take, drop_app_le by (unfold len in *; lia).
  rewrite take_app_le; [f_equal; lia|]. unfold len in *. rewrite length_drop. lia.
Qed.

Lemma slice_pwrite_after d off bs o n :
  0 <= off -> off + len bs <= o -> slice (pwrite d off bs) o n = slice d o n.
Proof.
  intros Ho Hp. destruct (decide (bs = [])) as [->|Hne]; [done|].
  rewrite pwrite_eq by done. pose proof (length_hole d off Ho) as Hh. unfold slice, len in *.
  rewrite app_assoc, drop_app_ge by (rewrite length_app; lia). rewrite drop_drop, length_app, Hh.
  do 2 f_equal. lia.
Qed.

Lemma read_result_full d o n : 0 <= o -> 0 <= n -> o + n <= len d -> read_result d o n = (SQLITE_OK, slice d o n).
Proof.
  intros. unfold read_result. rewrite len_slice by lia. rewrite Z.eqb_refl, Z.sub_diag. cbn.
  by rewrite app_nil_r.
Qed.

(** C17: Round trip.  Whatever the kernel did between, a read of a range that was
    just written successfully returns the written bytes, and a read of another
    range of the file the bytes it had before, unless it reports
    SQLITE_IOERR_READ. *)
Theorem write_read_roundtrip f k f1 k1 f2 k2 bs off o n rc buf :
  file_ok f k -> io_size (len bs) -> 0 <= off -> io_size n -> 0 <= o ->
  exec (FWrite bs off) (f, k) = Some (RCode SQLITE_OK, (f1, k1)) ->
  exec (FRead n o) (f1, k1) = Some (RRead rc buf, (f2, k2)) -> rc <> SQLITE_IOERR_READ ->
  (o = off /\ n = len bs -> rc = SQLITE_OK /\ buf = bs) /\
  (o + n <= len (data k) /\ (o + n <= off \/ off + len bs <= o) ->
   rc = SQLITE_OK /\ buf = slice (data k) o n).
Proof.
  intros Hok Hb Ho Hn Hp Hw Hr Hrc. pose proof Hn as [? _]. pose proof Hb as [? _].
  pose proof (exec_spec f k (FWrite bs off) Hok (conj Hb Ho)) as H1. unfold wpi in H1. rewrite Hw in H1.
  destruct H1 as [Hok1 H1]. cbn [fst snd] in *.
  assert (Hd : data k1 = pwrite (data k) off bs).
  { inversion H1 as [| | |? ? ? ? ? Hc| | | | | | | | | | | | | | | | |]; subst; [done|].
    destruct Hc as [Hc|Hc]; discriminate Hc. }
  pose proof (exec_spec f1 k1 (FRead n o) Hok1 (conj Hn Hp)) as H2. unfold wpi in H2. rewrite Hr in H2.
  destruct H2 as [_ H2]. cbn [fst snd] in *.
  assert (Hres : read_result (data k1) o n = (rc, buf)) by (inversion H2; subst; done).
  assert (Hne : bs <> []) by (intros ->; unfold len in *; cbn in *; lia).
  pose proof (len_pwrite (data k) off bs Ho Hne) as Hl. rewrite Hd in Hres.
  split.
  - intros [-> ->]. rewrite read_result_full in Hres by lia. rewrite slice_pwrite_same in Hres by done.
    by injection Hres as <- <-.
  - intros [Hlen Hor]. rewrite read_result_full in Hres by lia. injection Hres as <- <-. split; [done|].
    destruct Hor; [by apply slice_pwrite_before; lia|by apply slice_pwrite_after].
Qed.

(** C22: [unixWrite] writes everything, or a prefix: it reports SQLITE_FULL exactly
    when the call that stopped it failed with ENOSPC, clearing the errno it keeps,
    and SQLITE_IOERR_WRITE with the errno kept otherwise.  Partial writes and
    interruptions are never reported. *)
Theorem unixWrite_correct pBuf amt offset f k :
  2 < h f -> io_size amt -> 0 <= offset -> amt <= len pBuf ->
  exists rc f' k', unixWrite NDEBUG pBuf amt offset (f, k) = Some (rc, (f', k')) /\
    (rc = SQLITE_OK /\ f' = f /\ data k' = pwrite (data k) offset (slice pBuf 0 amt) \/
     exists n e, 0 <= n < amt /\ Fail e ∈ script k /\ e <> EINTR /\
       data k' = pwrite (data k) offset (slice pBuf 0 n) /\
       (e = ENOSPC /\ rc = SQLITE_FULL /\ lastErrno f' = 0 \/
        e <> ENOSPC /\ rc = SQLITE_IOERR_WRITE /\ lastErrno f' = e)).
Proof.
  intros Hh Ha Ho Hb. pose proof (unixWrite_spec NDEBUG pBuf amt offset f k Hh Ha Ho Hb) as H.
  unfold wpi in H. destruct (unixWrite _ _ _ _ _) as [[rc [f' k']]|]; [|done].
  exists rc, f', k'. split; [done|]. destruct H as (_ & [?|(n & e & Hn & [He ?] & Hd & Hrc)]); [by left|right].
  exists n, e. split_and!; try done; try lia.
  destruct Hrc as [(? & ? & ->)|(? & ? & ->)]; [by left|by right].
Qed.

(** C18: [unixSync] answers SQLITE_OK only once the contents of the file are on
    stable storage; then the request to synchronise the directory is cleared, and
    unless a call failed the directory is on stable storage too.  When [fdatasync]
    fails the answer is SQLITE_IOERR_FSYNC, with the errno kept.  The contents do
    not change. *)
Theorem unixSync_durable flags f k :
  Z.land flags 0x0F = SQLITE_SYNC_NORMAL \/ Z.land flags 0x0F = SQLITE_SYNC_FULL ->
  exists rc f' k', unixSync NDEBUG flags (f, k) = Some (rc, (f', k')) /\ data k' = data k /\
    (rc = SQLITE_OK /\ durable k' = data k /\ Z.land (ctrlFlags f') UNIXFILE_DIRSYNC = 0 /\
     (Z.land (ctrlFlags f) UNIXFILE_DIRSYNC <> 0 ->
      Forall (fun a => forall e, a <> Fail e) (script k) -> dir_durable k' = true) \/
     rc = SQLITE_IOERR_FSYNC /\ durable k' = durable k /\
     exists e, Fail e ∈ script k /\ lastErrno f' = e).
Proof.
  intros Hf. pose proof (unixSync_spec flags f k Hf) as H. unfold wpi in H.
  destruct (unixSync _ _ _) as [[rc [f' k']]|]; [|done]. exists rc, f', k'. split; [done|].
  destruct H as (Hd & _ & [(-> & Hdu & Hff & Hdir)|(-> & Hdu & e & He & Hff)]); cbn [fst snd] in *; subst f'.
  - split; [done|]. left. split_and!; [done|done| |done]. cbn [ctrlFlags set_ctrlFlags].
    apply Z.bits_inj'. intros m Hm. rewrite Z.land_spec, Z.ldiff_spec, Z.bits_0.
    by destruct (Z.testbit (ctrlFlags f) m), (Z.testbit UNIXFILE_DIRSYNC m).
  - split; [done|]. right. eauto.
Qed.

(** SQLITE_FCNTL_SIZE_HINT without a chunk size is not the no-op it is meant
    to be for a file that is already large enough: with memory mapping enabled and
    the hint above the mapped size, the file is cut off at the hinted size. *)
Theorem size_hint_truncates f k n pArg :
  file_ok f k -> szChunk f <= 0 -> 0 < mmapSizeMax f -> mmapSize f < n < len (data k) ->
  script k = [] -> pArg = AInt n ->
  exists f' k', unixFileControl NDEBUG env SQLITE_FCNTL_SIZE_HINT pArg (f, k)
      = Some ((SQLITE_OK, pArg), (f', k')) /\
    data k' = take (Z.to_nat n) (data k) /\ len (data k') < len (data k).
Proof.
  intros Hok Hc Hm Hn Hs ->. pose proof Hok as [].
  assert (Hex : wpi (unixFileControl NDEBUG env SQLITE_FCNTL_SIZE_HINT (AInt n))
      (fun r '(f', k') => r = (SQLITE_OK, AInt n) /\ data k' = resize_to (data k) n) (f, k)).
  { apply wpi_bind. cbn -[fcntlSizeHint]. apply wpi_bind, wpi_ret, wpi_bind. unfold fcntlSizeHint. apply wpi_bind.
    cbn -[robust_ftruncate unixMapfile]. rewrite (proj2 (Z.ltb_ge 0 (szChunk f))) by lia. apply wpi_bind, wpi_ret.
    rewrite (proj2 (Z.ltb_lt 0 (mmapSizeMax f))), (proj2 (Z.ltb_lt (mmapSize f) n)),
      (proj2 (Z.leb_le (szChunk f) 0)) by lia.
    apply wpi_bind, wpi_bind. eapply wpi_mono; [|apply robust_ftruncate_spec; lia].
    intros [rc errno] [f' k'] ((_ & _ & u & Hu) & -> & [(-> & Hd)|(-> & [He _] & _)]).
    2:{ exfalso. rewrite Hs in He. by apply not_elem_of_nil in He. }
    apply wpi_ret. pose proof (len_resize_to (data k) n ltac:(lia)).
    eapply wpi_mono; [|apply unixMapfile_spec; [|left; rewrite Hd; lia]].
    - intros rc [f2 k2] (_ & Hd2 & _ & _ & [-> |(_ & e & He)]); [by split; [|congruence]|].
      exfalso. rewrite Hs in Hu. symmetry in Hu. apply app_eq_nil in Hu as [_ Hu]. rewrite Hu in He.
      by apply not_elem_of_nil in He.
    - split; try done. rewrite Hd. lia. }
  unfold wpi in Hex. destruct (unixFileControl _ _ _ _ _) as [[r [f' k']]|]; [|done].
  destruct Hex as [-> Hd]. exists f', k'. split; [done|].
  assert (Ht : data k' = take (Z.to_nat n) (data k)).
  { rewrite Hd. unfold resize_to, zeros. rewrite (Z2Nat.nonpos (n - _)) by lia. cbn. apply app_nil_r. }
  split; [done|]. rewrite Ht. unfold len in *. rewrite length_take. lia.
Qed.

End refinement.

(** Sizes of 128 KiB and more.  The assert on the size of a write is all that
    protects it: built without asserts, a write of exactly 131072 bytes writes
    nothing, because the size is masked with 0x1ffff, and reports SQLITE_FULL;
    built with them the program stops. *)
Theorem write_size_mask f k pBuf offset :
  2 < h f -> 0 <= offset -> len pBuf = 131072 -> script k = [] ->
  unixWrite false pBuf 131072 offset (f, k) = None /\
  exists f' k', unixWrite true pBuf 131072 offset (f, k) = Some (SQLITE_FULL, (f', k')) /\ data k' = data k.
Proof.
  intros Hh Ho _ Hs. unfold unixWrite. generalize (Z.to_nat 131072). intros fuel.
  split; [reflexivity|]. cbn [unixWrite_loop]. unfold seekAndWrite, seekAndWriteFd.
  change (Z.land 131072 0x1ffff) with 0. rewrite slice_zero by lia.
  eexists _, _. split.
  - cbv [mbind io_bind mret io_ret assert_ get_file get_kernel upd_file retries orb fst snd].
    rewrite Nat.add_comm. cbn [seekAndWriteFd_loop Nat.add]. unfold osPwrite64.
    cbv [mbind io_bind mret io_ret next get_kernel upd_kernel snd fst]. rewrite Hs.
    rewrite (proj2 (Z.ltb_ge offset 0)) by done. cbn. reflexivity.
  - reflexivity.
Qed.
