(* ===== verification/UnixIOWitnesses.v ===== *)
(** Concrete files at which the theorems of [UnixFileRefinement] apply, and runs of
    the operations of [UnixIO] on them. *)
From S2P Require Import Prelude CMem UnixIO UnixIOSpec UnixFileRefinement.

Definition ex_bytes (n : nat) : region := replicate n Init.Byte.x41.

(** A file of 100 bytes, open for mapping up to 60 bytes; the kernel interrupts the
    first call and cuts the second one short. *)
Definition ex_file : unixFile := mkFile 3 0 UNIXFILE_DIRSYNC 0 0 0 0 0 60 false 0 0.
Definition ex_script : list answer := [Fail EINTR; Part 4; Done; Fail EINTR; Part 0].
Definition ex_kernel (sc : list answer) : kernel := mkKernel (ex_bytes 100) [] false sc.
Definition ex_env : fcntl_env := mkEnv 16 1000 None None false.

Lemma ex_file_ok sc : file_ok ex_file (ex_kernel sc).
Proof. split; cbn; (lia || done). Qed.

(** The same file, mapped, with its first 40 bytes in use through the mapping. *)
Definition ex_mapped : unixFile := mkFile 3 0 0 0 0 1 40 40 60 true 0 0.

Lemma ex_mapped_ok sc : file_ok ex_mapped (ex_kernel sc).
Proof. split; cbn; (lia || done). Qed.

Definition result_of {A} (r : option (A * state)) : option (A * region) :=
  match r with Some (a, s) => Some (a, data s.2) | None => None end.

(** A write in three pieces past the end, and a read that starts in the mapping. *)
Example ex_write :
  result_of (unixWrite false [Init.Byte.x01; Init.Byte.x02; Init.Byte.x03; Init.Byte.x04;
      Init.Byte.x05; Init.Byte.x06] 6 98 (ex_file, ex_kernel [Fail EINTR; Part 1; Part 0; Fail EINTR]))
  = Some (SQLITE_OK, ex_bytes 98 ++ [Init.Byte.x01; Init.Byte.x02; Init.Byte.x03; Init.Byte.x04;
      Init.Byte.x05; Init.Byte.x06]).
Proof. vm_compute. reflexivity. Qed.

Example ex_read :
  result_of (unixRead false (zeros 8) 8 36 (ex_mapped, ex_kernel ex_script))
  = Some ((SQLITE_OK, ex_bytes 8), ex_bytes 100).
Proof. vm_compute. reflexivity. Qed.

Example ex_hint :
  result_of (unixFileControl false ex_env SQLITE_FCNTL_SIZE_HINT (AInt 130)
    (set_szChunk 64 ex_file, ex_kernel [])) = Some ((SQLITE_OK, AInt 130), extend (ex_bytes 100) 192).
Proof. vm_compute. reflexivity. Qed.

Lemma file_ops_refine_bytes_witness :
  exists r f' k', exec false ex_env (FRead 8 36) (ex_mapped, ex_kernel ex_script) = Some (r, (f', k')) /\
    file_ok f' k' /\
    astep (exists e, Fail e ∈ script (ex_kernel ex_script)) 0 (ex_bytes 100) (FRead 8 36) r (data k').
Proof.
  apply (file_ops_refine_bytes false ex_env ex_mapped (ex_kernel ex_script) (FRead 8 36)).
  - apply ex_mapped_ok.
  - split; [split|]; lia.
Defined.

Lemma write_read_roundtrip_witness :
  exists f1 k1 f2 k2 rc buf,
    exec false ex_env (FWrite [Init.Byte.x07] 120) (ex_file, ex_kernel ex_script)
      = Some (RCode SQLITE_OK, (f1, k1)) /\
    exec false ex_env (FRead 1 120) (f1, k1) = Some (RRead rc buf, (f2, k2)) /\
    (rc = SQLITE_OK /\ buf = [Init.Byte.x07]).
Proof.
  eexists _, _, _, _, _, _. split; [vm_compute; reflexivity|]. split; [vm_compute; reflexivity|].
  refine (proj1 (write_read_roundtrip false ex_env ex_file (ex_kernel ex_script) _ _ _ _
    [Init.Byte.x07] 120 120 1 _ _ (ex_file_ok _) _ _ _ _ _ _ _) (conj eq_refl eq_refl)).
  - split; unfold len; cbn; lia.
  - lia.
  - split; lia.
  - lia.
  - vm_compute. reflexivity.
  - vm_compute. reflexivity.
  - discriminate.
Defined.

Lemma unixWrite_correct_witness :
  exists rc f' k', unixWrite false (ex_bytes 6) 6 98 (ex_file, ex_kernel [Part 1; Fail ENOSPC]) = Some (rc, (f', k')) /\
    (rc = SQLITE_OK /\ f' = ex_file /\ data k' = pwrite (ex_bytes 100) 98 (slice (ex_bytes 6) 0 6) \/
     exists n e, 0 <= n < 6 /\ Fail e ∈ [Part 1; Fail ENOSPC] /\ e <> EINTR /\
       data k' = pwrite (ex_bytes 100) 98 (slice (ex_bytes 6) 0 n) /\
       (e = ENOSPC /\ rc = SQLITE_FULL /\ lastErrno f' = 0 \/
        e <> ENOSPC /\ rc = SQLITE_IOERR_WRITE /\ lastErrno f' = e)).
Proof.
  apply (unixWrite_correct false (ex_bytes 6) 6 98 ex_file (ex_kernel [Part 1; Fail ENOSPC])).
  - reflexivity.
  - split; lia.
  - lia.
  - vm_compute. discriminate.
Defined.

Lemma unixSync_durable_witness :
  exists rc f' k', unixSync false SQLITE_SYNC_FULL (ex_file, ex_kernel []) = Some (rc, (f', k')) /\
    data k' = ex_bytes 100 /\
    (rc = SQLITE_OK /\ durable k' = ex_bytes 100 /\ Z.land (ctrlFlags f') UNIXFILE_DIRSYNC = 0 /\
     (Z.land (ctrlFlags ex_file) UNIXFILE_DIRSYNC <> 0 ->
      Forall (fun a => forall e, a <> Fail e) (script (ex_kernel [])) -> dir_durable k' = true) \/
     rc = SQLITE_IOERR_FSYNC /\ durable k' = [] /\
     exists e, Fail e ∈ script (ex_kernel []) /\ lastErrno f' = e).
Proof. apply (unixSync_durable false SQLITE_SYNC_FULL ex_file (ex_kernel [])). right. reflexivity. Defined.

Lemma size_hint_truncates_witness :
  exists f' k', unixFileControl false ex_env SQLITE_FCNTL_SIZE_HINT (AInt 50) (ex_file, ex_kernel [])
      = Some ((SQLITE_OK, AInt 50), (f', k')) /\
    data k' = take (Z.to_nat 50) (ex_bytes 100) /\ len (data k') < len (ex_bytes 100).
Proof.
  apply (size_hint_truncates false ex_env ex_file (ex_kernel []) 50 (AInt 50)).
  - apply ex_file_ok.
  - cbn. lia.
  - reflexivity.
  - split; reflexivity.
  - reflexivity.
  - reflexivity.
Defined.

Lemma write_size_mask_witness :
  unixWrite false (zeros 131072) 131072 0 (ex_file, ex_kernel []) = None /\
  exists f' k', unixWrite true (zeros 131072) 131072 0 (ex_file, ex_kernel []) = Some (SQLITE_FULL, (f', k')) /\
    data k' = ex_bytes 100.
Proof.
  apply (write_size_mask ex_file (ex_kernel []) (zeros 131072) 0).
  - reflexivity.
  - lia.
  - apply len_zeros. lia.
  - reflexivity.
Defined.
