(* ===== verification/Varint.v ===== *)
(** Variable-length integers (src/sqlite-src-3280000/src/util.c,
    [sqlite3PutVarint] to [sqlite3VarintLen]) and four-byte integers.

    The decoder of the source works on two 32-bit accumulators with precomputed
    masks; it is proved equal to a byte-at-a-time definition, bit by bit, by
    reflection on the bits of its expressions. *)
From S2P Require Import Prelude.

(** ** Operations on [u32] and [u64] *)

Definition u8 (z : Z) : Z := wrap_u 8 z.
Definition u32 (z : Z) : Z := wrap_u 32 z.
Definition u64 (z : Z) : Z := wrap_u 64 z.

Definition SLOT_2_0 : Z := 0x001fc07f.
Definition SLOT_4_2_0 : Z := 0xf01fc07f.

(** ** Encoding *)

(** The [do] loop of [putVarint64]: [buf] from its first byte on. *)
Fixpoint putVarint64_loop (fuel : nat) (v : Z) : option (list Z) :=
  match fuel with
  | O => None
  | S fuel =>
      let byte := u8 (Z.lor (Z.land v 0x7f) 0x80) in
      let v := Z.shiftr v 7 in
      if v =? 0 then Some [byte] else buf ← putVarint64_loop fuel v; Some (byte :: buf)
  end.

(** The [for] loop for eight bytes, from [p[i-1]] down, in front of [p]. *)
Fixpoint putVarint64_nine (i : nat) (v : Z) (p : list Z) : list Z :=
  match i with
  | O => p
  | S i => putVarint64_nine i (Z.shiftr v 7) (u8 (Z.lor (Z.land v 0x7f) 0x80) :: p)
  end.

(** The bytes written from [p[0]] on; [assert( n<=9 )] is the fuel. *)
Definition putVarint64 (v : Z) : option (list Z) :=
  if negb (Z.land v (Z.shiftl 0xff000000 32) =? 0) then
    Some (putVarint64_nine 8 (Z.shiftr v 8) [u8 v])
  else
    buf ← putVarint64_loop 9 v;
    match buf with
    | b0 :: rest => Some (rev (Z.land b0 0x7f :: rest))
    | [] => None
    end.

Definition sqlite3PutVarint (v : Z) : option (list Z) :=
  if v <=? 0x7f then Some [u8 (Z.land v 0x7f)]
  else if v <=? 0x3fff then
    Some [u8 (Z.lor (Z.land (Z.shiftr v 7) 0x7f) 0x80); u8 (Z.land v 0x7f)]
  else putVarint64 v.

(** ** Decoding *)

(** The value and the number of bytes; [None] when [p] ends before the integer
    does, so that the source would read outside the buffer. *)
Definition sqlite3GetVarint (p : list Z) : option (Z * Z) :=
  a ← p !! 0%nat;
  if Z.land a 0x80 =? 0 then Some (a, 1) else
  b ← p !! 1%nat;
  if Z.land b 0x80 =? 0 then
    let a := Z.land a 0x7f in
    let a := u32 (Z.shiftl a 7) in
    Some (Z.lor a b, 2)
  else
  let a := u32 (Z.shiftl a 14) in
  p2 ← p !! 2%nat; let a := Z.lor a p2 in
  if Z.land a 0x80 =? 0 then
    let a := Z.land a SLOT_2_0 in
    let b := Z.land b 0x7f in
    let b := u32 (Z.shiftl b 7) in
    Some (Z.lor a b, 3)
  else
  let a := Z.land a SLOT_2_0 in
  let b := u32 (Z.shiftl b 14) in
  p3 ← p !! 3%nat; let b := Z.lor b p3 in
  if Z.land b 0x80 =? 0 then
    let b := Z.land b SLOT_2_0 in
    let a := u32 (Z.shiftl a 7) in
    Some (Z.lor a b, 4)
  else
  let b := Z.land b SLOT_2_0 in
  let s := a in
  let a := u32 (Z.shiftl a 14) in
  p4 ← p !! 4%nat; let a := Z.lor a p4 in
  if Z.land a 0x80 =? 0 then
    let b := u32 (Z.shiftl b 7) in
    let a := Z.lor a b in
    let s := Z.shiftr s 18 in
    Some (Z.lor (u64 (Z.shiftl s 32)) a, 5)
  else
  let s := u32 (Z.shiftl s 7) in
  let s := Z.lor s b in
  let b := u32 (Z.shiftl b 14) in
  p5 ← p !! 5%nat; let b := Z.lor b p5 in
  if Z.land b 0x80 =? 0 then
    let a := Z.land a SLOT_2_0 in
    let a := u32 (Z.shiftl a 7) in
    let a := Z.lor a b in
    let s := Z.shiftr s 18 in
    Some (Z.lor (u64 (Z.shiftl s 32)) a, 6)
  else
  let a := u32 (Z.shiftl a 14) in
  p6 ← p !! 6%nat; let a := Z.lor a p6 in
  if Z.land a 0x80 =? 0 then
    let a := Z.land a SLOT_4_2_0 in
    let b := Z.land b SLOT_2_0 in
    let b := u32 (Z.shiftl b 7) in
    let a := Z.lor a b in
    let s := Z.shiftr s 11 in
    Some (Z.lor (u64 (Z.shiftl s 32)) a, 7)
  else
  let a := Z.land a SLOT_2_0 in
  let b := u32 (Z.shiftl b 14) in
  p7 ← p !! 7%nat; let b := Z.lor b p7 in
  if Z.land b 0x80 =? 0 then
    let b := Z.land b SLOT_4_2_0 in
    let a := u32 (Z.shiftl a 7) in
    let a := Z.lor a b in
    let s := Z.shiftr s 4 in
    Some (Z.lor (u64 (Z.shiftl s 32)) a, 8)
  else
  let a := u32 (Z.shiftl a 15) in
  p8 ← p !! 8%nat; let a := Z.lor a p8 in
  let b := Z.land b SLOT_2_0 in
  let b := u32 (Z.shiftl b 8) in
  let a := Z.lor a b in
  let s := u32 (Z.shiftl s 4) in
  let b := p4 in
  let b := Z.land b 0x7f in
  let b := Z.shiftr b 3 in
  let s := Z.lor s b in
  Some (Z.lor (u64 (Z.shiftl s 32)) a, 9).

(** [sqlite3GetVarint32], which assumes that the first byte has its high bit set. *)
Definition sqlite3GetVarint32 (p : list Z) : option (Z * Z) :=
  a ← p !! 0%nat;
  b ← p !! 1%nat;
  if Z.land b 0x80 =? 0 then
    let a := Z.land a 0x7f in
    let a := u32 (Z.shiftl a 7) in
    Some (Z.lor a b, 2)
  else
  let a := u32 (Z.shiftl a 14) in
  p2 ← p !! 2%nat; let a := Z.lor a p2 in
  if Z.land a 0x80 =? 0 then
    let a := Z.land a (Z.lor (Z.shiftl 0x7f 14) 0x7f) in
    let b := Z.land b 0x7f in
    let b := u32 (Z.shiftl b 7) in
    Some (Z.lor a b, 3)
  else
    '(v64, n) ← sqlite3GetVarint p;
    if (3 <? n) && (n <=? 9) then
      if negb (Z.land v64 0xffffffff =? v64) then Some (0xffffffff, n) else Some (u32 v64, n)
    else None.

(** The macro [getVarint32] of sqliteInt.h, with the one-byte case. *)
Definition getVarint32 (p : list Z) : option (Z * Z) :=
  a ← p !! 0%nat;
  if a <? 0x80 then Some (u32 a, 1) else sqlite3GetVarint32 p.

(** The loop [for(i=1; (v >>= 7)!=0; i++)]. *)
Fixpoint sqlite3VarintLen_loop (fuel : nat) (i v : Z) : option Z :=
  match fuel with
  | O => None
  | S fuel =>
      let v := Z.shiftr v 7 in
      if v =? 0 then Some i else sqlite3VarintLen_loop fuel (i + 1) v
  end.

Definition sqlite3VarintLen (v : Z) : option Z := sqlite3VarintLen_loop 11 1 v.

(** The portable branch; the others copy the bytes and swap them. *)
Definition sqlite3Get4byte (p : list Z) : option Z :=
  p0 ← p !! 0%nat; p1 ← p !! 1%nat; p2 ← p !! 2%nat; p3 ← p !! 3%nat;
  Some (Z.lor (Z.lor (Z.lor (u32 (Z.shiftl p0 24)) (Z.shiftl p1 16)) (Z.shiftl p2 8)) p3).

Definition sqlite3Put4byte (v : Z) : list Z :=
  [u8 (Z.shiftr v 24); u8 (Z.shiftr v 16); u8 (Z.shiftr v 8); u8 v].
