(* ===== verification/VarintSpec.v ===== *)
(** Variable-length integers: the unrolled decoder of [Varint] is the byte-at-a-time
    one, and decoding inverts encoding for every 64-bit value. *)
From S2P Require Import Prelude Varint.

(** ** The format, byte by byte *)

(** [i] bytes are read, with value [acc]. *)
Fixpoint get_ref (i : nat) (acc : Z) (p : list Z) : option (Z * Z) :=
  match p with
  | [] => None
  | b :: p =>
      if decide (i = 8%nat) then Some (acc * 256 + b, 9)
      else if b <? 128 then Some (acc * 128 + b mod 128, Z.of_nat i + 1)
      else get_ref (S i) (acc * 128 + b mod 128) p
  end.

Definition is_byte (b : Z) : Prop := 0 <= b < 256.

(** ** Reflection on bits *)

(** Expressions over the bytes of the buffer; shifts to the left are cut at a width. *)
Inductive bx :=
  | XByte (i : nat)
  | XAnd (e : bx) (c : Z)
  | XOr (e1 e2 : bx)
  | XShl (e : bx) (k w : nat)
  | XShr (e : bx) (k : nat).

Fixpoint bx_eval (env : nat -> Z) (e : bx) : Z :=
  match e with
  | XByte i => env i
  | XAnd e c => Z.land (bx_eval env e) c
  | XOr e1 e2 => Z.lor (bx_eval env e1) (bx_eval env e2)
  | XShl e k w => wrap_u (Z.of_nat w) (Z.shiftl (bx_eval env e) (Z.of_nat k))
  | XShr e k => Z.shiftr (bx_eval env e) (Z.of_nat k)
  end.

(** The bits [(i, j)], bit [j] of byte [i], of which bit [n] is the disjunction. *)
Fixpoint bx_bit (e : bx) (n : nat) : list (nat * nat) :=
  match e with
  | XByte i => if (n <? 8)%nat then [(i, n)] else []
  | XAnd e c => if Z.testbit c (Z.of_nat n) then bx_bit e n else []
  | XOr e1 e2 => bx_bit e1 n ++ bx_bit e2 n
  | XShl e k w => if (n <? w)%nat && (k <=? n)%nat then bx_bit e (n - k) else []
  | XShr e k => bx_bit e (n + k)
  end.

(** No bit is set from [bx_top e] on. *)
Fixpoint bx_top (e : bx) : nat :=
  match e with
  | XByte i => 8
  | XAnd e c => bx_top e
  | XOr e1 e2 => Nat.max (bx_top e1) (bx_top e2)
  | XShl e k w => w
  | XShr e k => bx_top e
  end.

Definition bits_or (env : nat -> Z) (l : list (nat * nat)) : bool :=
  existsb (fun ij => Z.testbit (env ij.1) (Z.of_nat ij.2)) l.

Lemma wrap_u_testbit w z n : 0 <= w -> 0 <= n -> Z.testbit (wrap_u w z) n = (n <? w) && Z.testbit z n.
Proof.
  intros Hw Hn. unfold wrap_u. destruct (n <? w) eqn:E; bool_to_prop.
  - by rewrite Z.mod_pow2_bits_low.
  - by rewrite Z.mod_pow2_bits_high by lia.
Qed.

Lemma byte_high b n : is_byte b -> 8 <= n -> Z.testbit b n = false.
Proof.
  intros [? ?] Hn. destruct (decide (b = 0)) as [->|]; [apply Z.bits_0|].
  apply Z.bits_above_log2; [lia|]. assert (Z.log2 b < 8) by (apply Z.log2_lt_pow2; lia). lia.
Qed.

Lemma bx_bit_sound env e n :
  (forall i, is_byte (env i)) -> Z.testbit (bx_eval env e) (Z.of_nat n) = bits_or env (bx_bit e n).
Proof.
  intros He. revert n. induction e as [i|e IH c|e1 IH1 e2 IH2|e IH k w|e IH k]; intros n; cbn [bx_eval bx_bit].
  - destruct (n <? 8)%nat eqn:E; cbn.
    + by rewrite orb_false_r.
    + apply Nat.ltb_ge in E. apply byte_high; [done|lia].
  - rewrite Z.land_spec, IH. destruct (Z.testbit c _); [by rewrite andb_true_r|apply andb_false_r].
  - rewrite Z.lor_spec, IH1, IH2. unfold bits_or. by rewrite existsb_app.
  - rewrite wrap_u_testbit, Z.shiftl_spec by lia.
    destruct (n <? w)%nat eqn:E1; [apply Nat.ltb_lt in E1|apply Nat.ltb_ge in E1].
    + rewrite (proj2 (Z.ltb_lt _ _)) by lia. destruct (k <=? n)%nat eqn:E2; cbn [andb].
      * apply Nat.leb_le in E2. rewrite <- IH. f_equal. lia.
      * apply Nat.leb_gt in E2. apply Z.testbit_neg_r. lia.
    + by rewrite (proj2 (Z.ltb_ge _ _)) by lia.
  - rewrite Z.shiftr_spec by lia. rewrite <- IH. f_equal. lia.
Qed.

Lemma bx_top_sound e n : (bx_top e <= n)%nat -> bx_bit e n = [].
Proof.
  revert n. induction e as [i|e IH c|e1 IH1 e2 IH2|e IH k w|e IH k]; intros n; cbn [bx_top bx_bit]; intros Hn.
  - by rewrite (proj2 (Nat.ltb_ge n 8)).
  - rewrite IH by done. by case_bool.
  - by rewrite IH1, IH2 by lia.
  - by rewrite (proj2 (Nat.ltb_ge n w)).
  - apply IH. lia.
Qed.

Definition bx_eqb (e1 e2 : bx) : bool :=
  forallb (fun n => bool_decide (bx_bit e1 n = bx_bit e2 n)) (seq 0 (Nat.max (bx_top e1) (bx_top e2))).

Lemma bx_eqb_sound env e1 e2 :
  (forall i, is_byte (env i)) -> bx_eqb e1 e2 = true -> bx_eval env e1 = bx_eval env e2.
Proof.
  intros He Heq. apply Z.bits_inj'. intros n Hn. rewrite <- (Z2Nat.id n) by done.
  rewrite !bx_bit_sound by done. f_equal. unfold bx_eqb in Heq. rewrite forallb_forall in Heq.
  destruct (decide (Z.to_nat n < Nat.max (bx_top e1) (bx_top e2))%nat) as [Hlt|Hge].
  - specialize (Heq (Z.to_nat n)). rewrite bool_decide_eq_true in Heq. apply Heq. apply in_seq. lia.
  - rewrite !bx_top_sound by lia. done.
Qed.

(** The high bit of a byte in an accumulator. *)
Lemma bx_high_bit env e i :
  (forall i, is_byte (env i)) -> bx_bit e 7 = [(i, 7%nat)] ->
  (Z.land (bx_eval env e) 0x80 =? 0) = (env i <? 128).
Proof.
  intros He Hb. pose proof (bx_bit_sound env e 7 He) as H7. rewrite Hb in H7. cbn in H7.
  rewrite orb_false_r in H7. change (Z.of_nat 7) with 7 in H7.
  assert (Hz : forall x, (Z.land x 0x80 =? 0) = negb (Z.testbit x 7)).
  { intros x. change 0x80 with (2 ^ 7). destruct (Z.testbit x 7) eqn:E; cbn.
    - apply Z.eqb_neq. intros H0. assert (H1 : Z.testbit (Z.land x (2 ^ 7)) 7 = false) by (by rewrite H0, Z.bits_0).
      rewrite Z.land_spec, E in H1. done.
    - apply Z.eqb_eq, Z.bits_inj'. intros n Hn. rewrite Z.land_spec, Z.bits_0, Z.pow2_bits_eqb by lia.
      destruct (7 =? n) eqn:E7; [apply Z.eqb_eq in E7; subst; by rewrite E|apply andb_false_r]. }
  rewrite Hz, H7. destruct (He i) as [Hl Hh].
  assert (Hd : Z.testbit (env i) 7 = (128 <=? env i)).
  { rewrite Z.testbit_odd, Z.shiftr_div_pow2 by lia. change (2 ^ 7) with 128.
    destruct (128 <=? env i) eqn:E; bool_to_prop.
    - replace (env i / 128) with 1; [done|]. apply (Z.div_unique (env i) 128 1 (env i - 128)); lia.
    - rewrite Z.div_small by lia. done. }
  rewrite Hd. destruct (env i <? 128) eqn:E; bool_to_prop.
  - by rewrite (proj2 (Z.leb_gt _ _)).
  - by rewrite (proj2 (Z.leb_le _ _)).
Qed.

(** A byte below 128 is its low seven bits. *)
Fixpoint bx_mask (i : nat) (e : bx) : bx :=
  match e with
  | XByte j => if (i =? j)%nat then XAnd (XByte j) 0x7f else XByte j
  | XAnd e c => XAnd (bx_mask i e) c
  | XOr e1 e2 => XOr (bx_mask i e1) (bx_mask i e2)
  | XShl e k w => XShl (bx_mask i e) k w
  | XShr e k => XShr (bx_mask i e) k
  end.

Lemma land_127 b : Z.land b 0x7f = b mod 128.
Proof. change 0x7f with (Z.ones 7). by rewrite Z.land_ones by lia. Qed.

Lemma bx_mask_eval env i e : 0 <= env i < 128 -> bx_eval env (bx_mask i e) = bx_eval env e.
Proof.
  intros Hi. induction e; cbn [bx_eval bx_mask]; try congruence.
  destruct (i =? i0)%nat eqn:E; [|done]. apply Nat.eqb_eq in E as <-. cbn.
  rewrite land_127. by apply Z.mod_small.
Qed.

(** ** The unrolled decoder *)

Definition buf (p : list Z) (i : nat) : Z := default 0 (p !! i).

Lemma lookup_buf p i : p !! i = if (i <? length p)%nat then Some (buf p i) else None.
Proof.
  unfold buf. destruct (i <? length p)%nat eqn:E.
  - apply Nat.ltb_lt, lookup_lt_is_Some in E as [b ->]. done.
  - apply Nat.ltb_ge in E. by apply lookup_ge_None.
Qed.

Lemma buf_byte p i : Forall is_byte p -> is_byte (buf p i).
Proof.
  intros Hp. unfold buf. destruct (p !! i) as [b|] eqn:E; cbn; [|split; lia].
  by eapply Forall_lookup_1.
Qed.

(** The value of the first [i] bytes, and its expression. *)
Fixpoint racc (p : list Z) (i : nat) : Z :=
  match i with O => 0 | S i => racc p i * 128 + buf p i mod 128 end.

Fixpoint ref_bx (i : nat) : bx :=
  match i with
  | O => XAnd (XByte 0) 0
  | S i => XOr (XShl (ref_bx i) 7 64) (XAnd (XByte i) 0x7f)
  end.

(** Bits that do not overlap. *)
Lemma lor_disjoint k a x : 0 <= k -> 0 <= a -> 0 <= x < 2 ^ k -> Z.lor (a * 2 ^ k) x = a * 2 ^ k + x.
Proof.
  intros Hk Ha Hx. assert (Hd : Z.land (a * 2 ^ k) x = 0).
  { apply Z.bits_inj'. intros n Hn. rewrite Z.land_spec, Z.bits_0.
    destruct (Z.lt_ge_cases n k); [by rewrite Z.mul_pow2_bits_low|].
    replace (Z.testbit x n) with false; [apply andb_false_r|symmetry].
    destruct (decide (x = 0)) as [->|]; [apply Z.bits_0|].
    apply Z.bits_above_log2; [lia|]. assert (Z.log2 x < k) by (apply Z.log2_lt_pow2; lia). lia. }
  by rewrite <- Z.lxor_lor, <- Z.add_nocarry_lxor.
Qed.

(** Appending [k] bits to a number that leaves room for them. *)
Lemma append_bits acc x k :
  0 <= k -> 0 <= acc < 2 ^ (64 - k) -> k <= 64 -> 0 <= x < 2 ^ k ->
  Z.lor (wrap_u 64 (Z.shiftl acc k)) x = acc * 2 ^ k + x.
Proof.
  intros Hk Ha Hk2 Hx. pose proof (Z.pow_pos_nonneg 2 k ltac:(lia) Hk).
  assert (Hp : 2 ^ 64 = 2 ^ (64 - k) * 2 ^ k) by (rewrite <- Z.pow_add_r by lia; f_equal; lia).
  rewrite Z.shiftl_mul_pow2, wrap_u_id by (try lia; unfold in_u; nia).
  apply lor_disjoint; lia.
Qed.

Lemma racc_bx p i :
  Forall is_byte p -> (i <= 8)%nat ->
  racc p i = bx_eval (buf p) (ref_bx i) /\ 0 <= racc p i < 2 ^ (7 * Z.of_nat i).
Proof.
  intros Hp. induction i as [|i IH]; intros Hi; [by cbn; rewrite Z.land_0_r|].
  destruct IH as [IH Hr]; [lia|]. cbn [racc ref_bx bx_eval].
  pose proof (Z.mod_pos_bound (buf p i) 128 ltac:(lia)) as Hm. rewrite <- IH, land_127.
  change (Z.of_nat 64) with 64. change (Z.of_nat 7) with 7.
  replace (7 * Z.of_nat (S i)) with (7 * Z.of_nat i + 7) by lia. rewrite Z.pow_add_r by lia.
  change (2 ^ 7) with 128. split; [|lia].
  rewrite append_bits; [done|lia| |lia|done].
  split; [lia|]. apply Z.lt_le_trans with (2 ^ (7 * Z.of_nat i)); [lia|]. apply Z.pow_le_mono_r; lia.
Qed.

Lemma get_ref_step p i :
  get_ref i (racc p i) (drop i p) =
    if (i <? length p)%nat then
      if decide (i = 8%nat) then Some (racc p i * 256 + buf p i, 9)
      else if buf p i <? 128 then Some (racc p (S i), Z.of_nat i + 1)
      else get_ref (S i) (racc p (S i)) (drop (S i) p)
    else None.
Proof.
  destruct (i <? length p)%nat eqn:E.
  - pose proof (lookup_buf p i) as Hl. rewrite E in Hl. by rewrite (drop_S p (buf p i) i Hl).
  - apply Nat.ltb_ge in E. by rewrite drop_ge.
Qed.

Ltac reify_bx p t :=
  lazymatch t with
  | bx_eval _ ?e => e
  | buf p ?i => constr:(XByte i)
  | Z.lor ?a ?b => let x := reify_bx p a in let y := reify_bx p b in constr:(XOr x y)
  | Z.land ?a ?c => let x := reify_bx p a in constr:(XAnd x c)
  | u32 (Z.shiftl ?a ?k) =>
      let x := reify_bx p a in let n := eval compute in (Z.to_nat k) in constr:(XShl x n 32%nat)
  | u64 (Z.shiftl ?a ?k) =>
      let x := reify_bx p a in let n := eval compute in (Z.to_nat k) in constr:(XShl x n 64%nat)
  | Z.shiftr ?a ?k =>
      let x := reify_bx p a in let n := eval compute in (Z.to_nat k) in constr:(XShr x n)
  end.

(** Read byte [i]. *)
Ltac read_byte p i :=
  rewrite (get_ref_step p i); rewrite (lookup_buf p i); destruct (i <? length p)%nat; [|reflexivity];
  rewrite ?decide_False by lia; cbn [mbind option_bind].

(** The equations of [bx_eval], for the operations of the source. *)
Lemma bx_eval_byte p i : bx_eval (buf p) (XByte i) = buf p i.
Proof. reflexivity. Qed.
Lemma bx_eval_or env e1 e2 : bx_eval env (XOr e1 e2) = Z.lor (bx_eval env e1) (bx_eval env e2).
Proof. reflexivity. Qed.
Lemma bx_eval_and env e c : bx_eval env (XAnd e c) = Z.land (bx_eval env e) c.
Proof. reflexivity. Qed.
Lemma bx_eval_shl32 env e k : bx_eval env (XShl e k 32) = u32 (Z.shiftl (bx_eval env e) (Z.of_nat k)).
Proof. reflexivity. Qed.
Lemma bx_eval_shl64 env e k : bx_eval env (XShl e k 64) = u64 (Z.shiftl (bx_eval env e) (Z.of_nat k)).
Proof. reflexivity. Qed.
Lemma bx_eval_shr env e k : bx_eval env (XShr e k) = Z.shiftr (bx_eval env e) (Z.of_nat k).
Proof. reflexivity. Qed.

Ltac bx_equation :=
  rewrite ?bx_eval_or, ?bx_eval_and, ?bx_eval_shl32, ?bx_eval_shl64, ?bx_eval_shr, ?bx_eval_byte;
  repeat (progress rewrite ?bx_eval_or, ?bx_eval_and, ?bx_eval_shl32, ?bx_eval_shl64, ?bx_eval_shr, ?bx_eval_byte);
  reflexivity.

Lemma bx_test p e i a :
  Forall is_byte p -> bx_eval (buf p) e = a -> bx_bit e 7 = [(i, 7%nat)] ->
  (Z.land a 0x80 =? 0) = (buf p i <? 128).
Proof. intros Hp <- Hb. apply bx_high_bit; auto using buf_byte. Qed.

(** The value found when byte [i] ends the integer. *)
Lemma bx_end p e i a :
  Forall is_byte p -> (i < 8)%nat -> (buf p i <? 128) = true -> bx_eval (buf p) e = a ->
  bx_eqb (bx_mask i e) (ref_bx (S i)) = true -> a = racc p (S i).
Proof.
  intros Hp Hi Hb <- Heq. rewrite (proj1 (racc_bx p (S i) Hp ltac:(lia))).
  rewrite <- (bx_mask_eval (buf p) i e).
  - apply bx_eqb_sound; auto using buf_byte.
  - apply Z.ltb_lt in Hb. pose proof (buf_byte p i Hp) as [? ?]. lia.
Qed.

Lemma bx_end_nine p e a :
  Forall is_byte p -> bx_eval (buf p) e = a ->
  bx_eqb e (XOr (XShl (ref_bx 8) 8 64) (XByte 8)) = true -> a = racc p 8 * 256 + buf p 8.
Proof.
  intros Hp <- Heq. destruct (racc_bx p 8 Hp ltac:(lia)) as [Hr Hb].
  change (racc p 8 * 256) with (racc p 8 * 2 ^ 8).
  rewrite <- (append_bits (racc p 8) (buf p 8) 8) by first [lia|exact Hb|by apply buf_byte].
  rewrite Hr. rewrite (bx_eqb_sound (buf p) _ _ (fun i => buf_byte p i Hp) Heq).
  by rewrite bx_eval_or, bx_eval_shl64, bx_eval_byte.
Qed.

(** Test the high bit of byte [i] in the accumulator of the goal, and finish if
    it is clear. *)
Ltac test_high p i Hp :=
  lazymatch goal with
  | |- context [Z.land ?a 0x80 =? 0] =>
      let e := reify_bx p a in
      rewrite (bx_test p e i a Hp ltac:(bx_equation) eq_refl)
  end;
  let Hb := fresh in
  destruct (buf p i <? 128) eqn:Hb;
  [lazymatch goal with
   | |- Some (?a, _) = _ =>
      let e := reify_bx p a in
      f_equal; f_equal; apply (bx_end p e i a Hp); [lia|exact Hb|bx_equation|vm_compute; reflexivity]
   end|clear Hb].

Lemma getVarint_ref p : Forall is_byte p -> sqlite3GetVarint p = get_ref 0 0 p.
Proof.
  intros Hp. change (get_ref 0 0 p) with (get_ref 0 (racc p 0) (drop 0 p)).
  unfold sqlite3GetVarint. cbv zeta.
  read_byte p 0%nat. test_high p 0%nat Hp.
  read_byte p 1%nat. test_high p 1%nat Hp.
  read_byte p 2%nat. test_high p 2%nat Hp.
  read_byte p 3%nat. test_high p 3%nat Hp.
  read_byte p 4%nat. test_high p 4%nat Hp.
  read_byte p 5%nat. test_high p 5%nat Hp.
  read_byte p 6%nat. test_high p 6%nat Hp.
  read_byte p 7%nat. test_high p 7%nat Hp.
  read_byte p 8%nat. rewrite decide_True by done.
  lazymatch goal with
  | |- Some (?a, _) = _ =>
      let e := reify_bx p a in
      f_equal; f_equal; apply (bx_end_nine p e a Hp); [bx_equation|vm_compute; reflexivity]
  end.
Qed.

(** C40: The unrolled decoder with its two accumulators is the byte-at-a-time
    definition of the format, on every buffer: same value, same length, and it
    reads past the end of the buffer exactly when the integer is incomplete. *)
Theorem getVarint_equiv p : Forall is_byte p -> sqlite3GetVarint p = get_ref 0 0 p.
Proof. apply getVarint_ref. Qed.

(** ** Encoding *)

Lemma flag_byte v : u8 (Z.lor (Z.land v 0x7f) 0x80) = v mod 128 + 128.
Proof.
  rewrite land_127. pose proof (Z.mod_pos_bound v 128 ltac:(lia)) as Hm.
  rewrite Z.lor_comm.
  change (Z.lor 0x80 (v mod 128)) with (Z.lor (wrap_u 64 (Z.shiftl 1 7)) (v mod 128)).
  rewrite (append_bits 1 (v mod 128) 7 ltac:(lia) ltac:(lia) ltac:(lia) Hm).
  change (2 ^ 7) with 128. unfold u8.
  rewrite wrap_u_id; [lia|]. unfold in_u. change (2 ^ 8) with 256. lia.
Qed.

Lemma flag_byte_mod d : 0 <= d < 128 -> (d + 128) mod 128 = d.
Proof. intros. rewrite <- Z.add_mod_idemp_r by lia. change (128 mod 128) with 0. rewrite Z.add_0_r. by apply Z.mod_small. Qed.

Definition low7 (d : Z) : Prop := 0 <= d < 128.

(** The value of base-128 digits, the first one the most significant. *)
Definition digits_value (acc : Z) (ds : list Z) : Z := fold_left (fun a d => a * 128 + d) ds acc.

Lemma get_ref_digits ds last rest i acc :
  Forall low7 ds -> low7 last -> (i + length ds < 8)%nat ->
  get_ref i acc (((fun d => d + 128) <$> ds) ++ last :: rest)
    = Some (digits_value acc (ds ++ [last]), Z.of_nat (i + length ds) + 1).
Proof.
  intros Hd. revert i acc. induction Hd as [|d ds Hd0 Hd IH]; intros i acc Hl Hi.
  - cbn in *. rewrite decide_False by lia. rewrite (proj2 (Z.ltb_lt _ _)) by apply Hl.
    rewrite (Z.mod_small last) by apply Hl. do 3 f_equal. lia.
  - cbn [fmap list_fmap app get_ref] in *. cbn in Hi. rewrite decide_False by lia.
    rewrite (proj2 (Z.ltb_ge _ _)) by (destruct Hd0; lia). rewrite flag_byte_mod by done.
    rewrite IH by (done || lia). cbn. do 3 f_equal. lia.
Qed.

(** The loop gives the digits of [v], the least significant first, and as many as
    [sqlite3VarintLen] counts. *)
Lemma putVarint64_loop_spec fuel v :
  0 <= v < 2 ^ (7 * Z.of_nat fuel) -> (0 < fuel)%nat ->
  exists d ds, putVarint64_loop fuel v = Some ((fun d => d + 128) <$> d :: ds) /\
    Forall low7 (d :: ds) /\ (length (d :: ds) <= fuel)%nat /\
    (forall acc, digits_value acc (rev (d :: ds)) = acc * 128 ^ Z.of_nat (length (d :: ds)) + v) /\
    forall f i, (fuel <= f)%nat -> sqlite3VarintLen_loop f i v = Some (i + Z.of_nat (length ds)).
Proof.
  revert v. induction fuel as [|fuel IH]; intros v Hv Hf; [lia|]. cbn [putVarint64_loop].
  rewrite flag_byte, Z.shiftr_div_pow2 by lia. change (2 ^ 7) with 128.
  pose proof (Z.mod_pos_bound v 128 ltac:(lia)) as Hm. pose proof (Z.div_mod v 128 ltac:(lia)) as Hdm.
  destruct (v / 128 =? 0) eqn:Hz; bool_to_prop.
  - exists (v mod 128), []. split_and!; [done|by apply Forall_singleton|cbn; lia| |].
    + intros acc. cbn. change (128 ^ 1) with 128. lia.
    + intros [|f] i Hfi; [lia|]. cbn. rewrite Z.shiftr_div_pow2 by lia. change (2 ^ 7) with 128.
      rewrite Hz. cbn. f_equal. lia.
  - destruct fuel as [|fuel]; [change (7 * Z.of_nat 1) with 7 in Hv; rewrite Z.div_small in Hz; lia|].
    destruct (IH (v / 128)) as (d & ds & Hl & Hds & Hlen & Hval & Hcnt); [|lia|].
    { split; [apply Z.div_pos; lia|]. apply Z.div_lt_upper_bound; [lia|].
      replace (7 * Z.of_nat (S (S fuel))) with (7 + 7 * Z.of_nat (S fuel)) in Hv by lia.
      rewrite Z.pow_add_r in Hv by lia. exact (proj2 Hv). }
    exists (v mod 128), (d :: ds). rewrite Hl. split_and!; [done|by constructor|cbn in *; lia| |].
    + intros acc. cbn [rev]. unfold digits_value in *. rewrite fold_left_app. cbn [fold_left] in *.
      cbn [rev] in Hval. rewrite Hval. cbn [length].
      replace (Z.of_nat (S (S (length ds)))) with (Z.of_nat (S (length ds)) + 1) by lia.
      rewrite Z.pow_add_r by lia. change (128 ^ 1) with 128. lia.
    + intros [|f] i Hfi; [lia|]. cbn [sqlite3VarintLen_loop]. rewrite Z.shiftr_div_pow2 by lia.
      change (2 ^ 7) with 128. rewrite (proj2 (Z.eqb_neq _ 0)) by done.
      rewrite Hcnt by lia. cbn [length]. f_equal. lia.
Qed.

Lemma putVarint64_nine_spec i j w p rest acc :
  (i <= j)%nat -> (j <= 8)%nat ->
  get_ref (j - i) acc (putVarint64_nine i w p ++ rest)
    = get_ref j (acc * 128 ^ Z.of_nat i + w mod 128 ^ Z.of_nat i) (p ++ rest).
Proof.
  revert j w p. induction i as [|i IH]; intros j w p Hij Hj; cbn [putVarint64_nine].
  { rewrite Z.mod_1_r, Nat.sub_0_r. f_equal. lia. }
  destruct j as [|j]; [lia|]. cbn [Nat.sub]. rewrite IH by lia. cbn [app get_ref].
  rewrite decide_False by lia. rewrite flag_byte. pose proof (Z.mod_pos_bound w 128 ltac:(lia)).
  rewrite (proj2 (Z.ltb_ge _ _)) by lia. rewrite flag_byte_mod by done. f_equal.
  rewrite Z.shiftr_div_pow2 by lia. change (2 ^ 7) with 128.
  replace (Z.of_nat (S i)) with (1 + Z.of_nat i) by lia. rewrite Z.pow_add_r by lia. change (128 ^ 1) with 128.
  rewrite (Z.rem_mul_r w 128) by (try lia; apply Z.pow_nonzero; lia). lia.
Qed.

Definition is_u64 (v : Z) : Prop := 0 <= v < 2 ^ 64.

Lemma big_test v : is_u64 v -> (Z.land v (Z.shiftl 0xff000000 32) =? 0) = (v <? 2 ^ 56).
Proof.
  intros [H0 H1]. assert (Hl : Z.land v (Z.shiftl 0xff000000 32) = Z.shiftl (Z.shiftr v 56) 56).
  { change (Z.shiftl 0xff000000 32) with (Z.shiftl (Z.ones 8) 56).
    apply Z.bits_inj'. intros n Hn. rewrite Z.land_spec, !Z.shiftl_spec by lia.
    destruct (Z.lt_ge_cases n 56).
    - rewrite !(Z.testbit_neg_r _ (n - 56)) by lia. apply andb_false_r.
    - rewrite Z.shiftr_spec by lia. replace (n - 56 + 56) with n by lia.
      destruct (Z.lt_ge_cases n 64).
      + rewrite Z.ones_spec_low by lia. apply andb_true_r.
      + rewrite Z.ones_spec_high by lia. rewrite andb_false_r. symmetry.
        destruct (decide (v = 0)) as [->|]; [apply Z.bits_0|]. apply Z.bits_above_log2; [lia|].
        assert (Z.log2 v < 64) by (apply Z.log2_lt_pow2; lia). lia. }
  rewrite Hl, Z.shiftl_mul_pow2, Z.shiftr_div_pow2 by lia. set (M := 2 ^ 56).
  assert (HM : 0 < M) by (unfold M; lia).
  destruct (v <? M) eqn:E; bool_to_prop; [by rewrite Z.div_small by lia|].
  apply Z.eqb_neq. assert (1 <= v / M) by (apply Z.div_le_lower_bound; lia). nia.
Qed.

(** The count of [sqlite3VarintLen] is that of the 7-bit groups. *)
Lemma VarintLen_loop_spec k f i v :
  (k < f)%nat -> (if decide (k = 0%nat) then 0 else 2 ^ (7 * Z.of_nat k)) <= v < 2 ^ (7 * Z.of_nat (S k)) ->
  sqlite3VarintLen_loop f i v = Some (i + Z.of_nat k).
Proof.
  revert f i v. induction k as [|k IH]; intros [|f] i v Hf Hv; try lia; cbn [sqlite3VarintLen_loop];
    rewrite Z.shiftr_div_pow2 by lia; change (2 ^ 7) with 128.
  - rewrite decide_True in Hv by done. change (2 ^ _) with 128 in Hv. rewrite Z.div_small by lia. cbn. f_equal. lia.
  - rewrite decide_False in Hv by done.
    replace (7 * Z.of_nat (S (S k))) with (7 + 7 * Z.of_nat (S k)) in Hv by lia.
    replace (7 * Z.of_nat (S k)) with (7 + 7 * Z.of_nat k) in Hv at 1 by lia.
    rewrite !Z.pow_add_r in Hv by lia. change (2 ^ 7) with 128 in Hv.
    pose proof (Z.pow_pos_nonneg 2 (7 * Z.of_nat k) ltac:(lia) ltac:(lia)).
    assert (Hlo : 2 ^ (7 * Z.of_nat k) <= v / 128) by (apply Z.div_le_lower_bound; lia).
    assert (Hhi : v / 128 < 2 ^ (7 * Z.of_nat (S k))) by (apply Z.div_lt_upper_bound; lia).
    rewrite (proj2 (Z.eqb_neq _ 0)) by lia. rewrite IH; [f_equal; lia|lia|]. case_decide; lia.
Qed.

Definition put_bytes (d : Z) (ds : list Z) : list Z := ((fun d => d + 128) <$> rev ds) ++ [d].

Lemma putVarint64_small v :
  is_u64 v -> v < 2 ^ 56 -> exists d ds, Forall low7 (d :: ds) /\ (length (d :: ds) <= 8)%nat /\
    digits_value 0 (rev (d :: ds)) = v /\ sqlite3VarintLen v = Some (Z.of_nat (length (d :: ds))) /\
    putVarint64 v = Some (put_bytes d ds).
Proof.
  intros Hv Hs. pose proof Hv as [H0 _].
  destruct (putVarint64_loop_spec 8 v) as (d & ds & _ & _ & Hn & _ & Hc); [split; [done|exact Hs]|lia|].
  destruct (putVarint64_loop_spec 9 v) as (d' & ds' & Hl' & Hd' & _ & Hval' & Hc');
    [split; [done|]; apply Z.lt_le_trans with (2 ^ 56); [done|apply Z.pow_le_mono_r; lia]|lia|].
  exists d', ds'. specialize (Hc 11%nat 1 ltac:(lia)). specialize (Hc' 11%nat 1 ltac:(lia)).
  rewrite Hc in Hc'. injection Hc' as Hlen. split_and!; [done|cbn in *; lia|rewrite Hval'; lia| |].
  - unfold sqlite3VarintLen. rewrite Hc. cbn [length]. f_equal. lia.
  - unfold putVarint64. rewrite big_test by done. rewrite (proj2 (Z.ltb_lt _ _)) by done. cbn [negb].
    rewrite Hl'. cbn [mbind option_bind fmap list_fmap]. f_equal. cbn [rev]. rewrite land_127.
    inversion_clear Hd' as [|? ? Hd0 Hds]. rewrite flag_byte_mod by done. unfold put_bytes. f_equal.
    symmetry. apply map_rev.
Qed.

Lemma putVarint64_nine_bytes i w p :
  Forall is_byte p -> Forall is_byte (putVarint64_nine i w p) /\
  length (putVarint64_nine i w p) = (i + length p)%nat.
Proof.
  revert w p. induction i as [|i IH]; intros w p Hp; cbn [putVarint64_nine]; [done|].
  destruct (IH (Z.shiftr w 7) (u8 (Z.lor (Z.land w 127) 128) :: p)) as [IH1 IH2].
  - constructor; [|done]. rewrite flag_byte. pose proof (Z.mod_pos_bound w 128 ltac:(lia)). split; lia.
  - split; [done|]. rewrite IH2. cbn. lia.
Qed.

(** What is written: bytes that decode to [v], as many as [sqlite3VarintLen] says
    below 2^63. *)
Definition put_ok (v : Z) (bs : list Z) : Prop :=
  Forall is_byte bs /\ (1 <= length bs <= 9)%nat /\
  (forall rest, get_ref 0 0 (bs ++ rest) = Some (v, Z.of_nat (length bs))) /\
  sqlite3VarintLen v = Some (if v <? 2 ^ 63 then Z.of_nat (length bs) else 10).

Lemma put_small v d ds :
  Forall low7 (d :: ds) -> (length (d :: ds) <= 8)%nat -> digits_value 0 (rev (d :: ds)) = v ->
  sqlite3VarintLen v = Some (Z.of_nat (length (d :: ds))) -> v < 2 ^ 56 -> put_ok v (put_bytes d ds).
Proof.
  intros Hd Hn Hval Hc Hv. inversion Hd as [|? ? Hd0 Hds]; subst. cbn in Hn.
  assert (Hr : Forall low7 (rev ds)) by (by apply Forall_rev).
  assert (Hl : length (put_bytes d ds) = length (d :: ds)).
  { unfold put_bytes. rewrite length_app, length_fmap, length_rev. cbn. lia. }
  unfold put_ok. rewrite Hl. split_and!.
  - unfold put_bytes. apply Forall_app. split; [|apply Forall_singleton; destruct Hd0; split; lia].
    apply Forall_fmap. eapply Forall_impl; [exact Hr|]. intros x [? ?]. split; cbn; lia.
  - cbn. lia.
  - cbn. lia.
  - intros rest. unfold put_bytes. rewrite <- app_assoc. cbn [app].
    rewrite get_ref_digits by (try done; rewrite length_rev; lia). rewrite length_rev. cbn [rev length].
    do 2 f_equal. lia.
  - rewrite Hc, (proj2 (Z.ltb_lt _ _)); [done|]. apply Z.lt_trans with (2 ^ 56); [done|by apply Z.pow_lt_mono_r].
Qed.

Lemma put_large v : is_u64 v -> 2 ^ 56 <= v -> exists bs, putVarint64 v = Some bs /\ put_ok v bs.
Proof.
  intros Hv Hb. pose proof Hv as [H0 H1]. exists (putVarint64_nine 8 (Z.shiftr v 8) [u8 v]). split.
  { unfold putVarint64. rewrite big_test by done. by rewrite (proj2 (Z.ltb_ge _ _)). }
  assert (Hu : is_byte (u8 v)) by (apply (wrap_u_range 8); lia).
  destruct (putVarint64_nine_bytes 8 (Z.shiftr v 8) [u8 v]) as [Hby Hl]; [by apply Forall_singleton|].
  unfold put_ok. rewrite Hl. split_and!; [done|cbn; lia|cbn; lia| |].
  - intros rest. pose proof (putVarint64_nine_spec 8 8 (Z.shiftr v 8) [u8 v] rest 0 ltac:(lia) ltac:(lia)) as Hs.
    cbn [Nat.sub] in Hs. rewrite Hs. cbn [app get_ref]. rewrite decide_True by done.
    rewrite Z.shiftr_div_pow2 by lia. change (128 ^ Z.of_nat 8) with (2 ^ 56).
    assert (Hd : v / 2 ^ 8 < 2 ^ 56) by (apply Z.div_lt_upper_bound; [lia|exact H1]).
    rewrite (Z.mod_small (v / 2 ^ 8)) by (split; [apply Z.div_pos; lia|done]).
    do 2 f_equal. unfold u8, wrap_u. change 256 with (2 ^ 8).
    pose proof (Z.div_mod v (2 ^ 8) ltac:(lia)). lia.
  - unfold sqlite3VarintLen. destruct (v <? 2 ^ 63) eqn:E; bool_to_prop.
    + by apply (VarintLen_loop_spec 8 11 1 v); [lia|split; [exact Hb|exact E]].
    + apply (VarintLen_loop_spec 9 11 1 v); [lia|]. split; [exact E|]. apply Z.lt_trans with (2 ^ 64); [done|].
      by apply Z.pow_lt_mono_r.
Qed.

(** The short cases of [sqlite3PutVarint] agree with the general routine. *)
Lemma put_fast v : 0 <= v -> sqlite3PutVarint v = putVarint64 v.
Proof.
  intros H0. unfold sqlite3PutVarint. destruct (v <=? 0x7f) eqn:E1; [|destruct (v <=? 0x3fff) eqn:E2; [|done]].
  all: bool_to_prop; unfold putVarint64; rewrite big_test by (split; lia).
  all: rewrite (proj2 (Z.ltb_lt _ _)) by lia; cbn [negb putVarint64_loop].
  all: rewrite !flag_byte, !land_127, ?Z.shiftr_div_pow2 by lia; change (2 ^ 7) with 128.
  - rewrite Z.div_small by lia. cbn [Z.eqb mbind option_bind rev app]. do 2 f_equal.
    rewrite land_127, flag_byte_mod by (apply Z.mod_pos_bound; lia). rewrite Z.mod_small by lia.
    apply wrap_u_id. unfold in_u. change (2 ^ 8) with 256. lia.
  - rewrite (proj2 (Z.eqb_neq (v / 128) 0)) by (assert (1 <= v / 128) by (apply Z.div_le_lower_bound; lia); lia).
    rewrite (Z.div_small (v / 128) 128) by (split; [apply Z.div_pos; lia|apply Z.div_lt_upper_bound; lia]).
    cbn [Z.eqb mbind option_bind rev app]. do 3 f_equal.
    rewrite land_127, flag_byte_mod by (apply Z.mod_pos_bound; lia).
    pose proof (Z.mod_pos_bound v 128 ltac:(lia)). f_equal. apply wrap_u_id. unfold in_u.
    change (2 ^ 8) with 256. lia.
Qed.

Lemma putVarint_spec v : is_u64 v -> exists bs, sqlite3PutVarint v = Some bs /\ put_ok v bs.
Proof.
  intros Hv. rewrite put_fast by apply Hv. destruct (Z.lt_ge_cases v (2 ^ 56)) as [Hs|Hb]; [|by apply put_large].
  destruct (putVarint64_small v Hv Hs) as (d & ds & ? & ? & ? & ? & Hp). rewrite Hp. eexists. split; [done|].
  by apply put_small.
Qed.

(** C39: Round trip.  Every unsigned 64-bit integer is written in one to nine
    bytes, which are decoded to the same integer and length, whatever follows
    them in the buffer. *)
Theorem varint_roundtrip v :
  is_u64 v -> exists bs, sqlite3PutVarint v = Some bs /\ (1 <= length bs <= 9)%nat /\
    forall rest, Forall is_byte rest -> sqlite3GetVarint (bs ++ rest) = Some (v, Z.of_nat (length bs)).
Proof.
  intros Hv. destruct (putVarint_spec v Hv) as (bs & Hp & Hby & Hl & Hg & _). exists bs. split; [done|].
  split; [done|]. intros rest Hr. rewrite getVarint_ref by (by apply Forall_app). apply Hg.
Qed.

(** [sqlite3VarintLen] is the number of bytes that [sqlite3PutVarint] writes
    for every value below 2^63; from 2^63 on it says ten, one more than are
    written, because it does not know the ninth byte's eight bits. *)
Theorem varintLen_correct v bs :
  is_u64 v -> sqlite3PutVarint v = Some bs ->
  sqlite3VarintLen v = Some (if v <? 2 ^ 63 then Z.of_nat (length bs) else 10) /\
  (2 ^ 63 <= v -> length bs = 9%nat).
Proof.
  intros Hv Hp. destruct (putVarint_spec v Hv) as (bs' & Hp' & _ & _ & _ & Hlen).
  rewrite Hp in Hp'. injection Hp' as <-. split; [done|]. intros Hb.
  assert (H56 : 2 ^ 56 <= v) by (apply Z.le_trans with (2 ^ 63); [by apply Z.pow_le_mono_r|done]).
  rewrite put_fast in Hp by apply Hv. unfold putVarint64 in Hp. rewrite big_test in Hp by done.
  rewrite (proj2 (Z.ltb_ge _ _)) in Hp by done. injection Hp as <-.
  by apply (putVarint64_nine_bytes 8 (Z.shiftr v 8) [u8 v]), Forall_singleton, (wrap_u_range 8).
Qed.

(** ** 32-bit integers *)

Lemma get_ref_length p i acc v n :
  Forall is_byte p -> 0 <= acc -> (i <= 8)%nat -> get_ref i acc p = Some (v, n) ->
  Z.of_nat i < n <= 9 /\ 0 <= v.
Proof.
  intros Hp. revert i acc. induction Hp as [|b p [Hb _] Hp IH]; intros i acc Ha Hi; [done|].
  cbn [get_ref]. pose proof (Z.mod_pos_bound b 128 ltac:(lia)). case_decide.
  - intros [= <- <-]. lia.
  - destruct (b <? 128); [intros [= <- <-]; lia|]. intros Hg. apply IH in Hg; [lia|lia|lia].
Qed.

Lemma land_u32 v : 0 <= v -> (Z.land v 0xffffffff =? v) = (v <? 2 ^ 32).
Proof.
  intros Hv. change 0xffffffff with (Z.ones 32). rewrite Z.land_ones by lia.
  pose proof (Z.mod_pos_bound v (2 ^ 32) ltac:(lia)).
  destruct (v <? 2 ^ 32) eqn:E; bool_to_prop; [apply Z.eqb_eq; by apply Z.mod_small|apply Z.eqb_neq; lia].
Qed.

Definition saturate (r : option (Z * Z)) : option (Z * Z) :=
  '(v, n) ← r; Some (Z.min v 0xffffffff, n).

Lemma saturate_small p i n :
  Forall is_byte p -> (i <= 4)%nat -> saturate (Some (racc p i, n)) = Some (racc p i, n).
Proof.
  intros Hp Hi. destruct (racc_bx p i Hp ltac:(lia)) as [_ Hr]. cbn.
  rewrite Z.min_l; [done|]. assert (2 ^ (7 * Z.of_nat i) <= 2 ^ 28) by (apply Z.pow_le_mono_r; lia).
  change (2 ^ 28) with 268435456 in *. lia.
Qed.

Lemma saturate_long p acc :
  Forall is_byte p -> 0 <= acc ->
  ('(v64, n) ← get_ref 3 acc (drop 3 p);
   if (3 <? n) && (n <=? 9) then
     if negb (Z.land v64 0xffffffff =? v64) then Some (0xffffffff, n) else Some (u32 v64, n)
   else None) = saturate (get_ref 3 acc (drop 3 p)).
Proof.
  intros Hp Ha. destruct (get_ref 3 acc (drop 3 p)) as [[v n]|] eqn:Hr; [|done].
  apply get_ref_length in Hr as [Hn Hv]; [|by apply Forall_drop|done|lia].
  cbn [mbind option_bind saturate]. rewrite (proj2 (Z.ltb_lt 3 n)), (proj2 (Z.leb_le n 9)) by lia.
  cbn [andb]. rewrite land_u32 by done. change 0xffffffff with (2 ^ 32 - 1).
  destruct (v <? 2 ^ 32) eqn:E; bool_to_prop; cbn [negb].
  - rewrite Z.min_l by lia. do 2 f_equal. by apply wrap_u_id.
  - by rewrite Z.min_r by lia.
Qed.

Lemma land_high b : is_byte b -> (Z.land b 0x80 =? 0) = (b <? 128).
Proof. intros Hb. by apply (bx_test [b] (XByte 0) 0 b); [apply Forall_singleton| |]. Qed.

(** [getVarint32] is [sqlite3GetVarint] with the value cut to 0xffffffff when
    it does not fit 32 bits, and the same length, on every buffer; the assert on
    the length of the long case holds. *)
Theorem getVarint32_correct p :
  Forall is_byte p -> getVarint32 p = saturate (sqlite3GetVarint p).
Proof.
  intros Hp. rewrite getVarint_ref by done. unfold getVarint32, sqlite3GetVarint32.
  change (get_ref 0 0 p) with (get_ref 0 (racc p 0) (drop 0 p)). cbv zeta.
  assert (Hg := getVarint_ref p Hp). change (get_ref 0 0 p) with (get_ref 0 (racc p 0) (drop 0 p)) in Hg.
  rewrite (get_ref_step p 0) in Hg |- *. rewrite (lookup_buf p 0).
  destruct (0 <? length p)%nat; [|done]. rewrite decide_False in Hg |- * by done. cbn [mbind option_bind].
  destruct (buf p 0 <? 128) eqn:H0; bool_to_prop.
  { rewrite saturate_small by (done || lia). cbn [racc]. do 2 f_equal.
    pose proof (buf_byte p 0 Hp) as [? ?]. rewrite Z.mod_small by lia. unfold u32.
    rewrite wrap_u_id; [lia|]. unfold in_u. change (2 ^ 32) with 4294967296. lia. }
  rewrite (get_ref_step p 1) in Hg |- *. rewrite (lookup_buf p 1).
  destruct (1 <? length p)%nat; [|done]. rewrite decide_False in Hg |- * by done. cbn [mbind option_bind].
  rewrite land_high by (by apply buf_byte). destruct (buf p 1 <? 128) eqn:H1.
  { rewrite saturate_small by (done || lia). do 2 f_equal.
    apply (bx_end p (XOr (XShl (XAnd (XByte 0) 127) 7 32) (XByte 1)) 1); [done|lia|done|bx_equation|].
    vm_compute. reflexivity. }
  rewrite (get_ref_step p 2) in Hg |- *. rewrite (lookup_buf p 2).
  destruct (2 <? length p)%nat; [|done]. rewrite decide_False in Hg |- * by done. cbn [mbind option_bind].
  rewrite (bx_test p (XOr (XShl (XByte 0) 14 32) (XByte 2)) 2
    (Z.lor (u32 (Z.shiftl (buf p 0) 14)) (buf p 2)) Hp ltac:(bx_equation) eq_refl).
  destruct (buf p 2 <? 128) eqn:H2.
  { rewrite saturate_small by (done || lia). do 2 f_equal.
    apply (bx_end p (XOr (XAnd (XOr (XShl (XByte 0) 14 32) (XByte 2)) (Z.lor (Z.shiftl 127 14) 127))
      (XShl (XAnd (XByte 1) 127) 7 32)) 2); [done|lia|done|bx_equation|]. vm_compute. reflexivity. }
  rewrite Hg. apply saturate_long; [done|]. apply (racc_bx p 3 Hp). lia.
Qed.

Lemma bytes4_value p0 p1 p2 p3 :
  is_byte p0 -> is_byte p1 -> is_byte p2 -> is_byte p3 ->
  Z.lor (Z.lor (Z.lor (u32 (Z.shiftl p0 24)) (Z.shiftl p1 16)) (Z.shiftl p2 8)) p3
    = p0 * 16777216 + p1 * 65536 + p2 * 256 + p3.
Proof.
  intros [? ?] [? ?] [? ?] [? ?]. rewrite !Z.shiftl_mul_pow2 by lia.
  unfold u32. rewrite wrap_u_id by (unfold in_u; change (2 ^ 32) with 4294967296; change (2 ^ 24) with 16777216; lia).
  rewrite (lor_disjoint 24) by (try lia; change (2 ^ 24) with 16777216; change (2 ^ 16) with 65536; lia).
  replace (p0 * 2 ^ 24 + p1 * 2 ^ 16) with ((p0 * 256 + p1) * 2 ^ 16) by lia.
  rewrite (lor_disjoint 16) by (try lia; change (2 ^ 16) with 65536; change (2 ^ 8) with 256; lia).
  replace ((p0 * 256 + p1) * 2 ^ 16 + p2 * 2 ^ 8) with (((p0 * 256 + p1) * 256 + p2) * 2 ^ 8) by lia.
  rewrite (lor_disjoint 8) by (try lia; change (2 ^ 8) with 256; lia). lia.
Qed.

(** Four-byte integers: what [sqlite3Put4byte] writes, [sqlite3Get4byte]
    reads back, for every 32-bit value. *)
Theorem put4byte_roundtrip v rest :
  0 <= v < 2 ^ 32 -> Forall is_byte (sqlite3Put4byte v) /\
  sqlite3Get4byte (sqlite3Put4byte v ++ rest) = Some v.
Proof.
  intros Hv. assert (Hb : forall x, is_byte (u8 x)) by (intros x; apply (wrap_u_range 8); lia).
  split; [by repeat apply Forall_cons_2|]. cbn [sqlite3Put4byte sqlite3Get4byte app lookup list_lookup mbind option_bind].
  rewrite bytes4_value by done. unfold u8, wrap_u. rewrite !Z.shiftr_div_pow2 by lia. f_equal.
  change (2 ^ 32) with 4294967296 in Hv.
  change (2 ^ 24) with 16777216. change (2 ^ 16) with 65536. change (2 ^ 8) with 256. 
  assert (H2 : v / 65536 = v / 256 / 256) by (by rewrite Z.div_div).
  assert (H3 : v / 16777216 = v / 256 / 256 / 256) by (by rewrite !Z.div_div).
  rewrite H3, H2, (Z.mod_small (v / 256 / 256 / 256)).
  - pose proof (Z.div_mod v 256 ltac:(lia)). pose proof (Z.div_mod (v / 256) 256 ltac:(lia)).
    pose proof (Z.div_mod (v / 256 / 256) 256 ltac:(lia)). lia.
  - rewrite <- H3. split; [apply Z.div_pos; lia|apply Z.div_lt_upper_bound; lia].
Qed.
