(* ===== verification/Int64.v ===== *)
(** Checked 64-bit arithmetic (src/sqlite-src-3280000/src/util.c,
    [sqlite3AddInt64] to [sqlite3AbsInt32]).

    Each routine has two bodies, chosen by the compiler version: portable C, and
    GCC's overflow builtins.  Signed overflow is undefined in C, so every
    arithmetic step of the portable bodies is checked: [None] is an overflow. *)
From S2P Require Import Prelude.

Definition LARGEST_INT64 : Z := 2 ^ 63 - 1.
Definition SMALLEST_INT64 : Z := - 2 ^ 63.

(** The result of an arithmetic step on [i64]. *)
Definition i64 (z : Z) : option Z := if decide (in_s 64 z) then Some z else None.

(** Division truncates, and division by zero is undefined. *)
Definition div64 (a b : Z) : option Z := if b =? 0 then None else i64 (Z.quot a b).

(** ** The portable bodies: the value returned and the new [*pA] *)

Definition sqlite3AddInt64 (iA iB : Z) : option (Z * Z) :=
  overflow ←
    (if 0 <=? iB then
       if 0 <? iA then d ← i64 (LARGEST_INT64 - iA); Some (d <? iB) else Some false
     else
       if iA <? 0 then
         s ← i64 (iA + LARGEST_INT64); n ← i64 (- s); b ← i64 (iB + 1); Some (b <? n)
       else Some false);
  if (overflow : bool) then Some (1, iA) else r ← i64 (iA + iB); Some (0, r).

Definition sqlite3SubInt64 (iA iB : Z) : option (Z * Z) :=
  if iB =? SMALLEST_INT64 then
    if 0 <=? iA then Some (1, iA) else r ← i64 (iA - iB); Some (0, r)
  else n ← i64 (- iB); sqlite3AddInt64 iA n.

Definition sqlite3MulInt64 (iA iB : Z) : option (Z * Z) :=
  overflow ←
    (if 0 <? iB then
       q ← div64 LARGEST_INT64 iB;
       if q <? iA then Some true else q ← div64 SMALLEST_INT64 iB; Some (iA <? q)
     else if iB <? 0 then
       if 0 <? iA then q ← div64 SMALLEST_INT64 iA; Some (iB <? q)
       else if iA <? 0 then
         if iB =? SMALLEST_INT64 then Some true
         else if iA =? SMALLEST_INT64 then Some true
         else nA ← i64 (- iA); nB ← i64 (- iB); q ← div64 LARGEST_INT64 nB; Some (q <? nA)
       else Some false
     else Some false);
  if (overflow : bool) then Some (1, iA) else r ← i64 (iA * iB); Some (0, r).

(** ** The bodies with GCC's builtins, which store the result wrapped *)

Definition builtin_overflow (z : Z) : Z * Z :=
  (if decide (in_s 64 z) then 0 else 1, wrap_s 64 z).

Definition sqlite3AddInt64_gcc (iA iB : Z) : Z * Z := builtin_overflow (iA + iB).
Definition sqlite3SubInt64_gcc (iA iB : Z) : Z * Z := builtin_overflow (iA - iB).
Definition sqlite3MulInt64_gcc (iA iB : Z) : Z * Z := builtin_overflow (iA * iB).

Definition sqlite3AbsInt32 (x : Z) : option Z :=
  if 0 <=? x then Some x
  else if x =? - 2 ^ 31 then Some 0x7fffffff
  else if decide (in_s 32 (- x)) then Some (- x) else None.

(** ** Correctness *)

(** What the comment of the routines promises for the exact result [z]. *)
Definition checked (iA z : Z) : Z * Z := if decide (in_s 64 z) then (0, z) else (1, iA).

Lemma in_s_64 z : in_s 64 z <-> SMALLEST_INT64 <= z <= LARGEST_INT64.
Proof. unfold in_s, SMALLEST_INT64, LARGEST_INT64. change (2 ^ (64 - 1)) with (2 ^ 63). lia. Qed.

Lemma i64_some z : SMALLEST_INT64 <= z <= LARGEST_INT64 -> i64 z = Some z.
Proof. intros Hz. unfold i64. by rewrite decide_True by (by apply in_s_64). Qed.

Lemma checked_in iA z : SMALLEST_INT64 <= z <= LARGEST_INT64 -> checked iA z = (0, z).
Proof. intros Hz. unfold checked. by rewrite decide_True by (by apply in_s_64). Qed.

Lemma checked_out iA z : ~ (SMALLEST_INT64 <= z <= LARGEST_INT64) -> checked iA z = (1, iA).
Proof. intros Hz. unfold checked. by rewrite decide_False by (by rewrite in_s_64). Qed.

Ltac i64_lia := unfold SMALLEST_INT64, LARGEST_INT64 in *; lia.

(** Decide the checks and the tests of a body, one at a time. *)
Ltac i64_step :=
  match goal with
  | |- context [i64 ?z] => rewrite (i64_some z) by i64_lia
  | |- _ => progress cbn [mbind option_bind]
  | |- _ => case_bool; bool_to_prop
  end.

Ltac i64_done := f_equal; symmetry; first [apply checked_in; i64_lia | apply checked_out; i64_lia].

Lemma add_checked iA iB : in_s 64 iA -> in_s 64 iB -> sqlite3AddInt64 iA iB = Some (checked iA (iA + iB)).
Proof.
  rewrite !in_s_64. intros HA HB. unfold sqlite3AddInt64. repeat i64_step; i64_done.
Qed.

Lemma sub_checked iA iB : in_s 64 iA -> in_s 64 iB -> sqlite3SubInt64 iA iB = Some (checked iA (iA - iB)).
Proof.
  rewrite !in_s_64. intros HA HB. unfold sqlite3SubInt64.
  destruct (iB =? SMALLEST_INT64) eqn:E; bool_to_prop.
  - repeat i64_step; i64_done.
  - rewrite i64_some by i64_lia. cbn [mbind option_bind]. rewrite add_checked by (apply in_s_64; i64_lia).
    done.
Qed.

Lemma div64_some a b : b <> 0 -> SMALLEST_INT64 <= Z.quot a b <= LARGEST_INT64 -> div64 a b = Some (Z.quot a b).
Proof. intros Hb Hq. unfold div64. rewrite (proj2 (Z.eqb_neq b 0)) by done. by apply i64_some. Qed.

(** The tests of the multiplication, for a positive divisor. *)
Lemma quot_lt_mul m a b : 0 < b -> 0 <= m -> (Z.quot m b <? a) = (m <? a * b).
Proof.
  intros Hb Hm. rewrite Z.quot_div_nonneg by lia. pose proof (Z.div_mod m b ltac:(lia)).
  pose proof (Z.mod_pos_bound m b Hb). set (q := m / b) in *.
  destruct (q <? a) eqn:E, (m <? a * b) eqn:E'; bool_to_prop; try done; exfalso; nia.
Qed.

Lemma lt_quot_mul m a b : 0 < b -> m <= 0 -> (a <? Z.quot m b) = (a * b <? m).
Proof.
  intros Hb Hm. replace m with (- (- m)) by lia. rewrite Z.quot_opp_l by lia.
  pose proof (quot_lt_mul (- m) (- a) b Hb ltac:(lia)) as Hq. rewrite Z.mul_opp_l in Hq.
  destruct (a <? - (- m ÷ b)) eqn:E, (a * b <? - - m) eqn:E'; try done; exfalso;
    destruct (- m ÷ b <? - a) eqn:E1, (- m <? - (a * b)) eqn:E2; bool_to_prop; try done; lia.
Qed.

Lemma quot_range m b : 0 < b -> - 2 ^ 63 <= m <= 2 ^ 63 - 1 -> SMALLEST_INT64 <= Z.quot m b <= LARGEST_INT64.
Proof.
  intros Hb Hm. unfold SMALLEST_INT64, LARGEST_INT64. set (M := 2 ^ 63) in *. assert (0 < M) by (unfold M; lia).
  pose proof (Z.quot_le_mono m (M - 1) b Hb ltac:(lia)). pose proof (Z.quot_le_mono (- M) m b Hb ltac:(lia)).
  pose proof (Z.quot_le_upper_bound (M - 1) b (M - 1) Hb ltac:(nia)).
  pose proof (Z.quot_le_upper_bound M b M Hb ltac:(nia)). rewrite Z.quot_opp_l in * by lia. lia.
Qed.

Lemma LARGEST_eq : LARGEST_INT64 = 2 ^ 63 - 1. Proof. reflexivity. Qed.

(** A quotient by a positive number is defined, and comparing with it decides the
    bound on the product. *)
Lemma div64_large a b :
  0 < b -> exists q, div64 LARGEST_INT64 b = Some q /\ (q <? a) = (LARGEST_INT64 <? a * b).
Proof.
  intros Hb. exists (Z.quot LARGEST_INT64 b). split.
  - apply div64_some; [lia|]. apply quot_range; [done|i64_lia].
  - apply quot_lt_mul; [done|i64_lia].
Qed.

Lemma div64_small a b :
  0 < b -> exists q, div64 SMALLEST_INT64 b = Some q /\ (a <? q) = (a * b <? SMALLEST_INT64).
Proof.
  intros Hb. exists (Z.quot SMALLEST_INT64 b). split.
  - apply div64_some; [lia|]. apply quot_range; [done|i64_lia].
  - apply lt_quot_mul; [done|i64_lia].
Qed.

(** The multiplication, after its tests. *)
Lemma mul_finish iA iB (overflow : bool) :
  overflow = (LARGEST_INT64 <? iA * iB) || (iA * iB <? SMALLEST_INT64) ->
  (if overflow then Some (1, iA) else r ← i64 (iA * iB); Some (0, r)) = Some (checked iA (iA * iB)).
Proof.
  intros ->. destruct (_ || _) eqn:E; bool_to_prop; [destruct E; bool_to_prop|].
  1, 2: rewrite checked_out by lia; done. rewrite i64_some by lia. by rewrite checked_in by lia.
Qed.

Lemma mul_checked iA iB : in_s 64 iA -> in_s 64 iB -> sqlite3MulInt64 iA iB = Some (checked iA (iA * iB)).
Proof.
  rewrite !in_s_64. intros HA HB. unfold sqlite3MulInt64.
  assert (HL : 0 < LARGEST_INT64) by done. assert (HS : SMALLEST_INT64 = - LARGEST_INT64 - 1) by done.
  assert (Hno : iA * iB = 0 -> false = (LARGEST_INT64 <? iA * iB) || (iA * iB <? SMALLEST_INT64)).
  { intros ->. done. }
  destruct (0 <? iB) eqn:HB0; [|destruct (iB <? 0) eqn:HB1]; bool_to_prop.
  - destruct (div64_large iA iB HB0) as (q & -> & Hq), (div64_small iA iB HB0) as (q' & -> & Hq').
    cbn [mbind option_bind]. rewrite Hq. destruct (LARGEST_INT64 <? iA * iB) eqn:E; cbn [mbind option_bind].
    + apply (mul_finish iA iB true). by rewrite E.
    + apply mul_finish. by rewrite E, Hq'.
  - destruct (0 <? iA) eqn:HA0; [|destruct (iA <? 0) eqn:HA1]; bool_to_prop.
    + destruct (div64_small iB iA HA0) as (q & -> & Hq). cbn [mbind option_bind]. apply mul_finish.
      rewrite Hq, (Z.mul_comm iB). rewrite (proj2 (Z.ltb_ge LARGEST_INT64 _)) by nia. done.
    + assert (Hs : (iA * iB <? SMALLEST_INT64) = false) by (apply Z.ltb_ge; nia).
      destruct (iB =? SMALLEST_INT64) eqn:HB2; [|destruct (iA =? SMALLEST_INT64) eqn:HA2]; bool_to_prop.
      1, 2: cbn [mbind option_bind]; apply (mul_finish iA iB true); rewrite (proj2 (Z.ltb_lt LARGEST_INT64 _)); [done|nia].
      rewrite (i64_some (- iA)), (i64_some (- iB)) by lia. cbn [mbind option_bind].
      destruct (div64_large (- iA) (- iB) ltac:(lia)) as (q & -> & Hq). cbn [mbind option_bind].
      apply mul_finish. rewrite Hq, (proj2 (Z.ltb_ge _ _) Hs), Z.mul_opp_opp. by rewrite orb_false_r.
    + cbn [mbind option_bind]. apply (mul_finish iA iB false), Hno. nia.
  - cbn [mbind option_bind]. apply (mul_finish iA iB false), Hno. nia.
Qed.

(** Exactness.  For all 64-bit arguments, the portable bodies run without
    undefined behaviour, store the exact result and return 0 when it fits, and
    otherwise leave [*pA] unchanged and return 1. *)
Theorem int64_exact iA iB :
  in_s 64 iA -> in_s 64 iB ->
  sqlite3AddInt64 iA iB = Some (checked iA (iA + iB)) /\
  sqlite3SubInt64 iA iB = Some (checked iA (iA - iB)) /\
  sqlite3MulInt64 iA iB = Some (checked iA (iA * iB)).
Proof. intros HA HB. auto using add_checked, sub_checked, mul_checked. Qed.

(** Out of the range the wrapped result differs from the exact one by a multiple of
    2^64. *)
Lemma wrap_s_cong w z : 0 < w -> exists k, wrap_s w z = z + k * 2 ^ w.
Proof.
  intros Hw. exists (- ((z + 2 ^ (w - 1)) / 2 ^ w)). unfold wrap_s.
  pose proof (Z.div_mod (z + 2 ^ (w - 1)) (2 ^ w) ltac:(apply Z.pow_nonzero; lia)). lia.
Qed.

(** What a builtin does where a portable body gives [checked iA z]. *)
Definition builtin_agrees (iA z : Z) (portable : option (Z * Z)) (gcc : Z * Z) : Prop :=
  portable = Some (checked iA z) /\ gcc.1 = (checked iA z).1 /\
  (in_s 64 z -> gcc.2 = (checked iA z).2) /\ (~ in_s 64 z -> gcc.2 = wrap_s 64 z).

Lemma builtin_overflow_agrees iA z portable :
  portable = Some (checked iA z) -> builtin_agrees iA z portable (builtin_overflow z).
Proof.
  intros ->. unfold builtin_agrees, builtin_overflow, checked. case_decide; cbn; split_and!; try done.
  intros _. by apply wrap_s_id.
Qed.

(** Adding [d], the wrapped sum is the old value only if nothing is added. *)
Lemma wrap_s_moves a d : in_s 64 a -> - 2 ^ 63 <= d <= 2 ^ 63 -> ~ in_s 64 (a + d) -> wrap_s 64 (a + d) <> a.
Proof.
  intros Ha Hd Ho Hw. destruct (wrap_s_cong 64 (a + d)) as [k Hk]; [done|]. rewrite Hw in Hk.
  assert (d = 0) as -> by lia. by rewrite Z.add_0_r in Ho.
Qed.

(** The two bodies.  The GCC builtins return the same code as the portable
    bodies, and the same value when the result fits; on an overflow they store the
    wrapped result, so a sum or difference that overflows always changes [*pA],
    which the comment of the routines says is left unchanged. *)
Theorem int64_builtins iA iB :
  in_s 64 iA -> in_s 64 iB ->
  builtin_agrees iA (iA + iB) (sqlite3AddInt64 iA iB) (sqlite3AddInt64_gcc iA iB) /\
  builtin_agrees iA (iA - iB) (sqlite3SubInt64 iA iB) (sqlite3SubInt64_gcc iA iB) /\
  builtin_agrees iA (iA * iB) (sqlite3MulInt64 iA iB) (sqlite3MulInt64_gcc iA iB) /\
  (~ in_s 64 (iA + iB) -> (sqlite3AddInt64_gcc iA iB).2 <> iA) /\
  (~ in_s 64 (iA - iB) -> (sqlite3SubInt64_gcc iA iB).2 <> iA).
Proof.
  intros HA HB. assert (Hr := HB). unfold in_s in Hr. change (2 ^ (64 - 1)) with (2 ^ 63) in Hr.
  split_and!; try (apply builtin_overflow_agrees; auto using add_checked, sub_checked, mul_checked).
  - intros Ho. apply wrap_s_moves; [done|lia|done].
  - intros Ho. rewrite <- Z.add_opp_r in Ho. cbn [sqlite3SubInt64_gcc builtin_overflow snd].
    rewrite <- Z.add_opp_r. apply wrap_s_moves; [done|lia|done].
Qed.

(** [sqlite3AbsInt32] is the absolute value cut to the range, without
    undefined behaviour. *)
Theorem absInt32_correct x : in_s 32 x -> sqlite3AbsInt32 x = Some (Z.min (Z.abs x) (2 ^ 31 - 1)).
Proof.
  unfold sqlite3AbsInt32. intros Hx. unfold in_s in *. change (2 ^ (32 - 1)) with (2 ^ 31) in *.
  destruct (0 <=? x) eqn:E; [|destruct (x =? - 2 ^ 31) eqn:E2; [|rewrite decide_True by (bool_to_prop; lia)]];
    bool_to_prop; f_equal; lia.
Qed.
