(* ===== verification/IntegerWitnesses.v ===== *)
(** The theorems of [VarintSpec] and [Int64] at concrete integers and buffers. *)
From S2P Require Import Prelude Varint VarintSpec Int64.

(** A nine-byte integer, followed by other bytes. *)
Definition ex_v : Z := 0xfedcba9876543210.
Definition ex_buf : list Z := [0xff; 0xb7; 0xae; 0xd4; 0xe1; 0xbb; 0x8a; 0xc2; 0x10; 0x05].

Lemma ex_buf_bytes : Forall is_byte ex_buf.
Proof. repeat first [apply Forall_nil_2 | apply Forall_cons_2; [split; lia|]]. Qed.

Example ex_get : sqlite3GetVarint [0x81; 0x80; 0x7f] = Some (0x407f, 3).
Proof. reflexivity. Qed.

(** The encoding need not be the shortest: two bytes for zero. *)
Example ex_get_padded : sqlite3GetVarint [0x80; 0x00] = Some (0, 2).
Proof. reflexivity. Qed.

Lemma getVarint_equiv_witness :
  Forall is_byte ex_buf /\ sqlite3GetVarint ex_buf = get_ref 0 0 ex_buf /\
  get_ref 0 0 (take 5 ex_buf) = None /\ sqlite3GetVarint (take 5 ex_buf) = None.
Proof.
  split; [exact ex_buf_bytes|]. split; [exact (getVarint_equiv ex_buf ex_buf_bytes)|]. split; vm_compute; reflexivity.
Defined.

Lemma varint_roundtrip_witness :
  is_u64 ex_v /\ exists bs, sqlite3PutVarint ex_v = Some bs /\ (1 <= length bs <= 9)%nat /\
    forall rest, Forall is_byte rest -> sqlite3GetVarint (bs ++ rest) = Some (ex_v, Z.of_nat (length bs)).
Proof.
  assert (Hv : is_u64 ex_v) by (split; vm_compute; congruence). split; [exact Hv|].
  exact (varint_roundtrip ex_v Hv).
Defined.

Lemma varintLen_correct_witness :
  exists bs, sqlite3PutVarint (2 ^ 63) = Some bs /\ length bs = 9%nat /\ sqlite3VarintLen (2 ^ 63) = Some 10.
Proof.
  assert (Hv : is_u64 (2 ^ 63)) by (split; vm_compute; congruence).
  destruct (sqlite3PutVarint (2 ^ 63)) as [bs|] eqn:Hp; [|vm_compute in Hp; discriminate].
  exists bs. destruct (varintLen_correct (2 ^ 63) bs Hv Hp) as [Hlen H9].
  split; [reflexivity|]. split; [apply H9; vm_compute; congruence|exact Hlen].
Defined.

Lemma getVarint32_correct_witness :
  Forall is_byte ex_buf /\ getVarint32 ex_buf = Some (0xffffffff, 9).
Proof.
  split; [exact ex_buf_bytes|]. pose proof (getVarint32_correct ex_buf ex_buf_bytes) as H.
  rewrite H. vm_compute. reflexivity.
Defined.

Lemma put4byte_roundtrip_witness :
  sqlite3Put4byte 0x89abcdef = [0x89; 0xab; 0xcd; 0xef] /\
  sqlite3Get4byte (sqlite3Put4byte 0x89abcdef ++ [0x01]) = Some 0x89abcdef.
Proof.
  split; [reflexivity|]. apply (put4byte_roundtrip 0x89abcdef [0x01]). lia.
Defined.

(** The largest product that fits, and one more. *)
Example ex_mul_fits : sqlite3MulInt64 3037000499 3037000499 = Some (0, 9223372030926249001).
Proof. reflexivity. Qed.

Example ex_mul_overflows : sqlite3MulInt64 (- 2 ^ 62) 3 = Some (1, - 2 ^ 62).
Proof. reflexivity. Qed.

(** An overflowing product may wrap to its first factor. *)
Example ex_mul_gcc : sqlite3MulInt64_gcc (2 ^ 62) 5 = (1, 2 ^ 62).
Proof. reflexivity. Qed.

Lemma in_s_min : in_s 64 SMALLEST_INT64.
Proof. split; vm_compute; congruence. Qed.

Lemma in_s_one : in_s 64 1.
Proof. split; vm_compute; congruence. Qed.

Lemma int64_exact_witness :
  sqlite3SubInt64 SMALLEST_INT64 1 = Some (1, SMALLEST_INT64) /\
  sqlite3AddInt64 SMALLEST_INT64 1 = Some (0, - 2 ^ 63 + 1).
Proof.
  destruct (int64_exact SMALLEST_INT64 1 in_s_min in_s_one) as (Ha & Hs & _).
  split; [exact Hs|exact Ha].
Defined.

Lemma int64_builtins_witness :
  (sqlite3SubInt64_gcc SMALLEST_INT64 1).2 <> SMALLEST_INT64 /\
  sqlite3SubInt64_gcc SMALLEST_INT64 1 = (1, 2 ^ 63 - 1).
Proof.
  destruct (int64_builtins SMALLEST_INT64 1 in_s_min in_s_one) as (_ & _ & _ & _ & Hs).
  split; [|reflexivity]. apply Hs. intros [H _]. vm_compute in H. apply H. reflexivity.
Defined.

Lemma absInt32_correct_witness : sqlite3AbsInt32 (- 2 ^ 31) = Some (2 ^ 31 - 1).
Proof. apply (absInt32_correct (- 2 ^ 31)). split; vm_compute; congruence. Defined.
