(* ===== verification/Bitvec.v ===== *)
(** Bit vectors (src/sqlite-src-3280000/src/bitvec.c): sets of page numbers that the
    pager keeps, of one to [iSize] bits, as a bitmap, a hash table or a tree.

    The union of a [Bitvec] has the member that is in use; a read of another one is
    [None].  A list of Booleans says which allocations succeed; past its end all do. *)
From S2P Require Import Prelude.

(** ** Constants, on a machine with pointers of eight bytes *)

Definition BITVEC_SZ : Z := 512.
Definition BITVEC_USIZE : Z := (BITVEC_SZ - 3 * 4) / 8 * 8.
Definition BITVEC_SZELEM : Z := 8.
Definition BITVEC_NELEM : Z := BITVEC_USIZE / 1.
Definition BITVEC_NBIT : Z := BITVEC_NELEM * BITVEC_SZELEM.
Definition BITVEC_NINT : Z := BITVEC_USIZE / 4.
Definition BITVEC_MXHASH : Z := BITVEC_NINT / 2.
Definition BITVEC_HASH (x : Z) : Z := (x * 1) mod BITVEC_NINT.
Definition BITVEC_NPTR : Z := BITVEC_USIZE / 8.
Definition SQLITE_OK : Z := 0.
Definition SQLITE_NOMEM : Z := 7.

(** ** Data *)

Inductive Bitvec :=
  | mkBitvec (iSize nSet iDivisor : Z) (u : union)
with union :=
  | aBitmap (a : list Z)
  | aHash (a : list Z)
  | apSub (a : list (option Bitvec)).

Definition iSize (p : Bitvec) : Z := let '(mkBitvec n _ _ _) := p in n.
Definition nSet (p : Bitvec) : Z := let '(mkBitvec _ s _ _) := p in s.
Definition iDivisor (p : Bitvec) : Z := let '(mkBitvec _ _ d _) := p in d.
Definition u (p : Bitvec) : union := let '(mkBitvec _ _ _ u) := p in u.

Definition set_u (p : Bitvec) (u : union) : Bitvec := mkBitvec (iSize p) (nSet p) (iDivisor p) u.

(** An element of an array; the index is in range where the code is right. *)
Definition at_ {A} (a : list A) (i : Z) : option A := a !! Z.to_nat i.
Definition put {A} (a : list A) (i : Z) (x : A) : list A := <[Z.to_nat i := x]> a.

(** Whether an allocation succeeds, and what is left of the answers. *)
Definition alloc (mem : list bool) : bool * list bool := match mem with [] => (true, []) | b :: mem => (b, mem) end.

(** ** Operations *)

(** Memory of zeros is read as a bitmap or as a hash table. *)
Definition sqlite3BitvecCreate (n : Z) (mem : list bool) : option Bitvec * list bool :=
  let '(ok, mem) := alloc mem in
  (if ok : bool then
     Some (mkBitvec n 0 0 (if n <=? BITVEC_NBIT then aBitmap (replicate (Z.to_nat BITVEC_NELEM) 0) else aHash (replicate (Z.to_nat BITVEC_NINT) 0)))
   else None, mem).

(** The loop of the test in a hash table. *)
Fixpoint aHash_find (fuel : nat) (a : list Z) (h i : Z) : option bool :=
  match fuel with
  | O => None
  | S fuel =>
      v ← at_ a h;
      if v =? 0 then Some false else if v =? i then Some true else aHash_find fuel a ((h + 1) mod BITVEC_NINT) i
  end.

(** After the decrement of [i]; each round of the loop goes to a smaller bit vector. *)
Fixpoint sqlite3BitvecTestNotNull_loop (fuel : nat) (p : Bitvec) (i : Z) : option bool :=
  match fuel with
  | O => None
  | S fuel =>
      if negb (iDivisor p =? 0) then
        match u p with
        | apSub a =>
            sub ← at_ a (i / iDivisor p);
            match sub with
            | Some q => sqlite3BitvecTestNotNull_loop fuel q (i mod iDivisor p)
            | None => Some false
            end
        | _ => None
        end
      else if iSize p <=? BITVEC_NBIT then
        match u p with
        | aBitmap a => b ← at_ a (i / BITVEC_SZELEM); Some (negb (Z.land b (Z.shiftl 1 (Z.land i (BITVEC_SZELEM - 1))) =? 0))
        | _ => None
        end
      else
        match u p with
        | aHash a => aHash_find (Z.to_nat BITVEC_NINT) a (BITVEC_HASH i) (wrap_u 32 (i + 1))
        | _ => None
        end
  end.

(** The depth of a tree of bits with 32-bit numbers. *)
Definition depth : nat := 5.

Definition sqlite3BitvecTestNotNull (p : Bitvec) (i : Z) : option bool :=
  let i := wrap_u 32 (i - 1) in
  if iSize p <=? i then Some false else sqlite3BitvecTestNotNull_loop depth p i.

Definition sqlite3BitvecTest (p : option Bitvec) (i : Z) : option bool :=
  match p with Some p => sqlite3BitvecTestNotNull p i | None => Some false end.

(** The search for a value or a free slot, from a slot that is in use; nothing if the
    value is found. *)
Fixpoint aHash_slot (fuel : nat) (a : list Z) (h i : Z) : option (option Z) :=
  match fuel with
  | O => None
  | S fuel =>
      v ← at_ a h;
      if v =? i then Some None else
      let h := if BITVEC_NINT <=? h + 1 then 0 else h + 1 in
      v ← at_ a h;
      if negb (v =? 0) then aHash_slot fuel a h i else Some (Some h)
  end.

(** The values of a hash table are set again. *)
Fixpoint rehash_values (set : Bitvec -> Z -> list bool -> option (Z * Bitvec * list bool)) (aiValues : list Z) (rc : Z) (p : Bitvec) (mem : list bool)
    : option (Z * Bitvec * list bool) :=
  match aiValues with
  | [] => Some (rc, p, mem)
  | v :: aiValues =>
      if v =? 0 then rehash_values set aiValues rc p mem else
      '(rc', p, mem) ← set p v mem; rehash_values set aiValues (Z.lor rc rc') p mem
  end.

(** Each round of the loop of the source is a call, as are the calls of the source;
    [fuel] is two for each level of the tree. *)
Fixpoint sqlite3BitvecSet_from (fuel : nat) (p : Bitvec) (i : Z) (mem : list bool) : option (Z * Bitvec * list bool) :=
  match fuel with
  | O => None
  | S fuel =>
      if negb ((0 <? i) && (i <=? iSize p)) then None else
      let i := i - 1 in
      if (BITVEC_NBIT <? iSize p) && negb (iDivisor p =? 0) then
        match u p with
        | apSub a =>
            let bin := i / iDivisor p in
            sub ← at_ a bin;
            let '(sub, mem) := match sub with Some q => (Some q, mem) | None => sqlite3BitvecCreate (iDivisor p) mem end in
            match sub with
            | None => Some (SQLITE_NOMEM, p, mem)
            | Some q =>
                '(rc, q, mem) ← sqlite3BitvecSet_from fuel q (i mod iDivisor p + 1) mem;
                Some (rc, set_u p (apSub (put a bin (Some q))), mem)
            end
        | _ => None
        end
      else if iSize p <=? BITVEC_NBIT then
        match u p with
        | aBitmap a =>
            b ← at_ a (i / BITVEC_SZELEM);
            Some (SQLITE_OK, set_u p (aBitmap (put a (i / BITVEC_SZELEM) (Z.lor b (Z.shiftl 1 (Z.land i (BITVEC_SZELEM - 1)))))), mem)
        | _ => None
        end
      else
        match u p with
        | aHash a =>
            let h := BITVEC_HASH i in
            let i := i + 1 in
            let bitvec_set_end h := Some (SQLITE_OK, mkBitvec (iSize p) (nSet p + 1) (iDivisor p) (aHash (put a h i)), mem) in
            let bitvec_set_rehash h :=
              if BITVEC_MXHASH <=? nSet p then
                let '(ok, mem) := alloc mem in
                if negb ok then Some (SQLITE_NOMEM, p, mem) else
                let q := mkBitvec (iSize p) (nSet p) ((iSize p + BITVEC_NPTR - 1) / BITVEC_NPTR) (apSub (replicate (Z.to_nat BITVEC_NPTR) None)) in
                '(rc, q, mem) ← sqlite3BitvecSet_from fuel q i mem;
                rehash_values (sqlite3BitvecSet_from fuel) a rc q mem
              else bitvec_set_end h in
            v ← at_ a h;
            if v =? 0 then if nSet p <? BITVEC_NINT - 1 then bitvec_set_end h else bitvec_set_rehash h
            else
              r ← aHash_slot (Z.to_nat BITVEC_NINT) a h i;
              match r with
              | None => Some (SQLITE_OK, p, mem)
              | Some h => bitvec_set_rehash h
              end
        | _ => None
        end
  end.

Definition sqlite3BitvecSet (p : option Bitvec) (i : Z) (mem : list bool) : option (Z * option Bitvec * list bool) :=
  match p with
  | None => Some (SQLITE_OK, None, mem)
  | Some p => '(rc, p, mem) ← sqlite3BitvecSet_from (2 * depth) p i mem; Some (rc, Some p, mem)
  end.

(** Clearing in a hash table: its other values are put into an empty one. *)
Fixpoint aHash_free (fuel : nat) (a : list Z) (h : Z) : option Z :=
  match fuel with
  | O => None
  | S fuel => v ← at_ a h; if v =? 0 then Some h else aHash_free fuel a (if BITVEC_NINT <=? h + 1 then 0 else h + 1)
  end.

Fixpoint aHash_rebuild (aiValues : list Z) (i : Z) (n : Z) (a : list Z) : option (Z * list Z) :=
  match aiValues with
  | [] => Some (n, a)
  | v :: aiValues =>
      if negb (v =? 0) && negb (v =? i) then
        h ← aHash_free (Z.to_nat BITVEC_NINT) a (BITVEC_HASH (v - 1));
        aHash_rebuild aiValues i (n + 1) (put a h v)
      else aHash_rebuild aiValues i n a
  end.

(** After the decrement of [i]. *)
Fixpoint sqlite3BitvecClear_loop (fuel : nat) (p : Bitvec) (i : Z) : option Bitvec :=
  match fuel with
  | O => None
  | S fuel =>
      if negb (iDivisor p =? 0) then
        match u p with
        | apSub a =>
            sub ← at_ a (i / iDivisor p);
            match sub with
            | Some q => q ← sqlite3BitvecClear_loop fuel q (i mod iDivisor p); Some (set_u p (apSub (put a (i / iDivisor p) (Some q))))
            | None => Some p
            end
        | _ => None
        end
      else if iSize p <=? BITVEC_NBIT then
        match u p with
        | aBitmap a =>
            b ← at_ a (i / BITVEC_SZELEM);
            Some (set_u p (aBitmap (put a (i / BITVEC_SZELEM) (Z.land b (Z.lnot (Z.shiftl 1 (Z.land i (BITVEC_SZELEM - 1))))))))
        | _ => None
        end
      else
        match u p with
        | aHash a =>
            '(n, b) ← aHash_rebuild a (i + 1) 0 (replicate (Z.to_nat BITVEC_NINT) 0);
            Some (mkBitvec (iSize p) n (iDivisor p) (aHash b))
        | _ => None
        end
  end.

Definition sqlite3BitvecClear (p : option Bitvec) (i : Z) : option (option Bitvec) :=
  match p with
  | None => Some None
  | Some p => if negb (0 <? i) then None else q ← sqlite3BitvecClear_loop depth p (i - 1); Some (Some q)
  end.

Definition sqlite3BitvecSize (p : Bitvec) : Z := iSize p.
