(* ===== verification/BitvecSpec.v ===== *)
(** Bit vectors are finite sets: [has p i], the bit [i + 1] of [p], is kept by each
    operation of [Bitvec]; and no operation of a good bit vector is undefined. *)
From S2P Require Import Prelude Bitvec.

(** ** Arrays *)

Lemma at_is {A} (a : list A) i : 0 <= i < Z.of_nat (length a) -> exists x, at_ a i = Some x.
Proof. intros H. unfold at_. destruct (lookup_lt_is_Some_2 a (Z.to_nat i)) as [x Hx]; [lia|eauto]. Qed.

Lemma at_put {A} (a : list A) i j x : 0 <= i < Z.of_nat (length a) -> 0 <= j -> at_ (put a i x) j = if j =? i then Some x else at_ a j.
Proof.
  intros Hi Hj. unfold at_, put. destruct (Z.eqb_spec j i) as [->|Hne]; [apply list_lookup_insert_eq; lia|].
  apply list_lookup_insert_ne. lia.
Qed.

Lemma put_length {A} (a : list A) i x : length (put a i x) = length a.
Proof. apply length_insert. Qed.

Lemma at_replicate {A} n (x : A) i : 0 <= i < Z.of_nat n -> at_ (replicate n x) i = Some x.
Proof. intros Hi. unfold at_. apply lookup_replicate. split; [done|lia]. Qed.

(** ** Probing

    [slot h k]: the [k]-th slot of a search that starts at [h]. *)
Definition slot (h k : Z) : Z := (h + k) mod BITVEC_NINT.

Lemma slot_range h k : 0 <= slot h k < BITVEC_NINT.
Proof. apply Z.mod_pos_bound. reflexivity. Qed.

Lemma slot_next h k : slot h (k + 1) = (slot h k + 1) mod BITVEC_NINT.
Proof. unfold slot. rewrite Zplus_mod_idemp_l. f_equal. lia. Qed.

Lemma slot_wrap h : 0 <= h < BITVEC_NINT -> (if BITVEC_NINT <=? h + 1 then 0 else h + 1) = (h + 1) mod BITVEC_NINT.
Proof.
  intros Hh. destruct (Z.leb_spec BITVEC_NINT (h + 1)); [|by rewrite Z.mod_small by lia].
  replace (h + 1) with BITVEC_NINT by lia. done.
Qed.

(** How far a slot is from the start of a search. *)
Definition dist (h s : Z) : Z := (s - h) mod BITVEC_NINT.

Lemma dist_range h s : 0 <= dist h s < BITVEC_NINT.
Proof. apply Z.mod_pos_bound. reflexivity. Qed.

Lemma slot_dist h s : 0 <= s < BITVEC_NINT -> slot h (dist h s) = s.
Proof. intros Hs. unfold slot, dist. rewrite Zplus_mod_idemp_r. replace (h + (s - h)) with s by lia. by apply Z.mod_small. Qed.

Lemma dist_slot h k : 0 <= k < BITVEC_NINT -> dist h (slot h k) = k.
Proof. intros Hk. unfold slot, dist. rewrite Zminus_mod_idemp_l. replace (h + k - h) with k by lia. by apply Z.mod_small. Qed.

(** The first [d] slots are in use, the next one is not. *)
Definition run_length (a : list Z) (h d : Z) : Prop :=
  0 <= d < BITVEC_NINT /\ at_ a (slot h d) = Some 0 /\ forall k, 0 <= k < d -> at_ a (slot h k) <> Some 0.

Section table.
Context (a : list Z).
Hypothesis Hlen : Z.of_nat (length a) = BITVEC_NINT.

Lemma slot_is h k : exists v, at_ a (slot h k) = Some v.
Proof. apply at_is. rewrite Hlen. apply slot_range. Qed.

(** A table with a free slot ends every search. *)
Lemma run_exists h s : 0 <= s < BITVEC_NINT -> at_ a s = Some 0 -> exists d, run_length a h d.
Proof.
  intros Hs H0. assert (H : forall n : nat, Z.of_nat n <= dist h s -> (exists d, run_length a h d) \/ forall k, 0 <= k < Z.of_nat n -> at_ a (slot h k) <> Some 0).
  { pose proof (dist_range h s) as Hd. induction n as [|n IH]; intros Hn; [right; lia|]. destruct IH as [IH|IH]; [lia|by left|].
    destruct (slot_is h (Z.of_nat n)) as [v Hv]. destruct (Z.eq_dec v 0) as [->|Hv0].
    - left. exists (Z.of_nat n). split; [lia|]. split; [done|]. apply IH.
    - right. intros k Hk. destruct (Z.eq_dec k (Z.of_nat n)) as [->|]; [congruence|]. apply IH. lia. }
  destruct (H (Z.to_nat (dist h s))) as [Hd|Hd]; [pose proof (dist_range h s); lia|done|].
  exists (dist h s). pose proof (dist_range h s). split; [done|]. rewrite slot_dist by done. split; [done|].
  intros k Hk. apply Hd. lia.
Qed.

Context (h d : Z).
Hypothesis Hd : run_length a h d.

Lemma aHash_find_from fuel k i :
  i <> 0 -> 0 <= k <= d -> d - k < Z.of_nat fuel -> exists b, aHash_find fuel a (slot h k) i = Some b /\ (b = true <-> exists j, k <= j < d /\ at_ a (slot h j) = Some i).
Proof.
  intros Hi. destruct Hd as (Hd1 & Hd2 & Hd3). revert k. induction fuel as [|fuel IH]; intros k Hk Hf; [lia|]. cbn [aHash_find].
  destruct (slot_is h k) as [v Hv]. rewrite Hv. cbn [mbind option_bind]. destruct (Z.eqb_spec v 0) as [->|Hv0].
  - exists false. split; [done|]. split; [done|]. intros (j & Hj & Ej). destruct (Z.eq_dec k d) as [->|]; [lia|].
    destruct (Hd3 k); [lia|done].
  - destruct (Z.eqb_spec v i) as [->|Hvi].
    + exists true. split; [done|]. split; [|done]. intros _. exists k. split; [|done]. destruct (Z.eq_dec k d) as [->|]; [congruence|lia].
    + rewrite <- slot_next. destruct (Z.eq_dec k d) as [->|Hkd]; [congruence|]. destruct (IH (k + 1) ltac:(lia) ltac:(lia)) as (b & Eb & Hb).
      exists b. split; [done|]. rewrite Hb. split; intros (j & Hj & Ej).
      * exists j. split; [lia|done].
      * destruct (Z.eq_dec j k) as [->|]; [congruence|]. exists j. split; [lia|done].
Qed.

Lemma aHash_slot_from fuel k i :
  i <> 0 -> 0 <= k < d -> d - k <= Z.of_nat fuel ->
  exists r, aHash_slot fuel a (slot h k) i = Some r /\
    match r with None => exists j, k <= j < d /\ at_ a (slot h j) = Some i | Some s => s = slot h d /\ forall j, k <= j < d -> at_ a (slot h j) <> Some i end.
Proof.
  intros Hi. destruct Hd as (Hd1 & Hd2 & Hd3). revert k. induction fuel as [|fuel IH]; intros k Hk Hf; [lia|]. cbn [aHash_slot].
  destruct (slot_is h k) as [v Hv]. rewrite Hv. cbn [mbind option_bind]. destruct (Z.eqb_spec v i) as [->|Hvi].
  - exists None. split; [done|]. exists k. split; [lia|done].
  - rewrite slot_wrap, <- slot_next by apply slot_range. destruct (slot_is h (k + 1)) as [w Hw]. rewrite Hw. cbn [mbind option_bind].
    destruct (Z.eqb_spec w 0) as [->|Hw0]; cbn [negb].
    + destruct (Z.eq_dec (k + 1) d) as [E|]; [|by destruct (Hd3 (k + 1)); [lia|]]. eexists. split; [done|]. cbn. rewrite E. split; [done|].
      intros j Hj. replace j with k by lia. congruence.
    + destruct (Z.eq_dec (k + 1) d) as [E|]; [rewrite E in Hw; congruence|]. destruct (IH (k + 1) ltac:(lia) ltac:(lia)) as (r & Er & Hr).
      exists r. split; [done|]. destruct r as [s|].
      * destruct Hr as [-> Hr]. split; [done|]. intros j Hj. destruct (Z.eq_dec j k) as [->|]; [congruence|]. apply Hr. lia.
      * destruct Hr as (j & Hj & Ej). exists j. split; [lia|done].
Qed.

Lemma aHash_free_from fuel k : 0 <= k <= d -> d - k < Z.of_nat fuel -> aHash_free fuel a (slot h k) = Some (slot h d).
Proof.
  destruct Hd as (Hd1 & Hd2 & Hd3). revert k. induction fuel as [|fuel IH]; intros k Hk Hf; [lia|]. cbn [aHash_free].
  destruct (slot_is h k) as [v Hv]. rewrite Hv. cbn [mbind option_bind]. destruct (Z.eqb_spec v 0) as [->|Hv0].
  - destruct (Z.eq_dec k d) as [->|]; [done|]. destruct (Hd3 k); [lia|done].
  - rewrite slot_wrap, <- slot_next by apply slot_range. destruct (Z.eq_dec k d) as [->|]; [congruence|]. apply IH; lia.
Qed.
End table.

(** ** Hash tables *)

Abbreviation hash v := (BITVEC_HASH (v - 1)).

(** Every value is within a run of slots in use that starts at its hash. *)
Record table_ok (n : Z) (a : list Z) : Prop := {
  tb_len : Z.of_nat (length a) = BITVEC_NINT;
  tb_range s v : at_ a s = Some v -> 0 <= v <= n;
  tb_distinct s t v : 0 <= s -> 0 <= t -> at_ a s = Some v -> at_ a t = Some v -> v <> 0 -> s = t;
  tb_probe s v : 0 <= s < BITVEC_NINT -> at_ a s = Some v -> v <> 0 ->
    forall k, 0 <= k < dist (hash v) s -> at_ a (slot (hash v) k) <> Some 0 }.

Definition used (a : list Z) : Z := Z.of_nat (length (filter (fun v => v <> 0) a)).

Lemma hash_range v : 0 <= hash v < BITVEC_NINT.
Proof. apply Z.mod_pos_bound. reflexivity. Qed.

Lemma slot_0 h : 0 <= h < BITVEC_NINT -> slot h 0 = h.
Proof. intros Hh. unfold slot. rewrite Z.add_0_r. by apply Z.mod_small. Qed.

Lemma elem_at (a : list Z) v : v ∈ a <-> exists s, 0 <= s < Z.of_nat (length a) /\ at_ a s = Some v.
Proof.
  rewrite list_elem_of_lookup. split.
  - intros [i Hi]. exists (Z.of_nat i). apply lookup_lt_Some in Hi as Hl. unfold at_. rewrite Nat2Z.id. split; [lia|done].
  - intros (s & Hs & Hv). by exists (Z.to_nat s).
Qed.

Lemma used_free a : Z.of_nat (length a) = BITVEC_NINT -> used a < BITVEC_NINT -> exists s, 0 <= s < BITVEC_NINT /\ at_ a s = Some 0.
Proof.
  intros Hl Hu. destruct (decide (0 ∈ a)) as [H0|H0]; [rewrite elem_at, Hl in H0; done|]. exfalso.
  assert (E : filter (fun v => v <> 0) a = a); [|unfold used in Hu; rewrite E in Hu; lia]. clear Hl Hu.
  induction a as [|v a IH]; [done|]. apply not_elem_of_cons in H0 as [H1 H2]. rewrite filter_cons, decide_True by done. by rewrite IH.
Qed.

Lemma used_put a s v : 0 <= s -> at_ a s = Some 0 -> v <> 0 -> used (put a s v) = used a + 1.
Proof.
  intros Hs Ha Hv. unfold at_, put, used in *. revert Ha. generalize (Z.to_nat s) as i. clear s Hs.
  induction a as [|w a IH]; intros i Ha; [done|]. destruct i as [|i]; cbn in Ha.
  - injection Ha as ->. cbn [insert list_insert]. rewrite !filter_cons, decide_True by done. rewrite decide_False by (intros H; by apply H). cbn [length]. lia.
  - change (<[S i:=v]> (w :: a)) with (w :: <[i:=v]> a). rewrite !filter_cons. specialize (IH i Ha). case_decide; cbn [length]; lia.
Qed.

Lemma used_empty : used (replicate (Z.to_nat BITVEC_NINT) 0) = 0.
Proof. vm_compute. reflexivity. Qed.

Section in_table.
Context (n : Z) (a : list Z) (v d : Z).
Hypothesis Ha : table_ok n a.
Hypothesis Hd : run_length a (hash v) d.
Hypothesis Hv : v <> 0.

Lemma in_run : v ∈ a <-> exists j, 0 <= j < d /\ at_ a (slot (hash v) j) = Some v.
Proof.
  rewrite elem_at, (tb_len _ _ Ha). destruct Hd as (Hd1 & Hd2 & Hd3). split.
  - intros (s & Hs & Hsv). exists (dist (hash v) s). rewrite slot_dist by done. split; [|done]. pose proof (dist_range (hash v) s).
    destruct (Z_lt_le_dec (dist (hash v) s) d); [lia|]. destruct (Z.eq_dec (dist (hash v) s) d) as [E|].
    + rewrite <- E, slot_dist in Hd2 by done. congruence.
    + destruct (tb_probe _ _ Ha s v Hs Hsv Hv d); [lia|done].
  - intros (j & Hj & Ej). exists (slot (hash v) j). split; [apply slot_range|done].
Qed.

Lemma table_put : v ∉ a -> 1 <= v <= n -> table_ok n (put a (slot (hash v) d) v) /\ forall w, w <> 0 -> w ∈ put a (slot (hash v) d) v <-> w = v \/ w ∈ a.
Proof.
  intros Hn Hr. destruct Hd as (Hd1 & Hd2 & Hd3). set (s := slot (hash v) d) in *.
  assert (Hs : 0 <= s < BITVEC_NINT) by apply slot_range. pose proof (tb_len _ _ Ha) as Hl.
  assert (Hat : forall t, 0 <= t -> at_ (put a s v) t = if t =? s then Some v else at_ a t) by (intros; apply at_put; lia).
  assert (Hnv : forall t, at_ a t <> Some v) by (intros t Ht; apply Hn, list_elem_of_lookup; by exists (Z.to_nat t)).
  split.
  - split.
    + by rewrite put_length.
    + intros t w Hw. destruct (Z_lt_le_dec t 0) as [Ht|Ht].
      * assert (E : at_ (put a s v) t = at_ (put a s v) 0) by (unfold at_; f_equal; lia). rewrite E, Hat in Hw by lia.
        destruct (0 =? s); [injection Hw as <-; lia|]. by apply (tb_range _ _ Ha 0).
      * rewrite Hat in Hw by done. destruct (t =? s); [injection Hw as <-; lia|]. by apply (tb_range _ _ Ha t).
    + intros t1 t2 w H1 H2 E1 E2 Hw. rewrite Hat in E1, E2 by done. destruct (Z.eqb_spec t1 s) as [->|], (Z.eqb_spec t2 s) as [->|]; [done|..].
      * injection E1 as <-. by destruct (Hnv t2).
      * injection E2 as <-. by destruct (Hnv t1).
      * by apply (tb_distinct _ _ Ha t1 t2 w).
    + intros t w Ht Ew Hw k Hk. pose proof (slot_range (hash w) k). rewrite Hat in * by lia.
      destruct (Z.eqb_spec (slot (hash w) k) s) as [E|Hne]; [congruence|]. destruct (Z.eqb_spec t s) as [->|].
      * injection Ew as <-. apply Hd3. unfold s in Hk. rewrite dist_slot in Hk by done. lia.
      * by apply (tb_probe _ _ Ha t w).
  - intros w Hw. rewrite !elem_at, put_length. split.
    + intros (t & Ht & Et). rewrite Hat in Et by lia. destruct (t =? s); [injection Et as ->; by left|]. right. by exists t.
    + intros [->|(t & Ht & Et)]; [exists s; rewrite Hat, Z.eqb_refl by lia; split; [lia|done]|]. exists t. rewrite Hat by lia.
      destruct (Z.eqb_spec t s) as [->|]; [congruence|]. split; done.
Qed.
End in_table.

Lemma table_empty n : 0 <= n -> table_ok n (replicate (Z.to_nat BITVEC_NINT) 0).
Proof.
  intros Hn. assert (H : forall s v, at_ (replicate (Z.to_nat BITVEC_NINT) 0) s = Some v -> v = 0).
  { intros s v Hv. unfold at_ in Hv. by apply lookup_replicate in Hv as [-> _]. }
  split; [done| | |].
  - intros s v ->%H. lia.
  - intros s t v _ _ ->%H. done.
  - intros s v _ ->%H. done.
Qed.

Lemma table_run n a v : table_ok n a -> used a < BITVEC_NINT -> exists d, run_length a (hash v) d.
Proof. intros Ha Hu. destruct (used_free a (tb_len _ _ Ha) Hu) as (s & Hs & H0). by apply (run_exists a (tb_len _ _ Ha) _ s). Qed.

(** The test. *)
Lemma aHash_find_spec n a v :
  table_ok n a -> used a < BITVEC_NINT -> v <> 0 -> exists b, aHash_find (Z.to_nat BITVEC_NINT) a (hash v) v = Some b /\ (b = true <-> v ∈ a).
Proof.
  intros Ha Hu Hv. destruct (table_run n a v Ha Hu) as [d Hd]. pose proof Hd as (Hd1 & _).
  destruct (aHash_find_from a (tb_len _ _ Ha) (hash v) d Hd (Z.to_nat BITVEC_NINT) 0 v Hv) as (b & E & Hb); [lia|lia|].
  rewrite slot_0 in E by apply hash_range. exists b. split; [done|]. by rewrite Hb, (in_run n a v d).
Qed.

(** Putting the values of a table into an empty one, but for [i]. *)
Lemma aHash_rebuild_spec n l i k b :
  table_ok n b -> k = used b -> used b + used l < BITVEC_NINT -> (forall v, v ∈ l -> v <> 0 -> 1 <= v <= n /\ v ∉ b) ->
  NoDup (filter (fun v => v <> 0) l) ->
  exists b', aHash_rebuild l i k b = Some (used b', b') /\ table_ok n b' /\ used b' < BITVEC_NINT /\
    forall w, w <> 0 -> w ∈ b' <-> w ∈ b \/ w ∈ l /\ w <> i.
Proof.
  revert k b. induction l as [|v l IH]; intros k b Hb -> Hu Hl Hnd; cbn [aHash_rebuild].
  { exists b. split; [done|]. split; [done|]. split; [unfold used in *; cbn in *; lia|]. intros w Hw. split; [by left|]. by intros [?|[?%not_elem_of_nil _]]. }
  assert (Hl' : forall w, w ∈ l -> w <> 0 -> 1 <= w <= n /\ w ∉ b) by (intros w Hw; apply Hl; by right).
  rewrite filter_cons in Hnd. destruct (Z.eqb_spec v 0) as [->|Hv0]; cbn [negb andb].
  - rewrite decide_False in Hnd by (intros H; by apply H).
    unfold used in Hu at 2. rewrite filter_cons, decide_False in Hu by (intros H; by apply H). destruct (IH (used b) b) as (b' & E & Hb' & Hu' & Hw); try done.
    exists b'. split; [done|]. split; [done|]. split; [done|]. intros w Hw0. rewrite Hw, elem_of_cons by done. naive_solver.
  - rewrite decide_True in Hnd by done. apply NoDup_cons in Hnd as [Hvl Hnd]. unfold used in Hu at 2. rewrite filter_cons, decide_True in Hu by done. cbn [length] in Hu.
    destruct (Z.eqb_spec v i) as [->|Hvi]; cbn [negb].
    + destruct (IH (used b) b) as (b' & E & Hb' & Hu' & Hw); try done; [unfold used in *; lia|].
      exists b'. split; [done|]. split; [done|]. split; [done|]. intros w Hw0. rewrite Hw, elem_of_cons by done. split; [naive_solver|].
      intros [?|[[->|?] ?]]; [by left|done|by right].
    + destruct (Hl v ltac:(by left) Hv0) as [Hvr Hvb]. destruct (table_run n b v Hb ltac:(unfold used in *; lia)) as [d Hd]. pose proof Hd as (Hd1 & Hd2 & _).
      assert (E0 : aHash_free (Z.to_nat BITVEC_NINT) b (hash v) = Some (slot (hash v) d)).
      { rewrite <- (slot_0 (hash v)) at 1 by apply hash_range. apply (aHash_free_from b (tb_len _ _ Hb) _ d Hd); lia. }
      rewrite E0. cbn [mbind option_bind]. destruct (table_put n b v d Hb Hd Hv0 Hvb Hvr) as [Hb2 Hin].
      assert (Hup : used (put b (slot (hash v) d) v) = used b + 1) by (apply used_put; [apply slot_range|done|done]).
      destruct (IH (used b + 1) (put b (slot (hash v) d) v)) as (b' & E & Hb' & Hu' & Hw); [done|done|rewrite Hup; unfold used in *; lia| |done|].
      { intros w Hw Hw0. destruct (Hl' w Hw Hw0) as [? ?]. split; [done|]. rewrite Hin by done. intros [->|?]; [|done]. apply Hvl, list_elem_of_filter. done. }
      exists b'. split; [done|]. split; [done|]. split; [done|]. intros w Hw0. rewrite Hw, Hin, elem_of_cons by done.
      destruct (decide (w = v)) as [->|]; tauto.
Qed.

(** ** Bit vectors *)

(** The bits that each part of a tree stands for. *)
Definition part (n : Z) : Z := (n + BITVEC_NPTR - 1) / BITVEC_NPTR.

Inductive wf : Bitvec -> Prop :=
  | wf_bitmap n s a :
      0 <= n <= BITVEC_NBIT -> Z.of_nat (length a) = BITVEC_NELEM -> wf (mkBitvec n s 0 (aBitmap a))
  | wf_hash n a :
      BITVEC_NBIT < n < 2 ^ 32 -> table_ok n a -> used a < BITVEC_NINT -> wf (mkBitvec n (used a) 0 (aHash a))
  | wf_sub n s a :
      BITVEC_NBIT < n < 2 ^ 32 -> Z.of_nat (length a) = BITVEC_NPTR ->
      (forall i q, at_ a i = Some (Some q) -> iSize q = part n) -> (forall i q, at_ a i = Some (Some q) -> wf q) ->
      wf (mkBitvec n s (part n) (apSub a)).

(** The bit [i], counted from 0, is set. *)
Inductive has : Bitvec -> Z -> Prop :=
  | has_bitmap n s a i b : at_ a (i / BITVEC_SZELEM) = Some b -> Z.testbit b (i mod 8) = true -> has (mkBitvec n s 0 (aBitmap a)) i
  | has_hash n s a i : i + 1 ∈ a -> has (mkBitvec n s 0 (aHash a)) i
  | has_sub n s d a i q : at_ a (i / d) = Some (Some q) -> has q (i mod d) -> has (mkBitvec n s d (apSub a)) i.

Lemma has_bitmap_iff n s a i b :
  at_ a (i / BITVEC_SZELEM) = Some b -> has (mkBitvec n s 0 (aBitmap a)) i <-> Z.testbit b (i mod 8) = true.
Proof. intros Hb. split; [inversion 1; subst; congruence|by apply has_bitmap]. Qed.

Lemma has_hash_iff n s a i : has (mkBitvec n s 0 (aHash a)) i <-> i + 1 ∈ a.
Proof. split; [by inversion 1|apply has_hash]. Qed.

Lemma has_sub_iff n s d a i : has (mkBitvec n s d (apSub a)) i <-> exists q, at_ a (i / d) = Some (Some q) /\ has q (i mod d).
Proof. split; [inversion 1; subst; eauto|intros (q & ? & ?); by eapply has_sub]. Qed.

(** Arithmetic of the constants. *)
Lemma constants : BITVEC_NBIT = 3968 /\ BITVEC_NINT = 124 /\ BITVEC_NPTR = 62 /\ BITVEC_NELEM = 496 /\ BITVEC_MXHASH = 62 /\ BITVEC_SZELEM = 8.
Proof. done. Qed.

Ltac bv_arith := pose proof constants as (? & ? & ? & ? & ? & ?); Z.to_euclidean_division_equations; nia.

Lemma part_bounds n : BITVEC_NBIT < n -> 0 < part n < n /\ part n <> 0.
Proof. unfold part. intros. bv_arith. Qed.

Lemma bin_range n i : BITVEC_NBIT < n -> 0 <= i < n -> 0 <= i / part n < BITVEC_NPTR /\ 0 <= i mod part n < part n.
Proof.
  intros Hn Hi. pose proof (part_bounds n Hn) as [Hp _]. split; [|apply Z.mod_pos_bound; lia]. split; [apply Z.div_pos; lia|].
  apply Z.div_lt_upper_bound; [lia|]. unfold part in *. bv_arith.
Qed.

(** [k] levels are enough for [n] bits. *)
Definition fits (k : nat) (n : Z) : Prop := n <= BITVEC_NBIT * BITVEC_NPTR ^ Z.of_nat k.

Lemma fits_0 n : fits 0 n <-> n <= BITVEC_NBIT.
Proof. unfold fits. cbn. lia. Qed.

Lemma fits_part k n : fits (S k) n -> fits k (part n).
Proof.
  unfold fits, part. rewrite Nat2Z.inj_succ, Z.pow_succ_r by lia. pose proof constants as (_ & _ & E & _). rewrite E. intros H.
  apply Z.lt_succ_r. apply Z.div_lt_upper_bound; [lia|]. lia.
Qed.

Lemma fits_u32 n : n < 2 ^ 32 -> fits 4 n.
Proof. unfold fits. intros H. assert (2 ^ 32 <= BITVEC_NBIT * BITVEC_NPTR ^ Z.of_nat 4) by (vm_compute; discriminate). lia. Qed.

Lemma bit_test b i : 0 <= i -> negb (Z.land b (Z.shiftl 1 (Z.land i (BITVEC_SZELEM - 1))) =? 0) = Z.testbit b (i mod 8).
Proof.
  intros Hi. change (BITVEC_SZELEM - 1) with (Z.ones 3). rewrite Z.land_ones by lia. change (2 ^ 3) with 8. rewrite Z.shiftl_1_l.
  pose proof (Z.mod_pos_bound i 8 ltac:(lia)) as Hk. set (k := i mod 8) in *. clearbody k.
  destruct (Z.testbit b k) eqn:E.
  - apply negb_true_iff, Z.eqb_neq. intros H. apply (f_equal (fun x => Z.testbit x k)) in H.
    rewrite Z.land_spec, E, Z.pow2_bits_true, Z.bits_0 in H by lia. done.
  - apply negb_false_iff, Z.eqb_eq, Z.bits_inj'. intros j Hj. rewrite Z.land_spec, Z.bits_0, Z.pow2_bits_eqb by lia.
    destruct (Z.eqb_spec k j) as [<-|]; [by rewrite E|apply andb_false_r].
Qed.

(** ** Testing *)

Lemma test_spec k p i :
  wf p -> fits k (iSize p) -> 0 <= i < iSize p ->
  exists b, sqlite3BitvecTestNotNull_loop (S k) p i = Some b /\ (b = true <-> has p i).
Proof.
  revert p i. induction k as [|k IH]; intros p i Hp Hk Hi; destruct Hp as [n s a Hn Ha|n a Hn Ha Hu|n s a Hn Ha Hs Hw]; cbn [iSize] in *.
  1, 4: cbn [sqlite3BitvecTestNotNull_loop iDivisor iSize u]; rewrite (proj2 (Z.leb_le _ _)) by lia; cbn [Z.eqb negb];
    destruct (at_is a (i / BITVEC_SZELEM)) as [b Hb]; [bv_arith|]; rewrite Hb; cbn [mbind option_bind]; eexists; split; [done|];
    rewrite bit_test, (has_bitmap_iff _ _ _ _ b) by (done || lia); done.
  1, 2: pose proof (proj1 (fits_0 _) Hk); lia.
  - cbn [sqlite3BitvecTestNotNull_loop iDivisor iSize u]. rewrite (proj2 (Z.leb_gt _ _)) by lia. cbn [Z.eqb negb].
    unfold wrap_u. rewrite Z.mod_small by lia. assert (Eh : BITVEC_HASH i = hash (i + 1)) by (by replace (i + 1 - 1) with i by lia). rewrite Eh.
    destruct (aHash_find_spec n a (i + 1) Ha Hu) as (b & E & Hb); [lia|]. exists b. split; [done|]. by rewrite Hb, has_hash_iff.
  - pose proof (part_bounds n ltac:(lia)) as [Hp Hp0]. destruct (bin_range n i ltac:(lia) Hi) as [Hb1 Hb2].
    remember (S k) as k' eqn:Ek. cbn [sqlite3BitvecTestNotNull_loop iDivisor iSize u]. rewrite (proj2 (Z.eqb_neq _ _)) by done. cbn [negb].
    destruct (at_is a (i / part n)) as [[q|] Hq]; [lia|..]; rewrite Hq; cbn [mbind option_bind].
    + destruct (IH q (i mod part n) (Hw _ _ Hq)) as (b & E & Hb); [rewrite (Hs _ _ Hq); apply fits_part; congruence|by rewrite (Hs _ _ Hq)|].
      subst k'. exists b. split; [done|]. rewrite Hb, has_sub_iff. split; [eauto|]. intros (q' & Hq' & H). congruence.
    + exists false. split; [done|]. split; [done|]. rewrite has_sub_iff. intros (q' & Hq' & H). congruence.
Qed.

(** ** Creating *)

Lemma create_spec n mem :
  0 <= n < 2 ^ 32 ->
  match sqlite3BitvecCreate n mem with
  | (Some p, mem') => wf p /\ iSize p = n /\ iDivisor p = 0 /\ (forall i, 0 <= i < n -> ~ has p i) /\ (mem = [] -> mem' = [])
  | (None, _) => mem <> []
  end.
Proof.
  intros Hn. unfold sqlite3BitvecCreate. assert (Hm : match alloc mem with (true, m) => mem = [] -> m = [] | (false, _) => mem <> [] end) by (destruct mem as [|[]]; done).
  destruct (alloc mem) as [[|] mem']; [|done]. split; [|split; [done|split; [done|split; [|done]]]].
  - destruct (Z.leb_spec n BITVEC_NBIT); [apply wf_bitmap; [lia|done]|]. change 0 with (used (replicate (Z.to_nat BITVEC_NINT) 0)) at 1.
    apply wf_hash; [lia|apply table_empty; lia|done].
  - intros i Hi. destruct (Z.leb_spec n BITVEC_NBIT) as [Hl|Hl].
    + rewrite (has_bitmap_iff _ _ _ _ 0) by (apply at_replicate; bv_arith). by rewrite Z.bits_0.
    + rewrite has_hash_iff, elem_of_replicate. intros [E _]. lia.
Qed.

(** ** Setting

    What setting the bit [i], counted from 1, leaves: if it fails for lack of memory,
    no other bit is set, but some may be lost. *)
Definition set_post (p : Bitvec) (i : Z) (mem : list bool) (r : option (Z * Bitvec * list bool)) : Prop :=
  exists rc p' mem', r = Some (rc, p', mem') /\ wf p' /\ iSize p' = iSize p /\ (iDivisor p <> 0 -> iDivisor p' = iDivisor p) /\
    (rc = SQLITE_OK \/ rc = SQLITE_NOMEM) /\ (mem = [] -> rc = SQLITE_OK /\ mem' = []) /\
    (forall j, 0 <= j < iSize p -> has p' j -> j = i - 1 \/ has p j) /\
    (rc = SQLITE_OK -> forall j, 0 <= j < iSize p -> j = i - 1 \/ has p j -> has p' j).

Lemma rehash_spec (set : Bitvec -> Z -> list bool -> option (Z * Bitvec * list bool)) n l rc p mem :
  (forall q v mem, wf q -> iSize q = n -> iDivisor q = part n -> 1 <= v <= n -> set_post q v mem (set q v mem)) ->
  part n <> 0 -> (forall v, v ∈ l -> 0 <= v <= n) -> wf p -> iSize p = n -> iDivisor p = part n -> rc = SQLITE_OK \/ rc = SQLITE_NOMEM ->
  exists rc' p' mem', rehash_values set l rc p mem = Some (rc', p', mem') /\ wf p' /\ iSize p' = n /\
    (rc' = SQLITE_OK \/ rc' = SQLITE_NOMEM) /\ (rc' = SQLITE_OK -> rc = SQLITE_OK) /\ (mem = [] -> rc' = rc /\ mem' = []) /\
    (forall j, 0 <= j < n -> has p' j -> j + 1 ∈ l \/ has p j) /\ (rc' = SQLITE_OK -> forall j, 0 <= j < n -> j + 1 ∈ l \/ has p j -> has p' j).
Proof.
  intros Hset Hp0. revert rc p mem. induction l as [|v l IH]; intros rc p mem Hl Hp Hn Hd Hrc; cbn [rehash_values].
  { exists rc, p, mem. do 5 (split; [done|]). split; [done|]. split; [by right|]. by intros _ j Hj [?%not_elem_of_nil|]. }
  assert (Hl' : forall w, w ∈ l -> 0 <= w <= n) by (intros w Hw; apply Hl; by right). pose proof (Hl v ltac:(by left)) as Hv.
  destruct (Z.eqb_spec v 0) as [->|Hv0].
  - destruct (IH rc p mem Hl' Hp Hn Hd Hrc) as (rc' & p' & mem' & E & H1 & H2 & H3 & H4 & H5 & H6 & H7).
    exists rc', p', mem'. do 6 (split; [done|]). split; intros.
    + rewrite elem_of_cons. destruct (H6 j); auto.
    + apply H7; [done..|]. rewrite elem_of_cons in *. destruct H8 as [[?|?]|?]; [lia|auto..].
  - destruct (Hset p v mem Hp Hn Hd ltac:(lia)) as (rc1 & p1 & mem1 & E & W1 & W2 & W3 & W4 & W5 & W6 & W7). rewrite E. cbn [mbind option_bind].
    rewrite Hd in W3. assert (Hrc1 : Z.lor rc rc1 = SQLITE_OK \/ Z.lor rc rc1 = SQLITE_NOMEM) by (destruct Hrc as [->| ->], W4 as [->| ->]; auto).
    destruct (IH (Z.lor rc rc1) p1 mem1 Hl' W1 ltac:(congruence) (W3 Hp0) Hrc1) as (rc' & p' & mem' & E' & H1 & H2 & H3 & H4 & H5 & H6 & H7).
    assert (Hor : Z.lor rc rc1 = SQLITE_OK -> rc = SQLITE_OK /\ rc1 = SQLITE_OK) by (destruct Hrc as [->| ->], W4 as [->| ->]; done).
    exists rc', p', mem'. split; [done|]. split; [done|]. split; [done|]. split; [done|]. rewrite Hn in W6, W7. split; [intros H; by apply Hor, H4|]. split; [|split].
    + intros Hm. destruct (W5 Hm) as [-> Hm1]. destruct (H5 Hm1) as [-> ?]. split; [apply Z.lor_0_r|done].
    + intros j Hj H. rewrite elem_of_cons. destruct (H6 j Hj H) as [?|H']; [by left; right|]. destruct (W6 j Hj H') as [->|?]; [left; left; lia|by right].
    + intros H j Hj Hor'. apply H7; [done..|]. destruct (Hor (H4 H)) as [_ H1']. rewrite elem_of_cons in Hor'.
      destruct Hor' as [[Hjv|?]|?]; [right; apply W7; [done..|left; lia]|by left|right; apply W7; [done..|by right]].
Qed.

Definition enough (fuel : nat) (p : Bitvec) : Prop :=
  exists k, fits k (iSize p) /\ Z.of_nat (2 * k) + (if iDivisor p =? 0 then 1 else 0) <= Z.of_nat fuel.

(** *** The three representations *)

Lemma set_bitmap fuel n s a i mem :
  0 <= n <= BITVEC_NBIT -> Z.of_nat (length a) = BITVEC_NELEM -> 1 <= i <= n ->
  set_post (mkBitvec n s 0 (aBitmap a)) i mem (sqlite3BitvecSet_from (S fuel) (mkBitvec n s 0 (aBitmap a)) i mem).
Proof.
  intros Hn Ha Hi. cbn [sqlite3BitvecSet_from iSize iDivisor u]. rewrite (proj2 (Z.ltb_lt 0 i)), (proj2 (Z.leb_le i n)) by lia. cbn [andb negb].
  rewrite (proj2 (Z.ltb_ge _ _)), (proj2 (Z.leb_le n _)) by lia. cbn [andb].
  assert (Hr : 0 <= (i - 1) / BITVEC_SZELEM < Z.of_nat (length a)) by bv_arith. destruct (at_is a _ Hr) as [b Hb]. rewrite Hb. cbn [mbind option_bind].
  change (BITVEC_SZELEM - 1) with (Z.ones 3). rewrite Z.land_ones by lia. change (2 ^ 3) with 8. rewrite Z.shiftl_1_l. set (k := (i - 1) mod 8).
  assert (Hk : 0 <= k < 8) by (apply Z.mod_pos_bound; lia).
  eexists _, _, _. split; [reflexivity|]. split; [by apply wf_bitmap; [|rewrite put_length]|]. split; [done|]. split; [done|]. split; [by left|].
  split; [done|]. cbn [set_u iSize nSet iDivisor]. assert (Hiff : forall j, 0 <= j < n ->
      has (mkBitvec n s 0 (aBitmap (put a ((i - 1) / BITVEC_SZELEM) (Z.lor b (2 ^ k))))) j <-> j = i - 1 \/ has (mkBitvec n s 0 (aBitmap a)) j).
  { intros j Hj. assert (Hjr : 0 <= j / BITVEC_SZELEM < Z.of_nat (length a)) by bv_arith. destruct (at_is a _ Hjr) as [c Hc].
    rewrite (has_bitmap_iff n s a j c) by done. destruct (Z.eqb_spec (j / BITVEC_SZELEM) ((i - 1) / BITVEC_SZELEM)) as [E|E].
    - rewrite (has_bitmap_iff _ _ _ _ (Z.lor b (2 ^ k))) by (rewrite at_put, E, Z.eqb_refl by lia; done). rewrite E in Hc. rewrite Hb in Hc. injection Hc as <-.
      rewrite Z.lor_spec, Z.pow2_bits_eqb, orb_true_iff, Z.eqb_eq by lia. unfold k.
      assert ((i - 1) mod 8 = j mod 8 <-> j = i - 1) by (change BITVEC_SZELEM with 8 in E; Z.to_euclidean_division_equations; lia). tauto.
    - rewrite (has_bitmap_iff _ _ _ _ c) by (rewrite at_put by lia; by rewrite (proj2 (Z.eqb_neq _ _))). split; [by right|]. intros [->|]; done. }
  split; [intros j Hj H; by apply Hiff|intros _ j Hj H; by apply Hiff].
Qed.

(** A node of a tree, if its parts are set right. *)
Lemma set_node fuel n s a i mem :
  BITVEC_NBIT < n < 2 ^ 32 -> wf (mkBitvec n s (part n) (apSub a)) -> 1 <= i <= n ->
  (forall q v mem, wf q -> iSize q = part n -> (iDivisor q = 0 \/ exists j, at_ a j = Some (Some q)) -> 1 <= v <= part n -> set_post q v mem (sqlite3BitvecSet_from fuel q v mem)) ->
  set_post (mkBitvec n s (part n) (apSub a)) i mem (sqlite3BitvecSet_from (S fuel) (mkBitvec n s (part n) (apSub a)) i mem).
Proof.
  intros Hn Hwf Hi Hset. pose proof (part_bounds n ltac:(lia)) as [Hp Hp0]. destruct (bin_range n (i - 1) ltac:(lia) ltac:(lia)) as [Hb1 Hb2].
  inversion Hwf as [n0 s0 a0 X1 X2|n0 a0 X1 X2 X3|n' s' a' Hn' Hlen Hs Hw]; subst. cbn [sqlite3BitvecSet_from iSize iDivisor u].
  rewrite (proj2 (Z.ltb_lt 0 i)), (proj2 (Z.leb_le i n)) by lia. cbn [andb negb]. rewrite (proj2 (Z.ltb_lt _ n)), (proj2 (Z.eqb_neq (part n) 0)) by lia. cbn [andb negb].
  set (bin := (i - 1) / part n) in *. set (r := (i - 1) mod part n) in *. destruct (at_is a bin) as [sub Hsub]; [lia|]. rewrite Hsub. cbn [mbind option_bind].
  assert (Hgo : forall q mem1, wf q -> iSize q = part n -> (iDivisor q = 0 \/ exists j, at_ a j = Some (Some q)) -> (mem = [] -> mem1 = []) ->
      (forall j, 0 <= j < part n -> has q j <-> exists q0, sub = Some q0 /\ has q0 j) ->
      set_post (mkBitvec n s (part n) (apSub a)) i mem
        ('(rc, q, mem) ← sqlite3BitvecSet_from fuel q (r + 1) mem1; Some (rc, set_u (mkBitvec n s (part n) (apSub a)) (apSub (put a bin (Some q))), mem))).
  { intros q mem1 Hq Hqs Hqd Hm Hqh. destruct (Hset q (r + 1) mem1 Hq Hqs Hqd ltac:(lia)) as (rc & q' & mem' & E & W1 & W2 & _ & W4 & W5 & W6 & W7).
    rewrite E. cbn [mbind option_bind]. eexists rc, _, mem'. split; [reflexivity|]. cbn [set_u iSize nSet iDivisor].
    assert (Hat : forall j, 0 <= j -> at_ (put a bin (Some q')) j = if j =? bin then Some (Some q') else at_ a j) by (intros; apply at_put; lia).
    assert (Hin : forall j q1, at_ (put a bin (Some q')) j = Some (Some q1) -> q1 = q' \/ exists j, at_ a j = Some (Some q1)).
    { intros j q1 Hj. assert (E0 : at_ (put a bin (Some q')) j = at_ (put a bin (Some q')) (Z.max 0 j)) by (unfold at_; f_equal; lia).
      rewrite E0, Hat in Hj by lia. destruct (_ =? bin) in Hj; [injection Hj as ->; by left|eauto]. }
    split; [|split; [done|split; [done|split; [done|split; [by intros Hm'; apply W5, Hm|]]]]].
    - cbn [set_u iSize nSet iDivisor]. apply (wf_sub n); [done|by rewrite put_length|..]; intros j q1 Hj; (destruct (Hin _ _ Hj) as [->|[j1 Hj1]]; [congruence || done|eauto]).
    - assert (Hiff : forall j, 0 <= j < n -> has (mkBitvec n s (part n) (apSub (put a bin (Some q')))) j <->
          if j / part n =? bin then has q' (j mod part n) else has (mkBitvec n s (part n) (apSub a)) j).
      { intros j Hj. destruct (bin_range n j ltac:(lia) Hj) as [Hj1 Hj2]. rewrite has_sub_iff, Hat by lia. destruct (_ =? bin); [|by rewrite has_sub_iff].
        split; [intros (q0 & [= ->] & ?); done|eauto]. }
      assert (Hold : forall j, 0 <= j < n -> j / part n = bin -> has (mkBitvec n s (part n) (apSub a)) j <-> has q (j mod part n)).
      { intros j Hj Ej. destruct (bin_range n j ltac:(lia) Hj) as [_ Hj2]. rewrite has_sub_iff, Ej, Hsub, Hqh by done.
        split; intros (q0 & E0 & ?); exists q0; (split; [congruence|done]). }
      assert (Heq : forall j, 0 <= j < n -> j / part n = bin -> j mod part n = r -> j = i - 1).
      { intros j Hj E1 E2. rewrite (Z.div_mod j (part n)), (Z.div_mod (i - 1) (part n)) by done. fold bin r. congruence. }
      rewrite Hqs in W6, W7. cbn [iSize]. split.
      + intros j Hj H. apply Hiff in H; [|done]. destruct (bin_range n j ltac:(lia) Hj) as [_ Hj2]. destruct (Z.eqb_spec (j / part n) bin) as [E1|E1]; [|by right].
        destruct (W6 _ Hj2 H) as [Er|Ho]; [left; apply Heq; [done..|lia]|right; by apply Hold].
      + intros Hok j Hj H. apply Hiff; [done|]. destruct (bin_range n j ltac:(lia) Hj) as [_ Hj2]. destruct (Z.eqb_spec (j / part n) bin) as [E1|E1].
        * apply W7; [done..|]. destruct H as [->|H]; [left; fold r; lia|right; by apply Hold].
        * destruct H as [->|H]; [by destruct E1|done]. }
  destruct sub as [q|].
  - apply Hgo; [by eapply Hw|by eapply Hs|right; eauto|done|]. intros j Hj. split; [eauto|]. by intros (q0 & [= ->] & ?).
  - pose proof (create_spec (part n) mem ltac:(lia)) as Hc. destruct (sqlite3BitvecCreate (part n) mem) as [[q|] mem1].
    + destruct Hc as (C1 & C2 & C3 & C4 & C5). apply Hgo; [done|done|by left|done|]. intros j Hj. split; [intros H; by destruct (C4 j)|by intros (q0 & [=] & _)].
    + eexists _, _, mem1. split; [reflexivity|]. split; [done|]. split; [done|]. split; [done|]. split; [by right|]. split; [done|]. split; [by right|done].
Qed.

(** A hash table that is full enough becomes a tree. *)
Lemma set_rehash fuel n a i mem :
  BITVEC_NBIT < n < 2 ^ 32 -> table_ok n a -> used a < BITVEC_NINT -> 1 <= i <= n ->
  (forall q v mem, wf q -> iSize q = n -> iDivisor q = part n -> 1 <= v <= n -> set_post q v mem (sqlite3BitvecSet_from fuel q v mem)) ->
  set_post (mkBitvec n (used a) 0 (aHash a)) i mem
    (let '(ok, mem) := alloc mem in
     if negb ok then Some (SQLITE_NOMEM, mkBitvec n (used a) 0 (aHash a), mem) else
     '(rc, q, mem) ← sqlite3BitvecSet_from fuel (mkBitvec n (used a) (part n) (apSub (replicate (Z.to_nat BITVEC_NPTR) None))) i mem;
     rehash_values (sqlite3BitvecSet_from fuel) a rc q mem).
Proof.
  intros Hn Ha Hu Hi Hset. pose proof (part_bounds n ltac:(lia)) as [_ Hp0]. set (q0 := mkBitvec n (used a) (part n) (apSub (replicate (Z.to_nat BITVEC_NPTR) None))).
  assert (Hnone : forall j (q : Bitvec), at_ (replicate (Z.to_nat BITVEC_NPTR) None) j <> Some (Some q)) by (intros j q Hj; unfold at_ in Hj; by apply lookup_replicate in Hj as [? _]).
  assert (Hq0 : wf q0) by (apply wf_sub; [done|done|intros j q Hj; by destruct (Hnone j q)..]).
  assert (Hno : forall j, ~ has q0 j) by (intros j Hj; apply has_sub_iff in Hj as (q & Hq & _); by apply Hnone in Hq).
  assert (Hm : forall m, alloc mem = (false, m) -> mem <> []) by (by intros m Hm ->).
  assert (Hm2 : forall b m, alloc mem = (b, m) -> mem = [] -> m = []) by (by intros b m Hb ->; injection Hb).
  destruct (alloc mem) as [[|] mem1] eqn:Em; cbn [negb].
  - specialize (Hm2 _ _ eq_refl). destruct (Hset q0 i mem1 Hq0 eq_refl eq_refl Hi) as (rc & q & mem2 & E & W1 & W2 & W3 & W4 & W5 & W6 & W7). rewrite E. cbn [mbind option_bind].
    destruct (rehash_spec (sqlite3BitvecSet_from fuel) n a rc q mem2 Hset Hp0) as (rc' & q' & mem' & E' & R1 & R2 & R3 & R4 & R5 & R6 & R7);
      [|done|done|by apply W3|done|].
    { intros v (s & Hs & Hv)%elem_at. by apply (tb_range _ _ Ha s). }
    exists rc', q', mem'. split; [done|]. split; [done|]. split; [done|]. split; [done|]. split; [done|]. cbn [iSize] in *. split; [|split].
    + intros Hmem. destruct (W5 (Hm2 Hmem)) as [-> ?]. by apply R5.
    + intros j Hj H. rewrite has_hash_iff. destruct (R6 j Hj H) as [?|H']; [by right|]. destruct (W6 j Hj H') as [?|H'']; [by left|]. by destruct (Hno j).
    + intros Hok j Hj H. rewrite has_hash_iff in H. apply R7; [done..|]. destruct H as [->|?]; [right; apply W7; [by apply R4|done|by left]|by left].
  - eexists _, _, mem1. split; [reflexivity|]. split; [by apply wf_hash|]. split; [done|]. split; [done|]. split; [by right|]. split; [intros H; by destruct (Hm _ eq_refl)|].
    split; [by right|done].
Qed.

Lemma set_hash_free n a i mem h :
  BITVEC_NBIT < n < 2 ^ 32 -> table_ok n a -> used a < BITVEC_NINT - 1 -> 1 <= i <= n -> i ∉ a ->
  (exists d, run_length a (hash i) d /\ h = slot (hash i) d) ->
  set_post (mkBitvec n (used a) 0 (aHash a)) i mem (Some (SQLITE_OK, mkBitvec n (used a + 1) 0 (aHash (put a h i)), mem)).
Proof.
  intros Hn Ha Hu Hi Hia (d & Hd & ->). destruct (table_put n a i d Ha Hd ltac:(lia) Hia Hi) as [Hp Hin]. pose proof Hd as (Hd1 & Hd2 & _).
  assert (Hup : used (put a (slot (hash i) d) i) = used a + 1) by (apply used_put; [apply slot_range|done|lia]).
  eexists _, _, mem. split; [reflexivity|]. split; [rewrite <- Hup; apply wf_hash; [done|done|lia]|]. split; [done|]. split; [done|]. split; [by left|]. split; [done|].
  cbn [iSize]. assert (Hiff : forall j, 0 <= j < n -> has (mkBitvec n (used a + 1) 0 (aHash (put a (slot (hash i) d) i))) j <-> j = i - 1 \/ has (mkBitvec n (used a) 0 (aHash a)) j).
  { intros j Hj. rewrite !has_hash_iff, Hin by lia. assert (j + 1 = i <-> j = i - 1) by lia. tauto. }
  split; [intros j Hj H; by apply Hiff|intros _ j Hj H; by apply Hiff].
Qed.

Lemma set_spec fuel p i mem :
  wf p -> enough fuel p -> 1 <= i <= iSize p -> set_post p i mem (sqlite3BitvecSet_from fuel p i mem).
Proof.
  revert p i mem. induction fuel as [|fuel IH]; intros p i mem Hp (k & Hk & Hf) Hi; [destruct (iDivisor p =? 0) eqn:E; cbv iota in Hf; [lia|]|].
  { assert (k = O) as -> by lia. apply (proj1 (fits_0 _)) in Hk. destruct Hp as [n s a Hn Ha|n a Hn Ha Hu|n s a Hn Ha Hs Hw]; cbn [iSize iDivisor] in *; done || lia. }
  pose proof Hp as Hp'. destruct Hp as [n s a Hn Ha|n a Hn Ha Hu|n s a Hn Ha Hs Hw]; cbn [iSize iDivisor] in *; [by apply set_bitmap|..].
  - assert (Hset : forall q v mem, wf q -> iSize q = n -> iDivisor q = part n -> 1 <= v <= n -> set_post q v mem (sqlite3BitvecSet_from fuel q v mem)).
    { intros q v m Hq Hqn Hqd Hv. apply IH; [done| |by rewrite Hqn]. exists k. rewrite Hqn, Hqd. split; [done|]. pose proof (part_bounds n ltac:(lia)) as [_ Hp0].
      rewrite (proj2 (Z.eqb_neq _ _) Hp0). cbn in Hf. lia. }
    pose proof (set_rehash fuel n a i mem Hn Ha Hu Hi Hset) as Hre.
    cbn [sqlite3BitvecSet_from iSize iDivisor u nSet]. rewrite (proj2 (Z.ltb_lt 0 i)), (proj2 (Z.leb_le i n)) by lia. cbn [andb negb Z.eqb].
    rewrite andb_false_r, (proj2 (Z.leb_gt n _)) by lia. replace (i - 1 + 1) with i by lia.
    destruct (table_run n a i Ha Hu) as [d Hd]. pose proof Hd as (Hd1 & Hd2 & Hd3). pose proof (in_run n a i d Ha Hd ltac:(lia)) as Hin.
    destruct (at_is a (hash i)) as [v Hv]; [rewrite (tb_len _ _ Ha); apply hash_range|]. rewrite Hv. cbn [mbind option_bind].
    assert (H60 : BITVEC_MXHASH < BITVEC_NINT - 1) by done.
    destruct (Z.eqb_spec v 0) as [->|Hv0].
    + assert (d = 0) as ->. { destruct (Z.eq_dec d 0); [done|]. destruct (Hd3 0); [lia|]. by rewrite slot_0 by apply hash_range. }
      assert (Hni : i ∉ a) by (rewrite Hin; intros (j & Hj & _); lia).
      destruct (Z.ltb_spec (used a) (BITVEC_NINT - 1)).
      * apply set_hash_free; try done. exists 0. by rewrite slot_0 by apply hash_range.
      * rewrite (proj2 (Z.leb_le _ _)) by lia. exact Hre.
    + assert (Hd0 : d <> 0) by (intros ->; rewrite slot_0 in Hd2 by apply hash_range; congruence).
      destruct (aHash_slot_from a (tb_len _ _ Ha) (hash i) d Hd (Z.to_nat BITVEC_NINT) 0 i) as (r & Er & Hr); [lia|lia|lia|].
      rewrite slot_0 in Er by apply hash_range. rewrite Er. cbn [mbind option_bind]. destruct r as [h|].
      * destruct Hr as [-> Hr]. destruct (Z.leb_spec BITVEC_MXHASH (used a)); [exact Hre|]. apply set_hash_free; [done|done|lia|done| |by exists d].
        rewrite Hin. intros (j & Hj & Ej). by apply (Hr j).
      * eexists _, _, mem. split; [reflexivity|]. split; [done|]. split; [done|]. split; [done|]. split; [by left|]. split; [done|]. split; [by right|].
        intros _ j Hj [->|?]; [|done]. apply has_hash_iff. replace (i - 1 + 1) with i by lia. by apply Hin.
  - pose proof (part_bounds n ltac:(lia)) as [_ Hp0]. rewrite (proj2 (Z.eqb_neq _ _) Hp0) in Hf.
    destruct k as [|k]; [pose proof (proj1 (fits_0 _) Hk); lia|]. apply set_node; [done..|]. intros q v m Hq Hqs _ Hv. apply IH; [done| |by rewrite Hqs].
    exists k. rewrite Hqs. split; [by apply fits_part|]. destruct (iDivisor q =? 0); lia.
Qed.

(** ** Clearing *)

Lemma hash_filter_nodup n a : table_ok n a -> NoDup (filter (fun v => v <> 0) a).
Proof.
  intros Ha. assert (H : forall s t v, a !! s = Some v -> a !! t = Some v -> v <> 0 -> s = t).
  { intros s t v Hs Ht Hv. apply Nat2Z.inj, (tb_distinct _ _ Ha _ _ v); try lia; unfold at_; by rewrite Nat2Z.id. }
  clear Ha. induction a as [|v a IH]; [apply NoDup_nil_2|]. rewrite filter_cons.
  assert (IH' : NoDup (filter (fun v => v <> 0) a)) by (apply IH; intros s t w Hs Ht Hw; apply Nat.succ_inj; by apply (H (S s) (S t) w)).
  case_decide as Hv; [|done]. apply NoDup_cons. split; [|done]. intros [_ Hin]%list_elem_of_filter. apply list_elem_of_lookup in Hin as [t Ht].
  by specialize (H O (S t) v eq_refl Ht Hv).
Qed.

Lemma clear_bitmap k n s a i :
  0 <= n <= BITVEC_NBIT -> Z.of_nat (length a) = BITVEC_NELEM -> 0 <= i < n ->
  exists p', sqlite3BitvecClear_loop (S k) (mkBitvec n s 0 (aBitmap a)) i = Some p' /\ wf p' /\ iSize p' = n /\
    forall j, 0 <= j < n -> has p' j <-> has (mkBitvec n s 0 (aBitmap a)) j /\ j <> i.
Proof.
  intros Hn Ha Hi. cbn [sqlite3BitvecClear_loop iDivisor iSize u]. rewrite (proj2 (Z.leb_le _ _)) by lia. cbn [Z.eqb negb].
  assert (Hri : 0 <= i / BITVEC_SZELEM < Z.of_nat (length a)) by bv_arith. destruct (at_is a _ Hri) as [b Hb]. rewrite Hb. cbn [mbind option_bind].
  change (BITVEC_SZELEM - 1) with (Z.ones 3). rewrite Z.land_ones, Z.shiftl_1_l by lia. change (2 ^ 3) with 8.
  exists (mkBitvec n s 0 (aBitmap (put a (i / BITVEC_SZELEM) (Z.land b (Z.lnot (2 ^ (i mod 8))))))).
  split; [done|]. split; [by apply wf_bitmap; [|rewrite put_length]|]. split; [done|]. intros j Hj.
  assert (Hr : 0 <= j / BITVEC_SZELEM < Z.of_nat (length a)) by bv_arith. destruct (at_is a _ Hr) as [c Hc].
  pose proof (Z.mod_pos_bound i 8 ltac:(lia)). pose proof (Z.mod_pos_bound j 8 ltac:(lia)). rewrite (has_bitmap_iff n s a j c) by done.
  destruct (Z.eqb_spec (j / BITVEC_SZELEM) (i / BITVEC_SZELEM)) as [E|E].
  - rewrite E in Hc. rewrite Hb in Hc. injection Hc as <-.
    rewrite (has_bitmap_iff _ _ _ _ (Z.land b (Z.lnot (2 ^ (i mod 8))))) by (rewrite at_put, E, Z.eqb_refl by lia; done).
    rewrite Z.land_spec, Z.lnot_spec, Z.pow2_bits_eqb, andb_true_iff, negb_true_iff, Z.eqb_neq by lia.
    assert (i mod 8 = j mod 8 <-> j = i) by (change BITVEC_SZELEM with 8 in E; Z.to_euclidean_division_equations; lia). tauto.
  - rewrite (has_bitmap_iff _ _ _ _ c) by (rewrite at_put by lia; by rewrite (proj2 (Z.eqb_neq _ _))).
    split; [intros H'; split; [done|by intros ->]|by intros [? _]].
Qed.

Lemma clear_spec k p i :
  wf p -> fits k (iSize p) -> 0 <= i < iSize p ->
  exists p', sqlite3BitvecClear_loop (S k) p i = Some p' /\ wf p' /\ iSize p' = iSize p /\ forall j, 0 <= j < iSize p -> has p' j <-> has p j /\ j <> i.
Proof.
  revert p i. induction k as [|k IH]; intros p i Hp Hk Hi; destruct Hp as [n s a Hn Ha|n a Hn Ha Hu|n s a Hn Ha Hs Hw]; cbn [iSize] in *.
  2, 3: pose proof (proj1 (fits_0 _) Hk); lia.
  1, 2: by apply clear_bitmap.
  - cbn [sqlite3BitvecClear_loop iDivisor iSize u]. rewrite (proj2 (Z.leb_gt _ _)) by lia. cbn [Z.eqb negb].
    destruct (aHash_rebuild_spec n a (i + 1) 0 (replicate (Z.to_nat BITVEC_NINT) 0)) as (b & E & Hb & Hbu & Hin).
    { apply table_empty. lia. } { by rewrite used_empty. } { by rewrite used_empty. }
    { intros v (s & _ & Hv)%elem_at Hv0. split; [pose proof (tb_range _ _ Ha s v Hv); lia|]. by intros [? _]%elem_of_replicate. }
    { by eapply hash_filter_nodup. }
    rewrite E. cbn [mbind option_bind]. eexists. split; [reflexivity|]. split; [by apply wf_hash|]. split; [done|]. intros j Hj.
    rewrite !has_hash_iff, Hin, elem_of_replicate by lia. assert (j + 1 <> i + 1 <-> j <> i) by lia.
    split; [intros [[? _]|?]; [lia|tauto]|tauto].
  - pose proof (part_bounds n ltac:(lia)) as [Hp Hp0]. destruct (bin_range n i ltac:(lia) Hi) as [Hb1 Hb2].
    assert (Hkp : fits k (part n)) by (by apply fits_part). remember (S k) as k' eqn:Ek. cbn [sqlite3BitvecClear_loop iDivisor iSize u]. rewrite (proj2 (Z.eqb_neq _ _)) by done. cbn [negb]. subst k'.
    destruct (at_is a (i / part n)) as [[q|] Hq]; [lia|..]; rewrite Hq; cbn [mbind option_bind].
    + destruct (IH q (i mod part n) (Hw _ _ Hq)) as (q' & E & W & Wi & Hh); [by rewrite (Hs _ _ Hq)|by rewrite (Hs _ _ Hq)|].
      rewrite E. cbn [mbind option_bind]. exists (mkBitvec n s (part n) (apSub (put a (i / part n) (Some q')))). split; [reflexivity|]. rewrite (Hs _ _ Hq) in Wi, Hh.
      assert (Hat : forall j, 0 <= j -> at_ (put a (i / part n) (Some q')) j = if j =? i / part n then Some (Some q') else at_ a j) by (intros; apply at_put; lia).
      assert (Hin : forall j q1, at_ (put a (i / part n) (Some q')) j = Some (Some q1) -> q1 = q' \/ exists j, at_ a j = Some (Some q1)).
      { intros j q1 Hj. assert (E0 : at_ (put a (i / part n) (Some q')) j = at_ (put a (i / part n) (Some q')) (Z.max 0 j)) by (unfold at_; f_equal; lia).
        rewrite E0, Hat in Hj by lia. destruct (_ =? _) in Hj; [injection Hj as ->; by left|eauto]. }
      split; [apply (wf_sub n); [done|by rewrite put_length|..]; intros j q1 Hj; (destruct (Hin _ _ Hj) as [->|[j1 Hj1]]; [done|eauto])|].
      split; [done|]. intros j Hj. destruct (bin_range n j ltac:(lia) Hj) as [Hj1 Hj2]. rewrite !has_sub_iff, Hat by lia.
      destruct (Z.eqb_spec (j / part n) (i / part n)) as [Ej|Ej].
      * assert (Hji : j mod part n = i mod part n <-> j = i).
        { split; [|by intros ->]. intros Em. rewrite (Z.div_mod j (part n)), (Z.div_mod i (part n)) by done. congruence. }
        rewrite Ej, Hq. split.
        -- intros (q1 & [= <-] & H). apply Hh in H as [H1 H2]; [|done]. split; [eauto|tauto].
        -- intros [(q1 & [= <-] & H) Hne]. exists q'. split; [done|]. apply Hh; [done|]. tauto.
      * split; [intros (q1 & ? & ?); split; [eauto|by intros ->]|by intros [? _]].
    + eexists. split; [reflexivity|]. split; [by apply wf_sub|]. split; [done|]. intros j Hj. split; [|by intros [? _]]. intros H. split; [done|].
      intros ->. apply has_sub_iff in H as (q & E & _). congruence.
Qed.

(** ** The set that a bit vector is *)

Record is_set (n : Z) (p : Bitvec) (s : gset Z) : Prop := {
  is_wf : wf p;
  is_size : iSize p = n;
  is_elem i : 1 <= i <= n -> has p (i - 1) <-> i ∈ s;
  is_range i : i ∈ s -> 1 <= i <= n }.

Lemma is_set_test n p s i : n < 2 ^ 32 -> is_set n p s -> in_u 32 i -> sqlite3BitvecTest (Some p) i = Some (bool_decide (i ∈ s)).
Proof.
  intros Hn [Hp Hs He Hr] Hi. unfold in_u in Hi. cbn [sqlite3BitvecTest]. unfold sqlite3BitvecTestNotNull, wrap_u. rewrite Hs. destruct (Z.eq_dec i 0) as [->|Hi0].
  - change ((0 - 1) mod 2 ^ 32) with (2 ^ 32 - 1). rewrite (proj2 (Z.leb_le _ _)) by lia. rewrite bool_decide_eq_false_2; [done|]. intros H%Hr. lia.
  - rewrite Z.mod_small by lia. destruct (Z.leb_spec n (i - 1)).
    + rewrite bool_decide_eq_false_2; [done|]. intros H'%Hr. lia.
    + destruct (test_spec 4 p (i - 1) Hp ltac:(rewrite Hs; by apply fits_u32) ltac:(rewrite Hs; lia)) as (b & E & Hb). unfold depth. rewrite E. f_equal.
      rewrite He in Hb by lia. symmetry. destruct b; [apply bool_decide_eq_true_2|apply bool_decide_eq_false_2]; [by apply Hb|intros ?; by assert (false = true) by (by apply Hb)].
Qed.

(** Every good bit vector is a set. *)
Lemma some_set n p : n < 2 ^ 32 -> wf p -> iSize p = n -> exists s, is_set n p s.
Proof.
  intros Hn Hp Hs. exists (list_to_set (filter (fun i => sqlite3BitvecTestNotNull_loop depth p (i - 1) = Some true) (seqZ 1 n))).
  assert (H : forall i, 1 <= i <= n -> sqlite3BitvecTestNotNull_loop depth p (i - 1) = Some true <-> has p (i - 1)).
  { intros i Hi. destruct (test_spec 4 p (i - 1) Hp ltac:(rewrite Hs; by apply fits_u32) ltac:(lia)) as (b & E & Hb). unfold depth. rewrite E, <- Hb. split; congruence. }
  split; [done|done|..]; intros i; rewrite elem_of_list_to_set, list_elem_of_filter, elem_of_seqZ.
  - intros Hi. rewrite H by done. split; [intros ?; split; [done|lia]|by intros [? _]].
  - lia.
Qed.

Lemma is_set_set n p s i mem :
  n < 2 ^ 32 -> is_set n p s -> 1 <= i <= n ->
  exists rc p' mem', sqlite3BitvecSet (Some p) i mem = Some (rc, Some p', mem') /\ (mem = [] -> rc = SQLITE_OK /\ mem' = []) /\
    (rc = SQLITE_OK /\ is_set n p' ({[i]} ∪ s) \/ rc = SQLITE_NOMEM /\ exists s', s' ⊆ {[i]} ∪ s /\ is_set n p' s').
Proof.
  intros Hn [Hp Hs He Hr] Hi. destruct (set_spec (2 * depth) p i mem Hp) as (rc & p' & mem' & E & W1 & W2 & W3 & W4 & W5 & W6 & W7).
  { exists 4%nat. rewrite Hs. split; [by apply fits_u32|]. destruct (iDivisor p =? 0); cbn; lia. }
  { by rewrite Hs. }
  exists rc, p', mem'. cbn [sqlite3BitvecSet]. rewrite E. split; [done|]. split; [done|]. rewrite Hs in W2, W6, W7. destruct W4 as [->| ->].
  - left. split; [done|]. split; [done|done| |].
    + intros j Hj. rewrite elem_of_union, elem_of_singleton, <- He by done. assert (j - 1 = i - 1 <-> j = i) by lia.
      split; [intros H'; apply W6 in H'; [tauto|lia]|intros H'; apply W7; [done|lia|tauto]].
    + intros j. rewrite elem_of_union, elem_of_singleton. intros [->|?]; [done|auto].
  - right. split; [done|]. destruct (some_set n p' Hn W1 W2) as (s' & Hs'). exists s'. split; [|done].
    intros j Hj. rewrite elem_of_union, elem_of_singleton. pose proof (is_range _ _ _ Hs' j Hj) as Hjr. apply (is_elem _ _ _ Hs') in Hj; [|done].
    apply W6 in Hj; [|lia]. destruct Hj as [?|?]; [left; lia|right; by apply He].
Qed.

Lemma is_set_clear n p s i :
  n < 2 ^ 32 -> is_set n p s -> 1 <= i <= n -> exists p', sqlite3BitvecClear (Some p) i = Some (Some p') /\ is_set n p' (s ∖ {[i]}).
Proof.
  intros Hn [Hp Hs He Hr] Hi. cbn [sqlite3BitvecClear]. rewrite (proj2 (Z.ltb_lt 0 i)) by lia. cbn [negb].
  destruct (clear_spec 4 p (i - 1) Hp ltac:(rewrite Hs; by apply fits_u32) ltac:(rewrite Hs; lia)) as (p' & E & W1 & W2 & W3).
  unfold depth. rewrite E. cbn [mbind option_bind]. exists p'. split; [done|]. rewrite Hs in W2, W3. split; [done|done| |].
  - intros j Hj. rewrite W3, He, elem_of_difference, elem_of_singleton by lia. assert (j - 1 <> i - 1 <-> j <> i) by lia. tauto.
  - intros j [Hj _]%elem_of_difference. auto.
Qed.

Lemma is_set_create n mem p mem' :
  0 <= n < 2 ^ 32 -> sqlite3BitvecCreate n mem = (Some p, mem') -> is_set n p ∅.
Proof.
  intros Hn E. pose proof (create_spec n mem Hn) as H. rewrite E in H. destruct H as (H1 & H2 & _ & H4 & _). split; [done|done| |].
  - intros i Hi. split; [intros H; by destruct (H4 (i - 1)); [lia|]|by intros ?%elem_of_empty].
  - by intros i ?%elem_of_empty.
Qed.

(** ** Programs of operations *)

Inductive bop := BSet (i : Z) | BClear (i : Z) | BTest (i : Z).

(** The answers of the tests, up to the first failure of an allocation. *)
Fixpoint run_bitvec (p : option Bitvec) (mem : list bool) (ops : list bop) : option (list bool) :=
  match ops with
  | [] => Some []
  | BTest i :: ops => b ← sqlite3BitvecTest p i; l ← run_bitvec p mem ops; Some (b :: l)
  | BSet i :: ops => '(rc, p, mem) ← sqlite3BitvecSet p i mem; if rc =? SQLITE_OK then run_bitvec p mem ops else Some []
  | BClear i :: ops => p ← sqlite3BitvecClear p i; run_bitvec p mem ops
  end.

Fixpoint run_set (s : gset Z) (ops : list bop) : list bool :=
  match ops with
  | [] => []
  | BTest i :: ops => bool_decide (i ∈ s) :: run_set s ops
  | BSet i :: ops => run_set ({[i]} ∪ s) ops
  | BClear i :: ops => run_set (s ∖ {[i]}) ops
  end.

Definition bop_ok (n : Z) (o : bop) : Prop :=
  match o with BSet i | BClear i => 1 <= i <= n | BTest i => in_u 32 i end.

Lemma run_bitvec_spec n p s mem ops :
  n < 2 ^ 32 -> is_set n p s -> Forall (bop_ok n) ops ->
  exists l, run_bitvec (Some p) mem ops = Some l /\ l `prefix_of` run_set s ops /\ (mem = [] -> l = run_set s ops).
Proof.
  intros Hn. revert p s mem. induction ops as [|o ops IH]; intros p s mem Hp Ho; [exists []; split; [done|]; by split|].
  apply Forall_cons in Ho as [Ho Hops]. destruct o as [i|i|i]; cbn [run_bitvec run_set bop_ok] in *.
  - destruct (is_set_set n p s i mem Hn Hp Ho) as (rc & p' & mem' & E & Hm & Hr). rewrite E. cbn [mbind option_bind]. destruct Hr as [[-> Hp']|[-> _]]; cbn [Z.eqb SQLITE_OK].
    + destruct (IH p' _ mem' Hp' Hops) as (l & El & Hl1 & Hl2). exists l. split; [done|]. split; [done|]. intros H. by apply Hl2, Hm.
    + exists []. split; [done|]. split; [apply prefix_nil|]. intros H. by destruct (Hm H).
  - destruct (is_set_clear n p s i Hn Hp Ho) as (p' & E & Hp'). rewrite E. cbn [mbind option_bind]. by apply IH.
  - rewrite (is_set_test n p s i Hn Hp Ho). cbn [mbind option_bind]. destruct (IH p s mem Hp Hops) as (l & -> & Hl1 & Hl2). eexists. split; [reflexivity|].
    split; [by apply prefix_cons|]. intros H. by rewrite (Hl2 H).
Qed.

(** C34: A bit vector is a set of numbers.  On a new bit vector of [n] bits, every program
    of settings and clearings within its range and of tests of any 32-bit number gives the
    answers of a finite set, up to the first setting that fails for lack of memory; none
    fails while there is memory.  No operation overruns its arrays, fails an assert or
    searches a hash table for ever, in any of the three representations and while one
    turns into another. *)
Theorem bitvec_refines_set n mem ops p mem' :
  0 <= n < 2 ^ 32 -> Forall (bop_ok n) ops -> sqlite3BitvecCreate n mem = (Some p, mem') ->
  exists l, run_bitvec (Some p) mem' ops = Some l /\ l `prefix_of` run_set ∅ ops /\ (mem = [] -> l = run_set ∅ ops).
Proof.
  intros Hn Ho E. pose proof (is_set_create n mem p mem' Hn E) as Hp. destruct (run_bitvec_spec n p ∅ mem' ops ltac:(lia) Hp Ho) as (l & El & H1 & H2).
  exists l. split; [done|]. split; [done|]. intros ->. apply H2. by injection E.
Qed.

(** Running out of memory.  If setting a bit fails, the code is SQLITE_NOMEM and the
    bit vector is still good: no bit is set that was not, but for the one that was asked
    for, and the search for a bit still ends; but bits that were set may be lost. *)
Theorem bitvec_set_fails n p s i mem rc p' mem' :
  n < 2 ^ 32 -> is_set n p s -> 1 <= i <= n -> sqlite3BitvecSet (Some p) i mem = Some (rc, Some p', mem') -> rc <> SQLITE_OK ->
  rc = SQLITE_NOMEM /\ wf p' /\ forall j, in_u 32 j -> exists b, sqlite3BitvecTest (Some p') j = Some b /\ (b = true -> j = i \/ j ∈ s).
Proof.
  intros Hn Hp Hi E Hrc. destruct (is_set_set n p s i mem Hn Hp Hi) as (rc1 & p1 & mem1 & E1 & _ & Hr). rewrite E in E1. injection E1 as <- <- <-.
  destruct Hr as [[-> _]|[-> (s' & Hs' & Hp')]]; [done|]. split; [done|]. split; [apply Hp'|]. intros j Hj. exists (bool_decide (j ∈ s')).
  split; [by apply (is_set_test n)|]. intros H%bool_decide_eq_true. apply Hs' in H. by rewrite elem_of_union, elem_of_singleton in H.
Qed.

(** ** Concrete bit vectors

    A tree of 5000 bits, and what a failed allocation does to a full hash table. *)
Definition many (l : list Z) : list bop := BSet <$> l.
Definition ex_ops : list bop := many (seqZ 1 70) ++ many [4000; 5000] ++ [BClear 3; BTest 3; BTest 4; BTest 5000; BTest 4999; BTest 0; BTest 5001].

Example ex_bitvec : run_bitvec (sqlite3BitvecCreate 5000 []).1 [] ex_ops = Some [false; true; true; false; false; false].
Proof. vm_compute. reflexivity. Qed.

Definition full_hash : option Bitvec :=
  foldl (fun p i => match sqlite3BitvecSet p i [] with Some (_, p, _) => p | None => None end) (sqlite3BitvecCreate 5000 []).1 ((fun k => k * 2) <$> seqZ 1 62).

(** The setting that makes a tree of the table loses the bit 2, which was in it. *)
Example ex_lost :
  (sqlite3BitvecTest full_hash 2, match sqlite3BitvecSet full_hash 126 [true; true; false] with
    | Some (rc, p, _) => Some (rc, sqlite3BitvecTest p 2, sqlite3BitvecTest p 124) | None => None end)
  = (Some true, Some (SQLITE_NOMEM, Some false, Some true)).
Proof. vm_compute. reflexivity. Qed.

Lemma full_hash_set : exists p s, full_hash = Some p /\ is_set 5000 p s.
Proof.
  assert (H : forall l p s, is_set 5000 p s -> Forall (fun i => 1 <= i <= 5000) l ->
    exists p' s', foldl (fun p i => match sqlite3BitvecSet p i [] with Some (_, p, _) => p | None => None end) (Some p) l = Some p' /\ is_set 5000 p' s').
  { intros l. induction l as [|i l IH]; intros p s Hp Hl; [by exists p, s|]. apply Forall_cons in Hl as [Hi Hl].
    destruct (is_set_set 5000 p s i [] ltac:(lia) Hp Hi) as (rc & p' & mem' & E & _ & Hr). cbn [foldl]. rewrite E.
    destruct Hr as [[_ Hr]|[_ (s' & _ & Hr)]]; by eapply IH. }
  apply (H _ (mkBitvec 5000 0 0 (aHash (replicate (Z.to_nat BITVEC_NINT) 0))) ∅).
  - apply (is_set_create 5000 [] _ []); [lia|reflexivity].
  - apply Forall_forall. intros i (k & -> & Hk%elem_of_seqZ)%list_elem_of_fmap. lia.
Qed.

Lemma bitvec_set_fails_witness :
  exists p (s : gset Z) rc p' mem', full_hash = Some p /\ sqlite3BitvecSet full_hash 126 [true; true; false] = Some (rc, Some p', mem') /\ rc <> SQLITE_OK /\
    exists b, sqlite3BitvecTest (Some p') 124 = Some b /\ (b = true -> 124 = 126 \/ 124 ∈ s).
Proof.
  destruct full_hash_set as (p & s & Ep & Hp).
  assert (E : exists rc p' mem', sqlite3BitvecSet full_hash 126 [true; true; false] = Some (rc, Some p', mem') /\ rc <> SQLITE_OK) by (eexists _, _, _; split; [vm_compute; reflexivity|discriminate]).
  destruct E as (rc & p' & mem' & E & Hrc). exists p, s, rc, p', mem'. split; [exact Ep|]. split; [exact E|]. split; [exact Hrc|].
  rewrite Ep in E. destruct (bitvec_set_fails 5000 p s 126 _ rc p' mem' ltac:(lia) Hp ltac:(lia) E Hrc) as (_ & _ & H). apply H. unfold in_u. lia.
Defined.

Lemma bitvec_refines_set_witness : exists l, run_bitvec (sqlite3BitvecCreate 5000 []).1 [] ex_ops = Some l /\ l = run_set ∅ ex_ops.
Proof.
  destruct (bitvec_refines_set 5000 [] ex_ops (mkBitvec 5000 0 0 (aHash (replicate (Z.to_nat BITVEC_NINT) 0))) []) as (l & H1 & _ & H2).
  - lia.
  - apply Forall_forall. intros o Ho. assert (H : forallb (fun o => match o with BSet i | BClear i => (1 <=? i) && (i <=? 5000) | BTest i => (0 <=? i) && (i <? 2 ^ 32) end) ex_ops = true) by (vm_compute; reflexivity).
    rewrite forallb_forall in H. specialize (H o ltac:(by apply list_elem_of_In)). destruct o as [i|i|i]; unfold bop_ok, in_u; apply andb_true_iff in H as [H3 H4]; bool_to_prop; lia.
  - reflexivity.
  - exists l. split; [exact H1|by apply H2].
Defined.
