(* ===== verification/Disk.v ===== *)
(** Files that outlive a loss of power, and programs that use them.

    The pager (src/sqlite-src-3280000/src/pager.c) makes its calls on a database and on
    its rollback journal, through the interface of sqlite3_io_methods and sqlite3_vfs
    (src/sqlite-src-3280000/src/sqlite.h.in).  A file is what a read sees, [cur], and
    the contents that a loss of power may leave, [poss], one version for each write
    since the last sync.  The assumptions are those of the comments of pager.c: a sector
    is written as a whole or not at all, sectors in any order; what a file grows by may
    be garbage until the next sync, but not the header of a journal. *)
From S2P Require Import Prelude.

Abbreviation bytes := (list Z).

(** ** Result codes and constants of the interface *)

Definition SQLITE_OK : Z := 0.
Definition SQLITE_BUSY : Z := 5.
Definition SQLITE_ABORT : Z := 4.
Definition SQLITE_NOMEM : Z := 7.
Definition SQLITE_IOERR : Z := 10.
Definition SQLITE_CORRUPT : Z := 11.
Definition SQLITE_FULL : Z := 13.
Definition SQLITE_CANTOPEN : Z := 14.
Definition SQLITE_DONE : Z := 101.
Definition SQLITE_IOERR_SHORT_READ : Z := Z.lor SQLITE_IOERR (Z.shiftl 2 8).

(** The codes by which a call reports that it failed. *)
Definition is_error (rc : Z) : Prop := rc <> SQLITE_OK /\ rc <> SQLITE_IOERR_SHORT_READ /\ rc <> SQLITE_DONE.

(** Those of a call that writes, which os_unix.c reports by these. *)
Definition is_ioerr (rc : Z) : Prop := is_error rc /\ (Z.land rc 0xff = SQLITE_FULL \/ Z.land rc 0xff = SQLITE_IOERR).

(** ** Contents *)

Definition lenz (c : bytes) : Z := Z.of_nat (length c).
Definition get (c : bytes) (i : Z) : option Z := if 0 <=? i then c !! Z.to_nat i else None.
Definition slice (c : bytes) (off n : Z) : bytes := take (Z.to_nat n) (drop (Z.to_nat off) c).
Definition zeros (n : Z) : bytes := replicate (Z.to_nat n) 0.

(** What a read of [n] bytes returns, with zeros past the end. *)
Definition read_at (c : bytes) (off n : Z) : bytes := slice c off n ++ zeros (n - lenz (slice c off n)).

Definition write_at (c : bytes) (off : Z) (d : bytes) : bytes :=
  take (Z.to_nat off) (c ++ zeros (off - lenz c)) ++ d ++ drop (Z.to_nat (off + lenz d)) c.

Definition resize (c : bytes) (n : Z) : bytes := take (Z.to_nat n) (c ++ zeros (n - lenz c)).

(** The bytes by which a header of a journal is known. *)
Definition aJournalMagic : bytes := [0xd9; 0xd5; 0x05; 0xf9; 0x20; 0xa1; 0x63; 0xd7].
Definition magic_at (c : bytes) (o : Z) : Prop := slice c o 8 = aJournalMagic.

(** The file has grown from [c] on its way to [w]. *)
Definition grown (c w v : bytes) : Prop :=
  lenz c <= lenz v <= lenz w /\ (forall i, i < lenz c -> get v i = get c i) /\
  forall o, 0 <= o -> magic_at v o -> o + 8 <= lenz c \/ magic_at w o.

Definition write_versions (c : bytes) (off : Z) (d : bytes) (v : bytes) : Prop :=
  v = write_at c off d \/ grown c (write_at c off d) v.

(** Each sector of [img] is that of some version. *)
Definition mixed (sector : Z) (P : bytes -> Prop) (img : bytes) : Prop :=
  (exists v, P v /\ lenz v = lenz img) /\
  forall s, 0 <= s -> exists v, P v /\ forall i, s * sector <= i < (s + 1) * sector -> i < lenz img -> i < lenz v /\ get img i = get v i.

(** ** Disks *)

Record vfile := mkFile { cur : option bytes; poss : option bytes -> Prop }.

Inductive fname := Db | Jrnl.

Record disk := mkDisk { dbf : vfile; jrn : vfile }.

Definition file (s : disk) (f : fname) : vfile := match f with Db => dbf s | Jrnl => jrn s end.
Definition set_file (s : disk) (f : fname) (x : vfile) : disk := match f with Db => mkDisk x (jrn s) | Jrnl => mkDisk (dbf s) x end.

(** New contents of a file, and new versions. *)
Definition update (s : disk) (f : fname) (x : option bytes) (P : option bytes -> Prop) : disk :=
  set_file s f (mkFile x (fun v => poss (file s f) v \/ v = x \/ P v)).
Definition settle (s : disk) (f : fname) : disk := set_file s f (mkFile (cur (file s f)) (fun v => v = cur (file s f))).

Definition lift (P : bytes -> Prop) (x : option bytes) : Prop := match x with Some v => P v | None => False end.

(** What a loss of power may leave of a file. *)
Definition survives (sector : Z) (f : vfile) (x : option bytes) : Prop :=
  match x with None => poss f None | Some img => mixed sector (fun v => poss f (Some v)) img end.

(** ** Programs

    The calls.  [HasMoved] asks whether the database still has its name; [Open] opens the journal, creating it if need be; [Delete] takes whether
    the directory is synced; [Exists] is xAccess on the journal.  [MasterExists] is
    xAccess on the master journal a journal names, [DelMaster] what [pager_delmaster]
    does to other files than the two; [Lock] and [Unlock] are the calls on the lock of
    the database and [Reserved] is xCheckReservedLock; [Malloc] answers which allocations
    succeed, as [Bitvec.alloc] takes it. *)
Inductive op : Set -> Type :=
  | Read (f : fname) (off n : Z) : op (Z * bytes)
  | Write (f : fname) (off : Z) (d : bytes) : op Z
  | Truncate (f : fname) (n : Z) : op Z
  | Sync (f : fname) : op Z
  | FileSize (f : fname) : op (Z * Z)
  | HasMoved : op Z
  | Open : op Z
  | Delete (dirSync : bool) : op Z
  | Exists : op (Z * bool)
  | MasterExists (zMaster : bytes) : op (Z * bool)
  | DelMaster (zMaster : bytes) : op Z
  | Lock (eLock : Z) : op Z
  | Unlock (eLock : Z) : op Z
  | Reserved : op (Z * bool)
  | Randomness : op Z
  | Malloc : op (list bool).

Inductive prog (A : Type) :=
  | Ret (a : A)
  | Op {X : Set} (o : op X) (k : X -> prog A)
  | Crash.
Arguments Ret {A}. Arguments Op {A X}. Arguments Crash {A}.

Fixpoint pbind {A B} (p : prog A) (f : A -> prog B) : prog B :=
  match p with
  | Ret a => f a
  | Op o k => Op o (fun x => pbind (k x) f)
  | Crash => Crash
  end.

#[global] Instance disk_prog_ret : MRet prog := @Ret.
#[global] Instance disk_prog_bind : MBind prog := fun A B f p => pbind p f.

Definition call {X : Set} (o : op X) : prog X := Op o Ret.
Definition assert (b : bool) : prog unit := if b then Ret () else Crash.

(** ** Steps

    What a call answers and what it does to the disk.  A write that fails leaves any of
    its sectors written.  No other process uses the two files, and a master journal that
    a journal names is there.  Allocations succeed: the paths of pager.c on SQLITE_NOMEM
    are in the programs, but no theorem takes them.  Nothing is said of a call on a file
    that is not there. *)
Section steps.
Context (sector : Z).

Definition step {X : Set} (o : op X) (s : disk) : X -> disk -> Prop :=
  match o in op X return X -> disk -> Prop with
  | Read f off n => fun '(rc, d) s' => s' = s /\ lenz d = n /\
      forall c, cur (file s f) = Some c ->
        (rc = SQLITE_OK /\ off + n <= lenz c /\ d = slice c off n) \/ (rc = SQLITE_IOERR_SHORT_READ /\ lenz c < off + n /\ d = read_at c off n) \/ is_error rc
  | Write f off d => fun rc s' => forall c, cur (file s f) = Some c ->
      (rc = SQLITE_OK /\ s' = update s f (Some (write_at c off d)) (lift (write_versions c off d))) \/
      (is_ioerr rc /\ exists v, mixed sector (fun v => v = c \/ write_versions c off d v) v /\ s' = update s f (Some v) (lift (write_versions c off d)))
  | Truncate f n => fun rc s' => forall c, cur (file s f) = Some c ->
      (rc = SQLITE_OK /\ s' = update s f (Some (resize c n)) (fun _ => False)) \/ (is_ioerr rc /\ s' = s)
  | Sync f => fun rc s' => (rc = SQLITE_OK /\ s' = settle s f) \/ (is_ioerr rc /\ s' = s)
  | FileSize f => fun '(rc, n) s' => s' = s /\ forall c, cur (file s f) = Some c -> (rc = SQLITE_OK /\ n = lenz c) \/ is_error rc
  | HasMoved => fun rc s' => s' = s /\ (rc = SQLITE_OK \/ is_error rc)
  | Open => fun rc s' =>
      (rc = SQLITE_OK /\ s' = match cur (jrn s) with Some _ => s | None => update s Jrnl (Some []) (fun _ => False) end) \/ (is_error rc /\ s' = s)
  | Delete dirSync => fun rc s' =>
      (rc = SQLITE_OK /\ s' = (if dirSync then settle (update s Jrnl None (fun _ => False)) Jrnl else update s Jrnl None (fun _ => False))) \/
      (is_error rc /\ (s' = s \/ s' = update s Jrnl None (fun _ => False)))
  | Exists => fun '(rc, b) s' => s' = s /\ ((rc = SQLITE_OK /\ b = bool_decide (is_Some (cur (jrn s)))) \/ is_error rc)
  | MasterExists _ => fun '(rc, b) s' => s' = s /\ ((rc = SQLITE_OK /\ b = true) \/ is_error rc)
  | DelMaster _ => fun rc s' => s' = s /\ (rc = SQLITE_OK \/ is_error rc)
  | Lock _ => fun rc s' => s' = s /\ (rc = SQLITE_OK \/ is_error rc)
  | Unlock _ => fun rc s' => s' = s /\ (rc = SQLITE_OK \/ is_error rc)
  | Reserved => fun '(rc, b) s' => s' = s /\ ((rc = SQLITE_OK /\ b = false) \/ is_error rc)
  | Randomness => fun v s' => s' = s /\ in_u 32 v
  | Malloc => fun mem s' => s' = s /\ mem = []
  end.

(** The files that a call needs. *)
Definition enabled {X : Set} (o : op X) (s : disk) : Prop :=
  match o with
  | Read f _ _ | Write f _ _ | Truncate f _ | Sync f | FileSize f => is_Some (cur (file s f))
  | _ => True
  end.

(** [wpc p Q C s]: the program [p], started on [s], ends with [Q] if it is not
    interrupted, and [C] holds whenever it is.  It is defined on every answer of the
    system, so nothing fails an assert. *)
Fixpoint wpc {A} (p : prog A) (Q : A -> disk -> Prop) (C : disk -> Prop) (s : disk) : Prop :=
  C s /\
  match p with
  | Ret a => Q a s
  | Op o k => enabled o s /\ forall x s', step o s x s' -> wpc (k x) Q C s'
  | Crash => False
  end.

End steps.

(** ** Runs

    The run of a program on two files on which no call fails; [answer] gives what the
    environment answers. *)
Definition image : Type := option bytes * option bytes.
Definition img_file (m : image) (f : fname) : option bytes := match f with Db => m.1 | Jrnl => m.2 end.
Definition img_set (m : image) (f : fname) (x : option bytes) : image := match f with Db => (x, m.2) | Jrnl => (m.1, x) end.

Definition run_op {X : Set} (o : op X) (m : image) : option (X * image) :=
  match o in op X return option (X * image) with
  | Read f off n => c ← img_file m f; Some ((if off + n <=? lenz c then SQLITE_OK else SQLITE_IOERR_SHORT_READ, read_at c off n), m)
  | Write f off d => c ← img_file m f; Some (SQLITE_OK, img_set m f (Some (write_at c off d)))
  | Truncate f n => c ← img_file m f; Some (SQLITE_OK, img_set m f (Some (resize c n)))
  | Sync f => Some (SQLITE_OK, m)
  | FileSize f => c ← img_file m f; Some ((SQLITE_OK, lenz c), m)
  | HasMoved => Some (SQLITE_OK, m)
  | Open => Some (SQLITE_OK, match m.2 with Some _ => m | None => (m.1, Some []) end)
  | Delete _ => Some (SQLITE_OK, (m.1, None))
  | Exists => Some ((SQLITE_OK, match m.2 with Some _ => true | None => false end), m)
  | MasterExists _ => Some ((SQLITE_OK, true), m)
  | DelMaster _ => Some (SQLITE_OK, m)
  | Lock _ => Some (SQLITE_OK, m)
  | Unlock _ => Some (SQLITE_OK, m)
  | Reserved => Some ((SQLITE_OK, false), m)
  | Randomness => Some (12345, m)
  | Malloc => Some ([], m)
  end.

Fixpoint run {A} (p : prog A) (m : image) : option (A * image) :=
  match p with
  | Ret a => Some (a, m)
  | Op o k => '(x, m) ← run_op o m; run (k x) m
  | Crash => None
  end.
