(* ===== verification/DiskSpec.v ===== *)
(** Laws of [Disk]: bytes of files, mixtures of versions, and the rules of [wpc]. *)
From S2P Require Import Prelude Disk.

(** ** Bytes *)

Lemma lenz_nonneg c : 0 <= lenz c.
Proof. unfold lenz. lia. Qed.

#[export] Hint Resolve lenz_nonneg : core.

Lemma lenz_app c d : lenz (c ++ d) = lenz c + lenz d.
Proof. unfold lenz. rewrite length_app. lia. Qed.

Lemma lenz_zeros n : lenz (zeros n) = Z.max 0 n.
Proof. unfold lenz, zeros. rewrite length_replicate. lia. Qed.

Lemma get_Some c i x : get c i = Some x -> 0 <= i < lenz c.
Proof. unfold get, lenz. destruct (Z.leb_spec 0 i); [|done]. intros ?%lookup_lt_Some. lia. Qed.

Lemma get_is c i : 0 <= i < lenz c -> exists x, get c i = Some x.
Proof. unfold get, lenz. intros Hi. rewrite (proj2 (Z.leb_le 0 i)) by lia. apply lookup_lt_is_Some_2. lia. Qed.

Lemma get_None c i : i < 0 \/ lenz c <= i -> get c i = None.
Proof. intros Hi. destruct (get c i) as [x|] eqn:E; [|done]. apply get_Some in E. lia. Qed.

Lemma get_nat c (k : nat) : get c (Z.of_nat k) = c !! k.
Proof. unfold get. rewrite (proj2 (Z.leb_le _ _)) by lia. by rewrite Nat2Z.id. Qed.

Lemma get_ext c d : (forall i, 0 <= i -> get c i = get d i) -> c = d.
Proof. intros H. apply list_eq. intros k. rewrite <- !get_nat. apply H. lia. Qed.

Lemma get_app c d i : get (c ++ d) i = if i <? lenz c then get c i else get d (i - lenz c).
Proof.
  unfold get, lenz. destruct (Z.ltb_spec i (Z.of_nat (length c))).
  - destruct (Z.leb_spec 0 i); [|done]. rewrite lookup_app_l; [done|lia].
  - rewrite (proj2 (Z.leb_le 0 i)), (proj2 (Z.leb_le 0 (i - _))) by lia. rewrite lookup_app_r by lia. f_equal. lia.
Qed.

Lemma get_zeros n i : get (zeros n) i = if (0 <=? i) && (i <? n) then Some 0 else None.
Proof.
  unfold get, zeros. destruct (Z.leb_spec 0 i); [cbn|done]. destruct (Z.ltb_spec i n).
  - apply lookup_replicate. split; [done|lia].
  - apply lookup_ge_None. rewrite length_replicate. lia.
Qed.

Lemma get_take c n i : get (take (Z.to_nat n) c) i = if i <? n then get c i else None.
Proof.
  unfold get. destruct (Z.leb_spec 0 i), (Z.ltb_spec i n); try done.
  - apply lookup_take_lt. lia.
  - apply lookup_take_ge. lia.
Qed.

Lemma get_drop c n i : 0 <= n -> 0 <= i -> get (drop (Z.to_nat n) c) i = get c (n + i).
Proof. intros. unfold get. rewrite !(proj2 (Z.leb_le _ _)) by lia. rewrite lookup_drop. f_equal. lia. Qed.

Lemma lenz_take c n : lenz (take (Z.to_nat n) c) = Z.max 0 (Z.min n (lenz c)).
Proof. unfold lenz. rewrite length_take. lia. Qed.

Lemma lenz_drop c n : 0 <= n -> lenz (drop (Z.to_nat n) c) = Z.max 0 (lenz c - n).
Proof. unfold lenz. rewrite length_drop. lia. Qed.

Lemma get_slice c off n i : 0 <= off -> 0 <= i -> get (slice c off n) i = if i <? n then get c (off + i) else None.
Proof. intros. unfold slice. rewrite get_take. destruct (Z.ltb_spec i n); [|done]. by apply get_drop. Qed.

Lemma lenz_slice c off n : 0 <= off -> 0 <= n -> off + n <= lenz c -> lenz (slice c off n) = n.
Proof. intros. unfold slice. rewrite lenz_take, lenz_drop; lia. Qed.

Lemma lenz_slice_le c off n : 0 <= off -> 0 <= n -> lenz (slice c off n) <= n.
Proof. intros. unfold slice. rewrite lenz_take. lia. Qed.

Lemma slice_ext c d off n : 0 <= off -> (forall i, off <= i < off + n -> get c i = get d i) -> slice c off n = slice d off n.
Proof. intros Ho H. apply get_ext. intros i Hi. rewrite !get_slice by done. destruct (Z.ltb_spec i n); [apply H; lia|done]. Qed.

Lemma slice_get c d off n i : 0 <= off -> slice c off n = slice d off n -> off <= i < off + n -> get c i = get d i.
Proof.
  intros Ho E Hi. assert (E' : get (slice c off n) (i - off) = get (slice d off n) (i - off)) by by rewrite E.
  rewrite !get_slice, (proj2 (Z.ltb_lt _ _)) in E' by lia. by replace (off + (i - off)) with i in E' by lia.
Qed.

Lemma slice_full c d off : 0 <= off -> (forall i, 0 <= i < lenz d -> get c (off + i) = get d i) -> slice c off (lenz d) = d.
Proof.
  intros Ho H. apply get_ext. intros i Hi. rewrite get_slice by done. destruct (Z.ltb_spec i (lenz d)); [apply H; lia|].
  symmetry. apply get_None. lia.
Qed.

Lemma slice_length_ge c off n : 0 <= off -> 0 < n -> lenz (slice c off n) = n -> off + n <= lenz c.
Proof.
  intros Ho Hn H. destruct (get_is (slice c off n) (n - 1)) as [x Hx]; [lia|].
  rewrite get_slice, (proj2 (Z.ltb_lt _ _)) in Hx by lia. apply get_Some in Hx. lia.
Qed.

Lemma slice_app_drop c off n m : 0 <= off -> 0 <= n -> 0 <= m -> slice (slice c off (n + m)) n m = slice c (off + n) m.
Proof.
  intros. apply get_ext. intros i Hi. rewrite !get_slice by lia. destruct (Z.ltb_spec i m); [|done].
  rewrite (proj2 (Z.ltb_lt _ _)) by lia. f_equal. lia.
Qed.

Lemma lenz_write_at c off d : 0 <= off -> 0 < lenz d -> lenz (write_at c off d) = Z.max (lenz c) (off + lenz d).
Proof.
  intros Ho Hd. unfold write_at. rewrite !lenz_app, lenz_take, lenz_app, lenz_zeros, lenz_drop by lia. lia.
Qed.

Lemma get_write_at c off d i :
  0 <= off -> 0 <= i -> get (write_at c off d) i =
    if (off <=? i) && (i <? off + lenz d) then get d (i - off) else if i <? lenz c then get c i else if i <? off then Some 0 else None.
Proof.
  intros Ho Hi. unfold write_at. pose proof (lenz_nonneg c). pose proof (lenz_nonneg d). rewrite !get_app, get_take, get_app, get_zeros, lenz_take, lenz_app, lenz_zeros.
  replace (Z.max 0 (Z.min off (lenz c + Z.max 0 (off - lenz c)))) with off by lia.
  destruct (Z.ltb_spec i off), (Z.leb_spec off i); cbn [andb]; try lia.
  - destruct (Z.ltb_spec i (lenz c)); [done|]. rewrite (proj2 (Z.leb_le _ _)), (proj2 (Z.ltb_lt _ _)) by lia. done.
  - destruct (Z.ltb_spec (i - off) (lenz d)), (Z.ltb_spec i (off + lenz d)); try lia; [done|].
    rewrite get_drop by lia. replace (off + lenz d + (i - off - lenz d)) with i by lia.
    destruct (Z.ltb_spec i (lenz c)); [done|]. apply get_None. lia.
Qed.

Lemma get_write_out c off d i : 0 <= off -> i < lenz c -> i < off \/ off + lenz d <= i -> get (write_at c off d) i = get c i.
Proof.
  intros Ho Hi Ho'. destruct (Z.leb_spec 0 i); [|by rewrite !get_None by lia]. rewrite get_write_at by lia.
  destruct (Z.leb_spec off i), (Z.ltb_spec i (off + lenz d)); cbn [andb]; try lia; by rewrite (proj2 (Z.ltb_lt _ _)) by lia.
Qed.

Lemma slice_write_same c off d : 0 <= off -> slice (write_at c off d) off (lenz d) = d.
Proof.
  intros Ho. apply slice_full; [done|]. intros i Hi. rewrite get_write_at by lia.
  rewrite (proj2 (Z.leb_le _ _)), (proj2 (Z.ltb_lt _ _)) by lia. cbn. f_equal. lia.
Qed.

(** A part of what was written. *)
Lemma slice_write_part c off d o n :
  0 <= off -> off <= o -> 0 <= n -> o + n <= off + lenz d -> slice (write_at c off d) o n = slice d (o - off) n.
Proof.
  intros. apply get_ext. intros i Hi. rewrite !get_slice by lia. destruct (Z.ltb_spec i n); [|done].
  rewrite get_write_at by lia. rewrite (proj2 (Z.leb_le _ _)), (proj2 (Z.ltb_lt _ _)) by lia. cbn. f_equal. lia.
Qed.

Lemma slice_write_out c off d o n :
  0 <= off -> 0 <= o -> o + n <= lenz c -> o + n <= off \/ off + lenz d <= o -> slice (write_at c off d) o n = slice c o n.
Proof. intros. apply slice_ext; [done|]. intros i Hi. apply get_write_out; lia. Qed.

Lemma lenz_resize c n : 0 <= n -> lenz (resize c n) = n.
Proof. intros. unfold resize. rewrite lenz_take, lenz_app, lenz_zeros. pose proof (lenz_nonneg c). lia. Qed.

Lemma get_resize c n i : i < n -> n <= lenz c -> get (resize c n) i = get c i.
Proof.
  intros Hi Hn. unfold resize. rewrite get_take, (proj2 (Z.ltb_lt _ _)), get_app by lia. by rewrite (proj2 (Z.ltb_lt _ _)) by lia.
Qed.

Lemma slice_resize c n o k : 0 <= o -> o + k <= n -> n <= lenz c -> slice (resize c n) o k = slice c o k.
Proof. intros. apply slice_ext; [done|]. intros i Hi. apply get_resize; lia. Qed.

Lemma read_at_full c off n : 0 <= off -> 0 <= n -> off + n <= lenz c -> read_at c off n = slice c off n.
Proof. intros. unfold read_at. rewrite lenz_slice, Z.sub_diag by lia. apply app_nil_r. Qed.

(** ** The magic number *)

Lemma magic_ext c d o : 0 <= o -> (forall i, o <= i < o + 8 -> get c i = get d i) -> magic_at c o -> magic_at d o.
Proof. unfold magic_at. intros Ho H Hm. rewrite <- Hm. apply slice_ext; [done|]. intros i Hi. symmetry. by apply H. Qed.

Lemma magic_len c o : 0 <= o -> magic_at c o -> o + 8 <= lenz c.
Proof. intros Ho H. apply slice_length_ge; [done|lia|]. unfold magic_at in H. by rewrite H. Qed.

Lemma magic_first c o : 0 <= o -> magic_at c o -> get c o = Some 0xd9.
Proof.
  intros Ho H. assert (E : get (slice c o 8) 0 = Some 0xd9) by by rewrite H. rewrite get_slice in E by lia. cbn in E. by rewrite Z.add_0_r in E.
Qed.

(** ** Growing files *)

Lemma grown_same c w v : lenz w = lenz c -> grown c w v -> v = c.
Proof.
  intros Hl (H1 & H2 & _). apply get_ext. intros i Hi. destruct (Z.ltb_spec i (lenz c)); [by apply H2|]. rewrite !get_None by lia. done.
Qed.

Lemma grown_magic c w v o : 0 <= o -> grown c w v -> magic_at v o -> magic_at c o \/ magic_at w o.
Proof.
  intros Ho (H1 & H2 & H3) Hm. destruct (H3 o Ho Hm) as [H|H]; [left|by right]. apply (magic_ext v); [done| |done]. intros i Hi. apply H2. lia.
Qed.

(** ** Mixtures *)

Lemma mixed_self sector (P : bytes -> Prop) v : P v -> mixed sector P v.
Proof. intros H. split; [by exists v|]. intros s Hs. exists v. split; [done|]. intros i Hi Hl. by split. Qed.

Lemma mixed_weaken sector (P P' : bytes -> Prop) v : (forall v, P v -> P' v) -> mixed sector P v -> mixed sector P' v.
Proof.
  intros H [(w & Hw & El) Hs]. split; [by exists w; split; [apply H|]|]. intros s Hs0. destruct (Hs s Hs0) as (x & Hx & Hg). exists x. split; [by apply H|done].
Qed.

Section mixed.
Context (sector : Z) (P : bytes -> Prop) (img : bytes).
Hypothesis Hsec : 0 < sector.
Hypothesis Himg : mixed sector P img.

Lemma mixed_len_ge n : (forall v, P v -> n <= lenz v) -> n <= lenz img.
Proof. destruct Himg as [(v & Hv & <-) _]. intros H. by apply H. Qed.

Lemma mixed_get i : 0 <= i < lenz img -> exists v, P v /\ i < lenz v /\ get img i = get v i.
Proof.
  intros Hi. destruct Himg as [_ H]. destruct (H (i / sector)) as (v & Hv & Hg); [apply Z.div_pos; lia|].
  exists v. split; [done|]. apply Hg; [|lia]. pose proof (Z.div_mod i sector ltac:(lia)). pose proof (Z.mod_pos_bound i sector ltac:(lia)). lia.
Qed.

(** What all versions agree on. *)
Lemma mixed_agree c i : (forall v, P v -> i < lenz v -> get v i = get c i) -> 0 <= i < lenz img -> get img i = get c i.
Proof. intros H Hi. destruct (mixed_get i Hi) as (v & Hv & Hl & ->). by apply H. Qed.

Lemma mixed_unique c : (forall v, P v -> v = c) -> img = c.
Proof.
  intros H. assert (E : lenz img = lenz c) by (destruct Himg as [(v & Hv & <-) _]; by rewrite (H v Hv)).
  apply get_ext. intros i Hi. destruct (Z.ltb_spec i (lenz c)); [|by rewrite !get_None by lia].
  apply mixed_agree; [|lia]. intros v Hv _. by rewrite (H v Hv).
Qed.

(** What lies in one sector. *)
Lemma mixed_slice s o n :
  0 <= s -> s * sector <= o -> o + n <= (s + 1) * sector -> 0 <= o -> 0 < n -> o + n <= lenz img ->
  exists v, P v /\ o + n <= lenz v /\ slice img o n = slice v o n.
Proof.
  intros Hs Ho1 Ho2 Ho Hn Hl. destruct Himg as [_ H]. destruct (H s Hs) as (v & Hv & Hg). exists v. split; [done|].
  split; [assert (o + n - 1 < lenz v) by (apply Hg; lia); lia|]. apply slice_ext; [done|]. intros i Hi. apply Hg; lia.
Qed.

Lemma mixed_magic k o : o = k * sector -> 0 <= k -> 8 <= sector -> magic_at img o -> exists v, P v /\ magic_at v o.
Proof.
  intros -> Hk H8 Hm. assert (Ho : 0 <= k * sector) by lia. pose proof (magic_len _ _ Ho Hm) as Hl.
  destruct (mixed_slice k (k * sector) 8) as (v & Hv & _ & E); [lia..|]. exists v. split; [done|]. unfold magic_at. by rewrite <- E.
Qed.

End mixed.

(** Two contents that differ in one sector do not mix. *)
Lemma mixed_two sector (P : bytes -> Prop) c w s img :
  0 < sector -> 0 <= s -> (forall v, P v -> v = c \/ v = w) -> lenz w = lenz c -> (forall i, 0 <= i -> i < s * sector \/ (s + 1) * sector <= i -> get w i = get c i) ->
  mixed sector P img -> img = c \/ img = w.
Proof.
  intros Hsec Hs HP Hl Hd Him. assert (El : lenz img = lenz c) by (destruct Him as [(v & Hv & <-) _]; destruct (HP v Hv) as [->| ->]; lia).
  destruct (proj2 Him s Hs) as (x & Hx & Hg).
  assert (H : img = x).
  { apply get_ext. intros i Hi. assert (Hxl : lenz x = lenz c) by (destruct (HP x Hx) as [->| ->]; lia).
    destruct (Z.ltb_spec i (lenz c)); [|by rewrite !get_None by lia]. destruct (decide (s * sector <= i < (s + 1) * sector)) as [Hin|Hout]; [apply Hg; lia|].
    assert (Hi' : i < s * sector \/ (s + 1) * sector <= i) by lia. destruct (mixed_get sector P img Hsec Him i ltac:(lia)) as (v & Hv & _ & ->).
    destruct (HP v Hv) as [->| ->], (HP x Hx) as [->| ->]; rewrite ?Hd by done; done. }
  subst x. by apply HP.
Qed.

(** ** Disks *)

Lemma file_update s f x P : file (update s f x P) f = mkFile x (fun v => poss (file s f) v \/ v = x \/ P v).
Proof. by destruct f, s. Qed.

Lemma cur_update s f x P : cur (file (update s f x P) f) = x.
Proof. by rewrite file_update. Qed.

Lemma cur_settle s f : cur (file (settle s f) f) = cur (file s f).
Proof. by destruct f, s. Qed.

Lemma survives_cur sector f : poss f (cur f) -> survives sector f (cur f).
Proof. unfold survives. destruct (cur f); [|done]. intros H. by apply mixed_self. Qed.

(** Of a file with one version, that is what is left. *)
Lemma survives_settled sector f y x : 0 < sector -> (forall z, poss f z -> z = y) -> survives sector f x -> x = y.
Proof.
  intros Hs Hall Hx. destruct x as [img|]; cbn in Hx; [|by apply Hall]. destruct y as [c|].
  - f_equal. apply (mixed_unique sector _ img Hs Hx). intros v Hv. apply Hall in Hv. congruence.
  - destruct Hx as [(v & Hv & _) _]. by apply Hall in Hv.
Qed.

(** ** Rules of [wpc] *)

Section wpc.
Context (sector : Z).

Lemma wpc_inv {A} (p : prog A) Q C s : wpc sector p Q C s -> C s.
Proof. destruct p; by intros [? _]. Qed.

Lemma wpc_ret {A} (a : A) (Q : A -> disk -> Prop) C s : C s -> Q a s -> wpc sector (Ret a) Q C s.
Proof. by split. Qed.

Lemma wpc_bind {A B} (p : prog A) (f : A -> prog B) Q C s :
  wpc sector p (fun a s => wpc sector (f a) Q C s) C s -> wpc sector (p ≫= f) Q C s.
Proof.
  revert s. induction p as [a|X o k IH|]; intros s; cbn [mbind disk_prog_bind pbind wpc].
  - by intros [_ H].
  - intros (HC & He & Hk). split; [done|]. split; [done|]. intros x s' Hs. apply IH, Hk, Hs.
  - by intros [_ ?].
Qed.

Lemma wpc_bind_inv {A B} (p : prog A) (f : A -> prog B) Q C s :
  wpc sector (p ≫= f) Q C s -> wpc sector p (fun a s => wpc sector (f a) Q C s) C s.
Proof.
  revert s. induction p as [a|X o k IH|]; intros s; cbn [mbind disk_prog_bind pbind wpc].
  - intros H. split; [by apply wpc_inv in H|done].
  - intros (HC & He & Hk). split; [done|]. split; [done|]. intros x s' Hs. apply IH, Hk, Hs.
  - by intros [_ ?].
Qed.

Lemma wpc_mono {A} (p : prog A) (Q Q' : A -> disk -> Prop) (C C' : disk -> Prop) s :
  (forall a s, Q a s -> Q' a s) -> (forall s, C s -> C' s) -> wpc sector p Q C s -> wpc sector p Q' C' s.
Proof.
  intros HQ HC. revert s. induction p as [a|X o k IH|]; intros s; cbn [wpc].
  - intros [? ?]. split; auto.
  - intros (Hc & He & Hk). split; [auto|]. split; [done|]. intros x s' Hs. by apply IH, Hk.
  - by intros [_ ?].
Qed.

Lemma wpc_assert (b : bool) (Q : unit -> disk -> Prop) C s : b = true -> C s -> Q () s -> wpc sector (assert b) Q C s.
Proof. intros -> ? ?. by apply wpc_ret. Qed.

(** A call, from what it may answer. *)
Lemma wpc_call {X : Set} (o : op X) (Q : X -> disk -> Prop) (C : disk -> Prop) s :
  C s -> enabled o s -> (forall x s', step sector o s x s' -> C s' /\ Q x s') -> wpc sector (call o) Q C s.
Proof. intros HC He H. split; [done|]. split; [done|]. intros x s' Hs. destruct (H x s' Hs). by apply wpc_ret. Qed.

Lemma wpc_read f off n c Q (C : disk -> Prop) s :
  C s -> cur (file s f) = Some c -> 0 <= off -> 0 <= n ->
  (off + n <= lenz c -> Q (SQLITE_OK, slice c off n) s) ->
  (lenz c < off + n -> Q (SQLITE_IOERR_SHORT_READ, read_at c off n) s) ->
  (forall rc d, is_error rc -> lenz d = n -> Q (rc, d) s) -> wpc sector (call (Read f off n)) Q C s.
Proof.
  intros HC Hc Ho Hn H1 H2 H3. apply wpc_call; [done|cbn; by rewrite Hc|]. intros [rc d] s' (-> & Hl & Hs). split; [done|].
  destruct (Hs c Hc) as [(-> & ? & ->)|[(-> & ? & ->)|?]]; auto.
Qed.

Lemma wpc_size f c Q (C : disk -> Prop) s :
  C s -> cur (file s f) = Some c -> Q (SQLITE_OK, lenz c) s -> (forall rc n, is_error rc -> Q (rc, n) s) -> wpc sector (call (FileSize f)) Q C s.
Proof.
  intros HC Hc H1 H2. apply wpc_call; [done|cbn; by rewrite Hc|]. intros [rc d] s' (-> & Hs). split; [done|].
  destruct (Hs c Hc) as [(-> & ->)|?]; auto.
Qed.

Lemma wpc_write f off d c Q (C : disk -> Prop) s :
  C s -> cur (file s f) = Some c ->
  (let s' := update s f (Some (write_at c off d)) (lift (write_versions c off d)) in C s' /\ Q SQLITE_OK s') ->
  (forall rc v, is_ioerr rc -> mixed sector (fun v => v = c \/ write_versions c off d v) v ->
     let s' := update s f (Some v) (lift (write_versions c off d)) in C s' /\ Q rc s') -> wpc sector (call (Write f off d)) Q C s.
Proof.
  intros HC Hc H1 H2. apply wpc_call; [done|cbn; by rewrite Hc|]. intros rc s' Hs.
  destruct (Hs c Hc) as [(-> & ->)|(? & v & ? & ->)]; [done|by apply H2].
Qed.

Lemma wpc_truncate f n c Q (C : disk -> Prop) s :
  C s -> cur (file s f) = Some c -> (let s' := update s f (Some (resize c n)) (fun _ => False) in C s' /\ Q SQLITE_OK s') ->
  (forall rc, is_ioerr rc -> Q rc s) -> wpc sector (call (Truncate f n)) Q C s.
Proof.
  intros HC Hc H1 H2. apply wpc_call; [done|cbn; by rewrite Hc|]. intros rc s' Hs. destruct (Hs c Hc) as [(-> & ->)|(? & ->)]; auto.
Qed.

Lemma wpc_sync f Q (C : disk -> Prop) s :
  C s -> is_Some (cur (file s f)) -> C (settle s f) /\ Q SQLITE_OK (settle s f) -> (forall rc, is_ioerr rc -> Q rc s) -> wpc sector (call (Sync f)) Q C s.
Proof. intros HC Hc H1 H2. apply wpc_call; [done|done|]. intros rc s' [(-> & ->)|(? & ->)]; auto. Qed.

(** A call that leaves the disk alone. *)
Lemma wpc_quiet {X : Set} (o : op X) Q (C : disk -> Prop) s :
  match o with Exists | MasterExists _ | DelMaster _ | Lock _ | Unlock _ | Reserved | Randomness | Malloc | HasMoved => True | _ => False end ->
  C s -> (forall x, step sector o s x s -> Q x s) -> wpc sector (call o) Q C s.
Proof.
  intros Ho HC H. apply wpc_call; [done|by destruct o|]. intros x s' Hs. assert (s' = s) as -> by (destruct o; try done; try destruct x; by destruct Hs as [-> _]).
  split; [done|]. by apply H.
Qed.

End wpc.
