(* ===== verification/Pager.v ===== *)
(** The rollback journal of the pager (src/sqlite-src-3280000/src/pager.c): how a
    transaction saves the pages it changes, writes them to the database, commits, and how
    a journal is played back.

    The functions are programs on a [Disk]; each takes the pager and returns it after its
    result code.  The database is an ordinary file, opened without a write-ahead log and
    with journal_mode DELETE, PERSIST or TRUNCATE: [tempFile], [memDb], [pBackup], [pWal]
    and the code of SQLITE_HAS_CODEC and the atomic-write extensions are left out, as are
    savepoints ([nSavepoint] is zero) and statistics.  The page cache is a finite map with
    the flags of each page; a lock is asked for once, without a busy handler.  Asserts
    on the values modelled are kept where they are preconditions; the one on a journal
    without counts in [pager_playback], which its contents can violate, is not. *)
From stdpp Require Import sorting.
From S2P Require Import Prelude Varint Bitvec Disk.

(** ** Constants *)

Definition PAGER_OPEN : Z := 0.
Definition PAGER_READER : Z := 1.
Definition PAGER_WRITER_LOCKED : Z := 2.
Definition PAGER_WRITER_CACHEMOD : Z := 3.
Definition PAGER_WRITER_DBMOD : Z := 4.
Definition PAGER_WRITER_FINISHED : Z := 5.
Definition PAGER_ERROR : Z := 6.

Definition NO_LOCK : Z := 0.
Definition SHARED_LOCK : Z := 1.
Definition RESERVED_LOCK : Z := 2.
Definition EXCLUSIVE_LOCK : Z := 4.
Definition UNKNOWN_LOCK : Z := EXCLUSIVE_LOCK + 1.

Inductive journal_mode := PAGER_JOURNALMODE_DELETE | PAGER_JOURNALMODE_PERSIST | PAGER_JOURNALMODE_TRUNCATE.

Definition MAX_SECTOR_SIZE : Z := 0x10000.
Definition SQLITE_MAX_PAGE_SIZE : Z := 65536.
Definition PAGER_MAX_PGNO : Z := 2147483647.
Definition PENDING_BYTE : Z := 0x40000000.
Definition SQLITE_VERSION_NUMBER : Z := 3028000.
Definition SQLITE_IOCAP_SAFE_APPEND : Z := 0x200.
Definition SQLITE_IOCAP_SEQUENTIAL : Z := 0x400.
Definition SQLITE_IOCAP_UNDELETABLE_WHEN_OPEN : Z := 0x800.

(** ** Data *)

(** The settings of a pager that do not change during a transaction, and the sector size
    of the device as [setSectorSize] computes it. *)
Record config := mkConfig {
  noSync : bool;
  fullSync : bool;
  extraSync : bool;
  noLock : bool;
  exclusiveMode : bool;
  journalMode : journal_mode;
  journalSizeLimit : Z;
  iDc : Z;
  mxPathname : Z;
  osSectorSize : Z }.

(** A page of the cache and its flags. *)
Record PgHdr := mkPgHdr {
  pData : bytes;
  PGHDR_DIRTY : bool;
  PGHDR_WRITEABLE : bool;
  PGHDR_NEED_SYNC : bool;
  PGHDR_DONT_WRITE : bool }.

(** The fields of a [Pager] that change.  [jfd]: whether the journal is open. *)
Record Pager := mkPager {
  eState : Z;
  eLock : Z;
  pageSize : Z;
  sectorSize : Z;
  dbSize : Z;
  dbOrigSize : Z;
  dbFileSize : Z;
  mxPgno : Z;
  journalOff : Z;
  journalHdr : Z;
  nRec : Z;
  cksumInit : Z;
  pInJournal : option Bitvec;
  changeCountDone : bool;
  setMaster : bool;
  errCode : Z;
  nReserve : Z;
  dbFileVers : bytes;
  jfd : bool;
  pPCache : gmap Z PgHdr }.

Definition set_eState (p : Pager) (v : Z) : Pager :=
  mkPager v (eLock p) (pageSize p) (sectorSize p) (dbSize p) (dbOrigSize p) (dbFileSize p) (mxPgno p) (journalOff p) (journalHdr p) (nRec p) (cksumInit p) (pInJournal p) (changeCountDone p) (setMaster p) (errCode p) (nReserve p) (dbFileVers p) (jfd p) (pPCache p).
Definition set_eLock (p : Pager) (v : Z) : Pager :=
  mkPager (eState p) v (pageSize p) (sectorSize p) (dbSize p) (dbOrigSize p) (dbFileSize p) (mxPgno p) (journalOff p) (journalHdr p) (nRec p) (cksumInit p) (pInJournal p) (changeCountDone p) (setMaster p) (errCode p) (nReserve p) (dbFileVers p) (jfd p) (pPCache p).
Definition set_pageSize (p : Pager) (v : Z) : Pager :=
  mkPager (eState p) (eLock p) v (sectorSize p) (dbSize p) (dbOrigSize p) (dbFileSize p) (mxPgno p) (journalOff p) (journalHdr p) (nRec p) (cksumInit p) (pInJournal p) (changeCountDone p) (setMaster p) (errCode p) (nReserve p) (dbFileVers p) (jfd p) (pPCache p).
Definition set_sectorSize (p : Pager) (v : Z) : Pager :=
  mkPager (eState p) (eLock p) (pageSize p) v (dbSize p) (dbOrigSize p) (dbFileSize p) (mxPgno p) (journalOff p) (journalHdr p) (nRec p) (cksumInit p) (pInJournal p) (changeCountDone p) (setMaster p) (errCode p) (nReserve p) (dbFileVers p) (jfd p) (pPCache p).
Definition set_dbSize (p : Pager) (v : Z) : Pager :=
  mkPager (eState p) (eLock p) (pageSize p) (sectorSize p) v (dbOrigSize p) (dbFileSize p) (mxPgno p) (journalOff p) (journalHdr p) (nRec p) (cksumInit p) (pInJournal p) (changeCountDone p) (setMaster p) (errCode p) (nReserve p) (dbFileVers p) (jfd p) (pPCache p).
Definition set_dbOrigSize (p : Pager) (v : Z) : Pager :=
  mkPager (eState p) (eLock p) (pageSize p) (sectorSize p) (dbSize p) v (dbFileSize p) (mxPgno p) (journalOff p) (journalHdr p) (nRec p) (cksumInit p) (pInJournal p) (changeCountDone p) (setMaster p) (errCode p) (nReserve p) (dbFileVers p) (jfd p) (pPCache p).
Definition set_dbFileSize (p : Pager) (v : Z) : Pager :=
  mkPager (eState p) (eLock p) (pageSize p) (sectorSize p) (dbSize p) (dbOrigSize p) v (mxPgno p) (journalOff p) (journalHdr p) (nRec p) (cksumInit p) (pInJournal p) (changeCountDone p) (setMaster p) (errCode p) (nReserve p) (dbFileVers p) (jfd p) (pPCache p).
Definition set_mxPgno (p : Pager) (v : Z) : Pager :=
  mkPager (eState p) (eLock p) (pageSize p) (sectorSize p) (dbSize p) (dbOrigSize p) (dbFileSize p) v (journalOff p) (journalHdr p) (nRec p) (cksumInit p) (pInJournal p) (changeCountDone p) (setMaster p) (errCode p) (nReserve p) (dbFileVers p) (jfd p) (pPCache p).
Definition set_journalOff (p : Pager) (v : Z) : Pager :=
  mkPager (eState p) (eLock p) (pageSize p) (sectorSize p) (dbSize p) (dbOrigSize p) (dbFileSize p) (mxPgno p) v (journalHdr p) (nRec p) (cksumInit p) (pInJournal p) (changeCountDone p) (setMaster p) (errCode p) (nReserve p) (dbFileVers p) (jfd p) (pPCache p).
Definition set_journalHdr (p : Pager) (v : Z) : Pager :=
  mkPager (eState p) (eLock p) (pageSize p) (sectorSize p) (dbSize p) (dbOrigSize p) (dbFileSize p) (mxPgno p) (journalOff p) v (nRec p) (cksumInit p) (pInJournal p) (changeCountDone p) (setMaster p) (errCode p) (nReserve p) (dbFileVers p) (jfd p) (pPCache p).
Definition set_nRec (p : Pager) (v : Z) : Pager :=
  mkPager (eState p) (eLock p) (pageSize p) (sectorSize p) (dbSize p) (dbOrigSize p) (dbFileSize p) (mxPgno p) (journalOff p) (journalHdr p) v (cksumInit p) (pInJournal p) (changeCountDone p) (setMaster p) (errCode p) (nReserve p) (dbFileVers p) (jfd p) (pPCache p).
Definition set_cksumInit (p : Pager) (v : Z) : Pager :=
  mkPager (eState p) (eLock p) (pageSize p) (sectorSize p) (dbSize p) (dbOrigSize p) (dbFileSize p) (mxPgno p) (journalOff p) (journalHdr p) (nRec p) v (pInJournal p) (changeCountDone p) (setMaster p) (errCode p) (nReserve p) (dbFileVers p) (jfd p) (pPCache p).
Definition set_pInJournal (p : Pager) (v : option Bitvec) : Pager :=
  mkPager (eState p) (eLock p) (pageSize p) (sectorSize p) (dbSize p) (dbOrigSize p) (dbFileSize p) (mxPgno p) (journalOff p) (journalHdr p) (nRec p) (cksumInit p) v (changeCountDone p) (setMaster p) (errCode p) (nReserve p) (dbFileVers p) (jfd p) (pPCache p).
Definition set_changeCountDone (p : Pager) (v : bool) : Pager :=
  mkPager (eState p) (eLock p) (pageSize p) (sectorSize p) (dbSize p) (dbOrigSize p) (dbFileSize p) (mxPgno p) (journalOff p) (journalHdr p) (nRec p) (cksumInit p) (pInJournal p) v (setMaster p) (errCode p) (nReserve p) (dbFileVers p) (jfd p) (pPCache p).
Definition set_setMaster (p : Pager) (v : bool) : Pager :=
  mkPager (eState p) (eLock p) (pageSize p) (sectorSize p) (dbSize p) (dbOrigSize p) (dbFileSize p) (mxPgno p) (journalOff p) (journalHdr p) (nRec p) (cksumInit p) (pInJournal p) (changeCountDone p) v (errCode p) (nReserve p) (dbFileVers p) (jfd p) (pPCache p).
Definition set_errCode (p : Pager) (v : Z) : Pager :=
  mkPager (eState p) (eLock p) (pageSize p) (sectorSize p) (dbSize p) (dbOrigSize p) (dbFileSize p) (mxPgno p) (journalOff p) (journalHdr p) (nRec p) (cksumInit p) (pInJournal p) (changeCountDone p) (setMaster p) v (nReserve p) (dbFileVers p) (jfd p) (pPCache p).
Definition set_nReserve (p : Pager) (v : Z) : Pager :=
  mkPager (eState p) (eLock p) (pageSize p) (sectorSize p) (dbSize p) (dbOrigSize p) (dbFileSize p) (mxPgno p) (journalOff p) (journalHdr p) (nRec p) (cksumInit p) (pInJournal p) (changeCountDone p) (setMaster p) (errCode p) v (dbFileVers p) (jfd p) (pPCache p).
Definition set_dbFileVers (p : Pager) (v : bytes) : Pager :=
  mkPager (eState p) (eLock p) (pageSize p) (sectorSize p) (dbSize p) (dbOrigSize p) (dbFileSize p) (mxPgno p) (journalOff p) (journalHdr p) (nRec p) (cksumInit p) (pInJournal p) (changeCountDone p) (setMaster p) (errCode p) (nReserve p) v (jfd p) (pPCache p).
Definition set_jfd (p : Pager) (v : bool) : Pager :=
  mkPager (eState p) (eLock p) (pageSize p) (sectorSize p) (dbSize p) (dbOrigSize p) (dbFileSize p) (mxPgno p) (journalOff p) (journalHdr p) (nRec p) (cksumInit p) (pInJournal p) (changeCountDone p) (setMaster p) (errCode p) (nReserve p) (dbFileVers p) v (pPCache p).
Definition set_pPCache (p : Pager) (v : gmap Z PgHdr) : Pager :=
  mkPager (eState p) (eLock p) (pageSize p) (sectorSize p) (dbSize p) (dbOrigSize p) (dbFileSize p) (mxPgno p) (journalOff p) (journalHdr p) (nRec p) (cksumInit p) (pInJournal p) (changeCountDone p) (setMaster p) (errCode p) (nReserve p) (dbFileVers p) (jfd p) v.

Definition JOURNAL_PG_SZ (p : Pager) : Z := pageSize p + 8.
Definition JOURNAL_HDR_SZ (p : Pager) : Z := sectorSize p.
Definition PAGER_MJ_PGNO (p : Pager) : Z := PENDING_BYTE / pageSize p + 1.

(** Running a part that returns a code and the pager, up to its first failure. *)
Definition andthen (x : prog (Z * Pager)) (k : Pager -> prog (Z * Pager)) : prog (Z * Pager) :=
  '(rc, p) ← x; if rc =? SQLITE_OK then k p else Ret (rc, p).

Section pager.
Context (g : config).

(** ** The page cache (pcache.c) *)

Definition pg_set_data (pg : PgHdr) (d : bytes) : PgHdr := mkPgHdr d (PGHDR_DIRTY pg) (PGHDR_WRITEABLE pg) (PGHDR_NEED_SYNC pg) (PGHDR_DONT_WRITE pg).
Definition pg_writeable (pg : PgHdr) : PgHdr := mkPgHdr (pData pg) (PGHDR_DIRTY pg) true (PGHDR_NEED_SYNC pg) (PGHDR_DONT_WRITE pg).
Definition pg_need_sync (pg : PgHdr) : PgHdr := mkPgHdr (pData pg) (PGHDR_DIRTY pg) (PGHDR_WRITEABLE pg) true (PGHDR_DONT_WRITE pg).
Definition pg_dont_write (pg : PgHdr) : PgHdr := mkPgHdr (pData pg) (PGHDR_DIRTY pg) (PGHDR_WRITEABLE pg) (PGHDR_NEED_SYNC pg) true.
Definition sqlite3PcacheMakeDirty (pg : PgHdr) : PgHdr := mkPgHdr (pData pg) true (PGHDR_WRITEABLE pg) (PGHDR_NEED_SYNC pg) false.
Definition sqlite3PcacheMakeClean (pg : PgHdr) : PgHdr := mkPgHdr (pData pg) false false false (PGHDR_DONT_WRITE pg).

(** The functions on all pages work on the list of dirty ones. *)
Definition on_dirty (f : PgHdr -> PgHdr) (c : gmap Z PgHdr) : gmap Z PgHdr := (fun pg => if PGHDR_DIRTY pg then f pg else pg) <$> c.
Definition sqlite3PcacheCleanAll : gmap Z PgHdr -> gmap Z PgHdr := on_dirty sqlite3PcacheMakeClean.
Definition sqlite3PcacheClearWritable : gmap Z PgHdr -> gmap Z PgHdr :=
  on_dirty (fun pg => mkPgHdr (pData pg) (PGHDR_DIRTY pg) false false (PGHDR_DONT_WRITE pg)).
Definition sqlite3PcacheClearSyncFlags : gmap Z PgHdr -> gmap Z PgHdr :=
  on_dirty (fun pg => mkPgHdr (pData pg) (PGHDR_DIRTY pg) (PGHDR_WRITEABLE pg) false (PGHDR_DONT_WRITE pg)).
Definition sqlite3PcacheTruncate (n : Z) (c : gmap Z PgHdr) : gmap Z PgHdr := filter (fun x => x.1 <= n) c.
Definition sqlite3PcacheClear (c : gmap Z PgHdr) : gmap Z PgHdr := sqlite3PcacheTruncate 0 c.

(** The numbers of the dirty pages, in ascending order. *)
Definition sqlite3PcacheDirtyList (c : gmap Z PgHdr) : list Z :=
  merge_sort Z.le ((map_to_list (filter (fun x => PGHDR_DIRTY x.2 = true) c)).*1).

Definition set_pg (p : Pager) (pgno : Z) (pg : PgHdr) : Pager := set_pPCache p (<[pgno := pg]> (pPCache p)).

(** ** Integers in files *)

(** The variables are 32 bits wide. *)
Definition get32 (d : bytes) : Z := wrap_u 32 (default 0 (sqlite3Get4byte d)).

Definition read32bits (f : fname) (offset : Z) : prog (Z * Z) :=
  '(rc, ac) ← call (Read f offset 4); Ret (rc, get32 ac).

Definition write32bits (f : fname) (offset val : Z) : prog Z := call (Write f offset (sqlite3Put4byte val)).

(** ** Locks and errors *)

Definition pagerUnlockDb (p : Pager) (lk : Z) : prog (Z * Pager) :=
  _ ← assert (negb (exclusiveMode g) || (eLock p =? lk));
  _ ← assert (lk <=? eLock p);
  rc ← (if noLock g then Ret SQLITE_OK else call (Unlock lk));
  Ret (rc, if eLock p =? UNKNOWN_LOCK then p else set_eLock p lk).

Definition pagerLockDb (p : Pager) (lk : Z) : prog (Z * Pager) :=
  if (eLock p <? lk) || (eLock p =? UNKNOWN_LOCK) then
    rc ← (if noLock g then Ret SQLITE_OK else call (Lock lk));
    Ret (rc, if (rc =? SQLITE_OK) && (negb (eLock p =? UNKNOWN_LOCK) || (lk =? EXCLUSIVE_LOCK)) then set_eLock p lk else p)
  else Ret (SQLITE_OK, p).

Definition pager_error (p : Pager) (rc : Z) : Z * Pager :=
  let rc2 := Z.land rc 0xff in
  (rc, if (rc2 =? SQLITE_FULL) || (rc2 =? SQLITE_IOERR) then set_eState (set_errCode p rc) PAGER_ERROR else p).

Definition sqlite3PagerExclusiveLock (p : Pager) : prog (Z * Pager) :=
  if negb (errCode p =? SQLITE_OK) then Ret (errCode p, p) else pagerLockDb p EXCLUSIVE_LOCK.

(** ** Headers of the journal *)

Definition journalHdrOffset (p : Pager) : Z :=
  if journalOff p =? 0 then 0 else ((journalOff p - 1) / JOURNAL_HDR_SZ p + 1) * JOURNAL_HDR_SZ p.

Definition journal_header (p : Pager) (nHeader cksum : Z) : bytes :=
  (if noSync g || negb (Z.land (iDc g) SQLITE_IOCAP_SAFE_APPEND =? 0) then aJournalMagic ++ sqlite3Put4byte 0xffffffff else zeros 12) ++
  sqlite3Put4byte cksum ++ sqlite3Put4byte (dbOrigSize p) ++ sqlite3Put4byte (sectorSize p) ++ sqlite3Put4byte (pageSize p) ++ zeros (nHeader - 28).

Fixpoint writeJournalHdr_loop (fuel : nat) (p : Pager) (zHeader : bytes) (nWrite nHeader : Z) : prog (Z * Pager) :=
  match fuel with
  | O => Crash
  | S fuel =>
      if nWrite <? JOURNAL_HDR_SZ p then
        rc ← call (Write Jrnl (journalOff p) zHeader);
        _ ← assert (journalHdr p <=? journalOff p);
        let p := set_journalOff p (journalOff p + nHeader) in
        if rc =? SQLITE_OK then writeJournalHdr_loop fuel p zHeader (nWrite + nHeader) nHeader else Ret (rc, p)
      else Ret (SQLITE_OK, p)
  end.

Definition writeJournalHdr (p : Pager) : prog (Z * Pager) :=
  _ ← assert (jfd p);
  let nHeader := Z.min (pageSize p) (JOURNAL_HDR_SZ p) in
  let p := set_journalOff p (journalHdrOffset p) in
  let p := set_journalHdr p (journalOff p) in
  cksum ← call Randomness;
  let p := set_cksumInit p cksum in
  writeJournalHdr_loop (Z.to_nat (JOURNAL_HDR_SZ p / nHeader) + 2) p (journal_header p nHeader cksum) 0 nHeader.

Definition pager_reset (p : Pager) : Pager := set_pPCache p (sqlite3PcacheClear (pPCache p)).

(** No page is in use when this is called. *)
Definition sqlite3PagerSetPagesize (p : Pager) (sz : Z) : prog (Z * Pager) :=
  _ ← assert ((sz =? 0) || ((512 <=? sz) && (sz <=? SQLITE_MAX_PAGE_SIZE)));
  if negb (sz =? 0) && negb (sz =? pageSize p) then
    '(rc, nByte) ← (if PAGER_OPEN <? eState p then call (FileSize Db) else Ret (SQLITE_OK, 0));
    if negb (rc =? SQLITE_OK) then Ret (rc, p) else
    mem ← call Malloc;
    if negb (alloc mem).1 then Ret (SQLITE_NOMEM, p) else
    let p := pager_reset p in
    Ret (SQLITE_OK, set_pageSize (set_dbSize p ((nByte + sz - 1) / sz)) sz)
  else Ret (SQLITE_OK, p).

(** The fields of the header at [journalOff], after its magic number. *)
Definition readJournalHdr_fields (p : Pager) : prog (Z * Z * Z * Pager) :=
  let iHdrOff := journalOff p in
  '(rc, n) ← read32bits Jrnl (iHdrOff + 8);
  if negb (rc =? SQLITE_OK) then Ret (rc, 0, 0, p) else
  '(rc, ck) ← read32bits Jrnl (iHdrOff + 12);
  if negb (rc =? SQLITE_OK) then Ret (rc, 0, 0, p) else
  let p := set_cksumInit p ck in
  '(rc, sz) ← read32bits Jrnl (iHdrOff + 16);
  if negb (rc =? SQLITE_OK) then Ret (rc, 0, 0, p) else
  if journalOff p =? 0 then
    '(rc, iSectorSize) ← read32bits Jrnl (iHdrOff + 20);
    if negb (rc =? SQLITE_OK) then Ret (rc, 0, 0, p) else
    '(rc, iPageSize) ← read32bits Jrnl (iHdrOff + 24);
    if negb (rc =? SQLITE_OK) then Ret (rc, 0, 0, p) else
    let iPageSize := if iPageSize =? 0 then pageSize p else iPageSize in
    if (iPageSize <? 512) || (iSectorSize <? 32) || (SQLITE_MAX_PAGE_SIZE <? iPageSize) || (MAX_SECTOR_SIZE <? iSectorSize)
      || negb (Z.land (iPageSize - 1) iPageSize =? 0) || negb (Z.land (iSectorSize - 1) iSectorSize =? 0)
    then Ret (SQLITE_DONE, 0, 0, p) else
    '(rc, p) ← sqlite3PagerSetPagesize p iPageSize;
    let p := set_sectorSize p iSectorSize in
    Ret (rc, n, sz, set_journalOff p (journalOff p + JOURNAL_HDR_SZ p))
  else Ret (SQLITE_OK, n, sz, set_journalOff p (journalOff p + JOURNAL_HDR_SZ p)).

(** The outputs are [nRec] and [dbSize] of the header. *)
Definition readJournalHdr (p : Pager) (isHot : bool) (journalSize : Z) : prog (Z * Z * Z * Pager) :=
  _ ← assert (jfd p);
  let p := set_journalOff p (journalHdrOffset p) in
  if journalSize <? journalOff p + JOURNAL_HDR_SZ p then Ret (SQLITE_DONE, 0, 0, p) else
  if isHot || negb (journalOff p =? journalHdr p) then
    '(rc, aMagic) ← call (Read Jrnl (journalOff p) 8);
    if negb (rc =? SQLITE_OK) then Ret (rc, 0, 0, p)
    else if bool_decide (aMagic = aJournalMagic) then readJournalHdr_fields p else Ret (SQLITE_DONE, 0, 0, p)
  else readJournalHdr_fields p.

(** The name of the master journal at the end of a journal; its bytes are signed. *)
Definition readMasterJournal (nMaster : Z) : prog (Z * bytes) :=
  '(rc, szJ) ← call (FileSize Jrnl);
  if negb (rc =? SQLITE_OK) || (szJ <? 16) then Ret (rc, []) else
  '(rc, len) ← read32bits Jrnl (szJ - 16);
  if negb (rc =? SQLITE_OK) || (nMaster <=? len) || (szJ - 16 <? len) || (len =? 0) then Ret (rc, []) else
  '(rc, cksum) ← read32bits Jrnl (szJ - 12);
  if negb (rc =? SQLITE_OK) then Ret (rc, []) else
  '(rc, aMagic) ← call (Read Jrnl (szJ - 8) 8);
  if negb (rc =? SQLITE_OK) || negb (bool_decide (aMagic = aJournalMagic)) then Ret (rc, []) else
  '(rc, zMaster) ← call (Read Jrnl (szJ - 16 - len) len);
  if negb (rc =? SQLITE_OK) then Ret (rc, []) else
  Ret (SQLITE_OK, if foldl (fun s c => wrap_u 32 (s - wrap_s 8 c)) cksum zMaster =? 0 then zMaster else []).

Definition named (zMaster : bytes) : bool := match zMaster with c :: _ => negb (c =? 0) | [] => false end.

(** ** Records of the journal *)

(** The loop [while( i>0 )] over every 200th byte. *)
Fixpoint pager_cksum_loop (fuel : nat) (aData : bytes) (i cksum : Z) : Z :=
  match fuel with
  | O => cksum
  | S fuel => if 0 <? i then pager_cksum_loop fuel aData (i - 200) (wrap_u 32 (cksum + default 0 (aData !! Z.to_nat i))) else cksum
  end.

Definition pager_cksum (p : Pager) (aData : bytes) : Z := pager_cksum_loop (Z.to_nat (pageSize p)) aData (pageSize p - 200) (cksumInit p).

(** The contents of a record are put into the database, if the record is synced, and
    into the cache. *)
Definition playback_database (p : Pager) (pgno : Z) (aData : bytes) : prog (Z * Pager) :=
  let isSynced := noSync g || (journalOff p <=? journalHdr p) in
  if ((PAGER_WRITER_DBMOD <=? eState p) || (eState p =? PAGER_OPEN)) && isSynced then
    rc ← call (Write Db ((pgno - 1) * pageSize p) aData);
    Ret (rc, if dbFileSize p <? pgno then set_dbFileSize p pgno else p)
  else Ret (SQLITE_OK, p).

Definition playback_cache (p : Pager) (pgno : Z) (aData : bytes) : Pager :=
  match pPCache p !! pgno with
  | None => p
  | Some pg =>
      let p := set_pg p pgno (pg_set_data pg aData) in
      if pgno =? 1 then set_dbFileVers p (slice aData 24 16) else p
  end.

(** A record of the main journal, outside a savepoint. *)
Definition pager_playback_one_page (p : Pager) : prog (Z * Pager) :=
  _ ← assert ((PAGER_WRITER_CACHEMOD <=? eState p) || ((eState p =? PAGER_OPEN) && (eLock p =? EXCLUSIVE_LOCK)));
  '(rc, pgno) ← read32bits Jrnl (journalOff p);
  if negb (rc =? SQLITE_OK) then Ret (rc, p) else
  '(rc, aData) ← call (Read Jrnl (journalOff p + 4) (pageSize p));
  if negb (rc =? SQLITE_OK) then Ret (rc, p) else
  let p := set_journalOff p (journalOff p + pageSize p + 4 + 4) in
  if (pgno =? 0) || (pgno =? PAGER_MJ_PGNO p) then Ret (SQLITE_DONE, p) else
  if dbSize p <? pgno then Ret (SQLITE_OK, p) else
  '(rc, cksum) ← read32bits Jrnl (journalOff p - 4);
  if negb (rc =? SQLITE_OK) then Ret (rc, p) else
  if negb (pager_cksum p aData =? cksum) then Ret (SQLITE_DONE, p) else
  let p := if pgno =? 1 then set_nReserve p (default 0 (aData !! 20%nat)) else p in
  '(rc, p) ← playback_database p pgno aData;
  Ret (rc, playback_cache p pgno aData).

Definition pager_truncate (p : Pager) (nPage : Z) : prog (Z * Pager) :=
  _ ← assert (negb (eState p =? PAGER_ERROR) && negb (eState p =? PAGER_READER));
  if (PAGER_WRITER_DBMOD <=? eState p) || (eState p =? PAGER_OPEN) then
    _ ← assert (eLock p =? EXCLUSIVE_LOCK);
    '(rc, currentSize) ← call (FileSize Db);
    let newSize := pageSize p * nPage in
    if (rc =? SQLITE_OK) && negb (currentSize =? newSize) then
      rc ← (if newSize <? currentSize then call (Truncate Db newSize)
            else if currentSize + pageSize p <=? newSize then call (Write Db (newSize - pageSize p) (zeros (pageSize p)))
            else Ret SQLITE_OK);
      Ret (rc, if rc =? SQLITE_OK then set_dbFileSize p nPage else p)
    else Ret (rc, p)
  else Ret (SQLITE_OK, p).

(** [xFileControl] knows nothing of SQLITE_FCNTL_SYNC. *)
Definition sqlite3PagerSync (p : Pager) : prog Z := if noSync g then Ret SQLITE_OK else call (Sync Db).

(** ** The end of a transaction *)

Definition zeroJournalHdr (p : Pager) (doTruncate : bool) : prog Z :=
  _ ← assert (jfd p);
  if journalOff p =? 0 then Ret SQLITE_OK else
  let iLimit := journalSizeLimit g in
  rc ← (if doTruncate || (iLimit =? 0) then call (Truncate Jrnl 0) else call (Write Jrnl 0 (zeros 28)));
  rc ← (if (rc =? SQLITE_OK) && negb (noSync g) then call (Sync Jrnl) else Ret rc);
  if (rc =? SQLITE_OK) && (0 <? iLimit) then
    '(rc, sz) ← call (FileSize Jrnl);
    if (rc =? SQLITE_OK) && (iLimit <? sz) then call (Truncate Jrnl iLimit) else Ret rc
  else Ret rc.

(** The journal is made unusable. *)
Definition finalize (p : Pager) (hasMaster : bool) : prog (Z * Pager) :=
  if negb (jfd p) then Ret (SQLITE_OK, p) else
  match journalMode g, exclusiveMode g with
  | PAGER_JOURNALMODE_TRUNCATE, _ =>
      rc ← (if journalOff p =? 0 then Ret SQLITE_OK else
              rc ← call (Truncate Jrnl 0);
              if (rc =? SQLITE_OK) && fullSync g then call (Sync Jrnl) else Ret rc);
      Ret (rc, set_journalOff p 0)
  | PAGER_JOURNALMODE_PERSIST, _ | _, true =>
      rc ← zeroJournalHdr p hasMaster;
      Ret (rc, set_journalOff p 0)
  | _, _ =>
      rc ← call (Delete (extraSync g));
      Ret (rc, set_jfd p false)
  end.

Definition pager_end_transaction (p : Pager) (hasMaster bCommit : bool) : prog (Z * Pager) :=
  _ ← assert (negb (eState p =? PAGER_ERROR));
  if (eState p <? PAGER_WRITER_LOCKED) && (eLock p <? RESERVED_LOCK) then Ret (SQLITE_OK, p) else
  _ ← assert (jfd p || match pInJournal p with None => true | _ => false end);
  '(rc, p) ← finalize p hasMaster;
  let p := set_nRec (set_pInJournal p None) 0 in
  let p := if rc =? SQLITE_OK then set_pPCache p (sqlite3PcacheTruncate (dbSize p) (sqlite3PcacheCleanAll (pPCache p))) else p in
  '(rc, p) ← (if (rc =? SQLITE_OK) && bCommit && (dbSize p <? dbFileSize p) then
                _ ← assert (eLock p =? EXCLUSIVE_LOCK);
                pager_truncate p (dbSize p)
              else Ret (rc, p));
  '(rc2, p) ← (if exclusiveMode g then Ret (SQLITE_OK, p) else
                 '(rc2, p) ← pagerUnlockDb p SHARED_LOCK;
                 Ret (rc2, set_changeCountDone p false));
  Ret (if rc =? SQLITE_OK then rc2 else rc, set_setMaster (set_eState p PAGER_READER) false).

(** ** Playback *)

(** The loop over the records of one header.  The answer is the code with which to go
    on to [end_playback], or nothing to go on with the next header. *)
Fixpoint pager_playback_records (fuel : nat) (p : Pager) (szJ u nRec : Z) (needPagerReset : bool) : prog (option Z * bool * Pager) :=
  match fuel with
  | O => Crash
  | S fuel =>
      if u <? nRec then
        let p := if needPagerReset then pager_reset p else p in
        '(rc, p) ← pager_playback_one_page p;
        if rc =? SQLITE_OK then pager_playback_records fuel p szJ (u + 1) nRec false
        else if rc =? SQLITE_DONE then Ret (None, false, set_journalOff p szJ)
        else if rc =? SQLITE_IOERR_SHORT_READ then Ret (Some SQLITE_OK, false, p)
        else Ret (Some rc, false, p)
      else Ret (None, needPagerReset, p)
  end.

(** The number of records to play back. *)
Definition playback_count (p : Pager) (isHot : bool) (szJ nRec : Z) : Z :=
  let nRec := if nRec =? 0xffffffff then wrap_u 32 ((szJ - JOURNAL_HDR_SZ p) / JOURNAL_PG_SZ p) else nRec in
  if (nRec =? 0) && negb isHot && (journalHdr p + JOURNAL_HDR_SZ p =? journalOff p) then wrap_u 32 ((szJ - journalOff p) / JOURNAL_PG_SZ p) else nRec.

Fixpoint pager_playback_loop (fuel : nat) (p : Pager) (isHot : bool) (szJ : Z) (needPagerReset : bool) : prog (Z * Pager) :=
  match fuel with
  | O => Crash
  | S fuel =>
      '(rc, nRec, mxPg, p) ← readJournalHdr p isHot szJ;
      if negb (rc =? SQLITE_OK) then Ret (if rc =? SQLITE_DONE then SQLITE_OK else rc, p) else
      let nRec := playback_count p isHot szJ nRec in
      '(rc, p) ← (if journalOff p =? JOURNAL_HDR_SZ p then
                    '(rc, p) ← pager_truncate p mxPg;
                    Ret (rc, if rc =? SQLITE_OK then set_dbSize p mxPg else p)
                  else Ret (SQLITE_OK, p));
      if negb (rc =? SQLITE_OK) then Ret (rc, p) else
      '(out, needPagerReset, p) ← pager_playback_records (Z.to_nat (szJ / JOURNAL_PG_SZ p) + 2) p szJ 0 nRec needPagerReset;
      match out with
      | Some rc => Ret (rc, p)
      | None => pager_playback_loop fuel p isHot szJ needPagerReset
      end
  end.

(** From the label [end_playback] on. *)
Definition end_playback (p : Pager) (savedPageSize : Z) (res : bool) (rc : Z) : prog (Z * Pager) :=
  '(rc, p) ← (if rc =? SQLITE_OK then sqlite3PagerSetPagesize p savedPageSize else Ret (rc, p));
  let p := set_changeCountDone p false in
  '(rc, zMaster) ← (if rc =? SQLITE_OK then readMasterJournal (mxPathname g + 1) else Ret (rc, []));
  rc ← (if (rc =? SQLITE_OK) && ((PAGER_WRITER_DBMOD <=? eState p) || (eState p =? PAGER_OPEN)) then sqlite3PagerSync p else Ret rc);
  '(rc, p) ← (if rc =? SQLITE_OK then pager_end_transaction p (named zMaster) false else Ret (rc, p));
  rc ← (if (rc =? SQLITE_OK) && named zMaster && res then call (DelMaster zMaster) else Ret rc);
  Ret (rc, set_sectorSize p (osSectorSize g)).

Definition pager_playback (p : Pager) (isHot : bool) : prog (Z * Pager) :=
  let savedPageSize := pageSize p in
  _ ← assert (jfd p);
  '(rc, szJ) ← call (FileSize Jrnl);
  if negb (rc =? SQLITE_OK) then end_playback p savedPageSize true rc else
  '(rc, zMaster) ← readMasterJournal (mxPathname g + 1);
  '(rc, res) ← (if (rc =? SQLITE_OK) && named zMaster then call (MasterExists zMaster) else Ret (rc, true));
  if negb (rc =? SQLITE_OK) || negb res then end_playback p savedPageSize res rc else
  let p := set_journalOff p 0 in
  '(rc, p) ← pager_playback_loop (Z.to_nat szJ + 2) p isHot szJ isHot;
  end_playback p savedPageSize true rc.

(** ** Pages *)

Definition readDbPage (p : Pager) (pgno : Z) : prog (Z * bytes * Pager) :=
  _ ← assert (PAGER_READER <=? eState p);
  '(rc, d) ← call (Read Db ((pgno - 1) * pageSize p) (pageSize p));
  let rc := if rc =? SQLITE_IOERR_SHORT_READ then SQLITE_OK else rc in
  Ret (rc, d, if pgno =? 1 then set_dbFileVers p (if negb (rc =? SQLITE_OK) then replicate 16 0xff else slice d 24 16) else p).

(** [getPageNormal] without flags; memory for the cache is available. *)
Definition sqlite3PagerGet (p : Pager) (pgno : Z) : prog (Z * Pager) :=
  if negb (errCode p =? SQLITE_OK) then Ret (errCode p, p) else
  _ ← assert (PAGER_READER <=? eState p);
  if pgno =? 0 then Ret (SQLITE_CORRUPT, p) else
  match pPCache p !! pgno with
  | Some _ => Ret (SQLITE_OK, p)
  | None =>
      if (PAGER_MAX_PGNO <? pgno) || (pgno =? PAGER_MJ_PGNO p) then Ret (SQLITE_CORRUPT, p) else
      if dbSize p <? pgno then
        if mxPgno p <? pgno then Ret (SQLITE_FULL, p) else
        Ret (SQLITE_OK, set_pg p pgno (mkPgHdr (zeros (pageSize p)) false false false false))
      else
        '(rc, d, p) ← readDbPage p pgno;
        Ret (rc, if rc =? SQLITE_OK then set_pg p pgno (mkPgHdr d false false false false) else p)
  end.

(** The change counter, its copy and the version of SQLite are put into page 1. *)
Definition pager_write_changecounter (p : Pager) (d : bytes) : bytes :=
  let change_counter := wrap_u 32 (get32 (dbFileVers p) + 1) in
  write_at (write_at (write_at d 24 (sqlite3Put4byte change_counter)) 92 (sqlite3Put4byte change_counter)) 96 (sqlite3Put4byte SQLITE_VERSION_NUMBER).

(** ** Beginning a transaction *)

Definition sqlite3PagerBegin (p : Pager) (exFlag : bool) : prog (Z * Pager) :=
  if negb (errCode p =? SQLITE_OK) then Ret (errCode p, p) else
  _ ← assert ((PAGER_READER <=? eState p) && (eState p <? PAGER_ERROR));
  if eState p =? PAGER_READER then
    andthen (andthen (pagerLockDb p RESERVED_LOCK) (fun p => if exFlag then pagerLockDb p EXCLUSIVE_LOCK else Ret (SQLITE_OK, p)))
      (fun p => Ret (SQLITE_OK, set_journalOff (set_dbOrigSize (set_dbFileSize (set_eState p PAGER_WRITER_LOCKED) (dbSize p)) (dbSize p)) 0))
  else Ret (SQLITE_OK, p).

Definition databaseIsUnmoved (p : Pager) : prog Z := if dbSize p =? 0 then Ret SQLITE_OK else call HasMoved.

Definition pager_open_journal (p : Pager) : prog (Z * Pager) :=
  _ ← assert ((eState p =? PAGER_WRITER_LOCKED) && match pInJournal p with None => true | _ => false end);
  if negb (errCode p =? SQLITE_OK) then Ret (errCode p, p) else
  mem ← call Malloc;
  match (sqlite3BitvecCreate (dbSize p) mem).1 with
  | None => Ret (SQLITE_NOMEM, p)
  | Some b =>
      let p := set_pInJournal p (Some b) in
      '(rc, p) ← (if jfd p then Ret (SQLITE_OK, p) else
                    rc ← databaseIsUnmoved p;
                    if negb (rc =? SQLITE_OK) then Ret (rc, p) else
                    rc ← call Open;
                    Ret (rc, if rc =? SQLITE_OK then set_jfd p true else p));
      '(rc, p) ← (if negb (rc =? SQLITE_OK) then Ret (rc, p) else
                    writeJournalHdr (set_journalHdr (set_setMaster (set_journalOff (set_nRec p 0) 0) false) 0));
      Ret (rc, if rc =? SQLITE_OK then set_eState p PAGER_WRITER_CACHEMOD else set_pInJournal p None)
  end.

(** ** Writing to the journal *)

Definition pagerAddPageToRollbackJournal (p : Pager) (pgno : Z) (pg : PgHdr) : prog (Z * Pager) :=
  let iOff := journalOff p in
  _ ← assert (negb (pgno =? PAGER_MJ_PGNO p));
  _ ← assert (journalHdr p <=? journalOff p);
  let cksum := pager_cksum p (pData pg) in
  let p := set_pg p pgno (pg_need_sync pg) in
  rc ← write32bits Jrnl iOff pgno;
  if negb (rc =? SQLITE_OK) then Ret (rc, p) else
  rc ← call (Write Jrnl (iOff + 4) (pData pg));
  if negb (rc =? SQLITE_OK) then Ret (rc, p) else
  rc ← write32bits Jrnl (iOff + pageSize p + 4) cksum;
  if negb (rc =? SQLITE_OK) then Ret (rc, p) else
  let p := set_nRec (set_journalOff p (journalOff p + (8 + pageSize p))) (nRec p + 1) in
  mem ← call Malloc;
  match sqlite3BitvecSet (pInJournal p) pgno mem with
  | Some (rc, b, _) => Ret (rc, set_pInJournal p b)
  | None => Crash
  end.

Definition pager_write (p : Pager) (pgno : Z) : prog (Z * Pager) :=
  _ ← assert ((PAGER_WRITER_LOCKED <=? eState p) && (eState p <=? PAGER_WRITER_DBMOD) && (errCode p =? SQLITE_OK));
  andthen (if eState p =? PAGER_WRITER_LOCKED then pager_open_journal p else Ret (SQLITE_OK, p)) (fun p =>
  match pPCache p !! pgno with
  | None => Crash
  | Some pg =>
      let pg := sqlite3PcacheMakeDirty pg in
      let p := set_pg p pgno pg in
      _ ← assert (Bool.eqb (match pInJournal p with Some _ => true | None => false end) (jfd p));
      andthen
        (match pInJournal p with
         | None => Ret (SQLITE_OK, p)
         | Some b =>
             match sqlite3BitvecTestNotNull b pgno with
             | None => Crash
             | Some true => Ret (SQLITE_OK, p)
             | Some false =>
                 if pgno <=? dbOrigSize p then pagerAddPageToRollbackJournal p pgno pg
                 else Ret (SQLITE_OK, if eState p =? PAGER_WRITER_DBMOD then p else set_pg p pgno (pg_need_sync pg))
             end
         end)
        (fun p =>
           let p := set_pPCache p (alter pg_writeable pgno (pPCache p)) in
           Ret (SQLITE_OK, if dbSize p <? pgno then set_dbSize p pgno else p))
  end).

(** The loop over the pages of a sector, which also answers whether one needs a sync. *)
Fixpoint pagerWriteLargeSector_pages (n : nat) (p : Pager) (pgno pg : Z) (needSync : bool) : prog (Z * bool * Pager) :=
  match n with
  | O => Ret (SQLITE_OK, needSync, p)
  | S n =>
      let need p := match pPCache p !! pg with Some x => PGHDR_NEED_SYNC x | None => false end in
      match sqlite3BitvecTest (pInJournal p) pg with
      | None => Crash
      | Some inJournal =>
          if (pg =? pgno) || negb inJournal then
            if pg =? PAGER_MJ_PGNO p then pagerWriteLargeSector_pages n p pgno (pg + 1) needSync else
            '(rc, p) ← sqlite3PagerGet p pg;
            if negb (rc =? SQLITE_OK) then Ret (rc, needSync, p) else
            '(rc, p) ← pager_write p pg;
            let needSync := needSync || need p in
            if rc =? SQLITE_OK then pagerWriteLargeSector_pages n p pgno (pg + 1) needSync else Ret (rc, needSync, p)
          else pagerWriteLargeSector_pages n p pgno (pg + 1) (needSync || need p)
      end
  end.

Definition pagerWriteLargeSector (p : Pager) (pgno : Z) : prog (Z * Pager) :=
  let nPagePerSector := sectorSize p / pageSize p in
  let pg1 := Z.land (pgno - 1) (Z.lnot (nPagePerSector - 1)) + 1 in
  let nPageCount := dbSize p in
  let nPage := if nPageCount <? pgno then pgno - pg1 + 1
    else if nPageCount <? pg1 + nPagePerSector - 1 then nPageCount + 1 - pg1 else nPagePerSector in
  _ ← assert ((0 <? nPage) && (pg1 <=? pgno) && (pgno <? pg1 + nPage));
  '(rc, needSync, p) ← pagerWriteLargeSector_pages (Z.to_nat nPage) p pgno pg1 false;
  Ret (rc, if (rc =? SQLITE_OK) && needSync
           then set_pPCache p (foldl (fun c pg => alter pg_need_sync pg c) (pPCache p) (seqZ pg1 nPage)) else p).

Definition sqlite3PagerWrite (p : Pager) (pgno : Z) : prog (Z * Pager) :=
  _ ← assert (PAGER_WRITER_LOCKED <=? eState p);
  match pPCache p !! pgno with
  | None => Crash
  | Some pg =>
      if PGHDR_WRITEABLE pg && (pgno <=? dbSize p) then Ret (SQLITE_OK, p)
      else if negb (errCode p =? SQLITE_OK) then Ret (errCode p, p)
      else if pageSize p <? sectorSize p then pagerWriteLargeSector p pgno
      else pager_write p pgno
  end.

Definition syncJournal (p : Pager) (newHdr : bool) : prog (Z * Pager) :=
  _ ← assert ((eState p =? PAGER_WRITER_CACHEMOD) || (eState p =? PAGER_WRITER_DBMOD));
  let safe_append := negb (Z.land (iDc g) SQLITE_IOCAP_SAFE_APPEND =? 0) in
  let sequential := negb (Z.land (iDc g) SQLITE_IOCAP_SEQUENTIAL =? 0) in
  andthen (sqlite3PagerExclusiveLock p) (fun p =>
  andthen
    (if noSync g then Ret (SQLITE_OK, p)
     else if jfd p then
       rc ← (if safe_append then Ret SQLITE_OK else
               let zHeader := aJournalMagic ++ sqlite3Put4byte (nRec p) in
               let iNextHdrOffset := journalHdrOffset p in
               '(rc, aMagic) ← call (Read Jrnl iNextHdrOffset 8);
               rc ← (if (rc =? SQLITE_OK) && bool_decide (aMagic = aJournalMagic) then call (Write Jrnl iNextHdrOffset [0]) else Ret rc);
               if negb (rc =? SQLITE_OK) && negb (rc =? SQLITE_IOERR_SHORT_READ) then Ret rc else
               rc ← (if fullSync g && negb sequential then call (Sync Jrnl) else Ret SQLITE_OK);
               if negb (rc =? SQLITE_OK) then Ret rc else
               call (Write Jrnl (journalHdr p) zHeader));
       if negb (rc =? SQLITE_OK) then Ret (rc, p) else
       rc ← (if sequential then Ret SQLITE_OK else call (Sync Jrnl));
       if negb (rc =? SQLITE_OK) then Ret (rc, p) else
       let p := set_journalHdr p (journalOff p) in
       if newHdr && negb safe_append then writeJournalHdr (set_nRec p 0) else Ret (SQLITE_OK, p)
     else Ret (SQLITE_OK, set_journalHdr p (journalOff p)))
    (fun p => Ret (SQLITE_OK, set_eState (set_pPCache p (sqlite3PcacheClearSyncFlags (pPCache p))) PAGER_WRITER_DBMOD))).

(** ** Writing to the database *)

(** The list of the pages; without the hint of the size of the file. *)
Fixpoint pager_write_pagelist (p : Pager) (pList : list Z) : prog (Z * Pager) :=
  match pList with
  | [] => Ret (SQLITE_OK, p)
  | pgno :: pList =>
      match pPCache p !! pgno with
      | None => Crash
      | Some pg =>
          if (pgno <=? dbSize p) && negb (PGHDR_DONT_WRITE pg) then
            _ ← assert (negb (PGHDR_NEED_SYNC pg));
            let pg := if pgno =? 1 then pg_set_data pg (pager_write_changecounter p (pData pg)) else pg in
            let p := set_pg p pgno pg in
            rc ← call (Write Db ((pgno - 1) * pageSize p) (pData pg));
            let p := if pgno =? 1 then set_dbFileVers p (slice (pData pg) 24 16) else p in
            let p := if dbFileSize p <? pgno then set_dbFileSize p pgno else p in
            if rc =? SQLITE_OK then pager_write_pagelist p pList else Ret (rc, p)
          else pager_write_pagelist p pList
      end
  end.

(** The page has no references and is dirty. *)
Definition pagerStress (p : Pager) (pgno : Z) : prog (Z * Pager) :=
  if negb (errCode p =? SQLITE_OK) then Ret (SQLITE_OK, p) else
  match pPCache p !! pgno with
  | None => Crash
  | Some pg =>
      _ ← assert (PGHDR_DIRTY pg);
      '(rc, p) ← andthen
        (if PGHDR_NEED_SYNC pg || (eState p =? PAGER_WRITER_CACHEMOD) then syncJournal p true else Ret (SQLITE_OK, p))
        (fun p => _ ← assert (eState p =? PAGER_WRITER_DBMOD); _ ← assert (eLock p =? EXCLUSIVE_LOCK); pager_write_pagelist p [pgno]);
      Ret (pager_error (if rc =? SQLITE_OK then set_pPCache p (alter sqlite3PcacheMakeClean pgno (pPCache p)) else p) rc)
  end.

(** ** Commit and rollback *)

Definition pager_incr_changecounter (p : Pager) : prog (Z * Pager) :=
  _ ← assert ((eState p =? PAGER_WRITER_CACHEMOD) || (eState p =? PAGER_WRITER_DBMOD));
  if negb (changeCountDone p) && (0 <? dbSize p) then
    andthen (sqlite3PagerGet p 1) (fun p =>
    andthen (sqlite3PagerWrite p 1) (fun p =>
    Ret (SQLITE_OK, set_changeCountDone (set_pPCache p (alter (fun pg => pg_set_data pg (pager_write_changecounter p (pData pg))) 1 (pPCache p))) true)))
  else Ret (SQLITE_OK, p).

(** Without a master journal, so that [writeMasterJournal] does nothing. *)
Definition sqlite3PagerCommitPhaseOne (p : Pager) (noDbSync : bool) : prog (Z * Pager) :=
  _ ← assert ((PAGER_WRITER_LOCKED <=? eState p) && (eState p <=? PAGER_WRITER_DBMOD) || (eState p =? PAGER_ERROR));
  if negb (errCode p =? SQLITE_OK) then Ret (errCode p, p) else
  if eState p <? PAGER_WRITER_CACHEMOD then Ret (SQLITE_OK, p) else
  andthen (pager_incr_changecounter p) (fun p =>
  andthen (syncJournal p false) (fun p =>
  _ ← assert (eState p =? PAGER_WRITER_DBMOD); _ ← assert (eLock p =? EXCLUSIVE_LOCK);
  andthen (pager_write_pagelist p (sqlite3PcacheDirtyList (pPCache p))) (fun p =>
  let p := set_pPCache p (sqlite3PcacheCleanAll (pPCache p)) in
  andthen (if dbFileSize p <? dbSize p then pager_truncate p (dbSize p - (if dbSize p =? PAGER_MJ_PGNO p then 1 else 0)) else Ret (SQLITE_OK, p)) (fun p =>
  rc ← (if noDbSync then Ret SQLITE_OK else sqlite3PagerSync p);
  Ret (rc, if rc =? SQLITE_OK then set_eState p PAGER_WRITER_FINISHED else p))))).

Definition sqlite3PagerCommitPhaseTwo (p : Pager) : prog (Z * Pager) :=
  if negb (errCode p =? SQLITE_OK) then Ret (errCode p, p) else
  _ ← assert ((eState p =? PAGER_WRITER_LOCKED) || (eState p =? PAGER_WRITER_FINISHED));
  if (eState p =? PAGER_WRITER_LOCKED) && exclusiveMode g && match journalMode g with PAGER_JOURNALMODE_PERSIST => true | _ => false end
  then Ret (SQLITE_OK, set_eState p PAGER_READER) else
  '(rc, p) ← pager_end_transaction p (setMaster p) true;
  Ret (pager_error p rc).

Definition sqlite3PagerRollback (p : Pager) : prog (Z * Pager) :=
  if eState p =? PAGER_ERROR then Ret (errCode p, p) else
  if eState p <=? PAGER_READER then Ret (SQLITE_OK, p) else
  if negb (jfd p) || (eState p =? PAGER_WRITER_LOCKED) then
    '(rc, p') ← pager_end_transaction p false false;
    if PAGER_WRITER_LOCKED <? eState p then Ret (rc, set_eState (set_errCode p' SQLITE_ABORT) PAGER_ERROR) else Ret (pager_error p' rc)
  else
    '(rc, p) ← pager_playback p false;
    Ret (pager_error p rc).

(** ** Hot journals *)

(** A file has fewer than 2^32 pages. *)
Definition pagerPagecount (p : Pager) : prog (Z * Z * Pager) :=
  '(rc, n) ← call (FileSize Db);
  if negb (rc =? SQLITE_OK) then Ret (rc, 0, p) else
  let nPage := (n + pageSize p - 1) / pageSize p in
  Ret (SQLITE_OK, nPage, if mxPgno p <? nPage then set_mxPgno p nPage else p).

(** The journal is not open. *)
Definition hasHotJournal (p : Pager) : prog (Z * bool * Pager) :=
  _ ← assert ((eState p =? PAGER_OPEN) && negb (jfd p));
  '(rc, exists_) ← call Exists;
  if negb (rc =? SQLITE_OK) || negb exists_ then Ret (rc, false, p) else
  '(rc, locked) ← call Reserved;
  if negb (rc =? SQLITE_OK) || locked then Ret (rc, false, p) else
  '(rc, nPage, p) ← pagerPagecount p;
  if negb (rc =? SQLITE_OK) then Ret (rc, false, p) else
  if nPage =? 0 then
    '(rc, p) ← pagerLockDb p RESERVED_LOCK;
    if rc =? SQLITE_OK then
      _ ← call (Delete false);
      '(_, p) ← (if exclusiveMode g then Ret (SQLITE_OK, p) else pagerUnlockDb p SHARED_LOCK);
      Ret (SQLITE_OK, false, p)
    else Ret (SQLITE_OK, false, p)
  else
    rc ← call Open;
    if rc =? SQLITE_OK then
      '(rc, first) ← call (Read Jrnl 0 1);
      let rc := if rc =? SQLITE_IOERR_SHORT_READ then SQLITE_OK else rc in
      Ret (rc, negb (bool_decide (first = [0])), p)
    else if rc =? SQLITE_CANTOPEN then Ret (SQLITE_OK, true, p) else Ret (rc, false, p).

Definition pagerSyncHotJournal (p : Pager) : prog (Z * Pager) :=
  rc ← (if noSync g then Ret SQLITE_OK else call (Sync Jrnl));
  if negb (rc =? SQLITE_OK) then Ret (rc, p) else
  '(rc, sz) ← call (FileSize Jrnl);
  Ret (rc, if rc =? SQLITE_OK then set_journalHdr p sz else p).

Definition pager_unlock (p : Pager) : prog Pager :=
  _ ← assert ((eState p =? PAGER_READER) || (eState p =? PAGER_OPEN) || (eState p =? PAGER_ERROR));
  let p := set_pInJournal p None in
  p ← (if exclusiveMode g then Ret p else
         let p := if (Z.land (iDc g) SQLITE_IOCAP_UNDELETABLE_WHEN_OPEN =? 0) || match journalMode g with PAGER_JOURNALMODE_DELETE => true | _ => false end
                  then set_jfd p false else p in
         '(rc, p) ← pagerUnlockDb p NO_LOCK;
         let p := if negb (rc =? SQLITE_OK) && (eState p =? PAGER_ERROR) then set_eLock p UNKNOWN_LOCK else p in
         _ ← assert (negb (errCode p =? SQLITE_OK) || negb (eState p =? PAGER_ERROR));
         Ret (set_eState (set_changeCountDone p false) PAGER_OPEN));
  let p := if negb (errCode p =? SQLITE_OK) then set_errCode (set_eState (set_changeCountDone (pager_reset p) false) PAGER_OPEN) SQLITE_OK else p in
  Ret (set_setMaster (set_journalHdr (set_journalOff p 0) 0) false).

(** The part of [sqlite3PagerSharedLock] that locks the database and plays a hot journal
    back. *)
Definition sqlite3PagerSharedLock_hot (p : Pager) : prog (Z * Pager) :=
  _ ← assert (((eState p =? PAGER_OPEN) || (eState p =? PAGER_READER)) && (errCode p =? SQLITE_OK));
  if negb (eState p =? PAGER_OPEN) then Ret (SQLITE_OK, p) else
  '(rc, p) ← andthen (pagerLockDb p SHARED_LOCK) (fun p =>
    '(rc, bHotJournal, p) ← (if eLock p <=? SHARED_LOCK then hasHotJournal p else Ret (SQLITE_OK, true, p));
    if negb (rc =? SQLITE_OK) || negb bHotJournal then Ret (rc, p) else
    andthen (pagerLockDb p EXCLUSIVE_LOCK) (fun p =>
      '(rc, p) ← (if jfd p then Ret (SQLITE_OK, p) else
                    '(rc, bExists) ← call Exists;
                    if (rc =? SQLITE_OK) && bExists then
                      rc ← call Open; Ret (rc, if rc =? SQLITE_OK then set_jfd p true else p)
                    else Ret (rc, p));
      '(rc, p) ← (if jfd p then
                    andthen (pagerSyncHotJournal p) (fun p => '(rc, p) ← pager_playback p true; Ret (rc, set_eState p PAGER_OPEN))
                  else if exclusiveMode g then Ret (rc, p) else
                    '(_, p) ← pagerUnlockDb p SHARED_LOCK; Ret (rc, p));
      Ret (if rc =? SQLITE_OK then (rc, p) else pager_error p rc)));
  if rc =? SQLITE_OK then Ret (rc, p) else p ← pager_unlock p; Ret (rc, p).

End pager.
