(* ===== verification/PagerPlayback.v ===== *)
(** The rollback journal of [Pager]: its format, and playing it back.  [pager_playback],
    for a hot journal and for a transaction of its own, restores the database from a sound
    journal, and leaves it so that this can be done again if it is interrupted. *)
From S2P Require Import Prelude Varint VarintSpec Bitvec Disk DiskSpec Pager.

(** * The format of the rollback journal of [Pager]: what a sound journal is, and that the
    functions that read it find in it what those that write it have put there. *)

(** ** Integers *)

Lemma get32_put v : in_u 32 v -> get32 (sqlite3Put4byte v) = v.
Proof. intros Hv. unfold get32. destruct (put4byte_roundtrip v [] Hv) as [_ H]. rewrite app_nil_r in H. rewrite H. by apply wrap_u_id. Qed.

Lemma get32_range d : in_u 32 (get32 d).
Proof. apply wrap_u_range. lia. Qed.

Lemma lenz_put v : lenz (sqlite3Put4byte v) = 4.
Proof. reflexivity. Qed.

Definition field (c : bytes) (o : Z) : Z := get32 (slice c o 4).

Lemma field_ext c d o : 0 <= o -> (forall i, o <= i < o + 4 -> get c i = get d i) -> field c o = field d o.
Proof. intros Ho H. unfold field. f_equal. by apply slice_ext. Qed.

(** ** The geometry of a pager

    The sizes of a page, of a header, of a sector of the device, the size of the original
    database in pages, and its contents. *)
Class geometry := {
  szS : Z;
  szP : Z;
  szH : Z;
  nOrig : Z;
  orig : bytes;
  geo_S : 32 <= szS;
  geo_multiple : exists k, 0 < k /\ szH = k * szS;
  geo_H : 32 <= szH <= MAX_SECTOR_SIZE;
  geo_H2 : Z.land (szH - 1) szH = 0;
  geo_P : 512 <= szP <= SQLITE_MAX_PAGE_SIZE;
  geo_P2 : Z.land (szP - 1) szP = 0;
  geo_le : szH <= szP;
  geo_N : 0 <= nOrig <= PAGER_MAX_PGNO;
  geo_orig : lenz orig = nOrig * szP }.

(** The laws that [lia] needs. *)
Ltac geo :=
  let g1 := fresh "geo" in let g2 := fresh "geo" in let g3 := fresh "geo" in let g4 := fresh "geo" in let g5 := fresh "geo" in let g6 := fresh "geo" in
  pose proof geo_S as g1; pose proof geo_H as g2; pose proof geo_P as g3; pose proof geo_le as g4; pose proof geo_N as g5; pose proof geo_orig as g6.

Section format.
Context {G : geometry}.

Definition R : Z := szP + 8.
Definition page (c : bytes) (pgno : Z) : bytes := slice c ((pgno - 1) * szP) szP.
Definition mj : Z := PENDING_BYTE / szP + 1.
Definition align (o : Z) : Z := if o =? 0 then 0 else ((o - 1) / szH + 1) * szH.
Definition cksum (ck : Z) (d : bytes) : Z := pager_cksum_loop (Z.to_nat szP) d (szP - 200) ck.

(** The fields of a header at [h] for [n] records. *)
Definition header_fields (c : bytes) (h n ck : Z) : Prop :=
  h + szH <= lenz c /\ field c (h + 8) = n /\ field c (h + 12) = ck /\ field c (h + 16) = nOrig /\ field c (h + 20) = szH /\ field c (h + 24) = szP.

Definition header (c : bytes) (h n ck : Z) : Prop := magic_at c h /\ header_fields c h n ck /\ n <> 0xffffffff.

(** The original contents of a page. *)
Definition record_ok (c : bytes) (o ck pgno : Z) : Prop :=
  o + R <= lenz c /\ field c o = pgno /\ slice c (o + 4) szP = page orig pgno /\ field c (o + 4 + szP) = cksum ck (page orig pgno) /\ 1 <= pgno <= nOrig /\ pgno <> mj.

Definition records (c : bytes) (o ck : Z) (pgs : list Z) : Prop := forall k pgno, pgs !! k = Some pgno -> record_ok c (o + Z.of_nat k * R) ck pgno.

Definition count (pgs : list Z) : Z := Z.of_nat (length pgs).

(** The segments from [o] to [E], which save the pages [pgs]. *)
Inductive chain (c : bytes) : Z -> list Z -> Z -> Prop :=
  | chain_nil o : chain c o [] o
  | chain_cons o ck q rest E :
      header c (align o) (count q) ck -> records c (align o + szH) ck q -> chain c (align o + szH + count q * R) rest E ->
      chain c o (q ++ rest) E.

(** A journal that is played back. *)
Definition hot (c : bytes) (pgs : list Z) : Prop := exists E, 0 < E /\ chain c 0 pgs E /\ ~ magic_at c (align E).

Definition no_magic (j : option bytes) : Prop := match j with None => True | Some c => ~ magic_at c 0 end.

(** The pages that are not saved are as they were. *)
Definition kept (pgs : list Z) (D : bytes) : Prop := nOrig * szP <= lenz D /\ forall pgno, 1 <= pgno <= nOrig -> pgno ∉ pgs -> page D pgno = page orig pgno.

(** Files from which a transaction can be undone. *)
Definition restorable (D : bytes) (j : option bytes) : Prop :=
  (D = orig /\ no_magic j) \/ exists c pgs, j = Some c /\ hot c pgs /\ kept pgs D.

Lemma R_pos : 520 <= R.
Proof. unfold R. geo. lia. Qed.

(** Division with remainder, in the form [lia] can use. *)
Lemma div_bounds a n : 0 < n -> a = n * (a / n) + a mod n /\ 0 <= a mod n < n.
Proof. intros Hn. split; [apply Z.div_mod; lia|by apply Z.mod_pos_bound]. Qed.

Lemma align_bounds o : 0 <= o -> o <= align o < o + szH.
Proof.
  intros Ho. unfold align. destruct (Z.eqb_spec o 0); [geo; lia|]. geo.
  destruct (div_bounds (o - 1) szH); [lia|]. nia.
Qed.

Lemma align_multiple o : 0 <= o -> exists k, 0 <= k /\ align o = k * szS.
Proof.
  intros Ho. destruct geo_multiple as (m & Hm & Em). geo. unfold align. destruct (Z.eqb_spec o 0); [by exists 0|].
  exists (((o - 1) / szH + 1) * m). assert (0 <= (o - 1) / szH) by (apply Z.div_pos; lia). split; [nia|]. rewrite Em. lia.
Qed.

Lemma align_aligned o : 0 <= o -> align (align o) = align o.
Proof.
  intros Ho. pose proof (align_bounds o Ho). geo. assert (E : exists k, align o = k * szH) by (unfold align; case_bool; [by exists 0|eauto]).
  destruct E as [k Ek]. pose proof (align_bounds (align o) ltac:(lia)) as Hb. unfold align at 1. case_bool; bool_to_prop; [lia|].
  rewrite Ek. assert ((k * szH - 1) / szH = k - 1) as -> by (symmetry; apply (Z.div_unique _ _ _ (szH - 1)); lia). lia.
Qed.

Lemma count_app p q : count (p ++ q) = count p + count q.
Proof. unfold count. rewrite length_app. lia. Qed.

Lemma count_nonneg p : 0 <= count p.
Proof. unfold count. lia. Qed.

(** What depends on a part of the file only. *)
Lemma header_ext c v h n ck :
  0 <= h -> h + szH <= lenz v -> (forall i, h <= i < h + 28 -> get v i = get c i) -> header c h n ck -> header v h n ck.
Proof.
  intros Hh Hl Hg (Hm & (H1 & H2 & H3 & H4 & H5 & H6) & Hn). split; [apply (magic_ext c); [done| |done]; intros i Hi; symmetry; apply Hg; lia|]. split; [|done].
  split; [done|]. assert (F : forall d, 0 <= d -> d + 4 <= 28 -> field v (h + d) = field c (h + d)) by (intros; apply field_ext; [lia|]; intros i Hi; apply Hg; lia).
  rewrite <- H2, <- H3, <- H4, <- H5, <- H6. by rewrite !F by lia.
Qed.

Lemma record_ext c v o ck pgno :
  0 <= o -> o + R <= lenz v -> (forall i, o <= i < o + R -> get v i = get c i) -> record_ok c o ck pgno -> record_ok v o ck pgno.
Proof.
  unfold R. geo. intros Ho Hl Hg (H1 & H2 & H3 & H4 & H5). split; [done|].
  rewrite (field_ext v c o), (field_ext v c (o + 4 + szP)) by (try lia; intros i Hi; apply Hg; lia).
  rewrite (slice_ext v c (o + 4) szP) by (try lia; intros i Hi; apply Hg; lia). done.
Qed.

Lemma records_ext c v o ck q :
  0 <= o -> o + count q * R <= lenz v -> (forall i, o <= i < o + count q * R -> get v i = get c i) -> records c o ck q -> records v o ck q.
Proof.
  intros Ho Hl Hg Hr k pgno Hk. pose proof R_pos. pose proof (lookup_lt_Some _ _ _ Hk). unfold count in *.
  apply (record_ext c); [nia|nia| |by apply Hr]. intros i Hi. apply Hg. nia.
Qed.

Lemma chain_le c o pgs E : 0 <= o -> chain c o pgs E -> o <= E.
Proof.
  intros Ho Hc. induction Hc as [|o ck q rest E Hh Hr Hc IH]; [lia|]. pose proof (align_bounds o Ho). pose proof R_pos. pose proof (count_nonneg q).
  geo. enough (align o + szH + count q * R <= E) by nia. apply IH. nia.
Qed.

Lemma chain_len c pgs E : chain c 0 pgs E -> 0 < E -> E <= lenz c.
Proof.
  assert (Gen : forall o, 0 <= o -> chain c o pgs E -> o = E \/ E <= lenz c).
  { intros o Ho Hc. induction Hc as [|o ck q rest E Hh Hr Hc IH]; [by left|right]. pose proof (align_bounds o Ho). pose proof R_pos. pose proof (count_nonneg q). geo.
    destruct IH as [E1|]; [nia| |done]. subst E. destruct Hh as (_ & (Hl & _) & _). destruct (decide (q = [])) as [->|Hq]; [unfold count; cbn; lia|].
    destruct q as [|x q _] using rev_ind; [done|]. rewrite count_app. destruct (Hr (length q) x) as (Hl' & _); [by rewrite lookup_app_r, Nat.sub_diag by lia|].
    unfold count in *. cbn [length]. lia. }
  intros Hc HE. destruct (Gen 0 ltac:(lia) Hc); [lia|done].
Qed.

Lemma chain_ext c v o pgs E :
  0 <= o -> E <= lenz v -> (forall i, o <= i < E -> get v i = get c i) -> chain c o pgs E -> chain v o pgs E.
Proof.
  intros Ho Hl Hg Hc. revert Ho Hl Hg. induction Hc as [|o ck q rest E Hh Hr Hc IH]; intros Ho Hl Hg; [constructor|].
  pose proof (align_bounds o Ho). pose proof R_pos. pose proof (count_nonneg q). geo.
  assert (Hle : align o + szH + count q * R <= E) by (eapply chain_le; [|done]; nia).
  apply (chain_cons v o ck); [apply (header_ext c)|apply (records_ext c)|apply IH]; try done; try nia; intros i Hi; apply Hg; nia.
Qed.

Lemma hot_chain_snoc c o pgs E ck q :
  chain c o pgs E -> header c (align E) (count q) ck -> records c (align E + szH) ck q -> chain c o (pgs ++ q) (align E + szH + count q * R).
Proof.
  intros Hc. induction Hc as [o|o ck' q' rest E Hh Hr Hc IH]; intros Hh' Hr'.
  - pose proof (chain_cons c o ck q [] _ Hh' Hr' (chain_nil _ _)) as X. by rewrite app_nil_r in X.
  - rewrite <- app_assoc. econstructor; [done..|]. by apply IH.
Qed.

Lemma chain_pages c o pgs E pgno : chain c o pgs E -> pgno ∈ pgs -> 1 <= pgno <= nOrig /\ pgno <> mj.
Proof.
  intros Hc. induction Hc as [|o ck q rest E Hh Hr Hc IH]; [by intros ?%elem_of_nil|]. intros [Hq|Hq]%elem_of_app; [|auto].
  apply list_elem_of_lookup in Hq as [k Hk]. by destruct (Hr k pgno Hk) as (_ & _ & _ & _ & ?).
Qed.

(** ** The database *)

Lemma page_bounds pgno c : 1 <= pgno <= nOrig -> nOrig * szP <= lenz c -> 0 <= (pgno - 1) * szP /\ (pgno - 1) * szP + szP <= lenz c.
Proof. geo. intros Hp Hl. split; [nia|]. assert (pgno * szP <= nOrig * szP) by nia. lia. Qed.

Lemma lenz_page pgno c : 1 <= pgno <= nOrig -> nOrig * szP <= lenz c -> lenz (page c pgno) = szP.
Proof. intros Hp Hl. destruct (page_bounds pgno c Hp Hl). apply lenz_slice; geo; lia. Qed.

Lemma page_get c d pgno i : 1 <= pgno -> page c pgno = page d pgno -> (pgno - 1) * szP <= i < pgno * szP -> get c i = get d i.
Proof. geo. intros Hp E Hi. apply (slice_get c d ((pgno - 1) * szP) szP); [nia|exact E|lia]. Qed.

(** The page that holds a byte. *)
Lemma byte_page i : 0 <= i < nOrig * szP -> exists pgno, 1 <= pgno <= nOrig /\ (pgno - 1) * szP <= i < pgno * szP.
Proof.
  geo. intros Hi. exists (i / szP + 1). destruct (div_bounds i szP); [lia|].
  assert (0 <= i / szP) by (apply Z.div_pos; lia). assert (i / szP < nOrig) by (apply Z.div_lt_upper_bound; lia). split; lia.
Qed.

Lemma kept_nil D : lenz D = nOrig * szP -> kept [] D -> D = orig.
Proof.
  intros Hl [_ Hk]. apply get_ext. intros i Hi. destruct (Z.ltb_spec i (nOrig * szP)).
  - destruct (byte_page i ltac:(lia)) as (pgno & Hp & Hr). apply (page_get _ _ pgno); [lia| |done]. apply Hk; [done|by intros ?%elem_of_nil].
  - rewrite !get_None; [done|geo; lia..].
Qed.

Lemma kept_orig pgs : kept pgs orig.
Proof. split; [geo; lia|done]. Qed.

Lemma kept_mono pgs pgs' D : (forall x, x ∈ pgs -> x ∈ pgs') -> kept pgs D -> kept pgs' D.
Proof. intros Hs [Hl Hk]. split; [done|]. intros x Hx Hn. apply Hk; auto. Qed.

Lemma kept_mixed pgs P D : mixed szS P D -> (forall v, P v -> kept pgs v) -> kept pgs D.
Proof.
  intros Hm HP. assert (Hs : 0 < szS) by (geo; lia). assert (Hl : nOrig * szP <= lenz D) by (eapply mixed_len_ge; [done|]; intros v Hv; apply (HP v Hv)).
  split; [done|]. intros pgno Hp Hn. destruct (page_bounds pgno D Hp Hl) as [H1 H2]. apply slice_ext; [done|]. intros i Hi.
  eapply (mixed_agree szS P D Hs Hm); [|lia]. intros v Hv _. destruct (HP v Hv) as [Hlv Hk]. apply (page_get _ _ pgno); [lia|by apply Hk|lia].
Qed.

(** Writing a page. *)
Lemma page_write_same c pgno d : 1 <= pgno -> lenz d = szP -> page (write_at c ((pgno - 1) * szP) d) pgno = d.
Proof. intros Hp Hd. geo. unfold page. assert (Ho : 0 <= (pgno - 1) * szP) by nia. pose proof (slice_write_same c _ d Ho) as X. by rewrite Hd in X. Qed.

Lemma page_write_other c pgno d x :
  1 <= pgno -> lenz d = szP -> 1 <= x <= nOrig -> nOrig * szP <= lenz c -> x <> pgno -> page (write_at c ((pgno - 1) * szP) d) x = page c x.
Proof.
  intros Hp Hd Hx Hl Hne. geo. destruct (page_bounds x c Hx Hl). apply slice_write_out; [nia|lia|lia|]. rewrite Hd. nia.
Qed.

Lemma kept_write pgs c pgno d : 1 <= pgno -> lenz d = szP -> pgno ∈ pgs \/ nOrig < pgno \/ d = page orig pgno -> kept pgs c -> kept pgs (write_at c ((pgno - 1) * szP) d).
Proof.
  intros Hp Hd Hor [Hl Hk]. geo. split; [rewrite lenz_write_at by nia; lia|]. intros x Hx Hn. destruct (Z.eq_dec x pgno) as [->|Hne].
  - rewrite page_write_same by done. destruct Hor as [|[|]]; [done|lia|done].
  - rewrite page_write_other by done. by apply Hk.
Qed.

Lemma kept_versions pgs c pgno d v :
  1 <= pgno -> lenz d = szP -> pgno ∈ pgs \/ nOrig < pgno \/ d = page orig pgno -> kept pgs c -> write_versions c ((pgno - 1) * szP) d v -> kept pgs v.
Proof.
  intros Hp Hd Hor Hk [->|(H1 & H2 & _)]; [by apply kept_write|]. destruct Hk as [Hl Hk]. split; [lia|]. intros x Hx Hn. rewrite <- Hk by done.
  destruct (page_bounds x c Hx Hl). apply slice_ext; [done|]. intros i Hi. apply H2. lia.
Qed.

Lemma kept_resize pgs c : kept pgs c -> kept pgs (resize c (nOrig * szP)).
Proof.
  intros [Hl Hk]. geo. split; [rewrite lenz_resize by nia; lia|]. intros x Hx Hn. rewrite <- Hk by done.
  destruct (page_bounds x (resize c (nOrig * szP)) Hx) as [Hb1 Hb2]; [rewrite lenz_resize by nia; lia|]. rewrite lenz_resize in Hb2 by nia. apply slice_resize; lia.
Qed.

Lemma restorable_orig j : no_magic j \/ (exists c pgs, j = Some c /\ hot c pgs) -> restorable orig j.
Proof. intros [Hj|(c & pgs & -> & Hh)]; [by left|]. right. exists c, pgs. split; [done|]. split; [done|]. apply kept_orig. Qed.

End format.

(** * Playing a rollback journal back: [pager_playback] of [Pager], for a hot journal and
    for a transaction of its own, restores the database from a sound journal, and leaves
    it so that this can be done again if it is interrupted. *)

(** ** Codes *)

Lemma error_not_ok rc : is_error rc -> (rc =? SQLITE_OK) = false.
Proof. intros (Hr & _). by apply Z.eqb_neq. Qed.

Lemma error_not_short rc : is_error rc -> (rc =? SQLITE_IOERR_SHORT_READ) = false.
Proof. intros (_ & Hr & _). by apply Z.eqb_neq. Qed.

Lemma error_not_done rc : is_error rc -> (rc =? SQLITE_DONE) = false.
Proof. intros (_ & _ & Hr). by apply Z.eqb_neq. Qed.

Lemma ioerr_error rc : is_ioerr rc -> is_error rc.
Proof. by intros [? _]. Qed.

#[export] Hint Resolve ioerr_error : core.

(** Steps over the tests of a code. *)
Ltac code :=
  repeat first
    [ rewrite error_not_ok by eauto
    | rewrite error_not_short by eauto
    | rewrite error_not_done by eauto ]; cbn [negb andb orb].

(** ** Pagers *)

Lemma set_sectorSize_same p v : sectorSize p = v -> set_sectorSize p v = p.
Proof. intros <-. by destruct p. Qed.

(** [wpc] of programs in sequence. *)
Ltac wp_bind := apply wpc_bind.

(** A step that returns on an error. *)
Lemma wpc_andthen sector (x : prog (Z * Pager)) k (Q : Z * Pager -> disk -> Prop) C s :
  wpc sector x (fun '(rc, p) s' => C s' /\ (rc = SQLITE_OK -> wpc sector (k p) Q C s') /\ (rc <> SQLITE_OK -> Q (rc, p) s')) C s -> wpc sector (andthen x k) Q C s.
Proof.
  intros H. unfold andthen. wp_bind. eapply wpc_mono; [|intros s' Hs; exact Hs|exact H]. intros [rc p] s' (HC & H1 & H2).
  destruct (Z.eqb_spec rc SQLITE_OK) as [->|]; [by apply H1|]. apply wpc_ret; [done|]. by apply H2.
Qed.

Section playback.
Context {G : geometry} (g : config).
Hypothesis Hsync : noSync g = false.

(** A pager of this geometry. *)
Definition conf (p : Pager) : Prop := pageSize p = szP /\ sectorSize p = szH.

Local Abbreviation wp := (wpc szS).

Lemma journalHdrOffset_align p : conf p -> journalHdrOffset p = align (journalOff p).
Proof. intros [_ Hs]. unfold journalHdrOffset, align, JOURNAL_HDR_SZ. by rewrite Hs. Qed.

Lemma wpc_read32 f off c Q (C : disk -> Prop) s :
  C s -> cur (file s f) = Some c -> 0 <= off -> (off + 4 <= lenz c -> Q (SQLITE_OK, field c off) s) ->
  (lenz c < off + 4 -> forall v, Q (SQLITE_IOERR_SHORT_READ, v) s) -> (forall rc v, is_error rc -> Q (rc, v) s) -> wp (read32bits f off) Q C s.
Proof.
  intros HC Hc Ho H1 H2 H3. unfold read32bits. wp_bind. apply (wpc_read _ _ _ _ c); [done|done|done|lia|..].
  - intros Hl. apply wpc_ret; [done|]. by apply H1.
  - intros Hl. apply wpc_ret; [done|]. by apply H2.
  - intros rc d He _. apply wpc_ret; [done|]. by apply H3.
Qed.

(** A field within the file. *)
Lemma wpc_field f off c Q (C : disk -> Prop) s :
  C s -> cur (file s f) = Some c -> 0 <= off -> off + 4 <= lenz c -> Q (SQLITE_OK, field c off) s -> (forall rc v, is_error rc -> Q (rc, v) s) ->
  wp (read32bits f off) Q C s.
Proof. intros HC Hc Ho Hl H1 H2. apply (wpc_read32 _ _ c); [done|done|done|done|lia|done]. Qed.

Lemma wpc_SetPagesize_same p Q (C : disk -> Prop) s : pageSize p = szP -> C s -> Q (SQLITE_OK, p) s -> wp (sqlite3PagerSetPagesize p szP) Q C s.
Proof.
  intros Hp HC HQ. unfold sqlite3PagerSetPagesize. pose proof geo_P as [H1 H2]. wp_bind. apply wpc_assert; [|done|].
  - rewrite (proj2 (Z.leb_le _ _) H1), (proj2 (Z.leb_le _ _) H2). apply orb_true_r.
  - rewrite Hp, Z.eqb_refl, andb_false_r. by apply wpc_ret.
Qed.

(** The fields of a header; those of the first one are good. *)
Lemma wpc_readJournalHdr_fields p c (Q : Z * Z * Z * Pager -> disk -> Prop) (C : disk -> Prop) s :
  let h := journalOff p in
  conf p -> 0 <= h -> h + szH <= lenz c -> C s -> cur (jrn s) = Some c ->
  (h = 0 -> field c (h + 20) = szH /\ field c (h + 24) = szP) ->
  (forall rc p', is_error rc -> p' = p \/ (exists ck, p' = set_cksumInit p ck) -> Q (rc, 0, 0, p') s) ->
  Q (SQLITE_OK, field c (h + 8), field c (h + 16), set_journalOff (set_cksumInit p (field c (h + 12))) (h + szH)) s ->
  wp (readJournalHdr_fields p) Q C s.
Proof.
  intros h [Hps Hss] Hh Hl HC Hc Hf Herr Hok. geo. unfold readJournalHdr_fields, JOURNAL_HDR_SZ. fold h.
  assert (Hfail : forall p' rc, p' = p \/ (exists ck, p' = set_cksumInit p ck) -> is_error rc -> forall X, wp (if negb (rc =? SQLITE_OK) then Ret (rc, 0, 0, p') else X) Q C s).
  { intros p' rc Hp' He X. code. apply wpc_ret; [done|]. by apply Herr. }
  wp_bind. apply (wpc_field _ _ c); [done|done|lia|lia| |by intros; apply Hfail; [left|]]. cbn [negb Z.eqb SQLITE_OK].
  wp_bind. apply (wpc_field _ _ c); [done|done|lia|lia| |by intros; apply Hfail; [left|]]. cbn [negb Z.eqb SQLITE_OK].
  wp_bind. apply (wpc_field _ _ c); [done|done|lia|lia| |by intros; apply Hfail; [right; eauto|]]. cbn [negb Z.eqb SQLITE_OK].
  change (journalOff (set_cksumInit p (field c (h + 12)))) with h. destruct (Z.eqb_spec h 0) as [E0|E0].
  - destruct (Hf E0) as [F1 F2].
    wp_bind. apply (wpc_field _ _ c); [done|done|lia|lia| |by intros; apply Hfail; [right; eauto|]]. cbn [negb Z.eqb SQLITE_OK].
    wp_bind. apply (wpc_field _ _ c); [done|done|lia|lia| |by intros; apply Hfail; [right; eauto|]]. cbn [negb Z.eqb SQLITE_OK].
    rewrite F1, F2, (proj2 (Z.eqb_neq szP 0)) by lia. cbv zeta. rewrite geo_H2, geo_P2.
    rewrite (proj2 (Z.ltb_ge szP 512)), (proj2 (Z.ltb_ge szH 32)), (proj2 (Z.ltb_ge SQLITE_MAX_PAGE_SIZE szP)), (proj2 (Z.ltb_ge MAX_SECTOR_SIZE szH)) by lia. cbn [negb orb Z.eqb].
    wp_bind. apply wpc_SetPagesize_same; [done|done|]. rewrite set_sectorSize_same by done. apply wpc_ret; [done|]. cbn [journalOff sectorSize set_cksumInit].
    by rewrite Hss.
  - apply wpc_ret; [done|]. cbn [journalOff sectorSize set_cksumInit]. by rewrite Hss.
Qed.

Lemma wpc_readJournalHdr p isHot c (Q : Z * Z * Z * Pager -> disk -> Prop) (C : disk -> Prop) s :
  let h := align (journalOff p) in
  let p1 := set_journalOff p h in
  conf p -> jfd p = true -> 0 <= journalOff p -> C s -> cur (jrn s) = Some c ->
  (h = 0 -> (isHot = true \/ journalHdr p <> 0 -> magic_at c 0) -> szH <= lenz c -> field c 20 = szH /\ field c 24 = szP) ->
  (lenz c < h + szH \/ ((isHot = true \/ h <> journalHdr p) /\ ~ magic_at c h) -> Q (SQLITE_DONE, 0, 0, p1) s) ->
  (forall rc p', is_error rc -> p' = p1 \/ (exists ck, p' = set_cksumInit p1 ck) -> Q (rc, 0, 0, p') s) ->
  (h + szH <= lenz c -> (isHot = true \/ h <> journalHdr p -> magic_at c h) ->
   Q (SQLITE_OK, field c (h + 8), field c (h + 16), set_journalOff (set_cksumInit p1 (field c (h + 12))) (h + szH)) s) ->
  wp (readJournalHdr p isHot (lenz c)) Q C s.
Proof.
  intros h p1 Hconf Hj Ho HC Hc Hf Hdone Herr Hok. assert (Hh : 0 <= h) by (pose proof (align_bounds (journalOff p) Ho); lia).
  unfold readJournalHdr. wp_bind. apply wpc_assert; [done|done|]. rewrite journalHdrOffset_align by done. fold h. fold p1.
  unfold JOURNAL_HDR_SZ. rewrite (proj2 Hconf : sectorSize p1 = szH). change (journalOff p1) with h. change (journalHdr p1) with (journalHdr p).
  destruct (Z.ltb_spec (lenz c) (h + szH)) as [Hl|Hl]; [apply wpc_ret; [done|]; apply Hdone; by left|]. geo.
  assert (Rest : (isHot = true \/ h <> journalHdr p -> magic_at c h) -> wp (readJournalHdr_fields p1) Q C s).
  { intros Hm. apply (wpc_readJournalHdr_fields _ c); [done|done|done|done|done| |done|by apply Hok]. intros E0. change (journalOff p1) with h in *. rewrite E0.
    apply Hf; [done| |lia]. rewrite E0 in Hm. intros Hor. apply Hm. destruct Hor; [by left|right; congruence]. }
  destruct (isHot || negb (h =? journalHdr p)) eqn:Echk.
  - assert (Hchk : isHot = true \/ h <> journalHdr p) by (bool_to_prop; destruct Echk as [|Echk]; [by left|right; by bool_to_prop]).
    wp_bind. apply (wpc_read _ _ _ _ c); [done|done|done|lia|intros _|lia|].
    + cbn [negb Z.eqb SQLITE_OK]. destruct (bool_decide_reflect (slice c h 8 = aJournalMagic)) as [Hm|Hm]; [by apply Rest|].
      apply wpc_ret; [done|]. apply Hdone. right. by split.
    + intros rc d He _. code. apply wpc_ret; [done|]. apply Herr; [done|by left].
  - apply Rest. bool_to_prop. intros [?|?]; [congruence|]. exfalso. bool_to_prop. congruence.
Qed.

(** ** The database during a playback *)

(** Whatever is left of the database keeps the pages that are not saved. *)
Definition safe (cl : list Z) (s : disk) : Prop :=
  (forall x, poss (dbf s) x -> exists D, x = Some D /\ kept cl D) /\ poss (dbf s) (cur (dbf s)).

Lemma safe_cur cl s : safe cl s -> exists D, cur (dbf s) = Some D /\ kept cl D.
Proof. intros [H1 H2]. by apply H1. Qed.

(** A write to the database that may fail. *)
Lemma wpc_write_page cl pgno d D (Q : Z -> disk -> Prop) (C : disk -> Prop) s :
  safe cl s -> cur (dbf s) = Some D -> 1 <= pgno -> lenz d = szP -> pgno ∈ cl \/ nOrig < pgno \/ d = page orig pgno ->
  (forall s', jrn s' = jrn s -> safe cl s' -> C s') ->
  (forall s', jrn s' = jrn s -> safe cl s' -> cur (dbf s') = Some (write_at D ((pgno - 1) * szP) d) -> Q SQLITE_OK s') ->
  (forall rc s', is_ioerr rc -> jrn s' = jrn s -> safe cl s' -> Q rc s') ->
  wp (call (Write Db ((pgno - 1) * szP) d)) Q C s.
Proof.
  intros Hs HD Hp Hd Hor HC HOK Herr. destruct (proj1 Hs _ (proj2 Hs)) as (D' & E & Hk). rewrite HD in E. injection E as <-.
  assert (Hver : forall v, write_versions D ((pgno - 1) * szP) d v -> kept cl v) by (intros v Hv; by eapply kept_versions).
  assert (Hnew : forall v, kept cl v -> safe cl (update s Db (Some v) (lift (write_versions D ((pgno - 1) * szP) d)))).
  { intros v Hv. split; [|by right; left]. intros x [Hx|[->|Hx]]; [by apply (proj1 Hs)|eauto|]. destruct x as [x|]; [eauto|done]. }
  apply (wpc_write _ _ _ _ D); [by apply HC|done|..].
  - assert (Hw : safe cl (update s Db (Some (write_at D ((pgno - 1) * szP) d)) (lift (write_versions D ((pgno - 1) * szP) d)))) by (apply Hnew, Hver; by left).
    split; [by apply HC|by apply HOK].
  - intros rc v He Hv. assert (Hw : safe cl (update s Db (Some v) (lift (write_versions D ((pgno - 1) * szP) d)))).
    { apply Hnew. eapply kept_mixed; [done|]. intros w [->|Hw]; [done|auto]. }
    split; [by apply HC|by apply Herr].
Qed.

(** What a playback leaves alone. *)
Definition core (p : Pager) := (pageSize p, sectorSize p, dbSize p, journalHdr p, eState p, eLock p, jfd p, errCode p, dbOrigSize p).

Lemma core_conf p p' : core p' = core p -> conf p -> conf p'.
Proof. unfold core, conf. intros E [H1 H2]. injection E. intros. split; congruence. Qed.

Lemma kept_restore pgno rest D :
  1 <= pgno <= nOrig -> kept (pgno :: rest) D -> kept rest (write_at D ((pgno - 1) * szP) (page orig pgno)).
Proof.
  intros Hp [Hl Hk]. geo. assert (Ho : lenz (page orig pgno) = szP) by (apply lenz_page; [done|lia]). split; [rewrite lenz_write_at by nia; lia|].
  intros x Hx Hn. destruct (Z.eq_dec x pgno) as [->|Hne]; [apply page_write_same; [lia|done]|]. rewrite page_write_other by (done || lia). apply Hk; [done|].
  by intros [?|?]%elem_of_cons.
Qed.

(** A pager that has gone on in the journal. *)
Definition moved (p p' : Pager) (o : Z) : Prop := core p' = core p /\ cksumInit p' = cksumInit p /\ journalOff p' = o.

Lemma playback_cache_moved p p' o pgno d : moved p p' o -> moved p (playback_cache p' pgno d) o.
Proof. intros Hm. unfold playback_cache. destruct (pPCache p' !! pgno); [|done]. cbv zeta. by destruct (pgno =? 1). Qed.

(** Whether the pager may write to the database at all. *)
Definition writing (p : Pager) : bool := (PAGER_WRITER_DBMOD <=? eState p) || (eState p =? PAGER_OPEN).

Definition playing (p : Pager) : Prop :=
  PAGER_WRITER_CACHEMOD <= eState p <= PAGER_WRITER_FINISHED \/ (eState p = PAGER_OPEN /\ eLock p = EXCLUSIVE_LOCK).

(** The record of a page that is saved. *)
Section saved.
Context (c : bytes) (cl : list Z) (C : disk -> Prop) (s : disk).
Hypothesis Hj : cur (jrn s) = Some c.
Hypothesis Hsafe : safe cl s.
Hypothesis HC : forall s', jrn s' = jrn s -> safe cl s' -> C s'.

(** The page is played back, and [rest] are still to be. *)
Definition played (p : Pager) (o : Z) (rest : list Z) (x : Z * Pager) (s' : disk) : Prop :=
  jrn s' = jrn s /\ safe cl s' /\ core x.2 = core p /\
  if x.1 =? SQLITE_OK then moved p x.2 o /\ exists D', cur (dbf s') = Some D' /\ lenz D' = nOrig * szP /\ kept rest D' else is_error x.1.

Lemma wpc_playback_database p pgno rest D (Q : Z * Pager -> disk -> Prop) :
  conf p -> writing p = true -> journalOff p <= journalHdr p -> 1 <= pgno <= nOrig -> pgno ∈ cl ->
  cur (dbf s) = Some D -> lenz D = nOrig * szP -> kept (pgno :: rest) D ->
  (forall x s', played p (journalOff p) rest x s' -> Q x s') -> wp (playback_database g p pgno (page orig pgno)) Q C s.
Proof.
  intros [Hps _] Hw Hhdr Hp Hin HD HlD Hkept HQ. geo. assert (Hl : lenz (page orig pgno) = szP) by (apply lenz_page; [done|lia]).
  unfold playback_database. fold (writing p). rewrite Hw, Hsync, (proj2 (Z.leb_le _ _) Hhdr), Hps. cbn [andb orb]. wp_bind.
  apply (wpc_write_page cl pgno _ D); [done|done|lia|done|by left|done|..].
  - intros s' F1 F2 F3. apply wpc_ret; [by apply HC|]. apply HQ. split; [done|]. split; [done|]. split; [by destruct (_ <? _)|]. cbn. split; [by destruct (_ <? _)|].
    eexists. split; [done|]. destruct (page_bounds pgno D Hp) as [B1 B2]; [lia|]. split; [rewrite lenz_write_at by lia; lia|by apply kept_restore].
  - intros rc s' He F1 F2. apply wpc_ret; [by apply HC|]. apply HQ. split; [done|]. split; [done|]. split; [by destruct (_ <? _)|]. cbn. code. by apply ioerr_error.
Qed.

Lemma wpc_playback_saved p pgno rest D (Q : Z * Pager -> disk -> Prop) :
  let o := journalOff p in
  conf p -> dbSize p = nOrig -> record_ok c o (cksumInit p) pgno -> 0 <= o -> pgno ∈ cl -> playing p -> writing p = true -> o + R <= journalHdr p ->
  cur (dbf s) = Some D -> lenz D = nOrig * szP -> kept (pgno :: rest) D ->
  (forall x s', played p (o + R) rest x s' -> Q x s') -> wp (pager_playback_one_page g p) Q C s.
Proof.
  intros o [Hps Hss] Hdb (R1 & R2 & R3 & R4 & R5 & R6) Ho Hin Hst Hw Hhdr HD HlD Hkept HQ. geo. pose proof R_pos as HR. unfold R in *. assert (HCs : C s) by by apply HC.
  assert (Herr : forall rc p' X, is_error rc -> core p' = core p -> wp (if negb (rc =? SQLITE_OK) then Ret (rc, p') else X) Q C s).
  { intros rc p' X He Hp'. code. apply wpc_ret; [done|]. apply HQ. split; [done|]. split; [done|]. split; [done|]. cbn. by code. }
  unfold pager_playback_one_page. wp_bind. apply wpc_assert; [|done|].
  { apply orb_true_iff. destruct Hst as [[Hst _]|[-> ->]]; [left; by apply Z.leb_le|by right]. }
  fold o. wp_bind. apply (wpc_field _ _ c); [done|done|lia|lia| |by intros; apply Herr]. cbn [negb Z.eqb SQLITE_OK].
  rewrite Hps. wp_bind. apply (wpc_read _ _ _ _ c); [done|done|lia|lia|intros _|lia|by intros; apply Herr]. cbn [negb Z.eqb SQLITE_OK].
  rewrite R2, R3. unfold PAGER_MJ_PGNO. cbn [pageSize set_journalOff dbSize journalOff]. rewrite Hps. fold mj.
  rewrite (proj2 (Z.eqb_neq pgno 0)), (proj2 (Z.eqb_neq pgno mj)) by lia. cbn [orb]. rewrite Hdb, (proj2 (Z.ltb_ge nOrig pgno)) by lia.
  replace (o + szP + 4 + 4 - 4) with (o + 4 + szP) by lia. replace (o + szP + 4 + 4) with (o + (szP + 8)) by lia.
  wp_bind. apply (wpc_field _ _ c); [done|done|lia|lia| |by intros; apply Herr]. cbn [negb Z.eqb SQLITE_OK].
  assert (Eck : pager_cksum (set_journalOff p (o + (szP + 8))) (page orig pgno) = cksum (cksumInit p) (page orig pgno)) by (unfold pager_cksum, cksum; cbn; by rewrite Hps).
  rewrite Eck, R4, Z.eqb_refl. cbn [negb]. set (p1 := if pgno =? 1 then _ else _).
  assert (E1 : moved p p1 (o + (szP + 8))) by (unfold p1; by destruct (pgno =? 1)). clearbody p1.
  destruct E1 as (E1 & E1c & E1o). pose proof E1 as E1'. unfold core in E1'. injection E1' as P1 P2 P3 P4 P5 P6 P7 P8 P9.
  wp_bind. apply (wpc_playback_database p1 pgno rest D); [split; congruence|unfold writing; by rewrite P5|lia|done|done|done|done|done|].
  intros [rc p2] s' (F1 & F2 & F3 & F4). cbn in F3, F4. apply wpc_ret; [by apply HC|]. apply HQ. split; [done|]. split; [done|].
  destruct (playback_cache_moved p2 p2 (journalOff p2) pgno (page orig pgno)) as (M1 & M2 & M3); [done|]. cbn. split; [congruence|].
  destruct (rc =? SQLITE_OK); [|done]. destruct F4 as [(G1 & G2 & G3) F4]. split; [|done]. split; [congruence|]. split; congruence.
Qed.

End saved.

(** ** The loops *)

Lemma core_reset p : core (pager_reset p) = core p.
Proof. done. Qed.

(** The result of the loop over records. *)
Definition played_all (s : disk) (cl : list Z) (p : Pager) (o : Z) (rest : list Z) (x : option Z * bool * Pager) (s' : disk) : Prop :=
  jrn s' = jrn s /\ safe cl s' /\ core x.2 = core p /\
  match x.1.1 with
  | None => journalOff x.2 = o /\ exists D', cur (dbf s') = Some D' /\ lenz D' = nOrig * szP /\ kept rest D'
  | Some rc => is_error rc
  end.

Lemma resize_same D : resize D (lenz D) = D.
Proof.
  apply get_ext. intros i Hi. destruct (Z.ltb_spec i (lenz D)); [apply get_resize; lia|].
  rewrite !get_None; [done|lia|rewrite lenz_resize; [lia|apply lenz_nonneg]].
Qed.

(** The lock that a pager has that may write to the database. *)
Definition locked (p : Pager) : Prop := writing p = true -> eLock p = EXCLUSIVE_LOCK.

Lemma playing_state p : playing p -> negb (eState p =? PAGER_ERROR) && negb (eState p =? PAGER_READER) = true.
Proof.
  unfold playing, PAGER_WRITER_CACHEMOD, PAGER_WRITER_FINISHED, PAGER_OPEN. intros Hp. apply andb_true_iff. rewrite !negb_true_iff, !Z.eqb_neq.
  unfold PAGER_ERROR, PAGER_READER. lia.
Qed.

Lemma wpc_truncate_db p cl D (Q : Z * Pager -> disk -> Prop) (C : disk -> Prop) s :
  conf p -> playing p -> locked p -> writing p = true -> safe cl s -> cur (dbf s) = Some D ->
  (forall s', jrn s' = jrn s -> safe cl s' -> C s') ->
  (forall p' s', jrn s' = jrn s -> safe cl s' -> core p' = core p -> journalOff p' = journalOff p -> cksumInit p' = cksumInit p ->
     cur (dbf s') = Some (resize D (nOrig * szP)) -> Q (SQLITE_OK, p') s') ->
  (forall rc s', is_error rc -> jrn s' = jrn s -> safe cl s' -> Q (rc, p) s') -> wp (pager_truncate p nOrig) Q C s.
Proof.
  intros [Hps _] Hpl Hlk Hw Hs HD HC HOK Herr. geo. unfold pager_truncate. assert (HCs : C s) by by apply HC. wp_bind. apply wpc_assert; [by apply playing_state|done|].
  fold (writing p). rewrite Hw. wp_bind. apply wpc_assert; [by apply Z.eqb_eq, Hlk|done|]. wp_bind. rewrite Hps.
  assert (Hk : kept cl D) by (destruct (safe_cur cl s Hs) as (D' & E & Hk); congruence).
  apply (wpc_size _ _ D); [done|done| |intros rc n He; code; apply wpc_ret; [done|]; by apply Herr]. cbn [Z.eqb SQLITE_OK andb].
  replace (szP * nOrig) with (nOrig * szP) by lia. destruct (Z.eqb_spec (lenz D) (nOrig * szP)) as [El|El]; cbn [negb].
  - apply wpc_ret; [done|]. apply HOK; try done. by rewrite <- El, resize_same.
  - destruct Hk as [Hk1 Hk2]. rewrite (proj2 (Z.ltb_lt _ _)) by lia. wp_bind. apply (wpc_truncate _ _ _ D); [done|done|..].
    + assert (Hsafe : safe cl (update s Db (Some (resize D (nOrig * szP))) (fun _ => False))).
      { split; [|by right; left]. intros x [Hx|[->|[]]]; [by apply (proj1 Hs)|]. eexists. split; [done|]. by apply kept_resize. }
      split; [by apply HC|]. apply wpc_ret; [by apply HC|]. by apply HOK.
    + intros rc He. code. apply wpc_ret; [done|]. by apply Herr, Hs; [apply ioerr_error|].
Qed.

Section loops.
Context (c : bytes) (cl : list Z) (C : disk -> Prop) (j0 : vfile).
Hypothesis Hj : cur j0 = Some c.
Hypothesis HC : forall s, jrn s = j0 -> safe cl s -> C s.

Lemma wpc_playback_records fuel p szJ u nRec needReset q rest D s (Q : option Z * bool * Pager -> disk -> Prop) :
  let o := journalOff p in
  jrn s = j0 -> safe cl s -> conf p -> dbSize p = nOrig -> playing p -> writing p = true -> 0 <= o -> records c o (cksumInit p) q ->
  nRec - u = count q -> count q < Z.of_nat fuel -> o + count q * R <= journalHdr p -> (forall x, x ∈ q -> x ∈ cl) ->
  cur (dbf s) = Some D -> lenz D = nOrig * szP -> kept (q ++ rest) D ->
  (forall x s', played_all s cl p (o + count q * R) rest x s' -> Q x s') -> wp (pager_playback_records g fuel p szJ u nRec needReset) Q C s.
Proof.
  intros o. subst o. revert p u needReset q D s Q. induction fuel as [|fuel IH]; intros p u needReset q D s Q Hjs Hsafe Hconf Hdb Hpl Hw Ho Hr Hn Hf Hhdr Hin HD HlD Hk HQ;
    [pose proof (count_nonneg q); lia|]. cbn [pager_playback_records]. pose proof R_pos as HR. destruct q as [|pgno q].
  - unfold count in *. cbn in Hn, HQ. rewrite (proj2 (Z.ltb_ge u nRec)) by lia. apply wpc_ret; [by apply HC|]. apply HQ. split; [done|]. split; [done|]. split; [done|].
    cbn. split; [lia|eauto].
  - assert (Ec : count (pgno :: q) = 1 + count q) by (unfold count; cbn [length]; lia). pose proof (count_nonneg q). rewrite (proj2 (Z.ltb_lt u nRec)) by lia.
    set (p0 := if needReset then pager_reset p else p). assert (E0 : core p0 = core p /\ journalOff p0 = journalOff p /\ cksumInit p0 = cksumInit p) by (unfold p0; by destruct needReset).
    clearbody p0. destruct E0 as (E0 & E0o & E0c). pose proof E0 as E0'. unfold core in E0'. injection E0' as P1 P2 P3 P4 P5 P6 P7 P8 P9. wp_bind.
    assert (Hrec : record_ok c (journalOff p0) (cksumInit p0) pgno) by (rewrite E0o, E0c; specialize (Hr O pgno eq_refl); by rewrite Z.add_0_r in Hr).
    apply (wpc_playback_saved c cl C s ltac:(by rewrite Hjs) Hsafe ltac:(by intros s' F1 F2; apply HC; [congruence|]) p0 pgno (q ++ rest) D); try done; try congruence;
      [by apply (core_conf p)|apply Hin; by left|unfold playing in *; by rewrite P5, P6|unfold writing in *; congruence|nia|].
    intros [rc p1] s' (F1 & F2 & F3 & F4). cbn in F3, F4. destruct (Z.eqb_spec rc SQLITE_OK) as [->|Hrc]; cbn in F4.
    + destruct F4 as [(M1 & M2 & M3) (D' & HD' & HlD' & Hk')]. assert (Ecore : core p1 = core p) by congruence. pose proof Ecore as Ecore'. unfold core in Ecore'. injection Ecore' as ? ? ? ? ? ? ? ? ?.
      apply (IH p1 _ _ q D'); try done; try congruence; [by apply (core_conf p)|unfold playing in *; congruence|unfold writing in *; congruence|lia| |lia|lia|nia| |].
      * intros k x Hx. rewrite M2, E0c, M3, E0o. specialize (Hr (S k) x Hx). replace (journalOff p + R + Z.of_nat k * R) with (journalOff p + Z.of_nat (S k) * R) by lia. done.
      * intros x Hx. apply Hin. by right.
      * intros x s2 (L1 & L2 & L3 & L4). apply HQ. split; [congruence|]. split; [done|]. split; [congruence|]. rewrite Ec. destruct x.1.1; [done|]. destruct L4 as [L4 L5]. split; [nia|done].
    + code. apply wpc_ret; [apply HC; [congruence|done]|]. apply HQ. split; [done|]. split; [done|]. split; [cbn; congruence|]. done.
Qed.

(** What one header's records do. *)
Lemma playback_count_closed p isHot n h :
  journalOff p = h + JOURNAL_HDR_SZ p -> h < journalHdr p -> n <> 0xffffffff -> playback_count p isHot (lenz c) n = n.
Proof.
  intros Ho Hh Hn. unfold playback_count. rewrite (proj2 (Z.eqb_neq n _)) by done. rewrite Ho, (proj2 (Z.eqb_neq (_ + _) _)) by lia. by rewrite andb_false_r.
Qed.

(** The state of a pager that has played back what is before [o]. *)
Definition reached (p0 p : Pager) (o : Z) : Prop := core (set_dbSize p nOrig) = core (set_dbSize p0 nOrig) /\ journalOff p = o.

(** Playing a chain back. *)
Lemma wpc_playback_chain isHot fuel p needReset o pgs E D s (Q : Z * Pager -> disk -> Prop) :
  chain c o pgs E -> journalOff p = o -> jrn s = j0 -> safe cl s -> conf p -> playing p -> locked p -> writing p = true -> jfd p = true -> 0 <= o -> 0 < E ->
  (forall x, x ∈ pgs -> x ∈ cl) -> E <= journalHdr p -> E <= lenz c -> lenz c - o < Z.of_nat fuel -> cur (dbf s) = Some D -> kept pgs D ->
  (0 < o -> dbSize p = nOrig /\ lenz D = nOrig * szP) ->
  (forall fuel' p' needReset' D' s', jrn s' = j0 -> safe cl s' -> reached p p' E -> dbSize p' = nOrig -> lenz c - E < Z.of_nat fuel' ->
     cur (dbf s') = Some D' -> lenz D' = nOrig * szP -> kept [] D' -> wp (pager_playback_loop g fuel' p' isHot (lenz c) needReset') Q C s') ->
  (forall rc p' s', is_error rc -> jrn s' = j0 -> safe cl s' -> reached p p' (journalOff p') -> Q (rc, p') s') ->
  wp (pager_playback_loop g fuel p isHot (lenz c) needReset) Q C s.
Proof.
  intros Hc. revert fuel p needReset D s. induction Hc as [o|o ck q rest E Hh Hr Hc IH]; intros fuel p needReset D s Ho Hjs Hsafe Hconf Hpl Hlk Hw Hjfd Ho0 HE Hin Hhdr HlE Hf HD Hk Hpos Hend Herr.
  { destruct Hpos as [P1 P2]; [done|]. by apply (Hend _ _ _ D). }
  pose proof R_pos as HR. geo. pose proof (align_bounds o Ho0) as [Ha1 Ha2]. pose proof (count_nonneg q) as Hq.
  assert (HlE' : align o + szH + count q * R <= E) by (eapply chain_le; [|done]; nia).
  destruct Hh as (Hm & (F1 & F2 & F3 & F4 & F5 & F6) & Hn). destruct fuel as [|fuel]; [lia|]. cbn [pager_playback_loop]. wp_bind.
  assert (Hjc : cur (jrn s) = Some c) by by rewrite Hjs.
  apply (wpc_readJournalHdr p isHot c); rewrite ?Ho; [done|done|done|by apply HC|done|by intros E0; rewrite E0 in *|intros [?|[_ ?]]; [lia|done]|..].
  { intros rc p' He Hp'. code. apply wpc_ret; [by apply HC|]. apply Herr; [done|done|done|]. by destruct Hp' as [->|[? ->]]. }
  intros _ _. rewrite F2, F3, F4. cbn [negb Z.eqb SQLITE_OK]. set (p1 := set_journalOff (set_cksumInit (set_journalOff p (align o)) ck) (align o + szH)).
  unfold JOURNAL_HDR_SZ at 1. change (sectorSize p1) with (sectorSize p). change (journalOff p1) with (align o + szH). rewrite (proj2 Hconf).
  rewrite (playback_count_closed p1 isHot (count q) (align o)); [|by unfold JOURNAL_HDR_SZ; cbn; rewrite (proj2 Hconf)|cbn; lia|done].
  wp_bind.
  assert (Hrecs : forall p2 s2 D2, core p2 = core (set_dbSize p nOrig) -> journalOff p2 = align o + szH -> cksumInit p2 = ck -> jrn s2 = j0 -> safe cl s2 ->
    cur (dbf s2) = Some D2 -> lenz D2 = nOrig * szP -> kept (q ++ rest) D2 ->
    wp ('(out, needPagerReset, p) ← pager_playback_records g (Z.to_nat (lenz c / JOURNAL_PG_SZ p2) + 2) p2 (lenz c) 0 (count q) needReset;
        match out with Some rc => Ret (rc, p) | None => pager_playback_loop g fuel p isHot (lenz c) needPagerReset end) Q C s2).
  { intros p2 s2 D2 M1 M2 M3 Hj2 Hs2 HD2 HlD2 Hk2. pose proof M1 as M1'. unfold core in M1'. cbn in M1'. injection M1' as P1 P2 P3 P4 P5 P6 P7 P8 P9. wp_bind.
    assert (Hconf2 : conf p2) by (split; [rewrite P1; apply Hconf|rewrite P2; apply Hconf]).
    apply (wpc_playback_records _ p2 _ _ _ _ q rest D2); rewrite ?M2, ?M3; try done; [unfold playing; by rewrite P5, P6|unfold writing; by rewrite P5|lia|lia| |lia|..].
    { unfold JOURNAL_PG_SZ. rewrite (proj1 Hconf2). fold R. assert (count q <= lenz c / R) by (apply Z.div_le_lower_bound; nia). lia. }
    { intros x Hx. apply Hin, elem_of_app. by left. }
    intros [[out nr] p3] s3 (N1 & N2 & N3 & N4). cbn in N3, N4. assert (Ecore : core p3 = core (set_dbSize p nOrig)) by congruence. destruct out as [rc|].
    - apply wpc_ret; [apply HC; congruence|]. apply Herr; [done|congruence|done|]. split; [|done]. pose proof Ecore as X. unfold core in *. cbn in *. congruence.
    - destruct N4 as [N4 (D3 & HD3 & HlD3 & Hk3)]. pose proof Ecore as X. unfold core in X. cbn in X. injection X as Q1 Q2 Q3 Q4 Q5 Q6 Q7 Q8 Q9.
      apply (IH _ p3 nr D3); try done; try congruence; [split; [rewrite Q1|rewrite Q2]; apply Hconf|unfold playing; by rewrite Q5, Q6|unfold locked, writing; rewrite Q5, Q6; exact Hlk|
        unfold writing; by rewrite Q5|nia|intros x Hx; apply Hin, elem_of_app; by right|nia|..].
      + intros fuel' p' nr' D' s' ? ? [R1 R2]. apply Hend; try done. split; [|done]. unfold core in *. cbn in *. congruence.
      + intros rc p' s' ? ? ? [R1 R2]. apply Herr; try done. split; [|done]. unfold core in *. cbn in *. congruence. }
  destruct (Z.eqb_spec (align o + szH) szH) as [Eo|Eo].
  - wp_bind. apply (wpc_truncate_db p1 cl D); try done; [by rewrite Hjs|..].
    + intros p2 s2 Hj2 Hs2 M1 M2 M3 HD2. cbn [Z.eqb SQLITE_OK]. apply wpc_ret; [apply HC; congruence|]. cbn [negb Z.eqb SQLITE_OK].
      apply (Hrecs _ _ (resize D (nOrig * szP))); try done; [unfold core in *; cbn in *; congruence|congruence|apply lenz_resize; nia|by apply kept_resize].
    + intros rc s2 He Hj2 Hs2. code. apply wpc_ret; [apply HC; congruence|]. code. apply wpc_ret; [apply HC; congruence|]. apply Herr; [done|congruence|done|done].
  - destruct Hpos as [P1 P2]; [destruct (Z.eq_dec o 0) as [->|]; [by cbn in Eo|lia]|].
    apply wpc_ret; [by apply HC|]. cbn [negb Z.eqb SQLITE_OK]. apply (Hrecs _ _ D); try done. unfold core. cbn. by rewrite P1.
Qed.

End loops.

(** ** Records that are not synced

    What follows the saved pages in a journal of the pager's own transaction is read into
    the cache only. *)
Section tail.
Context (c : bytes) (C : disk -> Prop) (s : disk).
Hypothesis Hj : cur (jrn s) = Some c.
Hypothesis HC : C s.

(** Codes that end the loop over records. *)
Definition stopped (rc : Z) : Prop := rc = SQLITE_DONE \/ rc = SQLITE_IOERR_SHORT_READ \/ is_error rc.

Lemma stopped_not_ok rc : stopped rc -> (rc =? SQLITE_OK) = false.
Proof. intros [->|[->|He]]; [done|done|by apply error_not_ok]. Qed.

Lemma wpc_playback_unsynced p (Q : Z * Pager -> disk -> Prop) :
  let o := journalOff p in
  conf p -> playing p -> 0 <= o -> writing p = false \/ journalHdr p < o + R ->
  (forall p', core p' = core p -> journalOff p' = o + R -> o + 4 + szP <= lenz c -> Q (SQLITE_OK, p') s) ->
  (forall rc p', stopped rc -> core p' = core p -> o <= journalOff p' -> Q (rc, p') s) -> wp (pager_playback_one_page g p) Q C s.
Proof.
  intros o [Hps Hss] Hst Ho Hun HOK Hstop. geo. unfold R in *.
  assert (Hret : forall rc p' X, stopped rc -> core p' = core p -> o <= journalOff p' -> wp (if negb (rc =? SQLITE_OK) then Ret (rc, p') else X) Q C s).
  { intros rc p' X Hr Hp' Ho'. rewrite stopped_not_ok by done. cbn [negb]. apply wpc_ret; [done|]. by apply Hstop. }
  assert (Hshort : stopped SQLITE_IOERR_SHORT_READ) by (right; by left). assert (Herror : forall rc, is_error rc -> stopped rc) by (intros; right; by right).
  unfold pager_playback_one_page. wp_bind. apply wpc_assert; [|done|].
  { apply orb_true_iff. destruct Hst as [[Hst _]|[-> ->]]; [left; by apply Z.leb_le|by right]. }
  fold o. wp_bind. apply (wpc_read32 _ _ c); [done|done|done| |intros; apply Hret; (done || lia)|intros; apply Hret; (auto || done || lia)]. intros _. cbn [negb Z.eqb SQLITE_OK].
  rewrite Hps. wp_bind. apply (wpc_read _ _ _ _ c); [done|done|lia|lia| |intros; apply Hret; (done || lia)|intros; apply Hret; (auto || done || lia)]. intros Hl. cbn [negb Z.eqb SQLITE_OK].
  replace (o + szP + 4 + 4) with (o + (szP + 8)) by lia. set (p1 := set_journalOff p (o + (szP + 8))). set (pgno := field c o). set (d := slice c (o + 4) szP).
  destruct ((pgno =? 0) || (pgno =? PAGER_MJ_PGNO p1)); [apply wpc_ret; [done|]; apply Hstop; [by left|done|cbn; lia]|].
  destruct (dbSize p1 <? pgno); [apply wpc_ret; [done|]; apply HOK; (done || lia)|].
  wp_bind. apply (wpc_read32 _ _ c); [done|done|cbn; lia| |intros; apply Hret; (done || cbn; lia)|intros; apply Hret; (auto || done || cbn; lia)]. intros _. cbn [negb Z.eqb SQLITE_OK].
  destruct (negb _); [apply wpc_ret; [done|]; apply Hstop; [by left|done|cbn; lia]|].
  set (p2 := if pgno =? 1 then _ else _). assert (E2 : moved p1 p2 (o + (szP + 8))) by (unfold p2; by destruct (pgno =? 1)). clearbody p2.
  destruct E2 as (E2 & E2c & E2o). pose proof E2 as X. unfold core in X. cbn in X. injection X as P1 P2 P3 P4 P5 P6 P7 P8 P9.
  wp_bind. unfold playback_database. fold (writing p2). rewrite Hsync, P4, E2o. cbn [orb].
  assert (Ew : writing p2 && (o + (szP + 8) <=? journalHdr p) = false).
  { apply andb_false_iff. destruct Hun as [Hun|Hun]; [left; unfold writing in *; by rewrite P5|right; apply Z.leb_gt; lia]. }
  rewrite Ew. apply wpc_ret; [done|]. apply wpc_ret; [done|]. destruct (playback_cache_moved p2 p2 (journalOff p2) pgno d) as (M1 & M2 & M3); [done|].
  apply HOK; [by rewrite M1, E2|congruence|lia].
Qed.

Lemma wpc_records_unsynced fuel p u nRec needReset (Q : option Z * bool * Pager -> disk -> Prop) :
  let o := journalOff p in
  conf p -> playing p -> 0 <= o <= lenz c + 4 -> writing p = false \/ journalHdr p < o + R -> lenz c + 4 < o + Z.of_nat fuel * R ->
  (forall nr p', core p' = core p -> Z.min o (lenz c) <= journalOff p' -> Q (None, nr, p') s) ->
  (forall rc nr p', rc = SQLITE_OK \/ is_error rc -> core p' = core p -> o <= journalOff p' -> Q (Some rc, nr, p') s) -> wp (pager_playback_records g fuel p (lenz c) u nRec needReset) Q C s.
Proof.
  intros o. subst o. revert p u needReset. induction fuel as [|fuel IH]; intros p u needReset Hconf Hpl Ho Hun Hf HN HS; [lia|]. cbn [pager_playback_records]. geo. pose proof R_pos.
  destruct (u <? nRec); [|apply wpc_ret; [done|]; apply HN; [done|lia]]. set (p0 := if needReset then pager_reset p else p).
  assert (E0 : core p0 = core p /\ journalOff p0 = journalOff p) by (unfold p0; by destruct needReset). clearbody p0. destruct E0 as (E0 & E0o).
  pose proof E0 as X. unfold core in X. injection X as P1 P2 P3 P4 P5 P6 P7 P8 P9. wp_bind. apply wpc_playback_unsynced.
  - by apply (core_conf p).
  - unfold playing in *. by rewrite P5, P6.
  - lia.
  - unfold writing in *. by rewrite P5, P4, E0o.
  - intros p' M1 M2 M3. cbn [Z.eqb SQLITE_OK]. rewrite E0o in *. unfold R in *. pose proof M1 as X. rewrite E0 in X. pose proof X as X'. unfold core in X'. injection X' as Q1 Q2 Q3 Q4 Q5 Q6 Q7 Q8 Q9.
    apply IH; [by apply (core_conf p)|unfold playing in *; by rewrite Q5, Q6|lia|unfold writing in *; rewrite Q4, Q5; destruct Hun; [by left|right; lia]|lia|..].
    + intros nr p2 ? ?. apply HN; [congruence|lia].
    + intros rc nr p2 ? ? ?. apply HS; [done|congruence|lia].
  - intros rc p' Hr M1 M2. rewrite stopped_not_ok by done. destruct Hr as [->|[->|He]].
    + rewrite Z.eqb_refl. apply wpc_ret; [done|]. apply HN; [by rewrite <- E0|cbn; lia].
    + change (SQLITE_IOERR_SHORT_READ =? SQLITE_DONE) with false. rewrite Z.eqb_refl. apply wpc_ret; [done|]. apply HS; [by left|congruence|lia].
    + code. apply wpc_ret; [done|]. apply HS; [by right|congruence|lia].
Qed.

Lemma wpc_playback_tail fuel p needReset (Q : Z * Pager -> disk -> Prop) :
  let o := journalOff p in
  conf p -> playing p -> jfd p = true -> 0 <= o -> writing p = false \/ (0 < o /\ journalHdr p <= align o) -> 0 < Z.of_nat fuel -> lenz c - o < Z.of_nat fuel ->
  (o = 0 -> szH <= lenz c -> field c 16 = nOrig /\ field c 20 = szH /\ field c 24 = szP) ->
  (forall rc p', rc = SQLITE_OK \/ is_error rc -> reached p p' (journalOff p') -> (rc = SQLITE_OK -> 0 < o \/ szH <= lenz c -> 0 < journalOff p' \/ ~ magic_at c 0) -> Q (rc, p') s) ->
  wp (pager_playback_loop g fuel p false (lenz c) needReset) Q C s.
Proof.
  intros o. subst o. revert p needReset. induction fuel as [|fuel IH]; intros p needReset Hconf Hpl Hjfd Ho Hun Hf0 Hf Hfld HQ; [lia|]. cbn [pager_playback_loop].
  geo. pose proof R_pos as HR. pose proof (align_bounds (journalOff p) Ho) as [Ha1 Ha2]. set (h := align (journalOff p)) in *. wp_bind.
  assert (H0 : h = 0 -> journalOff p = 0) by lia.
  apply (wpc_readJournalHdr p false c); [done|done|done|done|done|intros E0 _ Hl; by destruct (Hfld (H0 E0) Hl) as (_ & ? & ?)| | |].
  { intros Hd. change (SQLITE_DONE =? SQLITE_OK) with false. cbn [negb]. apply wpc_ret; [done|]. apply HQ; [by left|done|]. intros _ Hor. cbn [journalOff set_journalOff]. fold h in Hd |- *. destruct (Z.eq_dec h 0) as [E0|]; [right|left; lia].
    rewrite E0 in Hd. destruct Hd as [?|[_ ?]]; [|done]. specialize (H0 E0). destruct Hor; lia. }
  { intros rc p' He Hp'. code. apply wpc_ret; [done|]. apply HQ; [by right| |by intros ->; destruct He]. by destruct Hp' as [->|[? ->]]. }
  intros Hl _. cbn [negb Z.eqb SQLITE_OK]. fold h in Hl |- *. set (p1 := set_journalOff _ (h + szH)). change (journalOff p1) with (h + szH).
  unfold JOURNAL_HDR_SZ at 1. change (sectorSize p1) with (sectorSize p). rewrite (proj2 Hconf). generalize (playback_count p1 false (lenz c) (field c (h + 8))). intros n.
  assert (Hrecs : forall p2, core (set_dbSize p2 nOrig) = core (set_dbSize p nOrig) -> journalOff p2 = h + szH ->
    wp ('(out, needPagerReset, p) ← pager_playback_records g (Z.to_nat (lenz c / JOURNAL_PG_SZ p2) + 2) p2 (lenz c) 0 n needReset;
        match out with Some rc => Ret (rc, p) | None => pager_playback_loop g fuel p false (lenz c) needPagerReset end) Q C s).
  { intros p2 M1 M2. pose proof M1 as X. unfold core in X. cbn in X. injection X as P1 P2 P4 P5 P6 P7 P8 P9. wp_bind.
    assert (Hconf2 : conf p2) by (split; [rewrite P1; apply Hconf|rewrite P2; apply Hconf]). assert (Hpl2 : playing p2) by (unfold playing; by rewrite P5, P6).
    apply wpc_records_unsynced; [done|done|lia|unfold writing in *; rewrite P4, P5, M2; destruct Hun as [|[_ ?]]; [by left|right; lia]| | |].
    - rewrite M2. unfold JOURNAL_PG_SZ. rewrite (proj1 Hconf2). fold R. destruct (div_bounds (lenz c) R); [lia|].
      assert (0 <= lenz c / R) by (apply Z.div_pos; lia). nia.
    - intros nr p3 N1 N2. rewrite M2 in N2. assert (E3 : core (set_dbSize p3 nOrig) = core (set_dbSize p nOrig)) by (unfold core in *; cbn in *; congruence).
      pose proof E3 as X. unfold core in X. cbn in X. injection X as Q1 Q2 Q4 Q5 Q6 Q7 Q8 Q9. pose proof (align_bounds (journalOff p3)).
      apply IH; [split; [rewrite Q1|rewrite Q2]; apply Hconf|unfold playing; by rewrite Q5, Q6|congruence|lia|unfold writing in *; rewrite Q4, Q5; destruct Hun as [|[_ ?]]; [by left|right; lia]|lia|lia|lia|].
      intros rc p' Hr [R1 R2] R3. apply HQ; [done|split; [congruence|done]|]. intros Hrc _. apply R3; [done|left; lia].
    - intros rc nr p3 Hr N1 N2. apply wpc_ret; [done|]. apply HQ; [done|split; [unfold core in *; cbn in *; congruence|done]|]. intros _ _. left. lia. }
  wp_bind. destruct (Z.eqb_spec (h + szH) szH) as [Eo|Eo].
  - assert (E0 : h = 0) by lia. assert (Hw : writing p = false) by (destruct Hun as [|[? _]]; [done|rewrite H0 in *; lia]). wp_bind. unfold pager_truncate. wp_bind.
    apply wpc_assert; [by apply (playing_state p)|done|]. fold (writing p1). change (writing p1) with (writing p). rewrite Hw. apply wpc_ret; [done|]. cbn [Z.eqb SQLITE_OK].
    apply wpc_ret; [done|]. cbn [negb Z.eqb SQLITE_OK]. by apply Hrecs.
  - apply wpc_ret; [done|]. cbn [negb Z.eqb SQLITE_OK]. by apply Hrecs.
Qed.
End tail.

End playback.
