(* ===== verification/PagerRecovery.v ===== *)
(** Recovery: how a journal is made unusable ([finalize] of [Pager]), and that
    [pager_playback], and [sqlite3PagerSharedLock] on a database with a hot journal,
    restore the original database from any files that a transaction can leave, and can be
    interrupted and done again. *)
From S2P Require Import Prelude Varint Bitvec Disk DiskSpec Pager PagerPlayback.

(** * How a rollback journal is made unusable ([finalize] of [Pager]): in each journal mode
    and wherever it is interrupted, what is left of the journal is what might have been
    left before, or is not played back. *)

(** ** Files without a magic number *)

Lemma resize_nil c : resize c 0 = [].
Proof. reflexivity. Qed.

Lemma magic_nil o : 0 <= o -> ~ magic_at [] o.
Proof. intros Ho H. apply magic_len in H; [|done]. unfold lenz in H. cbn in H. lia. Qed.

Lemma magic_resize c n o : 0 <= o -> 0 <= n <= lenz c -> magic_at (resize c n) o -> magic_at c o.
Proof.
  intros Ho Hn Hm. pose proof (magic_len _ _ Ho Hm) as Hl. rewrite lenz_resize in Hl by lia. apply (magic_ext (resize c n)); [done| |done].
  intros i Hi. apply get_resize; lia.
Qed.

Lemma magic_zeros c n : 8 <= n -> ~ magic_at (write_at c 0 (zeros n)) 0.
Proof.
  intros Hn H. apply magic_first in H; [|done]. rewrite get_write_at, lenz_zeros in H by lia.
  rewrite (proj2 (Z.leb_le 0 0)), (proj2 (Z.ltb_lt 0 _)) in H by lia. cbn [andb] in H. rewrite get_zeros, (proj2 (Z.ltb_lt _ _)) in H by lia. done.
Qed.

Section finalize.
Context {G : geometry} (g : config).
Hypothesis Hsync : noSync g = false.

Local Abbreviation wp := (wpc szS).

(** Mixtures with an empty file. *)
Lemma mixed_empty (P : bytes -> Prop) img : mixed szS (fun v => P v \/ v = []) img -> mixed szS P img \/ img = [].
Proof.
  intros Hm. destruct (decide (img = [])) as [|Hne]; [by right|left]. destruct Hm as [(v & Hv & El) Hs].
  assert (Hv0 : P v). { destruct Hv as [| ->]; [done|]. exfalso. apply Hne. destruct img; [done|]. unfold lenz in El. cbn in El. lia. }
  split; [by exists v|]. intros s Hs0. destruct (Hs s Hs0) as (w & [Hw| ->] & Hg); [by exists w|]. exists v. split; [done|]. intros i Hi Hl.
  destruct (Hg i Hi Hl) as [Hn _]. unfold lenz in Hn. cbn in Hn. geo. assert (0 <= i) by nia. lia.
Qed.

(** Mixtures with a file whose header is overwritten by zeros. *)
Lemma mixed_zeroed (P : bytes -> Prop) c w img :
  let d := zeros 28 in
  P c -> 28 <= lenz c \/ (forall v, P v -> ~ magic_at v 0) -> mixed szS (fun v => v = c \/ write_versions c 0 d v) w ->
  mixed szS (fun v => P v \/ v = w \/ write_versions c 0 d v) img -> mixed szS P img \/ ~ magic_at img 0.
Proof.
  intros d Hc Hor Hw Him. geo. assert (HS : 0 < szS) by lia. assert (Hd : lenz d = 28) by reflexivity. assert (Hz : ~ magic_at (write_at c 0 d) 0) by (apply magic_zeros; lia).
  destruct Hor as [Hlc|Hno].
  - assert (Hlw : lenz (write_at c 0 d) = lenz c) by (rewrite lenz_write_at; lia).
    assert (Hver : forall v, write_versions c 0 d v -> v = write_at c 0 d \/ v = c) by (intros v [->|Hg]; [by left|right; by eapply grown_same]).
    assert (Hw' : w = c \/ w = write_at c 0 d).
    { apply (mixed_two szS (fun v => v = c \/ write_versions c 0 d v) c _ 0); [lia|lia|intros v [->|Hv]; [by left|destruct (Hver v Hv); tauto]|done| |done].
      intros i Hi0 Hi. apply get_write_at with (d := d) (c := c) (off := 0) in Hi0 as E; [|lia]. rewrite E. rewrite (proj2 (Z.ltb_ge i (0 + lenz d))) by lia. rewrite andb_false_r.
      destruct (Z.ltb_spec i (lenz c)); [done|]. rewrite (proj2 (Z.ltb_ge i 0)) by lia. symmetry. apply get_None. lia. }
    assert (Hall : forall v, P v \/ v = w \/ write_versions c 0 d v -> P v \/ v = write_at c 0 d).
    { intros v [Hv|[->|Hv]]; [by left|destruct Hw' as [->| ->]; [by left|by right]|]. destruct (Hver v Hv) as [->| ->]; [by right|by left]. }
    pose proof (mixed_weaken _ _ _ _ Hall Him) as [(v0 & Hv0 & El) Hs]. destruct (Hs 0) as (x & Hx & Hgx); [lia|]. destruct Hx as [Hx| ->].
    + left. split; [destruct Hv0 as [Hv0| ->]; [by exists v0|exists c; split; [done|lia]]|].
      intros s Hs0. destruct (Z.eq_dec s 0) as [->|Hne]; [by exists x|]. destruct (Hs s Hs0) as (v & [Hv| ->] & Hg); [by exists v|]. exists c. split; [done|].
      intros i Hi Hil. destruct (Hg i Hi Hil) as [H1 H2]. split; [lia|]. rewrite H2. assert (1 * szS <= s * szS) by (apply Z.mul_le_mono_nonneg_r; lia). apply get_write_out; lia.
    + right. intros Hm. apply Hz. pose proof (magic_len _ _ ltac:(done) Hm). apply (magic_ext img); [done| |done]. intros i Hi. apply Hgx; lia.
  - right. intros Hm. assert (Hnv : forall v, write_versions c 0 d v -> ~ magic_at v 0).
    { intros v [->|Hg]; [done|]. intros Hmv. destruct (grown_magic _ _ _ 0 ltac:(done) Hg Hmv); [by apply (Hno c)|done]. }
    destruct (mixed_magic szS _ img Him 0 0) as (v & Hv & Hmv); [lia|done|lia|done|]. destruct Hv as [Hv|[->|Hv]]; [by apply (Hno v)| |by apply (Hnv v)].
    destruct (mixed_magic szS _ w Hw 0 0) as (v & [->|Hv] & Hmv'); [lia|done|lia|done|by apply (Hno c)|by apply (Hnv v)].
Qed.

(** ** What a finalized journal is *)

Definition durable : bool :=
  match journalMode g, exclusiveMode g with
  | PAGER_JOURNALMODE_TRUNCATE, _ => fullSync g
  | PAGER_JOURNALMODE_PERSIST, _ | _, true => true
  | _, _ => extraSync g
  end.

(** From the journal [f] to [f'] nothing has been added that is played back. *)
Definition weaker (f f' : vfile) : Prop := forall x, survives szS f' x -> survives szS f x \/ no_magic x.

Lemma weaker_refl f : weaker f f.
Proof. intros x Hx. by left. Qed.

(** A settled file without a magic number, and what it may be cut to. *)
Definition dead (f : vfile) : Prop := no_magic (cur f) /\ poss f (cur f) /\ forall x, survives szS f x -> no_magic x.

Lemma dead_settle s : no_magic (cur (jrn s)) -> dead (jrn (settle s Jrnl)).
Proof. intros Hn. split; [done|]. split; [done|]. intros x Hx. apply survives_settled with (y := cur (jrn s)) in Hx; [by subst x|geo; lia|done]. Qed.

Lemma dead_cut s c n : cur (jrn s) = Some c -> dead (jrn s) -> 0 <= n <= lenz c -> dead (jrn (update s Jrnl (Some (resize c n)) (fun _ => False))).
Proof.
  intros Hc (H1 & H2 & H3) Hn. rewrite Hc in *. cbn [no_magic] in H1. geo. assert (Hr : ~ magic_at (resize c n) 0) by (intros Hm; by apply H1, (magic_resize c n)).
  cbn. split; [done|]. split; [by right; left|]. intros [img|] Hx; [|done]. cbn in Hx |- *. intros Hm.
  destruct (mixed_magic szS _ img Hx 0 0) as (v & Hv & Hmv); [lia|done|lia|done|]. destruct Hv as [Hv|[E|[]]]; [|by injection E as ->].
  apply (H3 (Some v)); [|done]. by apply mixed_self.
Qed.

(** ** The operation *)

(** From the disk [s] to [s'], only the journal has changed, as when it is finalized. *)
Definition finalizing (s s' : disk) : Prop := dbf s' = dbf s /\ weaker (jrn s) (jrn s') /\ poss (jrn s') (cur (jrn s')).

Definition finalized (s : disk) (rc : Z) (s' : disk) : Prop :=
  finalizing s s' /\ ((rc = SQLITE_OK /\ no_magic (cur (jrn s'))) \/ is_error rc).

(** A journal whose header can be overwritten. *)
Definition erasable (f : vfile) (c : bytes) : Prop :=
  cur f = Some c /\ poss f (Some c) /\ (28 <= lenz c \/ forall v, poss f (Some v) -> ~ magic_at v 0).

Lemma weaker_dead f f' : dead f' -> weaker f f'.
Proof. intros (_ & _ & H) x Hx. right. by apply H. Qed.

Lemma finalizing_refl s : poss (jrn s) (cur (jrn s)) -> finalizing s s.
Proof. intros H. split; [done|]. split; [apply weaker_refl|done]. Qed.

Lemma finalizing_cut s : poss (jrn s) (cur (jrn s)) -> finalizing s (update s Jrnl (Some []) (fun _ => False)).
Proof.
  intros H. split; [done|]. split; [|by right; left]. intros [img|] Hx; [|by right]. cbn in Hx.
  assert (Hm : mixed szS (fun v => poss (jrn s) (Some v) \/ v = []) img).
  { eapply mixed_weaken; [|exact Hx]. intros v [Hv|[E|[]]]; [by left|right; congruence]. }
  destruct (mixed_empty _ _ Hm) as [| ->]; [by left|right]. by apply magic_nil.
Qed.

Lemma finalizing_zero s c w :
  erasable (jrn s) c -> mixed szS (fun v => v = c \/ write_versions c 0 (zeros 28) v) w -> finalizing s (update s Jrnl (Some w) (lift (write_versions c 0 (zeros 28)))).
Proof.
  intros (H1 & H2 & H3) Hw. split; [done|]. split; [|by right; left]. intros [img|] Hx; [|by right]. cbn in Hx.
  destruct (mixed_zeroed (fun v => poss (jrn s) (Some v)) c w img) as [?|?]; [done|done|done| |by left|by right].
  eapply mixed_weaken; [|exact Hx]. intros v [Hv|[E|Hv]]; [by left|right; left; congruence|by right; right].
Qed.

(** The calls of [finalize], and the sync after them. *)
Lemma wpc_cut s c (Q : Z -> disk -> Prop) (C : disk -> Prop) :
  erasable (jrn s) c -> (forall s', finalizing s s' -> C s') ->
  (forall rc s', finalized s rc s' -> (rc = SQLITE_OK -> cur (jrn s') = Some []) -> Q rc s') -> wp (call (Truncate Jrnl 0)) Q C s.
Proof.
  intros (H1 & H2 & H3) HC HQ. assert (Hp : poss (jrn s) (cur (jrn s))) by by rewrite H1. apply (wpc_truncate _ _ _ c); [by apply HC, finalizing_refl|done|..].
  - rewrite resize_nil. split; [by apply HC, finalizing_cut|]. apply HQ; [|done]. split; [by apply finalizing_cut|]. left. split; [done|]. by apply magic_nil.
  - intros rc He. apply HQ; [|by intros ->; destruct He as [[? _] _]]. split; [by apply finalizing_refl|]. right. by apply ioerr_error.
Qed.

Lemma wpc_zero s c (Q : Z -> disk -> Prop) (C : disk -> Prop) :
  erasable (jrn s) c -> (forall s', finalizing s s' -> C s') ->
  (forall rc s', finalized s rc s' -> (rc = SQLITE_OK -> cur (jrn s') = Some (write_at c 0 (zeros 28))) -> Q rc s') -> wp (call (Write Jrnl 0 (zeros 28))) Q C s.
Proof.
  intros He HC HQ. pose proof He as (H1 & H2 & H3). assert (Hp : poss (jrn s) (cur (jrn s))) by by rewrite H1. apply (wpc_write _ _ _ _ c); [by apply HC, finalizing_refl|done|..].
  - assert (Hf : finalizing s (update s Jrnl (Some (write_at c 0 (zeros 28))) (lift (write_versions c 0 (zeros 28))))) by (apply finalizing_zero; [done|apply mixed_self; right; by left]).
    split; [by apply HC|]. apply HQ; [|done]. split; [done|]. left. split; [done|]. apply magic_zeros. lia.
  - intros rc v Hr Hv. assert (Hf : finalizing s (update s Jrnl (Some v) (lift (write_versions c 0 (zeros 28))))) by by apply finalizing_zero.
    split; [by apply HC|]. apply HQ; [|by intros ->; destruct Hr as [[? _] _]]. split; [done|]. right. by apply ioerr_error.
Qed.

Lemma wpc_settle s s0 c (Q : Z -> disk -> Prop) (C : disk -> Prop) :
  finalizing s0 s -> cur (jrn s) = Some c -> ~ magic_at c 0 -> (forall s', finalizing s0 s' -> C s') ->
  (dead (jrn (settle s Jrnl)) -> finalizing s0 (settle s Jrnl) -> Q SQLITE_OK (settle s Jrnl)) -> (forall rc, is_error rc -> Q rc s) -> wp (call (Sync Jrnl)) Q C s.
Proof.
  intros Hf Hc Hm HC H1 H2. assert (Hd : dead (jrn (settle s Jrnl))) by (apply dead_settle; by rewrite Hc).
  assert (Hf' : finalizing s0 (settle s Jrnl)) by (destruct Hf as (E1 & E2 & E3); split; [done|]; split; [by apply weaker_dead|done]).
  apply wpc_sync; [by apply HC|cbn; by rewrite Hc|split; [by apply HC|by apply H1]|]. intros rc He. by apply H2, ioerr_error.
Qed.

(** The size limit is applied to a journal that is dead. *)
Lemma wpc_limit s s0 c n (Q : Z -> disk -> Prop) (C : disk -> Prop) :
  finalizing s0 s -> cur (jrn s) = Some c -> dead (jrn s) -> 0 < n -> (forall s', finalizing s0 s' -> C s') ->
  (forall s', finalizing s0 s' -> dead (jrn s') -> Q SQLITE_OK s') -> (forall rc s', is_error rc -> finalizing s0 s' -> Q rc s') ->
  wp ('(rc, sz) ← call (FileSize Jrnl); if (rc =? SQLITE_OK) && (n <? sz) then call (Truncate Jrnl n) else Ret rc) Q C s.
Proof.
  intros Hf Hc Hd Hn HC H1 H2. wp_bind. apply (wpc_size _ _ c); [by apply HC|done| |].
  - cbn [Z.eqb SQLITE_OK andb]. destruct (Z.ltb_spec n (lenz c)); [|apply wpc_ret; [by apply HC|by apply H1]].
    assert (Hd' : dead (jrn (update s Jrnl (Some (resize c n)) (fun _ => False)))) by (apply dead_cut; (done || lia)).
    assert (Hf' : finalizing s0 (update s Jrnl (Some (resize c n)) (fun _ => False))) by (destruct Hf as (E1 & E2 & E3); split; [done|]; split; [by apply weaker_dead|apply Hd']).
    apply (wpc_truncate _ _ _ c); [by apply HC|done|split; [by apply HC|by apply H1]|]. intros rc He. by apply H2; [apply ioerr_error|].
  - intros rc k He. code. apply wpc_ret; [by apply HC|by apply H2].
Qed.

Lemma wpc_zeroJournalHdr p hm c s (Q : Z -> disk -> Prop) (C : disk -> Prop) :
  jfd p = true -> journalOff p <> 0 -> erasable (jrn s) c -> (forall s', finalizing s s' -> C s') ->
  (forall s', finalizing s s' -> dead (jrn s') -> Q SQLITE_OK s') -> (forall rc s', is_error rc -> finalizing s s' -> Q rc s') ->
  wp (zeroJournalHdr g p hm) Q C s.
Proof.
  intros Hj Ho He HC HOK Herr. unfold zeroJournalHdr. wp_bind. apply wpc_assert; [done|destruct He as (E1 & E2 & _); apply HC, finalizing_refl; by rewrite E1|].
  rewrite (proj2 (Z.eqb_neq _ _)) by done. wp_bind.
  assert (Rest : forall w rc s', finalized s rc s' -> (rc = SQLITE_OK -> cur (jrn s') = Some w) ->
    wp (rc ← (if (rc =? SQLITE_OK) && negb (noSync g) then call (Sync Jrnl) else Ret rc);
        if (rc =? SQLITE_OK) && (0 <? journalSizeLimit g) then
          '(rc, sz) ← call (FileSize Jrnl); if (rc =? SQLITE_OK) && (journalSizeLimit g <? sz) then call (Truncate Jrnl (journalSizeLimit g)) else Ret rc
        else Ret rc) Q C s').
  { intros w rc s' [Hf Hr] Hcur. wp_bind. rewrite Hsync. destruct Hr as [[-> Hn]|Hr].
    - specialize (Hcur eq_refl). rewrite Hcur in Hn. cbn [Z.eqb SQLITE_OK andb negb]. apply (wpc_settle s' s w); [done|done|done|done|..].
      + intros Hd Hf'. cbn [Z.eqb SQLITE_OK andb]. destruct (Z.ltb_spec 0 (journalSizeLimit g)); [|apply wpc_ret; [by apply HC|by apply HOK]].
        apply (wpc_limit _ s w); done.
      + intros rc He'. code. apply wpc_ret; [by apply HC|by apply Herr].
    - code. apply wpc_ret; [by apply HC|]. code. apply wpc_ret; [by apply HC|by apply Herr]. }
  destruct (hm || (journalSizeLimit g =? 0)).
  - apply (wpc_cut s c); [done|done|]. intros rc s' Hf Hc. by eapply Rest.
  - apply (wpc_zero s c); [done|done|]. intros rc s' Hf Hc. by eapply Rest.
Qed.

(** A pager after [finalize]. *)
Definition closed (p p' : Pager) : Prop := p' = set_journalOff p 0 \/ p' = set_jfd p false.

Lemma finalizing_delete s b :
  poss (jrn s) (cur (jrn s)) -> finalizing s (if b : bool then settle (update s Jrnl None (fun _ => False)) Jrnl else update s Jrnl None (fun _ => False)).
Proof.
  intros Hp. destruct b; (split; [done|]).
  - split; [|done]. intros x Hx. right. by apply survives_settled with (y := None) in Hx as ->; [|geo; lia|].
  - split; [|by right; left]. intros [img|] Hx; [left|by right]. cbn in Hx |- *. eapply mixed_weaken; [|exact Hx]. by intros v [?|[?|[]]].
Qed.

Lemma wpc_finalize p hm c s (Q : Z * Pager -> disk -> Prop) (C : disk -> Prop) :
  jfd p = true -> journalOff p <> 0 \/ ~ magic_at c 0 -> erasable (jrn s) c -> (forall s', finalizing s s' -> C s') ->
  (forall p' s', closed p p' -> finalizing s s' -> no_magic (cur (jrn s')) -> (durable = true -> journalOff p <> 0 -> dead (jrn s')) -> Q (SQLITE_OK, p') s') ->
  (forall rc p' s', is_error rc -> closed p p' -> finalizing s s' -> Q (rc, p') s') ->
  wp (finalize g p hm) Q C s.
Proof.
  intros Hj Ho He HC HOK Herr. pose proof He as (E1 & E2 & _). assert (Hp : poss (jrn s) (cur (jrn s))) by by rewrite E1. assert (Hrefl : finalizing s s) by by apply finalizing_refl.
  unfold finalize. rewrite Hj. cbn [negb]. unfold durable in HOK.
  assert (Hcl : closed p (set_journalOff p 0)) by by left.
  assert (Hnothing : journalOff p = 0 -> forall d, Q (SQLITE_OK, set_journalOff p 0) s \/ d).
  { intros E0 d. left. apply HOK; [done|done| |done]. rewrite E1. by destruct Ho. }
  assert (Hzero : (match journalMode g, exclusiveMode g with PAGER_JOURNALMODE_TRUNCATE, _ => False | PAGER_JOURNALMODE_PERSIST, _ | _, true => True | _, _ => False end) ->
    wp (rc ← zeroJournalHdr g p hm; Ret (rc, set_journalOff p 0)) Q C s).
  { intros Hmode. wp_bind. destruct (Z.eq_dec (journalOff p) 0) as [E0|E0].
    - unfold zeroJournalHdr. wp_bind. apply wpc_assert; [done|by apply HC|]. rewrite E0. apply wpc_ret; [by apply HC|]. apply wpc_ret; [by apply HC|].
      destruct (Hnothing E0 False) as [?|[]]. done.
    - apply (wpc_zeroJournalHdr p hm c); [done|done|done|done|..].
      + intros s' Hf Hd. apply wpc_ret; [by apply HC|]. apply HOK; [done|done|exact (proj1 Hd)|done].
      + intros rc s' Hr Hf. apply wpc_ret; [by apply HC|by apply Herr]. }
  assert (Hdel : wp (rc ← call (Delete (extraSync g)); Ret (rc, set_jfd p false)) Q C s \/ (exclusiveMode g = true \/ journalMode g <> PAGER_JOURNALMODE_DELETE)).
  { destruct (exclusiveMode g) eqn:Ex; [right; by left|]. destruct (journalMode g) eqn:Em; try (right; by right). left. wp_bind.
    apply wpc_call; [by apply HC|done|]. intros rc s' [[-> ->]|[Hr Hs]].
    - pose proof (finalizing_delete s (extraSync g) Hp) as Hf. split; [by apply HC|]. apply wpc_ret; [by apply HC|]. apply HOK; [by right|done|by destruct (extraSync g)|].
      intros Hex _. rewrite Hex. apply (dead_settle (update s Jrnl None (fun _ => False))). done.
    - assert (Hf : finalizing s s') by (destruct Hs as [->| ->]; [done|by apply (finalizing_delete s false)]). split; [by apply HC|]. apply wpc_ret; [by apply HC|].
      apply Herr; [done|by right|done]. }
  destruct (journalMode g) eqn:Em, (exclusiveMode g) eqn:Ex; try (by apply Hzero); try (destruct Hdel as [?|[?|?]]; done).
  all: wp_bind; destruct (Z.eqb_spec (journalOff p) 0) as [E0|E0];
    [apply wpc_ret; [by apply HC|]; apply wpc_ret; [by apply HC|]; by destruct (Hnothing E0 False) as [?|[]]|].
  all: wp_bind; apply (wpc_cut s c); [done|done|]; intros rc s' [Hf Hr] Hc; destruct Hr as [[-> Hn]|Hr].
  all: try (code; apply wpc_ret; [by apply HC|]; apply wpc_ret; [by apply HC|by apply Herr]).
  all: specialize (Hc eq_refl); rewrite Hc in Hn; cbn [Z.eqb SQLITE_OK andb]; destruct (fullSync g) eqn:Efs.
  all: try (apply wpc_ret; [by apply HC|]; apply wpc_ret; [by apply HC|]; apply HOK; [done|done|by rewrite Hc|done]).
  all: apply (wpc_settle s' s []); [done|done|done|done|intros Hd Hf'; apply wpc_ret; [by apply HC|]; apply HOK; [done|done|exact (proj1 Hd)|done]|intros rc Hr; apply wpc_ret; [by apply HC|by apply Herr]].
Qed.

End finalize.

(** * Recovery: [pager_playback], and [sqlite3PagerSharedLock] on a database with a hot
    journal, restore the original database from any files that a transaction can leave,
    and can be interrupted and done again. *)

Section recovery.
Context {G : geometry} (g : config).
Hypothesis Hsync : noSync g = false.
Hypothesis Hos : osSectorSize g = szH.

Local Abbreviation wp := (wpc szS).

(** ** Disks from which the database can be restored *)

(** Whatever a loss of power leaves can be restored. *)
Definition sound (s : disk) : Prop :=
  forall x j, survives szS (dbf s) x -> survives szS (jrn s) j -> exists D, x = Some D /\ restorable D j.

(** The database is the original one. *)
Definition pristine (s : disk) : Prop := (forall x, poss (dbf s) x -> x = Some orig) /\ poss (dbf s) (cur (dbf s)).

Definition is_hot (j : option bytes) : Prop := exists c pgs, j = Some c /\ hot c pgs.

Lemma pristine_survives s x : pristine s -> survives szS (dbf s) x -> x = Some orig.
Proof. intros [H _] Hx. apply survives_settled with (y := Some orig) in Hx; [done|geo; lia|done]. Qed.

Lemma pristine_cur s : pristine s -> cur (dbf s) = Some orig.
Proof. intros [H1 H2]. by apply H1. Qed.

Lemma pristine_safe cl s : pristine s -> safe cl s.
Proof. intros [H1 H2]. split; [|done]. intros x Hx. exists orig. split; [by apply H1|apply kept_orig]. Qed.

Lemma pristine_sound s : pristine s -> (forall j, survives szS (jrn s) j -> no_magic j \/ is_hot j) -> sound s.
Proof.
  intros Hp Hj x j Hx Hsj. exists orig. split; [by apply (pristine_survives s)|]. apply restorable_orig. destruct (Hj j Hsj) as [|(c & pgs & ? & ?)]; [by left|right; eauto].
Qed.

Lemma safe_survives cl s x : safe cl s -> survives szS (dbf s) x -> exists D, x = Some D /\ kept cl D.
Proof.
  intros [H1 H2] Hx. destruct x as [img|]; cbn in Hx; [|destruct (H1 _ Hx) as (D & ? & _); done]. exists img. split; [done|].
  eapply kept_mixed; [done|]. intros v Hv. destruct (H1 _ Hv) as (D & E & Hk). congruence.
Qed.

Lemma safe_sound cl s : safe cl s -> (forall j, survives szS (jrn s) j -> exists c pgs, j = Some c /\ hot c pgs /\ forall x, x ∈ cl -> x ∈ pgs) -> sound s.
Proof.
  intros Hs Hj x j Hx Hsj. destruct (safe_survives cl s x Hs Hx) as (D & -> & Hk). exists D. split; [done|]. right.
  destruct (Hj j Hsj) as (c & pgs & -> & Hh & Hin). exists c, pgs. split; [done|]. split; [done|]. by eapply kept_mono.
Qed.

Lemma sound_weaker s s' : pristine s' -> (forall j, survives szS (jrn s) j -> no_magic j \/ is_hot j) -> weaker (jrn s) (jrn s') -> sound s'.
Proof. intros Hp Hj Hw. apply pristine_sound; [done|]. intros j Hsj. destruct (Hw j Hsj); [by apply Hj|by left]. Qed.

Lemma sound_harmless s j : sound s -> (exists x, survives szS (dbf s) x) -> survives szS (jrn s) j -> no_magic j \/ is_hot j.
Proof. intros Hs [x Hx] Hj. destruct (Hs x j Hx Hj) as (D & _ & [[_ ?]|(c & pgs & ? & ? & _)]); [by left|right; exists c, pgs; by split]. Qed.

(** ** The end of a playback *)

Lemma wpc_readMasterJournal n c (Q : Z * bytes -> disk -> Prop) (C : disk -> Prop) s :
  C s -> cur (jrn s) = Some c -> (forall rc z, rc = SQLITE_OK \/ is_error rc -> Q (rc, z) s) -> wp (readMasterJournal n) Q C s.
Proof.
  intros HC Hc HQ. unfold readMasterJournal.
  assert (Herr : forall rc X, is_error rc -> wp (if negb (rc =? SQLITE_OK) then Ret (rc, []) else X) Q C s) by (intros; code; apply wpc_ret; [done|]; apply HQ; by right).
  assert (Hret : forall rc b z X, rc = SQLITE_OK \/ is_error rc -> (b = false -> wp X Q C s) -> wp (if b : bool then Ret (rc, z) else X) Q C s).
  { intros rc b z X Hr HX. destruct b; [apply wpc_ret; [done|]; by apply HQ|by apply HX]. }
  wp_bind. apply (wpc_size _ _ c); [done|done| |intros rc v He; code; apply wpc_ret; [done|]; apply HQ; by right]. cbn [negb Z.eqb SQLITE_OK orb].
  apply Hret; [by left|]. intros Hl. bool_to_prop. wp_bind. apply (wpc_field _ _ c); [done|done|lia|lia| |intros rc v He; code; apply wpc_ret; [done|]; apply HQ; by right].
  cbn [negb Z.eqb SQLITE_OK orb]. apply Hret; [by left|]. intros Hb. bool_to_prop.
  wp_bind. apply (wpc_field _ _ c); [done|done|lia|lia| |by intros; apply Herr]. cbn [negb Z.eqb SQLITE_OK orb].
  wp_bind. apply (wpc_read _ _ _ _ c); [done|done|lia|lia| |lia|intros rc d He _; code; apply wpc_ret; [done|]; apply HQ; by right]. intros _. cbn [negb Z.eqb SQLITE_OK orb].
  apply Hret; [by left|]. intros _. wp_bind. set (k := field c (lenz c - 16)) in *.
  assert (Hk : in_u 32 k) by apply get32_range. unfold in_u in Hk.
  apply (wpc_read _ _ _ _ c); [done|done|lia|lia| |lia|by intros; apply Herr]. intros _. cbn [negb Z.eqb SQLITE_OK orb]. apply wpc_ret; [done|]. apply HQ. by left.
Qed.

(** A pager whose lock can be released. *)
Definition releasable (p : Pager) : Prop := conf p /\ NO_LOCK <= eLock p.

(** A pager that ends a transaction. *)
Definition ended (p p' : Pager) : Prop :=
  releasable p' /\ errCode p' = errCode p /\ eState p' = PAGER_READER /\ pInJournal p' = None /\ dbSize p' = dbSize p.

Lemma wpc_unlock p lk (Q : Z * Pager -> disk -> Prop) (C : disk -> Prop) s :
  C s -> exclusiveMode g = false -> lk <= eLock p ->
  (forall rc p', rc = SQLITE_OK \/ is_error rc -> p' = p \/ p' = set_eLock p lk -> Q (rc, p') s) -> wp (pagerUnlockDb g p lk) Q C s.
Proof.
  intros HC Hex Hlk HQ. unfold pagerUnlockDb. wp_bind. apply wpc_assert; [by rewrite Hex|done|]. wp_bind. apply wpc_assert; [by apply Z.leb_le|done|].
  assert (H : forall rc, rc = SQLITE_OK \/ is_error rc -> wp (Ret (rc, if eLock p =? UNKNOWN_LOCK then p else set_eLock p lk)) Q C s).
  { intros rc Hr. apply wpc_ret; [done|]. apply HQ; [done|]. destruct (eLock p =? UNKNOWN_LOCK); [by left|by right]. }
  wp_bind. destruct (noLock g); [apply wpc_ret; [done|]; apply H; by left|]. apply wpc_quiet; [done|done|]. intros rc [_ Hr]. by apply H.
Qed.

Lemma lock_result p lk (Q : Z * Pager -> disk -> Prop) (C : disk -> Prop) s :
  C s -> (forall p', (p' = p \/ p' = set_eLock p lk) -> (eLock p' = UNKNOWN_LOCK \/ lk <= eLock p') -> (lk = EXCLUSIVE_LOCK -> eLock p = UNKNOWN_LOCK -> eLock p' = EXCLUSIVE_LOCK) -> Q (SQLITE_OK, p') s) ->
  (forall rc, is_error rc -> Q (rc, p) s) -> wp (pagerLockDb g p lk) Q C s.
Proof.
  intros HC HOK Herr. unfold pagerLockDb. destruct (((eLock p <? lk) || (eLock p =? UNKNOWN_LOCK))) eqn:E; cycle 1.
  { bool_to_prop. apply wpc_ret; [done|]. apply HOK; [by left|right; lia|lia]. }
  assert (H : forall rc, rc = SQLITE_OK \/ is_error rc ->
    wp (Ret (rc, if (rc =? SQLITE_OK) && (negb (eLock p =? UNKNOWN_LOCK) || (lk =? EXCLUSIVE_LOCK)) then set_eLock p lk else p)) Q C s).
  { intros rc Hr. apply wpc_ret; [done|]. destruct Hr as [->|Hr]; [|code; by apply Herr]. cbn [Z.eqb SQLITE_OK andb].
    destruct (Z.eqb_spec (eLock p) UNKNOWN_LOCK), (Z.eqb_spec lk EXCLUSIVE_LOCK); cbn [negb orb]; apply HOK; try (by right); try (by left); try done; try (right; cbn; lia).
    all: try (left; done). all: cbn; congruence. }
  wp_bind. destruct (noLock g); [apply wpc_ret; [done|]; apply H; by left|]. apply wpc_quiet; [done|done|]. intros rc [_ Hr]. by apply H.
Qed.

(** A journal that can be finalized, or that is not open. *)
Definition closable (p : Pager) (s : disk) : Prop :=
  (jfd p = true /\ exists c, erasable (jrn s) c /\ (journalOff p <> 0 \/ ~ magic_at c 0)) \/
  (jfd p = false /\ pInJournal p = None /\ no_magic (cur (jrn s)) /\ poss (jrn s) (cur (jrn s))).

(** The end of a transaction that leaves the size of the database alone. *)
Lemma wpc_end p hm b s (Q : Z * Pager -> disk -> Prop) (C : disk -> Prop) :
  conf p -> eState p <> PAGER_ERROR -> SHARED_LOCK <= eLock p -> (eState p <? PAGER_WRITER_LOCKED) && (eLock p <? RESERVED_LOCK) = false -> (b = true -> dbFileSize p <= dbSize p) -> closable p s ->
  (forall s', finalizing s s' -> C s') ->
  (forall p' s', ended p p' -> pPCache p' = sqlite3PcacheTruncate (dbSize p) (sqlite3PcacheCleanAll (pPCache p)) -> finalizing s s' -> no_magic (cur (jrn s')) ->
     (durable g = true -> journalOff p <> 0 -> jfd p = true -> dead (jrn s')) -> Q (SQLITE_OK, p') s') ->
  (forall rc p' s', is_error rc -> ended p p' -> finalizing s s' -> Q (rc, p') s') ->
  wp (pager_end_transaction g p hm b) Q C s.
Proof.
  intros Hconf Hst Hlk Hwr Hb Hcl HC HOK Herr. assert (Hrefl : finalizing s s) by (apply finalizing_refl; by destruct Hcl as [(_ & c & (E1 & E2 & _) & _)|(_ & _ & _ & ?)]; [rewrite E1|]).
  unfold pager_end_transaction. wp_bind. apply wpc_assert; [by apply negb_true_iff, Z.eqb_neq|by apply HC|]. rewrite Hwr.
  wp_bind. apply wpc_assert; [by destruct Hcl as [[-> _]|(-> & -> & _)]|by apply HC|].
  assert (Hend : forall rc p1 s1, rc = SQLITE_OK \/ is_error rc -> closed p p1 \/ p1 = p -> finalizing s s1 -> (rc = SQLITE_OK -> no_magic (cur (jrn s1))) ->
    (rc = SQLITE_OK -> durable g = true -> journalOff p <> 0 -> jfd p = true -> dead (jrn s1)) ->
    wp (let p := set_nRec (set_pInJournal p1 None) 0 in
        let p := if rc =? SQLITE_OK then set_pPCache p (sqlite3PcacheTruncate (dbSize p) (sqlite3PcacheCleanAll (pPCache p))) else p in
        '(rc, p) ← (if (rc =? SQLITE_OK) && b && (dbSize p <? dbFileSize p) then _ ← assert (eLock p =? EXCLUSIVE_LOCK); pager_truncate p (dbSize p) else Ret (rc, p));
        '(rc2, p) ← (if exclusiveMode g then Ret (SQLITE_OK, p) else '(rc2, p) ← pagerUnlockDb g p SHARED_LOCK; Ret (rc2, set_changeCountDone p false));
        Ret (if rc =? SQLITE_OK then rc2 else rc, set_setMaster (set_eState p PAGER_READER) false)) Q C s1).
  { intros rc p1 s1 Hr Hcl1 Hf Hn Hdur. cbv zeta. set (p2 := if rc =? SQLITE_OK then _ else _).
    assert (Hp2 : releasable p2 /\ errCode p2 = errCode p /\ eLock p2 = eLock p /\ pInJournal p2 = None /\ dbSize p2 = dbSize p /\ dbFileSize p2 = dbFileSize p /\
      (rc = SQLITE_OK -> pPCache p2 = sqlite3PcacheTruncate (dbSize p) (sqlite3PcacheCleanAll (pPCache p)))).
    { assert (NO_LOCK <= eLock p) by (unfold NO_LOCK, SHARED_LOCK in *; lia). unfold p2. destruct Hr as [->|Hr]; [|code; destruct Hr as [Hr _]]; destruct Hcl1 as [[->| ->]| ->]; (do 6 (split; [done|])); by intros ?. }
    clearbody p2. destruct Hp2 as (X1 & X2 & X3 & X4 & X5 & X6 & X7). wp_bind.
    assert (Eb : (rc =? SQLITE_OK) && b && (dbSize p2 <? dbFileSize p2) = false).
    { destruct b; [|by rewrite andb_false_r]. rewrite X5, X6, (proj2 (Z.ltb_ge _ _)) by by apply Hb. apply andb_false_r. }
    rewrite Eb. apply wpc_ret; [by apply HC|]. wp_bind.
    assert (Hfin : forall rc2 p3, rc2 = SQLITE_OK \/ is_error rc2 -> pPCache p3 = pPCache p2 -> ended p (set_setMaster (set_eState p3 PAGER_READER) false) ->
      wp (Ret (if rc =? SQLITE_OK then rc2 else rc, set_setMaster (set_eState p3 PAGER_READER) false)) Q C s1).
    { intros rc2 p3 Hr2 Ec He3. apply wpc_ret; [by apply HC|]. destruct Hr as [->|Hr]; [cbn; destruct Hr2 as [->|Hr2]; [apply HOK; try done; [cbn; rewrite Ec; by apply X7|by apply Hn|by apply Hdur]|by apply Herr]|code; by apply Herr]. }
    destruct (exclusiveMode g) eqn:Ex.
    - apply wpc_ret; [by apply HC|]. apply Hfin; [by left|done|]. unfold ended. cbn. done.
    - wp_bind. apply wpc_unlock; [by apply HC|done|by rewrite X3|]. intros rc2 p3 Hr2 Hp3. apply wpc_ret; [by apply HC|].
      apply Hfin; [done|by destruct Hp3 as [->| ->]|]. destruct X1 as [Y1 Y2]. by destruct Hp3 as [->| ->]. }
  wp_bind. destruct Hcl as [(Hj & c & He & Ho)|(Hj & Hpi & Hn & Hp)].
  - apply (wpc_finalize g Hsync p hm c); [done|done|done|done|..].
    + intros p1 s1 Hcl1 Hf Hn Hd. apply Hend; auto.
    + intros rc p1 s1 Hr Hcl1 Hf. apply Hend; [by right|by left|done|..]; intros ->; by destruct Hr as [? _].
  - unfold finalize. rewrite Hj. apply wpc_ret; [by apply HC|]. apply Hend; [by left|by right|done|done|congruence].
Qed.

(** After a playback. *)
Lemma wpc_end_playback p c s (Q : Z * Pager -> disk -> Prop) (C : disk -> Prop) :
  conf p -> jfd p = true -> playing p -> RESERVED_LOCK <= eLock p -> erasable (jrn s) c -> journalOff p <> 0 \/ ~ magic_at c 0 ->
  (writing p = true -> cur (dbf s) = Some orig) -> (writing p = false -> pristine s) ->
  C s -> (forall s', pristine s' -> weaker (jrn s) (jrn s') -> poss (jrn s') (cur (jrn s')) -> C s') ->
  (forall p' s', ended p p' -> pristine s' -> weaker (jrn s) (jrn s') -> poss (jrn s') (cur (jrn s')) -> no_magic (cur (jrn s')) -> Q (SQLITE_OK, p') s') ->
  (forall rc p' s', is_error rc -> releasable p' -> C s' -> Q (rc, p') s') ->
  wp (end_playback g p szP true SQLITE_OK) Q C s.
Proof.
  intros Hconf Hj Hpl Hlk He Ho HD Hpr HCs HC2 HOK Herr. pose proof He as (E1 & E2 & _). unfold end_playback. cbn [Z.eqb SQLITE_OK].
  wp_bind. apply wpc_SetPagesize_same; [apply Hconf|done|]. set (p1 := set_changeCountDone p false).
  assert (Hst : eState p1 <> PAGER_ERROR) by (apply playing_state in Hpl; bool_to_prop; done).
  wp_bind. cbn [Z.eqb SQLITE_OK]. apply (wpc_readMasterJournal _ c); [done|done|]. intros rc z Hr. wp_bind.
  assert (Hset : forall p', releasable p' -> releasable (set_sectorSize p' (osSectorSize g))) by (intros p' [[? ?] ?]; split; [by split|done]).
  assert (Hrel : releasable p1) by (split; [done|]; unfold NO_LOCK, RESERVED_LOCK in *; cbn; lia).
  assert (Hfail : forall rc p' s', is_error rc -> releasable p' -> C s' ->
    wp (rc ← (if (rc =? SQLITE_OK) && named z && true then call (DelMaster z) else Ret rc); Ret (rc, set_sectorSize p' (osSectorSize g))) Q C s').
  { intros rc' p' s' Hr' Hp' Hs'. wp_bind. code. apply wpc_ret; [done|]. apply wpc_ret; [done|]. apply Herr; auto. }
  destruct Hr as [->|Hr]; cycle 1.
  { code. apply wpc_ret; [done|]. wp_bind. code. apply wpc_ret; [done|]. by apply Hfail. }
  cbn [Z.eqb SQLITE_OK andb]. fold (writing p1).
  assert (Rest : forall s1, jrn s1 = jrn s -> pristine s1 ->
    wp ('(rc, p) ← (if SQLITE_OK =? SQLITE_OK then pager_end_transaction g p1 (named z) false else Ret (SQLITE_OK, p1));
        rc ← (if (rc =? SQLITE_OK) && named z && true then call (DelMaster z) else Ret rc); Ret (rc, set_sectorSize p (osSectorSize g))) Q C s1).
  { intros s1 Hj1 Hp1. wp_bind. cbn [Z.eqb SQLITE_OK].
    assert (Hpris : forall s', finalizing s1 s' -> pristine s' /\ weaker (jrn s) (jrn s') /\ poss (jrn s') (cur (jrn s'))).
    { intros s' (F1 & F2 & F3). unfold pristine. rewrite F1. split; [done|]. split; [by rewrite <- Hj1|done]. }
    apply (wpc_end p1); [done|done|unfold SHARED_LOCK, RESERVED_LOCK in *; cbn; lia|apply andb_false_iff; right; by apply Z.ltb_ge|done|left; split; [done|]; exists c; by rewrite Hj1|by intros s' Hf; apply HC2; apply Hpris|..].
    - intros p' s' He' _ Hf Hn _. destruct (Hpris s' Hf) as (P1 & P2 & P3). assert (HCs' : C s') by by apply HC2. wp_bind.
      assert (Hlast : forall rc, rc = SQLITE_OK \/ is_error rc -> wp (Ret (rc, set_sectorSize p' (osSectorSize g))) Q C s').
      { intros rc Hr. apply wpc_ret; [done|]. destruct He' as (X1 & X2). destruct Hr as [->|Hr]; [|apply Herr; auto].
        apply HOK; [split; [by apply Hset|done]|done|done|apply Hf|done]. }
      destruct (_ && _); [|apply wpc_ret; [done|]; apply Hlast; by left]. apply wpc_quiet; [done|done|]. intros rc [_ Hr]. by apply Hlast.
    - intros rc p' s' Hr He' Hf. destruct (Hpris s' Hf) as (P1 & P2 & P3). apply Hfail; [done|apply He'|by apply HC2]. }
  destruct (writing p1) eqn:Ew.
  - unfold sqlite3PagerSync. rewrite Hsync. assert (HD' : cur (dbf s) = Some orig) by by apply HD.
    assert (Hp' : pristine (settle s Db)) by (split; [intros x Hx; cbn in Hx; congruence|done]).
    apply wpc_sync; [done|cbn; by rewrite HD'|split; [apply HC2; [done|apply weaker_refl|cbn; by rewrite E1]|by apply Rest]|].
    intros rc Hr. apply ioerr_error in Hr. wp_bind. code. apply wpc_ret; [done|]. by apply Hfail.
  - apply wpc_ret; [done|]. apply Rest; [done|]. by apply Hpr.
Qed.

Lemma wpc_end_playback_error p sz res rc (Q : Z * Pager -> disk -> Prop) (C : disk -> Prop) s :
  is_error rc -> releasable p -> C s -> (forall p', releasable p' -> Q (rc, p') s) -> wp (end_playback g p sz res rc) Q C s.
Proof.
  intros Hr [[Hp _] Hl] HC HQ. unfold end_playback. do 5 (wp_bind; code; apply wpc_ret; [done|]). apply wpc_ret; [done|]. apply HQ. by split.
Qed.

(** ** Hot journals *)

Lemma hot_magic c pgs : hot c pgs -> magic_at c 0.
Proof.
  intros (E & HE & Hc & _). inversion Hc as [|? ck q rest ? Hh Hr Hrest]; subst; [lia|]. apply Hh.
Qed.

Lemma hot_len c pgs : hot c pgs -> szH <= lenz c.
Proof. intros (E & HE & Hc & _). inversion Hc as [|? ck q rest ? Hh Hr Hrest]; subst; [lia|]. destruct Hh as (_ & (Hl & _) & _). unfold align in Hl. cbn in Hl. lia. Qed.

Lemma records_fun c o ck q ck' q' : records c o ck q -> records c o ck' q' -> length q = length q' -> q = q'.
Proof.
  intros Hq Hq' Hl. apply list_eq_same_length with (n := length q); [done|done|]. intros k x y _ Hx Hy.
  destruct (Hq k x Hx) as (_ & <- & _). by destruct (Hq' k y Hy) as (_ & <- & _).
Qed.

(** A journal has one set of saved pages. *)
Lemma hot_unique c pgs pgs' : hot c pgs -> hot c pgs' -> pgs = pgs'.
Proof.
  intros (E & _ & Hc & Hn) (E' & _ & Hc' & Hn'). revert pgs' E' Hc' Hn' Hn. induction Hc as [o|o ck q rest E Hh Hr Hc IH]; intros pgs' E' Hc' Hn' Hn.
  - inversion Hc' as [|? ck' q' rest' ? Hh' Hr' Hrest']; subst; [done|]. by destruct Hn, Hh'.
  - inversion Hc' as [|? ck' q' rest' ? Hh' Hr' Hrest']; subst; [by destruct Hn', Hh|].
    assert (El : count q = count q') by (destruct Hh as (_ & (_ & <- & _) & _), Hh' as (_ & (_ & <- & _) & _); done).
    assert (q = q') as <- by (eapply records_fun; [done|done|unfold count in El; lia]). f_equal. by apply (IH rest' E').
Qed.

(** The disk as the process sees it is one that may be left. *)
Definition real (s : disk) : Prop := poss (dbf s) (cur (dbf s)) /\ poss (jrn s) (cur (jrn s)).

Definition good (s : disk) : Prop := sound s /\ real s.

Lemma good_cur s : good s -> exists D, cur (dbf s) = Some D /\ restorable D (cur (jrn s)).
Proof. intros [Hs [H1 H2]]. by apply (Hs (cur (dbf s)) (cur (jrn s))); apply survives_cur. Qed.

(** A settled journal. *)
Definition settled (f : vfile) (c : bytes) : Prop := cur f = Some c /\ forall x, poss f x <-> x = Some c.

Lemma settled_survives f c x : settled f c -> survives szS f x -> x = Some c.
Proof. intros [_ H] Hx. apply survives_settled with (y := Some c) in Hx; [done|geo; lia|]. intros z. by apply H. Qed.

Lemma good_settled s c :
  good s -> settled (jrn s) c -> (pristine s /\ ~ magic_at c 0) \/ exists pgs, hot c pgs /\ safe pgs s.
Proof.
  intros [Hs [Hr1 Hr2]] [Hc Hall]. assert (Hj : survives szS (jrn s) (Some c)) by (apply (mixed_self szS (fun v => poss (jrn s) (Some v))); by apply Hall).
  assert (Hx : forall x, poss (dbf s) x -> exists D, x = Some D /\ restorable D (Some c)).
  { intros x Hx. apply (Hs x (Some c)); [|done]. destruct x as [D|]; [|done]. by apply (mixed_self szS (fun v => poss (dbf s) (Some v))). }
  destruct (Hx _ Hr1) as (D0 & ED0 & [[_ Hn]|(c' & pgs & [= <-] & Hh & Hk)]).
  - left. split; [|done]. split; [|done]. intros x Hpx. destruct (Hx x Hpx) as (D & -> & [[-> _]|(c' & pgs & [= <-] & Hh & _)]); [done|]. by apply hot_magic in Hh.
  - right. exists pgs. split; [done|]. split; [|done]. intros x Hpx. destruct (Hx x Hpx) as (D & -> & [[_ Hn]|(c' & pgs' & [= <-] & Hh' & Hk')]).
    + by apply hot_magic in Hh.
    + exists D. split; [done|]. by rewrite (hot_unique c pgs pgs').
Qed.

Section hot.
Context (p : Pager) (c : bytes) (s : disk) (Q : Z * Pager -> disk -> Prop).
Hypothesis Hconf : conf p.
Hypothesis Hj : jfd p = true.
Hypothesis Hst : eState p = PAGER_OPEN.
Hypothesis Hlk : eLock p = EXCLUSIVE_LOCK.
Hypothesis Hset : settled (jrn s) c.
Hypothesis Hgood : good s.
Hypothesis HOK : forall p' s', releasable p' -> errCode p' = errCode p -> good s' -> pristine s' -> no_magic (cur (jrn s')) -> Q (SQLITE_OK, p') s'.
Hypothesis Herr : forall rc p' s', is_error rc -> releasable p' -> good s' -> Q (rc, p') s'.

Lemma hot_harmless j : survives szS (jrn s) j -> no_magic j \/ is_hot j.
Proof. intros Hs. apply (sound_harmless s); [apply Hgood| |done]. exists (cur (dbf s)). apply survives_cur, Hgood. Qed.

(** What the finalization of the journal leaves. *)
Lemma hot_weaker s' : pristine s' -> weaker (jrn s) (jrn s') -> poss (jrn s') (cur (jrn s')) -> good s'.
Proof. intros Hp Hw Hc. split; [apply (sound_weaker s); [done|apply hot_harmless|done]|]. split; [apply Hp|done]. Qed.

(** The database is restored; what is left is to finalize the journal. *)
Lemma wpc_hot_end p' s' :
  jrn s' = jrn s -> good s' -> cur (dbf s') = Some orig ->
  core (set_dbSize p' nOrig) = core (set_dbSize p nOrig) -> journalOff p' <> 0 \/ ~ magic_at c 0 -> (magic_at c 0 -> szH <= lenz c) ->
  wp (end_playback g p' szP true SQLITE_OK) Q good s'.
Proof.
  intros Hj' Hg HD Hcore Ho Hl. pose proof Hset as [Hc Hall]. unfold core in Hcore. cbn in Hcore. injection Hcore as P1 P2 P3 P4 P5 P6 P7 P8. pose proof Hconf as Hconf'. unfold conf in Hconf'.
  assert (Hw : writing p' = true) by (unfold writing; by rewrite P4, Hst). apply (wpc_end_playback p' c); rewrite ?Hj'.
  - unfold conf. by rewrite P1, P2.
  - by rewrite P6.
  - right. by rewrite P4, P5.
  - by rewrite P5, Hlk.
  - split; [done|]. split; [by apply Hall|]. destruct (decide (slice c 0 8 = aJournalMagic)) as [Hm|Hm]; [left; geo; specialize (Hl Hm); lia|right].
    intros v Hv. apply Hall in Hv. injection Hv as ->. done.
  - done.
  - done.
  - by rewrite Hw.
  - done.
  - exact hot_weaker.
  - intros p2 s2 (X1 & X2 & _) Hp2 Hw2 Hc2 Hn2. apply HOK; [done|congruence|by apply hot_weaker|done|done].
  - intros rc p2 s2 Hr Hp2 Hs2. by apply Herr.
Qed.

Lemma wpc_hot_loop p0 : journalHdr p = lenz c -> p0 = set_journalOff p 0 ->
  wp ('(rc, p) ← pager_playback_loop g (Z.to_nat (lenz c) + 2) p0 true (lenz c) true; end_playback g p szP true rc) Q good s.
Proof.
  intros Hhdr ->. pose proof Hset as [Hc Hall]. pose proof (lenz_nonneg c) as Hlc. wp_bind.
  assert (Hpl : playing p) by (right; by split). assert (Hw : writing p = true) by (unfold writing; by rewrite Hst).
  assert (Hrel : releasable p) by (split; [done|by rewrite Hlk]).
  assert (Hfail : forall rc p' s', is_error rc -> releasable p' -> good s' -> wp (end_playback g p' szP true rc) Q good s').
  { intros rc p' s' Hr Hp' Hs'. apply wpc_end_playback_error; [done|done|done|]. intros p2 Hp2. by apply Herr. }
  destruct (good_settled s c Hgood Hset) as [[Hp Hn]|(pgs & Hh & Hs)].
  - rewrite Nat.add_comm. cbn [Nat.add pager_playback_loop]. wp_bind. apply (wpc_readJournalHdr (set_journalOff p 0) true c); [done|done|done|done|done|intros _ Hm _; destruct Hn; apply Hm; by left|..].
    + intros _. cbn [journalOff set_journalOff]. change (align 0) with 0. change (SQLITE_DONE =? SQLITE_OK) with false. cbn [negb]. rewrite Z.eqb_refl. apply wpc_ret; [done|].
      apply wpc_hot_end; [done|done|by apply pristine_cur|done|by right|done].
    + intros rc p' Hr Hp'. code. apply wpc_ret; [done|]. apply Hfail; [done|destruct Hp' as [->|[? ->]]; done|done].
    + intros _ Hm. destruct Hn. apply Hm. by left.
  - assert (HCs : forall s', jrn s' = jrn s -> safe pgs s' -> good s').
    { intros s' E Hs'. split; [apply (safe_sound pgs); [done|]|split; [apply Hs'|rewrite E; apply Hgood]]. rewrite E. intros j Hj'. exists c, pgs. split; [by apply (settled_survives (jrn s))|done]. }
    pose proof Hh as (E & HE & Hchain & Hstop). destruct (safe_cur pgs s Hs) as (D & HD & Hk).
    apply (wpc_playback_chain g Hsync c pgs good (jrn s) Hc HCs true _ _ _ 0 pgs E D); try done; [by intros _|cbn; rewrite Hhdr; by apply (chain_len c pgs)|by apply (chain_len c pgs)|lia|..].
    + intros fuel p1 nr D1 s1 Hj1 Hs1 [R1 R2] Hdb Hf HD1 HlD1 Hk1. destruct fuel as [|fuel]; [pose proof (chain_len c pgs E Hchain HE); lia|]. cbn [pager_playback_loop]. wp_bind.
      pose proof R1 as X. unfold core in X. cbn in X. injection X as P1 P2 P3 P4 P5 P6 P7 P8. pose proof Hconf as Hconf'. unfold conf in Hconf'.
      assert (Hg1 : good s1) by by apply HCs. assert (Hc1 : conf p1) by (unfold conf; by rewrite P1, P2). pose proof (align_bounds E) as Hal. pose proof (hot_len c pgs Hh) as Hlen.
      apply (wpc_readJournalHdr p1 true c); rewrite ?R2; [done|by rewrite P6|lia|done|by rewrite Hj1|lia|..].
      * intros _. change (SQLITE_DONE =? SQLITE_OK) with false. cbn [negb]. rewrite Z.eqb_refl. apply wpc_ret; [done|].
        apply wpc_hot_end; [done|done| |exact R1|cbn; left; lia|done]. rewrite HD1. f_equal. by apply kept_nil.
      * intros rc p' Hr Hp'. code. apply wpc_ret; [done|]. apply Hfail; [done| |done]. assert (Hrel1 : releasable p1) by (split; [done|by rewrite P5, Hlk]). by destruct Hp' as [->|[? ->]].
      * intros _ Hm. destruct Hstop. apply Hm. by left.
    + intros rc p' s' Hr Hj' Hs' [R1 R2]. apply Hfail; [done| |by apply HCs]. unfold core in R1. cbn in R1. injection R1 as P1 P2 P3 P4 P5 P6 P7 P8.
      unfold releasable, conf. rewrite P1, P2, P5. apply Hrel.
Qed.

(** Recovery from a hot journal that is on disk. *)
Lemma wpc_playback_hot : journalHdr p = lenz c -> wp (pager_playback g p true) Q good s.
Proof.
  intros Hhdr. pose proof Hset as [Hc Hall]. unfold pager_playback. wp_bind. apply wpc_assert; [done|done|]. rewrite (proj1 Hconf).
  assert (Hrel : releasable p) by (split; [done|by rewrite Hlk]). assert (Hfail : forall rc res, is_error rc -> wp (end_playback g p szP res rc) Q good s).
  { intros rc res Hr. apply wpc_end_playback_error; [done|done|done|]. intros p2 Hp2. by apply Herr. }
  wp_bind. apply (wpc_size _ _ c); [done|done| |intros rc n He; code; by apply Hfail]. cbn [negb Z.eqb SQLITE_OK].
  wp_bind. apply (wpc_readMasterJournal _ c); [done|done|]. intros rc z Hr. wp_bind.
  assert (Hgo : forall rc res, (rc = SQLITE_OK /\ res = true) \/ is_error rc ->
    wp (if negb (rc =? SQLITE_OK) || negb res then end_playback g p szP res rc else
        let p := set_journalOff p 0 in
        '(rc, p) ← pager_playback_loop g (Z.to_nat (lenz c) + 2) p true (lenz c) true; end_playback g p szP true rc) Q good s).
  { intros rc' res [[-> ->]|Hr']; [|code; by apply Hfail]. by apply wpc_hot_loop. }
  destruct Hr as [->|Hr]; [|code; apply wpc_ret; [done|]; apply Hgo; by right]. cbn [Z.eqb SQLITE_OK andb].
  destruct (named z); [|apply wpc_ret; [done|]; apply Hgo; by left]. apply wpc_quiet; [done|done|]. intros [rc b] [_ Hx]. by apply Hgo.
Qed.

End hot.

(** ** Opening a database *)

Lemma good_settle s : is_Some (cur (jrn s)) -> good s -> good (settle s Jrnl).
Proof.
  intros [c Hc] [Hs [H1 H2]]. split; [|by split]. intros x j Hx Hj. apply (Hs x j Hx).
  apply survives_settled with (y := cur (jrn s)) in Hj as ->; [by apply survives_cur|geo; lia|done].
Qed.

Lemma good_cold s : good s -> no_magic (cur (jrn s)) -> cur (dbf s) = Some orig.
Proof.
  intros Hg Hn. destruct (good_cur s Hg) as (D & -> & [[-> _]|(c & pgs & E & Hh & _)]); [done|]. rewrite E in Hn. by apply hot_magic in Hh.
Qed.

(** The pager of a process that opens the database. *)
Definition opening (p : Pager) : Prop :=
  conf p /\ eState p = PAGER_OPEN /\ errCode p = SQLITE_OK /\ eLock p = NO_LOCK /\ jfd p = false.

(** The pager after the pages of the file were counted. *)
Definition counted (p p0 : Pager) : Prop := p0 = p \/ exists v, p0 = set_mxPgno p v.

Lemma counted_same p p0 :
  counted p p0 -> (conf p -> conf p0) /\ eState p0 = eState p /\ errCode p0 = errCode p /\ eLock p0 = eLock p /\ jfd p0 = jfd p.
Proof. by intros [->|[v ->]]. Qed.

(** Whether a journal is hot. *)
Lemma wpc_hasHotJournal p s (Q : Z * bool * Pager -> disk -> Prop) :
  conf p -> eState p = PAGER_OPEN -> jfd p = false -> NO_LOCK <= eLock p -> good s -> (nOrig = 0 -> exists D, settled (dbf s) D) ->
  (forall rc b p0 p', rc = SQLITE_OK \/ is_error rc -> counted p p0 -> p' = p0 \/ (exists lk, NO_LOCK <= lk /\ p' = set_eLock p0 lk /\ b = false) -> forall s', good s' ->
     (rc = SQLITE_OK -> if b then s' = s else cur (dbf s') = Some orig) -> Q (rc, b, p') s') ->
  wp (hasHotJournal g p) Q good s.
Proof.
  intros Hconf Hst Hj Hlk Hg H0 HQ. unfold hasHotJournal. geo.
  assert (Herr : forall rc X, is_error rc -> wp (if negb (rc =? SQLITE_OK) then Ret (rc, false, p) else X) Q good s).
  { intros rc X Hr. code. apply wpc_ret; [done|]. apply (HQ _ _ p); [by right|by left|by left|done|]. intros ->. by destruct Hr as [? _]. }
  assert (Hcold : forall p0, counted p p0 -> no_magic (cur (jrn s)) -> wp (Ret (SQLITE_OK, false, p0)) Q good s).
  { intros p0 Hp0 Hn. apply wpc_ret; [done|]. apply (HQ _ _ p0); [by left|done|by left|done|]. intros _. by apply good_cold. }
  wp_bind. apply wpc_assert; [by rewrite Hst, Hj|done|]. wp_bind. apply wpc_quiet; [done|done|]. intros [rc b] [_ Hx].
  destruct Hx as [[-> ->]|Hr]; [|rewrite error_not_ok by done; apply wpc_ret; [done|]; apply (HQ _ _ p); [by right|by left|by left|done|intros ->; by destruct Hr as [? _]]].
  destruct (cur (jrn s)) as [c|] eqn:Ec; [rewrite bool_decide_eq_true_2 by done|rewrite bool_decide_eq_false_2 by (by intros [? ?]); cbn [negb orb Z.eqb SQLITE_OK]; by apply Hcold; [left|]].
  cbn [negb orb Z.eqb SQLITE_OK]. wp_bind. apply wpc_quiet; [done|done|]. intros [rc b] [_ Hx].
  destruct Hx as [[-> ->]|Hr]; [|rewrite error_not_ok by done; apply wpc_ret; [done|]; apply (HQ _ _ p); [by right|by left|by left|done|intros ->; by destruct Hr as [? _]]].
  cbn [negb orb Z.eqb SQLITE_OK]. destruct (good_cur s Hg) as (D & HD & HR). wp_bind. unfold pagerPagecount. wp_bind.
  apply (wpc_size _ _ D); [done|done| |intros rc n Hr; code; apply wpc_ret; [done|]; by apply Herr]. cbn [negb Z.eqb SQLITE_OK]. apply wpc_ret; [done|]. cbn [negb Z.eqb SQLITE_OK]. rewrite (proj1 Hconf).
  set (p0 := if mxPgno p <? _ then _ else p). assert (Hp0 : counted p p0) by (unfold p0; case_match; [right; by eexists|by left]). clearbody p0.
  destruct (counted_same p p0 Hp0) as (_ & _ & _ & El0 & _).
  pose proof (lenz_nonneg D) as HlD. destruct (Z.eqb_spec ((lenz D + szP - 1) / szP) 0) as [En|En].
  - assert (El : lenz D = 0) by (destruct (div_bounds (lenz D + szP - 1) szP); [lia|]; rewrite En in *; lia).
    assert (HN : nOrig = 0) by (destruct HR as [[-> _]|(c' & pgs & _ & _ & [Hk _])]; nia).
    assert (ED : D = orig) by (apply get_ext; intros i Hi; rewrite !get_None by (rewrite ?geo_orig; lia); done). subst D.
    assert (Hpr : pristine s). { destruct (H0 HN) as (D & H1 & H2). rewrite HD in H1. injection H1 as <-. split; [apply H2|]. rewrite HD. by apply H2. }
    wp_bind. apply lock_result; [done| |].
    + intros p1 Hp1 Hl1 _. cbn [Z.eqb SQLITE_OK]. wp_bind.
      assert (Hdel : forall s', finalizing s s' -> good s' /\ cur (dbf s') = Some orig).
      { intros s' (F1 & F2 & F3). unfold good, real. rewrite F1. split; [|done]. split; [apply (sound_weaker s); [by unfold pristine; rewrite F1| |done]|by split; [apply Hg|]].
        intros j Hsj. apply (sound_harmless s); [apply Hg| |done]. exists (cur (dbf s)). apply survives_cur, Hg. }
      assert (Hrest : forall s', finalizing s s' ->
        wp ('(_, p) ← (if exclusiveMode g then Ret (SQLITE_OK, p1) else pagerUnlockDb g p1 SHARED_LOCK); Ret (SQLITE_OK, false, p)) Q good s').
      { intros s' Hf. destruct (Hdel s' Hf) as [Hg' HD']. wp_bind.
        assert (Hret : forall p2, p2 = p1 \/ p2 = set_eLock p1 SHARED_LOCK -> wp (Ret (SQLITE_OK, false, p2)) Q good s').
        { intros p2 Hp2. apply wpc_ret; [done|]. apply (HQ _ _ p0); [by left|done| |done|by intros _].
          destruct Hp1 as [->| ->], Hp2 as [->| ->]; [by left|right; by exists SHARED_LOCK|right; by exists RESERVED_LOCK|right; by exists SHARED_LOCK]. }
        destruct (exclusiveMode g) eqn:Ex; [apply wpc_ret; [done|]; apply Hret; by left|]. apply wpc_unlock; [done|done| |intros rc p2 _ Hp2; by apply Hret].
        unfold UNKNOWN_LOCK, EXCLUSIVE_LOCK, RESERVED_LOCK, SHARED_LOCK in *. lia. }
      assert (Hps : poss (jrn s) (cur (jrn s))) by apply Hg.
      apply wpc_call; [done|done|]. intros rc s' [[-> ->]|[Hr Hs]].
      * assert (Hf : finalizing s (update s Jrnl None (fun _ => False))) by by apply (finalizing_delete s false). split; [by apply Hdel|by apply Hrest].
      * assert (Hf : finalizing s s') by (destruct Hs as [->| ->]; [by apply finalizing_refl|by apply (finalizing_delete s false)]). split; [by apply Hdel|by apply Hrest].
    + intros rc Hr. code. apply wpc_ret; [done|]. apply (HQ _ _ p0); [by left|done|by left|done|by intros _].
  - wp_bind. apply wpc_call; [done|done|]. intros rc s' [[-> ->]|[Hr ->]]; rewrite ?Ec; (split; [done|]).
    + cbn [Z.eqb SQLITE_OK]. wp_bind. apply (wpc_read _ _ _ _ c); [done|done|done|done|..].
      * intros Hl. cbn [Z.eqb SQLITE_OK]. destruct (bool_decide_reflect (slice c 0 1 = [0])) as [Hz|Hz]; cbn [negb].
        -- change (SQLITE_OK =? SQLITE_IOERR_SHORT_READ) with false. apply Hcold; [done|]. intros Hm. apply magic_first in Hm; [|done].
           assert (Eg : get (slice c 0 1) 0 = Some 0) by by rewrite Hz. rewrite get_slice in Eg by lia. change (0 + 0) with 0 in Eg. cbn [Z.ltb Z.compare] in Eg. congruence.
        -- apply wpc_ret; [done|]. apply (HQ _ _ p0); [by left|done|by left|done|by intros _].
      * intros Hl. rewrite Z.eqb_refl. replace (read_at c 0 1) with [0]; [rewrite bool_decide_eq_true_2 by done; apply Hcold; [done|]; intros Hm; apply magic_len in Hm; lia|].
        assert (c = []) as -> by (destruct c; [done|unfold lenz in Hl; cbn in Hl; lia]). done.
      * intros rc d Hr _. code. apply wpc_ret; [done|]. apply (HQ _ _ p0); [by right|done|by left|done|]. intros ->. by destruct Hr as [? _].
    + code. destruct (rc =? SQLITE_CANTOPEN); apply wpc_ret; try done; apply (HQ _ _ p0); try done; [by left|by left|by right|by left|]. intros ->. by destruct Hr as [? _].
Qed.

(** The disk after a loss of power and a restart. *)
Definition restarted (x j : option bytes) : disk := mkDisk (mkFile x (fun y => y = x)) (mkFile j (fun y => y = j)).

Lemma survives_restarted x y : survives szS (mkFile x (fun z => z = x)) y -> y = x.
Proof. apply survives_settled; [geo; lia|done]. Qed.

Lemma good_restarted s x j : sound s -> survives szS (dbf s) x -> survives szS (jrn s) j -> good (restarted x j).
Proof. intros Hs Hx Hj. split; [|done]. intros x' j' ->%survives_restarted ->%survives_restarted. by apply Hs. Qed.

(** Unlocking after an error. *)
Lemma wpc_pager_unlock p s (Q : Pager -> disk -> Prop) :
  releasable p -> eState p = PAGER_OPEN \/ eState p = PAGER_READER \/ (eState p = PAGER_ERROR /\ errCode p <> SQLITE_OK) -> good s -> (forall p', Q p' s) -> wp (pager_unlock g p) Q good s.
Proof.
  intros [Hp Hl] Hst Hg HQ. unfold pager_unlock. wp_bind. apply wpc_assert; [by destruct Hst as [->|[->|[-> _]]]|done|]. wp_bind.
  destruct (exclusiveMode g) eqn:Ex; [apply wpc_ret; [done|]; apply wpc_ret; [done|]; apply HQ|].
  set (p1 := if _ || _ then _ else _). assert (E : errCode p1 = errCode p /\ eLock p1 = eLock p /\ eState p1 = eState p) by (unfold p1; by destruct (_ || _)).
  clearbody p1. destruct E as (E1 & E2 & E3). wp_bind. apply wpc_unlock; [done|done|by rewrite E2|]. intros rc p2 Hr Hp2.
  assert (E : errCode p2 = errCode p /\ eState p2 = eState p) by by destruct Hp2 as [->| ->]. destruct E as (F1 & F2). cbv zeta. wp_bind.
  apply wpc_assert; [|done|].
  - destruct (negb (rc =? SQLITE_OK) && _); cbn; rewrite F1, F2; destruct Hst as [->|[->|[-> Hn]]]; cbn; try by rewrite orb_true_r.
    all: apply Z.eqb_neq in Hn; by rewrite Hn.
  - apply wpc_ret; [done|]. apply wpc_ret; [done|]. apply HQ.
Qed.



Definition unlockable (p : Pager) : Prop :=
  releasable p /\ (eState p = PAGER_OPEN \/ eState p = PAGER_READER \/ (eState p = PAGER_ERROR /\ errCode p <> SQLITE_OK)).

Lemma unlockable_error p rc : is_error rc -> releasable p -> eState p = PAGER_OPEN -> (pager_error p rc).1 = rc /\ unlockable (pager_error p rc).2.
Proof.
  intros Hr [Hp Hl] Hst. unfold pager_error. split; [done|]. cbn [snd]. case_match; [|split; [done|by left]]. split; [done|]. right. right. split; [done|].
  intros E. cbn in E. by destruct Hr.
Qed.

(** The part of [sqlite3PagerSharedLock] under the exclusive lock. *)
Lemma wpc_playback_opened p c s (Q : Z * Pager -> disk -> Prop) :
  conf p -> eState p = PAGER_OPEN -> errCode p = SQLITE_OK -> eLock p = EXCLUSIVE_LOCK -> jfd p = true -> good s -> cur (jrn s) = Some c ->
  (forall rc p' s', rc = SQLITE_OK \/ is_error rc -> unlockable p' -> eState p' = PAGER_OPEN -> good s' -> (rc = SQLITE_OK -> cur (dbf s') = Some orig) -> Q (rc, p') s') ->
  wp (andthen (pagerSyncHotJournal g p) (fun p => '(rc, p) ← pager_playback g p true; Ret (rc, set_eState p PAGER_OPEN))) Q good s.
Proof.
  intros Hconf Hst Hec Hlk Hj Hg Hc HQ. apply wpc_andthen. unfold pagerSyncHotJournal. wp_bind. rewrite Hsync.
  assert (Hrel : unlockable p) by (split; [split; [done|by rewrite Hlk]|by left]). assert (Hg' : good (settle s Jrnl)) by (apply good_settle; [by rewrite Hc|done]).
  assert (Hfail : forall rc s', is_error rc -> good s' -> wp (Ret (rc, p))
    (fun '(rc, p) s' => good s' /\ (rc = SQLITE_OK -> wp ('(rc, p) ← pager_playback g p true; Ret (rc, set_eState p PAGER_OPEN)) Q good s') /\ (rc <> SQLITE_OK -> Q (rc, p) s')) good s').
  { intros rc s' Hr Hs'. apply wpc_ret; [done|]. split; [done|]. split; [by intros ->; destruct Hr|]. intros _. apply HQ; [by right|done|done|done|]. intros ->. by destruct Hr. }
  apply wpc_sync; [done|cbn; by rewrite Hc|split; [done|]|intros rc Hr; apply ioerr_error in Hr; code; by apply Hfail]. cbn [negb Z.eqb SQLITE_OK]. wp_bind.
  apply (wpc_size _ _ c); [done|done| |intros rc n Hr; code; by apply Hfail].
  rewrite Z.eqb_refl. apply wpc_ret; [done|]. split; [done|]. split; [intros _|done]. wp_bind.
  apply (wpc_playback_hot (set_journalHdr p (lenz c)) c); [done|done|done|done| |done|..|done].
  - split; [done|]. intros y. cbn. by rewrite Hc.
  - intros p' s' [Hc' Hl'] He' Hg2 Hp2 _. apply wpc_ret; [done|]. apply HQ; [by left|split; [done|by left]|done|done|]. intros _. by apply pristine_cur.
  - intros rc p' s' Hr [Hc' Hl'] Hg2. apply wpc_ret; [done|]. apply HQ; [by right|split; [done|by left]|done|done|]. intros ->. by destruct Hr.
Qed.


(** The part of [sqlite3PagerSharedLock] under the shared lock. *)
Lemma wpc_hot_open p s (Q : Z * Pager -> disk -> Prop) :
  conf p -> eState p = PAGER_OPEN -> errCode p = SQLITE_OK -> eLock p = EXCLUSIVE_LOCK -> jfd p = false -> good s ->
  (forall rc p' s', rc = SQLITE_OK \/ is_error rc -> unlockable p' -> good s' -> (rc = SQLITE_OK -> cur (dbf s') = Some orig) -> Q (rc, p') s') ->
  wp ('(rc, p) ← (if jfd p then Ret (SQLITE_OK, p) else
                    '(rc, bExists) ← call Exists;
                    if (rc =? SQLITE_OK) && bExists then rc ← call Open; Ret (rc, if rc =? SQLITE_OK then set_jfd p true else p)
                    else Ret (rc, p));
      '(rc, p) ← (if jfd p then
                    andthen (pagerSyncHotJournal g p) (fun p => '(rc, p) ← pager_playback g p true; Ret (rc, set_eState p PAGER_OPEN))
                  else if exclusiveMode g then Ret (rc, p) else
                    '(_, p) ← pagerUnlockDb g p SHARED_LOCK; Ret (rc, p));
      Ret (if rc =? SQLITE_OK then (rc, p) else pager_error p rc)) Q good s.
Proof.
  intros Hconf Hst Hec Hlk Hj Hg HQ. rewrite Hj.
  assert (Hend : forall rc p' s', rc = SQLITE_OK \/ is_error rc -> unlockable p' -> eState p' = PAGER_OPEN -> good s' -> (rc = SQLITE_OK -> cur (dbf s') = Some orig) ->
    wp (Ret (if rc =? SQLITE_OK then (rc, p') else pager_error p' rc)) Q good s').
  { intros rc p' s' Hr Hu Hs' Hg' HD. apply wpc_ret; [done|]. destruct Hr as [->|Hr]; [apply HQ; auto|]. code.
    destruct (unlockable_error p' rc Hr) as [E1 E2]; [apply Hu|done|]. rewrite (surjective_pairing (pager_error p' rc)), E1. apply HQ; auto. }
  assert (Hrel : forall b, unlockable (set_jfd p b)) by (intros b; split; [split; [done|cbn; by rewrite Hlk]|by left]).
  assert (Hshut : forall rc, rc = SQLITE_OK \/ is_error rc -> (rc = SQLITE_OK -> cur (dbf s) = Some orig) ->
    wp ('(rc, p) ← (if exclusiveMode g then Ret (rc, p) else '(_, p) ← pagerUnlockDb g p SHARED_LOCK; Ret (rc, p)); Ret (if rc =? SQLITE_OK then (rc, p) else pager_error p rc)) Q good s).
  { intros rc Hr HD. assert (Hu : unlockable p) by (split; [split; [done|by rewrite Hlk]|by left]). wp_bind. destruct (exclusiveMode g) eqn:Ex; [apply wpc_ret; [done|]; by apply Hend|]. wp_bind.
    apply wpc_unlock; [done|done|by rewrite Hlk|]. intros rc2 p2 _ Hp2. apply wpc_ret; [done|]. apply Hend; [done| |by destruct Hp2 as [->| ->]|done|done].
    destruct Hp2 as [->| ->]; [done|]. split; [split; [done|done]|by left]. }
  wp_bind. wp_bind. apply wpc_quiet; [done|done|]. intros [rc b] [_ [[-> ->]|Hr]]; [|code; apply wpc_ret; [done|]; rewrite Hj; apply Hshut; [by right|intros ->; by destruct Hr]].
  rewrite Z.eqb_refl. cbn [andb]. destruct (cur (jrn s)) as [c|] eqn:Ec; [rewrite bool_decide_eq_true_2 by done|rewrite bool_decide_eq_false_2 by (by intros [? ?])]; cycle 1.
  { apply wpc_ret; [done|]. rewrite Hj. apply Hshut; [by left|]. intros _. apply good_cold; [done|]. by rewrite Ec. }
  wp_bind. apply wpc_call; [done|done|]. intros rc s' [[-> ->]|[Hr ->]]; rewrite ?Ec; (split; [done|]).
  - rewrite Z.eqb_refl. apply wpc_ret; [done|]. change (jfd (set_jfd p true)) with true. cbv iota. wp_bind.
    apply (wpc_playback_opened (set_jfd p true) c); [done..|]. intros rc p' s' Hr Hu Hs' Hg' HD. by apply Hend.
  - code. apply wpc_ret; [done|]. rewrite Hj. apply Hshut; [by right|]. intros ->. by destruct Hr.
Qed.

Lemma wpc_recovery p s x j :
  opening p -> sound s -> survives szS (dbf s) x -> survives szS (jrn s) j ->
  wp (sqlite3PagerSharedLock_hot g p) (fun '(rc, _) s' => good s' /\ (rc = SQLITE_OK -> cur (dbf s') = Some orig)) sound (restarted x j).
Proof.
  intros (Hconf & Hst & Herc & Hlk & Hjf) Hs Hx Hj. pose proof (good_restarted s x j Hs Hx Hj) as Hg.
  apply (wpc_mono szS _ (fun '(rc, _) s' => good s' /\ (rc = SQLITE_OK -> cur (dbf s') = Some orig)) _ good _ _ (fun a s' H => H) (fun s' H => proj1 H)).
  assert (H0 : nOrig = 0 -> exists D, settled (dbf (restarted x j)) D) by (intros _; destruct (good_cur _ Hg) as (D & HD & _); cbn in HD; subst x; by exists D).
  revert Hg H0. generalize (restarted x j). clear s x j Hs Hx Hj. intros s Hg H0. unfold sqlite3PagerSharedLock_hot.
  wp_bind. apply wpc_assert; [by rewrite Hst, Herc|done|]. rewrite Hst. cbn [Z.eqb PAGER_OPEN negb Pos.eqb]. wp_bind.
  assert (Hend : forall rc p' s', rc = SQLITE_OK \/ is_error rc -> unlockable p' -> good s' -> (rc = SQLITE_OK -> cur (dbf s') = Some orig) ->
    wp (if rc =? SQLITE_OK then Ret (rc, p') else p ← pager_unlock g p'; Ret (rc, p)) (fun '(rc, _) s' => good s' /\ (rc = SQLITE_OK -> cur (dbf s') = Some orig)) good s').
  { intros rc p' s' Hr [Hrel Hst'] Hg' HD. destruct Hr as [->|Hr]; [by apply wpc_ret|]. code. wp_bind. apply wpc_pager_unlock; [done..|]. intros p2. by apply wpc_ret. }
  assert (Hok : forall rc : Z, is_error rc -> rc = SQLITE_OK -> cur (dbf s) = Some orig) by (by intros rc [? _] ->).
  apply wpc_andthen. apply lock_result; [done| |].
  - intros p1 Hp1 Hl1 _. split; [done|]. split; [intros _|done].
    assert (E : conf p1 /\ eState p1 = PAGER_OPEN /\ errCode p1 = SQLITE_OK /\ jfd p1 = false /\ eLock p1 = SHARED_LOCK).
    { destruct Hp1 as [->| ->]; [|done]. rewrite Hlk in Hl1. by destruct Hl1 as [?|?]. }
    destruct E as (C1 & C2 & C3 & C4 & C5). wp_bind. rewrite C5. cbn [Z.leb SHARED_LOCK Z.compare].
    apply wpc_hasHotJournal; [done|done|done|by rewrite C5|done|done|]. intros rc b p0 p2 Hr Hp0 Hp2 s2 Hg2 HD.
    destruct (counted_same p1 p0 Hp0) as (B1 & B2 & B3 & B4 & B5). specialize (B1 C1). rewrite C2 in B2. rewrite C3 in B3. rewrite C5 in B4. rewrite C4 in B5.
    assert (U2 : unlockable p2) by (destruct Hp2 as [->|(lk & ? & -> & _)]; [split; [split; [done|by rewrite B4]|by left]|split; [split; [done|done]|by left]]).
    destruct Hr as [->|Hr]; [|code; apply wpc_ret; [done|]; apply Hend; [by right|done|done|intros ->; by destruct Hr]].
    rewrite Z.eqb_refl. cbn [negb orb]. specialize (HD eq_refl). destruct b; cbn [negb]; [|apply wpc_ret; [done|]; by apply Hend; [left|..]].
    subst s2. destruct Hp2 as [->|(lk & ? & ? & ?)]; [|done]. apply wpc_andthen. apply lock_result; [done| |].
    + intros p3 Hp3 Hl3 _. split; [done|]. split; [intros _|done].
      assert (E : conf p3 /\ eState p3 = PAGER_OPEN /\ errCode p3 = SQLITE_OK /\ jfd p3 = false /\ eLock p3 = EXCLUSIVE_LOCK).
      { destruct Hp3 as [->| ->]; [|done]. rewrite B4 in Hl3. by destruct Hl3. }
      destruct E as (D1 & D2 & D3 & D4 & D5). apply wpc_hot_open; [done..|]. intros rc p' s' Hr Hu Hg' HD'. by apply Hend.
    + intros rc Hr. split; [done|]. split; [by intros ->; destruct Hr|]. intros _. apply Hend; [by right|done|done|by apply Hok].
  - intros rc Hr. split; [done|]. split; [by intros ->; destruct Hr|]. intros _. apply Hend; [by right|split; [split; [done|by rewrite Hlk]|by left]|done|by apply Hok].
Qed.


(** C9: [sqlite3PagerSharedLock], called after a loss of power by a process whose pager
    has the page size and the sector size of the writer, with sectors no larger than a
    page, and syncs (synchronous is not OFF), leaves the original database wherever it
    succeeds, from every pair of files from which the transaction can be undone
    ([sound]).  Whenever power is lost again, even in the middle of the playback or of
    the removal of the journal, the files are again such files, so that recovery can be
    interrupted and done again any number of times; and whichever calls on files and
    locks fail, no assert does.  (A pager with larger sectors can take a short hot
    journal for an empty one, see [short_journal_deleted]; and allocations succeed.) *)
Theorem recovery_restores p s x j :
  opening p -> sound s -> survives szS (dbf s) x -> survives szS (jrn s) j ->
  wp (sqlite3PagerSharedLock_hot g p) (fun '(rc, _) s' => good s' /\ (rc = SQLITE_OK -> cur (dbf s') = Some orig)) sound (restarted x j).
Proof. apply wpc_recovery. Qed.

End recovery.
