(* ===== verification/PagerTransaction.v ===== *)
(** The state of a write transaction: its journal, the database as the client sees it, the
    flags of the cache, and these together; how a transaction begins and reads pages. *)
From S2P Require Import Prelude Varint Bitvec BitvecSpec Disk DiskSpec Pager PagerPlayback PagerRecovery.

(** * The journal of a transaction that is under way: what every version of it has, and
    that writing to it behind what is synced keeps that. *)

(** ** Magic numbers and writes *)

Lemma magic_last c o : 0 <= o -> magic_at c o -> get c (o + 7) = Some 0xd7.
Proof. intros Ho H. assert (E : get (slice c o 8) 7 = Some 0xd7) by by rewrite H. by rewrite get_slice in E by lia. Qed.

(** A write behind a magic number. *)
Lemma magic_write_after c off d o : 0 <= o -> o + 8 <= off -> magic_at (write_at c off d) o -> magic_at c o.
Proof.
  intros Ho Hoff Hm. assert (Hl : o + 7 < lenz c).
  { pose proof (magic_last _ _ Ho Hm) as E. rewrite get_write_at in E by lia. rewrite (proj2 (Z.leb_gt off (o + 7))) in E by lia. cbn [andb] in E.
    destruct (Z.ltb_spec (o + 7) (lenz c)); [done|]. by rewrite (proj2 (Z.ltb_lt (o + 7) off)) in E by lia. }
  apply (magic_ext (write_at c off d)); [done| |done]. intros i Hi. apply get_write_out; lia.
Qed.

(** A write over a magic number. *)
Lemma magic_write_first c off d x : 0 <= off -> get d 0 = Some x -> x <> 0xd9 -> ~ magic_at (write_at c off d) off.
Proof.
  intros Ho Hd Hx Hm. apply magic_first in Hm; [|done]. pose proof (get_Some _ _ _ Hd). rewrite get_write_at in Hm by lia.
  rewrite (proj2 (Z.leb_le off off)), (proj2 (Z.ltb_lt off _)), Z.sub_diag in Hm by lia. cbn [andb] in Hm. congruence.
Qed.

Section writer.
Context {G : geometry} (g : config).

Local Abbreviation wp := (wpc szS).

(** ** The versions of the journal *)

(** A version with the synced segments, which end at [E], of [c0], and no header after. *)
Definition pre (c0 : bytes) (E : Z) (v : bytes) : Prop := E <= lenz v /\ (forall i, i < E -> get v i = get c0 i) /\ ~ magic_at v (align E).

Definition saved (cl : list Z) (E : Z) (f : vfile) : Prop :=
  0 <= E /\ exists c0, E <= lenz c0 /\ chain c0 0 cl E /\ forall x, poss f x -> match x with None => E = 0 | Some v => pre c0 E v end.

Lemma pre_chain c0 E v cl : chain c0 0 cl E -> pre c0 E v -> chain v 0 cl E.
Proof. intros Hc (H1 & H2 & _). apply (chain_ext c0); [done|done| |done]. intros i Hi. apply H2. lia. Qed.

Lemma pre_mixed c0 E img : 0 <= E -> mixed szS (pre c0 E) img -> pre c0 E img.
Proof.
  intros HE Hm. assert (HS : 0 < szS) by (geo; lia). assert (Hl : E <= lenz img) by (apply (mixed_len_ge szS (pre c0 E) img); [done|by intros v []]). split; [done|]. split.
  - intros i Hi. destruct (Z.leb_spec 0 i); [|by rewrite !get_None by lia]. apply (mixed_agree szS (pre c0 E) img HS Hm); [|lia]. intros v (_ & Hv & _) _. by apply Hv.
  - intros Hmg. destruct (align_multiple E HE) as (k & Hk & Ek). destruct (mixed_magic szS (pre c0 E) img Hm k (align E)) as (v & (_ & _ & Hn) & Hv); [done|done|geo; lia|done|done].
Qed.

Lemma saved_chain cl E f v : saved cl E f -> poss f (Some v) -> chain v 0 cl E /\ E <= lenz v /\ ~ magic_at v (align E).
Proof. intros (HE & c0 & Hl & Hc & Hall) Hv. specialize (Hall _ Hv). split; [by apply (pre_chain c0)|]. by destruct Hall as (? & _ & ?). Qed.

Lemma saved_survives cl E f x :
  saved cl E f -> survives szS f x -> match x with None => E = 0 | Some v => chain v 0 cl E /\ ~ magic_at v (align E) end.
Proof.
  intros (HE & c0 & Hl & Hc & Hall) Hx. destruct x as [img|]; cbn in Hx; [|by apply (Hall None)].
  assert (Hp : pre c0 E img) by (apply pre_mixed; [done|]; eapply mixed_weaken; [|done]; intros v; apply (Hall (Some v))).
  split; [by apply (pre_chain c0)|apply Hp].
Qed.

Lemma saved_hot cl E f x : saved cl E f -> 0 < E -> survives szS f x -> exists c, x = Some c /\ hot c cl.
Proof. intros Hs HE Hx. pose proof (saved_survives _ _ _ _ Hs Hx) as H. destruct x as [v|]; [|lia]. exists v. split; [done|]. by exists E. Qed.

Lemma saved_cold cl f x : saved cl 0 f -> survives szS f x -> no_magic x.
Proof. intros Hs Hx. pose proof (saved_survives _ _ _ _ Hs Hx) as H. by destruct x as [v|]; [destruct H|]. Qed.

(** The journal [c] of a transaction. *)
Definition journal (cl : list Z) (E : Z) (c : bytes) (s : disk) : Prop := cur (jrn s) = Some c /\ poss (jrn s) (Some c) /\ saved cl E (jrn s).

Definition database (cl : list Z) (E : Z) (s : disk) : Prop := safe cl s /\ (E = 0 -> pristine s).

Lemma database_ext cl E s s' : dbf s' = dbf s -> database cl E s -> database cl E s'.
Proof. unfold database, safe, pristine. by intros ->. Qed.

(** The transaction can be undone. *)
Lemma writer_good cl E c s : journal cl E c s -> database cl E s -> good s.
Proof.
  intros (J1 & J2 & J3) [D1 D2]. assert (Hr : real s) by (split; [apply D1|by rewrite J1]). split; [|done]. pose proof J3 as [HE _]. destruct (Z.eq_dec E 0) as [->|Hne].
  - apply pristine_sound; [by apply D2|]. intros j Hj. left. by apply (saved_cold cl (jrn s)).
  - apply (safe_sound cl); [done|]. intros j Hj. destruct (saved_hot cl E (jrn s) j) as (v & -> & Hh); [done|lia|done|]. by exists v, cl.
Qed.

(** ** Writing to the journal *)

(** What precedes [off] is left alone. *)
Definition keeps (off : Z) (c v : bytes) : Prop := lenz c <= lenz v /\ forall i, i < off -> i < lenz c -> get v i = get c i.

Lemma keeps_refl off c : keeps off c c.
Proof. by split. Qed.

Lemma keeps_le off off' c v : off <= off' -> keeps off' c v -> keeps off c v.
Proof. intros Hle [L H]. split; [done|]. intros i Hi. apply H. lia. Qed.

Lemma keeps_trans off off' c v w : off <= off' -> keeps off c v -> keeps off' v w -> keeps off c w.
Proof. intros Hle [L1 H1] [L2 H2]. split; [lia|]. intros i Hi Hl. rewrite H2 by lia. by apply H1. Qed.

Lemma keeps_write c off d : 0 <= off -> 0 < lenz d -> keeps off c (write_at c off d).
Proof. intros Ho Hd. split; [rewrite lenz_write_at by lia; lia|]. intros i Hi Hl. apply get_write_out; [lia|lia|by left]. Qed.

Lemma keeps_versions c off d v : 0 <= off -> 0 < lenz d -> write_versions c off d v -> keeps off c v.
Proof. intros Ho Hd [->|(H1 & H2 & _)]; [by apply keeps_write|]. split; [lia|]. intros i _ Hl. by apply H2. Qed.

Lemma keeps_mixed c off d v : 0 <= off -> 0 < lenz d -> mixed szS (fun v => v = c \/ write_versions c off d v) v -> keeps off c v.
Proof.
  intros Ho Hd Hm. assert (HS : 0 < szS) by (geo; lia). assert (Hv : forall v, v = c \/ write_versions c off d v -> keeps off c v) by (intros w [->|Hw]; [apply keeps_refl|by apply (keeps_versions _ _ d)]).
  assert (Hl : lenz c <= lenz v) by (eapply mixed_len_ge; [done|]; intros w Hw; by apply Hv). split; [done|]. intros i Hi Hlc. destruct (Z.leb_spec 0 i); [|by rewrite !get_None by lia].
  eapply (mixed_agree szS _ v HS Hm); [|lia]. intros w Hw _. by apply Hv.
Qed.

Lemma saved_write cl E c off d s v :
  journal cl E c s -> E <= off -> 0 < lenz d -> ~ magic_at (write_at c off d) (align E) ->
  mixed szS (fun v => v = c \/ write_versions c off d v) v -> journal cl E v (update s Jrnl (Some v) (lift (write_versions c off d))).
Proof.
  intros (J1 & J2 & HE & c0 & Hl & Hc & Hall) Ho Hd Hm Hv. pose proof (Hall _ J2) as Hpc. pose proof Hpc as (P1 & P2 & P3). pose proof (align_bounds E HE) as Ha. assert (Ha0 : 0 <= align E) by lia.
  assert (Hver : forall w, write_versions c off d w -> pre c0 E w).
  { intros w Hw. destruct (keeps_versions c off d w) as [K1 K2]; [lia|done|done|]. split; [lia|]. split; [intros i Hi; rewrite K2 by lia; by apply P2|].
    destruct Hw as [->|Hg]; [done|]. intros Hmw. destruct (grown_magic _ _ _ (align E) Ha0 Hg Hmw); done. }
  assert (Hpv : pre c0 E v) by (apply pre_mixed; [done|]; eapply mixed_weaken; [|done]; intros w [->|Hw]; [done|by apply Hver]).
  split; [done|]. split; [by right; left|]. split; [done|]. exists c0. split; [done|]. split; [done|]. intros x [Hx|[->|Hx]]; [by apply Hall|done|]. destruct x as [w|]; [by apply Hver|done].
Qed.

Lemma journal_settle cl E c s : journal cl E c s -> journal cl E c (settle s Jrnl).
Proof.
  intros (J1 & J2 & HE & c0 & Hl & Hc & Hall). split; [done|]. split; [by cbn|]. split; [done|]. exists c0. split; [done|]. split; [done|].
  intros x Hx. cbn in Hx. subst x. apply Hall. by rewrite J1.
Qed.

Lemma wpc_jwrite cl E c off d s (Q : Z -> disk -> Prop) :
  journal cl E c s -> database cl E s -> E <= off -> 0 < lenz d -> ~ magic_at (write_at c off d) (align E) ->
  (forall s', dbf s' = dbf s -> journal cl E (write_at c off d) s' -> Q SQLITE_OK s') ->
  (forall rc v s', is_ioerr rc -> dbf s' = dbf s -> journal cl E v s' -> keeps off c v -> Q rc s') -> wp (call (Write Jrnl off d)) Q good s.
Proof.
  intros HJ HD Ho Hd Hm HOK Herr. pose proof HJ as (J1 & _ & HE & _).
  assert (Hg : forall v, mixed szS (fun v => v = c \/ write_versions c off d v) v -> let s' := update s Jrnl (Some v) (lift (write_versions c off d)) in journal cl E v s' /\ good s').
  { intros v Hv. assert (HJ' := saved_write cl E c off d s v HJ Ho Hd Hm Hv). split; [done|]. by apply (writer_good cl E v). }
  apply (wpc_write _ _ _ _ c); [by apply (writer_good cl E c)|done|..].
  - destruct (Hg (write_at c off d)) as [G1 G2]; [apply mixed_self; right; by left|]. split; [done|]. by apply HOK.
  - intros rc v Hr Hv. destruct (Hg v Hv) as [G1 G2]. split; [done|]. apply (Herr rc v); [done|done|done|]. apply (keeps_mixed c off d); [lia|done|done].
Qed.

End writer.

(** * The page cache and the database of a transaction as one image: the database as the
    client sees it, of which each page is in the cache or in the file. *)

(** ** Reads *)

Lemma lenz_read_at c off n : 0 <= n -> lenz (read_at c off n) = n.
Proof.
  intros Hn. unfold read_at, slice. rewrite lenz_app, lenz_zeros, lenz_take. pose proof (lenz_nonneg (drop (Z.to_nat off) c)). lia.
Qed.

Lemma get_read_at c off n i :
  0 <= off -> 0 <= n -> 0 <= i -> get (read_at c off n) i = if i <? n then (if off + i <? lenz c then get c (off + i) else Some 0) else None.
Proof.
  intros Ho Hn Hi. destruct (Z.ltb_spec i n); [|apply get_None; rewrite lenz_read_at by lia; lia].
  assert (Hs : lenz (slice c off n) = Z.max 0 (Z.min n (lenz c - off))) by (unfold slice; rewrite lenz_take, lenz_drop by lia; lia).
  unfold read_at. rewrite get_app, get_slice, get_zeros, Hs by lia. rewrite (proj2 (Z.ltb_lt i n)) by lia.
  destruct (Z.ltb_spec (off + i) (lenz c)); [by rewrite (proj2 (Z.ltb_lt _ _)) by lia|].
  rewrite (proj2 (Z.ltb_ge _ _)), (proj2 (Z.leb_le _ _)), (proj2 (Z.ltb_lt _ _)) by lia. done.
Qed.

Section image.
Context {G : geometry}.

(** A page, of zeros past the end of the file. *)
Definition read_page (D : bytes) (pgno : Z) : bytes := read_at D ((pgno - 1) * szP) szP.

Lemma lenz_read_page D pgno : lenz (read_page D pgno) = szP.
Proof. apply lenz_read_at. geo. lia. Qed.

Lemma read_page_page D pgno : 1 <= pgno -> pgno * szP <= lenz D -> read_page D pgno = page D pgno.
Proof. intros Hp Hl. geo. apply read_at_full; nia. Qed.

Lemma get_read_page D pgno i :
  1 <= pgno -> 0 <= i -> get (read_page D pgno) i = if i <? szP then (if (pgno - 1) * szP + i <? lenz D then get D ((pgno - 1) * szP + i) else Some 0) else None.
Proof. intros Hp Hi. geo. apply get_read_at; [nia|lia|done]. Qed.

Lemma page_offset pgno q i : 1 <= pgno -> 1 <= q -> pgno <> q -> 0 <= i < szP -> (pgno - 1) * szP + i < (q - 1) * szP \/ (q - 1) * szP + szP <= (pgno - 1) * szP + i.
Proof. intros Hp Hq Hne Hi. destruct (Z.lt_total pgno q) as [H|[H|H]]; [left|lia|right]; nia. Qed.

Lemma read_page_write D q d pgno :
  1 <= pgno -> 1 <= q -> lenz d = szP -> read_page (write_at D ((q - 1) * szP) d) pgno = if pgno =? q then d else read_page D pgno.
Proof.
  intros Hp Hq Hd. geo. assert (Hq0 : 0 <= (q - 1) * szP) by nia. assert (Hp0 : 0 <= (pgno - 1) * szP) by nia. apply get_ext. intros i Hi.
  rewrite get_read_page, lenz_write_at by lia. rewrite Hd. destruct (Z.eqb_spec pgno q) as [->|Hne].
  - destruct (Z.ltb_spec i szP); [|by rewrite get_None by lia]. rewrite (proj2 (Z.ltb_lt _ _)), get_write_at by lia. rewrite Hd.
    rewrite (proj2 (Z.leb_le _ _)), (proj2 (Z.ltb_lt _ _)) by lia. cbn [andb]. f_equal. lia.
  - rewrite get_read_page by lia. destruct (Z.ltb_spec i szP); [|done]. pose proof (page_offset pgno q i Hp Hq Hne ltac:(lia)) as Ho.
    rewrite get_write_at, Hd by lia. assert (Hout : ((q - 1) * szP <=? (pgno - 1) * szP + i) && ((pgno - 1) * szP + i <? (q - 1) * szP + szP) = false).
    { apply andb_false_iff. destruct Ho; [left; apply Z.leb_gt|right; apply Z.ltb_ge]; lia. }
    rewrite Hout. destruct (Z.ltb_spec ((pgno - 1) * szP + i) (lenz D)); [by rewrite (proj2 (Z.ltb_lt _ _)) by lia|].
    destruct (Z.ltb_spec ((pgno - 1) * szP + i) (Z.max (lenz D) ((q - 1) * szP + szP))); [|done]. by rewrite (proj2 (Z.ltb_lt _ _)) by lia.
Qed.

(** Two files of the same pages. *)
Lemma image_ext D V n : 0 <= n -> lenz D = n * szP -> lenz V = n * szP -> (forall pgno, 1 <= pgno <= n -> read_page D pgno = read_page V pgno) -> D = V.
Proof.
  intros Hn HD HV H. geo. apply get_ext. intros i Hi. destruct (Z.ltb_spec i (n * szP)); [|rewrite !get_None by lia; done].
  destruct (div_bounds i szP) as [E1 E2]; [lia|]. assert (0 <= i / szP) by (apply Z.div_pos; lia). assert (i / szP < n) by (apply Z.div_lt_upper_bound; lia).
  assert (E : get (read_page D (i / szP + 1)) (i mod szP) = get (read_page V (i / szP + 1)) (i mod szP)) by (rewrite H by lia; done).
  rewrite !get_read_page in E by lia. rewrite (proj2 (Z.ltb_lt _ _)) in E by lia. replace ((i / szP + 1 - 1) * szP + i mod szP) with i in E by lia.
  by rewrite !(proj2 (Z.ltb_lt _ _)) in E by lia.
Qed.

(** ** Growing *)

Lemma read_page_resize V n pgno : 1 <= pgno -> lenz V <= n * szP -> read_page (resize V (n * szP)) pgno = read_page V pgno.
Proof.
  intros Hp Hl. geo. pose proof (lenz_nonneg V). assert (0 <= (pgno - 1) * szP) by nia. apply get_ext. intros i Hi. rewrite !get_read_page, lenz_resize by lia. destruct (Z.ltb_spec i szP); [|done].
  unfold resize. rewrite get_take, get_app, get_zeros. destruct (Z.ltb_spec ((pgno - 1) * szP + i) (n * szP)), (Z.ltb_spec ((pgno - 1) * szP + i) (lenz V)); try lia; [done| |done].
  by rewrite (proj2 (Z.leb_le _ _)), (proj2 (Z.ltb_lt _ _)) by lia.
Qed.

Lemma write_resize V pgno d : 1 <= pgno -> lenz d = szP -> lenz V <= pgno * szP -> write_at (resize V (pgno * szP)) ((pgno - 1) * szP) d = write_at V ((pgno - 1) * szP) d.
Proof.
  intros Hp Hd Hl. geo. pose proof (lenz_nonneg V). assert (0 <= (pgno - 1) * szP) by nia. apply get_ext. intros i Hi. rewrite !get_write_at, lenz_resize, Hd by lia.
  destruct (Z.leb_spec ((pgno - 1) * szP) i), (Z.ltb_spec i ((pgno - 1) * szP + szP)); cbn [andb]; try done; try lia.
  - rewrite !(proj2 (Z.ltb_ge _ _)) by lia. done.
  - rewrite (proj2 (Z.ltb_lt i (pgno * szP))), (proj2 (Z.ltb_lt i ((pgno - 1) * szP))) by lia. unfold resize. rewrite get_take, get_app, get_zeros. rewrite (proj2 (Z.ltb_lt i (pgno * szP))) by lia.
    destruct (Z.ltb_spec i (lenz V)); [done|]. by rewrite (proj2 (Z.leb_le _ _)), (proj2 (Z.ltb_lt _ _)) by lia.
Qed.

(** ** The change counter *)

Definition uncounted (i : Z) : Prop := 24 <= i < 28 \/ 92 <= i < 100.

(** The same but for the change counter and the version of the library in page 1. *)
Definition upto (V S : bytes) : Prop := lenz V = lenz S /\ forall i, ~ uncounted i -> get V i = get S i.

Lemma upto_refl V : upto V V.
Proof. done. Qed.

Lemma upto_trans V W S : upto V W -> upto W S -> upto V S.
Proof. intros [L1 H1] [L2 H2]. split; [lia|]. intros i Hi. rewrite H1 by done. by apply H2. Qed.

Lemma upto_write V S off d : 0 <= off -> 0 < lenz d -> upto V S -> upto (write_at V off d) (write_at S off d).
Proof.
  intros Ho Hd [Hl H]. split; [rewrite !lenz_write_at by lia; lia|]. intros i Hi. destruct (Z.leb_spec 0 i); [|by rewrite !get_None by lia]. rewrite !get_write_at, Hl by lia.
  destruct (_ && _); [done|]. destruct (i <? lenz S); [by apply H|done].
Qed.

Lemma counter_len p d : lenz d = szP -> lenz (pager_write_changecounter p d) = szP.
Proof. intros Hd. geo. unfold pager_write_changecounter. rewrite !lenz_write_at; rewrite ?lenz_write_at; rewrite ?lenz_write_at; rewrite ?lenz_put; lia. Qed.

Lemma get_counter p d i : lenz d = szP -> 0 <= i -> ~ uncounted i -> get (pager_write_changecounter p d) i = get d i.
Proof.
  intros Hd Hi Hu. geo. destruct (Z.ltb_spec i szP); [|rewrite !get_None; [done|rewrite ?counter_len by done; lia..]]. unfold uncounted in Hu. unfold pager_write_changecounter.
  rewrite get_write_out; [|lia|rewrite !lenz_write_at; rewrite ?lenz_write_at; rewrite ?lenz_put; lia|rewrite lenz_put; lia].
  rewrite get_write_out; [|lia|rewrite !lenz_write_at; rewrite ?lenz_put; lia|rewrite lenz_put; lia].
  apply get_write_out; [lia|lia|rewrite lenz_put; lia].
Qed.

Lemma upto_counter p V : szP <= lenz V -> upto (write_at V 0 (pager_write_changecounter p (read_page V 1))) V.
Proof.
  intros Hl. geo. assert (Hd : lenz (pager_write_changecounter p (read_page V 1)) = szP) by apply counter_len, lenz_read_page.
  split; [rewrite lenz_write_at by lia; lia|]. intros i Hi. destruct (Z.leb_spec 0 i); [|by rewrite !get_None by lia]. rewrite get_write_at, Hd by lia.
  destruct (Z.leb_spec 0 i), (Z.ltb_spec i (0 + szP)); cbn [andb]; try lia.
  - rewrite Z.sub_0_r, get_counter by (try apply lenz_read_page; done). rewrite get_read_page by lia. rewrite (proj2 (Z.ltb_lt _ _)) by lia. cbn. by rewrite (proj2 (Z.ltb_lt _ _)) by lia.
  - destruct (Z.ltb_spec i (lenz V)); [done|]. rewrite (proj2 (Z.ltb_ge i 0)) by lia. symmetry. apply get_None. lia.
Qed.

End image.

(** * The page cache of a transaction: which pages may be changed, written to the database
    and dropped, and that the operations of pcache.c and the changes of the client keep
    to it. *)

Section cache.
Context {G : geometry}.

(** A page of the cache.  [n]: the size of the database; [cl], [op]: the pages whose
    records are synced and those whose are not; [V]: the image. *)
Record page_ok (n : Z) (cl op : list Z) (V : bytes) (pgno : Z) (pg : PgHdr) : Prop := mkPageOk {
  pg_number : 1 <= pgno <= PAGER_MAX_PGNO /\ pgno <> mj;
  pg_data : pData pg = read_page V pgno;
  pg_write : PGHDR_DONT_WRITE pg = false;
  pg_new : n < pgno -> PGHDR_DIRTY pg = false;
  pg_flags : (PGHDR_WRITEABLE pg = true \/ PGHDR_NEED_SYNC pg = true) -> PGHDR_DIRTY pg = true;
  pg_unsaved : pgno <= nOrig -> pgno ∉ cl ++ op -> pData pg = page orig pgno /\ PGHDR_DIRTY pg = false;
  pg_synced : PGHDR_DIRTY pg = true -> PGHDR_NEED_SYNC pg = false -> pgno ∈ cl \/ nOrig < pgno;
  pg_open : pgno ∈ op -> PGHDR_DIRTY pg = true /\ PGHDR_NEED_SYNC pg = true }.

(** The cache, and the pages of the database [D] of [nf] pages. *)
Record cache_ok (C : gmap Z PgHdr) (n nf : Z) (cl op : list Z) (D V : bytes) : Prop := mkCacheOk {
  ca_len : lenz V = n * szP /\ lenz D = nf * szP;
  ca_size : nOrig <= nf <= n /\ n <= PAGER_MAX_PGNO;
  ca_page : forall pgno pg, C !! pgno = Some pg -> page_ok n cl op V pgno pg;
  ca_open : forall pgno, pgno ∈ op -> is_Some (C !! pgno);
  ca_clean : forall pgno, 1 <= pgno -> (forall pg, C !! pgno = Some pg -> PGHDR_DIRTY pg = false) -> read_page D pgno = read_page V pgno;
  ca_last : n <= nf \/ exists pg, C !! n = Some pg /\ PGHDR_DIRTY pg = true }.

(** A page is put into the cache, or is changed. *)
Lemma cache_put C n nf cl op D V pgno pg :
  cache_ok C n nf cl op D V -> page_ok n cl op V pgno pg -> (PGHDR_DIRTY pg = false -> read_page D pgno = read_page V pgno) ->
  (PGHDR_DIRTY pg = false -> pgno = n -> n <= nf) -> cache_ok (<[pgno := pg]> C) n nf cl op D V.
Proof.
  intros [H1 H2 H3 H4 H5 H6] Hpg Hd Hn. split; [done|done|..].
  - intros q x [[<- <-]|[? Hx]]%lookup_insert_Some; [done|by apply H3].
  - intros q Hq. destruct (decide (pgno = q)) as [->|]; [rewrite lookup_insert_eq; eauto|rewrite lookup_insert_ne by done; by apply H4].
  - intros q Hq Hx. destruct (decide (pgno = q)) as [->|]; [apply Hd, Hx, lookup_insert_eq|]. apply H5; [done|]. intros x Hx'. apply Hx. by rewrite lookup_insert_ne.
  - destruct H6 as [|(x & Hx & Hdx)]; [by left|]. destruct (decide (pgno = n)) as [->|]; [|right; exists x; by rewrite lookup_insert_ne].
    destruct (PGHDR_DIRTY pg) eqn:E; [right; exists pg; by rewrite lookup_insert_eq|left; auto].
Qed.

(** A page is dropped. *)
Lemma cache_drop C n nf cl op D V pgno pg :
  cache_ok C n nf cl op D V -> C !! pgno = Some pg -> PGHDR_DIRTY pg = false -> cache_ok (delete pgno C) n nf cl op D V.
Proof.
  intros [H1 H2 H3 H4 H5 H6] Hpg Hd. split; [done|done|..].
  - intros q x [? Hx]%lookup_delete_Some. by apply H3.
  - intros q Hq. destruct (decide (pgno = q)) as [->|]; [|rewrite lookup_delete_ne by done; by apply H4]. destruct (pg_open _ _ _ _ _ _ (H3 q pg Hpg) Hq). congruence.
  - intros q Hq Hx. apply H5; [done|]. intros x Hx'. destruct (decide (pgno = q)) as [->|]; [congruence|]. apply Hx. by rewrite lookup_delete_ne.
  - destruct H6 as [|(x & Hx & Hdx)]; [by left|right]. exists x. rewrite lookup_delete_ne; [done|]. intros ->. congruence.
Qed.

Lemma page_clean n cl op V pgno : 1 <= pgno <= PAGER_MAX_PGNO -> pgno <> mj -> pgno ∉ op ->
  (pgno <= nOrig -> pgno ∉ cl ++ op -> read_page V pgno = page orig pgno) -> page_ok n cl op V pgno (mkPgHdr (read_page V pgno) false false false false).
Proof. intros. split; cbn; try done; auto. by intros [?|?]. Qed.

(** A page that is read. *)
Lemma cache_get C n nf cl op D V pgno :
  cache_ok C n nf cl op D V -> C !! pgno = None -> 1 <= pgno <= PAGER_MAX_PGNO -> pgno <> mj -> kept cl D ->
  cache_ok (<[pgno := mkPgHdr (read_page D pgno) false false false false]> C) n nf cl op D V.
Proof.
  intros HC Hn Hp Hmj Hk. pose proof HC as [H1 H2 H3 H4 H5 H6]. geo. assert (E : read_page D pgno = read_page V pgno) by (apply H5; [lia|congruence]). rewrite E.
  assert (Hop : pgno ∉ op) by (intros [? ?]%H4; congruence). apply (cache_put C); [done| |done|].
  - apply page_clean; [done|done|done|]. intros Hle Hnot. rewrite <- E, read_page_page by nia. apply Hk; [lia|]. intros ?. apply Hnot, elem_of_app. by left.
  - intros _ ->. destruct H6 as [|(x & Hx & _)]; [done|congruence].
Qed.

(** A page is made dirty. *)
Lemma page_dirty n cl op V pgno pg :
  page_ok n cl op V pgno pg -> pgno <= n -> pgno ∈ cl ++ op \/ nOrig < pgno -> page_ok n cl op V pgno (sqlite3PcacheMakeDirty pg).
Proof.
  intros [H1 H2 H3 H4 H5 H6 H7 H8] Hn Hor. split; cbn; try done; try lia.
  - intros ? ?. by destruct Hor; [|lia].
  - intros _ Hsy. destruct Hor as [[?|Hop]%elem_of_app|?]; [by left| |by right]. destruct (H8 Hop). congruence.
  - intros Hop. by destruct (H8 Hop).
Qed.

(** The record of a page is in the journal. *)
Lemma cache_saved C n nf cl op D V pgno pg :
  cache_ok C n nf cl op D V -> C !! pgno = Some pg -> PGHDR_DIRTY pg = true -> PGHDR_NEED_SYNC pg = true -> cache_ok C n nf cl (op ++ [pgno]) D V.
Proof.
  intros [H1 H2 H3 H4 H5 H6] Hpg Hd Hs. split; try done.
  - intros q x Hx. destruct (H3 q x Hx) as [P1 P2 P3 P4 P5 P6 P7 P8]. split; try done.
    + intros Hle Hnot. apply P6; [done|]. intros Hin. apply Hnot. rewrite app_assoc. apply elem_of_app. by left.
    + intros [Hop| ->%list_elem_of_singleton]%elem_of_app; [by apply P8|]. by rewrite Hpg in Hx; injection Hx as <-.
  - intros q [Hq| ->%list_elem_of_singleton]%elem_of_app; [by apply H4|eauto].
Qed.

(** A page that is in the journal is made dirty. *)
Lemma cache_dirty C n nf cl op D V pgno pg pg' :
  cache_ok C n nf cl op D V -> C !! pgno = Some pg -> pgno <= n -> pData pg' = pData pg -> PGHDR_DIRTY pg' = true -> PGHDR_DONT_WRITE pg' = false ->
  (PGHDR_NEED_SYNC pg = true -> PGHDR_NEED_SYNC pg' = true) -> pgno ∈ cl ++ op \/ nOrig < pgno -> cache_ok (<[pgno := pg']> C) n nf cl op D V.
Proof.
  intros HC Hpg Hn E1 E2 E3 E4 Hor. apply cache_put; [done| |congruence|congruence]. destruct (ca_page _ _ _ _ _ _ _ HC _ _ Hpg) as [P1 P2 P3 P4 P5 P6 P7 P8]. split; rewrite ?E1; try done; try lia.
  - intros ? ?. by destruct Hor; [|lia].
  - intros _ Hsy. destruct Hor as [[?|Hop]%elem_of_app|?]; [by left| |by right]. destruct (P8 Hop) as [_ Hs]. apply E4 in Hs. congruence.
  - intros Hop. split; [done|]. apply E4. by apply P8.
Qed.

(** A page that will be in the journal. *)
Lemma cache_saving C n nf cl op D V pgno pg pg' :
  cache_ok C n nf cl op D V -> C !! pgno = Some pg -> pgno <= nOrig -> pData pg' = pData pg -> PGHDR_DIRTY pg' = true -> PGHDR_DONT_WRITE pg' = false -> PGHDR_NEED_SYNC pg' = true ->
  cache_ok (<[pgno := pg']> C) n nf cl (op ++ [pgno]) D V.
Proof.
  intros [H1 H2 H3 H4 H5 H6] Hpg Hn E1 E2 E3 E4. split; [done|done|..].
  - intros q x [[<- <-]|[? Hx]]%lookup_insert_Some.
    + destruct (H3 _ _ Hpg) as [P1 P2 P3 P4 P5 P6 P7 P8]. split; rewrite ?E1; try done; try lia; [|congruence]. intros ? Hnot. destruct Hnot. apply elem_of_app. right. apply elem_of_app. right. by apply list_elem_of_singleton.
    + destruct (H3 q x Hx) as [P1 P2 P3 P4 P5 P6 P7 P8]. split; try done.
      * intros Hle Hnot. apply P6; [done|]. intros Hin. apply Hnot. rewrite app_assoc. apply elem_of_app. by left.
      * intros [Hop|?%list_elem_of_singleton]%elem_of_app; [by apply P8|congruence].
  - intros q [Hq| ->%list_elem_of_singleton]%elem_of_app; [|rewrite lookup_insert_eq; eauto]. destruct (decide (pgno = q)) as [->|]; [rewrite lookup_insert_eq; eauto|rewrite lookup_insert_ne by done; by apply H4].
  - intros q Hq Hx. destruct (decide (pgno = q)) as [->|]; [specialize (Hx _ (lookup_insert_eq _ _ _)); congruence|]. apply H5; [done|]. intros x Hx'. apply Hx. by rewrite lookup_insert_ne.
  - destruct H6 as [|(x & Hx & Hdx)]; [by left|right]. destruct (decide (pgno = n)) as [->|]; [exists pg'; by rewrite lookup_insert_eq|exists x; by rewrite lookup_insert_ne].
Qed.

(** The database grows. *)
Lemma cache_new C n nf cl op D V pgno pg pg' :
  cache_ok C n nf cl op D V -> C !! pgno = Some pg -> n < pgno -> pData pg' = pData pg -> PGHDR_DIRTY pg' = true -> PGHDR_DONT_WRITE pg' = false ->
  cache_ok (<[pgno := pg']> C) pgno nf cl op D (resize V (pgno * szP)).
Proof.
  intros [[H1 H1'] H2 H3 H4 H5 H6] Hpg Hn E1 E2 E3. geo. pose proof (H3 _ _ Hpg) as [P1 P2 P3 P4 P5 P6 P7 P8].
  assert (HV : forall q, 1 <= q -> read_page (resize V (pgno * szP)) q = read_page V q) by (intros; apply read_page_resize; [done|nia]).
  split.
  - split; [apply lenz_resize; nia|done].
  - lia.
  - intros q x [[<- <-]|[? Hx]]%lookup_insert_Some.
    + split; rewrite ?E1, ?HV by lia; try done; try lia. intros [Hd _]%P8. rewrite P4 in Hd by done. done.
    + destruct (H3 q x Hx) as [Q1 Q2 Q3 Q4 Q5 Q6 Q7 Q8]. split; rewrite ?HV by lia; try done. intros ?. apply Q4. lia.
  - intros q Hq. destruct (decide (pgno = q)) as [->|]; [rewrite lookup_insert_eq; eauto|rewrite lookup_insert_ne by done; by apply H4].
  - intros q Hq Hx. rewrite HV by done. destruct (decide (pgno = q)) as [->|]; [specialize (Hx _ (lookup_insert_eq _ _ _)); congruence|]. apply H5; [done|]. intros x Hx'. apply Hx. by rewrite lookup_insert_ne.
  - right. exists pg'. by rewrite lookup_insert_eq.
Qed.

(** A dirty page is changed. *)
Lemma cache_data C n nf cl op D V pgno pg d :
  cache_ok C n nf cl op D V -> C !! pgno = Some pg -> PGHDR_DIRTY pg = true -> lenz d = szP ->
  cache_ok (<[pgno := pg_set_data pg d]> C) n nf cl op D (write_at V ((pgno - 1) * szP) d).
Proof.
  intros [[H1 H1'] H2 H3 H4 H5 H6] Hpg Hd Hl. geo. pose proof (H3 _ _ Hpg) as [P1 P2 P3 P4 P5 P6 P7 P8]. assert (Hn : pgno <= n) by (destruct (Z.leb_spec pgno n); [done|]; rewrite P4 in Hd by lia; done).
  assert (HV : forall q, 1 <= q -> read_page (write_at V ((pgno - 1) * szP) d) q = if q =? pgno then d else read_page V q) by (intros; apply read_page_write; lia).
  split; [|done|..].
  - split; [rewrite lenz_write_at by nia; nia|done].
  - intros q x [[<- <-]|[? Hx]]%lookup_insert_Some.
    + split; cbn; rewrite ?HV, ?Z.eqb_refl by lia; try done. intros ? ?. destruct P6 as [_ ?]; [done|done|congruence].
    + destruct (H3 q x Hx) as [Q1 Q2 Q3 Q4 Q5 Q6 Q7 Q8]. split; rewrite ?HV by lia; try done. by rewrite (proj2 (Z.eqb_neq _ _)) by done.
  - intros q Hq. destruct (decide (pgno = q)) as [->|]; [rewrite lookup_insert_eq; eauto|rewrite lookup_insert_ne by done; by apply H4].
  - intros q Hq Hx. destruct (decide (pgno = q)) as [->|]; [specialize (Hx _ (lookup_insert_eq _ _ _)); cbn in Hx; congruence|]. rewrite HV, (proj2 (Z.eqb_neq q pgno)) by (done || congruence).
    apply H5; [done|]. intros x Hx'. apply Hx. by rewrite lookup_insert_ne.
  - destruct H6 as [|(x & Hx & Hdx)]; [by left|right]. destruct (decide (pgno = n)) as [->|]; [eexists; by rewrite lookup_insert_eq|exists x; by rewrite lookup_insert_ne].
Qed.

(** The journal is synced. *)
Lemma cache_sync C n nf cl op D V : cache_ok C n nf cl op D V -> cache_ok (sqlite3PcacheClearSyncFlags C) n nf (cl ++ op) [] D V.
Proof.
  intros [H1 H2 H3 H4 H5 H6]. unfold sqlite3PcacheClearSyncFlags, on_dirty. split; [done|done|..].
  - intros q x Hx. rewrite lookup_fmap in Hx. destruct (C !! q) as [y|] eqn:Ey; [|done]. cbn in Hx. injection Hx as <-. destruct (H3 q y Ey) as [Q1 Q2 Q3 Q4 Q5 Q6 Q7 Q8].
    destruct (PGHDR_DIRTY y) eqn:Ed; split; cbn; rewrite ?app_nil_r, ?Ed; try done.
    + intros _ _. destruct (Z.leb_spec q nOrig); [|by right]. destruct (decide (q ∈ cl ++ op)) as [|Hnot]; [by left|]. by destruct (Q6 ltac:(done) Hnot).
    + by intros ?%elem_of_nil.
    + by intros ?%elem_of_nil.
  - by intros q ?%elem_of_nil.
  - intros q Hq Hx. apply H5; [done|]. intros x Ex. specialize (Hx (if PGHDR_DIRTY x then mkPgHdr (pData x) (PGHDR_DIRTY x) (PGHDR_WRITEABLE x) false (PGHDR_DONT_WRITE x) else x)).
    rewrite lookup_fmap, Ex in Hx. specialize (Hx eq_refl). by destruct (PGHDR_DIRTY x) eqn:Ed.
  - destruct H6 as [|(x & Hx & Hdx)]; [by left|right]. eexists. rewrite lookup_fmap, Hx. cbn. rewrite Hdx. by split.
Qed.

(** A dirty page is written to the database. *)
Lemma cache_written C n nf cl op D V pgno pg :
  cache_ok C n nf cl op D V -> C !! pgno = Some pg -> PGHDR_DIRTY pg = true ->
  let D' := write_at D ((pgno - 1) * szP) (pData pg) in cache_ok C n (Z.max nf pgno) cl op D' V /\ read_page D' pgno = read_page V pgno.
Proof.
  intros [[H1 H1'] H2 H3 H4 H5 H6] Hpg Hd D'. geo. pose proof (H3 _ _ Hpg) as [P1 P2 P3 P4 P5 P6 P7 P8]. assert (Hn : pgno <= n) by (destruct (Z.leb_spec pgno n); [done|]; rewrite P4 in Hd by lia; done).
  assert (Hl : lenz (pData pg) = szP) by (rewrite P2; apply lenz_read_page).
  assert (HD : forall q, 1 <= q -> read_page D' q = if q =? pgno then pData pg else read_page D q) by (intros; apply read_page_write; lia).
  split; [|by rewrite HD, Z.eqb_refl by lia]. split; try done.
  - split; [done|]. unfold D'. rewrite lenz_write_at by nia. destruct (Z.max_spec nf pgno) as [[? ->]|[? ->]]; nia.
  - lia.
  - intros q Hq Hx. rewrite HD by done. destruct (Z.eqb_spec q pgno) as [->|]; [by rewrite P2|by apply H5].
  - destruct H6; [left; lia|by right].
Qed.

Lemma cache_made_clean C n nf cl op D V pgno pg :
  cache_ok C n nf cl op D V -> C !! pgno = Some pg -> PGHDR_NEED_SYNC pg = false -> read_page D pgno = read_page V pgno -> pgno <= nf ->
  cache_ok (<[pgno := sqlite3PcacheMakeClean pg]> C) n nf cl op D V.
Proof.
  intros HC Hpg Hs Hr Hn. destruct (ca_page _ _ _ _ _ _ _ HC _ _ Hpg) as [P1 P2 P3 P4 P5 P6 P7 P8]. apply cache_put; [done| |done|lia].
  split; cbn; try done; [by intros [?|?]| |intros [_ ?]%P8; congruence]. intros H1 H2. by destruct (P6 H1 H2).
Qed.

(** Every dirty page is written. *)
Lemma cache_flushed C n nf cl op D V :
  cache_ok C n nf cl op D V -> (forall pgno pg, C !! pgno = Some pg -> PGHDR_DIRTY pg = true -> read_page D pgno = read_page V pgno /\ pgno <= nf) -> D = V /\ nf = n.
Proof.
  intros [[H1 H1'] H2 H3 H4 H5 H6] Hall. assert (E : nf = n) by (destruct H6 as [|(x & Hx & Hdx)]; [lia|]; destruct (Hall _ _ Hx Hdx); lia). subst nf. split; [|done].
  geo. apply (image_ext _ _ n); [lia|done|done|]. intros q Hq. destruct (C !! q) as [pg|] eqn:Ep.
  - destruct (PGHDR_DIRTY pg) eqn:Ed; [by apply (Hall _ pg)|]. apply H5; [lia|]. congruence.
  - apply H5; [lia|]. congruence.
Qed.

End cache.

(** * A write transaction: its states, how it begins and how it reads pages. *)

Section transaction.
Context {G : geometry} (g : config).
Hypothesis Hsync : noSync g = false.
Hypothesis Hfull : fullSync g = true.
Hypothesis Hdc : Z.land (iDc g) SQLITE_IOCAP_SAFE_APPEND = 0 /\ Z.land (iDc g) SQLITE_IOCAP_SEQUENTIAL = 0.

Local Abbreviation wp := (wpc szS).

(** ** States *)

(** What the cache and the size of the database are apart from. *)
Definition frame (p : Pager) :=
  (pageSize p, sectorSize p, eState p, eLock p, dbOrigSize p, journalOff p, journalHdr p, nRec p, cksumInit p, pInJournal p, errCode p, jfd p).

(** The image [V] is in the cache and in the database. *)
Definition imaged (p : Pager) (s : disk) (cl op : list Z) (V : bytes) : Prop :=
  exists D, cur (dbf s) = Some D /\ cache_ok (pPCache p) (dbSize p) (dbFileSize p) cl op D V.

(** A pager before its first write, and the disk of one. *)
Definition cold (s : disk) : Prop := pristine s /\ poss (jrn s) (cur (jrn s)) /\ forall v, poss (jrn s) (Some v) -> ~ magic_at v 0.

Record idle (st : Z) (p : Pager) (s : disk) : Prop := mkIdle {
  i_conf : conf p;
  i_err : errCode p = SQLITE_OK;
  i_state : eState p = st;
  i_lock : SHARED_LOCK <= eLock p <= EXCLUSIVE_LOCK;
  i_bits : pInJournal p = None;
  i_jfd : jfd p = true -> is_Some (cur (jrn s));
  i_cold : cold s;
  i_size : dbSize p = nOrig;
  i_image : cache_ok (pPCache p) nOrig nOrig [] [] orig orig }.

(** A pager that has the reserved lock. *)
Definition begun (p : Pager) (s : disk) : Prop :=
  idle PAGER_WRITER_LOCKED p s /\ RESERVED_LOCK <= eLock p /\ dbOrigSize p = nOrig /\ dbFileSize p = nOrig.

(** A transaction with the journal [c], in which the pages [cl] are synced up to [E]. *)
Record transact (p : Pager) (s : disk) (c : bytes) (cl op : list Z) (E : Z) : Prop := mkTransact {
  t_conf : conf p;
  t_err : errCode p = SQLITE_OK;
  t_jfd : jfd p = true;
  t_state : eState p = if E =? 0 then PAGER_WRITER_CACHEMOD else PAGER_WRITER_DBMOD;
  t_lock : RESERVED_LOCK <= eLock p <= EXCLUSIVE_LOCK /\ (0 < E -> eLock p = EXCLUSIVE_LOCK);
  t_orig : dbOrigSize p = nOrig;
  t_journal : journal cl E c s;
  t_database : database cl E s;
  t_bits : exists b, pInJournal p = Some b /\ is_set nOrig b (list_to_set (cl ++ op));
  t_nodup : NoDup (cl ++ op) }.

(** The segment after [E], with the records of the pages [op]. *)
Record segment (p : Pager) (c : bytes) (op : list Z) (E : Z) : Prop := mkSegment {
  s_hdr : journalHdr p = align E;
  s_off : journalOff p = align E + szH + count op * R;
  s_nrec : nRec p = count op;
  s_fields : header_fields c (align E) 0 (cksumInit p);
  s_records : records c (align E + szH) (cksumInit p) op }.

Definition live (p : Pager) (s : disk) (V c : bytes) (cl op : list Z) (E : Z) : Prop :=
  transact p s c cl op E /\ segment p c op E /\ imaged p s cl op V.

(** A transaction under way. *)
Definition running (p : Pager) (s : disk) (V : bytes) : Prop := (begun p s /\ V = orig) \/ exists c cl op E, live p s V c cl op E.

(** A transaction that can be rolled back by the pager. *)
Definition undo (p : Pager) (s : disk) : Prop :=
  conf p /\ jfd p = true /\ RESERVED_LOCK <= eLock p /\ good s /\ exists c, cur (jrn s) = Some c /\ szH <= lenz c /\
    ((eState p = PAGER_WRITER_CACHEMOD /\ pristine s /\ field c 16 = nOrig /\ field c 20 = szH /\ field c 24 = szP) \/
     (eState p = PAGER_WRITER_DBMOD /\ eLock p = EXCLUSIVE_LOCK /\ exists cl E, 0 < E /\ chain c 0 cl E /\ safe cl s /\ E <= journalHdr p <= align E /\
        forall j, survives szS (jrn s) j -> exists c' pgs, j = Some c' /\ hot c' pgs /\ forall x, x ∈ cl -> x ∈ pgs)).

(** A transaction that has failed. *)
Definition failed (p : Pager) (s : disk) : Prop :=
  good s /\ ((eState p = PAGER_ERROR /\ errCode p <> SQLITE_OK) \/ undo p s \/
    (eState p = PAGER_WRITER_LOCKED /\ conf p /\ pInJournal p = None /\ SHARED_LOCK <= eLock p /\ (jfd p = true -> is_Some (cur (jrn s))) /\ cold s)).

(** ** Disks *)

Lemma cold_saved s : cold s -> saved [] 0 (jrn s).
Proof. intros (_ & _ & H). split; [done|]. exists []. split; [done|]. split; [constructor|]. intros [v|] Hv; [|done]. split; [apply lenz_nonneg|]. split; [intros i Hi; by rewrite !get_None by lia|by apply H]. Qed.

Lemma cold_good s : cold s -> good s.
Proof.
  intros Hc. pose proof Hc as (H1 & H2 & _). split; [|by split; [apply H1|]]. apply pristine_sound; [done|]. intros j Hj. left. by apply (saved_cold [] (jrn s)); [apply cold_saved|].
Qed.

Lemma pristine_database s : pristine s -> database [] 0 s.
Proof. intros Hp. by split; [apply pristine_safe|]. Qed.

Lemma cold_journal s c : cold s -> cur (jrn s) = Some c -> journal [] 0 c s.
Proof. intros Hc Ec. split; [done|]. split; [rewrite <- Ec; apply Hc|by apply cold_saved]. Qed.

Lemma journal_cold s c : pristine s -> journal [] 0 c s -> cold s.
Proof. intros Hp (J1 & J2 & J3). split; [done|]. split; [by rewrite J1|]. intros v Hv. by destruct (saved_chain _ _ _ _ J3 Hv) as (_ & _ & ?). Qed.

Lemma transact_good p s c cl op E : transact p s c cl op E -> good s.
Proof. intros [_ _ _ _ _ _ H1 H2 _ _]. by apply (writer_good cl E c). Qed.

(** ** Locks *)

(** A lock is asked for by a pager that knows which one it has. *)
Lemma wpc_lock p lk (Q : Z * Pager -> disk -> Prop) (C : disk -> Prop) s :
  C s -> lk <= EXCLUSIVE_LOCK -> eLock p <= EXCLUSIVE_LOCK ->
  (forall lk', Z.max lk (eLock p) = lk' -> Q (SQLITE_OK, set_eLock p lk') s) -> (forall rc, is_error rc -> Q (rc, p) s) -> wp (pagerLockDb g p lk) Q C s.
Proof.
  intros HC Hle Hp HQ Herr. unfold pagerLockDb. rewrite (proj2 (Z.eqb_neq (eLock p) UNKNOWN_LOCK)) by (unfold UNKNOWN_LOCK; lia). rewrite orb_false_r. destruct (Z.ltb_spec (eLock p) lk) as [Hlt|Hge].
  - assert (H : forall rc, rc = SQLITE_OK \/ is_error rc -> wp (Ret (rc, if (rc =? SQLITE_OK) && (negb false || (lk =? EXCLUSIVE_LOCK)) then set_eLock p lk else p)) Q C s).
    { intros rc Hr. apply wpc_ret; [done|]. destruct Hr as [->|Hr]; [cbn; apply HQ; lia|code; by apply Herr]. }
    wp_bind. destruct (noLock g); [apply wpc_ret; [done|]; apply H; by left|]. apply wpc_quiet; [done|done|]. intros rc [_ Hr]. by apply H.
  - apply wpc_ret; [done|]. replace p with (set_eLock p (eLock p)) at 1 by by destruct p. apply HQ. lia.
Qed.

(** ** Beginning *)

Lemma wpc_begin p s ex (Q : Z * Pager -> disk -> Prop) :
  idle PAGER_READER p s -> (forall p', begun p' s -> changeCountDone p' = changeCountDone p -> Q (SQLITE_OK, p') s) ->
  (forall rc p', is_error rc -> eState p' = PAGER_READER -> Q (rc, p') s) -> wp (sqlite3PagerBegin g p ex) Q good s.
Proof.
  intros Hi HOK Herr. pose proof Hi as [I1 I2 I3 I4 I5 I6 I7 I8 I9]. assert (Hg : good s) by by apply cold_good. unfold sqlite3PagerBegin. rewrite I2. cbn [negb Z.eqb SQLITE_OK].
  wp_bind. apply wpc_assert; [by rewrite I3|done|]. rewrite I3, Z.eqb_refl. unfold SHARED_LOCK, EXCLUSIVE_LOCK, RESERVED_LOCK in *.
  assert (Hend : forall lk, RESERVED_LOCK <= lk <= EXCLUSIVE_LOCK ->
    wp (Ret (SQLITE_OK, set_journalOff (set_dbOrigSize (set_dbFileSize (set_eState (set_eLock p lk) PAGER_WRITER_LOCKED) (dbSize p)) (dbSize p)) 0)) Q good s).
  { intros lk Hlk. apply wpc_ret; [done|]. unfold RESERVED_LOCK, EXCLUSIVE_LOCK in *. apply HOK; [|done]. split; [|cbn; unfold RESERVED_LOCK; by repeat split; [lia|..]]. split; try done. unfold SHARED_LOCK, EXCLUSIVE_LOCK. cbn. lia. }
  apply wpc_andthen. apply wpc_andthen. apply wpc_lock; [done|unfold EXCLUSIVE_LOCK; lia|unfold EXCLUSIVE_LOCK; lia| |].
  - intros lk <-. split; [done|]. split; [intros _|done]. destruct ex.
    + apply wpc_lock; [done|unfold EXCLUSIVE_LOCK; lia|unfold EXCLUSIVE_LOCK; cbn; lia| |].
      * intros lk <-. split; [done|]. split; [intros _|done]. apply (Hend (Z.max 4 (Z.max 2 (eLock p)))). unfold RESERVED_LOCK, EXCLUSIVE_LOCK. lia.
      * intros rc Hr. split; [done|]. split; [by intros ->; destruct Hr|]. intros _. by apply Herr.
    + apply wpc_ret; [done|]. split; [done|]. split; [intros _|done]. apply Hend. unfold RESERVED_LOCK, EXCLUSIVE_LOCK. lia.
  - intros rc Hr. split; [done|]. split; [by intros ->; destruct Hr|]. intros _. split; [done|]. split; [by intros ->; destruct Hr|]. intros _. by apply Herr.
Qed.

(** ** Reading pages *)

(** What a read of a page changes. *)
Definition got (p p' : Pager) : Prop := frame p' = frame p /\ dbSize p' = dbSize p /\ dbFileSize p' = dbFileSize p.

Lemma wpc_get p s cl op V pgno (Q : Z * Pager -> disk -> Prop) :
  pageSize p = szP -> errCode p = SQLITE_OK -> PAGER_READER <= eState p -> good s -> safe cl s -> imaged p s cl op V -> 0 <= pgno ->
  (forall rc p', got p p' -> imaged p' s cl op V -> (rc = SQLITE_OK -> is_Some (pPCache p' !! pgno)) -> Q (rc, p') s) -> wp (sqlite3PagerGet p pgno) Q good s.
Proof.
  intros Hps Hec Hst Hg Hs (D & HD & HC) Hp HQ. geo. destruct (safe_cur cl s Hs) as (D' & ED & Hk). assert (D' = D) as -> by congruence. pose proof HC as [[H1 H1'] H2 H3 H4 H5 H6].
  assert (Hsame : got p p /\ imaged p s cl op V) by (split; [done|by exists D]).
  unfold sqlite3PagerGet. rewrite Hec. cbn [negb Z.eqb SQLITE_OK]. wp_bind. apply wpc_assert; [by apply Z.leb_le|done|].
  destruct (Z.eqb_spec pgno 0) as [->|H0]; [apply wpc_ret; [done|]; by apply HQ; [apply Hsame..|]|].
  destruct (pPCache p !! pgno) as [pg|] eqn:Ep; [apply wpc_ret; [done|]; apply HQ; [apply Hsame..|intros _; by rewrite Ep]|].
  unfold PAGER_MJ_PGNO. rewrite Hps. fold mj. destruct (Z.ltb_spec PAGER_MAX_PGNO pgno), (Z.eqb_spec pgno mj); cbn [orb]; try (apply wpc_ret; [done|]; by apply HQ; [apply Hsame..|]).
  assert (Hput : forall p' d, got p p' -> pPCache p' = pPCache p -> d = read_page D pgno -> let p2 := set_pg p' pgno (mkPgHdr d false false false false) in
    got p p2 /\ imaged p2 s cl op V /\ is_Some (pPCache p2 !! pgno)).
  { intros p' d (G1 & G2 & G3) Ec ->. split; [done|]. cbn. rewrite Ec. split; [|rewrite lookup_insert_eq; eauto]. exists D. split; [done|]. cbn. rewrite Ec, G2, G3. apply cache_get; (done || lia). }
  destruct (Z.ltb_spec (dbSize p) pgno).
  - destruct (mxPgno p <? pgno); [apply wpc_ret; [done|]; by apply HQ; [apply Hsame..|]|]. apply wpc_ret; [done|]. destruct (Hput p (zeros szP)) as (P1 & P2 & P3); [done|done| |by apply HQ].
    apply get_ext. intros i Hi. rewrite get_zeros, get_read_page, (proj2 (Z.leb_le 0 i)) by lia. cbn [andb]. destruct (i <? szP); [|done]. by rewrite (proj2 (Z.ltb_ge _ _)) by nia.
  - wp_bind. unfold readDbPage. wp_bind. apply wpc_assert; [by apply Z.leb_le|done|]. rewrite Hps.
    assert (Hok : forall d, d = read_page D pgno -> Q (SQLITE_OK, set_pg (if pgno =? 1 then set_dbFileVers p (slice d 24 16) else p) pgno (mkPgHdr d false false false false)) s).
    { intros d Ed. destruct (Hput (if pgno =? 1 then set_dbFileVers p (slice d 24 16) else p) d) as (P1 & P2 & P3); [by destruct (pgno =? 1)|by destruct (pgno =? 1)|done|by apply HQ]. }
    wp_bind. apply (wpc_read _ _ _ _ D); [done|done|nia|lia|..].
    + intros Hl. apply wpc_ret; [done|]. apply wpc_ret; [done|]. apply Hok. symmetry. apply read_at_full; nia.
    + intros Hl. apply wpc_ret; [done|]. apply wpc_ret; [done|]. by apply Hok.
    + intros rc d Hr _. code. apply wpc_ret; [done|]. code. apply wpc_ret; [done|]. code. apply HQ; [by destruct (pgno =? 1)| |by intros ->; destruct Hr].
      exists D. split; [done|]. by destruct (pgno =? 1).
Qed.

End transaction.
