(* ===== verification/PagerWrite.v ===== *)
(** Writing pages: the journal is opened, the original contents of a page are saved in it
    before the client may change the page. *)
From S2P Require Import Prelude Varint VarintSpec Bitvec BitvecSpec Disk DiskSpec Pager PagerPlayback PagerRecovery PagerTransaction.

Section write.
Context {G : geometry} (g : config).
Hypothesis Hsync : noSync g = false.
Hypothesis Hdc : Z.land (iDc g) SQLITE_IOCAP_SAFE_APPEND = 0 /\ Z.land (iDc g) SQLITE_IOCAP_SEQUENTIAL = 0.

Local Abbreviation wp := (wpc szS).

(** ** Segments *)

Lemma segment_keeps p c op E v : 0 <= E -> segment p c op E -> keeps (journalOff p) c v -> segment p v op E.
Proof.
  intros HE [S1 S2 S3 S4 S5] [K1 K2]. pose proof (align_bounds E HE). geo. pose proof R_pos. pose proof (count_nonneg op). rewrite S2 in K2. pose proof S4 as (F1 & F2 & F3 & F4 & F5 & F6).
  assert (HF : forall d, 0 <= d -> d + 4 <= szH -> field v (align E + d) = field c (align E + d)) by (intros; apply field_ext; [lia|]; intros i Hi; apply K2; nia).
  split; try done.
  - split; [lia|]. by rewrite !HF by lia.
  - destruct (decide (op = [])) as [->|Hne]; [by intros k x ?|]. assert (Hlast : align E + szH + count op * R <= lenz c).
    { destruct op as [|x q _] using rev_ind; [done|]. rewrite count_app in *. destruct (S5 (length q) x) as (Hl & _); [by rewrite lookup_app_r, Nat.sub_diag by lia|]. unfold count in *. cbn [length]. lia. }
    apply (records_ext c); [lia|lia| |done]. intros i Hi. apply K2; lia.
Qed.

Lemma segment_same p p' c op E :
  journalHdr p' = journalHdr p -> journalOff p' = journalOff p -> nRec p' = nRec p -> cksumInit p' = cksumInit p -> segment p c op E -> segment p' c op E.
Proof. intros E1 E2 E3 E4 [S1 S2 S3 S4 S5]. by split; rewrite ?E1, ?E2, ?E3, ?E4. Qed.

Lemma segment_eState p v c op E : segment p c op E -> segment (set_eState p v) c op E.
Proof. by apply segment_same. Qed.

Lemma segment_bounds p c op E : 0 <= E -> segment p c op E -> E <= align E /\ align E + szH <= journalOff p /\ journalHdr p = align E.
Proof. intros HE [S1 S2 S3 S4 S5]. pose proof (align_bounds E HE). pose proof R_pos. pose proof (count_nonneg op). rewrite S2. repeat split; [lia|nia|done]. Qed.

(** The transaction can be rolled back. *)
Lemma transact_undo p s c cl op E : transact p s c cl op E -> segment p c op E -> undo p s.
Proof.
  intros Ht Hseg. pose proof (transact_good _ _ _ _ _ _ Ht) as Hg. destruct Ht as [T1 T2 T3 T4 [T5 T5'] T6 (J1 & J2 & J3) [D1 D2] T9 T10]. pose proof J3 as [HE _]. destruct Hseg as [S1 S2 S3 S4 S5].
  pose proof (align_bounds E HE) as Ha. split; [done|]. split; [done|]. split; [lia|]. split; [done|]. exists c. split; [done|]. destruct S4 as (F1 & F2 & F3 & F4 & F5 & F6). split; [lia|]. destruct (Z.eqb_spec E 0) as [->|Hne].
  - left. split; [done|]. split; [by apply D2|]. change (align 0) with 0 in *. cbn [Z.add] in *. done.
  - right. split; [done|]. split; [apply T5'; lia|]. destruct (saved_chain _ _ _ _ J3 J2) as (Hc & _ & _). exists cl, E. split; [lia|]. split; [done|]. split; [done|]. split; [lia|].
    intros j Hj. destruct (saved_hot cl E (jrn s) j) as (v & -> & Hh); [done|lia|done|]. by exists v, cl.
Qed.

Lemma transact_failed p s c cl op E : transact p s c cl op E -> segment p c op E -> failed p s.
Proof. intros Ht Hseg. split; [by apply (transact_good p s c cl op E)|]. right. left. by apply (transact_undo p s c cl op E). Qed.

(** ** Headers *)

Lemma header_zeros p ck : journal_header g p szH ck = zeros 12 ++ sqlite3Put4byte ck ++ sqlite3Put4byte (dbOrigSize p) ++ sqlite3Put4byte (sectorSize p) ++ sqlite3Put4byte (pageSize p) ++ zeros (szH - 28).
Proof. unfold journal_header. rewrite Hsync, (proj1 Hdc). done. Qed.

Lemma header_len p ck : lenz (journal_header g p szH ck) = szH.
Proof. rewrite header_zeros, !lenz_app, !lenz_zeros, !lenz_put. geo. lia. Qed.

Lemma header_written p c E ck :
  conf p -> dbOrigSize p = nOrig -> in_u 32 ck -> 0 <= E -> header_fields (write_at c (align E) (journal_header g p szH ck)) (align E) 0 ck.
Proof.
  intros [Hps Hss] Ho Hck HE. pose proof (align_bounds E HE) as Ha. pose proof (header_len p ck) as Hl. geo. unfold MAX_SECTOR_SIZE, SQLITE_MAX_PAGE_SIZE, PAGER_MAX_PGNO in *.
  assert (HF : forall d v, 0 <= d -> d + 4 <= szH -> in_u 32 v -> slice (journal_header g p szH ck) d 4 = sqlite3Put4byte v -> field (write_at c (align E) (journal_header g p szH ck)) (align E + d) = v).
  { intros d v H1 H2 Hv Es. unfold field. rewrite slice_write_part by lia. replace (align E + d - align E) with d by lia. rewrite Es. by apply get32_put. }
  split; [rewrite lenz_write_at by lia; lia|]. repeat split; (apply HF; [lia|lia|unfold in_u in *; lia|rewrite header_zeros, ?Hps, ?Hss, ?Ho; reflexivity]).
Qed.

(** The pager after the header of the segment that follows [E]. *)
Definition headed (p : Pager) (E ck : Z) : Pager := set_journalOff (set_cksumInit (set_journalHdr (set_journalOff p (align E)) (align E)) ck) (align E + szH).

Lemma wpc_writeJournalHdr p s c cl E (Q : Z * Pager -> disk -> Prop) :
  conf p -> jfd p = true -> dbOrigSize p = nOrig -> journalOff p = E -> nRec p = 0 -> journal cl E c s -> database cl E s ->
  (forall ck w s', dbf s' = dbf s -> journal cl E w s' -> segment (headed p E ck) w [] E -> Q (SQLITE_OK, headed p E ck) s') ->
  (forall rc ck v s', is_ioerr rc -> dbf s' = dbf s -> journal cl E v s' -> Q (rc, headed p E ck) s') -> wp (writeJournalHdr g p) Q good s.
Proof.
  intros Hconf Hj Ho Hoff Hn HJ HD HOK Herr. pose proof HJ as (J1 & J2 & HE & _). pose proof (align_bounds E HE) as Ha. geo. assert (Hg : good s) by by apply (writer_good cl E c).
  unfold writeJournalHdr. wp_bind. apply wpc_assert; [done|done|]. cbv zeta. rewrite journalHdrOffset_align, Hoff by done. unfold JOURNAL_HDR_SZ. cbn [pageSize sectorSize set_journalOff set_journalHdr journalOff].
  rewrite (proj1 Hconf), (proj2 Hconf), Z.min_r by lia. wp_bind. apply wpc_quiet; [done|done|]. intros ck [_ Hck]. replace (Z.to_nat _ + 2)%nat with 3%nat by (cbn; rewrite (proj2 Hconf), Z.div_same by lia; done). cbn [writeJournalHdr_loop].
  unfold JOURNAL_HDR_SZ. cbn [sectorSize journalOff journalHdr set_cksumInit set_journalOff set_journalHdr]. rewrite (proj2 Hconf), (proj2 (Z.ltb_lt 0 szH)) by lia. set (p1 := set_cksumInit _ ck).
  set (d := journal_header g p1 szH ck). assert (Hd : lenz d = szH) by apply header_len. wp_bind.
  apply (wpc_jwrite cl E c); [done|done|lia|lia|..].
  - apply (magic_write_first c (align E) d 0); [lia| |done]. unfold d. rewrite header_zeros. reflexivity.
  - intros s' Edb HJ'. assert (Hg' : good s') by (apply (writer_good cl E (write_at c (align E) d)); [done|by apply (database_ext cl E s)]). wp_bind. apply wpc_assert; [by apply Z.leb_refl|done|].
    rewrite Z.eqb_refl, (proj2 (Z.ltb_ge (0 + szH) szH)) by lia. apply wpc_ret; [done|].
    apply (HOK ck (write_at c (align E) d)); [done|done|]. split; cbn; try done; [unfold count; cbn; lia|by apply header_written].
  - intros rc v s' Hr Edb HJ' _. assert (Hg' : good s') by (apply (writer_good cl E v); [done|by apply (database_ext cl E s)]). wp_bind. apply wpc_assert; [by apply Z.leb_refl|done|].
    apply ioerr_error in Hr as Hr'. code. apply wpc_ret; [done|]. by apply (Herr rc ck v).
Qed.

(** ** Opening the journal *)

Lemma bitvec_create n : 0 <= n < 2 ^ 32 -> exists b, sqlite3BitvecCreate n [] = (Some b, []) /\ is_set n b ∅.
Proof. intros Hn. eexists. assert (E : sqlite3BitvecCreate n [] = (Some _, [])) by reflexivity. split; [exact E|]. by apply (is_set_create n [] _ []). Qed.

Lemma cold_open s : cold s -> cur (jrn s) = None -> cold (update s Jrnl (Some []) (fun _ => False)).
Proof.
  intros (H1 & H2 & H3) Hc. split; [done|]. split; [by right; left|]. intros v [Hv|[[= ->]|[]]]; [by apply H3|]. by apply magic_nil.
Qed.

Lemma wpc_open_journal p s (Q : Z * Pager -> disk -> Prop) :
  begun p s -> (forall p' c s', live p' s' orig c [] [] 0 -> pPCache p' = pPCache p -> Q (SQLITE_OK, p') s') ->
  (forall rc p' s', rc <> SQLITE_OK -> failed p' s' -> Q (rc, p') s') -> wp (pager_open_journal g p) Q good s.
Proof.
  intros ([I1 I2 I3 I4 I5 I6 I7 I8 I9] & Hlk & Ho & Hf) HOK Herr. geo. unfold PAGER_MAX_PGNO in *. assert (Hg : good s) by by apply cold_good. unfold pager_open_journal.
  wp_bind. apply wpc_assert; [by rewrite I3, I5|done|]. rewrite I2. cbn [negb Z.eqb SQLITE_OK]. wp_bind. apply wpc_quiet; [done|done|]. intros mem [_ ->].
  destruct (bitvec_create nOrig) as (b & Eb & Hb); [lia|]. rewrite I8, Eb. cbn [fst]. set (p1 := set_pInJournal p (Some b)).
  assert (Hfail : forall rc p' s', rc <> SQLITE_OK -> eState p' = PAGER_WRITER_LOCKED -> conf p' -> SHARED_LOCK <= eLock p' -> (jfd p' = true -> is_Some (cur (jrn s'))) -> cold s' ->
    wp (Ret (rc, if rc =? SQLITE_OK then set_eState p' PAGER_WRITER_CACHEMOD else set_pInJournal p' None)) Q good s').
  { intros rc p' s' Hr Hst Hc Hl Hj Hcold. assert (Hg' : good s') by by apply cold_good. rewrite (proj2 (Z.eqb_neq rc SQLITE_OK)) by done. apply wpc_ret; [done|]. apply Herr; [done|]. split; [done|]. right. right. done. }
  assert (Rest : forall s2 c, dbf s2 = dbf s -> cold s2 -> cur (jrn s2) = Some c -> forall p2, frame p2 = frame (set_jfd p1 true) -> dbSize p2 = nOrig -> dbFileSize p2 = nOrig -> pPCache p2 = pPCache p ->
    wp ('(rc, p) ← writeJournalHdr g (set_journalHdr (set_setMaster (set_journalOff (set_nRec p2 0) 0) false) 0);
        Ret (rc, if rc =? SQLITE_OK then set_eState p PAGER_WRITER_CACHEMOD else set_pInJournal p None)) Q good s2).
  { intros s2 c Edb Hcold Ec p2 Ef E1 E2 E3. unfold frame in Ef. cbn in Ef. injection Ef as F1 F2 F3 F4 F5 F6 F7 F8 F9 F10 F11 F12.
    assert (Hdb : database [] 0 s2) by (apply pristine_database, Hcold). wp_bind.
    apply (wpc_writeJournalHdr _ s2 c [] 0); [destruct I1; split; cbn; congruence|done|cbn; congruence|done|done|by apply cold_journal|done|..].
    - intros ck w s' Edb' HJ Hseg. assert (Hdb' : database [] 0 s') by by apply (database_ext [] 0 s2). assert (Hg' : good s') by by apply (writer_good [] 0 w). cbn [Z.eqb SQLITE_OK]. apply wpc_ret; [done|]. apply (HOK _ w); [|done].
      split; [|split; [exact (segment_eState _ _ _ _ _ Hseg)|]].
      + split; cbn; try congruence; try done; [destruct I1; split; cbn; congruence|split; [rewrite F4; lia|lia]| |by constructor]. exists b. rewrite F10. by split.
      + exists orig. rewrite Edb', Edb. split; [by apply pristine_cur, I7|]. cbn. by rewrite E1, E2, E3.
    - intros rc ck v s' Hr Edb' HJ. apply (Hfail rc); [by intros ->; destruct Hr as [[] _]|cbn; congruence|destruct I1; split; cbn; congruence|cbn; rewrite F4; lia|intros _; rewrite (proj1 HJ); eauto|].
      apply (journal_cold s' v); [|done]. apply (database_ext [] 0 s2); done. }
  assert (Hpass : forall rc p', rc <> SQLITE_OK -> p' = p1 ->
    wp ('(rc, p) ← (if negb (rc =? SQLITE_OK) then Ret (rc, p') else writeJournalHdr g (set_journalHdr (set_setMaster (set_journalOff (set_nRec p' 0) 0) false) 0));
        Ret (rc, if rc =? SQLITE_OK then set_eState p PAGER_WRITER_CACHEMOD else set_pInJournal p None)) Q good s).
  { intros rc p' Hr ->. wp_bind. rewrite (proj2 (Z.eqb_neq rc SQLITE_OK)) by done. apply wpc_ret; [done|]. apply Hfail; [done|done|done|apply I4|done|done]. }
  wp_bind. change (jfd p1) with (jfd p). destruct (jfd p) eqn:Ej.
  - apply wpc_ret; [done|]. cbn [negb Z.eqb SQLITE_OK]. destruct (I6 eq_refl) as [c Ec]. apply (Rest s c); try done. unfold frame; cbn; congruence.
  - assert (Hmoved : forall rc, rc = SQLITE_OK \/ is_error rc ->
      wp (if negb (rc =? SQLITE_OK) then Ret (rc, p1) else rc ← call Open; Ret (rc, if rc =? SQLITE_OK then set_jfd p1 true else p1))
        (fun a s' => wp (let '(rc, p') := a in '(rc, p) ← (if negb (rc =? SQLITE_OK) then Ret (rc, p') else writeJournalHdr g (set_journalHdr (set_setMaster (set_journalOff (set_nRec p' 0) 0) false) 0));
          Ret (rc, if rc =? SQLITE_OK then set_eState p PAGER_WRITER_CACHEMOD else set_pInJournal p None)) Q good s') good s).
    { intros rc [->|Hr]; [|code; apply wpc_ret; [done|]; apply Hpass; [by destruct Hr|done]]. cbn [negb Z.eqb SQLITE_OK]. wp_bind. apply wpc_call; [done|done|]. intros rc s' [[-> ->]|[Hr ->]].
      - destruct (cur (jrn s)) as [c|] eqn:Ec.
        + split; [done|]. apply wpc_ret; [done|]. cbn [negb Z.eqb SQLITE_OK]. by apply (Rest s c).
        + assert (Hc' : cold (update s Jrnl (Some []) (fun _ => False))) by by apply cold_open. assert (Hg' := cold_good _ Hc'). split; [done|]. apply wpc_ret; [done|]. cbn [negb Z.eqb SQLITE_OK]. by apply (Rest _ []).
      - split; [done|]. code. apply wpc_ret; [done|]. apply Hpass; [by destruct Hr|done]. }
    wp_bind. unfold databaseIsUnmoved. destruct (dbSize p1 =? 0); [apply wpc_ret; [done|]; apply Hmoved; by left|]. apply wpc_quiet; [done|done|]. intros rc [_ Hr]. by apply Hmoved.
Qed.

(** ** Saving a page *)

Lemma transact_same p p' s s' c c' cl op E :
  conf p' -> errCode p' = errCode p -> jfd p' = jfd p -> eState p' = eState p -> eLock p' = eLock p -> dbOrigSize p' = dbOrigSize p -> pInJournal p' = pInJournal p ->
  dbf s' = dbf s -> journal cl E c' s' -> transact p s c cl op E -> transact p' s' c' cl op E.
Proof.
  intros Hc E1 E2 E3 E4 E5 E6 E7 HJ [T1 T2 T3 T4 T5 T6 T7 T8 T9 T10]. split; rewrite ?E1, ?E2, ?E3, ?E4, ?E5, ?E6; try done. by apply (database_ext cl E s).
Qed.

Lemma cksum_range n d i ck : in_u 32 ck -> in_u 32 (pager_cksum_loop n d i ck).
Proof. revert i ck. induction n as [|n IH]; intros i ck Hck; cbn; [done|]. destruct (0 <? i); [|done]. apply IH, wrap_u_range. lia. Qed.

(** The bytes of a record. *)
Definition record (pgno ck : Z) (d : bytes) : list (Z * bytes) := [(0, sqlite3Put4byte pgno); (4, d); (4 + szP, sqlite3Put4byte (cksum ck d))].

Lemma record_written c o ck pgno :
  0 <= o -> in_u 32 ck -> 1 <= pgno <= nOrig -> pgno <> mj ->
  let d := page orig pgno in
  record_ok (write_at (write_at (write_at c o (sqlite3Put4byte pgno)) (o + 4) d) (o + 4 + szP) (sqlite3Put4byte (cksum ck d))) o ck pgno.
Proof.
  intros Ho Hck Hp Hmj d. geo. assert (Hd : lenz d = szP) by (apply lenz_page; [done|lia]). unfold PAGER_MAX_PGNO in *. set (w1 := write_at c o _). set (w2 := write_at w1 _ _).
  assert (L1 : o + 4 <= lenz w1) by (unfold w1; rewrite lenz_write_at by (rewrite ?lenz_put; lia); rewrite lenz_put; lia).
  assert (L2 : o + 4 + szP <= lenz w2) by (unfold w2; rewrite lenz_write_at by lia; lia). unfold record_ok, R. split; [rewrite lenz_write_at by (rewrite ?lenz_put; lia); rewrite lenz_put; lia|].
  split; [|split; [|split; [|done]]].
  - unfold field. rewrite slice_write_out by lia. unfold w2. rewrite slice_write_out by lia. unfold w1. pose proof (slice_write_same c o (sqlite3Put4byte pgno) Ho) as X. rewrite lenz_put in X. rewrite X. apply get32_put. unfold in_u. lia.
  - rewrite slice_write_out by lia. unfold w2. assert (Ho' : 0 <= o + 4) by lia. pose proof (slice_write_same w1 (o + 4) d Ho') as X. by rewrite Hd in X.
  - unfold field. assert (Ho' : 0 <= o + 4 + szP) by lia. pose proof (slice_write_same w2 (o + 4 + szP) (sqlite3Put4byte (cksum ck d)) Ho') as X. rewrite lenz_put in X. rewrite X. apply get32_put, cksum_range, Hck.
Qed.

Lemma saved_set (cl op : list Z) x : list_to_set (cl ++ op ++ [x]) = ({[x]} ∪ list_to_set (cl ++ op) : gset Z).
Proof. rewrite app_assoc, (list_to_set_app_L (cl ++ op)). set_solver. Qed.

Lemma wpc_add p s c cl op E pgno pg (Q : Z * Pager -> disk -> Prop) :
  transact p s c cl op E -> segment p c op E -> 1 <= pgno <= nOrig -> pgno <> mj -> pgno ∉ cl ++ op -> pData pg = page orig pgno ->
  (forall p' c' s', transact p' s' c' cl (op ++ [pgno]) E -> segment p' c' (op ++ [pgno]) E -> dbf s' = dbf s ->
     pPCache p' = <[pgno := pg_need_sync pg]> (pPCache p) -> dbSize p' = dbSize p -> dbFileSize p' = dbFileSize p -> Q (SQLITE_OK, p') s') ->
  (forall rc p' s', rc <> SQLITE_OK -> failed p' s' -> Q (rc, p') s') -> wp (pagerAddPageToRollbackJournal p pgno pg) Q good s.
Proof.
  intros Ht Hseg Hp Hmj Hnot Hdata HOK Herr. pose proof Ht as [T1 T2 T3 T4 T5 T6 T7 T8 (b & Eb & Hb) T10]. pose proof T7 as (J1 & J2 & HE & _). pose proof (transact_good _ _ _ _ _ _ Ht) as Hg.
  destruct (segment_bounds _ _ _ _ HE Hseg) as (B1 & B2 & B3). geo. assert (Hd : lenz (page orig pgno) = szP) by (apply lenz_page; [done|lia]). unfold PAGER_MAX_PGNO in *.
  assert (Hmg : forall c off d, align E + 8 <= off -> ~ magic_at c (align E) -> ~ magic_at (write_at c off d) (align E)) by (intros c0 off d Hoff Hn Hm; apply Hn, (magic_write_after c0 off d); [lia|done|done]).
  unfold pagerAddPageToRollbackJournal. set (o := journalOff p) in *. wp_bind. apply wpc_assert; [unfold PAGER_MJ_PGNO; rewrite (proj1 T1); fold mj; by apply negb_true_iff, Z.eqb_neq|done|].
  wp_bind. apply wpc_assert; [apply Z.leb_le; lia|done|]. cbv zeta. set (p1 := set_pg p pgno (pg_need_sync pg)). rewrite Hdata. change (pager_cksum p (page orig pgno)) with (pager_cksum p1 (page orig pgno)).
  assert (Eck : pager_cksum p1 (page orig pgno) = cksum (cksumInit p) (page orig pgno)) by (unfold pager_cksum, cksum; cbn; by rewrite (proj1 T1)). rewrite Eck. change (pageSize p1) with (pageSize p). rewrite (proj1 T1).
  assert (Hseg1 : forall v, keeps o c v -> segment p1 v op E) by (intros v Hv; apply (segment_same p); try done; by apply (segment_keeps _ c)).
  assert (Htr : forall v s', dbf s' = dbf s -> journal cl E v s' -> transact p1 s' v cl op E) by (intros v s' Edb HJ; by apply (transact_same p p1 s s' c v)).
  assert (Hfail : forall rc v s' X, is_ioerr rc -> dbf s' = dbf s -> journal cl E v s' -> keeps o c v -> wp (if negb (rc =? SQLITE_OK) then Ret (rc, p1) else X) Q good s').
  { intros rc v s' X Hr Edb HJ Hk. apply ioerr_error in Hr. code. specialize (Htr v s' Edb HJ). specialize (Hseg1 v Hk). apply wpc_ret; [by apply (transact_good _ _ _ _ _ _ Htr)|]. apply Herr; [by destruct Hr|].
    by apply (transact_failed p1 s' v cl op E). }
  assert (Hwrite : forall v off d s' (K : Z -> prog (Z * Pager)), o <= off -> 0 < lenz d -> dbf s' = dbf s -> journal cl E v s' -> keeps o c v ->
    (forall s2, dbf s2 = dbf s -> journal cl E (write_at v off d) s2 -> keeps o c (write_at v off d) -> wp (K SQLITE_OK) Q good s2) ->
    wp (rc ← call (Write Jrnl off d); if negb (rc =? SQLITE_OK) then Ret (rc, p1) else K rc) Q good s').
  { intros v off d s' K Hoff Hld Edb HJ Hk HK. destruct (saved_chain _ _ _ _ (proj2 (proj2 HJ)) (proj1 (proj2 HJ))) as (_ & _ & Hnm). wp_bind.
    apply (wpc_jwrite cl E v); [done|by apply (database_ext cl E s)|lia|done|apply Hmg; [lia|done]|..].
    - intros s2 Edb2 HJ2. cbn [negb Z.eqb SQLITE_OK]. apply HK; [congruence|done|]. apply (keeps_trans o off c v); [done|done|]. apply keeps_write; lia.
    - intros rc v2 s2 Hr Edb2 HJ2 Hk2. apply (Hfail rc v2); [done|congruence|done|]. by apply (keeps_trans o off c v). }
  assert (Hck : in_u 32 (cksumInit p)) by (destruct (s_fields _ _ _ _ Hseg) as (_ & _ & <- & _); apply get32_range).
  unfold write32bits. apply (Hwrite c); [lia|rewrite lenz_put; lia|done|done|apply keeps_refl|]. intros s1 Edb1 HJ1 Hk1.
  set (w1 := write_at c o _) in *. apply (Hwrite w1 (o + 4)); [lia|lia|done|done|done|]. intros s2 Edb2 HJ2 Hk2. replace (o + szP + 4) with (o + 4 + szP) by lia.
  set (w2 := write_at w1 (o + 4) _) in *. apply (Hwrite w2 (o + 4 + szP)); [lia|rewrite lenz_put; lia|done|done|done|]. intros s3 Edb3 HJ3 Hk3.
  assert (Ho : 0 <= o) by lia. pose proof (record_written c o (cksumInit p) pgno Ho Hck Hp Hmj) as Hrec. cbv zeta in Hrec. fold w1 in Hrec. fold w2 in Hrec. set (w := write_at w2 (o + 4 + szP) _) in *.
  pose proof (Htr w s3 Edb3 HJ3) as Ht3. pose proof (transact_good _ _ _ _ _ _ Ht3) as Hg3. wp_bind. apply wpc_quiet; [done|done|]. intros mem [_ ->]. set (p2 := set_nRec _ _).
  change (pInJournal p2) with (pInJournal p). rewrite Eb. assert (Hn32 : nOrig < 2 ^ 32) by lia. destruct (is_set_set nOrig b (list_to_set (cl ++ op)) pgno [] Hn32 Hb Hp) as (rc & b' & mem' & -> & Hrc & Hb'). destruct (Hrc eq_refl) as [-> ->].
  destruct Hb' as [[_ Hb']|[? _]]; [|done]. apply wpc_ret; [done|]. apply (HOK _ w); try done.
  - destruct Ht3 as [U1 U2 U3 U4 U5 U6 U7 U8 U9 U10]. split; try done.
    + exists b'. split; [done|]. by rewrite saved_set.
    + rewrite app_assoc. apply NoDup_app. split; [done|]. split; [|apply NoDup_singleton]. by intros x Hx ->%list_elem_of_singleton.
  - destruct (Hseg1 w Hk3) as [S1 S2 S3 S4 S5]. split; cbn; try done.
    + change (o + (8 + szP) = align E + szH + count (op ++ [pgno]) * R). pose proof (s_off _ _ _ _ Hseg) as So. fold o in So. rewrite count_app, So. unfold R, count. cbn [length]. lia.
    + rewrite count_app. cbn in S3. rewrite S3. done.
    + intros k x Hk. apply lookup_app_Some in Hk as [Hk|[Hk1' Hk2']]; [by apply S5|]. apply list_lookup_singleton_Some in Hk2' as [E0 <-]. replace (Z.of_nat k) with (count op) by (unfold count; lia).
      rewrite <- (s_off _ _ _ _ Hseg). done.
Qed.

(** ** Writing a page *)

Lemma alter_is {A} (f : A -> A) (m : gmap Z A) k x : m !! k = Some x -> alter f k m = <[k := f x]> m.
Proof.
  intros Hk. apply map_eq. intros i. destruct (decide (k = i)) as [->|Hne]; [by rewrite lookup_alter_eq, lookup_insert_eq, Hk|]. by rewrite lookup_alter_ne, lookup_insert_ne.
Qed.

(** The image after a page is made writeable: it may grow up to the page. *)
Definition opened (V V' : bytes) (pgno : Z) : Prop := V' = V \/ (lenz V <= (pgno - 1) * szP /\ V' = resize V (pgno * szP)).

Definition dirty (p : Pager) (pgno : Z) : Prop := exists pg, pPCache p !! pgno = Some pg /\ PGHDR_DIRTY pg = true.

(** The last steps of [pager_write]: the page, which is dirty, is writeable. *)
Lemma live_writeable p p2 s s2 V c c2 cl op op2 E pgno pg y :
  live p s V c cl op E -> pPCache p !! pgno = Some pg -> transact p2 s2 c2 cl op2 E -> segment p2 c2 op2 E -> dbf s2 = dbf s -> dbSize p2 = dbSize p -> dbFileSize p2 = dbFileSize p ->
  pPCache p2 = <[pgno := y]> (pPCache p) -> pData y = pData pg -> PGHDR_DIRTY y = true -> PGHDR_DONT_WRITE y = false -> (PGHDR_NEED_SYNC pg = true -> PGHDR_NEED_SYNC y = true) ->
  (op2 = op /\ (pgno ∈ cl ++ op \/ nOrig < pgno)) \/ (op2 = op ++ [pgno] /\ pgno <= nOrig /\ PGHDR_NEED_SYNC y = true) ->
  let p3 := set_pPCache p2 (alter pg_writeable pgno (pPCache p2)) in
  let p3 := if dbSize p3 <? pgno then set_dbSize p3 pgno else p3 in
  exists V', opened V V' pgno /\ live p3 s2 V' c2 cl op2 E /\ dirty p3 pgno.
Proof.
  intros (_ & _ & D & HD & HC) Hpg Ht Hseg Edb E1 E2 E3 Ed Edy Ew Es Hor p3. pose proof HC as [[L1 L2] [H2 _] H3 _ _ _]. pose proof (H3 _ _ Hpg) as [[P1 _] _ _ _ _ _ _ _].
  assert (Ea : alter pg_writeable pgno (pPCache p2) = <[pgno := pg_writeable y]> (pPCache p)) by (rewrite E3, (alter_is _ _ pgno y) by apply lookup_insert_eq; by rewrite insert_insert_eq).
  assert (Hlive : forall n, transact (set_dbSize p3 n) s2 c2 cl op2 E /\ segment (set_dbSize p3 n) c2 op2 E) by (intros n; split; [by apply (transact_same p2 _ s2 s2 c2 c2); try apply Ht|by apply (segment_same p2)]).
  assert (Hsame : transact p3 s2 c2 cl op2 E /\ segment p3 c2 op2 E) by (split; [by apply (transact_same p2 _ s2 s2 c2 c2); try apply Ht|by apply (segment_same p2)]).
  assert (Hput : pgno <= dbSize p -> cache_ok (<[pgno := pg_writeable y]> (pPCache p)) (dbSize p) (dbFileSize p) cl op2 D V).
  { intros Hle. destruct Hor as [[-> Hor]|(-> & Hn & Hs)]; [by apply (cache_dirty _ _ _ _ _ _ _ _ pg)|by apply (cache_saving _ _ _ _ _ _ _ _ pg)]. }
  cbn [dbSize set_pPCache p3]. rewrite E1. destruct (Z.ltb_spec (dbSize p) pgno) as [Hlt|Hle].
  - assert (op2 = op) as -> by (destruct Hor as [[? _]|(_ & ? & _)]; [done|lia]). exists (resize V (pgno * szP)). split; [right; split; [rewrite L1; geo; nia|done]|]. split; [|eexists; cbn; rewrite Ea, lookup_insert_eq; by split].
    split; [by apply Hlive|]. split; [by apply Hlive|]. exists D. rewrite Edb. split; [done|]. cbn. rewrite Ea, E2. by apply (cache_new _ (dbSize p) _ _ _ _ _ _ pg).
  - exists V. split; [by left|]. split; [|eexists; cbn; rewrite Ea, lookup_insert_eq; by split]. split; [apply Hsame|]. split; [apply Hsame|]. exists D. rewrite Edb. split; [done|]. cbn. rewrite Ea, E1, E2. by apply Hput.
Qed.

Lemma running_good p s V : running p s V -> good s.
Proof. intros [[[[] _] _]|(c & cl & op & E & Ht & _)]; [by apply cold_good|by apply (transact_good p s c cl op E)]. Qed.

(** From the first write on. *)
Lemma wpc_write_live p s V c cl op E pgno (Q : Z * Pager -> disk -> Prop) :
  live p s V c cl op E -> is_Some (pPCache p !! pgno) ->
  (forall p' s' V' c' op', live p' s' V' c' cl op' E -> opened V V' pgno -> dirty p' pgno -> Q (SQLITE_OK, p') s') ->
  (forall rc p' s', rc <> SQLITE_OK -> failed p' s' -> Q (rc, p') s') ->
  wp (match pPCache p !! pgno with
      | None => Crash
      | Some pg =>
          let pg := sqlite3PcacheMakeDirty pg in
          let p := set_pg p pgno pg in
          _ ← assert (Bool.eqb (match pInJournal p with Some _ => true | None => false end) (jfd p));
          andthen
            (match pInJournal p with
             | None => Ret (SQLITE_OK, p)
             | Some b =>
                 match sqlite3BitvecTestNotNull b pgno with
                 | None => Crash
                 | Some true => Ret (SQLITE_OK, p)
                 | Some false =>
                     if pgno <=? dbOrigSize p then pagerAddPageToRollbackJournal p pgno pg
                     else Ret (SQLITE_OK, if eState p =? PAGER_WRITER_DBMOD then p else set_pg p pgno (pg_need_sync pg))
                 end
             end)
            (fun p =>
               let p := set_pPCache p (alter pg_writeable pgno (pPCache p)) in
               Ret (SQLITE_OK, if dbSize p <? pgno then set_dbSize p pgno else p))
      end) Q good s.
Proof.
  intros Hlive [pg Hpg] HOK Herr. pose proof Hlive as (Ht & Hseg & D & HD & HC). rewrite Hpg. cbv zeta. pose proof Ht as [T1 T2 T3 T4 T5 T6 T7 T8 (b & Eb & Hb) T10]. pose proof (transact_good _ _ _ _ _ _ Ht) as Hg. geo. unfold PAGER_MAX_PGNO in *.
  destruct (ca_page _ _ _ _ _ _ _ HC _ _ Hpg) as [[P1 P1'] P2 P3 P4 P5 P6 P7 P8]. set (y := sqlite3PcacheMakeDirty pg). set (p1 := set_pg p pgno y).
  assert (Ht1 : transact p1 s c cl op E) by (by apply (transact_same p p1 s s c c)). assert (Hseg1 : segment p1 c op E) by by apply (segment_same p).
  wp_bind. apply wpc_assert; [change (pInJournal p1) with (pInJournal p); change (jfd p1) with (jfd p); by rewrite Eb, T3|done|].
  change (pInJournal p1) with (pInJournal p). change (dbOrigSize p1) with (dbOrigSize p). rewrite Eb, T6.
  pose proof (is_set_test nOrig b (list_to_set (cl ++ op)) pgno) as Htest. cbn [sqlite3BitvecTest] in Htest. rewrite Htest; [|lia|done|unfold in_u, PAGER_MAX_PGNO in *; lia].
  assert (Hdone : forall p2 s2 c2 op2 z, transact p2 s2 c2 cl op2 E -> segment p2 c2 op2 E -> dbf s2 = dbf s -> dbSize p2 = dbSize p -> dbFileSize p2 = dbFileSize p ->
    pPCache p2 = <[pgno := z]> (pPCache p) -> pData z = pData pg -> PGHDR_DIRTY z = true -> PGHDR_DONT_WRITE z = false -> (PGHDR_NEED_SYNC pg = true -> PGHDR_NEED_SYNC z = true) ->
    (op2 = op /\ (pgno ∈ cl ++ op \/ nOrig < pgno)) \/ (op2 = op ++ [pgno] /\ pgno <= nOrig /\ PGHDR_NEED_SYNC z = true) ->
    good s2 /\ (SQLITE_OK = SQLITE_OK -> wp (let p := set_pPCache p2 (alter pg_writeable pgno (pPCache p2)) in Ret (SQLITE_OK, if dbSize p <? pgno then set_dbSize p pgno else p)) Q good s2) /\ (SQLITE_OK <> SQLITE_OK -> Q (SQLITE_OK, p2) s2)).
  { intros p2 s2 c2 op2 z X1 X2 X3 X4 X5 X6 X7 X8 X9 X10 X11. pose proof (transact_good _ _ _ _ _ _ X1) as Hg2. split; [done|]. split; [intros _|done]. apply wpc_ret; [done|].
    destruct (live_writeable p p2 s s2 V c c2 cl op op2 E pgno pg z) as (V' & O1 & O2 & O3); try done. by apply (HOK _ _ V' c2 op2). }
  assert (Hquiet : forall z, pData z = pData pg -> PGHDR_DIRTY z = true -> PGHDR_DONT_WRITE z = false -> (PGHDR_NEED_SYNC pg = true -> PGHDR_NEED_SYNC z = true) -> pgno ∈ cl ++ op \/ nOrig < pgno ->
    good s /\ (SQLITE_OK = SQLITE_OK -> wp (let p := set_pPCache (set_pg p pgno z) (alter pg_writeable pgno (pPCache (set_pg p pgno z))) in Ret (SQLITE_OK, if dbSize p <? pgno then set_dbSize p pgno else p)) Q good s) /\ (SQLITE_OK <> SQLITE_OK -> Q (SQLITE_OK, set_pg p pgno z) s)).
  { intros z Z1 Z2 Z3 Z4 Z5. apply (Hdone _ s c op z); try done; [by apply (transact_same p _ s s c c)|by apply (segment_same p)|by left]. }
  apply wpc_andthen. destruct (bool_decide_reflect (pgno ∈ (list_to_set (cl ++ op) : gset Z))) as [Hin|Hnin].
  - apply wpc_ret; [done|]. apply elem_of_list_to_set in Hin. apply Hquiet; try done. by left.
  - assert (Hnot : pgno ∉ cl ++ op) by (intros Hin; apply Hnin; by apply elem_of_list_to_set). destruct (Z.leb_spec pgno nOrig) as [Hle|Hgt].
    + apply (wpc_add p1 s c cl op E); [done|done|lia|done|done|apply P6; [done|done]|..].
      * intros p' c' s' Ht' Hseg' Edb Ec E1 E2. apply (Hdone p' s' c' (op ++ [pgno]) (pg_need_sync y)); try done; [by rewrite Ec; cbn; rewrite insert_insert_eq|by right].
      * intros rc p' s' Hr Hf. split; [apply Hf|]. split; [done|]. intros _. by apply Herr.
    + apply wpc_ret; [done|]. change (eState p1) with (eState p). destruct (eState p =? PAGER_WRITER_DBMOD).
      * apply Hquiet; try done. by right.
      * replace (set_pg p1 pgno (pg_need_sync y)) with (set_pg p pgno (pg_need_sync y)) by (unfold p1, set_pg; cbn; by rewrite insert_insert_eq). apply Hquiet; try done. by right.
Qed.

Lemma wpc_pager_write p s V pgno (Q : Z * Pager -> disk -> Prop) :
  running p s V -> is_Some (pPCache p !! pgno) ->
  (forall p' s' V' c' cl' op' E', live p' s' V' c' cl' op' E' -> opened V V' pgno -> dirty p' pgno -> Q (SQLITE_OK, p') s') ->
  (forall rc p' s', rc <> SQLITE_OK -> failed p' s' -> Q (rc, p') s') -> wp (pager_write g p pgno) Q good s.
Proof.
  intros Hrun Hpg HOK Herr. pose proof (running_good _ _ _ Hrun) as Hg. unfold pager_write. wp_bind. apply wpc_assert; [|done|].
  { destruct Hrun as [[[Hi _] _]|(c & cl & op & E & Ht & _)]; [by rewrite (i_state _ _ _ Hi), (i_err _ _ _ Hi)|rewrite (t_state _ _ _ _ _ _ Ht), (t_err _ _ _ _ _ _ Ht); by destruct (E =? 0)]. }
  apply wpc_andthen. destruct Hrun as [[Hb ->]|(c & cl & op & E & Hlive)].
  - assert (Est : eState p = PAGER_WRITER_LOCKED) by by destruct Hb as [Hi _]; apply (i_state _ _ _ Hi). rewrite Est, Z.eqb_refl. apply wpc_open_journal; [done|..].
    + intros p' c s' Hlive Ec. split; [by apply (transact_good p' s' c [] [] 0), Hlive|]. split; [intros _|done]. apply (wpc_write_live p' s' orig c [] [] 0); [done|by rewrite Ec|..]; [|done]. intros. by eapply HOK.
    + intros rc p' s' Hr Hf. split; [apply Hf|]. split; [done|]. intros _. by apply Herr.
  - assert (Est : (eState p =? PAGER_WRITER_LOCKED) = false) by (destruct Hlive as [Ht _]; rewrite (t_state _ _ _ _ _ _ Ht); by destruct (E =? 0)). rewrite Est. apply wpc_ret; [done|]. split; [done|]. split; [intros _|done].
    apply (wpc_write_live p s V c cl op E); [done|done|..]; [|done]. intros. by eapply HOK.
Qed.

Lemma wpc_sqlite3PagerWrite p s V pgno (Q : Z * Pager -> disk -> Prop) :
  running p s V -> is_Some (pPCache p !! pgno) ->
  (forall p' s' V' c' cl' op' E', live p' s' V' c' cl' op' E' -> opened V V' pgno -> dirty p' pgno -> Q (SQLITE_OK, p') s') ->
  (forall rc p' s', rc <> SQLITE_OK -> failed p' s' -> Q (rc, p') s') -> wp (sqlite3PagerWrite g p pgno) Q good s.
Proof.
  intros Hrun Hpg HOK Herr. pose proof (running_good _ _ _ Hrun) as Hg. pose proof Hpg as [pg Epg].
  assert (Hst : PAGER_WRITER_LOCKED <= eState p /\ errCode p = SQLITE_OK /\ conf p).
  { destruct Hrun as [[[Hi _] _]|(c & cl & op & E & Ht & _)]; [by destruct Hi as [? ? -> ? ? ? ? ? ?]|destruct Ht as [? ? ? -> ? ? ? ? ? ?]; by destruct (E =? 0)]. }
  destruct Hst as (Hst & Hec & Hps & Hss). unfold sqlite3PagerWrite. wp_bind. apply wpc_assert; [by apply Z.leb_le|done|]. rewrite Epg, Hec, Hps, Hss. cbn [negb Z.eqb SQLITE_OK].
  rewrite (proj2 (Z.ltb_ge szP szH)) by (geo; lia). destruct (PGHDR_WRITEABLE pg && (pgno <=? dbSize p)) eqn:Ew; [|by apply (wpc_pager_write p s V)]. apply andb_true_iff in Ew as [Ew _].
  apply wpc_ret; [done|]. assert (Hd : dirty p pgno /\ exists c cl op E, live p s V c cl op E).
  { destruct Hrun as [[[Hi _] _]|(c & cl & op & E & Hlive)].
    - exfalso. destruct (ca_page _ _ _ _ _ _ _ (i_image _ _ _ Hi) _ _ Epg) as [P1 P2 P3 P4 P5 P6 P7 P8]. assert (Hd : PGHDR_DIRTY pg = true) by (apply P5; by left).
      destruct (Z.leb_spec pgno nOrig); [destruct P6 as [_ ?]; [done|by intros ?%elem_of_nil|congruence]|rewrite P4 in Hd by lia; done].
    - split; [|by exists c, cl, op, E]. destruct Hlive as (_ & _ & D & _ & HC). exists pg. split; [done|]. apply (pg_flags _ _ _ _ _ _ (ca_page _ _ _ _ _ _ _ HC _ _ Epg)). by left. }
  destruct Hd as (Hd & c & cl & op & E & Hlive). apply (HOK p s V c cl op E); [done|by left|done].
Qed.

(** The client changes a page that is writeable. *)
Lemma live_data p s V c cl op E pgno d :
  live p s V c cl op E -> dirty p pgno -> lenz d = szP -> live (set_pPCache p (alter (fun pg => pg_set_data pg d) pgno (pPCache p))) s (write_at V ((pgno - 1) * szP) d) c cl op E.
Proof.
  intros (Ht & Hseg & D & HD & HC) (pg & Hpg & Hd) Hl. split; [by apply (transact_same p _ s s c c); try apply Ht|]. split; [by apply (segment_same p)|]. exists D. split; [done|].
  rewrite (alter_is _ _ _ _ Hpg). by apply cache_data.
Qed.

Lemma opened_write V V' pgno d : 1 <= pgno -> lenz d = szP -> opened V V' pgno -> write_at V' ((pgno - 1) * szP) d = write_at V ((pgno - 1) * szP) d.
Proof. intros Hp Hd [->|[Hl ->]]; [done|]. apply write_resize; [done|done|geo; nia]. Qed.

End write.
