(* ===== verification/PagerSync.v ===== *)
(** Syncing the journal and writing pages to the database: the records of the open segment
    are synced, then the header that counts them, and then pages are written, at a commit
    or when the cache must make room. *)
From S2P Require Import Prelude Varint VarintSpec Bitvec BitvecSpec Disk DiskSpec Pager PagerPlayback PagerRecovery PagerTransaction PagerWrite.

(** * Syncing the journal: the records of the open segment are synced, then the header that
    counts them. *)

Section sync.
Context {G : geometry} (g : config).
Hypothesis Hsync : noSync g = false.
Hypothesis Hfull : fullSync g = true.
Hypothesis Hdc : Z.land (iDc g) SQLITE_IOCAP_SAFE_APPEND = 0 /\ Z.land (iDc g) SQLITE_IOCAP_SEQUENTIAL = 0.

Local Abbreviation wp := (wpc szS).

(** ** Closing a segment *)

Definition closed_header (op : list Z) : bytes := aJournalMagic ++ sqlite3Put4byte (count op).

Lemma count_bound (op : list Z) n : 0 <= n -> NoDup op -> (forall x, x ∈ op -> 1 <= x <= n) -> count op <= n.
Proof.
  intros Hn Hnd Hr. unfold count. assert (Hl : (length op <= length (seqZ 1 n))%nat) by (apply submseteq_length, NoDup_submseteq; [done|]; intros x Hx%Hr; apply elem_of_seqZ; lia).
  rewrite length_seqZ in Hl. lia.
Qed.

Section close.
Context (p : Pager) (c : bytes) (cl op : list Z) (E : Z).
Hypothesis HE : 0 <= E.
Hypothesis Hseg : segment p c op E.
Hypothesis Hchain : chain c 0 cl E /\ E <= lenz c.
Hypothesis Hcount : count op <= nOrig.
Hypothesis Hnext : ~ magic_at c (align (journalOff p)).

Let w := write_at c (align E) (closed_header op).

Lemma closing_len : lenz w = lenz c.
Proof. pose proof (align_bounds E HE). destruct (s_fields _ _ _ _ Hseg) as (Hl & _). unfold w. geo. rewrite lenz_write_at; [|lia|done]. change (lenz (closed_header op)) with 12. lia. Qed.

Lemma closing_get i : i < align E \/ align E + 12 <= i -> get w i = get c i.
Proof.
  intros Hi. pose proof (align_bounds E HE). destruct (Z.ltb_spec i (lenz c)); [|rewrite !get_None by (rewrite ?closing_len; lia); done].
  apply get_write_out; [lia|done|]. change (lenz (closed_header op)) with 12. lia.
Qed.

Lemma closing_fields : header_fields w (align E) (count op) (cksumInit p).
Proof.
  destruct (s_fields _ _ _ _ Hseg) as (F1 & F2 & F3 & F4 & F5 & F6). pose proof (align_bounds E HE). geo. split; [by rewrite closing_len|].
  assert (HF : forall d, 12 <= d -> field w (align E + d) = field c (align E + d)) by (intros; apply field_ext; [lia|]; intros i Hi; apply closing_get; lia).
  rewrite (HF 12), (HF 16), (HF 20), (HF 24) by lia. split; [|done]. unfold field. unfold w. rewrite slice_write_part; [|lia|lia|lia|change (lenz (closed_header op)) with 12; lia].
  replace (align E + 8 - align E) with 8 by lia. change (slice (closed_header op) 8 4) with (sqlite3Put4byte (count op)). apply get32_put. pose proof (count_nonneg op). unfold in_u, PAGER_MAX_PGNO in *. lia.
Qed.

Lemma closing_chain : chain w 0 (cl ++ op) (journalOff p) /\ journalOff p <= lenz w.
Proof.
  pose proof (align_bounds E HE). geo. pose proof R_pos. pose proof (count_nonneg op). destruct (s_fields _ _ _ _ Hseg) as (Hl & _). pose proof closing_len as Hlw. pose proof (s_records _ _ _ _ Hseg) as Hr.
  assert (Hlast : align E + szH + count op * R <= lenz c).
  { destruct op as [|x q _] using rev_ind; [unfold count; cbn; lia|]. rewrite count_app in *. destruct (Hr (length q) x) as (Hlx & _); [by rewrite lookup_app_r, Nat.sub_diag by lia|]. unfold count in *. cbn [length]. lia. }
  rewrite (s_off _ _ _ _ Hseg). split; [|lia]. apply (hot_chain_snoc w 0 cl E (cksumInit p)).
  - apply (chain_ext c); [done|lia| |apply Hchain]. intros i Hi. apply closing_get. lia.
  - split; [|split; [apply closing_fields|unfold PAGER_MAX_PGNO in *; lia]]. unfold magic_at, w. rewrite slice_write_part; [|lia|lia|lia|change (lenz (closed_header op)) with 12; lia].
    by rewrite Z.sub_diag.
  - apply (records_ext c); [lia|lia| |done]. intros i Hi. apply closing_get. lia.
Qed.

Lemma closing_next : ~ magic_at w (align (journalOff p)).
Proof.
  destruct (segment_bounds _ _ _ _ HE Hseg) as (B1 & B2 & B3). geo. assert (Ho : 0 <= journalOff p) by lia. pose proof (align_bounds _ Ho).
  intros Hm. apply Hnext. apply (magic_ext w); [lia| |done]. intros i Hi. apply closing_get. lia.
Qed.

Lemma closing_hot : hot w (cl ++ op).
Proof.
  destruct (segment_bounds _ _ _ _ HE Hseg) as (B1 & B2 & B3). geo. exists (journalOff p). split; [lia|]. split; [apply closing_chain|apply closing_next].
Qed.

(** Between the two syncs, the journal has the old header or the new one. *)
Definition closing (s : disk) : Prop := (forall x, poss (jrn s) x -> x = Some c \/ x = Some w) /\ poss (jrn s) (cur (jrn s)).

Lemma closing_survives s x : closing s -> survives szS (jrn s) x -> x = Some c \/ x = Some w.
Proof.
  intros [Hs _] Hx. destruct x as [img|]; [|by destruct (Hs _ Hx)]. cbn in Hx. destruct (align_multiple E HE) as (k & Hk & Ek). geo.
  destruct (mixed_two szS (fun v => poss (jrn s) (Some v)) c w k img) as [->| ->]; [lia|done| |apply closing_len| |done|by left|by right].
  - intros v Hv. destruct (Hs _ Hv) as [[= ->]|[= ->]]; [by left|by right].
  - intros i _ Hi. apply closing_get. rewrite Ek. destruct Hi; [left; lia|right; lia].
Qed.

Lemma closing_good s : closing s -> database cl E s -> ~ magic_at c (align E) -> good s.
Proof.
  intros Hc [D1 D2] Hn. split; [|by split; [apply D1|apply Hc]]. destruct (Z.eq_dec E 0) as [E0|Hne].
  - apply pristine_sound; [by apply D2|]. intros j Hj. destruct (closing_survives s j Hc Hj) as [->| ->]; [left; rewrite E0 in Hn; exact Hn|right; exists w, (cl ++ op); split; [done|apply closing_hot]].
  - apply (safe_sound cl); [done|]. intros j Hj. destruct (closing_survives s j Hc Hj) as [->| ->].
    + exists c, cl. split; [done|]. split; [|done]. exists E. split; [lia|]. by split; [apply Hchain|].
    + exists w, (cl ++ op). split; [done|]. split; [apply closing_hot|]. intros x Hx. apply elem_of_app. by left.
Qed.

(** A failure leaves a transaction that can be rolled back. *)
Lemma closing_undo s :
  conf p -> jfd p = true -> RESERVED_LOCK <= eLock p -> (0 < E -> eLock p = EXCLUSIVE_LOCK) -> eState p = (if E =? 0 then PAGER_WRITER_CACHEMOD else PAGER_WRITER_DBMOD) ->
  closing s -> database cl E s -> ~ magic_at c (align E) -> undo p s.
Proof.
  intros T1 T2 T3 T4 T5 Hc Hd Hn. pose proof (closing_good s Hc Hd Hn) as Hg. destruct Hd as [D1 D2]. pose proof (align_bounds E HE). pose proof (segment_bounds _ _ _ _ HE Hseg) as (_ & _ & Hhdr).
  split; [done|]. split; [done|]. split; [done|]. split; [done|]. destruct (s_fields _ _ _ _ Hseg) as (F1 & F2 & F3 & F4 & F5 & F6). destruct closing_fields as (W1 & W2 & W3 & W4 & W5 & W6).
  assert (Hcur : exists v, cur (jrn s) = Some v /\ (v = c \/ v = w)) by (destruct (proj1 Hc _ (proj2 Hc)) as [->| ->]; eauto). destruct Hcur as (v & Ev & Hv). exists v. split; [done|].
  split; [destruct Hv as [->| ->]; lia|]. destruct (Z.eqb_spec E 0) as [E0|Hne].
  - left. split; [done|]. split; [by apply D2|]. rewrite E0 in F4, F5, F6, W4, W5, W6. change (align 0) with 0 in *. cbn [Z.add] in *. by destruct Hv as [->| ->].
  - right. split; [done|]. split; [apply T4; lia|]. exists cl, E. split; [lia|]. split; [|split; [done|split; [lia|]]].
    + destruct Hv as [->| ->]; [apply Hchain|]. apply (chain_ext c); [done|rewrite closing_len; apply Hchain| |apply Hchain]. intros i Hi. apply closing_get. lia.
    + intros j Hj. destruct (closing_survives s j Hc Hj) as [->| ->].
      * exists c, cl. split; [done|]. split; [|done]. exists E. split; [lia|]. by split; [apply Hchain|].
      * exists w, (cl ++ op). split; [done|]. split; [apply closing_hot|]. intros x Hx. apply elem_of_app. by left.
Qed.

End close.

(** ** The steps of [syncJournal] *)

Lemma transact_count p s c cl op E : transact p s c cl op E -> count op <= nOrig.
Proof.
  intros [_ _ _ _ _ _ _ _ (b & _ & Hb) Hnd]. geo. apply NoDup_app in Hnd as (_ & _ & Hnd). apply count_bound; [lia|done|]. intros x Hx. destruct Hb as [_ _ _ Hr]. apply Hr, elem_of_list_to_set, elem_of_app. by right.
Qed.

(** The records are synced. *)
Definition sealing (p : Pager) (c : bytes) (cl op : list Z) (E : Z) (s : disk) : Prop :=
  segment p c op E /\ (chain c 0 cl E /\ E <= lenz c) /\ ~ magic_at c (align (journalOff p)) /\ ~ magic_at c (align E) /\ closing c op E s.

Lemma sealing_undo p s s' c c' cl op E : transact p s c cl op E -> dbf s' = dbf s -> sealing p c' cl op E s' -> undo p s'.
Proof.
  intros Ht Edb (S1 & S2 & S3 & S4 & S5). pose proof (transact_count _ _ _ _ _ _ Ht) as Hcount. destruct Ht as [T1 T2 T3 T4 [T5 T5'] T6 T7 T8 T9 T10].
  apply (closing_undo p c' cl op E); try done; [apply T7|lia|by apply (database_ext cl E s)].
Qed.

Lemma sealing_good p s s' c c' cl op E : transact p s c cl op E -> dbf s' = dbf s -> sealing p c' cl op E s' -> good s'.
Proof. intros Ht Edb Hs. destruct (sealing_undo _ _ _ _ _ _ _ _ Ht Edb Hs) as (_ & _ & _ & ? & _). done. Qed.

Lemma next_free c o : 0 <= o -> ~ magic_at (write_at c o [0]) o.
Proof. intros Ho. by apply (magic_write_first c o [0] 0). Qed.

(** A stale header where the next one will be is overwritten. *)
Lemma wpc_next_header p s c cl op E (K : Z -> prog Z) (Q : Z -> disk -> Prop) :
  transact p s c cl op E -> segment p c op E ->
  (forall rc c' s', (rc = SQLITE_OK \/ rc = SQLITE_IOERR_SHORT_READ) -> transact p s' c' cl op E -> segment p c' op E -> dbf s' = dbf s -> ~ magic_at c' (align (journalOff p)) -> wp (K rc) Q good s') ->
  (forall rc s', is_error rc -> failed p s' -> wp (K rc) Q good s') ->
  wp ('(rc, aMagic) ← call (Read Jrnl (journalHdrOffset p) 8);
      rc ← (if (rc =? SQLITE_OK) && bool_decide (aMagic = aJournalMagic) then call (Write Jrnl (journalHdrOffset p) [0]) else Ret rc); K rc) Q good s.
Proof.
  intros Ht Hseg HOK Herr. pose proof Ht as [T1 T2 T3 T4 T5 T6 T7 T8 T9 T10]. pose proof T7 as (J1 & J2 & HE & _). pose proof (transact_good _ _ _ _ _ _ Ht) as Hg. destruct (segment_bounds _ _ _ _ HE Hseg) as (B1 & B2 & B3). geo.
  assert (Ho : 0 <= journalOff p) by lia. pose proof (align_bounds _ Ho) as Hn. rewrite journalHdrOffset_align by done. set (o := align (journalOff p)) in *.
  destruct (saved_chain _ _ _ _ (proj2 (proj2 T7)) J2) as (_ & _ & Hnm).
  wp_bind. apply (wpc_read _ _ _ _ c); [done|done|lia|lia|..].
  - intros Hl. wp_bind. cbn [Z.eqb SQLITE_OK andb]. destruct (bool_decide_reflect (slice c o 8 = aJournalMagic)) as [Hm|Hm]; [|apply wpc_ret; [done|]; apply (HOK _ c); (auto || done)].
    apply (wpc_jwrite cl E c); [done|done|lia|done|..].
    + intros Hm'. apply Hnm, (magic_write_after c o [0]); [lia|lia|done].
    + intros s' Edb HJ. apply (HOK _ (write_at c o [0])); [by left|by apply (transact_same p p s s' c)| |done|by apply next_free; lia]. apply (segment_keeps p c); [done|done|].
      apply (keeps_le _ o); [lia|]. by apply keeps_write; [lia|].
    + intros rc v s' Hr Edb HJ Hk. apply Herr; [by apply ioerr_error|]. apply (transact_failed p s' v cl op E); [by apply (transact_same p p s s' c)|]. apply (segment_keeps p c); [done|done|]. by apply (keeps_le _ o); [lia|].
  - intros Hl. wp_bind. cbn [Z.eqb SQLITE_OK andb]. change (SQLITE_IOERR_SHORT_READ =? SQLITE_OK) with false. cbn [andb]. apply wpc_ret; [done|]. apply (HOK _ c); [by right|done|done|done|]. intros Hm. apply magic_len in Hm; lia.
  - intros rc d Hr _. wp_bind. code. apply wpc_ret; [done|]. apply Herr; [done|]. by apply (transact_failed p s c cl op E).
Qed.

(** The header is written over one that is synced. *)
Lemma sealing_write p s c c' cl op E v :
  transact p s c cl op E -> segment p c op E -> ~ magic_at c (align (journalOff p)) -> (forall x, poss (jrn s) x -> x = Some c) ->
  mixed szS (fun v => v = c \/ write_versions c (align E) (closed_header op) v) v -> c' = c ->
  sealing p c' cl op E (update s Jrnl (Some v) (lift (write_versions c (align E) (closed_header op)))).
Proof.
  intros Ht Hseg Hnext Hall Hv ->. pose proof (transact_count _ _ _ _ _ _ Ht) as Hcount. destruct Ht as [T1 T2 T3 T4 T5 T6 T7 T8 T9 T10]. pose proof T7 as (J1 & J2 & HJ). pose proof HJ as [HE _]. destruct (saved_chain _ _ _ _ HJ J2) as (Hc & Hl & Hnm). geo.
  pose proof (closing_len p c op E HE Hseg) as Hlw. destruct (align_multiple E HE) as (k & Hk & Ek). assert (Hver : forall u, u = c \/ write_versions c (align E) (closed_header op) u -> u = c \/ u = write_at c (align E) (closed_header op)).
  { intros u [->|[->|Hg]]; [by left|by right|left]. by eapply grown_same. }
  split; [done|]. split; [done|]. split; [done|]. split; [done|]. split; [|by right; left]. intros x [Hx|[->|Hx]]; [left; by apply Hall| |].
  - destruct (mixed_two szS (fun v => v = c \/ write_versions c (align E) (closed_header op) v) c (write_at c (align E) (closed_header op)) k v) as [->| ->]; [lia|done|exact Hver|done| |done|by left|by right].
    intros i _ Hi. apply (closing_get p c op E HE Hseg). rewrite Ek. destruct Hi; [left; lia|right; lia].
  - destruct x as [u|]; [|done]. destruct (Hver u) as [->| ->]; [by right|by left|by right].
Qed.

Definition sync_header (p : Pager) : prog Z :=
  '(rc, aMagic) ← call (Read Jrnl (journalHdrOffset p) 8);
  rc ← (if (rc =? SQLITE_OK) && bool_decide (aMagic = aJournalMagic) then call (Write Jrnl (journalHdrOffset p) [0]) else Ret rc);
  if negb (rc =? SQLITE_OK) && negb (rc =? SQLITE_IOERR_SHORT_READ) then Ret rc else
  rc ← (if fullSync g && negb (negb (Z.land (iDc g) SQLITE_IOCAP_SEQUENTIAL =? 0)) then call (Sync Jrnl) else Ret SQLITE_OK);
  if negb (rc =? SQLITE_OK) then Ret rc else call (Write Jrnl (journalHdr p) (aJournalMagic ++ sqlite3Put4byte (nRec p))).

Lemma wpc_sync_header p s c cl op E (Q : Z -> disk -> Prop) :
  transact p s c cl op E -> segment p c op E ->
  (forall c' s', dbf s' = dbf s -> sealing p c' cl op E s' -> cur (jrn s') = Some (write_at c' (align E) (closed_header op)) -> Q SQLITE_OK s') ->
  (forall rc s', is_error rc -> failed p s' -> Q rc s') -> wp (sync_header p) Q good s.
Proof.
  intros Ht Hseg HOK Herr. unfold sync_header. rewrite Hfull, (proj2 Hdc). cbn [Z.eqb negb andb]. apply (wpc_next_header p s c cl op E); [done|done|..].
  - intros rc c' s' Hr Ht' Hseg' Edb Hnm. assert (E0 : negb (rc =? SQLITE_OK) && negb (rc =? SQLITE_IOERR_SHORT_READ) = false) by by destruct Hr as [->| ->]. rewrite E0. clear rc Hr E0.
    pose proof (transact_good _ _ _ _ _ _ Ht') as Hg. pose proof (t_journal _ _ _ _ _ _ Ht') as HJ. assert (HJ' := journal_settle _ _ _ _ HJ). wp_bind.
    assert (Ht2 : transact p (settle s' Jrnl) c' cl op E) by (apply (transact_same p p s' _ c'); try done; apply Ht').
    apply wpc_sync; [done|exists c'; exact (proj1 HJ)|split; [by apply (transact_good _ _ _ _ _ _ Ht2)|]|].
    + cbn [negb Z.eqb SQLITE_OK]. pose proof HJ' as (J1 & _). assert (Hall : forall x, poss (jrn (settle s' Jrnl)) x -> x = Some c') by (intros x Hx; cbn in Hx; rewrite Hx; apply HJ). assert (Edb2 : dbf (settle s' Jrnl) = dbf s') by done. set (s2 := settle s' Jrnl) in *. clearbody s2. rewrite (s_hdr _ _ _ _ Hseg'), (s_nrec _ _ _ _ Hseg'). change (aJournalMagic ++ sqlite3Put4byte (count op)) with (closed_header op).
      apply (wpc_write _ _ _ _ c'); [by apply (transact_good _ _ _ _ _ _ Ht2)|done|..].
      * assert (Hs := sealing_write p s2 c' c' cl op E (write_at c' (align E) (closed_header op)) Ht2 Hseg' Hnm Hall ltac:(apply mixed_self; right; by left) eq_refl).
        split; [by apply (sealing_good p s2 _ c' c' cl op E)|]. apply (HOK c'); [cbn; congruence|done|done].
      * intros rc v Hr Hv. assert (Hs := sealing_write p s2 c' c' cl op E v Ht2 Hseg' Hnm Hall Hv eq_refl). assert (Hu : undo p (update s2 Jrnl (Some v) (lift (write_versions c' (align E) (closed_header op))))) by by apply (sealing_undo p s2 _ c' c' cl op E).
        split; [by apply (sealing_good p s2 _ c' c' cl op E)|]. apply Herr; [by apply ioerr_error|]. split; [by apply (sealing_good p s2 _ c' c' cl op E)|]. right. by left.
    + intros rc Hr. apply ioerr_error in Hr. code. apply wpc_ret; [done|]. apply Herr; [done|]. by apply (transact_failed p s' c' cl op E).
  - intros rc s' Hr Hf. code. apply wpc_ret; [apply Hf|]. by apply Herr.
Qed.

(** The header is synced. *)
Lemma sealed_journal p s c cl op E :
  0 <= E -> count op <= nOrig -> sealing p c cl op E s -> cur (jrn s) = Some (write_at c (align E) (closed_header op)) ->
  journal (cl ++ op) (journalOff p) (write_at c (align E) (closed_header op)) (settle s Jrnl) /\ 0 < journalOff p.
Proof.
  intros HE Hcount (S1 & S2 & S3 & S4 & S5) Hcur. destruct (segment_bounds _ _ _ _ HE S1) as (B1 & B2 & B3). geo. split; [|lia].
  destruct (closing_chain p c cl op E HE S1 S2 Hcount) as [Hc Hl]. pose proof (closing_next p c op E HE S1 S3) as Hn. split; [done|]. split; [by cbn|]. split; [lia|].
  eexists. split; [exact Hl|]. split; [exact Hc|]. intros x Hx. cbn in Hx. rewrite Hcur in Hx. subst x. by split.
Qed.

(** A transaction all whose records are synced. *)
Definition synced (newHdr : bool) (p' : Pager) (s' : disk) (V c' : bytes) (cl' : list Z) (E' : Z) : Prop :=
  transact p' s' c' cl' [] E' /\ 0 < E' /\ imaged p' s' cl' [] V /\ if newHdr then segment p' c' [] E' else journalHdr p' = E' /\ journalOff p' = E'.

Lemma wpc_syncJournal p s V c cl op E newHdr (Q : Z * Pager -> disk -> Prop) :
  live p s V c cl op E ->
  (forall p' s' c' E', synced newHdr p' s' V c' (cl ++ op) E' -> pPCache p' = sqlite3PcacheClearSyncFlags (pPCache p) -> dbSize p' = dbSize p -> changeCountDone p' = changeCountDone p -> Q (SQLITE_OK, p') s') ->
  (forall rc p' s', rc <> SQLITE_OK -> failed p' s' \/ (newHdr = true /\ is_ioerr rc /\ good s') -> Q (rc, p') s') -> wp (syncJournal g p newHdr) Q good s.
Proof.
  intros (Ht & Hseg & D & HD & HC) HOK Herr. pose proof (transact_good _ _ _ _ _ _ Ht) as Hg. pose proof (transact_count _ _ _ _ _ _ Ht) as Hcount. pose proof Ht as [T1 T2 T3 T4 [T5 T5'] T6 T7 T8 (b & Eb & Hb) T10]. pose proof T7 as (_ & _ & HE & _).
  unfold syncJournal. wp_bind. apply wpc_assert; [rewrite T4; by destruct (E =? 0)|done|]. rewrite (proj1 Hdc). cbn [Z.eqb negb]. cbv zeta.
  apply wpc_andthen. unfold sqlite3PagerExclusiveLock. rewrite T2. cbn [negb Z.eqb SQLITE_OK]. apply wpc_lock; [done|done|lia| |].
  2: { intros rc Hr. split; [done|]. split; [by intros ->; destruct Hr|]. intros _. apply Herr; [by destruct Hr|]. left. by apply (transact_failed p s c cl op E). }
  intros lk Hlk. assert (lk = EXCLUSIVE_LOCK) as -> by (rewrite <- Hlk; lia). split; [done|]. split; [intros _|done]. set (p1 := set_eLock p EXCLUSIVE_LOCK).
  assert (Ht1 : transact p1 s c cl op E) by (split; try done; by exists b). assert (Hseg1 : segment p1 c op E) by by apply (segment_same p).
  assert (E1 : pPCache p1 = pPCache p /\ dbSize p1 = dbSize p /\ dbFileSize p1 = dbFileSize p /\ changeCountDone p1 = changeCountDone p /\ eLock p1 = EXCLUSIVE_LOCK) by done. clearbody p1. destruct E1 as (C1 & C2 & C3 & C4 & C5).
  clear T2 T3 T4 T5 T5' b Eb Hb T6 T10. pose proof Ht1 as [T1' T2 T3 T4 [T5 T5'] T6 _ _ (b & Eb & Hb) T10]. rewrite Hsync, T3.
  apply wpc_andthen. wp_bind.
  assert (Hfail : forall rc p2 s2, rc <> SQLITE_OK -> failed p2 s2 \/ (newHdr = true /\ is_ioerr rc /\ good s2) -> good s2 /\
    (rc = SQLITE_OK -> wp (Ret (SQLITE_OK, set_eState (set_pPCache p2 (sqlite3PcacheClearSyncFlags (pPCache p2))) PAGER_WRITER_DBMOD)) Q good s2) /\ (rc <> SQLITE_OK -> Q (rc, p2) s2)).
  { intros rc p2 s2 Hr Hf. split; [by destruct Hf as [[? _]|(_ & _ & ?)]|]. split; [done|]. intros _. by apply Herr. }
  apply (wpc_sync_header p1 s c cl op E); [done|done|..].
  2: { intros rc s' Hr Hf. code. apply wpc_ret; [apply Hf|]. apply Hfail; [by destruct Hr|by left]. }
  intros c' s' Edb Hs Hcur. rewrite (proj2 Hdc). cbn [negb Z.eqb SQLITE_OK]. wp_bind. pose proof (sealing_good p1 s s' c c' cl op E Ht1 Edb Hs) as Hg'.
  destruct (sealed_journal p1 s' c' cl op E HE Hcount Hs Hcur) as [HJ HE']. set (w := write_at c' (align E) (closed_header op)) in *. set (s2 := settle s' Jrnl) in *. assert (Edb2 : dbf s2 = dbf s) by done.
  assert (Hdb : database (cl ++ op) (journalOff p1) s2).
  { split; [|lia]. destruct T8 as [[D1 D2] _]. unfold safe. rewrite Edb2. split; [|done]. intros x Hx. destruct (D1 x Hx) as (D' & -> & Hk). exists D'. split; [done|]. eapply kept_mono; [|done]. intros y Hy. apply elem_of_app. by left. }
  assert (Hg2 : good s2) by by apply (writer_good (cl ++ op) (journalOff p1) w).
  apply wpc_sync; [done|exists w; done|split; [done|]|].
  2: { intros rc Hr. apply ioerr_error in Hr. code. apply wpc_ret; [done|]. apply Hfail; [by destruct Hr|]. left. split; [done|]. right. left. by apply (sealing_undo p1 s s' c c' cl op E). }
  cbn [negb Z.eqb SQLITE_OK]. fold s2. clearbody s2. clear Hs Hg' Hcur s' Edb. rewrite andb_true_r.
  assert (Hfinal : forall p2 c2 s3, dbf s3 = dbf s -> journal (cl ++ op) (journalOff p1) c2 s3 ->
    conf p2 -> errCode p2 = SQLITE_OK -> jfd p2 = true -> eLock p2 = EXCLUSIVE_LOCK -> dbOrigSize p2 = nOrig -> pInJournal p2 = pInJournal p1 -> pPCache p2 = pPCache p1 -> dbSize p2 = dbSize p1 -> dbFileSize p2 = dbFileSize p1 ->
    changeCountDone p2 = changeCountDone p1 -> (if newHdr then segment p2 c2 [] (journalOff p1) else journalHdr p2 = journalOff p1 /\ journalOff p2 = journalOff p1) ->
    good s3 /\ (SQLITE_OK = SQLITE_OK -> wp (Ret (SQLITE_OK, set_eState (set_pPCache p2 (sqlite3PcacheClearSyncFlags (pPCache p2))) PAGER_WRITER_DBMOD)) Q good s3) /\ (SQLITE_OK <> SQLITE_OK -> Q (SQLITE_OK, p2) s3)).
  { intros p2 c2 s3 Edb3 HJ3 X1 X2 X3 X4 X5 X6 X7 X8 X9 X10 X11. assert (Hdb3 : database (cl ++ op) (journalOff p1) s3) by (apply (database_ext _ _ s2); [congruence|done]).
    assert (Hg3 : good s3) by by apply (writer_good (cl ++ op) (journalOff p1) c2). split; [done|]. split; [intros _|done]. apply wpc_ret; [done|].
    apply (HOK _ s3 c2 (journalOff p1)); [|cbn; by rewrite X7, C1|cbn; congruence|cbn; congruence]. split; [|split; [done|split]].
    - split; cbn; try done; [by rewrite (proj2 (Z.eqb_neq _ _)) by lia|rewrite X4; unfold RESERVED_LOCK, EXCLUSIVE_LOCK; lia| |by rewrite app_nil_r]. exists b. rewrite app_nil_r. split; [congruence|done].
    - exists D. rewrite Edb3. split; [done|]. cbn. rewrite X7, X8, X9, C1, C2, C3. by apply cache_sync.
    - destruct newHdr; [by apply segment_eState, (segment_same p2)|done]. }
  destruct newHdr.
  - apply (wpc_writeJournalHdr g Hsync Hdc _ s2 w (cl ++ op) (journalOff p1)); [done|done|done|done|done|done|done|..].
    + intros ck w' s' Edb' HJ' Hseg'. apply (Hfinal _ w'); try done. congruence.
    + intros rc ck v s' Hr Edb' HJ'. apply Hfail; [by intros ->; destruct Hr as [[] _]|]. right. split; [done|]. split; [done|]. apply (writer_good (cl ++ op) (journalOff p1) v); [done|]. by apply (database_ext _ _ s2).
  - apply wpc_ret; [done|]. apply (Hfinal _ w); try done.
Qed.

End sync.

(** * Writing pages to the database: at a commit, and when the cache must make room. *)

Section flush.
Context {G : geometry} (g : config).
Hypothesis Hsync : noSync g = false.
Hypothesis Hfull : fullSync g = true.
Hypothesis Hdc : Z.land (iDc g) SQLITE_IOCAP_SAFE_APPEND = 0 /\ Z.land (iDc g) SQLITE_IOCAP_SEQUENTIAL = 0.

Local Abbreviation wp := (wpc szS).

Lemma transact_database p p' s s' c cl op E :
  frame p' = frame p -> jrn s' = jrn s -> database cl E s' -> transact p s c cl op E -> transact p' s' c cl op E.
Proof.
  intros Ef Ej Hd [T1 T2 T3 T4 T5 T6 T7 T8 T9 T10]. unfold frame in Ef. injection Ef as F1 F2 F3 F4 F5 F6 F7 F8 F9 F10 F11 F12.
  split; rewrite ?F3, ?F4, ?F5, ?F10, ?F11, ?F12; try done; [by unfold conf; rewrite F1, F2|by unfold journal; rewrite Ej].
Qed.

Lemma same_frame_segment p p' c op E : frame p' = frame p -> segment p c op E -> segment p' c op E.
Proof. intros Ef. unfold frame in Ef. injection Ef as F1 F2 F3 F4 F5 F6 F7 F8 F9 F10 F11 F12. by apply segment_same. Qed.

(** With a synced segment, the transaction can be rolled back. *)
Lemma synced_undo p s c cl op E : transact p s c cl op E -> 0 < E -> E <= journalHdr p <= align E -> undo p s.
Proof.
  intros Ht HE Hh. pose proof (transact_good _ _ _ _ _ _ Ht) as Hg. destruct Ht as [T1 T2 T3 T4 [T5 T5'] T6 (J1 & J2 & J3) [D1 D2] T9 T10]. rewrite (proj2 (Z.eqb_neq E 0)) in T4 by lia.
  split; [done|]. split; [done|]. split; [lia|]. split; [done|]. exists c. split; [done|]. destruct (saved_chain _ _ _ _ J3 J2) as (Hc & Hl & Hn). assert (Hhot : hot c cl) by by exists E.
  split; [by apply (hot_len c cl)|]. right. split; [done|]. split; [by apply T5'|]. exists cl, E. split; [done|]. split; [done|]. split; [done|]. split; [done|].
  intros j Hj. destruct (saved_hot cl E (jrn s) j) as (v & -> & Hv); [done|lia|done|]. by exists v, cl.
Qed.

Lemma synced_failed p s c cl op E : transact p s c cl op E -> 0 < E -> E <= journalHdr p <= align E -> failed p s.
Proof. intros Ht HE Hh. split; [by apply (transact_good p s c cl op E)|]. right. left. by apply (synced_undo p s c cl op E). Qed.

(** ** The list of pages *)

Definition flags (pg : PgHdr) := (PGHDR_DIRTY pg, PGHDR_WRITEABLE pg, PGHDR_NEED_SYNC pg, PGHDR_DONT_WRITE pg).

(** What writing pages leaves alone. *)
Definition flushed (p p' : Pager) : Prop :=
  frame p' = frame p /\ dbSize p' = dbSize p /\ changeCountDone p' = changeCountDone p /\ flags <$> pPCache p' = flags <$> pPCache p.

Lemma flushed_refl p : flushed p p.
Proof. done. Qed.

Lemma flushed_trans p p1 p2 : flushed p p1 -> flushed p1 p2 -> flushed p p2.
Proof. intros (A1 & A2 & A3 & A4) (B1 & B2 & B3 & B4). repeat split; congruence. Qed.

Definition ready (p : Pager) (q : Z) : Prop := exists pg, pPCache p !! q = Some pg /\ PGHDR_DIRTY pg = true /\ PGHDR_NEED_SYNC pg = false.

Lemma ready_flushed p p' q : flushed p p' -> ready p q -> ready p' q.
Proof.
  intros (_ & _ & _ & Ef) (pg & Hpg & Hd & Hn). assert (E : (flags <$> pPCache p') !! q = Some (flags pg)) by (rewrite Ef, lookup_fmap, Hpg; done).
  rewrite lookup_fmap in E. destruct (pPCache p' !! q) as [x|] eqn:Ex; [|done]. cbn in E. injection E as E1 E2 E3 E4. exists x. split; [done|]. split; congruence.
Qed.

(** The pages [W] are in the database. *)
Definition stored (p : Pager) (D V : bytes) (W : list Z) : Prop := forall q, q ∈ W -> read_page D q = read_page V q /\ q <= dbFileSize p.

Lemma wpc_pagelist p s c cl op E D V W l (Q : Z * Pager -> disk -> Prop) :
  transact p s c cl op E -> 0 < E -> cur (dbf s) = Some D -> cache_ok (pPCache p) (dbSize p) (dbFileSize p) cl op D V -> (forall q, q ∈ l -> ready p q) -> stored p D V W -> (forall q, q ∈ W -> 1 <= q) ->
  (forall p' s' D' V', flushed p p' -> jrn s' = jrn s -> transact p' s' c cl op E -> cur (dbf s') = Some D' -> cache_ok (pPCache p') (dbSize p') (dbFileSize p') cl op D' V' ->
     upto V' V -> stored p' D' V' (l ++ W) -> Q (SQLITE_OK, p') s') ->
  (forall rc p' s', is_ioerr rc -> flushed p p' -> jrn s' = jrn s -> transact p' s' c cl op E -> Q (rc, p') s') ->
  wp (pager_write_pagelist p l) Q good s.
Proof.
  intros Ht HE. revert p s D V W Ht. induction l as [|pgno l IH]; intros p s D V W Ht HD HC Hl HW HW1 HOK Herr; pose proof (transact_good _ _ _ _ _ _ Ht) as Hg; cbn [pager_write_pagelist].
  { apply wpc_ret; [done|]. by apply (HOK p s D V). }
  destruct (Hl pgno) as (pg & Hpg & Hd & Hn); [by left|]. rewrite Hpg. destruct (ca_page _ _ _ _ _ _ _ HC _ _ Hpg) as [[P1 P1'] P2 P3 P4 P5 P6 P7 P8]. geo.
  assert (Hn1 : pgno <= dbSize p) by (destruct (Z.leb_spec pgno (dbSize p)); [done|]; rewrite P4 in Hd by lia; done). rewrite (proj2 (Z.leb_le _ _)), P3 by done. cbn [negb andb].
  wp_bind. apply wpc_assert; [by rewrite Hn|done|]. cbv zeta. set (y := if pgno =? 1 then _ else pg). set (p1 := set_pg p pgno y).
  assert (Hy : exists V1, pData y = read_page V1 pgno /\ cache_ok (pPCache p1) (dbSize p) (dbFileSize p) cl op D V1 /\ upto V1 V /\ (forall q, 1 <= q -> q <> pgno -> read_page V1 q = read_page V q) /\ PGHDR_DIRTY y = true /\ flags y = flags pg).
  { assert (HVl : szP <= lenz V) by (rewrite (proj1 (ca_len _ _ _ _ _ _ _ HC)); nia). unfold p1, y. destruct (Z.eqb_spec pgno 1) as [->|Hne].
    - set (d := pager_write_changecounter p (pData pg)). assert (Hdl : lenz d = szP) by (apply counter_len; rewrite P2; apply lenz_read_page). exists (write_at V ((1 - 1) * szP) d). split; [by rewrite read_page_write|].
      split; [by apply cache_data|]. split; [unfold d; rewrite P2; by apply upto_counter|]. split; [|done]. intros q Hq Hne. by rewrite read_page_write, (proj2 (Z.eqb_neq _ _)) by done.
    - exists V. split; [done|]. split; [|done]. cbn. by rewrite insert_id. }
  destruct Hy as (V1 & Y1 & Y2 & Y3 & Y4 & Y5 & Y6). assert (Hf1 : flushed p p1) by (repeat split; cbn; rewrite fmap_insert, Y6, insert_id; [done|]; by rewrite lookup_fmap, Hpg).
  assert (Hlook : pPCache p1 !! pgno = Some y) by apply lookup_insert_eq. assert (Hyl : lenz (pData y) = szP) by (rewrite Y1; apply lenz_read_page).
  pose proof Ht as [T1 T2 T3 T4 T5 T6 T7 [T8 _] T9 T10]. destruct (cache_written _ _ _ _ _ _ _ _ _ Y2 Hlook Y5) as [Y7 Y8]. change (pageSize p1) with (pageSize p). rewrite (proj1 T1).
  wp_bind. apply (wpc_write_page cl pgno _ D); [done|done|lia|done|by destruct (P7 Hd Hn); [left|right; left]| | |].
  - intros s' Ej Hs. apply (transact_good p s' c cl op E). apply (transact_database p p s s'); [done|done| |done]. by split; [|lia].
  - intros s' Ej Hs HD'. cbn [Z.eqb SQLITE_OK]. set (p2 := if dbFileSize _ <? pgno then _ else _).
    assert (Hp2 : frame p2 = frame p1 /\ dbSize p2 = dbSize p1 /\ changeCountDone p2 = changeCountDone p1 /\ pPCache p2 = pPCache p1 /\ dbFileSize p2 = Z.max (dbFileSize p) pgno).
    { unfold p2. destruct (pgno =? 1); cbn [dbFileSize set_dbFileVers p1 set_pg set_pPCache]; destruct (Z.ltb_spec (dbFileSize p) pgno); cbn; repeat split; lia. }
    clearbody p2. destruct Hp2 as (Z1 & Z2 & Z3 & Z4 & Z5). assert (Hf2 : flushed p p2) by (apply (flushed_trans _ p1); [done|]; unfold flushed; by rewrite Z4).
    assert (Ht2 : transact p2 s' c cl op E) by (apply (transact_database p p2 s s'); [apply Hf2|done|by split; [|lia]|done]).
    apply (IH p2 s' (write_at D ((pgno - 1) * szP) (pData y)) V1 (pgno :: W)); try done.
    + rewrite Z4, Z5, Z2. exact Y7.
    + intros q Hq. apply (ready_flushed p); [done|]. apply Hl. by right.
    + intros q Hq. rewrite Z5. destruct (decide (q = pgno)) as [->|Hne]; [split; [done|lia]|]. apply elem_of_cons in Hq as [?|Hq]; [done|]. destruct (HW q Hq) as [W1 W2]. split; [|lia].
      rewrite read_page_write by (try lia; auto). rewrite (proj2 (Z.eqb_neq _ _)) by done. rewrite W1. symmetry. apply Y4; [by apply HW1|done].
    + intros q [->|Hq]%elem_of_cons; [lia|by apply HW1].
    + intros p' s2 D' V' X1 X2 X3 X4 X5 X6 X7. apply (HOK p' s2 D' V'); try done; [by apply (flushed_trans _ p2)|congruence|by apply (upto_trans _ V1)|].
      intros q Hq. apply X7. set_solver.
    + intros rc p' s2 Hr X1 X2 X3. apply Herr; [done|by apply (flushed_trans _ p2)|congruence|done].
  - intros rc s' Hr Ej Hs. apply ioerr_error in Hr as Hr'. set (p2 := if dbFileSize _ <? pgno then _ else _).
    assert (Hf2 : flushed p p2) by (unfold p2; destruct (pgno =? 1), (_ <? _); apply (flushed_trans _ p1); done). clearbody p2.
    assert (Ht2 : transact p2 s' c cl op E) by (apply (transact_database p p2 s s'); [apply Hf2|done|by split; [|lia]|done]).
    code. apply wpc_ret; [by apply (transact_good _ _ _ _ _ _ Ht2)|]. by apply Herr.
Qed.

(** ** Making room in the cache *)

Lemma failed_error p s rc : rc <> SQLITE_OK -> failed p s \/ (is_ioerr rc /\ good s) -> (pager_error p rc).1 = rc /\ failed (pager_error p rc).2 s.
Proof.
  intros Hr Hf. split; [done|]. unfold pager_error. cbn [snd]. destruct ((Z.land rc 255 =? SQLITE_FULL) || (Z.land rc 255 =? SQLITE_IOERR)) eqn:E.
  - split; [by destruct Hf as [[? _]|[_ ?]]|]. by left.
  - destruct Hf as [?|[[_ Hio] _]]; [done|]. apply orb_false_iff in E as [E1 E2]. apply Z.eqb_neq in E1, E2. by destruct Hio.
Qed.

Lemma wpc_flush_one p s V c cl op E pgno (Q : Z * Pager -> disk -> Prop) :
  live p s V c cl op E -> 0 < E -> ready p pgno ->
  (forall p' s' V', live p' s' V' c cl op E -> upto V' V -> Q (pager_error p' SQLITE_OK) s') ->
  (forall rc p' s', is_ioerr rc -> failed p' s' -> Q (pager_error p' rc) s') ->
  wp ('(rc, p) ← (_ ← assert (eState p =? PAGER_WRITER_DBMOD); _ ← assert (eLock p =? EXCLUSIVE_LOCK); pager_write_pagelist p [pgno]);
      Ret (pager_error (if rc =? SQLITE_OK then set_pPCache p (alter sqlite3PcacheMakeClean pgno (pPCache p)) else p) rc)) Q good s.
Proof.
  intros (Ht & Hseg & D & HD & HC) HE Hready HOK Herr. pose proof (transact_good _ _ _ _ _ _ Ht) as Hg. pose proof (segment_bounds _ _ _ _ ltac:(apply Z.lt_le_incl, HE) Hseg) as (B1 & B2 & B3). pose proof (align_bounds E ltac:(by apply Z.lt_le_incl)) as Ha. geo.
  wp_bind. wp_bind. apply wpc_assert; [rewrite (t_state _ _ _ _ _ _ Ht), (proj2 (Z.eqb_neq E 0)) by lia; done|done|]. wp_bind. apply wpc_assert; [rewrite (proj2 (t_lock _ _ _ _ _ _ Ht)) by done; done|done|].
  apply (wpc_pagelist p s c cl op E D V [] [pgno]); [done|done|done|done|by intros q ->%list_elem_of_singleton|by intros q ?%elem_of_nil|by intros q ?%elem_of_nil|..].
  - intros p' s' D' V' Hf Ej Ht' HD' HC' Hup Hst. cbn [Z.eqb SQLITE_OK]. apply wpc_ret; [by apply (transact_good _ _ _ _ _ _ Ht')|]. apply (HOK _ _ V'); [|done].
    destruct (ready_flushed _ _ _ Hf Hready) as (y & Hy & Hdy & Hny). destruct (Hst pgno) as [S1 S2]; [by left|].
    split; [by apply (transact_database p' _ s' s'); [..|apply Ht'|]|]. split; [by apply (same_frame_segment p'), (same_frame_segment p); [|apply Hf|]|]. exists D'. split; [done|]. cbn. rewrite (alter_is _ _ _ _ Hy). by apply cache_made_clean.
  - intros rc p' s' Hr Hf Ej Ht'. apply ioerr_error in Hr as Hr'. code. apply wpc_ret; [by apply (transact_good _ _ _ _ _ _ Ht')|]. apply Herr; [done|]. apply (synced_failed p' s' c cl op E); [done|done|].
    destruct Hf as (Ef & _). unfold frame in Ef. injection Ef as F1 F2 F3 F4 F5 F6 F7 F8 F9 F10 F11 F12. rewrite F7, B3. lia.
Qed.

Lemma clear_ready (C : gmap Z PgHdr) p q : pPCache p = sqlite3PcacheClearSyncFlags C -> (exists pg, C !! q = Some pg /\ PGHDR_DIRTY pg = true) -> ready p q.
Proof. intros Ec (pg & Hpg & Hd). unfold ready. rewrite Ec. unfold sqlite3PcacheClearSyncFlags, on_dirty. rewrite lookup_fmap, Hpg. eexists. split; [done|]. cbn. by rewrite Hd. Qed.

Lemma wpc_stress p s V c cl op E pgno (Q : Z * Pager -> disk -> Prop) :
  live p s V c cl op E -> dirty p pgno ->
  (forall p' s' V' c' cl' op' E', live p' s' V' c' cl' op' E' -> upto V' V -> Q (SQLITE_OK, p') s') ->
  (forall rc p' s', rc <> SQLITE_OK -> failed p' s' -> Q (rc, p') s') -> wp (pagerStress g p pgno) Q good s.
Proof.
  intros Hlive (pg & Hpg & Hd) HOK Herr. pose proof Hlive as (Ht & Hseg & D & HD & HC). pose proof (transact_good _ _ _ _ _ _ Ht) as Hg. pose proof (t_journal _ _ _ _ _ _ Ht) as (_ & _ & HE & _).
  unfold pagerStress. rewrite (t_err _ _ _ _ _ _ Ht), Hpg. cbn [negb Z.eqb SQLITE_OK]. wp_bind. apply wpc_assert; [done|done|].
  assert (Hfail : forall rc p' s', rc <> SQLITE_OK -> failed p' s' \/ (is_ioerr rc /\ good s') -> Q (pager_error p' rc) s').
  { intros rc p' s' Hr Hf. destruct (failed_error p' s' rc Hr Hf) as [E1 E2]. rewrite (surjective_pairing (pager_error p' rc)), E1. by apply Herr. }
  assert (Hgo : forall p' s' c' cl' op' E', live p' s' V c' cl' op' E' -> 0 < E' -> ready p' pgno ->
    wp ('(rc, p) ← (_ ← assert (eState p' =? PAGER_WRITER_DBMOD); _ ← assert (eLock p' =? EXCLUSIVE_LOCK); pager_write_pagelist p' [pgno]);
        Ret (pager_error (if rc =? SQLITE_OK then set_pPCache p (alter sqlite3PcacheMakeClean pgno (pPCache p)) else p) rc)) Q good s').
  { intros p' s' c' cl' op' E' Hl' HE' Hr'. apply (wpc_flush_one p' s' V c' cl' op' E'); [done|done|done|..].
    - intros p2 s2 V' Hl2 Hup. by apply (HOK p2 s2 V' c' cl' op' E').
    - intros rc p2 s2 Hr Hf. apply Hfail; [by intros ->; destruct Hr as [[] _]|by left]. }
  wp_bind. apply wpc_andthen. destruct (PGHDR_NEED_SYNC pg || (eState p =? PAGER_WRITER_CACHEMOD)) eqn:Ens.
  - apply (wpc_syncJournal g Hsync Hfull Hdc p s V c cl op E true); [done|..].
    + intros p' s' c' E' (S1 & S2 & S3 & S4) Ec _ _. split; [by apply (transact_good _ _ _ _ _ _ S1)|]. split; [intros _|done].
      apply wpc_bind_inv. apply (Hgo p' s' c' (cl ++ op) [] E'); [by split|done|]. apply (clear_ready (pPCache p)); [done|]. by exists pg.
    + intros rc p' s' Hr Hf. split; [by destruct Hf as [[? _]|(_ & _ & ?)]|]. split; [done|]. intros _. rewrite (proj2 (Z.eqb_neq _ _) Hr).
      apply wpc_ret; [by destruct Hf as [[? _]|(_ & _ & ?)]|]. apply Hfail; [done|]. destruct Hf as [?|(_ & ? & ?)]; [by left|by right].
  - apply orb_false_iff in Ens as [Ens Est]. apply wpc_ret; [done|]. split; [done|]. split; [intros _|done]. apply wpc_bind_inv. apply (Hgo p s c cl op E); [done| |by exists pg].
    rewrite (t_state _ _ _ _ _ _ Ht) in Est. destruct (Z.eqb_spec E 0); [done|lia].
Qed.

End flush.
