(* ===== verification/PagerCommit.v ===== *)
(** Rolling a transaction back, and the first phase of its commit. *)
From stdpp Require Import sorting.
From S2P Require Import Prelude Varint VarintSpec Bitvec BitvecSpec Disk DiskSpec Pager PagerPlayback PagerRecovery PagerTransaction PagerWrite PagerSync.

(** * Rolling a transaction back. *)

Section rollback.
Context {G : geometry} (g : config).
Hypothesis Hsync : noSync g = false.
Hypothesis Hos : osSectorSize g = szH.

Local Abbreviation wp := (wpc szS).

(** What a rollback ends with. *)
Definition restored (x : Z * Pager) (s : disk) : Prop := good s /\ (x.1 = SQLITE_OK -> cur (dbf s) = Some orig).

Lemma restored_error rc p s : is_error rc -> good s -> restored (rc, p) s.
Proof. intros Hr Hg. split; [done|]. cbn. intros ->. by destruct Hr. Qed.

Section undo.
Context (p : Pager) (c : bytes) (s : disk).
Hypothesis Hconf : conf p.
Hypothesis Hj : jfd p = true.
Hypothesis Hlk : RESERVED_LOCK <= eLock p.
Hypothesis Hst : eState p = PAGER_WRITER_CACHEMOD \/ eState p = PAGER_WRITER_DBMOD.
Hypothesis Hgood : good s.
Hypothesis Hcur : cur (jrn s) = Some c.
Hypothesis Hlen : szH <= lenz c.

Let Q (x : Z * Pager) (s' : disk) : Prop := restored (pager_error x.2 x.1) s'.

Lemma undo_end_error p' s' rc res : is_error rc -> releasable p' -> good s' -> wp (end_playback g p' szP res rc) Q good s'.
Proof. intros Hr Hp Hg. apply (wpc_end_playback_error g Hos); [done|done|done|]. intros p2 Hp2. by apply restored_error. Qed.

(** The end of the playback of a journal that has not changed. *)
Lemma undo_end p' s' :
  reached p p' (journalOff p') -> jrn s' = jrn s -> good s' -> cur (dbf s') = Some orig -> (writing p = false -> pristine s') -> journalOff p' <> 0 \/ ~ magic_at c 0 ->
  wp (end_playback g p' szP true SQLITE_OK) Q good s'.
Proof.
  intros [Hcore _] Ej Hg HD Hp Ho. unfold core in Hcore. cbn in Hcore. injection Hcore as P1 P2 P3 P4 P5 P6 P7 P8. pose proof Hgood as [_ [_ Hr2]]. geo.
  assert (Hharm : forall j, survives szS (jrn s) j -> no_magic j \/ is_hot j) by (intros j Hsj; apply (sound_harmless s); [apply Hgood| |done]; exists (cur (dbf s)); apply survives_cur, Hgood).
  assert (HC2 : forall s2, pristine s2 -> weaker (jrn s') (jrn s2) -> poss (jrn s2) (cur (jrn s2)) -> good s2).
  { intros s2 Hp2 Hw Hc2. rewrite Ej in Hw. split; [by apply (sound_weaker s)|]. by split; [apply Hp2|]. }
  apply (wpc_end_playback g Hsync Hos p' c s').
  - by split; rewrite ?P1, ?P2; apply Hconf.
  - by rewrite P6.
  - left. rewrite P4. unfold PAGER_WRITER_CACHEMOD, PAGER_WRITER_FINISHED, PAGER_WRITER_DBMOD in *. lia.
  - by rewrite P5.
  - rewrite Ej. split; [done|]. split; [by rewrite <- Hcur|left; lia].
  - done.
  - done.
  - unfold writing. by rewrite P4.
  - done.
  - exact HC2.
  - intros p2 s2 _ Hp2 Hw Hc2 Hn. split; [by apply HC2|]. intros _. by apply pristine_cur.
  - intros rc p2 s2 Hr _ Hg2. by apply restored_error.
Qed.

Lemma undo_rel p' s' : reached p p' s' -> releasable p'.
Proof. intros [Hcore _]. unfold core in Hcore. cbn in Hcore. injection Hcore as P1 P2 P3 P4 P5 P6 P7 P8. split; [by split; rewrite ?P1, ?P2; apply Hconf|]. rewrite P5. unfold NO_LOCK, RESERVED_LOCK in *. lia. Qed.

(** Nothing is written before the transaction is synced. *)
Lemma undo_unsynced K :
  eState p = PAGER_WRITER_CACHEMOD -> pristine s -> field c 16 = nOrig -> field c 20 = szH -> field c 24 = szP -> K = Z.to_nat (lenz c) ->
  wp ('(rc, p) ← pager_playback_loop g (K + 2) (set_journalOff p 0) false (lenz c) false; end_playback g p szP true rc) Q good s.
Proof.
  intros Est Hp F1 F2 F3 ->. pose proof (lenz_nonneg c). wp_bind. apply (wpc_playback_tail g Hsync c good s Hcur Hgood); cbn [journalOff set_journalOff]; try done; try lia.
  - left. cbn. rewrite Est. unfold PAGER_WRITER_CACHEMOD, PAGER_WRITER_FINISHED. lia.
  - left. unfold writing. cbn. by rewrite Est.
  - intros rc p' Hr Hre Ho. destruct Hr as [->|Hr]; [|apply undo_end_error; [done|by eapply undo_rel|done]].
    apply undo_end; [done|done|done|by apply pristine_cur|done|]. destruct Ho; [done|by right|left; lia|by right].
Qed.

(** The synced pages are written back. *)
Lemma undo_synced cl E K :
  eState p = PAGER_WRITER_DBMOD -> eLock p = EXCLUSIVE_LOCK -> 0 < E -> chain c 0 cl E -> safe cl s -> E <= journalHdr p <= align E ->
  (forall j, survives szS (jrn s) j -> exists c' pgs, j = Some c' /\ hot c' pgs /\ forall x, x ∈ cl -> x ∈ pgs) -> K = Z.to_nat (lenz c) ->
  wp ('(rc, p) ← pager_playback_loop g (K + 2) (set_journalOff p 0) false (lenz c) false; end_playback g p szP true rc) Q good s.
Proof.
  intros Est Hex HE Hchain Hs Hhdr Hhot ->. pose proof (lenz_nonneg c). pose proof Hgood as [_ [_ Hr2]].
  assert (HCs : forall s', jrn s' = jrn s -> safe cl s' -> good s') by (intros s' Ej Hs'; split; [apply (safe_sound cl); [done|by rewrite Ej]|by split; [apply Hs'|rewrite Ej]]).
  assert (Hw : writing p = true) by (unfold writing; by rewrite Est). destruct (safe_cur cl s Hs) as (D & HD & Hk). pose proof (chain_len c cl E Hchain HE) as HlE.
  wp_bind. apply (wpc_playback_chain g Hsync c cl good (jrn s) Hcur HCs false _ _ _ 0 cl E D); try done; try lia.
  - left. cbn. rewrite Est. unfold PAGER_WRITER_CACHEMOD, PAGER_WRITER_FINISHED, PAGER_WRITER_DBMOD. lia.
  - by intros _.
  - cbn. lia.
  - intros fuel p1 nr D1 s1 Hj1 Hs1 [R1 R2] Hdb Hf HD1 HlD1 Hk1. assert (Hg1 : good s1) by by apply HCs. pose proof R1 as X. unfold core in X. cbn in X. injection X as P1 P2 P3 P4 P5 P6 P7 P8.
    assert (Eo : cur (dbf s1) = Some orig) by (rewrite HD1; f_equal; by apply kept_nil).
    apply (wpc_playback_tail g Hsync c good s1); [by rewrite Hj1|done|..]; rewrite ?R2; try lia.
    + by split; rewrite ?P1, ?P2; apply Hconf.
    + left. rewrite P4, Est. unfold PAGER_WRITER_CACHEMOD, PAGER_WRITER_FINISHED, PAGER_WRITER_DBMOD. lia.
    + by rewrite P6.
    + intros rc p' Hr [M1 M2] Ho. assert (Hre : reached p p' (journalOff p')) by (split; [unfold core in *; cbn in *; congruence|done]).
      destruct Hr as [->|Hr]; [|apply undo_end_error; [done|by eapply undo_rel|done]].
      apply undo_end; [done|done|done|done|congruence|]. destruct Ho; [done|by left|left; lia|by right].
  - intros rc p' s' Hr Ej Hs' Hre. apply undo_end_error; [done| |by apply HCs]. apply (undo_rel p' (journalOff p')). destruct Hre as [M1 M2]. by split.
Qed.

End undo.

Lemma wpc_rollback_undo p s : undo p s -> wp ('(rc, p) ← pager_playback g p false; Ret (pager_error p rc)) restored good s.
Proof.
  intros (Hconf & Hj & Hlk & Hg & c & Hcur & Hlen & Hcase). wp_bind. apply (wpc_mono szS _ (fun x s' => restored (pager_error x.2 x.1) s' /\ good s') _ good).
  { intros [rc p'] s' [Hr Hg']. by apply wpc_ret. }
  { done. }
  apply (wpc_mono szS _ (fun x s' => restored (pager_error x.2 x.1) s') _ good); [intros x s' H; split; [done|apply H]|done|].
  assert (Hst : eState p = PAGER_WRITER_CACHEMOD \/ eState p = PAGER_WRITER_DBMOD) by (destruct Hcase as [[? _]|[? _]]; auto).
  assert (Hrel : releasable p) by (split; [done|unfold NO_LOCK, RESERVED_LOCK in *; lia]).
  unfold pager_playback. wp_bind. apply wpc_assert; [done|done|]. rewrite (proj1 Hconf).
  assert (Hfail : forall rc res, is_error rc -> wp (end_playback g p szP res rc) (fun x s' => restored (pager_error x.2 x.1) s') good s) by (intros; by apply undo_end_error).
  wp_bind. apply (wpc_size _ _ c); [done|done| |intros rc n He; code; by apply Hfail]. cbn [negb Z.eqb SQLITE_OK].
  wp_bind. apply (wpc_readMasterJournal _ c); [done|done|]. intros rc z Hr. wp_bind.
  assert (Hgo : forall rc res, (rc = SQLITE_OK /\ res = true) \/ is_error rc ->
    wp (if negb (rc =? SQLITE_OK) || negb res then end_playback g p szP res rc else
        let p := set_journalOff p 0 in
        '(rc, p) ← pager_playback_loop g (Z.to_nat (lenz c) + 2) p false (lenz c) false; end_playback g p szP true rc) (fun x s' => restored (pager_error x.2 x.1) s') good s).
  { intros rc' res [[-> ->]|Hr']; [|code; by apply Hfail]. cbn [negb orb Z.eqb SQLITE_OK]. destruct Hcase as [(C1 & C2 & C3 & C4 & C5)|(C1 & C2 & cl & E & C3 & C4 & C5 & C6 & C7)].
    - by apply undo_unsynced.
    - by apply (undo_synced p c s Hconf Hj Hlk Hst Hg Hcur Hlen cl E). }
  destruct Hr as [->|Hr]; [|code; apply wpc_ret; [done|]; apply Hgo; by right]. cbn [Z.eqb SQLITE_OK andb].
  destruct (named z); [|apply wpc_ret; [done|]; apply Hgo; by left]. apply wpc_quiet; [done|done|]. intros [rc b] [_ Hx]. by apply Hgo.
Qed.

(** A failed transaction is rolled back. *)
Lemma wpc_rollback p s : failed p s -> wp (sqlite3PagerRollback g p) restored good s.
Proof.
  intros [Hg Hf]. unfold sqlite3PagerRollback. destruct Hf as [[Est Hec]|[Hu|(Est & Hconf & Hpi & Hlk & Hj & Hcold)]].
  - rewrite Est, Z.eqb_refl. apply wpc_ret; [done|]. split; [done|]. cbn. congruence.
  - pose proof Hu as (_ & Hj & _ & _ & c & _ & _ & Hcase). assert (Hst : eState p = PAGER_WRITER_CACHEMOD \/ eState p = PAGER_WRITER_DBMOD) by (destruct Hcase as [[? _]|[? _]]; auto).
    rewrite Hj. assert (E : (eState p =? PAGER_ERROR) = false /\ (eState p <=? PAGER_READER) = false /\ (eState p =? PAGER_WRITER_LOCKED) = false) by by destruct Hst as [->| ->].
    destruct E as (-> & -> & ->). by apply wpc_rollback_undo.
  - pose proof Hcold as (Hp & Hpc & Hnm). rewrite Est. change (PAGER_WRITER_LOCKED =? PAGER_ERROR) with false. change (PAGER_WRITER_LOCKED <=? PAGER_READER) with false. cbn [negb]. rewrite Z.eqb_refl, orb_true_r. cbv iota.
    assert (HC : forall s', finalizing s s' -> good s' /\ pristine s').
    { intros s' (F1 & F2 & F3). assert (Hp' : pristine s') by (unfold pristine; by rewrite F1). split; [|done]. split; [apply (sound_weaker s); [done| |done]|by split; [apply Hp'|]].
      intros j Hsj. left. by apply (saved_cold [] (jrn s)); [apply cold_saved|]. }
    wp_bind. apply (wpc_end g Hsync p).
    + done.
    + by rewrite Est.
    + done.
    + by rewrite Est.
    + done.
    + destruct (jfd p) eqn:Ej; [left|right]; (split; [done|]).
      * destruct (Hj eq_refl) as [c Ec]. exists c. rewrite Ec in Hpc. split; [|right; by apply Hnm]. split; [done|]. split; [done|by right].
      * split; [done|]. split; [|done]. destruct (cur (jrn s)) as [v|]; [by apply Hnm|done].
    + intros s' Hs'. by apply HC.
    + intros p' s' He _ Hs' _ _. destruct (HC s' Hs') as [Hg' Hp']. apply wpc_ret; [done|]. split; [done|]. intros _. by apply pristine_cur.
    + intros rc p' s' Hr He Hs'. destruct (HC s' Hs') as [Hg' Hp']. change (PAGER_WRITER_LOCKED <? PAGER_WRITER_LOCKED) with false. apply wpc_ret; [done|]. by apply restored_error.
Qed.

End rollback.

(** * The commit of a transaction. *)

Section commit.
Context {G : geometry} (g : config).
Hypothesis Hsync : noSync g = false.
Hypothesis Hfull : fullSync g = true.
Hypothesis Hos : osSectorSize g = szH.
Hypothesis Hdc : Z.land (iDc g) SQLITE_IOCAP_SAFE_APPEND = 0 /\ Z.land (iDc g) SQLITE_IOCAP_SEQUENTIAL = 0.

Local Abbreviation wp := (wpc szS).

(** ** Transactions under way *)

Lemma running_failed p s V : running p s V -> failed p s.
Proof.
  intros Hrun. split; [by apply (running_good p s V)|]. destruct Hrun as [[[Hi (Hlk & _)] _]|(c & cl & op & E & Ht & Hseg & _)].
  - right. right. destruct Hi as [I1 I2 I3 I4 I5 I6 I7 I8 I9]. split; [done|]. split; [done|]. split; [done|]. by split; [lia|].
  - right. left. by apply (transact_undo p s c cl op E).
Qed.

Lemma live_got p p' s V c cl op E : got p p' -> imaged p' s cl op V -> live p s V c cl op E -> live p' s V c cl op E.
Proof.
  intros (G1 & _) Him (Ht & Hseg & _). split; [by apply (transact_database p p' s s); [..|apply Ht|]|]. split; [by apply (same_frame_segment p)|done].
Qed.

Lemma wpc_live_get p s V c cl op E pgno (Q : Z * Pager -> disk -> Prop) :
  live p s V c cl op E -> 0 <= pgno -> (forall rc p', live p' s V c cl op E -> dbSize p' = dbSize p -> (rc = SQLITE_OK -> is_Some (pPCache p' !! pgno)) -> Q (rc, p') s) -> wp (sqlite3PagerGet p pgno) Q good s.
Proof.
  intros Hlive Hp HQ. pose proof Hlive as (Ht & _ & Him). apply (wpc_get p s cl op V); try done; [apply (t_conf _ _ _ _ _ _ Ht)|apply (t_err _ _ _ _ _ _ Ht)| |by apply (transact_good p s c cl op E)|apply (t_database _ _ _ _ _ _ Ht)|].
  - rewrite (t_state _ _ _ _ _ _ Ht). by destruct (E =? 0).
  - intros rc p' Hg Him' Hc. apply HQ; [by apply (live_got p)|apply Hg|done].
Qed.

Lemma wpc_running_get p s V pgno (Q : Z * Pager -> disk -> Prop) :
  running p s V -> 0 <= pgno -> (forall rc p', running p' s V -> (rc = SQLITE_OK -> is_Some (pPCache p' !! pgno)) -> Q (rc, p') s) -> wp (sqlite3PagerGet p pgno) Q good s.
Proof.
  intros [[[Hi (Hlk & Ho & Hf)] ->]|(c & cl & op & E & Hlive)] Hp HQ.
  - pose proof Hi as [I1 I2 I3 I4 I5 I6 I7 I8 I9]. pose proof I7 as (Hpr & _). apply (wpc_get p s [] [] orig); try done; [apply I1|by rewrite I3|by apply cold_good|by apply pristine_safe|by exists orig; split; [apply pristine_cur|rewrite I8, Hf]|].
    intros rc p' (G1 & G2 & G3) (D & HD & HC) Hc. apply HQ; [|done]. left. split; [|done]. unfold frame in G1. injection G1 as F1 F2 F3 F4 F5 F6 F7 F8 F9 F10 F11 F12.
    assert (D = orig) as -> by (apply pristine_cur in Hpr; congruence). split; [|by rewrite F4, F5, G3]. split; rewrite ?F3, ?F4, ?F10, ?F11, ?F12, ?G2; try done; [by unfold conf; rewrite F1, F2|]. by rewrite G2, G3, I8, Hf in HC.
  - apply (wpc_live_get p s V c cl op E); [done|done|]. intros rc p' Hl _ Hc. apply HQ; [|done]. right. by exists c, cl, op, E.
Qed.

(** ** The change counter *)

Lemma wpc_incr p s V c cl op E (Q : Z * Pager -> disk -> Prop) :
  live p s V c cl op E -> (forall p' s' V' c' cl' op' E', live p' s' V' c' cl' op' E' -> upto V' V -> Q (SQLITE_OK, p') s') ->
  (forall rc p' s', rc <> SQLITE_OK -> failed p' s' -> Q (rc, p') s') -> wp (pager_incr_changecounter g p) Q good s.
Proof.
  intros Hlive HOK Herr. pose proof Hlive as (Ht & _ & D & HD & HC). pose proof (transact_good _ _ _ _ _ _ Ht) as Hg. unfold pager_incr_changecounter.
  wp_bind. apply wpc_assert; [rewrite (t_state _ _ _ _ _ _ Ht); by destruct (E =? 0)|done|].
  destruct (negb (changeCountDone p) && (0 <? dbSize p)) eqn:Ec; [|apply wpc_ret; [done|]; by apply (HOK p s V c cl op E)]. apply andb_true_iff in Ec as [_ Hn]. apply Z.ltb_lt in Hn.
  assert (HVl : szP <= lenz V) by (rewrite (proj1 (ca_len _ _ _ _ _ _ _ HC)); geo; nia).
  apply wpc_andthen. apply (wpc_live_get p s V c cl op E); [done|done|]. intros rc p1 Hl1 _ Hc1. split; [done|]. split; [|intros Hr; apply Herr; [done|]; apply (running_failed p1 s V); right; by exists c, cl, op, E]. intros ->.
  apply wpc_andthen. apply (wpc_sqlite3PagerWrite g Hsync Hdc p1 s V); [right; by exists c, cl, op, E|by apply Hc1|..].
  - intros p2 s2 V2 c2 cl2 op2 E2 Hl2 Hop (pg & Hpg & Hd). assert (V2 = V) as -> by (destruct Hop as [->|[? _]]; [done|geo; lia]). pose proof Hl2 as (Ht2 & _ & D2 & HD2 & HC2). pose proof (transact_good _ _ _ _ _ _ Ht2) as Hg2.
    split; [done|]. split; [intros _|done]. apply wpc_ret; [done|]. pose proof (pg_data _ _ _ _ _ _ (ca_page _ _ _ _ _ _ _ HC2 _ _ Hpg)) as Edata.
    set (d := pager_write_changecounter p2 (pData pg)). assert (Hdl : lenz d = szP) by (apply counter_len; rewrite Edata; apply lenz_read_page).
    apply (HOK _ s2 (write_at V ((1 - 1) * szP) d) c2 cl2 op2 E2); [|unfold d; rewrite Edata; by apply upto_counter].
    assert (Hl3 : live (set_pPCache p2 (alter (fun pg => pg_set_data pg d) 1 (pPCache p2))) s2 (write_at V ((1 - 1) * szP) d) c2 cl2 op2 E2) by (apply live_data; [done|by exists pg|done]).
    rewrite (alter_is (fun pg => pg_set_data pg d) _ _ _ Hpg) in Hl3. rewrite (alter_is _ _ _ _ Hpg). fold d. revert Hl3. generalize (set_pPCache p2 (<[1 := pg_set_data pg d]> (pPCache p2))). intros p3 Hl3. destruct Hl3 as (U1 & U2 & U3). split; [by apply (transact_same p3 _ s2 s2 c2 c2); try apply U1|]. by split; [apply (segment_same p3)|].
  - intros rc p2 s2 Hr Hf. split; [apply Hf|]. split; [done|]. intros _. by apply Herr.
Qed.

(** ** The first phase *)

Lemma dirty_list (C : gmap Z PgHdr) q : q ∈ sqlite3PcacheDirtyList C <-> exists pg, C !! q = Some pg /\ PGHDR_DIRTY pg = true.
Proof.
  unfold sqlite3PcacheDirtyList. rewrite merge_sort_Permutation, list_elem_of_fmap. split.
  - intros ([k pg] & -> & Hin). apply elem_of_map_to_list in Hin. apply map_lookup_filter_Some in Hin as [Hk Hd]. by exists pg.
  - intros (pg & Hk & Hd). exists (q, pg). split; [done|]. apply elem_of_map_to_list, map_lookup_filter_Some. by split.
Qed.

(** The image is in the database, and the journal is hot. *)
Record finished (p : Pager) (s : disk) (V : bytes) : Prop := mkFinished {
  fi_conf : conf p;
  fi_err : errCode p = SQLITE_OK;
  fi_jfd : jfd p = true;
  fi_state : eState p = PAGER_WRITER_FINISHED;
  fi_lock : eLock p = EXCLUSIVE_LOCK;
  fi_db : settled (dbf s) V;
  fi_good : good s;
  fi_journal : exists c cl E, 0 < E /\ journal cl E c s;
  fi_off : journalOff p <> 0;
  fi_size : dbFileSize p = dbSize p /\ lenz V = dbSize p * szP /\ nOrig <= dbSize p <= PAGER_MAX_PGNO;
  fi_cache : forall q pg, pPCache p !! q = Some pg -> pData pg = read_page V q }.

Lemma wpc_phase_one p s V (Q : Z * Pager -> disk -> Prop) :
  running p s V -> (begun p s -> V = orig -> Q (SQLITE_OK, p) s) -> (forall p' s' V', finished p' s' V' -> upto V' V -> Q (SQLITE_OK, p') s') ->
  (forall rc p' s', rc <> SQLITE_OK -> failed p' s' -> Q (rc, p') s') -> wp (sqlite3PagerCommitPhaseOne g p false) Q good s.
Proof.
  intros Hrun HQ0 HOK Herr. pose proof (running_good _ _ _ Hrun) as Hg. unfold sqlite3PagerCommitPhaseOne. destruct Hrun as [[Hb ->]|(c & cl & op & E & Hlive)].
  { destruct Hb as [Hi Hb]. pose proof Hi as [I1 I2 I3 _ _ _ _ _ _]. wp_bind. apply wpc_assert; [by rewrite I3|done|]. rewrite I2, I3. apply wpc_ret; [done|]. by apply HQ0. }
  pose proof Hlive as (Ht & _). wp_bind. apply wpc_assert; [rewrite (t_state _ _ _ _ _ _ Ht); by destruct (E =? 0)|done|]. rewrite (t_err _ _ _ _ _ _ Ht). cbn [negb Z.eqb SQLITE_OK].
  assert (Est : (eState p <? PAGER_WRITER_CACHEMOD) = false) by (rewrite (t_state _ _ _ _ _ _ Ht); by destruct (E =? 0)). rewrite Est. clear Est Ht.
  assert (Hstep : forall rc p' s', rc <> SQLITE_OK -> failed p' s' -> forall X, good s' /\ (rc = SQLITE_OK -> wp X Q good s') /\ (rc <> SQLITE_OK -> Q (rc, p') s')).
  { intros rc p' s' Hr Hf X. split; [apply Hf|]. split; [done|]. intros _. by apply Herr. }
  apply wpc_andthen. apply (wpc_incr p s V c cl op E); [done| |by intros; apply Hstep]. clear Hlive c cl op E. intros p1 s1 V1 c cl op E Hl1 Hup1. split; [apply (transact_good p1 s1 c cl op E), Hl1|]. split; [intros _|done].
  apply wpc_andthen. apply (wpc_syncJournal g Hsync Hfull Hdc p1 s1 V1 c cl op E false); [done|..].
  2: { intros rc p' s' Hr [Hf|[? _]]; [by apply Hstep|done]. }
  intros p2 s2 c2 E2 (Ht2 & HE2 & (D2 & HD2 & HC2) & Hh2 & Ho2) Ec2 _ _. pose proof (transact_good _ _ _ _ _ _ Ht2) as Hg2. split; [done|]. split; [intros _|done]. pose proof (align_bounds E2 ltac:(by apply Z.lt_le_incl)) as Ha.
  pose proof (t_lock _ _ _ _ _ _ Ht2) as [_ Hex2]. specialize (Hex2 HE2). wp_bind. apply wpc_assert; [rewrite (t_state _ _ _ _ _ _ Ht2), (proj2 (Z.eqb_neq E2 0)) by lia; done|done|]. wp_bind. apply wpc_assert; [by rewrite Hex2|done|].
  apply wpc_andthen. apply (wpc_pagelist g Hsync Hfull Hdc p2 s2 c2 (cl ++ op) [] E2 D2 V1 []); [done|done|done|done| |by intros q ?%elem_of_nil|by intros q ?%elem_of_nil|..].
  - intros q Hq. apply dirty_list in Hq as (pg & Hpg & Hd). apply (clear_ready (pPCache p1)); [done|]. rewrite Ec2 in Hpg. unfold sqlite3PcacheClearSyncFlags, on_dirty in Hpg. rewrite lookup_fmap in Hpg.
    destruct (pPCache p1 !! q) as [x|]; [|done]. exists x. split; [done|]. cbn in Hpg. injection Hpg as <-. by destruct (PGHDR_DIRTY x) eqn:Ex; [|congruence].
  - intros p3 s3 D3 V3 Hf3 Ej3 Ht3 HD3 HC3 Hup3 Hst3. pose proof (transact_good _ _ _ _ _ _ Ht3) as Hg3. split; [done|]. split; [intros _|done]. cbv zeta.
    assert (Hflush : D3 = V3 /\ dbFileSize p3 = dbSize p3).
    { eapply cache_flushed; [exact HC3|]. intros q pg Hpg Hd. apply Hst3, elem_of_app. left. apply dirty_list. destruct Hf3 as (_ & _ & _ & Ef). assert (Efq : (flags <$> pPCache p2) !! q = Some (flags pg)) by (rewrite <- Ef, lookup_fmap, Hpg; done).
      rewrite lookup_fmap in Efq. destruct (pPCache p2 !! q) as [x|]; [|done]. exists x. split; [done|]. cbn in Efq. injection Efq as -> _ _ _. done. }
    destruct Hflush as [-> Hsz]. set (p4 := set_pPCache p3 _). change (dbFileSize p4) with (dbFileSize p3). change (dbSize p4) with (dbSize p3). rewrite Hsz, Z.ltb_irrefl.
    assert (Ht4 : transact p4 s3 c2 (cl ++ op) [] E2) by (by apply (transact_database p3 p4 s3 s3); [..|apply Ht3|]).
    apply wpc_andthen. apply wpc_ret; [done|]. split; [done|]. split; [intros _|done]. unfold sqlite3PagerSync. rewrite Hsync. wp_bind. destruct Hf3 as (Ef & _). unfold frame in Ef. injection Ef as F1 F2 F3 F4 F5 F6 F7 F8 F9 F10 F11 F12.
    assert (Hgs : good (settle s3 Db)).
    { apply (writer_good (cl ++ op) E2 c2); [apply (t_journal _ _ _ _ _ _ Ht4)|]. pose proof (t_database _ _ _ _ _ _ Ht4) as [[D1 D2'] _]. split; [|lia]. split; [|done]. intros x Hx. cbn in Hx. subst x. by apply D1. }
    apply wpc_sync; [done|by exists V3|split; [done|]|].
    + cbn [Z.eqb SQLITE_OK]. apply wpc_ret; [done|]. apply (HOK _ _ V3); [|by apply (upto_trans _ V1)]. pose proof HC3 as [[L1 L2] [Ln Lm] L3 _ _ _].
      split; cbn; try done; [apply (t_conf _ _ _ _ _ _ Ht3)|apply (t_err _ _ _ _ _ _ Ht3)|apply (t_jfd _ _ _ _ _ _ Ht3)|congruence| |..].
      * split; [done|]. intros x. cbn. by rewrite HD3.
      * exists c2, (cl ++ op), E2. split; [done|]. apply (t_journal _ _ _ _ _ _ Ht4).
      * rewrite F6. lia.
      * split; [done|]. split; [done|]. lia.
      * intros q pg Hpg. unfold sqlite3PcacheCleanAll, on_dirty in Hpg. rewrite lookup_fmap in Hpg. destruct (pPCache p3 !! q) as [x|] eqn:Ex; [|done]. cbn in Hpg. injection Hpg as <-.
        rewrite <- (pg_data _ _ _ _ _ _ (L3 _ _ Ex)). by destruct (PGHDR_DIRTY x).
    + intros rc Hr. apply ioerr_error in Hr. code. apply wpc_ret; [done|]. apply Herr; [by destruct Hr|]. apply (synced_failed p4 s3 c2 (cl ++ op) [] E2); [done|done|]. cbn. rewrite F7, Hh2. lia.
  - intros rc p3 s3 Hr Hf3 Ej3 Ht3. apply Hstep; [by intros ->; destruct Hr as [[] _]|]. apply (synced_failed p3 s3 c2 (cl ++ op) [] E2); [done|done|]. destruct Hf3 as (Ef & _). unfold frame in Ef. injection Ef as F1 F2 F3 F4 F5 F6 F7 F8 F9 F10 F11 F12. rewrite F7, Hh2. lia.
Qed.

End commit.
