(* ===== verification/PagerAtomic.v ===== *)
(** Atomic commit: a transaction of the pager, interrupted anywhere, leaves files from
    which the old database or the new one is recovered.

    The hypotheses of the section are a part of every theorem: synchronous=FULL
    ([noSync] is false and [fullSync] true; with NORMAL, as pager.c says, a loss of power
    can damage the database), a device that claims neither SAFE_APPEND nor SEQUENTIAL,
    and, in [geometry], sectors no larger than a page.  Memory is not short ([Disk.step]
    answers [Malloc] with success): a failed allocation in the bit vector of the journal
    can lose entries of it (see [BitvecSpec]).  No other process uses the files. *)
From S2P Require Import Prelude Varint VarintSpec Bitvec BitvecSpec Disk DiskSpec Pager PagerPlayback PagerRecovery PagerTransaction PagerWrite PagerSync PagerCommit.

Section atomic.
Context {G : geometry} (g : config).
Hypothesis Hsync : noSync g = false.
Hypothesis Hfull : fullSync g = true.
Hypothesis Hos : osSectorSize g = szH.
Hypothesis Hdc : Z.land (iDc g) SQLITE_IOCAP_SAFE_APPEND = 0 /\ Z.land (iDc g) SQLITE_IOCAP_SEQUENTIAL = 0.

Local Abbreviation wp := (wpc szS).

(** ** The client *)

(** Page [pgno] is read; its contents become [d]; the cache makes room by writing it to
    the database; or it is dropped from the cache if it is clean. *)
Inductive cmd := Get (pgno : Z) | Put (pgno : Z) (d : bytes) | Spill (pgno : Z) | Drop (pgno : Z).

Definition cmd_ok (c : cmd) : Prop :=
  match c with Get pgno => 0 <= pgno | Put pgno d => 0 <= pgno /\ lenz d = szP | _ => True end.

Definition run_cmd (p : Pager) (c : cmd) : prog (Z * Pager) :=
  match c with
  | Get pgno => sqlite3PagerGet p pgno
  | Put pgno d =>
      andthen (sqlite3PagerGet p pgno) (fun p => andthen (sqlite3PagerWrite g p pgno) (fun p =>
      Ret (SQLITE_OK, set_pPCache p (alter (fun pg => pg_set_data pg d) pgno (pPCache p)))))
  | Spill pgno => if match pPCache p !! pgno with Some pg => PGHDR_DIRTY pg | None => false end then pagerStress g p pgno else Ret (SQLITE_OK, p)
  | Drop pgno => if match pPCache p !! pgno with Some pg => PGHDR_DIRTY pg | None => true end then Ret (SQLITE_OK, p) else Ret (SQLITE_OK, set_pPCache p (delete pgno (pPCache p)))
  end.

Fixpoint run_cmds (p : Pager) (cs : list cmd) : prog (Z * Pager) :=
  match cs with [] => Ret (SQLITE_OK, p) | c :: cs => andthen (run_cmd p c) (fun p => run_cmds p cs) end.

(** A transaction ends with the code of its commit, or with its own code and that of the
    rollback. *)
Inductive outcome := Committed (rc : Z) | Undone (rc rc2 : Z).

Definition transaction (p : Pager) (exFlag : bool) (cs : list cmd) : prog (outcome * Pager) :=
  '(rc, p) ← andthen (sqlite3PagerBegin g p exFlag) (fun p => andthen (run_cmds p cs) (fun p => sqlite3PagerCommitPhaseOne g p false));
  if rc =? SQLITE_OK then '(rc, p) ← sqlite3PagerCommitPhaseTwo g p; Ret (Committed rc, p)
  else '(rc2, p) ← sqlite3PagerRollback g p; Ret (Undone rc rc2, p).

(** What the commands do to a database. *)
Definition apply_cmd (D : bytes) (c : cmd) : bytes := match c with Put pgno d => write_at D ((pgno - 1) * szP) d | _ => D end.
Definition apply_cmds (D : bytes) (cs : list cmd) : bytes := foldl apply_cmd D cs.

(** ** What is on disk *)

(** The contents [S], but for the change counter, and no hot journal. *)
Definition new (S : bytes) (x j : option bytes) : Prop := exists D n, x = Some D /\ upto D S /\ no_magic j /\ lenz D = n * szP /\ 0 <= n <= PAGER_MAX_PGNO.

Definition old (x j : option bytes) : Prop := exists D, x = Some D /\ restorable D j.

(** A loss of power leaves the old database or the new one. *)
Definition atomic (S : bytes) (s : disk) : Prop := forall x j, survives szS (dbf s) x -> survives szS (jrn s) j -> old x j \/ new S x j.

Lemma good_atomic S s : good s -> atomic S s.
Proof. intros [Hs _] x j Hx Hj. left. by apply Hs. Qed.

(** ** The commands *)

Lemma upto_grow V V' S pgno d : 1 <= pgno -> lenz d = szP -> opened V V' pgno -> upto V S -> upto (write_at V' ((pgno - 1) * szP) d) (write_at S ((pgno - 1) * szP) d).
Proof. intros Hp Hd Ho Hu. rewrite (opened_write V) by done. geo. apply upto_write; [nia|lia|done]. Qed.

Lemma running_drop p s V pgno : running p s V -> match pPCache p !! pgno with Some pg => PGHDR_DIRTY pg | None => true end = false -> running (set_pPCache p (delete pgno (pPCache p))) s V.
Proof.
  intros Hrun Hd. destruct (pPCache p !! pgno) as [pg|] eqn:Ep; [|done]. destruct Hrun as [[[Hi Hb] ->]|(c & cl & op & E & Ht & Hseg & D & HD & HC)].
  - left. split; [|done]. split; [|done]. destruct Hi as [I1 I2 I3 I4 I5 I6 I7 I8 I9]. split; try done. by apply (cache_drop _ _ _ _ _ _ _ _ pg).
  - right. exists c, cl, op, E. split; [by apply (transact_database p _ s s); [..|apply Ht|]|]. split; [by apply (same_frame_segment p)|]. exists D. split; [done|]. by apply (cache_drop _ _ _ _ _ _ _ _ pg).
Qed.

Lemma wpc_cmd p s V S c (Q : Z * Pager -> disk -> Prop) :
  running p s V -> upto V S -> cmd_ok c -> (forall p' s' V', running p' s' V' -> upto V' (apply_cmd S c) -> Q (SQLITE_OK, p') s') ->
  (forall rc p' s', rc <> SQLITE_OK -> failed p' s' -> Q (rc, p') s') -> wp (run_cmd p c) Q good s.
Proof.
  intros Hrun Hup Hok HOK Herr. pose proof (running_good _ _ _ Hrun) as Hg. destruct c as [pgno|pgno d|pgno|pgno]; cbn [run_cmd apply_cmd] in *.
  - apply (wpc_running_get p s V); [done|done|]. intros rc p' Hr' _. destruct (decide (rc = SQLITE_OK)) as [->|Hne]; [by apply (HOK p' s V)|]. apply Herr; [done|]. by apply (running_failed p' s V).
  - destruct Hok as [Hp Hd]. apply wpc_andthen. apply (wpc_running_get p s V); [done|done|]. intros rc p' Hr' Hc. split; [done|]. split; [|intros Hne; apply Herr; [done|]; by apply (running_failed p' s V)]. intros ->.
    apply wpc_andthen. apply (wpc_sqlite3PagerWrite g Hsync Hdc p' s V); [done|by apply Hc|..].
    + intros p2 s2 V2 c2 cl2 op2 E2 Hl2 Ho2 Hd2. assert (Hg2 : good s2) by apply (transact_good p2 s2 c2 cl2 op2 E2), Hl2. split; [done|]. split; [intros _|done]. apply wpc_ret; [done|].
      assert (Hp1 : 1 <= pgno) by (destruct Hd2 as (pg & Hpg & _), Hl2 as (_ & _ & D & _ & HC); apply (pg_number _ _ _ _ _ _ (ca_page _ _ _ _ _ _ _ HC _ _ Hpg))).
      apply (HOK _ s2 (write_at V2 ((pgno - 1) * szP) d)); [|by apply (upto_grow V)]. right. exists c2, cl2, op2, E2. by apply live_data.
    + intros rc p2 s2 Hr Hf. split; [apply Hf|]. split; [done|]. intros _. by apply Herr.
  - destruct (pPCache p !! pgno) as [pg|] eqn:Ep; [|apply wpc_ret; [done|]; by apply (HOK p s V)]. destruct (PGHDR_DIRTY pg) eqn:Ed; [|apply wpc_ret; [done|]; by apply (HOK p s V)].
    destruct Hrun as [[[Hi _] _]|(c & cl & op & E & Hlive)].
    + exfalso. destruct (ca_page _ _ _ _ _ _ _ (i_image _ _ _ Hi) _ _ Ep) as [P1 P2 P3 P4 P5 P6 P7 P8].
      destruct (Z.leb_spec pgno nOrig); [destruct P6 as [_ ?]; [done|by intros ?%elem_of_nil|congruence]|rewrite P4 in Ed by lia; done].
    + apply (wpc_stress g Hsync Hfull Hdc p s V c cl op E); [done|by exists pg|..]; [|done]. intros p' s' V' c' cl' op' E' Hl Hup'. apply (HOK p' s' V'); [right; by exists c', cl', op', E'|by apply (upto_trans _ V)].
  - destruct (match pPCache p !! pgno with Some pg => PGHDR_DIRTY pg | None => true end) eqn:Ed; (apply wpc_ret; [done|]); [by apply (HOK p s V)|]. apply (HOK _ s V); [|done]. by apply running_drop.
Qed.

Lemma wpc_cmds cs p s V S (Q : Z * Pager -> disk -> Prop) :
  running p s V -> upto V S -> Forall cmd_ok cs -> (forall p' s' V', running p' s' V' -> upto V' (apply_cmds S cs) -> Q (SQLITE_OK, p') s') ->
  (forall rc p' s', rc <> SQLITE_OK -> failed p' s' -> Q (rc, p') s') -> wp (run_cmds p cs) Q good s.
Proof.
  revert p s V S. induction cs as [|c cs IH]; intros p s V S Hrun Hup Hok HOK Herr; cbn [run_cmds].
  - apply wpc_ret; [by apply (running_good p s V)|]. by apply (HOK p s V).
  - apply Forall_cons in Hok as [Hc Hok]. apply wpc_andthen. apply (wpc_cmd p s V S); [done|done|done|..].
    + intros p' s' V' Hr' Hup'. split; [by apply (running_good p' s' V')|]. split; [intros _|done]. by apply (IH p' s' V' (apply_cmd S c)).
    + intros rc p' s' Hr Hf. split; [apply Hf|]. split; [done|]. intros _. by apply Herr.
Qed.

(** The cache is well formed: full pages with their numbers, of which a page that may be
    changed, or whose record is not synced, is dirty, and a dirty one is in the database. *)
Definition well_formed (p : Pager) : Prop :=
  forall pgno pg, pPCache p !! pgno = Some pg ->
    1 <= pgno <= PAGER_MAX_PGNO /\ pgno <> mj /\ lenz (pData pg) = szP /\ PGHDR_DONT_WRITE pg = false /\ (PGHDR_DIRTY pg = true -> pgno <= dbSize p) /\
    (PGHDR_WRITEABLE pg = true \/ PGHDR_NEED_SYNC pg = true -> PGHDR_DIRTY pg = true).

Lemma running_well_formed p s V : running p s V -> well_formed p.
Proof.
  intros Hrun. assert (Hc : exists nf cl op D, cache_ok (pPCache p) (dbSize p) nf cl op D V).
  { destruct Hrun as [[[Hi _] ->]|(c & cl & op & E & _ & _ & D & _ & HC)]; [|by exists (dbFileSize p), cl, op, D]. exists nOrig, [], [], orig. rewrite (i_size _ _ _ Hi). apply (i_image _ _ _ Hi). }
  destruct Hc as (nf & cl & op & D & HC). intros pgno pg Hpg. destruct (ca_page _ _ _ _ _ _ _ HC _ _ Hpg) as [[P1 P1'] P2 P3 P4 P5 P6 P7 P8]. split; [done|]. split; [done|]. split; [rewrite P2; apply lenz_read_page|].
  split; [done|]. split; [|done]. intros Hd. destruct (Z.leb_spec pgno (dbSize p)); [done|]. rewrite P4 in Hd by lia. done.
Qed.

(** C11: the commands of a client keep the pager well formed: whatever the pages they
    read, change, write out and drop, and in whatever order, the cache has full pages
    whose flags agree, and the cache and the file together are the database that the
    commands make, but for the change counter; a command that fails leaves a transaction
    that can be rolled back, and every loss of power meanwhile one that can be undone. *)
Theorem commands_well_formed cs p s V :
  running p s V -> Forall cmd_ok cs ->
  wp (run_cmds p cs) (fun '(rc, p') s' => if rc =? SQLITE_OK then well_formed p' /\ exists V', running p' s' V' /\ upto V' (apply_cmds V cs) else failed p' s') good s.
Proof.
  intros Hrun Hok. apply (wpc_cmds cs p s V V); [done|done|done|..].
  - intros p' s' V' Hr Hup. cbn. split; [by apply (running_well_formed p' s' V')|by exists V'].
  - intros rc p' s' Hr Hf. by rewrite (proj2 (Z.eqb_neq _ _) Hr).
Qed.

(** ** The second phase *)

(** The transaction is committed, and durable if the journal mode makes it so. *)
Definition committed (V : bytes) (p : Pager) (s : disk) : Prop :=
  cur (dbf s) = Some V /\ no_magic (cur (jrn s)) /\ (durable g = true -> forall x j, survives szS (dbf s) x -> survives szS (jrn s) j -> x = Some V /\ no_magic j) /\
  (forall q pg, pPCache p !! q = Some pg -> pData pg = read_page V q).

Lemma committed_atomic V n s s' S : lenz V = n * szP -> 0 <= n <= PAGER_MAX_PGNO -> good s -> settled (dbf s) V -> upto V S -> finalizing s s' -> atomic S s'.
Proof.
  intros Hl Hn [Hg _] Hs Hup (F1 & F2 & F3) x j Hx Hj. rewrite F1 in Hx. destruct (F2 j Hj) as [Hj'|Hnm]; [left; by apply Hg|right]. exists V, n. apply (settled_survives _ V) in Hx; [|done]. by split.
Qed.

Lemma error_result p rc : (pager_error p rc).1 = rc /\ pPCache (pager_error p rc).2 = pPCache p.
Proof. split; [done|]. unfold pager_error. cbn. by destruct (_ || _). Qed.

Lemma truncated_cache n (C : gmap Z PgHdr) q pg : sqlite3PcacheTruncate n (sqlite3PcacheCleanAll C) !! q = Some pg -> exists y, C !! q = Some y /\ pData pg = pData y.
Proof.
  unfold sqlite3PcacheTruncate, sqlite3PcacheCleanAll, on_dirty. intros [H _]%map_lookup_filter_Some. rewrite lookup_fmap in H. destruct (C !! q) as [y|]; [|done]. exists y. split; [done|].
  cbn in H. injection H as <-. by destruct (PGHDR_DIRTY y).
Qed.

Lemma wpc_phase_two p s V S (Q : Z * Pager -> disk -> Prop) :
  finished p s V -> upto V S -> (forall p' s', committed V p' s' -> atomic S s' -> Q (SQLITE_OK, p') s') -> (forall rc p' s', is_error rc -> atomic S s' -> Q (rc, p') s') ->
  wp (sqlite3PagerCommitPhaseTwo g p) Q (atomic S) s.
Proof.
  intros [F1 F2 F3 F4 F5 F6 F7 (c & cl & E & HE & HJ) F9 (F10 & F10' & F10'') F11] Hup HOK Herr. pose proof HJ as (J1 & J2 & J3). destruct (saved_chain _ _ _ _ J3 J2) as (Hc & _ & Hn). geo.
  assert (Hl : szH <= lenz c) by (apply (hot_len c cl); by exists E). assert (Hat : forall s', finalizing s s' -> atomic S s') by (intros s' Hf; by apply (committed_atomic V (dbSize p) s); (done || lia)).
  assert (Hs : finalizing s s) by (apply finalizing_refl; by rewrite J1). unfold sqlite3PagerCommitPhaseTwo. rewrite F2. cbn [negb Z.eqb SQLITE_OK].
  wp_bind. apply wpc_assert; [by rewrite F4|by apply Hat|]. rewrite F4. cbn [Z.eqb PAGER_WRITER_FINISHED PAGER_WRITER_LOCKED Pos.eqb andb]. wp_bind. apply (wpc_end g Hsync p).
  - done.
  - by rewrite F4.
  - by rewrite F5.
  - by rewrite F4.
  - intros _. lia.
  - left. split; [done|]. exists c. split; [|by left]. split; [done|]. split; [done|left; lia].
  - exact Hat.
  - intros p' s' He Hc' Hf Hnm Hdur. apply wpc_ret; [by apply Hat|]. destruct (error_result p' SQLITE_OK) as [E1 E2]. rewrite (surjective_pairing (pager_error p' SQLITE_OK)), E1. apply HOK; [|by apply Hat].
    destruct Hf as (Ff & _). split; [rewrite Ff; exact (proj1 F6)|]. split; [done|]. split.
    + intros Hd x j Hx Hj. rewrite Ff in Hx. split; [by apply (settled_survives (dbf s))|]. destruct (Hdur Hd F9 F3) as (_ & _ & Hall). by apply Hall.
    + intros q pg. rewrite E2, Hc'. intros (y & Hy & ->)%truncated_cache. by apply F11.
  - intros rc p' s' Hr He Hf. apply wpc_ret; [by apply Hat|]. destruct (error_result p' rc) as [E1 E2]. rewrite (surjective_pairing (pager_error p' rc)), E1. apply Herr; [done|by apply Hat].
Qed.

(** A transaction that has written nothing. *)
Lemma wpc_phase_two_begun p s S (Q : Z * Pager -> disk -> Prop) :
  begun p s -> upto orig S -> (forall p' s', committed orig p' s' -> atomic S s' -> Q (SQLITE_OK, p') s') -> (forall rc p' s', is_error rc -> atomic S s' -> Q (rc, p') s') ->
  wp (sqlite3PagerCommitPhaseTwo g p) Q (atomic S) s.
Proof.
  intros [Hi (Hlk & Ho & Hf)] Hup HOK Herr. pose proof Hi as [I1 I2 I3 I4 I5 I6 I7 I8 I9]. pose proof I7 as (Hp & Hpc & Hnm).
  assert (Hcold : forall s', finalizing s s' -> pristine s' /\ forall j, survives szS (jrn s') j -> no_magic j).
  { intros s' (F1 & F2 & F3). split; [by unfold pristine; rewrite F1|]. intros j Hj. destruct (F2 j Hj) as [Hj'|]; [|done]. by apply (saved_cold [] (jrn s)); [apply cold_saved|]. }
  assert (Hat : forall s', finalizing s s' -> atomic S s').
  { intros s' Hfin x j Hx Hj. destruct (Hcold s' Hfin) as [Hp' Hn']. right. exists orig, nOrig. split; [by apply (pristine_survives s')|]. split; [done|]. split; [by apply Hn'|]. geo. by split. }
  assert (Hcache : forall q pg, pPCache p !! q = Some pg -> pData pg = read_page orig q) by (intros q pg Hq; apply (pg_data _ _ _ _ _ _ (ca_page _ _ _ _ _ _ _ I9 _ _ Hq))).
  assert (Hcom : forall p' s', finalizing s s' -> no_magic (cur (jrn s')) -> (forall q pg, pPCache p' !! q = Some pg -> pData pg = read_page orig q) -> committed orig p' s').
  { intros p' s' Hfin Hn Hc. destruct (Hcold s' Hfin) as [Hp' Hn']. split; [by apply pristine_cur|]. split; [done|]. split; [|done]. intros _ x j Hx Hj. split; [by apply (pristine_survives s')|by apply Hn']. }
  assert (Hs : finalizing s s) by by apply finalizing_refl. unfold sqlite3PagerCommitPhaseTwo. rewrite I2. cbn [negb Z.eqb SQLITE_OK].
  wp_bind. apply wpc_assert; [by rewrite I3|by apply Hat|]. destruct ((eState p =? PAGER_WRITER_LOCKED) && exclusiveMode g && _).
  { apply wpc_ret; [by apply Hat|]. apply HOK; [|by apply Hat]. apply Hcom; [done| |done]. destruct (cur (jrn s)) as [v|]; [by apply Hnm|done]. }
  wp_bind. apply (wpc_end g Hsync p); [done|by rewrite I3|apply I4|by rewrite I3|intros _; by rewrite I8, Hf| |exact Hat|..].
  - destruct (jfd p) eqn:Ej; [left|right]; (split; [done|]).
    + destruct (I6 eq_refl) as [c Ec]. exists c. rewrite Ec in Hpc. split; [|right; by apply Hnm]. split; [done|]. split; [done|by right].
    + split; [done|]. split; [|done]. destruct (cur (jrn s)) as [v|]; [by apply Hnm|done].
  - intros p' s' He Hc' Hfin Hn _. apply wpc_ret; [by apply Hat|]. destruct (error_result p' SQLITE_OK) as [E1 E2]. rewrite (surjective_pairing (pager_error p' SQLITE_OK)), E1. apply HOK; [|by apply Hat].
    apply Hcom; [done|done|]. intros q pg. rewrite E2, Hc'. intros (y & Hy & ->)%truncated_cache. by apply Hcache.
  - intros rc p' s' Hr He Hfin. apply wpc_ret; [by apply Hat|]. destruct (error_result p' rc) as [E1 E2]. rewrite (surjective_pairing (pager_error p' rc)), E1. apply Herr; [done|by apply Hat].
Qed.

(** What a transaction ends with. *)
Definition ends (S : bytes) (o : outcome) (p' : Pager) (s' : disk) : Prop :=
  atomic S s' /\
  match o with
  | Committed rc => rc = SQLITE_OK -> exists V, upto V S /\ committed V p' s'
  | Undone rc rc2 => rc <> SQLITE_OK /\ good s' /\ (rc2 = SQLITE_OK -> cur (dbf s') = Some orig)
  end.

Lemma wpc_transaction p s exFlag cs :
  idle PAGER_READER p s -> Forall cmd_ok cs -> wp (transaction p exFlag cs) (fun '(o, p') s' => ends (apply_cmds orig cs) o p' s') (atomic (apply_cmds orig cs)) s.
Proof.
  intros Hi Hok. set (S := apply_cmds orig cs). pose proof (i_cold _ _ _ Hi) as Hcold. pose proof (cold_good _ Hcold) as Hg. unfold transaction. wp_bind.
  apply (wpc_mono szS _ (fun a s' => if a.1 =? SQLITE_OK then (begun a.2 s' /\ upto orig S) \/ exists V, finished a.2 s' V /\ upto V S else failed a.2 s' \/ (good s' /\ cur (dbf s') = Some orig /\ eState a.2 = PAGER_READER)) _ good).
  - intros [rc p'] s' Hend. cbn [fst snd] in Hend. destruct (Z.eqb_spec rc SQLITE_OK) as [->|Hne].
    + wp_bind. assert (Herr : forall rc p2 s2, is_error rc -> atomic S s2 -> wp (Ret (Committed rc, p2)) (fun '(o, p') s' => ends S o p' s') (atomic S) s2).
      { intros rc p2 s2 Hr Ha. apply wpc_ret; [done|]. split; [done|]. intros ->. by destruct Hr. }
      destruct Hend as [[Hb Hup]|(V & Hfin & Hup)].
      * apply (wpc_phase_two_begun p' s' S); [done|done| |done]. intros p2 s2 Hc Ha. apply wpc_ret; [done|]. split; [done|]. intros _. by exists orig.
      * apply (wpc_phase_two p' s' V S); [done|done| |done]. intros p2 s2 Hc Ha. apply wpc_ret; [done|]. split; [done|]. intros _. by exists V.
    + assert (Hret : forall rc2 p2 s2, good s2 -> (rc2 = SQLITE_OK -> cur (dbf s2) = Some orig) -> wp (Ret (Undone rc rc2, p2)) (fun '(o, p') s' => ends S o p' s') (atomic S) s2).
      { intros rc2 p2 s2 Hg2 HD. apply wpc_ret; [by apply good_atomic|]. split; [by apply good_atomic|done]. }
      wp_bind. destruct Hend as [Hf|(Hg' & HD & Est)].
      * apply (wpc_mono szS _ (restored) _ good); [|by intros s2; apply good_atomic|by apply (wpc_rollback g Hsync Hos)]. intros [rc2 p2] s2 [Hg2 HD2]. by apply Hret.
      * unfold sqlite3PagerRollback. rewrite Est. change (PAGER_READER =? PAGER_ERROR) with false. change (PAGER_READER <=? PAGER_READER) with true. apply wpc_ret; [by apply good_atomic|]. by apply Hret.
  - intros s'. apply good_atomic.
  - assert (Hfail : forall rc p' s', rc <> SQLITE_OK -> failed p' s' \/ (good s' /\ cur (dbf s') = Some orig /\ eState p' = PAGER_READER) ->
      if (rc, p').1 =? SQLITE_OK then (begun (rc, p').2 s' /\ upto orig S) \/ exists V, finished (rc, p').2 s' V /\ upto V S else failed (rc, p').2 s' \/ (good s' /\ cur (dbf s') = Some orig /\ eState (rc, p').2 = PAGER_READER)).
    { intros rc p' s' Hr Hf. cbn [fst snd]. by rewrite (proj2 (Z.eqb_neq _ _) Hr). }
    apply wpc_andthen. apply (wpc_begin g p s); [done|..].
    + intros p1 Hb _. split; [done|]. split; [intros _|done]. apply wpc_andthen. apply (wpc_cmds cs p1 s orig orig); [by left|done|done|..].
      * intros p2 s2 V Hr2 Hup. pose proof (running_good _ _ _ Hr2) as Hg2. split; [done|]. split; [intros _|done]. apply (wpc_phase_one g Hsync Hfull Hos Hdc p2 s2 V); [done|..].
        -- intros Hb2 ->. left. by split.
        -- intros p3 s3 V3 Hfin Hup3. right. exists V3. split; [done|]. by apply (upto_trans _ V).
        -- intros rc p3 s3 Hr Hf. apply Hfail; [done|by left].
      * intros rc p2 s2 Hr Hf. split; [apply Hf|]. split; [done|]. intros _. apply Hfail; [done|by left].
    + intros rc p' Hr Est. split; [done|]. split; [by intros ->; destruct Hr|]. intros _. apply Hfail; [by destruct Hr|]. right. split; [done|]. split; [|done]. apply pristine_cur, Hcold.
Qed.

(** C8: with synchronous=FULL, no claims of the device on the order of its writes,
    sectors no larger than a page and no failed allocation, a transaction that begins
    with a committed database is atomic, whichever calls on files and locks fail.
    Wherever it is interrupted, a loss of power leaves files that are the database as the commands make
    it, but for the change counter, without a hot journal, or from which the original
    database can be restored.  A commit that succeeds leaves the new database, in the
    file and in the cache, for good in the journal modes that sync; a transaction that
    fails and is rolled back without an error leaves the original one.  No answer of the
    system makes an assert fail. *)
Theorem transaction_atomic p s exFlag cs :
  idle PAGER_READER p s -> Forall cmd_ok cs -> wp (transaction p exFlag cs) (fun '(o, p') s' => ends (apply_cmds orig cs) o p' s') (atomic (apply_cmds orig cs)) s.
Proof. apply wpc_transaction. Qed.

(** ** Recovery after a loss of power *)

(** Files from which any recovery, interrupted or not, leads to the database [B]. *)
Definition recovers (B : bytes) (s : disk) : Prop :=
  exists G' : geometry, @szS G' = szS /\ @szP G' = szP /\ @szH G' = szH /\ @orig G' = B /\ @sound G' s.

(** The geometry of another database. *)
Definition regeo (B : bytes) (n : Z) (Hn : 0 <= n <= PAGER_MAX_PGNO) (Hl : lenz B = n * szP) : geometry :=
  {| szS := szS; szP := szP; szH := szH; nOrig := n; orig := B; geo_S := geo_S; geo_multiple := geo_multiple; geo_H := geo_H; geo_H2 := geo_H2;
     geo_P := geo_P; geo_P2 := geo_P2; geo_le := geo_le; geo_N := Hn; geo_orig := Hl |}.

(** Opening the database leads to the original database or to the new one, whatever
    happens meanwhile. *)
Definition recoverable (S : bytes) (s : disk) : Prop :=
  forall x j p, survives szS (dbf s) x -> survives szS (jrn s) j -> opening p ->
    exists B, (B = orig \/ upto B S) /\ wp (sqlite3PagerSharedLock_hot g p) (fun '(rc, _) s' => recovers B s' /\ (rc = SQLITE_OK -> cur (dbf s') = Some B)) (recovers B) (restarted x j).

Lemma survives_self x : survives szS (mkFile x (fun y => y = x)) x.
Proof. by apply (survives_cur szS (mkFile x (fun y => y = x))). Qed.

Lemma old_sound x j : old x j -> sound (restarted x j).
Proof. intros (D & -> & Hr) x' j' ->%survives_restarted ->%survives_restarted. by exists D. Qed.

Lemma atomic_recoverable S s : atomic S s -> recoverable S s.
Proof.
  intros Ha x j p Hx Hj Hp. destruct (Ha x j Hx Hj) as [Ho|(D & n & -> & Hup & Hn & Hl & Hr)].
  - exists orig. split; [by left|]. apply (wpc_mono szS _ (fun '(rc, _) s' => good s' /\ (rc = SQLITE_OK -> cur (dbf s') = Some orig)) _ sound).
    + intros [rc p'] s' [[Hs _] HD]. split; [|done]. by exists G.
    + intros s' Hs. by exists G.
    + apply (wpc_recovery g Hsync Hos p (restarted x j)); [done|by apply old_sound|apply survives_self..].
  - exists D. split; [by right|]. set (G' := regeo D n Hr Hl).
    apply (wpc_mono szS _ (fun '(rc, _) s' => @good G' s' /\ (rc = SQLITE_OK -> cur (dbf s') = Some D)) _ (@sound G')).
    + intros [rc p'] s' [[Hs _] HD]. split; [|done]. by exists G'.
    + intros s' Hs. by exists G'.
    + apply (@wpc_recovery G' g Hsync Hos p (restarted (Some D) j)); [exact Hp| |apply survives_self..].
      intros x' j' ->%(@survives_restarted G') ->%(@survives_restarted G'). exists D. split; [done|]. by left.
Qed.

(** C10: under the same conditions (synchronous=FULL in the writer and the opener, no
    claims of the device, sectors no larger than a page, no failed allocation), a process
    whose pager has the page size and the sector size of the writer, and which opens the
    database after a loss of power at whatever moment of a transaction or after it, finds the original database or the one that the commands
    make, but for the change counter; which of the two is settled by the files, and stays
    so however often the recovery itself is interrupted. *)
Theorem transaction_recoverable p s exFlag cs :
  idle PAGER_READER p s -> Forall cmd_ok cs -> wp (transaction p exFlag cs) (fun _ => recoverable (apply_cmds orig cs)) (recoverable (apply_cmds orig cs)) s.
Proof.
  intros Hi Hok. eapply wpc_mono; [|apply atomic_recoverable|by apply wpc_transaction]. intros [o p'] s' [Ha _]. by apply atomic_recoverable.
Qed.

End atomic.
