(* ===== verification/PagerWitnesses.v ===== *)
(** The rollback journal on a small database: runs of transactions and recoveries, the
    theorems of [PagerRecovery] and [PagerAtomic] at their states, and a journal that a
    pager with larger sectors overlooks. *)
From S2P Require Import Prelude Varint Bitvec Disk DiskSpec Pager PagerPlayback PagerRecovery PagerTransaction PagerWrite PagerCommit PagerAtomic.

Definition small_db : bytes := replicate 512 1 ++ replicate 512 2.

#[local] Instance small : geometry := {|
  szS := 512; szP := 512; szH := 512; nOrig := 2; orig := small_db;
  geo_S := ltac:(done); geo_multiple := ltac:(by exists 1); geo_H := ltac:(done); geo_H2 := ltac:(done); geo_P := ltac:(done); geo_P2 := ltac:(done);
  geo_le := ltac:(done); geo_N := ltac:(done); geo_orig := ltac:(reflexivity) |}.

Definition delete_config : config := mkConfig false true true false false PAGER_JOURNALMODE_DELETE (-1) 0 512 512.

(** A pager with the shared lock, one that has just been opened, and the database. *)
Definition reader : Pager := mkPager PAGER_READER SHARED_LOCK 512 512 2 0 0 PAGER_MAX_PGNO 0 0 0 0 None false false SQLITE_OK 0 [] false ∅.
Definition opener (sector : Z) : Pager := mkPager PAGER_OPEN NO_LOCK 512 sector 0 0 0 PAGER_MAX_PGNO 0 0 0 0 None false false SQLITE_OK 0 [] false ∅.
Definition small_disk : disk := restarted (Some small_db) None.

Definition commands : list cmd := [Get 1; Put 2 (replicate 512 7); Spill 2; Put 4 (replicate 512 9); Drop 1; Get 3].

Lemma small_idle : idle PAGER_READER reader small_disk.
Proof.
  split; try done.
  split; try done; [by intros pgno Hp%elem_of_nil|by left].
Qed.

Lemma commands_are_ok : Forall cmd_ok commands.
Proof. repeat constructor; done. Qed.

(** The result of the transaction: pages 2 and 4 are as they were put, page 3 is of zeros,
    the change counter is up by one and the journal is gone. *)
Definition committed_image (x : option ((outcome * Pager) * image)) : bool :=
  match x with
  | Some ((Committed rc, _), (Some D, None)) =>
      (rc =? SQLITE_OK) && bool_decide (drop 512 D = replicate 512 7 ++ replicate 512 0 ++ replicate 512 9) && bool_decide (slice D 0 24 = replicate 24 1) && negb (bool_decide (slice D 24 4 = [1; 1; 1; 1]))
  | _ => false
  end.

Lemma transaction_atomic_witness :
  committed_image (run (transaction delete_config reader false commands) (Some small_db, None)) = true /\
  wpc 512 (transaction delete_config reader false commands) (fun '(o, p') s' => ends delete_config (apply_cmds small_db commands) o p' s') (atomic (apply_cmds small_db commands)) small_disk.
Proof.
  split; [vm_compute; reflexivity|]. apply (@transaction_atomic small delete_config); [reflexivity|reflexivity|reflexivity|split; reflexivity|exact small_idle|exact commands_are_ok].
Defined.

Lemma transaction_recoverable_witness :
  wpc 512 (transaction delete_config reader true commands) (fun _ => recoverable delete_config (apply_cmds small_db commands)) (recoverable delete_config (apply_cmds small_db commands)) small_disk.
Proof.
  apply (@transaction_recoverable small delete_config); [reflexivity|reflexivity|reflexivity|split; reflexivity|exact small_idle|exact commands_are_ok].
Defined.

Lemma commands_well_formed_witness :
  exists p, begun p small_disk /\
    wpc 512 (run_cmds delete_config p commands) (fun '(rc, p') s' => if rc =? SQLITE_OK then well_formed p' /\ exists V', running p' s' V' /\ upto V' (apply_cmds small_db commands) else failed p' s') good small_disk.
Proof.
  pose (p := set_journalOff (set_dbOrigSize (set_dbFileSize (set_eState (set_eLock reader RESERVED_LOCK) PAGER_WRITER_LOCKED) 2) 2) 0). assert (Hb : begun p small_disk).
  { split; [|by repeat split]. destruct small_idle as [I1 I2 I3 I4 I5 I6 I7 I8 I9]. by split. }
  exists p. split; [exact Hb|]. apply (@commands_well_formed small delete_config); [reflexivity|reflexivity|reflexivity|split; reflexivity|left; by split|exact commands_are_ok].
Defined.

(** ** A loss of power before the journal is deleted *)

Definition crashed : image :=
  match run (andthen (sqlite3PagerBegin delete_config reader false) (fun p => andthen (run_cmds delete_config p [Put 2 (replicate 512 7)]) (fun p => sqlite3PagerCommitPhaseOne delete_config p false))) (Some small_db, None) with
  | Some (_, m) => m
  | None => (None, None)
  end.
Definition crashed_db : bytes := default [] crashed.1.
Definition crashed_journal : bytes := default [] crashed.2.

Lemma crashed_records : records crashed_journal 512 12345 [2; 1].
Proof. intros [|[|k]] pgno Hk; [injection Hk as <-|injection Hk as <-|done]; (split; [vm_compute; congruence|]; repeat split; vm_compute; congruence). Qed.

Lemma crashed_hot : hot crashed_journal [2; 1].
Proof.
  exists 1552. split; [done|]. split.
  - apply (chain_cons crashed_journal 0 12345 [2; 1] [] 1552); [|exact crashed_records|constructor]. split; [vm_compute; reflexivity|]. split; [|vm_compute; congruence]. repeat split; vm_compute; congruence.
  - intros Hm. apply magic_len in Hm; [|vm_compute; congruence]. vm_compute in Hm. congruence.
Qed.

Lemma crashed_sound : sound (restarted (Some crashed_db) (Some crashed_journal)).
Proof.
  intros x j ->%survives_restarted ->%survives_restarted. exists crashed_db. split; [done|]. right. exists crashed_journal, [2; 1]. split; [done|]. split; [exact crashed_hot|]. split; [vm_compute; congruence|].
  intros pgno Hp Hn. change nOrig with 2 in Hp. exfalso. apply Hn. assert (pgno = 1 \/ pgno = 2) as [->| ->] by lia; set_solver.
Qed.

(** A run that succeeds and leaves the database [D] and no journal. *)
Definition leaves (x : option ((Z * Pager) * image)) (D : bytes) : bool :=
  match x with Some ((rc, _), (Some D', None)) => (rc =? SQLITE_OK) && bool_decide (D' = D) | _ => false end.

Lemma recovery_restores_witness :
  leaves (run (sqlite3PagerSharedLock_hot delete_config (opener 512)) (Some crashed_db, Some crashed_journal)) small_db = true /\
  wpc 512 (sqlite3PagerSharedLock_hot delete_config (opener 512)) (fun '(rc, _) s' => good s' /\ (rc = SQLITE_OK -> cur (dbf s') = Some small_db)) sound (restarted (Some crashed_db) (Some crashed_journal)).
Proof.
  split; [vm_compute; reflexivity|]. apply (@recovery_restores small delete_config eq_refl eq_refl (opener 512) (restarted (Some crashed_db) (Some crashed_journal)) (Some crashed_db) (Some crashed_journal)).
  - by repeat split.
  - exact crashed_sound.
  - apply survives_self.
  - apply survives_self.
Defined.

(** ** Sectors of another size *)

Definition wide_config : config := mkConfig false true true false false PAGER_JOURNALMODE_DELETE (-1) 0 512 4096.

(** [readJournalHdr] compares the size of the journal with the sector size of the pager
    that recovers, before it has read that of the journal: where the sectors of the former
    are larger, a short hot journal is taken for an empty one, and is deleted. *)
Lemma short_journal_deleted :
  hot crashed_journal [2; 1] /\ crashed_db <> small_db /\
  leaves (run (sqlite3PagerSharedLock_hot wide_config (opener 4096)) (Some crashed_db, Some crashed_journal)) crashed_db = true.
Proof. split; [exact crashed_hot|]. split; [vm_compute; congruence|]. vm_compute. reflexivity. Qed.
