(* ===== verification/SharedMem.v ===== *)
(** Programs over memory shared between processes, and rely-guarantee reasoning.

    The wal-index is shared memory that readers inspect while a writer changes it,
    ordered by file locks and by memory barriers.  A routine that uses it is a tree of
    loads and stores of its words and hash slots; [run] executes it alone, [steps]
    interleaves the trees of several connections at every access, and [rg] is the
    condition under which such interleavings are safe. *)
From S2P Require Import Prelude.

(** ** The memory *)

(** A 32 KB page of the wal-index is 4096 words of 32 bits, and 8192 hash slots of
    16 bits; [Word pg i] and [Slot pg k] are the cells of page [pg].  The locks of the
    wal-index and the contents of the two files are shared in the same way: [Lck i] is
    the number of holders of a shared lock on byte [i], or -1 for an exclusive one;
    [LogAt off] and [DbAt off] are what is at a byte offset of the log and of the
    database, the bytes of a page as one number and those of the headers of the log as
    32-bit words; [LogSize] is the size of the log in bytes. *)
Inductive cell := Word (pg i : Z) | Slot (pg k : Z) | Lck (i : Z) | LogAt (off : Z) | DbAt (off : Z) | LogSize.

#[global] Instance cell_eq_dec : EqDecision cell.
Proof. solve_decision. Defined.

#[global] Instance cell_countable : Countable cell.
Proof.
  apply (inj_countable'
    (fun c => match c with
      | Word p i => inl (p, i) | Slot p k => inr (inl (p, k)) | Lck i => inr (inr (inl i))
      | LogAt i => inr (inr (inr (inl i))) | DbAt p => inr (inr (inr (inr (inl p)))) | LogSize => inr (inr (inr (inr (inr ())))) end)
    (fun s => match s with
      | inl (p, i) => Word p i | inr (inl (p, k)) => Slot p k | inr (inr (inl i)) => Lck i
      | inr (inr (inr (inl i))) => LogAt i | inr (inr (inr (inr (inl p)))) => DbAt p | inr (inr (inr (inr (inr _)))) => LogSize end)).
  by intros [].
Defined.

Abbreviation mem := (gmap cell Z).

(** Cells that were never written are zero. *)
Definition rd (m : mem) (c : cell) : Z := default 0 (m !! c).

Lemma rd_insert m c c' v : rd (<[c := v]> m) c' = if decide (c = c') then v else rd m c'.
Proof. unfold rd. case_decide; [subst; by rewrite lookup_insert_eq|by rewrite lookup_insert_ne]. Qed.

Lemma rd_empty c : rd ∅ c = 0.
Proof. unfold rd. by rewrite lookup_empty. Qed.

(** ** Programs *)

(** [Alloc] asks for memory; [ShmMap pg ext] asks the VFS to map page [pg], extending
    the file if [ext], and gets a result code and whether the pointer is set; [Ask] is
    any other answer of the environment, such as the result code of a system call;
    [Try f] changes memory atomically, if [f] allows it.  A failed [assert] is
    [Stuck]. *)
Inductive prog (A : Type) :=
  | Done (a : A)
  | Load (c : cell) (k : Z -> prog A)
  | Store (c : cell) (v : Z) (k : prog A)
  | Alloc (k : bool -> prog A)
  | ShmMap (pg : Z) (ext : bool) (k : Z -> bool -> prog A)
  | Ask (k : Z -> prog A)
  | Try (f : mem -> option mem) (k : bool -> prog A)
  | Stuck.
Arguments Done {A}. Arguments Load {A}. Arguments Store {A}. Arguments Alloc {A}.
Arguments ShmMap {A}. Arguments Ask {A}. Arguments Try {A}. Arguments Stuck {A}.

Fixpoint prog_bind_def {A B} (f : A -> prog B) (p : prog A) : prog B :=
  match p with
  | Done a => f a
  | Load c k => Load c (fun v => prog_bind_def f (k v))
  | Store c v k => Store c v (prog_bind_def f k)
  | Alloc k => Alloc (fun b => prog_bind_def f (k b))
  | ShmMap pg ext k => ShmMap pg ext (fun rc ptr => prog_bind_def f (k rc ptr))
  | Ask k => Ask (fun v => prog_bind_def f (k v))
  | Try g k => Try g (fun b => prog_bind_def f (k b))
  | Stuck => Stuck
  end.

#[global] Instance shm_ret : MRet prog := @Done.
#[global] Instance shm_bind : MBind prog := @prog_bind_def.

Definition load (c : cell) : prog Z := Load c Done.
Definition store (c : cell) (v : Z) : prog unit := Store c v (Done ()).
Definition insist {A} (b : bool) (p : prog A) : prog A := if b then p else Stuck.

(** Alone, with every allocation and mapping successful, and 0 for an answer. *)
Fixpoint run {A} (p : prog A) (m : mem) : option (A * mem) :=
  match p with
  | Done a => Some (a, m)
  | Load c k => run (k (rd m c)) m
  | Store c v k => run k (<[c := v]> m)
  | Alloc k => run (k true) m
  | ShmMap _ _ k => run (k 0 true) m
  | Ask k => run (k 0) m
  | Try f k => match f m with Some m' => run (k true) m' | None => run (k false) m end
  | Stuck => None
  end.

Lemma run_bind {A B} (p : prog A) (f : A -> prog B) m :
  run (p ≫= f) m = '(a, m) ← run p m; run (f a) m.
Proof.
  revert m. induction p as [a|c k IH|c v k IH|k IH|pg e k IH|k IH|g k IH|]; intros m; cbn; try done; eauto.
  destruct (g m); apply IH.
Qed.

(** The memory left by a process that is killed after [k] accesses. *)
Fixpoint killed {A} (k : nat) (p : prog A) (m : mem) : mem :=
  match k with
  | O => m
  | S k' =>
      match p with
      | Load c q => killed k' (q (rd m c)) m
      | Store c v q => killed k' q (<[c := v]> m)
      | Alloc q => killed k' (q true) m
      | ShmMap _ _ q => killed k' (q 0 true) m
      | Ask q => killed k' (q 0) m
      | Try f q => match f m with Some m' => killed k' (q true) m' | None => killed k' (q false) m end
      | Done _ | Stuck => m
      end
  end.

Section logic.
(** The pages that exist; the VFS can map these without extending the file. *)
Context (present : Z -> Prop).

(** What the VFS may answer: without an error (a read-only mapping is none), the
    pointer is set if the page exists or may be created. *)
Definition SQLITE_READONLY : Z := 8.
Definition map_answer (pg : Z) (ext : bool) (rc : Z) (ptr : bool) : Prop :=
  rc = 0 \/ rc = SQLITE_READONLY -> ext = true \/ present pg -> ptr = true.

(** ** Rely and guarantee

    Between any two accesses the others may change memory by [R]; every store is
    allowed by [G]; the program does not get stuck and ends in [Q]. *)
Section rg.
Context (R G : mem -> mem -> Prop).

Fixpoint rg {A} (p : prog A) (Q : A -> mem -> Prop) (m : mem) : Prop :=
  match p with
  | Done a => forall m', R m m' -> Q a m'
  | Load c k => forall m', R m m' -> rg (k (rd m' c)) Q m'
  | Store c v k => forall m', R m m' -> G m' (<[c := v]> m') /\ rg k Q (<[c := v]> m')
  | Alloc k => forall b, rg (k b) Q m
  | ShmMap pg ext k => forall rc ptr, map_answer pg ext rc ptr -> rg (k rc ptr) Q m
  | Ask k => forall v, rg (k v) Q m
  | Try f k => forall m', R m m' ->
      match f m' with Some m2 => G m' m2 /\ rg (k true) Q m2 | None => rg (k false) Q m' end
  | Stuck => False
  end.

Context `{!PreOrder R}.

Lemma rg_stable {A} (p : prog A) Q m m' : R m m' -> rg p Q m -> rg p Q m'.
Proof.
  intros HR. revert m m' HR. induction p as [a|c k IH|c v k IH|k IH|pg e k IH|k IH|g k IH|]; intros m m' HR; cbn; eauto.
  all: intros H m2 H2; apply H; by transitivity m'.
Qed.

Lemma rg_mono {A} (p : prog A) (Q Q' : A -> mem -> Prop) m :
  (forall a m, Q a m -> Q' a m) -> rg p Q m -> rg p Q' m.
Proof.
  intros HQ. revert m. induction p as [a|c k IH|c v k IH|k IH|pg e k IH|k IH|g k IH|]; intros m; cbn; eauto.
  - intros H m' HR. destruct (H m' HR). eauto.
  - intros H m' HR. specialize (H m' HR). destruct (g m'); [destruct H|]; eauto.
Qed.

Lemma rg_bind {A B} (p : prog A) (f : A -> prog B) Q m :
  rg p (fun a m => rg (f a) Q m) m -> rg (p ≫= f) Q m.
Proof.
  revert m. induction p as [a|c k IH|c v k IH|k IH|pg e k IH|k IH|g k IH|]; intros m; cbn; eauto.
  - intros H. by apply H.
  - intros H m' HR. destruct (H m' HR). split; [done|]. by apply IH.
  - intros H m' HR. specialize (H m' HR). destruct (g m'); [|by apply IH]. destruct H. split; [done|]. by apply IH.
Qed.

Lemma rg_done {A} (a : A) Q m : (forall m', R m m' -> Q a m') -> rg (Done a) Q m.
Proof. done. Qed.

Lemma rg_insist {A} b (p : prog A) Q m : b = true -> rg p Q m -> rg (insist b p) Q m.
Proof. by intros ->. Qed.

(** A program with its result packed in another type. *)
Lemma rg_wrap {A B} (p : prog A) (g : A -> B) (Q : A -> mem -> Prop) (Q' : B -> mem -> Prop) m :
  (forall a m m', Q a m -> R m m' -> Q' (g a) m') -> rg p Q m -> rg (r ← p; Done (g r)) Q' m.
Proof. intros H Hp. apply rg_bind, (rg_mono p Q); [|done]. intros a m1 Ha. apply rg_done. eauto. Qed.

End rg.

(** Alone, the rely is equality. *)
Lemma rg_run {A} (p : prog A) (Q : A -> mem -> Prop) G m :
  rg eq G p Q m -> exists a m', run p m = Some (a, m') /\ Q a m'.
Proof.
  revert m. induction p as [a|c k IH|c v k IH|k IH|pg e k IH|k IH|g k IH|]; intros m; cbn; try done.
  - intros H. eauto.
  - intros H. apply IH. by apply H.
  - intros H. apply IH. by apply (H m).
  - intros H. apply IH. by apply H.
  - intros H. apply IH. apply H. by intros _ _.
  - intros H. apply IH. by apply H.
  - intros H. specialize (H m eq_refl). destruct (g m); apply IH; [apply H|done].
Qed.

(** A program that may not store leaves memory as it is. *)
Lemma rg_no_store R {A} (p : prog A) (Q : A -> mem -> Prop) m a m' :
  Reflexive R -> rg R (fun _ _ => False) p Q m -> run p m = Some (a, m') -> m' = m.
Proof.
  intros HR. revert m. induction p as [b|c k IH|c v k IH|k IH|pg e k IH|k IH|g k IH|]; intros m; cbn; try done.
  - congruence.
  - intros H. by apply IH, H.
  - intros H _. by destruct (H m (HR m)).
  - intros H. by apply IH.
  - intros H. apply IH, H. by intros _ _.
  - intros H. by apply IH.
  - intros H. specialize (H m (HR m)). destruct (g m); [by destruct H|by apply IH].
Qed.

(** Where [I] holds, which both the others and the program preserve, a weaker rely and
    a stronger guarantee will do. *)
Lemma rg_conseq (I : mem -> Prop) (R R' G G' : mem -> mem -> Prop) {A} (p : prog A) Q m :
  (forall m m', I m -> R' m m' -> I m' /\ R m m') -> (forall m m', I m -> G m m' -> I m' /\ G' m m') ->
  I m -> rg R G p Q m -> rg R' G' p (fun a m => I m /\ Q a m) m.
Proof.
  intros HR HG. revert m. induction p as [b|c k IH|c v k IH|k IH|pg e k IH|k IH|g k IH|]; intros m Hi; cbn; eauto.
  - intros H m' H'. destruct (HR _ _ Hi H'). auto.
  - intros H m' H'. destruct (HR _ _ Hi H'). auto.
  - intros H m' H'. destruct (HR _ _ Hi H') as [Hi' Hr]. destruct (H m' Hr) as [Hg Hk].
    destruct (HG _ _ Hi' Hg). auto.
  - intros H m' H'. destruct (HR _ _ Hi H') as [Hi' Hr]. specialize (H m' Hr). destruct (g m') as [m2|]; [|auto].
    destruct H as [Hg Hk]. destruct (HG _ _ Hi' Hg). auto.
Qed.

Lemma rg_weaken (R R' G : mem -> mem -> Prop) {A} (p : prog A) Q m :
  (forall m m', R' m m' -> R m m') -> rg R G p Q m -> rg R' G p Q m.
Proof.
  intros HR Hp. apply (rg_mono _ _ _ (fun a m => True /\ Q a m)); [by intros a m0 [_ H]|].
  by apply (rg_conseq (fun _ => True) R R' G G); [auto..|].
Qed.

(** A program that may not store, under a stronger rely, which is then known to hold of
    the memory before and after. *)
Lemma rg_track (R R' G : mem -> mem -> Prop) `{!PreOrder R'} {A} (p : prog A) Q m :
  (forall m m', R' m m' -> R m m') -> rg R (fun _ _ => False) p Q m -> rg R' G p (fun a m' => R' m m' /\ Q a m') m.
Proof.
  intros HR Hp. assert (H0 : R' m m) by reflexivity. revert H0. generalize m at 1 3. revert m Hp.
  induction p as [b|c k IH|c v k IH|k IH|pg e k IH|k IH|g k IH|]; intros m Hp m0 H0; cbn in *; eauto.
  - intros m' H'. split; [by transitivity m|auto].
  - intros m' H'. apply IH; [auto|by transitivity m].
  - intros m' H'. by destruct (Hp m' (HR _ _ H')).
  - intros m' H'. specialize (Hp m' (HR _ _ H')). destruct (g m'); [by destruct Hp|]. apply IH; [done|by transitivity m].
Qed.

(** ** Interleaving *)

Inductive prog_step {A} : mem -> prog A -> mem -> prog A -> Prop :=
  | step_load m c k : prog_step m (Load c k) m (k (rd m c))
  | step_store m c v k : prog_step m (Store c v k) (<[c := v]> m) k
  | step_alloc m k b : prog_step m (Alloc k) m (k b)
  | step_ask m k v : prog_step m (Ask k) m (k v)
  | step_try m f k m' : f m = Some m' -> prog_step m (Try f k) m' (k true)
  | step_busy m f k : f m = None -> prog_step m (Try f k) m (k false)
  | step_map m pg ext k rc ptr : map_answer pg ext rc ptr ->
      prog_step m (ShmMap pg ext k) m (k rc ptr).

(** One access of one of the connections. *)
Inductive step {A} : mem * list (prog A) -> mem * list (prog A) -> Prop :=
  | step_thread m ps i p m' p' :
      ps !! i = Some p -> prog_step m p m' p' -> step (m, ps) (m', <[i := p']> ps).

Definition steps {A} : relation (mem * list (prog A)) := rtc step.

(** A schedule: which thread runs, for how many accesses; every allocation and mapping
    succeeds. *)
Definition next {A} (m : mem) (p : prog A) : option (mem * prog A) :=
  match p with
  | Load c k => Some (m, k (rd m c))
  | Store c v k => Some (<[c := v]> m, k)
  | Alloc k => Some (m, k true)
  | ShmMap _ _ k => Some (m, k 0 true)
  | Ask k => Some (m, k 0)
  | Try f k => match f m with Some m' => Some (m', k true) | None => Some (m, k false) end
  | Done _ | Stuck => None
  end.

(** A thread that ends early gives up the rest of its turn. *)
Fixpoint turn {A} (k : nat) (m : mem) (p : prog A) : mem * prog A :=
  match k with
  | O => (m, p)
  | S k => match next m p with Some (m, p) => turn k m p | None => (m, p) end
  end.

Fixpoint schedule {A} (s : list (nat * nat)) (m : mem) (ps : list (prog A)) : option (mem * list (prog A)) :=
  match s with
  | [] => Some (m, ps)
  | (i, k) :: s =>
      p ← ps !! i;
      let '(m, p) := turn k m p in schedule s m (<[i := p]> ps)
  end.

Lemma next_step {A} m (p : prog A) m' p' : next m p = Some (m', p') -> prog_step m p m' p'.
Proof. destruct p as [| | | | | |g ?|]; cbn; try destruct (g m) eqn:?; intros; simplify_eq; by constructor. Qed.

Lemma turn_steps {A} k m (p : prog A) ps i m' p' :
  ps !! i = Some p -> turn k m p = (m', p') -> steps (m, ps) (m', <[i := p']> ps).
Proof.
  revert m p ps. induction k as [|k IH]; intros m p ps Hp; cbn.
  { intros [= <- <-]. rewrite list_insert_id by done. apply rtc_refl. }
  destruct (next m p) as [[m1 p1]|] eqn:Hn.
  - intros Ht. apply rtc_l with (m1, <[i := p1]> ps).
    + econstructor; [done|by apply next_step].
    + rewrite <- (list_insert_insert_eq ps i p' p1). apply IH with p1; [|done].
      apply list_lookup_insert_eq. by eapply lookup_lt_Some.
  - intros [= <- <-]. rewrite list_insert_id by done. apply rtc_refl.
Qed.

Lemma schedule_steps {A} s m (ps : list (prog A)) m' ps' :
  schedule s m ps = Some (m', ps') -> steps (m, ps) (m', ps').
Proof.
  revert m ps. induction s as [|[i k] s IH]; intros m ps; cbn; [intros [= <- <-]; apply rtc_refl|].
  destruct (ps !! i) as [p|] eqn:Hp; [|done]. cbn. destruct (turn k m p) as [m1 p1] eqn:Ht. intros Hs.
  etransitivity; [by eapply turn_steps|by apply IH].
Qed.

Record thread_spec (A : Type) := mkSpec {
  ts_R : mem -> mem -> Prop;
  ts_G : mem -> mem -> Prop;
  ts_Q : A -> mem -> Prop }.
Arguments mkSpec {A}. Arguments ts_R {A}. Arguments ts_G {A}. Arguments ts_Q {A}.

Definition thread_ok {A} (m : mem) (s : thread_spec A) (p : prog A) : Prop :=
  rg (ts_R s) (ts_G s) p (ts_Q s) m.

(** What each thread may do, the others expect. *)
Definition compatible {A} (ss : list (thread_spec A)) : Prop :=
  (forall i s, ss !! i = Some s -> PreOrder (ts_R s)) /\
  (forall i j s s', ss !! i = Some s -> ss !! j = Some s' -> i <> j ->
    forall m m', ts_G s m m' -> ts_R s' m m').

Lemma step_change {A} (s : thread_spec A) m p m' p' :
  PreOrder (ts_R s) -> thread_ok m s p -> prog_step m p m' p' -> (m = m' \/ ts_G s m m') /\ thread_ok m' s p'.
Proof.
  intros HP Hok Hs. unfold thread_ok in *. inversion Hs; subst; cbn in Hok; try (by auto).
  - split; [auto|]. by apply Hok.
  - specialize (Hok m ltac:(reflexivity)) as [HG Hk]. auto.
  - specialize (Hok m ltac:(reflexivity)). rewrite H in Hok. destruct Hok. auto.
  - specialize (Hok m' ltac:(reflexivity)). rewrite H in Hok. auto.
Qed.

Lemma step_safe {A} (ss : list (thread_spec A)) m ps m' ps' :
  compatible ss -> Forall2 (thread_ok m) ss ps -> step (m, ps) (m', ps') ->
  Forall2 (thread_ok m') ss ps' /\ exists s, s ∈ ss /\ (m = m' \/ ts_G s m m').
Proof.
  intros [HP HC] Hok Hs. inversion Hs as [? ? i p ? p' Hp Hstep]; subst.
  apply Forall2_same_length_lookup in Hok as [Hlen Hok].
  destruct (lookup_lt_is_Some_2 ss i) as [si Hsi]; [rewrite Hlen; by eapply lookup_lt_Some|].
  destruct (step_change si m p m' p' (HP _ _ Hsi) (Hok _ _ _ Hsi Hp) Hstep) as [HG Hp'].
  split; [|exists si; split; [by eapply list_elem_of_lookup_2|done]].
  apply Forall2_same_length_lookup. split; [by rewrite length_insert|].
  intros j s q Hj Hq. destruct (decide (i = j)) as [<-|Hne].
  - rewrite list_lookup_insert_eq in Hq by (by eapply lookup_lt_Some). by simplify_eq.
  - rewrite list_lookup_insert_ne in Hq by done. destruct HG as [<-|Hg]; [by eapply Hok|].
    pose proof (HP _ _ Hj). apply (rg_stable (ts_R s)) with m; first [done|by apply (HC i j si s)|by eapply Hok].
Qed.

(** Memory changes by what the threads guarantee. *)
Lemma steps_ok {A} (ss : list (thread_spec A)) (T : mem -> mem -> Prop) `{!PreOrder T} m ps m' ps' :
  compatible ss -> Forall2 (thread_ok m) ss ps -> steps (m, ps) (m', ps') ->
  (forall s m m', s ∈ ss -> ts_G s m m' -> T m m') -> Forall2 (thread_ok m') ss ps' /\ T m m'.
Proof.
  intros Hc Hok Hs HT. remember (m, ps) as x eqn:Hx. remember (m', ps') as y eqn:Hy. revert m ps Hx Hok.
  induction Hs as [x|x [m1 ps1] z Hstep Hs IH]; intros m ps -> Hok.
  - injection Hy as <- <-. done.
  - destruct (step_safe ss m ps m1 ps1 Hc Hok Hstep) as [Hok1 (s & Hs' & HG)].
    destruct (IH Hy m1 ps1 eq_refl Hok1) as [Hok' HT']. split; [done|]. transitivity m1; [|done].
    destruct HG as [->|HG]; [reflexivity|eauto].
Qed.

(** In every reachable state, no thread is stuck, and a finished one has its
    postcondition. *)
Lemma steps_safe {A} (ss : list (thread_spec A)) m ps m' ps' i s p :
  compatible ss -> Forall2 (thread_ok m) ss ps -> steps (m, ps) (m', ps') ->
  ss !! i = Some s -> ps' !! i = Some p ->
  p <> Stuck /\ forall a, p = Done a -> ts_Q s a m'.
Proof.
  intros Hc Hok Hs Hi Hp.
  assert (HT : PreOrder (fun _ _ : mem => True)) by (by split).
  destruct (steps_ok ss (fun _ _ => True) m ps m' ps' Hc Hok Hs) as [Hok' _]; [done|].
  pose proof (Forall2_lookup_lr _ _ _ _ _ _ Hok' Hi Hp) as Ht. unfold thread_ok in Ht.
  split; [by intros ->|]. intros a ->. apply Ht. destruct Hc as [HP _]. pose proof (HP _ _ Hi). reflexivity.
Qed.

End logic.
Arguments mkSpec {A}. Arguments ts_R {A}. Arguments ts_G {A}. Arguments ts_Q {A}.

(** [apply rg_bind], with the instance found from the goal. *)
Ltac rg_bind := refine (rg_bind _ _ _ _ _ _ _ _).
