(* ===== verification/WalIndex.v ===== *)
(** The wal-index (src/sqlite-src-3280000/src/wal.c): its pages, its hash tables, and
    the search for the frame that holds a page.

    Shared memory is accessed through the programs of [SharedMem]; every access that
    the source writes is one access here, so that the interleavings are those of the
    source. *)
From S2P Require Import Prelude SharedMem.

(** ** Constants *)

Definition SQLITE_OK : Z := 0.
Definition SQLITE_BUSY : Z := 5.
Definition SQLITE_NOMEM : Z := 7.
Definition SQLITE_CORRUPT : Z := 11.
Definition SQLITE_CANTOPEN : Z := 14.
Definition SQLITE_PROTOCOL : Z := 15.
Definition SQLITE_BUSY_SNAPSHOT : Z := 517.

Definition HASHTABLE_NPAGE : Z := 4096.
Definition HASHTABLE_HASH_1 : Z := 383.
Definition HASHTABLE_NSLOT : Z := HASHTABLE_NPAGE * 2.
(** Two copies of [WalIndexHdr] of 48 bytes and a [WalCkptInfo] of 40. *)
Definition WALINDEX_HDR_SIZE : Z := 48 * 2 + 40.
Definition HASHTABLE_NPAGE_ONE : Z := HASHTABLE_NPAGE - WALINDEX_HDR_SIZE / 4.

Definition WAL_NORMAL_MODE : Z := 0.
Definition WAL_EXCLUSIVE_MODE : Z := 1.
Definition WAL_HEAPMEMORY_MODE : Z := 2.
Definition WAL_SHM_RDONLY : Z := 2.
Definition WAL_MAX_VERSION : Z := 3007000.
Definition WALINDEX_MAX_VERSION : Z := 3007000.

(** ** Data *)

Record WalIndexHdr := mkHdr {
  iVersion : Z; unused : Z; iChange : Z; isInit : Z; bigEndCksum : Z; szPage16 : Z;
  mxFrame : Z; nPage : Z; aFrameCksum : Z * Z; aSalt : Z * Z; aCksum : Z * Z }.

#[global] Instance WalIndexHdr_eq_dec : EqDecision WalIndexHdr.
Proof. solve_decision. Defined.

(** [apWiData] tells which pages are mapped; [nWiData] is its length. *)
Record Wal := mkWal {
  apWiData : list bool;
  w_szPage : Z;
  readLock : Z;
  exclusiveMode : Z;
  writeLock : bool;
  ckptLock : bool;
  readOnly : Z;
  bShmUnreliable : bool;
  hdr : WalIndexHdr;
  minFrame : Z;
  iReCksum : Z;
  nCkpt : Z;
  truncateOnCommit : bool;
  iCallback : Z;
  mxWalSize : Z;
  syncHeader : bool;
  padToSectorBoundary : bool }.

Definition nWiData (w : Wal) : Z := Z.of_nat (length (apWiData w)).

Definition set_apWiData (w : Wal) (l : list bool) : Wal :=
  mkWal l (w_szPage w) (readLock w) (exclusiveMode w) (writeLock w) (ckptLock w) (readOnly w)
    (bShmUnreliable w) (hdr w) (minFrame w) (iReCksum w) (nCkpt w)
    (truncateOnCommit w) (iCallback w) (mxWalSize w) (syncHeader w) (padToSectorBoundary w).
Definition set_readOnly (w : Wal) (r : Z) : Wal :=
  mkWal (apWiData w) (w_szPage w) (readLock w) (exclusiveMode w) (writeLock w) (ckptLock w) r
    (bShmUnreliable w) (hdr w) (minFrame w) (iReCksum w) (nCkpt w)
    (truncateOnCommit w) (iCallback w) (mxWalSize w) (syncHeader w) (padToSectorBoundary w).
Definition set_hdr (w : Wal) (h : WalIndexHdr) : Wal :=
  mkWal (apWiData w) (w_szPage w) (readLock w) (exclusiveMode w) (writeLock w) (ckptLock w) (readOnly w)
    (bShmUnreliable w) h (minFrame w) (iReCksum w) (nCkpt w)
    (truncateOnCommit w) (iCallback w) (mxWalSize w) (syncHeader w) (padToSectorBoundary w).

Definition set_mxFrame (h : WalIndexHdr) (mx : Z) : WalIndexHdr :=
  mkHdr (iVersion h) (unused h) (iChange h) (isInit h) (bigEndCksum h) (szPage16 h) mx (nPage h)
    (aFrameCksum h) (aSalt h) (aCksum h).
Definition set_aFrameCksum (h : WalIndexHdr) (c : Z * Z) : WalIndexHdr :=
  mkHdr (iVersion h) (unused h) (iChange h) (isInit h) (bigEndCksum h) (szPage16 h) (mxFrame h) (nPage h)
    c (aSalt h) (aCksum h).

(** [pWal->apWiData[iPage]] is set. *)
Definition mapped (w : Wal) (iPage : Z) : bool := default false (apWiData w !! Z.to_nat iPage).

(** ** Mapping pages *)

(** The request to the VFS, once the array is long enough. *)
Definition walIndexPageRealloc_map (w : Wal) (iPage : Z) : prog (Wal * Z) :=
  insist (negb (mapped w iPage))
    (if exclusiveMode w =? WAL_HEAPMEMORY_MODE then
       Alloc (fun b =>
         let rc := if b then SQLITE_OK else SQLITE_NOMEM in
         let w := set_apWiData w (<[Z.to_nat iPage := b]> (apWiData w)) in
         insist ((iPage =? 0) || b || negb (rc =? SQLITE_OK)) (Done (w, rc)))
     else
       ShmMap iPage (writeLock w) (fun rc ptr =>
         let w := set_apWiData w (<[Z.to_nat iPage := ptr]> (apWiData w)) in
         insist (ptr || negb (rc =? SQLITE_OK) || negb (writeLock w))
           (let '(w, rc) :=
              if Z.land rc 0xff =? SQLITE_READONLY then
                (set_readOnly w (Z.lor (readOnly w) WAL_SHM_RDONLY),
                 if rc =? SQLITE_READONLY then SQLITE_OK else rc)
              else (w, rc) in
            insist ((iPage =? 0) || ptr || negb (rc =? SQLITE_OK)) (Done (w, rc))))).

Definition walIndexPageRealloc (w : Wal) (iPage : Z) : prog (Wal * Z) :=
  if nWiData w <=? iPage then
    Alloc (fun b =>
      if b then
        walIndexPageRealloc_map
          (set_apWiData w (apWiData w ++ replicate (Z.to_nat (iPage + 1 - nWiData w)) false)) iPage
      else Done (w, SQLITE_NOMEM))
  else walIndexPageRealloc_map w iPage.

Definition walIndexPage (w : Wal) (iPage : Z) : prog (Wal * Z) :=
  if (nWiData w <=? iPage) || negb (mapped w iPage) then walIndexPageRealloc w iPage
  else Done (w, SQLITE_OK).

(** ** The hash tables *)

Definition walHash (iPage : Z) : Z :=
  Z.land (wrap_u 32 (iPage * HASHTABLE_HASH_1)) (HASHTABLE_NSLOT - 1).

Definition walNextHash (iPriorHash : Z) : Z := Z.land (iPriorHash + 1) (HASHTABLE_NSLOT - 1).

(** [aHash] is the table of page [hl_page], and [aPgno[i]] its word [hl_aPgno + i]. *)
Record WalHashLoc := mkLoc { hl_page : Z; hl_aPgno : Z; iZero : Z }.

Definition aHash (l : WalHashLoc) (k : Z) : cell := Slot (hl_page l) k.
Definition aPgno (l : WalHashLoc) (i : Z) : cell := Word (hl_page l) (hl_aPgno l + i).

Definition walHashGet (w : Wal) (iHash : Z) : prog (Wal * Z * WalHashLoc) :=
  '(w, rc) ← walIndexPage w iHash;
  insist ((rc =? SQLITE_OK) || (0 <? iHash))
    (Done (w, rc,
       if iHash =? 0 then mkLoc 0 (WALINDEX_HDR_SIZE / 4 - 1) 0
       else mkLoc iHash (-1) (HASHTABLE_NPAGE_ONE + (iHash - 1) * HASHTABLE_NPAGE))).

(** The sum is a [u32]; [HASHTABLE_NPAGE_ONE] has the type of [sizeof], so that the
    rest is computed in 64 bits, and the quotient becomes an [int]. *)
Definition walFramePage (iFrame : Z) : Z :=
  wrap_s 32 (wrap_u 64 (wrap_u 32 (iFrame + HASHTABLE_NPAGE) - HASHTABLE_NPAGE_ONE - 1) / HASHTABLE_NPAGE).

Definition walFramePgno (w : Wal) (iFrame : Z) : prog Z :=
  let iHash := walFramePage iFrame in
  if iHash =? 0 then load (Word 0 (WALINDEX_HDR_SIZE / 4 + iFrame - 1))
  else load (Word iHash ((iFrame - 1 - HASHTABLE_NPAGE_ONE) mod HASHTABLE_NPAGE)).

(** [memset] of [n] cells to zero, in ascending order. *)
Fixpoint zero_cells (n : nat) (c : Z -> cell) (i : Z) : prog unit :=
  match n with
  | O => Done ()
  | S n => store (c i) 0 ≫= fun _ => zero_cells n c (i + 1)
  end.

(** The words from [aPgno[i]] to the end of the page numbers. *)
Definition zero_aPgno (l : WalHashLoc) (i : Z) : prog unit :=
  zero_cells (Z.to_nat (HASHTABLE_NPAGE - (hl_aPgno l + i))) (aPgno l) i.

(** The loop of [walCleanupHash] over the [n] slots from [i] on. *)
Fixpoint walCleanupHash_slots (n : nat) (l : WalHashLoc) (iLimit i : Z) : prog unit :=
  match n with
  | O => Done ()
  | S n =>
      v ← load (aHash l i);
      _ ← (if iLimit <? v then store (aHash l i) 0 else Done ());
      walCleanupHash_slots n l iLimit (i + 1)
  end.

Definition walCleanupHash (w : Wal) : prog Wal :=
  insist (writeLock w)
    (if mxFrame (hdr w) =? 0 then Done w else
     insist ((walFramePage (mxFrame (hdr w)) <? nWiData w) && mapped w (walFramePage (mxFrame (hdr w))))
       ('(w, rc, sLoc) ← walHashGet w (walFramePage (mxFrame (hdr w)));
        if negb (rc =? SQLITE_OK) then Done w else
        let iLimit := mxFrame (hdr w) - iZero sLoc in
        insist (0 <? iLimit)
          (_ ← walCleanupHash_slots (Z.to_nat HASHTABLE_NSLOT) sLoc iLimit 0;
           _ ← zero_aPgno sLoc (iLimit + 1);
           Done w))).

(** The search of a free slot in [walIndexAppend]; [None] after [nCollide] more
    collisions. *)
Fixpoint walIndexAppend_slot (nCollide : nat) (l : WalHashLoc) (iKey : Z) : prog (option Z) :=
  v ← load (aHash l iKey);
  if v =? 0 then Done (Some iKey) else
  match nCollide with
  | O => Done None
  | S nCollide => walIndexAppend_slot nCollide l (walNextHash iKey)
  end.

Definition walIndexAppend (w : Wal) (iFrame iPage : Z) : prog (Wal * Z) :=
  '(w, rc, sLoc) ← walHashGet w (walFramePage iFrame);
  if negb (rc =? SQLITE_OK) then Done (w, rc) else
  let idx := iFrame - iZero sLoc in
  insist (idx <=? HASHTABLE_NSLOT / 2 + 1)
    (_ ← (if idx =? 1 then
            _ ← zero_aPgno sLoc 1; zero_cells (Z.to_nat HASHTABLE_NSLOT) (aHash sLoc) 0
          else Done ());
     w ← (v ← load (aPgno sLoc idx);
          if negb (v =? 0) then
            w ← walCleanupHash w;
            v ← load (aPgno sLoc idx); insist (v =? 0) (Done w)
          else Done w);
     insist (0 <? iPage)
       (iKey ← walIndexAppend_slot (Z.to_nat idx) sLoc (walHash iPage);
        match iKey with
        | None => Done (w, SQLITE_CORRUPT)
        | Some iKey =>
            _ ← store (aPgno sLoc idx) iPage;
            _ ← store (aHash sLoc iKey) (wrap_u 16 idx);
            Done (w, SQLITE_OK)
        end)).

(** ** Finding a page *)

(** [sqlite3Config.neverCorrupt] is 0 unless a test sets it: asserts about the contents
    of the file do not stop the program. *)
Definition CORRUPT_DB : bool := true.

(** The search of one table; the slot is loaded three times, as in the source, the
    last time only to read the page number.  [None] after [nCollide] more collisions. *)
Fixpoint sqlite3WalFindFrame_table (nCollide : nat) (l : WalHashLoc) (pgno iLast minFrame iKey iRead : Z)
    : prog (option Z) :=
  v ← load (aHash l iKey);
  if v =? 0 then Done (Some iRead) else
  v ← load (aHash l iKey);
  let iFrame := v + iZero l in
  iRead ←
    (if (iFrame <=? iLast) && (minFrame <=? iFrame) then
       v ← load (aHash l iKey);
       p ← load (aPgno l v);
       if p =? pgno then insist ((iRead <? iFrame) || CORRUPT_DB) (Done iFrame) else Done iRead
     else Done iRead);
  match nCollide with
  | O => Done None
  | S nCollide => sqlite3WalFindFrame_table nCollide l pgno iLast minFrame (walNextHash iKey) iRead
  end.

(** The loop over the [n] tables from [iHash] down: the code and [iRead]. *)
Fixpoint sqlite3WalFindFrame_tables (n : nat) (w : Wal) (pgno iLast iHash : Z) : prog (Wal * Z * Z) :=
  match n with
  | O => Done (w, SQLITE_OK, 0)
  | S n =>
      '(w, rc, sLoc) ← walHashGet w iHash;
      if negb (rc =? SQLITE_OK) then Done (w, rc, 0) else
      insist (0 <? pgno)
        (r ← sqlite3WalFindFrame_table (Z.to_nat HASHTABLE_NSLOT) sLoc pgno iLast (minFrame w)
               (walHash pgno) 0;
         match r with
         | None => Done (w, SQLITE_CORRUPT, 0)
         | Some iRead =>
             if iRead =? 0 then sqlite3WalFindFrame_tables n w pgno iLast (iHash - 1)
             else Done (w, SQLITE_OK, iRead)
         end)
  end.

Definition sqlite3WalFindFrame (w : Wal) (pgno : Z) : prog (Wal * Z * Z) :=
  let iLast := mxFrame (hdr w) in
  insist (0 <=? readLock w)
    (if (iLast =? 0) || ((readLock w =? 0) && negb (bShmUnreliable w)) then Done (w, SQLITE_OK, 0) else
     let iMinHash := walFramePage (minFrame w) in
     let iHash := walFramePage iLast in
     sqlite3WalFindFrame_tables (Z.to_nat (iHash - iMinHash + 1)) w pgno iLast iHash).

(** The linear search that [SQLITE_ENABLE_EXPENSIVE_ASSERT] compares with, from [iTest]
    down; [fuel] is the number of frames left. *)
Fixpoint sqlite3WalFindFrame_linear (fuel : nat) (w : Wal) (pgno iTest : Z) : prog Z :=
  match fuel with
  | O => Done 0
  | S fuel =>
      if (minFrame w <=? iTest) && (0 <? iTest) then
        p ← walFramePgno w iTest;
        if p =? pgno then Done iTest else sqlite3WalFindFrame_linear fuel w pgno (iTest - 1)
      else Done 0
  end.

(** ** Writing and rolling back *)

(** The end of [sqlite3WalFrames]: the pages that were appended to the log (the extra
    copies of the last one included) are entered in the index after [iFrame]. *)
Fixpoint sqlite3WalFrames_index (w : Wal) (iFrame : Z) (pages : list Z) : prog (Wal * Z * Z) :=
  match pages with
  | [] => Done (w, SQLITE_OK, iFrame)
  | p :: pages =>
      '(w, rc) ← walIndexAppend w (iFrame + 1) p;
      if negb (rc =? SQLITE_OK) then Done (w, rc, iFrame + 1)
      else sqlite3WalFrames_index w (iFrame + 1) pages
  end.

Definition sqlite3WalSavepoint (w : Wal) : Z * Z * Z * Z :=
  (mxFrame (hdr w), fst (aFrameCksum (hdr w)), snd (aFrameCksum (hdr w)), nCkpt w).

(** The connection, the new [aWalData] and the code. *)
Definition sqlite3WalSavepointUndo (w : Wal) (aWalData : Z * Z * Z * Z) : prog (Wal * (Z * Z * Z * Z) * Z) :=
  let '(d0, d1, d2, d3) := aWalData in
  insist (writeLock w)
    (insist (negb (d3 =? nCkpt w) || (d0 <=? mxFrame (hdr w)))
      (let '(d0, d3) := if negb (d3 =? nCkpt w) then (0, nCkpt w) else (d0, d3) in
       if d0 <? mxFrame (hdr w) then
         w ← walCleanupHash (set_hdr w (set_aFrameCksum (set_mxFrame (hdr w) d0) (d1, d2)));
         Done (w, (d0, d1, d2, d3), SQLITE_OK)
       else Done (w, (d0, d1, d2, d3), SQLITE_OK))).
