(* ===== verification/WalIndexSpec.v ===== *)
(** What the wal-index means: a log of page numbers, one per frame; what readers
    may assume about the changes that a writer makes; and that the search through the
    hash tables finds the last frame of a page, whatever a writer does meanwhile. *)
From S2P Require Import Prelude SharedMem WalIndex.

(** ** Layout *)

(** Frames [first pg + 1] to [first pg + cap pg] are indexed by page [pg]. *)
Definition cap (pg : Z) : Z := if pg =? 0 then HASHTABLE_NPAGE_ONE else HASHTABLE_NPAGE.
Definition first (pg : Z) : Z := if pg =? 0 then 0 else HASHTABLE_NPAGE_ONE + (pg - 1) * HASHTABLE_NPAGE.
Definition base (pg : Z) : Z := if pg =? 0 then 33 else -1.
Definition loc (pg : Z) : WalHashLoc := mkLoc pg (base pg) (first pg).

(** Number of frames up to [n] that page [pg] indexes. *)
Definition lim (pg n : Z) : Z := Z.max 0 (Z.min (n - first pg) (cap pg)).

Definition pgno_at (m : mem) (pg i : Z) : Z := rd m (Word pg (base pg + i)).
Definition slot_at (m : mem) (pg k : Z) : Z := rd m (Slot pg k).

(** The slot at distance [d] from where the search for [p] begins. *)
Definition probe (p d : Z) : Z := (walHash p + d) mod HASHTABLE_NSLOT.

Create HintDb wal.
#[export] Hint Unfold HASHTABLE_NPAGE HASHTABLE_NPAGE_ONE HASHTABLE_NSLOT WALINDEX_HDR_SIZE cap first base : wal.

Ltac layout :=
  autounfold with wal in *;
  repeat match goal with |- context [?x =? ?y] => destruct (Z.eqb_spec x y)
                    | H : context [?x =? ?y] |- _ => destruct (Z.eqb_spec x y) end;
  change (4096 - (48 * 2 + 40) / 4) with 4062 in *; try lia.

Lemma cap_range pg : 4062 <= cap pg <= 4096.
Proof. layout. Qed.

Lemma first_next pg : 0 <= pg -> first (pg + 1) = first pg + cap pg.
Proof. intros. layout. Qed.

Lemma first_nonneg pg : 0 <= pg -> 0 <= first pg.
Proof. intros. layout. Qed.

Lemma lim_range pg n : 0 <= lim pg n <= cap pg.
Proof. unfold lim. pose proof (cap_range pg). lia. Qed.

Lemma walFramePage_eq i : 0 <= i < 2 ^ 31 -> walFramePage i = (i + 33) / 4096.
Proof.
  intros Hi. unfold walFramePage. autounfold with wal. change (4096 - (48 * 2 + 40) / 4) with 4062.
  change (2 ^ 31) with 2147483648 in Hi.
  rewrite (wrap_u_id 32) by (unfold in_u; change (2 ^ 32) with 4294967296; lia).
  rewrite (wrap_u_id 64) by (unfold in_u; change (2 ^ 64) with 18446744073709551616; lia).
  replace (i + 4096 - 4062 - 1) with (i + 33) by lia. apply wrap_s_id; [lia|].
  assert (0 <= (i + 33) / 4096 < 2147483648) by (split; [apply Z.div_pos|apply Z.div_lt_upper_bound]; lia).
  unfold in_s. change (2 ^ (32 - 1)) with 2147483648. lia.
Qed.

(** A frame is indexed by one page. *)
Lemma walFramePage_spec i pg :
  1 <= i < 2 ^ 31 -> walFramePage i = pg <-> 0 <= pg /\ first pg < i <= first pg + cap pg.
Proof.
  intros Hi. rewrite walFramePage_eq by lia. pose proof (Z.div_mod (i + 33) 4096 ltac:(lia)) as Hd.
  pose proof (Z.mod_pos_bound (i + 33) 4096 ltac:(lia)) as Hm. split.
  - intros <-. assert (0 <= (i + 33) / 4096) by (apply Z.div_pos; lia).
    split; [lia|]. layout.
  - intros [Hp Hr]. symmetry. apply (Z.div_unique (i + 33) 4096 pg (i + 33 - pg * 4096)); [|lia].
    revert Hr. layout.
Qed.

Lemma walFramePage_mono i j : 0 <= i <= j -> j < 2 ^ 31 -> walFramePage i <= walFramePage j.
Proof. intros. rewrite !walFramePage_eq by lia. apply Z.div_le_mono; lia. Qed.

(** The word of a page number. *)
Lemma walFramePgno_eq w i : 1 <= i < 2 ^ 31 ->
  let pg := walFramePage i in walFramePgno w i = load (Word pg (base pg + (i - first pg))).
Proof.
  intros Hi pg. destruct (proj1 (walFramePage_spec i pg ltac:(lia)) eq_refl) as [Hp Hr].
  unfold walFramePgno. fold pg. destruct (Z.eqb_spec pg 0) as [E|Hp0].
  - rewrite E. do 2 f_equal. unfold base, first. change (WALINDEX_HDR_SIZE / 4) with 34. cbn [Z.eqb]. lia.
  - do 2 f_equal. symmetry. apply (Z.mod_unique _ _ (pg - 1)).
    + left. revert Hr. layout.
    + layout.
Qed.

Lemma land_slot x : Z.land x (HASHTABLE_NSLOT - 1) = x mod HASHTABLE_NSLOT.
Proof. change (HASHTABLE_NSLOT - 1) with (Z.ones 13). by rewrite Z.land_ones. Qed.

Lemma walHash_range p : 0 <= walHash p < HASHTABLE_NSLOT.
Proof. unfold walHash. rewrite land_slot. by apply Z.mod_pos_bound. Qed.

Lemma probe_range p d : 0 <= probe p d < HASHTABLE_NSLOT.
Proof. by apply Z.mod_pos_bound. Qed.

Lemma probe_0 p : probe p 0 = walHash p.
Proof. unfold probe. rewrite Z.add_0_r. apply Z.mod_small, walHash_range. Qed.

Lemma probe_next p d : walNextHash (probe p d) = probe p (d + 1).
Proof. unfold walNextHash, probe. rewrite land_slot, Z.add_mod_idemp_l by done. f_equal. lia. Qed.

Lemma probe_inj p d e :
  0 <= d < HASHTABLE_NSLOT -> 0 <= e < HASHTABLE_NSLOT -> probe p d = probe p e -> d = e.
Proof.
  unfold probe. intros Hd He Heq. pose proof (Z.div_mod (walHash p + d) HASHTABLE_NSLOT ltac:(done)) as H1.
  pose proof (Z.div_mod (walHash p + e) HASHTABLE_NSLOT ltac:(done)) as H2.
  rewrite Heq in H1. set (q1 := (walHash p + d) / HASHTABLE_NSLOT) in *.
  set (q2 := (walHash p + e) / HASHTABLE_NSLOT) in *. change HASHTABLE_NSLOT with 8192 in *. nia.
Qed.

(** ** The log *)

(** [f i] is the page of frame [i]; a table represents the frames up to [n]: each is
    listed, and reached from its home slot over slots of earlier frames only.  Slots
    of later frames may hold anything. *)
Record table_ok (m : mem) (pg : Z) (f : Z -> Z) (n : Z) : Prop := {
  tbl_pgno i : 1 <= i <= lim pg n -> pgno_at m pg i = f (first pg + i);
  tbl_reach i : 1 <= i <= lim pg n ->
    exists d, 0 <= d < HASHTABLE_NSLOT /\ slot_at m pg (probe (f (first pg + i)) d) = i /\
      forall e, 0 <= e < d -> 0 < slot_at m pg (probe (f (first pg + i)) e) < i;
  tbl_unique k k' : 0 <= k < HASHTABLE_NSLOT -> 0 <= k' < HASHTABLE_NSLOT ->
    1 <= slot_at m pg k <= lim pg n -> slot_at m pg k = slot_at m pg k' -> k = k';
  tbl_slot k : 0 <= k < HASHTABLE_NSLOT ->
    0 <= slot_at m pg k /\ (lim pg n = cap pg -> slot_at m pg k <= cap pg) }.

Definition index_ok (m : mem) (f : Z -> Z) (n : Z) : Prop := forall pg, 0 <= pg -> table_ok m pg f n.

Lemma lim_mono pg n n' : n <= n' -> lim pg n <= lim pg n'.
Proof. unfold lim. lia. Qed.

Lemma lim_full pg n n' : n <= n' -> lim pg n = cap pg -> lim pg n' = cap pg.
Proof. unfold lim. pose proof (cap_range pg). lia. Qed.

Lemma table_ok_le m pg f n n' : n' <= n -> table_ok m pg f n -> table_ok m pg f n'.
Proof.
  intros Hn [H1 H2 H3 H4]. pose proof (lim_mono pg n' n Hn) as Hl. split.
  - intros i Hi. apply H1. lia.
  - intros i Hi. apply H2. lia.
  - intros k k' Hk Hk' Hv He. apply H3; auto. lia.
  - intros k Hk. destruct (H4 k Hk) as [H0 Hc]. split; [done|]. intros He. apply Hc. by eapply lim_full.
Qed.

Lemma index_ok_le m f n n' : n' <= n -> index_ok m f n -> index_ok m f n'.
Proof. intros Hn H pg Hp. eapply table_ok_le; eauto. Qed.

Lemma table_ok_ext m pg f f' n :
  (forall i, 1 <= i <= n -> f i = f' i) -> 0 <= pg -> table_ok m pg f n -> table_ok m pg f' n.
Proof.
  intros Hf Hp [H1 H2 H3 H4].
  assert (He : forall i, 1 <= i <= lim pg n -> f (first pg + i) = f' (first pg + i)).
  { intros i Hi. apply Hf. unfold lim in Hi. pose proof (first_nonneg pg Hp). lia. }
  split; [| |done|done].
  - intros i Hi. rewrite <- He by done. auto.
  - intros i Hi. rewrite <- He by done. auto.
Qed.

(** ** What others may change *)

(** A reader of the frames up to [n] relies on this: the entries of these frames stay,
    and no other slot becomes one of theirs; full tables do not change. *)
Record unchanged_upto (n : Z) (m m' : mem) : Prop := {
  un_pgno pg i : 0 <= pg -> 1 <= i <= lim pg n -> pgno_at m' pg i = pgno_at m pg i;
  un_slot pg k : 0 <= pg -> 0 <= k < HASHTABLE_NSLOT ->
    1 <= slot_at m pg k <= lim pg n \/ 1 <= slot_at m' pg k <= lim pg n \/ lim pg n = cap pg ->
    slot_at m' pg k = slot_at m pg k;
  un_nonneg pg k : 0 <= pg -> 0 <= k < HASHTABLE_NSLOT -> 0 <= slot_at m pg k -> 0 <= slot_at m' pg k }.

#[global] Instance unchanged_preorder n : PreOrder (unchanged_upto n).
Proof.
  split; [done|]. intros m1 m2 m3 [P1 S1 N1] [P2 S2 N2]. split.
  - intros pg i Hp Hi. rewrite P2, P1; done.
  - intros pg k Hp Hk [H|[H|H]].
    + pose proof (S1 pg k Hp Hk (or_introl H)) as E. rewrite S2; [done..|]. left. by rewrite E.
    + pose proof (S2 pg k Hp Hk (or_intror (or_introl H))) as E. rewrite E in H |- *. apply S1; auto.
    + rewrite S2, S1 by auto. done.
  - intros pg k Hp Hk H. auto.
Qed.

Lemma unchanged_le n n' m m' : n' <= n -> unchanged_upto n m m' -> unchanged_upto n' m m'.
Proof.
  intros Hn [H1 H2 H3]. split; [| |done].
  - intros pg i Hp Hi. apply H1; [done|]. pose proof (lim_mono pg n' n Hn). lia.
  - intros pg k Hp Hk H. pose proof (lim_mono pg n' n Hn). apply H2; [done..|].
    destruct H as [H|[H|H]]; [left; lia|right; left; lia|right; right; by eapply lim_full].
Qed.

Lemma unchanged_ok n f m m' : unchanged_upto n m m' -> index_ok m f n -> index_ok m' f n.
Proof.
  intros [U1 U2 U3] H pg Hp. destruct (H pg Hp) as [H1 H2 H3 H4].
  assert (Hs : forall k v, 0 <= k < HASHTABLE_NSLOT -> 1 <= v <= lim pg n -> slot_at m' pg k = v -> slot_at m pg k = v).
  { intros k v Hk Hv E. rewrite <- (U2 pg k Hp Hk); [done|]. rewrite E. auto. }
  split.
  - intros i Hi. rewrite U1 by done. auto.
  - intros i Hi. destruct (H2 i Hi) as (d & Hd & Hsd & Hlt). exists d. split; [done|]. split.
    + rewrite U2; [done..|apply probe_range|]. left. lia.
    + intros e He. specialize (Hlt e He). rewrite U2; [done..|apply probe_range|]. left. lia.
  - intros k k' Hk Hk' Hv E. assert (E1 := Hs k _ Hk Hv eq_refl). assert (E2 := Hs k' _ Hk' Hv (eq_sym E)).
    apply H3; [done..|lia|congruence].
  - intros k Hk. destruct (H4 k Hk) as [H0 Hc]. split; [by apply U3|].
    intros He. rewrite U2 by auto. auto.
Qed.

(** The writer only appends: slots in use keep their values, in the tables that a
    reader up to [n] visits. *)
Definition appends_only (n : Z) (m m' : mem) : Prop :=
  forall pg k, 0 <= pg <= walFramePage n -> 0 <= k < HASHTABLE_NSLOT ->
    slot_at m pg k <> 0 -> slot_at m' pg k = slot_at m pg k.

#[global] Instance appends_preorder n : PreOrder (appends_only n).
Proof.
  split; [done|]. intros m1 m2 m3 H1 H2 pg k Hp Hk Hn. rewrite H2; [by apply H1|done..|]. by rewrite H1.
Qed.

Definition has_free (m : mem) (pg : Z) : Prop := exists k, 0 <= k < HASHTABLE_NSLOT /\ slot_at m pg k = 0.

(** What a reader relies on; [false] when the writer may also roll back. *)
Record rely (only : bool) (n : Z) (m m' : mem) : Prop := {
  rely_unchanged : unchanged_upto n m m';
  rely_appends : only = true -> appends_only n m m';
  rely_free pg : 0 <= pg <= walFramePage n -> has_free m pg -> has_free m' pg }.

#[global] Instance rely_preorder only n : PreOrder (rely only n).
Proof.
  split; [by split|]. intros m1 m2 m3 [U1 A1 F1] [U2 A2 F2]. split; [by transitivity m2| |auto].
  intros Ho. transitivity m2; auto.
Qed.
