(* ===== verification/WalIndexReader.v ===== *)
(** Readers of the wal-index: [sqlite3WalFindFrame] finds the last frame of a page
    while a writer changes the index, and alone it equals a linear search. *)
From S2P Require Import Prelude SharedMem WalIndex WalIndexSpec.

(** ** Mapping a page *)

(** The connection [w'] is [w] with more pages mapped. *)
Record maps_more (w w' : Wal) : Prop := {
  mm_rest : w' = set_readOnly (set_apWiData w (apWiData w')) (readOnly w');
  mm_mapped i : 0 <= i -> mapped w i = true -> mapped w' i = true;
  mm_len : nWiData w <= nWiData w' }.

#[global] Instance maps_more_preorder : PreOrder maps_more.
Proof.
  split.
  - intros []. by split.
  - intros w1 w2 w3 [R1 M1 L1] [R2 M2 L2]. split; [|auto|lia]. rewrite R2, R1. by destruct w1.
Qed.

Lemma mapped_len w i : 0 <= i -> mapped w i = true -> i < nWiData w.
Proof.
  unfold mapped, nWiData. intros Hi. destruct (apWiData w !! Z.to_nat i) eqn:E; [|done].
  apply lookup_lt_Some in E. lia.
Qed.

Section mapping.
Context (present : Z -> Prop) (R G : mem -> mem -> Prop) `{!PreOrder R}.

Definition can_map (w : Wal) (pg : Z) : Prop := present pg \/ writeLock w = true.

Lemma mapped_insert l n b i :
  (n < length l)%nat -> default false (<[n := b]> l !! i) = if decide (n = i) then b else default false (l !! i).
Proof.
  intros Hn. case_decide; [subst; by rewrite list_lookup_insert_eq|by rewrite list_lookup_insert_ne].
Qed.

Lemma walIndexPageRealloc_map_rg w1 pg m Q :
  0 < pg -> mapped w1 pg = false -> pg < nWiData w1 -> can_map w1 pg ->
  (forall w' rc, maps_more w1 w' -> (rc = 0 -> mapped w' pg = true) -> forall m', R m m' -> Q (w', rc) m') ->
  rg present R G (walIndexPageRealloc_map w1 pg) Q m.
Proof.
  intros Hpg0 Hm1 Hlen Hc HQ1. unfold walIndexPageRealloc_map. apply rg_insist; [by rewrite Hm1|].
  assert (Hset : forall b ro, maps_more w1 (set_readOnly (set_apWiData w1 (<[Z.to_nat pg := b]> (apWiData w1))) ro)).
  { intros b ro. split; [by destruct w1| |].
    - intros i Hi Hmi. unfold mapped in *. cbn. rewrite mapped_insert by (unfold nWiData in Hlen; lia).
      case_decide as E; [|done]. assert (i = pg) as -> by lia. congruence.
    - unfold nWiData. cbn. by rewrite length_insert. }
  assert (Hself : forall b, set_apWiData w1 (<[Z.to_nat pg := b]> (apWiData w1)) =
    set_readOnly (set_apWiData w1 (<[Z.to_nat pg := b]> (apWiData w1))) (readOnly w1)) by (by destruct w1).
  assert (Hon : forall b ro, mapped (set_readOnly (set_apWiData w1 (<[Z.to_nat pg := b]> (apWiData w1))) ro) pg = b).
  { intros b ro. unfold mapped. cbn. rewrite mapped_insert by (unfold nWiData in Hlen; lia).
    by rewrite decide_True. }
  case_bool.
  - intros b. cbn zeta. apply rg_insist; [destruct b; cbn; by rewrite ?orb_true_r|]. apply rg_done.
    rewrite Hself. apply HQ1; [apply Hset|]. rewrite Hon. by destruct b.
  - intros rc ptr Ha. cbn zeta. 
    assert (Hptr : rc = 0 \/ rc = SQLITE_READONLY -> ptr = true).
    { intros Hr. apply Ha; [done|]. destruct Hc; auto. }
    apply rg_insist.
    { destruct ptr; [done|]. destruct (rc =? SQLITE_OK) eqn:E; [|by rewrite orb_true_r]. bool_to_prop.
      discriminate Hptr. by left. }
    destruct (Z.land rc 255 =? SQLITE_READONLY) eqn:E8; [destruct (rc =? SQLITE_READONLY) eqn:Er|].
    + bool_to_prop. assert (ptr = true) as -> by auto. apply rg_insist; [by rewrite orb_true_r|].
      apply rg_done. apply HQ1; [apply Hset|by rewrite Hon].
    + apply rg_insist.
      { destruct (rc =? SQLITE_OK) eqn:E; [|apply orb_true_r]. bool_to_prop. by subst. }
      apply rg_done. apply HQ1; [apply Hset|]. intros ->. by rewrite Hon, Hptr by auto.
    + apply rg_insist.
      { destruct (rc =? SQLITE_OK) eqn:E; [|apply orb_true_r]. bool_to_prop. subst.
        rewrite Hptr by auto. by rewrite orb_true_r. }
      apply rg_done. rewrite Hself. apply HQ1; [apply Hset|]. intros ->. by rewrite Hon, Hptr by auto.
Qed.

Lemma walIndexPage_rg w pg m Q :
  0 <= pg -> mapped w 0 = true -> can_map w pg ->
  (forall w' rc, maps_more w w' -> (rc = 0 -> mapped w' pg = true) -> (mapped w pg = true -> rc = 0) ->
    forall m', R m m' -> Q (w', rc) m') ->
  rg present R G (walIndexPage w pg) Q m.
Proof.
  intros Hpg H0 Hc HQ. unfold walIndexPage.
  destruct ((nWiData w <=? pg) || negb (mapped w pg)) eqn:Hm; bool_to_prop.
  2: { cbn. apply HQ; try done. }
  assert (Hno : mapped w pg = false).
  { destruct (mapped w pg) eqn:E; [|done]. apply mapped_len in E; [|done]. destruct Hm; bool_to_prop; [lia|done]. }
  assert (Hpg0 : pg <> 0) by congruence. clear Hm.
  unfold walIndexPageRealloc. destruct (nWiData w <=? pg) eqn:Hn; bool_to_prop.
  - intros []; [|apply rg_done, HQ; [done|done|congruence]].
    set (w1 := set_apWiData w _).
    assert (Hl : forall i, 0 <= i -> mapped w1 i = mapped w i).
    { intros i Hi. unfold mapped, w1. cbn. destruct (decide (Z.to_nat i < length (apWiData w))%nat) as [Hlt|Hge].
      - by rewrite lookup_app_l.
      - rewrite lookup_app_r by lia. rewrite (lookup_ge_None_2 (apWiData w) (Z.to_nat i)) by lia.
        destruct (replicate _ _ !! _) eqn:E; [|done]. apply lookup_replicate in E as [-> _]. done. }
    assert (Hlen1 : nWiData w1 = pg + 1).
    { unfold w1. unfold nWiData in *. cbn. rewrite length_app, length_replicate. unfold nWiData. lia. }
    assert (Hw1 : maps_more w w1).
    { split; [by destruct w|intros; by rewrite Hl|lia]. }
    apply walIndexPageRealloc_map_rg; [lia| |lia|done|].
    + by rewrite Hl.
    + intros w' rc Hw' Hrc m' HR. apply HQ; [by transitivity w1|done|congruence|done].
  - apply walIndexPageRealloc_map_rg; [lia| |lia|done|].
    + done.
    + intros w' rc Hw' Hrc m' HR. apply HQ; (done || congruence).
Qed.

Lemma walHashGet_rg w pg m Q :
  0 <= pg -> mapped w 0 = true -> can_map w pg ->
  (forall w' rc, maps_more w w' -> (rc = 0 -> mapped w' pg = true) -> (mapped w pg = true -> rc = 0) ->
    forall m', R m m' -> Q (w', rc, loc pg) m') ->
  rg present R G (walHashGet w pg) Q m.
Proof.
  intros Hpg H0 Hc HQ. unfold walHashGet. rg_bind. apply walIndexPage_rg; [done..|].
  intros w' rc Hw Hrc Hz m' HR. apply rg_insist.
  { destruct (0 <? pg) eqn:E; [apply orb_true_r|]. bool_to_prop. assert (pg = 0) as -> by lia. by rewrite Hz. }
  assert (Hl : (if pg =? 0 then mkLoc 0 (WALINDEX_HDR_SIZE / 4 - 1) 0
    else mkLoc pg (-1) (HASHTABLE_NPAGE_ONE + (pg - 1) * HASHTABLE_NPAGE)) = loc pg).
  { unfold loc, base, first. destruct (Z.eqb_spec pg 0); by subst. }
  rewrite Hl. apply rg_done. intros m2 H2. apply HQ; [done|done|done|]. by transitivity m'.
Qed.
End mapping.

(** A page that is mapped needs no system call. *)
Lemma walHashGet_mapped w pg : 0 <= pg -> mapped w pg = true -> walHashGet w pg = Done (w, SQLITE_OK, loc pg).
Proof.
  intros Hp Hm. unfold walHashGet, walIndexPage. pose proof (mapped_len w pg Hp Hm) as Hl.
  rewrite (proj2 (Z.leb_gt _ _)) by done. rewrite Hm. cbn. f_equal. f_equal. unfold loc, base, first.
  destruct (Z.eqb_spec pg 0); by subst.
Qed.

(** ** The search of one table *)

Section search.
Context (present : Z -> Prop) (only : bool) (f : Z -> Z) (n : Z).
Abbreviation R := (rely only n).
Abbreviation G := (fun _ _ : mem => False).

(** The frame [first pg + j] is one that the search is for. *)
Definition matches (pg pgno minF j : Z) : Prop :=
  1 <= j <= lim pg n /\ minF <= first pg + j /\ f (first pg + j) = pgno.

(** The state after [e] slots: [iRead] is the last matching frame among them. *)
Definition search_inv (m : mem) (pg pgno minF e iRead : Z) : Prop :=
  (forall j d, matches pg pgno minF j -> 0 <= d < e -> slot_at m pg (probe pgno d) = j -> first pg + j <= iRead) /\
  (iRead = 0 \/ exists i d, matches pg pgno minF i /\ iRead = first pg + i /\ 0 <= d < e /\
     slot_at m pg (probe pgno d) = i).

(** What the search of a table returns. *)
Definition table_result (pg pgno minF iRead : Z) : Prop :=
  (forall j, matches pg pgno minF j -> first pg + j <= iRead) /\
  (iRead = 0 \/ exists i, matches pg pgno minF i /\ iRead = first pg + i).

Lemma search_inv_stable m m' pg pgno minF e iRead :
  0 <= pg -> R m m' -> search_inv m pg pgno minF e iRead -> search_inv m' pg pgno minF e iRead.
Proof.
  intros Hpg [HU _ _] [H1 H2]. split.
  - intros j d Hj Hd Hs. apply (H1 j d Hj Hd). rewrite <- (un_slot _ _ _ HU pg (probe pgno d)); [done..|apply probe_range|].
    right. left. rewrite Hs. apply Hj.
  - destruct H2 as [H2|(i & d & Hi & He & Hd & Hs)]; [by left|right]. exists i, d. split_and!; try done; try lia.
    rewrite (un_slot _ _ _ HU); [done..|apply probe_range|]. left. rewrite Hs. apply Hi.
Qed.

(** A free slot ends the search. *)
Lemma search_end m pg pgno minF e iRead :
  0 <= pg -> index_ok m f n -> 0 <= e <= HASHTABLE_NSLOT -> search_inv m pg pgno minF e iRead ->
  slot_at m pg (probe pgno e) = 0 -> table_result pg pgno minF iRead.
Proof.
  intros Hpg Hok He [H1 H2] Hs. split.
  - intros j Hj. destruct (tbl_reach _ _ _ _ (Hok pg Hpg) j (proj1 Hj)) as (d & Hd & Hsd & Hlt).
    destruct Hj as (Hj1 & Hj2 & Hj3). rewrite Hj3 in *.
    destruct (Z.lt_trichotomy d e) as [Hde|[->|Hde]].
    + apply (H1 j d); [done|lia|done].
    + lia.
    + specialize (Hlt e ltac:(lia)). lia.
  - destruct H2 as [H2|(i & d & Hi & He' & _)]; [by left|right]. by exists i.
Qed.

(** A slot that is not an entry of the log does not matter. *)
Lemma search_skip m pg pgno minF e iRead :
  ~ matches pg pgno minF (slot_at m pg (probe pgno e)) ->
  search_inv m pg pgno minF e iRead -> search_inv m pg pgno minF (e + 1) iRead.
Proof.
  intros Hn [H1 H2]. split.
  - intros j d Hj Hd Hs. destruct (decide (d = e)) as [->|]; [by rewrite Hs in Hn|]. apply (H1 j d); [done|lia|done].
  - destruct H2 as [H2|(i & d & Hi & He' & Hd & Hs)]; [by left|right]. exists i, d. split_and!; try done; lia.
Qed.

(** A matching entry is later than those found before. *)
Lemma search_found m pg pgno minF e iRead v :
  0 <= pg -> index_ok m f n -> 0 <= e < HASHTABLE_NSLOT -> matches pg pgno minF v ->
  slot_at m pg (probe pgno e) = v -> search_inv m pg pgno minF e iRead ->
  search_inv m pg pgno minF (e + 1) (first pg + v).
Proof.
  intros Hpg Hok He Hv Hs [H1 H2]. pose proof (Hok pg Hpg) as Ht.
  destruct (tbl_reach _ _ _ _ Ht v (proj1 Hv)) as (d & Hd & Hsd & Hlt).
  pose proof Hv as (Hv1 & Hv2 & Hv3). rewrite Hv3 in *.
  assert (d = e) as ->.
  { apply (probe_inj pgno); [done..|]. apply (tbl_unique _ _ _ _ Ht); [apply probe_range..|lia|congruence]. }
  split.
  - intros j d' Hj Hd' Hs'. destruct (decide (d' = e)) as [->|]; [lia|].
    specialize (Hlt d' ltac:(lia)). lia.
  - right. exists v, e. split_and!; try done; lia.
Qed.

(** A slot in use that holds no entry of the log: of a frame after [n], or gone. *)
Lemma later_slot pg k m m' :
  0 <= pg -> index_ok m f n -> 0 <= k < HASHTABLE_NSLOT -> ~ (1 <= slot_at m pg k <= lim pg n) ->
  slot_at m pg k <> 0 -> R m m' -> first pg < n ->
  lim pg n < cap pg /\ (slot_at m' pg k = 0 \/ n < slot_at m' pg k + first pg) /\
  ~ (1 <= slot_at m' pg k <= lim pg n).
Proof.
  intros Hpg Hok Hk Hn H0 [HU _ _] Hf. destruct (tbl_slot _ _ _ _ (Hok pg Hpg) k Hk) as [Hge Hfull].
  pose proof (lim_range pg n) as Hl.
  assert (Hlt : lim pg n < cap pg).
  { destruct (decide (lim pg n = cap pg)) as [E|]; [|lia]. specialize (Hfull E). rewrite E in Hn. lia. }
  assert (Hn' : ~ (1 <= slot_at m' pg k <= lim pg n)).
  { intros H. rewrite (un_slot _ _ _ HU) in H by auto. done. }
  pose proof (un_nonneg _ _ _ HU pg k Hpg Hk Hge). split_and!; [done| |done].
  destruct (decide (slot_at m' pg k = 0)); [by left|right]. unfold lim in *. lia.
Qed.

Lemma loc_slot m pg k : rd m (aHash (loc pg) k) = slot_at m pg k.
Proof. done. Qed.

Lemma loc_pgno m pg i : rd m (aPgno (loc pg) i) = pgno_at m pg i.
Proof. done. Qed.

(** The first [e] slots of the search are in use, if they stay so. *)
Definition in_use (m : mem) (pg pgno e : Z) : Prop :=
  only = true -> forall d, 0 <= d < e -> slot_at m pg (probe pgno d) <> 0.

Lemma in_use_stable m m' pg pgno e :
  0 <= pg <= walFramePage n -> R m m' -> in_use m pg pgno e -> in_use m' pg pgno e.
Proof.
  intros Hpg [_ HA _] H Ho d Hd. rewrite (HA Ho); [by apply H|done|apply probe_range|by apply H].
Qed.

Lemma in_use_free m pg pgno : only = true -> in_use m pg pgno HASHTABLE_NSLOT -> has_free m pg -> False.
Proof.
  intros Ho H (k & Hk & Hs). apply (H Ho ((k - walHash pgno) mod HASHTABLE_NSLOT)).
  { by apply Z.mod_pos_bound. }
  unfold probe. rewrite Z.add_mod_idemp_r by done. replace (walHash pgno + (k - walHash pgno)) with k by lia.
  by rewrite Z.mod_small.
Qed.

(** One slot in use, with the three loads of the source; [K] is the rest of the loop. *)
Lemma table_body pg pgno minF e iRead m1 (K : Z -> prog (option Z)) Q :
  0 <= pg -> first pg < n -> index_ok m1 f n -> only = true \/ first pg < minF -> pg <= walFramePage n ->
  0 <= e <= HASHTABLE_NSLOT -> search_inv m1 pg pgno minF e iRead -> slot_at m1 pg (probe pgno e) <> 0 ->
  (forall iRead' m', R m1 m' -> (e < HASHTABLE_NSLOT -> search_inv m' pg pgno minF (e + 1) iRead') ->
    rg present R G (K iRead') Q m') ->
  rg present R G (Load (aHash (loc pg) (probe pgno e)) (fun v =>
    (if (v + iZero (loc pg) <=? n) && (minF <=? v + iZero (loc pg)) then
       Load (aHash (loc pg) (probe pgno e)) (fun v0 => Load (aPgno (loc pg) v0) (fun v1 =>
         if v1 =? pgno then insist ((iRead <? v + iZero (loc pg)) || CORRUPT_DB) (Done (v + iZero (loc pg)))
         else Done iRead))
     else Done iRead) ≫= K)) Q m1.
Proof.
  intros Hpg Hfn Hok Honly Htop He Hinv Hv1 HK m2 HR2. rewrite loc_slot.
  assert (Hk := probe_range pgno e). set (k := probe pgno e) in *.
  assert (Hinv2 : search_inv m2 pg pgno minF e iRead) by (by apply (search_inv_stable m1)).
  change (iZero (loc pg)) with (first pg).
  destruct ((slot_at m2 pg k + first pg <=? n) && (minF <=? slot_at m2 pg k + first pg)) eqn:Hc.
  2: { cbn. apply HK; [done|]. intros _. apply search_skip; [|done]. fold k. intros (Hm1 & Hm2 & _).
    unfold lim in Hm1. rewrite (proj2 (Z.leb_le _ _)), (proj2 (Z.leb_le _ _)) in Hc by lia. done. }
  bool_to_prop. destruct (decide (1 <= slot_at m1 pg k <= lim pg n)) as [Hin|Hout].
  - assert (Hsame : forall m, R m1 m -> slot_at m pg k = slot_at m1 pg k).
    { intros m' [HU _ _]. apply (un_slot _ _ _ HU); auto. }
    rewrite (Hsame m2) in * by done. set (v := slot_at m1 pg k) in *.
    intros m3 HR3 m4 HR4. assert (HR14 : R m1 m4) by (transitivity m3; [by transitivity m2|done]).
    rewrite loc_slot, loc_pgno, (Hsame m3) by (by transitivity m2). fold v.
    assert (Hok4 : index_ok m4 f n) by (apply (unchanged_ok n f m1); [apply HR14|done]).
    assert (Hinv4 : search_inv m4 pg pgno minF e iRead) by (by apply (search_inv_stable m1)).
    rewrite (tbl_pgno _ _ _ _ (Hok4 pg Hpg)) by done.
    destruct (f (first pg + v) =? pgno) eqn:Hp; bool_to_prop.
    + rewrite orb_true_r. cbn. apply HK; [done|]. intros He'. rewrite (Z.add_comm v).
      apply (search_found m4 pg pgno minF e iRead v); [done..|lia| |fold k; by rewrite (Hsame m4)|done].
      split; [done|]. split; [lia|done].
    + cbn. apply HK; [done|]. intros _. apply search_skip; [|done]. fold k. rewrite (Hsame m4) by done. fold v.
      by intros (_ & _ & ?).
  - exfalso. destruct (later_slot pg k m1 m2) as (Hl & [Hz|Hz] & _); [done..| |lia].
    destruct Honly as [Ho|Ho]; [|lia]. destruct HR2 as [_ HA _].
    rewrite (HA Ho pg k) in Hz by (done || lia). done.
Qed.

(** The result of a loop over [c] more slots, where [e] were seen before. *)
Lemma table_rg c pg pgno minF e iRead m Q :
  0 <= pg -> first pg < n -> index_ok m f n -> only = true \/ first pg < minF -> pg <= walFramePage n ->
  e + Z.of_nat c = HASHTABLE_NSLOT -> 0 <= e -> search_inv m pg pgno minF e iRead -> in_use m pg pgno e ->
  (forall r m', R m m' -> (r = None /\ in_use m' pg pgno HASHTABLE_NSLOT) \/ (exists i, r = Some i /\ table_result pg pgno minF i) -> Q r m') ->
  rg present R G (sqlite3WalFindFrame_table c (loc pg) pgno n minF (probe pgno e) iRead) Q m.
Proof.
  intros Hpg Hfn Hok Honly Htop. revert e iRead m Hok.
  induction c as [|c IH]; intros e iRead m Hok He He0 Hinv Huse HQ;
    cbn [sqlite3WalFindFrame_table load mbind shm_bind prog_bind_def]; intros m1 HR1;
    assert (Hok1 : index_ok m1 f n) by (apply (unchanged_ok n f m), Hok; apply HR1);
    assert (Hinv1 : search_inv m1 pg pgno minF e iRead) by (by apply (search_inv_stable m));
    assert (Huse1 : in_use m1 pg pgno e) by (by apply (in_use_stable m));
    (destruct (_ =? 0) eqn:Hv1; bool_to_prop;
      [apply rg_done; intros m' HR; apply HQ; [by transitivity m1|]; right; exists iRead; split; [done|];
       by apply (search_end m1 pg pgno minF e iRead); [done|done|lia|done|]|]);
    (assert (Huse2 : in_use m1 pg pgno (e + 1)) by
      (intros Ho d Hd; destruct (decide (d = e)) as [->|]; [by rewrite loc_slot in Hv1|apply Huse1; [done|lia]]));
    apply table_body; try done; try lia; intros iRead' m' HR Hinv'.
  - apply rg_done. intros m2 HR2. apply HQ; [transitivity m1; [done|by transitivity m']|left]. split; [done|].
    apply (in_use_stable m1); [done|by transitivity m'|]. intros Ho d Hd. apply Huse2; [done|lia].
  - rewrite probe_next. apply IH; [|lia|lia|apply Hinv'; lia|by apply (in_use_stable m1)|].
    + apply (unchanged_ok n f m1); [apply HR|done].
    + intros r m2 HR2. apply HQ. transitivity m1; [done|by transitivity m'].
Qed.

(** ** The search of all tables *)

Definition is_last_frame (pgno minF r : Z) : Prop :=
  (r = 0 /\ forall i, minF <= i <= n -> f i <> pgno) \/
  (minF <= r <= n /\ f r = pgno /\ forall i, r < i <= n -> f i <> pgno).

(** No frame of the tables after [iHash]. *)
Definition none_after (pgno minF iHash : Z) : Prop :=
  forall i, minF <= i <= n -> iHash < walFramePage i -> f i <> pgno.

Lemma matches_frame pg pgno minF i :
  1 <= i <= n -> n < 2 ^ 31 -> minF <= i -> f i = pgno -> walFramePage i = pg -> matches pg pgno minF (i - first pg).
Proof.
  intros Hi Hn Hm Hf Hp. apply walFramePage_spec in Hp as [Hp Hr]; [|lia].
  unfold matches. replace (first pg + (i - first pg)) with i by lia. unfold lim. split; [lia|done].
Qed.

Lemma matches_page pg pgno minF j :
  0 <= pg -> n < 2 ^ 31 -> matches pg pgno minF j -> 1 <= first pg + j <= n /\ walFramePage (first pg + j) = pg.
Proof.
  intros Hp Hn (Hj & _ & _). pose proof (first_nonneg pg Hp). unfold lim in Hj. split; [lia|].
  apply walFramePage_spec; lia.
Qed.

Lemma tables_next pg pgno minF :
  1 <= minF -> n < 2 ^ 31 -> 0 <= pg -> none_after pgno minF pg -> table_result pg pgno minF 0 ->
  none_after pgno minF (pg - 1).
Proof.
  intros Hm Hn Hp Hna [Ht _] i Hi Hpi Hf. destruct (decide (walFramePage i = pg)) as [E|].
  - specialize (Ht _ (matches_frame pg pgno minF i ltac:(lia) Hn ltac:(lia) Hf E)). lia.
  - apply (Hna i Hi); [lia|done].
Qed.

Lemma tables_found pg pgno minF r :
  1 <= minF -> n < 2 ^ 31 -> 0 <= pg -> none_after pgno minF pg -> table_result pg pgno minF r -> r <> 0 ->
  is_last_frame pgno minF r.
Proof.
  intros Hm Hn Hp Hna [Ht [Hr|(j & Hj & ->)]] H0; [done|]. destruct (matches_page pg pgno minF j Hp Hn Hj) as [Hr Hpj].
  pose proof Hj as (Hj1 & Hj2 & Hj3). right. split; [lia|]. split; [done|].
  intros i Hi Hf. destruct (decide (walFramePage i = pg)) as [E|].
  - specialize (Ht _ (matches_frame pg pgno minF i ltac:(lia) Hn ltac:(lia) Hf E)). lia.
  - pose proof (walFramePage_mono (first pg + j) i ltac:(lia) ltac:(lia)). apply (Hna i); [lia|lia|done].
Qed.

Definition all_mapped (w : Wal) : Prop := forall pg, 0 <= pg <= walFramePage n -> mapped w pg = true.
Definition all_free (m : mem) : Prop := forall pg, 0 <= pg <= walFramePage n -> has_free m pg.

Lemma all_free_stable m m' : R m m' -> all_free m -> all_free m'.
Proof. intros [_ _ HF] H pg Hp. auto. Qed.

(** The connection, the code and the frame that the search returns. *)
Definition search_result (w : Wal) (pgno : Z) (m : mem) (res : Wal * Z * Z) : Prop :=
  let '(w', rc, r) := res in
  maps_more w w' /\ (rc = SQLITE_OK -> is_last_frame pgno (minFrame w) r) /\
  (only = true -> all_mapped w -> all_free m -> rc = SQLITE_OK).

Lemma maps_more_fields w w' : maps_more w w' -> minFrame w' = minFrame w /\ writeLock w' = writeLock w.
Proof. intros [-> _ _]. by destruct w. Qed.

Lemma search_inv_start m pg pgno minF : search_inv m pg pgno minF 0 0.
Proof. split; [intros; lia|by left]. Qed.

Lemma tables_rg k w pgno iHash m Q :
  n < 2 ^ 31 -> 1 <= minFrame w < 2 ^ 31 -> index_ok m f n -> mapped w 0 = true -> 0 < pgno ->
  (forall pg, 0 <= pg <= walFramePage n -> can_map present w pg) ->
  only = true \/ first (walFramePage n) < minFrame w ->
  Z.of_nat k = Z.max 0 (iHash - walFramePage (minFrame w) + 1) -> iHash <= walFramePage n -> 1 <= n ->
  none_after pgno (minFrame w) iHash ->
  (forall res m', R m m' -> search_result w pgno m res -> Q res m') ->
  rg present R G (sqlite3WalFindFrame_tables k w pgno n iHash) Q m.
Proof.
  intros Hn. revert w iHash m. induction k as [|k IH]; intros w iHash m HmF Hok H0 Hpg Hcan Honly Hk Htop Hn1 Hna HQ.
  { apply rg_done. intros m' HR. apply HQ; [done|]. split; [done|]. split; [|done]. intros _. left. split; [done|].
    intros i Hi. apply Hna; [done|]. pose proof (walFramePage_mono (minFrame w) i ltac:(lia) ltac:(lia)). lia. }
  assert (Hih : 0 <= walFramePage (minFrame w) <= iHash).
  { rewrite walFramePage_eq in * by lia. split; [apply Z.div_pos; lia|lia]. }
  cbn [sqlite3WalFindFrame_tables]. rg_bind.
  apply walHashGet_rg; [apply _|lia|done|apply Hcan; lia|]. intros w1 rc Hw1 Hmap Hrc0 m1 HR1.
  destruct (negb (rc =? SQLITE_OK)) eqn:Hrc; bool_to_prop.
  { apply rg_done. intros m' HR. apply HQ; [by transitivity m1|]. split; [done|]. split; [done|].
    intros _ Hm _. apply Hrc0, Hm. lia. }
  apply rg_insist; [by apply Z.ltb_lt|]. rg_bind. destruct (maps_more_fields w w1 Hw1) as [EmF Ewl]. rewrite EmF.
  rewrite <- (probe_0 pgno).
  assert (Hfirst : first iHash <= first (walFramePage n)) by (revert Hih Htop; layout).
  assert (Hfn : first (walFramePage n) < n) by (apply (walFramePage_spec n (walFramePage n)); [lia|done]).
  assert (Hok1 : index_ok m1 f n) by (apply (unchanged_ok n f m), Hok; apply HR1).
  apply table_rg; [lia|lia|done|destruct Honly; [by left|right; lia]|done|done|lia|apply search_inv_start|by intros ? ? ?; lia|].
  intros r m2 HR2 [[-> Huse]|(i & -> & Hr)].
  - apply rg_done. intros m' HR. apply HQ; [transitivity m1; [done|by transitivity m2]|].
    split; [done|]. split; [done|]. intros Ho _ Hfree. exfalso. apply (in_use_free m2 iHash pgno Ho Huse).
    apply (all_free_stable m); [by transitivity m1|done|lia].
  - destruct (i =? 0) eqn:Hi; bool_to_prop.
    + subst i. assert (HR02 : R m m2) by (by transitivity m1). apply IH; try done; try (rewrite EmF; done || lia); try lia.
      * apply (unchanged_ok n f m); [apply HR02|done].
      * by apply (mm_mapped w w1 Hw1).
      * intros pg Hp. destruct (Hcan pg Hp); [by left|right]. by rewrite Ewl.
      * rewrite EmF. apply tables_next; (done || lia).
      * intros [[w' rc'] r] m' HR (Hw' & Hr' & Hc'). apply HQ; [by transitivity m2|]. rewrite EmF in Hr'.
        split; [by transitivity w1|]. split; [done|]. intros Ho Hm Hf. apply Hc'; [done| |by apply (all_free_stable m)].
        intros pg Hp. apply (mm_mapped w w1 Hw1); [lia|by apply Hm].
    + apply rg_done. intros m' HR. apply HQ; [transitivity m1; [done|by transitivity m2]|].
      split; [done|]. split; [|done]. intros _. apply (tables_found iHash); (done || lia).
Qed.

Lemma FindFrame_rg w pgno m Q :
  n = mxFrame (hdr w) -> 1 <= n < 2 ^ 31 -> 1 <= minFrame w < 2 ^ 31 -> index_ok m f n -> mapped w 0 = true ->
  0 < pgno -> 0 < readLock w ->
  (forall pg, 0 <= pg <= walFramePage n -> can_map present w pg) ->
  only = true \/ first (walFramePage n) < minFrame w ->
  (forall res m', R m m' -> search_result w pgno m res -> Q res m') ->
  rg present R G (sqlite3WalFindFrame w pgno) Q m.
Proof.
  intros En Hn HmF Hok H0 Hpg Hlock Hcan Honly HQ. unfold sqlite3WalFindFrame. rewrite <- En.
  apply rg_insist; [apply Z.leb_le; lia|].
  rewrite (proj2 (Z.eqb_neq n 0)), (proj2 (Z.eqb_neq (readLock w) 0)) by (done || lia). cbn [orb andb].
  apply tables_rg; try done; try lia. intros i Hi Hp.
  pose proof (walFramePage_mono i n ltac:(lia) ltac:(lia)). lia.
Qed.
End search.
