(* ===== verification/WalIndexWriter.v ===== *)
(** The writer of the wal-index: [walIndexAppend] adds a frame to the log and
    [walCleanupHash] removes the frames after a point, keeping what readers rely on. *)
From S2P Require Import Prelude SharedMem WalIndex WalIndexSpec WalIndexReader.

(** ** The writer's invariant *)

(** A table whose slots list frames up to [J], each at most once; the page numbers of
    these frames are set, and no others.  [J] is past the log when a writer died. *)
Record full_table (m : mem) (pg n J : Z) : Prop := {
  ft_slot k : 0 <= k < HASHTABLE_NSLOT -> 0 <= slot_at m pg k <= J;
  ft_unique k k' : 0 <= k < HASHTABLE_NSLOT -> 0 <= k' < HASHTABLE_NSLOT ->
    slot_at m pg k = slot_at m pg k' -> slot_at m pg k <> 0 -> k = k';
  ft_used i : 1 <= i <= cap pg -> pgno_at m pg i <> 0 <-> i <= J;
  ft_range : lim pg n <= J <= cap pg }.

(** The log has [n] frames, and the header of the writer counts [mx] of them. *)
Record writer_inv (m : mem) (f : Z -> Z) (n mx : Z) : Prop := {
  wi_index : index_ok m f n;
  wi_full pg : 0 <= pg -> 1 <= lim pg n ->
    exists J, full_table m pg n J /\ (lim pg mx < lim pg n -> J = lim pg n);
  wi_mx : 0 <= mx <= n;
  wi_pos i : 1 <= i <= n -> 0 < f i }.

Definition upd (f : Z -> Z) (i p : Z) : Z -> Z := fun j => if j =? i then p else f j.

(** What the writer guarantees to the readers of committed frames: what they rely on,
    and that it leaves the header, the locks and the files alone. *)
Record guar (only : bool) (mx : Z) (m m' : mem) : Prop := {
  guar_rely c : 1 <= c <= mx -> rely only c m m';
  guar_header i : 0 <= i < 34 -> rd m' (Word 0 i) = rd m (Word 0 i);
  guar_other c : match c with Word _ _ | Slot _ _ => False | _ => True end -> rd m' c = rd m c }.

(** ** Stores *)

Lemma slot_insert_word m pg i v pg' k : slot_at (<[Word pg i := v]> m) pg' k = slot_at m pg' k.
Proof. unfold slot_at. by rewrite rd_insert. Qed.

Lemma slot_insert_slot m pg k v pg' k' :
  slot_at (<[Slot pg k := v]> m) pg' k' = if decide (pg = pg' /\ k = k') then v else slot_at m pg' k'.
Proof. unfold slot_at. rewrite rd_insert. do 2 case_decide; naive_solver. Qed.

Lemma pgno_insert_slot m pg k v pg' i : pgno_at (<[Slot pg k := v]> m) pg' i = pgno_at m pg' i.
Proof. unfold pgno_at. by rewrite rd_insert. Qed.

Lemma pgno_insert_word m pg i v pg' i' :
  pgno_at (<[Word pg (base pg + i) := v]> m) pg' i' = if decide (pg = pg' /\ i = i') then v else pgno_at m pg' i'.
Proof.
  unfold pgno_at. rewrite rd_insert. case_decide as H; case_decide as H'; try done.
  - injection H as -> H. exfalso. apply H'. split; [done|lia].
  - destruct H' as [-> ->]. done.
Qed.

(** A page number after the reader's frames. *)
Lemma rely_store_word only c m pg i v :
  lim pg c < i -> rely only c m (<[Word pg (base pg + i) := v]> m).
Proof.
  intros Hi. split.
  - split.
    + intros pg' j Hp Hj. rewrite pgno_insert_word. case_decide as H; [|done]. destruct H as [-> ->]. lia.
    + intros. apply slot_insert_word.
    + intros. by rewrite slot_insert_word.
  - intros _ pg' k Hp Hk H. apply slot_insert_word.
  - intros pg' Hp (k & Hk & Hs). exists k. by rewrite slot_insert_word.
Qed.

(** A slot that is none of the reader's frames and does not become one. *)
Lemma rely_store_slot only c m pg k v :
  lim pg c < cap pg -> ~ (1 <= slot_at m pg k <= lim pg c) -> (v = 0 \/ lim pg c < v) ->
  (only = true -> pg <= walFramePage c -> slot_at m pg k = 0) ->
  (pg <= walFramePage c -> has_free m pg -> has_free (<[Slot pg k := v]> m) pg) ->
  rely only c m (<[Slot pg k := v]> m).
Proof.
  intros Hl Hs Hv Ho Hf. pose proof (lim_range pg c) as Hl0. split.
  - split.
    + intros. apply pgno_insert_slot.
    + intros pg' k' Hp Hk'. rewrite slot_insert_slot. case_decide as H; [|done]. destruct H as [-> ->]. lia.
    + intros pg' k' Hp Hk' H. rewrite slot_insert_slot. case_decide; [lia|done].
  - intros Ho' pg' k' Hp Hk' Hn. rewrite slot_insert_slot. case_decide as H; [|done]. destruct H as [-> ->].
    rewrite Ho in Hn; [done|done|lia].
  - intros pg' Hp Hfr. destruct (decide (pg = pg')) as [<-|Hne]; [by apply Hf; [lia|]|].
    destruct Hfr as (k' & Hk' & Hz). exists k'. split; [done|]. rewrite slot_insert_slot. case_decide; naive_solver.
Qed.

Lemma guar_word only mx m pg i v :
  1 <= i -> (forall c, 1 <= c <= mx -> lim pg c < i) -> guar only mx m (<[Word pg (base pg + i) := v]> m).
Proof.
  intros Hi H. split; [intros c Hc; by apply rely_store_word, H| |].
  2: { intros c Hc. rewrite rd_insert. case_decide; [by subst|done]. }
  intros j Hj. rewrite rd_insert.
  case_decide as E; [|done]. injection E as -> E. unfold base in E. cbn in E. lia.
Qed.

Lemma guar_slot only mx m pg k v :
  (forall c, 1 <= c <= mx -> rely only c m (<[Slot pg k := v]> m)) -> guar only mx m (<[Slot pg k := v]> m).
Proof. intros H. split; [done| |]; intros j Hj; rewrite rd_insert; case_decide; by subst. Qed.

Lemma free_store_zero m pg k : has_free m pg -> has_free (<[Slot pg k := 0]> m) pg.
Proof. intros (k' & Hk & Hs). exists k'. split; [done|]. rewrite slot_insert_slot. by case_decide. Qed.

(** ** Loops *)

Section writer.
Context (present : Z -> Prop) (G : mem -> mem -> Prop).
Abbreviation wr := (rg present eq G).

Lemma zero_cells_rg n (c : Z -> cell) i Q m :
  (forall j j', c j = c j' -> j = j') ->
  (forall m j, i <= j < i + Z.of_nat n -> G m (<[c j := 0]> m)) ->
  (forall m', (forall j, i <= j < i + Z.of_nat n -> rd m' (c j) = 0) ->
    (forall x, (forall j, i <= j < i + Z.of_nat n -> x <> c j) -> rd m' x = rd m x) -> Q () m') ->
  wr (zero_cells n c i) Q m.
Proof.
  intros Hinj. revert i m. induction n as [|n IH]; intros i m HG HQ; cbn [zero_cells].
  { apply rg_done. intros m' <-. apply HQ; [intros; lia|done]. }
  intros m' <-. split; [apply HG; lia|]. cbn. apply IH.
  - intros m2 j Hj. apply HG. lia.
  - intros m2 Hz Hs. apply HQ.
    + intros j Hj. destruct (decide (j = i)) as [->|]; [|apply Hz; lia].
      rewrite Hs by (intros j' Hj' E; apply Hinj in E; lia). rewrite rd_insert. by case_decide.
    + intros x Hx. rewrite Hs by (intros j Hj; apply Hx; lia). rewrite rd_insert. case_decide; [|done].
      subst. exfalso. apply (Hx i); [lia|done].
Qed.

(** The slots of a table after [iLimit] are gone, and only those. *)
Lemma cleanup_slots_rg n pg iLimit i Q m :
  (forall m' k, i <= k < i + Z.of_nat n -> iLimit < slot_at m' pg k -> slot_at m' pg k = slot_at m pg k ->
    G m' (<[Slot pg k := 0]> m')) ->
  (forall m', (forall k, i <= k < i + Z.of_nat n ->
      slot_at m' pg k = if iLimit <? slot_at m pg k then 0 else slot_at m pg k) ->
    (forall x, (forall k, i <= k < i + Z.of_nat n -> x <> Slot pg k) -> rd m' x = rd m x) -> Q () m') ->
  wr (walCleanupHash_slots n (loc pg) iLimit i) Q m.
Proof.
  revert i m. induction n as [|n IH]; intros i m HG HQ; cbn [walCleanupHash_slots].
  { apply rg_done. intros m' <-. apply HQ; [intros; lia|done]. }
  intros m' <-. cbn. change (rd m (aHash (loc pg) i)) with (slot_at m pg i).
  assert (Hrest : forall m1, (forall x, x <> Slot pg i -> rd m1 x = rd m x) ->
    slot_at m1 pg i = (if iLimit <? slot_at m pg i then 0 else slot_at m pg i) ->
    wr (walCleanupHash_slots n (loc pg) iLimit (i + 1)) Q m1).
  { intros m1 Hm1 Hi. assert (Hs1 : forall k, k <> i -> slot_at m1 pg k = slot_at m pg k).
    { intros k Hk. apply Hm1. congruence. }
    apply IH.
    - intros m2 k Hk Hlt E. apply HG; [lia|done|]. rewrite E. apply Hs1. lia.
    - intros m2 Hz Hs. apply HQ.
      + intros k Hk. destruct (decide (k = i)) as [->|]; [|rewrite Hz, Hs1 by lia; done].
        rewrite <- Hi. apply Hs. intros k' Hk' [=]. lia.
      + intros x Hx. rewrite Hs by (intros k Hk; apply Hx; lia). apply Hm1. apply Hx. lia. }
  destruct (iLimit <? slot_at m pg i) eqn:Hc; cbn.
  - intros m2 <-. bool_to_prop. split; [apply HG; [lia|done|done]|]. apply Hrest.
    + intros x Hx. rewrite rd_insert. change (aHash (loc pg) i) with (Slot pg i). case_decide; congruence.
    + change (aHash (loc pg) i) with (Slot pg i). rewrite slot_insert_slot. by case_decide as H; [|destruct H].
  - apply Hrest; done.
Qed.

(** [m'] is [m] without the entries of page [pg] after [L]. *)
Record cleaned (pg L : Z) (m m' : mem) : Prop := {
  cl_slot k : 0 <= k < HASHTABLE_NSLOT -> slot_at m' pg k = if L <? slot_at m pg k then 0 else slot_at m pg k;
  cl_pgno i : 1 <= i <= cap pg -> pgno_at m' pg i = if L <? i then 0 else pgno_at m pg i;
  cl_other pg' : pg' <> pg -> (forall k, slot_at m' pg' k = slot_at m pg' k) /\
    forall i, 1 <= i -> pgno_at m' pg' i = pgno_at m pg' i }.

Lemma base_cap pg : base pg + cap pg = 4095.
Proof. layout. Qed.

Lemma zero_aPgno_rg pg i Q m :
  1 <= i <= cap pg + 1 ->
  (forall m j, i <= j <= cap pg -> G m (<[Word pg (base pg + j) := 0]> m)) ->
  (forall m', (forall j, 1 <= j <= cap pg -> pgno_at m' pg j = if i <=? j then 0 else pgno_at m pg j) ->
    (forall x, (forall j, i <= j <= cap pg -> x <> Word pg (base pg + j)) -> rd m' x = rd m x) -> Q () m') ->
  wr (zero_aPgno (loc pg) i) Q m.
Proof.
  intros Hi HG HQ. unfold zero_aPgno. pose proof (base_cap pg) as Hb. change (hl_aPgno (loc pg)) with (base pg).
  change HASHTABLE_NPAGE with 4096. apply zero_cells_rg.
  - intros j j' [=]. lia.
  - intros m' j Hj. apply HG. lia.
  - intros m' Hz Hs. apply HQ.
    + intros j Hj. destruct (i <=? j) eqn:E; bool_to_prop; [apply Hz; lia|]. apply Hs. intros j' Hj' [=]. lia.
    + intros x Hx. apply Hs. intros j Hj. apply Hx. lia.
Qed.

Lemma walCleanupHash_rg w mx pg Q m :
  writeLock w = true -> mx = mxFrame (hdr w) -> 1 <= mx < 2 ^ 31 -> walFramePage mx = pg -> mapped w pg = true ->
  (forall k, 0 <= k < HASHTABLE_NSLOT -> slot_at m pg k <= cap pg) ->
  (forall m' i, lim pg mx < i <= cap pg -> G m' (<[Word pg (base pg + i) := 0]> m')) ->
  (forall m' k, 0 <= k < HASHTABLE_NSLOT -> lim pg mx < slot_at m' pg k <= cap pg -> G m' (<[Slot pg k := 0]> m')) ->
  (forall m', cleaned pg (lim pg mx) m m' -> Q w m') ->
  wr (walCleanupHash w) Q m.
Proof.
  intros Hwl Emx Hmx Hpg Hmap Hcap HG1 HG2 HQ. pose proof Hpg as Hr. apply walFramePage_spec in Hr as [Hp Hr]; [|done].
  assert (HL : lim pg mx = mx - first pg) by (unfold lim; lia).
  unfold walCleanupHash. apply rg_insist; [done|]. rewrite <- Emx. rewrite (proj2 (Z.eqb_neq mx 0)), Hpg by lia.
  apply rg_insist; [rewrite Hmap, andb_true_r; apply Z.ltb_lt; by apply mapped_len|].
  rewrite walHashGet_mapped by done. cbn [mbind shm_bind prog_bind_def].
  change (iZero (loc pg)) with (first pg). rewrite <- Emx, <- HL. change (negb _) with false. cbv iota. apply rg_insist; [apply Z.ltb_lt; lia|].
  rg_bind. change (Z.to_nat HASHTABLE_NSLOT) with (Z.to_nat 8192). change HASHTABLE_NSLOT with 8192 in *.
  apply cleanup_slots_rg.
  { intros m' k Hk Hlt E. apply HG2; [lia|]. split; [done|]. rewrite E. apply Hcap. lia. }
  intros m1 Hs1 Ho1. rg_bind. apply zero_aPgno_rg; [lia|intros; apply HG1; lia|].
  intros m2 Hz2 Ho2. apply rg_done. intros m3 <-. apply HQ. split.
  - intros k Hk. unfold slot_at at 1. rewrite Ho2 by (intros j _; congruence). apply Hs1.
    change HASHTABLE_NSLOT with 8192 in Hk. lia.
  - intros i Hi. rewrite Hz2 by done. destruct (lim pg mx <? i) eqn:E; bool_to_prop.
    + by rewrite (proj2 (Z.leb_le _ _)) by lia.
    + rewrite (proj2 (Z.leb_gt _ _)) by lia. apply Ho1. intros; congruence.
  - intros pg' Hne. split; intros x; unfold slot_at, pgno_at; rewrite Ho2, Ho1; try done; intros; congruence.
Qed.
End writer.

(** ** Rolling back *)

(** A table with the same cells. *)
Definition same_page (pg : Z) (m m' : mem) : Prop :=
  (forall k, slot_at m' pg k = slot_at m pg k) /\ forall i, 1 <= i -> pgno_at m' pg i = pgno_at m pg i.

Lemma same_full m m' pg n J : same_page pg m m' -> full_table m pg n J -> full_table m' pg n J.
Proof.
  intros [Hs Hp] [H1 H2 H3 H4]. split; [..|done].
  - intros k. rewrite Hs. auto.
  - intros k k'. rewrite !Hs. auto.
  - intros i Hi. rewrite Hp by lia. auto.
Qed.

Lemma same_table m m' pg f n : same_page pg m m' -> table_ok m pg f n -> table_ok m' pg f n.
Proof.
  intros [Hs Hp] [H1 H2 H3 H4]. split.
  - intros i Hi. rewrite Hp by lia. auto.
  - intros i Hi. destruct (H2 i Hi) as (d & Hd & Hsd & Hlt). exists d. rewrite Hs. split; [done|]. split; [done|].
    intros e. rewrite Hs. auto.
  - intros k k'. rewrite !Hs. auto.
  - intros k. rewrite Hs. auto.
Qed.

Lemma full_le m pg n n' J : lim pg n' <= lim pg n -> full_table m pg n J -> full_table m pg n' J.
Proof. intros Hl [H1 H2 H3 H4]. split; [done..|lia]. Qed.

(** Pages other than that of frame [n + 1] do not see it. *)
Lemma lim_succ pg n : 0 <= n -> n + 1 < 2 ^ 31 -> 0 <= pg -> pg <> walFramePage (n + 1) -> lim pg (n + 1) = lim pg n.
Proof.
  intros Hn H31 Hp Hne. unfold lim. destruct (decide (first pg < n + 1 <= first pg + cap pg)) as [H|H]; [|lia].
  exfalso. apply Hne. symmetry. apply walFramePage_spec; [lia|done].
Qed.

Lemma lim_last n : 0 <= n -> n + 1 < 2 ^ 31 ->
  let pg := walFramePage (n + 1) in
  0 <= pg /\ lim pg (n + 1) = n + 1 - first pg /\ lim pg n = n - first pg /\ lim pg n < cap pg /\ 0 <= n - first pg.
Proof.
  intros Hn H31 pg. destruct (proj1 (walFramePage_spec (n + 1) pg ltac:(lia)) eq_refl) as [Hp Hr].
  unfold lim. lia.
Qed.

Lemma writer_zero m f n mx : writer_inv m f n mx -> writer_inv m f 0 0.
Proof.
  intros [H1 H2 H3 H4]. split; [apply (index_ok_le m f n); [lia|done]| |lia|lia].
  intros pg Hp Hl. pose proof (first_nonneg pg Hp). unfold lim in Hl. lia.
Qed.

Lemma cleaned_unchanged m m' pg mx :
  walFramePage mx = pg -> 1 <= mx < 2 ^ 31 -> (forall k, 0 <= k < HASHTABLE_NSLOT -> slot_at m pg k <= cap pg) ->
  cleaned pg (lim pg mx) m m' -> unchanged_upto mx m m'.
Proof.
  intros Hpg Hmx Hcap [C1 C2 C3]. pose proof (lim_range pg mx) as Hlr. split.
  - intros pg' i Hp Hi. destruct (decide (pg' = pg)) as [->|Hne]; [|by apply C3; [|lia]].
    rewrite C2 by lia. by rewrite (proj2 (Z.ltb_ge _ _)) by lia.
  - intros pg' k Hp Hk H. destruct (decide (pg' = pg)) as [->|Hne]; [|by apply C3].
    specialize (Hcap k Hk). rewrite C1 in * by done. destruct (_ <? _) eqn:E; bool_to_prop; [lia|done].
  - intros pg' k Hp Hk H. destruct (decide (pg' = pg)) as [->|Hne]; [|by rewrite (proj1 (C3 pg' Hne))].
    rewrite C1 by done. case_bool; lia.
Qed.

Lemma cleaned_full m m' pg n J mx :
  walFramePage mx = pg -> 1 <= mx <= n -> n < 2 ^ 31 -> full_table m pg n J -> cleaned pg (lim pg mx) m m' ->
  full_table m' pg mx (lim pg mx).
Proof.
  intros Hpg Hmx Hn [F1 F2 F3 F4] [C1 C2 C3]. pose proof (lim_range pg mx) as Hlr.
  pose proof (lim_mono pg mx n ltac:(lia)) as Hlm. split.
  - intros k Hk. rewrite C1 by done. specialize (F1 k Hk). destruct (_ <? _) eqn:E; bool_to_prop; lia.
  - intros k k' Hk Hk'. rewrite !C1 by done. destruct (_ <? slot_at m pg k) eqn:E; [done|].
    destruct (_ <? slot_at m pg k') eqn:E'; [|by apply F2]. intros -> H. done.
  - intros i Hi. rewrite C2 by done. destruct (_ <? _) eqn:E; bool_to_prop; [split; [done|lia]|]. rewrite F3 by done. lia.
  - lia.
Qed.

Lemma cleaned_inv m m' f n mx0 mx :
  writer_inv m f n mx0 -> 1 <= mx <= n -> n < 2 ^ 31 -> cleaned (walFramePage mx) (lim (walFramePage mx) mx) m m' ->
  writer_inv m' f mx mx.
Proof.
  intros [W1 W2 W3 W4] Hmx Hn Hc. set (pg := walFramePage mx) in *.
  destruct (proj1 (walFramePage_spec mx pg ltac:(lia)) eq_refl) as [Hp Hr].
  assert (Hl1 : 1 <= lim pg n) by (unfold lim; lia).
  destruct (W2 pg Hp Hl1) as (J & HJ & _). pose proof (ft_range _ _ _ _ HJ) as HJr. split.
  - apply (unchanged_ok mx f m); [|apply (index_ok_le m f n); [lia|done]]. apply (cleaned_unchanged m m' pg); [done|lia| |done].
    intros k Hk. pose proof (ft_slot _ _ _ _ HJ k Hk). lia.
  - intros pg' Hp' Hl'. destruct (decide (pg' = pg)) as [->|Hne].
    + exists (lim pg mx). split; [|done]. by apply (cleaned_full m m' pg n J mx).
    + destruct (W2 pg' Hp') as (J' & HJ' & _); [pose proof (lim_mono pg' mx n ltac:(lia)); lia|].
      exists J'. split; [|lia]. apply (same_full m); [by apply Hc|]. apply (full_le m pg' n); [apply lim_mono; lia|done].
  - lia.
  - intros i Hi. apply W4. lia.
Qed.

(** ** Counting slots *)

Lemma distinct_bound (l : list Z) b : NoDup l -> (forall v, v ∈ l -> 1 <= v <= b) -> 0 <= b -> Z.of_nat (length l) <= b.
Proof.
  intros Hnd Hr Hb. assert (Hi : (length l <= length (seqZ 1 b))%nat).
  { apply submseteq_length, NoDup_submseteq; [done|]. intros v Hv. apply elem_of_seqZ. specialize (Hr v Hv). lia. }
  rewrite length_seqZ in Hi. lia.
Qed.

(** Slots in use at distinct places are no more than the entries. *)
Lemma used_bound m pg n J (g : Z -> Z) e :
  full_table m pg n J -> 0 <= e ->
  (forall d, 0 <= d < e -> 0 <= g d < HASHTABLE_NSLOT /\ slot_at m pg (g d) <> 0) ->
  (forall d d', 0 <= d < e -> 0 <= d' < e -> g d = g d' -> d = d') -> e <= J.
Proof.
  intros [F1 F2 F3 F4] He Hg Hinj. pose proof (lim_range pg n) as Hl.
  assert (Hb : Z.of_nat (length ((fun d => slot_at m pg (g d)) <$> seqZ 0 e)) <= J).
  { apply distinct_bound; [| |lia].
    - apply NoDup_fmap_2_strong; [|apply NoDup_seqZ]. intros d d' Hd Hd' E. apply elem_of_seqZ in Hd, Hd'.
      apply Hinj; [lia|lia|]. apply F2; [apply Hg; lia..|done|apply Hg; lia].
    - intros v Hv. apply list_elem_of_fmap in Hv as (d & -> & Hd). apply elem_of_seqZ in Hd.
      destruct (Hg d ltac:(lia)) as [Hr Hn]. specialize (F1 _ Hr). lia. }
  rewrite length_fmap, length_seqZ in Hb. lia.
Qed.

Lemma full_has_free m pg n J : full_table m pg n J -> has_free m pg.
Proof.
  intros HJ. destruct (decide (Exists (fun k => slot_at m pg k = 0) (seqZ 0 HASHTABLE_NSLOT))) as [H|H].
  - apply Exists_exists in H as (k & Hk & Hs). apply elem_of_seqZ in Hk. exists k. split; [lia|done].
  - exfalso. apply not_Exists_Forall in H; [|intros k; apply _]. rewrite Forall_forall in H.
    pose proof (used_bound m pg n J id HASHTABLE_NSLOT HJ ltac:(done)) as Hb.
    pose proof (ft_range _ _ _ _ HJ). pose proof (cap_range pg).
    assert (HASHTABLE_NSLOT <= J); [|change HASHTABLE_NSLOT with 8192 in *; lia].
    apply Hb; [|done]. intros d Hd. split; [done|]. apply (H d). apply elem_of_seqZ. lia.
Qed.

(** ** Appending *)

(** The table of the next frame has no entries after the log. *)
Definition ready (m : mem) (f : Z -> Z) (n mx : Z) : Prop :=
  writer_inv m f n mx /\ full_table m (walFramePage (n + 1)) n (lim (walFramePage (n + 1)) n).

(** The new frame is stored in the slot at distance [d], the first that is free. *)
Definition appended (m : mem) (n p d : Z) : mem :=
  let pg := walFramePage (n + 1) in let idx := n + 1 - first pg in
  <[Slot pg (probe p d) := idx]> (<[Word pg (base pg + idx) := p]> m).

Definition free_at (m : mem) (n p d : Z) : Prop :=
  0 <= d < HASHTABLE_NSLOT /\ slot_at m (walFramePage (n + 1)) (probe p d) = 0 /\
  forall e, 0 <= e < d -> slot_at m (walFramePage (n + 1)) (probe p e) <> 0.

Lemma appended_same m n p d pg : pg <> walFramePage (n + 1) -> same_page pg m (appended m n p d).
Proof.
  intros Hne. unfold appended. split; intros.
  - rewrite slot_insert_slot. rewrite decide_False by naive_solver. apply slot_insert_word.
  - rewrite pgno_insert_slot, pgno_insert_word. by rewrite decide_False by naive_solver.
Qed.

Section appended.
Context (m : mem) (f : Z -> Z) (n mx p d : Z).
Hypothesis Hn : 0 <= n.
Hypothesis Hn31 : n + 1 < 2 ^ 31.
Hypothesis Hready : ready m f n mx.
Hypothesis Hp : 0 < p.
Hypothesis Hd : free_at m n p d.

Abbreviation pg := (walFramePage (n + 1)).
Abbreviation L := (n - first pg).
Abbreviation m' := (appended m n p d).

Lemma app_slot k : slot_at m' pg k = if decide (k = probe p d) then L + 1 else slot_at m pg k.
Proof.
  unfold appended. rewrite slot_insert_slot, slot_insert_word.
  replace (n + 1 - first pg) with (L + 1) by lia.
  destruct (decide (pg = pg /\ probe p d = k)) as [[_ H]|H], (decide (k = probe p d)); naive_solver.
Qed.

Lemma app_pgno i : pgno_at m' pg i = if decide (i = L + 1) then p else pgno_at m pg i.
Proof.
  unfold appended. rewrite pgno_insert_slot, pgno_insert_word.
  destruct (decide (pg = pg /\ n + 1 - first pg = i)) as [[_ H]|H], (decide (i = L + 1)); (done || lia || naive_solver lia).
Qed.

Lemma app_lims : 0 <= pg /\ lim pg (n + 1) = L + 1 /\ lim pg n = L /\ 0 <= L < cap pg.
Proof. pose proof (lim_last n Hn Hn31) as Hl. cbv zeta in Hl.   lia. Qed.

Lemma app_full : full_table m' pg (n + 1) (L + 1).
Proof.
  destruct app_lims as (Hpg & HL1 & HL & HLr). destruct Hready as [_ [F1 F2 F3 F4]]. rewrite HL in *.
  destruct Hd as (Hd0 & Hfree & Hpath). split.
  - intros k Hk. rewrite app_slot. case_decide; [lia|]. specialize (F1 k Hk). lia.
  - intros k k' Hk Hk'. rewrite !app_slot. do 2 case_decide; subst; try done; auto.
    + intros E _. specialize (F1 k' Hk'). lia.
    + intros E _. specialize (F1 k Hk). lia.
  - intros i Hi. rewrite app_pgno. case_decide; [lia|]. rewrite F3 by done. lia.
  - lia.
Qed.

Lemma app_table : table_ok m' pg (upd f (n + 1) p) (n + 1).
Proof.
  destruct app_lims as (Hpg & HL1 & HL & HLr). pose proof app_full as HF. destruct Hready as [[W1 W2 W3 W4] HF0].
  rewrite HL in *. destruct Hd as (Hd0 & Hfree & Hpath).
  destruct (W1 pg Hpg) as [T1 T2 T3 T4]. rewrite HL in *.
  assert (Hupd : forall i, i <> L + 1 -> upd f (n + 1) p (first pg + i) = f (first pg + i)).
  { intros i Hi. unfold upd. rewrite (proj2 (Z.eqb_neq _ _)) by (lia). done. }
  assert (Hlast : upd f (n + 1) p (first pg + (L + 1)) = p).
  { unfold upd. rewrite (proj2 (Z.eqb_eq _ _)) by lia. done. }
  split; rewrite HL1.
  - intros i Hi. rewrite app_pgno. case_decide as E; [by subst; rewrite Hlast|]. rewrite Hupd by done. apply T1. lia.
  - intros i Hi. destruct (decide (i = L + 1)) as [->|Hne].
    + rewrite Hlast. exists d. split; [done|]. split; [rewrite app_slot; by case_decide|].
      intros e He. rewrite app_slot. case_decide as E.
      * apply probe_inj in E; lia.
      * specialize (Hpath e He). pose proof (ft_slot _ _ _ _ HF0 (probe p e) (probe_range p e)). lia.
    + rewrite Hupd by done. destruct (T2 i ltac:(lia)) as (d' & Hd' & Hsd & Hlt). exists d'. split; [done|].
      assert (Hin : forall k, slot_at m pg k <> 0 -> slot_at m' pg k = slot_at m pg k).
      { intros k Hk. rewrite app_slot. case_decide; [by subst|done]. }
      split; [rewrite Hin; [done|]; lia|]. intros e He. specialize (Hlt e He). rewrite Hin; [done|]; lia.
  - intros k k' Hk Hk' Hv E. apply (ft_unique _ _ _ _ HF); [done..|lia].
  - intros k Hk. pose proof (ft_slot _ _ _ _ HF k Hk). lia.
Qed.

Lemma appended_inv : writer_inv m' (upd f (n + 1) p) (n + 1) mx.
Proof.
  pose proof Hready as [[W1 W2 W3 W4] _]. split.
  - intros pg' Hp'. destruct (decide (pg' = pg)) as [->|Hne]; [apply app_table|].
    assert (Hs : table_ok m' pg' (upd f (n + 1) p) n).
    { apply (same_table m); [by apply appended_same|]. apply (table_ok_ext m pg' f); [|done|by apply W1].
      intros i Hi. unfold upd. by rewrite (proj2 (Z.eqb_neq _ _)) by lia. }
    pose proof (lim_succ pg' n Hn Hn31 Hp' Hne) as El. destruct Hs as [T1 T2 T3 T4].
    split; rewrite ?El; done.
  - intros pg' Hp' Hl. destruct (decide (pg' = pg)) as [->|Hne].
    + exists (L + 1). split; [apply app_full|]. intros _. symmetry. apply app_lims.
    + rewrite lim_succ in * by done. destruct (W2 pg' Hp' Hl) as (J & HJ & HJ2). exists J. split; [|done].
      apply (same_full m m') in HJ; [|by apply appended_same]. destruct HJ as [F1 F2 F3 F4].
      split; [done..|]. by rewrite lim_succ.
  - lia.
  - intros i Hi. unfold upd. destruct (Z.eqb_spec i (n + 1)); [done|]. apply W4. lia.
Qed.

(** The two stores of the source, for the readers. *)
Lemma app_guar only (Hmx : mx <= n) (Hp32 : 0 <= p) :
  guar only mx m (<[Word pg (base pg + (L + 1)) := p]> m) /\
  guar only mx (<[Word pg (base pg + (L + 1)) := p]> m) m'.
Proof.
  destruct app_lims as (Hpg & HL1 & HL & HLr). pose proof app_full as HF. destruct Hd as (Hd0 & Hfree & Hpath).
  split; [apply guar_word; [lia|]|].
  - intros c Hc. pose proof (lim_mono pg c n ltac:(lia)). lia.
  - assert (E : m' = <[Slot pg (probe p d) := L + 1]> (<[Word pg (base pg + (L + 1)) := p]> m)).
    { unfold appended. by replace (n + 1 - first pg) with (L + 1) by lia. }
    rewrite E. apply guar_slot. intros c Hc. pose proof (lim_mono pg c n ltac:(lia)) as Hlc. apply rely_store_slot; rewrite ?slot_insert_word; try done; try lia.
    + intros _ _. rewrite <- E. by apply (full_has_free _ _ (n + 1) (L + 1)).
Qed.
End appended.

(** The first entry of a table clears it. *)
Lemma memset_ready m m' f n mx :
  0 <= n -> n + 1 < 2 ^ 31 -> first (walFramePage (n + 1)) = n -> writer_inv m f n mx ->
  (forall k, 0 <= k < HASHTABLE_NSLOT -> slot_at m' (walFramePage (n + 1)) k = 0) ->
  (forall i, 1 <= i <= cap (walFramePage (n + 1)) -> pgno_at m' (walFramePage (n + 1)) i = 0) ->
  (forall pg, pg <> walFramePage (n + 1) -> same_page pg m m') -> ready m' f n mx.
Proof.
  intros Hn Hn31 Hf [W1 W2 W3 W4] Hs Hi Ho. pose proof (lim_last n Hn Hn31) as Hl. cbv zeta in Hl.
  set (pg := walFramePage (n + 1)) in *. assert (HL : lim pg n = 0) by lia. pose proof (cap_range pg) as Hc. split.
  - split; [| |done|done].
    + intros pg' Hp'. destruct (decide (pg' = pg)) as [->|Hne]; [|apply (same_table m); [by apply Ho|by apply W1]].
      split; rewrite HL; try (intros; lia). intros k Hk. rewrite Hs by done. lia.
    + intros pg' Hp' Hl'. destruct (decide (pg' = pg)) as [->|Hne]; [lia|].
      destruct (W2 pg' Hp' Hl') as (J & HJ & HJ2). exists J. split; [|done]. apply (same_full m); [by apply Ho|done].
  - fold pg; rewrite HL. split.
    + intros k Hk. rewrite Hs by done. lia.
    + intros k k' Hk Hk' _. by rewrite Hs.
    + intros i Hi'. rewrite Hi by done. split; [done|lia].
    + lia.
Qed.

(** Entries after the log are left by a writer that died; then the log is what the
    writer's header says. *)
Lemma leftover f n mx m :
  let pg := walFramePage (n + 1) in let idx := n + 1 - first pg in
  0 <= n -> n + 1 < 2 ^ 31 -> idx <> 1 -> writer_inv m f n mx ->
  exists J, full_table m pg n J /\ (pgno_at m pg idx = 0 -> J = lim pg n) /\
    (pgno_at m pg idx <> 0 -> mx = n /\ 1 <= n /\ walFramePage n = pg).
Proof.
  intros pg idx Hn Hn31 Hidx [W1 W2 W3 W4]. pose proof (lim_last n Hn Hn31) as Hl. cbv zeta in Hl. fold pg in Hl.
  destruct (W2 pg) as (J & HJ & HJ2); [lia|unfold idx in *; lia|]. exists J. split; [done|].
  pose proof (ft_used _ _ _ _ HJ idx ltac:(unfold idx in *; lia)) as Hu. pose proof (ft_range _ _ _ _ HJ) as HJr. split.
  - intros Hz. destruct (decide (idx <= J)); [by apply Hu in Hz|unfold idx in *; lia].
  - intros Hz. assert (Hmx : mx = n).
    { assert (HJi : idx <= J) by tauto. destruct (decide (lim pg mx < lim pg n)) as [Hlt|Hge];
        [specialize (HJ2 Hlt); unfold idx in *; lia|]. unfold lim in *. unfold idx in *. lia. }
    split; [done|]. pose proof (first_nonneg pg ltac:(lia)). split; [unfold idx in *; lia|].
    apply walFramePage_spec; unfold idx in *; lia.
Qed.

Section append.
Context (present : Z -> Prop) (only : bool).

(** The search for a free slot ends before its limit. *)
Lemma append_slot_rg G c n p e m Q :
  0 <= n -> n + 1 < 2 ^ 31 -> full_table m (walFramePage (n + 1)) n (lim (walFramePage (n + 1)) n) ->
  e + Z.of_nat c = n + 1 - first (walFramePage (n + 1)) -> 0 <= e ->
  (forall d, 0 <= d < e -> slot_at m (walFramePage (n + 1)) (probe p d) <> 0) ->
  (forall d, free_at m n p d -> Q (Some (probe p d)) m) ->
  rg present eq G (walIndexAppend_slot c (loc (walFramePage (n + 1))) (probe p e)) Q m.
Proof.
  intros Hn Hn31 HF. pose proof (lim_last n Hn Hn31) as Hl. cbv zeta in Hl.
  set (pg := walFramePage (n + 1)) in *. pose proof (cap_range pg) as Hcap.
  assert (Hbound : forall b, 0 <= b <= cap pg + 1 -> (forall d, 0 <= d < b -> slot_at m pg (probe p d) <> 0) ->
    b <= lim pg n).
  { intros b Hb Hnz. apply (used_bound m pg n (lim pg n) (probe p) b HF); [lia| |].
    - intros d Hd. split; [apply probe_range|by apply Hnz].
    - intros d d' Hd Hd'. change HASHTABLE_NSLOT with 8192. apply probe_inj; change HASHTABLE_NSLOT with 8192; lia. }
  revert e. induction c as [|c IH]; intros e He He0 Hnz HQ; cbn [walIndexAppend_slot load mbind shm_bind prog_bind_def rg]; intros m' <-;
    change (rd m (aHash (loc pg) (probe p e))) with (slot_at m pg (probe p e)).
  all: destruct (_ =? 0) eqn:Hv; bool_to_prop;
    [apply rg_done; intros m' <-; apply HQ; split; [change HASHTABLE_NSLOT with 8192; lia|done]|].
  all: assert (Hnz' : forall d, 0 <= d < e + 1 -> slot_at m pg (probe p d) <> 0) by
    (intros d Hd; destruct (decide (d = e)) as [->|]; [done|apply Hnz; lia]).
  - pose proof (Hbound (e + 1) ltac:(lia) Hnz'). lia.
  - rewrite probe_next. apply IH; (done || lia).
Qed.

(** Frames up to [c <= n] do not reach the table that starts after [n]. *)
Lemma new_table_after n c : 0 <= n -> n + 1 < 2 ^ 31 -> first (walFramePage (n + 1)) = n -> 1 <= c <= n ->
  walFramePage c < walFramePage (n + 1).
Proof.
  intros Hn Hn31 Hf Hc. pose proof (walFramePage_mono c (n + 1) ltac:(lia) ltac:(lia)).
  destruct (decide (walFramePage c = walFramePage (n + 1))) as [E|]; [|lia].
  apply walFramePage_spec in E; lia.
Qed.

Lemma append_memset_rg f n mx m Q :
  let pg := walFramePage (n + 1) in
  0 <= n -> n + 1 < 2 ^ 31 -> first pg = n -> writer_inv m f n mx ->
  (forall m', ready m' f n mx -> Q () m') ->
  rg present eq (guar only mx)
    (_ ← zero_aPgno (loc pg) 1; zero_cells (Z.to_nat HASHTABLE_NSLOT) (aHash (loc pg)) 0) Q m.
Proof.
  intros pg Hn Hn31 Hf HW HQ. pose proof (lim_last n Hn Hn31) as Hl. cbv zeta in Hl. fold pg in Hl.
  pose proof (cap_range pg) as Hcap. pose proof (wi_mx _ _ _ _ HW) as Hmx.
  assert (Hc0 : forall c, 1 <= c <= mx -> lim pg c = 0) by (intros c Hc; unfold lim; lia).
  rg_bind. apply zero_aPgno_rg; [lia| |].
  { intros m' j Hj. apply guar_word; [lia|]. intros c Hc. rewrite Hc0 by done. lia. }
  intros m1 Hp1 Ho1. change (Z.to_nat HASHTABLE_NSLOT) with (Z.to_nat 8192). apply zero_cells_rg.
  - intros j j' [=]. done.
  - intros m' k Hk. change (aHash (loc pg) k) with (Slot pg k). apply guar_slot. intros c Hc.
    pose proof (new_table_after n c Hn Hn31 Hf ltac:(lia)) as Hlt. fold pg in Hlt.
    apply rely_store_slot; rewrite ?Hc0 by done; [lia|lia|by left|lia|lia].
  - intros m2 Hs2 Ho2. unfold aHash in Ho2. cbn [loc hl_page] in Ho2. apply HQ. apply (memset_ready m); try done.
    + intros i Hi. fold pg in Hi |- *. transitivity (pgno_at m1 pg i); [by apply Ho2|]. rewrite Hp1 by done.
      by rewrite (proj2 (Z.leb_le _ _)) by lia.
    + intros pg' Hne. fold pg in Hne. split; intros x; unfold slot_at, pgno_at; rewrite Ho2, Ho1; try done; intros j _ [=]; congruence.
Qed.

Lemma append_cleanup_rg w f n mx m Q :
  let pg := walFramePage (n + 1) in let idx := n + 1 - first pg in
  0 <= n -> n + 1 < 2 ^ 31 -> writeLock w = true -> mx = mxFrame (hdr w) -> mapped w pg = true ->
  writer_inv m f n mx -> (idx = 1 -> ready m f n mx) -> (only = true -> pgno_at m pg idx = 0) ->
  (forall m', ready m' f n mx -> Q w m') ->
  rg present eq (guar only mx)
    (v ← load (aPgno (loc pg) idx);
     if negb (v =? 0) then
       w ← walCleanupHash w; v ← load (aPgno (loc pg) idx); insist (v =? 0) (Done w)
     else Done w) Q m.
Proof.
  intros pg idx Hn Hn31 Hwl Emx Hmap HW Hone Ho HQ. cbn [load mbind shm_bind prog_bind_def rg].
  intros m1 <-. rewrite loc_pgno. pose proof (lim_last n Hn Hn31) as Hl. cbv zeta in Hl. fold pg in Hl.
  destruct (decide (idx = 1)) as [Hi|Hi].
  { specialize (Hone Hi). destruct Hone as [HW' HF]. fold pg in HF.
    pose proof (ft_used _ _ _ _ HF 1 ltac:(pose proof (cap_range pg); lia)) as Hu. rewrite Hi.
    destruct (_ =? 0) eqn:E; bool_to_prop.
    - apply rg_done. intros m' <-. by apply HQ.
    - unfold idx in Hi. lia. }
  destruct (leftover f n mx m Hn Hn31 Hi HW) as (J & HJ & HJ0 & HJ1). fold pg idx in HJ, HJ0, HJ1.
  destruct (pgno_at m pg idx =? 0) eqn:E; bool_to_prop; cbn [negb].
  { apply rg_done. intros m' <-. apply HQ. split; [done|]. fold pg. by rewrite <- HJ0. }
  destruct (HJ1 E) as (-> & Hn1 & Epg). change (prog_bind_def ?f ?p) with (p ≫= f). rg_bind.
  pose proof (ft_range _ _ _ _ HJ) as HJr.
  assert (Hnot : only = true -> False) by (intros Ht; by apply E, Ho).
  apply (walCleanupHash_rg present (guar only n) w n pg); try done; try lia.
  - intros k Hk. pose proof (ft_slot _ _ _ _ HJ k Hk). lia.
  - intros m' i Hir. apply guar_word; [pose proof (lim_range pg n); lia|]. intros c Hc. pose proof (lim_mono pg c n ltac:(lia)). lia.
  - intros m' k Hk Hs. apply guar_slot. intros c Hc. pose proof (lim_mono pg c n ltac:(lia)). apply rely_store_slot; [lia|lia|by left| |].
    + intros Ht. by apply Hnot in Ht.
    + intros _. apply free_store_zero.
  - intros m' Hcl. intros m2 <-. rewrite loc_pgno.
    assert (HF : full_table m' pg n (lim pg n)) by (apply (cleaned_full m m' pg n J n); (done || lia)).
    pose proof (ft_used _ _ _ _ HF idx ltac:(unfold idx in *; lia)) as Hu.
    apply rg_insist.
    { apply Z.eqb_eq. destruct (decide (pgno_at m' pg idx = 0)); [done|]. unfold idx in *. lia. }
    apply rg_done. intros m3 <-. apply HQ. split; [|done].
    apply (cleaned_inv m m' f n n n HW); [lia|lia|]. by rewrite Epg.
Qed.

Lemma walIndexAppend_rg w f n mx p m Q :
  let pg := walFramePage (n + 1) in let idx := n + 1 - first pg in
  0 <= n -> n + 1 < 2 ^ 31 -> 0 < p -> writeLock w = true -> mx = mxFrame (hdr w) -> mapped w 0 = true ->
  writer_inv m f n mx -> (only = true -> idx = 1 \/ pgno_at m pg idx = 0) ->
  (forall w' rc m', maps_more w w' -> (mapped w pg = true -> rc = SQLITE_OK) ->
    (if decide (rc = SQLITE_OK) then writer_inv m' (upd f (n + 1) p) (n + 1) mx else m' = m) -> Q (w', rc) m') ->
  rg present eq (guar only mx) (walIndexAppend w (n + 1) p) Q m.
Proof.
  intros pg idx Hn Hn31 Hp Hwl Emx H0 HW Ho HQ. pose proof (lim_last n Hn Hn31) as Hl. cbv zeta in Hl. fold pg in Hl.
  pose proof (cap_range pg) as Hcap. unfold walIndexAppend. fold pg. rg_bind.
  apply walHashGet_rg; [apply _|lia|done|by right|]. intros w1 rc Hw1 Hmap Hrc m1 <-.
  destruct (negb (rc =? SQLITE_OK)) eqn:Hok; bool_to_prop.
  { apply rg_done. intros m' <-. apply HQ; [done|done|]. by rewrite decide_False. }
  subst rc. change (iZero (loc pg)) with (first pg). fold idx.
  assert (Hwl1 : writeLock w1 = true) by (by destruct (maps_more_fields w w1 Hw1) as [_ ->]).
  assert (Emx1 : mx = mxFrame (hdr w1)) by (rewrite (mm_rest _ _ Hw1); by destruct w).
  apply rg_insist; [apply Z.leb_le; change (HASHTABLE_NSLOT / 2 + 1) with 4097; unfold idx in *; lia|]. rg_bind.
  apply (rg_mono _ _ _ _ (fun _ m => writer_inv m f n mx /\ (idx = 1 -> ready m f n mx) /\
    (only = true -> pgno_at m pg idx = 0))).
  2: { destruct (Z.eqb_spec idx 1) as [Hi|Hi].
    - apply append_memset_rg with (f := f); [done|done|fold pg; unfold idx in *; lia|done|]. intros m' Hr. split; [apply Hr|].
      split; [done|]. intros _. rewrite Hi. destruct Hr as [_ HF]. fold pg in HF.
      pose proof (ft_used _ _ _ _ HF 1 ltac:(lia)) as Hu. unfold idx in Hi.
      destruct (decide (pgno_at m' pg 1 = 0)); [done|]. lia.
    - apply rg_done. intros m' <-. split; [done|]. split; [done|]. intros Ht. by destruct (Ho Ht). }
  clear HW Ho. intros [] m2 (HW & Hone & Ho). rg_bind.
  apply append_cleanup_rg with (f := f); try done; [by apply Hmap|]. intros m3 Hr. fold pg in Hr.
  apply rg_insist; [by apply Z.ltb_lt|]. rg_bind. rewrite <- (probe_0 p).
  pose proof (proj2 Hr) as HF. fold pg in HF.
  apply (append_slot_rg _ _ n); try done; try (fold pg; fold idx; unfold idx in *; lia).
  intros d Hd. cbn [store mbind shm_bind prog_bind_def rg]. intros m4 <-.
  destruct (app_guar m3 f n mx p d Hn Hn31 Hr Hp Hd only) as [G1 G2]; [apply HW|lia|].
  fold pg in G1, G2. replace (n - first pg + 1) with idx in * by (unfold idx; lia).
  split; [exact G1|]. intros m5 <-.
  assert (E16 : wrap_u 16 idx = idx).
  { apply wrap_u_id. unfold in_u. change (2 ^ 16) with 65536. unfold idx in *. lia. }
  rewrite E16. split; [exact G2|]. intros m6 <-. apply HQ; [done|done|].
  rewrite decide_True by done. by apply appended_inv.
Qed.
End append.
