(* ===== verification/WalIndexTheorems.v ===== *)
(** The theorems on the wal-index: readers beside a writer, the equivalence with the
    linear search, rolling back, and two behaviours at the edge of the protocol. *)
From S2P Require Import Prelude SharedMem WalIndex WalIndexSpec WalIndexReader WalIndexWriter.

(** ** The writer's loop *)

(** No entry of a dead writer follows the log. *)
Definition no_leftover (m : mem) (n : Z) : Prop :=
  let pg := walFramePage (n + 1) in n + 1 - first pg = 1 \/ pgno_at m pg (n + 1 - first pg) = 0.

Fixpoint upds (f : Z -> Z) (n : Z) (pages : list Z) : Z -> Z :=
  match pages with [] => f | p :: pages => upds (upd f (n + 1) p) (n + 1) pages end.

Lemma upds_lookup f n pages i :
  upds f n pages i = if decide (n < i <= n + Z.of_nat (length pages)) then
    default 0 (pages !! Z.to_nat (i - n - 1)) else f i.
Proof.
  revert f n. induction pages as [|p pages IH]; intros f n; cbn [upds length].
  { by rewrite decide_False by (cbn; lia). }
  rewrite IH. destruct (decide (n < i <= n + Z.of_nat (S (length pages)))) as [Hi|Hi].
  - destruct (decide (i = n + 1)) as [->|Hne].
    + rewrite decide_False by lia. unfold upd. rewrite Z.eqb_refl. by replace (n + 1 - n - 1) with 0 by lia.
    + rewrite decide_True by lia. replace (Z.to_nat (i - n - 1)) with (S (Z.to_nat (i - (n + 1) - 1))) by lia. done.
  - rewrite decide_False by lia. unfold upd. by rewrite (proj2 (Z.eqb_neq i (n + 1))) by lia.
Qed.

Lemma no_leftover_next m f n mx :
  0 <= n -> n + 1 < 2 ^ 31 -> mx < n -> writer_inv m f n mx -> no_leftover m n.
Proof.
  intros Hn Hn31 Hmx HW. unfold no_leftover. set (pg := walFramePage (n + 1)).
  destruct (decide (n + 1 - first pg = 1)) as [|Hi]; [by left|right].
  destruct (leftover f n mx m Hn Hn31 Hi HW) as (J & HJ & HJ0 & HJ1). fold pg in HJ, HJ0, HJ1.
  destruct (decide (pgno_at m pg (n + 1 - first pg) = 0)) as [|E]; [done|]. destruct (HJ1 E). lia.
Qed.

Lemma frames_index_rg present only w f n mx pages m Q :
  0 <= n -> n + Z.of_nat (length pages) + 1 < 2 ^ 31 -> Forall (fun p => 0 < p) pages ->
  writeLock w = true -> mx = mxFrame (hdr w) -> mapped w 0 = true -> writer_inv m f n mx ->
  (only = true -> no_leftover m n) ->
  (forall w' rc k m', maps_more w w' ->
    (rc = SQLITE_OK -> k = n + Z.of_nat (length pages) /\ writer_inv m' (upds f n pages) k mx) -> Q (w', rc, k) m') ->
  rg present eq (guar only mx) (sqlite3WalFrames_index w n pages) Q m.
Proof.
  revert w f n m. induction pages as [|p pages IH]; intros w f n m Hn Hlen Hp Hwl Emx H0 HW Ho HQ;
    cbn [sqlite3WalFrames_index].
  { apply rg_done. intros m' <-. apply HQ; [done|]. intros _. cbn. by replace (n + Z.of_nat 0) with n by lia. }
  inversion_clear Hp as [|? ? Hp0 Hps]. cbn [length] in *. rg_bind.
  apply walIndexAppend_rg with (f := f) (mx := mx); try done; try lia. intros w1 rc m1 Hw1 _ H1.
  case_decide as Hrc.
  - subst rc. cbn [negb]. apply IH with (f := upd f (n + 1) p); try done; try lia.
    + destruct (maps_more_fields w w1 Hw1) as [_ ->]. done.
    + rewrite (mm_rest _ _ Hw1). by destruct w.
    + by apply (mm_mapped _ _ Hw1).
    + intros _. apply (no_leftover_next _ (upd f (n + 1) p) _ mx); [lia|lia| |done]. pose proof (wi_mx _ _ _ _ HW). lia.
    + intros w' rc k m' Hw' Hk. apply HQ; [by transitivity w1|]. intros Hok. destruct (Hk Hok) as [-> HWk].
      cbn [upds]. split; [lia|done].
  - rewrite (proj2 (Z.eqb_neq _ _)) by done. cbn [negb]. apply rg_done. intros m' <-. apply HQ; [done|]. done.
Qed.

(** A commit: the header counts the frames of the transaction. *)
Lemma writer_commit m f n mx : writer_inv m f n mx -> writer_inv m f n n.
Proof. intros [W1 W2 W3 W4]. split; [done| |lia|done]. intros pg Hp Hl. destruct (W2 pg Hp Hl) as (J & HJ & _). exists J. split; [done|lia]. Qed.

(** The empty index. *)
Lemma writer_empty f : writer_inv ∅ f 0 0.
Proof.
  assert (Hl : forall pg, 0 <= pg -> lim pg 0 = 0) by (intros pg Hp; pose proof (first_nonneg pg Hp); unfold lim; lia).
  split; [|intros pg Hp; rewrite Hl by done; lia|lia|lia]. intros pg Hp. split; rewrite Hl by done; try (intros; lia).
  intros k Hk. unfold slot_at. rewrite rd_empty. pose proof (cap_range pg). lia.
Qed.

(** ** Readers beside a writer *)

(** A connection in a read transaction, whose snapshot is not after [n]. *)
Record reader_ok (present : Z -> Prop) (only : bool) (n : Z) (w : Wal) (pgno : Z) : Prop := {
  ro_mx : 1 <= mxFrame (hdr w) <= n;
  ro_min : 1 <= minFrame w < 2 ^ 31;
  ro_page : 0 < pgno;
  ro_lock : 0 < readLock w;
  ro_map : mapped w 0 = true;
  ro_present pg : 0 <= pg <= walFramePage (mxFrame (hdr w)) -> can_map present w pg;
  ro_only : only = true \/ first (walFramePage (mxFrame (hdr w))) < minFrame w }.

Definition reader (r : Wal * Z) : prog (Wal * Z * Z) := sqlite3WalFindFrame r.1 r.2.

Definition reader_spec (only : bool) (f : Z -> Z) (m : mem) (r : Wal * Z) : thread_spec (Wal * Z * Z) :=
  mkSpec (rely only (mxFrame (hdr r.1))) (fun _ _ => False)
    (fun res _ => search_result only f (mxFrame (hdr r.1)) r.1 r.2 m res).

Lemma reader_thread present only f n m r :
  n < 2 ^ 31 -> index_ok m f n -> reader_ok present only n r.1 r.2 ->
  thread_ok present m (reader_spec only f m r) (reader r).
Proof.
  intros Hn Hok [R1 R2 R3 R4 R5 R6 R7]. unfold thread_ok, reader. cbn.
  assert (Hok' : index_ok m f (mxFrame (hdr r.1))) by (apply (index_ok_le m f n); [lia|done]).
  apply FindFrame_rg with (f := f); try done; lia.
Qed.

(** The writer's thread, with the frames [pages] after frame [n]. *)
Definition writer_spec (only : bool) (w : Wal) (f : Z -> Z) (n : Z) (pages : list Z) : thread_spec (Wal * Z * Z) :=
  mkSpec eq (guar only (mxFrame (hdr w)))
    (fun '(w', rc, k) m' => maps_more w w' /\
       (rc = SQLITE_OK -> k = n + Z.of_nat (length pages) /\ writer_inv m' (upds f n pages) k (mxFrame (hdr w)))).

Lemma system_compatible only f n w pages m readers :
  Forall (fun r : Wal * Z => 1 <= mxFrame (hdr r.1) <= mxFrame (hdr w)) readers ->
  compatible (writer_spec only w f n pages :: (reader_spec only f m <$> readers)).
Proof.
  intros Hr. split.
  - intros [|i] s Hs; [injection Hs as <-; cbn; apply _|]. cbn in Hs. apply list_lookup_fmap_Some in Hs as (r & -> & _).
    cbn. apply _.
  - intros i j s s' Hs Hs' Hne m1 m2 HG. destruct i as [|i]; cbn in Hs.
    + injection Hs as <-. destruct j as [|j]; [done|]. cbn in Hs'. apply list_lookup_fmap_Some in Hs' as (r & -> & Hj).
      cbn in *. apply HG. by eapply Forall_lookup_1 in Hr.
    + apply list_lookup_fmap_Some in Hs as (r & -> & _). destruct HG.
Qed.

(** C27: Readers beside a writer.  While a writer enters the frames of a transaction
    in the index, one access at a time, any number of readers search it: whatever the
    interleaving, no assert fails; a search that returns SQLITE_OK gives the last frame of the page
    in the reader's snapshot, or 0 when there is none; it does return SQLITE_OK when
    the reader has mapped the pages and the tables have room; and when the writer is
    done, the index lists the new frames after the old ones.  With [only = false],
    entries that a dead writer left may be removed meanwhile, for readers whose snapshot
    starts inside the last table. *)
Theorem find_frame_concurrent present only w f n pages readers m m' ps' :
  0 <= n -> n + Z.of_nat (length pages) + 1 < 2 ^ 31 -> Forall (fun p => 0 < p) pages ->
  writeLock w = true -> mapped w 0 = true -> writer_inv m f n (mxFrame (hdr w)) -> (only = true -> no_leftover m n) ->
  Forall (fun r => reader_ok present only (mxFrame (hdr w)) r.1 r.2) readers ->
  steps present (m, sqlite3WalFrames_index w n pages :: (reader <$> readers)) (m', ps') ->
  (forall p, ps' !! 0%nat = Some p -> p <> Stuck /\
     forall w' rc k, p = Done (w', rc, k) -> rc = SQLITE_OK ->
       k = n + Z.of_nat (length pages) /\ writer_inv m' (upds f n pages) k (mxFrame (hdr w))) /\
  (forall i wr pgno p, readers !! i = Some (wr, pgno) -> ps' !! S i = Some p -> p <> Stuck /\
     forall w' rc r, p = Done (w', rc, r) ->
       (rc = SQLITE_OK -> is_last_frame f (mxFrame (hdr wr)) pgno (minFrame wr) r) /\
       (only = true -> all_mapped (mxFrame (hdr wr)) wr -> all_free (mxFrame (hdr wr)) m -> rc = SQLITE_OK)).
Proof.
  intros Hn Hlen Hp Hwl H0 HW Ho Hrd Hst. pose proof (wi_mx _ _ _ _ HW) as Hmx.
  set (ss := writer_spec only w f n pages :: (reader_spec only f m <$> readers)).
  assert (Hc : compatible ss).
  { apply system_compatible. eapply Forall_impl; [exact Hrd|]. intros r Hr. by apply Hr. }
  assert (Hth : Forall2 (thread_ok present m) ss (sqlite3WalFrames_index w n pages :: (reader <$> readers))).
  { constructor.
    - unfold thread_ok. cbn. apply frames_index_rg with (f := f); try done.
    - apply Forall2_fmap, Forall_Forall2_diag. eapply Forall_impl; [exact Hrd|]. intros r Hr.
      eapply reader_thread; [|by apply (wi_index _ _ _ _ HW)|]; [lia|].
      destruct Hr as [R1 R2 R3 R4 R5 R6 R7]. split; try done. lia. }
  split.
  - intros p Hp'. destruct (steps_safe present ss m _ m' ps' 0 (writer_spec only w f n pages) p Hc Hth Hst) as [Hs HQ]; [done..|].
    split; [done|]. intros w' rc k -> Hok. by apply (HQ (w', rc, k)).
  - intros i wr pgno p Hi Hp'.
    destruct (steps_safe present ss m _ m' ps' (S i) (reader_spec only f m (wr, pgno)) p Hc Hth Hst) as [Hs HQ]; [|done|].
    { apply list_lookup_fmap_Some. by exists (wr, pgno). }
    split; [done|]. intros w' rc r ->. specialize (HQ _ eq_refl). cbn in HQ. tauto.
Qed.

(** ** The linear search *)

Section linear.
Context (m : mem) (f : Z -> Z) (n : Z).
Hypothesis Hok : index_ok m f n.
Hypothesis Hn31 : n < 2 ^ 31.

Lemma walFramePgno_run w i : 1 <= i <= n -> run (walFramePgno w i) m = Some (f i, m).
Proof.
  intros Hi. set (pg := walFramePage i). destruct (proj1 (walFramePage_spec i pg ltac:(lia)) eq_refl) as [Hp Hr].
  pose proof (tbl_pgno _ _ _ _ (Hok pg Hp) (i - first pg) ltac:(unfold lim; lia)) as Ht.
  replace (first pg + (i - first pg)) with i in Ht by lia. rewrite walFramePgno_eq by lia. cbn. by rewrite <- Ht.
Qed.

Lemma linear_run w pgno fuel i :
  0 <= i <= n -> Z.to_nat i = fuel -> 1 <= minFrame w ->
  exists r, run (sqlite3WalFindFrame_linear fuel w pgno i) m = Some (r, m) /\ is_last_frame f i pgno (minFrame w) r.
Proof.
  revert i. induction fuel as [|fuel IH]; intros i Hi Hf Hm; cbn.
  { exists 0. split; [done|]. left. split; [done|lia]. }
  destruct ((minFrame w <=? i) && (0 <? i)) eqn:E; bool_to_prop.
  - rewrite run_bind, walFramePgno_run by lia. cbn. destruct (f i =? pgno) eqn:Ef; bool_to_prop.
    + exists i. split; [done|]. right. split; [lia|]. split; [done|lia].
    + destruct (IH (i - 1)) as (r & Hr & Hl); [lia|lia|done|]. exists r. split; [done|].
      destruct Hl as [[-> Hl]|(Hl1 & Hl2 & Hl3)]; [left|right]; (split; [lia|]).
      * intros j Hj. destruct (decide (j = i)) as [->|]; [done|apply Hl; lia].
      * split; [done|]. intros j Hj. destruct (decide (j = i)) as [->|]; [done|apply Hl3; lia].
  - exists 0. split; [done|]. left. split; [done|]. destruct E; bool_to_prop; lia.
Qed.
End linear.

Lemma is_last_unique f n pgno minF r r' :
  1 <= minF -> is_last_frame f n pgno minF r -> is_last_frame f n pgno minF r' -> r = r'.
Proof.
  intros Hm [[-> H]|(H1 & H2 & H3)] [[-> H']|(H1' & H2' & H3')]; [done| | |].
  - exfalso. by apply (H r').
  - exfalso. by apply (H' r).
  - destruct (Z.lt_trichotomy r r') as [Hlt|[->|Hlt]]; [exfalso; apply (H3 r')|done|exfalso; apply (H3' r)]; (done || lia).
Qed.

(** C31: Equivalence with the linear search.  On an index that lists the log [f] up to
    the reader's last frame, the search through the hash tables returns SQLITE_OK, the
    frame that the linear search of the source's own check finds, and leaves memory
    unchanged. *)
Theorem find_frame_linear w f n pgno m :
  n = mxFrame (hdr w) -> 1 <= n < 2 ^ 31 -> 1 <= minFrame w < 2 ^ 31 -> 0 < pgno -> 0 < readLock w ->
  index_ok m f n -> all_mapped n w -> all_free n m ->
  exists w' r, run (sqlite3WalFindFrame w pgno) m = Some ((w', SQLITE_OK, r), m) /\
    run (sqlite3WalFindFrame_linear (Z.to_nat n) w pgno n) m = Some (r, m) /\
    is_last_frame f n pgno (minFrame w) r.
Proof.
  intros En Hn Hm Hp Hl Hok Hmap Hfree.
  assert (Hp0 : 0 <= walFramePage n) by (rewrite walFramePage_eq by lia; apply Z.div_pos; lia).
  assert (Hrg : rg (fun _ => True) eq (fun _ _ => False) (sqlite3WalFindFrame w pgno)
    (fun res _ => search_result true f n w pgno m res) m).
  { apply (rg_weaken _ (rely true n)); [by intros ?? ->|].
    apply FindFrame_rg with (f := f); try done; [apply Hmap; lia|by intros; left|by left]. }
  destruct (rg_run _ _ _ _ _ Hrg) as ([[w' rc] r] & m' & Hrun & Hres & Hlast & Hrc).
  rewrite (rg_no_store _ _ _ _ _ _ _ _ Hrg Hrun) in Hrun. rewrite Hrc in * by done.
  destruct (linear_run m f n Hok ltac:(lia) w pgno (Z.to_nat n) n) as (r' & Hr' & Hl'); [lia|done|lia|].
  exists w', r. split; [done|]. specialize (Hlast eq_refl). split; [|done].
  assert (r' = r) as -> by (apply (is_last_unique f n pgno (minFrame w)); [lia|done|done]). done.
Qed.

(** ** Rolling back *)

(** C32: Rolling back to a savepoint.  [sqlite3WalSavepointUndo] sets the end of the
    log back to the frame of the savepoint and restores the checksum; the index then
    lists exactly the frames up to it, and the next frame can be appended as after a
    transaction.  On the way, each of its stores keeps the page numbers and hash slots
    of the frames up to the savepoint as they are, and clears only slots of later
    frames ([guar]).  That is a property of the memory, not of a reader: a search that
    reads a slot before and after a rollback can be misled (see [find_frame_race]). *)
Theorem savepoint_undo_correct present w f n mx d0 d1 d2 m :
  writeLock w = true -> mxFrame (hdr w) = n -> 0 <= d0 <= n -> n < 2 ^ 31 -> writer_inv m f n mx ->
  (1 <= d0 -> mapped w (walFramePage d0) = true) ->
  rg present eq (guar false d0) (sqlite3WalSavepointUndo w (d0, d1, d2, nCkpt w))
    (fun '(w', a, rc) m' =>
       rc = SQLITE_OK /\ a = (d0, d1, d2, nCkpt w) /\ mxFrame (hdr w') = d0 /\ writer_inv m' f d0 (Z.min mx d0) /\
       aFrameCksum (hdr w') = (if d0 <? n then (d1, d2) else aFrameCksum (hdr w)) /\ (d0 < n -> no_leftover m' d0)) m.
Proof.
  intros Hwl Emx Hd Hn HW Hmap. unfold sqlite3WalSavepointUndo. pose proof (wi_mx _ _ _ _ HW) as Hmx.
  apply rg_insist; [done|]. rewrite Emx. rewrite Z.eqb_refl. cbn [negb orb].
  apply rg_insist; [apply Z.leb_le; lia|]. destruct (d0 <? n) eqn:Hlt; bool_to_prop.
  2: { assert (d0 = n) as -> by lia. apply rg_done. intros m' <-. rewrite Z.min_l by lia. split_and!; (done || (intros; lia)). }
  rg_bind. set (w1 := set_hdr w _). destruct (decide (d0 = 0)) as [->|Hd0].
  { unfold walCleanupHash. apply rg_insist; [done|]. cbn. intros m' <- m1 <-. rewrite Z.min_r by lia.
    split_and!; try done; [by apply (writer_zero m f n mx)|]. intros _. by left. }
  destruct (proj1 (walFramePage_spec d0 (walFramePage d0) ltac:(lia)) eq_refl) as [Hp Hr].
  set (pg := walFramePage d0) in *.
  destruct (wi_full _ _ _ _ HW pg Hp ltac:(unfold lim; lia)) as (J & HJ & _). pose proof (ft_range _ _ _ _ HJ) as HJr.
  assert (Hcap : forall k, 0 <= k < HASHTABLE_NSLOT -> slot_at m pg k <= cap pg).
  { intros k Hk. pose proof (ft_slot _ _ _ _ HJ k Hk). lia. }
  apply (walCleanupHash_rg present (guar false d0) w1 d0 pg); try done; [lia|by apply Hmap; lia| | |].
  - intros m' i Hi. apply guar_word; [pose proof (lim_range pg d0); lia|]. intros c Hc. pose proof (lim_mono pg c d0 ltac:(lia)). lia.
  - intros m' k Hk Hs. apply guar_slot. intros c Hc. pose proof (lim_mono pg c d0 ltac:(lia)). apply rely_store_slot; [lia|lia|by left|done|].
    intros _. apply free_store_zero.
  - intros m' Hcl m1 <-.
    assert (HW' : writer_inv m' f d0 d0) by (by apply (cleaned_inv m m' f n mx d0); [done|lia|lia|]).
    split_and!; try done.
    + destruct HW' as [W1 W2 W3 W4]. split; [done| |lia|done]. intros pg' Hp' Hl'. destruct (decide (pg' = pg)) as [->|Hne].
      * exists (lim pg d0). split; [|done]. by apply (cleaned_full m m' pg n J d0); [|lia|lia| |].
      * destruct (W2 pg' Hp' Hl') as (J' & HJ' & _). exists J'. split; [done|]. intros Hlt'.
        pose proof (ft_range _ _ _ _ HJ') as Hr'.
        assert (Hfull : lim pg' d0 = cap pg'); [|lia].
        unfold lim in *. destruct (decide (first pg' + cap pg' <= d0)); [lia|].
        exfalso. apply Hne. symmetry. unfold pg. apply walFramePage_spec; lia.
    + intros _. unfold no_leftover. set (pg1 := walFramePage (d0 + 1)). destruct (decide (d0 + 1 - first pg1 = 1)) as [|Hi]; [by left|right].
      destruct (proj1 (walFramePage_spec (d0 + 1) pg1 ltac:(lia)) eq_refl) as [Hp1 Hr1].
      assert (pg1 = pg) as -> by (symmetry; unfold pg; apply walFramePage_spec; lia).
      rewrite (cl_pgno _ _ _ _ Hcl) by lia. rewrite (proj2 (Z.ltb_lt _ _)); [done|]. unfold lim. lia.
Qed.
