(* ===== verification/WalHeader.v ===== *)
(** The header of the wal-index (src/sqlite-src-3280000/src/wal.c): the checksum, and
    the two copies of the header, written in one order and read in the other. *)
From S2P Require Import Prelude SharedMem WalIndex.

(** ** Checksums *)

Definition BYTESWAP32 (x : Z) : Z :=
  wrap_u 32 (Z.shiftl (Z.land x 0x000000FF) 24 + Z.shiftl (Z.land x 0x0000FF00) 8
    + Z.shiftr (Z.land x 0x00FF0000) 8 + Z.shiftr (Z.land x 0xFF000000) 24).

(** The loop over the words of [aData], two at a time. *)
Fixpoint walChecksumBytes_loop (nativeCksum : bool) (aData : list Z) (s1 s2 : Z) : Z * Z :=
  match aData with
  | x0 :: x1 :: aData =>
      let x0 := if nativeCksum then x0 else BYTESWAP32 x0 in
      let x1 := if nativeCksum then x1 else BYTESWAP32 x1 in
      let s1 := wrap_u 32 (s1 + (x0 + s2)) in
      let s2 := wrap_u 32 (s2 + (x1 + s1)) in
      walChecksumBytes_loop nativeCksum aData s1 s2
  | _ => (s1, s2)
  end.

(** [aData] is the content as 32-bit words; [None] where an assert on the size fails. *)
Definition walChecksumBytes (nativeCksum : bool) (aData : list Z) (aIn : option (Z * Z)) : option (Z * Z) :=
  let nByte := 4 * Z.of_nat (length aData) in
  let '(s1, s2) := default (0, 0) aIn in
  if (8 <=? nByte) && (Z.land nByte 7 =? 0) && (nByte <=? 65536) then
    Some (walChecksumBytes_loop nativeCksum aData s1 s2)
  else None.

(** ** The header in memory *)

(** The 48 bytes of the structure as twelve words; [isInit], [bigEndCksum] and [szPage]
    share one. *)
Definition hdr_words (h : WalIndexHdr) : list Z :=
  [iVersion h; unused h; iChange h; isInit h + 2 ^ 8 * bigEndCksum h + 2 ^ 16 * szPage16 h;
   mxFrame h; nPage h; (aFrameCksum h).1; (aFrameCksum h).2; (aSalt h).1; (aSalt h).2; (aCksum h).1; (aCksum h).2].

Definition words_hdr (ws : list Z) : WalIndexHdr :=
  let x (i : nat) := default 0 (ws !! i) in
  mkHdr (x 0%nat) (x 1%nat) (x 2%nat) (x 3%nat mod 2 ^ 8) (x 3%nat / 2 ^ 8 mod 2 ^ 8) (x 3%nat / 2 ^ 16)
    (x 4%nat) (x 5%nat) (x 6%nat, x 7%nat) (x 8%nat, x 9%nat) (x 10%nat, x 11%nat).

(** The first word of [aHdr[i]]. *)
Definition aHdr (i : Z) : Z := 12 * i.

(** [memcpy] between the header and shared memory, word by word. *)
Fixpoint load_words (n : nat) (i : Z) : prog (list Z) :=
  match n with
  | O => Done []
  | S n => x ← load (Word 0 i); ws ← load_words n (i + 1); Done (x :: ws)
  end.

Fixpoint store_words (ws : list Z) (i : Z) : prog unit :=
  match ws with
  | [] => Done ()
  | x :: ws => _ ← store (Word 0 i) x; store_words ws (i + 1)
  end.

(** ** The checkpoint information *)

Definition READMARK_NOT_USED : Z := 0xffffffff.

(** The fields of [WalCkptInfo], after the two copies of the header; words 30 and 31 are
    reserved for the locks. *)
Definition nBackfill : cell := Word 0 24.
Definition aReadMark (i : Z) : cell := Word 0 (25 + i).
Definition nBackfillAttempted : cell := Word 0 32.

(** Field [mxFrame] of the first copy of the header. *)
Definition shm_mxFrame : cell := Word 0 (aHdr 0 + 4).

Definition walCkptInfo {A} (w : Wal) (p : prog A) : prog A := insist ((0 <? nWiData w) && mapped w 0) p.

(** ** Writing and reading *)

Definition set_aCksum (h : WalIndexHdr) (c : Z * Z) : WalIndexHdr :=
  mkHdr (iVersion h) (unused h) (iChange h) (isInit h) (bigEndCksum h) (szPage16 h) (mxFrame h) (nPage h)
    (aFrameCksum h) (aSalt h) c.

Definition set_init (h : WalIndexHdr) : WalIndexHdr :=
  mkHdr WALINDEX_MAX_VERSION (unused h) (iChange h) 1 (bigEndCksum h) (szPage16 h) (mxFrame h) (nPage h)
    (aFrameCksum h) (aSalt h) (aCksum h).

(** The header with its checksum, over the ten words before [aCksum]. *)
Definition sealed (h : WalIndexHdr) : option WalIndexHdr :=
  c ← walChecksumBytes true (take 10 (hdr_words (set_init h))) None; Some (set_aCksum (set_init h) c).

(** The barrier between the copies has no access of its own. *)
Definition walIndexWriteHdr (w : Wal) : prog Wal :=
  insist (writeLock w)
    match sealed (hdr w) with
    | Some h =>
        _ ← store_words (hdr_words h) (aHdr 1);
        _ ← store_words (hdr_words h) (aHdr 0);
        Done (set_hdr w h)
    | None => Stuck
    end.

Definition set_szPage (w : Wal) (sz : Z) : Wal :=
  mkWal (apWiData w) sz (readLock w) (exclusiveMode w) (writeLock w) (ckptLock w) (readOnly w)
    (bShmUnreliable w) (hdr w) (minFrame w) (iReCksum w) (nCkpt w)
    (truncateOnCommit w) (iCallback w) (mxWalSize w) (syncHeader w) (padToSectorBoundary w).

(** Whether the header was bad, the connection, and whether [*pChanged] was set. *)
Definition walIndexTryHdr (w : Wal) : prog (bool * Wal * bool) :=
  insist ((0 <? nWiData w) && mapped w 0)
    (h1 ← load_words 12 (aHdr 0);
     h2 ← load_words 12 (aHdr 1);
     if negb (bool_decide (h1 = h2)) then Done (true, w, false) else
     if isInit (words_hdr h1) =? 0 then Done (true, w, false) else
     match walChecksumBytes true (take 10 h1) None with
     | None => Stuck
     | Some c =>
         if negb (bool_decide (c = aCksum (words_hdr h1))) then Done (true, w, false) else
         if negb (bool_decide (hdr_words (hdr w) = h1)) then
           let h := words_hdr h1 in
           Done (false, set_szPage (set_hdr w h)
             (Z.land (szPage16 h) 0xfe00 + Z.shiftl (Z.land (szPage16 h) 1) 16), true)
         else Done (false, w, false)
     end).

(** ** Committing *)

(** A page size as 16 bits: 65536 becomes 1. *)
Definition szPage_u16 (szPage : Z) : Z := wrap_u 16 (Z.lor (Z.land szPage 0xff00) (Z.shiftr szPage 16)).

Definition set_committed (h : WalIndexHdr) (isCommit : bool) (szPage iFrame nTruncate : Z) : WalIndexHdr :=
  mkHdr (iVersion h) (unused h) (if isCommit then wrap_u 32 (iChange h + 1) else iChange h) (isInit h) (bigEndCksum h)
    (szPage_u16 szPage) iFrame
    (if isCommit then nTruncate else nPage h) (aFrameCksum h) (aSalt h) (aCksum h).

(** The end of [sqlite3WalFrames], from the index on; [pages] are those appended to the
    log.  The result has the code and, on a commit, the value given to [iCallback]. *)
Definition sqlite3WalFrames_finish (w : Wal) (szPage nTruncate : Z) (isCommit : bool) (pages : list Z)
    : prog (Wal * Z * option Z) :=
  '(w, rc, iFrame) ← sqlite3WalFrames_index w (mxFrame (hdr w)) pages;
  if negb (rc =? SQLITE_OK) then Done (w, rc, None) else
  let w := set_hdr w (set_committed (hdr w) isCommit szPage iFrame nTruncate) in
  if isCommit then w ← walIndexWriteHdr w; Done (w, SQLITE_OK, Some iFrame)
  else Done (w, SQLITE_OK, None).
