(* ===== verification/WalLocks.v ===== *)
(** The locks of the wal-index (src/sqlite-src-3280000/src/wal.c).

    The VFS keeps eight lock bytes, each shared by any number of connections or held by
    one; [sqlite3OsShmLock] is its [xShmLock], by what the interface promises: a lock is
    refused with SQLITE_BUSY while another connection holds one that excludes it, any
    error may be reported instead, and a release succeeds.  (The kernel may refuse to
    release a lock, and wal.c does not look at the result; the lock is then held on, as
    [UnixShmSystem] shows, which this interface leaves out.) *)
From S2P Require Import Prelude SharedMem WalIndex.

Definition WAL_WRITE_LOCK : Z := 0.
Definition WAL_CKPT_LOCK : Z := 1.
Definition WAL_RECOVER_LOCK : Z := 2.
Definition WAL_READ_LOCK (i : Z) : Z := 3 + i.
Definition SQLITE_SHM_NLOCK : Z := 8.
Definition WAL_NREADER : Z := SQLITE_SHM_NLOCK - 3.

(** ** The interface of the VFS *)

(** The [n] bytes from [ofst] on get the value [v], if all have the value [u]. *)
Fixpoint change_locks (n : nat) (ofst u v : Z) (m : mem) : option mem :=
  match n with
  | O => Some m
  | S n => if rd m (Lck ofst) =? u then change_locks n (ofst + 1) u v (<[Lck ofst := v]> m) else None
  end.

Definition lock_shared (ofst : Z) (m : mem) : option mem :=
  if 0 <=? rd m (Lck ofst) then Some (<[Lck ofst := rd m (Lck ofst) + 1]> m) else None.
Definition unlock_shared (ofst : Z) (m : mem) : option mem := Some (<[Lck ofst := rd m (Lck ofst) - 1]> m).

(** An attempt to lock; [Ask] is an error of the VFS, or 0. *)
Definition shm_lock (f : mem -> option mem) : prog Z :=
  Ask (fun e => if e =? SQLITE_OK then Try f (fun b => Done (if b then SQLITE_OK else SQLITE_BUSY)) else Done e).
Definition shm_unlock (f : mem -> option mem) : prog unit := Try f (fun _ => Done ()).

(** ** The functions of wal.c *)

Definition walLockShared (w : Wal) (lockIdx : Z) : prog Z :=
  if negb (exclusiveMode w =? 0) then Done SQLITE_OK else shm_lock (lock_shared lockIdx).

Definition walUnlockShared (w : Wal) (lockIdx : Z) : prog unit :=
  if negb (exclusiveMode w =? 0) then Done () else shm_unlock (unlock_shared lockIdx).

Definition walLockExclusive (w : Wal) (lockIdx : Z) (n : nat) : prog Z :=
  if negb (exclusiveMode w =? 0) then Done SQLITE_OK else shm_lock (change_locks n lockIdx 0 (-1)).

Definition walUnlockExclusive (w : Wal) (lockIdx : Z) (n : nat) : prog unit :=
  if negb (exclusiveMode w =? 0) then Done () else shm_unlock (change_locks n lockIdx (-1) 0).

(** [xBusy] is the number of times that the busy handler will still ask for another
    attempt, 0 if there is none; what is left of it is returned with the code. *)
Fixpoint walBusyLock (xBusy : nat) (w : Wal) (lockIdx : Z) (n : nat) : prog (Z * nat) :=
  rc ← walLockExclusive w lockIdx n;
  match xBusy with
  | S xBusy' => if rc =? SQLITE_BUSY then walBusyLock xBusy' w lockIdx n else Done (rc, xBusy)
  | O => Done (rc, O)
  end.
