(* ===== verification/UnixShmSystem.v ===== *)
(** Several processes with one shared-memory file: in every interleaving of their system
    calls the locks of [unixShmLock] exclude each other, the file is never truncated
    under a mapping, and the locks are those that [WalLocks] takes for granted.

    The kernel's locks are the interface [PosixLocks]; the size of the file is all that is
    kept of its contents.  Each process runs one function of [UnixShm] at a time, and
    every system call is one step. *)
From S2P Require Import Prelude SharedMem WalIndex WalLocks UnixLock LockInvariant LockSystem UnixShm UnixShmSpec.

(** ** Operations *)

Inductive sop :=
  | SLock (j ofst n flags : Z)
  | SMap (j iRegion sz : Z) (bExtend : bool)
  | SUnmap (j : Z).

(** A code, the region that was asked for, and the node. *)
Abbreviation outcome := (Z * option ptr * option unixShmNode)%type.

Inductive proc :=
  | Idle (s : option unixShmNode)
  | Busy (s : option unixShmNode) (o : sop) (pg : prog outcome).

(** The connections of a process: those of the last state that it has reached. *)
Definition view (pr : proc) : list (Z * unixShm) :=
  match pr with
  | Idle s => state_conns s
  | Busy _ _ (Ret (_, _, s)) => state_conns s
  | Busy s _ _ => state_conns s
  end.

(** ** Quiet programs

    Mapping and closing leave the lock bytes of the connections alone.  [U]: the program
    may use the byte [UNIX_SHM_DMS]; [F]: it may close the file. *)
Fixpoint quiet {A} (U F : Prop) (pg : prog A) : Prop :=
  match pg with
  | Ret _ => True
  | Setlk fl k => U /\ (forall i, 0 <= i < UnixShm.SQLITE_SHM_NLOCK -> in_flock fl (UNIX_SHM_BASE + i) = false) /\ forall e, quiet U F (k e)
  | Getlk _ k => forall e t, quiet U F (k e t)
  | Truncate _ k => U /\ forall b, quiet U F (k b)
  | FileSize k => forall s, quiet U F (k s)
  | WriteByte _ k => forall b, quiet U F (k b)
  | Mmap _ _ k => forall b, quiet U F (k b)
  | CloseFd k => F /\ quiet U F k
  | Unlink k => quiet U F k
  | Environ k => forall v, quiet U F (k v)
  | Crash => True
  end.

Lemma quiet_bind {A B} U F (p : prog A) (f : A -> prog B) : quiet U F p -> (forall a, quiet U F (f a)) -> quiet U F (p ≫= f).
Proof.
  intros Hp Hf. induction p as [a|fl k IH|fl k IH|s k IH|k IH|o k IH|l o k IH|k IH|k IH|k IH|]; cbn in *; try naive_solver.
Qed.

Lemma quiet_assert {A} U F b (p : prog A) : quiet U F p -> quiet U F (assert b p).
Proof. by destruct b. Qed.

Lemma quiet_mono {A} (U F U' F' : Prop) (p : prog A) : (U -> U') -> (F -> F') -> quiet U F p -> quiet U' F' p.
Proof.
  intros HU HF. induction p as [a|fl k IH|fl k IH|s k IH|k IH|o k IH|l o k IH|k IH|k IH|k IH|]; cbn; naive_solver.
Qed.

Lemma dms_range t i : 0 <= i < UnixShm.SQLITE_SHM_NLOCK -> in_flock (mkFlock t UNIX_SHM_DMS 1) (UNIX_SHM_BASE + i) = false.
Proof.
  intros Hi. unfold in_flock, UNIX_SHM_DMS. cbn [l_start l_len]. apply andb_false_iff. left. apply Z.leb_gt. lia.
Qed.

Lemma quiet_dms n t : quiet True False (unixShmSystemLock n t UNIX_SHM_DMS 1).
Proof.
  unfold unixShmSystemLock. do 2 apply quiet_assert. destruct (0 <=? hShm n); [|done]. cbn [quiet]. split; [done|].
  split; [|done]. intros i Hi. by apply dms_range.
Qed.

Lemma quiet_unixLockSharedMemory n : quiet True False (unixLockSharedMemory n).
Proof.
  unfold unixLockSharedMemory. cbn [quiet]. intros e t. apply quiet_bind.
  - destruct (negb (e =? 0)); [done|]. case_decide.
    + destruct (isReadonly n); [done|]. apply quiet_bind; [apply quiet_dms|]. intros rc. destruct (rc =? _); [|done]. by cbn.
    + by case_decide.
  - intros [rc n']. destruct (rc =? _); [|done]. apply quiet_bind; [apply quiet_dms|]. done.
Qed.

Lemma quiet_unixShmPurge n : quiet False True (unixShmPurge n).
Proof. destruct n as [n|]; [|done]. unfold unixShmPurge. destruct (nRef n =? 0); [|done]. by destruct (0 <=? hShm n). Qed.

Lemma quiet_open_node : quiet True False (unixOpenSharedMemory_node false).
Proof.
  unfold unixOpenSharedMemory_node. cbn [quiet]. intros v. case_match; [done|]. cbn [quiet]. intros v1. case_match; [done|]. cbn [quiet].
  intros v2. case_match; [done|]. cbn [quiet]. intros v3 v4 v5. cbn zeta. case_match; [done|].
  apply quiet_bind; [apply quiet_unixLockSharedMemory|]. by intros [rc n].
Qed.

Lemma quiet_open j s : quiet (s = None) (s = None) (unixOpenSharedMemory false j s).
Proof.
  unfold unixOpenSharedMemory. cbn [quiet]. intros mem. destruct (mem =? 0); [done|]. destruct s as [n|]; [done|].
  apply quiet_bind; [apply (quiet_mono True False); [done..|apply quiet_open_node]|]. intros [[rc node] err]. destruct err; [|by destruct node].
  apply quiet_bind; [apply (quiet_mono False True); [done..|apply quiet_unixShmPurge]|done].
Qed.

(** ** Mapping *)

Section quiet_map.
Context (pgsz : Z).

Lemma quiet_map fuel n nReq : quiet False False (unixShmMap_map pgsz fuel n nReq).
Proof.
  revert n. induction fuel as [|fuel IH]; intros n; [done|]. cbn [unixShmMap_map]. destruct (nRegion n <? nReq); [|done].
  destruct (0 <=? hShm n); cbn [quiet].
  - intros [|]; [apply IH|done].
  - intros v. destruct (v =? 0); [done|apply IH].
Qed.

Lemma quiet_extend k iPg : quiet False False (unixShmMap_extend k iPg).
Proof. revert iPg. induction k as [|k IH]; intros iPg; [done|]. cbn. intros [|]; [apply IH|done]. Qed.

Lemma quiet_file n b nByte : quiet False False (unixShmMap_file n b nByte).
Proof.
  unfold unixShmMap_file. destruct (0 <=? hShm n); [|done]. cbn. intros [sz|]; [|done]. destruct (sz <? nByte); [|done].
  destruct (negb b); [done|]. apply quiet_assert, quiet_bind; [apply quiet_extend|by intros [|]].
Qed.

Lemma quiet_regions n iRegion sz b : quiet False False (unixShmMap_regions pgsz n iRegion sz b).
Proof.
  unfold unixShmMap_regions. cbn zeta. destruct (_ <? _); [|done]. apply quiet_assert, quiet_bind; [apply quiet_file|].
  intros [rc out]. destruct out; [done|]. cbn [quiet]. intros mem. destruct (mem =? 0); [done|apply quiet_map].
Qed.

(** A node that is locked already is not locked again. *)
Definition may_lock (s : option unixShmNode) : Prop := match s with Some n => isUnlocked n = true | None => True end.

Lemma quiet_unixShmMap_rest n iRegion sz b :
  quiet (isUnlocked n = true) False
    ('(rc, n) ←
        (if isUnlocked n then
           '(rc, n) ← unixLockSharedMemory n;
           Ret (rc, if rc =? UnixLock.SQLITE_OK then set_unlocked n false else n)
         else Ret (UnixLock.SQLITE_OK, n));
      '(rc, n) ←
        (if negb (rc =? UnixLock.SQLITE_OK) then Ret (rc, n) else
         assert ((sz =? szRegion n) || (nRegion n =? 0))
           (assert (eqb (0 <=? hShm n) (negb false)) (unixShmMap_regions pgsz n iRegion sz b)));
      let '(rc, pp, n) := unixShmMap_out rc n iRegion in Ret (rc, pp, Some n)).
Proof.
  apply quiet_bind.
  - destruct (isUnlocked n) eqn:E; [|done]. apply quiet_bind; [apply (quiet_mono True False); [done..|apply quiet_unixLockSharedMemory]|by intros [rc n']].
  - intros [rc n']. apply quiet_bind.
    + destruct (negb _); [done|]. do 2 apply quiet_assert. apply (quiet_mono False False); [done..|apply quiet_regions].
    + intros [rc' n'']. by destruct (unixShmMap_out rc' n'' iRegion) as [[??]?].
Qed.

Lemma quiet_unixShmMap j s iRegion sz b :
  quiet (may_lock s) (s = None) (unixShmMap pgsz false j s iRegion sz b).
Proof.
  unfold unixShmMap. destruct s as [n|].
  - destruct (bool_decide _).
    + cbn [mbind shm_prog_bind pbind]. apply (quiet_mono (isUnlocked n = true) False); [done..|]. apply quiet_unixShmMap_rest.
    + unfold unixOpenSharedMemory. cbn [mbind shm_prog_bind pbind quiet]. intros mem. destruct (mem =? 0); [done|]. cbn [pbind].
      apply (quiet_mono (isUnlocked n = true) False); [done..|].
      exact (quiet_unixShmMap_rest (set_conns n (nRef n + 1) ((j, mkShm 0 0) :: pFirst n)) iRegion sz b).
  - destruct (bool_decide _) eqn:Hb; [apply bool_decide_eq_true in Hb as [? [=]]|]. apply quiet_bind.
    + apply (quiet_mono (@None unixShmNode = None) (@None unixShmNode = None)); [done..|apply quiet_open].
    + intros [rc s]. destruct (negb _); [done|]. destruct s as [n|]; [|done].
      apply (quiet_mono (isUnlocked n = true) False); [done..|]. apply quiet_unixShmMap_rest.
Qed.

Lemma quiet_unixShmUnmap j s : quiet False (forall n, s = Some n -> nRef n = 1) (unixShmUnmap j s false).
Proof.
  destruct s as [n|]; [|done]. unfold unixShmUnmap. destruct (bool_decide _); [|done]. apply quiet_assert. cbn zeta. cbn [nRef set_conns].
  destruct (Z.eqb_spec (nRef n - 1) 0); [|done]. apply quiet_bind; [|done]. cbn [andb].
  apply (quiet_mono False True); [done| |apply quiet_unixShmPurge]. intros _ n0 [= <-]. lia.
Qed.
End quiet_map.

(** ** The system *)

Section system.
Context {L : Type} `{K : PosixLocks L} {KOk : PosixLocksOk L}.

(** The size of the pages of the system. *)
Context (pgsz : Z).

(** What wal.c and the pager guarantee of their calls.  ([walUnlockShared] and
    [walUnlockExclusive] do not look at the result: a connection whose release the
    kernel refused takes its lock for released.  What it asks for after that, against
    [legal], is not covered.) *)
Definition sop_ok (s : option unixShmNode) (o : sop) : Prop :=
  match o with
  | SLock j ofst n flags => exists node p, s = Some node /\ conn (pFirst node) j = Some p /\ range_ok ofst n /\ legal p ofst n flags
  | SMap j iRegion sz bExtend => map_ok pgsz iRegion sz /\ forall n, s = Some n -> sz = szRegion n \/ nRegion n = 0
  | SUnmap j => forall n p, s = Some n -> conn (pFirst n) j = Some p -> forall i, 0 <= i -> shared p i = false /\ excl p i = false
  end.

Definition sop_prog (s : option unixShmNode) (o : sop) : prog outcome :=
  match o with
  | SLock j ofst n flags =>
      match s with
      | Some node => '(rc, node) ← unixShmLock false node j ofst n flags; Ret (rc, None, Some node)
      | None => Crash
      end
  | SMap j iRegion sz bExtend => unixShmMap pgsz false j s iRegion sz bExtend
  | SUnmap j => '(rc, s) ← unixShmUnmap j s false; Ret (rc, None, s)
  end.

Record sys := mkSys { kern : L; fsize : Z; procs : gmap Z proc }.

(** Truncating or writing may fail, and so may asking for the size. *)
Inductive step : sys -> sys -> Prop :=
  | step_start l fs ps p s o :
      ps !! p = Some (Idle s) -> sop_ok s o -> step (mkSys l fs ps) (mkSys l fs (<[p := Busy s o (sop_prog s o)]> ps))
  | step_setlk l fs ps p s o fl k e l' :
      ps !! p = Some (Busy s o (Setlk fl k)) -> k_setlk l p fl = (e, l') ->
      step (mkSys l fs ps) (mkSys l' fs (<[p := Busy s o (k e)]> ps))
  | step_getlk l fs ps p s o fl k e t :
      ps !! p = Some (Busy s o (Getlk fl k)) -> k_getlk l p fl = (e, t) ->
      step (mkSys l fs ps) (mkSys l fs (<[p := Busy s o (k e t)]> ps))
  | step_truncate l fs ps p s o size k (ok : bool) :
      ps !! p = Some (Busy s o (Truncate size k)) ->
      step (mkSys l fs ps) (mkSys l (if ok then size else fs) (<[p := Busy s o (k ok)]> ps))
  | step_size l fs ps p s o k r :
      ps !! p = Some (Busy s o (FileSize k)) -> (r = None \/ r = Some fs) ->
      step (mkSys l fs ps) (mkSys l fs (<[p := Busy s o (k r)]> ps))
  | step_write l fs ps p s o off k (ok : bool) :
      ps !! p = Some (Busy s o (WriteByte off k)) ->
      step (mkSys l fs ps) (mkSys l (if ok then Z.max fs (off + 1) else fs) (<[p := Busy s o (k ok)]> ps))
  | step_mmap l fs ps p s o len off k (ok : bool) :
      ps !! p = Some (Busy s o (Mmap len off k)) -> step (mkSys l fs ps) (mkSys l fs (<[p := Busy s o (k ok)]> ps))
  | step_close l fs ps p s o k :
      ps !! p = Some (Busy s o (CloseFd k)) -> step (mkSys l fs ps) (mkSys (k_close l p) fs (<[p := Busy s o k]> ps))
  | step_environ l fs ps p s o k v :
      ps !! p = Some (Busy s o (Environ k)) -> step (mkSys l fs ps) (mkSys l fs (<[p := Busy s o (k v)]> ps))
  | step_return l fs ps p s o rc pp s' :
      ps !! p = Some (Busy s o (Ret (rc, pp, s'))) -> step (mkSys l fs ps) (mkSys l fs (<[p := Idle s']> ps)).

(** At first no process has the file open. *)
Definition initial (st : sys) : Prop :=
  0 <= fsize st /\ (forall p pr, procs st !! p = Some pr -> pr = Idle None) /\ forall p, held_eq (k_held (kern st) p) no_locks.

(** A process may be killed at any time; the kernel closes its file. *)
Inductive dies : sys -> sys -> Prop :=
  | dies_intro l fs ps p pr : ps !! p = Some pr -> dies (mkSys l fs ps) (mkSys (k_close l p) fs (<[p := Idle None]> ps)).

Definition reachable (st : sys) : Prop := exists st0, initial st0 /\ rtc (fun a b => step a b \/ dies a b) st0 st.

(** ** The invariant *)

Definition op_post (s : option unixShmNode) (o : sop) (r : outcome) (hd : held) (lb : Z) : Prop :=
  match o with
  | SLock _ _ _ _ => state_ok pgsz r.2 hd lb
  | SMap j iRegion sz bExtend => map_post pgsz s iRegion sz bExtend r hd lb
  | SUnmap j => r.1.1 = UnixLock.SQLITE_OK /\ state_ok pgsz r.2 hd lb /\ same_weights s r.2
  end.

(** An operation on locks waits for the kernel, or is done. *)
Inductive locking (s : option unixShmNode) (j ofst n flags : Z) (hd : held) (lb : Z) : prog outcome -> Prop :=
  | locking_call node p fl k :
      s = Some node -> state_ok pgsz s hd lb -> conn (pFirst node) j = Some p -> range_ok ofst n -> legal p ofst n flags ->
      grantable (pFirst node) flags ofst n -> fl = mkFlock (kind flags) (ofst + UNIX_SHM_BASE) n ->
      k 0 = Ret (UnixLock.SQLITE_OK, None, Some (set_conns node (nRef node) (set_conn (pFirst node) j (relock flags ofst n p)))) ->
      (forall e, e <> 0 -> k e = Ret (UnixLock.SQLITE_BUSY, None, s)) ->
      locking s j ofst n flags hd lb (Setlk fl k)
  | locking_done rc s' : locking s j ofst n flags hd lb (Ret (rc, None, s')).

(** What the process has mapped is in the file, and is guarded. *)
Definition covers (s : option unixShmNode) (hd : held) (lb : Z) : Prop :=
  forall n, s = Some n -> regions_ok pgsz n /\ nRegion n * szRegion n <= lb /\ (isUnlocked n = false -> hd UNIX_SHM_DMS = F_RDLCK) /\
    (isUnlocked n = true -> nRegion n = 0).

Definition stage (s : option unixShmNode) (o : sop) (pg : prog outcome) (hd : held) (lb : Z) : Prop :=
  match o with
  | SLock j ofst n flags => locking s j ofst n flags hd lb pg
  | SMap _ _ _ _ => quiet (may_lock s) (s = None) pg /\ covers s hd lb
  | SUnmap j => quiet False (forall i, 0 <= i < UnixShm.SQLITE_SHM_NLOCK -> lock_of (state_conns s) i = F_UNLCK) pg
  end.

Definition backed (l : list (Z * unixShm)) (hd : held) : Prop :=
  conns_ok l /\ forall i, 0 <= i < UnixShm.SQLITE_SHM_NLOCK -> hd (UNIX_SHM_BASE + i) = lock_of l i.

Definition proc_inv (pr : proc) (hd : held) (lb : Z) : Prop :=
  backed (view pr) hd /\
  match pr with
  | Idle s => state_ok pgsz s hd lb
  | Busy s o pg => wp pg (op_post s o) hd lb /\ stage s o pg hd lb
  end.

(** Each process may count on a size of the file, while it has a lock on the byte. *)
Record sys_inv (st : sys) : Prop := {
  si_procs p pr : procs st !! p = Some pr -> exists lb, 0 <= lb <= fsize st /\
    (k_held (kern st) p UNIX_SHM_DMS = F_UNLCK -> lb = 0) /\ proc_inv pr (k_held (kern st) p) lb;
  si_exclusive p q b : p <> q -> ~ conflicts (k_held (kern st) p b) (k_held (kern st) q b) }.

Lemma state_backed s hd lb : state_ok pgsz s hd lb -> backed (state_conns s) hd.
Proof.
  intros [_ H]. destruct s as [n|]; cbn [state_conns].
  - destruct H as [Hn _]. split; [apply (nd_conns _ _ _ _ Hn)|apply (nd_locks _ _ _ _ Hn)].
  - split; [split; [apply NoDup_nil_2|done]|]. intros i Hi. cbn. apply H. lia.
Qed.

Lemma backed_proper l hd hd' : held_eq hd hd' -> backed l hd -> backed l hd'.
Proof. intros He [H1 H2]. split; [done|]. intros i Hi. rewrite <- He. auto. Qed.

Lemma op_post_proper s o r hd hd' lb : held_eq hd hd' -> op_post s o r hd lb -> op_post s o r hd' lb.
Proof.
  intros He. destruct o as [j ofst n flags|j i sz b|j]; cbn [op_post].
  - by apply state_ok_proper.
  - destruct r as [[rc pp] s']. unfold map_post. intros (H & ?). split; [by eapply state_ok_proper|done].
  - intros (? & H & ?). split; [done|]. split; [by eapply state_ok_proper|done].
Qed.

Lemma op_post_state s o r hd lb : op_post s o r hd lb -> state_ok pgsz r.2 hd lb.
Proof. destruct o, r as [[??]?]; cbn; tauto. Qed.

Lemma covers_proper s hd hd' lb : held_eq hd hd' -> covers s hd lb -> covers s hd' lb.
Proof. intros He H n Hn. rewrite <- He. by apply H. Qed.

Lemma stage_proper s o pg hd hd' lb : held_eq hd hd' -> stage s o pg hd lb -> stage s o pg hd' lb.
Proof.
  intros He. destruct o; cbn [stage]; [|intros [? H]; split; [done|by eapply covers_proper]|done].
  intros [node p fl k H1 H2|]; [|constructor]. eapply locking_call; try done. by eapply state_ok_proper.
Qed.

Lemma shm_proc_inv_proper pr hd hd' lb : held_eq hd hd' -> proc_inv pr hd lb -> proc_inv pr hd' lb.
Proof.
  intros He [H1 H2]. split; [by eapply backed_proper|]. destruct pr as [s|s o pg]; [by eapply state_ok_proper|].
  destruct H2 as [H2 H3]. split; [|by eapply stage_proper]. eapply shm_wp_held_eq; [|exact He|exact H2]. intros. by eapply op_post_proper.
Qed.

(** The connections of a busy process. *)
Lemma view_busy s o pg : view (Busy s o pg) = match pg with Ret r => state_conns r.2 | _ => state_conns s end.
Proof. by destruct pg as [[[??]?]| | | | | | | | | |]. Qed.

Definition returned (pg : prog outcome) : Prop := match pg with Ret _ => True | _ => False end.

Lemma busy_intro s o pg hd lb :
  wp pg (op_post s o) hd lb -> (~ returned pg -> backed (state_conns s) hd) -> stage s o pg hd lb -> proc_inv (Busy s o pg) hd lb.
Proof.
  intros Hw Hb Hs. split; [|done]. rewrite view_busy. destruct pg; try (apply Hb; by intros []).
  cbn in Hw. eapply state_backed, op_post_state, Hw.
Qed.

(** An operation on locks starts. *)
Lemma start_lock node j p ofst n flags hd lb :
  state_ok pgsz (Some node) hd lb -> conn (pFirst node) j = Some p -> range_ok ofst n -> legal p ofst n flags ->
  locking (Some node) j ofst n flags hd lb (sop_prog (Some node) (SLock j ofst n flags)).
Proof.
  intros Hs Hj Hr Hl. destruct Hs as [H0 [Hn Href]]. cbn [sop_prog].
  destruct (unixShmLock_shape node j p ofst n flags (nd_conns _ _ _ _ Hn) Hj (nd_handle _ _ _ _ Hn) Hr Hl)
    as [E _ _|E _ _ _ _ _|k E Hg H1 H2 _]; rewrite E; cbn; [apply locking_done..|].
  eapply locking_call; try done; [by rewrite H1|]. intros e He. by rewrite H2.
Qed.

(** A state covers its own regions. *)
Lemma state_covers s hd lb : state_ok pgsz s hd lb -> covers s hd lb.
Proof.
  intros [_ H] n ->. destruct H as [Hn _]. split; [apply (nd_regions _ _ _ _ Hn)|]. split; [apply (nd_size _ _ _ _ Hn)|].
  pose proof (nd_dms _ _ _ _ Hn) as Hd. split; [by intros E; rewrite E in Hd|]. apply (nd_unlocked _ _ _ _ Hn).
Qed.

Lemma start_inv s o hd lb : state_ok pgsz s hd lb -> sop_ok s o -> proc_inv (Busy s o (sop_prog s o)) hd lb.
Proof.
  intros Hs Ho. apply busy_intro; [| |].
  - destruct o as [j ofst n flags|j iRegion sz b|j]; cbn [sop_ok] in Ho.
    + destruct Ho as (node & p & -> & Hj & Hr & Hl). cbn [sop_prog]. apply shm_wp_bind.
      eapply shm_wp_mono; [|by apply (wp_unixShmLock pgsz _ _ p)]. by intros [rc n'] ??.
    + destruct Ho as [Hm Hz]. by apply wp_unixShmMap.
    + cbn [sop_prog]. apply shm_wp_bind. eapply shm_wp_mono; [|by apply (wp_unixShmUnmap pgsz)]. by intros [rc s'] ??.
  - intros _. by eapply state_backed.
  - destruct o as [j ofst n flags|j iRegion sz b|j]; cbn [sop_ok] in Ho; cbn [stage].
    + destruct Ho as (node & p & -> & Hj & Hr & Hl). by eapply start_lock.
    + split; [apply quiet_unixShmMap|by apply state_covers].
    + cbn [sop_prog]. destruct s as [n|]; [|done]. destruct (decide (is_Some (conn (pFirst n) j))) as [[p Hj]|Hj].
      * apply quiet_bind; [|by intros []]. apply (quiet_mono False (forall n0, Some n = Some n0 -> nRef n0 = 1)); [done| |apply quiet_unixShmUnmap].
        intros H1 i Hi. specialize (H1 n eq_refl). destruct Hs as [_ [Hn _]]. rewrite (nd_ref _ _ _ _ Hn) in H1.
        specialize (Ho n p eq_refl Hj i ltac:(lia)). destruct Ho as [Ho1 Ho2]. cbn [state_conns].
        destruct (pFirst n) as [|[k q] [|]]; [done| |cbn in H1; lia]. cbn in Hj. destruct (k =? j); [|done]. injection Hj as ->.
        unfold lock_of, any. cbn. by rewrite Ho1, Ho2.
      * unfold unixShmUnmap. rewrite bool_decide_eq_false_2 by done. done.
Qed.

Lemma covers_le s hd lb lb' : covers s hd lb -> lb <= lb' -> covers s hd lb'.
Proof. intros H Hl n Hn. destruct (H n Hn) as (?&?&?&?). split_and!; [done|lia|done..]. Qed.

(** What is not yet locked has no regions. *)
Lemma covers_unlocked s hd lb hd' lb' : may_lock s -> covers s hd lb -> 0 <= lb' -> covers s hd' lb'.
Proof.
  intros Hm H H0 n Hn. destruct (H n Hn) as (H1&_&_&H4). rewrite Hn in Hm. cbn in Hm. rewrite Hm in *. rewrite (H4 eq_refl).
  split_and!; [done|lia|done|done].
Qed.

Lemma covers_bound s hd lb lb' : covers s hd lb -> lb <= lb' -> covers s hd (bound hd lb').
Proof.
  intros H Hl. unfold bound. case_decide as Hd; [|by apply (covers_le _ _ lb)]. intros n Hn. destruct (H n Hn) as (H1&H2&H3&H4).
  destruct (isUnlocked n) eqn:E; [rewrite (H4 eq_refl); by split_and!|]. rewrite (H3 eq_refl) in Hd. done.
Qed.

Lemma bound_zero hd lb : hd UNIX_SHM_DMS = F_UNLCK -> bound hd lb = 0.
Proof. intros H. unfold bound. by rewrite decide_True. Qed.

(** What a process may count on after one of its calls. *)
Definition counted (pr : proc) (hd : held) (fs : Z) : Prop :=
  exists lb, 0 <= lb <= fs /\ (hd UNIX_SHM_DMS = F_UNLCK -> lb = 0) /\ proc_inv pr hd lb.

Lemma counted_proper pr hd hd' fs : held_eq hd hd' -> counted pr hd fs -> counted pr hd' fs.
Proof. intros He (lb & H1 & H2 & H3). exists lb. rewrite <- (He UNIX_SHM_DMS). split; [done|]. split; [done|]. by eapply shm_proc_inv_proper. Qed.

(** A lock is granted. *)
Lemma setlk_granted s o fl k hd fs :
  counted (Busy s o (Setlk fl k)) hd fs -> counted (Busy s o (k 0)) (apply_lk hd fl) fs.
Proof.
  intros (lb & Hlb & H0 & Hb & Hw & Hs). cbn in Hw. destruct Hw as [Hw _]. set (hd' := apply_lk hd fl) in *.
  pose proof (bound_le hd' lb ltac:(lia)). exists (bound hd' lb). split; [lia|]. split; [apply bound_zero|].
  destruct o as [j ofst n flags|j iRegion sz b|j]; cbn [stage] in Hs.
  - inversion Hs as [node p fl0 k0 H1 H2 H3 H4 H5 H6 H7 H8 H9 Ek|]. subst. rewrite H8 in *.
    apply busy_intro; [done|by intros []|constructor].
  - destruct Hs as [(HU & Hr & Hq) Hc]. apply busy_intro; [done| |].
    + intros _. destruct Hb as [Hb1 Hb2]. split; [done|]. intros i Hi. rewrite <- Hb2 by done. unfold hd', apply_lk. by rewrite Hr.
    + split; [apply Hq|]. apply (covers_unlocked _ hd lb); [done..|lia].
  - destruct Hs as ([] & _).
Qed.

(** A lock is refused. *)
Lemma setlk_refused s o fl k e hd fs :
  e <> 0 -> counted (Busy s o (Setlk fl k)) hd fs -> counted (Busy s o (k e)) hd fs.
Proof.
  intros He (lb & Hlb & H0 & Hb & Hw & Hs). cbn in Hw. destruct Hw as [_ Hw]. specialize (Hw e He). exists lb. split; [done|]. split; [done|].
  apply busy_intro; [done| |].
  - intros _. exact Hb.
  - destruct o as [j ofst n flags|j iRegion sz b|j]; cbn [stage] in *.
    + inversion Hs as [node p fl0 k0 H1 H2 H3 H4 H5 H6 H7 H8 H9 Ek|]. subst. rewrite H9 by done. constructor.
    + destruct Hs as [(HU & Hr & Hq) Hc]. by split.
    + by destruct Hs as ([] & _).
Qed.

(** The other calls, but for closing. *)
Lemma call_next s o pg pg' hd lb lb' fs' :
  proc_inv (Busy s o pg) hd lb -> ~ returned pg -> 0 <= lb' <= fs' -> (hd UNIX_SHM_DMS = F_UNLCK -> lb' = 0) ->
  wp pg' (op_post s o) hd lb' ->
  (forall j ofst n flags, ~ locking s j ofst n flags hd lb pg) ->
  (forall U F, quiet U F pg -> quiet U F pg') -> (quiet (may_lock s) (s = None) pg -> covers s hd lb -> covers s hd lb') ->
  counted (Busy s o pg') hd fs'.
Proof.
  intros (Hb & _ & Hs) Hn Hlb H0 Hw Hl Hq Hc. exists lb'. split; [done|]. split; [done|]. apply busy_intro; [done| |].
  - intros _. rewrite view_busy in Hb. destruct pg; [by destruct Hn|done..].
  - destruct o as [j ofst n flags|j iRegion sz b|j]; cbn [stage] in *; [by destruct (Hl j ofst n flags)| |auto].
    destruct Hs as [Hs1 Hs2]. split; auto.
Qed.

Lemma close_next s o k hd fs : counted (Busy s o (CloseFd k)) hd fs -> counted (Busy s o k) no_locks fs.
Proof.
  intros (lb & Hlb & H0 & Hb & Hw & Hs). exists 0. split; [lia|]. split; [done|]. cbn in Hw. apply busy_intro; [done| |].
  - intros _. destruct Hb as [Hb1 Hb2]. split; [done|]. intros i Hi. unfold no_locks. symmetry.
    destruct o as [j ofst n flags|j iRegion sz b|j]; cbn [stage] in Hs; [inversion Hs| |destruct Hs as [Hf _]; auto].
    destruct Hs as [[-> _] _]. done.
  - destruct o as [j ofst n flags|j iRegion sz b|j]; cbn [stage] in *; [inversion Hs|by destruct Hs as [[-> ?] _]; split|by destruct Hs].
Qed.

(** Replacing one process; the file may only shrink under an exclusive lock. *)
Lemma shm_inv_update l l' fs fs' ps p pr :
  sys_inv (mkSys l fs ps) -> counted pr (k_held l' p) fs' ->
  (forall q, q <> p -> held_eq (k_held l' q) (k_held l q)) ->
  (forall q b, q <> p -> ~ conflicts (k_held l' p b) (k_held l q b)) ->
  fs <= fs' \/ k_held l' p UNIX_SHM_DMS = F_WRLCK ->
  sys_inv (mkSys l' fs' (<[p := pr]> ps)).
Proof.
  intros [Hps Hex] Hpr Ho Hc Hsz. cbn in Hps, Hex. split; cbn.
  - intros q pr'. destruct (decide (q = p)) as [->|Hne]; [rewrite lookup_insert_eq; by intros [= <-]|].
    rewrite lookup_insert_ne by done. intros Hq. apply (counted_proper _ (k_held l q)); [symmetry; auto|].
    destruct (Hps q pr' Hq) as (lb & H1 & H2 & H3). exists lb. split; [|done]. destruct Hsz as [|Hw]; [lia|].
    rewrite H2; [|specialize (Hc q UNIX_SHM_DMS Hne); unfold conflicts in Hc; rewrite Hw in Hc; destruct (k_held l q UNIX_SHM_DMS); naive_solver].
    destruct Hpr as (lb' & ? & _). lia.
  - assert (Hsym : forall t1 t2, conflicts t1 t2 -> conflicts t2 t1) by (unfold conflicts; naive_solver).
    intros q r b Hne. destruct (decide (q = p)) as [->|Hq].
    + rewrite (Ho r) by done. by apply Hc.
    + destruct (decide (r = p)) as [->|Hr]; [rewrite (Ho q) by done; intros ?%Hsym; by eapply Hc|].
      rewrite (Ho q), (Ho r) by done. auto.
Qed.

(** A call that changes neither locks nor the file. *)
Lemma plain_next l fs ps p s o pg pg' fs' :
  sys_inv (mkSys l fs ps) -> ps !! p = Some (Busy s o pg) -> fs <= fs' \/ k_held l p UNIX_SHM_DMS = F_WRLCK ->
  counted (Busy s o pg') (k_held l p) fs' -> sys_inv (mkSys l fs' (<[p := Busy s o pg']> ps)).
Proof.
  intros I Hp Hf Hc. eapply shm_inv_update; [exact I|done|done| |done]. intros q b Hq. by apply (si_exclusive _ I).
Qed.

Lemma shm_step_inv st st' : step st st' -> sys_inv st -> sys_inv st'.
Proof.
  intros Hs I. destruct Hs as [l fs ps p s o Hp Ho|l fs ps p s o fl k e l' Hp Hk|l fs ps p s o fl k e t Hp Hk|l fs ps p s o size k ok Hp
    |l fs ps p s o k r Hp Hr|l fs ps p s o off k ok Hp|l fs ps p s o len off k ok Hp|l fs ps p s o k Hp|l fs ps p s o k v Hp
    |l fs ps p s o rc pp s' Hp]; pose proof (si_procs _ I _ _ Hp) as Hc; cbn [kern fsize] in Hc.
  - eapply shm_inv_update; [exact I| |done|intros; by apply (si_exclusive _ I)|by left].
    destruct Hc as (lb & H1 & H2 & _ & H3). exists lb. split; [done|]. split; [done|]. by apply start_inv.
  - eapply shm_inv_update; [exact I| |intros; by eapply k_setlk_other| |by left].
    + destruct (decide (e = 0)) as [->|Hne].
      * eapply counted_proper; [symmetry; by apply k_setlk_granted|]. by apply setlk_granted.
      * eapply counted_proper; [symmetry; by eapply k_setlk_refused|]. by apply (setlk_refused _ _ fl).
    + intros q b Hq. destruct (decide (e = 0)) as [->|Hne].
      * rewrite (k_setlk_granted _ _ _ _ Hk b). unfold apply_lk. case_bool; [by eapply k_setlk_compatible|by apply (si_exclusive _ I)].
      * rewrite (k_setlk_refused _ _ _ _ _ Hk Hne b). by apply (si_exclusive _ I).
  - eapply plain_next; [done..|by left|]. destruct Hc as (lb & H1 & H2 & Hi). destruct (Hi) as (_ & Hw & _).
    eapply call_next; [exact Hi|by intros []|exact H1|done|apply Hw|intros * H; inversion H|by cbn|done].
  - destruct Hc as (lb & H1 & H2 & Hi). destruct (Hi) as (_ & (Hd & Hsz & Ht & Hf) & _). destruct ok.
    + eapply plain_next; [done..|by right|]. eapply (call_next _ _ _ _ _ _ (Z.min lb size)); [exact Hi|by intros []|lia|by rewrite Hd|done|intros * H; inversion H|by intros U F [_ H]|].
      intros [Hu _] Hco. apply (covers_unlocked _ (k_held l p) lb); [done..|lia].
    + eapply plain_next; [done..|by left|]. eapply call_next; [exact Hi|by intros []|exact H1|done|done|intros * H; inversion H|by intros U F [_ H]|done].
  - eapply plain_next; [done..|by left|]. destruct Hc as (lb & H1 & H2 & Hi). destruct (Hi) as (_ & (Hn & Hz) & _). destruct Hr as [->| ->].
    + eapply call_next; [exact Hi|by intros []|exact H1|done|done|intros * H; inversion H|by cbn|done].
    + pose proof (bound_le (k_held l p) fs ltac:(lia)).
      eapply (call_next _ _ _ _ _ _ (bound (k_held l p) fs)); [exact Hi|by intros []|lia|apply bound_zero|apply Hz; lia|intros * H0; inversion H0|by cbn|].
      intros _ Hco. apply (covers_bound _ _ lb); [done|lia].
  - destruct Hc as (lb & H1 & H2 & Hi). destruct (Hi) as (_ & (Ht & Hf) & _). destruct ok.
    + pose proof (bound_le (k_held l p) (Z.max lb (off + 1)) ltac:(lia)). eapply plain_next; [done..|left; lia|].
      eapply (call_next _ _ _ _ _ _ (bound (k_held l p) (Z.max lb (off + 1)))); [exact Hi|by intros []|lia|apply bound_zero|done|intros * H0; inversion H0|by cbn|].
      intros _ Hco. apply (covers_bound _ _ lb); [done|lia].
    + eapply plain_next; [done..|by left|]. eapply call_next; [exact Hi|by intros []|exact H1|done|done|intros * H; inversion H|by cbn|done].
  - eapply plain_next; [done..|by left|]. destruct Hc as (lb & H1 & H2 & Hi). destruct (Hi) as (_ & Hw & _).
    eapply call_next; [exact Hi|by intros []|exact H1|done|apply Hw|intros * H; inversion H|by cbn|done].
  - eapply shm_inv_update; [exact I| |intros; by apply k_close_other| |by left].
    + eapply counted_proper; [symmetry; apply k_close_self|]. by eapply close_next.
    + intros q b Hq. rewrite (k_close_self l p b). unfold conflicts, no_locks. naive_solver.
  - eapply plain_next; [done..|by left|]. destruct Hc as (lb & H1 & H2 & Hi). destruct (Hi) as (_ & Hw & _).
    eapply call_next; [exact Hi|by intros []|exact H1|done|apply Hw|intros * H; inversion H|by cbn|done].
  - eapply shm_inv_update; [exact I| |done|intros; by apply (si_exclusive _ I)|by left].
    destruct Hc as (lb & H1 & H2 & _ & H3 & _). exists lb. split; [done|]. split; [done|]. cbn in H3. apply op_post_state in H3.
    split; [by eapply state_backed|done].
Qed.

(** A process that has not opened the file. *)
Lemma counted_none fs : 0 <= fs -> counted (Idle None) no_locks fs.
Proof. intros H. exists 0. split; [lia|]. split; [done|]. assert (state_ok pgsz None no_locks 0) by (by split). split; [by eapply state_backed|done]. Qed.

Lemma shm_dies_inv st st' : dies st st' -> sys_inv st -> sys_inv st'.
Proof.
  intros Hd I. destruct Hd as [l fs ps p pr Hp]. destruct (si_procs _ I _ _ Hp) as (lb & Hlb & _). cbn in Hlb.
  eapply shm_inv_update; [exact I| |intros; by apply k_close_other| |by left].
  - eapply counted_proper; [symmetry; apply k_close_self|]. apply counted_none. lia.
  - intros q b Hq. rewrite (k_close_self l p b). unfold conflicts, no_locks. naive_solver.
Qed.

Lemma shm_initial_inv st : initial st -> sys_inv st.
Proof.
  intros (H0 & Hp & Hh). split.
  - intros p pr H. rewrite (Hp _ _ H). eapply counted_proper; [symmetry; apply Hh|by apply counted_none].
  - intros p q b _. unfold conflicts. rewrite (Hh p b), (Hh q b). unfold no_locks. naive_solver.
Qed.

Lemma shm_reachable_inv st : reachable st -> sys_inv st.
Proof.
  intros (st0 & H0 & Hs). apply shm_initial_inv in H0. induction Hs as [|st0 st1 st2 H1 _ IH]; [done|].
  apply IH. destruct H1; [by eapply shm_step_inv|by eapply shm_dies_inv].
Qed.

(** ** What follows *)

(** Between two processes the kernel decides. *)
Lemma views_exclude st p q pr pr' i :
  sys_inv st -> p <> q -> procs st !! p = Some pr -> procs st !! q = Some pr' -> 0 <= i < UnixShm.SQLITE_SHM_NLOCK ->
  ~ conflicts (lock_of (view pr) i) (lock_of (view pr') i).
Proof.
  intros I Hne Hp Hq Hi. destruct (si_procs _ I _ _ Hp) as (? & _ & _ & [_ H1] & _), (si_procs _ I _ _ Hq) as (? & _ & _ & [_ H2] & _).
  rewrite <- H1, <- H2 by done. by apply (si_exclusive _ I).
Qed.

Lemma view_ok st p pr : sys_inv st -> procs st !! p = Some pr -> conns_ok (view pr).
Proof. intros I Hp. by destruct (si_procs _ I _ _ Hp) as (? & _ & _ & [H _] & _). Qed.

(** What the regions of a process are; none while the last connection is closed. *)
Definition mappings (pr : proc) : option unixShmNode :=
  match pr with
  | Idle s => s
  | Busy s (SMap _ _ _ _) _ => s
  | Busy s (SLock _ _ _ _) (Ret (_, _, s')) => s'
  | Busy s (SLock _ _ _ _) _ => s
  | Busy _ (SUnmap _) _ => None
  end.

Lemma mappings_covered pr hd lb : proc_inv pr hd lb -> covers (mappings pr) hd lb.
Proof.
  intros [_ H]. destruct pr as [s|s [j ofst n flags|j iRegion sz b|j] pg]; cbn [mappings].
  - by apply state_covers.
  - destruct H as [Hw Hs]. cbn [stage] in Hs. inversion Hs as [node p fl k H1 H2|rc s' E]; subst; [by apply state_covers|].
    cbn in Hw. by apply state_covers.
  - apply H.
  - done.
Qed.

(** C20: The locks of [unixShmLock].  In every interleaving of the system calls of any
    number of processes, of which any may be killed, while one connection has an exclusive lock on one of the eight
    bytes, no other connection, of the same process or of another, has a lock on it; this
    holds too while operations are under way. *)
Theorem shm_locks_exclusive st p q pr pr' j k c c' i :
  reachable st -> procs st !! p = Some pr -> procs st !! q = Some pr' ->
  conn (view pr) j = Some c -> conn (view pr') k = Some c' -> (p, j) <> (q, k) ->
  0 <= i < UnixShm.SQLITE_SHM_NLOCK -> excl c i = true -> excl c' i = false /\ shared c' i = false.
Proof.
  intros I%shm_reachable_inv Hp Hq Hj Hk Hne Hi Hx. destruct (decide (p = q)) as [->|Hpq].
  - rewrite Hp in Hq. injection Hq as <-. destruct (cn_excl _ (view_ok _ _ _ I Hp) j k c c' i Hj Hk ltac:(lia) Hx) as [H1 H2].
    split; [|done]. apply H2. congruence.
  - pose proof (views_exclude _ _ _ _ _ i I Hpq Hp Hq Hi) as Hc. pose proof (view_ok _ _ _ I Hp) as Ho. pose proof (view_ok _ _ _ I Hq) as Ho'.
    rewrite (lock_of_w _ _ j c (cn_nodup _ Ho) Hj Hx) in Hc. pose proof (lock_of_cases (view pr') i (cn_nodup _ Ho')) as Hl.
    destruct (lock_of (view pr') i); [destruct Hc; by left..|]. by apply (Hl k).
Qed.

(** C21: The shared-memory file under its mappings.  Every region that a process has
    mapped is in its place in the file: the file is never shorter than the regions that
    any process has mapped, although the first process that opens the file truncates it.
    When a process is about to truncate, no process has a region. *)
Theorem shm_file_safe st p pr n :
  reachable st -> procs st !! p = Some pr -> mappings pr = Some n ->
  (forall i, 0 <= i < nRegion n -> exists off d, apRegion n !! Z.to_nat i = Some (Mapped off d) /\
     off + d = i * szRegion n /\ i * szRegion n + szRegion n <= fsize st) /\
  forall q s o size k, procs st !! q = Some (Busy s o (Truncate size k)) -> nRegion n = 0.
Proof.
  intros I%shm_reachable_inv Hp Hm. destruct (si_procs _ I _ _ Hp) as (lb & Hlb & _ & Hi).
  destruct (mappings_covered _ _ _ Hi n Hm) as ((Hlen & Hmod & Hr) & Hsz & Hd & Hu). split.
  - intros i Hi'. destruct (Hr i Hi') as (off & d & E & Eo). exists off, d. split; [done|]. split; [done|]. nia.
  - intros q s o size k Hq. destruct (isUnlocked n) eqn:En; [auto|]. specialize (Hd eq_refl).
    destruct (si_procs _ I _ _ Hq) as (lb' & _ & _ & _ & (Ht & _) & Hs). destruct (decide (p = q)) as [->|Hne]; [congruence|].
    pose proof (si_exclusive _ I p q UNIX_SHM_DMS Hne) as Hc. rewrite Hd, Ht in Hc. destruct Hc. by right.
Qed.

(** ** The locks of [WalLocks]

    One memory holds the lock bytes; a request is answered at one moment, by one of the
    actions of [WalLocks] if it is granted.  One that is answered SQLITE_BUSY does
    nothing; if it was to release a lock, the lock is held on. *)
Definition action (ofst n flags : Z) : mem -> option mem :=
  if negb (Z.land flags SQLITE_SHM_UNLOCK =? 0) then
    if negb (Z.land flags SQLITE_SHM_SHARED =? 0) then unlock_shared ofst else change_locks (Z.to_nat n) ofst (-1) 0
  else if negb (Z.land flags SQLITE_SHM_SHARED =? 0) then lock_shared ofst else change_locks (Z.to_nat n) ofst 0 (-1).

Inductive aproc :=
  | AIdle
  | AWait (ofst n flags : Z)
  | ADone (rc : Z).

Inductive astep : mem * gmap Z aproc -> mem * gmap Z aproc -> Prop :=
  | astep_call m ps p ofst n flags : ps !! p = Some AIdle -> astep (m, ps) (m, <[p := AWait ofst n flags]> ps)
  | astep_grant m m' ps p ofst n flags :
      ps !! p = Some (AWait ofst n flags) -> action ofst n flags m = Some m' -> astep (m, ps) (m', <[p := ADone UnixLock.SQLITE_OK]> ps)
  | astep_refuse m ps p ofst n flags :
      ps !! p = Some (AWait ofst n flags) -> astep (m, ps) (m, <[p := ADone UnixLock.SQLITE_BUSY]> ps)
  | astep_return m ps p rc : ps !! p = Some (ADone rc) -> astep (m, ps) (m, <[p := AIdle]> ps).

Definition abs_proc (pr : proc) : aproc :=
  match pr with
  | Busy _ (SLock _ _ _ _) (Ret (rc, _, _)) => ADone rc
  | Busy _ (SLock _ ofst n flags) _ => AWait ofst n flags
  | _ => AIdle
  end.

(** The locks of all processes on byte [i]. *)
Definition total (ps : gmap Z proc) (i : Z) : Z := map_fold (fun _ pr acc => conns_weight (view pr) i + acc) 0 ps.

(** The memory holds these counts, and is otherwise unchanged. *)
Definition locks_match (m0 m : mem) (ps : gmap Z proc) : Prop :=
  (forall i, 0 <= i < UnixShm.SQLITE_SHM_NLOCK -> rd m (Lck i) = total ps i) /\
  forall c, (forall i, c <> Lck i) -> m !! c = m0 !! c.

Lemma total_insert ps p pr pr' i :
  ps !! p = Some pr -> total (<[p := pr']> ps) i = total ps i - conns_weight (view pr) i + conns_weight (view pr') i.
Proof.
  intros Hp. unfold total. rewrite (map_fold_delete_L _ _ p pr ps) by (intros; lia || done).
  rewrite <- (insert_delete_eq ps p pr'). rewrite map_fold_insert_L by (apply lookup_delete_eq || (intros; lia)). lia.
Qed.

Lemma total_same ps p pr pr' i :
  ps !! p = Some pr -> conns_weight (view pr') i = conns_weight (view pr) i -> total (<[p := pr']> ps) i = total ps i.
Proof. intros Hp He. rewrite (total_insert _ _ pr) by done. lia. Qed.

(** If the other processes have no locks, or no exclusive ones. *)
Lemma total_others (P : Z -> Prop) ps p pr i :
  ps !! p = Some pr -> P 0 -> (forall x y, P x -> P y -> P (x + y)) ->
  (forall q pr', q <> p -> ps !! q = Some pr' -> P (conns_weight (view pr') i)) -> P (total ps i - conns_weight (view pr) i).
Proof.
  intros Hp H0 Ha H. unfold total. rewrite (map_fold_delete_L _ _ p pr ps) by (intros; lia || done).
  replace (_ + _ - _) with (map_fold (fun _ pr acc => conns_weight (view pr) i + acc) 0 (delete p ps)) by lia.
  assert (H' : forall q pr', delete p ps !! q = Some pr' -> P (conns_weight (view pr') i)).
  { intros q pr' [Hne Hq]%lookup_delete_Some. by apply (H q). }
  clear H Hp. revert H'. generalize (delete p ps) as m. intros m. induction m as [|q pr' m Hq IH] using map_ind; [done|].
  intros H. rewrite map_fold_insert_L by (done || (intros; lia)). apply Ha; [apply (H q), lookup_insert_eq|]. apply IH. intros r pr1 Hr. apply (H r).
  rewrite lookup_insert_ne; [done|]. intros ->. congruence.
Qed.

Lemma change_locks_spec k ofst u v m :
  (forall i, ofst <= i < ofst + Z.of_nat k -> rd m (Lck i) = u) ->
  exists m', change_locks k ofst u v m = Some m' /\
    (forall i, rd m' (Lck i) = if in_range ofst (Z.of_nat k) i then v else rd m (Lck i)) /\
    forall c, (forall i, c <> Lck i) -> m' !! c = m !! c.
Proof.
  revert ofst m. induction k as [|k IH]; intros ofst m H; cbn [change_locks].
  - exists m. split; [done|]. split; [|done]. intros i. unfold in_range. destruct (Z.leb_spec ofst i); cbn; [|done].
    by rewrite (proj2 (Z.ltb_ge _ _)) by lia.
  - rewrite H, Z.eqb_refl by lia. destruct (IH (ofst + 1) (<[Lck ofst := v]> m)) as (m' & E & H1 & H2).
    { intros i Hi. unfold rd. rewrite lookup_insert_ne by (intros [=]; lia). apply H. lia. }
    exists m'. split; [done|]. split; [|intros c Hc; rewrite H2, lookup_insert_ne by (done || intros <-; by eapply Hc); done].
    intros i. rewrite H1. unfold in_range. destruct (Z.eq_dec i ofst) as [->|Hne].
    + rewrite (proj2 (Z.leb_gt (ofst + 1) ofst)), (proj2 (Z.leb_le ofst ofst)), (proj2 (Z.ltb_lt ofst (ofst + Z.of_nat (S k)))) by lia.
      cbn. unfold rd. by rewrite lookup_insert_eq.
    + replace (ofst + 1 + Z.of_nat k) with (ofst + Z.of_nat (S k)) by lia. unfold rd. rewrite lookup_insert_ne by congruence.
      destruct (Z.leb_spec (ofst + 1) i), (Z.leb_spec ofst i); done || lia.
Qed.

Lemma conns_weight_free l i : NoDup l.*1 -> lock_of l i = F_UNLCK -> conns_weight l i = 0.
Proof.
  intros Hn Hl. pose proof (lock_of_cases l i Hn) as H. rewrite Hl in H. clear Hl. induction l as [|[k q] l IH]; [done|].
  cbn [fmap list_fmap fst] in Hn. apply NoDup_cons in Hn as [Hk Hn]. cbn [conns_weight]. rewrite IH; [|done|].
  - destruct (H k q) as [H1 H2]; [by cbn; rewrite Z.eqb_refl|]. unfold weight. by rewrite H1, H2.
  - intros k' q' Hq. apply (H k' q'). cbn. destruct (Z.eqb_spec k k') as [->|]; [|done]. apply conn_none in Hk. congruence.
Qed.

Lemma conns_weight_nonneg l i : NoDup l.*1 -> lock_of l i <> F_WRLCK -> 0 <= conns_weight l i.
Proof.
  intros Hn Hl. assert (Hx : any (fun p => excl p i) l = false) by (unfold lock_of in Hl; by destruct (any _ l)).
  clear Hl. induction l as [|[k q] l IH]; [done|]. cbn [fmap list_fmap fst] in Hn. apply NoDup_cons in Hn as [Hk Hn].
  cbn in Hx. apply orb_false_iff in Hx as [Hx1 Hx2]. cbn [conns_weight]. specialize (IH Hn Hx2). unfold weight. rewrite Hx1. destruct (shared q i); cbn; lia.
Qed.

Lemma conns_weight_excl l j c i :
  conns_ok l -> 0 <= i -> conn l j = Some c -> excl c i = true -> conns_weight l i = -1.
Proof.
  intros Hl Hi Hj Hx. pose proof (conns_weight_set l j c (mkShm 0 0) i (cn_nodup _ Hl) Hj) as Hw.
  assert (Hs : shared c i = false) by (by apply (cn_excl _ Hl j j c c i)).
  unfold weight in Hw. rewrite Hs, Hx in Hw. unfold shared, excl in Hw. cbn [sharedMask exclMask] in Hw. rewrite Z.bits_0 in Hw. cbn in Hw.
  rewrite conns_weight_free in Hw; [lia|rewrite set_conn_keys; apply Hl|].
  apply lock_of_u; [rewrite set_conn_keys; apply Hl|]. intros k q. rewrite (conn_set _ _ _ c) by done. destruct (Z.eqb_spec k j) as [->|Hne].
  - intros [= <-]. unfold shared, excl. cbn. by rewrite Z.bits_0.
  - intros Hk. destruct (cn_excl _ Hl j k c q i Hj Hk Hi Hx) as [H1 H2]. split; [|done]. apply H2. congruence.
Qed.

Lemma others_none st p pr i :
  sys_inv st -> procs st !! p = Some pr -> 0 <= i < UnixShm.SQLITE_SHM_NLOCK -> lock_of (view pr) i = F_WRLCK ->
  total (procs st) i = conns_weight (view pr) i.
Proof.
  intros I Hp Hi Hl. enough (total (procs st) i - conns_weight (view pr) i = 0) by lia.
  apply (total_others (fun x => x = 0) _ p); [done|done|lia|]. intros q pr' Hne Hq. apply conns_weight_free; [by eapply cn_nodup, view_ok|].
  pose proof (views_exclude _ _ _ _ _ i I (not_eq_sym Hne) Hp Hq Hi) as Hc. rewrite Hl in Hc. unfold conflicts in Hc.
  destruct (lock_of (view pr') i); naive_solver.
Qed.

Lemma others_shared st p pr i :
  sys_inv st -> procs st !! p = Some pr -> 0 <= i < UnixShm.SQLITE_SHM_NLOCK -> lock_of (view pr) i = F_RDLCK ->
  conns_weight (view pr) i <= total (procs st) i.
Proof.
  intros I Hp Hi Hl. enough (0 <= total (procs st) i - conns_weight (view pr) i) by lia.
  apply (total_others (fun x => 0 <= x) _ p); [done|done|lia|]. intros q pr' Hne Hq. apply conns_weight_nonneg; [by eapply cn_nodup, view_ok|].
  pose proof (views_exclude _ _ _ _ _ i I (not_eq_sym Hne) Hp Hq Hi) as Hc. rewrite Hl in Hc. unfold conflicts in Hc. naive_solver.
Qed.

(** Shared locks are one byte; the action changes it by [d]. *)
Lemma match_one m0 m ps p pr pr' ofst d :
  locks_match m0 m ps -> ps !! p = Some pr -> 0 <= ofst < UnixShm.SQLITE_SHM_NLOCK ->
  (forall i, 0 <= i < UnixShm.SQLITE_SHM_NLOCK -> conns_weight (view pr') i = conns_weight (view pr) i + if i =? ofst then d else 0) ->
  locks_match m0 (<[Lck ofst := rd m (Lck ofst) + d]> m) (<[p := pr']> ps).
Proof.
  intros [H1 H2] Hp Ho Hw. split.
  - intros i Hi. rewrite (total_insert _ _ pr), Hw, <- H1 by done. unfold rd at 1. destruct (Z.eqb_spec i ofst) as [->|Hne].
    + rewrite lookup_insert_eq. cbn. lia.
    + rewrite lookup_insert_ne by congruence. unfold rd. lia.
  - intros c Hc. rewrite lookup_insert_ne; [by apply H2|]. intros <-. by apply (Hc ofst).
Qed.

(** Exclusive locks are a range, all of whose bytes get the value [v]. *)
Lemma match_range m0 m ps p pr pr' ofst n u v :
  locks_match m0 m ps -> ps !! p = Some pr -> range_ok ofst n ->
  (forall i, ofst <= i < ofst + n -> total ps i = u) ->
  (forall i, 0 <= i < UnixShm.SQLITE_SHM_NLOCK -> conns_weight (view pr') i = conns_weight (view pr) i + if in_range ofst n i then v - u else 0) ->
  exists m', change_locks (Z.to_nat n) ofst u v m = Some m' /\ locks_match m0 m' (<[p := pr']> ps).
Proof.
  intros [H1 H2] Hp (R1 & R2 & R3) Hu Hw. destruct (change_locks_spec (Z.to_nat n) ofst u v m) as (m' & E & Hm1 & Hm2).
  { intros i Hi. rewrite H1 by lia. apply Hu. lia. }
  exists m'. split; [done|]. split; [|intros c Hc; rewrite Hm2 by done; auto]. intros i Hi. rewrite Hm1, (total_insert _ _ pr), Hw by done.
  rewrite Z2Nat.id by lia. destruct (in_range ofst n i) eqn:Er; [|rewrite H1 by done; lia]. apply in_range_spec in Er. rewrite Hu by done. lia.
Qed.

(** A request that is granted is the action. *)
Section grant.
Context (st : sys) (p j : Z) (pr pr' : proc) (node : unixShmNode) (c : unixShm) (ofst n flags : Z) (l' : L) (fs' : Z).
Hypothesis I : sys_inv st.
Hypothesis I' : sys_inv (mkSys l' fs' (<[p := pr']> (procs st))).
Hypothesis Hp : procs st !! p = Some pr.
Hypothesis Hv : view pr = pFirst node.
Hypothesis Hj : conn (pFirst node) j = Some c.
Hypothesis Hr : range_ok ofst n.
Hypothesis Hl : legal c ofst n flags.
Hypothesis Hg : grantable (pFirst node) flags ofst n.
Hypothesis Hv' : view pr' = set_conn (pFirst node) j (relock flags ofst n c).

Lemma weight_after i :
  0 <= i -> conns_weight (view pr') i = conns_weight (view pr) i + if in_range ofst n i then weight (relock flags ofst n c) i - weight c i else 0.
Proof.
  intros Hi. pose proof (view_ok _ _ _ I Hp) as Ho. rewrite Hv in Ho. rewrite Hv, Hv', (conns_weight_set _ _ c) by (done || apply Ho).
  destruct (in_range ofst n i) eqn:E; [lia|]. unfold weight. rewrite relock_shared, relock_excl, E by done. lia.
Qed.

Lemma grant_action m0 m : locks_match m0 m (procs st) -> exists m', action ofst n flags m = Some m' /\ locks_match m0 m' (<[p := pr']> (procs st)).
Proof.
  intros Hm. pose proof (view_ok _ _ _ I Hp) as Ho. rewrite Hv in Ho. pose proof weight_after as Hw. pose proof Hr as (R1 & R2 & R3).
  assert (Hi8 : forall i, ofst <= i < ofst + n -> 0 <= i < UnixShm.SQLITE_SHM_NLOCK) by lia.
  assert (Hone : forall i, n = 1 -> in_range ofst n i = (i =? ofst)).
  { intros i ->. unfold in_range. destruct (Z.leb_spec ofst i), (Z.ltb_spec i (ofst + 1)), (Z.eqb_spec i ofst); done || lia. }
  destruct Hl as [Hn Hs| |Hn Hs|Hx].
  - change (action _ _ _ m) with (lock_shared ofst m).
    assert (Hx : excl c ofst = false) by (apply (Hg j c ofst Hj); lia).
    assert (Hd : forall i, 0 <= i < UnixShm.SQLITE_SHM_NLOCK -> conns_weight (view pr') i = conns_weight (view pr) i + if i =? ofst then 1 else 0).
    { intros i Hi. rewrite Hw, Hone by lia. destruct (Z.eqb_spec i ofst) as [->|]; [|done].
      unfold weight. rewrite relock_shared, relock_excl by done. rewrite (proj2 (in_range_spec ofst n ofst)) by lia. cbn. rewrite Hs, Hx. change (kind _) with F_RDLCK. cbn. lia. }
    assert (Hlo : lock_of (view pr') ofst = F_RDLCK) by (rewrite Hv'; apply relock_r; done || lia).
    pose proof (others_shared _ _ pr' ofst I' (lookup_insert_eq _ _ _) (Hi8 ofst ltac:(lia)) Hlo) as Ht. cbn [procs] in Ht.
    rewrite (total_insert _ _ pr) in Ht by done.
    assert (0 <= conns_weight (view pr) ofst).
    { rewrite Hv. apply conns_weight_nonneg; [apply Ho|]. intros E. pose proof (lock_of_cases (pFirst node) ofst (cn_nodup _ Ho)) as H. rewrite E in H.
      destruct H as (k & q & Hk & Hq). rewrite (Hg k q ofst Hk ltac:(lia)) in Hq. done. }
    unfold lock_shared. destruct Hm as [Hm1 Hm2]. rewrite (proj2 (Z.leb_le 0 (rd m (Lck ofst)))) by (rewrite Hm1 by lia; lia).
    eexists. split; [done|]. apply (match_one _ _ _ _ pr); [done|done|lia|done].
  - change (action _ _ _ m) with (change_locks (Z.to_nat n) ofst 0 (-1) m). apply (match_range _ _ _ _ pr); [done..| |].
    + intros i Hi. assert (Hlo : lock_of (view pr') i = F_WRLCK) by (rewrite Hv'; by apply relock_w).
      pose proof (others_none _ _ pr' i I' (lookup_insert_eq _ _ _) (Hi8 i Hi) Hlo) as Ht. cbn [procs] in Ht. rewrite (total_insert _ _ pr) in Ht by done.
      enough (conns_weight (view pr) i = 0) by lia. rewrite Hv. apply conns_weight_free; [apply Ho|]. apply lock_of_u; [apply Ho|].
      intros k q Hk. exact (Hg k q i Hk Hi).
    + intros i Hi. rewrite Hw by lia. destruct (in_range ofst n i) eqn:Er; [|done]. pose proof (proj1 (in_range_spec _ _ _) Er) as Hi'.
      unfold weight. rewrite relock_shared, relock_excl, Er by (done || lia). change (kind _) with F_WRLCK. destruct (Hg j c i Hj Hi') as [-> ->]. cbn. lia.
  - change (action _ _ _ m) with (unlock_shared ofst m). unfold unlock_shared. eexists. split; [done|]. replace (rd m (Lck ofst) - 1) with (rd m (Lck ofst) + (-1)) by lia.
    apply (match_one _ _ _ _ pr); [done|done|lia|]. intros i Hi. rewrite Hw, Hone by lia. destruct (Z.eqb_spec i ofst) as [->|]; [|done].
    unfold weight. rewrite relock_shared, relock_excl by done. rewrite (proj2 (in_range_spec ofst n ofst)) by lia. change (kind _) with F_UNLCK. rewrite Hs.
    destruct (excl c ofst) eqn:Ex; [|done]. destruct (cn_excl _ Ho j j c c ofst Hj Hj ltac:(lia) Ex). congruence.
  - change (action _ _ _ m) with (change_locks (Z.to_nat n) ofst (-1) 0 m). apply (match_range _ _ _ _ pr); [done..| |].
    + intros i Hi. rewrite (others_none _ _ pr i I Hp (Hi8 i Hi)); rewrite Hv.
      * apply (conns_weight_excl _ j c); [done|lia|done|by apply Hx].
      * apply (lock_of_w _ _ j c); [apply Ho|done|by apply Hx].
    + intros i Hi. rewrite Hw by lia. destruct (in_range ofst n i) eqn:Er; [|done]. pose proof (proj1 (in_range_spec _ _ _) Er) as Hi'.
      unfold weight. rewrite relock_shared, relock_excl, Er by (done || lia). change (kind _) with F_UNLCK. rewrite (Hx i Hi').
      destruct (cn_excl _ Ho j j c c i Hj Hj ltac:(lia) (Hx i Hi')) as [-> _]. done.
Qed.
End grant.

(** *** The simulation *)

Lemma abs_insert (ps : gmap Z proc) p pr : abs_proc <$> <[p := pr]> ps = <[p := abs_proc pr]> (abs_proc <$> ps).
Proof. apply fmap_insert. Qed.

Lemma abs_lookup (ps : gmap Z proc) p pr : ps !! p = Some pr -> (abs_proc <$> ps) !! p = Some (abs_proc pr).
Proof. intros Hp. by rewrite lookup_fmap, Hp. Qed.

Lemma match_same m0 m ps p pr pr' :
  locks_match m0 m ps -> ps !! p = Some pr ->
  (forall i, 0 <= i -> conns_weight (view pr') i = conns_weight (view pr) i) -> locks_match m0 m (<[p := pr']> ps).
Proof. intros [H1 H2] Hp Hw. split; [|done]. intros i Hi. rewrite (total_same _ _ pr), H1 by (done || apply Hw; lia). done. Qed.

(** Mapping and closing do not change the locks. *)
Lemma weights_busy s o pg hd lb i :
  proc_inv (Busy s o pg) hd lb -> (forall j ofst n flags, o <> SLock j ofst n flags) -> 0 <= i ->
  conns_weight (view (Busy s o pg)) i = conns_weight (state_conns s) i.
Proof.
  intros (_ & Hw & _) Ho Hi. rewrite view_busy. destruct pg as [[[rc pp] s']| | | | | | | | | |]; try done. cbn in Hw.
  destruct o as [j ofst n flags|j iRegion sz b|j]; cbn in Hw; [by destruct (Ho j ofst n flags)| |].
  - destruct Hw as (_ & H & _). by apply H.
  - destruct Hw as (_ & _ & H). by apply H.
Qed.

Lemma busy_next l fs ps p s o pg l' fs' pg' m0 m :
  sys_inv (mkSys l fs ps) -> ps !! p = Some (Busy s o pg) -> sys_inv (mkSys l' fs' (<[p := Busy s o pg']> ps)) ->
  (forall j ofst n flags, o <> SLock j ofst n flags) -> locks_match m0 m ps ->
  rtc astep (m, abs_proc <$> ps) (m, abs_proc <$> <[p := Busy s o pg']> ps) /\ locks_match m0 m (<[p := Busy s o pg']> ps).
Proof.
  intros I Hp I' Ho Hm. destruct (si_procs _ I _ _ Hp) as (lb & _ & _ & Hi). destruct (si_procs _ I' p _ (lookup_insert_eq _ _ _)) as (lb' & _ & _ & Hi').
  split.
  - rewrite abs_insert, insert_id; [done|]. rewrite (abs_lookup _ _ _ Hp). f_equal. destruct o as [j ofst n flags| |]; [by destruct (Ho j ofst n flags)|done..].
  - apply (match_same _ _ _ _ (Busy s o pg)); [done..|]. intros i H0. by rewrite (weights_busy _ _ _ _ _ i Hi'), (weights_busy _ _ _ _ _ i Hi).
Qed.

(** Only the kernel's answer is awaited in an operation on locks. *)
Lemma lock_calls st p s o pg :
  sys_inv st -> procs st !! p = Some (Busy s o pg) -> (match pg with Ret _ | Setlk _ _ => False | _ => True end) ->
  forall j ofst n flags, o <> SLock j ofst n flags.
Proof.
  intros I Hp Hpg j ofst n flags ->. destruct (si_procs _ I _ _ Hp) as (lb & _ & _ & _ & _ & Hs). cbn in Hs. by inversion Hs; subst.
Qed.

(** A request is made, and perhaps answered at once. *)
Lemma lock_start l fs ps p s j ofst n flags m0 m :
  let pr := Busy s (SLock j ofst n flags) (sop_prog s (SLock j ofst n flags)) in
  sys_inv (mkSys l fs ps) -> ps !! p = Some (Idle s) -> sop_ok s (SLock j ofst n flags) -> sys_inv (mkSys l fs (<[p := pr]> ps)) ->
  locks_match m0 m ps ->
  exists m', rtc astep (m, abs_proc <$> ps) (m', abs_proc <$> <[p := pr]> ps) /\ locks_match m0 m' (<[p := pr]> ps).
Proof.
  intros pr I Hp (node & c & -> & Hj & Hr & Hl) I' Hm. destruct (si_procs _ I _ _ Hp) as (lb & _ & _ & _ & H0 & Hn & _).
  pose proof (abs_lookup _ _ _ Hp) as Ha. cbn [abs_proc] in Ha. rewrite abs_insert.
  pose proof (astep_call m _ p ofst n flags Ha) as Hcall. unfold pr in *. cbn [sop_prog] in *.
  destruct (unixShmLock_shape node j c ofst n flags (nd_conns _ _ _ _ Hn) Hj (nd_handle _ _ _ _ Hn) Hr Hl) as [E _ Hk|E Hg _ _ _ _|k E _ _ _ _];
    rewrite E in *; cbn [mbind shm_prog_bind pbind abs_proc] in *.
  - exists m. split; [|by apply (match_same _ _ _ _ (Idle (Some node)))]. eapply rtc_l; [exact Hcall|]. apply rtc_once.
    rewrite <- (insert_insert_eq (abs_proc <$> ps) p (ADone UnixLock.SQLITE_BUSY) (AWait ofst n flags)). eapply astep_refuse, lookup_insert_eq.
  - destruct (grant_action (mkSys l fs ps) p j (Idle (Some node)) _ node c ofst n flags l fs I I' Hp eq_refl Hj Hr Hl Hg eq_refl m0 m Hm) as (m' & Em & Hm').
    exists m'. split; [|exact Hm']. eapply rtc_l; [exact Hcall|]. apply rtc_once.
    rewrite <- (insert_insert_eq (abs_proc <$> ps) p (ADone UnixLock.SQLITE_OK) (AWait ofst n flags)). eapply astep_grant; [apply lookup_insert_eq|done].
  - exists m. split; [by apply rtc_once|by apply (match_same _ _ _ _ (Idle (Some node)))].
Qed.

(** The kernel answers. *)
Lemma lock_answer l fs ps p s j ofst n flags fl k e l' m0 m :
  let pr := Busy s (SLock j ofst n flags) (k e) in
  sys_inv (mkSys l fs ps) -> ps !! p = Some (Busy s (SLock j ofst n flags) (Setlk fl k)) -> k_setlk l p fl = (e, l') ->
  sys_inv (mkSys l' fs (<[p := pr]> ps)) -> locks_match m0 m ps ->
  exists m', rtc astep (m, abs_proc <$> ps) (m', abs_proc <$> <[p := pr]> ps) /\ locks_match m0 m' (<[p := pr]> ps).
Proof.
  intros pr I Hp Hk I' Hm. destruct (si_procs _ I _ _ Hp) as (lb & _ & _ & _ & _ & Hs). cbn [stage] in Hs.
  pose proof (abs_lookup _ _ _ Hp) as Ha. cbn [abs_proc] in Ha. rewrite abs_insert.
  inversion Hs as [node c fl0 k0 -> Hst Hj Hr Hl Hg Hfl Hk0 Hke E|]. subst fl0 k0. unfold pr in *.
  destruct (decide (e = 0)) as [->|Hne].
  - rewrite Hk0 in *. cbn [abs_proc].
    destruct (grant_action (mkSys l fs ps) p j _ _ node c ofst n flags l' fs I I' Hp eq_refl Hj Hr Hl Hg eq_refl m0 m Hm) as (m' & Em & Hm').
    exists m'. split; [|exact Hm']. apply rtc_once. by eapply astep_grant.
  - rewrite (Hke e Hne) in *. cbn [abs_proc]. exists m. split; [|by apply (match_same _ _ _ _ (Busy (Some node) (SLock j ofst n flags) (Setlk fl k)))].
    apply rtc_once. by eapply astep_refuse.
Qed.

Lemma shm_simulation st st' m0 m :
  sys_inv st -> step st st' -> locks_match m0 m (procs st) ->
  exists m', rtc astep (m, abs_proc <$> procs st) (m', abs_proc <$> procs st') /\ locks_match m0 m' (procs st').
Proof.
  intros I Hs Hm. pose proof (shm_step_inv _ _ Hs I) as I'.
  destruct Hs as [l fs ps p s o Hp Ho|l fs ps p s o fl k e l' Hp Hk|l fs ps p s o fl k e t Hp Hk|l fs ps p s o size k ok Hp
    |l fs ps p s o k r Hp Hr|l fs ps p s o off k ok Hp|l fs ps p s o len off k ok Hp|l fs ps p s o k Hp|l fs ps p s o k v Hp
    |l fs ps p s o rc pp s' Hp]; cbn [procs] in *;
    try (exists m; eapply busy_next; [exact I|exact Hp|exact I'|exact (lock_calls _ _ _ _ _ I Hp Logic.I)|done]).
  - destruct (si_procs _ I' p _ (lookup_insert_eq _ _ _)) as (lb' & _ & _ & Hi').
    destruct o as [j ofst n flags|j iRegion sz b|j]; [by apply (lock_start l fs)|..]; exists m.
    all: split; [rewrite abs_insert, insert_id; [done|by rewrite (abs_lookup _ _ _ Hp)]|]; apply (match_same _ _ _ _ (Idle s)); [done..|].
    all: intros i H0; by rewrite (weights_busy _ _ _ _ _ i Hi').
  - destruct o as [j ofst n flags|j iRegion sz b|j]; [by eapply lock_answer|..]; exists m; by eapply busy_next.
  - exists m. rewrite abs_insert. pose proof (abs_lookup _ _ _ Hp) as Ha. split; [|by apply (match_same _ _ _ _ (Busy s o (Ret (rc, pp, s'))))].
    destruct o as [j ofst n flags|j iRegion sz b|j]; cbn [abs_proc] in *; [apply rtc_once; by eapply astep_return|rewrite insert_id; done..].
Qed.

(** C19: The shared memory implements the locks of [WalLocks].  Start the processes, on
    a memory whose lock bytes are 0.  Whatever the processes do after that, there is an
    execution of the atomic locks with the same requests and answers: each request of
    [unixShmLock] that is answered SQLITE_OK has been, at one moment between its call and
    its return, the action of [lock_shared], [unlock_shared] or [change_locks] on the
    memory; and one that is answered SQLITE_BUSY has done nothing, be it a lock that
    another connection stands against or a call that the kernel refused, releases
    included.  Opening, mapping and closing do not touch the locks.  The lock bytes count
    the locks of all connections of all processes.  The requests are those of [sop_ok]:
    a connection asks for a shared lock that it does not have, and releases and closes
    by what it has. *)
Theorem shm_refines_locks st0 st m0 :
  initial st0 -> (forall i, 0 <= i < UnixShm.SQLITE_SHM_NLOCK -> rd m0 (Lck i) = 0) -> rtc step st0 st ->
  exists m, rtc astep (m0, abs_proc <$> procs st0) (m, abs_proc <$> procs st) /\ locks_match m0 m (procs st).
Proof.
  intros H0 Hm Hs. assert (Ht : forall i, total (procs st0) i = 0).
  { intros i. destruct H0 as (_ & Hp & _). revert Hp. generalize (procs st0) as ps. intros ps. induction ps as [|q pr ps Hq IH] using map_ind; [done|].
    intros Hp. unfold total. rewrite map_fold_insert_L by (done || (intros; lia)). fold (total ps i). rewrite IH.
    - rewrite (Hp q pr (lookup_insert_eq _ _ _)). done.
    - intros r pr1 Hr. apply (Hp r). rewrite lookup_insert_ne; [done|]. intros ->. congruence. }
  assert (Hm0 : locks_match m0 m0 (procs st0)) by (split; [intros i Hi; by rewrite Ht, Hm|done]). apply shm_initial_inv in H0.
  clear Hm Ht. revert Hm0. generalize m0 at 2 3. induction Hs as [|st0 st1 st2 H1 _ IH]; [eauto using rtc_refl|]. intros m Hm.
  destruct (shm_simulation _ _ _ _ H0 H1 Hm) as (m1 & Hr1 & Hm1). destruct (IH (shm_step_inv _ _ H1 H0) m1 Hm1) as (m2 & Hr2 & Hm2).
  exists m2. split; [by etransitivity|done].
Qed.

(** C23: A region of the wal-index.  However the system answers, [unixShmMap] does not
    fail an assert and leaves a good state.  If it yields a region, it is the part of the
    file of [sz] bytes at offset [iRegion * sz], and the file is at least that long; the
    code is then SQLITE_OK, or SQLITE_READONLY.  It yields none with SQLITE_OK only if the
    file was not to be extended.  The locks of the connections stay as they are. *)
Theorem unixShmMap_correct j s iRegion sz bExtend hd lb :
  state_ok pgsz s hd lb -> map_ok pgsz iRegion sz -> (forall n, s = Some n -> sz = szRegion n \/ nRegion n = 0) ->
  wp (unixShmMap pgsz false j s iRegion sz bExtend) (fun '(rc, pp, s') hd' lb' =>
    state_ok pgsz s' hd' lb' /\ same_weights s s' /\
    match pp with
    | Some q => (rc = UnixLock.SQLITE_OK \/ rc = UnixShm.SQLITE_READONLY) /\
        exists off d, q = Mapped off d /\ off + d = iRegion * sz /\ iRegion * sz + sz <= lb'
    | None => rc = UnixLock.SQLITE_OK -> bExtend = false
    end) hd lb.
Proof.
  intros Hs Hm Hz. eapply shm_wp_mono; [|by apply wp_unixShmMap]. intros [[rc pp] s'] hd' lb' (H1 & H2 & H3 & H4).
  split; [done|]. split; [done|]. destruct pp as [q|]; [by apply H3|by apply H4].
Qed.
End system.
