(* ===== verification/UnixShmWitnesses.v ===== *)
(** Concrete runs of the shared memory, on the kernel of [LockKernel], at which the
    theorems of [UnixShmSystem] apply. *)
From S2P Require Import Prelude SharedMem WalIndex WalLocks UnixLock LockInvariant LockSystem LockKernel UnixShm UnixShmSpec UnixShmSystem.

#[local] Instance shm_kernel : PosixLocks lock_log := log_locks UNIX_SHM_BASE 9 (fun _ _ => false).
#[local] Instance shm_kernel_ok : PosixLocksOk lock_log := log_locks_ok UNIX_SHM_BASE 9 _.

(** ** Playing operations *)

(** Calls on the file succeed; [env] answers the others. *)
Fixpoint play_prog (l : lock_log) (fs : Z) (env : list Z) (p : Z) (pg : prog outcome) : option (outcome * lock_log * Z) :=
  match pg with
  | Ret r => Some (r, l, fs)
  | Setlk fl k => let '(e, l') := k_setlk l p fl in play_prog l' fs env p (k e)
  | Getlk fl k => let '(e, t) := k_getlk l p fl in play_prog l fs env p (k e t)
  | Truncate size k => play_prog l size env p (k true)
  | FileSize k => play_prog l fs env p (k (Some fs))
  | WriteByte off k => play_prog l (Z.max fs (off + 1)) env p (k true)
  | Mmap _ _ k => play_prog l fs env p (k true)
  | CloseFd k => play_prog (k_close l p) fs env p k
  | Unlink _ => None
  | Environ k => match env with v :: env => play_prog l fs env p (k v) | [] => None end
  | Crash => None
  end.

Definition sop_okb (s : option unixShmNode) (o : sop) : bool :=
  match o with
  | SLock j ofst n flags =>
      match s with
      | Some node =>
          match conn (pFirst node) j with
          | Some p => (0 <=? ofst) && (1 <=? n) && (ofst + n <=? 8)
              && ((flags =? 10) || (n =? 1) && (flags =? 6) && negb (shared p ofst) || (n =? 1) && (flags =? 5) && shared p ofst
                  || (flags =? 9) && forallb (fun i => excl p i) (seqZ ofst n))
          | None => false
          end
      | None => false
      end
  | SMap j iRegion sz _ =>
      (0 <=? iRegion) && (iRegion <? 1000) && (sz =? 32768) && match s with Some n => (szRegion n =? sz) | None => true end
  | SUnmap j => match s with Some n => match conn (pFirst n) j with Some p => (sharedMask p =? 0) && (exclMask p =? 0) | None => true end | None => true end
  end.

Lemma sop_okb_ok s o : sop_okb s o = true -> sop_ok 4096 s o.
Proof.
  destruct o as [j ofst n flags|j iRegion sz b|j]; cbn [sop_okb sop_ok].
  - destruct s as [node|]; [|done]. destruct (conn (pFirst node) j) as [p|] eqn:Hj; [|done]. intros H. exists node, p. split; [done|]. split; [done|].
    rewrite !andb_true_iff, !orb_true_iff, !andb_true_iff in H. destruct H as [[[H1 H2] H3] H4]. bool_to_prop. split; [by split|].
    destruct H4 as [[[H4|[[Hn H4] Hs]]|[[Hn H4] Hs]]|[H4 Hx]]; bool_to_prop; subst flags.
    + exact (legal_exclusive p ofst n).
    + apply (legal_shared p ofst n); [done|done].
    + by apply (legal_unlock_shared p ofst n).
    + apply (legal_unlock_exclusive p ofst n). intros i Hi. rewrite forallb_forall in Hx. apply Hx, list_elem_of_In, elem_of_seqZ. lia.
  - intros H. rewrite !andb_true_iff in H. destruct H as [[[H1 H2] H3] H4]. bool_to_prop. subst sz. split.
    + split; [done|done|]. unfold req_regions. change (unixShmRegionPerMap 4096) with 1. rewrite Z.div_1_r. lia.
    + intros n ->. bool_to_prop. by left.
  - intros H n p -> Hj i Hi. rewrite Hj in H. apply andb_true_iff in H as [H1%Z.eqb_eq H2%Z.eqb_eq]. unfold shared, excl. rewrite H1, H2, Z.bits_0. done.
Qed.

Definition state := sys (L := lock_log).

(** The operations of the processes, each with the answers of its system. *)
Definition play_op (st : state) (e : Z * sop * list Z) : option state :=
  let '(p, o, env) := e in
  match procs st !! p with
  | Some (Idle s) =>
      if sop_okb s o then
        '((_, _, s'), l', fs') ← play_prog (kern st) (fsize st) env p (sop_prog 4096 s o); Some (mkSys l' fs' (<[p := Idle s']> (procs st)))
      else None
  | _ => None
  end.

Fixpoint play (st : state) (es : list (Z * sop * list Z)) : option state :=
  match es with [] => Some st | e :: es => st ← play_op st e; play st es end.

(** The rest of the program, after one call. *)
Ltac next_prog IH H :=
  match goal with |- rtc _ (mkSys _ _ (<[?p := ?b]> ?ps)) (mkSys _ _ (<[_ := ?c]> _)) => rewrite <- (insert_insert_eq ps p c b) end;
  eapply IH; [apply lookup_insert_eq|exact H].

Lemma play_prog_steps l fs env p ps s o pg rc pp s' l' fs' :
  ps !! p = Some (Busy s o pg) -> play_prog l fs env p pg = Some ((rc, pp, s'), l', fs') ->
  rtc (step (L := lock_log) 4096) (mkSys l fs ps) (mkSys l' fs' (<[p := Idle s']> ps)).
Proof.
  revert l fs env ps. induction pg as [r|fl k IH|fl k IH|size k IH|k IH|off k IH|len off k IH|k IH|k IH|k IH|]; intros l fs env ps Hp; cbn [play_prog].
  all: try done.
  - intros [= -> -> ->]. apply rtc_once. by eapply step_return.
  - destruct (k_setlk l p fl) as [e l1] eqn:E. intros H. eapply rtc_l; [exact (step_setlk 4096 l fs ps p s o fl k e l1 Hp E)|].
    next_prog IH H.
  - destruct (k_getlk l p fl) as [e t] eqn:E. intros H. eapply rtc_l; [exact (step_getlk 4096 l fs ps p s o fl k e t Hp E)|].
    next_prog IH H.
  - intros H. eapply rtc_l; [exact (step_truncate 4096 l fs ps p s o size k true Hp)|]. next_prog IH H.
  - intros H. eapply rtc_l; [exact (step_size 4096 l fs ps p s o k (Some fs) Hp (or_intror eq_refl))|]. next_prog IH H.
  - intros H. eapply rtc_l; [exact (step_write 4096 l fs ps p s o off k true Hp)|]. next_prog IH H.
  - intros H. eapply rtc_l; [exact (step_mmap 4096 l fs ps p s o len off k true Hp)|]. next_prog IH H.
  - intros H. eapply rtc_l; [exact (step_close 4096 l fs ps p s o k Hp)|]. next_prog IH H.
  - destruct env as [|v env]; [done|]. intros H. eapply rtc_l; [exact (step_environ 4096 l fs ps p s o k v Hp)|]. next_prog IH H.
Qed.

Lemma play_op_steps st e st' : play_op st e = Some st' -> rtc (step 4096) st st'.
Proof.
  destruct e as [[p o] env], st as [l fs ps]. unfold play_op. cbn [procs kern fsize].
  destruct (ps !! p) as [[s|]|] eqn:Hp; [|done..]. destruct (sop_okb s o) eqn:Ho; [|done].
  destruct (play_prog l fs env p (sop_prog 4096 s o)) as [[[[[rc pp] s'] l'] fs']|] eqn:Hr; [|done]. cbn. intros [= <-].
  eapply rtc_l; [eapply step_start; [exact Hp|by apply sop_okb_ok]|].
  next_prog @play_prog_steps Hr.
Qed.

Lemma play_steps st es st' : play st es = Some st' -> rtc (step 4096) st st'.
Proof.
  revert st. induction es as [|e es IH]; intros st; cbn; [by intros [= ->]|]. destruct (play_op st e) as [st1|] eqn:E; [|done].
  intros H. etransitivity; [by eapply play_op_steps|by apply IH].
Qed.

(** ** The run

    Two processes open the file; each has two connections.  The first gets an exclusive
    lock on byte 0 and both processes a shared lock on byte 3; another request for byte 0
    is refused. *)
Definition opening : list Z := [1; 0; 1; 1; 0; 5; 0; 1].
Definition shm_start : state := mkSys [] 0 (list_to_map [(1, Idle None); (2, Idle None)]).
Definition shm_ops : list (Z * sop * list Z) :=
  [(1, SMap 10 0 32768 true, opening); (2, SMap 20 0 32768 false, opening); (1, SMap 11 0 32768 true, [1]);
   (1, SLock 10 0 1 10, []); (1, SLock 11 3 1 6, []); (2, SLock 20 3 1 6, []); (2, SLock 20 0 1 10, [])].
Definition shm_end : option state := Eval vm_compute in play shm_start shm_ops.

Definition node_of (st : option state) (p : Z) : option unixShmNode :=
  match st with Some st => match procs st !! p with Some (Idle s) => s | _ => None end | None => None end.

Lemma shm_run : play shm_start shm_ops = shm_end.
Proof. vm_compute. reflexivity. Qed.

Example ex_shm_masks : (fun p => (sharedMask p.2, exclMask p.2)) <$> state_conns (node_of shm_end 1) = [(8, 0); (0, 1)].
Proof. reflexivity. Qed.

Example ex_shm_masks2 : (fun p => (sharedMask p.2, exclMask p.2)) <$> state_conns (node_of shm_end 2) = [(8, 0)].
Proof. reflexivity. Qed.
Example ex_shm_regions : option_map apRegion (node_of shm_end 2) = Some [Mapped 0 0].
Proof. reflexivity. Qed.
Example ex_shm_size : option_map fsize shm_end = Some 32768.
Proof. reflexivity. Qed.

Lemma shm_start_initial : initial shm_start.
Proof.
  split; [done|]. split; [|by intros p b; cbn; unfold log_held; destruct (is_lock_byte _ _ b)].
  intros p pr Hp. apply elem_of_list_to_map_2 in Hp. rewrite !elem_of_cons in Hp. destruct Hp as [[= _ ->]|[[= _ ->]|Hp]]; [done..|].
  by apply not_elem_of_nil in Hp.
Qed.

Definition shm_final : state := Eval vm_compute in default shm_start shm_end.

Lemma shm_final_steps : rtc (step 4096) shm_start shm_final.
Proof. apply (play_steps _ shm_ops). rewrite shm_run. vm_compute. reflexivity. Qed.

Lemma shm_final_reachable : reachable 4096 shm_final.
Proof. exists shm_start. split; [apply shm_start_initial|]. eapply rtc_subrel; [|apply shm_final_steps]. auto. Qed.

Definition shm_proc (p : Z) : proc := Eval vm_compute in default (Idle None) (procs shm_final !! p).
Definition shm_node (p : Z) : unixShmNode := default (mkNode 0 0 0 false false [] 0 []) (mappings (shm_proc p)).

Lemma shm_locks_exclusive_witness :
  exists c c', conn (view (shm_proc 1)) 10 = Some c /\ conn (view (shm_proc 2)) 20 = Some c' /\ excl c 0 = true /\
    excl c' 0 = false /\ shared c' 0 = false.
Proof.
  exists (mkShm 0 1), (mkShm 8 0). split; [reflexivity|]. split; [reflexivity|]. split; [reflexivity|].
  apply (shm_locks_exclusive (L := lock_log) 4096 shm_final 1 2 (shm_proc 1) (shm_proc 2) 10 20 (mkShm 0 1) (mkShm 8 0) 0);
    [apply shm_final_reachable|reflexivity|reflexivity|reflexivity|reflexivity|done|by unfold UnixShm.SQLITE_SHM_NLOCK|reflexivity].
Defined.

Lemma shm_file_safe_witness : nRegion (shm_node 2) = 1 /\ szRegion (shm_node 2) <= fsize shm_final.
Proof.
  split; [reflexivity|].
  destruct (shm_file_safe (L := lock_log) 4096 shm_final 2 (shm_proc 2) (shm_node 2) shm_final_reachable eq_refl eq_refl) as [H _].
  destruct (H 0 ltac:(vm_compute; split; [done|reflexivity])) as (off & d & _ & _ & Hs). exact Hs.
Defined.

Lemma no_shm_locks i : 0 <= i < UnixShm.SQLITE_SHM_NLOCK -> rd ∅ (Lck i) = 0.
Proof. intros _. unfold rd. by rewrite lookup_empty. Qed.

Lemma shm_refines_locks_witness :
  exists m, rtc astep (∅, abs_proc <$> procs shm_start) (m, abs_proc <$> procs shm_final) /\ rd m (Lck 0) = -1 /\ rd m (Lck 3) = 2.
Proof.
  destruct (shm_refines_locks (L := lock_log) 4096 shm_start shm_final ∅ shm_start_initial no_shm_locks shm_final_steps) as (m & Hm & H1 & _).
  exists m. split; [exact Hm|]. split; [rewrite (H1 0)|rewrite (H1 3)]; first [reflexivity|by unfold UnixShm.SQLITE_SHM_NLOCK].
Defined.

Lemma fresh_state : state_ok 4096 None no_locks 0.
Proof. split; [done|]. intros i Hi. done. Qed.

Lemma map_ok_first : map_ok 4096 1 32768.
Proof. split; [done|done|]. unfold req_regions. change (unixShmRegionPerMap 4096) with 1. rewrite Z.div_1_r. lia. Qed.

Lemma unixShmMap_correct_witness :
  state_ok 4096 None no_locks 0 /\
  wp (unixShmMap 4096 false 7 None 1 32768 true) (fun '(rc, pp, s') hd' lb' =>
    forall q, pp = Some q -> exists off d, q = Mapped off d /\ off + d = 32768 /\ 65536 <= lb') no_locks 0.
Proof.
  split; [apply fresh_state|]. eapply shm_wp_mono; [|apply (unixShmMap_correct 4096 7 None 1 32768 true no_locks 0 fresh_state map_ok_first); intros n [=]].
  intros [[rc pp] s'] hd' lb' (_ & _ & H) q ->. destruct H as (_ & off & d & -> & E & Hl). exists off, d. split; [reflexivity|].
  split; [rewrite E; reflexivity|exact Hl].
Defined.

(** ** The first process to open the file

    A process that has asked the kernel for the lock on [UNIX_SHM_DMS], and has not yet
    taken its own. *)
Fixpoint play_ask (l : lock_log) (env : list Z) (p : Z) (pg : prog outcome) : option (prog outcome) :=
  match pg with
  | Environ k => match env with v :: env => play_ask l env p (k v) | [] => None end
  | Getlk fl k => let '(e, t) := k_getlk l p fl in play_ask l env p (k e t)
  | Setlk fl k => Some (Setlk fl k)
  | _ => None
  end.

Lemma play_ask_steps l fs env p ps s o pg pg' :
  ps !! p = Some (Busy s o pg) -> play_ask l env p pg = Some pg' ->
  rtc (step (L := lock_log) 4096) (mkSys l fs ps) (mkSys l fs (<[p := Busy s o pg']> ps)).
Proof.
  revert env ps. induction pg as [r|fl k IH|fl k IH|size k IH|k IH|off k IH|len off k IH|k IH|k IH|k IH|]; intros env ps Hp; cbn [play_ask]; try done.
  - intros [= <-]. rewrite insert_id; done.
  - destruct (k_getlk l p fl) as [e t] eqn:E. intros H. eapply rtc_l; [exact (step_getlk 4096 l fs ps p s o fl k e t Hp E)|]. next_prog IH H.
  - destruct env as [|v env]; [done|]. intros H. eapply rtc_l; [exact (step_environ 4096 l fs ps p s o k v Hp)|]. next_prog IH H.
Qed.

(** Process 1 has the file open; process 2 asks, process 1 is killed, and process 2
    goes on. *)
Definition race_one : state := Eval vm_compute in default shm_start (play shm_start [(1, SMap 10 0 32768 true, opening)]).
Definition race_op : sop := SMap 20 0 32768 false.
Definition race_prog : prog outcome := default Crash (play_ask (kern race_one) opening 2 (sop_prog 4096 None race_op)).
Definition race_killed : state := mkSys (k_close (kern race_one) 1) 32768 (<[1 := Idle None]> (<[2 := Busy None race_op race_prog]> (procs race_one))).
Definition race_result : option (outcome * lock_log * Z) := Eval vm_compute in play_prog (kern race_killed) 32768 [1] 2 race_prog.
Definition race_end : state :=
  match race_result with
  | Some ((_, _, s), l, fs) => mkSys l fs (<[2 := Idle s]> (procs race_killed))
  | None => race_killed
  end.

(** The first process to open the file may not truncate it.  A process asks with
    F_GETLK for the lock of others on the byte, sees the read lock of the only process
    that has the file open, and takes a read lock too; if the other process is killed
    between the two calls, there is a moment at which no process has any lock on the
    file, and yet the first process opens it after that and maps its old contents. *)
Theorem shm_first_open_stale :
  exists st st' n, reachable 4096 st /\ (forall p b, k_held (kern st) p b = F_UNLCK) /\ rtc (step 4096) st st' /\
    (forall q s, procs st !! q = Some (Idle s) -> s = None) /\ procs st' !! 2 = Some (Idle (Some n)) /\
    apRegion n = [Mapped 0 0] /\ fsize st = 32768 /\ fsize st' = 32768.
Proof.
  assert (H1 : rtc (step 4096) shm_start race_one) by (by apply (play_steps _ [(1, SMap 10 0 32768 true, opening)]); vm_compute).
  assert (H2 : rtc (step 4096) race_one (mkSys (kern race_one) 32768 (<[2 := Busy None race_op race_prog]> (procs race_one)))).
  { eapply rtc_l; [exact (step_start 4096 (kern race_one) 32768 (procs race_one) 2 None race_op eq_refl (sop_okb_ok None race_op eq_refl))|].
    rewrite <- (insert_insert_eq (procs race_one) 2 (Busy None race_op race_prog) (Busy None race_op (sop_prog 4096 None race_op))).
    eapply (play_ask_steps _ _ opening); [apply lookup_insert_eq|]. unfold race_prog. reflexivity. }
  exists race_killed, race_end, (default (mkNode 0 0 0 false false [] 0 []) (match race_result with Some ((_, _, s), _, _) => s | None => None end)).
  split_and!; try reflexivity.
  - exists shm_start. split; [apply shm_start_initial|]. eapply rtc_r; [|right; by eapply dies_intro].
    apply (rtc_subrel (step 4096)); [auto|]. etransitivity; [exact H1|exact H2].
  - intros p b. cbn. unfold log_held. by destruct (is_lock_byte _ _ b).
  - eapply (play_prog_steps (kern race_killed) 32768 [1] 2 (procs race_killed) None race_op race_prog); [|vm_compute]; reflexivity.
  - assert (Hk : (map_to_list (procs race_one)).*1 = [2; 1]) by reflexivity.
    intros q s. unfold race_killed. cbn [procs]. rewrite !lookup_insert_Some. intros [[_ [= <-]]|[H3 [[_ [=]]|[H4 Hq%elem_of_map_to_list]]]]; [done|].
    assert (Hin : q ∈ [2; 1]) by (rewrite <- Hk; apply list_elem_of_fmap; by exists (q, Idle s)).
    rewrite !elem_of_cons in Hin. destruct Hin as [->|[->|Hin]]; [done..|by apply not_elem_of_nil in Hin].
Qed.
