(* ===== verification/WalFile.v ===== *)
(** The system calls on the log and on the database, as the wal module uses them.

    A call is [Ask] for its result code, and what it does to the files if that is
    SQLITE_OK.  A write is not atomic: until it has succeeded, what it covers may hold
    anything.  Syncing does not change the contents. *)
From S2P Require Import Prelude SharedMem WalIndex.

Definition SQLITE_IOERR_SHORT_READ : Z := 522.
Definition WAL_FRAME_HDRSIZE : Z := 24.
Definition WAL_HDRSIZE : Z := 32.

Definition walFrameOffset (iFrame szPage : Z) : Z := WAL_HDRSIZE + (iFrame - 1) * (szPage + WAL_FRAME_HDRSIZE).

Definition os_call (done : prog unit) : prog Z :=
  Ask (fun rc => if rc =? SQLITE_OK then _ ← done; Done SQLITE_OK else Done rc).

(** ** One page *)

(** The result code, and the data; a short read is filled up with zeros. *)
Definition os_read (c : cell) : prog (Z * Z) :=
  Ask (fun rc =>
    if (rc =? SQLITE_OK) || (rc =? SQLITE_IOERR_SHORT_READ) then v ← load c; Done (rc, v) else Done (rc, 0)).

Definition os_write (c : cell) (v : Z) : prog Z := Ask (fun torn => _ ← store c torn; os_call (store c v)).

(** ** Parts of the log *)

(** The first [n] of the 32-bit words from offset [off] on. *)
Definition log_words (n : nat) (off : Z) : list cell := (fun j => LogAt (off + 4 * j)) <$> seqZ 0 (Z.of_nat n).

Fixpoint load_cells (cs : list cell) : prog (list Z) :=
  match cs with
  | [] => Done []
  | c :: cs => v ← load c; vs ← load_cells cs; Done (v :: vs)
  end.

Definition os_read_log (cs : list cell) : prog (Z * list Z) :=
  Ask (fun rc =>
    if (rc =? SQLITE_OK) || (rc =? SQLITE_IOERR_SHORT_READ) then vs ← load_cells cs; Done (rc, vs) else Done (rc, [])).

(** *** Writes

    What is written is a list of pieces: an offset, a length and a value, whose bytes
    are in the order of the machine.  A write covers the bytes from [lo] to [hi], which
    may end in the middle of a piece. *)

Definition piece : Type := Z * Z * Z.

Definition word_pieces (off : Z) (ws : list Z) : list piece := imap (fun j w => (off + 4 * Z.of_nat j, 4, w)) ws.

(** The new value of a cell whose bytes from [lo] to [hi] are written. *)
Definition merge (lo hi len v old : Z) : Z :=
  if (lo <=? 0) && (len <=? hi) then v
  else if (hi <=? 0) || (len <=? lo) then old
  else
    let lo := Z.max 0 lo in
    let hi := Z.min len hi in
    old mod 2 ^ (8 * lo) + v / 2 ^ (8 * lo) mod 2 ^ (8 * (hi - lo)) * 2 ^ (8 * lo) + old / 2 ^ (8 * hi) * 2 ^ (8 * hi).

Definition covered (lo hi : Z) (x : piece) : bool := let '(off, len, _) := x in (lo <? off + len) && (off <? hi).

(** Before it succeeds, what the write covers may be anything. *)
Fixpoint tear_pieces (l : list piece) : prog unit :=
  match l with
  | [] => Done ()
  | (off, _, _) :: l => Ask (fun torn => _ ← store (LogAt off) torn; tear_pieces l)
  end.

(** The old values are those before the write. *)
Fixpoint load_pieces (l : list piece) : prog (list Z) :=
  match l with
  | [] => Done []
  | (off, _, _) :: l => v ← load (LogAt off); vs ← load_pieces l; Done (v :: vs)
  end.

Fixpoint store_pieces (lo hi : Z) (l : list piece) (olds : list Z) : prog unit :=
  match l, olds with
  | (off, len, v) :: l, old :: olds =>
      _ ← store (LogAt off) (merge (lo - off) (hi - off) len v old); store_pieces lo hi l olds
  | _, _ => Done ()
  end.

Definition grow_log (iEnd : Z) : prog unit := sz ← load LogSize; store LogSize (Z.max sz iEnd).

Definition os_write_log (l : list piece) (lo hi : Z) : prog Z :=
  let l := filter (fun x => covered lo hi x = true) l in
  olds ← load_pieces l;
  _ ← tear_pieces l;
  Ask (fun part => _ ← grow_log (Z.min part hi); os_call (_ ← store_pieces lo hi l olds; grow_log hi)).

(** The result code and the size. *)
Definition os_log_size : prog (Z * Z) := Ask (fun rc => if rc =? SQLITE_OK then sz ← load LogSize; Done (rc, sz) else Done (rc, 0)).

(** ** Truncation *)

(** The pages of the database from [size] bytes on are gone. *)
Definition truncated (size : Z) (m : mem) : mem :=
  filter (fun x : cell * Z => match x.1 with DbAt off => off <? size | _ => true end = true) m.

Definition os_truncate_db (size : Z) : prog Z := os_call (Try (fun m => Some (truncated size m)) (fun _ => Done ())).

Definition log_truncated (size : Z) (m : mem) : mem :=
  <[LogSize := size]> (filter (fun x : cell * Z => match x.1 with LogAt off => off <? size | _ => true end = true) m).

Definition os_truncate_log (size : Z) : prog Z := os_call (Try (fun m => Some (log_truncated size m)) (fun _ => Done ())).
