(* ===== verification/WalLog.v ===== *)
(** The log (src/sqlite-src-3280000/src/wal.c): how frames are encoded, and how the
    wal-index is rebuilt from them.

    The headers of the log and of its frames are 32-bit words in the order of the
    machine, which is little-endian, as in [walChecksumBytes]; [sqlite3Get4byte] and
    [sqlite3Put4byte] are then [BYTESWAP32].  The contents of a page are one number,
    whose digits to the base 2^32 are its words. *)
From S2P Require Import Prelude SharedMem WalIndex WalHeader WalLocks WalFile.

(** ** Constants *)

Definition WAL_MAGIC : Z := 0x377f0682.
Definition SQLITE_BIGENDIAN : Z := 0.
Definition SQLITE_MAX_PAGE_SIZE : Z := 65536.
Definition WAL_ALL_BUT_WRITE : Z := 1.
Definition SQLITE_READONLY_CANTINIT : Z := 1288.
Definition SQLITE_READONLY_RECOVERY : Z := 264.
Definition WAL_RETRY : Z := -1.

(** ** Frames *)

Definition page_words (szPage v : Z) : list Z := (fun j => v / 2 ^ (32 * j) mod 2 ^ 32) <$> seqZ 0 (szPage / 4).

Definition set_iReCksum (w : Wal) (i : Z) : Wal :=
  mkWal (apWiData w) (w_szPage w) (readLock w) (exclusiveMode w) (writeLock w) (ckptLock w) (readOnly w)
    (bShmUnreliable w) (hdr w) (minFrame w) i (nCkpt w)
    (truncateOnCommit w) (iCallback w) (mxWalSize w) (syncHeader w) (padToSectorBoundary w).

(** The checksum over the first two words of a frame header and the page; [nData] is the
    number of bytes that [aData] has. *)
Definition frame_cksum (w : Wal) (a0 a1 aData nData : Z) : option (Z * Z) :=
  let nativeCksum := bigEndCksum (hdr w) =? SQLITE_BIGENDIAN in
  c ← walChecksumBytes nativeCksum [a0; a1] (Some (aFrameCksum (hdr w)));
  if w_szPage w <=? nData then walChecksumBytes nativeCksum (page_words (w_szPage w) aData) (Some c) else None.

(** The six words of the header of the frame. *)
Definition walEncodeFrame (w : Wal) (iPage nTruncate aData : Z) : option (Wal * list Z) :=
  let a0 := BYTESWAP32 iPage in
  let a1 := BYTESWAP32 nTruncate in
  if iReCksum w =? 0 then
    c ← frame_cksum w a0 a1 aData (w_szPage w);
    Some (set_hdr w (set_aFrameCksum (hdr w) c),
      [a0; a1; (aSalt (hdr w)).1; (aSalt (hdr w)).2; BYTESWAP32 c.1; BYTESWAP32 c.2])
  else Some (w, [a0; a1; 0; 0; 0; 0]).

(** The page number and [*pnTruncate] of a valid frame.  The checksum of the connection
    changes even if the frame turns out not to be valid. *)
Definition walDecodeFrame (w : Wal) (aData nData : Z) (aFrame : list Z) : option (Wal * option (Z * Z)) :=
  let a (i : nat) := default 0 (aFrame !! i) in
  if negb (bool_decide (aSalt (hdr w) = (a 2%nat, a 3%nat))) then Some (w, None) else
  let pgno := BYTESWAP32 (a 0%nat) in
  if pgno =? 0 then Some (w, None) else
  c ← frame_cksum w (a 0%nat) (a 1%nat) aData nData;
  let w := set_hdr w (set_aFrameCksum (hdr w) c) in
  if negb (c.1 =? BYTESWAP32 (a 4%nat)) || negb (c.2 =? BYTESWAP32 (a 5%nat)) then Some (w, None)
  else Some (w, Some (pgno, BYTESWAP32 (a 1%nat))).

(** The cells of the frame at [iOffset]. *)
Definition frame_cells (iOffset : Z) : list cell := log_words 6 iOffset ++ [LogAt (iOffset + WAL_FRAME_HDRSIZE)].

Definition frame_data (vs : list Z) : Z := default 0 (vs !! 6%nat).

(** ** Recovery *)

Definition zero_hdr : WalIndexHdr := mkHdr 0 0 0 0 0 0 0 0 (0, 0) (0, 0) (0, 0).

Definition set_recovered (h : WalIndexHdr) (szPage iFrame nTruncate : Z) : WalIndexHdr :=
  mkHdr (iVersion h) (unused h) (iChange h) (isInit h) (bigEndCksum h) (szPage_u16 szPage) iFrame nTruncate
    (aFrameCksum h) (aSalt h) (aCksum h).

(** The loop over the frames: the connection, the code, and the checksum of the last
    commit.  Every step takes a frame out of [nSize]: [fuel] is one more than the number
    of frames that fit. *)
Fixpoint walIndexRecover_frames (fuel : nat) (w : Wal) (szPage nSize iOffset iFrame : Z) (ck : Z * Z) : prog (Wal * Z * (Z * Z)) :=
  match fuel with
  | O => Stuck
  | S fuel =>
      let szFrame := szPage + WAL_FRAME_HDRSIZE in
      if nSize <? iOffset + szFrame then Done (w, SQLITE_OK, ck) else
      let iFrame := iFrame + 1 in
      '(rc, vs) ← os_read_log (frame_cells iOffset);
      if negb (rc =? SQLITE_OK) then Done (w, rc, ck) else
      match walDecodeFrame w (frame_data vs) (szFrame - WAL_FRAME_HDRSIZE) vs with
      | None => Stuck
      | Some (w, None) => Done (w, SQLITE_OK, ck)
      | Some (w, Some (pgno, nTruncate)) =>
          '(w, rc) ← walIndexAppend w iFrame pgno;
          if negb (rc =? SQLITE_OK) then Done (w, rc, ck) else
          if negb (nTruncate =? 0) then
            walIndexRecover_frames fuel (set_hdr w (set_recovered (hdr w) szPage iFrame nTruncate)) szPage nSize
              (iOffset + szFrame) iFrame (aFrameCksum (hdr w))
          else walIndexRecover_frames fuel w szPage nSize (iOffset + szFrame) iFrame ck
      end
  end.

(** From the size of the log to the label [finished]: the connection, the code, the
    checksum of the last commit, and whether it went to [recovery_error] instead. *)
Definition walIndexRecover_log (w : Wal) (nSize : Z) : prog (Wal * Z * (Z * Z) * bool) :=
  if negb (WAL_HDRSIZE <? nSize) then Done (w, SQLITE_OK, (0, 0), false) else
  '(rc, aBuf) ← os_read_log (log_words 8 0);
  if negb (rc =? SQLITE_OK) then Done (w, rc, (0, 0), true) else
  let a (i : nat) := default 0 (aBuf !! i) in
  let magic := BYTESWAP32 (a 0%nat) in
  let szPage := wrap_s 32 (BYTESWAP32 (a 2%nat)) in
  if negb (Z.land magic 0xFFFFFFFE =? WAL_MAGIC) || negb (Z.land szPage (wrap_s 32 (szPage - 1)) =? 0)
     || (SQLITE_MAX_PAGE_SIZE <? szPage) || (szPage <? 512) then Done (w, SQLITE_OK, (0, 0), false) else
  let h := hdr w in
  let bigEnd := Z.land magic 1 in
  match walChecksumBytes (bigEnd =? SQLITE_BIGENDIAN) (take 6 aBuf) None with
  | None => Stuck
  | Some c =>
      let w := mkWal (apWiData w) szPage (readLock w) (exclusiveMode w) (writeLock w) (ckptLock w) (readOnly w) (bShmUnreliable w)
        (mkHdr (iVersion h) (unused h) (iChange h) (isInit h) bigEnd (szPage16 h) (mxFrame h) (nPage h) c (a 4%nat, a 5%nat) (aCksum h))
        (minFrame w) (iReCksum w) (BYTESWAP32 (a 3%nat))
        (truncateOnCommit w) (iCallback w) (mxWalSize w) (syncHeader w) (padToSectorBoundary w) in
      if negb (c.1 =? BYTESWAP32 (a 6%nat)) || negb (c.2 =? BYTESWAP32 (a 7%nat)) then Done (w, SQLITE_OK, (0, 0), false) else
      if negb (BYTESWAP32 (a 1%nat) =? WAL_MAX_VERSION) then Done (w, SQLITE_CANTOPEN, (0, 0), false) else
      Alloc (fun b =>
        if b then
          '(w, rc, ck) ← walIndexRecover_frames (S (Z.to_nat ((nSize - WAL_HDRSIZE) / (szPage + WAL_FRAME_HDRSIZE)))) w
            szPage nSize WAL_HDRSIZE 0 (0, 0);
          Done (w, rc, ck, false)
        else Done (w, SQLITE_NOMEM, (0, 0), true))
  end.

(** The marks that follow the first two. *)
Fixpoint reset_marks (n : nat) (i : Z) : prog unit :=
  match n with
  | O => Done ()
  | S n => _ ← store (aReadMark i) READMARK_NOT_USED; reset_marks n (i + 1)
  end.

(** At the label [finished], without an error. *)
Definition walIndexRecover_finish (w : Wal) (ck : Z * Z) : prog Wal :=
  w ← walIndexWriteHdr (set_hdr w (set_aFrameCksum (hdr w) ck));
  walCkptInfo w
    (_ ← store nBackfill 0;
     _ ← store nBackfillAttempted (mxFrame (hdr w));
     _ ← store (aReadMark 0) 0;
     _ ← reset_marks (Z.to_nat (WAL_NREADER - 1)) 1;
     _ ← (if negb (mxFrame (hdr w) =? 0) then store (aReadMark 1) (mxFrame (hdr w)) else Done ());
     Done w).

Definition walIndexRecover (w : Wal) : prog (Wal * Z) :=
  insist (writeLock w)
    (let iLock := WAL_ALL_BUT_WRITE + (if ckptLock w then 1 else 0) in
     let nLock := Z.to_nat (WAL_READ_LOCK 0 - iLock) in
     rc ← walLockExclusive w iLock nLock;
     rc ← (if rc =? SQLITE_OK then
             rc ← walLockExclusive w (WAL_READ_LOCK 1) (Z.to_nat (WAL_NREADER - 1));
             if negb (rc =? SQLITE_OK) then _ ← walUnlockExclusive w iLock nLock; Done rc else Done rc
           else Done rc);
     if negb (rc =? SQLITE_OK) then Done (w, rc) else
     let w := set_hdr w zero_hdr in
     '(rc, nSize) ← os_log_size;
     '(w, rc, ck, error) ← (if negb (rc =? SQLITE_OK) then Done (w, rc, (0, 0), true) else walIndexRecover_log w nSize);
     w ← (if negb error && (rc =? SQLITE_OK) then walIndexRecover_finish w ck else Done w);
     _ ← walUnlockExclusive w iLock nLock;
     _ ← walUnlockExclusive w (WAL_READ_LOCK 1) (Z.to_nat (WAL_NREADER - 1));
     Done (w, rc)).
