(* ===== verification/WalCommit.v ===== *)
(** Commits: a reader that loads the header and then searches the index, while a
    writer appends frames and rewrites the header, sees the log before the transaction
    or the log after it. *)
From S2P Require Import Prelude SharedMem WalIndex WalIndexSpec WalIndexReader WalIndexWriter WalIndexTheorems WalHeader.

(** ** Loads and stores of a copy of the header *)

Definition word (ws : list Z) (j : Z) : Z := default 0 (ws !! Z.to_nat j).

(** Copy [i] of the header in memory is [ws]. *)
Definition has (m : mem) (i : Z) (ws : list Z) : Prop :=
  forall j, 0 <= j < 12 -> rd m (Word 0 (aHdr i + j)) = word ws j.

(** Each word is of one header or the other. *)
Definition mixed (old new : list Z) (m : mem) (i : Z) : Prop :=
  forall j, 0 <= j < 12 ->
    rd m (Word 0 (aHdr i + j)) = word old j \/ rd m (Word 0 (aHdr i + j)) = word new j.

Lemma hdr_words_length h : length (hdr_words h) = 12%nat.
Proof. done. Qed.

Lemma has_eq ws ws' :
  length ws = 12%nat -> length ws' = 12%nat -> (forall j, 0 <= j < 12 -> word ws j = word ws' j) -> ws = ws'.
Proof.
  intros H H' Hw. apply list_eq_same_length with 12%nat; [done..|]. intros i x y Hi Hx Hy.
  specialize (Hw (Z.of_nat i) ltac:(lia)). unfold word in Hw. rewrite !Nat2Z.id, Hx, Hy in Hw. done.
Qed.

Lemma has_mixed old new m i : has m i old -> mixed old new m i.
Proof. intros H j Hj. left. by apply H. Qed.

Lemma has_other m i i' ws j v : 0 <= j < 12 -> i <> i' -> has m i ws -> has (<[Word 0 (aHdr i' + j) := v]> m) i ws.
Proof. intros Hj Hi H j' Hj'. rewrite rd_insert. case_decide as E; [|by apply H]. injection E. unfold aHdr. lia. Qed.

Lemma mixed_store old new m i i' j :
  0 <= j < 12 -> mixed old new m i -> mixed old new (<[Word 0 (aHdr i' + j) := word new j]> m) i.
Proof.
  intros Hj H j' Hj'. rewrite rd_insert. case_decide as E; [|by apply H]. injection E as E.
  unfold aHdr in E. assert (j = j') as -> by lia. by right.
Qed.

(** A store of the header is none to the log or its tables. *)
Lemma header_rely only c m j v : 0 <= j < 34 -> rely only c m (<[Word 0 j := v]> m).
Proof.
  intros Hj. assert (Hs : forall pg k, slot_at (<[Word 0 j := v]> m) pg k = slot_at m pg k) by (intros; apply slot_insert_word).
  split.
  - split.
    + intros pg i Hp Hi. unfold pgno_at. rewrite rd_insert. case_decide as E; [|done].
      injection E as <- E. unfold base in E. cbn in E. lia.
    + intros. apply Hs.
    + intros pg k _ _. by rewrite Hs.
  - intros _ pg k _ _ _. apply Hs.
  - intros pg _ (k & Hk & H). exists k. by rewrite Hs.
Qed.

Section rg_words.
Context (present : Z -> Prop).

(** Loading words of which [P] holds, stably, of each as it is loaded. *)
Lemma load_words_rg R G `{!PreOrder R} n i (P : nat -> list Z -> mem -> Prop) ws0 Q m :
  (forall k ws m m', R m m' -> P k ws m -> P k ws m') ->
  (forall k ws m, P k ws m -> P (S k) (ws ++ [rd m (Word 0 (i + Z.of_nat k))]) m) ->
  P 0%nat ws0 m ->
  (forall ws m', length ws = n -> P n (ws0 ++ ws) m' -> Q ws m') ->
  rg present R G (load_words n i) Q m.
Proof.
  revert i P ws0 Q m. induction n as [|n IH]; intros i P ws0 Q m Hst Hnext H0 HQ; cbn [load_words].
  - apply rg_done. intros m' HR. apply HQ; [done|]. rewrite app_nil_r. by apply (Hst _ _ m).
  - intros m1 HR. cbn. rg_bind.
    apply (IH (i + 1) (fun k => P (S k)) (ws0 ++ [rd m1 (Word 0 i)])).
    + intros k ws m2 m3. apply Hst.
    + intros k ws m2 Hk. replace (i + 1 + Z.of_nat k) with (i + Z.of_nat (S k)) by lia. by apply Hnext.
    + replace (rd m1 (Word 0 i)) with (rd m1 (Word 0 (i + Z.of_nat 0))) by (do 2 f_equal; lia). apply Hnext.
      by apply (Hst _ _ m).
    + intros ws m2 Hlen HP. apply rg_done. intros m3 HR3. apply HQ; [by rewrite <- Hlen|].
      rewrite cons_middle, app_assoc. by apply (Hst _ _ m2).
Qed.

(** Storing words: [P k] holds when [k] of them are stored. *)
Lemma store_words_rg G ws i (P : Z -> mem -> Prop) Q m :
  (forall j m, 0 <= j < Z.of_nat (length ws) -> P j m ->
    G m (<[Word 0 (i + j) := word ws j]> m) /\ P (j + 1) (<[Word 0 (i + j) := word ws j]> m)) ->
  P 0 m -> (forall m', P (Z.of_nat (length ws)) m' -> Q () m') ->
  rg present eq G (store_words ws i) Q m.
Proof.
  revert i P m. induction ws as [|x ws IH]; intros i P m Hst H0 HQ; cbn [store_words length] in *.
  - apply rg_done. intros m' <-. by apply HQ.
  - intros m1 <-. cbn. destruct (Hst 0 m ltac:(lia) H0) as [HG H1]. rewrite Z.add_0_r in HG, H1. split; [done|].
    apply (IH (i + 1) (fun j => P (j + 1))).
    + intros j m2 Hj Hp. destruct (Hst (j + 1) m2 ltac:(lia) Hp) as [HG' Hp'].
      assert (Hw : word (x :: ws) (j + 1) = word ws j).
      { unfold word. by replace (Z.to_nat (j + 1)) with (S (Z.to_nat j)) by lia. }
      rewrite Hw in *. replace (i + 1 + j) with (i + (j + 1)) by lia. done.
    + done.
    + intros m' Hp. apply HQ. by replace (Z.of_nat (S (length ws))) with (Z.of_nat (length ws) + 1) by lia.
Qed.
End rg_words.

(** ** The two stages of a commit *)

Section stages.
Context (old new : list Z) (c n : Z) (f' : Z -> Z).

(** Before the first store to copy 0, and after the last store to copy 1; [n] is the
    last frame of the new log [f'], and [c] that of the log before. *)
Definition stage1 (m : mem) : Prop := has m 0 old /\ mixed old new m 1.
Definition stage2 (m : mem) : Prop := mixed old new m 0 /\ has m 1 new /\ index_ok m f' n.

Record commit_rely (m m' : mem) : Prop := {
  cr_rely : 1 <= c -> rely true c m m';
  cr_stage1 : stage1 m -> stage1 m' \/ stage2 m';
  cr_stage2 : stage2 m -> stage2 m' /\ rely true n m m' }.

#[global] Instance commit_preorder : PreOrder commit_rely.
Proof.
  split; [intros m; split; [done|by left|by split]|]. intros m1 m2 m3 [H1 S1 T1] [H2 S2 T2]. split.
  - intros Hc. transitivity m2; auto.
  - intros H. destruct (S1 H) as [H'|H']; [auto|]. right. by apply T2.
  - intros H. destruct (T1 H) as [H' HR]. destruct (T2 H') as [H'' HR']. split; [done|]. by transitivity m2.
Qed.

Lemma commit_reaches m m' : commit_rely m m' -> stage1 m \/ stage2 m -> stage1 m' \/ stage2 m'.
Proof. intros [_ H1 H2] [H|H]; [auto|right; by apply H2]. Qed.

(** ** The reader *)

Lemma read_copy0 present G m Q :
  stage1 m \/ stage2 m -> (1 <= c -> index_ok m f' c) ->
  (forall ws m', length ws = 12%nat -> commit_rely m m' -> stage2 m' \/ (stage1 m' /\ forall j, 0 <= j < 12 -> word ws j = word old j) ->
    Q ws m') ->
  rg present commit_rely G (load_words 12 (aHdr 0)) Q m.
Proof.
  intros Hst Hok HQ.
  set (P := fun (k : nat) (ws : list Z) (m' : mem) => commit_rely m m' /\ length ws = k /\
    (stage2 m' \/ (stage1 m' /\ forall j, 0 <= j < Z.of_nat k -> j < 12 -> word ws j = word old j))).
  apply (load_words_rg present _ _ 12 (aHdr 0) P []).
  - intros k ws m1 m2 HR (HR1 & Hl & Hs). split; [by transitivity m1|]. split; [done|].
    destruct Hs as [Hs|[Hs Hw]]; [left; by apply (cr_stage2 _ _ HR)|].
    destruct (cr_stage1 _ _ HR Hs) as [Hs'|Hs']; [right|by left]. done.
  - intros k ws m1 (HR1 & Hl & Hs). split; [done|]. split; [rewrite length_app; cbn; lia|].
    destruct Hs as [Hs|[Hs Hw]]; [by left|right]. split; [done|]. intros j Hj Hj12. unfold word.
    destruct (decide (j = Z.of_nat k)) as [->|Hne].
    + rewrite Nat2Z.id, lookup_app_r, Hl, Nat.sub_diag by lia. cbn. rewrite (proj1 Hs) by lia. unfold word. by rewrite Nat2Z.id.
    + rewrite lookup_app_l by lia. apply Hw; lia.
  - split; [done|]. split; [done|]. destruct Hst as [H|H]; [right|by left]. split; [done|]. intros; lia.
  - intros ws m' Hl (HR & _ & Hs). apply HQ; [done..|]. destruct Hs as [Hs|[Hs Hw]]; [by left|right].
    split; [done|]. intros j Hj. apply Hw; lia.
Qed.

Lemma read_copy1 present G m Q :
  (forall ws m', length ws = 12%nat -> commit_rely m m' -> (stage2 m -> stage2 m' /\ forall j, 0 <= j < 12 -> word ws j = word new j) ->
    Q ws m') ->
  rg present commit_rely G (load_words 12 (aHdr 1)) Q m.
Proof.
  intros HQ.
  set (P := fun (k : nat) (ws : list Z) (m' : mem) => commit_rely m m' /\ length ws = k /\
    (stage2 m -> stage2 m' /\ forall j, 0 <= j < Z.of_nat k -> j < 12 -> word ws j = word new j)).
  apply (load_words_rg present _ _ 12 (aHdr 1) P []).
  - intros k ws m1 m2 HR (HR1 & Hl & Hs). split; [by transitivity m1|]. split; [done|].
    intros H. destruct (Hs H) as [H1 H2]. split; [by apply (cr_stage2 _ _ HR)|done].
  - intros k ws m1 (HR1 & Hl & Hs). split; [done|]. split; [rewrite length_app; cbn; lia|].
    intros H. destruct (Hs H) as [H1 H2]. split; [done|]. intros j Hj Hj12. unfold word.
    destruct (decide (j = Z.of_nat k)) as [->|Hne].
    + destruct H1 as (_ & H1 & _). rewrite Nat2Z.id, lookup_app_r, Hl, Nat.sub_diag by lia. cbn. rewrite H1 by lia.
      unfold word. by rewrite Nat2Z.id.
    + rewrite lookup_app_l by lia. apply H2; lia.
  - split; [done|]. split; [done|]. intros H. split; [done|]. intros; lia.
  - intros ws m' Hl (HR & _ & Hs). apply HQ; [done..|]. intros H. destruct (Hs H) as [H1 H2]. split; [done|].
    intros j Hj. apply H2; lia.
Qed.

Lemma words_hdr_words ws : length ws = 12%nat -> hdr_words (words_hdr ws) = ws.
Proof.
  intros Hl. do 12 (destruct ws as [|? ws]; [done|]). destruct ws; [|done]. unfold hdr_words, words_hdr. cbn.
  do 3 f_equal. f_equal. pose proof (Z.div_mod z2 (2 ^ 8) ltac:(lia)) as H1.
  pose proof (Z.div_mod (z2 / 2 ^ 8) (2 ^ 8) ltac:(lia)) as H2. rewrite Z.div_div in H2 by lia.
  change (2 ^ 8 * 2 ^ 8) with (2 ^ 16) in H2. change (2 ^ 16) with (2 ^ 8 * 2 ^ 8) at 1. lia.
Qed.

(** What a header that was read without an error tells. *)
Record try_ok (w w' : Wal) (m' : mem) : Prop := {
  to_rest : exists sz, w' = set_szPage (set_hdr w (hdr w')) sz;
  to_hdr : hdr_words (hdr w') = old \/ (hdr_words (hdr w') = new /\ stage2 m') }.

Lemma walIndexTryHdr_rg present G w m Q :
  length old = 12%nat -> length new = 12%nat -> mapped w 0 = true ->
  stage1 m \/ stage2 m -> (1 <= c -> index_ok m f' c) ->
  (forall bad w' ch m', commit_rely m m' -> (bad = false -> try_ok w w' m') -> Q (bad, w', ch) m') ->
  rg present commit_rely G (walIndexTryHdr w) Q m.
Proof.
  intros Lo Ln H0 Hst Hok HQ. unfold walIndexTryHdr. apply rg_insist.
  { pose proof (mapped_len w 0 ltac:(lia) H0). rewrite H0, andb_true_r. by apply Z.ltb_lt. }
  rg_bind. apply read_copy0; [done..|]. intros h1 m1 L1 HR1 H1. rg_bind. apply read_copy1. intros h2 m2 L2 HR2 H2.
  case_bool_decide as Heq; cbn [negb]; [subst h2|].
  2: { apply rg_done. intros m3 HR3. apply HQ; [|done]. transitivity m1; [done|]. by transitivity m2. }
  assert (Hh : h1 = old \/ (h1 = new /\ stage2 m2)).
  { destruct H1 as [H1|[_ H1]]; [right|left].
    - destruct (H2 H1) as [H2' Hw]. split; [|done]. by apply has_eq.
    - by apply has_eq. }
  assert (HR02 : commit_rely m m2) by (by transitivity m1).
  assert (Hend : forall bad w' ch, (bad = false -> (exists sz, w' = set_szPage (set_hdr w (hdr w')) sz) /\ hdr_words (hdr w') = h1) ->
    rg present commit_rely G (Done (bad, w', ch)) Q m2).
  { intros bad w' ch Hw. apply rg_done. intros m3 HR3. apply HQ; [by transitivity m2|]. intros Hb.
    destruct (Hw Hb) as [Hs Hx]. split; [done|]. rewrite Hx. destruct Hh as [Hh|[Hh Hs2]]; [by left|right].
    split; [done|]. by apply (cr_stage2 _ _ HR3). }
  case_bool; [by apply Hend|]. destruct (walChecksumBytes true (take 10 h1) None) as [ck|] eqn:Hck.
  2: { do 12 (destruct h1 as [|? h1]; [done|]). discriminate Hck. }
  case_bool_decide; cbn [negb]; [|by apply Hend].
  case_bool_decide as Hsame; cbn [negb]; apply Hend; intros _.
  - split; [|done]. exists (w_szPage w). by destruct w.
  - cbn [hdr set_szPage set_hdr]. rewrite words_hdr_words by done. split; [by eexists|done].
Qed.

(** The reader loads the header, and searches the log that it describes. *)
Definition snapshot_search (w : Wal) (pgno : Z) : prog (option (Wal * Z * Z)) :=
  '(bad, w, _) ← walIndexTryHdr w;
  if negb bad then r ← sqlite3WalFindFrame w pgno; Done (Some r) else Done None.

Record snapshot_reader (present : Z -> Prop) (w : Wal) (pgno : Z) : Prop := {
  sr_min : 1 <= minFrame w < 2 ^ 31;
  sr_page : 0 < pgno;
  sr_lock : 0 < readLock w;
  sr_map : mapped w 0 = true;
  sr_present pg : 0 <= pg <= walFramePage n -> can_map present w pg }.

(** The log before the commit, or that after it. *)
Definition snapshot_result (w : Wal) (pgno : Z) (res : option (Wal * Z * Z)) : Prop :=
  forall w' rc r, res = Some (w', rc, r) ->
    (hdr_words (hdr w') = old \/ hdr_words (hdr w') = new) /\
    (rc = SQLITE_OK -> is_last_frame f' (mxFrame (hdr w')) pgno (minFrame w) r).

Lemma snapshot_search_rg present w pgno m :
  length old = 12%nat -> length new = 12%nat -> word old 4 = c -> word new 4 = n -> 0 <= c <= n -> n < 2 ^ 31 ->
  snapshot_reader present w pgno -> stage1 m \/ stage2 m -> index_ok m f' c ->
  rg present commit_rely (fun _ _ => False) (snapshot_search w pgno) (fun res _ => snapshot_result w pgno res) m.
Proof.
  intros Lo Ln Ec En Hcn Hn [S1 S2 S3 S4 S5] Hst Hok. unfold snapshot_search. rg_bind.
  apply walIndexTryHdr_rg; [done..|]. intros bad w1 ch m1 HR1 Ht. destruct bad; cbn [negb]; [by apply rg_done|].
  destruct (Ht eq_refl) as [[sz Hw1] Hh]. rg_bind.
  assert (Hf : minFrame w1 = minFrame w /\ readLock w1 = readLock w /\ writeLock w1 = writeLock w /\ apWiData w1 = apWiData w)
    by (rewrite Hw1; by destruct w).
  destruct Hf as (Fm & Fl & Fw & Fa).
  assert (Emx : mxFrame (hdr w1) = word (hdr_words (hdr w1)) 4) by done.
  assert (Hbd : 0 <= mxFrame (hdr w1) <= n) by (rewrite Emx; destruct Hh as [->|[-> _]]; lia).
  assert (Hres : forall rc r w', maps_more w1 w' -> (rc = SQLITE_OK -> is_last_frame f' (mxFrame (hdr w1)) pgno (minFrame w1) r) ->
    snapshot_result w pgno (Some (w', rc, r))).
  { intros rc r w' Hm Hl ? ? ? [= <- <- <-]. rewrite <- Fm.
    assert (hdr w' = hdr w1) as -> by (rewrite (mm_rest _ _ Hm); by destruct w1). split; [|done].
    destruct Hh as [Hh|[Hh _]]; auto. }
  destruct (decide (mxFrame (hdr w1) = 0)) as [E0|E0].
  { unfold sqlite3WalFindFrame. rewrite E0. apply rg_insist; [apply Z.leb_le; lia|]. cbn. intros m2 _ m3 _. apply Hres; [done|]. intros _. left. rewrite E0. split; [done|lia]. }
  apply (rg_mono present commit_rely _ _ (fun res _ => snapshot_result w pgno (Some res))).
  { intros res m2 Hr. by apply rg_done. }
  assert (Hfind : index_ok m1 f' (mxFrame (hdr w1)) ->
    rg present (rely true (mxFrame (hdr w1))) (fun _ _ => False) (sqlite3WalFindFrame w1 pgno)
      (fun res _ => snapshot_result w pgno (Some res)) m1).
  { intros Hi. apply FindFrame_rg with (f := f'); try done; try lia.
    - unfold mapped. by rewrite Fa.
    - intros pg Hp. destruct (S5 pg) as [H|H]; [|by left|right; by rewrite Fw].
      pose proof (walFramePage_mono (mxFrame (hdr w1)) n ltac:(lia) ltac:(lia)). lia.
    - intros [[w' rc] r] m' _ (Hm & Hl & _). by apply Hres. }
  destruct Hh as [Hh|[Hh Hs2]].
  - assert (E : mxFrame (hdr w1) = c) by (by rewrite Emx, Hh). rewrite E in *.
    apply (rg_weaken _ (rely true c)); [intros m2 m3 HR; apply (cr_rely _ _ HR); lia|]. apply Hfind.
    apply (unchanged_ok c f' m); [apply (cr_rely _ _ HR1); lia|done].
  - assert (E : mxFrame (hdr w1) = n) by (by rewrite Emx, Hh). rewrite E in *.
    apply (rg_mono present commit_rely _ _ (fun res m => stage2 m /\ snapshot_result w pgno (Some res))); [by intros res m2 [_ H]|].
    apply (rg_conseq _ stage2 (rely true n)) with (G := fun _ _ => False); [|done|done|].
    + intros m2 m3 H2 HR. by apply (cr_stage2 _ _ HR).
    + apply Hfind. apply Hs2.
Qed.
End stages.

(** ** The writer *)

Lemma walChecksumBytes_some b ws :
  length ws = 10%nat -> walChecksumBytes b ws None = Some (walChecksumBytes_loop b ws 0 0).
Proof. intros Hl. unfold walChecksumBytes. by rewrite Hl. Qed.

Lemma sealed_some h : exists ck, sealed h = Some (set_aCksum (set_init h) ck).
Proof. unfold sealed. rewrite walChecksumBytes_some by done. by eexists. Qed.

Lemma header_same_page m j v pg : 0 <= j < 34 -> 0 <= pg ->
  (forall k, slot_at (<[Word 0 j := v]> m) pg k = slot_at m pg k) /\
  (forall i, 1 <= i -> pgno_at (<[Word 0 j := v]> m) pg i = pgno_at m pg i).
Proof.
  intros Hj Hp. split; [intros; apply slot_insert_word|]. intros i Hi. unfold pgno_at. rewrite rd_insert.
  case_decide as E; [|done]. injection E as <- E. unfold base in E. cbn in E. lia.
Qed.

Lemma header_inv m f n mx j v : 0 <= j < 34 -> writer_inv m f n mx -> writer_inv (<[Word 0 j := v]> m) f n mx.
Proof.
  intros Hj [W1 W2 W3 W4]. split; [|intros pg Hp Hl|done|done].
  - apply (unchanged_ok n f m); [|done]. apply (rely_unchanged true n), header_rely; done.
  - destruct (W2 pg Hp Hl) as (J & [F1 F2 F3 F4] & HJ). exists J. split; [|done].
    destruct (header_same_page m j v pg Hj Hp) as [Hs Hq]. split; [..|done].
    + intros k. rewrite Hs. apply F1.
    + intros k k'. rewrite !Hs. apply F2.
    + intros i Hi. rewrite Hq by lia. by apply F3.
Qed.

Section writer.
Context (present : Z -> Prop) (old new : list Z) (c k : Z) (f' : Z -> Z).
Hypothesis Lnew : length new = 12%nat.
Abbreviation G := (commit_rely old new c k f').

(** A store of the header, in either stage. *)
Lemma header_store m i j :
  i = 0 \/ i = 1 -> 0 <= j < 12 -> index_ok m f' k ->
  (i = 1 -> stage1 old new m) -> (i = 0 -> mixed old new m 0 /\ has m 1 new) ->
  let m' := <[Word 0 (aHdr i + j) := word new j]> m in
  G m m' /\ index_ok m' f' k /\ (i = 1 -> stage1 old new m') /\ (i = 0 -> mixed old new m' 0 /\ has m' 1 new).
Proof.
  intros Hi Hj Hok H1 H0 m'.
  assert (Hr : forall n, rely true n m m') by (intros n; apply header_rely; unfold aHdr; lia).
  assert (Hok' : index_ok m' f' k) by (apply (unchanged_ok k f' m); [apply Hr|done]).
  assert (S1 : i = 1 -> stage1 old new m').
  { intros ->. destruct (H1 eq_refl) as [Ha Hb]. split; [by apply has_other|by apply mixed_store]. }
  assert (S0 : i = 0 -> mixed old new m' 0 /\ has m' 1 new).
  { intros ->. destruct (H0 eq_refl) as [Ha Hb]. split; [by apply mixed_store|by apply has_other]. }
  split; [|done]. split.
  - intros _. apply Hr.
  - intros _. destruct Hi as [->| ->]; [right|left; by apply S1]. destruct (S0 eq_refl). by split.
  - intros (Ha & Hb & _). split; [|apply Hr]. split; [by apply mixed_store|]. split; [|done].
    intros j' Hj'. unfold m'. rewrite rd_insert. case_decide as E; [|by apply Hb].
    injection E as E. unfold aHdr in E. by assert (j = j') as -> by lia.
Qed.

(** A copy of the header stored word by word. *)
Lemma store_copy_rg i mx Q m :
  i = 0 \/ i = 1 -> writer_inv m f' k mx ->
  (i = 1 -> stage1 old new m) -> (i = 0 -> mixed old new m 0 /\ has m 1 new) ->
  (forall m', writer_inv m' f' k mx -> has m' i new -> (i = 1 -> has m' 0 old) -> (i = 0 -> has m' 1 new) -> Q () m') ->
  rg present eq G (store_words new (aHdr i)) Q m.
Proof.
  intros Hi HW H1 H0 HQ.
  apply (store_words_rg present G new (aHdr i) (fun j m' =>
    writer_inv m' f' k mx /\ (i = 1 -> stage1 old new m') /\ (i = 0 -> mixed old new m' 0 /\ has m' 1 new) /\
    forall j', 0 <= j' < j -> rd m' (Word 0 (aHdr i + j')) = word new j')).
  - rewrite Lnew. intros j m1 Hj (A1 & A2 & A3 & A4).
    destruct (header_store m1 i j Hi ltac:(lia) (wi_index _ _ _ _ A1) A2 A3) as (HG & _ & B2 & B3).
    split; [done|]. split; [apply header_inv; [unfold aHdr; lia|done]|]. split; [done|]. split; [done|].
    intros j' Hj'. rewrite rd_insert. case_decide as E; [|apply A4].
    + injection E as E. by assert (j = j') as -> by lia.
    + assert (j' <> j) by congruence. lia.
  - split_and!; try done. intros; lia.
  - rewrite Lnew. intros m' (A1 & A2 & A3 & A4). apply HQ; [done|done|intros E; by apply A2|intros E; by apply A3].
Qed.

(** [walIndexWriteHdr], copy 1 first. *)
Lemma walIndexWriteHdr_rg w h mx Q m :
  writeLock w = true -> sealed (hdr w) = Some h -> hdr_words h = new -> writer_inv m f' k mx ->
  has m 0 old -> has m 1 old ->
  (forall m', writer_inv m' f' k mx -> has m' 0 new -> has m' 1 new -> Q (set_hdr w h) m') ->
  rg present eq G (walIndexWriteHdr w) Q m.
Proof.
  intros Hwl Hs Eh HW Ho0 Ho1 HQ. unfold walIndexWriteHdr. apply rg_insist; [done|]. rewrite Hs, Eh.
  rg_bind. apply (store_copy_rg 1 mx); [by right|done| |done|].
  { intros _. split; [done|by apply has_mixed]. }
  intros m1 W1 N1 O1 _. rg_bind. apply (store_copy_rg 0 mx); [by left|done|done| |].
  { intros _. split; [apply has_mixed; by apply O1|done]. }
  intros m2 W2 N2 _ N3. apply rg_done. intros m' <-. apply HQ; [done|done|by apply N3].
Qed.
End writer.

(** The header that a commit of frames up to [k] writes. *)
Definition new_header (w : Wal) (szPage nTruncate k : Z) (h : WalIndexHdr) : Prop :=
  sealed (set_committed (hdr w) true szPage k nTruncate) = Some h.

Lemma new_header_fields w szPage nTruncate k h :
  new_header w szPage nTruncate k h ->
  mxFrame h = k /\ nPage h = nTruncate /\ iChange h = wrap_u 32 (iChange (hdr w) + 1).
Proof.
  unfold new_header. intros H. destruct (sealed_some (set_committed (hdr w) true szPage k nTruncate)) as [ck Hck].
  rewrite Hck in H. by injection H as <-.
Qed.

Lemma wrap_succ x : 0 <= x < 2 ^ 32 -> wrap_u 32 (x + 1) <> x.
Proof.
  intros Hx. unfold wrap_u. destruct (decide (x + 1 < 2 ^ 32)) as [H|H].
  - rewrite Z.mod_small by lia. lia.
  - assert (x + 1 = 2 ^ 32) as -> by lia. rewrite Z.mod_same by done. lia.
Qed.

Lemma finish_rg present w szPage nTruncate pages f n c old h m :
  let k := n + Z.of_nat (length pages) in
  0 <= n -> k + 1 < 2 ^ 31 -> Forall (fun p => 0 < p) pages -> 0 <= c <= n ->
  writeLock w = true -> mapped w 0 = true -> mxFrame (hdr w) = n -> 0 <= iChange (hdr w) < 2 ^ 32 ->
  writer_inv m f n n -> no_leftover m n -> has m 0 old -> has m 1 old -> word old 2 = iChange (hdr w) ->
  new_header w szPage nTruncate k h ->
  rg present eq (commit_rely old (hdr_words h) c k (upds f n pages))
    (sqlite3WalFrames_finish w szPage nTruncate true pages)
    (fun '(w', rc, cb) m' =>
       (rc = SQLITE_OK -> cb = Some k /\ hdr w' = h /\ has m' 0 (hdr_words h) /\ has m' 1 (hdr_words h) /\
          writer_inv m' (upds f n pages) k k) /\
       (rc <> SQLITE_OK -> has m' 0 old /\ has m' 1 old)) m.
Proof.
  intros k Hn Hk Hp Hc Hwl H0 Emx Hch HW Hno Ho0 Ho1 E2 Hh. unfold sqlite3WalFrames_finish. rewrite Emx. rg_bind.
  set (Q1 := fun (res : Wal * Z * Z) (m' : mem) => let '(w', rc, k') := res in maps_more w w' /\
    (rc = SQLITE_OK -> k' = k /\ writer_inv m' (upds f n pages) k n)).
  apply (rg_mono present eq _ _ (fun res m' => (has m' 0 old /\ has m' 1 old) /\ Q1 res m')).
  2: { apply (rg_conseq present (fun m' => has m' 0 old /\ has m' 1 old) eq eq (guar true n)); [by intros ?? H ->|..].
    - intros m1 m2 [A0 A1] [G1 G2].
      assert (A' : has m2 0 old /\ has m2 1 old) by (split; intros j Hj; rewrite G2 by (unfold aHdr; lia); auto).
      split; [done|]. split; [intros Hc1; apply G1; lia|left; split; [apply A'|apply has_mixed, A']|].
      intros (_ & B1 & _). exfalso. specialize (A1 2 ltac:(lia)). rewrite (B1 2), E2 in A1 by lia.
      destruct (new_header_fields _ _ _ _ _ Hh) as (_ & _ & Ei).
      change (word (hdr_words h) 2) with (iChange h) in A1. rewrite Ei in A1. by apply (wrap_succ (iChange (hdr w))).
    - done.
    - apply frames_index_rg with (f := f); try done. intros w' rc k' m' Hm Hok. split; [done|].
      intros Hrc. by destruct (Hok Hrc) as [-> ?]. }
  intros [[w1 rc] k'] m1 [[A0 A1] [Hm Hok]]. destruct (rc =? SQLITE_OK) eqn:Erc; bool_to_prop; cbn [negb].
  2: { apply rg_done. intros m' <-. by split. }
  destruct (Hok Erc) as [-> HW1]. rg_bind.
  assert (Ehd : hdr w1 = hdr w) by (rewrite (mm_rest _ _ Hm); by destruct w).
  apply (walIndexWriteHdr_rg present old (hdr_words h) c k _ (hdr_words_length h) _ h n); try done.
  - etransitivity; [apply (maps_more_fields _ _ Hm)|done].
  - by rewrite Ehd.
  - intros m2 HW2 N0 N1. apply rg_done. intros m' <-. split; [|done]. intros _. split_and!; try done.
    by eapply writer_commit.
Qed.

(** ** Readers beside a commit *)

Lemma index_ok_upds m f n pages : index_ok m f n -> index_ok m (upds f n pages) n.
Proof.
  intros H pg Hp. apply (table_ok_ext m pg f); [|done|by apply H]. intros i Hi.
  rewrite upds_lookup. by rewrite decide_False by lia.
Qed.

Definition result : Type := (Wal * Z * option Z) + option (Wal * Z * Z).

Definition commit_thread (w : Wal) (szPage nTruncate : Z) (pages : list Z) : prog result :=
  r ← sqlite3WalFrames_finish w szPage nTruncate true pages; Done (inl r).
Definition search_thread (r : Wal * Z) : prog result := res ← snapshot_search r.1 r.2; Done (inr res).

(** C26: A commit is atomic.  While a writer enters the frames of a transaction in the
    index and rewrites the header, one access at a time, any number of connections load
    the two copies of the header and search the log that it describes: whatever the
    interleaving, no assert fails; a header that is accepted is wholly the one before
    the commit or wholly the one after, and the search that follows finds the last
    frame of the page in that log.  When the writer is done, both copies are the new
    header, and the index lists the new log. *)
Theorem commit_atomic present w szPage nTruncate pages f n h0 h readers m m' ps' :
  let k := n + Z.of_nat (length pages) in
  0 <= n -> k + 1 < 2 ^ 31 -> Forall (fun p => 0 < p) pages ->
  writeLock w = true -> mapped w 0 = true -> mxFrame (hdr w) = n -> 0 <= iChange (hdr w) < 2 ^ 32 ->
  writer_inv m f n n -> no_leftover m n ->
  has m 0 (hdr_words h0) -> has m 1 (hdr_words h0) -> iChange h0 = iChange (hdr w) -> 0 <= mxFrame h0 <= n ->
  new_header w szPage nTruncate k h -> Forall (fun r => snapshot_reader k present r.1 r.2) readers ->
  steps present (m, commit_thread w szPage nTruncate pages :: (search_thread <$> readers)) (m', ps') ->
  (forall p, ps' !! 0%nat = Some p -> p <> Stuck /\
     forall w' rc cb, p = Done (inl (w', rc, cb)) -> rc = SQLITE_OK ->
       cb = Some k /\ hdr w' = h /\ has m' 0 (hdr_words h) /\ has m' 1 (hdr_words h) /\ writer_inv m' (upds f n pages) k k) /\
  (forall i wr pgno p, readers !! i = Some (wr, pgno) -> ps' !! S i = Some p -> p <> Stuck /\
     forall w' rc r, p = Done (inr (Some (w', rc, r))) ->
       (hdr_words (hdr w') = hdr_words h0 \/ hdr_words (hdr w') = hdr_words h) /\
       (rc = SQLITE_OK -> is_last_frame (upds f n pages) (mxFrame (hdr w')) pgno (minFrame wr) r)).
Proof.
  intros k Hn Hk Hp Hwl H0 Emx Hch HW Hno Ha0 Ha1 Ei Hc Hh Hrd Hst.
  set (old := hdr_words h0) in *. set (new := hdr_words h) in *. set (f' := upds f n pages) in *. set (c := mxFrame h0) in *.
  set (R := commit_rely old new c k f').
  set (ws := mkSpec eq R (fun (res : result) m' => forall w' rc cb, res = inl (w', rc, cb) -> rc = SQLITE_OK ->
    cb = Some k /\ hdr w' = h /\ has m' 0 new /\ has m' 1 new /\ writer_inv m' f' k k)).
  set (rs := fun r : Wal * Z => mkSpec R (fun _ _ => False) (fun (res : result) (_ : mem) => forall x, res = inr x ->
    snapshot_result old new f' r.1 r.2 x)).
  assert (Hcomp : compatible (ws :: (rs <$> readers))).
  { split.
    - intros [|i] s Hs; [injection Hs as <-; cbn; apply _|]. cbn in Hs. apply list_lookup_fmap_Some in Hs as (r & -> & _).
      cbn. apply _.
    - intros [|i] j s s' Hs Hs' Hne m1 m2 HG; cbn in Hs.
      + injection Hs as <-. destruct j as [|j]; [done|]. cbn in Hs'. by apply list_lookup_fmap_Some in Hs' as (r & -> & _).
      + apply list_lookup_fmap_Some in Hs as (r & -> & _). destruct HG. }
  assert (Hth : Forall2 (thread_ok present m) (ws :: (rs <$> readers))
    (commit_thread w szPage nTruncate pages :: (search_thread <$> readers))).
  { constructor.
    - unfold thread_ok, commit_thread. cbn.
      eapply rg_wrap; [apply _| |apply (finish_rg present w szPage nTruncate pages f n c old h); try done].
      intros [[w' rc] cb] m1 m2 [Hok _] <- ? ? ? [= <- <- <-] Hrc. by apply Hok.
    - apply Forall2_fmap, Forall_Forall2_diag. eapply Forall_impl; [exact Hrd|]. intros r Hr.
      unfold thread_ok, search_thread. cbn. eapply rg_wrap; [apply _| |apply (snapshot_search_rg old new c k f'); try done; try lia].
      + intros x m1 m2 Hx _ ? [= <-]. done.
      + destruct (new_header_fields _ _ _ _ _ Hh) as (Hm & _ & _). done.
      + left. split; [done|by apply has_mixed].
      + by apply (index_ok_le m f' n), (index_ok_upds m f n pages); [lia|apply (wi_index _ _ _ _ HW)]. }
  split.
  - intros p Hp'. destruct (steps_safe present _ m _ m' ps' 0 ws p Hcomp Hth Hst) as [Hs HQ]; [done..|].
    split; [done|]. intros w' rc cb -> Hrc. by apply (HQ _ eq_refl w' rc cb).
  - intros i wr pgno p Hi Hp'.
    destruct (steps_safe present _ m _ m' ps' (S i) (rs (wr, pgno)) p Hcomp Hth Hst) as [Hs HQ]; [|done|].
    { apply list_lookup_fmap_Some. by exists (wr, pgno). }
    split; [done|]. intros w' rc r ->. by apply (HQ _ eq_refl _ eq_refl w' rc r).
Qed.

(** ** The header alone *)

Lemma load_words_run m ws i :
  (forall j, 0 <= j < Z.of_nat (length ws) -> rd m (Word 0 (i + j)) = word ws j) ->
  run (load_words (length ws) i) m = Some (ws, m).
Proof.
  revert i. induction ws as [|x ws IH]; intros i H; [done|]. cbn [length load_words] in *.
  rewrite run_bind. cbn [load run mbind option_bind]. rewrite run_bind, IH.
  - cbn. specialize (H 0 ltac:(lia)). rewrite Z.add_0_r in H. by rewrite H.
  - intros j Hj. replace (i + 1 + j) with (i + (j + 1)) by lia. rewrite H by lia. unfold word.
    by replace (Z.to_nat (j + 1)) with (S (Z.to_nat j)) by lia.
Qed.

Lemma load_copy m i ws :
  length ws = 12%nat -> has m i ws -> run (load_words 12 (aHdr i)) m = Some (ws, m).
Proof. intros Hl Hm. rewrite <- Hl. apply load_words_run. by rewrite Hl. Qed.

Lemma write_header_run w h m :
  writeLock w = true -> sealed (hdr w) = Some h ->
  exists m', run (walIndexWriteHdr w) m = Some (set_hdr w h, m') /\ has m' 0 (hdr_words h) /\ has m' 1 (hdr_words h).
Proof.
  intros Hwl Hs.
  assert (Hrg : rg (fun _ => True) eq (fun _ _ => True) (walIndexWriteHdr w)
    (fun w' m' => w' = set_hdr w h /\ has m' 0 (hdr_words h) /\ has m' 1 (hdr_words h)) m).
  { unfold walIndexWriteHdr. apply rg_insist; [done|]. rewrite Hs. rg_bind.
    set (P := fun i j (m' : mem) => forall j', 0 <= j' < j -> rd m' (Word 0 (aHdr i + j')) = word (hdr_words h) j').
    assert (Hstep : forall i j m', 0 <= j -> P i j m' -> P i (j + 1) (<[Word 0 (aHdr i + j) := word (hdr_words h) j]> m')).
    { intros i j m' Hj Hp j' Hj'. rewrite rd_insert. case_decide as E.
      - injection E as E. by assert (j = j') as -> by lia.
      - apply Hp. assert (j <> j') by congruence. lia. }
    apply (store_words_rg _ _ _ _ (P 1)).
    { intros j m' Hj Hp. split; [done|]. apply Hstep; [lia|done]. }
    { intros j Hj. lia. }
    rewrite hdr_words_length. intros m1 H1. rg_bind.
    apply (store_words_rg _ _ _ _ (fun j m' => P 0 j m' /\ has m' 1 (hdr_words h))).
    { intros j m' Hj [Hp Hh]. split; [done|]. split; [apply Hstep; [lia|done]|].
      apply has_other; [|done|done]. rewrite hdr_words_length in Hj. lia. }
    { split; [intros j Hj; lia|done]. }
    rewrite hdr_words_length. intros m2 [H0 H1']. by apply rg_done; intros ? <-. }
  destruct (rg_run _ _ _ _ _ Hrg) as (w' & m' & Hrun & -> & H0 & H1). eauto.
Qed.

Lemma words_hdr_id h : 0 <= isInit h < 2 ^ 8 -> 0 <= bigEndCksum h < 2 ^ 8 -> words_hdr (hdr_words h) = h.
Proof.
  intros Hi Hb. unfold words_hdr, hdr_words. destruct h as [v u ch i b s mx n [f1 f2] [s1 s2] [c1 c2]].
  cbn in *. change (2 ^ 8) with 256 in *. change (2 ^ 16) with 65536 in *.
  assert (E1 : (i + 256 * b + 65536 * s) mod 256 = i).
  { replace (i + 256 * b + 65536 * s) with (i + (b + 256 * s) * 256) by lia. rewrite Z.mod_add by done. by apply Z.mod_small. }
  assert (E2 : (i + 256 * b + 65536 * s) / 256 = b + s * 256).
  { replace (i + 256 * b + 65536 * s) with (i + (b + s * 256) * 256) by lia. rewrite Z.div_add, Z.div_small by lia. lia. }
  assert (E3 : (i + 256 * b + 65536 * s) / 65536 = s).
  { change 65536 with (256 * 256) at 2. rewrite <- Z.div_div by lia. rewrite E2, Z.div_add, Z.div_small by lia. lia. }
  rewrite E1, E2, E3, Z.mod_add, Z.mod_small by lia. done.
Qed.

Lemma szPage_decode e : 9 <= e <= 16 ->
  Z.land (szPage_u16 (2 ^ e)) 0xfe00 + Z.shiftl (Z.land (szPage_u16 (2 ^ e)) 1) 16 = 2 ^ e.
Proof.
  intros He. assert (Hin : e ∈ seqZ 9 8) by (apply elem_of_seqZ; lia). revert e Hin He.
  apply (Forall_forall (fun e => 9 <= e <= 16 -> _) (seqZ 9 8)). repeat constructor.
Qed.

(** C33: The header of the wal-index is read as it was written.  After
    [walIndexWriteHdr], [walIndexTryHdr] of any connection accepts the header: if it
    differs from the one that the connection has, the connection gets it, with the page
    size, every power of two from 512 to 65536, that 16 bits stand for; otherwise the
    connection does not change. *)
Theorem header_roundtrip w r e m :
  writeLock w = true -> mapped r 0 = true -> 0 <= bigEndCksum (hdr w) < 2 ^ 8 ->
  9 <= e <= 16 -> szPage16 (hdr w) = szPage_u16 (2 ^ e) ->
  exists w1 m1 r' changed,
    run (walIndexWriteHdr w) m = Some (w1, m1) /\
    run (walIndexTryHdr r) m1 = Some ((false, r', changed), m1) /\
    (changed = true -> hdr r' = hdr w1 /\ w_szPage r' = 2 ^ e /\ hdr_words (hdr r) <> hdr_words (hdr w1)) /\
    (changed = false -> r' = r /\ hdr_words (hdr r) = hdr_words (hdr w1)).
Proof.
  intros Hwl H0 Hb He Hsz. destruct (sealed_some (hdr w)) as [ck Hs]. set (h := set_aCksum _ ck) in *.
  destruct (write_header_run w h m Hwl Hs) as (m1 & Hrun & N0 & N1).
  exists (set_hdr w h), m1. unfold walIndexTryHdr.
  assert (Hlen : (0 <? nWiData r) && mapped r 0 = true).
  { pose proof (mapped_len r 0 ltac:(lia) H0). rewrite H0, andb_true_r. by apply Z.ltb_lt. }
  unfold insist. rewrite Hlen.
  rewrite run_bind, (load_copy m1 0 (hdr_words h)) by done. cbn [mbind option_bind].
  rewrite run_bind, (load_copy m1 1 (hdr_words h)) by done. cbn [mbind option_bind].
  rewrite bool_decide_true by done. cbn [negb]. rewrite words_hdr_id by (cbn; lia). cbn [isInit h set_aCksum set_init].
  assert (Hck : walChecksumBytes true (take 10 (hdr_words h)) None = Some ck).
  { unfold sealed in Hs. apply bind_Some in Hs as (c & Hc & E). injection E as ->. exact Hc. }
  rewrite Hck. cbn. rewrite bool_decide_true by done. cbn [negb].
  destruct (decide (hdr_words (hdr r) = hdr_words h)) as [E|E].
  - rewrite bool_decide_true by done. cbn. exists r, false. done.
  - rewrite bool_decide_false by done. cbn [negb run].
    exists (set_szPage (set_hdr r h) (2 ^ e)), true. split; [done|]. split; [|done]. do 4 f_equal.
    cbn. rewrite Hsz. by rewrite szPage_decode.
Qed.
