(* ===== verification/WalLogSpec.v ===== *)
(** The format of the log, as the comment at the top of wal.c defines it: which frames of
    a log are valid, and which of them recovery keeps. *)
From S2P Require Import Prelude SharedMem WalIndex WalIndexSpec WalHeader WalFile WalLog.

(** ** The header of the log *)

Record log_format := mkFormat {
  lf_bigEnd : Z;
  lf_szPage : Z;
  lf_nCkpt : Z;
  lf_salt : Z * Z;
  lf_cksum : Z * Z }.

(** The word at an offset of the log, in the order of the machine, and as a big-endian
    number. *)
Definition log_word (m : mem) (off : Z) : Z := rd m (LogAt off).
Definition log_be (m : mem) (off : Z) : Z := BYTESWAP32 (log_word m off).

Definition checksum (bigEnd : Z) (ws : list Z) (c : Z * Z) : Z * Z :=
  walChecksumBytes_loop (bigEnd =? SQLITE_BIGENDIAN) ws c.1 c.2.

(** The header of a log of this version. *)
Definition log_header_at (m : mem) : option log_format :=
  let bigEnd := Z.land (log_be m 0) 1 in
  let szPage := wrap_s 32 (log_be m 8) in
  let c := checksum bigEnd [log_word m 0; log_word m 4; log_word m 8; log_word m 12; log_word m 16; log_word m 20] (0, 0) in
  if (Z.land (log_be m 0) 0xFFFFFFFE =? WAL_MAGIC)
     && (Z.land szPage (wrap_s 32 (szPage - 1)) =? 0) && (512 <=? szPage) && (szPage <=? SQLITE_MAX_PAGE_SIZE)
     && bool_decide (c = (log_be m 24, log_be m 28)) && (log_be m 4 =? WAL_MAX_VERSION)
  then Some (mkFormat bigEnd szPage (log_be m 12) (log_word m 16, log_word m 20) c) else None.

(** A log has frames if there is something behind its header. *)
Definition log_header (m : mem) : option log_format := if WAL_HDRSIZE <? rd m LogSize then log_header_at m else None.

(** ** Frames *)

Section format.
Context (fmt : log_format).

Definition frame_off (i : Z) : Z := walFrameOffset i (lf_szPage fmt).

(** The checksum up to frame [i], from that of the frames before it. *)
Definition frame_sum (m : mem) (i : Z) (c : Z * Z) : Z * Z :=
  checksum (lf_bigEnd fmt) (page_words (lf_szPage fmt) (log_word m (frame_off i + 24)))
    (checksum (lf_bigEnd fmt) [log_word m (frame_off i); log_word m (frame_off i + 4)] c).

(** Frame [i] is in the log and valid after frames with the checksum [c]: its page, the
    size of the database if it is a commit, and the checksum. *)
Definition frame_at (m : mem) (i : Z) (c : Z * Z) : option (Z * Z * (Z * Z)) :=
  let off := frame_off i in
  if (off + WAL_FRAME_HDRSIZE + lf_szPage fmt <=? rd m LogSize)
     && bool_decide (lf_salt fmt = (log_word m (off + 8), log_word m (off + 12)))
     && negb (log_be m off =? 0)
     && bool_decide (frame_sum m i c = (log_be m (off + 16), log_be m (off + 20)))
  then Some (log_be m off, log_be m (off + 4), frame_sum m i c) else None.

(** A log begins with the frames of the list, each a page and a size, and their checksum
    is [c]. *)
Inductive valid_log (m : mem) : list (Z * Z) -> Z * Z -> Prop :=
  | valid_nil : valid_log m [] (lf_cksum fmt)
  | valid_snoc l c pgno nTruncate c' :
      valid_log m l c -> frame_at m (Z.of_nat (length l) + 1) c = Some (pgno, nTruncate, c') ->
      valid_log m (l ++ [(pgno, nTruncate)]) c'.

(** Frames [1] to [length l] and no more. *)
Definition whole_log (m : mem) (l : list (Z * Z)) : Prop :=
  exists c, valid_log m l c /\ frame_at m (Z.of_nat (length l) + 1) c = None.
End format.

(** The valid frames of a log. *)
Definition log_frames (m : mem) (l : list (Z * Z)) : Prop :=
  match log_header m with Some fmt => whole_log fmt m l | None => l = [] end.

(** ** Commits *)

(** The number of frames up to the last commit. *)
Fixpoint last_commit_from (i k : Z) (l : list (Z * Z)) : Z :=
  match l with
  | [] => k
  | (_, nTruncate) :: l => last_commit_from (i + 1) (if nTruncate =? 0 then k else i) l
  end.

Definition last_commit (l : list (Z * Z)) : Z := last_commit_from 1 0 l.

Definition log_page (l : list (Z * Z)) (i : Z) : Z := fst (default (0, 0) (l !! Z.to_nat (i - 1))).
Definition log_size (l : list (Z * Z)) (i : Z) : Z := if i =? 0 then 0 else snd (default (0, 0) (l !! Z.to_nat (i - 1))).

Lemma last_commit_from_snoc i k l p t :
  last_commit_from i k (l ++ [(p, t)]) = if t =? 0 then last_commit_from i k l else i + Z.of_nat (length l).
Proof.
  revert i k. induction l as [|[p' t'] l IH]; intros i k; cbn [last_commit_from app length].
  - by rewrite Z.add_0_r.
  - rewrite IH. case_bool; [done|lia].
Qed.

Lemma last_commit_snoc l p t :
  last_commit (l ++ [(p, t)]) = if t =? 0 then last_commit l else Z.of_nat (length l) + 1.
Proof. unfold last_commit. rewrite last_commit_from_snoc. case_bool; [done|lia]. Qed.

Lemma last_commit_range l : 0 <= last_commit l <= Z.of_nat (length l).
Proof.
  induction l as [|[p t] l IH] using rev_ind; [done|]. rewrite last_commit_snoc, length_app. cbn. case_bool; lia.
Qed.

(** The last commit is a commit, and no frame after it is one. *)
Lemma last_commit_spec l i :
  last_commit l <= i <= Z.of_nat (length l) -> 0 < i -> log_size l i = 0 <-> i <> last_commit l.
Proof.
  induction l as [|[p t] l IH] using rev_ind; [cbn; lia|]. rewrite last_commit_snoc, length_app. cbn [length]. intros Hi H0.
  unfold log_size in *. rewrite (proj2 (Z.eqb_neq i 0)) in * by lia. destruct (decide (i = Z.of_nat (length l) + 1)) as [->|Hne].
  - rewrite lookup_app_r by lia. replace (Z.to_nat (Z.of_nat (length l) + 1 - 1) - length l)%nat with 0%nat by lia. cbn.
    pose proof (last_commit_range l). case_bool; bool_to_prop; lia.
  - rewrite lookup_app_l by lia. case_bool; [|lia]. apply IH; lia.
Qed.

Lemma log_page_snoc l p t i :
  1 <= i <= Z.of_nat (length l) + 1 ->
  log_page (l ++ [(p, t)]) i = if i =? Z.of_nat (length l) + 1 then p else log_page l i.
Proof.
  intros Hi. unfold log_page. case_bool; bool_to_prop.
  - rewrite lookup_app_r by lia. by replace (Z.to_nat (i - 1) - length l)%nat with 0%nat by lia.
  - by rewrite lookup_app_l by lia.
Qed.

Lemma log_size_snoc l p t i :
  0 <= i <= Z.of_nat (length l) -> log_size (l ++ [(p, t)]) i = log_size l i.
Proof. intros Hi. unfold log_size. case_bool; [done|]. bool_to_prop. by rewrite lookup_app_l by lia. Qed.

(** ** What a log holds depends on its contents only *)

Lemma frame_at_ext fmt m m' i c :
  (forall off, frame_off fmt i <= off < frame_off fmt i + WAL_FRAME_HDRSIZE + lf_szPage fmt -> rd m' (LogAt off) = rd m (LogAt off)) ->
  0 < lf_szPage fmt -> frame_off fmt i + WAL_FRAME_HDRSIZE + lf_szPage fmt <= rd m LogSize ->
  frame_off fmt i + WAL_FRAME_HDRSIZE + lf_szPage fmt <= rd m' LogSize ->
  frame_at fmt m' i c = frame_at fmt m i c.
Proof.
  intros H Hs Hl Hl'. unfold frame_at, frame_sum, log_be, log_word. unfold WAL_FRAME_HDRSIZE in *.
  rewrite !H by lia. f_equal. f_equal. f_equal. f_equal. by rewrite !(proj2 (Z.leb_le _ _)) by lia.
Qed.

Lemma frame_at_fits fmt m i c r : frame_at fmt m i c = Some r -> frame_off fmt i + WAL_FRAME_HDRSIZE + lf_szPage fmt <= rd m LogSize.
Proof. unfold frame_at. case_bool; [|done]. bool_to_prop. done. Qed.

Lemma frame_off_next fmt i : frame_off fmt (i + 1) = frame_off fmt i + WAL_FRAME_HDRSIZE + lf_szPage fmt.
Proof. unfold frame_off, walFrameOffset. lia. Qed.

Lemma valid_log_unique fmt m l c c' : valid_log fmt m l c -> valid_log fmt m l c' -> c = c'.
Proof.
  intros H. revert c'. induction H as [|l c p t c1 Hl IH Hf]; intros c' H'.
  - inversion H' as [|l' ? ? ? ? ? ? E]; subst; [done|]. by destruct l'.
  - inversion H' as [E|l' c2 p' t' ? Hl' Hf' E]; subst; [by destruct l|].
    apply app_inj_tail in E as [-> [= -> ->]]. rewrite (IH _ Hl') in Hf. congruence.
Qed.

(** Frames before an offset stay valid while the log does not change before it. *)
Lemma valid_log_ext fmt m m' l c :
  0 < lf_szPage fmt -> valid_log fmt m l c -> frame_off fmt (Z.of_nat (length l) + 1) <= rd m' LogSize ->
  (forall off, WAL_HDRSIZE <= off < frame_off fmt (Z.of_nat (length l) + 1) -> rd m' (LogAt off) = rd m (LogAt off)) ->
  valid_log fmt m' l c.
Proof.
  intros Hs Hv. induction Hv as [|l c p t c1 Hl IH Hf]; intros Hsz H; [constructor|].
  rewrite length_app in H, Hsz. cbn [length] in H, Hsz. replace (Z.of_nat (length l + 1)) with (Z.of_nat (length l) + 1) in H, Hsz by lia.
  rewrite frame_off_next in H, Hsz. econstructor.
  - apply IH; [unfold WAL_FRAME_HDRSIZE in *; lia|]. intros off Hoff. apply H. unfold WAL_FRAME_HDRSIZE. lia.
  - rewrite (frame_at_ext fmt m); [done| |done| |done].
    + intros off Hoff. apply H. assert (WAL_HDRSIZE <= frame_off fmt (Z.of_nat (length l) + 1)); [|lia].
      unfold frame_off, walFrameOffset, WAL_FRAME_HDRSIZE. lia.
    + by eapply frame_at_fits.
Qed.

(** Valid frames fit in the log. *)
Lemma valid_log_fits fmt m l c : valid_log fmt m l c -> l <> [] -> frame_off fmt (Z.of_nat (length l) + 1) <= rd m LogSize.
Proof.
  intros [|l' c' p t c1 Hv Hf] Hl; [done|]. apply frame_at_fits in Hf. rewrite length_app. cbn [length].
  replace (Z.of_nat (length l' + 1)) with (Z.of_nat (length l') + 1) by lia. by rewrite frame_off_next.
Qed.

(** The valid frames of a log are unique: any other list of valid frames is a part. *)
Lemma valid_log_prefix fmt m l c l' : valid_log fmt m l c -> whole_log fmt m l' -> l `prefix_of` l'.
Proof.
  intros Hv. revert l'. induction Hv as [|l c p t c1 Hl IH Hf]; intros l' Hw; [apply prefix_nil|].
  destruct (IH l' Hw) as [[|[p' t'] k] ->]; destruct Hw as (c2 & Hv2 & Hn).
  - rewrite app_nil_r in *. rewrite (valid_log_unique _ _ _ _ _ Hv2 Hl), Hf in Hn. done.
  - clear Hn. revert c2 Hv2. induction k as [|x k IHk] using rev_ind; intros c2 Hv2.
    + inversion Hv2 as [E|l2 c3 p2 t2 ? Hl2 Hf2 E]; [by destruct l|]. apply app_inj_tail in E as [-> [= -> ->]].
      rewrite (valid_log_unique _ _ _ _ _ Hl2 Hl), Hf in Hf2. injection Hf2 as -> -> ->. apply reflexivity.
    + rewrite app_comm_cons, app_assoc in Hv2. inversion Hv2 as [E|l2 c3 p2 t2 ? Hl2 Hf2 E]; [by destruct l|].
      apply app_inj_tail in E as [-> E]. destruct (IHk _ Hl2) as [r Hr]. exists (r ++ [x]).
      rewrite app_comm_cons, (app_assoc l), Hr. by rewrite <- app_assoc.
Qed.

(** ** Big-endian numbers *)

Definition bytes4 (b0 b1 b2 b3 : Z) : Z := b0 + 2 ^ 8 * b1 + 2 ^ 16 * b2 + 2 ^ 24 * b3.

Lemma land_byte x k : 0 <= k -> Z.land x (Z.shiftl 255 k) = (x / 2 ^ k mod 256) * 2 ^ k.
Proof.
  intros Hk. rewrite <- Z.shiftl_mul_pow2 by done. change 256 with (2 ^ 8). rewrite <- Z.land_ones, <- Z.shiftr_div_pow2 by lia.
  apply Z.bits_inj'. intros n Hn. rewrite Z.land_spec, !Z.shiftl_spec by done. destruct (Z.ltb_spec n k).
  - rewrite !(Z.testbit_neg_r _ (n - k)) by lia. apply andb_false_r.
  - rewrite Z.land_spec, Z.shiftr_spec by lia. by replace (n - k + k) with n by lia.
Qed.

Lemma BYTESWAP32_bytes b0 b1 b2 b3 :
  0 <= b0 < 256 -> 0 <= b1 < 256 -> 0 <= b2 < 256 -> 0 <= b3 < 256 -> BYTESWAP32 (bytes4 b0 b1 b2 b3) = bytes4 b3 b2 b1 b0.
Proof.
  intros H0 H1 H2 H3. unfold BYTESWAP32. set (x := bytes4 b0 b1 b2 b3).
  change 0x000000FF with (Z.shiftl 255 0). change 0x0000FF00 with (Z.shiftl 255 8).
  change 0x00FF0000 with (Z.shiftl 255 16). change 0xFF000000 with (Z.shiftl 255 24).
  rewrite !land_byte, !Z.shiftl_mul_pow2, !Z.shiftr_div_pow2 by lia.
  assert (E0 : x / 2 ^ 0 mod 256 = b0) by (unfold x, bytes4; change (2 ^ 0) with 1; Z.to_euclidean_division_equations; lia).
  assert (E1 : x / 2 ^ 8 mod 256 = b1) by (unfold x, bytes4; Z.to_euclidean_division_equations; lia).
  assert (E2 : x / 2 ^ 16 mod 256 = b2) by (unfold x, bytes4; Z.to_euclidean_division_equations; lia).
  assert (E3 : x / 2 ^ 24 mod 256 = b3) by (unfold x, bytes4; Z.to_euclidean_division_equations; lia).
  rewrite E0, E1, E2, E3, wrap_u_id; unfold bytes4.
  - change (2 ^ 16) with (2 ^ 8 * 2 ^ 8). rewrite (Z.mul_assoc b2), !Z.div_mul by lia. lia.
  - change (2 ^ 16) with (2 ^ 8 * 2 ^ 8). rewrite (Z.mul_assoc b2), !Z.div_mul by lia. unfold in_u. lia.
Qed.

Lemma bytes4_of x : in_u 32 x -> x = bytes4 (x mod 256) (x / 2 ^ 8 mod 256) (x / 2 ^ 16 mod 256) (x / 2 ^ 24).
Proof. unfold in_u, bytes4. intros Hx. Z.to_euclidean_division_equations. lia. Qed.

Lemma BYTESWAP32_range x : in_u 32 (BYTESWAP32 x).
Proof. by apply wrap_u_range. Qed.

Lemma BYTESWAP32_twice x : in_u 32 x -> BYTESWAP32 (BYTESWAP32 x) = x.
Proof.
  intros Hx. rewrite (bytes4_of x Hx) at 1. unfold in_u in Hx.
  rewrite !BYTESWAP32_bytes; try (apply Z.mod_pos_bound; lia); [by rewrite <- bytes4_of|..].
  all: split; [apply Z.div_pos; lia|apply Z.div_lt_upper_bound; lia].
Qed.

Lemma checksum_range bigEnd ws c : in_u 32 c.1 -> in_u 32 c.2 ->
  in_u 32 (checksum bigEnd ws c).1 /\ in_u 32 (checksum bigEnd ws c).2.
Proof.
  destruct c as [c1 c2]. unfold checksum. cbn [fst snd]. revert c1 c2.
  assert (H : forall n ws, (length ws <= n)%nat -> forall c1 c2, in_u 32 c1 -> in_u 32 c2 ->
    in_u 32 (walChecksumBytes_loop (bigEnd =? SQLITE_BIGENDIAN) ws c1 c2).1 /\ in_u 32 (walChecksumBytes_loop (bigEnd =? SQLITE_BIGENDIAN) ws c1 c2).2).
  { induction n as [|n IH]; intros [|x [|y ws']]; cbn [walChecksumBytes_loop length]; intros Hl c1 c2 H1 H2; try done; [lia|].
    apply IH; [lia|by apply wrap_u_range..]. }
  intros c1 c2. by apply (H (length ws)).
Qed.
