(* ===== verification/WalIterator.v ===== *)
(** The iterator of a checkpoint (src/sqlite-src-3280000/src/wal.c): it visits the
    pages of the log in ascending order, each with its last frame.

    Each 32 KB page of the index is a segment, whose frames are sorted by page number
    with a merge sort that works in place; the segments are then merged on the fly.
    Indices of arrays are natural numbers; an access outside an array, and a failed
    assert, is [None]. *)
From S2P Require Import Prelude SharedMem WalIndex.

(** ** The merge sort *)

(** The page number that entry [i] of the index [a] stands for. *)
Definition key (aContent : list Z) (a : list nat) (i : nat) : option Z := j ← a !! i; aContent !! j.

Definition check (b : bool) : option unit := if b then Some () else None.

Definition put (a : list nat) (i v : nat) : option (list nat) :=
  if (i <? length a)%nat then Some (<[i := v]> a) else None.

(** [memcpy] of the first [n] elements of [src] to position [o] of [a]. *)
Definition copy_to (a : list nat) (o : nat) (src : list nat) (n : nat) : option (list nat) :=
  if (n <=? length src)%nat && (o + n <=? length a)%nat then Some (list_inserts o (take n src) a) else None.

(** The loop; [aLeft] and [aRight] are positions in [aList].  [fuel] is the number of
    elements left. *)
Fixpoint walMerge_loop (fuel : nat) (aContent : list Z) (aList : list nat) (aLeft nLeft aRight nRight iLeft iRight iOut : nat)
    (aTmp : list nat) : option (nat * list nat) :=
  if (iRight <? nRight)%nat || (iLeft <? nLeft)%nat then
    match fuel with
    | O => None
    | S fuel =>
        takeLeft ←
          (if (iLeft <? nLeft)%nat then
             if (nRight <=? iRight)%nat then Some true
             else l ← key aContent aList (aLeft + iLeft); r ← key aContent aList (aRight + iRight); Some (l <? r)
           else Some false);
        logpage ← aList !! (if (takeLeft : bool) then aLeft + iLeft else aRight + iRight)%nat;
        let iLeft := if (takeLeft : bool) then S iLeft else iLeft in
        let iRight := if (takeLeft : bool) then iRight else S iRight in
        dbpage ← aContent !! logpage;
        aTmp ← put aTmp iOut logpage;
        iLeft ←
          (if (iLeft <? nLeft)%nat then
             l ← key aContent aList (aLeft + iLeft); Some (if l =? dbpage then S iLeft else iLeft)
           else Some iLeft);
        _ ← (if (nLeft <=? iLeft)%nat then Some ()
             else l ← key aContent aList (aLeft + iLeft); check (dbpage <? l));
        _ ← (if (nRight <=? iRight)%nat then Some ()
             else r ← key aContent aList (aRight + iRight); check (dbpage <? r));
        walMerge_loop fuel aContent aList aLeft nLeft aRight nRight iLeft iRight (S iOut) aTmp
    end
  else Some (iOut, aTmp).

(** The arrays, and the new [*paRight] and [*pnRight]. *)
Definition walMerge (aContent : list Z) (aList : list nat) (aLeft nLeft aRight nRight : nat) (aTmp : list nat)
    : option (list nat * list nat * nat * nat) :=
  _ ← check ((0 <? nLeft)%nat && (0 <? nRight)%nat);
  '(iOut, aTmp) ← walMerge_loop (nLeft + nRight) aContent aList aLeft nLeft aRight nRight 0 0 0 aTmp;
  aList ← copy_to aList aLeft aTmp iOut;
  Some (aList, aTmp, aLeft, iOut).

Record Sublist := mkSub { s_nList : nat; s_aList : option nat }.

Definition aSub_size : nat := 13.

(** The merges after entry [iList] is added: one for each bit that is set at the end of
    [iList].  The state is [aList], [aBuffer], [iSub], [aMerge] and [nMerge]. *)
Fixpoint walMergesort_inner (fuel : nat) (aContent : list Z) (aSub : list Sublist) (iList : nat)
    (aList aBuffer : list nat) (iSub aMerge nMerge : nat) : option (list nat * list nat * nat * nat * nat) :=
  if Nat.testbit iList iSub then
    match fuel with
    | O => None
    | S fuel =>
        p ← aSub !! iSub;
        lo ← s_aList p;
        _ ← check ((s_nList p <=? Nat.shiftl 1 iSub)%nat && (lo =? Nat.ldiff iList (Nat.shiftl 2 iSub - 1))%nat);
        '(aList, aBuffer, aMerge, nMerge) ← walMerge aContent aList lo (s_nList p) aMerge nMerge aBuffer;
        walMergesort_inner fuel aContent aSub iList aList aBuffer (S iSub) aMerge nMerge
    end
  else Some (aList, aBuffer, iSub, aMerge, nMerge).

(** The loop over the [n] entries from [iList] on; the state has [aSub] too. *)
Fixpoint walMergesort_outer (n : nat) (aContent : list Z) (iList : nat)
    (st : list nat * list nat * list Sublist * nat * nat * nat) : option (list nat * list nat * list Sublist * nat * nat * nat) :=
  match n with
  | O => Some st
  | S n =>
      let '(aList, aBuffer, aSub, _, _, _) := st in
      '(aList, aBuffer, iSub, aMerge, nMerge) ←
        walMergesort_inner (S aSub_size) aContent aSub iList aList aBuffer 0 iList 1;
      _ ← check (iSub <? length aSub)%nat;
      walMergesort_outer n aContent (S iList)
        (aList, aBuffer, <[iSub := mkSub nMerge (Some aMerge)]> aSub, iSub, aMerge, nMerge)
  end.

(** The sublists of the bits of [nList] from [iSub] on; [fuel] of them are left. *)
Fixpoint walMergesort_rest (fuel : nat) (aContent : list Z) (aSub : list Sublist) (nList : nat)
    (aList aBuffer : list nat) (iSub aMerge nMerge : nat) : option (list nat * list nat * nat * nat) :=
  match fuel with
  | O => Some (aList, aBuffer, aMerge, nMerge)
  | S fuel =>
      if Nat.testbit nList iSub then
        p ← aSub !! iSub;
        lo ← s_aList p;
        _ ← check ((s_nList p <=? Nat.shiftl 1 iSub)%nat && (lo =? Nat.ldiff nList (Nat.shiftl 2 iSub - 1))%nat);
        '(aList, aBuffer, aMerge, nMerge) ← walMerge aContent aList lo (s_nList p) aMerge nMerge aBuffer;
        walMergesort_rest fuel aContent aSub nList aList aBuffer (S iSub) aMerge nMerge
      else walMergesort_rest fuel aContent aSub nList aList aBuffer (S iSub) aMerge nMerge
  end.

(** [aList] and [*pnList] afterwards. *)
Definition walMergesort (aContent : list Z) (aBuffer aList : list nat) (nList : nat) : option (list nat * nat) :=
  _ ← check ((nList <=? Z.to_nat HASHTABLE_NPAGE)%nat && (0 <? nList)%nat);
  let aSub := replicate aSub_size (mkSub 0 None) in
  '(aList, aBuffer, aSub, iSub, aMerge, nMerge) ←
    walMergesort_outer nList aContent 0 (aList, aBuffer, aSub, 0%nat, 0%nat, 0%nat);
  '(aList, aBuffer, aMerge, nMerge) ←
    walMergesort_rest (aSub_size - S iSub) aContent aSub nList aList aBuffer (S iSub) aMerge nMerge;
  _ ← check (aMerge =? 0)%nat;
  Some (aList, nMerge).

(** ** The iterator *)

(** [aPgno] of the segment is word [seg_aPgno] of page [seg_page] of the wal-index. *)
Record WalSegment := mkSeg {
  iNext : nat; aIndex : list nat; seg_page : Z; seg_aPgno : Z; nEntry : nat; seg_iZero : Z }.

Record WalIterator := mkIter { iPrior : Z; aSegment : list WalSegment }.

Definition nSegment (p : WalIterator) : nat := length (aSegment p).
Definition set_iNext (s : WalSegment) (i : nat) : WalSegment :=
  mkSeg i (aIndex s) (seg_page s) (seg_aPgno s) (nEntry s) (seg_iZero s).

(** [n] words of page [pg] from word [i] on: the sort takes them as a constant array. *)
Fixpoint load_range (n : nat) (pg i : Z) : prog (list Z) :=
  match n with
  | O => Done []
  | S n => x ← load (Word pg i); xs ← load_range n pg (i + 1); Done (x :: xs)
  end.

(** The loop over [n] segments from [i] on; [nTmp] is the size of [aTmp].  The index of a
    segment is at its [iZero] in an allocation of [iLast] slots. *)
Fixpoint walIteratorInit_loop (n : nat) (w : Wal) (p : WalIterator) (nTmp : nat) (iLast i : Z) : prog (Wal * Z * option WalIterator) :=
  match n with
  | O => Done (w, SQLITE_OK, Some p)
  | S n =>
      '(w, rc, sLoc) ← walHashGet w i;
      if negb (rc =? SQLITE_OK) then Done (w, rc, None) else
      let nEntry :=
        if i + 1 =? Z.of_nat (nSegment p) then iLast - iZero sLoc else HASHTABLE_NPAGE - (hl_aPgno sLoc + 1) in
      insist ((0 <=? nEntry) && (iZero sLoc + nEntry <=? iLast))
        (aContent ← load_range (Z.to_nat nEntry) (hl_page sLoc) (hl_aPgno sLoc + 1);
         match walMergesort aContent (replicate nTmp 0%nat) (seq 0 (Z.to_nat nEntry)) (Z.to_nat nEntry) with
         | None => Stuck
         | Some (aIndex, nEntry) =>
             let s := mkSeg 0 aIndex (hl_page sLoc) (hl_aPgno sLoc + 1) nEntry (iZero sLoc + 1) in
             walIteratorInit_loop n w (mkIter (iPrior p) (<[Z.to_nat i := s]> (aSegment p))) nTmp iLast (i + 1)
         end)
  end.

Definition zero_segment : WalSegment := mkSeg 0 [] 0 0 0 0.

Definition walIteratorInit (w : Wal) (nBackfill : Z) : prog (Wal * Z * option WalIterator) :=
  insist (ckptLock w && (0 <? mxFrame (hdr w)))
    (let iLast := mxFrame (hdr w) in
     let nSegment := walFramePage iLast + 1 in
     Alloc (fun b =>
       if b then
         let p := mkIter 0 (replicate (Z.to_nat nSegment) zero_segment) in
         Alloc (fun b =>
           if b then
             let nTmp := if HASHTABLE_NPAGE <? iLast then HASHTABLE_NPAGE else iLast in
             let i := walFramePage (wrap_u 32 (nBackfill + 1)) in
             walIteratorInit_loop (Z.to_nat (nSegment - i)) w p (Z.to_nat nTmp) iLast i
           else Done (w, SQLITE_NOMEM, None))
       else Done (w, SQLITE_NOMEM, None))).

(** The inner loop: the segment, and the page number that ended it; [n] is the number
    of entries left. *)
Fixpoint walIteratorNext_segment (n : nat) (s : WalSegment) (iMin : Z) : prog (WalSegment * option Z) :=
  match n with
  | O => Done (s, None)
  | S n =>
      match aIndex s !! iNext s with
      | None => Stuck
      | Some j =>
          iPg ← load (Word (seg_page s) (seg_aPgno s + Z.of_nat j));
          if iMin <? iPg then Done (s, Some iPg)
          else walIteratorNext_segment n (set_iNext s (S (iNext s))) iMin
      end
  end.

(** The loop over the first [i] segments, from the last down; the state has [iRet] and
    [*piFrame]. *)
Fixpoint walIteratorNext_loop (i : nat) (segs : list WalSegment) (iMin iRet iFrame : Z) : prog (list WalSegment * Z * Z) :=
  match i with
  | O => Done (segs, iRet, iFrame)
  | S i =>
      match segs !! i with
      | None => Stuck
      | Some s =>
          '(s, r) ← walIteratorNext_segment (nEntry s - iNext s) s iMin;
          let segs := <[i := s]> segs in
          match r, aIndex s !! iNext s with
          | Some iPg, Some j =>
              if iPg <? iRet then walIteratorNext_loop i segs iMin iPg (wrap_u 32 (seg_iZero s + Z.of_nat j))
              else walIteratorNext_loop i segs iMin iRet iFrame
          | Some _, None => Stuck
          | None, _ => walIteratorNext_loop i segs iMin iRet iFrame
          end
      end
  end.

(** The iterator, whether there are no more pages, [*piPage] and [*piFrame]. *)
Definition walIteratorNext (p : WalIterator) (iFrame : Z) : prog (WalIterator * bool * Z * Z) :=
  let iMin := wrap_u 32 (iPrior p) in
  insist (iMin <? 0xffffffff)
    ('(segs, iRet, iFrame) ← walIteratorNext_loop (nSegment p) (aSegment p) iMin 0xFFFFFFFF iFrame;
     Done (mkIter (wrap_s 32 iRet) segs, iRet =? 0xFFFFFFFF, iRet, iFrame)).
