(* ===== verification/WalSortSpec.v ===== *)
(** The merge sort of the checkpoint iterator: it runs without a failed assert or an
    access outside its arrays, and leaves the last entry of each page, in ascending
    order of the pages. *)
From Stdlib Require Import Sorting.Sorted.
From S2P Require Import Prelude SharedMem WalIndex WalIterator.

(** ** Lists in arrays *)

(** The list [out] is in the array [a] from position [o] on. *)
Definition sits (a : list nat) (o : nat) (out : list nat) : Prop :=
  forall i v, out !! i = Some v -> a !! (o + i)%nat = Some v.

Lemma sits_head a o x xs : sits a o (x :: xs) -> a !! o = Some x.
Proof. intros H. specialize (H 0%nat x eq_refl). by rewrite Nat.add_0_r in H. Qed.

Lemma sits_tail a o x xs : sits a o (x :: xs) -> sits a (S o) xs.
Proof. intros H i v Hi. specialize (H (S i) v Hi). by rewrite Nat.add_succ_r in H. Qed.

Lemma sits_length a o out : (0 < length out)%nat -> sits a o out -> (o + length out <= length a)%nat.
Proof.
  intros Hl H. destruct (lookup_lt_is_Some_2 out (length out - 1)) as [v Hv]; [lia|].
  specialize (H _ _ Hv). apply lookup_lt_Some in H. lia.
Qed.

Lemma sits_copy a o out : (o + length out <= length a)%nat -> sits (list_inserts o out a) o out.
Proof.
  intros Hl i v Hi. pose proof (lookup_lt_Some _ _ _ Hi) as Hlt. rewrite list_lookup_inserts by lia.
  by replace (o + i - o)%nat with i by lia.
Qed.

(** A list before the part that is overwritten stays. *)
Lemma sits_copy_before a o o' out out' : (o' + length out' <= o)%nat -> sits a o' out' -> sits (list_inserts o out a) o' out'.
Proof.
  intros Hl H i v Hi. pose proof (lookup_lt_Some _ _ _ Hi). rewrite list_lookup_inserts_lt by lia. by apply H.
Qed.

(** ** Merging two sorted lists *)

Section merge.
Context (c : nat -> Z).

Definition sorted_keys : list nat -> Prop := StronglySorted (fun i j => c i < c j).

(** What the loop does to the rest of the two lists. *)
Inductive merged : list nat -> list nat -> list nat -> Prop :=
  | merged_nil : merged [] [] []
  | merged_left l ls rs out : (forall r, head rs = Some r -> c l < c r) -> merged ls rs out -> merged (l :: ls) rs (l :: out)
  | merged_right r ls rs out : (forall l, head ls = Some l -> c r < c l) -> merged ls rs out -> merged ls (r :: rs) (r :: out)
  | merged_both l r ls rs out : c l = c r -> merged ls rs out -> merged (l :: ls) (r :: rs) (r :: out).

Lemma sorted_cons_inv i l : sorted_keys (i :: l) -> sorted_keys l /\ forall j, j ∈ l -> c i < c j.
Proof. intros H. apply StronglySorted_inv in H as [Hs Hf]. split; [done|]. by apply Forall_forall. Qed.

Lemma sorted_lookup out i j a b :
  sorted_keys out -> out !! i = Some a -> out !! j = Some b -> (i < j)%nat -> c a < c b.
Proof.
  revert i j. induction out as [|x out IH]; intros i j Hs Ha Hb Hij; [done|].
  apply sorted_cons_inv in Hs as [Hs Hx]. destruct j as [|j]; [lia|]. cbn in Hb. destruct i as [|i]; cbn in Ha.
  - injection Ha as ->. apply Hx. by eapply list_elem_of_lookup_2.
  - apply (IH i j); [done..|lia].
Qed.

Lemma sorted_head_lt i l : sorted_keys l -> (forall r, head l = Some r -> c i < c r) -> forall j, j ∈ l -> c i < c j.
Proof.
  intros Hs Hh j Hj. destruct l as [|r l]; [by apply not_elem_of_nil in Hj|]. specialize (Hh r eq_refl).
  apply sorted_cons_inv in Hs as [_ Hr]. apply elem_of_cons in Hj as [->|Hj]; [done|]. specialize (Hr j Hj). lia.
Qed.

(** Every right entry, and the left entries whose page is not on the right. *)
Definition merge_of (ls rs : list nat) (j : nat) : Prop := j ∈ rs \/ (j ∈ ls /\ forall j', j' ∈ rs -> c j' <> c j).

Lemma merged_spec ls rs out :
  merged ls rs out -> sorted_keys ls -> sorted_keys rs ->
  sorted_keys out /\ (forall j, j ∈ out <-> merge_of ls rs j) /\ (length out <= length ls + length rs)%nat.
Proof.
  unfold merge_of. induction 1 as [|l ls rs out Hlt _ IH|r ls rs out Hlt _ IH|l r ls rs out He _ IH]; intros Hl Hr.
  - split; [constructor|]. split; [|done]. intros j. split; [intros Hj; by apply not_elem_of_nil in Hj|].
    intros [Hj|[Hj _]]; by apply not_elem_of_nil in Hj.
  - pose proof (sorted_head_lt l rs Hr Hlt) as Hlr. apply sorted_cons_inv in Hl as [Hl Hll].
    destruct (IH Hl Hr) as (IS & IM & IL). split; [|split; [|cbn; lia]].
    + constructor; [done|]. apply Forall_forall. intros j Hj. apply IM in Hj as [Hj|[Hj _]]; auto.
    + intros j. rewrite !elem_of_cons, IM. split; [intros [->|[?|[? ?]]]|intros [?|[[->|?] ?]]]; auto.
      right. split; [by left|]. intros j' Hj' E. specialize (Hlr j' Hj'). lia.
  - pose proof (sorted_head_lt r ls Hl Hlt) as Hrl. apply sorted_cons_inv in Hr as [Hr Hrr].
    destruct (IH Hl Hr) as (IS & IM & IL). split; [|split; [|cbn; lia]].
    + constructor; [done|]. apply Forall_forall. intros j Hj. apply IM in Hj as [Hj|[Hj _]]; auto.
    + intros j. rewrite !elem_of_cons, IM. split; [intros [->|[?|[? Hn]]]|intros [[->|?]|[? Hn]]]; auto.
      * right. split; [done|]. intros j' [->|Hj']%elem_of_cons; [|auto]. intros E. specialize (Hrl j ltac:(done)). lia.
      * right. right. split; [done|]. intros j' Hj'. apply Hn. by right.
  - apply sorted_cons_inv in Hl as [Hl Hll]. apply sorted_cons_inv in Hr as [Hr Hrr].
    destruct (IH Hl Hr) as (IS & IM & IL). split; [|split; [|cbn; lia]].
    + constructor; [done|]. apply Forall_forall. intros j Hj. apply IM in Hj as [Hj|[Hj _]]; [auto|].
      specialize (Hll j Hj). lia.
    + intros j. rewrite !elem_of_cons, IM. split; [intros [->|[?|[? Hn]]]|intros [[->|?]|[[->|?] Hn]]]; auto.
      * right. split; [by right|]. intros j' [->|Hj']%elem_of_cons; [|auto]. specialize (Hll j ltac:(done)). lia.
      * exfalso. by apply (Hn r); [left|].
      * right. right. split; [done|]. intros j' Hj'. apply Hn. by right.
Qed.

(** ** The loop *)

Context (aContent : list Z).

(** The entries are within the array of page numbers. *)
Definition within (l : list nat) : Prop := Forall (fun j => aContent !! j = Some (c j)) l.

Lemma key_sits a o x xs : sits a o (x :: xs) -> within (x :: xs) -> key aContent a o = Some (c x).
Proof. intros H Hw. unfold key. rewrite (sits_head _ _ _ _ H). by inversion_clear Hw. Qed.

Lemma ltb_rest i (l : list nat) : (i <? i + length l)%nat = match l with [] => false | _ => true end.
Proof. destruct l; [apply Nat.ltb_ge|apply Nat.ltb_lt]; cbn [length]; lia. Qed.

Lemma leb_rest i (l : list nat) : (i + length l <=? i)%nat = match l with [] => true | _ => false end.
Proof. destruct l; [apply Nat.leb_le|apply Nat.leb_gt]; cbn [length]; lia. Qed.

Lemma put_spec a i v : (i < length a)%nat ->
  exists a', put a i v = Some a' /\ length a' = length a /\ take (S i) a' = take i a ++ [v].
Proof.
  intros Hi. exists (<[i := v]> a). unfold put. rewrite (proj2 (Nat.ltb_lt _ _)) by done. split; [done|].
  split; [apply length_insert|]. rewrite (take_S_r _ _ v) by (by apply list_lookup_insert_eq).
  by rewrite take_insert_ge by lia.
Qed.

(** The state of the loop: what is left of the lists, and where. *)
Record loop_ok (aList : list nat) (aLeft aRight iLeft iRight : nat) (ls rs : list nat) : Prop := {
  lo_left : sits aList (aLeft + iLeft) ls;
  lo_right : sits aList (aRight + iRight) rs;
  lo_wl : within ls;
  lo_wr : within rs;
  lo_sl : sorted_keys ls;
  lo_sr : sorted_keys rs }.

Lemma loop_ok_left aList aLeft aRight iLeft iRight l ls rs :
  loop_ok aList aLeft aRight iLeft iRight (l :: ls) rs -> loop_ok aList aLeft aRight (S iLeft) iRight ls rs.
Proof.
  intros [H1 H2 H3 H4 H5 H6]. split; [|done|by inversion_clear H3|done|by destruct (sorted_cons_inv _ _ H5)|done].
  apply sits_tail in H1. by rewrite Nat.add_succ_r.
Qed.

Lemma loop_ok_right aList aLeft aRight iLeft iRight ls r rs :
  loop_ok aList aLeft aRight iLeft iRight ls (r :: rs) -> loop_ok aList aLeft aRight iLeft (S iRight) ls rs.
Proof.
  intros [H1 H2 H3 H4 H5 H6]. split; [done| |done|by inversion_clear H4|done|by destruct (sorted_cons_inv _ _ H6)].
  apply sits_tail in H2. by rewrite Nat.add_succ_r.
Qed.

Lemma sorted_next l ls : sorted_keys (l :: ls) -> forall x, head ls = Some x -> c l < c x.
Proof. intros H x Hx. apply sorted_cons_inv in H as [_ H]. destruct ls; [done|]. injection Hx as ->. apply H. by left. Qed.

(** The rest of the body, once an entry is chosen; [ls] and [rs] are the lists without it. *)
Definition after (fuel : nat) (aList : list nat) (aLeft nLeft aRight nRight iLeft iRight iOut : nat) (aTmp : list nat)
    (dbpage : Z) : option (nat * list nat) :=
  iLeft ←
    (if (iLeft <? nLeft)%nat then
       l ← key aContent aList (aLeft + iLeft); Some (if l =? dbpage then S iLeft else iLeft)
     else Some iLeft);
  _ ← (if (nLeft <=? iLeft)%nat then Some ()
       else l ← key aContent aList (aLeft + iLeft); check (dbpage <? l));
  _ ← (if (nRight <=? iRight)%nat then Some ()
       else r ← key aContent aList (aRight + iRight); check (dbpage <? r));
  walMerge_loop fuel aContent aList aLeft nLeft aRight nRight iLeft iRight (S iOut) aTmp.

Lemma after_keep fuel aList aLeft aRight iLeft iRight iOut aTmp x ls rs :
  loop_ok aList aLeft aRight iLeft iRight ls rs ->
  (forall l, head ls = Some l -> c x < c l) -> (forall r, head rs = Some r -> c x < c r) ->
  after fuel aList aLeft (iLeft + length ls) aRight (iRight + length rs) iLeft iRight iOut aTmp (c x)
    = walMerge_loop fuel aContent aList aLeft (iLeft + length ls) aRight (iRight + length rs) iLeft iRight (S iOut) aTmp.
Proof.
  intros [H1 H2 H3 H4 H5 H6] HL HR. unfold after. rewrite ltb_rest.
  assert (ER : forall K : option (nat * list nat),
    (_ ← (if (iRight + length rs <=? iRight)%nat then Some ()
          else r ← key aContent aList (aRight + iRight); check (c x <? r)); K) = K).
  { intros K. rewrite leb_rest. destruct rs as [|r rs]; [done|]. rewrite (key_sits _ _ _ _ H2 H4). cbn.
    specialize (HR r eq_refl). unfold check. by rewrite (proj2 (Z.ltb_lt _ _)). }
  destruct ls as [|l ls].
  - etransitivity; [|apply ER]. cbn [mbind option_bind]. by rewrite (leb_rest iLeft []). 
  - rewrite (key_sits _ _ _ _ H1 H3). specialize (HL l eq_refl). etransitivity; [|apply ER].
    cbn [mbind option_bind]. rewrite (proj2 (Z.eqb_neq _ _)) by lia.
    rewrite (leb_rest iLeft (l :: ls)), (key_sits _ _ _ _ H1 H3). cbn [mbind option_bind].
    unfold check at 1. by rewrite (proj2 (Z.ltb_lt (c x) (c l))) by done.
Qed.

Lemma after_skip fuel aList aLeft aRight iLeft iRight iOut aTmp x l ls rs :
  loop_ok aList aLeft aRight iLeft iRight (l :: ls) rs -> c l = c x -> (forall r, head rs = Some r -> c x < c r) ->
  after fuel aList aLeft (iLeft + length (l :: ls)) aRight (iRight + length rs) iLeft iRight iOut aTmp (c x)
    = walMerge_loop fuel aContent aList aLeft (S iLeft + length ls) aRight (iRight + length rs) (S iLeft) iRight (S iOut) aTmp.
Proof.
  intros Hok E HR. pose proof (loop_ok_left _ _ _ _ _ _ _ _ Hok) as Hok'.
  rewrite <- (after_keep fuel aList aLeft aRight (S iLeft) iRight iOut aTmp x ls rs Hok'); [|..|done].
  2: { intros y Hy. rewrite <- E. by apply (sorted_next l ls); [apply Hok|]. }
  unfold after. rewrite ltb_rest, (key_sits _ _ _ _ (lo_left _ _ _ _ _ _ _ Hok) (lo_wl _ _ _ _ _ _ _ Hok)).
  cbn [mbind option_bind]. rewrite E, Z.eqb_refl. replace (iLeft + length (l :: ls))%nat with (S iLeft + length ls)%nat by (cbn; lia).
  rewrite ltb_rest. destruct ls as [|l2 ls]; [done|].
  pose proof (key_sits _ _ _ _ (lo_left _ _ _ _ _ _ _ Hok') (lo_wl _ _ _ _ _ _ _ Hok')) as Hkey.
  rewrite Hkey. cbn [mbind option_bind]. rewrite (proj2 (Z.eqb_neq _ _)); [by rewrite Hkey|]. pose proof (sorted_next l (l2 :: ls) (lo_sl _ _ _ _ _ _ _ Hok) l2 eq_refl). lia.
Qed.

Lemma loop_unfold fuel aList aLeft nLeft aRight nRight iLeft iRight iOut aTmp :
  walMerge_loop (S fuel) aContent aList aLeft nLeft aRight nRight iLeft iRight iOut aTmp =
  if (iRight <? nRight)%nat || (iLeft <? nLeft)%nat then
    takeLeft ←
      (if (iLeft <? nLeft)%nat then
         if (nRight <=? iRight)%nat then Some true
         else l ← key aContent aList (aLeft + iLeft); r ← key aContent aList (aRight + iRight); Some (l <? r)
       else Some false);
    logpage ← aList !! (if (takeLeft : bool) then aLeft + iLeft else aRight + iRight)%nat;
    dbpage ← aContent !! logpage;
    aTmp ← put aTmp iOut logpage;
    after fuel aList aLeft nLeft aRight nRight (if (takeLeft : bool) then S iLeft else iLeft)
      (if (takeLeft : bool) then iRight else S iRight) iOut aTmp dbpage
  else Some (iOut, aTmp).
Proof. reflexivity. Qed.

(** The body, when [takeLeft] is known. *)
Lemma loop_take fuel aList aLeft aRight iLeft iRight iOut aTmp ls rs (takeLeft : bool) x aTmp1 :
  loop_ok aList aLeft aRight iLeft iRight ls rs ->
  match ls, rs with
  | [], [] => False
  | l :: _, [] => takeLeft = true /\ x = l
  | [], r :: _ => takeLeft = false /\ x = r
  | l :: _, r :: _ => takeLeft = (c l <? c r) /\ x = if takeLeft then l else r
  end -> put aTmp iOut x = Some aTmp1 ->
  walMerge_loop (S fuel) aContent aList aLeft (iLeft + length ls) aRight (iRight + length rs) iLeft iRight iOut aTmp =
  after fuel aList aLeft (iLeft + length ls) aRight (iRight + length rs) (if takeLeft then S iLeft else iLeft)
    (if takeLeft then iRight else S iRight) iOut aTmp1 (c x).
Proof.
  intros [H1 H2 H3 H4 H5 H6] Hx Hp. rewrite loop_unfold, !ltb_rest, leb_rest.
  assert (Hgo : forall K : list nat -> Z -> option (nat * list nat),
    (logpage ← aList !! (if takeLeft then aLeft + iLeft else aRight + iRight)%nat; dbpage ← aContent !! logpage;
     aTmp ← put aTmp iOut logpage; K aTmp dbpage) = K aTmp1 (c x)).
  { intros K.
    assert (E : aList !! (if takeLeft then aLeft + iLeft else aRight + iRight)%nat = Some x /\ aContent !! x = Some (c x)).
    { destruct ls as [|l ls], rs as [|r rs]; [done|..]; destruct Hx as [Ht ->].
      - rewrite Ht. split; [by apply (sits_head _ _ _ rs)|by inversion_clear H4].
      - rewrite Ht. split; [by apply (sits_head _ _ _ ls)|by inversion_clear H3].
      - destruct takeLeft; (split; [by eapply sits_head|by inversion_clear H3; inversion_clear H4]). }
    destruct E as [-> Ec]. cbn. rewrite Ec. cbn. by rewrite Hp. }
  destruct ls as [|l ls], rs as [|r rs]; [done|..]; cbn [orb].
  - destruct Hx as [-> _]. apply Hgo.
  - destruct Hx as [-> _]. apply Hgo.
  - rewrite (key_sits _ _ _ _ H1 H3), (key_sits _ _ _ _ H2 H4). destruct Hx as [Ht _]. cbn [mbind option_bind].
    rewrite <- Ht. apply Hgo.
Qed.

Lemma walMerge_loop_spec aList aLeft aRight fuel ls rs iLeft iRight iOut aTmp :
  loop_ok aList aLeft aRight iLeft iRight ls rs ->
  (length ls + length rs <= fuel)%nat -> (iOut + length ls + length rs <= length aTmp)%nat ->
  exists out aTmp',
    walMerge_loop fuel aContent aList aLeft (iLeft + length ls) aRight (iRight + length rs) iLeft iRight iOut aTmp
      = Some ((iOut + length out)%nat, aTmp') /\
    length aTmp' = length aTmp /\ take (iOut + length out) aTmp' = take iOut aTmp ++ out /\ merged ls rs out.
Proof.
  revert ls rs iLeft iRight iOut aTmp. induction fuel as [|fuel IH]; intros ls rs iLeft iRight iOut aTmp Hok Hf Ht.
  { destruct ls, rs; cbn in Hf; try lia. exists [], aTmp. cbn [walMerge_loop]. rewrite !ltb_rest. cbn.
    rewrite Nat.add_0_r, app_nil_r. split_and!; try done. constructor. }
  (* one entry [x] is written, and the loop goes on with [ls'] and [rs'] *)
  assert (Hnext : forall x ls' rs' iLeft' iRight' aTmp1,
    (length ls' + length rs' < length ls + length rs)%nat -> loop_ok aList aLeft aRight iLeft' iRight' ls' rs' ->
    length aTmp1 = length aTmp -> take (S iOut) aTmp1 = take iOut aTmp ++ [x] ->
    (forall out, merged ls' rs' out -> merged ls rs (x :: out)) ->
    exists out aTmp',
      walMerge_loop fuel aContent aList aLeft (iLeft' + length ls') aRight (iRight' + length rs') iLeft' iRight' (S iOut) aTmp1
        = Some ((iOut + length out)%nat, aTmp') /\
      length aTmp' = length aTmp /\ take (iOut + length out) aTmp' = take iOut aTmp ++ out /\ merged ls rs out).
  { intros x ls' rs' iLeft' iRight' aTmp1 Hl Hok' Hl1 Ht1 Hm.
    destruct (IH ls' rs' iLeft' iRight' (S iOut) aTmp1) as (out & aTmp' & E & El & Et & Em); [done|lia|lia|].
    exists (x :: out), aTmp'. cbn [length]. rewrite Nat.add_succ_r. split; [done|]. split; [congruence|].
    split; [|by apply Hm]. cbn [Nat.add] in Et. by rewrite Et, Ht1, <- app_assoc. }
  assert (Hput : forall x, (0 < length ls + length rs)%nat -> exists aTmp1, put aTmp iOut x = Some aTmp1 /\
    length aTmp1 = length aTmp /\ take (S iOut) aTmp1 = take iOut aTmp ++ [x]).
  { intros x Hx. apply put_spec. lia. }
  destruct ls as [|l ls], rs as [|r rs].
  - exists [], aTmp. rewrite loop_unfold, !ltb_rest. cbn. rewrite Nat.add_0_r, app_nil_r. split_and!; try done. constructor.
  - destruct (Hput r) as (aTmp1 & P & Pl & Pt); [cbn; lia|]. pose proof (loop_ok_right _ _ _ _ _ _ _ _ Hok) as Hok'.
    rewrite (loop_take _ _ _ _ _ _ _ _ _ _ false r aTmp1 Hok); [|done..].
    replace (iRight + length (r :: rs))%nat with (S iRight + length rs)%nat by (cbn; lia).
    rewrite (after_keep _ _ _ _ _ _ _ _ _ _ _ Hok'); [|done|apply sorted_next, Hok].
    apply (Hnext r); [cbn; lia|done..|]. intros out Hm. by constructor.
  - destruct (Hput l) as (aTmp1 & P & Pl & Pt); [cbn; lia|]. pose proof (loop_ok_left _ _ _ _ _ _ _ _ Hok) as Hok'.
    rewrite (loop_take _ _ _ _ _ _ _ _ _ _ true l aTmp1 Hok); [|done..].
    replace (iLeft + length (l :: ls))%nat with (S iLeft + length ls)%nat by (cbn; lia).
    rewrite (after_keep _ _ _ _ _ _ _ _ _ _ _ Hok'); [|apply sorted_next, Hok|done].
    apply (Hnext l); [cbn; lia|done..|]. intros out Hm. by constructor.
  - destruct (c l <? c r) eqn:Hlr; bool_to_prop.
    + destruct (Hput l) as (aTmp1 & P & Pl & Pt); [cbn; lia|]. pose proof (loop_ok_left _ _ _ _ _ _ _ _ Hok) as Hok'.
      rewrite (loop_take _ _ _ _ _ _ _ _ _ _ true l aTmp1 Hok); [|by rewrite (proj2 (Z.ltb_lt _ _))|done].
      replace (iLeft + length (l :: ls))%nat with (S iLeft + length ls)%nat by (cbn; lia).
      rewrite (after_keep _ _ _ _ _ _ _ _ _ _ _ Hok'); [|apply sorted_next, Hok|by intros ? [= <-]].
      apply (Hnext l); [cbn; lia|done..|]. intros out Hm. constructor; [by intros ? [= <-]|done].
    + destruct (Hput r) as (aTmp1 & P & Pl & Pt); [cbn; lia|]. pose proof (loop_ok_right _ _ _ _ _ _ _ _ Hok) as Hok'.
      rewrite (loop_take _ _ _ _ _ _ _ _ _ _ false r aTmp1 Hok); [|by rewrite (proj2 (Z.ltb_ge _ _))|done].
      replace (iRight + length (r :: rs))%nat with (S iRight + length rs)%nat by (cbn; lia).
      destruct (decide (c l = c r)) as [E|E].
      * pose proof (loop_ok_left _ _ _ _ _ _ _ _ Hok') as Hok2.
        rewrite (after_skip _ _ _ _ _ _ _ _ _ _ _ _ Hok'); [|done|apply sorted_next, Hok].
        apply (Hnext r); [cbn; lia|done..|]. intros out Hm. by constructor.
      * rewrite (after_keep _ _ _ _ _ _ _ _ _ _ _ Hok'); [|intros ? [= <-]; lia|apply sorted_next, Hok].
        apply (Hnext r); [cbn; lia|done..|]. intros out Hm. constructor; [intros ? [= <-]; lia|done].
Qed.
End merge.

(** ** Blocks *)

Section sort.
Context (c : nat -> Z) (aContent : list Z).

(** Entry [j] is the last of its page among the entries from [lo] to [hi]. *)
Definition latest (lo hi j : nat) : Prop := (lo <= j < hi)%nat /\ forall j', (j < j' < hi)%nat -> c j' <> c j.

Definition block (lo hi : nat) (out : list nat) : Prop := sorted_keys c out /\ forall j, j ∈ out <-> latest lo hi j.

Lemma latest_exists lo hi j : (lo <= j < hi)%nat -> exists j', (j <= j')%nat /\ latest lo hi j' /\ c j' = c j.
Proof.
  intros Hj. remember (hi - j)%nat as d eqn:Hd. revert j Hj Hd. induction d as [d IH] using lt_wf_ind. intros j Hj ->.
  destruct (decide (Exists (fun j' => c j' = c j) (seq (S j) (hi - S j)))) as [H|H].
  - apply Exists_exists in H as (j' & Hin & E). apply elem_of_seq in Hin.
    destruct (IH (hi - j')%nat ltac:(lia) j' ltac:(lia) eq_refl) as (j2 & Hle & Hl & E2). exists j2.
    split; [lia|]. split; [done|congruence].
  - exists j. split; [done|]. split; [|done]. split; [done|]. intros j' Hj' E. apply H, Exists_exists. exists j'.
    split; [apply elem_of_seq; lia|done].
Qed.

Lemma block_single k : block k (S k) [k].
Proof.
  split; [repeat constructor|]. intros j. rewrite list_elem_of_singleton. split; [intros ->|intros [? _]; lia].
  split; [lia|]. intros; lia.
Qed.

Lemma block_merge lo mid hi ls rs out :
  (lo <= mid <= hi)%nat -> block lo mid ls -> block mid hi rs -> merged c ls rs out -> block lo hi out.
Proof.
  intros Hm [SL BL] [SR BR] Hmg. destruct (merged_spec c ls rs out Hmg SL SR) as (HS & HM & _). split; [done|].
  intros j. rewrite HM. unfold merge_of. rewrite BL, BR. unfold latest. split.
  - intros [[Hj Hl]|[[Hj Hl] Hn]]; [split; [lia|done]|]. split; [lia|]. intros j' Hj' E.
    destruct (decide (j' < mid)%nat) as [Hlt|Hge]; [by apply (Hl j'); [lia|]|].
    destruct (latest_exists mid hi j' ltac:(lia)) as (j2 & _ & H2 & E2). apply BR in H2. apply (Hn j2 H2). congruence.
  - intros [Hj Hl]. destruct (decide (mid <= j)%nat) as [Hge|Hlt]; [left; split; [lia|done]|right].
    split; [split; [lia|intros; apply Hl; lia]|]. intros j' Hj' E. apply BR in Hj' as [Hr _]. by apply (Hl j'); [lia|].
Qed.

Lemma block_nodup out : sorted_keys c out -> NoDup out.
Proof.
  induction out as [|x out IH]; intros Hs; [constructor|]. apply sorted_cons_inv in Hs as [Hs Hx].
  constructor; [intros Hin; specialize (Hx x Hin); lia|auto].
Qed.

Lemma block_length lo hi out : block lo hi out -> (length out <= hi - lo)%nat.
Proof.
  intros [HS HB]. rewrite <- (length_seq (hi - lo) lo). apply submseteq_length, NoDup_submseteq; [by apply block_nodup|].
  intros j Hj. apply HB in Hj as [Hr _]. apply elem_of_seq. lia.
Qed.

Lemma block_pos lo hi out : (lo < hi)%nat -> block lo hi out -> (0 < length out)%nat.
Proof.
  intros Hlt [_ HB]. destruct (latest_exists lo hi lo ltac:(lia)) as (j & _ & Hj & _). apply HB in Hj.
  destruct out; [by apply not_elem_of_nil in Hj|cbn; lia].
Qed.

Lemma block_within lo hi out nList :
  (forall j, (j < nList)%nat -> aContent !! j = Some (c j)) -> (hi <= nList)%nat -> block lo hi out -> within c aContent out.
Proof. intros Hc Hh [_ HB]. apply Forall_forall. intros j Hj. apply HB in Hj as [Hr _]. apply Hc. lia. Qed.

(** Two neighbouring blocks, sorted in place, become one. *)
Lemma walMerge_block aList aTmp lo mid hi ls rs :
  (forall j, (j < hi)%nat -> aContent !! j = Some (c j)) -> (lo < mid < hi)%nat ->
  (hi <= length aList)%nat -> (hi - lo <= length aTmp)%nat ->
  block lo mid ls -> block mid hi rs -> sits aList lo ls -> sits aList mid rs ->
  exists aList' aTmp' out,
    walMerge aContent aList lo (length ls) mid (length rs) aTmp = Some (aList', aTmp', lo, length out) /\
    length aList' = length aList /\ length aTmp' = length aTmp /\ block lo hi out /\ sits aList' lo out /\
    forall i, (i < lo \/ hi <= i)%nat -> aList' !! i = aList !! i.
Proof.
  intros Hc Hm Hl Ht BL BR SL SR. pose proof (block_length _ _ _ BL) as LL. pose proof (block_length _ _ _ BR) as LR.
  destruct (walMerge_loop_spec c aContent aList lo mid (length ls + length rs) ls rs 0 0 0 aTmp)
    as (out & aTmp' & E & Et & Eo & Hmg); [|lia|cbn; lia|].
  { split; [by rewrite Nat.add_0_r|by rewrite Nat.add_0_r| | |apply BL|apply BR].
    - apply (block_within lo mid ls hi Hc); [lia|done].
    - by apply (block_within mid hi rs hi Hc). }
  cbn in E, Eo. pose proof (block_merge lo mid hi ls rs out ltac:(lia) BL BR Hmg) as BO.
  pose proof (block_length _ _ _ BO) as LO. exists (list_inserts lo out aList), aTmp', out.
  assert (Ev : walMerge aContent aList lo (length ls) mid (length rs) aTmp = Some (list_inserts lo out aList, aTmp', lo, length out)).
  { unfold walMerge. unfold check at 1. rewrite (proj2 (Nat.ltb_lt 0 (length ls))) by (by apply (block_pos lo mid); [lia|]).
    rewrite (proj2 (Nat.ltb_lt 0 (length rs))) by (by apply (block_pos mid hi); [lia|]). cbn [andb mbind option_bind]. rewrite E.
    cbn [mbind option_bind]. unfold copy_to. rewrite Et, Eo.
    rewrite (proj2 (Nat.leb_le (length out) _)), (proj2 (Nat.leb_le (lo + length out) _)) by lia. done. }
  split; [done|]. split; [apply length_inserts|]. split; [done|]. split; [done|].
  split; [apply sits_copy; lia|]. intros i [Hi|Hi]; [by apply list_lookup_inserts_lt|by apply list_lookup_inserts_ge; lia].
Qed.

(** ** Binary counting *)

(** Multiples of powers of two. *)
Definition down (s k : nat) : nat := (k / 2 ^ s * 2 ^ s)%nat.

Lemma pow2_pos s : (0 < 2 ^ s)%nat.
Proof. pose proof (Nat.pow_nonzero 2 s). lia. Qed.

Lemma div_split s k : (k / 2 ^ s = 2 * (k / 2 ^ S s) + Nat.b2n (Nat.testbit k s))%nat.
Proof.
  rewrite Nat.testbit_spec', Nat.pow_succ_r', (Nat.mul_comm 2 (2 ^ s)), <- Nat.Div0.div_div. apply Nat.div_mod_eq.
Qed.

Lemma down_split s k : down s k = (down (S s) k + if Nat.testbit k s then 2 ^ s else 0)%nat.
Proof. unfold down. rewrite (div_split s k), Nat.pow_succ_r'. destruct (Nat.testbit k s); cbn [Nat.b2n]; nia. Qed.

Lemma down_le s k : (down s k <= k)%nat.
Proof. unfold down. rewrite Nat.mul_comm. apply Nat.Div0.mul_div_le. Qed.

Lemma down_mono s b k : (s <= b)%nat -> (down b k <= down s k)%nat.
Proof. induction 1 as [|b Hb IH]; [done|]. pose proof (down_split b k). lia. Qed.

Lemma down_small s k : (k < 2 ^ s)%nat -> down s k = 0%nat.
Proof. intros H. unfold down. by rewrite Nat.div_small. Qed.

Lemma mask_down s k : Nat.ldiff k (Nat.shiftl 2 s - 1) = down (S s) k.
Proof.
  assert (E : (Nat.shiftl 2 s - 1)%nat = Nat.ones (S s)).
  { rewrite Nat.ones_equiv, Nat.shiftl_mul_pow2, Nat.pow_succ_r'. lia. }
  by rewrite E, Nat.ldiff_ones_r, Nat.shiftr_div_pow2, Nat.shiftl_mul_pow2.
Qed.

(** Adding one to a number that ends in [s] ones. *)
Lemma succ_bits s k : (down s k + 2 ^ s = S k)%nat -> Nat.testbit k s = false ->
  down s (S k) = S k /\ Nat.testbit (S k) s = true /\ (forall b, (b < s)%nat -> Nat.testbit (S k) b = false) /\
  (forall b, (s < b)%nat -> Nat.testbit (S k) b = Nat.testbit k b /\ down b (S k) = down b k).
Proof.
  intros Hk Hs. pose proof (pow2_pos s) as Hp. pose proof (div_split s k) as Hd. rewrite Hs in Hd. cbn [Nat.b2n] in Hd.
  set (q := (k / 2 ^ S s)%nat) in *. assert (HS : S k = ((2 * q + 1) * 2 ^ s)%nat) by (unfold down in Hk; nia).
  assert (H1 : (S k / 2 ^ s = 2 * q + 1)%nat) by (rewrite HS; by apply Nat.div_mul; lia).
  assert (Hhi : forall b, (s < b)%nat -> (S k / 2 ^ b = k / 2 ^ b)%nat).
  { intros b Hb. replace b with (S s + (b - S s))%nat by lia. rewrite Nat.pow_add_r, <- !Nat.Div0.div_div. f_equal.
    fold q. rewrite Nat.pow_succ_r', (Nat.mul_comm 2), <- Nat.Div0.div_div, H1.
    symmetry. apply (Nat.div_unique _ 2 q 1); lia. }
  split; [unfold down; by rewrite H1, <- HS|]. split; [|split].
  - rewrite Nat.testbit_odd, Nat.shiftr_div_pow2, H1, Nat.add_1_r, Nat.odd_succ. apply Nat.even_spec. by exists q.
  - intros b Hb. rewrite Nat.testbit_odd, Nat.shiftr_div_pow2.
    assert (E : S k = ((2 * q + 1) * 2 ^ (s - b - 1) * 2 * 2 ^ b)%nat).
    { rewrite HS. replace (2 ^ s)%nat with (2 ^ (s - b - 1) * 2 * 2 ^ b)%nat; [lia|].
      replace (2 ^ (s - b - 1) * 2)%nat with (2 ^ (S (s - b - 1)))%nat by (rewrite Nat.pow_succ_r'; lia).
      rewrite <- Nat.pow_add_r. f_equal. lia. }
    rewrite E, Nat.div_mul by (pose proof (pow2_pos b); lia). rewrite Nat.mul_comm, <- Nat.negb_even, Nat.even_mul. done.
  - intros b Hb. split; [by rewrite !Nat.testbit_odd, !Nat.shiftr_div_pow2, Hhi|unfold down; by rewrite Hhi].
Qed.

(** ** The stack of sublists *)

(** The sublists of the bits of [k] from [s] on: blocks before [down s k], sorted. *)
Definition stack (s k : nat) (aList : list nat) (aSub : list Sublist) : Prop :=
  length aSub = aSub_size /\
  forall b, (s <= b)%nat -> Nat.testbit k b = true -> exists out,
    aSub !! b = Some (mkSub (length out) (Some (down (S b) k))) /\
    block (down (S b) k) (down b k) out /\ sits aList (down (S b) k) out.

Lemma stack_frame s s' k k' aList aList' aSub :
  (forall b, (s' <= b)%nat -> (s <= b)%nat /\ Nat.testbit k' b = Nat.testbit k b /\ down b k' = down b k /\ down (S b) k' = down (S b) k) ->
  (forall i, (i < down s' k')%nat -> aList' !! i = aList !! i) -> stack s k aList aSub -> stack s' k' aList' aSub.
Proof.
  intros Hb Ha [Hl H]. split; [done|]. intros b Hb' Ht. destruct (Hb b Hb') as (Hs & Et & E1 & E2). rewrite Et in Ht.
  destruct (H b Hs Ht) as (out & Hsub & Hblk & Hsit). exists out. rewrite E1, E2. split; [done|]. split; [done|].
  intros i v Hi. rewrite Ha; [by apply Hsit|]. pose proof (block_length _ _ _ Hblk). pose proof (lookup_lt_Some _ _ _ Hi).
  pose proof (down_mono s' b k' Hb'). rewrite <- E1 in *. lia.
Qed.

(** A sublist of the stack and the block after it. *)
Lemma stack_merge s k hi aList aBuffer aSub out nList :
  (forall j, (j < nList)%nat -> aContent !! j = Some (c j)) -> (hi <= nList)%nat -> length aList = nList -> (nList <= length aBuffer)%nat ->
  stack s k aList aSub -> Nat.testbit k s = true -> block (down s k) hi out -> sits aList (down s k) out -> (down s k < hi)%nat ->
  exists p lo aList' aBuffer' out',
    aSub !! s = Some p /\ s_aList p = Some lo /\
    check ((s_nList p <=? Nat.shiftl 1 s)%nat && (lo =? Nat.ldiff k (Nat.shiftl 2 s - 1))%nat) = Some () /\
    walMerge aContent aList lo (s_nList p) (down s k) (length out) aBuffer = Some (aList', aBuffer', down (S s) k, length out') /\
    length aList' = nList /\ (nList <= length aBuffer')%nat /\ stack (S s) k aList' aSub /\
    block (down (S s) k) hi out' /\ sits aList' (down (S s) k) out' /\
    forall i, (hi <= i)%nat -> aList' !! i = aList !! i.
Proof.
  intros Hc Hhi Hl Hb Hst Ht BO SO Hlt. pose proof Hst as [_ Hst']. destruct (Hst' s ltac:(lia) Ht) as (ps & Hsub & BP & SP).
  pose proof (down_split s k) as Hds. rewrite Ht in Hds. pose proof (pow2_pos s).
  destruct (walMerge_block aList aBuffer (down (S s) k) (down s k) hi ps out) as (aList' & aBuffer' & out' & E & El & Eb & BO' & SO' & Ef);
    try done; try lia.
  { intros j Hj. apply Hc. lia. }
  exists (mkSub (length ps) (Some (down (S s) k))), (down (S s) k), aList', aBuffer', out'. cbn [s_aList s_nList].
  split; [done|]. split; [done|]. split.
  { unfold check. rewrite mask_down, Nat.eqb_refl, andb_true_r. rewrite (proj2 (Nat.leb_le _ _)); [done|].
    rewrite Nat.shiftl_1_l. pose proof (block_length _ _ _ BP). lia. }
  split; [done|]. split; [lia|]. split; [lia|]. split; [|split; [done|split; [done|]]].
  - apply (stack_frame s (S s) k k aList); [| |done].
    + intros b Hb'. split; [lia|done].
    + intros i Hi. apply Ef. by left.
  - intros i Hi. apply Ef. by right.
Qed.

Section loops.
Context (nList : nat).
Hypothesis Hc : forall j, (j < nList)%nat -> aContent !! j = Some (c j).
Hypothesis Hn : (nList <= 4096)%nat.

Lemma inner_spec k fuel s aList aBuffer aSub out :
  (k < nList)%nat -> length aList = nList -> (nList <= length aBuffer)%nat -> (aSub_size < fuel + s)%nat ->
  stack s k aList aSub -> (down s k + 2 ^ s = S k)%nat -> block (down s k) (S k) out -> sits aList (down s k) out ->
  (forall i, (k < i < nList)%nat -> aList !! i = Some i) ->
  exists aList' aBuffer' s' out',
    walMergesort_inner fuel aContent aSub k aList aBuffer s (down s k) (length out)
      = Some (aList', aBuffer', s', down s' k, length out') /\
    length aList' = nList /\ (nList <= length aBuffer')%nat /\ stack s' k aList' aSub /\
    (down s' k + 2 ^ s' = S k)%nat /\ Nat.testbit k s' = false /\ (s' < aSub_size)%nat /\
    block (down s' k) (S k) out' /\ sits aList' (down s' k) out' /\
    (forall i, (k < i < nList)%nat -> aList' !! i = Some i).
Proof.
  intros Hk. assert (H12 : forall s, (down s k + 2 ^ s = S k)%nat -> (s < aSub_size)%nat).
  { intros t Ht. destruct (decide (t < aSub_size)%nat) as [|Hge]; [done|]. exfalso. unfold aSub_size in Hge.
    pose proof (Nat.pow_le_mono_r 2 13 t ltac:(done) ltac:(lia)). change (2 ^ 13)%nat with (Z.to_nat 8192) in *. lia. }
  revert s aList aBuffer out. induction fuel as [|fuel IH]; intros s aList aBuffer out Hl Hb Hf Hst Hd BO SO Hrest.
  { specialize (H12 s Hd). lia. }
  cbn [walMergesort_inner]. destruct (Nat.testbit k s) eqn:Ht.
  - destruct (stack_merge s k (S k) aList aBuffer aSub out nList) as (p & lo & aList' & aBuffer' & out' & E1 & E2 & E3 & E4 & R);
      try done; try lia.
    { pose proof (pow2_pos s). lia. }
    destruct R as (El & Eb & Hst' & BO' & SO' & Ef). rewrite E1. cbn [mbind option_bind]. rewrite E2. cbn [mbind option_bind].
    rewrite E3. cbn [mbind option_bind]. rewrite E4. cbn [mbind option_bind].
    apply IH; try done; try lia.
    + pose proof (down_split s k) as Hds. rewrite Ht in Hds. rewrite Nat.pow_succ_r'. lia.
    + intros i Hi. rewrite Ef by lia. by apply Hrest.
  - exists aList, aBuffer, s, out. split_and!; try done. by apply H12.
Qed.

(** After [k] entries. *)
Record sorting (k : nat) (aList aBuffer : list nat) (aSub : list Sublist) : Prop := {
  so_list : length aList = nList;
  so_buf : (nList <= length aBuffer)%nat;
  so_stack : stack 0 k aList aSub;
  so_rest i : (k <= i < nList)%nat -> aList !! i = Some i }.

(** After an entry is added. *)
Record added (k : nat) (st : list nat * list nat * list Sublist * nat * nat * nat) : Prop := {
  ad_sorting : let '(aList, aBuffer, aSub, _, _, _) := st in sorting k aList aBuffer aSub;
  ad_last : let '(aList, _, _, iSub, aMerge, nMerge) := st in (iSub < aSub_size)%nat /\ (down (S iSub) k < k)%nat /\ exists out,
    aMerge = down (S iSub) k /\ nMerge = length out /\ block (down (S iSub) k) k out /\ sits aList (down (S iSub) k) out }.

Lemma outer_step k aList aBuffer aSub :
  (k < nList)%nat -> sorting k aList aBuffer aSub ->
  exists aList' aBuffer' iSub aMerge nMerge,
    walMergesort_inner (S aSub_size) aContent aSub k aList aBuffer 0 k 1 = Some (aList', aBuffer', iSub, aMerge, nMerge) /\
    (iSub < length aSub)%nat /\
    added (S k) (aList', aBuffer', <[iSub := mkSub nMerge (Some aMerge)]> aSub, iSub, aMerge, nMerge).
Proof.
  intros Hk [S1 S2 S3 S4].
  assert (E0 : down 0 k = k) by (unfold down; rewrite Nat.pow_0_r, Nat.div_1_r; lia).
  destruct (inner_spec k (S aSub_size) 0 aList aBuffer aSub [k]) as (aList' & aBuffer' & s & out & E & Hl & Hb & Hst & Hd & Ht & Hs & BO & SO & Hr);
    try done; try (rewrite E0; done || (cbn; lia)); try lia.
  { rewrite E0. apply block_single. }
  { rewrite E0. intros i v Hi. destruct i; [|done]. injection Hi as <-. rewrite Nat.add_0_r. apply S4. lia. }
  { intros i Hi. apply S4. lia. }
  rewrite E0 in E. exists aList', aBuffer', s, (down s k), (length out). split; [done|].
  destruct (succ_bits s k Hd Ht) as (D1 & D2 & D3 & D4). pose proof Hst as [Hlen Hst'].
  split; [by rewrite Hlen|].
  assert (Eds : down (S s) (S k) = down s k).
  { pose proof (down_split s (S k)) as H1. rewrite D2, D1 in H1. lia. }
  assert (BO' : block (down (S s) (S k)) (S k) out) by (by rewrite Eds).
  assert (SO' : sits aList' (down (S s) (S k)) out) by (by rewrite Eds).
  split; [|split; [done|]; split; [pose proof (pow2_pos s); lia|]; exists out; split_and!; try done; by rewrite Eds].
  split; [done|done| |intros i Hi; apply Hr; lia]. split; [by rewrite length_insert|]. intros b _ Hb'.
  destruct (Nat.lt_trichotomy b s) as [Hlt|[->|Hgt]].
  - by rewrite D3 in Hb'.
  - exists out. rewrite list_lookup_insert_eq by (by rewrite Hlen). rewrite Eds, D1. split; [done|]. by rewrite <- Eds.
  - rewrite list_lookup_insert_ne by lia. destruct (D4 b Hgt) as [Et Ed]. rewrite Et in Hb'.
    destruct (D4 (S b) ltac:(lia)) as [_ Ed']. rewrite Ed, Ed'. apply Hst'; [lia|done].
Qed.

Lemma outer_spec n k st :
  (k + n = nList)%nat -> (let '(aList, aBuffer, aSub, _, _, _) := st in sorting k aList aBuffer aSub) ->
  (n = 0%nat -> added k st) -> exists st', walMergesort_outer n aContent k st = Some st' /\ added nList st'.
Proof.
  revert k st. induction n as [|n IH]; intros k [[[[[aList aBuffer] aSub] iSub] aMerge] nMerge] Hk Hs Ha; cbn [walMergesort_outer].
  - rewrite Nat.add_0_r in Hk. subst k. eauto.
  - destruct (outer_step k aList aBuffer aSub ltac:(lia) Hs) as (aList' & aBuffer' & iSub' & aMerge' & nMerge' & E & Hi & Had).
    rewrite E. cbn [mbind option_bind]. unfold check. rewrite (proj2 (Nat.ltb_lt _ _)) by done. cbn [mbind option_bind].
    apply IH; [lia|apply (ad_sorting _ _ Had)|done].
Qed.

Lemma rest_spec fuel s aList aBuffer aSub out :
  (0 < nList)%nat -> (fuel + s = aSub_size)%nat -> length aList = nList -> (nList <= length aBuffer)%nat ->
  stack s nList aList aSub -> block (down s nList) nList out -> sits aList (down s nList) out -> (down s nList < nList)%nat ->
  exists aList' aBuffer' out',
    walMergesort_rest fuel aContent aSub nList aList aBuffer s (down s nList) (length out) = Some (aList', aBuffer', 0%nat, length out') /\
    length aList' = nList /\ block 0 nList out' /\ sits aList' 0 out'.
Proof.
  intros H0. revert s aList aBuffer out. induction fuel as [|fuel IH]; intros s aList aBuffer out Hf Hl Hb Hst BO SO Hlt; cbn [walMergesort_rest].
  - cbn in Hf. subst s. assert (E0 : down aSub_size nList = 0%nat).
    { apply down_small. unfold aSub_size. change (2 ^ 13)%nat with (Z.to_nat 8192). lia. }
    rewrite E0 in *. by exists aList, aBuffer, out.
  - destruct (Nat.testbit nList s) eqn:Ht.
    + destruct (stack_merge s nList nList aList aBuffer aSub out nList) as (p & lo & aList' & aBuffer' & out' & E1 & E2 & E3 & E4 & R);
        try done; try lia.
      destruct R as (El & Eb & Hst' & BO' & SO' & Ef). rewrite E1. cbn [mbind option_bind]. rewrite E2. cbn [mbind option_bind].
      rewrite E3. cbn [mbind option_bind]. rewrite E4. cbn [mbind option_bind].
      apply IH; try done; try lia. pose proof (down_mono s (S s) nList ltac:(lia)). lia.
    + pose proof (down_split s nList) as Hds. rewrite Ht, Nat.add_0_r in Hds.
      rewrite Hds. rewrite Hds in BO, SO, Hlt. apply IH; try done; try lia.
      apply (stack_frame s (S s) nList nList aList); [|done|done]. intros b Hb'. split; [lia|done].
Qed.
End loops.

(** The sort ends, and leaves the last entry of every page, in the order of the pages. *)
Lemma walMergesort_spec aBuffer nList :
  (forall j, (j < nList)%nat -> aContent !! j = Some (c j)) -> (0 < nList <= 4096)%nat -> (nList <= length aBuffer)%nat ->
  exists aList' out,
    walMergesort aContent aBuffer (seq 0 nList) nList = Some (aList', length out) /\ length aList' = nList /\
    block 0 nList out /\ sits aList' 0 out.
Proof.
  intros Hc Hn Hb. unfold walMergesort, check at 1. change (Z.to_nat HASHTABLE_NPAGE) with (Z.to_nat 4096).
  rewrite (proj2 (Nat.leb_le _ _)), (proj2 (Nat.ltb_lt _ _)) by lia. cbn [andb mbind option_bind].
  destruct (outer_spec nList Hc ltac:(lia) nList 0 (seq 0 nList, aBuffer, replicate aSub_size (mkSub 0 None), 0%nat, 0%nat, 0%nat))
    as ([[[[[aList1 aBuffer1] aSub1] iSub1] aMerge1] nMerge1] & E & [[A1 A2 A3 A4] (Hi & Hlt & out1 & -> & -> & BO & SO)]); [lia| |lia|].
  { split; [apply length_seq|done| |].
    - split; [apply length_replicate|]. intros b _ Hbit. by rewrite Nat.bits_0 in Hbit.
    - intros i Hi'. apply lookup_seq. lia. }
  rewrite E. cbn [mbind option_bind].
  destruct (rest_spec nList Hc ltac:(lia) (aSub_size - S iSub1) (S iSub1) aList1 aBuffer1 aSub1 out1)
    as (aList2 & aBuffer2 & out2 & E2 & L2 & B2 & S2); try done; try lia.
  - apply (stack_frame 0 (S iSub1) nList nList aList1); [|done|done]. intros b Hb'. split; [lia|done].
  - rewrite E2. cbn. by exists aList2, out2.
Qed.
End sort.
