(* ===== verification/WalIteratorSpec.v ===== *)
(** The iterator visits every page of the log once, in ascending order, with its last
    frame, also while a writer appends to the log. *)
From Stdlib Require Import Sorting.Sorted.
From S2P Require Import Prelude SharedMem WalIndex WalIndexSpec WalIndexReader WalIterator WalSortSpec.

Section iterator.
Context (present : Z -> Prop) (only : bool) (f : Z -> Z) (n : Z).
Abbreviation R := (rely only n).
Abbreviation G := (fun _ _ : mem => False).

(** ** Segments *)

(** The page of entry [j] of page [pg] of the index. *)
Definition entry_page (pg : Z) (j : nat) : Z := f (first pg + 1 + Z.of_nat j).

(** A segment of sorted frames; the entries before [iNext] are of pages up to [prior]. *)
Record seg_ok (pg prior : Z) (s : WalSegment) : Prop := {
  sg_page : seg_page s = pg;
  sg_aPgno : seg_aPgno s = base pg + 1;
  sg_zero : seg_iZero s = first pg + 1;
  sg_next : (iNext s <= nEntry s)%nat;
  sg_block : exists out, block (entry_page pg) 0 (Z.to_nat (lim pg n)) out /\ sits (aIndex s) 0 out /\ nEntry s = length out /\
    forall i j, (i < iNext s)%nat -> out !! i = Some j -> entry_page pg j <= prior }.

(** The segments from [lo] on are sorted, and those before are empty. *)
Record iter_ok (lo prior : Z) (segs : list WalSegment) : Prop := {
  it_len : Z.of_nat (length segs) = walFramePage n + 1;
  it_skip i s : Z.of_nat i < lo -> segs !! i = Some s -> (nEntry s <= iNext s)%nat;
  it_seg i s : lo <= Z.of_nat i -> segs !! i = Some s -> seg_ok (Z.of_nat i) prior s }.

(** The least page after [prior] among the frames after [a], with its last frame. *)
Definition least_after (a prior q r : Z) : Prop :=
  a < r <= n /\ f r = q /\ prior < q /\ (forall i, r < i <= n -> f i <> q) /\ (forall i, a < i <= n -> prior < f i -> q <= f i).

Definition none_after (a prior : Z) : Prop := forall i, a < i <= n -> f i <= prior.

Lemma load_range_rg k pg i m Q :
  0 <= pg -> 1 <= i -> i + Z.of_nat k <= lim pg n + 1 -> index_ok m f n ->
  (forall xs m', R m m' -> length xs = k -> (forall j, (j < k)%nat -> xs !! j = Some (f (first pg + i + Z.of_nat j))) -> Q xs m') ->
  rg present R G (load_range k pg (base pg + i)) Q m.
Proof.
  intros Hpg. revert i m Q. induction k as [|k IH]; intros i m Q Hi Hk Hok HQ; cbn [load_range].
  - apply rg_done. intros m' HR. apply HQ; [done|done|lia].
  - intros m1 HR. cbn. rg_bind. rewrite <- Z.add_assoc.
    assert (Hok1 : index_ok m1 f n) by (apply (unchanged_ok n f m); [apply HR|done]).
    apply IH; [lia|lia|done|]. intros xs m2 HR2 Hl Hx. apply rg_done. intros m3 HR3.
    apply HQ; [transitivity m1; [done|by transitivity m2]|cbn; lia|]. intros j Hj. destruct j as [|j].
    + cbn. f_equal. rewrite Z.add_0_r. pose proof (tbl_pgno _ _ _ _ (Hok1 pg Hpg) i ltac:(lia)) as Ht. exact Ht.
    + cbn. rewrite Hx by lia. do 2 f_equal. lia.
Qed.

(** ** The next page *)

(** A frame that a segment indexes. *)
Lemma segment_frame pg i : 0 <= pg -> first pg < i <= first pg + lim pg n ->
  exists j, (j < Z.to_nat (lim pg n))%nat /\ entry_page pg j = f i /\ i = first pg + 1 + Z.of_nat j.
Proof.
  intros Hp Hi. exists (Z.to_nat (i - first pg - 1)). split; [lia|]. unfold entry_page.
  replace (first pg + 1 + Z.of_nat (Z.to_nat (i - first pg - 1))) with i by lia. done.
Qed.

(** What the inner loop finds in a segment. *)
Definition found_in (pg prior : Z) (s : WalSegment) (r : option Z) : Prop :=
  match r with
  | Some q => exists j, aIndex s !! iNext s = Some j /\ let i := first pg + 1 + Z.of_nat j in
      first pg < i <= first pg + lim pg n /\ f i = q /\ prior < q /\
      (forall i', i < i' <= first pg + lim pg n -> f i' <> q) /\
      (forall i', first pg < i' <= first pg + lim pg n -> prior < f i' -> q <= f i')
  | None => forall i, first pg < i <= first pg + lim pg n -> f i <= prior
  end.

Lemma next_segment_rg k pg prior s m Q :
  0 <= pg -> index_ok m f n -> seg_ok pg prior s -> k = (nEntry s - iNext s)%nat ->
  (forall s' r m', R m m' -> seg_ok pg prior s' ->
    found_in pg prior s' r -> Q (s', r) m') ->
  rg present R G (walIteratorNext_segment k s prior) Q m.
Proof.
  intros Hpg. revert s m Q. induction k as [|k IH]; intros s m Q Hok Hs Hk HQ; cbn [walIteratorNext_segment].
  - apply rg_done. intros m' HR. apply HQ; [done|done|]. destruct Hs as [_ _ _ H1 (out & [BS BB] & Hsit & Hl & Hb)].
    intros i Hi. destruct (segment_frame pg i Hpg Hi) as (j & Hj & <- & _).
    destruct (latest_exists (entry_page pg) 0 (Z.to_nat (lim pg n)) j ltac:(lia)) as (j' & _ & Hj' & <-).
    apply BB in Hj'. apply list_elem_of_lookup in Hj' as (x & Hx). apply (Hb x j'); [|done].
    apply lookup_lt_Some in Hx. lia.
  - pose proof Hs as [E1 E2 E3 H1 (out & HB & Hsit & Hl & Hb)]. pose proof HB as [BS BB].
    destruct (lookup_lt_is_Some_2 out (iNext s)) as [j Hj]; [lia|]. pose proof (Hsit _ _ Hj) as Hj'. cbn in Hj'. rewrite Hj'.
    assert (Hjl : latest (entry_page pg) 0 (Z.to_nat (lim pg n)) j) by (apply BB; by eapply list_elem_of_lookup_2).
    destruct Hjl as [Hjr Hjl]. pose proof (lim_range pg n) as Hlr. pose proof (first_nonneg pg Hpg) as Hf0.
    intros m1 HR. cbn. assert (Hok1 : index_ok m1 f n) by (apply (unchanged_ok n f m); [apply HR|done]).
    assert (Hrd : rd m1 (Word (seg_page s) (seg_aPgno s + Z.of_nat j)) = entry_page pg j).
    { rewrite E1, E2. pose proof (tbl_pgno _ _ _ _ (Hok1 pg Hpg) (1 + Z.of_nat j) ltac:(lia)) as Ht. unfold pgno_at in Ht.
      rewrite Z.add_assoc in Ht. rewrite Ht. unfold entry_page. f_equal. lia. }
    rewrite Hrd. destruct (prior <? entry_page pg j) eqn:Hlt; bool_to_prop.
    + apply rg_done. intros m2 HR2. apply HQ; [by transitivity m1|done|]. exists j. split; [done|]. split; [lia|].
      split; [done|]. split; [done|]. split.
      * intros i Hi Hfi. destruct (segment_frame pg i Hpg ltac:(lia)) as (j2 & Hj2 & Hp2 & ->).
        apply (Hjl j2); [lia|]. congruence.
      * intros i Hi Hp. destruct (segment_frame pg i Hpg Hi) as (j2 & Hj2 & Hp2 & _). rewrite <- Hp2 in Hp |- *.
        destruct (latest_exists (entry_page pg) 0 (Z.to_nat (lim pg n)) j2 ltac:(lia)) as (j3 & _ & Hj3 & E).
        rewrite <- E in Hp |- *. apply BB in Hj3. apply list_elem_of_lookup in Hj3 as (x & Hx).
        destruct (Nat.lt_trichotomy x (iNext s)) as [Hxi|[->|Hxi]].
        -- specialize (Hb x j3 Hxi Hx). lia.
        -- rewrite Hj in Hx. injection Hx as ->. lia.
        -- pose proof (sorted_lookup _ _ _ _ _ _ BS Hj Hx Hxi). lia.
    + apply IH; [done| |cbn; lia|].
      * split; cbn; [done..|lia|]. exists out. split; [done|]. split; [done|]. split; [done|]. intros i j0 Hi Hij.
        destruct (decide (i = iNext s)) as [->|]; [|apply (Hb i); [lia|done]]. rewrite Hj in Hij. injection Hij as <-. lia.
      * intros s' r m2 HR2 Hs' Hr. apply HQ; [by transitivity m1|done|done].
Qed.

Hypothesis Hn : 0 <= n < 2 ^ 31.
Hypothesis Hf : forall i, 1 <= i <= n -> 0 < f i < 0xFFFFFFFF.

(** The best page among the frames after [a]. *)
Definition best (a prior iRet iFrame : Z) : Prop :=
  (iRet = 0xFFFFFFFF /\ none_after a prior) \/ (iRet < 0xFFFFFFFF /\ least_after a prior iRet iFrame).

(** The frames of a segment, and those of the segments after it. *)
Lemma frame_cases pg i : 0 <= pg -> first pg < i <= n -> i <= first pg + lim pg n \/ first (pg + 1) < i.
Proof. intros Hp Hi. rewrite first_next by done. unfold lim. pose proof (cap_range pg). lia. Qed.

Lemma lim_first pg : 0 <= pg -> first pg + lim pg n <= Z.max (first pg) n.
Proof. intros Hp. unfold lim. pose proof (cap_range pg). lia. Qed.

Lemma best_skip pg prior s iRet iFrame :
  0 <= pg -> found_in pg prior s None -> best (first (pg + 1)) prior iRet iFrame -> best (first pg) prior iRet iFrame.
Proof.
  intros Hp Hno Hb. pose proof (first_next pg Hp) as Hfn. pose proof (cap_range pg) as Hcr. cbn in Hno.
  assert (Hle : forall i, first pg < i <= n -> prior < f i -> first (pg + 1) < i).
  { intros i Hi Hfi. destruct (frame_cases pg i Hp Hi); [|done]. specialize (Hno i ltac:(lia)). lia. }
  destruct Hb as [[E H]|[E (H1 & H2 & H3 & H4 & H5)]]; [left|right]; (split; [done|]).
  - intros i Hi. destruct (frame_cases pg i Hp Hi); [apply Hno; lia|apply H; lia].
  - split; [lia|]. split; [done|]. split; [done|]. split; [done|]. intros i Hi Hfi. specialize (Hle i Hi Hfi). apply H5; [lia|done].
Qed.

Lemma best_found pg prior s q j iRet iFrame :
  0 <= pg -> found_in pg prior s (Some q) -> aIndex s !! iNext s = Some j -> best (first (pg + 1)) prior iRet iFrame ->
  0 <= first pg + 1 + Z.of_nat j < 2 ^ 31 /\
  (q < iRet -> best (first pg) prior q (first pg + 1 + Z.of_nat j)) /\ (iRet <= q -> best (first pg) prior iRet iFrame).
Proof.
  intros Hp (j' & Ej & Hj1 & Hj2 & Hj3 & Hj4 & Hj5) Ej' Hb. rewrite Ej in Ej'. injection Ej' as ->.
  pose proof (first_next pg Hp) as Hfn. pose proof (cap_range pg) as Hcr. pose proof (first_nonneg pg Hp) as H0.
  set (i := first pg + 1 + Z.of_nat j) in *. pose proof (lim_first pg Hp) as Hlf. assert (Hin : first pg < i <= n) by lia.
  pose proof (Hf i ltac:(lia)) as Hfi. split; [lia|]. split.
  - intros Hq. right. split; [lia|]. split; [done|]. split; [done|]. split; [done|].
    assert (Hhi : forall x, first (pg + 1) < x <= n -> prior < f x -> q < f x).
    { intros x Hx Hpx. destruct Hb as [[_ H]|[_ (_ & _ & _ & _ & H)]]; [specialize (H x Hx); lia|specialize (H x Hx Hpx); lia]. }
    split.
    + intros x Hx Hfx. destruct (frame_cases pg x Hp ltac:(lia)); [by apply (Hj4 x); [lia|]|].
      specialize (Hhi x ltac:(lia) ltac:(lia)). lia.
    + intros x Hx Hpx. destruct (frame_cases pg x Hp ltac:(lia)); [apply Hj5; [lia|done]|].
      specialize (Hhi x ltac:(lia) Hpx). lia.
  - intros Hq. destruct Hb as [[E _]|[E (H1 & H2 & H3 & H4 & H5)]]; [lia|]. right. split; [done|].
    split; [lia|]. split; [done|]. split; [done|]. split; [done|]. intros x Hx Hpx.
    destruct (frame_cases pg x Hp ltac:(lia)); [specialize (Hj5 x ltac:(lia) Hpx); lia|apply H5; [lia|done]].
Qed.

Lemma iter_ok_insert lo prior segs i s :
  iter_ok lo prior segs -> lo <= Z.of_nat i -> seg_ok (Z.of_nat i) prior s -> iter_ok lo prior (<[i := s]> segs).
Proof.
  intros [H1 H2 H3] Hi Hs. split; [by rewrite length_insert| |].
  - intros i' s' Hi' Hl. rewrite list_lookup_insert_ne in Hl by lia. by eapply H2.
  - intros i' s' Hi' Hl. destruct (decide (i' = i)) as [->|Hne].
    + rewrite list_lookup_insert_eq in Hl by (apply lookup_lt_Some in Hl; by rewrite length_insert in Hl). by injection Hl as <-.
    + rewrite list_lookup_insert_ne in Hl by done. by eapply H3.
Qed.

Lemma next_loop_rg i lo prior segs iRet iFrame m Q :
  0 <= lo -> iter_ok lo prior segs -> (i <= length segs)%nat -> index_ok m f n ->
  best (first (Z.max lo (Z.of_nat i))) prior iRet iFrame ->
  (forall segs' iRet' iFrame' m', R m m' -> iter_ok lo prior segs' -> best (first lo) prior iRet' iFrame' -> Q (segs', iRet', iFrame') m') ->
  rg present R G (walIteratorNext_loop i segs prior iRet iFrame) Q m.
Proof.
  intros Hlo. revert segs iRet iFrame m Q. induction i as [|i IH]; intros segs iRet iFrame m Q Hit Hi Hok Hb HQ; cbn [walIteratorNext_loop].
  { apply rg_done. intros m' HR. apply HQ; [done|done|]. by rewrite Z.max_l in Hb by lia. }
  destruct (lookup_lt_is_Some_2 segs i Hi) as [s Hs]. rewrite Hs. rg_bind. destruct (decide (Z.of_nat i < lo)) as [Hlt|Hge].
  - pose proof (it_skip _ _ _ Hit i s Hlt Hs) as Hsk. replace (nEntry s - iNext s)%nat with 0%nat by lia.
    apply rg_done. intros m1 HR. rewrite list_insert_id by done. apply IH; [done|lia| | |].
    + apply (unchanged_ok n f m); [apply HR|done].
    + by rewrite Z.max_l in Hb |- * by lia.
    + intros segs' iRet' iFrame' m' HR'. apply HQ. by transitivity m1.
  - rewrite Z.max_r in Hb by lia. replace (Z.of_nat (S i)) with (Z.of_nat i + 1) in Hb by lia.
    apply (next_segment_rg _ (Z.of_nat i)); [lia|done|by apply (it_seg _ _ _ Hit i s); [lia|]|done|].
    intros s' r m1 HR Hs' Hr.
    assert (Hgo : forall iRet' iFrame', best (first (Z.of_nat i)) prior iRet' iFrame' ->
      rg present R G (walIteratorNext_loop i (<[i:=s']> segs) prior iRet' iFrame') Q m1).
    { intros iRet' iFrame' Hb'. apply IH.
      - apply iter_ok_insert; [done|lia|done].
      - rewrite length_insert. lia.
      - apply (unchanged_ok n f m); [apply HR|done].
      - by rewrite Z.max_r by lia.
      - intros segs' iRet2 iFrame2 m' HR'. apply HQ. by transitivity m1. }
    destruct r as [q|].
    + pose proof Hr as (j & Ej & _). rewrite Ej.
      destruct (best_found (Z.of_nat i) prior s' q j iRet iFrame ltac:(lia) Hr Ej Hb) as (Hrange & Hless & Hmore).
      rewrite (sg_zero _ _ _ Hs'), (wrap_u_id 32) by (unfold in_u; lia).
      destruct (q <? iRet) eqn:Hq; bool_to_prop; apply Hgo; [by apply Hless|by apply Hmore; lia].
    + apply Hgo. by apply (best_skip _ _ s'); [lia|..].
Qed.

(** The position of the iterator after the page [prior]. *)
Definition at_page (lo prior : Z) (p : WalIterator) : Prop := wrap_u 32 (iPrior p) = prior /\ iter_ok lo prior (aSegment p).

Lemma iter_ok_later lo prior prior' segs : prior <= prior' -> iter_ok lo prior segs -> iter_ok lo prior' segs.
Proof.
  intros Hp [H1 H2 H3]. split; [done|done|]. intros i s Hi Hs. destruct (H3 i s Hi Hs) as [S1 S2 S3 S4 (out & B1 & B2 & B3 & B4)].
  split; [done..|]. exists out. split_and!; try done. intros i' j Hi' Hj. specialize (B4 i' j Hi' Hj). lia.
Qed.

Lemma walIteratorNext_rg lo prior p iFrame m Q :
  0 <= lo -> 0 <= prior < 0xFFFFFFFF -> at_page lo prior p -> index_ok m f n ->
  (forall p' q r m', R m m' -> least_after (first lo) prior q r -> 0 <= q < 0xFFFFFFFF -> at_page lo q p' -> Q (p', false, q, r) m') ->
  (forall p' r m', R m m' -> none_after (first lo) prior -> Q (p', true, 0xFFFFFFFF, r) m') ->
  rg present R G (walIteratorNext p iFrame) Q m.
Proof.
  intros Hlo Hpr [Ep Hit] Hok HQ HE. unfold walIteratorNext. rewrite Ep. apply rg_insist; [apply Z.ltb_lt; lia|]. rg_bind.
  apply (next_loop_rg _ lo); [done|done|done|done| |].
  - left. split; [done|]. intros i Hi. exfalso. pose proof (it_len _ _ _ Hit) as Hl. unfold nSegment in Hi. rewrite Hl in Hi.
    assert (H0 : 0 <= walFramePage n) by (rewrite walFramePage_eq by lia; apply Z.div_pos; lia).
    assert (first (walFramePage n + 1) <= first (Z.max lo (walFramePage n + 1))).
    { destruct (Z.max_spec lo (walFramePage n + 1)) as [[_ ->]|[? ->]]; [done|]. unfold first. layout. }
    destruct (decide (1 <= n)) as [Hn1|]; [|pose proof (first_nonneg (Z.max lo (walFramePage n + 1)) ltac:(lia)); lia].
    destruct (proj1 (walFramePage_spec n (walFramePage n) ltac:(lia)) eq_refl) as [_ Hr]. rewrite first_next in * by lia. lia.
  - intros segs' iRet iFrame' m' HR Hit' Hb. apply rg_done. intros m2 HR2. destruct Hb as [[-> Hb]|[Hlt Hb]].
    + rewrite Z.eqb_refl. apply HE; [by transitivity m'|done].
    + rewrite (proj2 (Z.eqb_neq _ _)) by lia. pose proof Hb as (Hb1 & Hb2 & Hb3 & _). pose proof (first_nonneg lo Hlo).
      assert (Hq : 0 <= iRet < 0xFFFFFFFF) by lia. apply HQ; [by transitivity m'|done|done|]. split.
      * cbn. unfold wrap_s, wrap_u. rewrite Zminus_mod_idemp_l. replace (iRet + 2 ^ (32 - 1) - 2 ^ (32 - 1)) with iRet by lia.
        apply Z.mod_small. lia.
      * apply (iter_ok_later lo prior); [lia|done].
Qed.

(** ** Initialisation *)

Hypothesis Hn1 : 1 <= n.

Lemma last_page : 0 <= walFramePage n /\ first (walFramePage n) < n <= first (walFramePage n) + cap (walFramePage n).
Proof. apply (walFramePage_spec n (walFramePage n) ltac:(lia)). done. Qed.

(** The number of entries of a segment. *)
Lemma segment_size i : 0 <= i <= walFramePage n ->
  (if i + 1 =? walFramePage n + 1 then n - first i else HASHTABLE_NPAGE - (base i + 1)) = lim i n /\
  1 <= lim i n <= 4096 /\ first i + lim i n <= n.
Proof.
  intros Hi. destruct last_page as [Hp Hr]. pose proof (cap_range i) as Hc. pose proof (first_nonneg i ltac:(lia)) as Hf0. unfold lim.
  destruct (Z.eqb_spec (i + 1) (walFramePage n + 1)) as [E|E].
  - assert (i = walFramePage n) as -> by lia. lia.
  - assert (Hlt : first i + cap i < n).
    { assert (first (i + 1) <= first (walFramePage n)) by (unfold first; layout). rewrite first_next in * by lia. lia. }
    assert (Hcap : HASHTABLE_NPAGE - (base i + 1) = cap i) by layout. lia.
Qed.

(** The segments before page [i] are done. *)
Record init_ok (lo i : Z) (segs : list WalSegment) : Prop := {
  in_len : Z.of_nat (length segs) = walFramePage n + 1;
  in_skip j s : Z.of_nat j < lo -> segs !! j = Some s -> s = zero_segment;
  in_seg j s : lo <= Z.of_nat j < i -> segs !! j = Some s -> seg_ok (Z.of_nat j) 0 s }.

Definition initialised (lo : Z) (w : Wal) (res : Wal * Z * option WalIterator) : Prop :=
  let '(w', rc, p) := res in maps_more w w' /\
  match p with Some p => rc = SQLITE_OK /\ at_page lo 0 p | None => rc <> SQLITE_OK end.

Lemma init_segment i aIndex out w' :
  0 <= i <= walFramePage n -> block (entry_page i) 0 (Z.to_nat (lim i n)) out -> sits aIndex 0 out -> w' = first i ->
  seg_ok i 0 (mkSeg 0 aIndex i (base i + 1) (length out) (w' + 1)).
Proof. intros Hi HB HS ->. split; try done; [cbn; lia|]. exists out. split_and!; try done. cbn. intros; lia. Qed.

Lemma init_loop_rg k w p nTmp lo i m Q :
  0 <= lo <= i -> Z.of_nat k = walFramePage n + 1 - i -> iPrior p = 0 -> init_ok lo i (aSegment p) ->
  Z.of_nat nTmp = Z.min n 4096 -> mapped w 0 = true -> (forall pg, 0 <= pg <= walFramePage n -> can_map present w pg) ->
  index_ok m f n ->
  (forall res m', R m m' -> initialised lo w res -> Q res m') ->
  rg present R G (walIteratorInit_loop k w p nTmp n i) Q m.
Proof.
  intros Hlo. revert w p i Hlo m Q. induction k as [|k IH]; intros w p i Hlo m Q Hk Hpr [I1 I2 I3] Ht H0 Hcan Hok HQ; cbn [walIteratorInit_loop].
  { apply rg_done. intros m' HR. apply HQ; [done|]. split; [done|]. split; [done|]. split; [by rewrite Hpr|]. split; [done| |].
    - intros j s Hj Hs. by rewrite (I2 j s Hj Hs).
    - intros j s Hj Hs. apply (I3 j s); [|done]. apply lookup_lt_Some in Hs. lia. }
  rg_bind. apply walHashGet_rg; [apply _|lia|done|by apply Hcan; lia|]. intros w1 rc Hw1 Hrc _ m1 HR1.
  destruct (rc =? SQLITE_OK) eqn:Erc; bool_to_prop; cbn [negb].
  2: { apply rg_done. intros m' HR. apply HQ; [by transitivity m1|]. by split. }
  subst rc. unfold nSegment. rewrite I1. destruct (segment_size i ltac:(lia)) as (Hsz & Hl & Hfl). cbn [loc hl_page hl_aPgno iZero].
  rewrite Hsz. pose proof (first_nonneg i ltac:(lia)) as Hf0. apply rg_insist.
  { rewrite (proj2 (Z.leb_le 0 _)), (proj2 (Z.leb_le _ n)) by lia. done. }
  rg_bind. apply load_range_rg; [lia|lia|lia|by apply (unchanged_ok n f m); [apply HR1|]|]. intros xs m2 HR2 Hlen Hxs.
  destruct (walMergesort_spec (entry_page i) xs (replicate nTmp 0%nat) (Z.to_nat (lim i n))) as (aIndex & out & -> & _ & HB & HS);
    [exact Hxs|lia|rewrite length_replicate; lia|].
  assert (HR02 : R m m2) by (by transitivity m1). apply IH; try done; [lia|lia| | | | |].
  - split; [by cbn; rewrite length_insert| |].
    + intros j s Hj Hs. cbn in Hs. rewrite list_lookup_insert_ne in Hs by lia. by apply (I2 j).
    + intros j s Hj Hs. cbn in Hs. destruct (decide (Z.to_nat i = j)) as [<-|Hne].
      * rewrite list_lookup_insert_eq in Hs by lia. injection Hs as <-. rewrite Z2Nat.id by lia. by apply init_segment; [lia|..].
      * rewrite list_lookup_insert_ne in Hs by done. apply (I3 j s); [lia|done].
  - by apply (mm_mapped w w1 Hw1).
  - intros pg Hp. destruct (Hcan pg Hp); [by left|right]. destruct (maps_more_fields w w1 Hw1) as [_ ->]. done.
  - apply (unchanged_ok n f m); [apply HR02|done].
  - intros [[w' rc] p'] m' HR [Hw' Hr]. apply HQ; [by transitivity m2|]. split; [by transitivity w1|done].
Qed.

(** The iterator visits frames from the page of the index that has [nBackfill + 1] on. *)
Definition start_page (nBackfill : Z) : Z := walFramePage (nBackfill + 1).

Lemma start_page_range nBackfill : 0 <= nBackfill < n ->
  0 <= start_page nBackfill <= walFramePage n /\ first (start_page nBackfill) <= nBackfill.
Proof.
  intros Hb. unfold start_page. destruct (proj1 (walFramePage_spec (nBackfill + 1) (walFramePage (nBackfill + 1)) ltac:(lia)) eq_refl) as [Hp Hr].
  pose proof (walFramePage_mono (nBackfill + 1) n ltac:(lia) ltac:(lia)). lia.
Qed.

Lemma walIteratorInit_rg w nBackfill m Q :
  n = mxFrame (hdr w) -> ckptLock w = true -> 0 <= nBackfill < n -> mapped w 0 = true ->
  (forall pg, 0 <= pg <= walFramePage n -> can_map present w pg) -> index_ok m f n ->
  (forall res m', R m m' -> initialised (start_page nBackfill) w res -> Q res m') ->
  rg present R G (walIteratorInit w nBackfill) Q m.
Proof.
  intros En Hck Hb H0 Hcan Hok HQ. unfold walIteratorInit. rewrite <- En. destruct (start_page_range nBackfill Hb) as [Hst _].
  apply rg_insist; [rewrite Hck; apply Z.ltb_lt; lia|].
  assert (Hno : rg present R G (Done (w, SQLITE_NOMEM, None)) Q m).
  { apply rg_done. intros m' HR. apply HQ; [done|]. by split. }
  intros []; [|done]. intros []; [|done]. rewrite (wrap_u_id 32) by (unfold in_u; lia). fold (start_page nBackfill).
  apply (init_loop_rg _ _ _ _ (start_page nBackfill)); try done; try lia.
  - split; cbn; [rewrite length_replicate; lia| |].
    + intros j s _ Hs. by apply lookup_replicate in Hs as [-> _].
    + intros j s Hj. lia.
  - change HASHTABLE_NPAGE with 4096. case_bool; bool_to_prop; lia.
Qed.

(** ** The whole iteration *)

(** The pages and frames that the iterator gives, until there are no more. *)
Fixpoint visit (fuel : nat) (p : WalIterator) (iFrame : Z) : prog (list (Z * Z)) :=
  match fuel with
  | O => Stuck
  | S fuel =>
      '(p, last, iDbpage, iFrame) ← walIteratorNext p iFrame;
      if negb last then l ← visit fuel p iFrame; Done ((iDbpage, iFrame) :: l) else Done []
  end.

(** In ascending order, every page of the frames after [a], with its last frame. *)
Definition visited (a prior : Z) (l : list (Z * Z)) : Prop :=
  StronglySorted (fun x y => x.1 < y.1) l /\
  forall q r, (q, r) ∈ l <-> a < r <= n /\ f r = q /\ prior < q /\ (forall i, r < i <= n -> f i <> q).

(** Frames of pages that are still to come: a bound on the number of steps. *)
Definition remaining (prior : Z) : nat := length (filter (fun i => prior < f i) (seqZ 1 n)).

Lemma remaining_le prior : (remaining prior <= Z.to_nat n)%nat.
Proof. unfold remaining. rewrite length_filter. by rewrite length_seqZ. Qed.

Lemma remaining_next a prior q r : 0 <= a -> least_after a prior q r -> (remaining q < remaining prior)%nat.
Proof.
  intros Ha (Hr & Hfr & Hq & _). unfold remaining.
  assert (E : filter (fun i => q < f i) (seqZ 1 n) = filter (fun i => q < f i) (filter (fun i => prior < f i) (seqZ 1 n))).
  { rewrite list_filter_filter. apply list_filter_iff. intros x. lia. }
  rewrite E. apply (length_filter_lt _ _ r); [|lia]. apply list_elem_of_filter. split; [lia|]. apply elem_of_seqZ. lia.
Qed.

Lemma visit_rg fuel lo prior p iFrame m :
  0 <= lo -> 0 <= prior < 0xFFFFFFFF -> at_page lo prior p -> index_ok m f n -> (remaining prior < fuel)%nat ->
  rg present R G (visit fuel p iFrame) (fun l _ => visited (first lo) prior l) m.
Proof.
  intros Hlo. revert prior p iFrame m. induction fuel as [|fuel IH]; intros prior p iFrame m Hp Hat Hok Hfuel; [lia|].
  cbn [visit]. rg_bind. pose proof (first_nonneg lo Hlo) as H0. apply (walIteratorNext_rg lo prior); try done.
  - intros p' q r m1 HR Hl Hq Hat'. cbn [negb]. rg_bind.
    pose proof (remaining_next _ _ _ _ H0 Hl) as Hrem. destruct Hl as (L1 & L2 & L3 & L4 & L5).
    eapply rg_mono; [|apply (IH q p'); [done|done|by apply (unchanged_ok n f m); [apply HR|]|lia]].
    intros l m2 [HS HL]. apply rg_done. intros m3 _. split.
    + constructor; [done|]. apply Forall_forall. intros [q' r'] Hin. apply HL in Hin as (_ & _ & Hlt & _). done.
    + intros q' r'. rewrite elem_of_cons, HL. split.
      * intros [[= -> ->]|(A1 & A2 & A3 & A4)]; [done|]. split_and!; (done || lia).
      * intros (A1 & A2 & A3 & A4). specialize (L5 r' A1 ltac:(lia)).
        destruct (decide (q' = q)) as [->|]; [left|right; split_and!; (done || lia)].
        destruct (Z.lt_trichotomy r r') as [Hlt|[->|Hlt]]; [exfalso; by apply (L4 r'); [lia|]|done|exfalso; by apply (A4 r); [lia|]].
  - intros p' r m1 HR Hno. cbn [negb]. apply rg_done. intros m2 _. split; [constructor|]. intros q r'. split.
    + intros Hin. by apply not_elem_of_nil in Hin.
    + intros (A1 & A2 & A3 & _). specialize (Hno r' A1). lia.
Qed.

(** The iterator is made, and visits the pages. *)
Definition visit_all (w : Wal) (nBackfill : Z) : prog (Wal * Z * list (Z * Z)) :=
  '(w, rc, p) ← walIteratorInit w nBackfill;
  match p with
  | Some p => l ← visit (S (Z.to_nat (mxFrame (hdr w)))) p 0; Done (w, rc, l)
  | None => Done (w, rc, [])
  end.

Definition visit_result (w : Wal) (nBackfill : Z) (res : Wal * Z * list (Z * Z)) : Prop :=
  let '(w', rc, l) := res in rc = SQLITE_OK -> visited (first (start_page nBackfill)) 0 l.

Lemma visit_all_rg w nBackfill m :
  n = mxFrame (hdr w) -> ckptLock w = true -> 0 <= nBackfill < n -> mapped w 0 = true ->
  (forall pg, 0 <= pg <= walFramePage n -> can_map present w pg) -> index_ok m f n ->
  rg present R G (visit_all w nBackfill) (fun res _ => visit_result w nBackfill res) m.
Proof.
  intros En Hck Hb H0 Hcan Hok. unfold visit_all. rg_bind. apply walIteratorInit_rg; try done.
  intros [[w' rc] [p|]] m1 HR [Hw' Hr]; [|by apply rg_done; intros m2 _ Hrc].
  destruct Hr as [-> Hat]. rg_bind. destruct (start_page_range nBackfill Hb) as [Hst _].
  assert (E : mxFrame (hdr w') = n) by (rewrite (mm_rest _ _ Hw'), En; by destruct w). rewrite E.
  eapply rg_mono; [|apply (visit_rg _ (start_page nBackfill) 0); [lia|lia|done|by apply (unchanged_ok n f m); [apply HR|]|]].
  - intros l m2 Hl. apply rg_done. intros m3 _ _. exact Hl.
  - pose proof (remaining_le 0). lia.
Qed.
End iterator.
