(* ===== verification/WalFrame.v ===== *)
(** The cells that a program touches: a writer of the wal-index reads and stores cells
    of the tables only, so that what others do elsewhere does not matter to it. *)
From S2P Require Import Prelude SharedMem WalIndex WalIndexSpec WalIndexReader WalIndexWriter WalIndexTheorems WalHeader WalFile.

(** ** Framing *)

(** Every access of the program is to a cell of [C], and its result satisfies [P]. *)
Fixpoint touches (C : cell -> Prop) {A} (p : prog A) (P : A -> Prop) : Prop :=
  match p with
  | Done a => P a
  | Load c k => C c /\ forall v, touches C (k v) P
  | Store c v k => C c /\ touches C k P
  | Alloc k => forall b, touches C (k b) P
  | ShmMap pg ext k => forall rc ptr, touches C (k rc ptr) P
  | Ask k => forall v, touches C (k v) P
  | Try f k => False
  | Stuck => True
  end.

Lemma touches_mono C {A} (p : prog A) (P P' : A -> Prop) : (forall a, P a -> P' a) -> touches C p P -> touches C p P'.
Proof. intros HP. induction p as [a|c k IH|c v k IH|k IH|pg e k IH|k IH|g k IH|]; cbn; naive_solver. Qed.

Lemma touches_bind C {A B} (p : prog A) (f : A -> prog B) P :
  touches C p (fun a => touches C (f a) P) -> touches C (p ≫= f) P.
Proof. induction p as [a|c k IH|c v k IH|k IH|pg e k IH|k IH|g k IH|]; cbn; naive_solver. Qed.

Lemma touches_load (C : cell -> Prop) {A} c (f : Z -> prog A) P : C c -> (forall v, touches C (f v) P) -> touches C (load c ≫= f) P.
Proof. by split. Qed.

Lemma touches_store (C : cell -> Prop) {A} c v (f : unit -> prog A) P : C c -> touches C (f ()) P -> touches C (store c v ≫= f) P.
Proof. by split. Qed.

Lemma touches_insist C {A} b (p : prog A) P : (b = true -> touches C p P) -> touches C (insist b p) P.
Proof. destruct b; cbn; auto. Qed.

(** The cells of [C] are the same. *)
Definition agree (C : cell -> Prop) (m m' : mem) : Prop := forall c, C c -> rd m' c = rd m c.

#[global] Instance agree_equivalence C : Equivalence (agree C).
Proof.
  split.
  - by intros m c.
  - intros m m' H c Hc. symmetry. by apply H.
  - intros m1 m2 m3 H1 H2 c Hc. by rewrite H2, H1.
Qed.

Lemma agree_insert C m m' c v : agree C m m' -> agree C (<[c := v]> m) (<[c := v]> m').
Proof. intros H c' Hc. rewrite !rd_insert. case_decide; [done|by apply H]. Qed.

Lemma agree_store (C : cell -> Prop) m c v : ~ C c -> agree C m (<[c := v]> m).
Proof. intros Hc c' Hc'. rewrite rd_insert. case_decide; [by subst|done]. Qed.

(** A program that is right alone is right beside others that leave its cells alone. *)
Lemma rg_frame present C (G : mem -> mem -> Prop) {A} (p : prog A) P (Q : A -> mem -> Prop) m m1 :
  (forall a m m', agree C m m' -> Q a m -> Q a m') ->
  (forall m m' c v, C c -> agree C m m' -> G m (<[c := v]> m) -> G m' (<[c := v]> m')) ->
  touches C p P -> rg present eq G p Q m -> agree C m m1 ->
  rg present (agree C) (fun m m' => G m m' /\ agree (fun c => ~ C c) m m') p (fun a m => P a /\ Q a m) m1.
Proof.
  intros HQ HG. revert m m1. induction p as [a|c k IH|c v k IH|k IH|pg e k IH|k IH|g k IH|]; intros m m1; cbn.
  - intros HP Hq Hm m2 Hm2. split; [done|]. apply (HQ _ m); [by transitivity m1|auto].
  - intros [Hc Hk] Hq Hm m2 Hm2. assert (E : agree C m m2) by (by transitivity m1).
    apply (IH _ m); [done| |done]. rewrite (E c Hc). by apply Hq.
  - intros [Hc Hk] Hq Hm m2 Hm2. assert (E : agree C m m2) by (by transitivity m1). destruct (Hq m eq_refl) as [Hg Hq'].
    split; [split; [by apply (HG m)|by apply agree_store; auto]|]. apply (IH (<[c:=v]> m)); [done|done|by apply agree_insert].
  - intros Hk Hq Hm b. by apply (IH _ m).
  - intros Hk Hq Hm rc ptr Ha. apply (IH _ _ m); auto.
  - intros Hk Hq Hm v. by apply (IH _ m).
  - done.
  - done.
Qed.

(** ** One access after another

    Where others leave the cells of [C] alone, a program that accesses only these can
    be followed as if it ran alone. *)
Section beside.
Context (present : Z -> Prop) (C : cell -> Prop) (G : mem -> mem -> Prop).
Abbreviation beside := (rg present (agree C) G).

Lemma load_beside {A} c (f : Z -> prog A) Q m : C c -> beside (f (rd m c)) Q m -> beside (load c ≫= f) Q m.
Proof. intros Hc H m1 Hm1. cbn. rewrite (Hm1 c Hc). by apply (rg_stable _ (agree C) _ _ _ m). Qed.

Lemma store_beside {A} c v (f : unit -> prog A) Q m :
  (forall m1, agree C m m1 -> G m1 (<[c := v]> m1)) -> beside (f ()) Q (<[c := v]> m) -> beside (store c v ≫= f) Q m.
Proof.
  intros HG H m1 Hm1. split; [by apply HG|]. cbn.
  apply (rg_stable _ (agree C) _ _ _ (<[c := v]> m)); [by apply agree_insert|done].
Qed.

(** Words and cells that are loaded. *)
Lemma load_words_beside n i m (Q : list Z -> mem -> Prop) :
  (forall j, i <= j < i + Z.of_nat n -> C (Word 0 j)) ->
  (forall m', agree C m m' -> Q ((fun j => rd m (Word 0 j)) <$> seqZ i (Z.of_nat n)) m') -> beside (load_words n i) Q m.
Proof.
  revert i Q. induction n as [|n IH]; intros i Q HC HQ; cbn [load_words].
  - apply rg_done. intros m' Hm. by apply HQ.
  - apply load_beside; [apply HC; lia|]. rg_bind. apply IH; [intros j Hj; apply HC; lia|]. intros m1 H1. apply rg_done. intros m2 H2.
    rewrite seqZ_cons in HQ by lia. replace (Z.pred (Z.of_nat (S n))) with (Z.of_nat n) in HQ by lia. apply HQ. by transitivity m1.
Qed.

Lemma load_cells_beside cs m (Q : list Z -> mem -> Prop) :
  Forall C cs -> (forall m', agree C m m' -> Q (rd m <$> cs) m') -> beside (load_cells cs) Q m.
Proof.
  intros Hcs. revert Q. induction Hcs as [|c cs Hc Hcs IH]; intros Q HQ; cbn [load_cells].
  - apply rg_done. intros m' Hm. by apply HQ.
  - apply load_beside; [done|]. rg_bind. apply IH. intros m1 H1. apply rg_done. intros m2 H2. apply HQ. by transitivity m1.
Qed.

Lemma os_read_log_beside cs m (Q : Z * list Z -> mem -> Prop) :
  Forall C cs ->
  (forall rc vs m', agree C m m' -> (rc = SQLITE_OK -> vs = rd m <$> cs) -> Q (rc, vs) m') -> beside (os_read_log cs) Q m.
Proof.
  intros Hcs HQ. unfold os_read_log. intros rc. case_bool.
  - rg_bind. apply load_cells_beside; [done|]. intros m1 H1. apply rg_done. intros m2 H2. apply HQ; [by transitivity m1|done].
  - apply rg_done. intros m' Hm. apply HQ; [done|]. bool_to_prop. by intros E.
Qed.

Lemma os_log_size_beside m (Q : Z * Z -> mem -> Prop) :
  C LogSize -> (forall rc sz m', agree C m m' -> (rc = SQLITE_OK -> sz = rd m LogSize) -> Q (rc, sz) m') -> beside os_log_size Q m.
Proof.
  intros HC HQ. unfold os_log_size. intros rc. case_bool; bool_to_prop.
  - apply load_beside; [done|]. apply rg_done. intros m1 H1. by apply HQ.
  - apply rg_done. intros m1 H1. by apply HQ.
Qed.

(** A system call whose effect does not matter. *)
Lemma os_call_beside m (Q : Z -> mem -> Prop) : (forall rc m', agree C m m' -> Q rc m') -> beside (os_call (Done ())) Q m.
Proof. intros HQ rc. case_bool; apply rg_done; intros m' Hm; by apply HQ. Qed.

Fixpoint write_words (ws : list Z) (i : Z) (m : mem) : mem :=
  match ws with [] => m | x :: ws => write_words ws (i + 1) (<[Word 0 i := x]> m) end.

Lemma store_words_beside {A} ws i (f : unit -> prog A) Q m :
  (forall j v m1, i <= j < i + Z.of_nat (length ws) -> G m1 (<[Word 0 j := v]> m1)) ->
  beside (f ()) Q (write_words ws i m) -> beside (store_words ws i ≫= f) Q m.
Proof.
  revert i m. induction ws as [|x ws IH]; intros i m HG H; cbn [store_words write_words length] in *; [done|].
  change (beside (store (Word 0 i) x ≫= fun _ => store_words ws (i + 1) ≫= f) Q m).
  apply store_beside; [intros m1 _; apply HG; lia|]. apply IH; [|done]. intros j v m1 Hj. apply HG. lia.
Qed.
End beside.

(** ** The cells of the tables *)

Definition table_cell (c : cell) : Prop :=
  match c with Word pg i => pg <> 0 \/ 34 <= i | Slot _ _ => True | _ => False end.

Lemma word_cell pg i : 1 <= i -> table_cell (Word pg (base pg + i)).
Proof. intros Hi. unfold base. cbn. destruct (Z.eqb_spec pg 0); lia. Qed.

Section tables.
Context (m m' : mem).
Hypothesis Hm : agree table_cell m m'.

Lemma table_same pg : same_page pg m m'.
Proof. split; [intros k; by apply Hm|]. intros i Hi. by apply Hm, word_cell. Qed.

Lemma table_rely only c : rely only c m m'.
Proof.
  assert (Hs : forall pg k, slot_at m' pg k = slot_at m pg k) by (intros pg; apply (table_same pg)).
  split.
  - split.
    + intros pg i Hp Hi. apply (table_same pg). lia.
    + intros pg k _ _ _. apply Hs.
    + intros pg k _ _. by rewrite Hs.
  - intros _ pg k _ _ _. apply Hs.
  - intros pg _ (k & Hk & H). exists k. by rewrite Hs.
Qed.

Lemma table_index f n : index_ok m f n -> index_ok m' f n.
Proof. intros H pg Hp. apply (same_table m); [apply table_same|by apply H]. Qed.

Lemma table_writer f n mx : writer_inv m f n mx -> writer_inv m' f n mx.
Proof.
  intros [W1 W2 W3 W4]. split; [by apply table_index| |done|done]. intros pg Hp Hl.
  destruct (W2 pg Hp Hl) as (J & HJ & HJ2). exists J. split; [|done]. apply (same_full m); [apply table_same|done].
Qed.
End tables.

(** ** What the writer touches *)

Abbreviation in_tables := (touches table_cell).

Lemma walIndexPage_touches w pg : in_tables (walIndexPage w pg) (fun _ => True).
Proof.
  assert (Hm : forall w, in_tables (walIndexPageRealloc_map w pg) (fun _ => True)).
  { intros w'. unfold walIndexPageRealloc_map. apply touches_insist. intros _. case_bool.
    - intros b. by apply touches_insist.
    - intros rc ptr. apply touches_insist. intros _. destruct (Z.land rc 0xff =? SQLITE_READONLY); by apply touches_insist. }
  unfold walIndexPage, walIndexPageRealloc. case_bool; [|done]. case_bool; [|done]. by intros [].
Qed.

Lemma walHashGet_touches w pg : in_tables (walHashGet w pg) (fun '(_, _, l) => l = loc pg).
Proof.
  unfold walHashGet. apply touches_bind. apply (touches_mono _ _ (fun _ => True)); [|apply walIndexPage_touches].
  intros [w' rc] _. apply touches_insist. intros _. cbn. unfold loc, base, first. destruct (Z.eqb_spec pg 0); by subst.
Qed.

Lemma zero_cells_touches k (c : Z -> cell) i (P : unit -> Prop) :
  (forall j, i <= j -> table_cell (c j)) -> P () -> in_tables (zero_cells k c i) P.
Proof.
  revert i. induction k as [|k IH]; intros i Hc HP; cbn [zero_cells]; [done|]. split; [by apply Hc|].
  apply IH; [|done]. intros j Hj. apply Hc. lia.
Qed.

Lemma zero_aPgno_touches pg i (P : unit -> Prop) : 1 <= i -> P () -> in_tables (zero_aPgno (loc pg) i) P.
Proof. intros Hi HP. apply zero_cells_touches; [|done]. intros j Hj. apply word_cell. lia. Qed.

Lemma walCleanupHash_touches w : in_tables (walCleanupHash w) (fun _ => True).
Proof.
  unfold walCleanupHash. apply touches_insist. intros _. case_bool; [done|]. apply touches_insist. intros _.
  apply touches_bind. eapply touches_mono; [|apply walHashGet_touches]. intros [[w' rc] l] ->. case_bool; [done|].
  apply touches_insist. intros Hl. bool_to_prop. apply touches_bind.
  assert (Hs : forall L k i, in_tables (walCleanupHash_slots k (loc (walFramePage (mxFrame (hdr w)))) L i) (fun _ => True)).
  { intros L k. induction k as [|k IH]; intros i; cbn [walCleanupHash_slots]; [done|]. apply touches_load; [done|]. intros v.
    apply touches_bind. case_bool; [split; [done|]|]; apply IH. }
  eapply touches_mono; [|apply Hs]. intros [] _. apply touches_bind. apply zero_aPgno_touches; [lia|done].
Qed.

Lemma walIndexAppend_slot_touches c pg k : in_tables (walIndexAppend_slot c (loc pg) k) (fun _ => True).
Proof.
  revert k. induction c as [|c IH]; intros k; cbn [walIndexAppend_slot]; (apply touches_load; [done|]); intros v; case_bool; try done.
Qed.

Lemma walIndexAppend_touches w n p : 0 <= n -> n + 1 < 2 ^ 31 -> in_tables (walIndexAppend w (n + 1) p) (fun _ => True).
Proof.
  intros Hn Hn31. unfold walIndexAppend. destruct (proj1 (walFramePage_spec (n + 1) _ ltac:(lia)) eq_refl) as [_ Hr].
  set (pg := walFramePage (n + 1)) in *. apply touches_bind. eapply touches_mono; [|apply walHashGet_touches].
  intros [[w' rc] l] ->. case_bool; [done|]. apply touches_insist. intros _.
  assert (Hw : table_cell (aPgno (loc pg) (n + 1 - iZero (loc pg)))) by (apply word_cell; cbn; lia).
  apply touches_bind. apply (touches_mono _ _ (fun _ => True)).
  2: { case_bool; [|done]. apply touches_bind. apply zero_aPgno_touches; [lia|]. by apply zero_cells_touches. }
  intros [] _. apply touches_bind. apply (touches_mono _ _ (fun _ => True)).
  2: { apply touches_load; [done|]. intros v. case_bool; [|done]. apply touches_bind. eapply touches_mono; [|apply walCleanupHash_touches].
       intros w2 _. apply touches_load; [done|]. intros v'. by apply touches_insist. }
  intros w2 _. apply touches_insist. intros _. apply touches_bind.
  eapply touches_mono; [|apply walIndexAppend_slot_touches]. intros [k|] _; [|done]. split; [done|]. by split.
Qed.

Lemma frames_index_touches w n pages : 0 <= n -> n + Z.of_nat (length pages) < 2 ^ 31 ->
  in_tables (sqlite3WalFrames_index w n pages) (fun _ => True).
Proof.
  revert w n. induction pages as [|p pages IH]; intros w n Hn Hl; cbn [sqlite3WalFrames_index length] in *; [done|].
  apply touches_bind. eapply touches_mono; [|apply walIndexAppend_touches; lia]. intros [w' rc] _. case_bool; [done|].
  apply IH; lia.
Qed.

(** ** A writer beside others that leave the tables alone *)

Lemma guar_frame only mx m m' c v :
  table_cell c -> agree table_cell m m' -> guar only mx m (<[c := v]> m) -> guar only mx m' (<[c := v]> m').
Proof.
  intros Hc Hm [G1 G2 G3]. pose proof (agree_insert table_cell m m' c v Hm) as Hi.
  assert (Hb : agree table_cell m' m) by (by symmetry). split.
  - intros k Hk. transitivity m; [by apply table_rely|]. transitivity (<[c := v]> m); [by apply G1|by apply table_rely].
  - intros i Hi'. rewrite rd_insert. case_decide as E; [|done]. subst c. cbn in Hc. lia.
  - intros c' Hc'. rewrite rd_insert. case_decide as E; [|done]. subst c'. by destruct c.
Qed.

Lemma frames_index_frame present only w f n mx pages m m1 :
  0 <= n -> n + Z.of_nat (length pages) + 1 < 2 ^ 31 -> Forall (fun p => 0 < p) pages ->
  writeLock w = true -> mx = mxFrame (hdr w) -> mapped w 0 = true -> writer_inv m f n mx ->
  (only = true -> no_leftover m n) -> agree table_cell m m1 ->
  rg present (agree table_cell) (fun m m' => guar only mx m m' /\ agree (fun c => ~ table_cell c) m m')
    (sqlite3WalFrames_index w n pages)
    (fun '(w', rc, k) m' => maps_more w w' /\
       (rc = SQLITE_OK -> k = n + Z.of_nat (length pages) /\ writer_inv m' (upds f n pages) k mx)) m1.
Proof.
  intros Hn Hlen Hp Hwl Emx H0 HW Ho Hm. apply (rg_mono _ _ _ _ (fun res m' => True /\ let '(w', rc, k) := res in maps_more w w' /\
    (rc = SQLITE_OK -> k = n + Z.of_nat (length pages) /\ writer_inv m' (upds f n pages) k mx))).
  { by intros [[w' rc] k] m' [_ H]. }
  apply (rg_frame present table_cell (guar only mx) _ (fun _ => True) _ m); [| | | |done].
  - intros [[w' rc] k] m2 m3 Hm' [H1 H2]. split; [done|]. intros Hrc. destruct (H2 Hrc). split; [done|].
    by apply (table_writer m2).
  - intros m2 m3 c v. apply guar_frame.
  - apply frames_index_touches; lia.
  - by apply (frames_index_rg present only w f n mx).
Qed.
