(* ===== verification/WalRecovery.v ===== *)
(** Recovery: [walIndexRecover] rebuilds the wal-index from the valid frames of the log,
    whatever the index held before, and whatever others do with locks meanwhile. *)
From S2P Require Import Prelude SharedMem WalIndex WalIndexSpec WalIndexReader WalIndexWriter WalIndexTheorems WalHeader WalLocks WalFile WalLog WalCommit WalLogSpec WalFrame.

(** ** What others may do meanwhile, and what recovery leaves alone *)

Definition not_lock (c : cell) : Prop := match c with Lck _ => False | _ => True end.
Definition file_cell (c : cell) : Prop := match c with LogAt _ | LogSize | DbAt _ => True | _ => False end.

Abbreviation only_locks := (agree not_lock).
Abbreviation same_files := (agree file_cell).

Lemma agree_sub (C C' : cell -> Prop) m m' : (forall c, C' c -> C c) -> agree C m m' -> agree C' m m'.
Proof. intros H Ha c Hc. by apply Ha, H. Qed.

Lemma locks_files m m' : only_locks m m' -> same_files m m'.
Proof. by apply agree_sub; intros []. Qed.

Lemma locks_tables m m' : only_locks m m' -> agree table_cell m m'.
Proof. by apply agree_sub; intros []. Qed.

Section locking.
Context (present : Z -> Prop) (G : mem -> mem -> Prop).

(** Locking and unlocking, of which only the code matters here. *)
Hypothesis HG : forall m m', agree not_lock m m' -> G m m'.

Lemma change_locks_agree n ofst u v m m' : change_locks n ofst u v m = Some m' -> only_locks m m'.
Proof.
  revert ofst m. induction n as [|n IH]; intros ofst m; cbn [change_locks]; [by intros [= ->]|].
  case_bool; [|done]. intros H. apply IH in H. etransitivity; [|exact H]. apply agree_store; cbn; tauto.
Qed.

Lemma try_locks_rg {A} f (k : bool -> prog A) m Q :
  (forall m m', f m = Some m' -> only_locks m m') ->
  (forall b m', only_locks m m' -> rg present only_locks G (k b) Q m') ->
  rg present only_locks G (Try f k) Q m.
Proof.
  intros Hf HQ m1 H1. destruct (f m1) as [m2|] eqn:E; [|by apply HQ]. apply Hf in E. split; [by apply HG|].
  apply HQ. by transitivity m1.
Qed.

Lemma walLockExclusive_any w i n m (Q : Z -> mem -> Prop) :
  (forall rc m', only_locks m m' -> Q rc m') -> rg present only_locks G (walLockExclusive w i n) Q m.
Proof.
  intros HQ. unfold walLockExclusive, shm_lock. case_bool; [apply rg_done; by apply HQ|]. intros e.
  case_bool; [|apply rg_done; by apply HQ]. apply try_locks_rg; [by intros ??; apply change_locks_agree|].
  intros b m1 H1. apply rg_done. intros m2 H2. apply HQ. by transitivity m1.
Qed.

Lemma walUnlockExclusive_any w i n m (Q : unit -> mem -> Prop) :
  (forall m', only_locks m m' -> Q () m') -> rg present only_locks G (walUnlockExclusive w i n) Q m.
Proof.
  intros HQ. unfold walUnlockExclusive, shm_unlock. case_bool; [apply rg_done; by apply HQ|].
  apply try_locks_rg; [by intros ??; apply change_locks_agree|].
  intros b m1 H1. apply rg_done. intros m2 H2. apply HQ. by transitivity m1.
Qed.
End locking.

(** ** Frames *)

Lemma frame_cells_eq off :
  frame_cells off = [LogAt off; LogAt (off + 4); LogAt (off + 8); LogAt (off + 12); LogAt (off + 16); LogAt (off + 20); LogAt (off + 24)].
Proof.
  unfold frame_cells, log_words, WAL_FRAME_HDRSIZE. change (seqZ 0 (Z.of_nat 6)) with [0; 1; 2; 3; 4; 5].
  cbn [fmap list_fmap app]. repeat f_equal; lia.
Qed.

Lemma header_cells_eq :
  log_words 8 0 = [LogAt 0; LogAt 4; LogAt 8; LogAt 12; LogAt 16; LogAt 20; LogAt 24; LogAt 28].
Proof. done. Qed.

(** The sizes of pages that the header may have. *)
Definition good_size (s : Z) : bool := (Z.land s (s - 1) =? 0) && (512 <=? s) && (s <=? 65536).

Lemma good_size_multiple s : good_size s = true -> s mod 8 = 0 /\ 512 <= s <= 65536.
Proof.
  intros H. unfold good_size in H. bool_to_prop. split; [|done].
  match goal with H : Z.land s (s - 1) = 0 |- _ => rename H into Hl end.
  destruct (decide (s mod 8 = 0)) as [|Hr]; [done|]. exfalso.
  apply (f_equal (fun x => Z.shiftr x 3)) in Hl. rewrite Z.shiftr_land, !Z.shiftr_div_pow2 in Hl by lia.
  change (2 ^ 3) with 8 in Hl. assert (E : (s - 1) / 8 = s / 8) by (Z.to_euclidean_division_equations; lia).
  rewrite E, Z.land_diag in Hl. change (0 / 8) with 0 in Hl. Z.to_euclidean_division_equations. lia.
Qed.

Lemma log_header_size m fmt : log_header m = Some fmt -> good_size (lf_szPage fmt) = true.
Proof.
  unfold log_header, log_header_at. case_bool; [|done]. case_bool; [|done]. intros [= <-]. cbn [lf_szPage]. bool_to_prop. unfold good_size.
  change SQLITE_MAX_PAGE_SIZE with 65536 in *.
  match goal with H : Z.land ?s (wrap_s 32 ?t) = 0 |- _ => rewrite (wrap_s_id 32 t) in H by (try lia; unfold in_s; cbn; lia); rewrite H end.
  rewrite !(proj2 (Z.leb_le _ _)) by done. done.
Qed.

Lemma page_words_length s v : 0 <= s -> s mod 8 = 0 -> 4 * Z.of_nat (length (page_words s v)) = s.
Proof.
  intros H0 H8. unfold page_words. rewrite length_fmap, length_seqZ. pose proof (Z.div_mod s 8 ltac:(lia)) as E.
  replace s with (2 * (s / 8) * 4) at 1 by lia. rewrite Z.div_mul by lia. lia.
Qed.

Lemma checksum_page b s v c : good_size s = true ->
  walChecksumBytes b (page_words s v) (Some c) = Some (walChecksumBytes_loop b (page_words s v) c.1 c.2).
Proof.
  intros Hs. apply good_size_multiple in Hs as [H8 Hr]. unfold walChecksumBytes. rewrite page_words_length by lia.
  destruct c as [c1 c2]. cbn [default from_option id fst snd]. change 7 with (Z.ones 3). rewrite Z.land_ones by lia. change (2 ^ 3) with 8.
  rewrite H8, !(proj2 (Z.leb_le _ _)) by lia. done.
Qed.

Lemma checksum_two b x y c : walChecksumBytes b [x; y] (Some c) = Some (walChecksumBytes_loop b [x; y] c.1 c.2).
Proof. by destruct c. Qed.

(** The connection knows the format of the log. *)
Record knows (fmt : log_format) (w : Wal) : Prop := {
  kn_size : w_szPage w = lf_szPage fmt;
  kn_bigEnd : bigEndCksum (hdr w) = lf_bigEnd fmt;
  kn_salt : aSalt (hdr w) = lf_salt fmt }.

Definition with_cksum (w : Wal) (c : Z * Z) : Wal := set_hdr w (set_aFrameCksum (hdr w) c).

Lemma frame_cksum_spec fmt w a0 a1 v :
  knows fmt w -> good_size (lf_szPage fmt) = true ->
  frame_cksum w a0 a1 v (lf_szPage fmt) =
    Some (checksum (lf_bigEnd fmt) (page_words (lf_szPage fmt) v) (checksum (lf_bigEnd fmt) [a0; a1] (aFrameCksum (hdr w)))).
Proof.
  intros [K1 K2 K3] Hs. unfold frame_cksum. rewrite checksum_two. cbn [mbind option_bind].
  by rewrite K1, Z.leb_refl, checksum_page, K2 by done.
Qed.

(** Decoding a frame that is in the log. *)
Lemma walDecodeFrame_spec fmt w m i :
  knows fmt w -> good_size (lf_szPage fmt) = true -> frame_off fmt i + WAL_FRAME_HDRSIZE + lf_szPage fmt <= rd m LogSize ->
  exists c, walDecodeFrame w (log_word m (frame_off fmt i + 24)) (lf_szPage fmt) (rd m <$> frame_cells (frame_off fmt i)) =
      Some (with_cksum w c, match frame_at fmt m i (aFrameCksum (hdr w)) with Some (p, t, _) => Some (p, t) | None => None end) /\
    forall p t c', frame_at fmt m i (aFrameCksum (hdr w)) = Some (p, t, c') -> c = c'.
Proof.
  intros Hk Hs Hfit. set (off := frame_off fmt i) in *. rewrite frame_cells_eq. cbn [fmap list_fmap].
  unfold walDecodeFrame, frame_at. fold off. cbn [lookup list_lookup default from_option id]. rewrite (kn_salt _ _ Hk).
  rewrite (proj2 (Z.leb_le _ _)) by done. cbn [andb]. change (rd m (LogAt ?o)) with (log_word m o).
  assert (Ew : w = with_cksum w (aFrameCksum (hdr w))) by (destruct w as [????????[]]; done).
  destruct (bool_decide (lf_salt fmt = _)); cbn [negb andb].
  2: { exists (aFrameCksum (hdr w)). split; [by rewrite <- Ew|done]. }
  change (BYTESWAP32 (log_word m ?o)) with (log_be m o).
  destruct (log_be m off =? 0); cbn [negb andb].
  { exists (aFrameCksum (hdr w)). split; [by rewrite <- Ew|done]. }
  rewrite (frame_cksum_spec fmt) by done. cbn [mbind option_bind]. fold (frame_sum fmt m i (aFrameCksum (hdr w))).
  change (checksum _ (page_words _ _) _) with (frame_sum fmt m i (aFrameCksum (hdr w))).
  exists (frame_sum fmt m i (aFrameCksum (hdr w))). destruct (frame_sum fmt m i (aFrameCksum (hdr w))) as [s1 s2] eqn:Es. cbn [fst snd].
  destruct (bool_decide_reflect ((s1, s2) = (log_be m (off + 16), log_be m (off + 20)))) as [[= -> ->]|Hne].
  - rewrite !Z.eqb_refl. cbn [negb orb andb]. split; [done|]. by intros p t c' [= _ _ <-].
  - split; [|done]. destruct (Z.eqb_spec s1 (log_be m (off + 16))), (Z.eqb_spec s2 (log_be m (off + 20))); subst; done.
Qed.

(** ** The index *)

Lemma writer_ext m f f' n mx : (forall i, 1 <= i <= n -> f i = f' i) -> writer_inv m f n mx -> writer_inv m f' n mx.
Proof.
  intros Hf [W1 W2 W3 W4]. split; [|done|done|].
  - intros pg Hp. by apply (table_ok_ext m pg f); [..|apply W1].
  - intros i Hi. rewrite <- Hf by done. by apply W4.
Qed.

(** Any slots that are not negative make an index without frames. *)
Lemma writer_start m f : (forall pg k, 0 <= slot_at m pg k) -> writer_inv m f 0 0.
Proof.
  intros Hs. assert (Hl : forall pg, 0 <= pg -> lim pg 0 = 0) by (intros pg Hp; pose proof (first_nonneg pg Hp); unfold lim; lia).
  split; [|intros pg Hp; rewrite Hl by done; lia|lia|lia].
  intros pg Hp. split; rewrite Hl by done; try (intros; lia). intros k Hk. split; [done|]. pose proof (cap_range pg). lia.
Qed.

Definition other_cell (c : cell) : Prop := ~ table_cell c /\ not_lock c.

Lemma log_fixed m m' : agree other_cell m m' -> same_files m m'.
Proof. apply agree_sub. intros c Hc. unfold other_cell; destruct c; cbn in *; tauto. Qed.

Lemma append_locks present w f n mx p m :
  0 <= n -> n + 1 < 2 ^ 31 -> 0 < p -> writeLock w = true -> mx = mxFrame (hdr w) -> mapped w 0 = true -> writer_inv m f n mx ->
  rg present only_locks same_files (walIndexAppend w (n + 1) p)
    (fun '(w', rc) m' => agree other_cell m m' /\ maps_more w w' /\ (rc = SQLITE_OK -> writer_inv m' (upd f (n + 1) p) (n + 1) mx)) m.
Proof.
  intros Hn Hn31 Hp Hwl Emx H0 HW.
  set (Q := fun (r : Wal * Z) (m' : mem) => let '(w', rc) := r in maps_more w w' /\ (rc = SQLITE_OK -> writer_inv m' (upd f (n + 1) p) (n + 1) mx)).
  apply (rg_mono present _ _ _ (fun r m' => agree other_cell m m' /\ (True /\ Q r m'))); [by intros [w' rc] m' [H1 [_ H2]]|].
  apply (rg_conseq present (agree other_cell m) (agree table_cell) only_locks
    (fun m m' => guar false mx m m' /\ agree (fun c => ~ table_cell c) m m')).
  - intros m1 m2 H1 H2. split; [|by apply locks_tables]. transitivity m1; [done|]. revert H2. apply agree_sub. by intros c [_ H].
  - intros m1 m2 H1 [_ H2]. split.
    + transitivity m1; [done|]. revert H2. apply agree_sub. by intros c [H _].
    + revert H2. apply agree_sub. intros c Hc Ht. by destruct c.
  - done.
  - apply (rg_frame present table_cell (guar false mx) _ (fun _ => True) Q m); [| | | |done].
    + intros [w' rc] m1 m2 Hm [H1 H2]. split; [done|]. intros Hrc. apply (table_writer m1); [done|by apply H2].
    + intros m2 m3 c v. apply guar_frame.
    + by apply walIndexAppend_touches.
    + apply walIndexAppend_rg with (f := f) (mx := mx); try done. intros w' rc m' Hm _ H. split; [done|]. intros ->. by rewrite decide_True in H.
Qed.

(** What the loop does not change in the connection. *)
Record same_conn (w w' : Wal) : Prop := {
  sm_lock : writeLock w' = writeLock w;
  sm_mode : exclusiveMode w' = exclusiveMode w;
  sm_hdr : iVersion (hdr w') = iVersion (hdr w) /\ unused (hdr w') = unused (hdr w) /\ iChange (hdr w') = iChange (hdr w);
  sm_mapped i : 0 <= i -> mapped w i = true -> mapped w' i = true }.

#[export] Instance same_conn_preorder : PreOrder same_conn.
Proof.
  split; [by split|]. intros w1 w2 w3 [A1 A2 (A3 & A4 & A5) A6] [B1 B2 (B3 & B4 & B5) B6].
  split; [congruence..|split_and!; congruence|auto].
Qed.

Lemma maps_more_conn w w' : maps_more w w' -> same_conn w w' /\ hdr w' = hdr w /\ w_szPage w' = w_szPage w.
Proof. intros [E M L]. rewrite E. split; [|by destruct w]. split; [by destruct w..|]. rewrite <- E. by apply M. Qed.

(** ** The loop over the frames *)

Section recovery.
Context (present : Z -> Prop) (fmt : log_format).
Abbreviation sz := (lf_szPage fmt).
Abbreviation rec := (rg present only_locks same_files).

(** The frames [l] are in the index and in the header of the connection, up to the last
    commit, whose checksum is [ck]. *)
Record scanned (w : Wal) (m : mem) (l : list (Z * Z)) (ck : Z * Z) : Prop := {
  sn_knows : knows fmt w;
  sn_index : writer_inv m (log_page l) (Z.of_nat (length l)) (last_commit l);
  sn_mx : mxFrame (hdr w) = last_commit l;
  sn_npage : nPage (hdr w) = log_size l (last_commit l);
  sn_szPage : szPage16 (hdr w) = if last_commit l =? 0 then 0 else szPage_u16 sz;
  sn_none : last_commit l = 0 -> ck = (0, 0);
  sn_cksum : last_commit l <> 0 -> valid_log fmt m (take (Z.to_nat (last_commit l)) l) ck }.

Lemma valid_log_files m m' l c : 0 < sz -> same_files m m' -> valid_log fmt m l c -> valid_log fmt m' l c.
Proof.
  intros Hs Hm Hv. destruct (decide (l = [])) as [->|Hl]; [inversion Hv as [E|l2 ? ? ? ? ? ? E]; [constructor|by destruct l2]|].
  apply (valid_log_ext fmt m); [done|done| |].
  - rewrite (Hm LogSize I). by eapply valid_log_fits.
  - intros off _. by apply Hm.
Qed.

Lemma frame_at_files m m' i c : same_files m m' -> frame_at fmt m' i c = frame_at fmt m i c.
Proof.
  intros Hm. assert (E : forall off, rd m' (LogAt off) = rd m (LogAt off)) by (intros off; by apply Hm).
  unfold frame_at, frame_sum, log_be, log_word. by rewrite !E, (Hm LogSize I).
Qed.

Lemma scanned_stable w m m' l ck : 0 < sz -> same_files m m' -> agree table_cell m m' -> scanned w m l ck -> scanned w m' l ck.
Proof.
  intros Hs Hm Ht [S1 S2 S3 S4 S5 S6 S7]. split; try done; [by apply (table_writer m)|].
  intros H. by apply (valid_log_files m); [..|apply S7].
Qed.

(** A valid frame is added. *)
Lemma scanned_snoc w w' m m' l ck p t c c' :
  0 < sz -> scanned w m l ck -> valid_log fmt m l c -> frame_at fmt m (Z.of_nat (length l) + 1) c = Some (p, t, c') ->
  same_files m m' -> w_szPage w' = w_szPage w -> hdr w' = set_aFrameCksum (hdr w) c' ->
  writer_inv m' (upd (log_page l) (Z.of_nat (length l) + 1) p) (Z.of_nat (length l) + 1) (last_commit l) ->
  let l' := l ++ [(p, t)] in
  scanned (if t =? 0 then w' else set_hdr w' (set_recovered (hdr w') sz (Z.of_nat (length l) + 1) t)) m' l' (if t =? 0 then ck else c').
Proof.
  intros Hs [[K1 K2 K3] S2 S3 S4 S5 S6 S7] Hv Hf Hm Esz Ehd HW l'. unfold l'.
  assert (Hlen : Z.of_nat (length (l ++ [(p, t)])) = Z.of_nat (length l) + 1) by (rewrite length_app; cbn; lia).
  assert (HW' : writer_inv m' (log_page (l ++ [(p, t)])) (Z.of_nat (length l) + 1) (last_commit l)).
  { apply (writer_ext _ (upd (log_page l) (Z.of_nat (length l) + 1) p)); [|done]. intros i Hi. rewrite log_page_snoc by done. done. }
  pose proof (last_commit_range l) as Hr.
  assert (Hsize : t <> 0 -> log_size (l ++ [(p, t)]) (Z.of_nat (length l) + 1) = t).
  { intros _. unfold log_size. rewrite (proj2 (Z.eqb_neq _ _)) by lia. rewrite lookup_app_r by lia.
    by replace (Z.to_nat (Z.of_nat (length l) + 1 - 1) - length l)%nat with 0%nat by lia. }
  destruct (Z.eqb_spec t 0) as [Ht|Ht]; split; rewrite ?last_commit_snoc, ?Hlen, ?(proj2 (Z.eqb_eq t 0) Ht), ?(proj2 (Z.eqb_neq t 0) Ht);
    try rewrite Ehd; cbn; try done.
  - split; rewrite ?Ehd; cbn; congruence.
  - rewrite log_size_snoc by lia. done.
  - intros H. rewrite take_app_le by lia. apply (valid_log_files m); [done|done|by apply S7].
  - split; cbn; rewrite ?Ehd; cbn; congruence.
  - by apply (writer_commit _ _ _ (last_commit l)).
  - by rewrite Hsize.
  - by rewrite (proj2 (Z.eqb_neq _ _)) by lia.
  - lia.
  - intros _. rewrite firstn_all2 by (rewrite length_app; cbn; lia). apply (valid_log_files m); [done..|]. by econstructor.
Qed.

(** The checksum of the connection is that of the frames only inside of the loop. *)
Lemma scanned_cksum w m l ck c : scanned w m l ck -> scanned (with_cksum w c) m l ck.
Proof. intros [[K1 K2 K3] S2 S3 S4 S5 S6 S7]. by split. Qed.

Lemma cksum_conn w c : same_conn w (with_cksum w c).
Proof. by split. Qed.

Lemma recovered_conn w s i t : same_conn w (set_hdr w (set_recovered (hdr w) s i t)).
Proof. by split. Qed.

Lemma frame_too_long m i c : rd m LogSize < frame_off fmt i + WAL_FRAME_HDRSIZE + sz -> frame_at fmt m i c = None.
Proof. intros H. unfold frame_at. by rewrite (proj2 (Z.leb_gt _ _)) by done. Qed.

(** As many frames as fit. *)
Lemma frames_fit n s i : 0 < s -> 0 <= i -> WAL_HDRSIZE + i * s + s <= n <-> i < (n - WAL_HDRSIZE) / s.
Proof.
  intros Hs Hi. split; intros H.
  - enough (i + 1 <= (n - WAL_HDRSIZE) / s) by lia. apply Z.div_le_lower_bound; lia.
  - pose proof (Z.mul_div_le (n - WAL_HDRSIZE) s Hs). nia.
Qed.

Lemma frame_off_eq i : frame_off fmt (i + 1) = WAL_HDRSIZE + i * (sz + WAL_FRAME_HDRSIZE).
Proof. unfold frame_off, walFrameOffset. lia. Qed.

Definition loop_post (w : Wal) (m : mem) (r : Wal * Z * (Z * Z)) (m' : mem) : Prop :=
  let '(w', rc, ck') := r in
  agree other_cell m m' /\ same_conn w w' /\
  (rc = SQLITE_OK -> exists l', whole_log fmt m' l' /\ scanned w' m' l' ck').

Lemma loop_post_trans w w1 m m1 r m' : agree other_cell m m1 -> same_conn w w1 -> loop_post w1 m1 r m' -> loop_post w m r m'.
Proof. destruct r as [[w' rc] ck']. intros Hm Hw (A1 & A2 & A3). split; [by transitivity m1|]. split; [by transitivity w1|done]. Qed.

Lemma loop_stop w w' m m' l ck : 0 < sz -> agree other_cell m m' -> agree table_cell m m' -> same_conn w w' -> scanned w' m l ck ->
  whole_log fmt m l -> loop_post w m (w', SQLITE_OK, ck) m'.
Proof.
  intros Hs Hm Ht Hw Hsn (c & Hv & Hf). split; [done|]. split; [done|]. intros _. exists l. pose proof (log_fixed _ _ Hm) as Hfm. split.
  - exists c. split; [by apply (valid_log_files m)|]. by rewrite (frame_at_files m).
  - by apply (scanned_stable w' m).
Qed.

Lemma only_locks_others m m' : only_locks m m' -> agree other_cell m m'.
Proof. apply agree_sub. by intros c [_ H]. Qed.

Lemma walIndexRecover_frames_rg fuel w m l ck nSize :
  good_size sz = true -> rd m LogSize = nSize -> nSize <= 2 ^ 40 ->
  Z.of_nat fuel + Z.of_nat (length l) = 1 + (nSize - WAL_HDRSIZE) / (sz + WAL_FRAME_HDRSIZE) ->
  writeLock w = true -> mapped w 0 = true -> scanned w m l ck -> valid_log fmt m l (aFrameCksum (hdr w)) ->
  Z.of_nat (length l) <= (nSize - WAL_HDRSIZE) / (sz + WAL_FRAME_HDRSIZE) ->
  rec (walIndexRecover_frames fuel w sz nSize (frame_off fmt (Z.of_nat (length l) + 1)) (Z.of_nat (length l)) ck) (loop_post w m) m.
Proof.
  intros Hsz. pose proof (good_size_multiple _ Hsz) as [_ Hs]. revert w m l ck.
  induction fuel as [|fuel IH]; intros w m l ck Hsize Hmax Hfuel Hwl H0 Hsn Hv Hlen; [lia|]. cbn [walIndexRecover_frames].
  set (n := Z.of_nat (length l)) in *. pose proof (frames_fit nSize (sz + WAL_FRAME_HDRSIZE) n ltac:(unfold WAL_FRAME_HDRSIZE; lia) ltac:(lia)) as Hfit.
  rewrite frame_off_eq.
  destruct (nSize <? WAL_HDRSIZE + n * (sz + WAL_FRAME_HDRSIZE) + (sz + WAL_FRAME_HDRSIZE)) eqn:Hend; bool_to_prop.
  { apply rg_done. intros m' Hm. apply (loop_stop w w m m' l); try done; [lia|by apply only_locks_others|by apply locks_tables|].
    exists (aFrameCksum (hdr w)). split; [done|]. apply frame_too_long. fold n. rewrite frame_off_eq. lia. }
  rewrite <- frame_off_eq. set (off := frame_off fmt (n + 1)). rg_bind. apply os_read_log_beside.
  { rewrite frame_cells_eq. by repeat constructor. }
  intros rc vs m1 Hm1 Hvs. pose proof (only_locks_others _ _ Hm1) as Hm1'. destruct (negb (rc =? SQLITE_OK)) eqn:Erc; bool_to_prop.
  { apply rg_done. intros m2 Hm2. split; [|done]. transitivity m1; [done|by apply only_locks_others]. }
  rewrite (Hvs Erc). assert (Edata : frame_data (rd m <$> frame_cells off) = log_word m (off + 24)) by (by rewrite frame_cells_eq).
  rewrite Edata. replace (sz + WAL_FRAME_HDRSIZE - WAL_FRAME_HDRSIZE) with sz by lia.
  destruct (walDecodeFrame_spec fmt w m (n + 1) (sn_knows _ _ _ _ Hsn) Hsz) as (c & Ed & Hc).
  { rewrite frame_off_eq. lia. }
  fold off in Ed. rewrite Ed. destruct (frame_at fmt m (n + 1) (aFrameCksum (hdr w))) as [[[p t] c']|] eqn:Hf.
  2: { apply rg_done. intros m' Hm. assert (Hm' : only_locks m m') by (by transitivity m1).
       apply (loop_stop w _ m m' l); [lia|by apply only_locks_others|by apply locks_tables|apply cksum_conn|by apply scanned_cksum|].
       by exists (aFrameCksum (hdr w)). }
  specialize (Hc _ _ _ eq_refl) as ->. set (w1 := with_cksum w c').
  assert (Hp : 0 < p /\ n + 1 < 2 ^ 31).
  { split.
    - unfold frame_at in Hf. revert Hf. case_bool; [|done]. intros [= <- _ _]. bool_to_prop.
      match goal with H : log_be _ _ <> 0 |- _ => revert H end. unfold log_be, BYTESWAP32.
      pose proof (wrap_u_range 32) as Hr. match goal with |- wrap_u 32 ?x <> 0 -> _ => specialize (Hr x ltac:(lia)) end. unfold in_u in Hr. lia.
    - assert (n < (nSize - WAL_HDRSIZE) / (sz + WAL_FRAME_HDRSIZE)) by (apply Hfit; lia).
      assert ((nSize - WAL_HDRSIZE) / (sz + WAL_FRAME_HDRSIZE) < 2 ^ 31 - 1); [|lia].
      apply Z.div_lt_upper_bound; unfold WAL_FRAME_HDRSIZE, WAL_HDRSIZE; [lia|]. nia. }
  destruct Hp as [Hp Hn31]. rg_bind. refine (rg_mono present _ _ _ _ _ m1 _ (append_locks present w1 (log_page l) n (last_commit l) p m1 _ _ _ _ _ _ _));
    [|lia|done|done|done|by rewrite <- (sn_mx _ _ _ _ Hsn)|done|].
  2: { apply (table_writer m); [by apply locks_tables|apply Hsn]. }
  intros [w2 rc2] m2 (Hm2 & Hmaps & HW2). assert (Hm2' : agree other_cell m m2) by (by transitivity m1).
  destruct (maps_more_conn _ _ Hmaps) as (Hc2 & Ehd & Esz). assert (Hc2' : same_conn w w2) by (transitivity w1; [apply cksum_conn|done]).
  destruct (negb (rc2 =? SQLITE_OK)) eqn:Erc2; bool_to_prop.
  { apply rg_done. intros m3 Hm3. split; [|by split]. transitivity m2; [done|by apply only_locks_others]. }
  pose proof (log_fixed _ _ Hm2') as Hfm. pose proof (scanned_snoc w w2 m m2 l ck p t _ c' ltac:(lia) Hsn Hv Hf Hfm Esz Ehd (HW2 Erc2)) as Hsn'.
  assert (Hv' : valid_log fmt m2 (l ++ [(p, t)]) c') by (apply (valid_log_files m); [lia|done|by econstructor]).
  assert (Hlen' : Z.of_nat (length (l ++ [(p, t)])) = n + 1) by (rewrite length_app; cbn; lia).
  assert (Enext : off + (sz + WAL_FRAME_HDRSIZE) = frame_off fmt (Z.of_nat (length (l ++ [(p, t)])) + 1)).
  { rewrite Hlen', (frame_off_next fmt (n + 1)). fold off. lia. }
  rewrite Enext, <- Hlen'.
  assert (Hnext : n + 1 <= (nSize - WAL_HDRSIZE) / (sz + WAL_FRAME_HDRSIZE)) by (assert (n < (nSize - WAL_HDRSIZE) / (sz + WAL_FRAME_HDRSIZE)); [apply Hfit; lia|lia]).
  assert (Hsize2 : rd m2 LogSize = nSize) by (by rewrite (Hfm LogSize I)).
  assert (Eck2 : aFrameCksum (hdr w2) = c') by (by rewrite Ehd).
  destruct (Z.eqb_spec t 0) as [Ht|Ht]; cbn [negb].
  - eapply rg_mono; [intros r m3 H3; by apply (loop_post_trans w w2 m m2)|].
    apply IH; try done; [lia|by rewrite (sm_lock _ _ Hc2')|by apply (sm_mapped _ _ Hc2')|by rewrite Eck2|lia].
  - set (w3 := set_hdr w2 (set_recovered (hdr w2) sz (Z.of_nat (length (l ++ [(p, t)]))) t)).
    assert (Hc3 : same_conn w w3) by (transitivity w2; [done|apply recovered_conn]).
    eapply rg_mono; [intros r m3 H3; by apply (loop_post_trans w w3 m m2)|]. rewrite Eck2.
    apply IH; try done; [lia|by rewrite (sm_lock _ _ Hc3)|by apply (sm_mapped _ _ Hc3)|unfold w3; by rewrite Hlen'|by cbn; rewrite Eck2|lia].
Qed.
End recovery.

(** ** The header and the checkpoint information *)

Lemma plain_locks c v m : ~ file_cell c -> same_files m (<[c := v]> m).
Proof. apply agree_store. Qed.

Lemma rd_write_words ws i m c :
  rd (write_words ws i m) c = match c with
    | Word 0 k => if decide (i <= k < i + Z.of_nat (length ws)) then word ws (k - i) else rd m c
    | _ => rd m c end.
Proof.
  revert i m. induction ws as [|x ws IH]; intros i m; cbn [write_words length].
  { destruct c as [[]| | | | |]; try done. case_decide; [lia|done]. }
  rewrite IH, rd_insert. destruct c as [[|pg|pg] k| | | | |]; try (by rewrite decide_False by congruence).
  destruct (decide (i + 1 <= k < i + 1 + Z.of_nat (length ws))), (decide (i <= k < i + Z.of_nat (S (length ws)))); try lia.
  - unfold word. by replace (Z.to_nat (k - i)) with (S (Z.to_nat (k - (i + 1)))) by lia.
  - assert (k = i) as -> by lia. rewrite decide_True by done. unfold word. by rewrite Z.sub_diag.
  - rewrite decide_False; [done|]. intros [= E]. lia.
Qed.

Lemma write_words_inv m f n mx ws i : 0 <= i -> i + Z.of_nat (length ws) <= 34 -> writer_inv m f n mx -> writer_inv (write_words ws i m) f n mx.
Proof.
  revert i m. induction ws as [|x ws IH]; intros i m Hi Hl HW; cbn [write_words length] in *; [done|].
  apply IH; [lia|lia|]. apply header_inv; [lia|done].
Qed.

(** The header twice, and nobody reads. *)
Definition ckpt_marks (mx : Z) (m : mem) : mem :=
  let m := <[aReadMark 0 := 0]> (<[nBackfillAttempted := mx]> (<[nBackfill := 0]> m)) in
  let m := <[aReadMark 4 := READMARK_NOT_USED]> (<[aReadMark 3 := READMARK_NOT_USED]>
             (<[aReadMark 2 := READMARK_NOT_USED]> (<[aReadMark 1 := READMARK_NOT_USED]> m))) in
  if mx =? 0 then m else <[aReadMark 1 := mx]> m.

Definition written (h : WalIndexHdr) (m : mem) : mem :=
  ckpt_marks (mxFrame h) (write_words (hdr_words h) (aHdr 0) (write_words (hdr_words h) (aHdr 1) m)).

Lemma ckpt_marks_inv m f n mx k : writer_inv m f n mx -> writer_inv (ckpt_marks k m) f n mx.
Proof. intros HW. unfold ckpt_marks. case_bool; repeat (apply header_inv; [cbn; lia|]); done. Qed.

Lemma written_inv m f n mx h : writer_inv m f n mx -> writer_inv (written h m) f n mx.
Proof. intros HW. apply ckpt_marks_inv. by repeat (apply write_words_inv; [unfold aHdr; lia|rewrite hdr_words_length; unfold aHdr; lia|]). Qed.

Lemma ckpt_marks_other k m c : (forall i, 24 <= i < 34 -> c <> Word 0 i) -> rd (ckpt_marks k m) c = rd m c.
Proof.
  intros Hc. unfold ckpt_marks. assert (Hm : forall i, 0 <= i < 5 -> aReadMark i <> c) by (intros i Hi E; by apply (Hc (25 + i)); [lia|]).
  assert (H1 : nBackfill <> c) by (intros E; by apply (Hc 24); [lia|]). assert (H2 : nBackfillAttempted <> c) by (intros E; by apply (Hc 32); [lia|]).
  case_bool; rewrite !rd_insert, !decide_False by first [done|apply Hm; lia]; done.
Qed.

Lemma written_header h m i : i = 0 \/ i = 1 -> has (written h m) i (hdr_words h).
Proof.
  intros Hi j Hj. unfold written. rewrite ckpt_marks_other by (intros i' Hi' [= E]; unfold aHdr in E; lia).
  rewrite !rd_write_words, hdr_words_length. unfold aHdr. destruct Hi as [-> | ->].
  - rewrite decide_True by lia. f_equal. lia.
  - rewrite decide_False, decide_True by lia. f_equal. lia.
Qed.

Lemma written_files h m : same_files m (written h m).
Proof.
  intros c Hc. unfold written. rewrite ckpt_marks_other by (by intros i _ ->). rewrite !rd_write_words. by destruct c.
Qed.

Lemma written_nBackfill h m : rd (written h m) nBackfill = 0.
Proof. unfold written, ckpt_marks. by case_bool; rewrite !rd_insert. Qed.

Lemma written_attempted h m : rd (written h m) nBackfillAttempted = mxFrame h.
Proof. unfold written, ckpt_marks. by case_bool; rewrite !rd_insert. Qed.

Lemma written_mark h m i : 0 <= i < WAL_NREADER ->
  rd (written h m) (aReadMark i) = if i =? 0 then 0 else if (i =? 1) && negb (mxFrame h =? 0) then mxFrame h else READMARK_NOT_USED.
Proof.
  intros Hi. change WAL_NREADER with 5 in Hi. unfold written, ckpt_marks. generalize (write_words (hdr_words h) (aHdr 0) (write_words (hdr_words h) (aHdr 1) m)). intros m0.
  assert (i = 0 \/ i = 1 \/ i = 2 \/ i = 3 \/ i = 4) as [->|[->|[->|[->| ->]]]] by lia; by destruct (mxFrame h =? 0); cbn; rewrite !rd_insert.
Qed.

Lemma walIndexRecover_finish_rg present w ck m Q :
  writeLock w = true -> mapped w 0 = true ->
  (forall h, sealed (set_aFrameCksum (hdr w) ck) = Some h ->
     forall m', only_locks (written h m) m' -> Q (set_hdr w h) m') ->
  rg present only_locks same_files (walIndexRecover_finish w ck) Q m.
Proof.
  intros Hwl H0 HQ. unfold walIndexRecover_finish, walIndexWriteHdr. rg_bind. apply rg_insist; [done|]. cbn [hdr set_hdr].
  destruct (sealed_some (set_aFrameCksum (hdr w) ck)) as [c Hc]. rewrite Hc. set (h := set_aCksum _ c) in *.
  assert (Emx : mxFrame h = mxFrame (hdr w)) by done.
  do 2 (apply store_words_beside; [intros j v m1 _; apply plain_locks; tauto|]). apply rg_done. intros m1 Hm1. unfold walCkptInfo.
  apply rg_insist. { cbn. apply andb_true_iff. split; [|done]. apply Z.ltb_lt. apply mapped_len in H0; [|lia]. done. }
  apply (rg_stable _ only_locks _ _ _ (write_words (hdr_words h) (aHdr 0) (write_words (hdr_words h) (aHdr 1) m))); [done|].
  repeat (apply store_beside; [intros m3 _; apply plain_locks; tauto|]). change (Z.to_nat (WAL_NREADER - 1)) with 4%nat. cbn [reset_marks].
  rg_bind. repeat (apply store_beside; [intros m3 _; apply plain_locks; tauto|]). apply rg_done. intros m2 Hm2.
  apply (rg_stable _ only_locks _ _ _ _ _ Hm2). clear m2 Hm2. cbn [hdr set_hdr].
  assert (Hfin : forall m3, only_locks (written h m) m3 -> Q (set_hdr w h) m3) by (by apply HQ). revert Hfin. unfold written, ckpt_marks.
  rewrite Emx. intros Hfin. destruct (mxFrame (hdr w) =? 0) eqn:E; cbn [negb].
  - apply rg_done. intros m3 Hm3. by apply Hfin.
  - apply store_beside; [intros m3 _; apply plain_locks; tauto|]. apply rg_done. intros m3 Hm3. by apply Hfin.
Qed.

(** ** The log *)

(** What the connection and the index hold after the log was read; [ck] is the checksum
    of the last commit. *)
Definition rebuilt (w : Wal) (m : mem) (l : list (Z * Z)) (ck : Z * Z) : Prop :=
  match log_header m with
  | Some fmt => whole_log fmt m l /\ scanned fmt w m l ck
  | None => l = [] /\ writer_inv m (log_page []) 0 0 /\ mxFrame (hdr w) = 0 /\ nPage (hdr w) = 0 /\ ck = (0, 0)
  end.

Lemma log_header_files m m' : same_files m m' -> log_header m' = log_header m.
Proof.
  intros Hm. assert (E : forall off, rd m' (LogAt off) = rd m (LogAt off)) by (intros off; by apply Hm).
  unfold log_header, log_header_at, log_be, log_word. by rewrite !E, (Hm LogSize I).
Qed.

Lemma rebuilt_none w m : log_header m = None -> (forall pg k, 0 <= slot_at m pg k) -> mxFrame (hdr w) = 0 -> nPage (hdr w) = 0 -> rebuilt w m [] (0, 0).
Proof. intros E Hs Hmx Hnp. unfold rebuilt. rewrite E. split; [done|]. by split; [apply writer_start|]. Qed.

Lemma rebuilt_stable w m m' l ck : only_locks m m' -> rebuilt w m l ck -> rebuilt w m' l ck.
Proof.
  intros Hm. pose proof (locks_files _ _ Hm) as Hf. unfold rebuilt. rewrite (log_header_files m m') by done.
  destruct (log_header m) as [fmt|] eqn:E.
  - pose proof (good_size_multiple _ (log_header_size _ _ E)) as [_ Hr]. intros [(c & Hv & Hn) Hsn]. split.
    + exists c. split; [apply (valid_log_files fmt m); [lia|done..]|by rewrite (frame_at_files fmt m)].
    + apply (scanned_stable fmt _ m); [lia|done|by apply locks_tables|done].
  - intros (-> & HW & H). split; [done|]. split; [|done]. apply (table_writer m); [by apply locks_tables|done].
Qed.

Definition log_post (w : Wal) (m : mem) (r : Wal * Z * (Z * Z) * bool) (m' : mem) : Prop :=
  let '(w', rc, ck, error) := r in
  same_files m m' /\ same_conn w w' /\
  (negb error && (rc =? SQLITE_OK) = true -> exists l, rebuilt w' m' l ck) /\ (error = true -> rc <> SQLITE_OK).

Lemma checksum_header bigEnd x0 x1 x2 x3 x4 x5 :
  walChecksumBytes (bigEnd =? SQLITE_BIGENDIAN) [x0; x1; x2; x3; x4; x5] None = Some (checksum bigEnd [x0; x1; x2; x3; x4; x5] (0, 0)).
Proof. reflexivity. Qed.

Section log.
Context (present : Z -> Prop) (w : Wal) (m : mem).
Hypothesis Hzero : hdr w = zero_hdr.
Hypothesis Hwl : writeLock w = true.
Hypothesis H0 : mapped w 0 = true.
Hypothesis Hslots : forall pg k, 0 <= slot_at m pg k.
Hypothesis Hmax : rd m LogSize <= 2 ^ 40.

Lemma slots_locks m' pg k : only_locks m m' -> 0 <= slot_at m' pg k.
Proof. intros Hm. unfold slot_at. rewrite Hm by done. apply Hslots. Qed.

Lemma log_nothing w' m' :
  only_locks m m' -> log_header m = None -> same_conn w w' -> mxFrame (hdr w') = 0 -> nPage (hdr w') = 0 ->
  log_post w m (w', SQLITE_OK, (0, 0), false) m'.
Proof.
  intros Hm E Hc Hmx Hnp. split; [by apply locks_files|]. split; [done|]. split; [|done]. intros _. exists [].
  apply rebuilt_none; [|intros; by apply slots_locks|done|done]. rewrite (log_header_files m); [done|by apply locks_files].
Qed.

Lemma log_failed w' rc ck error m' : only_locks m m' -> same_conn w w' -> rc <> SQLITE_OK -> log_post w m (w', rc, ck, error) m'.
Proof.
  intros Hm Hc Hrc. split; [by apply locks_files|]. split; [done|]. split; [|done].
  rewrite (proj2 (Z.eqb_neq _ _)) by done. by rewrite andb_false_r.
Qed.

(** The frames of a log with a good header. *)
Lemma log_scan fmt w' m1 Q :
  only_locks m m1 -> log_header m = Some fmt -> same_conn w w' -> knows fmt w' -> aFrameCksum (hdr w') = lf_cksum fmt ->
  mxFrame (hdr w') = 0 -> nPage (hdr w') = 0 -> szPage16 (hdr w') = 0 -> WAL_HDRSIZE < rd m LogSize ->
  (forall w2 rc ck m2, log_post w m (w2, rc, ck, false) m2 -> Q (w2, rc, ck) m2) ->
  rg present only_locks same_files
    (walIndexRecover_frames (S (Z.to_nat ((rd m LogSize - WAL_HDRSIZE) / (lf_szPage fmt + WAL_FRAME_HDRSIZE)))) w'
       (lf_szPage fmt) (rd m LogSize) WAL_HDRSIZE 0 (0, 0)) Q m1.
Proof.
  intros Hm1 E Hc Hk Eck Emx Enp Esz Hsize HQ. pose proof (log_header_size m fmt E) as Hgood.
  pose proof (good_size_multiple _ Hgood) as [_ Hr]. pose proof (locks_files _ _ Hm1) as Hf1.
  assert (Hdiv : 0 <= (rd m LogSize - WAL_HDRSIZE) / (lf_szPage fmt + WAL_FRAME_HDRSIZE)) by (apply Z.div_pos; unfold WAL_FRAME_HDRSIZE; lia).
  change 0 with (Z.of_nat (length (@nil (Z * Z)))) at 1.
  replace WAL_HDRSIZE with (frame_off fmt (Z.of_nat (length (@nil (Z * Z))) + 1)) at 2 by (rewrite frame_off_eq; cbn; lia).
  eapply rg_mono; [|apply (walIndexRecover_frames_rg present fmt _ w' m1 [] (0, 0) (rd m LogSize)); try done].
  - intros [[w2 rc] ck] m2 (Hm2 & Hc2 & Hok). apply HQ. pose proof (log_fixed _ _ Hm2) as Hf2.
    split; [by transitivity m1|]. split; [by transitivity w'|]. split; [|done]. cbn [negb andb]. intros Erc. bool_to_prop.
    destruct (Hok Erc) as (l & Hl & Hsn). exists l. unfold rebuilt.
    by rewrite (log_header_files m1), (log_header_files m), E by done.
  - by rewrite (Hf1 LogSize I).
  - cbn [length]. lia.
  - by rewrite (sm_lock _ _ Hc).
  - by apply (sm_mapped _ _ Hc).
  - split; try done. cbn. apply writer_start. intros pg k. by apply slots_locks.
  - rewrite Eck. constructor.
Qed.

Lemma walIndexRecover_log_rg : rg present only_locks same_files (walIndexRecover_log w (rd m LogSize)) (log_post w m) m.
Proof.
  pose proof (fun w' => log_nothing w') as Hnothing.
  assert (Emx : mxFrame (hdr w) = 0) by (by rewrite Hzero). assert (Enp : nPage (hdr w) = 0) by (by rewrite Hzero).
  unfold walIndexRecover_log. destruct (WAL_HDRSIZE <? rd m LogSize) eqn:Hsize; cbn [negb].
  2: { apply rg_done. intros m' Hm. apply log_nothing; try done. unfold log_header. by rewrite Hsize. }
  rg_bind. apply os_read_log_beside; [rewrite header_cells_eq; by repeat constructor|]. intros rc vs m1 Hm1 Hvs.
  destruct (negb (rc =? SQLITE_OK)) eqn:Erc; bool_to_prop.
  { apply rg_done. intros m' Hm. apply log_failed; [by transitivity m1|done|done]. }
  rewrite (Hvs Erc), header_cells_eq. cbn [fmap list_fmap lookup list_lookup default from_option id take].
  change (rd m (LogAt ?o)) with (log_word m o). change (BYTESWAP32 (log_word m ?o)) with (log_be m o).
  set (c := checksum (Z.land (log_be m 0) 1) [log_word m 0; log_word m 4; log_word m 8; log_word m 12; log_word m 16; log_word m 20] (0, 0)).
  assert (Hnone : forall w' m', only_locks m1 m' -> log_header m = None -> same_conn w w' -> mxFrame (hdr w') = 0 -> nPage (hdr w') = 0 ->
    log_post w m (w', SQLITE_OK, (0, 0), false) m') by (intros w' m' Hm; apply Hnothing; by transitivity m1).
  assert (Hh : log_header m = if (Z.land (log_be m 0) 0xFFFFFFFE =? WAL_MAGIC)
      && (Z.land (wrap_s 32 (log_be m 8)) (wrap_s 32 (wrap_s 32 (log_be m 8) - 1)) =? 0) && (512 <=? wrap_s 32 (log_be m 8))
      && (wrap_s 32 (log_be m 8) <=? SQLITE_MAX_PAGE_SIZE) && bool_decide (c = (log_be m 24, log_be m 28)) && (log_be m 4 =? WAL_MAX_VERSION)
    then Some (mkFormat (Z.land (log_be m 0) 1) (wrap_s 32 (log_be m 8)) (log_be m 12) (log_word m 16, log_word m 20) c) else None)
    by (unfold log_header; by rewrite (proj2 (Z.ltb_lt _ _) Hsize)).
  rewrite (Z.leb_antisym _ 512), (Z.leb_antisym SQLITE_MAX_PAGE_SIZE) in Hh.
  pose proof (bool_decide_reflect (c = (log_be m 24, log_be m 28))) as Hck. revert Hh Hck.
  generalize (bool_decide (c = (log_be m 24, log_be m 28))) (log_be m 4 =? WAL_MAX_VERSION) (Z.land (log_be m 0) 0xFFFFFFFE =? WAL_MAGIC)
    (Z.land (wrap_s 32 (log_be m 8)) (wrap_s 32 (wrap_s 32 (log_be m 8) - 1)) =? 0) (SQLITE_MAX_PAGE_SIZE <? wrap_s 32 (log_be m 8))
    (wrap_s 32 (log_be m 8) <? 512). intros bck bversion bmagic bpower bmax bmin Hh Hck.
  destruct bmagic; cbn [negb orb andb] in *; [|apply rg_done; intros m' Hm; by apply Hnone].
  destruct bpower; cbn [negb orb andb] in *; [|apply rg_done; intros m' Hm; by apply Hnone].
  destruct bmax; [rewrite andb_false_r in Hh; apply rg_done; intros m' Hm; by apply Hnone|].
  destruct bmin; cbn [negb orb andb] in *; [apply rg_done; intros m' Hm; by apply Hnone|].
  rewrite checksum_header. fold c. clearbody c. cbv beta iota zeta.
  match goal with |- context [mkWal ?a ?b ?c ?d ?e ?f ?g ?h ?i ?j ?k ?l ?m ?n ?o ?p ?q] => set (w1 := mkWal a b c d e f g h i j k l m n o p q) end.
  assert (Hc1 : same_conn w w1).
  { by split. }
  destruct Hck as [Ec|Ec]; cbn [andb] in Hh.
  2: { assert (E2 : negb (c.1 =? log_be m 24) || negb (c.2 =? log_be m 28) = true).
       { destruct c as [c1 c2]. cbn [fst snd]. destruct (Z.eqb_spec c1 (log_be m 24)), (Z.eqb_spec c2 (log_be m 28)); subst; done. }
       rewrite E2. apply rg_done. intros m' Hm. by apply Hnone; [..|cbn; rewrite Hzero|cbn; rewrite Hzero]. }
  assert (E2 : negb (c.1 =? log_be m 24) || negb (c.2 =? log_be m 28) = false) by (rewrite Ec; cbn [fst snd]; by rewrite !Z.eqb_refl).
  rewrite E2. clear E2. destruct bversion; cbn [negb] in *.
  2: { apply rg_done. intros m' Hm. apply log_failed; [by transitivity m1|done|done]. }
  intros [|].
  2: { apply rg_done. intros m' Hm. apply log_failed; [by transitivity m1|done|done]. }
  rg_bind. apply (log_scan _ w1 m1 _ Hm1 Hh Hc1); try done; try (cbn; by rewrite Hzero).
  intros w2 rc2 ck m2 H2. apply rg_done. intros m3 Hm3. destruct H2 as (A1 & A2 & A3 & A4).
  split; [transitivity m2; [done|by apply locks_files]|]. split; [done|]. split; [|done]. intros Hok. destruct (A3 Hok) as [l Hl].
  exists l. by apply (rebuilt_stable _ m2).
Qed.
End log.

(** ** The whole of recovery *)

(** The connection has the format of the log, and the checksum of the last commit. *)
Definition format_known (w : Wal) (m : mem) (l : list (Z * Z)) : Prop :=
  forall fmt, log_header m = Some fmt -> knows fmt w /\ (last_commit l <> 0 ->
    szPage16 (hdr w) = szPage_u16 (lf_szPage fmt) /\ valid_log fmt m (take (Z.to_nat (last_commit l)) l) (aFrameCksum (hdr w))).

Record recovered (w : Wal) (m : mem) (l : list (Z * Z)) : Prop := {
  rv_frames : log_frames m l;
  rv_index : writer_inv m (log_page l) (Z.of_nat (length l)) (last_commit l);
  rv_mx : mxFrame (hdr w) = last_commit l;
  rv_npage : nPage (hdr w) = log_size l (last_commit l);
  rv_format : format_known w m l;
  rv_sealed : exists h, sealed h = Some (hdr w);
  rv_copies : has m 0 (hdr_words (hdr w)) /\ has m 1 (hdr_words (hdr w));
  rv_backfill : rd m nBackfill = 0 /\ rd m nBackfillAttempted = last_commit l;
  rv_marks i : 0 <= i < WAL_NREADER -> rd m (aReadMark i) =
    if i =? 0 then 0 else if (i =? 1) && negb (last_commit l =? 0) then last_commit l else READMARK_NOT_USED }.

Lemma log_frames_files m m' l : same_files m m' -> log_frames m l -> log_frames m' l.
Proof.
  intros Hm. unfold log_frames. rewrite (log_header_files m m') by done. destruct (log_header m) as [fmt|] eqn:E; [|done].
  pose proof (good_size_multiple _ (log_header_size _ _ E)) as [_ Hr]. intros (c & Hv & Hn). exists c.
  split; [apply (valid_log_files fmt m); [lia|done..]|by rewrite (frame_at_files fmt m m')].
Qed.

Lemma format_files m m' w l : same_files m m' -> format_known w m l -> format_known w m' l.
Proof.
  intros Hm H fmt. rewrite (log_header_files m m') by done. intros E. destruct (H fmt E) as [B1 B2]. split; [done|]. intros Hk.
  destruct (B2 Hk) as [B3 B4]. split; [done|]. pose proof (good_size_multiple _ (log_header_size _ _ E)) as [_ Hr].
  apply (valid_log_files fmt m); [lia|done..].
Qed.

Lemma sealed_hdr h0 h : sealed h0 = Some h -> h = set_aCksum (set_init h0) (aCksum h).
Proof. intros H. destruct (sealed_some h0) as [c Hc]. rewrite Hc in H. by injection H as <-. Qed.

(** Writing the header of what was rebuilt. *)
Lemma written_recovered w m l ck h m' :
  rebuilt w m l ck -> sealed (set_aFrameCksum (hdr w) ck) = Some h -> only_locks (written h m) m' -> recovered (set_hdr w h) m' l.
Proof.
  intros Hb Hs Hm. set (m1 := written h m) in *. pose proof (written_files h m) as Hf1. fold m1 in Hf1.
  assert (Hf : same_files m m') by (transitivity m1; [done|by apply locks_files]).
  pose proof (sealed_hdr _ _ Hs) as Eh.
  assert (Hmx : mxFrame h = mxFrame (hdr w)) by (by rewrite Eh). assert (Hnp : nPage h = nPage (hdr w)) by (by rewrite Eh).
  assert (Hcommon : log_frames m l /\ writer_inv m (log_page l) (Z.of_nat (length l)) (last_commit l) /\ mxFrame h = last_commit l /\
    nPage h = log_size l (last_commit l) /\
    format_known (set_hdr w h) m l).
  { rewrite Hmx, Hnp. unfold rebuilt, log_frames in *. destruct (log_header m) as [fmt|] eqn:E.
    - destruct Hb as (Hl & [[K1 K2 K3] S2 S3 S4 S5 S6 S7]). split_and!; [done..|]. intros fmt' E'. rewrite E in E'. injection E' as <-. split; [split; try (cbn; rewrite Eh); done|].
      intros Hk. rewrite Eh. cbn. rewrite S5, (proj2 (Z.eqb_neq _ _)) by done. split; [done|by apply S7].
    - destruct Hb as (-> & HW & E1 & E2 & E3). split_and!; try done. intros fmt. by rewrite E. }
  destruct Hcommon as (A1 & A2 & A3 & A4 & A5). split; cbn [hdr set_hdr].
  - by apply (log_frames_files m).
  - apply (table_writer m1); [by apply locks_tables|by apply written_inv].
  - done.
  - done.
  - by apply (format_files m).
  - by exists (set_aFrameCksum (hdr w) ck).
  - split; intros j Hj; rewrite Hm by done; apply written_header; auto.
  - rewrite !Hm by done. unfold m1. rewrite written_nBackfill, written_attempted. done.
  - intros i Hi. rewrite Hm by done. unfold m1. rewrite written_mark, A3 by done. done.
Qed.

Lemma recovered_stable w m m' l : only_locks m m' -> recovered w m l -> recovered w m' l.
Proof.
  intros Hm [A1 A2 A3 A4 A5 A6 A7 A8 A9]. pose proof (locks_files _ _ Hm) as Hf. split; try done.
  - by apply (log_frames_files m).
  - apply (table_writer m); [by apply locks_tables|done].
  - by apply (format_files m).
  - destruct A7 as [B1 B2]. split; intros j Hj; rewrite Hm by done; auto.
  - by rewrite !Hm by done.
  - intros i Hi. rewrite Hm by done. by apply A9.
Qed.

Lemma walIndexRecover_rg present w m :
  writeLock w = true -> mapped w 0 = true -> (forall pg k, 0 <= slot_at m pg k) -> rd m LogSize <= 2 ^ 40 ->
  rg present only_locks same_files (walIndexRecover w)
    (fun '(w', rc) m' => same_files m m' /\ (rc = SQLITE_OK -> exists l, recovered w' m' l)) m.
Proof.
  intros Hwl H0 Hs Hmax. unfold walIndexRecover. apply rg_insist; [done|]. rg_bind.
  apply walLockExclusive_any; [by apply locks_files|]. intros rc0 m1 Hm1. rg_bind.
  apply (rg_mono present _ _ _ (fun _ m2 => only_locks m m2)).
  2: { destruct (rc0 =? SQLITE_OK).
    - rg_bind. apply walLockExclusive_any; [by apply locks_files|]. intros rc1 m2 Hm2. case_bool.
      + rg_bind. apply walUnlockExclusive_any; [by apply locks_files|]. intros m3 Hm3. apply rg_done. intros m4 Hm4.
        by transitivity m3; [transitivity m2; [transitivity m1|]|].
      + apply rg_done. intros m3 Hm3. by transitivity m2; [transitivity m1|].
    - apply rg_done. intros m2 Hm2. by transitivity m1. }
  clear rc0 m1 Hm1. intros rc m1 Hm1. destruct (negb (rc =? SQLITE_OK)) eqn:Erc; bool_to_prop.
  { apply rg_done. intros m2 Hm2. split; [|done]. apply locks_files. by transitivity m1. }
  clear rc Erc. set (wz := set_hdr w zero_hdr). rg_bind. apply os_log_size_beside; [done|]. intros rc nSize m2 Hm2 Hsz. rg_bind.
  assert (Hm12 : only_locks m m2) by (by transitivity m1).
  assert (Hwl2 : writeLock wz = true) by done. assert (Hmap2 : mapped wz 0 = true) by done.
  apply (rg_mono present _ _ _ (log_post wz m2)).
  2: { destruct (negb (rc =? SQLITE_OK)) eqn:Erc; bool_to_prop.
    - apply rg_done. intros m3 Hm3. by apply log_failed.
    - apply (rg_stable _ only_locks _ _ _ m2); [done|]. assert (Esz : nSize = rd m2 LogSize) by (rewrite Hsz by done; symmetry; by apply Hm2).
      rewrite Esz. apply walIndexRecover_log_rg; try done.
      + intros pg k. by apply (slots_locks m).
      + by rewrite (Hm12 LogSize I). }
  intros [[[w2 rc2] ck] error] m3 (A1 & A2 & A3 & A4). rg_bind.
  assert (Hf3 : same_files m m3) by (transitivity m2; [by apply locks_files|done]).
  set (Q := fun (w' : Wal) (m' : mem) => same_files m m' /\ (rc2 = SQLITE_OK -> exists l, recovered w' m' l)).
  apply (rg_mono present _ _ _ Q).
  2: { destruct (negb error && (rc2 =? SQLITE_OK)) eqn:Efin.
    - destruct (A3 eq_refl) as [l Hl]. apply walIndexRecover_finish_rg.
      + by rewrite (sm_lock _ _ A2).
      + by apply (sm_mapped _ _ A2).
      + intros h Hh m4 Hm4. split.
        * transitivity m3; [done|]. transitivity (written h m3); [apply written_files|by apply locks_files].
        * intros _. exists l. by apply (written_recovered w2 m3 l ck).
    - apply rg_done. intros m4 Hm4. split; [transitivity m3; [done|by apply locks_files]|]. intros Erc.
      destruct error; [by apply A4 in Erc|]. by rewrite Erc in Efin. }
  intros w3 m4 [B1 B2]. rg_bind. apply walUnlockExclusive_any; [by apply locks_files|]. intros m5 Hm5. rg_bind.
  apply walUnlockExclusive_any; [by apply locks_files|]. intros m6 Hm6. apply rg_done. intros m7 Hm7.
  assert (Hm47 : only_locks m4 m7) by (by transitivity m6; [transitivity m5|]).
  split; [transitivity m4; [done|by apply locks_files]|]. intros Erc. destruct (B2 Erc) as [l Hl]. exists l. by apply (recovered_stable w3 m4).
Qed.
