(* ===== verification/WalCheckpoint.v ===== *)
(** Checkpoints (src/sqlite-src-3280000/src/wal.c): the log is copied back into the
    database, as far as readers allow; and how a reader gets a page. *)
From S2P Require Import Prelude SharedMem WalIndex WalHeader WalLocks WalFile WalIterator.

(** ** Constants *)

Definition SQLITE_INTERRUPT : Z := 9.
Definition SQLITE_CHECKPOINT_PASSIVE : Z := 0.
Definition SQLITE_CHECKPOINT_RESTART : Z := 2.
Definition SQLITE_CHECKPOINT_TRUNCATE : Z := 3.

Definition walPagesize (w : Wal) : Z := Z.land (szPage16 (hdr w)) 0xfe00 + Z.shiftl (Z.land (szPage16 (hdr w)) 1) 16.

(** ** Reading a page *)

Definition sqlite3WalReadFrame (w : Wal) (iRead : Z) : prog (Z * Z) :=
  let sz := Z.land (szPage16 (hdr w)) 0xfe00 + Z.shiftl (Z.land (szPage16 (hdr w)) 1) 16 in
  os_read (LogAt (walFrameOffset iRead sz + WAL_FRAME_HDRSIZE)).

(** [readDbPage] of pager.c, of a pager in WAL mode, up to the contents of the page: the
    connection, the code and the contents.  A page after the end of the file is zero. *)
Definition readDbPage (w : Wal) (pageSize pgno : Z) : prog (Wal * Z * Z) :=
  '(w, rc, iFrame) ← sqlite3WalFindFrame w pgno;
  if negb (rc =? SQLITE_OK) then Done (w, rc, 0) else
  if negb (iFrame =? 0) then '(rc, v) ← sqlite3WalReadFrame w iFrame; Done (w, rc, v)
  else
    '(rc, v) ← os_read (DbAt ((pgno - 1) * pageSize));
    Done (w, if rc =? SQLITE_IOERR_SHORT_READ then SQLITE_OK else rc, v).

(** ** A checkpoint *)

(** The loop over the read marks: the code, [mxSafeFrame], [xBusy], and whether it ended
    normally, not with [goto walcheckpoint_out]. *)
Fixpoint walCheckpoint_marks (n : nat) (w : Wal) (i rc mxSafeFrame : Z) (xBusy : nat) : prog (Z * Z * nat * bool) :=
  match n with
  | O => Done (rc, mxSafeFrame, xBusy, true)
  | S n =>
      y ← load (aReadMark i);
      if y <? mxSafeFrame then
        insist (y <=? mxFrame (hdr w))
          ('(rc, xBusy) ← walBusyLock xBusy w (WAL_READ_LOCK i) 1;
           if rc =? SQLITE_OK then
             _ ← store (aReadMark i) (if i =? 1 then mxSafeFrame else READMARK_NOT_USED);
             _ ← walUnlockExclusive w (WAL_READ_LOCK i) 1;
             walCheckpoint_marks n w (i + 1) rc mxSafeFrame xBusy
           else if rc =? SQLITE_BUSY then walCheckpoint_marks n w (i + 1) rc y 0
           else Done (rc, mxSafeFrame, xBusy, false))
      else walCheckpoint_marks n w (i + 1) rc mxSafeFrame xBusy
  end.

(** The loop over the pages.  Every step but the last gives another page of the log:
    [fuel] is one more than the number of frames. *)
Fixpoint walCheckpoint_copy (fuel : nat) (w : Wal) (p : WalIterator) (nBackfill mxSafeFrame mxPage szPage iFrame : Z) : prog Z :=
  match fuel with
  | O => Stuck
  | S fuel =>
      '(p, last, iDbpage, iFrame) ← walIteratorNext p iFrame;
      if (last : bool) then Done SQLITE_OK else
      pgno ← walFramePgno w iFrame;
      insist (pgno =? iDbpage)
        (Ask (fun isInterrupted =>
           if negb (isInterrupted =? 0) then
             Ask (fun mallocFailed => Done (if negb (mallocFailed =? 0) then SQLITE_NOMEM else SQLITE_INTERRUPT))
           else if (iFrame <=? nBackfill) || (mxSafeFrame <? iFrame) || (mxPage <? iDbpage) then
             walCheckpoint_copy fuel w p nBackfill mxSafeFrame mxPage szPage iFrame
           else
             '(rc, zBuf) ← os_read (LogAt (walFrameOffset iFrame szPage + WAL_FRAME_HDRSIZE));
             if negb (rc =? SQLITE_OK) then Done rc else
             rc ← os_write (DbAt ((iDbpage - 1) * szPage)) zBuf;
             if negb (rc =? SQLITE_OK) then Done rc else
             walCheckpoint_copy fuel w p nBackfill mxSafeFrame mxPage szPage iFrame))
  end.

(** What is done while READ_LOCK(0) is held: syncing, the hint about the size, which does
    not change the contents, copying, and recording what was done. *)
Definition walCheckpoint_backfill (w : Wal) (p : WalIterator) (mxSafeFrame mxPage szPage : Z) : prog Z :=
  nBf ← load nBackfill;
  _ ← store nBackfillAttempted mxSafeFrame;
  rc ← os_call (Done ());
  rc ← (if rc =? SQLITE_OK then os_call (Done ()) else Done rc);
  rc ← (if rc =? SQLITE_OK then walCheckpoint_copy (S (Z.to_nat (mxFrame (hdr w)))) w p nBf mxSafeFrame mxPage szPage 0
        else Done rc);
  if rc =? SQLITE_OK then
    mx ← load shm_mxFrame;
    rc ← (if mxSafeFrame =? mx then
            rc ← os_truncate_db (nPage (hdr w) * szPage);
            if rc =? SQLITE_OK then os_call (Done ()) else Done rc
          else Done rc);
    if rc =? SQLITE_OK then _ ← store nBackfill mxSafeFrame; Done rc else Done rc
  else Done rc.

(** From the allocation of the iterator on; [rc] is what the loop over the marks left. *)
Definition walCheckpoint_iterate (w : Wal) (mxSafeFrame mxPage szPage rc : Z) (xBusy : nat) : prog (Wal * Z * nat) :=
  nBf ← load nBackfill;
  '(w, rc, pIter) ← (if nBf <? mxSafeFrame then nBf ← load nBackfill; walIteratorInit w nBf else Done (w, rc, None));
  match pIter with
  | Some p =>
      insist (rc =? SQLITE_OK)
        ('(rc, xBusy) ← walBusyLock xBusy w (WAL_READ_LOCK 0) 1;
         if rc =? SQLITE_OK then
           rc ← walCheckpoint_backfill w p mxSafeFrame mxPage szPage;
           _ ← walUnlockExclusive w (WAL_READ_LOCK 0) 1;
           Done (w, rc, xBusy)
         else Done (w, rc, xBusy))
  | None => Done (w, rc, xBusy)
  end.

Definition walRestartHdr (w : Wal) (salt1 : Z) : prog Wal :=
  walCkptInfo w
    (let h := hdr w in
     let h := mkHdr (iVersion h) (unused h) (iChange h) (isInit h) (bigEndCksum h) (szPage16 h) 0 (nPage h) (aFrameCksum h)
       (BYTESWAP32 (wrap_u 32 (1 + BYTESWAP32 (aSalt h).1)), salt1) (aCksum h) in
     let w := mkWal (apWiData w) (w_szPage w) (readLock w) (exclusiveMode w) (writeLock w) (ckptLock w) (readOnly w)
       (bShmUnreliable w) h (minFrame w) (iReCksum w) (wrap_u 32 (nCkpt w + 1))
       (truncateOnCommit w) (iCallback w) (mxWalSize w) (syncHeader w) (padToSectorBoundary w) in
     w ← walIndexWriteHdr w;
     _ ← store nBackfill 0;
     _ ← store nBackfillAttempted 0;
     _ ← store (aReadMark 1) 0;
     _ ← store (aReadMark 2) READMARK_NOT_USED;
     _ ← store (aReadMark 3) READMARK_NOT_USED;
     _ ← store (aReadMark 4) READMARK_NOT_USED;
     y ← load (aReadMark 0);
     insist (y =? 0) (Done w)).

(** The end of a checkpoint that is not passive. *)
Definition walCheckpoint_restart (w : Wal) (eMode : Z) (xBusy : nat) : prog (Wal * Z) :=
  insist (writeLock w)
    (nBf ← load nBackfill;
     if nBf <? mxFrame (hdr w) then Done (w, SQLITE_BUSY)
     else if SQLITE_CHECKPOINT_RESTART <=? eMode then
       Ask (fun salt1 =>
         nBf ← load nBackfill;
         insist (nBf =? mxFrame (hdr w))
           ('(rc, _) ← walBusyLock xBusy w (WAL_READ_LOCK 1) (Z.to_nat (WAL_NREADER - 1));
            if rc =? SQLITE_OK then
              '(w, rc) ←
                (if eMode =? SQLITE_CHECKPOINT_TRUNCATE then
                   w ← walRestartHdr w salt1; rc ← os_truncate_log 0; Done (w, rc)
                 else Done (w, rc));
              _ ← walUnlockExclusive w (WAL_READ_LOCK 1) (Z.to_nat (WAL_NREADER - 1));
              Done (w, rc)
            else Done (w, rc)))
     else Done (w, SQLITE_OK)).

Definition walCheckpoint (w : Wal) (eMode : Z) (xBusy : nat) : prog (Wal * Z) :=
  let szPage := walPagesize w in
  walCkptInfo w
    (nBf ← load nBackfill;
     '(w, rc, xBusy, out) ←
       (if nBf <? mxFrame (hdr w) then
          insist (negb (eMode =? SQLITE_CHECKPOINT_PASSIVE) || (xBusy =? 0)%nat)
            ('(rc, mxSafeFrame, xBusy, ok) ←
               walCheckpoint_marks (Z.to_nat (WAL_NREADER - 1)) w 1 SQLITE_OK (mxFrame (hdr w)) xBusy;
             if negb ok then Done (w, rc, xBusy, true) else
             '(w, rc, xBusy) ← walCheckpoint_iterate w mxSafeFrame (nPage (hdr w)) szPage rc xBusy;
             Done (w, if rc =? SQLITE_BUSY then SQLITE_OK else rc, xBusy, false))
        else Done (w, SQLITE_OK, xBusy, false));
     if (negb out && (rc =? SQLITE_OK)) && negb (eMode =? SQLITE_CHECKPOINT_PASSIVE) then walCheckpoint_restart w eMode xBusy
     else Done (w, rc)).
