(* ===== verification/WalProtocol.v ===== *)
(** The protocol of the connections of a database (src/sqlite-src-3280000/src/wal.c): how
    read and write transactions start and end, when the log is started over, and the
    call that runs a checkpoint.

    The code is that without SQLITE_ENABLE_SNAPSHOT.  In heap-memory mode the pages of
    the wal-index belong to the connection; the cells then stand for these. *)
From S2P Require Import Prelude SharedMem WalIndex WalHeader WalLocks WalFile WalLog WalIterator WalCheckpoint.

Definition SQLITE_BUSY_RECOVERY : Z := 261.

(** ** Fields *)

Definition set_locks (w : Wal) (read : Z) (writer ckpt : bool) : Wal :=
  mkWal (apWiData w) (w_szPage w) read (exclusiveMode w) writer ckpt (readOnly w) (bShmUnreliable w) (hdr w) (minFrame w)
    (iReCksum w) (nCkpt w) (truncateOnCommit w) (iCallback w) (mxWalSize w) (syncHeader w) (padToSectorBoundary w).

Definition set_readLock (w : Wal) (i : Z) : Wal := set_locks w i (writeLock w) (ckptLock w).
Definition set_writeLock (w : Wal) (b : bool) : Wal := set_locks w (readLock w) b (ckptLock w).
Definition set_ckptLock (w : Wal) (b : bool) : Wal := set_locks w (readLock w) (writeLock w) b.

Definition set_mode (w : Wal) (exclusive : Z) (unreliable : bool) : Wal :=
  mkWal (apWiData w) (w_szPage w) (readLock w) exclusive (writeLock w) (ckptLock w) (readOnly w) unreliable (hdr w) (minFrame w)
    (iReCksum w) (nCkpt w) (truncateOnCommit w) (iCallback w) (mxWalSize w) (syncHeader w) (padToSectorBoundary w).

Definition set_minFrame (w : Wal) (i : Z) : Wal :=
  mkWal (apWiData w) (w_szPage w) (readLock w) (exclusiveMode w) (writeLock w) (ckptLock w) (readOnly w) (bShmUnreliable w)
    (hdr w) i (iReCksum w) (nCkpt w) (truncateOnCommit w) (iCallback w) (mxWalSize w) (syncHeader w) (padToSectorBoundary w).

Definition set_truncateOnCommit (w : Wal) (b : bool) : Wal :=
  mkWal (apWiData w) (w_szPage w) (readLock w) (exclusiveMode w) (writeLock w) (ckptLock w) (readOnly w) (bShmUnreliable w)
    (hdr w) (minFrame w) (iReCksum w) (nCkpt w) b (iCallback w) (mxWalSize w) (syncHeader w) (padToSectorBoundary w).

(** [memcmp] of [walIndexHdr(pWal)] with the header of the connection: whether they are
    the same. *)
Definition same_hdr (w : Wal) : prog bool :=
  ws ← load_words 12 (aHdr 0); Done (bool_decide (ws = hdr_words (hdr w))).

(** ** Reading the header *)

Definition walIndexClose (w : Wal) : prog Wal :=
  if (exclusiveMode w =? WAL_HEAPMEMORY_MODE) || bShmUnreliable w then
    Done (set_apWiData w (replicate (length (apWiData w)) false))
  else Done w.

(** When the header cannot be read: the connection, the code, whether the header is
    still bad, and whether it changed. *)
Definition walIndexReadHdr_repair (w : Wal) (rc : Z) : prog (Wal * Z * bool * bool) :=
  if negb (bShmUnreliable w) && negb (Z.land (readOnly w) WAL_SHM_RDONLY =? 0) then
    rc ← walLockShared w WAL_WRITE_LOCK;
    if rc =? SQLITE_OK then _ ← walUnlockShared w WAL_WRITE_LOCK; Done (w, SQLITE_READONLY_RECOVERY, true, false)
    else Done (w, rc, true, false)
  else
    rc ← walLockExclusive w WAL_WRITE_LOCK 1;
    if rc =? SQLITE_OK then
      '(w, rc) ← walIndexPage (set_writeLock w true) 0;
      '(w, rc, badHdr, pChanged) ←
        (if rc =? SQLITE_OK then
           '(badHdr, w, pChanged) ← walIndexTryHdr w;
           if (badHdr : bool) then '(w, rc) ← walIndexRecover w; Done (w, rc, true, true) else Done (w, rc, false, pChanged)
         else Done (w, rc, true, false));
      _ ← walUnlockExclusive w WAL_WRITE_LOCK 1;
      Done (set_writeLock w false, rc, badHdr, pChanged)
    else Done (w, rc, true, false).

(** The connection, the code and [*pChanged]. *)
Definition walIndexReadHdr (w : Wal) : prog (Wal * Z * bool) :=
  '(w, rc) ← walIndexPage w 0;
  let page0 := mapped w 0 in
  insist ((rc =? SQLITE_OK) || negb (rc =? SQLITE_READONLY))
    (if negb (rc =? SQLITE_OK) && negb (rc =? SQLITE_READONLY_CANTINIT) then Done (w, rc, false) else
     let cantinit := negb (rc =? SQLITE_OK) in
     insist (negb cantinit || negb page0 && negb (writeLock w) && negb (Z.land (readOnly w) WAL_SHM_RDONLY =? 0))
       (let w := if cantinit then set_mode w WAL_HEAPMEMORY_MODE true else w in
        insist (page0 || negb (writeLock w))
          ('(badHdr, w, pChanged) ← (if page0 then walIndexTryHdr w else Done (true, w, false));
           insist (negb badHdr || negb (writeLock w))
             ('(w, rc, badHdr, pChanged') ←
                (if (badHdr : bool) then walIndexReadHdr_repair w rc else Done (w, rc, false, false));
              let rc := if negb badHdr && negb (iVersion (hdr w) =? WALINDEX_MAX_VERSION) then SQLITE_CANTOPEN else rc in
              let pChanged := cantinit || pChanged || pChanged' in
              if bShmUnreliable w then
                '(w, rc) ←
                  (if negb (rc =? SQLITE_OK) then
                     w ← walIndexClose w;
                     let w := set_mode w (exclusiveMode w) false in
                     insist ((0 <? nWiData w) && negb (mapped w 0))
                       (Done (w, if rc =? SQLITE_IOERR_SHORT_READ then WAL_RETRY else rc))
                   else Done (w, rc));
                Done (set_mode w WAL_NORMAL_MODE (bShmUnreliable w), rc, pChanged)
              else Done (w, rc, pChanged))))).

(** ** Ending transactions *)

Definition sqlite3WalEndWriteTransaction (w : Wal) : prog Wal :=
  if writeLock w then
    _ ← walUnlockExclusive w WAL_WRITE_LOCK 1;
    Done (set_truncateOnCommit (set_iReCksum (set_writeLock w false) 0) false)
  else Done w.

Definition sqlite3WalEndReadTransaction (w : Wal) : prog Wal :=
  w ← sqlite3WalEndWriteTransaction w;
  if 0 <=? readLock w then _ ← walUnlockShared w (WAL_READ_LOCK (readLock w)); Done (set_readLock w (-1)) else Done w.

(** ** Starting to read *)

(** The best read mark: [mxReadMark] and [mxI]. *)
Fixpoint walTryBeginRead_marks (n : nat) (i mxFrame mxReadMark mxI : Z) : prog (Z * Z) :=
  match n with
  | O => Done (mxReadMark, mxI)
  | S n =>
      thisMark ← load (aReadMark i);
      if (mxReadMark <=? thisMark) && (thisMark <=? mxFrame) then
        insist (negb (thisMark =? READMARK_NOT_USED)) (walTryBeginRead_marks n (i + 1) mxFrame thisMark i)
      else walTryBeginRead_marks n (i + 1) mxFrame mxReadMark mxI
  end.

(** A read mark is moved to [mxFrame]: the code, [mxReadMark], [mxI], and whether to
    return the code at once. *)
Fixpoint walTryBeginRead_claim (n : nat) (w : Wal) (i mxFrame rc mxReadMark mxI : Z) : prog (Z * Z * Z * bool) :=
  match n with
  | O => Done (rc, mxReadMark, mxI, false)
  | S n =>
      rc ← walLockExclusive w (WAL_READ_LOCK i) 1;
      if rc =? SQLITE_OK then
        _ ← store (aReadMark i) mxFrame;
        _ ← walUnlockExclusive w (WAL_READ_LOCK i) 1;
        Done (rc, mxFrame, i, false)
      else if negb (rc =? SQLITE_BUSY) then Done (rc, mxReadMark, mxI, true)
      else walTryBeginRead_claim n w (i + 1) mxFrame rc mxReadMark mxI
  end.

(** The last part, from the choice of a read mark on. *)
Definition walTryBeginRead_wal (w : Wal) (rc : Z) : prog (Wal * Z) :=
  let mxF := mxFrame (hdr w) in
  '(mxReadMark, mxI) ← walTryBeginRead_marks (Z.to_nat (WAL_NREADER - 1)) 1 mxF 0 0;
  '(rc, mxReadMark, mxI, out) ←
    (if (Z.land (readOnly w) WAL_SHM_RDONLY =? 0) && ((mxReadMark <? mxF) || (mxI =? 0)) then
       walTryBeginRead_claim (Z.to_nat (WAL_NREADER - 1)) w 1 mxF rc mxReadMark mxI
     else Done (rc, mxReadMark, mxI, false));
  if (out : bool) then Done (w, rc) else
  if mxI =? 0 then
    insist ((rc =? SQLITE_BUSY) || negb (Z.land (readOnly w) WAL_SHM_RDONLY =? 0))
      (Done (w, if rc =? SQLITE_BUSY then WAL_RETRY else SQLITE_READONLY_CANTINIT))
  else
    rc ← walLockShared w (WAL_READ_LOCK mxI);
    if negb (rc =? SQLITE_OK) then Done (w, if rc =? SQLITE_BUSY then WAL_RETRY else rc) else
    nBf ← load nBackfill;
    let w := set_minFrame w (wrap_u 32 (nBf + 1)) in
    mark ← load (aReadMark mxI);
    changed ← (if negb (mark =? mxReadMark) then Done true else same ← same_hdr w; Done (negb same));
    if (changed : bool) then _ ← walUnlockShared w (WAL_READ_LOCK mxI); Done (w, WAL_RETRY)
    else insist (mxReadMark <=? mxFrame (hdr w)) (Done (set_readLock w mxI, rc)).

(** The part that tries to do without the log; then the rest. *)
Definition walTryBeginRead_lock (w : Wal) (useWal : bool) : prog (Wal * Z) :=
  walCkptInfo w
    (skip ← (if (useWal : bool) then Done false else nBf ← load nBackfill; Done (nBf =? mxFrame (hdr w)));
     if (skip : bool) then
       rc ← walLockShared w (WAL_READ_LOCK 0);
       if rc =? SQLITE_OK then
         same ← same_hdr w;
         if negb same then _ ← walUnlockShared w (WAL_READ_LOCK 0); Done (w, WAL_RETRY)
         else Done (set_readLock w 0, SQLITE_OK)
       else if negb (rc =? SQLITE_BUSY) then Done (w, rc)
       else walTryBeginRead_wal w rc
     else walTryBeginRead_wal w SQLITE_OK).

(** ** Shared memory that cannot be trusted *)

(** The loop over the frames after those of the index; the frame is read into a buffer
    of [szFrame] bytes.  [fuel] is one more than the number of steps that fit. *)
Fixpoint walBeginShmUnreliable_frames (fuel : nat) (w : Wal) (szFrame szWal iOffset : Z) : prog (Wal * Z) :=
  match fuel with
  | O => Stuck
  | S fuel =>
      if szWal <? iOffset + szFrame then Done (w, SQLITE_OK) else
      '(rc, vs) ← os_read_log (frame_cells iOffset);
      if negb (rc =? SQLITE_OK) then Done (w, rc) else
      match walDecodeFrame w (frame_data vs) (szFrame - WAL_FRAME_HDRSIZE) vs with
      | None => Stuck
      | Some (w, None) => Done (w, SQLITE_OK)
      | Some (w, Some (_, nTruncate)) =>
          if negb (nTruncate =? 0) then Done (w, WAL_RETRY)
          else walBeginShmUnreliable_frames fuel w szFrame szWal (iOffset + szFrame)
      end
  end.

(** From the copy of the header on: the connection, the code, and whether [*pChanged] is
    set. *)
Definition walBeginShmUnreliable_check (w : Wal) : prog (Wal * Z * bool) :=
  ws ← load_words 12 (aHdr 0);
  let w := set_hdr w (words_hdr ws) in
  '(rc, szWal) ← os_log_size;
  if negb (rc =? SQLITE_OK) then Done (w, rc, false) else
  if szWal <? WAL_HDRSIZE then Done (w, if mxFrame (hdr w) =? 0 then SQLITE_OK else WAL_RETRY, true) else
  '(rc, aBuf) ← os_read_log (log_words 8 0);
  if negb (rc =? SQLITE_OK) then Done (w, rc, false) else
  if negb (bool_decide (aSalt (hdr w) = (default 0 (aBuf !! 4%nat), default 0 (aBuf !! 5%nat)))) then Done (w, WAL_RETRY, false) else
  Alloc (fun b =>
    if b then
      let szFrame := szPage16 (hdr w) + WAL_FRAME_HDRSIZE in
      let aSaveCksum := aFrameCksum (hdr w) in
      '(w, rc) ← walBeginShmUnreliable_frames (S (Z.to_nat (szWal / szFrame))) w szFrame szWal
                   (walFrameOffset (mxFrame (hdr w) + 1) (szPage16 (hdr w)));
      Done (set_hdr w (set_aFrameCksum (hdr w) aSaveCksum), rc, false)
    else Done (w, SQLITE_NOMEM, false)).

(** The lock and the test whether a writer has attached; the code is never SQLITE_OK for
    a connection that may only read. *)
Definition walBeginShmUnreliable_open (w : Wal) : prog (Wal * Z * bool) :=
  rc ← walLockShared w (WAL_READ_LOCK 0);
  if negb (rc =? SQLITE_OK) then Done (w, if rc =? SQLITE_BUSY then WAL_RETRY else rc, false) else
  let w := set_readLock w 0 in
  ShmMap 0 false (fun rc _ =>
    insist (negb (rc =? SQLITE_OK))
      (if negb (rc =? SQLITE_READONLY_CANTINIT) then Done (w, if rc =? SQLITE_READONLY then WAL_RETRY else rc, false)
       else walBeginShmUnreliable_check w)).

Definition walBeginShmUnreliable (w : Wal) : prog (Wal * Z * bool) :=
  insist (bShmUnreliable w && negb (Z.land (readOnly w) WAL_SHM_RDONLY =? 0) && (0 <? nWiData w) && mapped w 0)
    ('(w, rc, pChanged) ← walBeginShmUnreliable_open w;
     if negb (rc =? SQLITE_OK) then
       w ← sqlite3WalEndReadTransaction
             (set_mode (set_apWiData w (replicate (length (apWiData w)) false)) (exclusiveMode w) false);
       Done (w, rc, true)
     else Done (w, rc, pChanged)).

(** ** A read transaction *)

(** The code that a busy header becomes. *)
Definition walTryBeginRead_busy (w : Wal) (rc : Z) : prog Z :=
  if rc =? SQLITE_BUSY then
    if negb (mapped w 0) then Done WAL_RETRY else
    rc ← walLockShared w WAL_RECOVER_LOCK;
    if rc =? SQLITE_OK then _ ← walUnlockShared w WAL_RECOVER_LOCK; Done WAL_RETRY
    else if rc =? SQLITE_BUSY then Done SQLITE_BUSY_RECOVERY else Done rc
  else Done rc.

(** The delay after some attempts has no effect. *)
Definition walTryBeginRead (w : Wal) (useWal : bool) (cnt : Z) : prog (Wal * Z * bool) :=
  insist (readLock w <? 0)
    (insist ((Z.land (readOnly w) WAL_SHM_RDONLY =? 0) || negb useWal)
      (if 100 <? cnt then Done (w, SQLITE_PROTOCOL, false) else
       if negb useWal then
         '(w, rc, pChanged) ← (if negb (bShmUnreliable w) then walIndexReadHdr w else Done (w, SQLITE_OK, false));
         rc ← walTryBeginRead_busy w rc;
         if negb (rc =? SQLITE_OK) then Done (w, rc, pChanged)
         else if bShmUnreliable w then '(w, rc, ch) ← walBeginShmUnreliable w; Done (w, rc, pChanged || ch)
         else '(w, rc) ← walTryBeginRead_lock w false; Done (w, rc, pChanged)
       else '(w, rc) ← walTryBeginRead_lock w true; Done (w, rc, false))).

(** Attempts until one does not ask for another; the 101st never does. *)
Fixpoint walTryBeginRead_loop (fuel : nat) (w : Wal) (useWal : bool) (cnt : Z) : prog (Wal * Z * bool) :=
  match fuel with
  | O => Stuck
  | S fuel =>
      '(w, rc, ch) ← walTryBeginRead w useWal (cnt + 1);
      if rc =? WAL_RETRY then '(w, rc, ch') ← walTryBeginRead_loop fuel w useWal (cnt + 1); Done (w, rc, ch || ch')
      else Done (w, rc, ch)
  end.

Definition sqlite3WalBeginReadTransaction (w : Wal) : prog (Wal * Z * bool) := walTryBeginRead_loop (Z.to_nat 101) w false 0.

Definition sqlite3WalDbsize (w : Wal) : Z := if 0 <=? readLock w then nPage (hdr w) else 0.

(** ** Write transactions *)

Definition sqlite3WalBeginWriteTransaction (w : Wal) : prog (Wal * Z) :=
  insist (0 <=? readLock w)
    (insist (negb (writeLock w) && (iReCksum w =? 0))
      (if negb (readOnly w =? 0) then Done (w, SQLITE_READONLY) else
       rc ← walLockExclusive w WAL_WRITE_LOCK 1;
       if negb (rc =? SQLITE_OK) then Done (w, rc) else
       same ← same_hdr w;
       if negb same then _ ← walUnlockExclusive w WAL_WRITE_LOCK 1; Done (w, SQLITE_BUSY_SNAPSHOT)
       else Done (set_writeLock w true, SQLITE_OK))).

(** The pages of the frames from [iFrame] to [iMax] are given to [xUndo], whose code is
    [Ask]; the pages and the code. *)
Fixpoint sqlite3WalUndo_pages (n : nat) (w : Wal) (iFrame : Z) : prog (list Z * Z) :=
  match n with
  | O => Done ([], SQLITE_OK)
  | S n =>
      p ← walFramePgno w iFrame;
      insist (negb (p =? 1))
        (p ← walFramePgno w iFrame;
         Ask (fun rc => if rc =? SQLITE_OK then '(ps, rc) ← sqlite3WalUndo_pages n w (iFrame + 1); Done (p :: ps, rc) else Done ([p], rc)))
  end.

Definition sqlite3WalUndo (w : Wal) : prog (Wal * list Z * Z) :=
  if writeLock w then
    let iMax := mxFrame (hdr w) in
    ws ← load_words 12 (aHdr 0);
    let w := set_hdr w (words_hdr ws) in
    '(ps, rc) ← sqlite3WalUndo_pages (Z.to_nat (iMax - mxFrame (hdr w))) w (mxFrame (hdr w) + 1);
    w ← (if negb (iMax =? mxFrame (hdr w)) then walCleanupHash w else Done w);
    Done (w, ps, rc)
  else Done (w, [], SQLITE_OK).

(** The log is started over if nobody needs it. *)
Definition walRestartLog_header (w : Wal) : prog (Wal * Z) :=
  walCkptInfo w
    (nBf ← load nBackfill;
     insist (nBf =? mxFrame (hdr w))
       (nBf ← load nBackfill;
        if 0 <? nBf then
          Ask (fun salt1 =>
            rc ← walLockExclusive w (WAL_READ_LOCK 1) (Z.to_nat (WAL_NREADER - 1));
            if rc =? SQLITE_OK then
              w ← walRestartHdr w (wrap_u 32 salt1);
              _ ← walUnlockExclusive w (WAL_READ_LOCK 1) (Z.to_nat (WAL_NREADER - 1));
              Done (w, SQLITE_OK)
            else Done (w, rc))
        else Done (w, SQLITE_OK))).

Definition walRestartLog (w : Wal) : prog (Wal * Z) :=
  if readLock w =? 0 then
    '(w, rc) ← walRestartLog_header w;
    if negb (rc =? SQLITE_OK) && negb (rc =? SQLITE_BUSY) then Done (w, rc) else
    _ ← walUnlockShared w (WAL_READ_LOCK 0);
    '(w, rc, _) ← walTryBeginRead_loop (Z.to_nat 101) (set_readLock w (-1)) true 0;
    insist (negb (Z.land rc 0xff =? SQLITE_BUSY)) (Done (w, rc))
  else Done (w, SQLITE_OK).

(** ** A checkpoint *)

(** The header is read and the checkpoint run: the connection, the code, whether the
    header changed, and [*pnLog] and [*pnCkpt]; [nBuf] is the page size of the pager. *)
Definition sqlite3WalCheckpoint_run (w : Wal) (eMode : Z) (xBusy : nat) (nBuf rc : Z) : prog (Wal * Z * bool * option (Z * Z)) :=
  '(w, rc, isChanged) ← (if rc =? SQLITE_OK then walIndexReadHdr w else Done (w, rc, false));
  if rc =? SQLITE_OK then
    '(w, rc) ←
      (if negb (mxFrame (hdr w) =? 0) && negb (walPagesize w =? nBuf) then Done (w, SQLITE_CORRUPT) else walCheckpoint w eMode xBusy);
    if (rc =? SQLITE_OK) || (rc =? SQLITE_BUSY) then
      nBf ← walCkptInfo w (load nBackfill); Done (w, rc, isChanged, Some (mxFrame (hdr w), nBf))
    else Done (w, rc, isChanged, None)
  else Done (w, rc, isChanged, None).

Definition sqlite3WalCheckpoint (w : Wal) (eMode : Z) (xBusy : nat) (nBuf : Z) : prog (Wal * Z * option (Z * Z)) :=
  insist (negb (ckptLock w) && negb (writeLock w))
    (insist (negb (eMode =? SQLITE_CHECKPOINT_PASSIVE) || (xBusy =? 0)%nat)
      (if negb (readOnly w =? 0) then Done (w, SQLITE_READONLY, None) else
       rc ← walLockExclusive w WAL_CKPT_LOCK 1;
       if negb (rc =? SQLITE_OK) then Done (w, rc, None) else
       let w := set_ckptLock w true in
       '(w, rc, eMode2, xBusy2) ←
         (if negb (eMode =? SQLITE_CHECKPOINT_PASSIVE) then
            '(rc, xBusy) ← walBusyLock xBusy w WAL_WRITE_LOCK 1;
            if rc =? SQLITE_OK then Done (set_writeLock w true, rc, eMode, xBusy)
            else if rc =? SQLITE_BUSY then Done (w, SQLITE_OK, SQLITE_CHECKPOINT_PASSIVE, 0%nat)
            else Done (w, rc, eMode, xBusy)
          else Done (w, SQLITE_OK, eMode, xBusy));
       '(w, rc, isChanged, out) ← sqlite3WalCheckpoint_run w eMode2 xBusy2 nBuf rc;
       let w := if (isChanged : bool) then set_hdr w zero_hdr else w in
       w ← sqlite3WalEndWriteTransaction w;
       _ ← walUnlockExclusive w WAL_CKPT_LOCK 1;
       Done (set_ckptLock w false, if (rc =? SQLITE_OK) && negb (eMode =? eMode2) then SQLITE_BUSY else rc, out))).
