(* ===== verification/WalWrite.v ===== *)
(** Writing frames to the log, and committing (src/sqlite-src-3280000/src/wal.c). *)
From S2P Require Import Prelude SharedMem WalIndex WalHeader WalLocks WalFile WalLog WalIterator WalCheckpoint WalProtocol.

Definition WAL_SYNC_FLAGS (x : Z) : Z := Z.land x 0x03.
Definition CKPT_SYNC_FLAGS (x : Z) : Z := Z.land (Z.shiftr x 2) 0x03.
Definition MAX_SECTOR_SIZE : Z := 0x10000.

Definition set_iCallback (w : Wal) (i : Z) : Wal :=
  mkWal (apWiData w) (w_szPage w) (readLock w) (exclusiveMode w) (writeLock w) (ckptLock w) (readOnly w) (bShmUnreliable w)
    (hdr w) (minFrame w) (iReCksum w) (nCkpt w) (truncateOnCommit w) i (mxWalSize w) (syncHeader w) (padToSectorBoundary w).

(** ** One frame *)

(** [content] is the pieces of the bytes from [iOffset] on, [iAmt] of them. *)
Definition walWriteToLog (iSyncPoint syncFlags : Z) (content : list piece) (iAmt iOffset : Z) : prog Z :=
  if (iOffset <? iSyncPoint) && (iSyncPoint <=? iOffset + iAmt) then
    rc ← os_write_log content iOffset iSyncPoint;
    if negb (rc =? SQLITE_OK) then Done rc else
    insist (negb (WAL_SYNC_FLAGS syncFlags =? 0))
      (rc ← os_call (Done ());
       if (iOffset + iAmt - iSyncPoint =? 0) || negb (rc =? SQLITE_OK) then Done rc
       else os_write_log content iSyncPoint (iOffset + iAmt))
  else os_write_log content iOffset (iOffset + iAmt).

Definition walWriteOneFrame (w : Wal) (iSyncPoint syncFlags szPage pgno pData nTruncate iOffset : Z) : prog (Wal * Z) :=
  match walEncodeFrame w pgno nTruncate pData with
  | None => Stuck
  | Some (w, aFrame) =>
      rc ← walWriteToLog iSyncPoint syncFlags (word_pieces iOffset aFrame) WAL_FRAME_HDRSIZE iOffset;
      if negb (rc =? SQLITE_OK) then Done (w, rc) else
      rc ← walWriteToLog iSyncPoint syncFlags [(iOffset + WAL_FRAME_HDRSIZE, szPage, pData)] szPage (iOffset + WAL_FRAME_HDRSIZE);
      Done (w, rc)
  end.

(** ** Checksums of frames that were overwritten *)

Fixpoint walRewriteChecksums_loop (n : nat) (w : Wal) (szPage iRead : Z) : prog (Wal * Z) :=
  match n with
  | O => Done (w, SQLITE_OK)
  | S n =>
      let iOff := walFrameOffset iRead szPage in
      '(rc, aBuf) ← os_read_log (frame_cells iOff);
      if negb (rc =? SQLITE_OK) then Done (w, rc) else
      match walEncodeFrame w (BYTESWAP32 (default 0 (aBuf !! 0%nat))) (BYTESWAP32 (default 0 (aBuf !! 1%nat))) (frame_data aBuf) with
      | None => Stuck
      | Some (w, aFrame) =>
          rc ← os_write_log (word_pieces iOff aFrame) iOff (iOff + WAL_FRAME_HDRSIZE);
          if negb (rc =? SQLITE_OK) then Done (w, rc) else walRewriteChecksums_loop n w szPage (iRead + 1)
      end
  end.

Definition walRewriteChecksums (w : Wal) (iLast : Z) : prog (Wal * Z) :=
  let szPage := w_szPage w in
  Alloc (fun b =>
    if b then
      insist (0 <? iReCksum w)
        (let iCksumOff := if iReCksum w =? 1 then 24 else walFrameOffset (iReCksum w - 1) szPage + 16 in
         '(rc, aBuf) ← os_read_log (log_words 2 iCksumOff);
         let w' := set_hdr w (set_aFrameCksum (hdr w) (BYTESWAP32 (default 0 (aBuf !! 0%nat)), BYTESWAP32 (default 0 (aBuf !! 1%nat)))) in
         if rc =? SQLITE_OK then walRewriteChecksums_loop (Z.to_nat (iLast + 1 - iReCksum w)) (set_iReCksum w' 0) szPage (iReCksum w)
         else Done (set_iReCksum w' 0, rc))
    else Done (w, SQLITE_NOMEM)).

(** ** A transaction *)

Definition walLimitSize (w : Wal) (nMax : Z) : prog unit :=
  '(rx, sz) ← os_log_size;
  if (rx =? SQLITE_OK) && (nMax <? sz) then _ ← os_truncate_log nMax; Done () else Done ().

Definition sqlite3SectorSize (iRet : Z) : Z :=
  if iRet <? 32 then 512 else if MAX_SECTOR_SIZE <? iRet then MAX_SECTOR_SIZE else iRet.

(** The header of a log that starts over. *)
Definition sqlite3WalFrames_header (w : Wal) (szPage : Z) : prog (Wal * Z) :=
  Ask (fun r0 => Ask (fun r1 =>
    let aSalt := if nCkpt w =? 0 then (wrap_u 32 r0, wrap_u 32 r1) else aSalt (hdr w) in
    let a := [BYTESWAP32 (Z.lor WAL_MAGIC SQLITE_BIGENDIAN); BYTESWAP32 WAL_MAX_VERSION; BYTESWAP32 szPage; BYTESWAP32 (nCkpt w); aSalt.1; aSalt.2] in
    match walChecksumBytes true a None with
    | None => Stuck
    | Some aCksum =>
        let h := hdr w in
        let w := mkWal (apWiData w) szPage (readLock w) (exclusiveMode w) (writeLock w) (ckptLock w) (readOnly w) (bShmUnreliable w)
          (mkHdr (iVersion h) (unused h) (iChange h) (isInit h) SQLITE_BIGENDIAN (szPage16 h) (mxFrame h) (nPage h) aCksum aSalt (WalIndex.aCksum h))
          (minFrame w) (iReCksum w) (nCkpt w) true (iCallback w) (mxWalSize w) (syncHeader w) (padToSectorBoundary w) in
        rc ← os_write_log (word_pieces 0 (a ++ [BYTESWAP32 aCksum.1; BYTESWAP32 aCksum.2])) 0 WAL_HDRSIZE;
        if negb (rc =? SQLITE_OK) then Done (w, rc) else
        if syncHeader w then rc ← os_call (Done ()); Done (w, rc) else Done (w, SQLITE_OK)
    end)).

(** Where the loop over the pages is: the connection, the code, [iFrame], [iOffset],
    [pLast], and the pages that were appended, which have PGHDR_WAL_APPEND. *)
Record Writing := mkWriting {
  wr_wal : Wal; wr_rc : Z; wr_iFrame : Z; wr_iOffset : Z; wr_last : option (Z * Z); wr_append : list Z }.

(** A page that is already in the log of this transaction is overwritten. *)
Definition sqlite3WalFrames_overwrite (w : Wal) (szPage pData iWrite : Z) : prog (Wal * Z) :=
  let w := if (iReCksum w =? 0) || (iWrite <? iReCksum w) then set_iReCksum w iWrite else w in
  let iOff := walFrameOffset iWrite szPage + WAL_FRAME_HDRSIZE in
  rc ← os_write_log [(iOff, szPage, pData)] iOff (iOff + szPage);
  Done (w, rc).

(** The loop over the dirty pages [l], each a page number and its contents. *)
Fixpoint sqlite3WalFrames_loop (l : list (Z * Z)) (s : Writing) (szPage nTruncate syncFlags iFirst : Z) (isCommit : bool) : prog Writing :=
  match l with
  | [] => Done s
  | (pgno, pData) :: l =>
      let isLast := match l with [] => true | _ => false end in
      let w := wr_wal s in
      '(w, iWrite) ←
        (if negb (iFirst =? 0) && (negb isLast || negb isCommit) then '(w, _, iWrite) ← sqlite3WalFindFrame w pgno; Done (w, iWrite)
         else Done (w, -1));
      if (0 <=? iWrite) && (iFirst <=? iWrite) then
        '(w, rc) ← sqlite3WalFrames_overwrite w szPage pData iWrite;
        let s := mkWriting w rc (wr_iFrame s) (wr_iOffset s) (wr_last s) (wr_append s) in
        if negb (rc =? SQLITE_OK) then Done s else sqlite3WalFrames_loop l s szPage nTruncate syncFlags iFirst isCommit
      else
        let iFrame := wr_iFrame s + 1 in
        insist (wr_iOffset s =? walFrameOffset iFrame szPage)
          (let nDbSize := if isCommit && isLast then nTruncate else 0 in
           '(w, rc) ← walWriteOneFrame w 0 syncFlags szPage pgno pData nDbSize (wr_iOffset s);
           if negb (rc =? SQLITE_OK) then Done (mkWriting w rc iFrame (wr_iOffset s) (wr_last s) (wr_append s)) else
           sqlite3WalFrames_loop l
             (mkWriting w rc iFrame (wr_iOffset s + (szPage + WAL_FRAME_HDRSIZE)) (Some (pgno, pData)) (wr_append s ++ [pgno]))
             szPage nTruncate syncFlags iFirst isCommit)
  end.

(** The copies of the last frame up to the sync point: the connection, the code,
    [iOffset] and [nExtra].  Every copy takes at least a byte: [fuel] is one more than
    the number of bytes up to the sync point. *)
Fixpoint sqlite3WalFrames_pad (fuel : nat) (w : Wal) (last : Z * Z) (iSyncPoint syncFlags szPage nTruncate iOffset nExtra : Z)
    : prog (Wal * Z * Z * Z) :=
  match fuel with
  | O => Stuck
  | S fuel =>
      if iOffset <? iSyncPoint then
        '(w, rc) ← walWriteOneFrame w iSyncPoint syncFlags szPage last.1 last.2 nTruncate iOffset;
        if negb (rc =? SQLITE_OK) then Done (w, rc, iOffset, nExtra)
        else sqlite3WalFrames_pad fuel w last iSyncPoint syncFlags szPage nTruncate (iOffset + (szPage + WAL_FRAME_HDRSIZE)) (nExtra + 1)
      else Done (w, SQLITE_OK, iOffset, nExtra)
  end.

(** Padding and syncing at a commit: the connection, the code, [nExtra], and whether to
    return the code at once. *)
Definition sqlite3WalFrames_sync (w : Wal) (last : option (Z * Z)) (syncFlags szPage nTruncate iOffset : Z) : prog (Wal * Z * Z * bool) :=
  if padToSectorBoundary w then
    Ask (fun sector =>
      let sectorSize := sqlite3SectorSize sector in
      let iSyncPoint := (iOffset + sectorSize - 1) / sectorSize * sectorSize in
      let bSync := iSyncPoint =? iOffset in
      match last with
      | None => if bSync then rc ← os_call (Done ()); Done (w, rc, 0, false) else Stuck
      | Some last =>
          '(w, rc, _, nExtra) ← sqlite3WalFrames_pad (S (Z.to_nat (iSyncPoint - iOffset))) w last iSyncPoint syncFlags szPage nTruncate iOffset 0;
          if negb (rc =? SQLITE_OK) then Done (w, rc, nExtra, true) else
          if bSync then rc ← os_call (Done ()); Done (w, rc, nExtra, false) else Done (w, SQLITE_OK, nExtra, false)
      end)
  else rc ← os_call (Done ()); Done (w, rc, 0, false).

(** From the first page to the index: the connection, the code, and the pages that are
    to be entered in the index. *)
Definition sqlite3WalFrames_write (w : Wal) (szPage : Z) (pList : list (Z * Z)) (nTruncate : Z) (isCommit : bool) (syncFlags iFirst : Z)
    : prog (Wal * Z * list Z) :=
  let iFrame := mxFrame (hdr w) in
  s ← sqlite3WalFrames_loop pList (mkWriting w SQLITE_OK iFrame (walFrameOffset (iFrame + 1) szPage) None []) szPage nTruncate syncFlags iFirst isCommit;
  let w := wr_wal s in
  if negb (wr_rc s =? SQLITE_OK) then Done (w, wr_rc s, []) else
  '(w, rc) ← (if isCommit && negb (iReCksum w =? 0) then walRewriteChecksums w (wr_iFrame s) else Done (w, SQLITE_OK));
  if negb (rc =? SQLITE_OK) then Done (w, rc, []) else
  '(w, rc, nExtra, out) ←
    (if isCommit && negb (WAL_SYNC_FLAGS syncFlags =? 0) then sqlite3WalFrames_sync w (wr_last s) syncFlags szPage nTruncate (wr_iOffset s)
     else Done (w, SQLITE_OK, 0, false));
  if (out : bool) then Done (w, rc, []) else
  w ←
    (if isCommit && truncateOnCommit w && (0 <=? mxWalSize w) then
       let end_ := walFrameOffset (wr_iFrame s + nExtra + 1) szPage in
       _ ← walLimitSize w (if mxWalSize w <? end_ then end_ else mxWalSize w);
       Done (set_truncateOnCommit w false)
     else Done w);
  Done (w, rc, wr_append s ++ match wr_last s with Some (p, _) => replicate (Z.to_nat nExtra) p | None => [] end).

Definition sqlite3WalFrames (w : Wal) (szPage : Z) (pList : list (Z * Z)) (nTruncate : Z) (isCommit : bool) (syncFlags : Z) : prog (Wal * Z) :=
  insist (negb (bool_decide (pList = [])) && writeLock w)
    (insist (eqb isCommit (negb (nTruncate =? 0)))
      (same ← same_hdr w;
       iFirst ← (if (same : bool) then Done 0 else mx ← load shm_mxFrame; Done (wrap_u 32 (mx + 1)));
       '(w, rc) ← walRestartLog w;
       if negb (rc =? SQLITE_OK) then Done (w, rc) else
       '(w, rc) ← (if mxFrame (hdr w) =? 0 then sqlite3WalFrames_header w szPage else Done (w, SQLITE_OK));
       if negb (rc =? SQLITE_OK) then Done (w, rc) else
       insist (w_szPage w =? szPage)
         ('(w, rc, pages) ← sqlite3WalFrames_write w szPage pList nTruncate isCommit syncFlags iFirst;
          if negb (rc =? SQLITE_OK) then Done (w, rc) else
          '(w, rc, cb) ← sqlite3WalFrames_finish w szPage nTruncate isCommit pages;
          Done (match cb with Some i => set_iCallback w i | None => w end, rc)))).

Definition sqlite3WalCallback (w : Wal) : Wal * Z := (set_iCallback w 0, iCallback w).
