(* ===== verification/WalLogWriter.v ===== *)
(** Writing to the log: what a transaction leaves there, whichever writes fail. *)
From S2P Require Import Prelude SharedMem WalIndex WalIndexSpec WalIndexReader WalIndexWriter WalIndexTheorems WalHeader WalLocks WalFile WalLog WalCommit WalLogSpec WalFrame WalRecovery WalCheckpoint WalProtocol WalWrite.

(** ** What others leave alone, and what the writer preserves *)

(** While a connection holds the write lock, others change locks, the checkpoint
    information and the database only. *)
Definition writer_cell (c : cell) : Prop :=
  match c with Lck _ | DbAt _ => False | Word pg i => pg <> 0 \/ i < 24 \/ 34 <= i | _ => True end.

(** The first [keep] bytes of the log stay. *)
Record keeps (keep : Z) (m m' : mem) : Prop := {
  kp_log off : off < keep -> rd m' (LogAt off) = rd m (LogAt off);
  kp_size : keep <= rd m LogSize -> keep <= rd m' LogSize }.

#[export] Instance keeps_preorder keep : PreOrder (keeps keep).
Proof.
  split; [by split|]. intros m1 m2 m3 [A1 A2] [B1 B2]. split; [|auto]. intros off Ho. by rewrite B1, A1.
Qed.

Lemma keeps_other keep c v m : match c with LogAt _ | LogSize => False | _ => True end -> keeps keep m (<[c := v]> m).
Proof. intros Hc. split; intros; rewrite rd_insert; case_decide; by subst. Qed.

Lemma keeps_log keep off v m : keep <= off -> keeps keep m (<[LogAt off := v]> m).
Proof. intros Ho. split; intros; rewrite rd_insert; case_decide as E; try done. injection E as E. lia. Qed.

Lemma keeps_size keep v m : (keep <= rd m LogSize -> keep <= v) -> keeps keep m (<[LogSize := v]> m).
Proof. intros Hv. split; intros; rewrite rd_insert; case_decide; [done|done|auto|done]. Qed.

(** A write to the bytes from [lo] to [hi] of the log changes nothing else; the log does
    not shrink. *)
Record log_write (lo hi : Z) (m m' : mem) : Prop := {
  lw_out off : ~ lo <= off < hi -> rd m' (LogAt off) = rd m (LogAt off);
  lw_size : rd m LogSize <= rd m' LogSize;
  lw_other c : writer_cell c -> match c with LogAt _ | LogSize => False | _ => True end -> rd m' c = rd m c }.

#[export] Instance log_write_preorder lo hi : PreOrder (log_write lo hi).
Proof.
  split; [by split|]. intros m1 m2 m3 [A1 A2 A3] [B1 B2 B3]. split; [|lia|].
  - intros off Ho. by rewrite B1, A1.
  - intros c Hc Hn. by rewrite B3, A3.
Qed.

Lemma agree_log_write lo hi m m' : agree writer_cell m m' -> log_write lo hi m m'.
Proof. intros H. split; [intros off _; by apply H|by rewrite (H LogSize I)|intros c Hc _; by apply H]. Qed.

Lemma log_write_at lo hi off v m : lo <= off < hi -> log_write lo hi m (<[LogAt off := v]> m).
Proof. intros Ho. split; intros; rewrite rd_insert; case_decide as E; try done; [injection E as ->; lia|by subst]. Qed.

Lemma log_write_grow lo hi v m : rd m LogSize <= v -> log_write lo hi m (<[LogSize := v]> m).
Proof. intros Hv. split; intros; rewrite rd_insert; case_decide; by subst. Qed.

Lemma log_write_sub lo hi lo' hi' m m' : lo' <= lo -> hi <= hi' -> log_write lo hi m m' -> log_write lo' hi' m m'.
Proof. intros H1 H2 [A1 A2 A3]. split; [|done|done]. intros off Ho. apply A1. lia. Qed.

(** ** One write *)

Section writing.
Context (present : Z -> Prop) (keep : Z).
Abbreviation wr := (rg present (agree writer_cell) (keeps keep)).

Definition piece_off (x : piece) : Z := x.1.1.

(** The piece is inside of what is written. *)
Definition inside (lo hi : Z) (x : piece) : Prop := lo <= x.1.1 /\ 0 < x.1.2 /\ x.1.1 + x.1.2 <= hi.

Lemma merge_inside lo hi x old : inside lo hi x -> merge (lo - x.1.1) (hi - x.1.1) x.1.2 x.2 old = x.2.
Proof. intros (H1 & H2 & H3). unfold merge. by rewrite !(proj2 (Z.leb_le _ _)) by lia. Qed.

Lemma covered_inside lo hi l : Forall (inside lo hi) l -> filter (fun x => covered lo hi x = true) l = l.
Proof.
  induction 1 as [|[[off len] v] l (H1 & H2 & H3) Hl IH]; [done|]. cbn in H1, H2, H3. rewrite filter_cons_True; [by rewrite IH|].
  cbn. apply andb_true_iff. rewrite !Z.ltb_lt. lia.
Qed.

Lemma load_pieces_rg l m (Q : list Z -> mem -> Prop) :
  (forall olds m', length olds = length l -> agree writer_cell m m' -> Q olds m') -> wr (load_pieces l) Q m.
Proof.
  revert Q. induction l as [|[[off len] v] l IH]; intros Q HQ; cbn [load_pieces].
  - apply rg_done. intros m' Hm. by apply HQ.
  - apply load_beside; [done|]. rg_bind. apply IH. intros olds m1 Hl H1. apply rg_done. intros m2 H2.
    apply HQ; [cbn; lia|by transitivity m1].
Qed.

Lemma tear_pieces_rg lo hi l m (Q : unit -> mem -> Prop) :
  keep <= lo -> Forall (inside lo hi) l -> (forall m', log_write lo hi m m' -> Q () m') -> wr (tear_pieces l) Q m.
Proof.
  intros Hk Hl. revert m. induction Hl as [|[[off len] v] l (H1 & H2 & H3) Hl IH]; intros m HQ; cbn [tear_pieces].
  - apply rg_done. intros m' Hm. by apply HQ, agree_log_write.
  - cbn in *. intros torn. change (wr (store (LogAt off) torn ≫= fun _ => tear_pieces l) Q m). apply store_beside; [intros m1 _; apply keeps_log; lia|]. apply IH.
    intros m' Hm. apply HQ. etransitivity; [|exact Hm]. apply log_write_at. lia.
Qed.

Lemma store_pieces_rg lo hi l olds m (Q : unit -> mem -> Prop) :
  keep <= lo -> Forall (inside lo hi) l -> NoDup (piece_off <$> l) -> length olds = length l ->
  (forall m', log_write lo hi m m' -> (forall off, off ∉ piece_off <$> l -> rd m' (LogAt off) = rd m (LogAt off)) ->
     (forall x, x ∈ l -> rd m' (LogAt (piece_off x)) = x.2) -> Q () m') ->
  wr (store_pieces lo hi l olds) Q m.
Proof.
  intros Hk Hl. revert olds m. induction Hl as [|[[off len] v] l Hx Hl IH]; intros [|old olds] m Hnd Hlen HQ; cbn [store_pieces]; try done.
  - apply rg_done. intros m' Hm. apply HQ; [by apply agree_log_write|intros off _; by apply Hm|by intros x ?%not_elem_of_nil].
  - cbn [fmap list_fmap] in Hnd. apply NoDup_cons in Hnd as [Hn Hnd]. pose proof Hx as (H1 & H2 & H3). cbn in H1, H2, H3.
    pose proof (merge_inside lo hi (off, len, v) old Hx) as Em. cbn [fst snd] in Em. rewrite Em.
    apply store_beside; [intros m1 _; apply keeps_log; lia|]. apply IH; [done|cbn in Hlen; lia|].
    intros m' Hm Hout Hin. apply HQ.
    + etransitivity; [|exact Hm]. apply log_write_at. lia.
    + intros off' Ho. rewrite fmap_cons, not_elem_of_cons in Ho. destruct Ho as [Ho1 Ho2]. rewrite Hout by done. rewrite rd_insert.
      rewrite decide_False; [done|]. intros [= E]. by apply Ho1.
    + intros x [->|Hx']%elem_of_cons; [|by apply Hin]. cbn. rewrite Hout by done. rewrite rd_insert. by rewrite decide_True.
Qed.

Lemma grow_log_rg lo hi e m (Q : unit -> mem -> Prop) :
  (forall m', log_write lo hi m m' -> e <= rd m' LogSize -> (forall off, rd m' (LogAt off) = rd m (LogAt off)) -> Q () m') ->
  wr (grow_log e) Q m.
Proof.
  intros HQ. unfold grow_log. apply load_beside; [done|]. unfold store. intros m1 Hm1. split.
  { apply keeps_size. rewrite (Hm1 LogSize I). lia. }
  apply rg_done. intros m2 Hm2. apply HQ.
  - transitivity m1; [by apply agree_log_write|]. etransitivity; [apply (log_write_grow lo hi (Z.max (rd m LogSize) e))|by apply agree_log_write].
    rewrite (Hm1 LogSize I). lia.
  - rewrite (Hm2 LogSize I), rd_insert, decide_True by done. lia.
  - intros off. rewrite (Hm2 (LogAt off) I), rd_insert, decide_False by done. by apply Hm1.
Qed.

Lemma os_write_log_rg lo hi l m (Q : Z -> mem -> Prop) :
  keep <= lo -> Forall (inside lo hi) l -> NoDup (piece_off <$> l) ->
  (forall rc m', log_write lo hi m m' ->
     (rc = SQLITE_OK -> hi <= rd m' LogSize /\ forall x, x ∈ l -> rd m' (LogAt (piece_off x)) = x.2) -> Q rc m') ->
  wr (os_write_log l lo hi) Q m.
Proof.
  intros Hk Hl Hnd HQ. unfold os_write_log. rewrite covered_inside by done. rg_bind. apply load_pieces_rg. intros olds m1 Hlen Hm1.
  rg_bind. apply (tear_pieces_rg lo hi); [done|done|]. intros m2 Hm2 part. rg_bind. apply (grow_log_rg lo hi). intros m3 Hm3 _ _ rc.
  assert (H3 : log_write lo hi m m3) by (transitivity m2; [transitivity m1; [by apply agree_log_write|done]|done]).
  destruct (rc =? SQLITE_OK) eqn:Erc; bool_to_prop.
  2: { apply rg_done. intros m4 Hm4. apply HQ; [transitivity m3; [done|by apply agree_log_write]|done]. }
  rg_bind. rg_bind. apply (store_pieces_rg lo hi); try done. intros m4 Hm4 _ Hin. apply (grow_log_rg lo hi). intros m5 Hm5 Hsz Hsame.
  apply rg_done. intros m6 Hm6. apply HQ.
  - transitivity m3; [done|]. transitivity m4; [done|]. transitivity m5; [done|by apply agree_log_write].
  - intros _. split; [by rewrite (Hm6 LogSize I)|]. intros x Hx. rewrite (Hm6 (LogAt _) I), Hsame. by apply Hin.
Qed.
End writing.

(** ** One frame *)

Section frames.
Context (present : Z -> Prop) (keep : Z) (fmt : log_format).
Abbreviation wr := (rg present (agree writer_cell) (keeps keep)).
Abbreviation sz := (lf_szPage fmt).
Hypothesis Hsz : good_size (lf_szPage fmt) = true.

Definition in_u2 (c : Z * Z) : Prop := in_u 32 c.1 /\ in_u 32 c.2.

(** The checksum with a frame added. *)
Definition next_sum (c : Z * Z) (pgno nTruncate data : Z) : Z * Z :=
  checksum (lf_bigEnd fmt) (page_words sz data) (checksum (lf_bigEnd fmt) [BYTESWAP32 pgno; BYTESWAP32 nTruncate] c).

Lemma next_sum_range c pgno t data : in_u2 c -> in_u2 (next_sum c pgno t data).
Proof. intros [H1 H2]. destruct (checksum_range (lf_bigEnd fmt) [BYTESWAP32 pgno; BYTESWAP32 t] c H1 H2). by apply checksum_range. Qed.

Lemma walEncodeFrame_spec w pgno t data :
  knows fmt w -> iReCksum w = 0 ->
  let c := next_sum (aFrameCksum (hdr w)) pgno t data in
  walEncodeFrame w pgno t data = Some (with_cksum w c,
    [BYTESWAP32 pgno; BYTESWAP32 t; (lf_salt fmt).1; (lf_salt fmt).2; BYTESWAP32 c.1; BYTESWAP32 c.2]).
Proof.
  intros Hk Hre c. unfold walEncodeFrame. rewrite Hre, Z.eqb_refl, (kn_size _ _ Hk), (frame_cksum_spec fmt) by done.
  cbn [mbind option_bind]. by rewrite (kn_salt _ _ Hk).
Qed.

(** Frame [i] as [walEncodeFrame] wrote it. *)
Record frame_written (m : mem) (i pgno t data : Z) (c : Z * Z) : Prop := {
  fw_pgno : log_word m (frame_off fmt i) = BYTESWAP32 pgno;
  fw_size : log_word m (frame_off fmt i + 4) = BYTESWAP32 t;
  fw_salt : lf_salt fmt = (log_word m (frame_off fmt i + 8), log_word m (frame_off fmt i + 12));
  fw_cksum : log_be m (frame_off fmt i + 16) = (next_sum c pgno t data).1 /\ log_be m (frame_off fmt i + 20) = (next_sum c pgno t data).2;
  fw_data : log_word m (frame_off fmt i + 24) = data;
  fw_fits : frame_off fmt i + WAL_FRAME_HDRSIZE + sz <= rd m LogSize }.

(** Encoding and decoding: the frame is valid. *)
Lemma frame_written_at m i pgno t data c :
  in_u 32 pgno -> pgno <> 0 -> in_u 32 t -> frame_written m i pgno t data c ->
  frame_at fmt m i c = Some (pgno, t, next_sum c pgno t data).
Proof.
  intros Hp Hp0 Ht [F1 F2 F3 [F4 F5] F6 F7]. unfold frame_at.
  assert (Es : frame_sum fmt m i c = next_sum c pgno t data) by (unfold frame_sum, next_sum; by rewrite F1, F2, F6).
  rewrite Es, F4, F5. unfold log_be. rewrite F1, F2, !BYTESWAP32_twice by done.
  rewrite (proj2 (Z.leb_le _ _)) by done. rewrite bool_decide_eq_true_2 by done. rewrite (proj2 (Z.eqb_neq _ _)) by done.
  by rewrite bool_decide_eq_true_2 by (by destruct (next_sum c pgno t data)).
Qed.

Lemma frame_off_ge i : 1 <= i -> WAL_HDRSIZE <= frame_off fmt i.
Proof.
  intros Hi. unfold frame_off, walFrameOffset, WAL_FRAME_HDRSIZE. pose proof (good_size_multiple _ Hsz). nia.
Qed.

Lemma walWriteToLog_0 syncFlags content iAmt iOffset :
  0 <= iOffset -> walWriteToLog 0 syncFlags content iAmt iOffset = os_write_log content iOffset (iOffset + iAmt).
Proof. intros H. unfold walWriteToLog. by rewrite (proj2 (Z.ltb_ge _ _)) by done. Qed.

Lemma word_pieces_6 off a b c d e f :
  word_pieces off [a; b; c; d; e; f] =
    [(off, 4, a); (off + 4, 4, b); (off + 8, 4, c); (off + 12, 4, d); (off + 16, 4, e); (off + 20, 4, f)].
Proof. unfold word_pieces. cbn. repeat f_equal; lia. Qed.

Lemma log_other lo hi m m' off : log_write lo hi m m' -> off < lo \/ hi <= off -> log_word m' off = log_word m off.
Proof. intros H Ho. apply (lw_out _ _ _ _ H). lia. Qed.

Lemma walWriteOneFrame_rg w syncFlags i pgno t data m (Q : Wal * Z -> mem -> Prop) :
  knows fmt w -> iReCksum w = 0 -> in_u2 (aFrameCksum (hdr w)) -> 1 <= i -> keep <= frame_off fmt i ->
  (forall rc m', log_write (frame_off fmt i) (frame_off fmt (i + 1)) m m' ->
     (rc = SQLITE_OK -> frame_written m' i pgno t data (aFrameCksum (hdr w))) ->
     Q (with_cksum w (next_sum (aFrameCksum (hdr w)) pgno t data), rc) m') ->
  wr (walWriteOneFrame w 0 syncFlags sz pgno data t (frame_off fmt i)) Q m.
Proof.
  intros Hk Hre Hu Hi Hkeep HQ. pose proof (frame_off_ge i Hi) as Hoff. unfold WAL_HDRSIZE in Hoff.
  pose proof (good_size_multiple _ Hsz) as [_ Hr]. pose proof (frame_off_next fmt i) as Hnext.
  unfold walWriteOneFrame. rewrite walEncodeFrame_spec by done. set (c := next_sum _ _ _ _) in *. set (off := frame_off fmt i) in *.
  rewrite !walWriteToLog_0 by (unfold WAL_FRAME_HDRSIZE; lia). rewrite word_pieces_6. unfold WAL_FRAME_HDRSIZE in *. rg_bind.
  match goal with |- rg _ _ _ (os_write_log ?l ?lo ?hi) _ _ => assert (Hins : Forall (inside lo hi) l) by (repeat constructor; cbn; lia) end.
  apply os_write_log_rg; [done|done| |].
  { unfold piece_off. cbn. apply NoDup_ListNoDup. repeat constructor; cbn; intuition lia. }
  intros rc m1 Hm1 Hok. destruct (negb (rc =? SQLITE_OK)) eqn:Erc; bool_to_prop.
  { apply rg_done. intros m2 Hm2. apply HQ; [|done]. transitivity m1; [|by apply agree_log_write].
    apply (log_write_sub off (off + 24)); [lia|lia|done]. }
  destruct (Hok Erc) as [_ Hin]. rg_bind. apply os_write_log_rg; [lia| | |].
  { repeat constructor; cbn; lia. }
  { unfold piece_off. cbn. apply NoDup_ListNoDup. repeat constructor; cbn; intuition lia. }
  intros rc2 m2 Hm2 Hok2. apply rg_done. intros m3 Hm3. apply HQ.
  - transitivity m1; [apply (log_write_sub off (off + 24)); [lia|lia|done]|]. transitivity m2; [|by apply agree_log_write].
    apply (log_write_sub (off + 24) (off + 24 + sz)); [lia|lia|done].
  - intros Erc2. destruct (Hok2 Erc2) as [Hfit Hdata].
    assert (Hw : Forall (fun x : piece => log_word m3 x.1.1 = x.2) (word_pieces off
      [BYTESWAP32 pgno; BYTESWAP32 t; (lf_salt fmt).1; (lf_salt fmt).2; BYTESWAP32 c.1; BYTESWAP32 c.2])).
    { rewrite word_pieces_6. apply Forall_forall. intros x Hx. transitivity (log_word m2 x.1.1); [by apply Hm3|].
      rewrite Forall_forall in Hins. destruct (Hins x Hx) as (_ & Hx1 & Hx2).
      rewrite (log_other _ _ _ _ _ Hm2) by lia. by apply Hin. }
    rewrite word_pieces_6, !Forall_cons in Hw. cbn [fst snd] in Hw. destruct Hw as (W0 & W1 & W2 & W3 & W4 & W5 & _).
    pose proof (next_sum_range (aFrameCksum (hdr w)) pgno t data Hu) as [Hc1 Hc2]. fold c in Hc1, Hc2.
    split; fold off.
    + done.
    + done.
    + rewrite W2, W3. by destruct (lf_salt fmt).
    + unfold log_be. fold c. rewrite W4, W5. by rewrite !BYTESWAP32_twice by done.
    + transitivity (log_word m2 (off + 24)); [by apply Hm3|]. apply (Hdata (off + 24, sz, data)). by apply list_elem_of_singleton.
    + rewrite (Hm3 LogSize I). unfold WAL_FRAME_HDRSIZE. lia.
Qed.

(** ** The loop over the pages *)

(** The frames of a transaction: the last one is the commit. *)
Fixpoint new_frames (pages : list (Z * Z)) (nTruncate : Z) : list (Z * Z) :=
  match pages with
  | [] => []
  | (pgno, _) :: pages => (pgno, if pages is [] then nTruncate else 0) :: new_frames pages nTruncate
  end.

Lemma new_frames_length pages t : length (new_frames pages t) = length pages.
Proof. induction pages as [|[p d] pages IH]; cbn; [done|by rewrite IH]. Qed.

Lemma with_cksum_twice w c c' : with_cksum (with_cksum w c) c' = with_cksum w c'.
Proof. done. Qed.

Lemma with_cksum_same w : with_cksum w (aFrameCksum (hdr w)) = w.
Proof. by destruct w as [????????[]]. Qed.

Lemma knows_cksum w c : knows fmt w -> knows fmt (with_cksum w c).
Proof. intros [K1 K2 K3]. by split. Qed.

(** Writes behind the frames leave them valid. *)
Lemma valid_log_write m m' l c hi :
  valid_log fmt m l c -> log_write (frame_off fmt (Z.of_nat (length l) + 1)) hi m m' -> valid_log fmt m' l c.
Proof.
  intros Hv [A1 A2 A3]. pose proof (good_size_multiple _ Hsz) as [_ Hr].
  destruct (decide (l = [])) as [->|Hl]; [inversion Hv as [E|l2 ? ? ? ? ? ? E]; [constructor|by destruct l2]|].
  apply (valid_log_ext fmt m); [lia|done| |].
  - pose proof (valid_log_fits _ _ _ _ Hv Hl). lia.
  - intros off Hoff. apply A1. lia.
Qed.

Definition page_ok (x : Z * Z) : Prop := in_u 32 x.1 /\ x.1 <> 0.

Lemma sqlite3WalFrames_loop_rg pages t syncFlags s m l :
  Forall page_ok pages -> in_u 32 t -> knows fmt (wr_wal s) -> iReCksum (wr_wal s) = 0 -> in_u2 (aFrameCksum (hdr (wr_wal s))) ->
  wr_rc s = SQLITE_OK -> wr_iFrame s = Z.of_nat (length l) -> wr_iOffset s = frame_off fmt (wr_iFrame s + 1) -> keep <= wr_iOffset s ->
  valid_log fmt m l (aFrameCksum (hdr (wr_wal s))) ->
  wr (sqlite3WalFrames_loop pages s sz t syncFlags 0 true)
    (fun s' m' => log_write (wr_iOffset s) (frame_off fmt (wr_iFrame s + Z.of_nat (length pages) + 1)) m m' /\
       exists c, wr_wal s' = with_cksum (wr_wal s) c /\ in_u2 c /\
         (wr_rc s' = SQLITE_OK -> valid_log fmt m' (l ++ new_frames pages t) c /\
            wr_append s' = wr_append s ++ pages.*1 /\ wr_iFrame s' = wr_iFrame s + Z.of_nat (length pages) /\
            wr_iOffset s' = frame_off fmt (wr_iFrame s' + 1))) m.
Proof.
  revert s m l. induction pages as [|[pgno data] pages IH]; intros s m l Hp Ht Hk Hre Hu Hrc Hi Ho Hkeep Hv; cbn [sqlite3WalFrames_loop].
  - apply rg_done. intros m' Hm. split; [by apply agree_log_write|]. exists (aFrameCksum (hdr (wr_wal s))).
    rewrite with_cksum_same. split; [done|]. split; [done|]. intros _. cbn [new_frames fmap list_fmap length]. rewrite !app_nil_r.
    split_and!; [|done|cbn; lia|by rewrite Ho]. apply (valid_log_write m _ l _ 0); [done|by apply agree_log_write].
  - apply Forall_cons in Hp as [[Hp1 Hp2] Hps]. cbn [fst] in Hp1, Hp2. change (negb (0 =? 0) && _) with false. rg_bind. apply rg_done.
    intros m1 Hm1. change ((0 <=? -1) && (0 <=? -1)) with false. cbn iota.
    change (walFrameOffset ?i sz) with (frame_off fmt i). apply rg_insist; [by apply Z.eqb_eq|]. cbv zeta.
    set (t' := if true && match pages with [] => true | _ => false end then t else 0).
    assert (Et : in_u 32 t') by (unfold t'; by destruct pages).
    rg_bind. rewrite Ho. apply walWriteOneFrame_rg; [done|done|done|lia|by rewrite <- Ho|]. intros rc m2 Hm2 Hfw.
    assert (Hm2' : log_write (wr_iOffset s) (frame_off fmt (wr_iFrame s + 1 + 1)) m m2).
    { rewrite Ho. transitivity m1; [by apply agree_log_write|done]. }
    pose proof (good_size_multiple _ Hsz) as [_ Hr]. set (c := next_sum (aFrameCksum (hdr (wr_wal s))) pgno t' data) in *.
    assert (Hle : frame_off fmt (wr_iFrame s + 1 + 1) <= frame_off fmt (wr_iFrame s + Z.of_nat (length ((pgno, data) :: pages)) + 1)).
    { unfold frame_off, walFrameOffset, WAL_FRAME_HDRSIZE. cbn [length]. nia. }
    pose proof (next_sum_range (aFrameCksum (hdr (wr_wal s))) pgno t' data Hu) as Hu'. fold c in Hu'.
    destruct (negb (rc =? SQLITE_OK)) eqn:Erc; bool_to_prop.
    { apply rg_done. intros m3 Hm3. cbn [wr_rc wr_wal]. split.
      - transitivity m2; [|by apply agree_log_write]. apply (log_write_sub (wr_iOffset s) (frame_off fmt (wr_iFrame s + 1 + 1))); [lia|lia|done].
      - exists c. split; [done|]. by split. }
    assert (Hv1 : valid_log fmt m2 l (aFrameCksum (hdr (wr_wal s)))).
    { apply (valid_log_write m _ l _ (frame_off fmt (wr_iFrame s + 1 + 1))); [done|]. by rewrite <- Hi, <- Ho. }
    assert (Hv2 : valid_log fmt m2 (l ++ [(pgno, t')]) c).
    { econstructor; [done|]. rewrite <- Hi. by apply frame_written_at, Hfw. }
    assert (Hlen : Z.of_nat (length (l ++ [(pgno, t')])) = wr_iFrame s + 1) by (rewrite length_app; cbn; lia).
    eapply rg_mono; [|apply (IH _ m2 (l ++ [(pgno, t')])); cbn [wr_wal wr_rc wr_iFrame wr_iOffset]; try done].
    + cbn [wr_wal wr_rc wr_iFrame wr_iOffset wr_append]. intros s' m3 (B1 & c' & B2 & B3 & B4). split.
      { transitivity m2; [apply (log_write_sub (wr_iOffset s) (frame_off fmt (wr_iFrame s + 1 + 1))); [lia|lia|done]|].
        apply (log_write_sub (wr_iOffset s + (sz + WAL_FRAME_HDRSIZE)) (frame_off fmt (wr_iFrame s + 1 + Z.of_nat (length pages) + 1)));
          [unfold WAL_FRAME_HDRSIZE; lia|cbn [length]; replace (wr_iFrame s + Z.of_nat (S (length pages)) + 1) with (wr_iFrame s + 1 + Z.of_nat (length pages) + 1) by lia; lia|].
        by rewrite Ho. }
      exists c'. split; [by rewrite B2|]. split; [done|]. intros E. destruct (B4 E) as (B5 & B6 & B7 & B8). split_and!.
      * cbn [new_frames]. rewrite cons_middle, app_assoc. unfold t' in B5. by destruct pages.
      * rewrite B6. cbn [fmap list_fmap fst]. by rewrite <- app_assoc.
      * rewrite B7. cbn [length]. lia.
      * done.
    + by apply knows_cksum.
    + rewrite (frame_off_next fmt (wr_iFrame s + 1)). lia.
    + rewrite Ho in Hkeep. unfold WAL_FRAME_HDRSIZE. lia.
Qed.
End frames.

(** ** The header of the log *)

Lemma good_size_s32 s : good_size s = true -> wrap_s 32 (BYTESWAP32 (BYTESWAP32 s)) = s.
Proof.
  intros Hs. apply good_size_multiple in Hs as [_ Hs]. rewrite BYTESWAP32_twice by (unfold in_u; lia).
  apply wrap_s_id; [lia|]. unfold in_s. lia.
Qed.

Definition in_u2_zero : in_u2 (0, 0) := conj (conj (Z.le_refl 0) eq_refl) (conj (Z.le_refl 0) eq_refl).

Lemma checksum_u2 bigEnd ws c : in_u2 c -> in_u2 (checksum bigEnd ws c).
Proof. intros [H1 H2]. by apply checksum_range. Qed.

Lemma log_header_at_range m fmt : log_header_at m = Some fmt -> in_u2 (lf_cksum fmt).
Proof. unfold log_header_at. case_bool; [|done]. intros [= <-]. cbn [lf_cksum]. apply checksum_u2, in_u2_zero. Qed.

Lemma valid_log_range fmt m l c : in_u2 (lf_cksum fmt) -> valid_log fmt m l c -> in_u2 c.
Proof.
  intros H0. induction 1 as [|l c p t c1 Hv IH Hf]; [done|]. revert Hf. unfold frame_at. case_bool; [|done]. intros [= _ _ <-].
  by apply checksum_u2, checksum_u2.
Qed.

Lemma word_pieces_8 off a b c d e f g h :
  word_pieces off [a; b; c; d; e; f; g; h] =
    [(off, 4, a); (off + 4, 4, b); (off + 8, 4, c); (off + 12, 4, d); (off + 16, 4, e); (off + 20, 4, f); (off + 24, 4, g); (off + 28, 4, h)].
Proof. unfold word_pieces. cbn. repeat f_equal; lia. Qed.

(** The connection after the header was written: the format of the new log. *)
Record started (w : Wal) (szPage : Z) (fmt : log_format) (w' : Wal) : Prop := {
  st_knows : knows fmt w';
  st_size : lf_szPage fmt = szPage;
  st_cksum : aFrameCksum (hdr w') = lf_cksum fmt;
  st_conn : same_conn w w';
  st_re : iReCksum w' = iReCksum w;
  st_pad : padToSectorBoundary w' = padToSectorBoundary w;
  st_mx : mxFrame (hdr w') = mxFrame (hdr w) }.

Lemma sqlite3WalFrames_header_rg present keep w szPage m (Q : Wal * Z -> mem -> Prop) :
  keep <= 0 -> good_size szPage = true ->
  (forall w' rc m', log_write 0 WAL_HDRSIZE m m' -> (rc = SQLITE_OK -> exists fmt, started w szPage fmt w' /\ log_header_at m' = Some fmt /\
     WAL_HDRSIZE <= rd m' LogSize) -> Q (w', rc) m') ->
  rg present (agree writer_cell) (keeps keep) (sqlite3WalFrames_header w szPage) Q m.
Proof.
  intros Hkeep Hsz HQ. unfold sqlite3WalFrames_header. intros r0 r1. set (salt := if nCkpt w =? 0 then _ else _).
  set (ws := [BYTESWAP32 (Z.lor WAL_MAGIC SQLITE_BIGENDIAN); BYTESWAP32 WAL_MAX_VERSION; BYTESWAP32 szPage; BYTESWAP32 (nCkpt w); salt.1; salt.2]).
  pose proof (checksum_header 0) as Ec. change (0 =? SQLITE_BIGENDIAN) with true in Ec. unfold ws at 1. rewrite Ec. clear Ec. fold ws.
  set (c := checksum 0 ws (0, 0)). assert (Hc : in_u2 c) by apply checksum_u2, in_u2_zero.
  match goal with |- context [mkWal ?a ?b ?c ?d ?e ?f ?g ?h ?i ?j ?k ?l ?m ?n ?o ?p ?q] => set (w1 := mkWal a b c d e f g h i j k l m n o p q) end.
  set (fmt := mkFormat 0 szPage (BYTESWAP32 (BYTESWAP32 (nCkpt w))) salt c).
  assert (Hst : started w szPage fmt w1) by (by split). unfold ws at 1. cbn [app]. rewrite word_pieces_8. rg_bind.
  match goal with |- rg _ _ _ (os_write_log ?l ?lo ?hi) _ _ =>
    assert (Hins : Forall (inside lo hi) l) by (unfold WAL_HDRSIZE; repeat constructor; cbn; lia) end.
  apply os_write_log_rg; [done|done| |].
  { unfold piece_off. cbn. apply NoDup_ListNoDup. repeat constructor; cbn; intuition lia. }
  intros rc m1 Hm1 Hok. destruct (negb (rc =? SQLITE_OK)) eqn:Erc; bool_to_prop.
  { apply rg_done. intros m2 Hm2. apply HQ; [|done]. transitivity m1; [done|by apply agree_log_write]. }
  destruct (Hok Erc) as [Hfit Hin]. clear Hok.
  assert (Hh : log_header_at m1 = Some fmt).
  { assert (Hw : Forall (fun x : piece => log_word m1 x.1.1 = x.2) (word_pieces 0 (ws ++ [BYTESWAP32 c.1; BYTESWAP32 c.2]))).
    { unfold ws. cbn [app]. rewrite word_pieces_8. apply Forall_forall. intros x Hx. by apply Hin. }
    unfold ws in Hw. cbn [app] in Hw. rewrite word_pieces_8, !Forall_cons in Hw. cbn [fst snd] in Hw.
    destruct Hw as (W0 & W1 & W2 & W3 & W4 & W5 & W6 & W7 & _). rewrite !Z.add_0_l in *.
    unfold log_header_at, log_be. rewrite W0, W1, W2, W3, W4, W5, W6, W7.
    rewrite (BYTESWAP32_twice (Z.lor _ _)), (BYTESWAP32_twice WAL_MAX_VERSION), good_size_s32 by (done || by split).
    destruct Hc as [Hc1 Hc2]. rewrite (BYTESWAP32_twice c.1), (BYTESWAP32_twice c.2) by done.
    change (Z.land (Z.lor WAL_MAGIC SQLITE_BIGENDIAN) 1) with 0. fold ws. fold c.
    change (Z.land (Z.lor WAL_MAGIC SQLITE_BIGENDIAN) 0xFFFFFFFE =? WAL_MAGIC) with true.
    pose proof Hsz as Hsz'. unfold good_size in Hsz'. bool_to_prop.
    rewrite (wrap_s_id 32 (szPage - 1)) by (try lia; unfold in_s; cbn; lia). change SQLITE_MAX_PAGE_SIZE with 65536.
    rewrite (proj2 (Z.eqb_eq (Z.land szPage (szPage - 1)) 0)), !(proj2 (Z.leb_le _ _)), Z.eqb_refl by done.
    rewrite bool_decide_eq_true_2 by (by destruct c). cbn [andb]. unfold fmt. by destruct salt. }
  clearbody fmt. clear Hin Hins. case_bool.
  - rg_bind. apply os_call_beside. intros rc2 m2 Hm2. apply rg_done. intros m3 Hm3. assert (Hm13 : agree writer_cell m1 m3) by (by transitivity m2).
    apply HQ; [transitivity m1; [done|by apply agree_log_write]|]. intros _. exists fmt. split; [done|]. split; [|by rewrite (Hm13 LogSize I)].
    rewrite <- Hh. unfold log_header_at, log_be, log_word. by rewrite !(fun off => Hm13 (LogAt off) I).
  - apply rg_done. intros m3 Hm13.
    apply HQ; [transitivity m1; [done|by apply agree_log_write]|]. intros _. exists fmt. split; [done|]. split; [|by rewrite (Hm13 LogSize I)].
    rewrite <- Hh. unfold log_header_at, log_be, log_word. by rewrite !(fun off => Hm13 (LogAt off) I).
Qed.

(** ** The rest of the log *)

(** A change behind the first [keep] bytes of the log, which may get shorter. *)
Record kept (keep : Z) (m m' : mem) : Prop := {
  kt_keeps : keeps keep m m';
  kt_other c : writer_cell c -> match c with LogAt _ | LogSize => False | _ => True end -> rd m' c = rd m c }.

#[export] Instance kept_preorder keep : PreOrder (kept keep).
Proof.
  split; [by split|]. intros m1 m2 m3 [A1 A2] [B1 B2]. split; [by transitivity m2|]. intros c Hc Hn. by rewrite B2, A2.
Qed.

Lemma agree_kept keep m m' : agree writer_cell m m' -> kept keep m m'.
Proof. intros H. split; [split; [intros off _; by apply H|by rewrite (H LogSize I)]|intros c Hc _; by apply H]. Qed.

Lemma log_write_kept keep lo hi m m' : keep <= lo -> log_write lo hi m m' -> kept keep m m'.
Proof. intros Hk [A1 A2 A3]. split; [split; [intros off Ho; apply A1; lia|lia]|done]. Qed.

Lemma log_truncated_kept nMax m keep : 0 <= nMax -> nMax <= rd m LogSize -> keep <= nMax -> kept keep m (log_truncated nMax m).
Proof.
  intros H0 Hs Hk. assert (Hf : forall c, c <> LogSize -> match c with LogAt off => off < nMax | _ => True end -> rd (log_truncated nMax m) c = rd m c).
  { intros c Hc Hm. unfold log_truncated. rewrite rd_insert, decide_False by congruence. unfold rd. f_equal. apply option_eq. intros v.
    rewrite map_lookup_filter_Some. split; [by intros [? _]|]. intros E. split; [done|]. cbn. destruct c; try done. by apply Z.ltb_lt. }
  split; [split|].
  - intros off Ho. apply Hf; [done|lia].
  - intros _. unfold log_truncated. rewrite rd_insert, decide_True by done. lia.
  - intros c Hc Hn. apply Hf; [by intros ->|by destruct c].
Qed.

Lemma walLimitSize_rg present keep w nMax m (Q : unit -> mem -> Prop) :
  0 <= keep <= nMax -> (forall m', (forall keep', keep' <= nMax -> kept keep' m m') -> Q () m') -> rg present (agree writer_cell) (keeps keep) (walLimitSize w nMax) Q m.
Proof.
  intros Hk HQ. unfold walLimitSize. rg_bind. apply os_log_size_beside; [done|]. intros rx sz m1 Hm1 Hsz.
  destruct ((rx =? SQLITE_OK) && (nMax <? sz)) eqn:E; bool_to_prop.
  2: { apply rg_done. intros m2 Hm2. apply HQ. intros k' _. apply agree_kept. by transitivity m1. }
  match goal with H : rx = SQLITE_OK |- _ => specialize (Hsz H) end. unfold os_truncate_log. rg_bind. intros rc. case_bool.
  2: { apply rg_done. intros m2 Hm2. apply rg_done. intros m3 Hm3. apply HQ. intros k' _. apply agree_kept. by transitivity m2; [transitivity m1|]. }
  rg_bind. intros m2 Hm2. assert (H02 : agree writer_cell m m2) by (by transitivity m1).
  assert (Hs2 : nMax <= rd m2 LogSize) by (rewrite (H02 LogSize I); lia). pose proof (fun k => log_truncated_kept nMax m2 k ltac:(lia) Hs2) as Ht.
  cbn beta iota. split; [apply (Ht keep); lia|].
  apply rg_done. intros m3 Hm3. apply rg_done. intros m4 Hm4. apply rg_done. intros m5 Hm5. apply HQ. intros k' Hk'. transitivity m2; [by apply agree_kept|].
  transitivity (log_truncated nMax m2); [by apply Ht|]. transitivity m3; [by apply agree_kept|]. transitivity m4; by apply agree_kept.
Qed.

(** ** The log of a transaction *)

Section transaction.
Context (present : Z -> Prop) (keep : Z) (fmt : log_format).
Abbreviation wr := (rg present (agree writer_cell) (keeps keep)).
Abbreviation sz := (lf_szPage fmt).
Hypothesis Hsz : good_size (lf_szPage fmt) = true.

(** What a transaction changes in the connection until the index is written. *)
Record logged (w w' : Wal) (c : Z * Z) : Prop := {
  lg_hdr : hdr w' = set_aFrameCksum (hdr w) c;
  lg_knows : knows fmt w -> knows fmt w';
  lg_conn : same_conn w w';
  lg_re : iReCksum w' = iReCksum w }.

Lemma logged_cksum w c : logged w (with_cksum w c) c.
Proof. split; [done|apply knows_cksum|by split|done]. Qed.

Lemma logged_truncate w w' c b : logged w w' c -> logged w (set_truncateOnCommit w' b) c.
Proof.
  intros [L1 L2 [C1 C2 C3 C4] L4]. split; [done| |by split|done]. intros Hk. destruct (L2 Hk) as [K1 K2 K3]. by split.
Qed.

Lemma valid_log_keeps m m' l c :
  keeps (frame_off fmt (Z.of_nat (length l) + 1)) m m' -> valid_log fmt m l c -> valid_log fmt m' l c.
Proof.
  intros [A1 A2] Hv. pose proof (good_size_multiple _ Hsz) as [_ Hr].
  destruct (decide (l = [])) as [->|Hl]; [inversion Hv as [E|l2 ? ? ? ? ? ? E]; [constructor|by destruct l2]|].
  apply (valid_log_ext fmt m); [lia|done|by apply A2, valid_log_fits with (c := c)|]. intros off Hoff. apply A1. lia.
Qed.

(** Without padding, the end of the log is synced, or nothing is. *)
Lemma sqlite3WalFrames_sync_rg w last syncFlags t iOffset m (Q : Wal * Z * Z * bool -> mem -> Prop) :
  padToSectorBoundary w = false -> (forall rc m', agree writer_cell m m' -> Q (w, rc, 0, false) m') ->
  wr (sqlite3WalFrames_sync w last syncFlags sz t iOffset) Q m.
Proof.
  intros Hp HQ. unfold sqlite3WalFrames_sync. rewrite Hp. rg_bind. apply os_call_beside. intros rc m1 Hm1. apply rg_done. intros m2 Hm2.
  apply HQ. by transitivity m1.
Qed.

Lemma sqlite3WalFrames_write_rg w pages t syncFlags m l (Q : Wal * Z * list Z -> mem -> Prop) :
  Forall page_ok pages -> pages <> [] -> in_u 32 t -> knows fmt w -> iReCksum w = 0 -> in_u2 (aFrameCksum (hdr w)) ->
  WAL_SYNC_FLAGS syncFlags = 0 \/ padToSectorBoundary w = false ->
  mxFrame (hdr w) = Z.of_nat (length l) -> 0 <= keep <= frame_off fmt (Z.of_nat (length l) + 1) ->
  valid_log fmt m l (aFrameCksum (hdr w)) ->
  (forall w' rc pgs m', kept (frame_off fmt (Z.of_nat (length l) + 1)) m m' ->
     (rc = SQLITE_OK -> exists c, logged w w' c /\ in_u2 c /\ pgs = pages.*1 /\ valid_log fmt m' (l ++ new_frames pages t) c) ->
     Q (w', rc, pgs) m') ->
  wr (sqlite3WalFrames_write w sz pages t true syncFlags 0) Q m.
Proof.
  intros Hp Hne Ht Hk Hre Hu Hpad Hmx Hkeep Hv HQ. pose proof (good_size_multiple _ Hsz) as [_ Hr].
  unfold sqlite3WalFrames_write. rg_bind. set (s0 := mkWriting w SQLITE_OK (mxFrame (hdr w)) (walFrameOffset (mxFrame (hdr w) + 1) sz) None []).
  refine (rg_mono present _ _ _ _ _ m _ (sqlite3WalFrames_loop_rg present keep fmt Hsz pages t syncFlags s0 m l
    Hp Ht Hk Hre Hu eq_refl Hmx _ _ Hv)); cbn [s0 wr_wal wr_rc wr_iFrame wr_iOffset wr_last wr_append]; [|done|rewrite Hmx; apply Hkeep].
  intros s m1 (Hm1 & c & Ew & Hc & Hok). rewrite Ew. clear Ew. change (walFrameOffset ?i sz) with (frame_off fmt i) in Hm1. rewrite Hmx in Hm1, Hok.
  apply log_write_kept with (keep := frame_off fmt (Z.of_nat (length l) + 1)) in Hm1; [|done].
  destruct (negb (wr_rc s =? SQLITE_OK)) eqn:Erc; bool_to_prop.
  { apply rg_done. intros m2 Hm2. apply HQ; [|done]. transitivity m1; [done|by apply agree_kept]. }
  destruct (Hok Erc) as (Hv1 & Happ & HiF & HiO). clear Hok. rg_bind. change (iReCksum (with_cksum w c)) with (iReCksum w). rewrite Hre.
  cbn [andb negb Z.eqb]. apply rg_done. intros m2 Hm2. change (negb (SQLITE_OK =? SQLITE_OK)) with false. cbn iota. rg_bind.
  set (l' := l ++ new_frames pages t) in *. set (w1 := with_cksum w c).
  assert (Hsync : forall Q2 : Wal * Z * Z * bool -> mem -> Prop, (forall rc m3, agree writer_cell m2 m3 -> Q2 (w1, rc, 0, false) m3) ->
    wr (if true && negb (WAL_SYNC_FLAGS syncFlags =? 0) then sqlite3WalFrames_sync w1 (wr_last s) syncFlags sz t (wr_iOffset s)
        else Done (w1, SQLITE_OK, 0, false)) Q2 m2).
  { intros Q2 HQ2. destruct (WAL_SYNC_FLAGS syncFlags =? 0) eqn:Ef; cbn [negb andb].
    - apply rg_done. intros m3 Hm3. by apply HQ2.
    - bool_to_prop. destruct Hpad as [Hpad|Hpad]; [done|]. by apply sqlite3WalFrames_sync_rg. }
  apply Hsync. clear Hsync. intros rc m3 Hm3. cbn iota. rg_bind.
  assert (Hlen : Z.of_nat (length l') = Z.of_nat (length l) + Z.of_nat (length pages)) by (unfold l'; rewrite length_app, new_frames_length; lia).
  assert (Hm13 : agree writer_cell m1 m3) by (by transitivity m2). pose proof (frame_off_ge fmt Hsz) as Hge. unfold WAL_HDRSIZE in Hge.
  assert (Hmono : frame_off fmt (Z.of_nat (length l) + 1) <= frame_off fmt (Z.of_nat (length l') + 1)).
  { unfold frame_off, walFrameOffset, WAL_FRAME_HDRSIZE. nia. }
  assert (Hne' : l' <> []) by (unfold l'; destruct l, pages as [|[]]; done).
  assert (Hfit : frame_off fmt (Z.of_nat (length l') + 1) <= rd m3 LogSize).
  { rewrite (Hm13 LogSize I). by apply valid_log_fits with (c := c). }
  cbn [andb]. apply (rg_mono present _ _ _ (fun w2 m4 => kept (frame_off fmt (Z.of_nat (length l') + 1)) m3 m4 /\ logged w w2 c)).
  2: { destruct (truncateOnCommit w1 && (0 <=? mxWalSize w1)).
    - rg_bind. apply walLimitSize_rg.
      { change (walFrameOffset ?i sz) with (frame_off fmt i). rewrite HiF, Z.add_0_r, <- Hlen. case_bool; bool_to_prop; lia. }
      intros m4 Hm4. apply rg_done. intros m5 Hm5. split; [|by apply logged_truncate, logged_cksum].
      transitivity m4; [|by apply agree_kept]. revert Hm4. change (walFrameOffset ?i sz) with (frame_off fmt i). rewrite HiF, Z.add_0_r, <- Hlen.
      intros Hm4. apply Hm4. case_bool; bool_to_prop; lia.
    - apply rg_done. intros m4 Hm4. split; [by apply agree_kept|apply logged_cksum]. }
  intros w2 m4 [Hm4 Hlg]. apply rg_done. intros m5 Hm5. apply HQ.
  - transitivity m1; [done|]. transitivity m3; [by apply agree_kept|]. transitivity m4; [|by apply agree_kept].
    destruct Hm4 as [[B1 B2] B3]. split; [split; [intros off Ho; apply B1; lia|intros _; specialize (B2 Hfit); lia]|done].
  - intros _. exists c. split_and!; [done..|rewrite Happ; cbn [app Z.to_nat replicate]; destruct (wr_last s) as [[]|]; by rewrite app_nil_r|].
    apply (valid_log_keeps m1); [|done]. apply kt_keeps. transitivity m3; [by apply agree_kept|]. transitivity m4; [done|by apply agree_kept].
Qed.
End transaction.

(** ** The index and the header *)

Definition log_cell (c : cell) : Prop := match c with LogAt _ | LogSize => True | _ => False end.

Lemma keeps_log_cell keep m m' : agree log_cell m m' -> keeps keep m m'.
Proof. intros H. split; [intros off _; by apply H|by rewrite (H LogSize I)]. Qed.

Lemma writer_log m m' : agree writer_cell m m' -> agree log_cell m m'.
Proof. apply agree_sub. by intros []. Qed.

Lemma writer_table m m' : agree writer_cell m m' -> agree table_cell m m'.
Proof. apply agree_sub. intros [pg i| | | | |]; cbn; try done; lia. Qed.

(** The index is written. *)
Lemma sqlite3WalFrames_index_rg present keep w f n pages m (Q : Wal * Z * Z -> mem -> Prop) :
  0 <= n -> n + Z.of_nat (length pages) + 1 < 2 ^ 31 -> Forall (fun p => 0 < p) pages ->
  writeLock w = true -> mxFrame (hdr w) = n -> mapped w 0 = true -> writer_inv m f n n ->
  (forall w' rc k m', agree log_cell m m' -> maps_more w w' ->
     (rc = SQLITE_OK -> k = n + Z.of_nat (length pages) /\ writer_inv m' (upds f n pages) k n) -> Q (w', rc, k) m') ->
  rg present (agree writer_cell) (keeps keep) (sqlite3WalFrames_index w n pages) Q m.
Proof.
  intros Hn Hlen Hp Hwl Emx H0 HW HQ.
  apply (rg_mono present _ _ _ (fun r m' => agree log_cell m m' /\ let '(w', rc, k) := r in maps_more w w' /\
    (rc = SQLITE_OK -> k = n + Z.of_nat (length pages) /\ writer_inv m' (upds f n pages) k n))).
  { intros [[w' rc] k] m' (A1 & A2 & A3). by apply HQ. }
  apply (rg_conseq present (agree log_cell m) (agree table_cell) (agree writer_cell)
    (fun m m' => guar false n m m' /\ agree (fun c => ~ table_cell c) m m')).
  - intros m1 m2 H1 H2. split; [|by apply writer_table]. transitivity m1; [done|by apply writer_log].
  - intros m1 m2 H1 [_ H2]. assert (agree log_cell m1 m2) by (revert H2; apply agree_sub; by intros [] Hc Ht).
    split; [by transitivity m1|by apply keeps_log_cell].
  - done.
  - eapply rg_mono; [|apply (frames_index_frame present false w f n n pages m m); try done; lia]. by intros [[w1 rc] k] m1 H.
Qed.

(** What a commit leaves in the wal-index. *)
Record indexed (w : Wal) (szPage t : Z) (f : Z -> Z) (n : Z) (w' : Wal) (cb : option Z) (m' : mem) : Prop := {
  ix_sealed : sealed (set_committed (hdr w) true szPage n t) = Some (hdr w');
  ix_conn : same_conn w (set_hdr w' (hdr w));
  ix_rest : w_szPage w' = w_szPage w /\ iReCksum w' = iReCksum w;
  ix_callback : cb = Some n;
  ix_copies : has m' 0 (hdr_words (hdr w')) /\ has m' 1 (hdr_words (hdr w'));
  ix_index : writer_inv m' f n n }.

Lemma indexed_stable w szPage t f n w' cb m m' : agree writer_cell m m' -> indexed w szPage t f n w' cb m -> indexed w szPage t f n w' cb m'.
Proof.
  intros Hm [A1 A2 A3 A4 [A5 A6] A7]. split; try done.
  - split; intros j Hj; (rewrite Hm by (right; left; unfold aHdr; lia)); auto.
  - by apply (table_writer m); [apply writer_table|].
Qed.

Lemma sqlite3WalFrames_finish_rg present keep w szPage t f pages m (Q : Wal * Z * option Z -> mem -> Prop) :
  let n := mxFrame (hdr w) in
  0 <= n -> n + Z.of_nat (length pages) + 1 < 2 ^ 31 -> Forall (fun p => 0 < p) pages ->
  writeLock w = true -> mapped w 0 = true -> writer_inv m f n n ->
  (forall w' rc cb m', agree log_cell m m' ->
     (rc = SQLITE_OK -> indexed w szPage t (upds f n pages) (n + Z.of_nat (length pages)) w' cb m') -> Q (w', rc, cb) m') ->
  rg present (agree writer_cell) (keeps keep) (sqlite3WalFrames_finish w szPage t true pages) Q m.
Proof.
  intros n Hn Hlen Hp Hwl H0 HW HQ. unfold sqlite3WalFrames_finish. rg_bind. apply sqlite3WalFrames_index_rg with (f := f); try done.
  intros w1 rc k m1 Hm1 Hmaps Hok. destruct (negb (rc =? SQLITE_OK)) eqn:Erc; bool_to_prop.
  { apply rg_done. intros m2 Hm2. apply HQ; [|done]. transitivity m1; [done|by apply writer_log]. }
  destruct (Hok Erc) as [-> HW1]. destruct (maps_more_conn _ _ Hmaps) as (Hc1 & Eh1 & Es1). rg_bind. unfold walIndexWriteHdr.
  apply rg_insist; [by rewrite <- (sm_lock _ _ Hc1) in Hwl|]. cbn [hdr set_hdr]. rewrite Eh1. fold n.
  destruct (sealed_some (set_committed (hdr w) true szPage (n + Z.of_nat (length pages)) t)) as [ck Hck]. rewrite Hck. set (h := set_aCksum _ ck) in *.
  do 2 (apply store_words_beside; [intros j v m2 _; by apply keeps_other|]). apply rg_done. intros m2 Hm2. apply rg_done. intros m3 Hm3.
  set (m1' := write_words (hdr_words h) (aHdr 0) (write_words (hdr_words h) (aHdr 1) m1)) in *. assert (Hm13 : agree writer_cell m1' m3) by (by transitivity m2).
  assert (Hwlog : agree log_cell m1 m1') by (intros c Hc; unfold m1'; rewrite !rd_write_words; by destruct c).
  apply HQ; [transitivity m1; [done|]; transitivity m1'; [done|by apply writer_log]|]. intros _.
  apply (indexed_stable _ _ _ _ _ _ _ m1'); [done|]. destruct Hc1 as [C1 C2 C3 C4]. split; cbn [hdr set_hdr]; try done.
  - rewrite (mm_rest _ _ Hmaps). by destruct w.
  - split; intros j Hj; unfold m1'; rewrite !rd_write_words, hdr_words_length; unfold aHdr.
    + rewrite decide_True by lia. f_equal. lia.
    + rewrite decide_False, decide_True by lia. f_equal. lia.
  - apply write_words_inv; [unfold aHdr; lia|rewrite hdr_words_length; unfold aHdr; lia|].
    apply write_words_inv; [unfold aHdr; lia|rewrite hdr_words_length; unfold aHdr; lia|]. by apply (writer_commit _ _ _ n).
Qed.

(** ** A transaction *)

(** The log, the index and the header of the writer between transactions: all have the
    frames [l]. *)
Record log_state (w : Wal) (szPage : Z) (m : mem) (l : list (Z * Z)) : Prop := {
  ls_index : writer_inv m (log_page l) (Z.of_nat (length l)) (Z.of_nat (length l));
  ls_mx : mxFrame (hdr w) = Z.of_nat (length l);
  ls_copies : has m 0 (hdr_words (hdr w)) /\ has m 1 (hdr_words (hdr w));
  ls_re : iReCksum w = 0;
  ls_log : l <> [] -> exists fmt, log_header_at m = Some fmt /\ knows fmt w /\ lf_szPage fmt = szPage /\ valid_log fmt m l (aFrameCksum (hdr w)) }.

(** The bytes of the log that hold the frames. *)
Definition log_end (szPage : Z) (l : list (Z * Z)) : Z := match l with [] => 0 | _ => walFrameOffset (Z.of_nat (length l) + 1) szPage end.

Lemma log_header_keeps keep m m' : WAL_HDRSIZE <= keep -> keeps keep m m' -> log_header_at m' = log_header_at m.
Proof.
  unfold WAL_HDRSIZE. intros Hk [A1 _]. unfold log_header_at, log_be, log_word. by rewrite !A1 by lia.
Qed.

Lemma log_end_eq fmt l : l <> [] -> log_end (lf_szPage fmt) l = frame_off fmt (Z.of_nat (length l) + 1).
Proof. by destruct l. Qed.

(** Whatever is valid later starts with the frames. *)
Lemma log_frames_prefix fmt m l c l' :
  good_size (lf_szPage fmt) = true -> log_header_at m = Some fmt -> valid_log fmt m l c -> log_frames m l' -> l `prefix_of` l'.
Proof.
  intros Hs Hh Hv. destruct (decide (l = [])) as [->|Hl]; [intros _; apply prefix_nil|].
  pose proof (valid_log_fits _ _ _ _ Hv Hl) as Hfit. pose proof (good_size_multiple _ Hs) as [_ Hr].
  assert (Hsz : WAL_HDRSIZE < rd m LogSize).
  { revert Hfit. unfold frame_off, walFrameOffset, WAL_FRAME_HDRSIZE. destruct l as [|x l]; [done|]. cbn [length]. nia. }
  unfold log_frames, log_header. rewrite (proj2 (Z.ltb_lt _ _) Hsz), Hh. by apply valid_log_prefix with (c := c).
Qed.

Lemma upds_frames l pages t i :
  1 <= i <= Z.of_nat (length l) + Z.of_nat (length pages) ->
  upds (log_page l) (Z.of_nat (length l)) pages.*1 i = log_page (l ++ new_frames pages t) i.
Proof.
  intros Hi. rewrite upds_lookup, length_fmap. unfold log_page. case_decide.
  - rewrite lookup_app_r by lia. replace (Z.to_nat (i - Z.of_nat (length l) - 1)) with (Z.to_nat (i - 1) - length l)%nat by lia.
    assert (Hk : (Z.to_nat (i - 1) - length l < length pages)%nat) by lia. revert Hk. generalize (Z.to_nat (i - 1) - length l)%nat. clear.
    induction pages as [|[p d] pages IH]; intros [|k] Hk; cbn in *; try lia. apply IH. lia.
  - by rewrite lookup_app_l by lia.
Qed.

(** ** The whole of a commit *)

Section commit.
Context (present : Z -> Prop) (w : Wal) (szPage : Z) (l pages : list (Z * Z)) (t syncFlags : Z).
Hypothesis Hsz : good_size szPage = true.
Hypothesis Hp : Forall page_ok pages.
Hypothesis Hne : pages <> [].
Hypothesis Ht : in_u 32 t /\ t <> 0.
Hypothesis Hlen : Z.of_nat (length l) + Z.of_nat (length pages) + 1 < 2 ^ 31.
Hypothesis Hpad : WAL_SYNC_FLAGS syncFlags = 0 \/ padToSectorBoundary w = false.
Hypothesis Hwl : writeLock w = true.
Hypothesis H0 : mapped w 0 = true.
Abbreviation wr := (rg present (agree writer_cell) (keeps (log_end szPage l))).

Definition committed (w' : Wal) (m' : mem) : Prop :=
  log_state w' szPage m' (l ++ new_frames pages t) /\ nPage (hdr w') = t.

(** From the first frame on; the format of the log is known. *)
Lemma commit_frames_rg fmt w1 m (Q : Wal * Z -> mem -> Prop) :
  lf_szPage fmt = szPage -> log_header_at m = Some fmt -> knows fmt w1 -> valid_log fmt m l (aFrameCksum (hdr w1)) ->
  same_conn w w1 -> iReCksum w1 = 0 -> padToSectorBoundary w1 = padToSectorBoundary w -> mxFrame (hdr w1) = Z.of_nat (length l) ->
  writer_inv m (log_page l) (Z.of_nat (length l)) (Z.of_nat (length l)) ->
  (forall w' rc m', (rc = SQLITE_OK -> committed w' m') -> Q (w', rc) m') ->
  wr ('(w, rc, pages) ← sqlite3WalFrames_write w1 szPage pages t true syncFlags 0;
      if negb (rc =? SQLITE_OK) then Done (w, rc) else
      '(w, rc, cb) ← sqlite3WalFrames_finish w szPage t true pages;
      Done (match cb with Some i => set_iCallback w i | None => w end, rc)) Q m.
Proof.
  intros Efmt Hh Hk Hv Hc Hre Hpad1 Hmx HW HQ. assert (Hgood : good_size (lf_szPage fmt) = true) by (by rewrite Efmt).
  assert (Hu : in_u2 (aFrameCksum (hdr w1))) by (eapply valid_log_range; [by eapply log_header_at_range|done]).
  pose proof (good_size_multiple _ Hsz) as [_ Hr]. pose proof (frame_off_ge fmt Hgood) as Hge. unfold WAL_HDRSIZE in Hge.
  assert (Hkeep : 0 <= log_end szPage l <= frame_off fmt (Z.of_nat (length l) + 1)).
  { rewrite <- Efmt. specialize (Hge (Z.of_nat (length l) + 1) ltac:(lia)).
    destruct (decide (l = [])) as [->|Hl]; [cbn [log_end]; lia|]. rewrite log_end_eq by done. lia. }
  rg_bind. rewrite <- Efmt at 2. apply sqlite3WalFrames_write_rg with (l := l); try done; [apply Ht|by rewrite Hpad1|].
  intros w2 rc pgs m1 Hm1 Hok. destruct (negb (rc =? SQLITE_OK)) eqn:Erc; bool_to_prop.
  { apply rg_done. intros m2 Hm2. by apply HQ. }
  destruct (Hok Erc) as (c & [L1 L2 L3 L4] & Hc2 & -> & Hv2). clear Hok.
  assert (Hc02 : same_conn w w2) by (by transitivity w1).
  assert (Emx2 : mxFrame (hdr w2) = Z.of_nat (length l)) by (by rewrite L1).
  assert (Ht1 : agree table_cell m m1).
  { intros [pg i|pg k|i|off|off|] Hcell; cbn in Hcell; try done; apply Hm1; cbn; try done. lia. }
  rg_bind. apply sqlite3WalFrames_finish_rg with (f := log_page l); rewrite ?Emx2, ?length_fmap; try done; try lia.
  - apply Forall_fmap. apply (Forall_impl _ _ _ Hp). intros [p d] [Hp1 Hp2]. cbn in *. unfold in_u in Hp1. lia.
  - by rewrite (sm_lock _ _ Hc02).
  - by apply (sm_mapped _ _ Hc02).
  - by apply (table_writer m).
  - intros w3 rc3 cb m3 Hm3 Hok. apply rg_done. intros m4 Hm4. apply HQ. intros Erc3. specialize (Hok Erc3).
    assert (Hlog : agree log_cell m1 m4) by (transitivity m3; [done|by apply writer_log]).
    apply (indexed_stable _ _ _ _ _ _ _ _ _ Hm4) in Hok. destruct Hok as [X1 X2 [X3 X4] X5 X6 X7]. rewrite X5.
    assert (Hlen' : Z.of_nat (length (l ++ new_frames pages t)) = Z.of_nat (length l) + Z.of_nat (length pages)) by (rewrite length_app, new_frames_length; lia).
    assert (Ehd : hdr w3 = set_aCksum (set_init (set_committed (hdr w2) true szPage (Z.of_nat (length l) + Z.of_nat (length pages)) t)) (aCksum (hdr w3))) by (by apply sealed_hdr in X1).
    split; [|cbn [hdr set_iCallback]; by rewrite Ehd]. split; cbn [hdr set_iCallback iReCksum]; [| |done| |].
    + rewrite Hlen'. apply (writer_ext _ (upds (log_page l) (Z.of_nat (length l)) pages.*1)); [|done]. intros i Hi. by apply upds_frames.
    + by rewrite Hlen', Ehd.
    + by rewrite X4, L4.
    + intros _. exists fmt. split_and!.
      * rewrite (log_header_keeps 32 m1 m4), (log_header_keeps (frame_off fmt (Z.of_nat (length l) + 1)) m m1); try done; [|apply Hm1|by apply keeps_log_cell].
        apply Hge. lia.
      * destruct (L2 Hk) as [K1 K2 K3]. split; cbn [hdr set_iCallback w_szPage]; [by rewrite X3|by rewrite Ehd|by rewrite Ehd].
      * done.
      * rewrite Ehd, L1. cbn. apply (valid_log_keeps fmt Hgood m1); [by apply keeps_log_cell|done].
Qed.

Lemma commit_begin fmt w' m m' :
  started w szPage fmt w' -> log_write 0 WAL_HDRSIZE m m' -> l = [] -> log_state w szPage m l ->
  valid_log fmt m' l (aFrameCksum (hdr w')) /\ mxFrame (hdr w') = Z.of_nat (length l) /\
  writer_inv m' (log_page l) (Z.of_nat (length l)) (Z.of_nat (length l)).
Proof.
  intros [S1 S2 S3 S4 S5 S6 S7] Hm Hl [A1 A2 A3 A4 A5]. split_and!.
  - rewrite S3, Hl. constructor.
  - by rewrite S7, A2.
  - apply (table_writer m); [|done]. intros [pg i|pg k|i|off|off|] Hcell; cbn in Hcell; try done; apply Hm; cbn; try done. lia.
Qed.

(** The whole of [sqlite3WalFrames]: a transaction without padding. *)
Lemma sqlite3WalFrames_rg m :
  readLock w <> 0 -> log_state w szPage m l ->
  wr (sqlite3WalFrames w szPage pages t true syncFlags) (fun '(w', rc) m' => rc = SQLITE_OK -> committed w' m') m.
Proof.
  intros Hrl Hst. pose proof Hst as [A1 A2 [A3 _] A4 A5]. destruct Ht as [_ Ht0].
  unfold sqlite3WalFrames. apply rg_insist; [rewrite Hwl; by destruct pages|]. apply rg_insist; [by rewrite (proj2 (Z.eqb_neq t 0) Ht0)|].
  rg_bind. unfold same_hdr. rg_bind. apply load_words_beside; [intros j Hj; right; left; unfold aHdr in Hj; lia|]. intros m1 Hm1. apply rg_done. intros m2 Hm2.
  assert (Hsame : (fun j => rd m (Word 0 j)) <$> seqZ (aHdr 0) (Z.of_nat 12) = hdr_words (hdr w)).
  { apply has_eq; [done..|]. intros j Hj. rewrite <- (A3 j Hj). unfold word. rewrite list_lookup_fmap, lookup_seqZ_lt by lia. cbn. f_equal. f_equal. lia. }
  rewrite Hsame, bool_decide_true by done. cbn iota. rg_bind. apply rg_done. intros m3 Hm3. rg_bind. unfold walRestartLog.
  rewrite (proj2 (Z.eqb_neq _ _) Hrl). apply rg_done. intros m4 Hm4. change (negb (SQLITE_OK =? SQLITE_OK)) with false. cbn iota. rg_bind.
  assert (Hm04 : agree writer_cell m m4) by (transitivity m2; [by transitivity m1|by transitivity m3]). clear Hm1 Hm2 Hm3 Hm4.
  assert (Hst4 : log_state w szPage m4 l).
  { split; try done.
    - by apply (table_writer m); [apply writer_table|].
    - destruct Hst as [_ _ [B1 B2] _ _]. split; intros j Hj; (rewrite Hm04 by (right; left; unfold aHdr; lia)); auto.
    - intros Hl. destruct (A5 Hl) as (fmt & F1 & F2 & F3 & F4). exists fmt. split_and!; [|done|done|].
      + by rewrite (log_header_keeps WAL_HDRSIZE m) by (done || by apply keeps_log_cell, writer_log).
      + apply (valid_log_keeps fmt) with (m := m); [by rewrite F3|by apply keeps_log_cell, writer_log|done]. }
  clear A1 A3 A5 Hst. destruct Hst4 as [A1 _ A3 _ A5]. rewrite A2.
  destruct (decide (l = [])) as [Hl|Hl].
  - assert (E0 : (Z.of_nat (length l) =? 0) = true) by (by rewrite Hl). rewrite E0. apply sqlite3WalFrames_header_rg; [by rewrite Hl|done|].
    intros w1 rc m5 Hm5 Hok. destruct (negb (rc =? SQLITE_OK)) eqn:Erc; bool_to_prop; [by apply rg_done|].
    destruct (Hok Erc) as (fmt & Hsd & Hh & _). assert (Hst4 : log_state w szPage m4 l) by (by split).
    destruct (commit_begin fmt w1 m4 m5 Hsd Hm5 Hl Hst4) as (B1 & B2 & B3). destruct Hsd as [S1 S2 S3 S4 S5 S6 S7].
    apply rg_insist; [apply Z.eqb_eq; by rewrite (kn_size _ _ S1)|]. apply (commit_frames_rg fmt w1 m5); try done. by rewrite S5.
  - assert (E0 : (Z.of_nat (length l) =? 0) = false) by (apply Z.eqb_neq; by destruct l). rewrite E0. apply rg_done. intros m5 Hm5.
    change (negb (SQLITE_OK =? SQLITE_OK)) with false. cbn iota. apply (rg_stable _ (agree writer_cell) _ _ _ m4); [done|].
    destruct (A5 Hl) as (fmt & F1 & F2 & F3 & F4). apply rg_insist; [apply Z.eqb_eq; by rewrite (kn_size _ _ F2)|].
    by apply (commit_frames_rg fmt w m4).
Qed.
End commit.
