(* ===== verification/WalOpen.v ===== *)
(** Opening and closing a connection to the log (src/sqlite-src-3280000/src/wal.c). *)
From S2P Require Import Prelude SharedMem WalIndex WalHeader WalLocks WalFile WalLog WalIterator WalCheckpoint WalProtocol WalWrite.

Definition SQLITE_OPEN_READONLY : Z := 1.
Definition SQLITE_IOCAP_SEQUENTIAL : Z := 0x400.
Definition SQLITE_IOCAP_POWERSAFE_OVERWRITE : Z := 0x1000.
Definition WAL_RDONLY : Z := 1.

(** The asserts on the offsets of the locks hold by the layout of the header.  The flags
    that the log was opened with, and the device characteristics, are [Ask]. *)
Definition sqlite3WalOpen (bNoShm : bool) (mxWalSize : Z) : prog (option Wal * Z) :=
  Alloc (fun b =>
    if b then
      let mode := if bNoShm then WAL_HEAPMEMORY_MODE else WAL_NORMAL_MODE in
      Ask (fun rc => Ask (fun flags =>
        let readOnly := if (rc =? SQLITE_OK) && negb (Z.land flags SQLITE_OPEN_READONLY =? 0) then WAL_RDONLY else 0 in
        if negb (rc =? SQLITE_OK) then Done (None, rc) else
        Ask (fun iDC =>
          Done (Some (mkWal [] 0 (-1) mode false false readOnly false zero_hdr 0 0 0 false 0 mxWalSize
            (Z.land iDC SQLITE_IOCAP_SEQUENTIAL =? 0) (Z.land iDC SQLITE_IOCAP_POWERSAFE_OVERWRITE =? 0)), rc))))
    else Done (None, SQLITE_NOMEM)).

Definition sqlite3WalLimit (w : Wal) (iLimit : Z) : Wal :=
  mkWal (apWiData w) (w_szPage w) (readLock w) (exclusiveMode w) (writeLock w) (ckptLock w) (readOnly w) (bShmUnreliable w)
    (hdr w) (minFrame w) (iReCksum w) (nCkpt w) (truncateOnCommit w) (iCallback w) iLimit (syncHeader w) (padToSectorBoundary w).

(** The lock on the database and the hint about a persistent log are [Ask]; whether the
    log and the index are deleted, and the code. *)
Definition sqlite3WalClose_checkpoint (w : Wal) (nBuf : Z) : prog (Wal * Z * bool) :=
  Ask (fun rc =>
    if rc =? SQLITE_OK then
      let w := if exclusiveMode w =? WAL_NORMAL_MODE then set_mode w WAL_EXCLUSIVE_MODE (bShmUnreliable w) else w in
      '(w, rc, _) ← sqlite3WalCheckpoint w SQLITE_CHECKPOINT_PASSIVE 0 nBuf;
      if rc =? SQLITE_OK then
        Ask (fun bPersist =>
          if negb (bPersist =? 1) then Done (w, rc, true)
          else if 0 <=? mxWalSize w then _ ← walLimitSize w 0; Done (w, rc, false) else Done (w, rc, false))
      else Done (w, rc, false)
    else Done (w, rc, false)).

(** [zBuf] is the buffer for a page, if there is one, of [nBuf] bytes.  A log that is
    deleted is empty when it is opened again. *)
Definition sqlite3WalClose (w : Wal) (zBuf : bool) (nBuf : Z) : prog Z :=
  '(w, rc, isDelete) ← (if zBuf then sqlite3WalClose_checkpoint w nBuf else Done (w, SQLITE_OK, false));
  _ ← walIndexClose w;
  _ ← (if (isDelete : bool) then _ ← os_truncate_log 0; Done () else Done ());
  Done rc.

Definition sqlite3WalExclusiveMode (w : Wal) (op : Z) : prog (Wal * bool) :=
  insist (negb (writeLock w) && (negb (exclusiveMode w =? WAL_HEAPMEMORY_MODE) || (op =? -1)))
    (insist ((0 <=? readLock w) || (op <=? 0) && (exclusiveMode w =? 0))
      (if op =? 0 then
         if negb (exclusiveMode w =? WAL_NORMAL_MODE) then
           let w := set_mode w WAL_NORMAL_MODE (bShmUnreliable w) in
           rc ← walLockShared w (WAL_READ_LOCK (readLock w));
           let w := if negb (rc =? SQLITE_OK) then set_mode w WAL_EXCLUSIVE_MODE (bShmUnreliable w) else w in
           Done (w, exclusiveMode w =? WAL_NORMAL_MODE)
         else Done (w, false)
       else if 0 <? op then
         insist ((exclusiveMode w =? WAL_NORMAL_MODE) && (0 <=? readLock w))
           (_ ← walUnlockShared w (WAL_READ_LOCK (readLock w));
            Done (set_mode w WAL_EXCLUSIVE_MODE (bShmUnreliable w), true))
       else Done (w, exclusiveMode w =? WAL_NORMAL_MODE))).

Definition sqlite3WalHeapMemory (w : Wal) : bool := exclusiveMode w =? WAL_HEAPMEMORY_MODE.
