(* ===== verification/WalReset.v ===== *)
(** A checkpoint that races with a restart of the log: the protocol, executed from an
    empty database, loses a transaction that was committed. *)
From S2P Require Import Prelude SharedMem WalIndex WalHeader WalLocks WalFile WalLog WalIterator WalCheckpoint WalProtocol WalWrite WalOpen.

(** ** Connections *)

(** What a connection does, with a database of nine pages of 512 bytes. *)
Inductive client_result :=
  | Wrote (rc : Z)
  | Copied (rc : Z) (counts : option (Z * Z))
  | Got (rc v : Z).

Definition connect (f : Wal -> prog client_result) (failed : Z -> client_result) : prog client_result :=
  '(w, rc) ← sqlite3WalOpen false (-1);
  match w with Some w => f w | None => Done (failed rc) end.

(** A transaction that writes the pages and commits. *)
Definition client_write (pages : list (Z * Z)) : prog client_result :=
  connect (fun w =>
    '(w, rc, _) ← sqlite3WalBeginReadTransaction w;
    if negb (rc =? SQLITE_OK) then Done (Wrote rc) else
    '(w, rc) ← sqlite3WalBeginWriteTransaction w;
    '(w, rc) ← (if rc =? SQLITE_OK then sqlite3WalFrames w 512 pages 9 true 0 else Done (w, rc));
    _ ← sqlite3WalEndReadTransaction w;
    Done (Wrote rc)) Wrote.

Definition client_checkpoint : prog client_result :=
  connect (fun w => '(_, rc, counts) ← sqlite3WalCheckpoint w SQLITE_CHECKPOINT_PASSIVE 0 512; Done (Copied rc counts))
    (fun rc => Copied rc None).

Definition client_read (pgno : Z) : prog client_result :=
  connect (fun w =>
    '(w, rc, _) ← sqlite3WalBeginReadTransaction w;
    '(w, rc, v) ← (if rc =? SQLITE_OK then readDbPage w 512 pgno else Done (w, rc, 0));
    _ ← sqlite3WalEndReadTransaction w;
    Done (Got rc v)) (fun rc => Got rc 0).

(** ** The race *)

(** A first transaction, whose log is copied into the database. *)
Definition reset_setup : prog (client_result * client_result) :=
  r ← client_write [(7, 70); (8, 80); (9, 90)]; r' ← client_checkpoint; Done (r, r').

Definition final {A} (r : option (A * mem)) : mem := match r with Some (_, m) => m | None => ∅ end.
Definition reset_mem : mem := final (run reset_setup ∅).

(** A checkpoint, a transaction that starts the log over, and one that appends to it. *)
Definition reset_threads : list (prog client_result) :=
  [client_checkpoint; client_write [(9, 91)]; client_write [(7, 72); (8, 82)]].

(** The checkpoint is delayed after it has read the header. *)
Definition reset_turns : list (nat * nat) :=
  [(0%nat, 32%nat); (1%nat, Z.to_nat 50000); (0%nat, Z.to_nat 50000); (2%nat, Z.to_nat 50000)].

Definition results (ps : list (prog client_result)) : list (option client_result) :=
  (fun p => match p with Done a => Some a | _ => None end) <$> ps.

(** The results of the threads, [nBackfill] and [mxFrame] at the end, and what [reader]
    gets then. *)
Definition outcome (s : list (nat * nat)) (m : mem) (ts : list (prog client_result)) (reader : prog client_result)
    : option (list (option client_result) * Z * Z * option client_result) :=
  '(m, ps) ← schedule s m ts; Some (results ps, rd m nBackfill, rd m shm_mxFrame, fst <$> run reader m).

Definition reset_outcome (s : list (nat * nat)) : option (list (option client_result) * Z * Z * option client_result) :=
  outcome s reset_mem reset_threads (client_read 7).

Lemma reset_race : reset_outcome reset_turns =
  Some ([Some (Copied SQLITE_OK (Some (3, 3))); Some (Wrote SQLITE_OK); Some (Wrote SQLITE_OK)], 3, 3, Some (Got SQLITE_OK 70)).
Proof. vm_compute. reflexivity. Qed.

Lemma reset_start : fst <$> run reset_setup ∅ = Some (Wrote SQLITE_OK, Copied SQLITE_OK (Some (3, 3))).
Proof. vm_compute. reflexivity. Qed.

(** Without the delay, the reader gets what was committed last. *)
Lemma reset_no_race : reset_outcome (drop 1 reset_turns) =
  Some ([Some (Copied SQLITE_OK (Some (1, 1))); Some (Wrote SQLITE_OK); Some (Wrote SQLITE_OK)], 0, 2, Some (Got SQLITE_OK 72)).
Proof. vm_compute. reflexivity. Qed.

Lemma results_done ps rs : results ps = Some <$> rs -> ps = Done <$> rs.
Proof.
  revert rs. induction ps as [|p ps IH]; intros [|r rs]; cbn; try done. intros [= Hp Hps]. rewrite (IH rs Hps).
  by destruct p; try discriminate Hp; injection Hp as ->.
Qed.

Lemma outcome_steps s m ts reader rs b x v :
  outcome s m ts reader = Some (Some <$> rs, b, x, Some v) ->
  exists m', steps (fun _ => True) (m, ts) (m', Done <$> rs) /\ rd m' nBackfill = b /\ rd m' shm_mxFrame = x /\
    exists m2, run reader m' = Some (v, m2).
Proof.
  unfold outcome. destruct (schedule s m ts) as [[m' ps]|] eqn:Hs; [|done]. cbn. intros [= Hps <- <- Hv].
  exists m'. rewrite <- (results_done ps rs Hps). split; [by apply (schedule_steps _ s)|]. split; [done|]. split; [done|].
  destruct (run reader m') as [[v' m2]|]; [|done]. injection Hv as ->. by exists m2.
Qed.

Lemma run_final {A} (p : prog A) m a : fst <$> run p m = Some a -> run p m = Some (a, final (run p m)).
Proof. destruct (run p m) as [[a' m']|]; [|done]. by intros [= ->]. Qed.

(** A checkpoint that races with a restart of the log loses commits.  The log is
    copied into the database; a second checkpoint reads the header, and is delayed; a
    writer then finds that the log is not needed, starts it over and commits; the
    checkpoint goes on with the header of the old log, and sets [nBackfill] to its three
    frames, two more than the log has.  The next transaction appends two frames, of
    pages 7 and 8, and commits; a reader that starts after that takes the log for
    copied, and gets page 7 from the database, as it was before. *)
Theorem wal_reset_loses_commit :
  exists m : mem, run reset_setup ∅ = Some ((Wrote SQLITE_OK, Copied SQLITE_OK (Some (3, 3))), m) /\
    exists m', steps (fun _ => True) (m, reset_threads)
        (m', Done <$> [Copied SQLITE_OK (Some (3, 3)); Wrote SQLITE_OK; Wrote SQLITE_OK]) /\
      rd m' nBackfill = 3 /\ rd m' shm_mxFrame = 3 /\ exists m2, run (client_read 7) m' = Some (Got SQLITE_OK 70, m2).
Proof.
  exists reset_mem. split; [exact (run_final reset_setup ∅ _ reset_start)|].
  exact (outcome_steps reset_turns reset_mem reset_threads (client_read 7)
    [Copied SQLITE_OK (Some (3, 3)); Wrote SQLITE_OK; Wrote SQLITE_OK] 3 3 (Got SQLITE_OK 70) reset_race).
Qed.
