(* ===== verification/WalUnreliable.v ===== *)
(** A connection whose shared memory is read-only and cannot be trusted: after a writer
    died in its first transaction, it reads past the end of a buffer. *)
From S2P Require Import Prelude SharedMem WalIndex WalHeader WalLocks WalFile WalLog WalIterator WalCheckpoint WalProtocol WalWrite WalOpen.

(** A program alone, when every request to map a page is answered with the error [rc];
    [None] for a program that gets stuck. *)
Fixpoint exec (rc : Z) {A} (p : prog A) (m : mem) : mem * option A :=
  match p with
  | Done a => (m, Some a)
  | Load c k => exec rc (k (rd m c)) m
  | Store c v k => exec rc k (<[c := v]> m)
  | Alloc k => exec rc (k true) m
  | ShmMap _ _ k => exec rc (k rc false) m
  | Ask k => exec rc (k 0) m
  | Try f k => match f m with Some m' => exec rc (k true) m' | None => exec rc (k false) m end
  | Stuck => (m, None)
  end.

Lemma exec_steps present rc {A} (p : prog A) m m' r :
  rc <> 0 -> rc <> SQLITE_READONLY -> exec rc p m = (m', r) ->
  steps present (m, [p]) (m', [match r with Some a => Done a | None => Stuck end]).
Proof.
  intros H0 H8. revert m.
  assert (Hone : forall m m1 (p p1 : prog A) y, prog_step present m p m1 p1 -> steps present (m1, [p1]) y -> steps present (m, [p]) y).
  { intros m m1 q q1 y Hq Hy. apply rtc_l with (m1, [q1]); [|done]. by apply (step_thread present m [q] 0 q m1 q1). }
  induction p as [a|c k IH|c v k IH|k IH|pg e k IH|k IH|g k IH|]; intros m; cbn.
  - intros [= <- <-]. apply rtc_refl.
  - intros H. eapply Hone; [constructor|by apply IH].
  - intros H. eapply Hone; [constructor|by apply IH].
  - intros H. eapply Hone; [apply (step_alloc _ _ _ true)|by apply IH].
  - intros H. eapply Hone; [apply (step_map _ _ _ _ _ rc false)|by apply IH]. by intros [|].
  - intros H. eapply Hone; [apply (step_ask _ _ _ 0)|by apply IH].
  - destruct (g m) as [m1|] eqn:Hg; intros H; (eapply Hone; [by constructor|by apply IH]).
  - intros [= <- <-]. apply rtc_refl.
Qed.

(** A writer starts the log, writes a frame without committing, and is killed; the index
    is in memory that the reader cannot map. *)
Definition spill : prog Z :=
  '(w, rc) ← sqlite3WalOpen false (-1);
  match w with
  | None => Done rc
  | Some w =>
      '(w, rc, _) ← sqlite3WalBeginReadTransaction w;
      '(w, rc) ← sqlite3WalBeginWriteTransaction w;
      '(w, rc) ← sqlite3WalFrames w 512 [(2, 20)] 0 false 0;
      Done rc
  end.

Definition is_file (c : cell) : bool := match c with LogAt _ | LogSize | DbAt _ => true | _ => false end.

Definition files (m : mem) : mem := filter (fun x : cell * Z => is_file x.1 = true) m.

Definition spilled : option (Z * mem) := '(rc, m) ← run spill ∅; Some (rc, files m).

Definition begin_read : prog Z :=
  '(w, rc) ← sqlite3WalOpen false (-1);
  match w with Some w => '(_, rc, _) ← sqlite3WalBeginReadTransaction w; Done rc | None => Done rc end.

Definition overread : option (Z * option Z) := '(rc, m) ← spilled; Some (rc, snd (exec SQLITE_READONLY_CANTINIT begin_read m)).

Lemma overread_run : overread = Some (SQLITE_OK, None).
Proof. vm_compute. reflexivity. Qed.

Lemma overread_steps (s r : prog Z) x :
  ('(rc, m) ← ('(rc, m) ← run s ∅; Some (rc, files m)); Some (rc, snd (exec SQLITE_READONLY_CANTINIT r m))) = Some (x, None) ->
  exists m m', run s ∅ = Some (x, m) /\ steps (fun _ => True) (files m, [r]) (m', [Stuck]).
Proof.
  destruct (run s ∅) as [[rc m]|]; [|done]. cbn. destruct (exec _ r _) as [m' o] eqn:He. intros [= -> Ho]. cbn in Ho. subst o.
  exists m, m'. split; [done|]. by apply (exec_steps _ SQLITE_READONLY_CANTINIT r _ _ None).
Qed.

(** A read transaction on shared memory that cannot be trusted can read past the end
    of a heap buffer.  A writer starts the log and is killed before its first commit;
    a connection that may only read, and for which the VFS answers
    SQLITE_READONLY_CANTINIT, then builds an index of its own, whose header has no page
    size, since there is no commit.  [walBeginShmUnreliable] takes the size of a frame
    from that header, allocates 24 bytes, and [walDecodeFrame] computes the checksum of a
    page of 512 bytes behind them, which gets the program stuck here. *)
Theorem unreliable_overread :
  exists m m', run spill ∅ = Some (SQLITE_OK, m) /\ steps (fun _ => True) (files m, [begin_read]) (m', [Stuck]).
Proof. exact (overread_steps spill begin_read SQLITE_OK overread_run). Qed.
