(* ===== verification/WalRecoveryTheorems.v ===== *)
(** Crashes: what recovery finds in a log, and what a transaction leaves there. *)
From S2P Require Import Prelude SharedMem WalIndex WalIndexSpec WalIndexReader WalIndexWriter WalIndexTheorems WalHeader WalLocks WalFile WalLog WalCommit WalLogSpec WalFrame WalRecovery WalCheckpoint WalProtocol WalWrite WalLogWriter.

(** ** One program among others *)

Section beside.
Context (present : Z -> Prop) {A : Type} (R G : mem -> mem -> Prop) `{!PreOrder R}.

(** What the program may do anywhere is in [R]. *)
Definition harmless (m : mem) (p : prog A) : Prop := rg present (fun _ _ => True) R p (fun _ _ => True) m.

Lemma beside_harmless (p : prog A) Q others m m' p' others' :
  rg present R G p Q m -> Forall (harmless m) others -> steps present (m, p :: others) (m', p' :: others') ->
  (p' <> Stuck /\ forall a, p' = Done a -> Q a m') /\
  forall T : mem -> mem -> Prop, PreOrder T -> (forall m m', G m m' -> T m m') -> (forall m m', R m m' -> T m m') -> T m m'.
Proof.
  intros Hp Ho Hs. set (o := mkSpec (fun _ _ => True) R (fun (_ : A) _ => True)). set (ss := mkSpec R G Q :: (const o <$> others)).
  assert (Hc : compatible ss).
  { split.
    - intros [|i] s Hi; [by injection Hi as <-|]. cbn in Hi. apply list_lookup_fmap_Some in Hi as (x & -> & _). by split.
    - intros [|i] [|j] s s' Hi Hj Hne m1 m2 HG; cbn in Hi, Hj; [done| | |].
      + by apply list_lookup_fmap_Some in Hj as (x & -> & _).
      + apply list_lookup_fmap_Some in Hi as (x & -> & _). by injection Hj as <-.
      + by apply list_lookup_fmap_Some in Hj as (x & -> & _). }
  assert (Hth : Forall2 (thread_ok present m) ss (p :: others)).
  { constructor; [done|]. apply Forall2_fmap_l, Forall_Forall2_diag, Ho. }
  split; [by apply (steps_safe present ss m (p :: others) m' (p' :: others') 0 (mkSpec R G Q))|].
  intros T HT HG HR. apply (steps_ok present ss T m (p :: others) m' (p' :: others')); try done.
  intros s m1 m2 Hin. unfold ss in Hin. apply elem_of_cons in Hin as [->|Hin]; [apply HG|].
  apply list_elem_of_fmap in Hin as (x & -> & _). apply HR.
Qed.
End beside.

(** Alone, it returns. *)
Lemma rg_alone {A} present (R G : mem -> mem -> Prop) `{!PreOrder R} (p : prog A) (Q : A -> mem -> Prop) m :
  rg present R G p Q m -> exists a m', run p m = Some (a, m') /\ Q a m'.
Proof. intros Hp. apply (rg_run present _ _ G), (rg_weaken present R); [by intros m1 m2 <-|done]. Qed.

(** ** Recovery *)

(** C25: Recovery finds exactly the valid frames of the log.  Whatever is in the log and
    in the wal-index, and whatever others do with locks meanwhile, [walIndexRecover] does
    not change the log or the database, no assert fails, and alone it returns.  If it
    returns SQLITE_OK, then, for the frames of the log up to the first that is not valid
    by the format of the log: the index has the page of each of them; the header, in
    both copies and with its checksum, and the connection have the number of frames up
    to the last commit, the size of the database that the commit gives, and the page
    size, salts and checksum with which the log goes on; nothing counts as copied into
    the database, and the read marks are those of a log that nobody reads. *)
Theorem recovery_correct present w m others :
  writeLock w = true -> mapped w 0 = true -> (forall pg k, 0 <= slot_at m pg k) -> rd m LogSize <= 2 ^ 40 ->
  Forall (harmless present only_locks m) others ->
  (exists r m', run (walIndexRecover w) m = Some (r, m')) /\
  forall m' p others', steps present (m, walIndexRecover w :: others) (m', p :: others') ->
    same_files m m' /\ p <> Stuck /\ forall w', p = Done (w', SQLITE_OK) -> exists l, log_frames m' l /\ recovered w' m' l.
Proof.
  intros Hwl H0 Hs Hmax Ho. pose proof (walIndexRecover_rg present w m Hwl H0 Hs Hmax) as Hrg. split.
  - destruct (rg_alone _ _ _ _ _ _ Hrg) as (r & m' & Hr & _). by exists r, m'.
  - intros m' p others' Hst. destruct (beside_harmless present only_locks same_files _ _ _ _ _ _ _ Hrg Ho Hst) as [[Hns Hd] HT].
    split; [apply HT; [apply _|done|apply locks_files]|]. split; [done|]. intros w' Hp. destruct (Hd _ Hp) as [_ H].
    destruct (H eq_refl) as [l Hl]. exists l. split; [apply Hl|done].
Qed.

(** ** Commits *)

(** C24: Commits survive crashes.  A transaction is written by one call of
    [sqlite3WalFrames], with no frames of it spilled before, after the frames [l] of a
    log, which may be empty, by a writer that does not start the log over ([readLock] is
    not zero: [walRestartLog] starts it over, which overwrites the frames of earlier
    commits, only with [readLock] zero) and does not pad its commit (no sync flags for
    the log, or [padToSectorBoundary] unset), while others take locks, mark what they read and copy
    frames into the database, and whichever writes fail or are torn.  No assert fails;
    at every moment, whatever is then valid in the log starts with [l], so that recovery
    finds the earlier commits; and when [sqlite3WalFrames] has returned SQLITE_OK, what
    is valid in the log starts with [l] and the frames of the transaction, and the
    index, both copies of the header, the connection and the running checksum are those
    of that log, from which the next transaction can go on. *)
Theorem commit_recoverable present w szPage l pages nTruncate syncFlags m others :
  good_size szPage = true -> Forall page_ok pages -> pages <> [] -> in_u 32 nTruncate /\ nTruncate <> 0 ->
  Z.of_nat (length l) + Z.of_nat (length pages) + 1 < 2 ^ 31 -> WAL_SYNC_FLAGS syncFlags = 0 \/ padToSectorBoundary w = false ->
  writeLock w = true -> mapped w 0 = true -> readLock w <> 0 -> log_state w szPage m l ->
  Forall (harmless present (agree writer_cell) m) others ->
  forall m' p others', steps present (m, sqlite3WalFrames w szPage pages nTruncate true syncFlags :: others) (m', p :: others') ->
    p <> Stuck /\ (forall l', log_frames m' l' -> l `prefix_of` l') /\
    forall w', p = Done (w', SQLITE_OK) ->
      log_state w' szPage m' (l ++ new_frames pages nTruncate) /\ nPage (hdr w') = nTruncate /\
      forall l', log_frames m' l' -> l ++ new_frames pages nTruncate `prefix_of` l'.
Proof.
  intros Hsz Hp Hne Ht Hlen Hpad Hwl H0 Hrl Hst Ho m' p others' Hs.
  pose proof (sqlite3WalFrames_rg present w szPage l pages nTruncate syncFlags Hsz Hp Hne Ht Hlen Hpad Hwl H0 m Hrl Hst) as Hrg.
  destruct (beside_harmless present (agree writer_cell) _ _ _ _ _ _ _ _ Hrg Ho Hs) as [[Hns Hd] HT].
  assert (Hpre : forall w1 l1, log_state w1 szPage m' l1 -> forall l', log_frames m' l' -> l1 `prefix_of` l').
  { intros w1 l1 Hst1 l' Hl'. destruct (decide (l1 = [])) as [->|Hl1]; [apply prefix_nil|].
    destruct (ls_log _ _ _ _ Hst1 Hl1) as (fmt & F1 & F2 & F3 & F4). apply (log_frames_prefix fmt m' l1 (aFrameCksum (hdr w1)) l'); [by rewrite F3|done..]. }
  split; [done|]. split.
  - intros l' Hl'. destruct (decide (l = [])) as [->|Hl]; [apply prefix_nil|].
    destruct (ls_log _ _ _ _ Hst Hl) as (fmt & F1 & F2 & F3 & F4). assert (Hg : good_size (lf_szPage fmt) = true) by (by rewrite F3).
    assert (Hk : keeps (frame_off fmt (Z.of_nat (length l) + 1)) m m').
    { rewrite <- log_end_eq, F3 by done. apply (HT (keeps (log_end szPage l))); [apply _|done|]. intros m1 m2 H. by apply keeps_log_cell, writer_log. }
    apply (log_frames_prefix fmt m' l (aFrameCksum (hdr w)) l' Hg); [|by apply (valid_log_keeps fmt Hg m)|done].
    rewrite (log_header_keeps (frame_off fmt (Z.of_nat (length l) + 1)) m m'); [done| |done]. apply frame_off_ge; [done|lia].
  - intros w' Hw'. destruct (Hd _ Hw' eq_refl) as [Hc1 Hc2]. split; [done|]. split; [done|]. by apply (Hpre w').
Qed.

(** ** Witnesses *)

(** A writer that has its locks, on an empty log, and its first transaction. *)
Definition wal_writer : Wal := mkWal [true; true] 512 1 WAL_NORMAL_MODE true false 0 false zero_hdr 1 0 0 false 0 (-1) false false.
Definition wal_first : option (Wal * Z * mem) := run (sqlite3WalFrames wal_writer 512 [(7, 70); (8, 80)] 9 true 0) ∅.
Definition wal_after : Wal := match wal_first with Some (w, _, _) => w | None => wal_writer end.
Definition log_after : mem := match wal_first with Some (_, _, m) => m | None => ∅ end.

(** Another connection that takes a lock and marks what it reads. *)
Definition wal_other : prog (Wal * Z) := rc ← walLockShared wal_writer (WAL_READ_LOCK 2); Done (wal_writer, rc).
Definition wal_marker : prog (Wal * Z) := _ ← store (aReadMark 2) 2; Done (wal_writer, SQLITE_OK).

Lemma wal_other_harmless present m : harmless present only_locks m wal_other.
Proof.
  unfold harmless, wal_other, walLockShared. cbn. intros e. case_bool; [|done]. intros m1 _.
  destruct (lock_shared (WAL_READ_LOCK 2) m1) as [m2|] eqn:E; [|by intros m2 _].
  split; [|by intros m3 _]. revert E. unfold lock_shared. case_bool; [|done]. intros [= <-]. apply agree_store. by intros [].
Qed.

Lemma wal_marker_harmless present m : harmless present (agree writer_cell) m wal_marker.
Proof. intros m1 _. split; [|by intros m3 _]. apply agree_store. cbn. lia. Qed.

Lemma wal_first_ok : snd <$> (fst <$> wal_first) = Some SQLITE_OK.
Proof. vm_compute. reflexivity. Qed.

Lemma wal_after_lock : writeLock wal_after = true /\ mapped wal_after 0 = true /\ readLock wal_after = 1 /\ padToSectorBoundary wal_after = false.
Proof. vm_compute. done. Qed.

Lemma wal_empty_state : log_state wal_writer 512 ∅ [].
Proof.
  assert (H : Forall (fun j => 0 = word (hdr_words zero_hdr) j) (seqZ 0 12)) by (by repeat constructor).
  rewrite Forall_forall in H. split; [apply writer_empty|done| |done|done].
  split; intros j Hj; rewrite rd_empty; by apply H, elem_of_seqZ.
Qed.

Lemma wal_first_state : log_state wal_after 512 log_after [(7, 0); (8, 9)].
Proof.
  assert (Hrg : rg (fun _ => True) (agree writer_cell) (keeps (log_end 512 [])) (sqlite3WalFrames wal_writer 512 [(7, 70); (8, 80)] 9 true 0)
    (fun '(w', rc) m' => rc = SQLITE_OK -> committed 512 [] [(7, 70); (8, 80)] 9 w' m') ∅).
  { apply sqlite3WalFrames_rg; try done; [repeat constructor; cbn; lia|by left|apply wal_empty_state]. }
  destruct (rg_alone _ _ _ _ _ _ Hrg) as ([w rc] & m & Hr & HQ). clear Hrg. fold wal_first in Hr. pose proof wal_first_ok as Hok.
  unfold wal_after, log_after. rewrite Hr in Hok |- *. injection Hok as ->. apply HQ. done.
Qed.

(** The second transaction, beside a connection that marks what it reads. *)
Definition wal_second : prog (Wal * Z) := sqlite3WalFrames wal_after 512 [(9, 91)] 9 true 0.

Definition wal_turns : list (nat * nat) := [(0%nat, 100%nat); (1%nat, 3%nat); (0%nat, Z.to_nat 20000)].

(** How far the threads are: the number of frames of the connection, and the code. *)
Definition wal_result (s : list (nat * nat)) : option (option (Z * Z)) :=
  '(_, ps) ← schedule s log_after [wal_second; wal_marker];
  Some match ps !! 0%nat with Some (Done (w, rc)) => Some (mxFrame (hdr w), rc) | _ => None end.

Lemma wal_second_run : wal_result wal_turns = Some (Some (3, SQLITE_OK)).
Proof. vm_compute. reflexivity. Qed.

Lemma wal_result_done s k rc :
  wal_result s = Some (Some (k, rc)) -> exists m w others,
    steps (fun _ => True) (log_after, [wal_second; wal_marker]) (m, Done (w, rc) :: others) /\ mxFrame (hdr w) = k.
Proof.
  unfold wal_result. destruct (schedule s log_after [wal_second; wal_marker]) as [[m ps]|] eqn:Hs; [|done].
  destruct ps as [|p ps]; [done|]. cbn. destruct p as [[w rc']| | | | | | |]; try done. intros [= <- <-].
  exists m, w, ps. split; [|done]. by apply (schedule_steps _ s).
Qed.

#[local] Opaque wal_after log_after.

Lemma commit_recoverable_witness : exists m w,
  mxFrame (hdr w) = 3 /\ log_state w 512 m [(7, 0); (8, 9); (9, 9)] /\ forall l, log_frames m l -> [(7, 0); (8, 9); (9, 9)] `prefix_of` l.
Proof.
  destruct (wal_result_done _ _ _ wal_second_run) as (m & w & others & Hs & Hw). exists m, w.
  unfold wal_second in Hs. destruct wal_after_lock as (L1 & L2 & L3 & L4).
  assert (Hlock : readLock wal_after <> 0) by (by rewrite L3).
  destruct (commit_recoverable (fun _ => True) wal_after 512 [(7, 0); (8, 9)] [(9, 91)] 9 0 log_after [wal_marker] eq_refl
    ltac:(repeat constructor; cbn; lia) ltac:(clear; done) ltac:(clear; done) ltac:(clear; cbn; lia) (or_introl eq_refl) L1 L2 Hlock wal_first_state
    (Forall_cons_2 _ _ _ (wal_marker_harmless _ _) (Forall_nil_2 _)) m _ others Hs) as (_ & _ & H).
  destruct (H w eq_refl) as (H1 & _ & H2). cbn [app new_frames] in H1, H2. split; [exact Hw|]. split; [exact H1|exact H2].
Defined.

(** A log without an index: the index was deleted after the first transaction. *)
Definition lost_index : mem := filter (fun x : cell * Z => match x.1 with Word _ _ | Slot _ _ => false | _ => true end = true) log_after.
Definition wal_recoverer : Wal := mkWal [true; true] 0 (-1) WAL_NORMAL_MODE true false 0 false zero_hdr 0 0 0 false 0 (-1) false false.

Definition recovery_result : option (option (Z * Z * Z)) :=
  '(_, ps) ← schedule [(0%nat, 10%nat); (1%nat, 3%nat); (0%nat, Z.to_nat 20000)] lost_index [walIndexRecover wal_recoverer; wal_other];
  Some match ps !! 0%nat with Some (Done (w, rc)) => Some (mxFrame (hdr w), nPage (hdr w), rc) | _ => None end.

Lemma recovery_run : recovery_result = Some (Some (2, 9, SQLITE_OK)).
Proof. vm_compute. reflexivity. Qed.

Lemma lost_index_slots pg k : 0 <= slot_at lost_index pg k.
Proof.
  unfold slot_at, rd, lost_index. rewrite map_lookup_filter_None_2; [done|]. right. by intros v _.
Qed.

Lemma lost_index_size : rd lost_index LogSize <= 2 ^ 40.
Proof. apply Z.leb_le. vm_compute. reflexivity. Qed.

Lemma recovery_correct_witness : exists m w l,
  same_files lost_index m /\ mxFrame (hdr w) = 2 /\ nPage (hdr w) = 9 /\ log_frames m l /\ recovered w m l.
Proof.
  pose proof recovery_run as Hr. unfold recovery_result in Hr.
  destruct (schedule _ lost_index [walIndexRecover wal_recoverer; wal_other]) as [[m ps]|] eqn:Hs; [|discriminate Hr].
  apply (schedule_steps (fun _ => True)) in Hs. destruct ps as [|p ps]; [discriminate Hr|]. cbn in Hr.
  destruct p as [[w rc]| | | | | | |]; try discriminate Hr. injection Hr as E1 E2 ->.
  destruct (recovery_correct (fun _ => True) wal_recoverer lost_index [wal_other] eq_refl eq_refl lost_index_slots lost_index_size
    (Forall_cons_2 _ _ _ (wal_other_harmless _ _) (Forall_nil_2 _))) as [_ H].
  destruct (H m _ ps Hs) as (H1 & _ & H2). destruct (H2 w eq_refl) as (l & H3 & H4). exists m, w, l. done.
Defined.
