(* ===== verification/WalCheckpointSpec.v ===== *)
(** Checkpoints leave readers alone: what a checkpoint does to memory and to the
    database, one access at a time, and what it relies on. *)
From S2P Require Import Prelude SharedMem WalIndex WalIndexSpec WalIndexReader WalIndexWriter WalIndexTheorems WalHeader WalIterator WalSortSpec WalIteratorSpec WalFrame WalLocks WalFile WalCheckpoint.

(** ** Snapshots *)

(** A connection that reads page [r_pgno] in a read transaction; [r_mark] is the read
    mark that it holds a lock on. *)
Record page_reader := mkReader { r_wal : Wal; r_mark : Z; r_pgno : Z }.

Definition r_lock (r : page_reader) : Z := readLock (r_wal r).
Definition r_min (r : page_reader) : Z := minFrame (r_wal r).
Definition r_mx (r : page_reader) : Z := mxFrame (hdr (r_wal r)).

Section checkpoint.
Context (present : Z -> Prop) (f g : Z -> Z) (w0 : Wal) (nb0 : Z) (readers : list page_reader).

(** The checkpointer sees [n] frames of [f], with the contents [g], and [np] pages of
    size [sz]. *)
Abbreviation n := (mxFrame (hdr w0)).
Abbreviation np := (nPage (hdr w0)).
Abbreviation sz := (walPagesize w0).

Definition log_off (i : Z) : Z := walFrameOffset i sz + WAL_FRAME_HDRSIZE.
Definition db_off (p : Z) : Z := (p - 1) * sz.

(** The reader takes its page from the database, not from the log. *)
Definition reads_db (r : page_reader) : Prop := r_lock r = 0 \/ forall i, r_min r <= i <= r_mx r -> f i <> r_pgno r.

(** Frame [i] is the last of page [p] in the log. *)
Definition last_of (p i : Z) : Prop := 1 <= i <= n /\ f i = p /\ forall j, i < j <= n -> f j <> p.

(** The pages whose last frame is at most [nb] are in the database. *)
Definition backfilled (nb : Z) (m : mem) : Prop :=
  forall p i, 1 <= p <= np -> last_of p i -> i <= nb -> rd m (DbAt (db_off p)) = g i.

(** The invariant while the checkpoint runs. *)
Record ckpt_inv (nb : Z) (m : mem) : Prop := {
  ci_index : index_ok m f n;
  ci_log i : 1 <= i <= n -> rd m (LogAt (log_off i)) = g i;
  ci_db : backfilled (rd m nBackfill) m;
  ci_nb : rd m nBackfill = nb;
  ci_lock r : r ∈ readers -> 0 < rd m (Lck (WAL_READ_LOCK (r_lock r))) /\ rd m (aReadMark (r_lock r)) = r_mark r;
  ci_mx : n <= rd m shm_mxFrame;
  ci_now r : r ∈ readers -> r_mx r <= rd m shm_mxFrame }.

(** What the others may do meanwhile: append to the log, and move read marks that no
    reader of the list holds. *)
Record ckpt_rely (m m' : mem) : Prop := {
  kr_tables : rely false n m m';
  kr_log i : 1 <= i <= n -> rd m' (LogAt (log_off i)) = rd m (LogAt (log_off i));
  kr_db off : rd m' (DbAt off) = rd m (DbAt off);
  kr_nb : rd m' nBackfill = rd m nBackfill;
  kr_lock r : r ∈ readers -> 0 < rd m (Lck (WAL_READ_LOCK (r_lock r))) ->
    0 < rd m' (Lck (WAL_READ_LOCK (r_lock r))) /\ rd m' (aReadMark (r_lock r)) = rd m (aReadMark (r_lock r));
  kr_mx : rd m shm_mxFrame <= rd m' shm_mxFrame }.

#[global] Instance ckpt_rely_preorder : PreOrder ckpt_rely.
Proof.
  split; [by intros m; split|]. intros m1 m2 m3 [A1 A2 A3 A4 A5 A6] [B1 B2 B3 B4 B5 B6]. split.
  - by transitivity m2.
  - intros i Hi. by rewrite B2, A2.
  - intros off. by rewrite B3, A3.
  - by rewrite B4, A4.
  - intros r Hr Hl. destruct (A5 r Hr Hl) as [C1 C2]. destruct (B5 r Hr C1) as [D1 D2]. split; [done|congruence].
  - lia.
Qed.

(** What the checkpoint does: the index and the log stay, the pages that a reader takes
    from the database stay, and at every moment the pages up to [nBackfill] are in the
    database. *)
Record ckpt_guar (m m' : mem) : Prop := {
  kg_tables : agree table_cell m m';
  kg_log off : rd m' (LogAt off) = rd m (LogAt off);
  kg_reader r : r ∈ readers -> reads_db r -> rd m' (DbAt (db_off (r_pgno r))) = rd m (DbAt (db_off (r_pgno r)));
  kg_db : backfilled (rd m nBackfill) m -> backfilled (rd m' nBackfill) m' }.

(** The readers hold locks, started after the last checkpoint, and their snapshots
    contain their read marks; those whose snapshot is that of the checkpointer see the
    same size of the database. *)
Record reader_in (r : page_reader) : Prop := {
  ri_lock : 0 <= r_lock r < WAL_NREADER;
  ri_min : r_lock r <> 0 -> 1 <= r_min r <= nb0 + 1;
  ri_mark : r_lock r <> 0 -> r_mark r <= r_mx r;
  ri_page : 1 <= r_pgno r <= nPage (hdr (r_wal r));
  ri_size : r_mx r = n -> nPage (hdr (r_wal r)) <= np }.

Hypothesis Hn : 1 <= n < 2 ^ 31.
Hypothesis Hf : forall i, 1 <= i <= n -> 0 < f i < 0xFFFFFFFF.
Hypothesis Hnb : 0 <= nb0.
Hypothesis Hsz : 0 < sz.
Hypothesis Hreaders : forall r, r ∈ readers -> reader_in r.

Lemma last_unique p i i' : last_of p i -> last_of p i' -> i = i'.
Proof.
  intros (H1 & H2 & H3) (H1' & H2' & H3'). destruct (Z.lt_trichotomy i i') as [Hlt|[->|Hlt]]; [|done|].
  - exfalso. apply (H3 i'); [lia|done].
  - exfalso. apply (H3' i); [lia|done].
Qed.

Lemma db_off_inj p p' : db_off p = db_off p' -> p = p'.
Proof. unfold db_off. nia. Qed.

Lemma inv_stable {nb} m m' : ckpt_rely m m' -> ckpt_inv nb m -> ckpt_inv nb m'.
Proof.
  intros [A1 A2 A3 A4 A5 A6] [C1 C2 C3 C4 C5 C6 C7]. split.
  - apply (unchanged_ok n f m); [apply A1|done].
  - intros i Hi. by rewrite A2, C2.
  - rewrite A4. intros p i Hp Hl Hi. rewrite A3. by apply C3.
  - by rewrite A4.
  - intros r Hr. destruct (C5 r Hr) as [D1 D2]. destruct (A5 r Hr D1) as [E1 E2]. split; [done|congruence].
  - lia.
  - intros r Hr. specialize (C7 r Hr). lia.
Qed.

(** ** Stores that are none to the log, the tables or the database *)

Definition plain (c : cell) : Prop :=
  match c with Word 0 i => 0 <= i < 34 | Lck _ => True | _ => False end.

Lemma plain_tables c v m : plain c -> agree table_cell m (<[c := v]> m).
Proof. intros Hc. apply agree_store. destruct c as [[]| | | | |]; cbn in *; (done || lia). Qed.

Lemma plain_guar c v m : plain c -> c <> nBackfill -> ckpt_guar m (<[c := v]> m).
Proof.
  intros Hc Hne. assert (Hdb : forall off, rd (<[c := v]> m) (DbAt off) = rd m (DbAt off)).
  { intros off. rewrite rd_insert. case_decide; [by subst|done]. }
  split.
  - by apply plain_tables.
  - intros off. rewrite rd_insert. case_decide; [by subst|done].
  - intros r _ _. apply Hdb.
  - intros H p i. rewrite rd_insert, decide_False by done. rewrite Hdb. apply H.
Qed.

Lemma plain_inv {nb} c v m :
  plain c -> c <> nBackfill -> c <> shm_mxFrame ->
  (forall r, r ∈ readers -> c <> Lck (WAL_READ_LOCK (r_lock r)) /\ c <> aReadMark (r_lock r)) ->
  ckpt_inv nb m -> ckpt_inv nb (<[c := v]> m).
Proof.
  intros Hc Hne Hmx Hr [C1 C2 C3 C4 C5 C6 C7]. pose proof (plain_guar c v m Hc Hne) as [G1 G2 G3 G4]. split.
  - by apply (table_index m).
  - intros i Hi. by rewrite G2, C2.
  - by apply G4.
  - by rewrite rd_insert, decide_False.
  - intros r Hin. destruct (Hr r Hin). rewrite !rd_insert, !decide_False by done. by apply C5.
  - by rewrite rd_insert, decide_False.
  - intros r Hin. rewrite rd_insert, decide_False by done. by apply C7.
Qed.

(** ** Locks *)

Abbreviation rgc := (rg present ckpt_rely ckpt_guar).

(** No reader of the list holds lock [i]. *)
Definition no_reader (i : Z) : Prop := forall r, r ∈ readers -> WAL_READ_LOCK (r_lock r) <> i.

Lemma lock_inv {nb} i v m :
  no_reader i -> ckpt_inv nb m -> ckpt_guar m (<[Lck i := v]> m) /\ ckpt_inv nb (<[Lck i := v]> m).
Proof.
  intros Hno Hi. split; [by apply plain_guar|]. apply plain_inv; try done.
  intros r Hr. split; [|done]. intros [= E]. by apply (Hno r Hr).
Qed.

Lemma not_held {nb} i m : rd m (Lck i) <= 0 -> ckpt_inv nb m -> no_reader i.
Proof. intros Hl Hi r Hr E. destruct (ci_lock _ _ Hi r Hr) as [H _]. rewrite E in H. lia. Qed.

Lemma walLockExclusive_rg w i m Q :
  exclusiveMode w = 0 -> ckpt_inv nb0 m ->
  (forall rc m', ckpt_inv nb0 m' -> (rc = SQLITE_OK -> no_reader i) -> Q rc m') ->
  rgc (walLockExclusive w i 1) Q m.
Proof.
  intros Hx Hi HQ. unfold walLockExclusive, shm_lock. rewrite Hx. cbn. intros e.
  destruct (e =? SQLITE_OK) eqn:E; bool_to_prop.
  2: { apply rg_done. intros m' HR. apply HQ; [by eapply (inv_stable m)|done]. }
  intros m1 HR. cbn. pose proof (inv_stable _ _ HR Hi) as Hi1. destruct (rd m1 (Lck i) =? 0) eqn:E0; bool_to_prop.
  - assert (Hno : no_reader i) by (eapply (not_held i m1); [lia|done]). destruct (lock_inv i (-1) m1 Hno Hi1) as [HG Hi2].
    split; [done|]. intros m2 HR2. apply HQ; [by eapply inv_stable|done].
  - intros m2 HR2. apply HQ; [by eapply inv_stable|done].
Qed.

Lemma walUnlockExclusive_rg {nb} w i m Q :
  ckpt_inv nb m -> (forall m', ckpt_inv nb m' -> Q () m') -> rgc (walUnlockExclusive w i 1) Q m.
Proof.
  intros Hi HQ. unfold walUnlockExclusive, shm_unlock. case_bool.
  { apply rg_done. intros m' HR. apply HQ. by eapply inv_stable. }
  cbn. intros m1 HR. pose proof (inv_stable _ _ HR Hi) as Hi1. destruct (rd m1 (Lck i) =? -1) eqn:E0; bool_to_prop.
  - assert (Hno : no_reader i) by (eapply (not_held i m1); [lia|done]). destruct (lock_inv i 0 m1 Hno Hi1) as [HG Hi2].
    split; [done|]. intros m2 HR2. apply HQ. by eapply inv_stable.
  - intros m2 HR2. apply HQ. by eapply inv_stable.
Qed.

Lemma walBusyLock_rg xBusy w i m Q :
  exclusiveMode w = 0 -> ckpt_inv nb0 m ->
  (forall rc xb m', ckpt_inv nb0 m' -> (rc = SQLITE_OK -> no_reader i) -> Q (rc, xb) m') ->
  rgc (walBusyLock xBusy w i 1) Q m.
Proof.
  intros Hx. revert m. induction xBusy as [|xBusy IH]; intros m Hi HQ; cbn [walBusyLock]; rg_bind;
    (apply walLockExclusive_rg; [done|done|]); intros rc m1 Hi1 Hno.
  - apply rg_done. intros m' HR. apply HQ; [by eapply inv_stable|done].
  - case_bool; [by apply IH|]. apply rg_done. intros m' HR. apply HQ; [by eapply inv_stable|done].
Qed.

(** ** The read marks *)

Lemma mark_cell i m v :
  0 <= i < WAL_NREADER -> no_reader (WAL_READ_LOCK i) -> ckpt_inv nb0 m ->
  ckpt_guar m (<[aReadMark i := v]> m) /\ ckpt_inv nb0 (<[aReadMark i := v]> m).
Proof.
  intros Hi Hno Hinv. change WAL_NREADER with 5 in Hi. unfold aReadMark.
  assert (Hp : plain (Word 0 (25 + i))) by (cbn; lia).
  split; [apply plain_guar; [done|unfold nBackfill; intros [= E]; lia]|].
  apply plain_inv; try done; [unfold nBackfill; intros [= E]; lia|intros [= E]; unfold aHdr in E; lia|].
  intros r Hr. split; [done|]. intros [= E]. apply (Hno r Hr). f_equal. lia.
Qed.

Lemma marks_rg k w i rc mxs xBusy m Q :
  hdr w = hdr w0 -> exclusiveMode w = 0 -> 1 <= i -> i + Z.of_nat k = WAL_NREADER -> mxs <= n -> ckpt_inv nb0 m ->
  (forall rc' mxs' xb ok m', ckpt_inv nb0 m' -> mxs' <= mxs -> (ok = false -> rc' <> SQLITE_OK) ->
    (ok = true -> forall r, r ∈ readers -> i <= r_lock r -> mxs' <= r_mark r) -> Q (rc', mxs', xb, ok) m') ->
  rgc (walCheckpoint_marks k w i rc mxs xBusy) Q m.
Proof.
  intros Hw Hx. revert i rc mxs xBusy m Q. induction k as [|k IH]; intros i rc mxs xBusy m Q H1 Hk Hmx Hi HQ; cbn [walCheckpoint_marks].
  { apply rg_done. intros m' HR. apply HQ; [by eapply inv_stable|done|done|]. intros _ r Hr Hl.
    pose proof (ri_lock _ (Hreaders r Hr)). lia. }
  intros m1 HR1. cbn. pose proof (inv_stable _ _ HR1 Hi) as Hi1. set (y := rd m1 (aReadMark i)).
  assert (Hy : forall r, r ∈ readers -> r_lock r = i -> r_mark r = y).
  { intros r Hr E. destruct (ci_lock _ _ Hi1 r Hr) as [_ H]. by rewrite <- H, E. }
  (* the rest of the loop, when the readers of mark [i] are taken care of *)
  assert (Hgo : forall rc' mxs' xb m2, ckpt_inv nb0 m2 -> mxs' <= mxs -> (forall r, r ∈ readers -> r_lock r = i -> mxs' <= r_mark r) ->
    rgc (walCheckpoint_marks k w (i + 1) rc' mxs' xb) Q m2).
  { intros rc' mxs' xb m2 Hi2 Hle Hr2. apply IH; [lia|lia|lia|done|]. intros rc2 mxs2 xb2 ok m3 Hi3 Hle3 Hok3 Hr3.
    apply HQ; [done|lia|done|]. intros Ho r Hr Hl. destruct (decide (r_lock r = i)) as [E|]; [|apply Hr3; [done|done|lia]].
    specialize (Hr2 r Hr E). lia. }
  destruct (y <? mxs) eqn:Hlt; bool_to_prop.
  2: { apply Hgo; [done|done|]. intros r Hr E. rewrite (Hy r Hr E). lia. }
  apply rg_insist; [rewrite Hw; apply Z.leb_le; lia|]. rg_bind. apply walBusyLock_rg; [done|done|].
  intros rc' xb m2 Hi2 Hno. destruct (rc' =? SQLITE_OK) eqn:E1; bool_to_prop.
  - specialize (Hno E1). intros m3 HR3. pose proof (inv_stable _ _ HR3 Hi2) as Hi3. cbn.
    destruct (mark_cell i m3 (if i =? 1 then mxs else READMARK_NOT_USED) ltac:(lia) Hno Hi3) as [HG Hi4].
    split; [done|]. rg_bind. eapply walUnlockExclusive_rg; [done|]. intros m5 Hi5. apply Hgo; [done|done|].
    intros r Hr E. exfalso. apply (Hno r Hr). by rewrite E.
  - destruct (rc' =? SQLITE_BUSY) eqn:E2; bool_to_prop.
    + apply Hgo; [done|lia|]. intros r Hr E. by rewrite (Hy r Hr E).
    + apply rg_done. intros m3 HR3. apply HQ; [by eapply inv_stable|done|done|done].
Qed.

(** ** Copying *)

(** The pages up to [prior] whose last frame may be copied are in the database. *)
Definition copied (mxs prior : Z) (m : mem) : Prop :=
  forall p i, 1 <= p <= np -> last_of p i -> i <= mxs -> p <= prior -> rd m (DbAt (db_off p)) = g i.

(** The readers do not take a page that is copied from the database. *)
Lemma copy_safe mxs q i r :
  no_reader (WAL_READ_LOCK 0) -> (forall r, r ∈ readers -> mxs <= r_mark r) -> r ∈ readers -> reads_db r ->
  f i = q -> nb0 < i <= mxs -> r_pgno r <> q.
Proof.
  intros H0 Hm Hr Hdb Hfi Hi E. pose proof (Hreaders r Hr) as [R1 R2 R3 R4 R5]. specialize (Hm r Hr).
  destruct Hdb as [Hl|Hdb]; [apply (H0 r Hr); by rewrite Hl|].
  assert (Hl : r_lock r <> 0) by (intros Hl; apply (H0 r Hr); by rewrite Hl).
  specialize (R2 Hl). specialize (R3 Hl). apply (Hdb i); [lia|congruence].
Qed.

Lemma copy_store mxs q i v m :
  no_reader (WAL_READ_LOCK 0) -> (forall r, r ∈ readers -> mxs <= r_mark r) -> last_of q i -> nb0 < i <= mxs -> ckpt_inv nb0 m ->
  ckpt_guar m (<[DbAt (db_off q) := v]> m) /\ ckpt_inv nb0 (<[DbAt (db_off q) := v]> m).
Proof.
  intros H0 Hm Hl Hi Hinv.
  assert (Hother : forall c, c <> DbAt (db_off q) -> rd (<[DbAt (db_off q) := v]> m) c = rd m c).
  { intros c Hc. by rewrite rd_insert, decide_False. }
  assert (Ht : agree table_cell m (<[DbAt (db_off q) := v]> m)) by (apply agree_store; by intros []).
  assert (Hdb : backfilled nb0 m -> backfilled nb0 (<[DbAt (db_off q) := v]> m)).
  { intros Hb p j Hp Hlp Hj. rewrite Hother; [by apply Hb|]. intros [= E]. apply db_off_inj in E. subst p.
    pose proof (last_unique _ _ _ Hl Hlp). lia. }
  pose proof Hinv as [C1 C2 C3 C4 C5 C6 C7]. split.
  - split; [done| | |].
    + intros off. by apply Hother.
    + intros r Hr Hrd. apply Hother. intros [= E]. apply db_off_inj in E. by apply (copy_safe mxs q i r H0 Hm Hr Hrd); [apply Hl|..].
    + rewrite Hother by done. by rewrite C4.
  - split.
    + by apply (table_index m).
    + intros j Hj. rewrite Hother by done. by apply C2.
    + rewrite Hother by done. rewrite C4 in *. by apply Hdb.
    + by rewrite Hother.
    + intros r Hr. rewrite !Hother by done. by apply C5.
    + by rewrite Hother.
    + intros r Hr. rewrite Hother by done. by apply C7.
Qed.

Lemma os_read_rg c m Q :
  (forall rc v m', ckpt_rely m m' -> (rc = SQLITE_OK -> v = rd m' c) -> Q (rc, v) m') ->
  (forall m1 m2, ckpt_rely m m1 -> ckpt_rely m1 m2 -> rd m2 c = rd m1 c) -> rgc (os_read c) Q m.
Proof.
  intros HQ Hc rc. case_bool.
  - intros m1 H1. cbn. intros m2 H2. apply HQ; [by transitivity m1|]. intros _. symmetry. by apply Hc.
  - apply rg_done. intros m2 H2. apply HQ; [done|]. intros ->. bool_to_prop. done.
Qed.

Lemma os_write_rg mxs q i v m Q :
  no_reader (WAL_READ_LOCK 0) -> (forall r, r ∈ readers -> mxs <= r_mark r) -> last_of q i -> nb0 < i <= mxs -> ckpt_inv nb0 m ->
  (forall rc m', ckpt_inv nb0 m' ->
    (rc = SQLITE_OK -> rd m' (DbAt (db_off q)) = v /\ forall off, off <> db_off q -> rd m' (DbAt off) = rd m (DbAt off)) ->
    Q rc m') ->
  rgc (os_write (DbAt (db_off q)) v) Q m.
Proof.
  intros H0 Hm Hl Hi Hinv HQ torn m1 HR1. pose proof (inv_stable _ _ HR1 Hinv) as Hi1.
  destruct (copy_store mxs q i torn m1 H0 Hm Hl Hi Hi1) as [HG2 Hi2]. split; [done|]. intros rc.
  destruct (rc =? SQLITE_OK) eqn:E; bool_to_prop.
  2: { apply rg_done. intros m2 HR2. apply HQ; [by eapply inv_stable|done]. }
  intros m3 HR3. cbn. pose proof (inv_stable _ _ HR3 Hi2) as Hi3.
  destruct (copy_store mxs q i v m3 H0 Hm Hl Hi Hi3) as [HG4 Hi4]. split; [done|]. intros m5 HR5.
  apply HQ; [by eapply inv_stable|]. intros _. split.
  - by rewrite (kr_db _ _ HR5), rd_insert, decide_True.
  - intros off Hoff. rewrite (kr_db _ _ HR5), rd_insert, decide_False by congruence.
    rewrite (kr_db _ _ HR3), rd_insert, decide_False by congruence. apply (kr_db _ _ HR1).
Qed.

Lemma copied_next a mxs prior q r m :
  a <= nb0 -> 0 <= a -> ckpt_inv nb0 m -> copied mxs prior m -> least_after f n a prior q r ->
  (1 <= q <= np -> r <= mxs -> rd m (DbAt (db_off q)) = g r) -> copied mxs q m.
Proof.
  intros Ha Ha0 Hi Hc (L1 & L2 & L3 & L4 & L5) Hq p i Hp Hl Hmx Hpq.
  destruct (decide (p <= prior)); [by apply Hc|]. pose proof Hl as (K1 & K2 & K3). destruct (decide (i <= a)) as [Hia|Hia].
  - apply (ci_db _ _ Hi p i Hp Hl). rewrite (ci_nb _ _ Hi). lia.
  - specialize (L5 i ltac:(lia) ltac:(lia)). assert (p = q) as -> by lia.
    assert (i = r) as -> by (apply (last_unique q); [done|]; by split; [lia|]). by apply Hq.
Qed.

Lemma copied_end a mxs prior m :
  a <= nb0 -> ckpt_inv nb0 m -> copied mxs prior m -> none_after f n a prior -> backfilled mxs m.
Proof.
  intros Ha Hi Hc Hno p i Hp Hl Hmx. destruct (decide (p <= prior)); [by apply (Hc p i)|].
  pose proof Hl as (K1 & K2 & K3). apply (ci_db _ _ Hi p i Hp Hl). rewrite (ci_nb _ _ Hi).
  destruct (decide (i <= a)); [lia|]. specialize (Hno i ltac:(lia)). lia.
Qed.

Lemma copied_stable mxs prior m m' : (forall off, rd m' (DbAt off) = rd m (DbAt off)) -> copied mxs prior m -> copied mxs prior m'.
Proof. intros E H p i Hp Hl Hi Hpr. rewrite E. by apply H. Qed.

Lemma next_rgc lo prior p iFrame m :
  0 <= lo -> 0 <= prior < 0xFFFFFFFF -> at_page f n lo prior p -> ckpt_inv nb0 m ->
  rgc (walIteratorNext p iFrame) (fun '(p', last, q, r) m' => ckpt_rely m m' /\
    if last : bool then none_after f n (first lo) prior
    else least_after f n (first lo) prior q r /\ 0 <= q < 0xFFFFFFFF /\ at_page f n lo q p') m.
Proof.
  intros Hlo Hpr Hat Hi.
  set (Q := fun (res : WalIterator * bool * Z * Z) (_ : mem) => let '(p', last, q, r) := res in
    if last : bool then none_after f n (first lo) prior
    else least_after f n (first lo) prior q r /\ 0 <= q < 0xFFFFFFFF /\ at_page f n lo q p').
  eapply rg_mono; [|apply (rg_track present (rely false n) ckpt_rely ckpt_guar _ Q)].
  - by intros [[[p' last] q] r] m'.
  - apply kr_tables.
  - apply (walIteratorNext_rg present false f n ltac:(lia) Hf lo prior); try done. apply Hi.
Qed.

Lemma copy_rg fuel w p lo mxs prior iFrame m Q :
  hdr w = hdr w0 -> no_reader (WAL_READ_LOCK 0) -> (forall r, r ∈ readers -> mxs <= r_mark r) -> mxs <= n ->
  0 <= lo -> first lo <= nb0 -> 0 <= prior < 0xFFFFFFFF -> at_page f n lo prior p -> ckpt_inv nb0 m -> copied mxs prior m ->
  (remaining f n prior < fuel)%nat ->
  (forall rc m', ckpt_inv nb0 m' -> (rc = SQLITE_OK -> backfilled mxs m') -> Q rc m') ->
  rgc (walCheckpoint_copy fuel w p nb0 mxs np sz iFrame) Q m.
Proof.
  intros Hw H0 Hm Hmx Hlo Hfl. revert p prior iFrame m.
  induction fuel as [|fuel IH]; intros p prior iFrame m Hpr Hat Hi Hcp Hfuel HQ; [lia|]. cbn [walCheckpoint_copy]. rg_bind.
  eapply rg_mono; [|by apply (next_rgc lo prior)]. intros [[[p1 last] q] r] m1 [HR1 Hres].
  pose proof (inv_stable _ _ HR1 Hi) as Hi1. pose proof (copied_stable mxs prior m m1 (kr_db _ _ HR1) Hcp) as Hcp1.
  pose proof (first_nonneg lo Hlo) as Hf0. destruct last.
  { apply rg_done. intros m2 HR2. pose proof (inv_stable _ _ HR2 Hi1) as Hi2. apply HQ; [done|]. intros _.
    apply (copied_end (first lo) mxs prior); [done|done| |done]. by apply (copied_stable _ _ m1); [apply kr_db|]. }
  destruct Hres as (Hl & Hq & Hat1). pose proof Hl as (L1 & L2 & L3 & L4 & L5).
  pose proof (remaining_next f n _ _ _ _ Hf0 Hl) as Hrem.
  destruct (proj1 (walFramePage_spec r (walFramePage r) ltac:(lia)) eq_refl) as [Hpg Hrg].
  rewrite walFramePgno_eq by lia. rg_bind. intros mA HRA m2 HR2. pose proof (inv_stable _ _ HRA Hi1) as HiA.
  pose proof (inv_stable _ _ HR2 HiA) as Hi2. pose proof (copied_stable mxs prior m1 mA (kr_db _ _ HRA) Hcp1) as HcpA.
  assert (Epg : rd mA (Word (walFramePage r) (base (walFramePage r) + (r - first (walFramePage r)))) = q).
  { pose proof (tbl_pgno _ _ _ _ (ci_index _ _ HiA _ Hpg) (r - first (walFramePage r)) ltac:(unfold lim; lia)) as Ht.
    unfold pgno_at in Ht. rewrite Ht, <- L2. f_equal. lia. }
  rewrite Epg, Z.eqb_refl. cbn [insist]. intros intr. pose proof (copied_stable mxs prior mA m2 (kr_db _ _ HR2) HcpA) as Hcp2.
  case_bool; bool_to_prop.
  { intros mf. apply rg_done. intros m3 HR3. apply HQ; [by eapply inv_stable|]. by case_bool. }
  assert (Hgo : forall m3, ckpt_inv nb0 m3 -> copied mxs q m3 -> rgc (walCheckpoint_copy fuel w p1 nb0 mxs np sz r) Q m3).
  { intros m3 Hi3 Hc3. apply (IH p1 q); try done. lia. }
  destruct ((r <=? nb0) || (mxs <? r) || (np <? q)) eqn:Hskip.
  - apply Hgo; [done|]. apply (copied_next (first lo) mxs prior q r m2); try done. intros Hqp Hrm.
    apply (ci_db _ _ Hi2 q r); [done|by split; [lia|]|]. rewrite (ci_nb _ _ Hi2).
    apply orb_true_iff in Hskip as [Hskip|H]; [apply orb_true_iff in Hskip as [H|H]|]; bool_to_prop; lia.
  - bool_to_prop. rg_bind. fold (log_off r).
    assert (Hlast : last_of q r) by (by split; [lia|]).
    apply os_read_rg.
    2: { intros m3 m4 _ HR4. apply (kr_log _ _ HR4). lia. }
    intros rc v m3 HR3 Hv. pose proof (inv_stable _ _ HR3 Hi2) as Hi3. destruct (rc =? SQLITE_OK) eqn:E1; bool_to_prop; cbn [negb].
    2: { apply rg_done. intros m4 HR4. apply HQ; [by eapply inv_stable|done]. }
    rg_bind. fold (db_off q). apply (os_write_rg mxs q r); try done. intros rc' m4 Hi4 Hw4.
    destruct (rc' =? SQLITE_OK) eqn:E2; bool_to_prop; cbn [negb].
    2: { apply rg_done. intros m5 HR5. apply HQ; [by eapply inv_stable|done]. }
    destruct (Hw4 E2) as [Hwq Hwo]. apply Hgo; [done|].
    apply (copied_next (first lo) mxs prior q r m4); try done.
    + intros p' i Hp' Hl' Hi' Hpr'. rewrite Hwo; [|intros E; apply db_off_inj in E; lia].
      rewrite (kr_db _ _ HR3). by apply (Hcp2 p' i).
    + intros _ _. rewrite Hwq, (Hv E1). apply (ci_log _ _ Hi3). lia.
Qed.

(** ** Truncating, and recording what was done *)

Lemma rd_truncated size m c :
  rd (truncated size m) c = match c with DbAt off => if off <? size then rd m c else 0 | _ => rd m c end.
Proof.
  unfold rd, truncated.
  assert (Hkeep : forall b : bool, (match c with DbAt off => off <? size | _ => true end = b) ->
    filter (fun x : cell * Z => match x.1 with DbAt off => off <? size | _ => true end = true) m !! c = if b then m !! c else None).
  { intros b Hb. destruct (m !! c) as [v|] eqn:E.
    - destruct b.
      + apply map_lookup_filter_Some_2; [done|exact Hb].
      + apply map_lookup_filter_None_2. right. intros x _. cbn. by rewrite Hb.
    - rewrite (map_lookup_filter_None_2 _ m c) by (by left). by destruct b. }
  destruct c as [pg i|pg i|i|off|off|]; try by rewrite (Hkeep true eq_refl).
  rewrite (Hkeep _ eq_refl). by destruct (off <? size).
Qed.

Lemma truncate_guar m :
  (forall r, r ∈ readers -> r_mx r = n) -> ckpt_inv nb0 m ->
  let m' := truncated (np * sz) m in ckpt_guar m m' /\ ckpt_inv nb0 m' /\ (forall nb, backfilled nb m -> backfilled nb m').
Proof.
  intros Hm [C1 C2 C3 C4 C5 C6 C7] m'.
  assert (Hother : forall c, match c with DbAt _ => False | _ => True end -> rd m' c = rd m c).
  { intros c Hc. unfold m'. rewrite rd_truncated. by destruct c. }
  assert (Hin : forall p, 1 <= p <= np -> rd m' (DbAt (db_off p)) = rd m (DbAt (db_off p))).
  { intros p Hp. unfold m'. rewrite rd_truncated. rewrite (proj2 (Z.ltb_lt _ _)); [done|]. unfold db_off. nia. }
  assert (Ht : agree table_cell m m') by (intros c Hc; apply Hother; by destruct c).
  assert (Hb : forall nb, backfilled nb m -> backfilled nb m').
  { intros nb Hbf p i Hp Hl Hi. rewrite Hin by done. by apply Hbf. }
  split; [|split; [|done]].
  - split; [done| | |].
    + intros off. by apply Hother.
    + intros r Hr _. pose proof (Hreaders r Hr) as [R1 R2 R3 R4 R5]. specialize (R5 (Hm r Hr)). apply Hin. lia.
    + rewrite Hother by done. apply Hb.
  - split.
    + by apply (table_index m).
    + intros i Hi. rewrite Hother by done. by apply C2.
    + rewrite Hother by done. by apply Hb.
    + by rewrite Hother.
    + intros r Hr. rewrite !Hother by done. by apply C5.
    + by rewrite Hother.
    + intros r Hr. rewrite Hother by done. by apply C7.
Qed.

Lemma record_guar mxs m :
  ckpt_inv nb0 m -> backfilled mxs m ->
  ckpt_guar m (<[nBackfill := mxs]> m) /\ ckpt_inv mxs (<[nBackfill := mxs]> m).
Proof.
  intros [C1 C2 C3 C4 C5 C6 C7] Hb.
  assert (Hother : forall c, c <> nBackfill -> rd (<[nBackfill := mxs]> m) c = rd m c).
  { intros c Hc. by rewrite rd_insert, decide_False. }
  assert (Hb' : backfilled mxs (<[nBackfill := mxs]> m)).
  { intros p i Hp Hl Hi. rewrite Hother by done. by apply Hb. }
  assert (Hnew : rd (<[nBackfill := mxs]> m) nBackfill = mxs) by (by rewrite rd_insert, decide_True).
  split.
  - split.
    + by apply plain_tables.
    + intros off. by apply Hother.
    + intros r _ _. by apply Hother.
    + intros _. by rewrite Hnew.
  - split; [| | |done| | |].
    + apply (table_index m); [by apply plain_tables|done].
    + intros i Hi. rewrite Hother by done. by apply C2.
    + by rewrite Hnew.
    + intros r Hr. destruct (C5 r Hr). rewrite !Hother; [done| |done]. unfold nBackfill, aReadMark.
      pose proof (ri_lock _ (Hreaders r Hr)). intros [= E]. lia.
    + by rewrite Hother.
    + intros r Hr. rewrite Hother by done. by apply C7.
Qed.

(** A system call without an effect on the contents. *)
Lemma os_none_rg nb m Q :
  ckpt_inv nb m -> (forall rc m', ckpt_inv nb m' -> ckpt_rely m m' -> Q rc m') -> rgc (os_call (Done ())) Q m.
Proof.
  intros Hi HQ rc. case_bool; apply rg_done; intros m' HR; (apply HQ; [by eapply inv_stable|done]).
Qed.

Lemma backfilled_stable mxs m m' : ckpt_rely m m' -> backfilled mxs m -> backfilled mxs m'.
Proof. intros HR Hb p i Hp Hl Hi. rewrite (kr_db _ _ HR). by apply Hb. Qed.

Lemma backfill_rg w p lo mxs m Q :
  hdr w = hdr w0 -> no_reader (WAL_READ_LOCK 0) -> (forall r, r ∈ readers -> mxs <= r_mark r) -> nb0 < mxs <= n ->
  0 <= lo -> first lo <= nb0 -> at_page f n lo 0 p -> ckpt_inv nb0 m ->
  (forall rc m', ckpt_inv nb0 m' -> rc <> SQLITE_OK -> Q rc m') ->
  (forall rc m', ckpt_inv mxs m' -> rc = SQLITE_OK -> Q rc m') ->
  rgc (walCheckpoint_backfill w p mxs np sz) Q m.
Proof.
  intros Hw H0 Hm Hmx Hlo Hfl Hat Hi HE HQ. unfold walCheckpoint_backfill.
  rg_bind. intros m1 HR1 m1' HR1'. pose proof (inv_stable _ _ HR1 Hi) as Hi1. rewrite (ci_nb _ _ Hi1).
  pose proof (inv_stable _ _ HR1' Hi1) as Hi1'.
  rg_bind. intros m2 HR2. pose proof (inv_stable _ _ HR2 Hi1') as Hi2. split; [by apply plain_guar|].
  assert (Hi3 : ckpt_inv nb0 (<[nBackfillAttempted := mxs]> m2)).
  { apply plain_inv; try done. intros r Hr. split; [done|]. unfold nBackfillAttempted, aReadMark.
    pose proof (ri_lock _ (Hreaders r Hr)) as Hl. change WAL_NREADER with 5 in Hl. intros [= E]. lia. }
  apply rg_done. intros m4 HR4. pose proof (inv_stable _ _ HR4 Hi3) as Hi4.
  rg_bind. apply (os_none_rg nb0); [done|]. intros rc5 m5 Hi5 _. rg_bind.
  apply (rg_mono present _ _ _ (fun _ => ckpt_inv nb0)).
  2: { case_bool; [by apply (os_none_rg nb0)|]. apply rg_done. intros. by eapply inv_stable. }
  intros rc6 m6 Hi6. rg_bind.
  apply (rg_mono present _ _ _ (fun rc m => ckpt_inv nb0 m /\ (rc = SQLITE_OK -> backfilled mxs m))).
  2: { case_bool; bool_to_prop; [|apply rg_done; intros; split; [by eapply inv_stable|done]].
    rewrite Hw. apply (copy_rg _ w p lo mxs 0); try done; try lia.
    - intros p' i Hp' Hl Hi' Hle. lia.
    - pose proof (remaining_le f n 0). lia. }
  intros rc7 m7 [Hi7 Hb7]. destruct (rc7 =? SQLITE_OK) eqn:E7; bool_to_prop.
  2: { apply rg_done. intros m8 HR8. apply HE; [by eapply inv_stable|done]. }
  specialize (Hb7 E7). rg_bind. intros m8 HR8 m8' HR8'. pose proof (inv_stable _ _ HR8 Hi7) as Hi8.
  pose proof (inv_stable _ _ HR8' Hi8) as Hi8'. pose proof (ci_mx _ _ Hi8) as Hmx8.
  pose proof (backfilled_stable _ _ _ HR8' (backfilled_stable _ _ _ HR8 Hb7)) as Hb8. rg_bind.
  apply (rg_mono present _ _ _ (fun rc m => ckpt_inv nb0 m /\ backfilled mxs m)).
  - intros rc9 m9 [Hi9 Hb9]. destruct (rc9 =? SQLITE_OK) eqn:E9; bool_to_prop.
    + rg_bind. intros m10 HR10. pose proof (inv_stable _ _ HR10 Hi9) as Hi10.
      destruct (record_guar mxs m10 Hi10 (backfilled_stable _ _ _ HR10 Hb9)) as [HG Hi11]. split; [done|].
      intros m12 HR12 m13 HR13. apply HQ; [|done]. eapply inv_stable; [done|]. by eapply inv_stable.
    + apply rg_done. intros m10 HR10. apply HE; [by eapply inv_stable|done].
  - destruct (mxs =? rd m8 shm_mxFrame) eqn:Et; bool_to_prop.
    2: { apply rg_done. intros m9 HR9. split; [by eapply inv_stable|by eapply backfilled_stable]. }
    assert (Hall : forall r, r ∈ readers -> r_mx r = n).
    { intros r Hr. specialize (Hm r Hr). pose proof (ci_now _ _ Hi8 r Hr).
      assert (r_lock r <> 0) by (intros E; apply (H0 r Hr); by rewrite E). pose proof (ri_mark _ (Hreaders r Hr)). lia. }
    rg_bind. intros rc9. case_bool.
    + rewrite Hw. intros m9 HR9. cbn. destruct (truncate_guar m9 Hall (inv_stable _ _ HR9 Hi8')) as (HG & Hi10 & Hb10).
      specialize (Hb10 _ (backfilled_stable _ _ _ HR9 Hb8)). split; [done|]. intros m11 HR11 rc'.
      pose proof (inv_stable _ _ HR11 Hi10) as Hi11. pose proof (backfilled_stable _ _ _ HR11 Hb10) as Hb11.
      case_bool; apply rg_done; intros m12 HR12; (split; [by eapply inv_stable|by eapply backfilled_stable]).
    + bool_to_prop. apply rg_done. intros m9 HR9. rewrite (proj2 (Z.eqb_neq rc9 SQLITE_OK)) by done. apply rg_done. intros m10 HR10.
      split; [by eapply inv_stable, inv_stable|]. by eapply backfilled_stable, backfilled_stable.
Qed.

(** ** The whole checkpoint *)

(** [nBackfill] is as before, or at most [mxs], which is safe. *)
Definition advanced (mxs : Z) (m : mem) : Prop := ckpt_inv nb0 m \/ (nb0 < mxs /\ ckpt_inv mxs m).

Lemma advanced_stable mxs m m' : ckpt_rely m m' -> advanced mxs m -> advanced mxs m'.
Proof. intros HR [H|[Hl H]]; [left|right; split; [done|]]; by eapply inv_stable. Qed.

Lemma init_rgc w m :
  hdr w = hdr w0 -> ckptLock w = true -> nb0 < n -> mapped w 0 = true ->
  (forall pg, 0 <= pg <= walFramePage n -> can_map present w pg) -> ckpt_inv nb0 m ->
  rgc (walIteratorInit w nb0) (fun res m' => ckpt_rely m m' /\ initialised f n (start_page nb0) w res) m.
Proof.
  intros Hw Hck Hlt H0 Hcan Hi. apply (rg_track present (rely false n) ckpt_rely ckpt_guar _ (fun res _ => initialised f n (start_page nb0) w res)).
  - apply kr_tables.
  - apply (walIteratorInit_rg present false f n ltac:(lia) ltac:(lia) w nb0); try done; [by rewrite Hw|apply Hi].
Qed.

Lemma iterate_rg w mxs rc xBusy m Q :
  hdr w = hdr w0 -> exclusiveMode w = 0 -> ckptLock w = true -> mapped w 0 = true ->
  (forall pg, 0 <= pg <= walFramePage n -> can_map present w pg) ->
  (forall r, r ∈ readers -> r_lock r <> 0 -> mxs <= r_mark r) -> mxs <= n -> ckpt_inv nb0 m ->
  (forall w' rc' xb m', maps_more w w' -> advanced mxs m' -> Q (w', rc', xb) m') ->
  rgc (walCheckpoint_iterate w mxs np sz rc xBusy) Q m.
Proof.
  intros Hw Hx Hck H0 Hcan Hm Hmx Hi HQ. unfold walCheckpoint_iterate. rg_bind. intros m1 HR1 m2 HR2.
  pose proof (inv_stable _ _ HR1 Hi) as Hi1. pose proof (inv_stable _ _ HR2 Hi1) as Hi2. rewrite (ci_nb _ _ Hi1). rg_bind.
  destruct (nb0 <? mxs) eqn:Hlt; bool_to_prop.
  2: { apply rg_done. intros m3 HR3. apply rg_done. intros m4 HR4. apply HQ; [done|].
       left. eapply inv_stable; [done|]. by eapply inv_stable. }
  rg_bind. intros m3 HR3 m4 HR4. pose proof (inv_stable _ _ HR3 Hi2) as Hi3. pose proof (inv_stable _ _ HR4 Hi3) as Hi4.
  rewrite (ci_nb _ _ Hi3). eapply rg_mono; [|by apply init_rgc; [..|lia| | |]].
  intros [[w1 rc1] [p|]] m5 [HR5 [Hw1 Hr]]; pose proof (inv_stable _ _ HR5 Hi4) as Hi5.
  2: { apply rg_done. intros m6 HR6. apply HQ; [done|]. left. by eapply inv_stable. }
  destruct Hr as [-> Hat]. apply rg_insist; [done|]. rg_bind.
  assert (Hhdr : hdr w1 = hdr w0) by (rewrite <- Hw, (mm_rest _ _ Hw1); by destruct w).
  assert (Hx1 : exclusiveMode w1 = 0) by (rewrite <- Hx, (mm_rest _ _ Hw1); by destruct w).
  apply walBusyLock_rg; [done|done|]. intros rc6 xb6 m6 Hi6 Hno. destruct (rc6 =? SQLITE_OK) eqn:E6; bool_to_prop.
  2: { apply rg_done. intros m7 HR7. apply HQ; [done|]. left. by eapply inv_stable. }
  specialize (Hno E6). rg_bind. destruct (start_page_range n ltac:(lia) nb0 ltac:(lia)) as [Hst Hfirst].
  assert (Hend : forall nb rc7 m7, ckpt_inv nb m7 -> (nb = nb0 \/ nb0 < mxs /\ nb = mxs) ->
    rgc (_ ← walUnlockExclusive w1 (WAL_READ_LOCK 0) 1; Done (w1, rc7, xb6)) Q m7).
  { intros nb rc7 m7 Hi7 Hnb7. rg_bind. eapply walUnlockExclusive_rg; [done|]. intros m8 Hi8. apply rg_done. intros m9 HR9.
    apply HQ; [done|]. pose proof (inv_stable _ _ HR9 Hi8). destruct Hnb7 as [->|[? ->]]; [by left|by right]. }
  apply (backfill_rg w1 p (start_page nb0) mxs); try done; try lia.
  - intros r Hr. apply Hm; [done|]. intros E. apply (Hno r Hr). by rewrite E.
  - intros rc7 m7 Hi7 _. apply (Hend nb0); [done|by left].
  - intros rc7 m7 Hi7 _. apply (Hend mxs); [done|by right].
Qed.

(** What is known after a checkpoint. *)
Definition ckpt_result (eMode : Z) (rc : Z) (m : mem) : Prop :=
  exists nb, ckpt_inv nb m /\ nb0 <= nb <= n /\ (forall r, r ∈ readers -> r_lock r <> 0 -> nb = nb0 \/ nb <= r_mark r) /\
    (eMode <> SQLITE_CHECKPOINT_PASSIVE -> rc = SQLITE_OK -> nb = n).

Lemma restart_rg w eMode xBusy mxs m Q :
  hdr w = hdr w0 -> writeLock w = true -> eMode < SQLITE_CHECKPOINT_RESTART -> advanced mxs m -> mxs <= n -> nb0 <= n ->
  (forall rc m', advanced mxs m' -> (rc = SQLITE_OK -> rd m' nBackfill = n) -> Q (w, rc) m') ->
  rgc (walCheckpoint_restart w eMode xBusy) Q m.
Proof.
  intros Hw Hwl He Ha Hmx Hn0 HQ. unfold walCheckpoint_restart. apply rg_insist; [done|]. rg_bind. intros m1 HR1 m2 HR2.
  pose proof (advanced_stable _ _ _ HR1 Ha) as Ha1. pose proof (advanced_stable _ _ _ HR2 Ha1) as Ha2.
  assert (Hle : rd m1 nBackfill <= n) by (destruct Ha1 as [H|[_ H]]; rewrite (ci_nb _ _ H); lia).
  case_bool; bool_to_prop; [|rewrite (proj2 (Z.leb_gt _ _)) by done];
    apply rg_done; intros m3 HR3; (apply HQ; [by eapply advanced_stable|]).
  - done.
  - intros _. rewrite (kr_nb _ _ HR3), (kr_nb _ _ HR2). rewrite Hw in *. lia.
Qed.

Lemma walCheckpoint_rg w eMode xBusy m :
  hdr w = hdr w0 -> exclusiveMode w = 0 -> ckptLock w = true -> mapped w 0 = true ->
  (forall pg, 0 <= pg <= walFramePage n -> can_map present w pg) -> nb0 <= n ->
  (eMode = SQLITE_CHECKPOINT_PASSIVE -> xBusy = 0%nat) -> (eMode <> SQLITE_CHECKPOINT_PASSIVE -> writeLock w = true) ->
  eMode < SQLITE_CHECKPOINT_RESTART -> ckpt_inv nb0 m ->
  rgc (walCheckpoint w eMode xBusy) (fun '(w', rc) m' => maps_more w w' /\ ckpt_result eMode rc m') m.
Proof.
  intros Hw Hx Hck H0 Hcan Hn0 Hp Hnp He Hi. unfold walCheckpoint, walCkptInfo.
  apply rg_insist. { pose proof (mapped_len w 0 ltac:(lia) H0). rewrite H0, andb_true_r. by apply Z.ltb_lt. }
  rg_bind. intros m1 HR1 m2 HR2. pose proof (inv_stable _ _ HR1 Hi) as Hi1. pose proof (inv_stable _ _ HR2 Hi1) as Hi2.
  rewrite (ci_nb _ _ Hi1). rg_bind.
  set (safe := fun mxs => mxs <= n /\ forall r, r ∈ readers -> r_lock r <> 0 -> mxs <= r_mark r \/ mxs <= nb0).
  apply (rg_mono present _ _ _ (fun '(w', rc, xb, out) m' =>
    maps_more w w' /\ (exists mxs, safe mxs /\ advanced mxs m') /\ (out = true -> rc <> SQLITE_OK))).
  - intros [[[w1 rc1] xb1] out1] m3 (Hw1 & (mxs & [Hmx Hsafe] & Ha) & Hout).
    assert (Hhdr : hdr w1 = hdr w0) by (rewrite <- Hw, (mm_rest _ _ Hw1); by destruct w).
    assert (Hres : forall rc m', advanced mxs m' ->
      (eMode <> SQLITE_CHECKPOINT_PASSIVE -> rc = SQLITE_OK -> rd m' nBackfill = n) -> ckpt_result eMode rc m').
    { intros rc m' Hm' Hfull.
      assert (Hrd : forall nb, ckpt_inv nb m' -> eMode <> SQLITE_CHECKPOINT_PASSIVE -> rc = SQLITE_OK -> nb = n).
      { intros nb H Hne Hrc. by rewrite <- (Hfull Hne Hrc), (ci_nb _ _ H). }
      destruct Hm' as [H|[Hlt H]]; [exists nb0|exists mxs]; (split; [done|split; [lia|split; [|by apply Hrd]]]); intros r Hr Hl.
      - by left.
      - destruct (Hsafe r Hr Hl); [by right|lia]. }
    destruct ((negb out1 && (rc1 =? SQLITE_OK)) && negb (eMode =? SQLITE_CHECKPOINT_PASSIVE)) eqn:Hc; bool_to_prop.
    + apply (restart_rg _ _ _ mxs); try done.
      * destruct (maps_more_fields _ _ Hw1) as [_ ->]. by apply Hnp.
      * intros rc m4 Ha4 Hfull. split; [done|]. apply Hres; [done|]. by intros _.
    + apply rg_done. intros m4 HR4. split; [done|]. apply Hres; [by eapply advanced_stable|]. intros Hne ->.
      exfalso. destruct Hc as [Hc|Hc]; bool_to_prop; [|done]. destruct out1; [by apply Hout|]. by destruct Hc.
  - destruct (nb0 <? mxFrame (hdr w)) eqn:Hlt; bool_to_prop.
    2: { apply rg_done. intros m3 HR3. split; [done|]. split; [|done]. exists nb0. split; [split; [done|]|].
         - intros r Hr _. by right.
         - left. by eapply inv_stable. }
    apply rg_insist.
    { destruct (Z.eqb_spec eMode SQLITE_CHECKPOINT_PASSIVE) as [E|]; [|done]. by rewrite (Hp E). }
    rg_bind. apply marks_rg; [done|done|lia|done|by rewrite Hw|done|]. intros rc3 mxs xb3 ok m3 Hi3 Hmx Hok Hmk. rewrite Hw in Hmx.
    destruct ok; cbn [negb].
    + rg_bind. replace (walPagesize w) with sz by (unfold walPagesize; by rewrite Hw).
      rewrite Hw. apply iterate_rg; [done|done|done|done|done| |lia|done|].
      * intros r Hr Hl. apply Hmk; [done|done|]. pose proof (ri_lock _ (Hreaders r Hr)). lia.
      * intros w4 rc4 xb4 m4 Hw4 Ha4. apply rg_done. intros m5 HR5. split; [done|]. split; [|done].
        exists mxs. split; [|by eapply advanced_stable]. split; [lia|]. intros r Hr Hl. left.
        apply Hmk; [done|done|]. pose proof (ri_lock _ (Hreaders r Hr)). lia.
    + apply rg_done. intros m4 HR4. split; [done|]. split; [|intros _; by apply Hok]. exists nb0. split; [split; [done|]|].
      * intros r Hr _. by right.
      * left. by eapply inv_stable.
Qed.
End checkpoint.
