(* ===== verification/WalCheckpointTheorems.v ===== *)
(** The theorems on checkpoints: sorting, the iterator, and a checkpoint beside readers
    and a writer. *)
From Stdlib Require Import Sorting.Sorted.
From S2P Require Import Prelude SharedMem WalIndex WalIndexSpec WalIndexReader WalIndexWriter WalIndexTheorems WalHeader WalIterator WalSortSpec WalIteratorSpec WalFrame WalLocks WalFile WalCheckpoint WalCheckpointSpec.

(** ** Reading a page beside others *)

(** The page that a reader gets in its snapshot of [m]. *)
Definition snapshot_page (f : Z -> Z) (sz : Z) (m : mem) (r : page_reader) (v : Z) : Prop :=
  exists i, (r_lock r = 0 /\ i = 0 \/ r_lock r <> 0 /\ is_last_frame f (r_mx r) (r_pgno r) (r_min r) i) /\
    v = rd m (if i =? 0 then DbAt ((r_pgno r - 1) * sz) else LogAt (walFrameOffset i sz + WAL_FRAME_HDRSIZE)).

(** What the reader relies on: its part of the index, the log, and the page in the
    database if it is not in the log. *)
Record page_rely (only : bool) (f : Z -> Z) (sz : Z) (r : page_reader) (m m' : mem) : Prop := {
  pr_index : 1 <= r_mx r -> rely only (r_mx r) m m';
  pr_log off : rd m' (LogAt off) = rd m (LogAt off);
  pr_db : reads_db f r -> rd m' (DbAt ((r_pgno r - 1) * sz)) = rd m (DbAt ((r_pgno r - 1) * sz)) }.

#[global] Instance page_rely_preorder only f sz r : PreOrder (page_rely only f sz r).
Proof.
  split; [by intros m; split|]. intros m1 m2 m3 [A1 A2 A3] [B1 B2 B3]. split.
  - intros H. transitivity m2; auto.
  - intros off. by rewrite B2.
  - intros H. rewrite B3, A3; auto.
Qed.

(** A connection in a read transaction, whose snapshot is not after [mx]. *)
Record page_reader_ok (present : Z -> Prop) (only : bool) (mx sz : Z) (r : page_reader) : Prop := {
  po_mx : 0 <= r_mx r <= mx;
  po_size : walPagesize (r_wal r) = sz;
  po_page : 0 < r_pgno r;
  po_lock : 0 <= r_lock r;
  po_shm : bShmUnreliable (r_wal r) = false;
  po_min : r_lock r <> 0 -> 1 <= r_min r < 2 ^ 31;
  po_map : mapped (r_wal r) 0 = true;
  po_present pg : 0 <= pg <= walFramePage (r_mx r) -> can_map present (r_wal r) pg;
  po_only : only = true \/ first (walFramePage (r_mx r)) < r_min r }.

Lemma snapshot_none f sz m r : reads_db f r -> r_lock r = 0 \/ r_lock r <> 0 ->
  snapshot_page f sz m r (rd m (DbAt ((r_pgno r - 1) * sz))).
Proof.
  intros Hdb [Hl|Hl]; exists 0; (split; [|done]); [by left|right]. split; [done|]. left. split; [done|].
  intros j Hj. destruct Hdb as [|Hdb]; [done|]. apply Hdb. lia.
Qed.

Lemma os_read_kept_rg present R G c v m Q :
  (forall m', R m m' -> rd m' c = v) -> PreOrder R ->
  (forall rc x m', R m m' -> (rc = SQLITE_OK \/ rc = SQLITE_IOERR_SHORT_READ -> x = v) -> Q (rc, x) m') ->
  rg present R G (os_read c) Q m.
Proof.
  intros Hv HP HQ rc. case_bool.
  - intros m1 H1. cbn. intros m2 H2. apply HQ; [by transitivity m1|]. intros _. by apply Hv.
  - apply rg_done. intros m2 H2. apply HQ; [done|]. intros Hrc. exfalso. bool_to_prop. destruct Hrc; tauto.
Qed.

Lemma readDbPage_rg present only f mx sz r m :
  mx < 2 ^ 31 -> index_ok m f mx -> page_reader_ok present only mx sz r ->
  rg present (page_rely only f sz r) (fun _ _ => False) (readDbPage (r_wal r) sz (r_pgno r))
    (fun '(w', rc, v) _ => rc = SQLITE_OK -> snapshot_page f sz m r v) m.
Proof.
  intros Hmx Hok [P1 P2 P3 P4 P5 P6 P7 P8 P9]. set (R := page_rely only f sz r). set (w := r_wal r) in *.
  unfold readDbPage. rg_bind.
  (* the search: frame 0 only if the page is in the database *)
  set (Q0 := fun (res : Wal * Z * Z) (_ : mem) => let '(w', rc, i) := res in maps_more w w' /\
    (rc = SQLITE_OK -> if decide (i = 0) then reads_db f r else r_lock r <> 0 /\ is_last_frame f (r_mx r) (r_pgno r) (r_min r) i)).
  apply (rg_mono present R _ _ (fun res m' => R m m' /\ Q0 res m')).
  - intros [[w' rc] i] m1 (HR & Hw & Hi). destruct (rc =? SQLITE_OK) eqn:Erc; bool_to_prop; cbn [negb].
    2: { by apply rg_done. }
    specialize (Hi Erc). destruct (i =? 0) eqn:Ei; bool_to_prop; cbn [negb].
    + rewrite decide_True in Hi by done. rg_bind. apply (os_read_kept_rg _ R _ _ (rd m (DbAt ((r_pgno r - 1) * sz)))); [|apply _|].
      * intros m2 HR2. apply (pr_db only f sz r m m2); [by transitivity m1|done].
      * intros rc' x m2 HR2 Hx. apply rg_done. intros m3 _ Hrc. rewrite Hx; [apply snapshot_none; [done|lia]|].
        case_bool; bool_to_prop; auto.
    + rewrite decide_False in Hi by done. unfold sqlite3WalReadFrame.
      assert (Esz : Z.land (szPage16 (hdr w')) 0xfe00 + Z.shiftl (Z.land (szPage16 (hdr w')) 1) 16 = sz).
      { rewrite <- P2. assert (hdr w' = hdr w) as -> by (rewrite (mm_rest _ _ Hw); by destruct w). done. }
      rewrite Esz. rg_bind. apply (os_read_kept_rg _ R _ _ (rd m (LogAt (walFrameOffset i sz + WAL_FRAME_HDRSIZE)))); [|apply _|].
      * intros m2 HR2. apply (pr_log only f sz r m m2). by transitivity m1.
      * intros rc' x m2 HR2 Hx. apply rg_done. intros m3 _ Hrc. rewrite Hx by auto. exists i. split; [by right|].
        by rewrite (proj2 (Z.eqb_neq _ _)).
  - destruct (decide (r_mx r = 0 \/ r_lock r = 0)) as [Hdb|Hlog].
    + assert (E : sqlite3WalFindFrame w (r_pgno r) = Done (w, SQLITE_OK, 0)).
      { unfold sqlite3WalFindFrame, insist. change (mxFrame (hdr w)) with (r_mx r). change (readLock w) with (r_lock r).
        rewrite (proj2 (Z.leb_le _ _)) by exact P4. rewrite P5.
        destruct Hdb as [E|E]; [by rewrite E|]. by rewrite E, orb_true_r. }
      rewrite E. apply rg_done. intros m1 HR. split; [done|]. split; [done|]. intros _. cbn.
      destruct (decide (r_lock r = 0)) as [|Hl]; [by left|right]. intros j Hj. specialize (P6 Hl). lia.
    + assert (Hl : r_lock r <> 0) by tauto.
      apply (rg_track present (rely only (r_mx r)) R _ _ Q0).
      { intros m1 m2 HR. apply (pr_index _ _ _ _ _ _ HR). lia. }
      unfold r_mx, r_min, r_lock, w in *. apply FindFrame_rg with (f := f); try done; try (by apply P6); try lia.
      * apply (index_ok_le m f mx); [lia|done].
      * intros [[w' rc] i] m1 _ (Hw & Hf & _). split; [done|]. intros Hrc. specialize (Hf Hrc).
        case_decide as Hi; [|done]. right. destruct Hf as [[_ Hf]|(Hf & _)]; [|specialize (P6 Hl); lia].
        intros j Hj. apply Hf. unfold r_min, r_mx in Hj. lia.
Qed.

(** ** A checkpoint beside readers and a writer *)

Inductive outcome :=
  | Checkpointed (w : Wal) (rc : Z)
  | Entered (w : Wal) (rc iFrame : Z)
  | Page (w : Wal) (rc v : Z).

Definition checkpoint_thread (w : Wal) (eMode : Z) (xBusy : nat) : prog outcome :=
  r ← walCheckpoint w eMode xBusy; Done (Checkpointed r.1 r.2).

Definition append_thread (w : Wal) (n : Z) (pages : list Z) : prog outcome :=
  r ← sqlite3WalFrames_index w n pages; Done (Entered r.1.1 r.1.2 r.2).

Definition page_thread (sz : Z) (r : page_reader) : prog outcome :=
  x ← readDbPage (r_wal r) sz (r_pgno r); Done (Page x.1.1 x.1.2 x.2).

(** The checkpointer [w]; [nb] frames were copied before. *)
Record checkpointer_ok (present : Z -> Prop) (w : Wal) (eMode : Z) (xBusy : nat) (nb : Z) : Prop := {
  co_mx : 1 <= mxFrame (hdr w) < 2 ^ 31;
  co_nb : 0 <= nb <= mxFrame (hdr w);
  co_size : 0 < walPagesize w;
  co_shared : exclusiveMode w = 0;
  co_lock : ckptLock w = true;
  co_map : mapped w 0 = true;
  co_present pg : 0 <= pg <= walFramePage (mxFrame (hdr w)) -> can_map present w pg;
  co_mode : eMode < SQLITE_CHECKPOINT_RESTART;
  co_passive : eMode = SQLITE_CHECKPOINT_PASSIVE -> xBusy = 0%nat;
  co_full : eMode <> SQLITE_CHECKPOINT_PASSIVE -> writeLock w = true }.

(** The writer [w], which enters [pages] after frame [n]; [mx] frames are committed. *)
Record appender_ok (only : bool) (f : Z -> Z) (w : Wal) (mx n : Z) (pages : list Z) (m : mem) : Prop := {
  ap_mx : mx = mxFrame (hdr w);
  ap_range : 0 <= n /\ n + Z.of_nat (length pages) + 1 < 2 ^ 31;
  ap_pages : Forall (fun p => 0 < p) pages;
  ap_lock : writeLock w = true;
  ap_map : mapped w 0 = true;
  ap_inv : writer_inv m f n mx;
  ap_only : only = true -> no_leftover m n }.

Definition checkpoint_spec f g w nb readers (eMode : Z) : thread_spec outcome :=
  mkSpec (ckpt_rely w readers) (ckpt_guar f g w readers)
    (fun res m' => forall w' rc, res = Checkpointed w' rc -> ckpt_result f g w nb readers eMode rc m').

Definition append_spec only f mx n (pages : list Z) : thread_spec outcome :=
  mkSpec (agree table_cell) (fun m m' => guar only mx m m' /\ agree (fun c => ~ table_cell c) m m')
    (fun res m' => forall w' rc k, res = Entered w' rc k -> rc = SQLITE_OK ->
       k = n + Z.of_nat (length pages) /\ writer_inv m' (upds f n pages) k mx).

Definition page_spec only f sz m (r : page_reader) : thread_spec outcome :=
  mkSpec (page_rely only f sz r) (fun _ _ => False)
    (fun res _ => forall w' rc v, res = Page w' rc v -> rc = SQLITE_OK -> snapshot_page f sz m r v).

Lemma guar_ckpt_rely only w mx readers m m' :
  1 <= mxFrame (hdr w) <= mx -> (forall r, r ∈ readers -> 0 <= r_lock r < WAL_NREADER) ->
  guar only mx m m' /\ agree (fun c => ~ table_cell c) m m' -> ckpt_rely w readers m m'.
Proof.
  intros Hmx Hl [G Ha].
  assert (Hm : forall r, r ∈ readers -> ~ table_cell (aReadMark (r_lock r))).
  { intros r Hr [H|H]; [done|]. specialize (Hl r Hr). change WAL_NREADER with 5 in Hl. lia. }
  split.
  - destruct (guar_rely _ _ _ _ G (mxFrame (hdr w)) ltac:(lia)) as [U _ F]. by split.
  - intros i Hi. apply Ha. by intros [].
  - intros off. apply Ha. by intros [].
  - apply Ha. intros [H|H]; [done|lia].
  - intros r Hr Hp. rewrite !Ha by (by apply Hm || by intros []). done.
  - rewrite Ha; [lia|]. intros [H|H]; [done|]. unfold aHdr in H. lia.
Qed.

Lemma guar_page_rely only f sz r mx m m' :
  r_mx r <= mx -> guar only mx m m' /\ agree (fun c => ~ table_cell c) m m' -> page_rely only f sz r m m'.
Proof.
  intros Hmx [G Ha]. split.
  - intros H. apply (guar_rely _ _ _ _ G). lia.
  - intros off. apply Ha. by intros [].
  - intros _. apply Ha. by intros [].
Qed.

Lemma ckpt_page_rely only f g w readers r m m' :
  r ∈ readers -> ckpt_guar f g w readers m m' -> page_rely only f (walPagesize w) r m m'.
Proof.
  intros Hr [K1 K2 K3 K4]. split.
  - intros _. by apply table_rely.
  - done.
  - intros Hdb. by apply K3.
Qed.

Section together.
Context (present : Z -> Prop) (only : bool) (f g : Z -> Z) (w : Wal) (eMode : Z) (xBusy : nat) (nb : Z).
Context (ww : Wal) (mx nw : Z) (pages : list Z) (readers : list page_reader) (m : mem).
Abbreviation sz := (walPagesize w).

Record together_ok : Prop := {
  tg_ckpt : checkpointer_ok present w eMode xBusy nb;
  tg_append : appender_ok only f ww mx nw pages m;
  tg_mx : mxFrame (hdr w) <= mx;
  tg_page i : 1 <= i <= nw -> f i < 0xFFFFFFFF;
  tg_inv : ckpt_inv f g w readers nb m;
  tg_readers : Forall (page_reader_ok present only mx sz) readers;
  tg_in r : r ∈ readers -> reader_in w nb r }.

Definition together_specs : list (thread_spec outcome) :=
  checkpoint_spec f g w nb readers eMode :: append_spec only f mx nw pages :: (page_spec only f sz m <$> readers).

Definition together_threads : list (prog outcome) :=
  checkpoint_thread w eMode xBusy :: append_thread ww nw pages :: (page_thread sz <$> readers).

Hypothesis Hok : together_ok.

Lemma together_compatible : compatible together_specs.
Proof.
  destruct Hok as [C A Hmx Hf Hi Hr Hin]. pose proof (co_mx _ _ _ _ _ C) as Hn. split.
  - intros [|[|i]] s Hs; [injection Hs as <-; cbn; apply _|injection Hs as <-; cbn; apply _|].
    cbn in Hs. apply list_lookup_fmap_Some in Hs as (r & -> & _). cbn. apply _.
  - intros i j s s' Hs Hs' Hne m1 m2 HG. destruct i as [|[|i]]; cbn in Hs.
    + injection Hs as <-. cbn in HG. destruct j as [|[|j]]; cbn in Hs'; [done|injection Hs' as <-; apply HG|].
      apply list_lookup_fmap_Some in Hs' as (r & -> & Hj). apply (ckpt_page_rely only f g w readers); [by eapply list_elem_of_lookup_2|done].
    + injection Hs as <-. cbn in HG. destruct j as [|[|j]]; cbn in Hs'; [injection Hs' as <-|done|].
      * apply (guar_ckpt_rely only w mx); [lia| |done]. intros r Hr'. apply (Hin r Hr').
      * apply list_lookup_fmap_Some in Hs' as (r & -> & Hj). apply (guar_page_rely only f sz r mx); [|done].
        eapply Forall_lookup_1 in Hr; [|done]. destruct Hr. lia.
    + apply list_lookup_fmap_Some in Hs as (r & -> & _). destruct HG.
Qed.

Lemma together_thread : Forall2 (thread_ok present m) together_specs together_threads.
Proof.
  destruct Hok as [[C1 C2 C3 C4 C5 C6 C7 C8 C9 C10] [A1 A2 A3 A4 A5 A6 A7] Hmx Hf Hi Hr Hin].
  pose proof (wi_mx _ _ _ _ A6) as Hmn. constructor; [|constructor].
  - unfold thread_ok. cbn. eapply rg_wrap; [apply _| |apply walCheckpoint_rg with (f := f) (g := g) (w0 := w) (nb0 := nb)]; try done; try lia.
    + intros [w' rc] m1 m2 [_ (k & K1 & K2 & K3 & K4)] HR w2 rc2 [= <- <-]. exists k. split; [by eapply inv_stable|done].
    + intros i Hi'. split; [apply (wi_pos _ _ _ _ A6)|apply Hf]; lia.
  - unfold thread_ok. cbn. eapply rg_wrap; [apply _| |by apply (frames_index_frame present only ww f nw mx pages m m); try lia].
    intros [[w' rc] k] m1 m2 [_ H] HR w2 rc2 k2 [= <- <- <-] Hrc. destruct (H Hrc). split; [done|]. by apply (table_writer m1).
  - apply Forall2_fmap, Forall_Forall2_diag. eapply Forall_impl; [exact Hr|]. intros r Hr'. unfold thread_ok. cbn.
    eapply rg_wrap; [apply _| |apply (readDbPage_rg present only f mx)]; try done; [|lia|].
    + intros [[w' rc] v] m1 m2 H _ w2 rc2 v2 [= <- <- <-]. exact H.
    + apply (index_ok_le m f nw); [lia|apply A6].
Qed.

(** The pages up to [nBackfill] are in the database. *)
Lemma together_backfilled m' ps' :
  steps present (m, together_threads) (m', ps') -> backfilled f g w (rd m' nBackfill) m'.
Proof.
  intros Hs. set (T := fun m m' => backfilled f g w (rd m nBackfill) m -> backfilled f g w (rd m' nBackfill) m').
  assert (HT : PreOrder T) by (split; [intros ? H; exact H|intros ? ? ? H1 H2 H; by apply H2, H1]).
  destruct (steps_ok present _ T _ _ _ _ together_compatible together_thread Hs) as [_ H].
  - intros s m1 m2 Hin HG. unfold together_specs in Hin. rewrite !elem_of_cons in Hin. destruct Hin as [->|[->|Hin]].
    + exact (kg_db _ _ _ _ _ _ HG).
    + destruct HG as [_ Ha]. intros Hb p i Hp Hl Hi. rewrite Ha in Hi by (intros [H|H]; [done|lia]). rewrite Ha by (by intros []). by apply Hb.
    + apply list_elem_of_fmap in Hin as (r & -> & _). destruct HG.
  - apply H, (ci_db _ _ _ _ _ _ (tg_inv Hok)).
Qed.
End together.

(** C28: A checkpoint beside readers and a writer.  While a checkpoint, passive or full
    ([eMode] below SQLITE_CHECKPOINT_RESTART), copies pages of
    the log into the database, a writer enters the frames of the next transaction in
    the index, and any number of readers read their pages, whatever the interleaving and
    whichever system calls fail: no assert fails; every reader gets the page of its
    snapshot, from the log or from the database, as it was at the start; and at every
    moment each page whose last frame is among the first [nBackfill] is in the
    database, so that the log may be reset or the checkpoint be killed.  A checkpoint
    that ends has advanced [nBackfill] at most to the read mark of the first reader, and
    one that is not passive and returns SQLITE_OK, to the end of its log.  A write to
    the database that fails half-way may leave anything in the page. *)
Theorem checkpoint_isolated present only f g w eMode xBusy nb ww mx nw pages readers m m' ps' :
  together_ok present only f g w eMode xBusy nb ww mx nw pages readers m ->
  steps present (m, together_threads w eMode xBusy ww nw pages readers) (m', ps') ->
  backfilled f g w (rd m' nBackfill) m' /\
  (forall p, ps' !! 0%nat = Some p -> p <> Stuck /\ forall w' rc, p = Done (Checkpointed w' rc) ->
     nb <= rd m' nBackfill <= mxFrame (hdr w) /\
     (forall r, r ∈ readers -> r_lock r <> 0 -> rd m' nBackfill = nb \/ rd m' nBackfill <= r_mark r) /\
     (eMode <> SQLITE_CHECKPOINT_PASSIVE -> rc = SQLITE_OK -> rd m' nBackfill = mxFrame (hdr w))) /\
  (forall p, ps' !! 1%nat = Some p -> p <> Stuck /\ forall w' rc k, p = Done (Entered w' rc k) -> rc = SQLITE_OK ->
     k = nw + Z.of_nat (length pages) /\ writer_inv m' (upds f nw pages) k mx) /\
  (forall i r p, readers !! i = Some r -> ps' !! S (S i) = Some p -> p <> Stuck /\ forall w' v, p = Done (Page w' SQLITE_OK v) ->
     snapshot_page f (walPagesize w) m r v).
Proof.
  intros Hok Hs. split; [by eapply together_backfilled|].
  pose proof (together_compatible _ _ _ _ _ _ _ _ _ _ _ _ _ _ Hok) as Hc. pose proof (together_thread _ _ _ _ _ _ _ _ _ _ _ _ _ _ Hok) as Ht.
  split; [|split].
  - intros p Hp. edestruct (steps_safe present _ m _ m' ps' 0 _ p Hc Ht Hs eq_refl Hp) as [Hst HQ]. split; [done|].
    intros w' rc ->. destruct (HQ _ eq_refl w' rc eq_refl) as (k & K1 & K2 & K3 & K4). by rewrite (ci_nb _ _ _ _ _ _ K1).
  - intros p Hp. edestruct (steps_safe present _ m _ m' ps' 1 _ p Hc Ht Hs eq_refl Hp) as [Hst HQ]. split; [done|].
    intros w' rc k ->. by apply (HQ _ eq_refl w' rc k).
  - intros i r p Hi Hp. destruct (steps_safe present _ m _ m' ps' (S (S i)) (page_spec only f (walPagesize w) m r) p Hc Ht Hs) as [Hst HQ]; [|done|].
    { apply list_lookup_fmap_Some. by exists r. }
    split; [done|]. intros w' v ->. by apply (HQ _ eq_refl w' SQLITE_OK v).
Qed.

(** ** The iterator *)

(** C30: The merge sort of a page of the index ends, accesses its arrays inside their
    bounds, and no assert fails, for up to 4096 frames: it leaves, in ascending order of
    the pages, the last frame of every page and no other. *)
Theorem mergesort_correct aContent aBuffer :
  let n := length aContent in
  (0 < n <= 4096)%nat -> (n <= length aBuffer)%nat ->
  exists aList nList, walMergesort aContent aBuffer (seq 0 n) n = Some (aList, nList) /\ length aList = n /\
    StronglySorted Z.lt ((fun j => default 0 (aContent !! j)) <$> take nList aList) /\
    forall j, j ∈ take nList aList <-> exists p, aContent !! j = Some p /\ forall j', (j < j')%nat -> aContent !! j' <> Some p.
Proof.
  intros n Hn Hb. destruct (walMergesort_spec (fun j => default 0 (aContent !! j)) aContent aBuffer n) as (aList & out & E & Hl & [HS HB] & Hsit).
  { intros j Hj. destruct (lookup_lt_is_Some_2 aContent j Hj) as [x Hx]. by rewrite Hx. }
  { done. }
  { done. }
  assert (Ho : take (length out) aList = out).
  { apply list_eq. intros i. destruct (out !! i) as [v|] eqn:Hv.
    - rewrite lookup_take_lt by (by eapply lookup_lt_Some). by apply Hsit in Hv.
    - apply lookup_ge_None in Hv. apply lookup_take_ge. done. }
  exists aList, (length out). rewrite Ho. split_and!; try done.
  - clear E HB Hsit Ho. induction HS as [|j js HS IH HF]; cbn; constructor; [done|]. apply Forall_fmap. exact HF.
  - intros j. rewrite HB. unfold latest. split.
    + intros [Hj Hlast]. destruct (lookup_lt_is_Some_2 aContent j) as [x Hx]; [lia|]. exists x. split; [done|]. intros j' Hlt E'.
      apply (Hlast j'); [|by rewrite Hx, E']. apply lookup_lt_Some in E'. fold n in E'. lia.
    + intros (x & Hx & Hlast). split; [apply lookup_lt_Some in Hx; fold n in Hx; lia|]. intros j' Hj' E'.
      destruct (lookup_lt_is_Some_2 aContent j') as [y Hy]; [lia|]. rewrite Hx, Hy in E'. cbn in E'. apply (Hlast j'); [lia|congruence].
Qed.

(** C29: The iterator of a checkpoint visits every page of the frames from the page of
    the index with frame [nBackfill + 1] on, once, in ascending order, with the page's last frame,
    while a writer appends to the log or rolls back what it appended; it gets to its
    end within one step more than there are frames. *)
Theorem iterator_visits present f n w nb m :
  n = mxFrame (hdr w) -> 1 <= n < 2 ^ 31 -> (forall i, 1 <= i <= n -> 0 < f i < 0xFFFFFFFF) ->
  ckptLock w = true -> 0 <= nb < n -> mapped w 0 = true ->
  (forall pg, 0 <= pg <= walFramePage n -> can_map present w pg) -> index_ok m f n ->
  rg present (rely false n) (fun _ _ => False) (visit_all w nb)
    (fun '(w', rc, l) _ => rc = SQLITE_OK ->
       StronglySorted (fun x y => x.1 < y.1) l /\
       forall q r, (q, r) ∈ l <-> first (walFramePage (nb + 1)) < r <= n /\ f r = q /\ forall i, r < i <= n -> f i <> q) m.
Proof.
  intros En Hn Hf Hck Hb H0 Hcan Hok. eapply rg_mono; [|by apply (visit_all_rg present false f n); try lia].
  intros [[w' rc] l] m' Hv Hrc. destruct (Hv Hrc) as [HS HL]. split; [done|]. intros q r. rewrite HL. unfold start_page.
  assert (H1 : 0 <= first (walFramePage (nb + 1))) by (apply first_nonneg; rewrite walFramePage_eq by lia; apply Z.div_pos; lia).
  split; [naive_solver|]. intros (Hr & <- & Hl). split_and!; (done || lia || apply Hf; lia).
Qed.
