(* ===== verification/WalWitnesses.v ===== *)
(** The theorems on the wal-index, on commits and on checkpoints at concrete logs, and two
    runs at the edge of the protocol: a rollback between two loads of a reader, and a
    writer killed while it cleans a table. *)
From Stdlib Require Import Sorting.Sorted.
From S2P Require Import Prelude SharedMem WalIndex WalIndexSpec WalIndexReader WalIndexWriter WalIndexTheorems WalHeader WalCommit WalIterator WalSortSpec WalIteratorSpec WalFrame WalLocks WalFile WalCheckpoint WalCheckpointSpec WalCheckpointTheorems.

(** ** The wal-index *)

Definition ex_hdr (mx : Z) : WalIndexHdr := mkHdr WALINDEX_MAX_VERSION 0 0 1 0 4096 mx 0 (0, 0) (0, 0) (0, 0).

(** A connection with two pages mapped, whose log ends at [mx]. *)
Definition ex_wal (lock : Z) (writer : bool) (mx : Z) : Wal :=
  mkWal [true; true] 4096 lock WAL_NORMAL_MODE writer false 0 false (ex_hdr mx) 1 0 0 false 0 (-1) false false.

Definition ex_writer (mx : Z) : Wal := ex_wal 1 true mx.
Definition ex_reader (mx : Z) : Wal := ex_wal 1 false mx.

Definition mem_of {A} (r : option (A * mem)) : mem := match r with Some (_, m) => m | None => ∅ end.

(** The index of a log with the given pages. *)
Definition ex_index (pages : list Z) : mem := mem_of (run (sqlite3WalFrames_index (ex_writer 0) 0 pages) ∅).

Definition ex_log (pages : list Z) : Z -> Z := upds (fun _ => 0) 0 pages.
Definition big : list Z := seqZ 1 4063.
Definition race_page : Z := 5000.
Definition race_writer : prog (Wal * Z * Z) :=
  '(w, rc) ← walIndexAppend (ex_writer 4063) 4064 race_page;
  let sp := sqlite3WalSavepoint (ex_writer 4063) in
  '(w, _, rc) ← sqlite3WalSavepointUndo (set_hdr w (set_mxFrame (hdr w) 4064)) sp;
  '(w, rc) ← walIndexAppend w 4064 race_page;
  Done (w, rc, 0).

Definition code_of {B} (r : option (Wal * Z * B * mem)) : option (Z * B) :=
  match r with Some (_, rc, b, _) => Some (rc, b) | None => None end.

(** An index built by the writer represents its log. *)
Lemma ex_index_inv pages n :
  Forall (fun p => 0 < p) pages -> n = Z.of_nat (length pages) -> n + 1 < 2 ^ 31 ->
  code_of (run (sqlite3WalFrames_index (ex_writer 0) 0 pages) ∅) = Some (SQLITE_OK, n) ->
  writer_inv (ex_index pages) (ex_log pages) n n.
Proof.
  intros Hp -> Hn Hc.
  assert (Hrg : rg (fun _ => True) eq (guar false 0) (sqlite3WalFrames_index (ex_writer 0) 0 pages)
    (fun '(w', rc, k) m' => rc = SQLITE_OK -> writer_inv m' (ex_log pages) k 0) ∅).
  { apply frames_index_rg with (f := fun _ => 0); try done; [apply writer_empty|].
    intros w' rc k m' _ H Hok. by destruct (H Hok) as [-> HW]. }
  destruct (rg_run _ _ _ _ _ Hrg) as ([[w' rc] k] & m' & Hrun & HQ). unfold ex_index.
  rewrite Hrun in Hc |- *. cbn in Hc. injection Hc as -> ->. cbn [mem_of]. eapply writer_commit. by apply HQ.
Qed.

Definition small : list Z := [7; 8; 7].

Lemma small_inv : writer_inv (ex_index small) (ex_log small) 3 3.
Proof. apply ex_index_inv; [repeat constructor|done|lia|vm_compute; reflexivity]. Qed.

Lemma big_inv : writer_inv (ex_index big) (ex_log big) 4063 4063.
Proof.
  apply ex_index_inv; [|vm_compute; reflexivity|lia|vm_compute; reflexivity].
  apply Forall_forall. intros p Hp. apply elem_of_seqZ in Hp. lia.
Qed.

Lemma ex_free pages n : writer_inv (ex_index pages) (ex_log pages) n n -> 1 <= n < 2 ^ 31 -> all_free n (ex_index pages).
Proof.
  intros HW Hn pg Hp. destruct (decide (pg = walFramePage n)) as [->|Hne].
  - destruct (proj1 (walFramePage_spec n (walFramePage n) ltac:(lia)) eq_refl) as [Hp0 Hr].
    destruct (wi_full _ _ _ _ HW (walFramePage n) Hp0 ltac:(unfold lim; lia)) as (J & HJ & _). by apply (full_has_free _ _ n J).
  - destruct (wi_full _ _ _ _ HW pg ltac:(lia)) as (J & HJ & _); [|by apply (full_has_free _ _ n J)].
    pose proof (cap_range pg). destruct (proj1 (walFramePage_spec n (walFramePage n) ltac:(lia)) eq_refl) as [Hp0 Hr].
    unfold lim. assert (first pg < n); [|lia]. revert Hp Hr Hne. layout.
Qed.

(** The reader of frames 1 to 3 searches page 7 while frames 4 and 5 are appended. *)
Definition ex_threads : list (prog (Wal * Z * Z)) :=
  sqlite3WalFrames_index (ex_writer 3) 3 [7; 9] :: (reader <$> [(ex_reader 3, 7)]).

Definition ex_turns : list (nat * nat) := [(1, 1); (0, 4); (1, 3); (0, 100); (1, 100)]%nat.

Definition finals {A} (r : option (mem * list (prog A))) : option (list (option A)) :=
  match r with
  | Some (_, ps) => Some ((fun p => match p with Done a => Some a | _ => None end) <$> ps)
  | None => None
  end.

Lemma ex_reader_ok only : reader_ok (fun _ => True) only 3 (ex_reader 3) 7.
Proof.
  split; try done; try (cbn; lia).
  - intros pg _. by left.
  - right. vm_compute. done.
Qed.

Lemma ex_run :
  finals (schedule ex_turns (ex_index small) ex_threads)
    = Some [Some (ex_writer 3, SQLITE_OK, 5); Some (ex_reader 3, SQLITE_OK, 3)].
Proof. vm_compute. reflexivity. Qed.

Lemma find_frame_concurrent_witness :
  exists m' ps', steps (fun _ => True) (ex_index small, ex_threads) (m', ps') /\
    ps' !! 1%nat = Some (Done (ex_reader 3, SQLITE_OK, 3)) /\
    is_last_frame (ex_log small) 3 7 1 3.
Proof.
  pose proof ex_run as Hf.
  destruct (schedule ex_turns (ex_index small) ex_threads) as [[m' ps']|] eqn:Hs; [|discriminate Hf].
  cbn in Hf. injection Hf as Hf.
  apply (schedule_steps (fun _ => True)) in Hs. exists m', ps'. split; [exact Hs|].
  destruct ps' as [|p0 [|p1 [|]]]; try discriminate. injection Hf as H0 H1.
  destruct p1 as [a| | | | | | |]; try discriminate. injection H1 as ->. split; [reflexivity|].
  destruct (find_frame_concurrent (fun _ => True) true (ex_writer 3) (ex_log small) 3 [7; 9] [(ex_reader 3, 7)]
    (ex_index small) m' [p0; Done (ex_reader 3, SQLITE_OK, 3)] ltac:(lia) ltac:(cbn; lia)
    ltac:(repeat constructor) eq_refl eq_refl small_inv ltac:(intros _; right; vm_compute; reflexivity)
    ltac:(constructor; [apply ex_reader_ok|constructor]) Hs) as [_ Hr].
  destruct (Hr 0%nat (ex_reader 3) 7 (Done (ex_reader 3, SQLITE_OK, 3)) eq_refl eq_refl) as [_ Hd].
  exact (proj1 (Hd (ex_reader 3) SQLITE_OK 3 eq_refl) eq_refl).
Defined.

Lemma small_mapped : all_mapped 3 (ex_reader 3).
Proof. intros pg Hp. change (walFramePage 3) with 0 in Hp. by replace pg with 0 by lia. Qed.

Lemma find_frame_linear_witness :
  exists w', run (sqlite3WalFindFrame (ex_reader 3) 8) (ex_index small) = Some ((w', SQLITE_OK, 2), ex_index small).
Proof.
  destruct (find_frame_linear (ex_reader 3) (ex_log small) 3 8 (ex_index small) eq_refl ltac:(lia) ltac:(cbn; lia)
    ltac:(lia) ltac:(cbn; lia) (wi_index _ _ _ _ small_inv) small_mapped (ex_free small 3 small_inv ltac:(lia)))
    as (w' & r & Hrun & _ & Hl).
  exists w'. rewrite Hrun. do 3 f_equal.
  apply (is_last_unique (ex_log small) 3 8 1); [lia|exact Hl|]. right. split; [lia|]. split; [reflexivity|].
  intros i Hi. assert (i = 3) as -> by lia. vm_compute. discriminate.
Defined.

(** Three frames are appended and rolled back to the first. *)
Lemma savepoint_undo_correct_witness :
  exists w' m', run (sqlite3WalSavepointUndo (ex_writer 3) (1, 10, 20, 0)) (ex_index small)
    = Some ((w', (1, 10, 20, 0), SQLITE_OK), m') /\ writer_inv m' (ex_log small) 1 1 /\ aFrameCksum (hdr w') = (10, 20).
Proof.
  pose proof (savepoint_undo_correct (fun _ => True) (ex_writer 3) (ex_log small) 3 3 1 10 20 (ex_index small)
    eq_refl eq_refl ltac:(lia) ltac:(lia) small_inv ltac:(intros _; vm_compute; reflexivity)) as Hrg.
  destruct (rg_run _ _ _ _ _ Hrg) as ([[w' a] rc] & m' & Hrun & -> & -> & _ & HW & Hc & _).
  exists w', m'. split; [exact Hrun|]. split; [exact HW|exact Hc].
Defined.

(** ** A rollback between two loads of a reader *)

Definition race_turns : list (nat * nat) :=
  [(0%nat, 4%nat); (1%nat, 1%nat); (0%nat, Z.to_nat 12288); (1%nat, 1%nat); (0%nat, 4%nat); (1%nat, 100%nat)].

Definition race_threads : list (prog (Wal * Z * Z)) := [race_writer; sqlite3WalFindFrame (ex_reader 4063) race_page].

(** The codes of both threads, and the frame found by the second. *)
Definition race_codes (r : option (list (option (Wal * Z * Z)))) : option (Z * Z * Z) :=
  match r with Some [Some (_, rc, _); Some (_, rc', r)] => Some (rc, rc', r) | _ => None end.

Lemma race_codes_inv ps rc rc' r :
  race_codes (finals (Some (∅, ps))) = Some (rc, rc', r) -> exists p w', ps = [p; Done (w', rc', r)].
Proof.
  destruct ps as [|p [|q [|]]]; cbn; try done; destruct p as [[[]]| | | | | | |]; try done.
  all: destruct q as [[[w' ?] ?]| | | | | | |]; try done. intros [= <- <- <-]. by eexists _, w'.
Qed.

Lemma race_run :
  race_codes (finals (schedule race_turns (ex_index big) race_threads)) = Some (SQLITE_OK, SQLITE_OK, 4062).
Proof. vm_compute. reflexivity. Qed.

(** A search that reads a hash slot three times can return a wrong frame.  The
    reader's log has 4063 frames, none of page 5000.  A writer spills page 5000, rolls
    back to a savepoint and spills it again, all without committing; the reader
    loads the slot before the rollback, between, and after: it takes slot value 0 for the frame number
    and the new entry for the page, and returns frame 4062, which holds page 4062. *)
Theorem find_frame_race :
  index_ok (ex_index big) (ex_log big) 4063 /\ is_last_frame (ex_log big) 4063 race_page 1 0 /\
  exists m' p w', steps (fun _ => True) (ex_index big, race_threads) (m', [p; Done (w', SQLITE_OK, 4062)]).
Proof.
  split; [apply big_inv|]. split.
  - left. split; [done|]. intros i Hi. unfold ex_log. rewrite upds_lookup. change (Z.of_nat (length big)) with 4063.
    rewrite decide_True by lia. unfold big, race_page. rewrite lookup_seqZ_lt by lia. cbn. lia.
  - pose proof race_run as Hr.
    destruct (schedule race_turns (ex_index big) race_threads) as [[m' ps']|] eqn:Hs; [|discriminate Hr].
    apply (schedule_steps (fun _ => True)) in Hs. destruct (race_codes_inv ps' _ _ _ Hr) as (p & w' & ->).
    exists m', p, w'. exact Hs.
Qed.

(** ** A writer killed while it cleans a table *)

(** Frames 3 to 6 are written, and rolled back to frame 2. *)
Definition crash_writer : prog (Wal * (Z * Z * Z * Z) * Z) :=
  '(w, rc, k) ← sqlite3WalFrames_index (ex_writer 2) 2 [11; 12; 13; 14];
  sqlite3WalSavepointUndo (set_hdr w (set_mxFrame (hdr w) k)) (sqlite3WalSavepoint (ex_writer 2)).

(** The memory when it is killed after [k] accesses. *)
Definition crash_mem (k : nat) : mem := killed k crash_writer (ex_index [1; 2]).

(** The next writer's transaction of pages 21 and 22, and the search for page 21. *)
Definition crash_codes (r : option (Wal * Z * Z * mem)) : option (Z * Z * option (Z * Z)) :=
  match r with
  | Some (_, rc, k, m) => Some (rc, k, code_of (run (sqlite3WalFindFrame (ex_reader 4) 21) m))
  | None => None
  end.

Lemma crash_codes_inv r rc k rc' i :
  crash_codes r = Some (rc, k, Some (rc', i)) -> exists w m w' m', r = Some ((w, rc, k), m) /\
    run (sqlite3WalFindFrame (ex_reader 4) 21) m = Some ((w', rc', i), m').
Proof.
  destruct r as [[[[w ?] ?] m]|]; [|done]. cbn [crash_codes].
  destruct (run (sqlite3WalFindFrame (ex_reader 4) 21) m) as [[[[w' ?] ?] m']|] eqn:Hr; [|done].
  cbn [code_of]. intros [= -> -> -> ->]. by eexists w, m, w', m'.
Qed.

Lemma crash_run :
  crash_codes (run (sqlite3WalFrames_index (ex_writer 2) 2 [21; 22]) (crash_mem (Z.to_nat 8213)))
    = Some (SQLITE_OK, 4, Some (SQLITE_OK, 0)).
Proof. vm_compute. reflexivity. Qed.

(** A writer that is killed inside the [memset] of [walCleanupHash] can make the
    next transaction lose a frame.  The page numbers after the log then have a gap: the
    next writer enters its first frame in the gap, finds the old number behind it, and cleans
    the table again, its own entry included; readers of the committed transaction do
    not find page 21, though frame 3 holds it. *)
Theorem killed_cleanup_loses_frame :
  exists k w m w' m', run (sqlite3WalFrames_index (ex_writer 2) 2 [21; 22]) (crash_mem k)
      = Some ((w, SQLITE_OK, 4), m) /\
    run (sqlite3WalFindFrame (ex_reader 4) 21) m = Some ((w', SQLITE_OK, 0), m').
Proof.
  exists (Z.to_nat 8213). apply crash_codes_inv, crash_run.
Qed.

(** ** Commits *)

Lemma store_words_inv ws i m m' f n mx :
  0 <= i -> i + Z.of_nat (length ws) <= 34 -> writer_inv m f n mx ->
  run (store_words ws i) m = Some ((), m') -> writer_inv m' f n mx.
Proof.
  revert i m. induction ws as [|x ws IH]; intros i m Hi Hl HW; cbn; [by intros [= <-]|]. cbn [length] in Hl.
  intros Hr. apply (IH (i + 1) (<[Word 0 i := x]> m)); [lia|lia| |done]. apply header_inv; [lia|done].
Qed.

Definition sealed_or (h : WalIndexHdr) : WalIndexHdr := default h (sealed h).

(** The header that counts three frames, and the index with it. *)
Definition h_old : WalIndexHdr := sealed_or (ex_hdr 3).
Definition h_new : WalIndexHdr := sealed_or (set_committed (ex_hdr 3) true 4096 5 9).
Definition ex_shm : mem :=
  mem_of (run (store_words (hdr_words h_old) (aHdr 1)) (mem_of (run (store_words (hdr_words h_old) (aHdr 0)) (ex_index small)))).

Lemma shm_inv : writer_inv ex_shm (ex_log small) 3 3.
Proof.
  unfold ex_shm.
  destruct (run (store_words (hdr_words h_old) (aHdr 0)) (ex_index small)) as [[[] m1]|] eqn:E1; cbn [mem_of].
  2: { by apply (f_equal (fun r => match r with Some _ => true | None => false end)) in E1. }
  destruct (run (store_words (hdr_words h_old) (aHdr 1)) m1) as [[[] m2]|] eqn:E2; cbn [mem_of].
  2: { by apply (f_equal (fun r => match r with Some _ => true | None => false end)) in E2. }
  apply (store_words_inv (hdr_words h_old) (aHdr 1) m1); [done|done| |done].
  apply (store_words_inv (hdr_words h_old) (aHdr 0) (ex_index small)); [done|done|apply small_inv|done].
Qed.

Lemma shm_has i : i = 0 \/ i = 1 -> has ex_shm i (hdr_words h_old).
Proof.
  intros [-> | ->] j Hj; revert j Hj;
    (assert (H : forall j, j ∈ seqZ 0 12 -> 0 <= j < 12) by (intros j Hj; apply elem_of_seqZ in Hj; lia));
    intros j Hj; assert (Hin : j ∈ seqZ 0 12) by (apply elem_of_seqZ; lia); clear Hj H; revert j Hin;
    apply Forall_forall; cbn [seqZ fmap list_fmap seq]; repeat (constructor; [vm_compute; reflexivity|]); constructor.
Qed.

Definition commit_threads : list (prog result) :=
  commit_thread (ex_writer 3) 4096 9 [7; 9] :: (search_thread <$> [(ex_reader 0, 7); (ex_reader 0, 7)]).
Definition commit_turns : list (nat * nat) := [(1, 24); (0, 20); (0, 100); (1, 100); (2, 100)]%nat.

(** The code, the last frame and the frame found, of a thread that has ended. *)
Definition found (p : prog result) : option (Z * Z * Z) :=
  match p with
  | Done (inr (Some (w, rc, r))) => Some (rc, mxFrame (hdr w), r)
  | _ => None
  end.

Definition all_found (r : option (mem * list (prog result))) : option (list (option (Z * Z * Z))) :=
  match r with Some (_, ps) => Some (found <$> ps) | None => None end.

Lemma commit_run :
  all_found (schedule commit_turns ex_shm commit_threads)
    = Some [None; Some (SQLITE_OK, 3, 3); Some (SQLITE_OK, 5, 4)].
Proof. vm_compute. reflexivity. Qed.

Lemma found_done p rc mx r : found p = Some (rc, mx, r) ->
  exists w, p = Done (inr (Some (w, rc, r))) /\ mxFrame (hdr w) = mx.
Proof. destruct p as [[|[[[w rc'] r']|]]| | | | | | |]; cbn; try done. intros [= <- <- <-]. by exists w. Qed.

Lemma ex_snapshot_reader : snapshot_reader 5 (fun _ => True) (ex_reader 0) 7.
Proof. split; try done. intros pg _. by left. Qed.

(** The first reader sees frame 3 of the log of three frames, the second frame 4. *)
Lemma commit_atomic_witness :
  exists m' ps' w1 w2, steps (fun _ => True) (ex_shm, commit_threads) (m', ps') /\
    ps' !! 1%nat = Some (Done (inr (Some (w1, SQLITE_OK, 3)))) /\
    ps' !! 2%nat = Some (Done (inr (Some (w2, SQLITE_OK, 4)))) /\
    is_last_frame (upds (ex_log small) 3 [7; 9]) 3 7 1 3 /\ is_last_frame (upds (ex_log small) 3 [7; 9]) 5 7 1 4.
Proof.
  pose proof commit_run as Hf.
  destruct (schedule commit_turns ex_shm commit_threads) as [[m' ps']|] eqn:Hs; [|discriminate Hf].
  cbn in Hf. injection Hf as Hf. apply (schedule_steps (fun _ => True)) in Hs.
  destruct ps' as [|p0 [|p1 [|p2 [|]]]]; try discriminate. injection Hf as _ H1 H2.
  destruct (found_done p1 _ _ _ H1) as (w1 & -> & E1). destruct (found_done p2 _ _ _ H2) as (w2 & -> & E2).
  exists m', [p0; Done (inr (Some (w1, SQLITE_OK, 3))); Done (inr (Some (w2, SQLITE_OK, 4)))], w1, w2.
  split; [exact Hs|]. split; [reflexivity|]. split; [reflexivity|].
  destruct (commit_atomic (fun _ => True) (ex_writer 3) 4096 9 [7; 9] (ex_log small) 3 h_old h_new
    [(ex_reader 0, 7); (ex_reader 0, 7)] ex_shm m' [p0; Done (inr (Some (w1, SQLITE_OK, 3))); Done (inr (Some (w2, SQLITE_OK, 4)))]
    ltac:(lia) ltac:(cbn; lia) ltac:(repeat constructor) eq_refl eq_refl eq_refl ltac:(cbn; lia) shm_inv
    ltac:(right; vm_compute; reflexivity) (shm_has 0 ltac:(by left)) (shm_has 1 ltac:(by right)) ltac:(vm_compute; reflexivity)
    ltac:(vm_compute; split; discriminate) ltac:(vm_compute; reflexivity)
    ltac:(constructor; [exact ex_snapshot_reader|constructor; [exact ex_snapshot_reader|constructor]]) Hs) as [_ Hr].
  destruct (Hr 0%nat (ex_reader 0) 7 _ eq_refl eq_refl) as [_ A1].
  destruct (Hr 1%nat (ex_reader 0) 7 _ eq_refl eq_refl) as [_ A2].
  destruct (A1 w1 SQLITE_OK 3 eq_refl) as [_ B1]. destruct (A2 w2 SQLITE_OK 4 eq_refl) as [_ B2].
  rewrite E1 in B1. rewrite E2 in B2. split; [exact (B1 eq_refl)|exact (B2 eq_refl)].
Defined.

(** A page size of 65536. *)
Lemma header_roundtrip_witness :
  exists w1 m1 r', run (walIndexWriteHdr (set_hdr (ex_writer 3) (set_committed (ex_hdr 3) false 65536 3 0))) ∅ = Some (w1, m1) /\
    run (walIndexTryHdr (ex_reader 0)) m1 = Some ((false, r', true), m1) /\ w_szPage r' = 65536.
Proof.
  destruct (header_roundtrip (set_hdr (ex_writer 3) (set_committed (ex_hdr 3) false 65536 3 0)) (ex_reader 0) 16 ∅
    eq_refl eq_refl ltac:(cbn; lia) ltac:(lia) ltac:(vm_compute; reflexivity)) as (w1 & m1 & r' & ch & H1 & H2 & Ht & Hf).
  exists w1, m1, r'. split; [exact H1|]. destruct ch.
  - split; [exact H2|]. exact (proj1 (proj2 (Ht eq_refl))).
  - exfalso. destruct (Hf eq_refl) as [_ E]. clear H2 Ht Hf.
    assert (Hc : match run (walIndexWriteHdr (set_hdr (ex_writer 3) (set_committed (ex_hdr 3) false 65536 3 0))) ∅ with
      Some (w, _) => mxFrame (hdr w) | None => 0 end = 3) by (vm_compute; reflexivity).
    rewrite H1 in Hc.
    apply (f_equal (fun ws => ws !! 4%nat)) in E. cbn in E. rewrite Hc in E. discriminate E.
Defined.

(** ** Checkpoints *)

(** A checkpointer, a writer and a reader of a database of 8 pages of 4096 bytes. *)
Definition ck_wal (lock : Z) (writer ckpt : bool) (mx : Z) : Wal :=
  mkWal [true; true] 4096 lock WAL_NORMAL_MODE writer ckpt 0 false
    (mkHdr WALINDEX_MAX_VERSION 0 0 1 0 4096 mx 8 (0, 0) (0, 0) (0, 0)) 1 0 0 false 0 (-1) false false.

(** The frames of pages 7, 8 and 7 in the log; a reader holds read mark 1 on frame 2. *)
Definition ck_cells : list (cell * Z) :=
  [(LogAt (walFrameOffset 1 4096 + 24), 71); (LogAt (walFrameOffset 2 4096 + 24), 80); (LogAt (walFrameOffset 3 4096 + 24), 72);
   (DbAt (5 * 4096), 600); (DbAt (6 * 4096), 700); (DbAt (7 * 4096), 800);
   (shm_mxFrame, 3); (aReadMark 1, 2); (aReadMark 2, READMARK_NOT_USED); (aReadMark 3, READMARK_NOT_USED);
   (aReadMark 4, READMARK_NOT_USED); (Lck (WAL_READ_LOCK 1), 1)].

Definition ck_mem : mem := list_to_map ck_cells ∪ ex_index small.

Definition ck_contents (i : Z) : Z := if i =? 1 then 71 else if i =? 2 then 80 else 72.

Definition ck_readers : list page_reader := [mkReader (ck_wal 1 false false 2) 2 7; mkReader (ck_wal 1 false false 2) 2 6].

Definition ck_threads : list (prog outcome) :=
  together_threads (ck_wal (-1) false true 3) SQLITE_CHECKPOINT_PASSIVE 0 (ck_wal 1 true false 3) 3 [9] ck_readers.

Definition ck_turns : list (nat * nat) := [(0, 40); (2, 2); (0, 20); (1, 3); (0, 100); (1, 100); (2, 100); (3, 100)]%nat.

Definition ck_result (r : option (mem * list (prog outcome))) : option (Z * Z * Z * list (option outcome)) :=
  match r with
  | Some (m, ps) => Some (rd m nBackfill, rd m (DbAt (6 * 4096)), rd m (DbAt (7 * 4096)),
      (fun p => match p with Done a => Some a | _ => None end) <$> ps)
  | None => None
  end.

(** Page 8 is copied; page 7 is not, since the reader's snapshot has an older frame of it. *)
Lemma ck_run : ck_result (schedule ck_turns ck_mem ck_threads)
  = Some (2, 700, 80, [Some (Checkpointed (ck_wal (-1) false true 3) SQLITE_OK); Some (Entered (ck_wal 1 true false 3) SQLITE_OK 4);
      Some (Page (ck_wal 1 false false 2) SQLITE_OK 71); Some (Page (ck_wal 1 false false 2) SQLITE_OK 600)]).
Proof. vm_compute. reflexivity. Qed.

(** Memory with other cells beside the tables. *)
Lemma agree_union (l : list (cell * Z)) m :
  (forall c, c ∈ l.*1 -> ~ table_cell c) -> agree table_cell m (list_to_map l ∪ m).
Proof.
  intros Hl c Hc. unfold rd. rewrite lookup_union_r; [done|]. apply not_elem_of_list_to_map_1. intros Hin. by apply (Hl c).
Qed.

Lemma ck_tables : agree table_cell (ex_index small) ck_mem.
Proof.
  apply agree_union. intros c Hin. cbn [ck_cells fmap list_fmap fst] in Hin.
  repeat (apply elem_of_cons in Hin as [->|Hin]); try (intros []; done); try (intros [H|H]; [by apply H|by vm_compute in H]).
  by apply not_elem_of_nil in Hin.
Qed.

Lemma ck_writer : writer_inv ck_mem (ex_log small) 3 3.
Proof. apply (table_writer (ex_index small)); [apply ck_tables|apply small_inv]. Qed.

Lemma ck_last p i : last_of (ex_log small) (ck_wal (-1) false true 3) p i -> 1 <= i.
Proof. intros [H _]. lia. Qed.

Lemma ck_inv : ckpt_inv (ex_log small) ck_contents (ck_wal (-1) false true 3) ck_readers 0 ck_mem.
Proof.
  split.
  - apply (wi_index _ _ _ _ ck_writer).
  - cbn [mxFrame hdr ck_wal]. intros i Hi. assert (i = 1 \/ i = 2 \/ i = 3) as [->|[->| ->]] by lia; vm_compute; reflexivity.
  - intros p i _ Hl Hi. pose proof (ck_last p i Hl). replace (rd ck_mem nBackfill) with 0 in Hi by (vm_compute; reflexivity). lia.
  - vm_compute. reflexivity.
  - intros r Hr. unfold ck_readers in Hr. rewrite !elem_of_cons in Hr. destruct Hr as [->|[->|Hr]]; [| |by apply not_elem_of_nil in Hr].
    all: vm_compute; done.
  - vm_compute. done.
  - intros r Hr. unfold ck_readers in Hr. rewrite !elem_of_cons in Hr. destruct Hr as [->|[->|Hr]]; [| |by apply not_elem_of_nil in Hr].
    all: vm_compute; done.
Qed.

Lemma ck_page_reader pgno : 0 < pgno -> page_reader_ok (fun _ => True) true 3 4096 (mkReader (ck_wal 1 false false 2) 2 pgno).
Proof. intros Hp. split; try done; try (cbn; lia). intros pg _. by left. Qed.

Lemma ck_ok : together_ok (fun _ => True) true (ex_log small) ck_contents (ck_wal (-1) false true 3) SQLITE_CHECKPOINT_PASSIVE 0 0
  (ck_wal 1 true false 3) 3 3 [9] ck_readers ck_mem.
Proof.
  split.
  - split; try done; try (cbn; lia). intros pg _. by left.
  - split.
    + reflexivity.
    + cbn. lia.
    + repeat constructor.
    + reflexivity.
    + reflexivity.
    + exact ck_writer.
    + intros _. right. vm_compute. reflexivity.
  - cbn. lia.
  - intros i Hi. assert (i = 1 \/ i = 2 \/ i = 3) as [->|[->| ->]] by lia; vm_compute; reflexivity.
  - apply ck_inv.
  - repeat constructor; apply ck_page_reader; lia.
  - intros r Hr. unfold ck_readers in Hr. rewrite !elem_of_cons in Hr. destruct Hr as [->|[->|Hr]]; [| |by apply not_elem_of_nil in Hr].
    all: split; unfold r_lock, r_min, r_mx; cbn; (done || lia).
Qed.

Lemma checkpoint_isolated_witness :
  exists m' ps', steps (fun _ => True) (ck_mem, ck_threads) (m', ps') /\
    backfilled (ex_log small) ck_contents (ck_wal (-1) false true 3) (rd m' nBackfill) m' /\ rd m' nBackfill = 2 /\
    ps' !! 2%nat = Some (Done (Page (ck_wal 1 false false 2) SQLITE_OK 71)) /\
    snapshot_page (ex_log small) 4096 ck_mem (mkReader (ck_wal 1 false false 2) 2 7) 71.
Proof.
  pose proof ck_run as Hr. destruct (schedule ck_turns ck_mem ck_threads) as [[m' ps']|] eqn:Hs; [|discriminate Hr].
  apply (schedule_steps (fun _ => True)) in Hs. cbn [ck_result] in Hr. injection Hr as Hnb _ _ Hps.
  destruct ps' as [|p0 [|p1 [|p2 [|p3 [|]]]]]; try discriminate Hps. injection Hps as _ _ H2 _.
  destruct p2 as [a| | | | | | |]; try discriminate H2. injection H2 as ->.
  destruct (checkpoint_isolated (fun _ => True) true (ex_log small) ck_contents (ck_wal (-1) false true 3) SQLITE_CHECKPOINT_PASSIVE 0 0
    (ck_wal 1 true false 3) 3 3 [9] ck_readers ck_mem m' [p0; p1; Done (Page (ck_wal 1 false false 2) SQLITE_OK 71); p3] ck_ok Hs)
    as (Hb & _ & _ & Hpage).
  exists m', [p0; p1; Done (Page (ck_wal 1 false false 2) SQLITE_OK 71); p3].
  split; [exact Hs|]. split; [exact Hb|]. split; [exact Hnb|]. split; [reflexivity|].
  destruct (Hpage 0%nat (mkReader (ck_wal 1 false false 2) 2 7) _ eq_refl eq_refl) as [_ Hv].
  exact (Hv (ck_wal 1 false false 2) 71 eq_refl).
Defined.

Lemma mergesort_correct_witness :
  exists aList, walMergesort [7; 8; 7; 3] (replicate 4 0%nat) (seq 0 4) 4 = Some (aList, 3%nat) /\ take 3 aList = [3; 2; 1]%nat /\
    forall j, j ∈ take 3 aList <-> exists p, [7; 8; 7; 3] !! j = Some p /\ forall j', (j < j')%nat -> [7; 8; 7; 3] !! j' <> Some p.
Proof.
  destruct (mergesort_correct [7; 8; 7; 3] (replicate 4 0%nat) ltac:(cbn; lia) ltac:(cbn; lia)) as (aList & k & E & _ & _ & H).
  assert (Hv : (fun r => (snd r, take 3 (fst r))) <$> walMergesort [7; 8; 7; 3] (replicate 4 0%nat) (seq 0 4) 4 = Some (3%nat, [3; 2; 1]%nat))
    by (vm_compute; reflexivity).
  cbn [length] in E. rewrite E in Hv. cbn in Hv. injection Hv as -> Ht. exists aList. split; [exact E|]. split; [exact Ht|exact H].
Defined.

Lemma iterator_visits_witness :
  exists w' l m', run (visit_all (ck_wal (-1) false true 3) 0) (ex_index small) = Some ((w', SQLITE_OK, l), m') /\ l = [(7, 3); (8, 2)] /\
    StronglySorted (fun x y => x.1 < y.1) l.
Proof.
  pose proof (iterator_visits (fun _ => True) (ex_log small) 3 (ck_wal (-1) false true 3) 0 (ex_index small) eq_refl ltac:(lia)
    ltac:(intros i Hi; assert (i = 1 \/ i = 2 \/ i = 3) as [->|[->| ->]] by lia; vm_compute; split; reflexivity)
    eq_refl ltac:(lia) eq_refl ltac:(intros; by left) (wi_index _ _ _ _ small_inv)) as Hrg.
  apply (rg_weaken _ _ eq) in Hrg; [|intros ? ? ->; reflexivity].
  destruct (rg_run _ _ _ _ _ Hrg) as ([[w' rc] l] & m' & Hrun & HQ).
  assert (Hv : (fun r => (r.1.1.2, r.1.2)) <$> run (visit_all (ck_wal (-1) false true 3) 0) (ex_index small) = Some (SQLITE_OK, [(7, 3); (8, 2)]))
    by (vm_compute; reflexivity).
  rewrite Hrun in Hv. cbn in Hv. injection Hv as -> ->. exists w', [(7, 3); (8, 2)], m'.
  split; [exact Hrun|]. split; [reflexivity|]. exact (proj1 (HQ eq_refl)).
Defined.
