(* ===== verification/Instances.v ===== *)
(** Concrete instances of the parameters: a one-file in-memory unix VFS, and a
    network that delivers, loses or half-delivers each call.

    They stand for the operating system and for gRPC in the examples that run
    the model on concrete inputs; no theorem about the code depends on them. *)
From S2P Require Import Prelude CMem UnixFile ArgConvert MethodList UnixVfs ServerWrap.
From S2P Require Import Messages RemoteClient RemoteVfs RemoteRefinement.

(** ** A one-file unix VFS *)

Record memfs := mkMem { mem_data : region; mem_level : Z }.

(** Bytes [off, off + n) of the file, zero-filled past its end. *)
Definition mem_bytes (w : memfs) (off n : Z) : region :=
  let d := slice (mem_data w) off n in d ++ zeros (n - len d).

Definition mem_put (w : memfs) (off : Z) (d : region) : memfs :=
  let old := mem_data w ++ zeros (off - len (mem_data w)) in
  mkMem (take (Z.to_nat off) old ++ d ++ drop (Z.to_nat off + length d) old) (mem_level w).

Definition mem_open_file (path_addr : Z) (pFile : region) : option region :=
  f ← store_int (zeros SIZE_UNIXFILE) off_h 3;
  f ← uf_set_pMethods f 4096;
  uf_set_zPath f path_addr.

#[export] Instance memfs_vfs : UnixVfs memfs := {|
  vOsInit w := Some (0, w);
  vOpen _ addr pFile flags out w := f ← mem_open_file addr pFile; Some (0, f, option_map (fun _ => flags) out, w);
  vDelete _ _ w := Some (0, mkMem [] (mem_level w));
  vAccess _ _ _ w := Some (0, 1, w);
  vFullPathname p nOut out w := out ← strcpy out 0 p 0; Some (0, out, w);
  vGetLastError w := Some (0, w);
  vRead id pBuf amt off w :=
    d ← mem_read pBuf 0 amt;
    Some (if len (mem_data w) <? off + amt then 522 else 0, id,
      mem_bytes w (Z.max 0 off) (len d) ++ drop (Z.to_nat amt) pBuf, w);
  vWrite id pBuf amt off w :=
    d ← mem_read pBuf 0 amt; if off <? 0 then None else Some (0, id, mem_put w off d);
  vTruncate id n w :=
    Some (0, id, mkMem (mem_bytes w 0 (Z.max 0 n)) (mem_level w));
  vSync id _ w := Some (0, id, w);
  vFileSize id _ w := Some (0, id, wrap_s 64 (len (mem_data w)), w);
  vFileControl id _ pArg w := Some (12, id, pArg, w);
  vSectorSize id w := Some (4096, id, w);
  vDeviceCharacteristics id w := Some (0, id, w);
  vClose _ id w := Some (0, zeros SIZE_UNIXFILE, w);
  vLock id e w := Some (0, id, mkMem (mem_data w) (Z.max e (mem_level w)));
  vUnlock id e w := Some (0, id, mkMem (mem_data w) e);
  vCheckReservedLock id _ w := Some (0, id, if 2 <=? mem_level w then 1 else 0, w);
  vFetch id _ _ w := Some (0, id, None, w);
  vUnfetch id _ _ w := Some (0, id, w);
  vDeref _ _ := None |}.

Lemma mem_bytes_len w off n : 0 <= n -> len (mem_bytes w off n) = n.
Proof.
  intros. unfold mem_bytes, len, zeros. rewrite length_app, length_replicate.
  unfold slice. rewrite length_take. lia.
Qed.

Lemma in_s_small z : -1000000 <= z <= 1000000 -> in_s 32 z.
Proof. unfold in_s. lia. Qed.

Lemma mem_read_front (p x : region) : mem_read (p ++ x) 0 (len p) = Some p.
Proof. pose proof (len_nonneg p). by rewrite mem_read_app, mem_read_all by lia. Qed.

Lemma mem_open_file_ok a f f' : mem_open_file a f = Some f' -> is_unixFile f'.
Proof.
  unfold mem_open_file, uf_set_pMethods, uf_set_zPath, is_unixFile. mem_unfold.
  intros H. inv_opt. repeat match goal with
    | H : mem_write _ _ _ = Some _ |- _ => apply mem_write_len in H end.
  rewrite len_zeros in *; szlia.
Qed.

#[export] Instance memfs_vfs_ok : UnixVfsOk memfs.
Proof.
  assert (Hf : forall id, is_unixFile id -> frame id id) by (by split).
  assert (Hl : forall (pBuf x : region) amt w off, mem_read pBuf 0 amt = Some x ->
    len (mem_bytes w off (len x) ++ drop (Z.to_nat amt) pBuf) = len pBuf).
  { intros pBuf x amt w off Hr. pose proof (mem_read_len _ _ _ _ Hr).
    apply mem_read_Some in Hr as (? & ? & ? & _).
    rewrite len_app, mem_bytes_len by lia. unfold len in *. rewrite length_drop. lia. }
  split; cbn; intros; try match goal with H : len ?p = ?amt |- _ =>
      subst amt; rewrite mem_read_front, mem_read_all by done; cbn;
      rewrite <- ?app_assoc; unfold len; rewrite ?Nat2Z.id, ?drop_app_length, ?drop_all end;
    repeat case_bool; inv_opt; split_and?;
    try first [done | by apply Hf | by eapply mem_open_file_ok | by apply Hl | apply in_s_small; lia
      | apply in_s_small; case_bool; lia | intros; by apply wrap_s_range].
Qed.

(** ** A network with losses

    Each call is delivered and answered, lost on the way to the server, or
    served with its answer lost; a call that crashes the server gets no answer.
    Past the end of the list every call is delivered. *)

Inductive fate := Delivered | LostRequest | LostReply.

Record net (W : Type) := mkNet { fates : list fate; net_srv : server W }.
Arguments mkNet {W}. Arguments fates {W}. Arguments net_srv {W}.

Section network.

Context {W : Type} `{V : UnixVfs W}.
Context (uninit : Z -> MethodAndFD) (uninit_bytes : Z -> region).
Context (posixIoMethods path_addr : Z).

Local Abbreviation handler := (handler uninit uninit_bytes posixIoMethods path_addr).

Definition net_rpc (m : Method) (req : ArgRequest) (n : net W) : option ArgReply * net W :=
  let rest := tail (fates n) in
  match default Delivered (head (fates n)), handler m req (net_srv n) with
  | Delivered, Some (reply, s) => (Some reply, mkNet rest s)
  | LostReply, Some (_, s) => (None, mkNet rest s)
  | _, _ => (None, mkNet rest (net_srv n))
  end.

Definition net_up (n : net W) : Prop := fates n = [].

Lemma net_rpc_up m req n reply s' :
  net_up n -> handler m req (net_srv n) = Some (reply, s') ->
  exists n', net_rpc m req n = (Some reply, n') /\ net_srv n' = s' /\ net_up n'.
Proof.
  unfold net_up, net_rpc. intros -> ->. cbn. by eexists.
Qed.

End network.

(** ** A server with one open file *)

Definition ex_uninit (a : Z) : MethodAndFD := mkNode 0 0 (replicate 512 Byte.x00) 0.

Definition ex_posix : Z := 4096.
Definition ex_path_addr : Z := 8192.
Definition ex_remote : Z := 12288.

(** "db" *)
Definition ex_path : region := [Byte.x64; Byte.x62; Byte.x00].

(** The table after an open of "db" as descriptor 3, and the object of the
    client and of the server. *)
Definition ex_table : mlist :=
  default (empty_mlist 16)
    (t ← AddNode ex_uninit (empty_mlist 16) 3 ex_posix; setServicePath ex_uninit t 3 ex_path).

Definition ex_id : region :=
  default [] (f ← store_int (zeros SIZE_UNIXFILE) off_h 3; uf_set_pMethods f ex_remote).

Definition ex_server (w : memfs) : server memfs := mkServer ex_table w.

Definition ex_client : client := {| stub_ := Some ex_path |}.
