(* ===== verification/Witnesses.v ===== *)
(** Runs of the model on concrete inputs: each theorem with hypotheses applied
    where they hold. *)
From S2P Require Import Prelude CMem UnixFile OsRemoteInit MethodList ArgConvert UnixVfs.
From S2P Require Import ServerWrap Messages RemoteClient RemoteVfs RemoteRefinement.
From S2P Require Import RemoteOpen RemoteLimits TableSpec Instances.

(** ** One open file *)

Lemma ex_uninit_ok a : node_ok (ex_uninit a).
Proof. reflexivity. Qed.

(** The node of descriptor 3, and the path it holds. *)
Definition ex_node : Z := 552.

Lemma ex_entry : exists p, entry_ok ex_table 3 ex_node ex_posix p.
Proof.
  destruct (AddNode_repr ex_uninit ex_uninit_ok (empty_mlist 16) [] 3 ex_posix
    ltac:(by apply repr_empty)) as (t & ns & a & p & Ht & Hr & Hp & Ha & _).
  assert (Hl : abs ns !! 3 = Some (a, ex_posix, p)) by (by rewrite Ha, lookup_insert_eq).
  destruct (setServicePath_present ex_uninit ex_uninit_ok t ns 3 a ex_posix p ex_path 2)
    as (t' & ns' & p' & Ht' & Hr' & _ & _ & _ & Hs & Ha'); [done|done|done|lia|].
  assert (He : ex_table = t') by (unfold ex_table; rewrite Ht; cbn; by rewrite Ht').
  assert (Hl' : abs ns' !! 3 = Some (a, ex_posix, p')) by (by rewrite Ha', lookup_insert_eq).
  destruct (FindNode_present ex_uninit ex_uninit_ok t' ns' 3 a ex_posix p' 16 Hr' Hl')
    as (pre & Hf & _).
  assert (a = ex_node) as ->.
  { assert (Hc : fst <$> (fst <$> FindNode ex_uninit ex_table 3 16) = Some ex_node) by (by vm_compute).
    rewrite He, Hf in Hc. by injection Hc. }
  exists p'. rewrite He. split; [by exists ns'|done|done|by exists 2].
Qed.

Definition ex_sid : region :=
  default [] (f ← uf_set_pMethods ex_id ex_posix; uf_set_zPath f (ex_node + off_path)).

Lemma ex_linked : linked ex_table ex_id ex_sid.
Proof.
  destruct ex_entry as [p He].
  split; [done|]. split; [done|]. split.
  - destruct (set_pMethods_ok ex_id ex_posix) as (f1 & H1 & Hf1 & Hs1 & _); [done|].
    destruct (set_zPath_ok f1 (ex_node + off_path) Hf1) as (f2 & H2 & _ & Hs2 & _).
    assert (ex_sid = f2) as -> by (unfold ex_sid; rewrite H1; cbn; by rewrite H2).
    by etrans.
  - by exists 3, ex_node, ex_posix, p.
Qed.

(** ** The remote VFS *)

Local Abbreviation ex_rpc := (net_rpc (W := memfs) ex_uninit zeros ex_posix ex_path_addr).
Local Abbreviation ex_remote_op := (remote_op ex_rpc ex_remote (fun _ => None)).

(** Lock, write "hi", read it back, and ask for the size. *)
Definition ex_prog : list (nat * fop) :=
  [ (0%nat, OpLock 1); (0%nat, OpWrite [Byte.x68; Byte.x69] 2 0);
    (0%nat, OpRead (zeros 3) 3 0); (0%nat, OpFileSize 0) ].

Definition ex_local : option (list (Z * fout) * list region * memfs) :=
  run local_op ex_prog [ex_sid] (mkMem [] 0).

Lemma remote_run_refines_witness :
  exists ids' n',
    run (ex_remote_op ex_client) ex_prog [ex_id] (mkNet [] (ex_server (mkMem [] 0))) =
      Some ([(0, NoOut); (0, NoOut); (522, OutBuf [Byte.x68; Byte.x69; Byte.x00]); (0, OutInt 2)],
        ids', n') /\
    net_up n' /\ world (net_srv n') = mkMem [Byte.x68; Byte.x69] 1 /\
    Forall2 (linked (table (net_srv n'))) ids' [ex_sid].
Proof.
  apply (remote_run_refines ex_uninit zeros ex_posix ex_path_addr ex_remote (fun _ => None)
    ex_rpc net_srv net_up ex_uninit_ok len_zeros) with (sids := [ex_sid]).
  - done.
  - apply net_rpc_up.
  - done.
  - done.
  - repeat (apply Forall_cons; split; [vm_compute; repeat split; discriminate|]). by constructor.
  - constructor; [apply ex_linked|constructor].
  - by vm_compute.
Defined.

Lemma unanswered_reports_ok_witness :
  exists n', ex_remote_op ex_client (OpWrite [Byte.x68; Byte.x69] 2 0) ex_id
      (mkNet [LostRequest] (ex_server (mkMem [] 0))) =
    Some (SQLITE_OK, NoOut, zeros SIZE_UNIXFILE, n').
Proof.
  apply (unanswered_reports_ok ex_rpc ex_remote (fun _ => None) ex_client
    (OpWrite [Byte.x68; Byte.x69] 2 0)); [done|done|done|].
  intros req. unfold net_rpc. cbn. by repeat case_match.
Defined.

(** Opening "db" on a server with an empty table. *)
Definition ex_server0 : server memfs := mkServer (empty_mlist 16) (mkMem [] 0).

Lemma remoteOpen_links_witness :
  exists id' n' ns' a p sid f,
    remoteOpen ex_rpc ex_remote ex_client ex_path (zeros SIZE_UNIXFILE) 6 (Some 0)
      (mkNet [] ex_server0) = Some (0, id', Some 6, n') /\
    net_up n' /\ world (net_srv n') = mkMem [] 0 /\ repr (table (net_srv n')) ns' /\
    abs ns' = <[3 := (a, 4096, p)]> (abs []) /\ cstring p 0 = Some [Byte.x64; Byte.x62] /\ same_handle f sid /\
    linked (table (net_srv n')) id' sid.
Proof.
  destruct (remoteOpen_links ex_uninit zeros ex_posix ex_path_addr ex_remote ex_rpc net_srv net_up
    ex_uninit_ok len_zeros (net_rpc_up _ _ _ _) ex_client (mkNet [] ex_server0) [] ex_path
    (zeros SIZE_UNIXFILE) 6 (Some 0) 2 0
    (default [] (mem_open_file ex_path_addr (zeros SIZE_UNIXFILE))) (Some 6) (mkMem [] 0) 3 4096)
    as (id' & n' & ns' & a & p & sid & H); try done.
  - by apply repr_empty.
  - exists id', n', ns', a, p, sid, (default [] (mem_open_file ex_path_addr (zeros SIZE_UNIXFILE))).
    exact H.
Defined.

Lemma remote_path_ops_witness :
  exists n', remoteAccess ex_rpc ex_client ex_path 0 0 (mkNet [] ex_server0) = Some (0, 1, n') /\
    net_up n' /\ net_srv n' = mkServer (table ex_server0) (mkMem [] 0).
Proof.
  apply (remote_path_ops ex_uninit zeros ex_posix ex_path_addr ex_rpc net_srv net_up
    len_zeros (net_rpc_up _ _ _ _) ex_client (mkNet [] ex_server0) ex_path 2 0 0);
    try done; vm_compute; done.
Defined.

(** A page of 16384 bytes. *)
Lemma large_transfer_overflows_witness :
  match encode_request (fun _ => None) (OpWrite (zeros 16384) 16384 0) ex_id with
  | None => True
  | Some arg => forall outlen s,
      handler ex_uninit zeros ex_posix ex_path_addr (W := memfs) MWrite
        {| inarg := arg; outlen := outlen |} s = None
  end.
Proof.
  apply (large_transfer_overflows ex_uninit zeros ex_posix ex_path_addr (fun _ => None)
    len_zeros true (zeros 16384) 16384 0 ex_id); [done|done|done|].
  rewrite len_zeros by lia. unfold MAX_SIZE. lia.
Defined.

Lemma fetch_unmapped_crashes_witness :
  exists arg, unixFetchConvertArgInToChar ex_id 0 4096 (zeros sizeof_ArgInFetch) = Some arg /\
    forall outlen, handler ex_uninit zeros ex_posix ex_path_addr MFetch
      {| inarg := arg; outlen := outlen |} (ex_server (mkMem [] 0)) = None.
Proof.
  apply (fetch_unmapped_crashes ex_uninit zeros ex_posix ex_path_addr net_srv ex_uninit_ok len_zeros
    ex_id ex_sid 0 4096 (mkNet [] (ex_server (mkMem [] 0))) 0 ex_sid (mkMem [] 0));
    [apply ex_linked|done|done|done].
Defined.

Lemma remoteUnfetch_stale_witness :
  exists id' n', remoteUnfetch ex_rpc ex_remote ex_client ex_id 0 true
      (mkNet [] (ex_server (mkMem [] 0))) = Some (0, id', n') /\
    net_up n' /\ world (net_srv n') = mkMem [] 0 /\ same_handle ex_id id' /\
    linked (table (net_srv n')) id' ex_sid.
Proof.
  apply (remoteUnfetch_stale ex_uninit zeros ex_posix ex_path_addr ex_remote ex_rpc net_srv net_up
    ex_uninit_ok len_zeros (net_rpc_up _ _ _ _) ex_client ex_id ex_sid 0 true
    (mkNet [] (ex_server (mkMem [] 0))) 0 ex_sid (mkMem [] 0)); try done. apply ex_linked.
Defined.

Lemma remoteClose_keeps_link_witness :
  exists id' n', remoteClose ex_rpc ex_remote ex_client ex_id
      (mkNet [] (ex_server (mkMem [] 0))) = Some (0, id', n') /\
    net_up n' /\ net_srv n' = mkServer ex_table (mkMem [] 0) /\
    linked (table (net_srv n')) id' ex_sid.
Proof.
  apply (remoteClose_keeps_link ex_uninit zeros ex_posix ex_path_addr ex_remote ex_rpc net_srv net_up
    ex_uninit_ok len_zeros (net_rpc_up _ _ _ _) ex_client ex_id ex_sid ex_posix
    (mkNet [] (ex_server (mkMem [] 0))) 0 (zeros SIZE_UNIXFILE) (mkMem [] 0)); try done.
  apply ex_linked.
Defined.

(** The server after a restart: the client's object is from its predecessor. *)
Definition ex_stale : region := default [] (uf_set_zPath ex_sid 65536).

Lemma unknown_descriptor_crashes_witness :
  exists arg, encode_request (fun _ => None) OpSectorSize ex_stale = Some arg /\
    forall outlen, handler ex_uninit zeros ex_posix ex_path_addr MSectorSize
      {| inarg := arg; outlen := outlen |} (mkServer (empty_mlist 8192) (mkMem [] 0)) = None.
Proof.
  apply (unknown_descriptor_crashes ex_uninit zeros ex_posix ex_path_addr (fun _ => None) net_srv
    ex_uninit_ok len_zeros OpSectorSize ex_stale 3 65536
    (mkNet [] (mkServer (empty_mlist 8192) (mkMem [] 0))) []); try done.
  - by apply repr_empty.
  - vm_compute. intros [_ H]. discriminate.
Defined.

Lemma write_reply_leaks_witness :
  exists arg reply s',
    handler ex_uninit (fun n => replicate (Z.to_nat n) Byte.x2a) ex_posix ex_path_addr MWrite
      {| inarg := arg; outlen := sizeof_ReturnWrite |} (ex_server (mkMem [] 0)) = Some (reply, s') /\
    mem_read (outarg reply) SIZE_UNIXFILE MAX_SIZE =
      mem_read (replicate (Z.to_nat sizeof_ReturnWrite) Byte.x2a) SIZE_UNIXFILE MAX_SIZE.
Proof.
  set (arg := default [] (encode_request (fun _ => None) (OpWrite [Byte.x68; Byte.x69] 2 0) ex_id)).
  destruct (handler ex_uninit (fun n => replicate (Z.to_nat n) Byte.x2a) ex_posix ex_path_addr MWrite
    {| inarg := arg; outlen := sizeof_ReturnWrite |} (ex_server (mkMem [] 0))) as [[reply s']|] eqn:H.
  - exists arg, reply, s'. split; [done|].
    refine (write_reply_leaks ex_uninit _ ex_posix ex_path_addr _ arg _ reply s' H).
    intros n Hn. unfold len. rewrite length_replicate. lia.
  - exfalso. revert H. by vm_compute.
Defined.

Lemma remoteFileControl_string_null_witness :
  remoteFileControl ex_rpc ex_remote (fun _ => None) ex_client ex_id SQLITE_FCNTL_VFSNAME
    (Some (zeros 8)) (mkNet [] (ex_server (mkMem [] 0))) = None.
Proof. by apply remoteFileControl_string_null. Defined.

(** Two descriptors, one deleted. *)
Definition ex_cmds : list tcmd :=
  [TAdd 3 ex_posix; TSetPath 3 ex_path; TAdd 4 ex_posix; TDelete 3; TFind 3; TFind 4].

Lemma table_refines_map_witness :
  exists s', tlist_run ex_uninit ex_cmds (empty_mlist 16) =
      Some (s', [None; None; None; None; Some false; Some true]) /\
    represents s' (<[4 := (ex_posix, None)]> ∅).
Proof.
  assert (E : tmap_run ex_cmds ∅ =
    (<[4 := (ex_posix, None)]> ∅, [None; None; None; None; Some false; Some true])) by (by vm_compute).
  destruct (table_refines_map ex_uninit ex_uninit_ok ex_cmds (empty_mlist 16) ∅) as (s' & H1 & H2).
  - repeat constructor. by exists 2.
  - by apply represents_empty.
  - rewrite E in H1, H2. by exists s'.
Defined.
