(* ===== verification/BtreeCell.v ===== *)
(** The cells of a b-tree page (src/sqlite-src-3280000/src/btree.c, btreeInt.h): how a
    cell is parsed and how long it is.

    A cell is read through a [reader], which answers [None] outside the buffer; the
    address of a byte is its index.  Pages are those of a database without the pointer
    map of auto-vacuum. *)
From S2P Require Import Prelude Varint VarintSpec Disk.

(** ** Data *)

(** The sizes of a database file, and the flags the page operations look at:
    BTS_FAST_SECURE of [btsFlags] and SQLITE_CellSizeCk of the connection. *)
Record BtShared := mkBtShared {
  pageSize : Z;
  usableSize : Z;
  bt_maxLocal : Z;
  bt_minLocal : Z;
  maxLeaf : Z;
  minLeaf : Z;
  bt_max1bytePayload : Z;
  BTS_FAST_SECURE : bool;
  SQLITE_CellSizeCk : bool }.

(** What [lockBtree] computes from the usable size. *)
Definition lockBtree_sizes (pgsz usable : Z) (secure check : bool) : BtShared :=
  let maxLocal := wrap_u 16 ((usable - 12) * 64 / 255 - 23) in
  let minLocal := wrap_u 16 ((usable - 12) * 32 / 255 - 23) in
  mkBtShared pgsz usable maxLocal minLocal (wrap_u 16 (usable - 35)) minLocal (if 127 <? maxLocal then 127 else wrap_u 8 maxLocal) secure check.

Inductive cell_size := cellSizePtr_m | cellSizePtrNoPayload_m.
Inductive cell_parser := btreeParseCellPtr_m | btreeParseCellPtrNoPayload_m | btreeParseCellPtrIndex_m.

(** A page in memory.  The pointers into [aData] are the offsets [cellOffset] and
    [childPtrSize]; [aOvfl] has the cells of [apOvfl] with their indices of [aiOvfl]. *)
Record MemPage := mkMemPage {
  isInit : bool;
  intKey : bool;
  intKeyLeaf : bool;
  leaf : Z;
  hdrOffset : Z;
  childPtrSize : Z;
  max1bytePayload : Z;
  maxLocal : Z;
  minLocal : Z;
  cellOffset : Z;
  nFree : Z;
  nCell : Z;
  maskPage : Z;
  aOvfl : list (Z * bytes);
  xCellSize_p : cell_size;
  xParseCell_p : cell_parser;
  aData : bytes }.

Record CellInfo := mkCellInfo { nKey : Z; pPayload : Z; nPayload : Z; nLocal : Z; nSize : Z }.

(** ** Reading *)

Definition reader : Type := Z -> option Z.

(** At most [n] bytes from [a] on, as far as they can be read. *)
Fixpoint fetch (n : nat) (rd : reader) (a : Z) : bytes :=
  match n with
  | O => []
  | S n => match rd a with Some b => b :: fetch n rd (a + 1) | None => [] end
  end.

Section cells.
Context (pBt : BtShared) (pPage : MemPage).

(** The [do] loop that is inlined for [getVarint32]. *)
Fixpoint payload_loop (fuel : nat) (rd : reader) (pEnd pIter nPayload : Z) : option (Z * Z) :=
  match fuel with
  | O => None
  | S fuel =>
      let pIter := pIter + 1 in
      b ← rd pIter;
      let nPayload := Z.lor (u32 (Z.shiftl nPayload 7)) (Z.land b 0x7f) in
      if (0x80 <=? b) && (pIter <? pEnd) then payload_loop fuel rd pEnd pIter nPayload else Some (pIter, nPayload)
  end.

(** The address behind the integer, and its value. *)
Definition read_payload (rd : reader) (pIter : Z) : option (Z * Z) :=
  b ← rd pIter;
  '(pIter, nPayload) ← (if 0x80 <=? b then payload_loop 8 rd (pIter + 8) pIter (Z.land b 0x7f) else Some (pIter, b));
  Some (pIter + 1, nPayload).

(** The loop that is inlined for [getVarint]. *)
Fixpoint key_loop (fuel : nat) (rd : reader) (pEnd pIter iKey : Z) : option (Z * Z) :=
  match fuel with
  | O => None
  | S fuel =>
      let pIter := pIter + 1 in
      b ← rd pIter;
      let iKey := Z.lor (u64 (Z.shiftl iKey 7)) (Z.land b 0x7f) in
      if b <? 0x80 then Some (pIter, iKey) else
      if pEnd <=? pIter then b ← rd (pIter + 1); Some (pIter + 1, Z.lor (u64 (Z.shiftl iKey 8)) b)
      else key_loop fuel rd pEnd pIter iKey
  end.

Definition read_key (rd : reader) (pIter : Z) : option (Z * Z) :=
  b ← rd pIter;
  '(pIter, iKey) ← (if 0x80 <=? b then key_loop 7 rd (pIter + 7) pIter (Z.land b 0x7f) else Some (pIter, b));
  Some (pIter + 1, iKey).

(** The loop [while( ( *pIter++)&0x80 && pIter<pEnd )]. *)
Fixpoint skip_loop (fuel : nat) (rd : reader) (pEnd pIter : Z) : option Z :=
  match fuel with
  | O => None
  | S fuel =>
      b ← rd pIter;
      let pIter := pIter + 1 in
      if negb (Z.land b 0x80 =? 0) && (pIter <? pEnd) then skip_loop fuel rd pEnd pIter else Some pIter
  end.

(** ** Parsing *)

(** How much of a payload that does not fit is kept on the page. *)
Definition surplus (nPayload : Z) : Z := minLocal pPage + u32 (nPayload - minLocal pPage) mod (usableSize pBt - 4).

Definition btreeParseCellAdjustSizeForOverflow (pCell : Z) (pInfo : CellInfo) : CellInfo :=
  let s := surplus (nPayload pInfo) in
  let local := wrap_u 16 (if s <=? maxLocal pPage then s else minLocal pPage) in
  mkCellInfo (nKey pInfo) (pPayload pInfo) (nPayload pInfo) local (wrap_u 16 (wrap_u 16 (pPayload pInfo + local - pCell) + 4)).

(** The end of [btreeParseCellPtr] and of [btreeParseCellPtrIndex]. *)
Definition parse_finish (pCell pIter key payload : Z) : CellInfo :=
  if payload <=? maxLocal pPage then
    let size := wrap_u 16 (payload + wrap_u 16 (pIter - pCell)) in
    mkCellInfo key pIter payload (wrap_u 16 payload) (if size <? 4 then 4 else size)
  else btreeParseCellAdjustSizeForOverflow pCell (mkCellInfo key pIter payload 0 0).

(** [pPayload] is 0 here; the asserts of the three are on the kind of the page. *)
Definition btreeParseCellPtrNoPayload (rd : reader) (pCell : Z) : option CellInfo :=
  _ ← guard (leaf pPage = 0 /\ childPtrSize pPage = 4);
  '(v, n) ← sqlite3GetVarint (fetch 9 rd (pCell + 4));
  Some (mkCellInfo (wrap_s 64 v) 0 0 0 (wrap_u 16 (4 + n))).

Definition btreeParseCellPtr (rd : reader) (pCell : Z) : option CellInfo :=
  _ ← guard (intKeyLeaf pPage = true /\ childPtrSize pPage = 0);
  '(pIter, payload) ← read_payload rd pCell;
  '(pIter, iKey) ← read_key rd pIter;
  Some (parse_finish pCell pIter (wrap_s 64 iKey) payload).

Definition btreeParseCellPtrIndex (rd : reader) (pCell : Z) : option CellInfo :=
  _ ← guard (intKeyLeaf pPage = false);
  '(pIter, payload) ← read_payload rd (pCell + childPtrSize pPage);
  Some (parse_finish pCell pIter payload payload).

Definition xParseCell (rd : reader) (pCell : Z) : option CellInfo :=
  match xParseCell_p pPage with
  | btreeParseCellPtr_m => btreeParseCellPtr rd pCell
  | btreeParseCellPtrNoPayload_m => btreeParseCellPtrNoPayload rd pCell
  | btreeParseCellPtrIndex_m => btreeParseCellPtrIndex rd pCell
  end.

(** ** Sizes *)

Definition cellSizePtr (rd : reader) (pCell : Z) : option Z :=
  '(pIter, nSize) ← read_payload rd (pCell + childPtrSize pPage);
  pIter ← (if intKey pPage then skip_loop 9 rd (pIter + 9) pIter else Some pIter);
  Some (wrap_u 16
    (if nSize <=? maxLocal pPage then
       let nSize := u32 (nSize + u32 (pIter - pCell)) in if nSize <? 4 then 4 else nSize
     else
       let nSize := surplus nSize in
       u32 ((if maxLocal pPage <? nSize then minLocal pPage else nSize) + 4 + wrap_u 16 (pIter - pCell)))).

Definition cellSizePtrNoPayload (rd : reader) (pCell : Z) : option Z :=
  _ ← guard (childPtrSize pPage = 4);
  pIter ← skip_loop 9 rd (pCell + 4 + 9) (pCell + 4);
  Some (wrap_u 16 (pIter - pCell)).

Definition xCellSize (rd : reader) (pCell : Z) : option Z :=
  match xCellSize_p pPage with
  | cellSizePtr_m => cellSizePtr rd pCell
  | cellSizePtrNoPayload_m => cellSizePtrNoPayload rd pCell
  end.

End cells.

(** ** A cell is read from its own bytes *)

(** [rd'] has from [a'] on what [rd] has from [a] on, for [n] bytes. *)
Definition copied (rd rd' : reader) (a a' n : Z) : Prop := forall k, 0 <= k < n -> rd' (a' + k) = rd (a + k).

Lemma copied_at rd rd' a a' n b : copied rd rd' a a' n -> a <= b < a + n -> rd' (a' + (b - a)) = rd b.
Proof. intros Hc Hb. rewrite Hc by lia. f_equal. lia. Qed.

Section local.
Context (rd rd' : reader) (a a' : Z).

Lemma test_moved p q : (a' + (p - a) + 1 <? a' + (q - a)) = (p + 1 <? q).
Proof. destruct (Z.ltb_spec (p + 1) q); [apply Z.ltb_lt|apply Z.ltb_ge]; lia. Qed.

(** A loop that is at [p] in the cell [a], and at the same place in the copy. *)
Lemma payload_loop_local fuel pEnd p v e w :
  payload_loop fuel rd pEnd p v = Some (e, w) ->
  p < e <= p + Z.of_nat fuel /\ forall n, copied rd rd' a a' n -> a <= p -> e < a + n -> payload_loop fuel rd' (a' + (pEnd - a)) (a' + (p - a)) v = Some (a' + (e - a), w).
Proof.
  revert p v. induction fuel as [|fuel IH]; intros p v H; [done|]. cbn [payload_loop] in *. destruct (rd (p + 1)) as [b|] eqn:Eb; [|done]. cbn [mbind option_bind] in H.
  assert (Hread : forall n, copied rd rd' a a' n -> a <= p -> p + 1 < a + n -> rd' (a' + (p - a) + 1) = Some b).
  { intros n Hc Hp Hn. rewrite <- Eb. replace (a' + (p - a) + 1) with (a' + (p + 1 - a)) by lia. apply (copied_at _ _ _ _ n); [done|lia]. }
  destruct ((0x80 <=? b) && (p + 1 <? pEnd)) eqn:Et.
  - apply IH in H as [Hr H]. split; [lia|]. intros n Hc Hp Hn. rewrite (Hread n) by (done || lia). cbn [mbind option_bind]. rewrite test_moved, Et. replace (a' + (p - a) + 1) with (a' + (p + 1 - a)) by lia. apply (H n); (done || lia).
  - injection H as <- <-. split; [lia|]. intros n Hc Hp Hn. rewrite (Hread n) by (done || lia). cbn [mbind option_bind]. rewrite test_moved, Et. do 2 f_equal. lia.
Qed.

Lemma skip_loop_local fuel pEnd p e :
  skip_loop fuel rd pEnd p = Some e ->
  p < e <= p + Z.of_nat fuel /\ forall n, copied rd rd' a a' n -> a <= p -> e <= a + n -> skip_loop fuel rd' (a' + (pEnd - a)) (a' + (p - a)) = Some (a' + (e - a)).
Proof.
  revert p. induction fuel as [|fuel IH]; intros p H; [done|]. cbn [skip_loop] in *. destruct (rd p) as [b|] eqn:Eb; [|done]. cbn [mbind option_bind] in H.
  assert (Hread : forall n, copied rd rd' a a' n -> a <= p -> p < a + n -> rd' (a' + (p - a)) = Some b) by (intros n Hc Hp Hn; rewrite <- Eb; apply (copied_at _ _ _ _ n); [done|lia]).
  destruct (negb (Z.land b 0x80 =? 0) && (p + 1 <? pEnd)) eqn:Et.
  - apply IH in H as [Hr H]. split; [lia|]. intros n Hc Hp Hn. rewrite (Hread n) by (done || lia). cbn [mbind option_bind]. rewrite test_moved, Et. replace (a' + (p - a) + 1) with (a' + (p + 1 - a)) by lia. apply (H n); (done || lia).
  - injection H as <-. split; [lia|]. intros n Hc Hp Hn. rewrite (Hread n) by (done || lia). cbn [mbind option_bind]. rewrite test_moved, Et. f_equal. lia.
Qed.

Lemma read_payload_local p e v :
  read_payload rd p = Some (e, v) ->
  p < e <= p + 9 /\ forall n, copied rd rd' a a' n -> a <= p -> e <= a + n -> read_payload rd' (a' + (p - a)) = Some (a' + (e - a), v).
Proof.
  unfold read_payload. destruct (rd p) as [b|] eqn:Eb; [|done]. cbn [mbind option_bind]. intros H.
  assert (Hread : forall n, copied rd rd' a a' n -> a <= p -> p < a + n -> rd' (a' + (p - a)) = Some b) by (intros n Hc Hp Hn; rewrite <- Eb; apply (copied_at _ _ _ _ n); [done|lia]).
  destruct (0x80 <=? b) eqn:Et.
  - destruct (payload_loop 8 rd (p + 8) p (Z.land b 0x7f)) as [[q w]|] eqn:El; [|done]. cbn [mbind option_bind] in H. injection H as <- <-.
    apply payload_loop_local in El as [Hr El]. split; [lia|]. intros n Hc Hp Hn. rewrite (Hread n) by (done || lia). cbn [mbind option_bind]. rewrite Et.
    replace (a' + (p - a) + 8) with (a' + (p + 8 - a)) by lia. rewrite (El n) by (done || lia). cbn [mbind option_bind]. do 2 f_equal. lia.
  - cbn [mbind option_bind] in H. injection H as <- <-. split; [lia|]. intros n Hc Hp Hn. rewrite (Hread n) by (done || lia). cbn [mbind option_bind]. rewrite Et. cbn [mbind option_bind]. do 2 f_equal. lia.
Qed.
End local.

(** ** The inlined decoders *)

Definition byte_reader (rd : reader) : Prop := forall a b, rd a = Some b -> is_byte b.

Lemma fetch_bytes rd n a : byte_reader rd -> Forall is_byte (fetch n rd a).
Proof. intros Hb. revert a. induction n as [|n IH]; intros a; [constructor|]. cbn [fetch]. destruct (rd a) as [b|] eqn:E; [|constructor]. constructor; [by apply (Hb a)|apply IH]. Qed.

Lemma append_7 acc b : 0 <= acc -> is_byte b -> Z.lor (Z.shiftl acc 7) (Z.land b 0x7f) = acc * 128 + b mod 128.
Proof.
  intros Ha Hb. rewrite land_127, Z.shiftl_mul_pow2 by lia. apply (lor_disjoint 7); [lia|done|]. change (2 ^ 7) with 128. apply Z.mod_pos_bound. lia.
Qed.

Lemma append_7_mod w acc b : 7 <= w -> is_byte b -> Z.lor (wrap_u w (Z.shiftl acc 7)) (Z.land b 0x7f) = wrap_u w (acc * 128 + b mod 128).
Proof.
  intros Hw Hb. rewrite land_127, Z.shiftl_mul_pow2 by lia. change (2 ^ 7) with 128. unfold wrap_u. pose proof (Z.mod_pos_bound b 128 ltac:(lia)) as Hm.
  assert (E : acc * 128 mod 2 ^ w = (acc mod 2 ^ (w - 7)) * 2 ^ 7).
  { replace (2 ^ w) with (2 ^ (w - 7) * 2 ^ 7) by (rewrite <- Z.pow_add_r by lia; f_equal; lia). change 128 with (2 ^ 7). by rewrite Z.mul_mod_distr_r by (apply Z.pow_nonzero; lia). }
  rewrite E, (lor_disjoint 7); [|lia|apply Z.mod_pos_bound, Z.pow_pos_nonneg; lia|done].
  symmetry. rewrite <- Z.add_mod_idemp_l by (apply Z.pow_nonzero; lia). rewrite E. apply Z.mod_small.
  pose proof (Z.mod_pos_bound acc (2 ^ (w - 7)) ltac:(apply Z.pow_pos_nonneg; lia)) as Ha. replace (2 ^ w) with (2 ^ (w - 7) * 2 ^ 7) by (rewrite <- Z.pow_add_r by lia; f_equal; lia).
  change (2 ^ 7) with 128 in *. nia.
Qed.

Section decoders.
Context (rd : reader) (Hrd : byte_reader rd).

Lemma skip_loop_ref fuel i acc p :
  (0 < fuel)%nat -> (fuel + i = 9)%nat ->
  skip_loop fuel rd (p + Z.of_nat fuel) p = (fun x => p + (x.2 - Z.of_nat i)) <$> get_ref i acc (fetch fuel rd p).
Proof.
  revert i acc p. induction fuel as [|fuel IH]; intros i acc p Hf Hi; [lia|]. cbn [skip_loop fetch]. destruct (rd p) as [b|] eqn:Eb; [|done]. cbn [mbind option_bind get_ref].
  rewrite land_high by by apply (Hrd p). destruct (decide (i = 8%nat)) as [->|Hn].
  - assert (fuel = 0)%nat as -> by lia. rewrite (proj2 (Z.ltb_ge (p + 1) _)) by lia. rewrite andb_false_r. cbn; f_equal; lia.
  - rewrite (proj2 (Z.ltb_lt (p + 1) _)) by lia. rewrite andb_true_r. destruct (Z.ltb_spec b 128); cbn [negb]; [cbn; f_equal; lia|].
    replace (p + Z.of_nat (S fuel)) with (p + 1 + Z.of_nat fuel) by lia. rewrite (IH (S i) (acc * 128 + b mod 128)) by lia.
    destruct (get_ref _ _ _) as [[v n]|]; [|done]. cbn. f_equal. lia.
Qed.

Lemma key_loop_ref fuel i acc p :
  (0 < fuel)%nat -> (fuel + i = 8)%nat -> 0 <= acc < 2 ^ (7 * Z.of_nat i) ->
  key_loop fuel rd (p + Z.of_nat fuel) p acc = (fun x => (p + (x.2 - Z.of_nat i), x.1)) <$> get_ref i acc (fetch (9 - i) rd (p + 1)).
Proof.
  revert i acc p. induction fuel as [|fuel IH]; intros i acc p Hf Hi Ha; [lia|]. cbn [key_loop]. replace (9 - i)%nat with (S (9 - S i)) by lia. cbn [fetch].
  destruct (rd (p + 1)) as [b|] eqn:Eb; [|done]. cbn [mbind option_bind get_ref]. pose proof (Hrd _ _ Eb) as Hb. rewrite decide_False by lia.
  pose proof (Z.mod_pos_bound b 128 ltac:(lia)) as Hm. assert (Hp : 2 ^ (7 * Z.of_nat (S i)) = 2 ^ (7 * Z.of_nat i) * 128) by (replace (7 * Z.of_nat (S i)) with (7 * Z.of_nat i + 7) by lia; by rewrite Z.pow_add_r by lia).
  assert (Hlt : 2 ^ (7 * Z.of_nat (S i)) <= 2 ^ 56) by (apply Z.pow_le_mono_r; lia). change (2 ^ 56) with 72057594037927936 in Hlt.
  unfold u64. rewrite append_7_mod by (done || lia). rewrite (wrap_u_id 64 (acc * 128 + b mod 128)) by (unfold in_u; change (2 ^ 64) with 18446744073709551616; nia).
  destruct (Z.ltb_spec b 128); [cbn; do 2 f_equal; lia|]. destruct fuel as [|fuel].
  - assert (i = 7)%nat as -> by lia. rewrite (proj2 (Z.leb_le _ (p + 1))) by lia. cbn [fetch Nat.sub]. destruct (rd (p + 1 + 1)) as [b2|] eqn:Eb2; [|done]. cbn [mbind option_bind get_ref fmap option_fmap option_map fst snd].
    pose proof (Hrd _ _ Eb2) as Hb2. rewrite decide_True by done. cbn. do 2 f_equal; [lia|].
    rewrite wrap_u_id by (unfold in_u; rewrite Z.shiftl_mul_pow2 by lia; change (2 ^ 8) with 256; change (2 ^ 64) with 18446744073709551616; nia).
    rewrite Z.shiftl_mul_pow2 by lia. apply (lor_disjoint 8); [lia|nia|exact Hb2].
  - rewrite (proj2 (Z.leb_gt _ (p + 1))) by lia. replace (p + Z.of_nat (S (S fuel))) with (p + 1 + Z.of_nat (S fuel)) by lia.
    rewrite (IH (S i)) by (lia || nia). destruct (get_ref _ _ _) as [[v n]|]; [|done]. cbn. do 2 f_equal. lia.
Qed.

(** The decoder of keys is that of [Varint]. *)
Lemma read_key_ref p : read_key rd p = (fun x => (p + x.2, x.1)) <$> sqlite3GetVarint (fetch 9 rd p).
Proof.
  rewrite getVarint_ref by by apply fetch_bytes. unfold read_key. cbn [fetch]. destruct (rd p) as [b|] eqn:Eb; [|done]. cbn [mbind option_bind get_ref]. rewrite decide_False by done.
  pose proof (Hrd _ _ Eb) as Hb. pose proof (Z.mod_pos_bound b 128 ltac:(lia)). destruct (Z.leb_spec 128 b).
  - rewrite (proj2 (Z.ltb_ge b 128)) by lia. rewrite land_127. change (p + 7) with (p + Z.of_nat 7). rewrite (key_loop_ref 7 1) by (lia || done).
    change (fetch (9 - 1) rd (p + 1)) with (fetch 8 rd (p + 1)). replace (0 * 128 + b mod 128) with (b mod 128) by lia. change (match rd (p + 1) with Some _ => _ | None => _ end) with (fetch 8 rd (p + 1)).
    destruct (get_ref 1 _ _) as [[v n]|]; [|done]. cbn. do 2 f_equal. lia.
  - rewrite (proj2 (Z.ltb_lt b 128)) by lia. cbn. rewrite Z.mod_small by (destruct Hb; lia). done.
Qed.

Lemma skip_key p : skip_loop 9 rd (p + 9) p = fst <$> read_key rd p.
Proof.
  rewrite read_key_ref, getVarint_ref by by apply fetch_bytes. change (p + 9) with (p + Z.of_nat 9). rewrite (skip_loop_ref 9 0 0) by lia.
  destruct (get_ref _ _ _) as [[v n]|]; [|done]. cbn. f_equal. lia.
Qed.
End decoders.

Section payload.
Context (rd : reader) (Hrd : byte_reader rd).

Lemma payload_loop_ref fuel i acc p :
  (0 < fuel)%nat -> (fuel + i = 9)%nat -> 0 <= acc ->
  match payload_loop fuel rd (p + Z.of_nat fuel) p (u32 acc), get_ref i acc (fetch (9 - i) rd (p + 1)) with
  | Some (e, w), Some (v, n) => e = p + (n - Z.of_nat i) /\ 0 <= w < 2 ^ 32 /\ (n < 9 -> w = u32 v)
  | None, None => True
  | _, _ => False
  end.
Proof.
  revert i acc p. induction fuel as [|fuel IH]; intros i acc p Hf Hi Ha; [lia|]. cbn [payload_loop]. replace (9 - i)%nat with (S (9 - S i)) by lia. cbn [fetch].
  destruct (rd (p + 1)) as [b|] eqn:Eb; [|done]. cbn [mbind option_bind get_ref]. pose proof (Hrd _ _ Eb) as Hb. pose proof (Z.mod_pos_bound b 128 ltac:(lia)) as Hm.
  assert (Ew : Z.lor (u32 (Z.shiftl (u32 acc) 7)) (Z.land b 0x7f) = u32 (acc * 128 + b mod 128)).
  { unfold u32. rewrite append_7_mod by (done || lia). unfold wrap_u. rewrite <- (Z.add_mod_idemp_l (acc * 128)) by done. rewrite <- (Z.mul_mod_idemp_l acc) by done. by rewrite Z.add_mod_idemp_l by done. }
  rewrite Ew. pose proof (wrap_u_range 32 (acc * 128 + b mod 128) ltac:(lia)) as Hw. fold (u32 (acc * 128 + b mod 128)) in Hw. unfold in_u in Hw.
  destruct (decide (i = 8%nat)) as [->|Hn].
  - rewrite (proj2 (Z.ltb_ge (p + 1) _)) by lia. rewrite andb_false_r. split; [lia|]. split; [done|lia].
  - rewrite (proj2 (Z.ltb_lt (p + 1) _)) by lia. rewrite andb_true_r. destruct (Z.leb_spec 128 b).
    + rewrite (proj2 (Z.ltb_ge b 128)) by lia. replace (p + Z.of_nat (S fuel)) with (p + 1 + Z.of_nat fuel) by lia. specialize (IH (S i) (acc * 128 + b mod 128) (p + 1) ltac:(lia) ltac:(lia) ltac:(lia)).
      destruct (payload_loop _ _ _ _ _) as [[e w]|], (get_ref _ _ _) as [[v n]|]; try done. destruct IH as [-> IH]. split; [lia|done].
    + rewrite (proj2 (Z.ltb_lt b 128)) by lia. split; [lia|]. by split.
Qed.

(** The decoder of payload sizes is that of [Varint] modulo 2^32, for integers of at
    most eight bytes, and of the same length. *)
Lemma read_payload_ref p :
  match read_payload rd p, sqlite3GetVarint (fetch 9 rd p) with
  | Some (e, w), Some (v, n) => e = p + n /\ 0 <= w < 2 ^ 32 /\ (n < 9 -> w = u32 v)
  | None, None => True
  | _, _ => False
  end.
Proof.
  rewrite getVarint_ref by by apply fetch_bytes. unfold read_payload. cbn [fetch]. destruct (rd p) as [b|] eqn:Eb; [|done]. cbn [mbind option_bind get_ref]. rewrite decide_False by done.
  pose proof (Hrd _ _ Eb) as Hb. pose proof (Z.mod_pos_bound b 128 ltac:(lia)). destruct (Z.leb_spec 128 b).
  - rewrite (proj2 (Z.ltb_ge b 128)) by lia. rewrite land_127. pose proof (payload_loop_ref 8 1 (b mod 128) p ltac:(lia) eq_refl ltac:(lia)) as H1.
    assert (E : u32 (b mod 128) = b mod 128) by (unfold u32; rewrite wrap_u_id; [done|]; unfold in_u; change (2 ^ 32) with 4294967296; lia). rewrite E in H1.
    change (p + Z.of_nat 8) with (p + 8) in H1. replace (0 * 128 + b mod 128) with (b mod 128) by lia. change (fetch (9 - 1) rd (p + 1)) with (match rd (p + 1) with Some x => x :: fetch 7 rd (p + 1 + 1) | None => [] end) in H1.
    destruct (payload_loop _ _ _ _ _) as [[e w]|], (get_ref _ _ _) as [[v n]|]; try done. destruct H1 as [-> H1]. cbn. split; [lia|done].
  - rewrite (proj2 (Z.ltb_lt b 128)) by lia. cbn [mbind option_bind]. rewrite Z.mul_0_l, Z.mod_small by (destruct Hb; lia). split; [lia|]. split; [change (2 ^ 32) with 4294967296; destruct Hb; lia|]. intros _. unfold u32. rewrite wrap_u_id; [done|]. unfold in_u. change (2 ^ 32) with 4294967296. destruct Hb. lia.
Qed.

Lemma read_payload_range p e w : read_payload rd p = Some (e, w) -> 0 <= w < 2 ^ 32.
Proof. intros H. pose proof (read_payload_ref p) as Hr. rewrite H in Hr. destruct (sqlite3GetVarint _) as [[v n]|]; [|done]. apply Hr. Qed.
End payload.

(** ** The sizes of cells *)

(** The limits of a page, which [lockBtree_sizes] and [decodeFlags] give. *)
Record limits_ok (pBt : BtShared) (pPage : MemPage) : Prop := mkLimitsOk {
  lim_usable : 480 <= usableSize pBt <= 65536;
  lim_local : 0 <= minLocal pPage <= maxLocal pPage /\ maxLocal pPage <= usableSize pBt - 35;
  lim_child : childPtrSize pPage = 0 \/ childPtrSize pPage = 4 }.

(** The kinds of pages that [decodeFlags] knows: leaves and inner pages of a table, and
    pages of an index. *)
Definition page_kind (pPage : MemPage) : Prop :=
  (leaf pPage = 0 \/ leaf pPage = 1) /\ childPtrSize pPage = 4 - 4 * leaf pPage /\ intKeyLeaf pPage = intKey pPage && (leaf pPage =? 1) /\
  xCellSize_p pPage = (if intKey pPage && (leaf pPage =? 0) then cellSizePtrNoPayload_m else cellSizePtr_m) /\
  xParseCell_p pPage = (if intKey pPage then if leaf pPage =? 1 then btreeParseCellPtr_m else btreeParseCellPtrNoPayload_m else btreeParseCellPtrIndex_m).

Section sizes.
Context (pBt : BtShared) (pPage : MemPage).
Hypothesis Hlim : limits_ok pBt pPage.

Lemma surplus_range v : minLocal pPage <= surplus pBt pPage v < minLocal pPage + (usableSize pBt - 4).
Proof. destruct Hlim as [[H1 H2] _ _]. unfold surplus. pose proof (Z.mod_pos_bound (u32 (v - minLocal pPage)) (usableSize pBt - 4) ltac:(lia)). lia. Qed.

Lemma local_range v : minLocal pPage <= (if surplus pBt pPage v <=? maxLocal pPage then surplus pBt pPage v else minLocal pPage) <= maxLocal pPage.
Proof. destruct Hlim as [_ [[H1 H2] H3] _]. pose proof (surplus_range v). destruct (Z.leb_spec (surplus pBt pPage v) (maxLocal pPage)); lia. Qed.

Lemma u16_small z : 0 <= z < 65536 -> wrap_u 16 z = z.
Proof. intros. by apply wrap_u_id. Qed.

Lemma u32_small z : 0 <= z < 4294967296 -> u32 z = z.
Proof. intros. by apply wrap_u_id. Qed.

(** The size of a cell with a header of [h] bytes, without wrap-around. *)
Definition size_of (h v : Z) : Z :=
  if v <=? maxLocal pPage then Z.max 4 (v + h) else (if surplus pBt pPage v <=? maxLocal pPage then surplus pBt pPage v else minLocal pPage) + h + 4.

Lemma size_of_range h v : 0 <= v -> 1 <= h <= 22 -> Z.max 4 h <= size_of h v <= usableSize pBt - 9.
Proof.
  intros Hv Hh. unfold size_of. pose proof (local_range v). destruct Hlim as [[H1 H2] [[H3 H4] H5] _]. destruct (Z.leb_spec v (maxLocal pPage)); lia.
Qed.

Lemma cellSizePtr_spec rd a :
  byte_reader rd ->
  cellSizePtr pBt pPage rd a =
    ('(p, v) ← read_payload rd (a + childPtrSize pPage); e ← (if intKey pPage then skip_loop 9 rd (p + 9) p else Some p); Some (size_of (e - a) v)).
Proof.
  intros Hrd. unfold cellSizePtr. destruct (read_payload rd (a + childPtrSize pPage)) as [[p v]|] eqn:E1; [|done]. cbn [mbind option_bind].
  pose proof (read_payload_range rd Hrd _ _ _ E1) as Hv. pose proof (proj1 (read_payload_local rd rd 0 0 _ _ _ E1)) as Hp.
  destruct (if intKey pPage then skip_loop 9 rd (p + 9) p else Some p) as [e|] eqn:E2; [|done]. cbn [mbind option_bind]. f_equal.
  assert (He : p <= e <= p + 9) by (destruct (intKey pPage); [apply (skip_loop_local rd rd 0 0) in E2 as [? _]; lia|injection E2 as <-; lia]).
  assert (Hh : 1 <= e - a <= 22) by (destruct (lim_child _ _ Hlim) as [Hc|Hc]; rewrite Hc in Hp; lia).
  pose proof (size_of_range (e - a) v ltac:(lia) Hh) as Hr. pose proof (local_range v) as Hloc. destruct Hlim as [[H1 H2] [[H3 H4] H5] _]. unfold size_of in *.
  destruct (Z.leb_spec v (maxLocal pPage)) as [Hle|Hle].
  - rewrite (u32_small (e - a)), (u32_small (v + (e - a))) by lia. destruct (Z.ltb_spec (v + (e - a)) 4); [rewrite Z.max_l by lia; done|]. rewrite u16_small by lia. lia.
  - assert (Ei : (if maxLocal pPage <? surplus pBt pPage v then minLocal pPage else surplus pBt pPage v) = (if surplus pBt pPage v <=? maxLocal pPage then surplus pBt pPage v else minLocal pPage)).
    { destruct (Z.ltb_spec (maxLocal pPage) (surplus pBt pPage v)), (Z.leb_spec (surplus pBt pPage v) (maxLocal pPage)); lia. }
    rewrite Ei, (u16_small (e - a)) by lia. set (l := if surplus pBt pPage v <=? maxLocal pPage then _ else _) in *. rewrite u32_small, u16_small by lia. lia.
Qed.

Lemma parse_finish_size a p k v : 0 <= v < 2 ^ 32 -> 1 <= p - a <= 22 -> nSize (parse_finish pBt pPage a p k v) = size_of (p - a) v.
Proof.
  intros Hv Hh. pose proof (size_of_range (p - a) v ltac:(lia) Hh) as Hr. pose proof (local_range v) as Hloc. destruct Hlim as [[H1 H2] [[H3 H4] H5] _]. unfold parse_finish, size_of in *. destruct (Z.leb_spec v (maxLocal pPage)) as [Hle|Hle].
  - cbn [nSize]. rewrite (u16_small (p - a)), u16_small by lia. destruct (Z.ltb_spec (v + (p - a)) 4); lia.
  - cbn [nSize nPayload pPayload btreeParseCellAdjustSizeForOverflow]. set (l := if surplus pBt pPage v <=? maxLocal pPage then _ else _) in *. rewrite (u16_small l), (u16_small (p + l - a)), u16_small by lia. lia.
Qed.

(** The ends of the parts of a cell. *)
Lemma header_range rd a p v e :
  read_payload rd (a + childPtrSize pPage) = Some (p, v) -> (if intKey pPage then skip_loop 9 rd (p + 9) p else Some p) = Some e -> p <= e /\ 1 <= e - a <= 22.
Proof.
  intros E1 E2. pose proof (proj1 (read_payload_local rd rd 0 0 _ _ _ E1)) as Hp. assert (p <= e <= p + 9).
  { destruct (intKey pPage); [apply (skip_loop_local rd rd 0 0) in E2 as [? _]; lia|injection E2 as <-; lia]. }
  destruct (lim_child _ _ Hlim) as [Hc|Hc]; rewrite Hc in Hp; lia.
Qed.

Lemma xCellSize_range rd a n : byte_reader rd -> xCellSize pBt pPage rd a = Some n -> 4 <= n <= usableSize pBt - 9.
Proof.
  intros Hrd. unfold xCellSize. destruct (xCellSize_p pPage).
  - rewrite cellSizePtr_spec by done. destruct (read_payload rd (a + childPtrSize pPage)) as [[p v]|] eqn:E1; [|done]. cbn [mbind option_bind].
    destruct (if intKey pPage then skip_loop 9 rd (p + 9) p else Some p) as [e|] eqn:E2; [|done]. cbn [mbind option_bind]. intros [= <-].
    destruct (header_range _ _ _ _ _ E1 E2) as [_ Hh]. pose proof (read_payload_range rd Hrd _ _ _ E1). pose proof (size_of_range (e - a) v). lia.
  - unfold cellSizePtrNoPayload. destruct (guard _) as [Hg|]; [|done]. cbn [mbind option_bind]. destruct (skip_loop _ _ _ _) as [e|] eqn:E; [|done]. cbn [mbind option_bind]. intros [= <-].
    apply (skip_loop_local rd rd 0 0) in E as [? _]. destruct Hlim as [[H1 H2] _ _]. rewrite u16_small by lia. lia.
Qed.

(** The size of a cell is that of its copy. *)
Lemma xCellSize_local rd rd' a a' n :
  byte_reader rd -> byte_reader rd' -> xCellSize pBt pPage rd a = Some n -> copied rd rd' a a' n -> xCellSize pBt pPage rd' a' = Some n.
Proof.
  intros Hrd Hrd' Hs Hc. unfold xCellSize in *. destruct (xCellSize_p pPage).
  - rewrite cellSizePtr_spec in Hs |- * by done. destruct (read_payload rd (a + childPtrSize pPage)) as [[p v]|] eqn:E1; [|done]. cbn [mbind option_bind] in Hs.
    destruct (if intKey pPage then skip_loop 9 rd (p + 9) p else Some p) as [e|] eqn:E2; [|done]. cbn [mbind option_bind] in Hs. injection Hs as <-.
    destruct (header_range _ _ _ _ _ E1 E2) as [Hpe Hh]. pose proof (size_of_range (e - a) v ltac:(apply (read_payload_range rd Hrd _ _ _ E1)) Hh) as Hr.
    destruct (read_payload_local rd rd' a a' _ _ _ E1) as [Hp Hl1]. replace (a' + childPtrSize pPage) with (a' + (a + childPtrSize pPage - a)) by lia.
    assert (0 <= childPtrSize pPage) by (destruct (lim_child _ _ Hlim); lia). rewrite (Hl1 _ Hc) by lia. cbn [mbind option_bind].
    assert (E2' : (if intKey pPage then skip_loop 9 rd' (a' + (p - a) + 9) (a' + (p - a)) else Some (a' + (p - a))) = Some (a' + (e - a))).
    { destruct (intKey pPage); [|by injection E2 as <-]. apply (skip_loop_local rd rd' a a') in E2 as [_ E2]. replace (a' + (p - a) + 9) with (a' + (p + 9 - a)) by lia. apply (E2 _ Hc); lia. }
    rewrite E2'. cbn [mbind option_bind]. do 2 f_equal. lia.
  - unfold cellSizePtrNoPayload in *. destruct (guard _) as [Hg|]; [|done]. cbn [mbind option_bind] in *. destruct (skip_loop 9 rd _ _) as [e|] eqn:E; [|done]. cbn [mbind option_bind] in Hs. injection Hs as <-.
    apply (skip_loop_local rd rd' a a') in E as [Hr E]. destruct Hlim as [[H1 H2] _ _]. rewrite u16_small in Hc by lia.
    assert (Es : skip_loop 9 rd' (a' + 4 + 9) (a' + 4) = Some (a' + (e - a))).
    { rewrite <- (E _ Hc) by lia. replace (a' + (a + 4 + 9 - a)) with (a' + 4 + 9) by lia. by replace (a' + (a + 4 - a)) with (a' + 4) by lia. }
    rewrite Es. cbn [mbind option_bind]. do 2 f_equal. lia.
Qed.

(** C15: [cellSizePtr] and [cellSizePtrNoPayload] return, for every cell in every buffer,
    the size that [xParseCell] finds by a full parse, and read outside the buffer exactly
    where it does; the size is at least 4, and at most nine bytes short of the usable
    part of a page. *)
Theorem cell_size_is_parsed rd a :
  page_kind pPage -> byte_reader rd ->
  xCellSize pBt pPage rd a = nSize <$> xParseCell pBt pPage rd a /\ forall n, xCellSize pBt pPage rd a = Some n -> 4 <= n <= usableSize pBt - 9.
Proof.
  intros (K0 & K1 & K2 & K3 & K4) Hrd. split; [|intros n; by apply xCellSize_range]. unfold xCellSize, xParseCell. rewrite K3, K4. destruct (intKey pPage) eqn:Ei; [destruct K0 as [El|El]; rewrite El in *|]; cbn [andb Z.eqb] in *.
  - unfold cellSizePtrNoPayload, btreeParseCellPtrNoPayload. rewrite !option_guard_True by done. cbn [mbind option_bind]. rewrite skip_key, read_key_ref by done.
    destruct (sqlite3GetVarint _) as [[v n]|]; [|done]. cbn. do 2 f_equal. lia.
  - rewrite cellSizePtr_spec by done. unfold btreeParseCellPtr. rewrite option_guard_True by done. rewrite K1, Ei, Z.add_0_r. cbn [mbind option_bind].
    destruct (read_payload rd a) as [[p v]|] eqn:E1; [|done]. cbn [mbind option_bind]. rewrite skip_key by done. destruct (read_key rd p) as [[e k]|] eqn:E2; [|done]. cbn. f_equal.
    symmetry. apply parse_finish_size; [by apply (read_payload_range rd Hrd _ _ _ E1)|]. apply (header_range rd a p v); [by rewrite K1, Z.add_0_r|]. rewrite Ei, skip_key by done. by rewrite E2.
  - rewrite cellSizePtr_spec by done. unfold btreeParseCellPtrIndex. rewrite option_guard_True by done. cbn [mbind option_bind]. rewrite Ei.
    destruct (read_payload rd (a + childPtrSize pPage)) as [[p v]|] eqn:E1; [|done]. cbn. f_equal. symmetry. apply parse_finish_size; [by apply (read_payload_range rd Hrd _ _ _ E1)|].
    apply (header_range rd a p v); [done|]. by rewrite Ei.
Qed.

End sizes.

(** ** An example *)

(** A leaf of a table, in pages of 512 bytes, and a cell whose payload of 600 bytes does not
    fit. *)
Definition leaf_page : MemPage := mkMemPage true true true 1 0 0 102 477 35 8 0 1 511 [] cellSizePtr_m btreeParseCellPtr_m [].
Definition spilled_cell : bytes := [0x84; 0x58; 7] ++ zeros 100.

Lemma cell_size_is_parsed_witness :
  xCellSize (lockBtree_sizes 512 512 false false) leaf_page (get spilled_cell) 0 = Some 99 /\ nSize <$> xParseCell (lockBtree_sizes 512 512 false false) leaf_page (get spilled_cell) 0 = Some 99.
Proof.
  assert (Hrd : byte_reader (get spilled_cell)).
  { intros a b. unfold get. destruct (0 <=? a); [|done]. apply (proj1 (Forall_lookup _ _)). apply (bool_decide_unpack _). vm_compute. exact I. }
  destruct (cell_size_is_parsed (lockBtree_sizes 512 512 false false) leaf_page ltac:(split; vm_compute; intuition congruence) (get spilled_cell) 0) as [H _]; [vm_compute; intuition congruence|exact Hrd|].
  rewrite <- H. split; vm_compute; reflexivity.
Defined.
