(* ===== verification/BtreePage.v ===== *)
(** The space of a b-tree page (src/sqlite-src-3280000/src/btree.c): cells, free blocks
    and fragments, and how cells are inserted and removed.

    A page is a [MemPage] whose [aData] has [pageSize] bytes.  An access outside [aData]
    or outside the part of the temporary buffer that was filled, and an assert that
    fails, is [None]; asserts that allow for a corrupt database are left out.  A function
    returns its code and the page, as changed as it is when the code is an error. *)
From S2P Require Import Prelude Varint Disk BtreeCell.

Definition PTF_INTKEY : Z := 0x01.
Definition PTF_ZERODATA : Z := 0x02.
Definition PTF_LEAFDATA : Z := 0x04.
Definition PTF_LEAF : Z := 0x08.

(** ** Memory *)

(** [n] bytes from [a] on. *)
Fixpoint peek (n : nat) (rd : reader) (a : Z) : option bytes :=
  match n with
  | O => Some []
  | S n => b ← rd a; x ← peek n rd (a + 1); Some (b :: x)
  end.

Definition poke (d : bytes) (a : Z) (x : bytes) : option bytes :=
  if lenz x =? 0 then Some d else if (0 <=? a) && (a + lenz x <=? lenz d) then Some (write_at d a x) else None.

Definition memset0 (d : bytes) (a n : Z) : option bytes := if n <? 0 then None else poke d a (zeros n).

(** [memmove], and [memcpy] from another buffer. *)
Definition memmove (d : bytes) (dst : Z) (rd : reader) (src n : Z) : option bytes :=
  if n <? 0 then None else x ← peek (Z.to_nat n) rd src; poke d dst x.

Definition get2byte (rd : reader) (a : Z) : option Z := hi ← rd a; lo ← rd (a + 1); Some (Z.lor (Z.shiftl hi 8) lo).
Definition put2byte (d : bytes) (a v : Z) : option bytes := poke d a [wrap_u 8 (Z.shiftr v 8); wrap_u 8 v].
Definition get2byteNotZero (rd : reader) (a : Z) : option Z := v ← get2byte rd a; Some (Z.land (v - 1) 0xffff + 1).

(** ** Pages *)

Definition with_data (p : MemPage) (d : bytes) : MemPage :=
  mkMemPage (isInit p) (intKey p) (intKeyLeaf p) (leaf p) (hdrOffset p) (childPtrSize p) (max1bytePayload p) (maxLocal p) (minLocal p) (cellOffset p) (nFree p) (nCell p) (maskPage p) (aOvfl p) (xCellSize_p p) (xParseCell_p p) d.
Definition with_nFree (p : MemPage) (n : Z) : MemPage :=
  mkMemPage (isInit p) (intKey p) (intKeyLeaf p) (leaf p) (hdrOffset p) (childPtrSize p) (max1bytePayload p) (maxLocal p) (minLocal p) (cellOffset p) n (nCell p) (maskPage p) (aOvfl p) (xCellSize_p p) (xParseCell_p p) (aData p).
Definition with_nCell (p : MemPage) (n : Z) : MemPage :=
  mkMemPage (isInit p) (intKey p) (intKeyLeaf p) (leaf p) (hdrOffset p) (childPtrSize p) (max1bytePayload p) (maxLocal p) (minLocal p) (cellOffset p) (nFree p) n (maskPage p) (aOvfl p) (xCellSize_p p) (xParseCell_p p) (aData p).
Definition with_aOvfl (p : MemPage) (l : list (Z * bytes)) : MemPage :=
  mkMemPage (isInit p) (intKey p) (intKeyLeaf p) (leaf p) (hdrOffset p) (childPtrSize p) (max1bytePayload p) (maxLocal p) (minLocal p) (cellOffset p) (nFree p) (nCell p) (maskPage p) l (xCellSize_p p) (xParseCell_p p) (aData p).

(** The macro [findCell]. *)
Definition findCell (p : MemPage) (i : Z) : option Z :=
  v ← get2byte (get (aData p)) (cellOffset p + 2 * i);
  Some (Z.land (maskPage p) v).

Section page.
Context (pBt : BtShared).

Definition btreeParseCell (p : MemPage) (iCell : Z) : option CellInfo := pc ← findCell p iCell; xParseCell pBt p (get (aData p)) pc.
Definition cellSize (p : MemPage) (iCell : Z) : option Z := pc ← findCell p iCell; xCellSize pBt p (get (aData p)) pc.

(** ** Freeing *)

(** The loop that looks for the place of [iStart] in the list of free blocks: the address
    of the pointer, and the block it points to; [None] inside for a corrupt page. *)
Fixpoint freeSpace_find (fuel : nat) (data : bytes) (iStart iPtr : Z) : option (option (Z * Z)) :=
  match fuel with
  | O => None
  | S fuel =>
      iFreeBlk ← get2byte (get data) iPtr;
      if iFreeBlk <? iStart then
        if iFreeBlk <? iPtr + 4 then Some (if iFreeBlk =? 0 then Some (iPtr, 0) else None)
        else freeSpace_find fuel data iStart iFreeBlk
      else Some (Some (iPtr, iFreeBlk))
  end.

(** The free block behind is joined: the next block, [iSize], [iEnd] and [nFrag]. *)
Definition freeSpace_right (data : bytes) (iFreeBlk iStart iSize iEnd : Z) : option (option (Z * Z * Z * Z)) :=
  if negb (iFreeBlk =? 0) && (iFreeBlk <=? iEnd + 3) then
    let nFrag := wrap_u 8 (iFreeBlk - iEnd) in
    if iFreeBlk <? iEnd then Some None else
    sz ← get2byte (get data) (iFreeBlk + 2);
    let iEnd := iFreeBlk + sz in
    if usableSize pBt <? iEnd then Some None else
    next ← get2byte (get data) iFreeBlk;
    Some (Some (next, wrap_u 16 (iEnd - iStart), iEnd, nFrag))
  else Some (Some (iFreeBlk, iSize, iEnd, 0)).

(** The free block before is joined: [iStart], [iSize] and [nFrag]. *)
Definition freeSpace_left (hdr : Z) (data : bytes) (iPtr iStart iSize iEnd nFrag : Z) : option (option (Z * Z * Z)) :=
  if hdr + 1 <? iPtr then
    sz ← get2byte (get data) (iPtr + 2);
    let iPtrEnd := iPtr + sz in
    if iStart <=? iPtrEnd + 3 then
      if iStart <? iPtrEnd then Some None
      else Some (Some (iPtr, wrap_u 16 (iEnd - iPtr), wrap_u 8 (nFrag + (iStart - iPtrEnd))))
    else Some (Some (iStart, iSize, nFrag))
  else Some (Some (iStart, iSize, nFrag)).

(** The end of [freeSpace], from the test of the start of the content area on. *)
Definition freeSpace_finish (p : MemPage) (data : bytes) (iPtr iFreeBlk iStart iSize iEnd iOrigSize : Z) : option (Z * MemPage) :=
  let hdr := hdrOffset p in
  x ← get2byte (get data) (hdr + 5);
  if (iStart <=? x) && ((iStart <? x) || negb (iPtr =? hdr + 1)) then Some (SQLITE_CORRUPT, with_data p data) else
  data ← (if iStart <=? x then data ← put2byte data (hdr + 1) iFreeBlk; put2byte data (hdr + 5) iEnd else put2byte data iPtr iStart);
  data ← (if BTS_FAST_SECURE pBt then memset0 data iStart iSize else Some data);
  data ← put2byte data iStart iFreeBlk;
  data ← put2byte data (iStart + 2) iSize;
  Some (SQLITE_OK, with_nFree (with_data p data) (nFree p + iOrigSize)).

Definition freeSpace (p : MemPage) (iStart iSize : Z) : option (Z * MemPage) :=
  let data := aData p in
  let hdr := hdrOffset p in
  let iEnd := iStart + iSize in
  _ ← guard (4 <= iSize /\ iStart <= usableSize pBt - 4);
  b1 ← get data (hdr + 2);
  b0 ← get data (hdr + 1);
  if (b1 =? 0) && (b0 =? 0) then freeSpace_finish p data (hdr + 1) 0 iStart iSize iEnd iSize else
  found ← freeSpace_find (S (Z.to_nat iStart)) data iStart (hdr + 1);
  match found with
  | None => Some (SQLITE_CORRUPT, p)
  | Some (iPtr, iFreeBlk) =>
      if usableSize pBt - 4 <? iFreeBlk then Some (SQLITE_CORRUPT, p) else
      _ ← guard (iPtr < iFreeBlk \/ iFreeBlk = 0);
      right ← freeSpace_right data iFreeBlk iStart iSize iEnd;
      match right with
      | None => Some (SQLITE_CORRUPT, p)
      | Some (next, size, iEnd, nFrag) =>
          left ← freeSpace_left hdr data iPtr iStart size iEnd nFrag;
          match left with
          | None => Some (SQLITE_CORRUPT, p)
          | Some (start, size, nFrag) =>
              frag ← get data (hdr + 7);
              if frag <? nFrag then Some (SQLITE_CORRUPT, p) else
              data ← poke data (hdr + 7) [frag - nFrag];
              freeSpace_finish p data iPtr next start size iEnd iSize
          end
      end
  end.

(** ** Defragmenting *)

(** The pointers of the cells in front of the free blocks are moved. *)
Fixpoint defragment_pointers (n : nat) (data : bytes) (pAddr iFree iFree2 sz sz2 : Z) : option bytes :=
  match n with
  | O => Some data
  | S n =>
      pc ← get2byte (get data) pAddr;
      data ← (if pc <? iFree then put2byte data pAddr (pc + sz) else if pc <? iFree2 then put2byte data pAddr (pc + sz2) else Some data);
      defragment_pointers n data (pAddr + 2) iFree iFree2 sz sz2
  end.

(** How a part of [defragmentPage] ends: with SQLITE_CORRUPT, at [defragment_out], or so
    that the next part follows. *)
Inductive defrag := Corrupt (data : bytes) | Out (data : bytes) (cbrk : Z) | Next.

(** The cells are moved in one or two blocks, for pages of at most two free blocks. *)
Definition defragment_fast (p : MemPage) (nMaxFrag : Z) : option defrag :=
  let data := aData p in
  let hdr := hdrOffset p in
  frag ← get data (hdr + 7);
  if nMaxFrag <? frag then Some Next else
  iFree ← get2byte (get data) (hdr + 1);
  if usableSize pBt - 4 <? iFree then Some (Corrupt data) else
  if iFree =? 0 then Some Next else
  iFree2 ← get2byte (get data) iFree;
  if usableSize pBt - 4 <? iFree2 then Some (Corrupt data) else
  two ← (if iFree2 =? 0 then Some true else b0 ← get data iFree2; b1 ← get data (iFree2 + 1); Some ((b0 =? 0) && (b1 =? 0)));
  if negb two then Some Next else
  sz ← get2byte (get data) (iFree + 2);
  top ← get2byte (get data) (hdr + 5);
  if iFree <=? top then Some (Corrupt data) else
  joined ← (if negb (iFree2 =? 0) then
              if iFree2 <? iFree + sz then Some None else
              sz2 ← get2byte (get data) (iFree2 + 2);
              if usableSize pBt <? iFree2 + sz2 then Some None else
              data ← memmove data (iFree + sz + sz2) (get data) (iFree + sz) (iFree2 - (iFree + sz));
              Some (Some (data, sz + sz2, sz2))
            else if usableSize pBt <? iFree + sz then Some None else Some (Some (data, sz, 0)));
  match joined with
  | None => Some (Corrupt data)
  | Some (data, sz, sz2) =>
      let cbrk := top + sz in
      _ ← guard (cbrk + (iFree - top) <= usableSize pBt);
      data ← memmove data cbrk (get data) top (iFree - top);
      data ← defragment_pointers (Z.to_nat (nCell p)) data (cellOffset p) iFree iFree2 sz sz2;
      Some (Out data cbrk)
  end.

(** The temporary buffer, filled with [data] between [x] and [hi]. *)
Definition temp_space (data : bytes) (x hi : Z) : option reader :=
  if (0 <=? x) && (x <=? hi) && (hi <=? lenz data) then Some (fun a => if (x <=? a) && (a <? hi) then get data a else None) else None.

(** The loop that moves the cells from [i] on to the end of the page, one after the other.
    [src]: the buffer once it is used. *)
Fixpoint defragment_cells (n : nat) (p : MemPage) (data : bytes) (i cbrk : Z) (src : option reader) : option defrag :=
  match n with
  | O => Some (Out data cbrk)
  | S n =>
      let iCellFirst := cellOffset p + 2 * nCell p in
      let pAddr := cellOffset p + i * 2 in
      pc ← get2byte (get data) pAddr;
      if (pc <? iCellFirst) || (usableSize pBt - 4 <? pc) then Some (Corrupt data) else
      size ← xCellSize pBt p (default (get data) src) pc;
      let cbrk := cbrk - size in
      if (cbrk <? iCellFirst) || (usableSize pBt <? pc + size) then Some (Corrupt data) else
      data ← put2byte data pAddr cbrk;
      match src with
      | None =>
          if cbrk =? pc then defragment_cells n p data (i + 1) cbrk None else
          x ← get2byte (get data) (hdrOffset p + 5);
          temp ← temp_space data x (cbrk + size);
          data ← memmove data cbrk temp pc size;
          defragment_cells n p data (i + 1) cbrk (Some temp)
      | Some temp =>
          data ← memmove data cbrk temp pc size;
          defragment_cells n p data (i + 1) cbrk (Some temp)
      end
  end.

Definition defragmentPage (p : MemPage) (nMaxFrag : Z) : option (Z * MemPage) :=
  _ ← guard (aOvfl p = []);
  let hdr := hdrOffset p in
  let iCellFirst := cellOffset p + 2 * nCell p in
  fast ← defragment_fast p nMaxFrag;
  r ← match fast with
      | Next =>
          slow ← defragment_cells (Z.to_nat (nCell p)) p (aData p) 0 (usableSize pBt) None;
          match slow with Out data cbrk => data ← poke data (hdr + 7) [0]; Some (Out data cbrk) | _ => Some slow end
      | _ => Some fast
      end;
  match r with
  | Next => None
  | Corrupt data => Some (SQLITE_CORRUPT, with_data p data)
  | Out data cbrk =>
      _ ← guard (0 <= nFree p);
      frag ← get data (hdr + 7);
      if negb (frag + cbrk - iCellFirst =? nFree p) then Some (SQLITE_CORRUPT, with_data p data) else
      _ ← guard (iCellFirst <= cbrk);
      data ← put2byte data (hdr + 5) cbrk;
      data ← poke data (hdr + 1) [0];
      data ← poke data (hdr + 2) [0];
      data ← memset0 data iCellFirst (cbrk - iCellFirst);
      Some (SQLITE_OK, with_data p data)
  end.

(** ** Allocating *)

(** The loop over the free blocks; the answer is the code, the address of the space if
    there is some, and the page. *)
Fixpoint pageFindSlot_loop (fuel : nat) (p : MemPage) (nByte iAddr pc : Z) : option (Z * option Z * MemPage) :=
  match fuel with
  | O => None
  | S fuel =>
      let data := aData p in
      let hdr := hdrOffset p in
      let maxPC := usableSize pBt - nByte in
      if pc <=? maxPC then
        size ← get2byte (get data) (pc + 2);
        let x := size - nByte in
        if 0 <=? x then
          if x <? 4 then
            frag ← get data (hdr + 7);
            if 57 <? frag then Some (SQLITE_OK, None, p) else
            data ← memmove data iAddr (get data) pc 2;
            frag ← get data (hdr + 7);
            data ← poke data (hdr + 7) [wrap_u 8 (frag + x)];
            Some (SQLITE_OK, Some (pc + x), with_data p data)
          else if maxPC <? x + pc then Some (SQLITE_CORRUPT, None, p)
          else data ← put2byte data (pc + 2) x; Some (SQLITE_OK, Some (pc + x), with_data p data)
        else
          next ← get2byte (get data) pc;
          if next <=? pc + size then Some (if next =? 0 then SQLITE_OK else SQLITE_CORRUPT, None, p)
          else pageFindSlot_loop fuel p nByte pc next
      else Some (if maxPC + nByte - 4 <? pc then SQLITE_CORRUPT else SQLITE_OK, None, p)
  end.

Definition pageFindSlot (p : MemPage) (nByte : Z) : option (Z * option Z * MemPage) :=
  pc ← get2byte (get (aData p)) (hdrOffset p + 1);
  _ ← guard (0 < pc);
  pageFindSlot_loop (S (Z.to_nat (usableSize pBt))) p nByte (hdrOffset p + 1) pc.

(** The code, the index of the space, and the page. *)
Definition allocateSpace (p : MemPage) (nByte : Z) : option (Z * Z * MemPage) :=
  let hdr := hdrOffset p in
  _ ← guard (0 <= nByte /\ nByte <= nFree p /\ aOvfl p = [] /\ nByte < usableSize pBt - 8);
  _ ← guard (cellOffset p = hdr + 12 - 4 * leaf p);
  let gap := cellOffset p + 2 * nCell p in
  _ ← guard (gap <= 65536);
  top ← get2byte (get (aData p)) (hdr + 5);
  _ ← guard (top <= usableSize pBt);
  if (top <? gap) && negb ((top =? 0) && (usableSize pBt =? 65536)) then Some (SQLITE_CORRUPT, 0, p) else
  let top := if top <? gap then 65536 else top in
  b2 ← get (aData p) (hdr + 2);
  b1 ← get (aData p) (hdr + 1);
  '(rc, space, p) ← (if (negb (b2 =? 0) || negb (b1 =? 0)) && (gap + 2 <=? top) then pageFindSlot p nByte else Some (SQLITE_OK, None, p));
  match space with
  | Some idx => Some (SQLITE_OK, idx, p)
  | None =>
      if negb (rc =? SQLITE_OK) then Some (rc, 0, p) else
      '(rc, top, p) ← (if top <? gap + 2 + nByte then
                         _ ← guard (0 <= nFree p);
                         '(rc, p) ← defragmentPage p (Z.min 4 (nFree p - (2 + nByte)));
                         if negb (rc =? SQLITE_OK) then Some (rc, top, p) else
                         top ← get2byteNotZero (get (aData p)) (hdr + 5);
                         _ ← guard (gap + 2 + nByte <= top);
                         Some (SQLITE_OK, top, p)
                       else Some (SQLITE_OK, top, p));
      if negb (rc =? SQLITE_OK) then Some (rc, 0, p) else
      let top := top - nByte in
      data ← put2byte (aData p) (hdr + 5) top;
      _ ← guard (top + nByte <= usableSize pBt);
      Some (SQLITE_OK, top, with_data p data)
  end.

(** ** Cells of a page *)

(** [*pRC] is [rc] at the start.  An assert of the size is left out, which is for sound
    databases only. *)
Definition dropCell (p : MemPage) (idx sz rc : Z) : option (Z * MemPage) :=
  if negb (rc =? SQLITE_OK) then Some (rc, p) else
  _ ← guard (0 <= idx /\ idx < nCell p /\ 0 <= nFree p);
  let ptr := cellOffset p + 2 * idx in
  let hdr := hdrOffset p in
  pc ← get2byte (get (aData p)) ptr;
  if usableSize pBt <? u32 (pc + sz) then Some (SQLITE_CORRUPT, p) else
  '(rc, p) ← freeSpace p pc (wrap_u 16 sz);
  if negb (rc =? SQLITE_OK) then Some (rc, p) else
  let p := with_nCell p (nCell p - 1) in
  if nCell p =? 0 then
    data ← memset0 (aData p) (hdr + 1) 4;
    data ← poke data (hdr + 7) [0];
    data ← put2byte data (hdr + 5) (usableSize pBt);
    Some (SQLITE_OK, with_nFree (with_data p data) (usableSize pBt - hdr - childPtrSize p - 8))
  else
    data ← memmove (aData p) ptr (get (aData p)) (ptr + 2) (2 * (nCell p - idx));
    data ← put2byte data (hdr + 3) (nCell p);
    Some (SQLITE_OK, with_nFree (with_data p data) (nFree p + 2)).

(** The page is writable, so that [sqlite3PagerWrite] answers [rcWrite] and does nothing.
    A cell that does not fit goes to [aOvfl], with its first bytes replaced by [iChild]
    if there is one; whether it is copied to [pTemp] before makes no difference. *)
Definition insertCell (p : MemPage) (i : Z) (pCell : bytes) (sz iChild rcWrite : Z) : option (Z * MemPage) :=
  let nOverflow := Z.of_nat (length (aOvfl p)) in
  _ ← guard (0 <= i /\ i <= nCell p + nOverflow /\ nOverflow <= 4 /\ 0 <= nFree p);
  size ← xCellSize pBt p (get pCell) 0;
  _ ← guard (sz = size \/ (sz = 8 /\ 0 < iChild));
  if negb (nOverflow =? 0) || (nFree p <? sz + 2) then
    cell ← (if iChild =? 0 then Some pCell else poke pCell 0 (sqlite3Put4byte iChild));
    _ ← guard (nOverflow < 3);
    _ ← guard (match last (aOvfl p) with Some (k, _) => i =? k + 1 | None => true end = true);
    Some (SQLITE_OK, with_aOvfl p (aOvfl p ++ [(wrap_u 16 i, cell)]))
  else if negb (rcWrite =? SQLITE_OK) then Some (rcWrite, p) else
    '(rc, idx, p) ← allocateSpace p sz;
    if negb (rc =? SQLITE_OK) then Some (rc, p) else
    _ ← guard (0 <= idx /\ idx + sz <= usableSize pBt);
    let p := with_nFree p (nFree p - wrap_u 16 (2 + sz)) in
    data ← (if iChild =? 0 then memmove (aData p) idx (get pCell) 0 sz
            else data ← memmove (aData p) (idx + 4) (get pCell) 4 (sz - 4); poke data idx (sqlite3Put4byte iChild));
    let pIns := cellOffset p + i * 2 in
    data ← memmove data (pIns + 2) (get data) pIns (2 * (nCell p - i));
    data ← put2byte data pIns idx;
    let p := with_nCell p (nCell p + 1) in
    lo ← get data (hdrOffset p + 4);
    data ← poke data (hdrOffset p + 4) [wrap_u 8 (lo + 1)];
    data ← (if wrap_u 8 (lo + 1) =? 0 then hi ← get data (hdrOffset p + 3); poke data (hdrOffset p + 3) [wrap_u 8 (hi + 1)] else Some data);
    Some (SQLITE_OK, with_data p data).

(** ** Pages from their first byte on *)

(** The pages of the database: a fresh [MemPage] keeps what is not set here. *)
Definition decodeFlags (p : MemPage) (flagByte : Z) : Z * MemPage :=
  let lf := wrap_u 8 (Z.shiftr flagByte 3) in
  let flagByte := Z.land flagByte (Z.lnot PTF_LEAF) in
  let child := wrap_u 8 (4 - 4 * lf) in
  if flagByte =? Z.lor PTF_LEAFDATA PTF_INTKEY then
    (SQLITE_OK, mkMemPage (isInit p) true (negb (lf =? 0)) lf (hdrOffset p) child (bt_max1bytePayload pBt) (maxLeaf pBt) (minLeaf pBt) (cellOffset p) (nFree p) (nCell p) (maskPage p) (aOvfl p)
                  (if lf =? 0 then cellSizePtrNoPayload_m else cellSizePtr_m) (if lf =? 0 then btreeParseCellPtrNoPayload_m else btreeParseCellPtr_m) (aData p))
  else if flagByte =? PTF_ZERODATA then
    (SQLITE_OK, mkMemPage (isInit p) false false lf (hdrOffset p) child (bt_max1bytePayload pBt) (bt_maxLocal pBt) (bt_minLocal pBt) (cellOffset p) (nFree p) (nCell p) (maskPage p) (aOvfl p)
                  cellSizePtr_m btreeParseCellPtrIndex_m (aData p))
  else
    (SQLITE_CORRUPT, mkMemPage (isInit p) (intKey p) (intKeyLeaf p) lf (hdrOffset p) child (max1bytePayload p) (maxLocal p) (minLocal p) (cellOffset p) (nFree p) (nCell p) (maskPage p) (aOvfl p)
                  cellSizePtr_m (xParseCell_p p) (aData p)).

(** The loop over the free blocks; the answer is the sum, or nothing for a corrupt page. *)
Fixpoint computeFreeSpace_loop (fuel : nat) (data : bytes) (pc nFree : Z) : option (option Z) :=
  match fuel with
  | O => None
  | S fuel =>
      if usableSize pBt - 4 <? pc then Some None else
      next ← get2byte (get data) pc;
      size ← get2byte (get data) (pc + 2);
      let nFree := nFree + size in
      if next <=? pc + size + 3 then Some (if (0 <? next) || (usableSize pBt <? pc + size) then None else Some nFree)
      else computeFreeSpace_loop fuel data next nFree
  end.

Definition btreeComputeFreeSpace (p : MemPage) : option (Z * MemPage) :=
  _ ← guard (isInit p = true /\ nFree p < 0);
  let hdr := hdrOffset p in
  let data := aData p in
  top ← get2byteNotZero (get data) (hdr + 5);
  let iCellFirst := hdr + 8 + childPtrSize p + 2 * nCell p in
  pc ← get2byte (get data) (hdr + 1);
  frag ← get data (hdr + 7);
  sum ← (if 0 <? pc then
           if pc <? iCellFirst then Some None else computeFreeSpace_loop (S (Z.to_nat (usableSize pBt))) data pc (frag + top)
         else Some (Some (frag + top)));
  match sum with
  | None => Some (SQLITE_CORRUPT, p)
  | Some nFree => if usableSize pBt <? nFree then Some (SQLITE_CORRUPT, p) else Some (SQLITE_OK, with_nFree p (wrap_u 16 (nFree - iCellFirst)))
  end.

Fixpoint btreeCellSizeCheck_loop (n : nat) (p : MemPage) (i : Z) : option Z :=
  match n with
  | O => Some SQLITE_OK
  | S n =>
      let iCellFirst := cellOffset p + 2 * nCell p in
      let iCellLast := usableSize pBt - 4 - (if leaf p =? 0 then 1 else 0) in
      pc ← get2byte (get (aData p)) (cellOffset p + i * 2);
      if (pc <? iCellFirst) || (iCellLast <? pc) then Some SQLITE_CORRUPT else
      sz ← xCellSize pBt p (get (aData p)) pc;
      if usableSize pBt <? pc + sz then Some SQLITE_CORRUPT else btreeCellSizeCheck_loop n p (i + 1)
  end.

Definition btreeCellSizeCheck (p : MemPage) : option Z := btreeCellSizeCheck_loop (Z.to_nat (nCell p)) p 0.

Definition MX_CELL : Z := (pageSize pBt - 8) / 6.

Definition btreeInitPage (p : MemPage) : option (Z * MemPage) :=
  _ ← guard (isInit p = false);
  let data := aData p in
  let hdr := hdrOffset p in
  flags ← get data hdr;
  let '(rc, p) := decodeFlags p flags in
  if negb (rc =? SQLITE_OK) then Some (SQLITE_CORRUPT, p) else
  _ ← guard (512 <= pageSize pBt /\ pageSize pBt <= 65536);
  n ← get2byte (get data) (hdr + 3);
  let p := mkMemPage (isInit p) (intKey p) (intKeyLeaf p) (leaf p) hdr (childPtrSize p) (max1bytePayload p) (maxLocal p) (minLocal p) (hdr + 8 + childPtrSize p) (nFree p) n
             (wrap_u 16 (pageSize pBt - 1)) [] (xCellSize_p p) (xParseCell_p p) data in
  if MX_CELL <? n then Some (SQLITE_CORRUPT, p) else
  let p := mkMemPage true (intKey p) (intKeyLeaf p) (leaf p) hdr (childPtrSize p) (max1bytePayload p) (maxLocal p) (minLocal p) (cellOffset p) (-1) n
             (maskPage p) [] (xCellSize_p p) (xParseCell_p p) data in
  if SQLITE_CellSizeCk pBt then rc ← btreeCellSizeCheck p; Some (rc, p) else Some (SQLITE_OK, p).

Definition zeroPage (p : MemPage) (flags : Z) : option MemPage :=
  let hdr := hdrOffset p in
  data ← (if BTS_FAST_SECURE pBt then memset0 (aData p) hdr (usableSize pBt - hdr) else Some (aData p));
  data ← poke data hdr [wrap_u 8 flags];
  let first := hdr + (if Z.land flags PTF_LEAF =? 0 then 12 else 8) in
  data ← memset0 data (hdr + 1) 4;
  data ← poke data (hdr + 7) [0];
  data ← put2byte data (hdr + 5) (usableSize pBt);
  let p := (decodeFlags (with_nFree (with_data p data) (wrap_u 16 (usableSize pBt - first))) flags).2 in
  _ ← guard (512 <= pageSize pBt /\ pageSize pBt <= 65536);
  Some (mkMemPage true (intKey p) (intKeyLeaf p) (leaf p) hdr (childPtrSize p) (max1bytePayload p) (maxLocal p) (minLocal p) first (nFree p) 0
          (wrap_u 16 (pageSize pBt - 1)) [] (xCellSize_p p) (xParseCell_p p) data).

End page.
