(* ===== verification/BtreePageSpec.v ===== *)
(** The operations on b-tree pages of [BtreePage]: a page is a list of cells, and its
    space is divided into cells, free blocks and fragments, which do not overlap. *)
From S2P Require Import Prelude Varint VarintSpec Disk DiskSpec BtreeCell BtreePage.

(** ** Memory *)

Definition page_bytes (d : bytes) : Prop := Forall is_byte d.

Lemma page_reader d : page_bytes d -> byte_reader (get d).
Proof. intros Hd a b H. unfold get in H. destruct (0 <=? a); [|done]. exact (proj1 (Forall_lookup _ _) Hd _ _ H). Qed.

Lemma bytes_of_reader d : byte_reader (get d) -> page_bytes d.
Proof. intros Hd. apply Forall_lookup. intros k b H. apply (Hd (Z.of_nat k)). by rewrite get_nat. Qed.

(** [d'] is [d] with [x] at [a]. *)
Record wrote (d : bytes) (a : Z) (x : bytes) (d' : bytes) : Prop := mkWrote {
  w_len : lenz d' = lenz d;
  w_bytes : page_bytes d';
  w_in : forall i, a <= i < a + lenz x -> get d' i = get x (i - a);
  w_out : forall i, i < a \/ a + lenz x <= i -> get d' i = get d i }.

Lemma poke_wrote d a x : page_bytes d -> page_bytes x -> 0 <= a -> a + lenz x <= lenz d -> exists d', poke d a x = Some d' /\ wrote d a x d'.
Proof.
  intros Hd Hx Ha Hl. unfold poke. pose proof (lenz_nonneg x). destruct (Z.eqb_spec (lenz x) 0) as [E|E].
  - exists d. split; [done|]. split; [done|done|lia|done].
  - rewrite (proj2 (Z.leb_le 0 a)), (proj2 (Z.leb_le _ (lenz d))) by lia. cbn [andb]. eexists. split; [done|].
    assert (Hget : forall i, 0 <= i -> get (write_at d a x) i = if (a <=? i) && (i <? a + lenz x) then get x (i - a) else get d i).
    { intros i Hi. rewrite get_write_at by lia. destruct ((a <=? i) && (i <? a + lenz x)); [done|]. destruct (Z.ltb_spec i (lenz d)); [done|].
      rewrite (proj2 (Z.ltb_ge i a)) by lia. symmetry. apply get_None. lia. }
    split.
    + rewrite lenz_write_at by lia. lia.
    + apply bytes_of_reader. intros i b Hb. pose proof (get_Some _ _ _ Hb). rewrite Hget in Hb by lia. destruct (_ && _); [by apply (page_reader x Hx (i - a))|by apply (page_reader d Hd i)].
    + intros i Hi. rewrite Hget by lia. rewrite (proj2 (Z.leb_le a i)), (proj2 (Z.ltb_lt i _)) by lia. done.
    + intros i Hi. destruct (Z.leb_spec 0 i); [|by rewrite !get_None by lia]. rewrite Hget by lia. destruct (Z.leb_spec a i), (Z.ltb_spec i (a + lenz x)); (done || lia).
Qed.

Lemma wrap_byte v : is_byte (wrap_u 8 v).
Proof. pose proof (wrap_u_range 8 v ltac:(lia)) as H. exact H. Qed.

(** Two-byte integers. *)
Definition has2 (d : bytes) (a v : Z) : Prop := get2byte (get d) a = Some v.

Lemma has2_range d a v : page_bytes d -> has2 d a v -> 0 <= v < 65536 /\ 0 <= a /\ a + 2 <= lenz d.
Proof.
  intros Hd. unfold has2, get2byte. destruct (get d a) as [hi|] eqn:E1; [|done]. cbn [mbind option_bind]. destruct (get d (a + 1)) as [lo|] eqn:E2; [|done]. cbn [mbind option_bind]. intros [= <-].
  pose proof (page_reader d Hd _ _ E1) as H1. pose proof (page_reader d Hd _ _ E2) as H2. pose proof (get_Some _ _ _ E1). pose proof (get_Some _ _ _ E2).
  rewrite Z.shiftl_mul_pow2 by lia. rewrite (lor_disjoint 8) by (destruct H1, H2; lia). destruct H1, H2. change (2 ^ 8) with 256. lia.
Qed.

Lemma has2_is d a : page_bytes d -> 0 <= a -> a + 2 <= lenz d -> exists v, has2 d a v.
Proof.
  intros Hd Ha Hl. unfold has2, get2byte. destruct (get_is d a) as [x ->]; [lia|]. cbn [mbind option_bind]. destruct (get_is d (a + 1)) as [y ->]; [lia|]. by eexists.
Qed.

Lemma has2_out d d' a v : get d' a = get d a -> get d' (a + 1) = get d (a + 1) -> has2 d a v -> has2 d' a v.
Proof. unfold has2, get2byte. by intros -> ->. Qed.

Lemma put2_spec d a v : page_bytes d -> 0 <= a -> a + 2 <= lenz d -> in_u 16 v ->
  exists d', put2byte d a v = Some d' /\ has2 d' a v /\ exists x, lenz x = 2 /\ wrote d a x d'.
Proof.
  intros Hd Ha Hl Hv. unfold put2byte. set (x := [wrap_u 8 (Z.shiftr v 8); wrap_u 8 v]).
  destruct (poke_wrote d a x) as (d' & E & W); [done|by repeat constructor; try apply wrap_byte|done|done|]. exists d'. split; [done|]. split; [|by exists x].
  unfold has2, get2byte. rewrite (w_in _ _ _ _ W a), (w_in _ _ _ _ W (a + 1)) by (change (lenz x) with 2; lia). rewrite Z.sub_diag. replace (a + 1 - a) with 1 by lia.
  change (get x 0) with (Some (wrap_u 8 (Z.shiftr v 8))). change (get x 1) with (Some (wrap_u 8 v)). cbn [mbind option_bind]. f_equal.
  unfold in_u in Hv. change (2 ^ 16) with 65536 in Hv. unfold wrap_u. rewrite Z.shiftr_div_pow2, Z.shiftl_mul_pow2 by lia.
  assert (0 <= v / 2 ^ 8 < 2 ^ 8) by (change (2 ^ 8) with 256; split; [apply Z.div_pos; lia|apply Z.div_lt_upper_bound; lia]). rewrite (Z.mod_small (v / 2 ^ 8)) by lia.
  rewrite (lor_disjoint 8); [|lia|lia|apply Z.mod_pos_bound; lia]. pose proof (Z.div_mod v (2 ^ 8)). lia.
Qed.

Lemma peek_spec n rd a : (forall k, 0 <= k < Z.of_nat n -> is_Some (rd (a + k))) -> exists x, peek n rd a = Some x /\ lenz x = Z.of_nat n /\ forall k, 0 <= k < Z.of_nat n -> get x k = rd (a + k).
Proof.
  revert a. induction n as [|n IH]; intros a H; [exists []; split; [done|]; split; [done|]; intros k Hk; lia|]. cbn [peek].
  destruct (H 0 ltac:(lia)) as [b Hb]. rewrite Z.add_0_r in Hb. destruct (IH (a + 1)) as (x & -> & Hl & Hx); [intros k Hk; replace (a + 1 + k) with (a + (k + 1)) by lia; apply H; lia|].
  rewrite Hb. exists (b :: x). split; [done|]. split; [unfold lenz in *; cbn [length]; lia|]. intros k Hk. destruct (Z.eq_dec k 0) as [->|Hk0]; [by rewrite Z.add_0_r, Hb|].
  replace (a + k) with (a + 1 + (k - 1)) by lia. rewrite <- Hx by lia. unfold get. rewrite (proj2 (Z.leb_le 0 k)), (proj2 (Z.leb_le 0 (k - 1))) by lia. replace (Z.to_nat k) with (S (Z.to_nat (k - 1))) by lia. done.
Qed.

Lemma memmove_spec d dst rd src n :
  page_bytes d -> byte_reader rd -> 0 <= n -> 0 <= dst -> dst + n <= lenz d -> (forall k, 0 <= k < n -> is_Some (rd (src + k))) ->
  exists d' x, memmove d dst rd src n = Some d' /\ wrote d dst x d' /\ lenz x = n /\ forall k, 0 <= k < n -> get d' (dst + k) = rd (src + k).
Proof.
  intros Hd Hrd Hn Hdst Hl H. unfold memmove. rewrite (proj2 (Z.ltb_ge n 0)) by lia. destruct (peek_spec (Z.to_nat n) rd src) as (x & -> & Hlx & Hx); [intros k Hk; apply H; lia|].
  rewrite Z2Nat.id in * by lia. cbn [mbind option_bind]. destruct (poke_wrote d dst x) as (d' & E & W); [done| |done|lia|].
  - apply bytes_of_reader. intros k b Hb. pose proof (get_Some _ _ _ Hb). rewrite Hx in Hb by lia. by apply (Hrd (src + k)).
  - exists d', x. split; [done|]. split; [done|]. split; [done|]. intros k Hk. rewrite (w_in _ _ _ _ W) by lia. rewrite <- Hx by lia. f_equal. lia.
Qed.

Lemma memset0_spec d a n : page_bytes d -> 0 <= n -> 0 <= a -> a + n <= lenz d -> exists d' x, memset0 d a n = Some d' /\ wrote d a x d' /\ lenz x = n.
Proof.
  intros Hd Hn Ha Hl. unfold memset0. rewrite (proj2 (Z.ltb_ge n 0)) by lia. assert (Hz : lenz (zeros n) = n) by (rewrite lenz_zeros; lia).
  destruct (poke_wrote d a (zeros n)) as (d' & E & W); [done|apply Forall_replicate; done|done|lia|]. by exists d', (zeros n).
Qed.

(** ** Space *)

Abbreviation block := (Z * Z)%type.

Definition disj (x y : block) : Prop := x.1 + x.2 <= y.1 \/ y.1 + y.2 <= x.1.

Fixpoint apart (l : list block) : Prop := match l with [] => True | x :: l => Forall (disj x) l /\ apart l end.

Definition within (lo hi : Z) (x : block) : Prop := lo <= x.1 /\ 4 <= x.2 /\ x.1 + x.2 <= hi.

Definition total (l : list block) : Z := foldr (fun x n => x.2 + n) 0 l.

Lemma disj_sym x y : disj x y -> disj y x.
Proof. unfold disj. lia. Qed.

Lemma apart_app l k : apart (l ++ k) <-> apart l /\ apart k /\ forall x y, x ∈ l -> y ∈ k -> disj x y.
Proof.
  induction l as [|x l IH]; cbn [apart app].
  - split; [intros H; split; [done|]; split; [done|]; by intros ? ? ?%elem_of_nil|by intros (_ & H & _)].
  - rewrite IH, Forall_app, !Forall_forall. split.
    + intros ((H1 & H2) & H3 & H4 & H5). split; [done|]. split; [done|]. intros a b [->|Ha]%elem_of_cons Hb; [by apply H2|by apply H5].
    + intros ((H1 & H2) & H3 & H4). split; [split; [done|]; intros y Hy; apply H4; [by left|done]|]. split; [done|]. split; [done|]. intros a b Ha Hb. apply H4; [by right|done].
Qed.

Lemma apart_perm l k : l ≡ₚ k -> apart l -> apart k.
Proof.
  induction 1 as [|x l k Hp IH|x y l|l k m H1 IH1 H2 IH2]; [done| | |by auto].
  - intros [Hx Hl]. split; [by rewrite <- Hp|by apply IH].
  - cbn [apart]. intros (Hx & Hy & Hl). apply Forall_cons in Hx as [Hxy Hx]. split; [|by split]. constructor; [by apply disj_sym|done].
Qed.

Lemma total_app l k : total (l ++ k) = total l + total k.
Proof. unfold total. induction l as [|x l IH]; cbn; [done|]. lia. Qed.

Lemma total_perm l k : l ≡ₚ k -> total l = total k.
Proof. unfold total. induction 1; cbn; lia. Qed.

Lemma total_nonneg lo hi l : Forall (within lo hi) l -> 0 <= total l.
Proof. unfold total. induction 1 as [|x l (H1 & H2 & H3) Hl IH]; cbn; [lia|]. lia. Qed.

(** Blocks that are apart fit. *)
Definition covered (l : list block) : list Z := l ≫= fun x => seqZ x.1 x.2.

Lemma elem_of_covered i l : i ∈ covered l <-> exists x, x ∈ l /\ x.1 <= i < x.1 + x.2.
Proof. unfold covered. rewrite list_elem_of_bind. setoid_rewrite elem_of_seqZ. split; intros (x & H1 & H2); exists x; split; (done || lia). Qed.

Lemma covered_nodup l : apart l -> NoDup (covered l).
Proof.
  induction l as [|x l IH]; [constructor|]. intros [Hx Hl]. cbn. apply NoDup_app. split; [apply NoDup_seqZ|]. split; [|by apply IH].
  intros i Hi%elem_of_seqZ (y & Hy & Hyi)%elem_of_covered. apply (proj1 (Forall_forall _ _) Hx) in Hy. unfold disj in Hy. lia.
Qed.

Lemma covered_length lo hi l : Forall (within lo hi) l -> Z.of_nat (length (covered l)) = total l.
Proof. unfold covered, total. induction 1 as [|x l (H1 & H2 & H3) Hl IH]; cbn; [done|]. rewrite length_app, length_seqZ. lia. Qed.

Lemma total_fits lo hi l : lo <= hi -> Forall (within lo hi) l -> apart l -> total l <= hi - lo.
Proof.
  intros Hle Hw Ha. rewrite <- (covered_length lo hi) by done. replace (hi - lo) with (Z.of_nat (length (seqZ lo (hi - lo)))) by (rewrite length_seqZ; lia).
  apply Nat2Z.inj_le, submseteq_length, NoDup_submseteq; [by apply covered_nodup|]. intros i (x & Hx & Hi)%elem_of_covered. apply (proj1 (Forall_forall _ _) Hw) in Hx as (H1 & H2 & H3). apply elem_of_seqZ. lia.
Qed.

(** The free blocks are in order, with at least four bytes between them. *)
Fixpoint ordered (lo : Z) (fs : list block) : Prop :=
  match fs with [] => True | x :: fs => lo < x.1 /\ ordered (x.1 + x.2 + 3) fs end.

Definition bound (lo : Z) (fs : list block) : Z := foldl (fun _ x => x.1 + x.2 + 3) lo fs.

Lemma ordered_app lo l k : ordered lo (l ++ k) <-> ordered lo l /\ ordered (bound lo l) k.
Proof. unfold bound. revert lo. induction l as [|x l IH]; intros lo; cbn; [tauto|]. rewrite IH. tauto. Qed.

Lemma ordered_weaken lo lo' fs : lo' <= lo -> ordered lo fs -> ordered lo' fs.
Proof. destruct fs as [|x fs]; [done|]. cbn. intros ? [? ?]. split; [lia|done]. Qed.

Lemma ordered_above lo u l x : Forall (within 0 u) l -> ordered lo l -> x ∈ l -> lo < x.1.
Proof.
  intros Hw. revert lo. induction Hw as [|y l (H1 & H2 & H3) Hw IH]; intros lo Ho; [by intros ?%elem_of_nil|]. destruct Ho as [Ho1 Ho]. intros [->|Hx]%elem_of_cons; [done|]. apply (IH _ Ho) in Hx. lia.
Qed.

Lemma ordered_below lo u l x k : Forall (within 0 u) (l ++ k) -> ordered lo (l ++ k) -> x ∈ l -> forall y, y ∈ k -> x.1 + x.2 + 3 < y.1.
Proof.
  intros Hw. revert lo. induction l as [|z l IH]; intros lo Ho Hx y Hy; [by apply elem_of_nil in Hx|]. cbn [app] in *. apply Forall_cons in Hw as [_ Hw]. destruct Ho as [Ho1 Ho].
  apply elem_of_cons in Hx as [->|Hx]; [|by apply (IH Hw _ Ho)]. apply (ordered_above _ u (l ++ k)); [done|done|]. apply elem_of_app. by right.
Qed.

Lemma bound_lt lo l v : lo < v -> (forall x, x ∈ l -> x.1 + x.2 + 3 < v) -> bound lo l < v.
Proof. unfold bound. revert lo. induction l as [|x l IH]; intros lo Hlo H; [done|]. cbn. apply IH; [apply H; by left|]. intros y Hy. apply H. by right. Qed.

Lemma ordered_from lo lo' fs : ordered lo fs -> (forall x, x ∈ fs -> lo' < x.1) -> ordered lo' fs.
Proof. destruct fs as [|x fs]; [done|]. cbn. intros [_ Ho] H. split; [apply H; by left|done]. Qed.

Lemma within_weaken lo lo' hi l : lo' <= lo -> Forall (within lo hi) l -> Forall (within lo' hi) l.
Proof. intros Hle H. apply (Forall_impl _ _ _ H). unfold within. intros x ?. lia. Qed.

(** The content area from [top] to [u]. *)
Record layout (top u : Z) (cells fs : list block) (frag : Z) : Prop := mkLayout {
  lay_top : 0 <= top <= u;
  lay_within : Forall (within top u) (cells ++ fs);
  lay_apart : apart (cells ++ fs);
  lay_order : ordered top fs;
  lay_sum : frag + total (cells ++ fs) = u - top;
  lay_frag : 0 <= frag <= 60 }.

Lemma layout_perm top u cells cells' fs frag : cells ≡ₚ cells' -> layout top u cells fs frag -> layout top u cells' fs frag.
Proof.
  intros Hp [L1 L2 L3 L4 L5 L6]. assert (Hp' : cells ++ fs ≡ₚ cells' ++ fs) by by rewrite Hp. split; [done|by rewrite <- Hp'|by apply (apart_perm (cells ++ fs))|done| |done].
  by rewrite <- (total_perm _ _ Hp').
Qed.

Lemma lay_cell top u cells fs frag x : layout top u cells fs frag -> x ∈ cells -> within top u x.
Proof. intros L Hx. apply (proj1 (Forall_forall _ _) (lay_within _ _ _ _ _ L)). apply elem_of_app. by left. Qed.

Lemma lay_block top u cells fs frag x : layout top u cells fs frag -> x ∈ fs -> within top u x /\ top < x.1.
Proof.
  intros L Hx. assert (Hw : within top u x) by (apply (proj1 (Forall_forall _ _) (lay_within _ _ _ _ _ L)), elem_of_app; by right). split; [done|].
  apply (ordered_above _ u fs); [|apply L|done]. pose proof (lay_top _ _ _ _ _ L). apply (within_weaken top); [lia|]. pose proof (lay_within _ _ _ _ _ L) as H0. by apply Forall_app in H0 as [_ ?].
Qed.

Lemma lay_disj top u cells fs frag x y : layout top u cells fs frag -> x ∈ cells -> y ∈ fs -> disj x y.
Proof. intros L. by apply (apart_app cells fs), L. Qed.

(** A cell [(s, n)] that is freed, with the free blocks that are joined to it. *)
Section free.
Context (top u s n : Z) (cells fs1 ml mr fs2 : list block) (frag start e : Z).
Hypothesis L : layout top u ((s, n) :: cells) (fs1 ++ ml ++ mr ++ fs2) frag.
Hypothesis Hml : (ml = [] /\ start = s) \/ exists b m, ml = [(b, m)] /\ start = b /\ b + m <= s <= b + m + 3.
Hypothesis Hmr : (mr = [] /\ e = s + n) \/ exists b m, mr = [(b, m)] /\ e = b + m /\ s + n <= b <= s + n + 3.
Hypothesis H1 : forall x, x ∈ fs1 -> x.1 + x.2 + 3 < start.
Hypothesis H2 : forall x, x ∈ fs2 -> e + 3 < x.1.

Definition freed_frag : Z := e - start - n - total (ml ++ mr).

Lemma free_start : start <= s /\ s + n <= e /\ 4 <= n /\ top <= start /\ e <= u.
Proof.
  pose proof (lay_cell _ _ _ _ _ (s, n) L ltac:(by left)) as (A1 & A2 & A3). cbn in *.
  assert (Hb : forall x, x ∈ ml ++ mr -> within top u x) by (intros x Hx; apply (lay_block _ _ _ _ _ x L); rewrite !elem_of_app in *; tauto).
  destruct Hml as [[-> ->]|(b & m & -> & -> & ?)].
  - destruct Hmr as [[-> ->]|(b & m & -> & -> & ?)]; [lia|]. destruct (Hb (b, m) ltac:(by left)) as (? & ? & ?). cbn in *. lia.
  - destruct (Hb (b, m) ltac:(by left)) as (? & ? & ?). cbn in *. destruct Hmr as [[-> ->]|(b' & m' & -> & -> & ?)]; [lia|].
    destruct (Hb (b', m') ltac:(by right; left)) as (? & ? & ?). cbn in *. lia.
Qed.

Lemma free_disj y : y ∈ cells \/ y ∈ fs1 \/ y ∈ fs2 -> disj (start, e - start) y.
Proof.
  pose proof free_start as (F1 & F2 & F3 & F4 & F5). intros Hy. assert (Hw : within top u y).
  { apply (proj1 (Forall_forall _ _) (lay_within _ _ _ _ _ L)). rewrite elem_of_app, elem_of_cons, !elem_of_app. tauto. }
  destruct Hw as (W1 & W2 & W3). unfold disj. cbn. destruct Hy as [Hy|[Hy|Hy]]; [|right; apply H1 in Hy; lia|left; apply H2 in Hy; lia].
  pose proof (lay_apart _ _ _ _ _ L) as [A _]. assert (D : disj (s, n) y) by (apply (proj1 (Forall_forall _ _) A), elem_of_app; by left).
  assert (Db : forall x, x ∈ ml ++ mr -> disj y x) by (intros x Hx; apply (lay_disj _ _ _ _ _ y x L); [by right|rewrite !elem_of_app in *; tauto]).
  unfold disj in *. cbn in D. destruct Hml as [[-> ->]|(b & m & -> & -> & ?)].
  - destruct Hmr as [[-> ->]|(b & m & -> & -> & ?)]; [lia|]. specialize (Db (b, m) ltac:(by left)). cbn in Db. lia.
  - pose proof (Db (b, m) ltac:(by left)) as D1. cbn in D1. destruct Hmr as [[-> ->]|(b' & m' & -> & -> & ?)]; [lia|]. pose proof (Db (b', m') ltac:(by right; left)) as D2. cbn in D2. lia.
Qed.

Lemma free_apart : apart ((start, e - start) :: cells ++ fs1 ++ fs2).
Proof.
  split; [apply Forall_forall; intros y; rewrite !elem_of_app; intros Hy; by apply free_disj|].
  pose proof (lay_apart _ _ _ _ _ L) as [_ A]. apply apart_app in A as (A1 & A2 & A3). apply apart_app in A2 as (A4 & A5 & A6). apply apart_app in A5 as (_ & A5 & A7). apply apart_app in A5 as (_ & A5 & A8).
  apply apart_app. split; [done|]. split.
  - apply apart_app. split; [done|]. split; [done|]. intros x y Hx Hy. apply A6; [done|]. rewrite !elem_of_app. tauto.
  - intros x y Hx. rewrite elem_of_app. intros Hy. apply A3; [done|]. rewrite !elem_of_app. tauto.
Qed.

Lemma free_within : Forall (within top u) ((start, e - start) :: cells ++ fs1 ++ fs2).
Proof.
  pose proof free_start as (F1 & F2 & F3 & F4 & F5). constructor; [unfold within; cbn; lia|]. apply Forall_forall. intros y Hy. apply (proj1 (Forall_forall _ _) (lay_within _ _ _ _ _ L)).
  rewrite !elem_of_app in Hy. rewrite elem_of_app, elem_of_cons, !elem_of_app. tauto.
Qed.

Lemma free_sum : freed_frag + total (ml ++ mr) + n = e - start /\ 0 <= freed_frag <= frag /\ frag - freed_frag + (e - start) + total (cells ++ fs1 ++ fs2) = u - top.
Proof.
  pose proof free_start as (F1 & F2 & F3 & F4 & F5). pose proof (lay_sum _ _ _ _ _ L) as S. change (total (((s, n) :: cells) ++ fs1 ++ ml ++ mr ++ fs2)) with (n + total (cells ++ fs1 ++ ml ++ mr ++ fs2)) in S.
  unfold freed_frag. rewrite !total_app in *. pose proof (lay_top _ _ _ _ _ L). pose proof (total_fits top u _ ltac:(lia) free_within free_apart) as Hf. change (total ((start, e - start) :: cells ++ fs1 ++ fs2)) with (e - start + total (cells ++ fs1 ++ fs2)) in Hf. rewrite !total_app in Hf.
  assert (n + total ml + total mr <= e - start).
  { destruct Hml as [[-> ->]|(b & m & -> & -> & ?)], Hmr as [[-> ->]|(b' & m' & -> & -> & ?)]; cbn; lia. }
  lia.
Qed.

Lemma free_order : ordered top fs1 /\ exists lo, ordered lo fs2.
Proof.
  pose proof (lay_order _ _ _ _ _ L) as O. apply ordered_app in O as [O1 O]. split; [done|]. apply ordered_app in O as [_ O]. apply ordered_app in O as [_ O]. by eexists.
Qed.

(** The freed block becomes a free block ... *)
Lemma free_middle : top < start -> layout top u cells (fs1 ++ (start, e - start) :: fs2) (frag - freed_frag).
Proof.
  intros Ht. assert (Hp : (start, e - start) :: cells ++ fs1 ++ fs2 ≡ₚ cells ++ fs1 ++ (start, e - start) :: fs2) by (rewrite !(app_assoc cells fs1); apply Permutation_middle).
  pose proof free_sum as (S1 & S2 & S3). pose proof free_order as (O1 & lo & O2). pose proof (lay_frag _ _ _ _ _ L). split.
  - apply (lay_top _ _ _ _ _ L).
  - rewrite <- Hp. apply free_within.
  - apply (apart_perm _ _ Hp), free_apart.
  - apply ordered_app. split; [done|]. split; [by apply bound_lt|]. apply (ordered_from lo); [done|]. cbn. intros x Hx. apply H2 in Hx. lia.
  - rewrite <- (total_perm _ _ Hp). cbn. unfold total in *. lia.
  - lia.
Qed.

(** ... or is joined to the gap in front of the content area. *)
Lemma free_top : start = top -> fs1 = [] /\ ml = [] /\ layout e u cells fs2 (frag - freed_frag).
Proof.
  intros Ht. pose proof free_start as (F1 & F2 & F3 & F4 & F5). assert (Hf : fs1 = []).
  { destruct fs1 as [|x l]; [done|]. exfalso. pose proof (H1 x ltac:(by left)). destruct (lay_block _ _ _ _ _ x L) as [(? & ? & ?) ?]; [by left|]. lia. }
  assert (Hm : ml = []).
  { destruct Hml as [[? _]|(b & m & -> & Hs & ?)]; [done|]. exfalso. destruct (lay_block _ _ _ _ _ (b, m) L) as [_ Hb]; [rewrite Hf; by left|]. cbn in Hb. lia. }
  split; [done|]. split; [done|]. pose proof free_sum as (S1 & S2 & S3). pose proof free_order as (_ & lo & O2). pose proof (lay_frag _ _ _ _ _ L). pose proof free_apart as [Ha1 Ha2]. pose proof free_within as Hw. apply Forall_cons in Hw as [_ Hw].
  rewrite Hf in *. cbn [app] in *. split.
  - pose proof (lay_top _ _ _ _ _ L). lia.
  - apply Forall_forall. intros y Hy. pose proof (proj1 (Forall_forall _ _) Hw _ Hy) as (W1 & W2 & W3). pose proof (proj1 (Forall_forall _ _) Ha1 _ Hy) as D. unfold disj in D. cbn in D. unfold within. lia.
  - done.
  - apply (ordered_from lo); [done|]. intros x Hx. apply H2 in Hx. lia.
  - lia.
  - lia.
Qed.
End free.

(** ** Allocations *)

Lemma alloc_gap top u cells fs frag n : layout top u cells fs frag -> 4 <= n -> 0 <= top - n -> layout (top - n) u ((top - n, n) :: cells) fs frag.
Proof.
  intros L Hn Ht. pose proof L as [L1 L2 L3 L4 L5 L6]. split; [lia| | | |change (total (((top - n, n) :: cells) ++ fs)) with (n + total (cells ++ fs)); lia|done].
  - cbn [app]. constructor; [unfold within; cbn; lia|]. apply (within_weaken top); [lia|done].
  - split; [|done]. apply Forall_forall. intros y Hy. apply (proj1 (Forall_forall _ _) L2) in Hy as (W & _). unfold disj. cbn. lia.
  - apply (ordered_weaken top); [lia|done].
Qed.

(** The end of a free block is used. *)
Lemma alloc_split top u cells fs1 b z fs2 frag n x :
  layout top u cells (fs1 ++ (b, z) :: fs2) frag -> 4 <= n -> 4 <= x -> z = n + x -> layout top u ((b + x, n) :: cells) (fs1 ++ (b, x) :: fs2) frag.
Proof.
  intros L Hn Hx ->. pose proof L as [L1 L2 L3 L4 L5 L6]. assert (Hb : within top u (b, n + x)) by (apply (lay_block _ _ _ _ _ _ L), elem_of_app; right; by left). destruct Hb as (B1 & B2 & B3). cbn in *.
  assert (Hp : cells ++ fs1 ++ (b, n + x) :: fs2 ≡ₚ (b, n + x) :: cells ++ fs1 ++ fs2) by (rewrite !(app_assoc cells fs1); symmetry; apply Permutation_middle).
  assert (Hp' : ((b + x, n) :: cells) ++ fs1 ++ (b, x) :: fs2 ≡ₚ (b + x, n) :: (b, x) :: cells ++ fs1 ++ fs2) by (cbn [app]; rewrite !(app_assoc cells fs1); apply perm_skip; symmetry; apply Permutation_middle).
  rewrite Hp in L2. apply Forall_cons in L2 as [_ L2]. pose proof (apart_perm _ _ Hp L3) as [L3a L3b]. split; [done| | | | |done].
  - rewrite Hp'. constructor; [unfold within; cbn; lia|]. constructor; [unfold within; cbn; lia|done].
  - apply (apart_perm _ _ (symmetry Hp')). split; [|split; [|done]].
    + constructor; [unfold disj; cbn; lia|]. apply Forall_forall. intros y Hy. apply (proj1 (Forall_forall _ _) L3a) in Hy. unfold disj in *. cbn in *. lia.
    + apply Forall_forall. intros y Hy. apply (proj1 (Forall_forall _ _) L3a) in Hy. unfold disj in *. cbn in *. lia.
  - apply ordered_app in L4 as [O1 [O2 O3]]. cbn in *. apply ordered_app. split; [done|]. split; [done|]. cbn. apply (ordered_weaken (b + (n + x) + 3)); [lia|done].
  - rewrite (total_perm _ _ Hp'). rewrite (total_perm _ _ Hp) in L5. unfold total in *. cbn in *. lia.
Qed.

(** A free block is used as a whole, but for less than four bytes. *)
Lemma alloc_whole top u cells fs1 b z fs2 frag n x :
  layout top u cells (fs1 ++ (b, z) :: fs2) frag -> 4 <= n -> 0 <= x < 4 -> z = n + x -> frag <= 57 -> layout top u ((b + x, n) :: cells) (fs1 ++ fs2) (frag + x).
Proof.
  intros L Hn Hx -> Hf. pose proof L as [L1 L2 L3 L4 L5 L6]. assert (Hb : within top u (b, n + x)) by (apply (lay_block _ _ _ _ _ _ L), elem_of_app; right; by left). destruct Hb as (B1 & B2 & B3). cbn in *.
  assert (Hp : cells ++ fs1 ++ (b, n + x) :: fs2 ≡ₚ (b, n + x) :: cells ++ fs1 ++ fs2) by (rewrite !(app_assoc cells fs1); symmetry; apply Permutation_middle).
  rewrite Hp in L2. apply Forall_cons in L2 as [_ L2]. pose proof (apart_perm _ _ Hp L3) as [L3a L3b]. split; [done| | | | |lia].
  - cbn [app]. constructor; [unfold within; cbn; lia|done].
  - cbn [app]. split; [|done]. apply Forall_forall. intros y Hy. apply (proj1 (Forall_forall _ _) L3a) in Hy. unfold disj in *. cbn in *. lia.
  - apply ordered_app in L4 as [O1 [O2 O3]]. apply ordered_app. split; [done|]. cbn in *. apply (ordered_weaken (b + (n + x) + 3)); [lia|done].
  - rewrite (total_perm _ _ Hp) in L5. unfold total in *. cbn in *. lia.
Qed.

(** ** The list of free blocks *)

Fixpoint links (d : bytes) (a : Z) (fs : list block) (z : Z) : Prop :=
  match fs with [] => has2 d a z | x :: fs => has2 d a x.1 /\ has2 d (x.1 + 2) x.2 /\ links d x.1 fs z end.

(** The address of the last pointer, and what the pointer to a list is. *)
Definition pointer (a : Z) (fs : list block) : Z := foldl (fun _ x => x.1) a fs.
Definition first (fs : list block) : Z := match fs with [] => 0 | x :: _ => x.1 end.

Lemma links_app d a l k : links d a (l ++ k) 0 <-> links d a l (first k) /\ match k with [] => True | x :: k => has2 d (x.1 + 2) x.2 /\ links d x.1 k 0 end.
Proof. revert a. induction l as [|x l IH]; intros a; cbn [app links]; [destruct k as [|y k]; cbn; tauto|]. rewrite IH. tauto. Qed.

Lemma links_pointer d a l z : links d a l z -> has2 d (pointer a l) z.
Proof. unfold pointer. revert a. induction l as [|x l IH]; intros a; cbn; [done|]. intros (_ & _ & H). by apply IH. Qed.

(** The bytes of the pointer [a] and of the blocks of the list. *)
Definition heads (a : Z) (l : list block) (i : Z) : Prop := a <= i < a + 2 \/ exists x, x ∈ l /\ x.1 <= i < x.1 + 4.

Lemma heads_later a x l i : heads x.1 l i -> heads a (x :: l) i.
Proof. intros [Hi|(y & Hy & Hi)]; right; [exists x|exists y]; split; [by left|lia|by right|done]. Qed.

Lemma links_ext d d' a l z : (forall i, heads a l i -> get d' i = get d i) -> links d a l z -> links d' a l z.
Proof.
  revert a. induction l as [|x l IH]; intros a He; cbn [links]; [intros H; apply (has2_out d); [apply He; left; lia..|done]|]. intros (H1 & H2 & H3). split; [apply (has2_out d); [apply He; left; lia..|done]|].
  split; [apply (has2_out d); [apply He; right; exists x; split; [by left|lia]..|done]|]. apply IH; [|done]. intros i Hi. apply He. by apply heads_later.
Qed.

(** The blocks of a list behind the pointer [a]. *)
Definition behind (a : Z) (l : list block) : Prop := exists lo u, a + 2 <= lo /\ ordered lo l /\ Forall (within 0 u) l.

Lemma behind_later a x l : behind a (x :: l) -> behind x.1 l /\ a + 2 < x.1.
Proof. intros (lo & u & Hlo & [Ho1 Ho] & Hw). apply Forall_cons in Hw as [(W1 & W2 & W3) Hw]. split; [|lia]. exists (x.1 + x.2 + 3), u. split; [lia|done]. Qed.

Lemma pointer_ge a l : behind a l -> l = [] \/ a + 2 < pointer a l.
Proof.
  unfold pointer. revert a. induction l as [|x l IH]; intros a Hb; [by left|right]. apply behind_later in Hb as [Hb Hx]. cbn. destruct (IH _ Hb) as [->|Hl]; [done|lia].
Qed.

(** The last pointer is changed. *)
Lemma links_end d d' a l z z' :
  behind a l -> (forall i, heads a l i -> i < pointer a l \/ pointer a l + 2 <= i -> get d' i = get d i) -> has2 d' (pointer a l) z' -> links d a l z -> links d' a l z'.
Proof.
  unfold pointer. revert a. induction l as [|x l IH]; intros a Hb He Hz; cbn [links foldl] in *; [done|]. intros (H1 & H2 & H3). pose proof Hb as Hb0. apply behind_later in Hb as [Hb Hx].
  pose proof (pointer_ge _ _ Hb) as Hp. unfold pointer in Hp. assert (Hq : x.1 <= foldl (fun _ x => x.1) x.1 l) by (destruct Hp as [->|]; [done|lia]).
  split; [apply (has2_out d); [apply He; [left; lia|lia]..|done]|]. split.
  - apply (has2_out d); [apply He; [right; exists x; split; [by left|lia]|]..|done]; (destruct Hp as [->|Hp]; [cbn; lia|]).
    + destruct l as [|y l]; [cbn in Hp; lia|]. destruct Hb0 as (lo & u & _ & [_ Ho] & Hw). apply Forall_cons in Hw as [(W1 & W2 & W3) Hw]. apply behind_later in Hb as [Hb Hy].
      pose proof (pointer_ge _ _ Hb) as Hp'. unfold pointer in Hp'. cbn in *. destruct Hp' as [->|]; [cbn; lia|lia].
    + destruct l as [|y l]; [cbn in Hp; lia|]. destruct Hb0 as (lo & u & _ & [_ Ho] & Hw). apply Forall_cons in Hw as [(W1 & W2 & W3) Hw]. apply behind_later in Hb as [Hb Hy].
      pose proof (pointer_ge _ _ Hb) as Hp'. unfold pointer in Hp'. cbn in *. destruct Hp' as [->|]; [cbn; lia|lia].
  - apply IH; [done| |done|done]. intros i Hi. apply He. by apply heads_later.
Qed.

Lemma freeSpace_find_spec fuel d s a l k :
  links d a (l ++ k) 0 -> behind a (l ++ k) -> 0 < s -> (forall x, x ∈ l -> x.1 < s) -> (forall x, x ∈ k -> s <= x.1) -> (forall x, x ∈ l -> a + 4 <= x.1) -> s - a < Z.of_nat fuel -> a < s ->
  freeSpace_find fuel d s a = Some (Some (pointer a l, first k)).
Proof.
  revert a l. induction fuel as [|fuel IH]; intros a l Hl Hb Hs H1 H2 Ha Hf Has; [lia|]. cbn [freeSpace_find]. destruct l as [|x l]; cbn [app] in *.
  - destruct k as [|y k]; cbn [links] in Hl.
    + rewrite Hl. cbn [mbind option_bind]. assert (0 <= a) by (unfold has2, get2byte in Hl; destruct (get d a) eqn:E; [apply get_Some in E; lia|done]).
      rewrite (proj2 (Z.ltb_lt 0 s)), (proj2 (Z.ltb_lt 0 (a + 4))) by lia. done.
    + destruct Hl as (Hl & _). rewrite Hl. cbn [mbind option_bind]. rewrite (proj2 (Z.ltb_ge y.1 s)) by (apply H2; by left). done.
  - destruct Hl as (Hl1 & _ & Hl). rewrite Hl1. cbn [mbind option_bind]. pose proof (H1 x ltac:(by left)) as Hx. pose proof (Ha x ltac:(by left)) as Hxa.
    rewrite (proj2 (Z.ltb_lt x.1 s)), (proj2 (Z.ltb_ge x.1 (a + 4))) by lia. destruct Hb as (lo & u & Hlo & [Ho1 Ho] & Hw). apply Forall_cons in Hw as [(W1 & W2 & W3) Hw].
    rewrite (IH x.1 l); [done|done| |done| |done| |lia|done].
    + exists (x.1 + x.2 + 3), u. split; [lia|done].
    + intros y Hy. apply H1. by right.
    + intros y Hy. pose proof (ordered_above _ u (l ++ k) y Hw Ho) as Hya. rewrite elem_of_app in Hya. specialize (Hya (or_introl Hy)). lia.
Qed.

(** What follows the first pointer of a list. *)
Definition rest (d : bytes) (k : list block) : Prop := match k with [] => True | x :: k => has2 d (x.1 + 2) x.2 /\ links d x.1 k 0 end.

Lemma links_head d a k : links d a k 0 <-> has2 d a (first k) /\ rest d k.
Proof. destruct k as [|x k]; cbn; tauto. Qed.

Lemma rest_ext d d' k : (forall x i, x ∈ k -> x.1 <= i < x.1 + 4 -> get d' i = get d i) -> rest d k -> rest d' k.
Proof.
  destruct k as [|x k]; [done|]. intros He [H1 H2]. split; [apply (has2_out d); [apply (He x); [by left|lia]..|done]|]. apply (links_ext d); [|done].
  intros i [Hi|(y & Hy & Hi)]; [apply (He x); [by left|lia]|apply (He y); [by right|done]].
Qed.

(** ** Freeing *)

(** Results that differ in arithmetic. *)
Ltac same_result := repeat match goal with |- Some _ = Some _ => f_equal | |- (_, _) = (_, _) => f_equal end; try done; lia.

Section freeing.
Context (pBt : BtShared).

Lemma has2_eq d a v w : has2 d a v -> has2 d a w -> v = w.
Proof. unfold has2. congruence. Qed.

Lemma freeSpace_find_split lo u s n fs :
  Forall (within 0 u) fs -> ordered lo fs -> (forall x, x ∈ fs -> disj (s, n) x) -> 4 <= n -> exists fs1 fs2, fs = fs1 ++ fs2 /\ (forall x, x ∈ fs1 -> x.1 + x.2 <= s) /\ (forall x, x ∈ fs2 -> s + n <= x.1).
Proof.
  intros Hw. revert lo. induction Hw as [|x fs (W1 & W2 & W3) Hw IH]; intros lo Ho Hd Hn; [exists [], []; split; [done|]; split; by intros ? ?%elem_of_nil|].
  destruct Ho as [Ho1 Ho]. destruct (Hd x ltac:(by left)) as [Hx|Hx]; cbn in Hx.
  - exists [], (x :: fs). split; [done|]. split; [by intros ? ?%elem_of_nil|]. intros y [->|Hy]%elem_of_cons; [lia|]. pose proof (ordered_above _ u fs y Hw Ho Hy). lia.
  - destruct (IH _ Ho) as (fs1 & fs2 & -> & H1 & H2); [intros y Hy; apply Hd; by right|done|]. exists (x :: fs1), fs2. split; [done|]. split; [|done]. intros y [->|Hy]%elem_of_cons; [done|by apply H1].
Qed.

Lemma freeSpace_right_spec d top s n fs2 lo :
  0 < top -> usableSize pBt <= 65536 -> top <= s -> 4 <= n -> s + n <= usableSize pBt -> Forall (within top (usableSize pBt)) fs2 -> ordered lo fs2 -> rest d fs2 -> (forall x, x ∈ fs2 -> s + n <= x.1) ->
  exists mr fs2' e, fs2 = mr ++ fs2' /\ ((mr = [] /\ e = s + n) \/ exists b m, mr = [(b, m)] /\ e = b + m /\ s + n <= b <= s + n + 3) /\ e <= usableSize pBt /\
    freeSpace_right pBt d (first fs2) s n (s + n) = Some (Some (first fs2', e - s, e, e - (s + n) - total mr)) /\ (forall x, x ∈ fs2' -> e + 3 < x.1) /\ rest d fs2'.
Proof.
  intros Htop Hu Hs Hn He Hw Ho Hr Hx. unfold freeSpace_right. destruct fs2 as [|[b m] fs2].
  { exists [], [], (s + n). split; [done|]. split; [by left|]. split; [done|]. cbn. split; [same_result|]. split; [by intros ? ?%elem_of_nil|done]. }
  apply Forall_cons in Hw as [(W1 & W2 & W3) Hw]. destruct Ho as [Ho1 Ho]. pose proof (Hx (b, m) ltac:(by left)) as Hb. destruct Hr as [Hr1 Hr2]. cbn [first fst snd] in *.
  rewrite (proj2 (Z.eqb_neq b 0)) by lia. cbn [negb andb]. destruct (Z.leb_spec b (s + n + 3)).
  - rewrite (proj2 (Z.ltb_ge b (s + n))) by lia. rewrite Hr1. cbn [mbind option_bind]. rewrite (proj2 (Z.ltb_ge (usableSize pBt) (b + m))) by lia.
    apply links_head in Hr2 as [Hr2 Hr3]. rewrite Hr2. cbn [mbind option_bind]. exists [(b, m)], fs2, (b + m). split; [done|]. split; [right; by exists b, m|]. split; [lia|].
    unfold wrap_u at 1 2. change (2 ^ 16) with 65536. change (2 ^ 8) with 256. rewrite !Z.mod_small by lia. split; [cbn; same_result|]. split; [|done].
    intros x Hx'. pose proof (ordered_above _ _ _ x (within_weaken top 0 _ _ ltac:(lia) Hw) Ho Hx'). lia.
  - exists [], ((b, m) :: fs2), (s + n). split; [done|]. split; [by left|]. split; [done|]. split; [cbn; same_result|]. split; [|done].
    intros x [->|Hx']%elem_of_cons; [done|]. pose proof (ordered_above _ _ _ x (within_weaken top 0 _ _ ltac:(lia) Hw) Ho Hx'). lia.
Qed.

Lemma freeSpace_left_spec d hdr top s e f fs1 v :
  0 <= hdr -> hdr + 8 <= top -> usableSize pBt <= 65536 -> s < e <= usableSize pBt -> Forall (within top (usableSize pBt)) fs1 -> ordered top fs1 -> links d (hdr + 1) fs1 v -> (forall x, x ∈ fs1 -> x.1 + x.2 <= s) -> 0 <= f <= 3 ->
  exists fs1' ml start, fs1 = fs1' ++ ml /\ ((ml = [] /\ start = s) \/ exists b m, ml = [(b, m)] /\ start = b /\ b + m <= s <= b + m + 3) /\
    freeSpace_left hdr d (pointer (hdr + 1) fs1) s (e - s) e f = Some (Some (start, e - start, f + (s - start - total ml))) /\ (forall x, x ∈ fs1' -> x.1 + x.2 + 3 < start) /\ 0 <= s - start - total ml <= 3.
Proof.
  intros Hh Htop Hu Hse Hw Ho Hl Hx Hf. unfold freeSpace_left. destruct fs1 as [|[b m] fs1' _] using rev_ind.
  { cbn. rewrite (proj2 (Z.ltb_ge (hdr + 1) _)) by lia. exists [], [], s. split; [done|]. split; [by left|]. split; [cbn; same_result|]. split; [by intros ? ?%elem_of_nil|cbn; lia]. }
  pose proof Hw as Hw0. apply Forall_app in Hw as [Hw Hb]. apply Forall_cons in Hb as [(W1 & W2 & W3) _]. pose proof (Hx (b, m) ltac:(apply elem_of_app; right; by left)) as Hbs. cbn in *.
  assert (Ep : pointer (hdr + 1) (fs1' ++ [(b, m)]) = b) by (unfold pointer; by rewrite foldl_app). rewrite Ep. rewrite (proj2 (Z.ltb_lt (hdr + 1) b)) by lia.
  assert (Hm : has2 d (b + 2) m). { clear -Hl. revert Hl. generalize (hdr + 1). induction fs1' as [|x l IH]; intros a; cbn [app links]; [tauto|]. intros (_ & _ & H). by apply (IH x.1). }
  rewrite Hm. cbn [mbind option_bind]. destruct (Z.leb_spec s (b + m + 3)).
  - rewrite (proj2 (Z.ltb_ge s (b + m))) by lia. unfold wrap_u at 1 2. change (2 ^ 16) with 65536. change (2 ^ 8) with 256. rewrite !Z.mod_small by lia.
    exists fs1', [(b, m)], b. split; [done|]. split; [right; by exists b, m|]. split; [cbn; same_result|]. split; [|cbn; lia].
    intros x Hx'. apply (ordered_below top _ fs1' x [(b, m)] (within_weaken top 0 _ _ ltac:(lia) Hw0) Ho Hx' (b, m)). by left.
  - exists (fs1' ++ [(b, m)]), [], s. split; [by rewrite app_nil_r|]. split; [by left|]. split; [cbn; same_result|]. split; [|cbn; lia].
    intros x [Hx'|Hx']%elem_of_app.
    + pose proof (ordered_below top _ fs1' x [(b, m)] (within_weaken top 0 _ _ ltac:(lia) Hw0) Ho Hx' (b, m) ltac:(by left)) as Hxb. cbn in Hxb. lia.
    + apply list_elem_of_singleton in Hx' as ->. cbn. lia.
Qed.

Lemma has2_bytes d a v : page_bytes d -> has2 d a v -> exists hi lo, get d a = Some hi /\ get d (a + 1) = Some lo /\ is_byte hi /\ is_byte lo /\ v = hi * 256 + lo.
Proof.
  intros Hd. unfold has2, get2byte. destruct (get d a) as [hi|] eqn:E1; [|done]. cbn [mbind option_bind]. destruct (get d (a + 1)) as [lo|] eqn:E2; [|done]. cbn [mbind option_bind]. intros [= <-].
  pose proof (page_reader d Hd _ _ E1) as H1. pose proof (page_reader d Hd _ _ E2) as H2. exists hi, lo. do 4 (split; [done|]). rewrite Z.shiftl_mul_pow2 by lia. rewrite (lor_disjoint 8) by (destruct H1, H2; lia). done.
Qed.

(** The end of [freeSpace]: a block in the middle of the content area ... *)
Lemma freeSpace_finish_middle p d iPtr next start size e n0 top :
  page_bytes d -> has2 d (hdrOffset p + 5) top -> top < start -> 4 <= size -> 0 <= start -> start + size <= lenz d -> in_u 16 size -> in_u 16 start -> in_u 16 next -> 0 <= iPtr -> iPtr + 2 <= start \/ iPtr = start ->
  exists d', freeSpace_finish pBt p d iPtr next start size e n0 = Some (SQLITE_OK, with_nFree (with_data p d') (nFree p + n0)) /\ page_bytes d' /\ lenz d' = lenz d /\
    has2 d' start next /\ has2 d' (start + 2) size /\ (iPtr + 2 <= start -> has2 d' iPtr start) /\ forall i, i < iPtr \/ iPtr + 2 <= i -> i < start \/ start + size <= i -> get d' i = get d i.
Proof.
  intros Hd Htop Hts Hsz Hs Hl Usz Us Un Hp Hps. unfold freeSpace_finish. rewrite Htop. cbn [mbind option_bind]. rewrite (proj2 (Z.leb_gt start top)) by lia. cbn [andb].
  destruct (put2_spec d iPtr start) as (d1 & -> & H1 & x1 & Lx1 & W1); [done|done|lia|done|]. cbn [mbind option_bind].
  assert (H2 : exists d2, (if BTS_FAST_SECURE pBt then memset0 d1 start size else Some d1) = Some d2 /\ page_bytes d2 /\ lenz d2 = lenz d1 /\ forall i, i < start \/ start + size <= i -> get d2 i = get d1 i).
  { destruct (BTS_FAST_SECURE pBt); [|exists d1; split; [done|]; split; [apply W1|]; by split]. destruct (memset0_spec d1 start size) as (d2 & x2 & -> & W2 & Lx2); [apply W1|lia|lia|rewrite (w_len _ _ _ _ W1); lia|].
    exists d2. split; [done|]. split; [apply W2|]. split; [apply W2|]. intros i Hi. apply (w_out _ _ _ _ W2). lia. }
  destruct H2 as (d2 & -> & Hd2 & Hl2 & H2). rewrite (w_len _ _ _ _ W1) in Hl2. cbn [mbind option_bind].
  destruct (put2_spec d2 start next) as (d3 & -> & H3 & x3 & Lx3 & W3); [done|lia|lia|done|]. cbn [mbind option_bind].
  destruct (put2_spec d3 (start + 2) size) as (d4 & -> & H4 & x4 & Lx4 & W4); [apply W3|lia|rewrite (w_len _ _ _ _ W3); lia|done|]. cbn [mbind option_bind].
  exists d4. split; [done|]. split; [apply W4|]. split; [by rewrite (w_len _ _ _ _ W4), (w_len _ _ _ _ W3)|]. split; [apply (has2_out d3); [apply (w_out _ _ _ _ W4); lia..|done]|]. split; [done|]. split.
  - intros Hi. apply (has2_out d1); [..|done]; rewrite (w_out _ _ _ _ W4), (w_out _ _ _ _ W3), H2 by lia; done.
  - intros i Hi1 Hi2. rewrite (w_out _ _ _ _ W4), (w_out _ _ _ _ W3), H2, (w_out _ _ _ _ W1) by lia. done.
Qed.

(** ... and at its start. *)
Lemma freeSpace_finish_top p d next start size e n0 :
  page_bytes d -> 0 <= hdrOffset p -> hdrOffset p + 8 <= start -> has2 d (hdrOffset p + 5) start -> 4 <= size -> start + size <= lenz d -> in_u 16 size -> in_u 16 start -> in_u 16 next -> 0 <= e <= 65536 ->
  exists d', freeSpace_finish pBt p d (hdrOffset p + 1) next start size e n0 = Some (SQLITE_OK, with_nFree (with_data p d') (nFree p + n0)) /\ page_bytes d' /\ lenz d' = lenz d /\
    has2 d' (hdrOffset p + 1) next /\ has2 d' (hdrOffset p + 5) (e mod 65536) /\
    forall i, i < hdrOffset p + 1 \/ hdrOffset p + 3 <= i < hdrOffset p + 5 \/ hdrOffset p + 7 <= i -> i < start \/ start + size <= i -> get d' i = get d i.
Proof.
  intros Hd Hh Hhs Htop Hsz Hl Usz Us Un He. unfold freeSpace_finish. set (hdr := hdrOffset p) in *. rewrite Htop. cbn [mbind option_bind]. rewrite (proj2 (Z.leb_le start start)), (proj2 (Z.ltb_ge start start)), Z.eqb_refl by lia. cbn [andb orb negb].
  destruct (put2_spec d (hdr + 1) next) as (d1 & -> & H1 & x1 & Lx1 & W1); [done|lia|lia|done|]. cbn [mbind option_bind].
  assert (Ee : put2byte d1 (hdr + 5) e = put2byte d1 (hdr + 5) (e mod 65536)).
  { destruct (Z.eq_dec e 65536) as [->|]; [done|]. by rewrite (Z.mod_small e) by lia. }
  rewrite Ee. destruct (put2_spec d1 (hdr + 5) (e mod 65536)) as (d1' & -> & H1' & x1' & Lx1' & W1'); [apply W1|lia|rewrite (w_len _ _ _ _ W1); lia|apply Z.mod_pos_bound; lia|]. cbn [mbind option_bind].
  assert (H2 : exists d2, (if BTS_FAST_SECURE pBt then memset0 d1' start size else Some d1') = Some d2 /\ page_bytes d2 /\ lenz d2 = lenz d /\ forall i, i < start \/ start + size <= i -> get d2 i = get d1' i).
  { assert (Hl1 : lenz d1' = lenz d) by by rewrite (w_len _ _ _ _ W1'), (w_len _ _ _ _ W1). destruct (BTS_FAST_SECURE pBt); [|exists d1'; split; [done|]; split; [apply W1'|]; by split].
    destruct (memset0_spec d1' start size) as (d2 & x2 & -> & W2 & Lx2); [apply W1'|lia|lia|lia|].
    exists d2. split; [done|]. split; [apply W2|]. split; [by rewrite (w_len _ _ _ _ W2)|]. intros i Hi. apply (w_out _ _ _ _ W2). lia. }
  destruct H2 as (d2 & -> & Hd2 & Hl2 & H2). cbn [mbind option_bind].
  destruct (put2_spec d2 start next) as (d3 & -> & H3 & x3 & Lx3 & W3); [done|lia|lia|done|]. cbn [mbind option_bind].
  destruct (put2_spec d3 (start + 2) size) as (d4 & -> & H4 & x4 & Lx4 & W4); [apply W3|lia|rewrite (w_len _ _ _ _ W3); lia|done|]. cbn [mbind option_bind].
  exists d4. split; [done|]. split; [apply W4|]. split; [by rewrite (w_len _ _ _ _ W4), (w_len _ _ _ _ W3)|].
  split; [apply (has2_out d1); [..|done]; rewrite (w_out _ _ _ _ W4), (w_out _ _ _ _ W3), H2, (w_out _ _ _ _ W1') by lia; done|].
  split; [apply (has2_out d1'); [..|done]; rewrite (w_out _ _ _ _ W4), (w_out _ _ _ _ W3), H2 by lia; done|].
  intros i Hi1 Hi2. rewrite (w_out _ _ _ _ W4), (w_out _ _ _ _ W3), H2, (w_out _ _ _ _ W1'), (w_out _ _ _ _ W1) by lia. done.
Qed.

(** The header of a page, and its content area. *)
Record space (hdr : Z) (d : bytes) (used fs : list block) (top frag : Z) : Prop := mkSpace {
  sp_hdr : 0 <= hdr;
  sp_bytes : page_bytes d;
  sp_len : usableSize pBt <= lenz d;
  sp_usable : usableSize pBt <= 65536;
  sp_top : has2 d (hdr + 5) (top mod 65536);
  sp_frag : get d (hdr + 7) = Some frag;
  sp_free : links d (hdr + 1) fs 0;
  sp_low : hdr + 8 <= top;
  sp_layout : layout top (usableSize pBt) used fs frag }.

(** What the operations on the space leave alone: all but the header of the page, the free
    blocks and the gap. *)
Definition spared (hdr : Z) (d d' : bytes) (top : Z) (used : list block) : Prop :=
  forall i, i <= hdr \/ hdr + 3 <= i < hdr + 5 \/ hdr + 8 <= i < top \/ usableSize pBt <= i \/ (exists x, x ∈ used /\ x.1 <= i < x.1 + x.2) -> get d' i = get d i.


Lemma pointer_in a l : pointer a l = a \/ exists x, x ∈ l /\ pointer a l = x.1.
Proof.
  unfold pointer. revert a. induction l as [|x l IH]; intros a; [by left|]. right. cbn. destruct (IH x.1) as [->|(y & Hy & ->)]; [exists x; split; [by left|done]|exists y; split; [by right|done]].
Qed.

Lemma space_behind hdr d used fs top frag : space hdr d used fs top frag -> behind (hdr + 1) fs.
Proof.
  intros S. exists top, (usableSize pBt). pose proof (sp_low _ _ _ _ _ _ S). split; [lia|]. pose proof (sp_layout _ _ _ _ _ _ S) as L. split; [apply L|].
  pose proof (lay_within _ _ _ _ _ L) as W. apply Forall_app in W as [_ W]. apply (within_weaken top); [pose proof (sp_hdr _ _ _ _ _ _ S); lia|done].
Qed.

Section place.
Context (p : MemPage) (d d1 : bytes) (s n : Z) (used fs1 ml mr fs2 : list block) (top frag start e f : Z).
Let hdr := hdrOffset p.
Hypothesis S : space hdr d ((s, n) :: used) (fs1 ++ ml ++ mr ++ fs2) top frag.
Hypothesis Hml : (ml = [] /\ start = s) \/ exists b m, ml = [(b, m)] /\ start = b /\ b + m <= s <= b + m + 3.
Hypothesis Hmr : (mr = [] /\ e = s + n) \/ exists b m, mr = [(b, m)] /\ e = b + m /\ s + n <= b <= s + n + 3.
Hypothesis H1 : forall x, x ∈ fs1 -> x.1 + x.2 + 3 < start.
Hypothesis H2 : forall x, x ∈ fs2 -> e + 3 < x.1.
Hypothesis Hf : f = freed_frag n ml mr start e.
Hypothesis Hd1 : page_bytes d1 /\ lenz d1 = lenz d /\ get d1 (hdr + 7) = Some (frag - f) /\ forall i, i <> hdr + 7 -> get d1 i = get d i.

Let L := sp_layout _ _ _ _ _ _ S.

Lemma place_bounds : top <= start /\ start + 4 <= e /\ e <= usableSize pBt <= 65536 /\ 0 <= hdr /\ hdr + 8 <= top /\ 0 <= first fs2 < 65536.
Proof.
  destruct (free_start _ _ _ _ _ _ _ _ _ _ _ _ L Hml Hmr H1 H2) as (F1 & F2 & F3 & F4 & F5). pose proof (sp_hdr _ _ _ _ _ _ S). pose proof (sp_low _ _ _ _ _ _ S). pose proof (sp_usable _ _ _ _ _ _ S).
  do 5 (split; [lia|]). destruct fs2 as [|x k] eqn:Ek; cbn; [lia|]. destruct (lay_block _ _ _ _ _ x L) as [(? & ? & ?) ?]; [rewrite !elem_of_app; do 3 right; by left|]. lia.
Qed.

(** A byte that is spared is in no free block. *)
Lemma spared_block x i : x ∈ fs1 ++ ml ++ mr ++ fs2 -> x.1 <= i < x.1 + x.2 -> ~ (i <= hdr \/ hdr + 3 <= i < hdr + 5 \/ hdr + 8 <= i < top \/ usableSize pBt <= i \/ exists y, y ∈ used /\ y.1 <= i < y.1 + y.2).
Proof.
  intros Hx Hi H. destruct (lay_block _ _ _ _ _ x L Hx) as [(? & ? & ?) ?]. pose proof place_bounds as (B1 & B2 & B3 & B4 & B5 & B6). destruct H as [H|[H|[H|[H|(y & Hy & H)]]]]; [lia..|].
  pose proof (lay_disj _ _ _ _ _ y x L ltac:(by right) Hx) as D. unfold disj in D. lia.
Qed.

Lemma spared_freed i : start <= i < e -> ~ (i <= hdr \/ hdr + 3 <= i < hdr + 5 \/ hdr + 8 <= i < top \/ usableSize pBt <= i \/ exists y, y ∈ used /\ y.1 <= i < y.1 + y.2).
Proof.
  intros Hi H. pose proof place_bounds as (B1 & B2 & B3 & B4 & B5 & B6). destruct H as [H|[H|[H|[H|(y & Hy & H)]]]]; [lia..|].
  pose proof (free_disj _ _ _ _ _ _ _ _ _ _ _ _ L Hml Hmr H1 H2 y ltac:(by left)) as D. unfold disj in D. cbn in D. lia.
Qed.

Lemma place_rest d' : (forall x i, x ∈ fs2 -> x.1 <= i < x.1 + 4 -> get d' i = get d i) -> rest d' fs2.
Proof.
  intros He. apply (rest_ext d); [done|]. pose proof (sp_free _ _ _ _ _ _ S) as Hl. rewrite !app_assoc in Hl. by apply links_app in Hl as [_ Hl].
Qed.

Lemma freeSpace_place_middle :
  top < start -> exists d', freeSpace_finish pBt p d1 (pointer (hdr + 1) (fs1 ++ ml)) (first fs2) start (e - start) e n = Some (SQLITE_OK, with_nFree (with_data p d') (nFree p + n)) /\
    space hdr d' used (fs1 ++ (start, e - start) :: fs2) top (frag - f) /\ spared hdr d d' top used.
Proof.
  intros Ht. pose proof place_bounds as (B1 & B2 & B3 & B4 & B5 & B6). destruct Hd1 as (D1 & D2 & D3 & D4). pose proof (sp_len _ _ _ _ _ _ S) as Hlen.
  assert (Htop : has2 d1 (hdr + 5) top).
  { pose proof (sp_top _ _ _ _ _ _ S) as H0. rewrite Z.mod_small in H0 by lia. apply (has2_out d); [apply D4; lia..|done]. }
  assert (Hptr : pointer (hdr + 1) (fs1 ++ ml) + 2 <= start /\ (ml = []) \/ pointer (hdr + 1) (fs1 ++ ml) = start /\ exists m, ml = [(start, m)]).
  { destruct Hml as [[-> ->]|(b & m & -> & -> & ?)]; [left|right; split; [unfold pointer; by rewrite foldl_app|by exists m]]. split; [|done]. rewrite app_nil_r in *.
    destruct (pointer_in (hdr + 1) fs1) as [->|(x & Hx & ->)]; [lia|]. destruct (lay_block _ _ _ _ _ x L) as [(? & ? & ?) ?]; [apply elem_of_app; by left|]. apply H1 in Hx. lia. }
  assert (Hptr0 : hdr + 1 <= pointer (hdr + 1) (fs1 ++ ml)).
  { destruct (pointer_in (hdr + 1) (fs1 ++ ml)) as [->|(x & Hx & ->)]; [done|]. destruct (lay_block _ _ _ _ _ x L) as [_ ?]; [rewrite app_assoc; apply elem_of_app; by left|]. lia. }
  assert (Hpin : forall i, pointer (hdr + 1) (fs1 ++ ml) <= i < pointer (hdr + 1) (fs1 ++ ml) + 2 -> hdr + 1 <= i < hdr + 3 \/ exists x, x ∈ fs1 ++ ml /\ x.1 <= i < x.1 + 2 /\ pointer (hdr + 1) (fs1 ++ ml) = x.1).
  { intros i Hi. destruct (pointer_in (hdr + 1) (fs1 ++ ml)) as [E|(x & Hx & E)]; [left|right; exists x]; rewrite E in *; [lia|done]. }
  destruct (freeSpace_finish_middle p d1 (pointer (hdr + 1) (fs1 ++ ml)) (first fs2) start (e - start) e n top) as (d' & E & R1 & R2 & R3 & R4 & R5 & R6);
    [done|done|lia|lia|lia|lia|unfold in_u; change (2 ^ 16) with 65536; lia..|destruct Hptr as [[? ?]|[? ?]]; [by left|by right]|].
  assert (Hsame : forall i, i <> hdr + 7 -> (i < pointer (hdr + 1) (fs1 ++ ml) \/ pointer (hdr + 1) (fs1 ++ ml) + 2 <= i) -> i < start \/ e <= i -> get d' i = get d i) by (intros i Hi1 Hi2 Hi3; rewrite R6, D4 by lia; done).
  exists d'. split; [done|]. split.
  - split; [done|done|lia|lia| | | |done|].
    + rewrite Z.mod_small by lia. apply (has2_out d1); [apply R6..|done]; try lia; (destruct Hptr as [[? ?]|[? ?]]; destruct (pointer_in (hdr + 1) (fs1 ++ ml)) as [E'|(x & Hx & E')]; [lia| |lia|];
        (destruct (lay_block _ _ _ _ _ x L) as [_ ?]; [rewrite app_assoc; apply elem_of_app; by left|lia])).
    + rewrite R6; [done| |lia]. destruct (pointer_in (hdr + 1) (fs1 ++ ml)) as [->|(x & Hx & ->)]; [lia|]. destruct (lay_block _ _ _ _ _ x L) as [_ ?]; [rewrite app_assoc; apply elem_of_app; by left|lia].
    + assert (Hrest : rest d' fs2).
      { apply place_rest. intros x i Hx Hi. pose proof (H2 x Hx). apply Hsame; [lia| |lia]. destruct Hptr as [[? ?]|[-> ?]]; lia. }
      apply links_app. cbn. split; [|split; [done|]; by apply links_head]. destruct Hptr as [[Hp ->]|[Hp (m & ->)]].
      * rewrite app_nil_r in *. cbn [app] in S. apply (links_end d _ _ _ (first (mr ++ fs2))); [| |by apply R5|by apply links_app, (sp_free _ _ _ _ _ _ S)].
        -- destruct (space_behind _ _ _ _ _ _ S) as (lo & u & Hlo & Ho & Hw). exists lo, u. apply ordered_app in Ho as [Ho _]. by apply Forall_app in Hw as [Hw _].
        -- intros i Hi Hpi. apply Hsame; [|done|]; (destruct Hi as [Hi|(x & Hx & Hi)]; [lia|]); (destruct (lay_block _ _ _ _ _ x L) as [(? & ? & ?) ?]; [apply elem_of_app; by left|]); pose proof (H1 x Hx); lia.
      * apply (links_ext d); [|by apply (links_app d _ fs1 ([(start, m)] ++ mr ++ fs2)), (sp_free _ _ _ _ _ _ S)]. intros i Hi. rewrite Hp in *.
        apply Hsame; (destruct Hi as [Hi|(x & Hx & Hi)]; [lia|]); (destruct (lay_block _ _ _ _ _ x L) as [(? & ? & ?) ?]; [apply elem_of_app; by left|]); pose proof (H1 x Hx); lia.
    + rewrite Hf. by apply (free_middle _ _ s _ _ _ _ mr).
  - intros i Hi. destruct (decide (start <= i < e)) as [Hin|Hout]; [by apply spared_freed in Hin|].
    assert (Hpo : i < pointer (hdr + 1) (fs1 ++ ml) \/ pointer (hdr + 1) (fs1 ++ ml) + 2 <= i).
    { destruct (decide (pointer (hdr + 1) (fs1 ++ ml) <= i < pointer (hdr + 1) (fs1 ++ ml) + 2)) as [Hin|]; [|lia]. exfalso. destruct (Hpin i Hin) as [Hh|(x & Hx & Hxi & _)].
      - destruct Hi as [Hi|[Hi|[Hi|[Hi|(y & Hy & Hi)]]]]; [lia..|]. destruct (lay_cell _ _ _ _ _ y L) as (? & ? & ?); [by right|]. lia.
      - assert (Hx' : x ∈ fs1 ++ ml ++ mr ++ fs2) by (rewrite app_assoc; apply elem_of_app; by left). destruct (lay_block _ _ _ _ _ x L Hx') as [(? & ? & ?) ?]. by apply (spared_block x i Hx' ltac:(lia)). }
    apply Hsame; [|done|lia]. intros ->. destruct Hi as [Hi|[Hi|[Hi|[Hi|(y & Hy & Hi)]]]]; [lia..|]. destruct (lay_cell _ _ _ _ _ y L) as (? & ? & ?); [by right|]. lia.
Qed.

Lemma freeSpace_place_top :
  start = top -> exists d', freeSpace_finish pBt p d1 (pointer (hdr + 1) (fs1 ++ ml)) (first fs2) start (e - start) e n = Some (SQLITE_OK, with_nFree (with_data p d') (nFree p + n)) /\
    space hdr d' used fs2 e (frag - f) /\ spared hdr d d' top used.
Proof.
  intros Ht. pose proof place_bounds as (B1 & B2 & B3 & B4 & B5 & B6). destruct Hd1 as (D1 & D2 & D3 & D4). pose proof (sp_len _ _ _ _ _ _ S) as Hlen.
  destruct (free_top _ _ s _ _ _ _ mr _ _ _ _ L Hml Hmr H1 H2 Ht) as (Ef & Em & Hl). rewrite Ef, Em. cbn [app pointer foldl].
  assert (Htop : has2 d1 (hdr + 5) start).
  { pose proof (sp_top _ _ _ _ _ _ S) as H0. rewrite Z.mod_small in H0 by lia. rewrite Ht. apply (has2_out d); [apply D4; lia..|done]. }
  destruct (freeSpace_finish_top p d1 (first fs2) start (e - start) e n) as (d' & E & R1 & R2 & R3 & R4 & R5); [done|done|fold hdr; lia|done|lia|lia|unfold in_u; change (2 ^ 16) with 65536; lia..|lia|].
  fold hdr in R3, R4, R5. exists d'. split; [done|].
  split.
  - split; [done|done|lia|lia|done| | |lia|by rewrite Hf, Em in *].
    + rewrite R5 by lia. done.
    + apply links_head. split; [done|]. apply place_rest. intros x i Hx Hi. pose proof (H2 x Hx). rewrite R5, D4 by lia. done.
  - intros i Hi. destruct (decide (start <= i < e)) as [Hin|Hout]; [by apply spared_freed in Hin|].
    assert (Hh : i < hdr + 1 \/ hdr + 3 <= i < hdr + 5 \/ hdr + 8 <= i).
    { destruct Hi as [Hi|[Hi|[Hi|[Hi|(y & Hy & Hi)]]]]; [lia..|]. destruct (lay_cell _ _ _ _ _ y L) as (? & ? & ?); [by right|]. lia. }
    rewrite R5, D4 by lia. done.
Qed.
End place.

Lemma freeSpace_place p d d1 s n used fs1 ml mr fs2 top frag start e f :
  space (hdrOffset p) d ((s, n) :: used) (fs1 ++ ml ++ mr ++ fs2) top frag ->
  (ml = [] /\ start = s) \/ (exists b m, ml = [(b, m)] /\ start = b /\ b + m <= s <= b + m + 3) ->
  (mr = [] /\ e = s + n) \/ (exists b m, mr = [(b, m)] /\ e = b + m /\ s + n <= b <= s + n + 3) ->
  (forall x, x ∈ fs1 -> x.1 + x.2 + 3 < start) -> (forall x, x ∈ fs2 -> e + 3 < x.1) -> f = freed_frag n ml mr start e ->
  page_bytes d1 -> lenz d1 = lenz d -> get d1 (hdrOffset p + 7) = Some (frag - f) -> (forall i, i <> hdrOffset p + 7 -> get d1 i = get d i) ->
  exists d' fs' top', freeSpace_finish pBt p d1 (pointer (hdrOffset p + 1) (fs1 ++ ml)) (first fs2) start (e - start) e n = Some (SQLITE_OK, with_nFree (with_data p d') (nFree p + n)) /\
    space (hdrOffset p) d' used fs' top' (frag - f) /\ top <= top' /\ spared (hdrOffset p) d d' top used.
Proof.
  intros S Hml Hmr H1 H2 Hf D1 D2 D3 D4. assert (B : top <= start /\ start < e).
  { destruct (place_bounds p d s n used fs1 ml mr fs2 top frag start e S Hml Hmr H1 H2) as (? & ? & _). lia. }
  destruct (decide (start = top)) as [Ht|Ht].
  - destruct (freeSpace_place_top p d d1 s n used fs1 ml mr fs2 top frag start e f S Hml Hmr H1 H2 Hf) as (d' & E & S' & Sp); [done|done|]. exists d', fs2, e. split; [done|]. split; [done|]. split; [lia|done].
  - destruct (freeSpace_place_middle p d d1 s n used fs1 ml mr fs2 top frag start e f S Hml Hmr H1 H2 Hf) as (d' & E & S' & Sp); [done|lia|]. exists d', (fs1 ++ (start, e - start) :: fs2), top. split; [done|]. split; [done|]. split; [lia|done].
Qed.

Lemma links_first d a fs : links d a fs 0 -> has2 d a (first fs).
Proof. by intros [H _]%links_head. Qed.

(** Freeing a cell: its bytes are free, and no other cell is changed. *)
Lemma freeSpace_spec p s n used fs top frag :
  space (hdrOffset p) (aData p) ((s, n) :: used) fs top frag ->
  exists d' fs' top' frag', freeSpace pBt p s n = Some (SQLITE_OK, with_nFree (with_data p d') (nFree p + n)) /\
    space (hdrOffset p) d' used fs' top' frag' /\ top <= top' /\ spared (hdrOffset p) (aData p) d' top used.
Proof.
  intros S. pose proof S as [Hh Hd Hlen Hu Htop Hfrag Hl Hlow L]. set (d := aData p) in *. set (hdr := hdrOffset p) in *.
  destruct (lay_cell _ _ _ _ _ (s, n) L ltac:(by left)) as (C1 & C2 & C3). cbn in C1, C2, C3.
  unfold freeSpace. fold d hdr. rewrite option_guard_True by lia.
  pose proof (links_first _ _ _ Hl) as Hfirst. destruct (has2_bytes _ _ _ Hd Hfirst) as (b0 & b1 & E0 & E1 & R0 & R1 & Ev). replace (hdr + 1 + 1) with (hdr + 2) in E1 by lia. rewrite E0, E1. cbn [mbind option_bind].
  assert (Hfs : fs = [] \/ top < first fs) by (destruct fs as [|x k]; [by left|right]; destruct (lay_block _ _ _ _ _ x L ltac:(by left)); cbn; lia).
  destruct ((b1 =? 0) && (b0 =? 0)) eqn:Ez.
  - assert (fs = []) as -> by (destruct Hfs as [|Hfs]; [done|]; unfold is_byte in *; lia).
    destruct (freeSpace_place p d d s n used [] [] [] [] top frag s (s + n) 0) as (d' & fs' & top' & H); [done|by left|by left|by intros ? ?%elem_of_nil|by intros ? ?%elem_of_nil|unfold freed_frag; cbn; lia|done|done|by rewrite Z.sub_0_r|done|].
    cbn [pointer foldl app first] in H. replace (s + n - s) with n in H by lia. exists d', fs', top', (frag - 0). exact H.
  - pose proof (lay_within _ _ _ _ _ L) as W. apply Forall_app in W as [_ W]. pose proof (within_weaken top 0 _ _ ltac:(lia) W) as W0. pose proof (lay_order _ _ _ _ _ L) as O.
    destruct (freeSpace_find_split top (usableSize pBt) s n fs W0 O) as (fsa & fsb & -> & Ha & Hb); [intros x Hx; by apply (lay_disj _ _ _ _ _ (s, n) x L); [left|]|done|].
    apply Forall_app in W as [Wa Wb]. apply ordered_app in O as [Oa Ob]. pose proof Hl as Hl'. apply links_app in Hl' as [Hla Hrb].
    rewrite (freeSpace_find_spec _ d s (hdr + 1) fsa fsb); [| done | apply (space_behind _ _ _ _ _ _ S) | lia | | intros x Hx; apply Hb in Hx; lia | | lia | lia].
    2:{ intros x Hx. pose proof (Ha x Hx). assert (4 <= x.2) by (apply (proj1 (Forall_forall _ _) Wa) in Hx; apply Hx). lia. }
    2:{ intros x Hx. apply (proj1 (Forall_forall _ _) Wa) in Hx. destruct Hx. lia. }
    cbn [mbind option_bind]. assert (Hpf : first fsb = 0 \/ s + n <= first fsb <= usableSize pBt - 4).
    { destruct fsb as [|x k]; [by left|right]. pose proof (Hb x ltac:(by left)). destruct (proj1 (Forall_forall _ _) Wb x ltac:(by left)) as (? & ? & ?). cbn. lia. }
    rewrite (proj2 (Z.ltb_ge _ (first fsb))) by lia. assert (Hps : pointer (hdr + 1) fsa < s).
    { destruct (pointer_in (hdr + 1) fsa) as [->|(x & Hx & ->)]; [lia|]. pose proof (Ha x Hx). destruct (proj1 (Forall_forall _ _) Wa x Hx) as (? & ? & ?). lia. }
    rewrite option_guard_True by lia.
    destruct (freeSpace_right_spec d top s n fsb (bound top fsa)) as (mr & fs2 & e & -> & Hmr & He & -> & H2 & Hr2); [lia|done|done|done|done|done|done|done|done|]. cbn [mbind option_bind].
    assert (Hmr3 : 0 <= e - (s + n) - total mr <= 3 /\ s < e) by (destruct Hmr as [[-> ->]|(b & m & -> & -> & ?)]; cbn; [lia|]; destruct (proj1 (Forall_forall _ _) Wb (b, m) ltac:(by left)) as (? & ? & ?); cbn in *; lia).
    destruct (freeSpace_left_spec d hdr top s e (e - (s + n) - total mr) fsa (first (mr ++ fs2))) as (fs1 & ml & start & -> & Hml & -> & H1 & Hml3); [done|done|done|lia|done|done|done|done|lia|]. cbn [mbind option_bind].
    rewrite Hfrag. cbn [mbind option_bind]. rewrite <- !app_assoc in *. set (f := e - (s + n) - total mr + (s - start - total ml)).
    assert (Hf : f = freed_frag n ml mr start e) by (unfold f, freed_frag; rewrite total_app; lia).
    destruct (free_sum _ _ s n _ _ _ _ _ _ _ _ L Hml Hmr H1 H2) as (_ & Hf2 & _). rewrite <- Hf in Hf2. pose proof (lay_frag _ _ _ _ _ L) as Hfr.
    rewrite (proj2 (Z.ltb_ge frag f)) by lia. assert (Hl7 : hdr + 7 + 1 <= lenz d) by (apply get_Some in Hfrag; lia).
    destruct (poke_wrote d (hdr + 7) [frag - f]) as (d1 & -> & W1); [done|constructor; [unfold is_byte; lia|done]|lia|done|]. cbn [mbind option_bind].
    destruct (freeSpace_place p d d1 s n used fs1 ml mr fs2 top frag start e f) as (d' & fs' & top' & H); [done|done|done|done|done|done|apply W1|apply W1| | |].
    + rewrite (w_in _ _ _ _ W1) by (change (lenz [frag - f]) with 1; lia). by rewrite Z.sub_diag.
    + intros i Hi. apply (w_out _ _ _ _ W1). change (lenz [frag - f]) with 1. lia.
    + exists d', fs', top', (frag - f). done.
Qed.

(** ** Allocating *)

Lemma free_not_spared hdr d used fs top frag x i :
  space hdr d used fs top frag -> x ∈ fs -> x.1 <= i < x.1 + x.2 -> ~ (i <= hdr \/ hdr + 3 <= i < hdr + 5 \/ hdr + 8 <= i < top \/ usableSize pBt <= i \/ exists y, y ∈ used /\ y.1 <= i < y.1 + y.2).
Proof.
  intros S Hx Hi H. pose proof (sp_layout _ _ _ _ _ _ S) as L. pose proof (sp_low _ _ _ _ _ _ S). destruct (lay_block _ _ _ _ _ x L Hx) as [(? & ? & ?) ?].
  destruct H as [H|[H|[H|[H|(y & Hy & H)]]]]; [lia..|]. pose proof (lay_disj _ _ _ _ _ y x L Hy Hx) as D. unfold disj in D. lia.
Qed.

Lemma header_not_spared hdr d used fs top frag i :
  space hdr d used fs top frag -> hdr + 1 <= i < hdr + 3 \/ hdr + 5 <= i < hdr + 8 -> ~ (i <= hdr \/ hdr + 3 <= i < hdr + 5 \/ hdr + 8 <= i < top \/ usableSize pBt <= i \/ exists y, y ∈ used /\ y.1 <= i < y.1 + y.2).
Proof.
  intros S Hi H. pose proof (sp_layout _ _ _ _ _ _ S) as L. pose proof (sp_low _ _ _ _ _ _ S). pose proof (lay_top _ _ _ _ _ L).
  destruct H as [H|[H|[H|[H|(y & Hy & H)]]]]; [lia..|]. destruct (lay_cell _ _ _ _ _ y L Hy) as (? & ? & ?). lia.
Qed.

(** A write to the header's free-space fields or to a free block spares the rest. *)
Lemma spared_wrote hdr d used fs top frag d' :
  space hdr d used fs top frag -> (forall i, ~ (hdr + 1 <= i < hdr + 3 \/ hdr + 5 <= i < hdr + 8) -> (forall x, x ∈ fs -> ~ x.1 <= i < x.1 + x.2) -> get d' i = get d i) -> spared hdr d d' top used.
Proof. intros S He i Hi. apply He; [intros H; by apply (header_not_spared _ _ _ _ _ _ i S H)|]. intros x Hx H. by apply (free_not_spared _ _ _ _ _ _ x i S Hx H). Qed.

(** The free block [(b, z)] in its list. *)
Lemma links_resize d d' a l b z x k :
  behind a (l ++ (b, z) :: k) -> (forall i, heads a (l ++ (b, z) :: k) i -> ~ b + 2 <= i < b + 4 -> get d' i = get d i) -> has2 d' (b + 2) x -> links d a (l ++ (b, z) :: k) 0 -> links d' a (l ++ (b, x) :: k) 0.
Proof.
  revert a. induction l as [|y l IH]; intros a Hb He Hx; cbn [app links fst snd].
  - intros (H1 & _ & H3). pose proof Hb as Hb0. apply behind_later in Hb as [Hb Hab]. cbn in Hb, Hab. split; [apply (has2_out d); [apply He; [left|]; lia..|done]|]. split; [done|].
    apply (links_ext d); [|done]. intros i Hi. apply He; [by apply (heads_later _ (b, z))|]. destruct Hi as [Hi|(y & Hy & Hi)]; [lia|].
    destruct Hb0 as (lo & u & _ & [_ Ho] & Hw). apply Forall_cons in Hw as [(W1 & W2 & W3) Hw]. pose proof (ordered_above _ _ _ y Hw Ho Hy). cbn in *. lia.
  - intros (H1 & H2 & H3). pose proof Hb as Hb0. apply behind_later in Hb as [Hb Hab]. assert (Hyb : y.1 + y.2 + 3 < b).
    { destruct Hb0 as (lo & u & _ & Ho & Hw). apply (ordered_below _ u [y] y (l ++ (b, z) :: k) Hw Ho ltac:(by left) (b, z)), elem_of_app. right. by left. }
    assert (4 <= y.2) by (destruct Hb0 as (lo & u & _ & _ & Hw); apply Forall_cons in Hw as [(? & ? & ?) _]; done).
    split; [apply (has2_out d); [apply He; [left; lia|lia]..|done]|]. split; [apply (has2_out d); [apply He; [right; exists y; split; [by left|lia]|lia]..|done]|].
    apply IH; [done| |done|done]. intros i Hi. apply He. by apply heads_later.
Qed.

Lemma links_remove d d' a l b z k :
  behind a (l ++ (b, z) :: k) -> (forall i, heads a (l ++ k) i -> i < pointer a l \/ pointer a l + 2 <= i -> get d' i = get d i) -> has2 d' (pointer a l) (first k) -> links d a (l ++ (b, z) :: k) 0 -> links d' a (l ++ k) 0.
Proof.
  intros Hb He Hp Hl. apply links_app in Hl as [Hl Hr]. destruct Hr as [_ Hr]. apply links_head in Hr as [_ Hr]. pose proof Hb as (lo & u & Hlo & Ho & Hw).
  assert (Hbl : behind a l) by (exists lo, u; apply ordered_app in Ho as [Ho _]; by apply Forall_app in Hw as [Hw _]).
  apply links_app. split.
  - apply (links_end d _ _ _ b); [done| |done|done]. intros i Hi. apply He. destruct Hi as [Hi|(y & Hy & Hi)]; [by left|right; exists y; split; [apply elem_of_app; by left|done]].
  - apply (rest_ext d); [|done]. intros y i Hy Hi. apply He; [right; exists y; split; [apply elem_of_app; by right|done]|]. right.
    destruct (pointer_in a l) as [->|(x & Hx & ->)].
    + pose proof (ordered_above lo u _ y Hw Ho) as Hy0. rewrite elem_of_app, elem_of_cons in Hy0. specialize (Hy0 ltac:(tauto)). lia.
    + pose proof (ordered_below _ _ _ _ _ Hw Ho Hx y ltac:(by right)). apply Forall_app in Hw as [Hw _]. apply (proj1 (Forall_forall _ _) Hw) in Hx as (? & ? & ?). lia.
Qed.

Lemma first_bound hdr d used fs1 fs2 top frag : space hdr d used (fs1 ++ fs2) top frag -> 0 <= first fs2 < 65536.
Proof.
  intros S. destruct fs2 as [|x k]; [cbn; lia|]. pose proof (sp_usable _ _ _ _ _ _ S). pose proof (sp_hdr _ _ _ _ _ _ S). pose proof (sp_low _ _ _ _ _ _ S).
  destruct (lay_block _ _ _ _ _ x (sp_layout _ _ _ _ _ _ S)) as [(? & ? & ?) ?]; [apply elem_of_app; right; by left|]. cbn. lia.
Qed.

(** The end of the free block [(b, n + x)] is used, ... *)
Lemma slot_part hdr d used fs1 b fs2 top frag n x :
  space hdr d used (fs1 ++ (b, n + x) :: fs2) top frag -> 4 <= n -> 4 <= x ->
  exists d', put2byte d (b + 2) x = Some d' /\ space hdr d' ((b + x, n) :: used) (fs1 ++ (b, x) :: fs2) top frag /\ spared hdr d d' top used.
Proof.
  intros S Hn Hx. pose proof S as [Hh Hd Hlen Hu Htop Hfrag Hl Hlow L]. assert (Hin : (b, n + x) ∈ fs1 ++ (b, n + x) :: fs2) by (apply elem_of_app; right; by left).
  destruct (lay_block _ _ _ _ _ _ L Hin) as [(B1 & B2 & B3) B4]. cbn [fst snd] in B1, B2, B3, B4.
  destruct (put2_spec d (b + 2) x) as (d' & E & Hx' & y & Ly & W); [done|lia|lia|unfold in_u; change (2 ^ 16) with 65536; lia|]. exists d'. split; [done|].
  assert (He : forall i, ~ b + 2 <= i < b + 4 -> get d' i = get d i) by (intros i Hi; apply (w_out _ _ _ _ W); lia). split.
  - split; [done|apply W|rewrite (w_len _ _ _ _ W); lia|done| | | |done|by apply (alloc_split _ _ _ _ b (n + x))].
    + apply (has2_out d); [apply He; lia..|done].
    + by rewrite He by lia.
    + apply (links_resize d _ _ _ _ (n + x)); [by apply (space_behind _ _ _ _ _ _ S)| |done|done]. intros i _ Hi. by apply He.
  - apply (spared_wrote _ _ _ _ _ _ _ S). intros i _ Hi. apply He. intros Hi'. apply (Hi _ Hin). cbn. lia.
Qed.

(** ... or the whole block but for fragments. *)
Lemma slot_whole hdr d used fs1 b fs2 top frag n x :
  space hdr d used (fs1 ++ (b, n + x) :: fs2) top frag -> 4 <= n -> 0 <= x < 4 -> frag <= 57 ->
  exists d1 d', memmove d (pointer (hdr + 1) fs1) (get d) b 2 = Some d1 /\ get d1 (hdr + 7) = Some frag /\ poke d1 (hdr + 7) [wrap_u 8 (frag + x)] = Some d' /\
    space hdr d' ((b + x, n) :: used) (fs1 ++ fs2) top (frag + x) /\ spared hdr d d' top used.
Proof.
  intros S Hn Hx H57. pose proof S as [Hh Hd Hlen Hu Htop Hfrag Hl Hlow L]. assert (Hin : (b, n + x) ∈ fs1 ++ (b, n + x) :: fs2) by (apply elem_of_app; right; by left).
  destruct (lay_block _ _ _ _ _ _ L Hin) as [(B1 & B2 & B3) B4]. cbn [fst snd] in B1, B2, B3, B4. pose proof (lay_frag _ _ _ _ _ L).
  set (q := pointer (hdr + 1) fs1). assert (Hq : q = hdr + 1 \/ exists y, y ∈ fs1 /\ q = y.1 /\ within top (usableSize pBt) y /\ top < y.1).
  { destruct (pointer_in (hdr + 1) fs1) as [E|(y & Hy & E)]; [by left|right]. exists y. split; [done|]. split; [done|]. apply (lay_block _ _ _ _ _ _ L). apply elem_of_app. by left. }
  assert (Hqr : 0 <= q /\ q + 2 <= usableSize pBt /\ (q + 2 <= hdr + 5 \/ hdr + 8 < q)) by (destruct Hq as [->|(y & _ & -> & (? & ? & ?) & ?)]; lia).
  pose proof Hl as Hl0. apply links_app in Hl0 as [_ [_ Hr]]. apply links_first in Hr. cbn [fst] in Hr.
  destruct (memmove_spec d q (get d) b 2) as (d1 & y1 & E1 & W1 & Ly1 & Hm); [done|by apply page_reader|lia|lia|lia|intros k Hk; apply get_is; lia|].
  assert (H7 : get d1 (hdr + 7) = Some frag) by (rewrite (w_out _ _ _ _ W1) by lia; done).
  destruct (poke_wrote d1 (hdr + 7) [wrap_u 8 (frag + x)]) as (d' & E2 & W2); [apply W1|constructor; [apply wrap_byte|done]|lia|rewrite (w_len _ _ _ _ W1); change (lenz [_]) with 1; lia|].
  exists d1, d'. do 3 (split; [done|]). assert (He : forall i, i <> hdr + 7 -> i < q \/ q + 2 <= i -> get d' i = get d i).
  { intros i Hi1 Hi2. rewrite (w_out _ _ _ _ W2) by (change (lenz [_]) with 1; lia). apply (w_out _ _ _ _ W1). lia. }
  split.
  - split; [done|apply W2|rewrite (w_len _ _ _ _ W2), (w_len _ _ _ _ W1); lia|done| | | |done|by apply (alloc_whole _ _ _ _ b (n + x))].
    + apply (has2_out d); [apply He; lia..|done].
    + rewrite (w_in _ _ _ _ W2) by (change (lenz [_]) with 1; lia). rewrite Z.sub_diag. unfold wrap_u. change (2 ^ 8) with 256. by rewrite Z.mod_small by lia.
    + apply (links_remove d _ _ _ b (n + x)); [by apply (space_behind _ _ _ _ _ _ S)| | |done].
      * intros i Hi Hiq. apply He; [|done]. destruct Hi as [Hi|(y & Hy & Hi)]; [lia|]. destruct (lay_block _ _ _ _ _ y L) as [_ ?]; [rewrite elem_of_app in *; rewrite elem_of_cons; tauto|]. lia.
      * fold q. unfold has2, get2byte. rewrite (w_out _ _ _ _ W2), (w_out _ _ _ _ W2) by (change (lenz [_]) with 1; lia). pose proof (Hm 0 ltac:(lia)) as M0. pose proof (Hm 1 ltac:(lia)) as M1. rewrite !Z.add_0_r in M0. rewrite M0, M1. exact Hr.
  - apply (spared_wrote _ _ _ _ _ _ _ S). intros i Hi1 Hi2. apply He; [lia|]. destruct (decide (q <= i < q + 2)) as [Hi|]; [|lia]. exfalso. destruct Hq as [->|(y & Hy & -> & (? & ? & ?) & ?)]; [lia|]. apply (Hi2 y); [apply elem_of_app; by left|lia].
Qed.

Lemma pageFindSlot_loop_spec fuel p n used fs1 b z fs2 top frag :
  space (hdrOffset p) (aData p) used (fs1 ++ (b, z) :: fs2) top frag -> 4 <= n -> n <= usableSize pBt -> usableSize pBt - b < Z.of_nat fuel ->
  pageFindSlot_loop pBt fuel p n (pointer (hdrOffset p + 1) fs1) b = Some (SQLITE_OK, None, p) \/
  exists a d' fs' frag', pageFindSlot_loop pBt fuel p n (pointer (hdrOffset p + 1) fs1) b = Some (SQLITE_OK, Some a, with_data p d') /\
    space (hdrOffset p) d' ((a, n) :: used) fs' top frag' /\ spared (hdrOffset p) (aData p) d' top used.
Proof.
  revert fs1 b z fs2. induction fuel as [|fuel IH]; intros fs1 b z fs2 S Hn Hnu Hf.
  { exfalso. destruct (lay_block _ _ _ _ _ (b, z) (sp_layout _ _ _ _ _ _ S)) as [(? & ? & ?) ?]; [apply elem_of_app; right; by left|]. cbn in *. lia. }
  pose proof S as [Hh Hd Hlen Hu Htop Hfrag Hl Hlow L]. cbn [pageFindSlot_loop].
  assert (Hin : (b, z) ∈ fs1 ++ (b, z) :: fs2) by (apply elem_of_app; right; by left). destruct (lay_block _ _ _ _ _ (b, z) L Hin) as [(B1 & B2 & B3) B4]. cbn [fst snd] in B1, B2, B3, B4.
  rewrite (proj2 (Z.ltb_ge (usableSize pBt - n + n - 4) b)) by lia. destruct (Z.leb_spec b (usableSize pBt - n)) as [Hmax|]; [|by left].
  pose proof Hl as Hl0. apply links_app in Hl0 as [_ [Hz Hr]]. cbn [fst snd] in Hz, Hr. pose proof (links_first _ _ _ Hr) as Hnext. rewrite Hz. cbn [mbind option_bind].
  destruct (Z.leb_spec 0 (z - n)) as [Hx|Hx]; [destruct (Z.ltb_spec (z - n) 4) as [Hx4|Hx4]|].
  - rewrite Hfrag. cbn [mbind option_bind]. destruct (Z.ltb_spec 57 frag); [by left|right]. replace z with (n + (z - n)) in S by lia.
    destruct (slot_whole _ _ _ _ _ _ _ _ _ _ S Hn ltac:(lia) ltac:(lia)) as (d1 & d' & -> & H7 & E2 & S' & Sp). cbn [mbind option_bind]. rewrite H7. cbn [mbind option_bind]. rewrite E2. by exists (b + (z - n)), d', (fs1 ++ fs2), (frag + (z - n)).
  - rewrite (proj2 (Z.ltb_ge (usableSize pBt - n) (z - n + b))) by lia. right. replace z with (n + (z - n)) in S by lia.
    destruct (slot_part _ _ _ _ _ _ _ _ _ _ S Hn ltac:(lia)) as (d' & -> & S' & Sp). by exists (b + (z - n)), d', (fs1 ++ (b, z - n) :: fs2), frag.
  - rewrite Hnext. cbn [mbind option_bind]. destruct fs2 as [|[b' z'] fs2]; cbn [first fst].
    + rewrite (proj2 (Z.leb_le 0 (b + z))) by lia. by left.
    + pose proof (lay_order _ _ _ _ _ L) as O. apply ordered_app in O as [_ [_ [O _]]]. cbn [fst snd] in O. rewrite (proj2 (Z.leb_gt b' (b + z))) by lia.
      replace b with (pointer (hdrOffset p + 1) (fs1 ++ [(b, z)])) by (unfold pointer; by rewrite foldl_app). apply (IH _ b' z' fs2); [by rewrite <- app_assoc|done|done|lia].
Qed.

Lemma pageFindSlot_spec p n used fs top frag :
  space (hdrOffset p) (aData p) used fs top frag -> fs <> [] -> 4 <= n -> n <= usableSize pBt ->
  pageFindSlot pBt p n = Some (SQLITE_OK, None, p) \/
  exists a d' fs' frag', pageFindSlot pBt p n = Some (SQLITE_OK, Some a, with_data p d') /\ space (hdrOffset p) d' ((a, n) :: used) fs' top frag' /\ spared (hdrOffset p) (aData p) d' top used.
Proof.
  intros S Hfs Hn Hnu. destruct fs as [|[b z] fs]; [done|]. unfold pageFindSlot. pose proof (sp_free _ _ _ _ _ _ S) as [Hl _]. cbn [fst] in Hl. rewrite Hl. cbn [mbind option_bind].
  destruct (lay_block _ _ _ _ _ (b, z) (sp_layout _ _ _ _ _ _ S)) as [(B1 & B2 & B3) B4]; [by left|]. pose proof (sp_low _ _ _ _ _ _ S). pose proof (sp_hdr _ _ _ _ _ _ S). cbn [fst snd] in *.
  rewrite option_guard_True by lia. apply (pageFindSlot_loop_spec _ p n used [] b z fs top frag); [done|done|done|lia].
Qed.

End freeing.
