(* ===== verification/BtreeDefrag.v ===== *)
(** [defragmentPage] and [allocateSpace] of [BtreePage]: the cells of a page stay the same,
    and there is room for a cell whenever the free bytes are enough. *)
From S2P Require Import Prelude Varint VarintSpec Disk DiskSpec BtreeCell BtreePage BtreePageSpec.

(** ** The cells of a page *)

(** The bytes [c] are at [a]. *)
Definition cell_at (rd : reader) (a : Z) (c : bytes) : Prop := forall k, 0 <= k < lenz c -> rd (a + k) = get c k.

(** The array of pointers at [a]. *)
Fixpoint pointers (d : bytes) (a : Z) (addrs : list Z) : Prop := match addrs with [] => True | x :: l => has2 d a x /\ pointers d (a + 2) l end.

Definition blocks (addrs : list Z) (cells : list bytes) : list block := zip addrs (lenz <$> cells).

Lemma pointers_ext d d' a l : (forall i, a <= i < a + 2 * lenz l -> get d' i = get d i) -> pointers d a l -> pointers d' a l.
Proof.
  revert a. induction l as [|x l IH]; intros a He; [done|]. intros [H1 H2]. assert (Hl : lenz (x :: l) = 1 + lenz l) by (unfold lenz; cbn [length]; lia). pose proof (lenz_nonneg l).
  split; [apply (has2_out d); [apply He; lia..|done]|]. apply IH; [|done]. intros i Hi. apply He. lia.
Qed.

Lemma cell_at_ext rd rd' a c : (forall i, a <= i < a + lenz c -> rd' i = rd i) -> cell_at rd a c -> cell_at rd' a c.
Proof. intros He H k Hk. rewrite He by lia. by apply H. Qed.

Lemma elem_of_blocks x addrs cells : x ∈ blocks addrs cells -> exists k c, addrs !! k = Some x.1 /\ cells !! k = Some c /\ x.2 = lenz c.
Proof.
  destruct x as [a n]. unfold blocks. intros (k & Hk)%list_elem_of_lookup. apply lookup_zip_Some in Hk as [H1 H2]. apply list_lookup_fmap_Some in H2 as (c & H2 & H3). by exists k, c.
Qed.

(** The steps after a call that returns SQLITE_OK. *)
Ltac go_on := repeat (progress (cbn [mbind option_bind negb]; change (SQLITE_OK =? SQLITE_OK) with true)).

Section defrag.
Context (pBt : BtShared).

Definition valid (p : MemPage) (c : bytes) : Prop := page_bytes c /\ xCellSize pBt p (get c) 0 = Some (lenz c).

(** What of a page its cells and its space depend on. *)
Record page_state (p : MemPage) (addrs : list Z) (cells : list bytes) (fs : list block) (top frag : Z) : Prop := mkPageState {
  ps_space : space pBt (hdrOffset p) (aData p) (blocks addrs cells) fs top frag;
  ps_gap : cellOffset p + 2 * nCell p <= top;
  ps_off : cellOffset p = hdrOffset p + 12 - 4 * leaf p /\ hdrOffset p + 8 <= cellOffset p;
  ps_ncell : nCell p = Z.of_nat (length cells);
  ps_count : has2 (aData p) (hdrOffset p + 3) (nCell p);
  ps_ptrs : pointers (aData p) (cellOffset p) addrs;
  ps_cells : Forall2 (cell_at (get (aData p))) addrs cells;
  ps_valid : Forall (valid p) cells;
  ps_nfree : nFree p = usableSize pBt - (cellOffset p + 2 * nCell p) - total (blocks addrs cells);
  ps_ovfl : aOvfl p = [] }.

(** ** One or two free blocks are closed *)
Section shift.
Context (top u b z b2 z2 : Z) (used : list block).
Hypothesis Hb : top < b /\ 4 <= z /\ b + z <= b2 /\ 0 <= z2 /\ b2 + z2 <= u.
Hypothesis Hw : Forall (within top u) used.
Hypothesis Ha : apart used.
Hypothesis Hd : forall y, y ∈ used -> disj y (b, z) /\ disj y (b2, z2).

Definition shift (a : Z) : Z := if a <? b then a + (z + z2) else if a <? b2 then a + z2 else a.
Definition shift_block (x : block) : block := (shift x.1, x.2).

Lemma shift_cases x : within top u x -> disj x (b, z) -> disj x (b2, z2) ->
  (x.1 + x.2 <= b /\ shift x.1 = x.1 + (z + z2)) \/ (b + z <= x.1 /\ x.1 + x.2 <= b2 /\ shift x.1 = x.1 + z2) \/ (b2 + z2 <= x.1 /\ shift x.1 = x.1).
Proof.
  unfold within, disj, shift. cbn. intros (? & ? & ?) X1 X2. destruct (Z.ltb_spec x.1 b); [lia|]. destruct (Z.ltb_spec x.1 b2); [lia|]. right. right. lia.
Qed.

Lemma shift_within : Forall (within (top + (z + z2)) u) (shift_block <$> used).
Proof.
  apply Forall_fmap, Forall_forall. intros x Hx. pose proof (proj1 (Forall_forall _ _) Hw x Hx) as Hx'. destruct (Hd x Hx) as [D1 D2]. pose proof (shift_cases x Hx' D1 D2).
  destruct Hx' as (? & ? & ?). unfold within, shift_block. cbn. lia.
Qed.

Lemma shift_apart : apart (shift_block <$> used).
Proof.
  clear -Hb Hw Ha Hd. induction used as [|x l IH]; [done|]. destruct Ha as [Hx Hl]. apply Forall_cons in Hw as [Wx Wl]. cbn. split; [|apply IH; [done|done|intros y Hy; apply Hd; by right]].
  apply Forall_fmap, Forall_forall. intros y Hy. pose proof (proj1 (Forall_forall _ _) Hx y Hy) as D. pose proof (proj1 (Forall_forall _ _) Wl y Hy) as Wy. destruct (Hd x ltac:(by left)) as [D1 D2]. destruct (Hd y ltac:(by right)) as [D3 D4].
  pose proof (shift_cases x Wx D1 D2). pose proof (shift_cases y Wy D3 D4). destruct Wx as (? & ? & ?), Wy as (? & ? & ?). unfold disj, shift_block in *. cbn in *. lia.
Qed.

Lemma shift_total : total (shift_block <$> used) = total used.
Proof. unfold total. clear. induction used as [|x l IH]; [done|]. cbn. by rewrite IH. Qed.
End shift.

(** The state of the page in front of [defragment_out]. *)
Record moved (p : MemPage) (d' : bytes) (addrs' : list Z) (cells : list bytes) (cbrk frag' : Z) : Prop := mkMoved {
  mv_bytes : page_bytes d';
  mv_len : lenz d' = lenz (aData p);
  mv_ptrs : pointers d' (cellOffset p) addrs';
  mv_cells : Forall2 (cell_at (get d')) addrs' cells;
  mv_within : Forall (within cbrk (usableSize pBt)) (blocks addrs' cells);
  mv_apart : apart (blocks addrs' cells);
  mv_sum : frag' + total (blocks addrs' cells) = usableSize pBt - cbrk;
  mv_frag : get d' (hdrOffset p + 7) = Some frag' /\ 0 <= frag' <= 60;
  mv_out : forall i, (i < cellOffset p /\ i <> hdrOffset p + 7) \/ usableSize pBt <= i -> get d' i = get (aData p) i }.

(** ** One or two free blocks are closed: the memory *)

Record slid (d d' : bytes) (top b z b2 z2 : Z) : Prop := mkSlid {
  sl_bytes : page_bytes d';
  sl_len : lenz d' = lenz d;
  sl_low : forall i, top <= i < b -> get d' (i + (z + z2)) = get d i;
  sl_mid : forall i, b + z <= i < b2 -> get d' (i + z2) = get d i;
  sl_out : forall i, i < top \/ b2 + z2 <= i -> get d' i = get d i }.

Lemma slide_one d top b z u : page_bytes d -> 0 <= top -> top < b -> 4 <= z -> b + z <= u -> u <= lenz d ->
  exists d', memmove d (top + z) (get d) top (b - top) = Some d' /\ slid d d' top b z u 0.
Proof.
  intros Hd Ht Hb Hz Hu Hl. destruct (memmove_spec d (top + z) (get d) top (b - top)) as (d' & x & E & W & Lx & Hm); [done|by apply page_reader|lia..|intros k Hk; apply get_is; lia|].
  exists d'. split; [done|]. split; [apply W|apply W| | |].
  - intros i Hi. replace (i + (z + 0)) with (top + z + (i - top)) by lia. rewrite Hm by lia. f_equal. lia.
  - intros i Hi. rewrite Z.add_0_r. apply (w_out _ _ _ _ W). lia.
  - intros i Hi. apply (w_out _ _ _ _ W). lia.
Qed.

Lemma slide_two d top b z b2 z2 : page_bytes d -> 0 <= top -> top < b -> 4 <= z -> b + z <= b2 -> 0 <= z2 -> b2 + z2 <= lenz d ->
  exists d1 d', memmove d (b + z + z2) (get d) (b + z) (b2 - (b + z)) = Some d1 /\ memmove d1 (top + (z + z2)) (get d1) top (b - top) = Some d' /\ slid d d' top b z b2 z2.
Proof.
  intros Hd Ht Hb Hz Hb2 Hz2 Hl.
  destruct (memmove_spec d (b + z + z2) (get d) (b + z) (b2 - (b + z))) as (d1 & x1 & E1 & W1 & Lx1 & Hm1); [done|by apply page_reader|lia..|intros k Hk; apply get_is; lia|].
  destruct (memmove_spec d1 (top + (z + z2)) (get d1) top (b - top)) as (d' & x & E & W & Lx & Hm); [apply W1|apply page_reader, W1|lia|lia|rewrite (w_len _ _ _ _ W1); lia|intros k Hk; apply get_is; rewrite (w_len _ _ _ _ W1); lia|].
  exists d1, d'. do 2 (split; [done|]). split; [apply W|by rewrite (w_len _ _ _ _ W), (w_len _ _ _ _ W1)| | |].
  - intros i Hi. replace (i + (z + z2)) with (top + (z + z2) + (i - top)) by lia. rewrite Hm by lia. replace (top + (i - top)) with i by lia. apply (w_out _ _ _ _ W1). lia.
  - intros i Hi. rewrite (w_out _ _ _ _ W) by lia. replace (i + z2) with (b + z + z2 + (i - (b + z))) by lia. rewrite Hm1 by lia. f_equal. lia.
  - intros i Hi. rewrite (w_out _ _ _ _ W), (w_out _ _ _ _ W1) by lia. done.
Qed.

Lemma blocks_lookup addrs cells k a c : addrs !! k = Some a -> cells !! k = Some c -> (a, lenz c) ∈ blocks addrs cells.
Proof. intros Ha Hc. apply list_elem_of_lookup. exists k. unfold blocks. apply lookup_zip_Some. split; [done|]. by rewrite list_lookup_fmap, Hc. Qed.

Lemma blocks_shift g addrs cells : blocks (g <$> addrs) cells = (fun x => (g x.1, x.2)) <$> blocks addrs cells.
Proof. unfold blocks. revert cells. induction addrs as [|a l IH]; intros [|c cells]; [done..|]. cbn. by rewrite <- IH. Qed.

Lemma slid_cells d d' top u b z b2 z2 addrs cells :
  slid d d' top b z b2 z2 -> top < b /\ 4 <= z /\ b + z <= b2 /\ 0 <= z2 /\ b2 + z2 <= u -> Forall (within top u) (blocks addrs cells) -> (forall y, y ∈ blocks addrs cells -> disj y (b, z) /\ disj y (b2, z2)) ->
  Forall2 (cell_at (get d)) addrs cells -> Forall2 (cell_at (get d')) (shift b z b2 z2 <$> addrs) cells.
Proof.
  intros S Hb Hw Hd Hc. apply Forall2_lookup. intros k. apply (Forall2_lookup _ _ _) with (i := k) in Hc as Hk. rewrite list_lookup_fmap. destruct (addrs !! k) as [a|] eqn:Ea, (cells !! k) as [c|] eqn:Ec; inversion Hk as [? ? H|]; [|constructor]. subst.
  constructor. pose proof (blocks_lookup _ _ _ _ _ Ea Ec) as Hin. pose proof (proj1 (Forall_forall _ _) Hw _ Hin) as W. destruct (Hd _ Hin) as [D1 D2].
  pose proof (shift_cases top u b z b2 z2 ltac:(done) _ W D1 D2) as Hs. destruct W as (W1 & W2 & W3). cbn [fst snd] in *. intros i Hi. rewrite <- H by done. destruct Hs as [[Hs ->]|[(Hs1 & Hs2 & ->)|[Hs ->]]].
  - replace (a + (z + z2) + i) with (a + i + (z + z2)) by lia. apply S. lia.
  - replace (a + z2 + i) with (a + i + z2) by lia. apply S. lia.
  - apply S. lia.
Qed.

Lemma defragment_pointers_spec n d a addrs iFree iFree2 sz sz2 :
  length addrs = n -> page_bytes d -> 0 <= a -> a + 2 * Z.of_nat n <= lenz d -> pointers d a addrs ->
  (forall x, x ∈ addrs -> in_u 16 (if x <? iFree then x + sz else if x <? iFree2 then x + sz2 else x)) ->
  exists d', defragment_pointers n d a iFree iFree2 sz sz2 = Some d' /\ page_bytes d' /\ lenz d' = lenz d /\
    pointers d' a ((fun x => if x <? iFree then x + sz else if x <? iFree2 then x + sz2 else x) <$> addrs) /\ forall i, i < a \/ a + 2 * Z.of_nat n <= i -> get d' i = get d i.
Proof.
  intros <-. revert d a. induction addrs as [|x l IH]; intros d a Hd Ha Hl Hp Hx; cbn [defragment_pointers length]; [by exists d|]. destruct Hp as [H1 H2]. unfold has2 in H1. rewrite H1. cbn [mbind option_bind].
  cbn [length] in Hl. set (v := if x <? iFree then x + sz else if x <? iFree2 then x + sz2 else x).
  assert (E : exists d1, (if x <? iFree then put2byte d a (x + sz) else if x <? iFree2 then put2byte d a (x + sz2) else Some d) = Some d1 /\ page_bytes d1 /\ lenz d1 = lenz d /\ has2 d1 a v /\ forall i, i < a \/ a + 2 <= i -> get d1 i = get d i).
  { pose proof (Hx x ltac:(by left)) as Hv. fold v in Hv. assert (Hw : forall w, w = v -> exists d1, put2byte d a w = Some d1 /\ page_bytes d1 /\ lenz d1 = lenz d /\ has2 d1 a v /\ forall i, i < a \/ a + 2 <= i -> get d1 i = get d i).
    { intros w ->. destruct (put2_spec d a v) as (d1 & E & Hh & y & Ly & W); [done|done|lia|done|]. exists d1. split; [done|]. split; [apply W|]. split; [apply W|]. split; [done|]. intros i Hi. apply (w_out _ _ _ _ W). lia. }
    subst v. destruct (x <? iFree); [by apply Hw|]. destruct (x <? iFree2); [by apply Hw|]. exists d. by repeat (split; [done|]). }
  destruct E as (d1 & -> & Hd1 & Hl1 & Hh & Ho). cbn [mbind option_bind].
  destruct (IH d1 (a + 2)) as (d' & -> & Hd' & Hl' & Hp' & Ho'); [done|lia|lia|apply (pointers_ext d); [intros i Hi; apply Ho; lia|done]|intros y Hy; apply Hx; by right|].
  exists d'. split; [done|]. split; [done|]. split; [lia|]. split.
  - rewrite fmap_cons. split; [apply (has2_out d1); [apply Ho'; lia..|done]|done].
  - intros i Hi. rewrite Ho', Ho by lia. done.
Qed.

Lemma page_disj p addrs cells fs top frag x y : page_state p addrs cells fs top frag -> x ∈ blocks addrs cells -> y ∈ fs -> disj x y.
Proof. intros S Hx Hy. by apply (lay_disj _ _ _ _ _ x y (sp_layout _ _ _ _ _ _ _ (ps_space _ _ _ _ _ _ S))). Qed.

Lemma page_within p addrs cells fs top frag : page_state p addrs cells fs top frag -> Forall (within top (usableSize pBt)) (blocks addrs cells) /\ apart (blocks addrs cells).
Proof.
  intros S. pose proof (sp_layout _ _ _ _ _ _ _ (ps_space _ _ _ _ _ _ S)) as L. split; [apply (proj1 (proj1 (Forall_app _ _ _) (lay_within _ _ _ _ _ L)))|apply (proj1 (proj1 (apart_app _ _) (lay_apart _ _ _ _ _ L)))].
Qed.

Lemma page_length p addrs cells fs top frag : page_state p addrs cells fs top frag -> length addrs = length cells /\ nCell p = Z.of_nat (length addrs).
Proof. intros S. pose proof (ps_cells _ _ _ _ _ _ S) as Hc. apply Forall2_length in Hc. rewrite (ps_ncell _ _ _ _ _ _ S). by rewrite Hc. Qed.

Lemma page_addr p addrs cells fs top frag a : page_state p addrs cells fs top frag -> a ∈ addrs -> exists n, (a, n) ∈ blocks addrs cells.
Proof.
  intros S (k & Hk)%list_elem_of_lookup. destruct (page_length _ _ _ _ _ _ S) as [Hl _]. destruct (lookup_lt_is_Some_2 cells k) as [c Hc]; [rewrite <- Hl; by apply lookup_lt_Some in Hk|].
  exists (lenz c). by apply (blocks_lookup _ _ k).
Qed.

(** The pointers are moved, after the cells. *)
Lemma slid_moved p addrs cells fs top frag b z b2 z2 iFree2 d1 :
  page_state p addrs cells fs top frag -> slid (aData p) d1 top b z b2 z2 -> top < b /\ 4 <= z /\ b + z <= b2 /\ 0 <= z2 /\ b2 + z2 <= usableSize pBt ->
  (forall y, y ∈ blocks addrs cells -> disj y (b, z) /\ disj y (b2, z2)) -> total fs = z + z2 -> iFree2 = b2 \/ (iFree2 = 0 /\ z2 = 0) ->
  exists d2 addrs', defragment_pointers (Z.to_nat (nCell p)) d1 (cellOffset p) b iFree2 (z + z2) z2 = Some d2 /\ moved p d2 addrs' cells (top + (z + z2)) frag.
Proof.
  intros S Sl Hb Hd Hfs Hf2. pose proof (ps_space _ _ _ _ _ _ S) as Sp. pose proof Sp as [Hh Hbytes Hlen Hu Htop Hfrag Hl Hlow L]. pose proof (ps_gap _ _ _ _ _ _ S) as Hgap. destruct (ps_off _ _ _ _ _ _ S) as [_ Hoff].
  destruct (page_within _ _ _ _ _ _ S) as [Hw Ha]. destruct (page_length _ _ _ _ _ _ S) as [Hlc Hn].
  assert (Hsh : forall x, x ∈ addrs -> (if x <? b then x + (z + z2) else if x <? iFree2 then x + z2 else x) = shift b z b2 z2 x /\ top <= shift b z b2 z2 x < 65536).
  { intros x Hx. destruct (page_addr _ _ _ _ _ _ _ S Hx) as (n & Hn'). pose proof (proj1 (Forall_forall _ _) Hw _ Hn') as W. destruct (Hd _ Hn') as [D1 D2]. pose proof (shift_cases top (usableSize pBt) b z b2 z2 Hb _ W D1 D2) as Hs.
    destruct W as (? & ? & ?). cbn [fst snd] in *. split; [|lia]. unfold shift. destruct Hf2 as [->|[-> ->]]; [done|]. destruct (x <? b); [done|]. rewrite (proj2 (Z.ltb_ge x 0)) by lia. destruct (x <? b2); lia. }
  destruct (defragment_pointers_spec (Z.to_nat (nCell p)) d1 (cellOffset p) addrs b iFree2 (z + z2) z2) as (d2 & E & Hd2 & Hl2 & Hp2 & Ho2).
  - lia.
  - apply Sl.
  - lia.
  - rewrite (sl_len _ _ _ _ _ _ _ Sl). lia.
  - apply (pointers_ext (aData p)); [|apply S]. intros i Hi. apply Sl. unfold lenz in Hi. lia.
  - intros x Hx. destruct (Hsh x Hx) as [-> ?]. unfold in_u. change (2 ^ 16) with 65536. lia.
  - exists d2, (shift b z b2 z2 <$> addrs). split; [done|]. rewrite Z2Nat.id in Ho2 by lia. split.
    + done.
    + by rewrite Hl2, (sl_len _ _ _ _ _ _ _ Sl).
    + rewrite <- (list_fmap_ext _ _ _ (fun k x Hx => proj1 (Hsh x (list_elem_of_lookup_2 _ _ _ Hx)))). done.
    + pose proof (slid_cells _ _ _ _ _ _ _ _ _ _ Sl Hb Hw Hd (ps_cells _ _ _ _ _ _ S)) as Hc. pose proof (shift_within top (usableSize pBt) b z b2 z2 _ Hb Hw Hd) as Hsw. unfold shift_block in Hsw. rewrite <- blocks_shift in Hsw.
      apply Forall2_lookup. intros k. apply (Forall2_lookup _ _ _) with (i := k) in Hc. destruct ((shift b z b2 z2 <$> addrs) !! k) as [a|] eqn:Ea, (cells !! k) as [c|] eqn:Ec; inversion Hc as [? ? H|]; [|constructor]. subst. constructor.
      apply (cell_at_ext (get d1)); [|done]. intros i Hi. apply Ho2. pose proof (proj1 (Forall_forall _ _) Hsw _ (blocks_lookup _ _ _ _ _ Ea Ec)) as (W1 & W2 & W3). cbn [fst snd] in *. lia.
    + rewrite blocks_shift. by apply (shift_within top (usableSize pBt) b z b2 z2).
    + rewrite blocks_shift. by apply (shift_apart top (usableSize pBt) b z b2 z2).
    + rewrite blocks_shift. change (fun x : block => (shift b z b2 z2 x.1, x.2)) with (shift_block b z b2 z2). rewrite shift_total. pose proof (lay_sum _ _ _ _ _ L) as Hs. rewrite total_app in Hs. lia.
    + split; [|apply L]. rewrite Ho2, (sl_out _ _ _ _ _ _ _ Sl) by lia. done.
    + intros i Hi. rewrite Ho2, (sl_out _ _ _ _ _ _ _ Sl) by lia. done.
Qed.

Lemma defragment_fast_spec p addrs cells fs top frag nMax :
  page_state p addrs cells fs top frag ->
  defragment_fast pBt p nMax = Some Next \/
  exists d' addrs' cbrk, defragment_fast pBt p nMax = Some (Out d' cbrk) /\ moved p d' addrs' cells cbrk frag /\ frag <= nMax /\ top <= cbrk.
Proof.
  intros S. pose proof (ps_space _ _ _ _ _ _ S) as Sp. pose proof Sp as [Hh Hbytes Hlen Hu Htop Hfrag Hl Hlow L]. unfold defragment_fast. set (hdr := hdrOffset p) in *. rewrite Hfrag. cbn [mbind option_bind].
  destruct (Z.ltb_spec nMax frag); [by left|]. pose proof (links_first _ _ _ Hl) as Hf. rewrite Hf. cbn [mbind option_bind].
  destruct fs as [|[b z] fs]; cbn [first fst snd].
  { rewrite (proj2 (Z.ltb_ge _ 0)); [by left|]. pose proof (lay_top _ _ _ _ _ L). pose proof (has2_range _ _ _ Hbytes Hf). lia. }
  destruct (lay_block _ _ _ _ _ (b, z) L ltac:(by left)) as [(B1 & B2 & B3) B4]. cbn [fst snd] in *. destruct Hl as (_ & Hz & Hl). cbn [fst snd] in Hz, Hl.
  rewrite (proj2 (Z.ltb_ge _ b)), (proj2 (Z.eqb_neq b 0)) by lia. pose proof (links_first _ _ _ Hl) as Hf2. rewrite Hf2. cbn [mbind option_bind].
  assert (Htop' : has2 (aData p) (hdr + 5) top) by (rewrite Z.mod_small in Htop by lia; done).
  destruct fs as [|[b2 z2] fs]; cbn [first fst snd].
  - rewrite (proj2 (Z.ltb_ge _ 0)), Z.eqb_refl by lia. cbn [mbind option_bind negb]. rewrite Hz. cbn [mbind option_bind]. rewrite Htop'. cbn [mbind option_bind].
    rewrite (proj2 (Z.leb_gt b top)), (proj2 (Z.ltb_ge _ (b + z))) by lia. cbn [mbind option_bind]. rewrite option_guard_True by lia.
    destruct (slide_one (aData p) top b z (usableSize pBt)) as (d1 & -> & Sl); [done|lia..|]. cbn [mbind option_bind].
    destruct (slid_moved p addrs cells [(b, z)] top frag b z (usableSize pBt) 0 0 d1) as (d2 & addrs' & E & M); [done|done|lia| |cbn; lia|by right|].
    + intros y Hy. split; [apply (page_disj _ _ _ _ _ _ y (b, z) S Hy); by left|]. destruct (page_within _ _ _ _ _ _ S) as [Hw _]. apply (proj1 (Forall_forall _ _) Hw) in Hy as (? & ? & ?). unfold disj. cbn. lia.
    + rewrite Z.add_0_r in E, M. rewrite E. cbn [mbind option_bind]. right. exists d2, addrs', (top + z). split; [done|]. split; [done|]. lia.
  - destruct (lay_block _ _ _ _ _ (b2, z2) L ltac:(right; by left)) as [(C1 & C2 & C3) C4]. cbn [fst snd] in *. destruct Hl as (_ & Hz2 & Hl). cbn [fst snd] in Hz2, Hl.
    pose proof (lay_order _ _ _ _ _ L) as (_ & O & _). cbn [fst snd] in O.
    rewrite (proj2 (Z.ltb_ge _ b2)), (proj2 (Z.eqb_neq b2 0)) by lia. pose proof (links_first _ _ _ Hl) as Hf3. destruct (has2_bytes _ _ _ Hbytes Hf3) as (x0 & x1 & E0 & E1 & R0 & R1 & Ev). rewrite E0, E1. cbn [mbind option_bind].
    destruct ((x0 =? 0) && (x1 =? 0)) eqn:Ez; cbn [negb]; [|by left]. assert (fs = []) as ->.
    { destruct fs as [|y fs]; [done|]. exfalso. destruct (lay_block _ _ _ _ _ y L ltac:(do 2 right; by left)) as [_ Hy]. cbn in Ev. lia. }
    rewrite Hz. cbn [mbind option_bind]. rewrite Htop'. cbn [mbind option_bind]. rewrite (proj2 (Z.leb_gt b top)), (proj2 (Z.ltb_ge b2 (b + z))) by lia. rewrite Hz2. cbn [mbind option_bind]. rewrite (proj2 (Z.ltb_ge _ (b2 + z2))) by lia.
    destruct (slide_two (aData p) top b z b2 z2) as (d1 & d2 & -> & E2 & Sl); [done|lia..|]. cbn [mbind option_bind]. rewrite option_guard_True by lia. rewrite E2. cbn [mbind option_bind].
    destruct (slid_moved p addrs cells [(b, z); (b2, z2)] top frag b z b2 z2 b2 d2) as (d3 & addrs' & E & M); [done|done|lia| |cbn; lia|by left|].
    + intros y Hy. split; apply (page_disj _ _ _ _ _ _ y _ S Hy); [by left|right; by left].
    + rewrite E. cbn [mbind option_bind]. right. exists d3, addrs', (top + (z + z2)). split; [done|]. split; [done|]. lia.
Qed.

(** ** Cells that are moved one by one *)

Definition size_sum (cells : list bytes) : Z := foldr (fun c n => lenz c + n) 0 cells.

(** Where the cells go that are moved to the end of a space that ends at [u]. *)
Fixpoint packed (u : Z) (cells : list bytes) : list Z := match cells with [] => [] | c :: cells => (u - lenz c) :: packed (u - lenz c) cells end.

Lemma packed_length u cells : length (packed u cells) = length cells.
Proof. revert u. induction cells as [|c cells IH]; intros u; [done|]. cbn. by rewrite IH. Qed.

Lemma blocks_total addrs cells : length addrs = length cells -> total (blocks addrs cells) = size_sum cells.
Proof. revert cells. induction addrs as [|a l IH]; intros [|c cells]; [done..|]. cbn [length]. intros [= Hl]. change (lenz c + total (blocks l cells) = lenz c + size_sum cells). by rewrite (IH _ Hl). Qed.

Lemma size_sum_cons c cells : size_sum (c :: cells) = lenz c + size_sum cells.
Proof. done. Qed.

Lemma size_sum_nonneg cells : 0 <= size_sum cells.
Proof. induction cells as [|c cells IH]; [done|]. rewrite size_sum_cons. pose proof (lenz_nonneg c). lia. Qed.

Lemma packed_layout u v cells : (forall c, c ∈ cells -> 4 <= lenz c) -> u <= v -> Forall (within (u - size_sum cells) u) (blocks (packed u cells) cells) /\ apart (blocks (packed u cells) cells).
Proof.
  revert u. induction cells as [|c cells IH]; intros u Hc Hv; [by repeat constructor|]. cbn [packed blocks fmap list_fmap zip_with]. rewrite size_sum_cons. destruct (IH (u - lenz c)) as [IH1 IH2]; [intros x Hx; apply Hc; by right|pose proof (lenz_nonneg c); lia|].
  pose proof (Hc c ltac:(by left)). pose proof (size_sum_nonneg cells) as Hs. replace (u - lenz c - size_sum cells) with (u - (lenz c + size_sum cells)) in IH1 by lia. split.
  - constructor; [unfold within; cbn; lia|]. apply (Forall_impl _ _ _ IH1). unfold within. intros x ?. lia.
  - split; [|done]. apply (Forall_impl _ _ _ IH1). unfold within, disj. cbn. intros x ?. lia.
Qed.

Section slow.
Context (p : MemPage) (top : Z).
Hypothesis Hlim : limits_ok pBt p.
Let first_cell := cellOffset p + 2 * nCell p.
Hypothesis Htop : 0 <= cellOffset p /\ first_cell <= top /\ top <= 65535 /\ usableSize pBt <= 65536.

Lemma valid_size c : valid p c -> 4 <= lenz c <= usableSize pBt - 9.
Proof. intros [Hb Hs]. apply (xCellSize_range pBt p Hlim (get c) 0); [by apply page_reader|done]. Qed.

Lemma valid_at c rd a : valid p c -> byte_reader rd -> cell_at rd a c -> xCellSize pBt p rd a = Some (lenz c).
Proof. intros [Hb Hs] Hrd Hc. apply (xCellSize_local pBt p Hlim (get c) rd 0 a _); [by apply page_reader|done|done|]. intros k Hk. rewrite Z.add_0_l. by apply Hc. Qed.

(** What the loop has still to do. *)
Record todo (addrs : list Z) (cells : list bytes) (i : Z) (data : bytes) (cbrk : Z) (rd : reader) : Prop := mkTodo {
  td_valid : Forall (valid p) cells;
  td_index : 0 <= i /\ i + Z.of_nat (length cells) = nCell p;
  td_bytes : page_bytes data;
  td_len : usableSize pBt <= lenz data;
  td_ptrs : pointers data (cellOffset p + i * 2) addrs;
  td_cbrk : first_cell <= cbrk - size_sum cells /\ cbrk <= usableSize pBt;
  td_within : Forall (within top (usableSize pBt)) (blocks addrs cells);
  td_reader : byte_reader rd;
  td_cells : Forall2 (cell_at rd) addrs cells }.

(** What it does. *)
Record done_cells (cells : list bytes) (i : Z) (data : bytes) (cbrk : Z) (d' : bytes) : Prop := mkDone {
  dn_bytes : page_bytes d';
  dn_len : lenz d' = lenz data;
  dn_ptrs : pointers d' (cellOffset p + i * 2) (packed cbrk cells);
  dn_cells : Forall2 (cell_at (get d')) (packed cbrk cells) cells;
  dn_out : forall j, ~ cellOffset p + i * 2 <= j < first_cell -> ~ cbrk - size_sum cells <= j < cbrk -> get d' j = get data j }.

(** The start of a turn: the checks, and the pointer. *)
Lemma turn_start a addrs c cells i data cbrk rd :
  todo (a :: addrs) (c :: cells) i data cbrk rd ->
  get2byte (get data) (cellOffset p + i * 2) = Some a /\ (a <? first_cell) || (usableSize pBt - 4 <? a) = false /\ xCellSize pBt p rd a = Some (lenz c) /\
  (cbrk - lenz c <? first_cell) || (usableSize pBt <? a + lenz c) = false /\ top <= a /\ a + lenz c <= usableSize pBt /\
  exists d1, put2byte data (cellOffset p + i * 2) (cbrk - lenz c) = Some d1 /\ page_bytes d1 /\ lenz d1 = lenz data /\ has2 d1 (cellOffset p + i * 2) (cbrk - lenz c) /\
    forall j, ~ cellOffset p + i * 2 <= j < cellOffset p + i * 2 + 2 -> get d1 j = get data j.
Proof.
  intros [T1 T2 T3 T4 [T5 _] T6 T7 T8 T9]. apply Forall_cons in T1 as [Tv _]. apply Forall2_cons in T9 as [Tc _]. apply Forall_cons in T7 as [(W1 & W2 & W3) _]. cbn [fst snd length] in *.
  pose proof (valid_size c Tv). pose proof (size_sum_nonneg cells). rewrite ?size_sum_cons in *. split; [exact T5|]. split; [lia|]. split; [by apply valid_at|]. split; [lia|]. split; [lia|]. split; [lia|].
  assert (Hi : i + 1 <= nCell p) by lia. destruct (put2_spec data (cellOffset p + i * 2) (cbrk - lenz c)) as (d1 & E & Hh & y & Ly & W); [done|lia|lia|unfold in_u; change (2 ^ 16) with 65536; lia|].
  exists d1. split; [done|]. split; [apply W|]. split; [apply W|]. split; [done|]. intros j Hj. apply (w_out _ _ _ _ W). lia.
Qed.

(** The rest of the work after a turn that changes the pointer and the place of the cell. *)
Lemma turn_todo a addrs c cells i data cbrk rd d2 rd' :
  todo (a :: addrs) (c :: cells) i data cbrk rd -> page_bytes d2 -> lenz d2 = lenz data -> (forall j, cellOffset p + i * 2 + 2 <= j < first_cell -> get d2 j = get data j) ->
  byte_reader rd' -> Forall2 (cell_at rd') addrs cells -> todo addrs cells (i + 1) d2 (cbrk - lenz c) rd'.
Proof.
  intros [T1 T2 T3 T4 [_ T5] T6 T7 T8 T9] Hd Hl Hp Hrd Hc. apply Forall_cons in T1 as [Tv T1]. apply Forall_cons in T7 as [_ T7]. apply Forall2_cons in T9 as [_ T9]. apply Forall2_length in T9. cbn [length] in *. rewrite ?size_sum_cons in *.
  pose proof (lenz_nonneg c). split; [done|lia|done|lia| |lia|done|done|done]. replace (cellOffset p + (i + 1) * 2) with (cellOffset p + i * 2 + 2) by lia. apply (pointers_ext data); [|done]. intros j Hj. apply Hp. unfold lenz in Hj. unfold first_cell. lia.
Qed.

Lemma turn_done a addrs c cells i data cbrk rd d2 d' :
  todo (a :: addrs) (c :: cells) i data cbrk rd -> done_cells cells (i + 1) d2 (cbrk - lenz c) d' -> lenz d2 = lenz data -> has2 d2 (cellOffset p + i * 2) (cbrk - lenz c) -> cell_at (get d2) (cbrk - lenz c) c ->
  (forall j, ~ cellOffset p + i * 2 <= j < cellOffset p + i * 2 + 2 -> ~ cbrk - lenz c <= j < cbrk -> get d2 j = get data j) -> done_cells (c :: cells) i data cbrk d'.
Proof.
  intros T [D1 D2 D3 D4 D5] Hl Hh Hc Ho. pose proof T as [T1 T2 T3 T4 _ T6 _ _ _]. apply Forall_cons in T1 as [Tv _]. pose proof (valid_size c Tv). cbn [length] in *. pose proof (size_sum_nonneg cells). assert (Hss : size_sum (c :: cells) = lenz c + size_sum cells) by done. split.
  - done.
  - lia.
  - split; [apply (has2_out d2); [apply D5; lia..|done]|]. by replace (cellOffset p + i * 2 + 2) with (cellOffset p + (i + 1) * 2) by lia.
  - constructor; [|done]. apply (cell_at_ext (get d2)); [|done]. intros j Hj. apply D5; lia.
  - intros j Hj1 Hj2. rewrite D5, Ho by lia. done.
Qed.
(** A turn copies the cell. *)
Lemma turn_copy a c i data cbrk d1 rd :
  page_bytes d1 -> lenz d1 = lenz data -> byte_reader rd -> cell_at rd a c -> 0 <= cbrk - lenz c -> cbrk <= lenz data -> page_bytes c ->
  has2 d1 (cellOffset p + i * 2) (cbrk - lenz c) -> cellOffset p + i * 2 + 2 <= cbrk - lenz c ->
  exists d2, memmove d1 (cbrk - lenz c) rd a (lenz c) = Some d2 /\ page_bytes d2 /\ lenz d2 = lenz data /\ has2 d2 (cellOffset p + i * 2) (cbrk - lenz c) /\ cell_at (get d2) (cbrk - lenz c) c /\
    forall j, ~ cbrk - lenz c <= j < cbrk -> get d2 j = get d1 j.
Proof.
  intros Hd Hl Hrd Hc H0 H1 Hb Hh Hi. pose proof (lenz_nonneg c). destruct (memmove_spec d1 (cbrk - lenz c) rd a (lenz c)) as (d2 & x & -> & W & Lx & Hm); [done|done|lia|lia|lia|intros k Hk; rewrite Hc by done; apply get_is; lia|].
  exists d2. split; [done|]. split; [apply W|]. split; [by rewrite (w_len _ _ _ _ W)|]. split; [apply (has2_out d1); [apply (w_out _ _ _ _ W); lia..|done]|]. split; [intros k Hk; rewrite Hm by done; by apply Hc|].
  intros j Hj. apply (w_out _ _ _ _ W). lia.
Qed.

Lemma defragment_cells_temp cells addrs i data cbrk temp :
  todo addrs cells i data cbrk temp -> exists d', defragment_cells pBt (length cells) p data i cbrk (Some temp) = Some (Out d' (cbrk - size_sum cells)) /\ done_cells cells i data cbrk d'.
Proof.
  revert addrs i data cbrk. induction cells as [|c cells IH]; intros addrs i data cbrk T.
  { exists data. cbn. rewrite Z.sub_0_r. split; [done|]. split; [apply T|done|done|constructor|done]. }
  destruct addrs as [|a addrs]; [by pose proof (td_cells _ _ _ _ _ _ T) as H%Forall2_length|].
  destruct (turn_start _ _ _ _ _ _ _ _ T) as (E1 & E2 & E3 & E4 & Ha1 & Ha2 & d1 & E5 & Hd1 & Hl1 & Hh1 & Ho1). cbn [length defragment_cells]. rewrite E1. cbn [mbind option_bind]. fold first_cell. rewrite E2. change (default (get data) (Some temp)) with temp. rewrite E3. cbn [mbind option_bind]. rewrite E4, E5. cbn [mbind option_bind].
  pose proof T as [T1 T2 T3 T4 _ T6 _ T8 T9]. apply Forall_cons in T1 as [Tv _]. apply Forall2_cons in T9 as [Tc Tcs]. rewrite size_sum_cons in *. pose proof (size_sum_nonneg cells). cbn [length] in T2. pose proof (lenz_nonneg c).
  destruct (turn_copy a c i data cbrk d1 temp) as (d2 & -> & Hd2 & Hl2 & Hh2 & Hc2 & Ho2); [done|done|done|done|lia|lia|apply Tv|done|lia|]. cbn [mbind option_bind].
  destruct (IH addrs (i + 1) d2 (cbrk - lenz c)) as (d' & E & D); [|].
  - apply (turn_todo a addrs c cells i data cbrk temp); [done|done|done| |done|done]. intros j Hj. rewrite Ho2, Ho1 by lia. done.
  - exists d'. rewrite E. split; [do 2 f_equal; lia|]. apply (turn_done a addrs c cells i data cbrk temp d2); [done|done|done|done|done|]. intros j Hj1 Hj2. rewrite Ho2, Ho1 by lia. done.
Qed.

(** Until the buffer is used, the cells are where they go. *)
Lemma defragment_cells_spec cells addrs i data cbrk :
  todo addrs cells i data cbrk (get data) -> has2 data (hdrOffset p + 5) top -> hdrOffset p + 8 <= cellOffset p -> (forall y, y ∈ blocks addrs cells -> y.1 + y.2 <= cbrk) -> apart (blocks addrs cells) ->
  exists d', defragment_cells pBt (length cells) p data i cbrk None = Some (Out d' (cbrk - size_sum cells)) /\ done_cells cells i data cbrk d'.
Proof.
  revert addrs i data cbrk. induction cells as [|c cells IH]; intros addrs i data cbrk T Ht Hoff Hend Hap.
  { exists data. cbn. rewrite Z.sub_0_r. split; [done|]. split; [apply T|done|done|constructor|done]. }
  destruct addrs as [|a addrs]; [by pose proof (td_cells _ _ _ _ _ _ T) as H%Forall2_length|].
  destruct (turn_start _ _ _ _ _ _ _ _ T) as (E1 & E2 & E3 & E4 & Ha1 & Ha2 & d1 & E5 & Hd1 & Hl1 & Hh1 & Ho1). cbn [length defragment_cells]. rewrite E1. cbn [mbind option_bind]. fold first_cell. rewrite E2. change (default (get data) None) with (get data). rewrite E3. cbn [mbind option_bind]. rewrite E4, E5. cbn [mbind option_bind].
  pose proof T as [T1 T2 T3 T4 _ T6 T7 T8 T9]. apply Forall_cons in T1 as [Tv _]. apply Forall2_cons in T9 as [Tc Tcs]. rewrite size_sum_cons in *. pose proof (size_sum_nonneg cells). cbn [length] in T2. pose proof (valid_size c Tv).
  pose proof T7 as T7'. apply Forall_cons in T7' as [_ T7']. assert (Hcells : forall rd, (forall j, top <= j < cbrk -> rd j = get data j) -> Forall2 (cell_at rd) addrs cells /\ cell_at rd a c).
  { intros rd Hrd. split.
    - apply Forall2_lookup. intros k. apply (Forall2_lookup _ _ _) with (i := k) in Tcs. destruct (addrs !! k) as [a'|] eqn:Ea, (cells !! k) as [c'|] eqn:Ec; inversion Tcs as [? ? Hat|]; [|constructor]. subst. constructor.
      pose proof (blocks_lookup _ _ _ _ _ Ea Ec) as Hin. apply (cell_at_ext (get data)); [|done]. intros j Hj. apply Hrd. pose proof (proj1 (Forall_forall _ _) T7' _ Hin) as (? & ? & ?). pose proof (Hend _ ltac:(right; exact Hin)). cbn in *. lia.
    - apply (cell_at_ext (get data)); [|done]. intros j Hj. apply Hrd. pose proof (Hend (a, lenz c) ltac:(by left)) as He. cbn in He. lia. }
  destruct (Z.eqb_spec (cbrk - lenz c) a) as [Ea|Ea].
  - destruct (Hcells (get d1)) as [Hcs Hc]; [intros j Hj; apply Ho1; lia|]. destruct (IH addrs (i + 1) d1 (cbrk - lenz c)) as (d' & E & D).
    + apply (turn_todo a addrs c cells i data cbrk (get data)); [done|done|done| |by apply page_reader|done]. intros j Hj. apply Ho1. lia.
    + apply (has2_out data); [apply Ho1; lia..|done].
    + done.
    + intros y Hy. destruct Hap as [Hap _]. pose proof (proj1 (Forall_forall _ _) Hap y Hy) as D. pose proof (Hend y ltac:(right; exact Hy)). pose proof (proj1 (Forall_forall _ _) T7' y Hy) as (? & ? & ?). unfold disj in D. cbn in D. lia.
    + apply Hap.
    + exists d'. rewrite E. split; [do 2 f_equal; lia|]. apply (turn_done a addrs c cells i data cbrk (get data) d1); [done|done|done|done|by rewrite Ea|]. intros j Hj1 Hj2. apply Ho1. lia.
  - assert (Ht1 : get2byte (get d1) (hdrOffset p + 5) = Some top) by (apply (has2_out data); [apply Ho1; lia..|done]). rewrite Ht1. cbn [mbind option_bind]. replace (cbrk - lenz c + lenz c) with cbrk by lia.
    unfold temp_space. pose proof (Hend (a, lenz c) ltac:(by left)) as He. cbn [fst snd] in He. rewrite (proj2 (Z.leb_le 0 top)), (proj2 (Z.leb_le top cbrk)), (proj2 (Z.leb_le cbrk (lenz d1))) by lia. cbn [andb mbind option_bind].
    set (temp := fun b => if (top <=? b) && (b <? cbrk) then get d1 b else None). assert (Htemp : byte_reader temp) by (intros x b; unfold temp; destruct (_ && _); [apply (page_reader d1 Hd1)|done]).
    destruct (Hcells temp) as [Hcs Hc]; [intros j Hj; unfold temp; rewrite (proj2 (Z.leb_le top j)), (proj2 (Z.ltb_lt j cbrk)) by lia; apply Ho1; lia|].
    destruct (turn_copy a c i data cbrk d1 temp) as (d2 & -> & Hd2 & Hl2 & Hh2 & Hc2 & Ho2); [done|done|done|done|lia|lia|apply Tv|done|lia|]. cbn [mbind option_bind].
    destruct (defragment_cells_temp cells addrs (i + 1) d2 (cbrk - lenz c) temp) as (d' & E & D).
    + apply (turn_todo a addrs c cells i data cbrk (get data)); [done|done|done| |done|done]. intros j Hj. rewrite Ho2, Ho1 by lia. done.
    + exists d'. rewrite E. split; [do 2 f_equal; lia|]. apply (turn_done a addrs c cells i data cbrk (get data) d2); [done|done|done|done|done|]. intros j Hj1 Hj2. rewrite Ho2, Ho1 by lia. done.
Qed.
End slow.

(** What all the operations on a page leave alone. *)
Definition kept (p : MemPage) (d' : bytes) : Prop := forall i, i <= hdrOffset p \/ usableSize pBt <= i -> get d' i = get (aData p) i.

Lemma put2_top d a v : page_bytes d -> 0 <= a -> a + 2 <= lenz d -> 0 <= v <= 65536 -> exists d', put2byte d a v = Some d' /\ has2 d' a (v mod 65536) /\ exists x, lenz x = 2 /\ wrote d a x d'.
Proof.
  intros Hd Ha Hl Hv. destruct (put2_spec d a (v mod 65536)) as (d' & E & H); [done|done|done|apply Z.mod_pos_bound; lia|]. exists d'. split; [|done]. rewrite <- E. destruct (Z.eq_dec v 65536) as [->|]; [done|]. by rewrite (Z.mod_small v) by lia.
Qed.

Lemma defragment_out_spec p addrs cells fs top frag d addrs' cbrk frag' :
  page_state p addrs cells fs top frag -> moved p d addrs' cells cbrk frag' -> top <= cbrk ->
  let first_cell := cellOffset p + 2 * nCell p in
  0 <= nFree p /\ frag' + cbrk - first_cell = nFree p /\
  exists d1 d2 d3 d4, put2byte d (hdrOffset p + 5) cbrk = Some d1 /\ poke d1 (hdrOffset p + 1) [0] = Some d2 /\ poke d2 (hdrOffset p + 2) [0] = Some d3 /\ memset0 d3 first_cell (cbrk - first_cell) = Some d4 /\
    page_state (with_data p d4) addrs' cells [] cbrk frag' /\ kept p d4.
Proof.
  intros S M Hc first_cell. pose proof (ps_space _ _ _ _ _ _ S) as Sp. pose proof Sp as [Hh Hbytes Hlen Hu Htop Hfrag Hl Hlow L]. pose proof (ps_gap _ _ _ _ _ _ S) as Hgap. destruct (ps_off _ _ _ _ _ _ S) as [Hoff1 Hoff]. destruct M as [M1 M2 M3 M4 M5 M6 M7 [M8 M9] M10].
  destruct (page_length _ _ _ _ _ _ S) as [Hlc Hn]. pose proof (Forall2_length _ _ _ M4) as Hlc'. pose proof (ps_nfree _ _ _ _ _ _ S) as Hfree. rewrite (blocks_total addrs) in Hfree by done. rewrite (blocks_total addrs') in M7 by done.
  fold first_cell in Hgap, Hfree. pose proof (size_sum_nonneg cells). split; [lia|]. split; [lia|].
  destruct (put2_top d (hdrOffset p + 5) cbrk) as (d1 & E1 & H1 & x1 & Lx1 & W1); [done|lia|lia|lia|]. destruct (poke_wrote d1 (hdrOffset p + 1) [0]) as (d2 & E2 & W2); [apply W1|by constructor|lia|rewrite (w_len _ _ _ _ W1); change (lenz [_]) with 1; lia|].
  destruct (poke_wrote d2 (hdrOffset p + 2) [0]) as (d3 & E3 & W3); [apply W2|by constructor|lia|rewrite (w_len _ _ _ _ W2), (w_len _ _ _ _ W1); change (lenz [_]) with 1; lia|]. assert (Hl3 : lenz d3 = lenz d) by by rewrite (w_len _ _ _ _ W3), (w_len _ _ _ _ W2), (w_len _ _ _ _ W1).
  destruct (memset0_spec d3 first_cell (cbrk - first_cell)) as (d4 & x4 & E4 & W4 & Lx4); [apply W3|lia|lia|lia|]. exists d1, d2, d3, d4. do 4 (split; [done|]).
  assert (Ho : forall i, ~ hdrOffset p + 1 <= i < hdrOffset p + 3 -> ~ hdrOffset p + 5 <= i < hdrOffset p + 7 -> ~ first_cell <= i < cbrk -> get d4 i = get d i).
  { intros i ? ? ?. rewrite (w_out _ _ _ _ W4), (w_out _ _ _ _ W3), (w_out _ _ _ _ W2), (w_out _ _ _ _ W1) by (change (lenz [0]) with 1; lia). done. }
  assert (G1 : get d4 (hdrOffset p + 1) = Some 0) by (rewrite (w_out _ _ _ _ W4), (w_out _ _ _ _ W3), (w_in _ _ _ _ W2) by (change (lenz [0]) with 1; lia); by rewrite Z.sub_diag).
  assert (G2 : get d4 (hdrOffset p + 2) = Some 0) by (rewrite (w_out _ _ _ _ W4), (w_in _ _ _ _ W3) by (change (lenz [0]) with 1; lia); by rewrite Z.sub_diag).
  split; [split|].
  - change (space pBt (hdrOffset p) d4 (blocks addrs' cells) [] cbrk frag'). split; [done|apply W4|rewrite (w_len _ _ _ _ W4); lia|done| | | |lia|].
    + apply (has2_out d1); [| |done]; rewrite (w_out _ _ _ _ W4), (w_out _ _ _ _ W3), (w_out _ _ _ _ W2) by (change (lenz [0]) with 1; lia); done.
    + rewrite Ho by lia. done.
    + cbn [links]. unfold has2, get2byte. replace (hdrOffset p + 1 + 1) with (hdrOffset p + 2) by lia. by rewrite G1, G2.
    + split; [pose proof (lay_top _ _ _ _ _ L); lia|by rewrite app_nil_r|by rewrite app_nil_r|done|rewrite app_nil_r, (blocks_total addrs') by done; lia|done].
  - cbn. lia.
  - done.
  - apply S.
  - pose proof (ps_count _ _ _ _ _ _ S) as Hcount. apply (has2_out (aData p)); [cbn; rewrite Ho, M10 by lia; done..|done].
  - cbn. apply (pointers_ext d); [|done]. intros i Hi. apply Ho; [lia|lia|]. unfold lenz in Hi. lia.
  - cbn. apply Forall2_lookup. intros k. apply (Forall2_lookup _ _ _) with (i := k) in M4. destruct (addrs' !! k) as [a|] eqn:Ea, (cells !! k) as [c|] eqn:Ec; inversion M4 as [? ? Hat|]; [|constructor]. subst. constructor.
    apply (cell_at_ext (get d)); [|done]. intros i Hi. pose proof (proj1 (Forall_forall _ _) M5 _ (blocks_lookup _ _ _ _ _ Ea Ec)) as (? & ? & ?). cbn in *. apply Ho; lia.
  - apply S.
  - cbn. rewrite (blocks_total addrs') by done. fold first_cell. lia.
  - apply S.
  - intros i Hi. rewrite Ho by lia. apply M10. lia.
Qed.

Lemma slow_moved p addrs cells fs top frag :
  limits_ok pBt p -> page_state p addrs cells fs top frag ->
  exists d' d'' addrs' cbrk, defragment_cells pBt (Z.to_nat (nCell p)) p (aData p) 0 (usableSize pBt) None = Some (Out d' cbrk) /\ poke d' (hdrOffset p + 7) [0] = Some d'' /\ moved p d'' addrs' cells cbrk 0 /\ top <= cbrk.
Proof.
  intros Hlim S. pose proof (ps_space _ _ _ _ _ _ S) as Sp. pose proof Sp as [Hh Hbytes Hlen Hu Htop Hfrag Hl Hlow L]. pose proof (ps_gap _ _ _ _ _ _ S) as Hgap. destruct (ps_off _ _ _ _ _ _ S) as [Hoff1 Hoff].
  destruct (page_length _ _ _ _ _ _ S) as [Hlc Hn]. destruct (page_within _ _ _ _ _ _ S) as [Hw Ha]. pose proof (lay_top _ _ _ _ _ L) as Ht.
  assert (Hfit : size_sum cells <= usableSize pBt - top) by (rewrite <- (blocks_total addrs) by done; apply total_fits; [lia|done|done]). pose proof (size_sum_nonneg cells).
  assert (Hrun : exists d', defragment_cells pBt (length cells) p (aData p) 0 (usableSize pBt) None = Some (Out d' (usableSize pBt - size_sum cells)) /\ done_cells p cells 0 (aData p) (usableSize pBt) d').
  { destruct cells as [|c cells]; [exists (aData p); cbn; rewrite Z.sub_0_r; split; [done|]; by split|]. destruct addrs as [|a addrs]; [done|]. assert (Htop64 : top <= 65535) by (apply Forall_cons in Hw as [(? & ? & ?) _]; cbn in *; lia).
    rewrite Z.mod_small in Htop by lia. apply (defragment_cells_spec p top Hlim ltac:(lia) (c :: cells) (a :: addrs)); [|done|done| |done].
    - split; [apply S|pose proof (ps_ncell _ _ _ _ _ _ S); lia|done|done| |lia|done|by apply page_reader|apply S]. replace (cellOffset p + 0 * 2) with (cellOffset p) by lia. apply S.
    - intros y Hy. apply (proj1 (Forall_forall _ _) Hw y Hy). }
  destruct Hrun as (d' & E & [D1 D2 D3 D4 D5]). replace (cellOffset p + 0 * 2) with (cellOffset p) in * by lia.
  destruct (poke_wrote d' (hdrOffset p + 7) [0]) as (d'' & E2 & W); [done|by constructor|lia|change (lenz [_]) with 1; lia|]. exists d', d'', (packed (usableSize pBt) cells), (usableSize pBt - size_sum cells).
  rewrite (ps_ncell _ _ _ _ _ _ S), Nat2Z.id. split; [done|]. split; [done|]. split; [|lia].
  assert (H4 : forall c, c ∈ cells -> 4 <= lenz c) by (intros c Hc; apply (valid_size p Hlim); apply (proj1 (Forall_forall _ _) (ps_valid _ _ _ _ _ _ S) _ Hc)).
  destruct (packed_layout (usableSize pBt) (usableSize pBt) cells H4 ltac:(lia)) as [Pw Pa]. pose proof (packed_length (usableSize pBt) cells) as Hpl.
  assert (Ho : forall i, i <> hdrOffset p + 7 -> get d'' i = get d' i) by (intros i Hi; apply (w_out _ _ _ _ W); change (lenz [_]) with 1; lia). split.
  - apply W.
  - rewrite (w_len _ _ _ _ W). done.
  - apply (pointers_ext d'); [|done]. intros i Hi. apply Ho. lia.
  - apply Forall2_lookup. intros k. apply (Forall2_lookup _ _ _) with (i := k) in D4. destruct (packed (usableSize pBt) cells !! k) as [a|] eqn:Ea, (cells !! k) as [c|] eqn:Ec; inversion D4 as [? ? Hat|]; [|constructor]. subst. constructor.
    apply (cell_at_ext (get d')); [|done]. intros i Hi. apply Ho. pose proof (proj1 (Forall_forall _ _) Pw _ (blocks_lookup _ _ _ _ _ Ea Ec)) as (? & ? & ?). cbn in *. lia.
  - done.
  - done.
  - rewrite blocks_total by done. lia.
  - split; [|lia]. rewrite (w_in _ _ _ _ W) by (change (lenz [_]) with 1; lia). by rewrite Z.sub_diag.
  - intros i Hi. rewrite Ho by lia. apply D5; lia.
Qed.

(** Defragmenting a page: the cells are the same, and no free block is left. *)
Lemma defragmentPage_spec p addrs cells fs top frag nMax :
  limits_ok pBt p -> page_state p addrs cells fs top frag -> 0 <= nMax ->
  exists d' addrs' top' frag', defragmentPage pBt p nMax = Some (SQLITE_OK, with_data p d') /\ page_state (with_data p d') addrs' cells [] top' frag' /\ frag' <= nMax /\ kept p d'.
Proof.
  intros Hlim S Hmax. unfold defragmentPage. rewrite option_guard_True by apply S.
  assert (Hend : forall d addrs' cbrk frag', moved p d addrs' cells cbrk frag' -> top <= cbrk -> frag' <= nMax ->
    exists d' addrs'' top' frag'', (_ ← guard (0 <= nFree p); frag ← get d (hdrOffset p + 7); if negb (frag + cbrk - (cellOffset p + 2 * nCell p) =? nFree p) then Some (SQLITE_CORRUPT, with_data p d) else
      _ ← guard (cellOffset p + 2 * nCell p <= cbrk); data ← put2byte d (hdrOffset p + 5) cbrk; data ← poke data (hdrOffset p + 1) [0]; data ← poke data (hdrOffset p + 2) [0];
      data ← memset0 data (cellOffset p + 2 * nCell p) (cbrk - (cellOffset p + 2 * nCell p)); Some (SQLITE_OK, with_data p data)) = Some (SQLITE_OK, with_data p d') /\ page_state (with_data p d') addrs'' cells [] top' frag'' /\ frag'' <= nMax /\ kept p d').
  { intros d addrs' cbrk frag' M Hc Hf. destruct (defragment_out_spec _ _ _ _ _ _ _ _ _ _ S M Hc) as (F1 & F2 & d1 & d2 & d3 & d4 & E1 & E2 & E3 & E4 & S' & K). pose proof (ps_gap _ _ _ _ _ _ S).
    rewrite option_guard_True by done. rewrite (proj1 (mv_frag _ _ _ _ _ _ M)). cbn [mbind option_bind]. rewrite (proj2 (Z.eqb_eq _ _) F2). cbn [negb]. rewrite option_guard_True by lia. rewrite E1. cbn [mbind option_bind]. rewrite E2. cbn [mbind option_bind]. rewrite E3. cbn [mbind option_bind]. rewrite E4. cbn [mbind option_bind].
    by exists d4, addrs', cbrk, frag'. }
  destruct (defragment_fast_spec p addrs cells fs top frag nMax S) as [-> | (d' & addrs' & cbrk & -> & M & Hf & Hc)]; cbn [mbind option_bind].
  - destruct (slow_moved _ _ _ _ _ _ Hlim S) as (d' & d'' & addrs' & cbrk & -> & E & M & Hc). cbn [mbind option_bind]. rewrite E. cbn [mbind option_bind]. by apply (Hend _ addrs' _ 0).
  - by apply (Hend _ addrs' _ frag).
Qed.

(** ** Room for a cell *)

(** The space [(a, n)] and a pointer can be filled. *)
Record allocated (p : MemPage) (a n : Z) (d' : bytes) (addrs' : list Z) (cells : list bytes) (fs' : list block) (top' frag' : Z) : Prop := mkAllocated {
  al_space : space pBt (hdrOffset p) d' ((a, n) :: blocks addrs' cells) fs' top' frag';
  al_gap : cellOffset p + 2 * nCell p + 2 <= top';
  al_ptrs : pointers d' (cellOffset p) addrs';
  al_cells : Forall2 (cell_at (get d')) addrs' cells;
  al_count : has2 d' (hdrOffset p + 3) (nCell p);
  al_kept : kept p d' }.

Lemma cells_ext rd rd' addrs cells : (forall x i, x ∈ blocks addrs cells -> x.1 <= i < x.1 + x.2 -> rd' i = rd i) -> Forall2 (cell_at rd) addrs cells -> Forall2 (cell_at rd') addrs cells.
Proof.
  intros He Hc. apply Forall2_lookup. intros k. apply (Forall2_lookup _ _ _) with (i := k) in Hc. destruct (addrs !! k) as [a|] eqn:Ea, (cells !! k) as [c|] eqn:Ec; inversion Hc as [? ? Hat|]; [|constructor]. subst. constructor.
  apply (cell_at_ext rd); [|done]. intros i Hi. apply (He (a, lenz c)); [by apply (blocks_lookup _ _ k)|done].
Qed.

Lemma spared_allocated p addrs cells fs top frag a n d' fs' frag' :
  page_state p addrs cells fs top frag -> space pBt (hdrOffset p) d' ((a, n) :: blocks addrs cells) fs' top frag' -> spared pBt (hdrOffset p) (aData p) d' top (blocks addrs cells) -> cellOffset p + 2 * nCell p + 2 <= top ->
  allocated p a n d' addrs cells fs' top frag'.
Proof.
  intros S Sp He Hgap. destruct (ps_off _ _ _ _ _ _ S) as [_ Hoff]. destruct (page_length _ _ _ _ _ _ S) as [_ Hn]. split.
  - done.
  - done.
  - apply (pointers_ext (aData p)); [|apply S]. intros i Hi. apply He. unfold lenz in Hi. lia.
  - apply (cells_ext (get (aData p))); [|apply S]. intros x i Hx Hi. apply He. do 4 right. by exists x.
  - apply (has2_out (aData p)); [apply He; lia..|apply S].
  - intros i Hi. apply He. tauto.
Qed.

(** The end of [allocateSpace]. *)
Lemma gap_allocated p addrs cells fs top frag n :
  page_state p addrs cells fs top frag -> 4 <= n -> cellOffset p + 2 * nCell p + 2 + n <= top ->
  exists d', put2byte (aData p) (hdrOffset p + 5) (top - n) = Some d' /\ allocated p (top - n) n d' addrs cells fs (top - n) frag.
Proof.
  intros S Hn Hgap. pose proof (ps_space _ _ _ _ _ _ S) as Sp. pose proof Sp as [Hh Hbytes Hlen Hu Htop Hfrag Hl Hlow L]. destruct (ps_off _ _ _ _ _ _ S) as [_ Hoff]. destruct (page_length _ _ _ _ _ _ S) as [_ Hnc]. pose proof (lay_top _ _ _ _ _ L).
  destruct (put2_spec (aData p) (hdrOffset p + 5) (top - n)) as (d' & E & H' & x & Lx & W); [done|lia|lia|unfold in_u; change (2 ^ 16) with 65536; lia|]. exists d'. split; [done|].
  assert (Ho : forall i, ~ hdrOffset p + 5 <= i < hdrOffset p + 7 -> get d' i = get (aData p) i) by (intros i Hi; apply (w_out _ _ _ _ W); lia). split.
  - split; [done|apply W|rewrite (w_len _ _ _ _ W); lia|done| | | |lia|by apply alloc_gap; [|lia|lia]].
    + rewrite Z.mod_small by lia. done.
    + by rewrite Ho by lia.
    + apply (links_ext (aData p)); [|done]. intros i [Hi|(y & Hy & Hi)]; apply Ho; [lia|]. destruct (lay_block _ _ _ _ _ y L Hy). lia.
  - lia.
  - apply (pointers_ext (aData p)); [|apply S]. intros i Hi. apply Ho. lia.
  - apply (cells_ext (get (aData p))); [|apply S]. intros y i Hy Hi. apply Ho. destruct (lay_cell _ _ _ _ _ y L Hy) as (? & ? & ?). lia.
  - apply (has2_out (aData p)); [apply Ho; lia..|apply S].
  - intros i Hi. apply Ho. pose proof (sp_low _ _ _ _ _ _ _ Sp). lia.
Qed.

Lemma not_zero_top v : 0 < v <= 65536 -> Z.land (v mod 65536 - 1) 0xffff + 1 = v.
Proof.
  intros Hv. change 0xffff with (Z.ones 16). rewrite Z.land_ones by lia. change (2 ^ 16) with 65536. destruct (Z.eq_dec v 65536) as [->|]; [done|]. rewrite (Z.mod_small v), Z.mod_small by lia. lia.
Qed.

Lemma allocated_defrag p d a n d' addrs cells fs top frag : kept p d -> allocated (with_data p d) a n d' addrs cells fs top frag -> allocated p a n d' addrs cells fs top frag.
Proof. intros K [A1 A2 A3 A4 A5 A6]. split; [done..|]. intros i Hi. etransitivity; [by apply A6|]. by apply K. Qed.

Lemma allocateSpace_spec p addrs cells fs top frag n :
  limits_ok pBt p -> page_state p addrs cells fs top frag -> 4 <= n -> n + 2 <= nFree p -> n < usableSize pBt - 8 ->
  exists a d' addrs' fs' top' frag', allocateSpace pBt p n = Some (SQLITE_OK, a, with_data p d') /\ allocated p a n d' addrs' cells fs' top' frag'.
Proof.
  intros Hlim S Hn Hfree Hnu. pose proof (ps_space _ _ _ _ _ _ S) as Sp. pose proof Sp as [Hh Hbytes Hlen Hu Htop Hfrag Hl Hlow L]. destruct (ps_off _ _ _ _ _ _ S) as [Hoff1 Hoff]. destruct (page_length _ _ _ _ _ _ S) as [Hlc Hnc]. pose proof (lay_top _ _ _ _ _ L). pose proof (ps_gap _ _ _ _ _ _ S) as Hgap.
  unfold allocateSpace. set (gap := cellOffset p + 2 * nCell p) in *. rewrite option_guard_True by (split; [lia|]; split; [lia|]; split; [apply S|lia]). rewrite option_guard_True by done. rewrite option_guard_True by lia. rewrite Htop. cbn [mbind option_bind].
  assert (Hm : top mod 65536 <= usableSize pBt) by (destruct (Z.eq_dec top 65536) as [->|]; [change (65536 mod 65536) with 0; lia|rewrite Z.mod_small by lia; lia]). rewrite option_guard_True by done.
  assert (Hc : (top mod 65536 <? gap) && negb ((top mod 65536 =? 0) && (usableSize pBt =? 65536)) = false /\ (if top mod 65536 <? gap then 65536 else top mod 65536) = top).
  { destruct (Z.eq_dec top 65536) as [->|]; [change (65536 mod 65536) with 0; rewrite (proj2 (Z.ltb_lt 0 gap)) by lia; replace (usableSize pBt) with 65536 by lia; done|]. rewrite Z.mod_small by lia. by rewrite (proj2 (Z.ltb_ge top gap)) by lia. }
  destruct Hc as [-> ->]. pose proof (links_first _ _ _ Hl) as Hf. destruct (has2_bytes _ _ _ Hbytes Hf) as (b0 & b1 & E0 & E1 & R0 & R1 & Ev). replace (hdrOffset p + 1 + 1) with (hdrOffset p + 2) in E1 by lia. rewrite E1, E0. cbn [mbind option_bind].
  assert (Hslot : (if (negb (b1 =? 0) || negb (b0 =? 0)) && (gap + 2 <=? top) then pageFindSlot pBt p n else Some (SQLITE_OK, None, p)) = Some (SQLITE_OK, None, p) \/
    exists a d' fs' frag', (if (negb (b1 =? 0) || negb (b0 =? 0)) && (gap + 2 <=? top) then pageFindSlot pBt p n else Some (SQLITE_OK, None, p)) = Some (SQLITE_OK, Some a, with_data p d') /\ allocated p a n d' addrs cells fs' top frag').
  { destruct (negb (b1 =? 0) || negb (b0 =? 0)) eqn:Ez; [|by left]. destruct (Z.leb_spec (gap + 2) top); [|by left]. cbn [andb]. assert (fs <> []) by (intros ->; cbn in Ev; unfold is_byte in *; lia).
    destruct (pageFindSlot_spec pBt p n _ _ _ _ Sp) as [E|(a & d' & fs' & frag' & E & S' & Spd)]; [done|done|lia|by left|right]. exists a, d', fs', frag'. split; [done|]. by apply (spared_allocated _ _ _ _ _ _ _ _ _ _ _ S). }
  destruct Hslot as [-> | (a & d' & fs' & frag' & -> & A)]; go_on; [|by exists a, d', addrs, fs', top, frag'].
  destruct (Z.ltb_spec top (gap + 2 + n)) as [Hlt|Hge].
  - rewrite option_guard_True by lia. destruct (defragmentPage_spec p addrs cells fs top frag (Z.min 4 (nFree p - (2 + n))) Hlim S) as (d1 & addrs1 & top1 & frag1 & -> & S1 & Hf1 & K1); [lia|]. go_on.
    pose proof (ps_space _ _ _ _ _ _ S1) as Sp1. pose proof (sp_layout _ _ _ _ _ _ _ Sp1) as L1. pose proof (lay_sum _ _ _ _ _ L1) as Hs1. rewrite app_nil_r in Hs1. pose proof (ps_nfree _ _ _ _ _ _ S1) as Hn1. pose proof (lay_top _ _ _ _ _ L1). change (nFree p = usableSize pBt - gap - total (blocks addrs1 cells)) in Hn1.
    unfold get2byteNotZero. pose proof (sp_top _ _ _ _ _ _ _ Sp1) as Ht1. unfold has2 in Ht1. change (hdrOffset (with_data p d1)) with (hdrOffset p) in Ht1. rewrite Ht1. cbn [mbind option_bind]. rewrite not_zero_top by lia. rewrite option_guard_True by lia. go_on.
    destruct (gap_allocated _ _ _ _ _ _ n S1 Hn) as (d' & E & A); [change (gap + 2 + n <= top1); lia|]. change (hdrOffset (with_data p d1)) with (hdrOffset p) in E. rewrite E. cbn [mbind option_bind]. rewrite option_guard_True by lia.
    exists (top1 - n), d', addrs1, [], (top1 - n), frag1. split; [done|]. by apply (allocated_defrag _ d1).
  - go_on. destruct (gap_allocated _ _ _ _ _ _ n S Hn Hge) as (d' & -> & A). cbn [mbind option_bind]. rewrite option_guard_True by lia. by exists (top - n), d', addrs, fs, (top - n), frag.
Qed.

End defrag.
