(* ===== verification/BtreeRefinement.v ===== *)
(** A b-tree page as a list of cells: [dropCell] and [insertCell] of [BtreePage], and pages
    that are read again. *)
From S2P Require Import Prelude Varint VarintSpec Disk DiskSpec BtreeCell BtreePage BtreePageSpec BtreeDefrag.

(** ** Pointers and blocks *)

Lemma pointers_lookup d a l : pointers d a l <-> forall k x, l !! k = Some x -> has2 d (a + 2 * Z.of_nat k) x.
Proof.
  revert a. induction l as [|y l IH]; intros a; cbn [pointers]; [split; [intros _ k x; by rewrite lookup_nil|done]|]. rewrite IH. split.
  - intros [H1 H2] [|k] x; cbn [lookup list_lookup]; [intros [= <-]; by rewrite Z.add_0_r|]. intros Hx. replace (a + 2 * Z.of_nat (S k)) with (a + 2 + 2 * Z.of_nat k) by lia. by apply H2.
  - intros H. split; [specialize (H 0%nat y eq_refl); by rewrite Z.add_0_r in H|]. intros k x Hx. replace (a + 2 + 2 * Z.of_nat k) with (a + 2 * Z.of_nat (S k)) by lia. by apply H.
Qed.

Definition insert_at {A} (i : nat) (x : A) (l : list A) : list A := take i l ++ x :: drop i l.

Lemma insert_at_length {A} i (x : A) l : length (insert_at i x l) = S (length l).
Proof. unfold insert_at. rewrite length_app, length_take. cbn. rewrite length_drop. lia. Qed.

Lemma insert_at_lookup {A} i (x : A) l k y : (i <= length l)%nat -> insert_at i x l !! k = Some y -> (k < i /\ l !! k = Some y)%nat \/ (k = i /\ y = x) \/ exists j, k = S j /\ (i <= j)%nat /\ l !! j = Some y.
Proof.
  intros Hi H. unfold insert_at in H. destruct (decide (k < i)%nat).
  - rewrite lookup_app_l in H by (rewrite length_take; lia). rewrite lookup_take_lt in H by lia. by left.
  - rewrite lookup_app_r in H by (rewrite length_take; lia). rewrite length_take, Nat.min_l in H by lia. right. destruct (decide (k = i)) as [->|].
    + rewrite Nat.sub_diag in H. injection H as <-. by left.
    + replace (k - i)%nat with (S (k - i - 1)) in H by lia. change (drop i l !! (k - i - 1)%nat = Some y) in H. rewrite lookup_drop in H. right. exists (k - 1)%nat. split; [lia|]. split; [lia|]. rewrite <- H. f_equal. lia.
Qed.

Lemma insert_at_perm {A} i (x : A) l : insert_at i x l ≡ₚ x :: l.
Proof. unfold insert_at. rewrite <- Permutation_middle. by rewrite take_drop. Qed.

Lemma blocks_insert i a c addrs cells : length addrs = length cells -> blocks (insert_at i a addrs) (insert_at i c cells) = insert_at i (a, lenz c) (blocks addrs cells).
Proof.
  unfold blocks, insert_at. intros Hl. rewrite fmap_app, fmap_cons, fmap_take, fmap_drop. rewrite zip_with_app by (rewrite !length_take, length_fmap; lia). cbn [zip_with]. by rewrite zip_with_take, zip_with_drop.
Qed.

Lemma blocks_delete i a c addrs cells : addrs !! i = Some a -> cells !! i = Some c -> blocks addrs cells ≡ₚ (a, lenz c) :: blocks (delete i addrs) (delete i cells).
Proof.
  revert i cells. unfold blocks. induction addrs as [|x l IH]; intros i [|y cells] Ha Hc; [by rewrite lookup_nil in Ha|by rewrite lookup_nil in Ha|by rewrite lookup_nil in Hc|]. destruct i as [|i]; cbn in Ha, Hc |- *.
  - injection Ha as ->. by injection Hc as ->.
  - rewrite (IH i cells) by done. apply perm_swap.
Qed.

Lemma Forall2_delete {A B} (R : A -> B -> Prop) l k i : Forall2 R l k -> Forall2 R (delete i l) (delete i k).
Proof. intros H. revert i. induction H as [|x y l k Hxy H IH]; intros [|i]; [done..|]. cbn. constructor; [done|apply IH]. Qed.

Lemma Forall2_insert_at {A B} (R : A -> B -> Prop) i x y l k : Forall2 R l k -> R x y -> Forall2 R (insert_at i x l) (insert_at i y k).
Proof. intros H Hxy. apply Forall2_app; [by apply Forall2_take|]. constructor; [done|by apply Forall2_drop]. Qed.

(** The pointers behind a place are moved. *)
Lemma pointers_delete d d' a l i n :
  pointers d a l -> n = Z.of_nat (length l) -> (i < length l)%nat -> (forall k, 0 <= k < 2 * (n - 1 - Z.of_nat i) -> get d' (a + 2 * Z.of_nat i + k) = get d (a + 2 * Z.of_nat i + 2 + k)) ->
  (forall j, a <= j < a + 2 * Z.of_nat i -> get d' j = get d j) -> pointers d' a (delete i l).
Proof.
  intros H -> Hi Hm Ho. apply pointers_lookup. intros k x. rewrite list_lookup_delete. destruct (decide (k < i)%nat).
  - intros Hx. apply (has2_out d); [apply Ho; lia..|]. by apply (proj1 (pointers_lookup _ _ _) H).
  - intros Hx. pose proof (lookup_lt_Some _ _ _ Hx). pose proof (proj1 (pointers_lookup _ _ _) H _ _ Hx) as Hh. unfold has2, get2byte in *.
    pose proof (Hm (2 * (Z.of_nat k - Z.of_nat i)) ltac:(lia)) as M0. pose proof (Hm (2 * (Z.of_nat k - Z.of_nat i) + 1) ltac:(lia)) as M1.
    replace (a + 2 * Z.of_nat i + 2 * (Z.of_nat k - Z.of_nat i)) with (a + 2 * Z.of_nat k) in M0 by lia. replace (a + 2 * Z.of_nat i + 2 + 2 * (Z.of_nat k - Z.of_nat i)) with (a + 2 * Z.of_nat (S k)) in M0 by lia.
    replace (a + 2 * Z.of_nat i + (2 * (Z.of_nat k - Z.of_nat i) + 1)) with (a + 2 * Z.of_nat k + 1) in M1 by lia. replace (a + 2 * Z.of_nat i + 2 + (2 * (Z.of_nat k - Z.of_nat i) + 1)) with (a + 2 * Z.of_nat (S k) + 1) in M1 by lia.
    by rewrite M0, M1.
Qed.

Lemma pointers_insert d d' a l i x n :
  pointers d a l -> n = Z.of_nat (length l) -> (i <= length l)%nat -> (forall k, 0 <= k < 2 * (n - Z.of_nat i) -> get d' (a + 2 * Z.of_nat i + 2 + k) = get d (a + 2 * Z.of_nat i + k)) -> has2 d' (a + 2 * Z.of_nat i) x ->
  (forall j, a <= j < a + 2 * Z.of_nat i -> get d' j = get d j) -> pointers d' a (insert_at i x l).
Proof.
  intros H -> Hi Hm Hx Ho. apply pointers_lookup. intros k y Hy. apply insert_at_lookup in Hy as [[Hk Hy]|[[-> ->]|(j & -> & Hj & Hy)]]; [|done| |done].
  - apply (has2_out d); [apply Ho; lia..|]. by apply (proj1 (pointers_lookup _ _ _) H).
  - pose proof (lookup_lt_Some _ _ _ Hy). pose proof (proj1 (pointers_lookup _ _ _) H _ _ Hy) as Hh. unfold has2, get2byte in *.
    pose proof (Hm (2 * (Z.of_nat j - Z.of_nat i)) ltac:(lia)) as M0. pose proof (Hm (2 * (Z.of_nat j - Z.of_nat i) + 1) ltac:(lia)) as M1.
    replace (a + 2 * Z.of_nat i + (2 * (Z.of_nat j - Z.of_nat i))) with (a + 2 * Z.of_nat j) in M0 by lia. replace (a + 2 * Z.of_nat i + 2 + (2 * (Z.of_nat j - Z.of_nat i))) with (a + 2 * Z.of_nat (S j)) in M0 by lia.
    replace (a + 2 * Z.of_nat i + (2 * (Z.of_nat j - Z.of_nat i) + 1)) with (a + 2 * Z.of_nat j + 1) in M1 by lia. replace (a + 2 * Z.of_nat i + 2 + (2 * (Z.of_nat j - Z.of_nat i) + 1)) with (a + 2 * Z.of_nat (S j) + 1) in M1 by lia.
    by rewrite M0, M1.
Qed.

(** A two-byte counter. *)
Lemma count_up d a v : page_bytes d -> has2 d a v -> v + 1 < 65536 ->
  exists lo d1 d', get d (a + 1) = Some lo /\ poke d (a + 1) [wrap_u 8 (lo + 1)] = Some d1 /\ (if wrap_u 8 (lo + 1) =? 0 then hi ← get d1 a; poke d1 a [wrap_u 8 (hi + 1)] else Some d1) = Some d' /\
    page_bytes d' /\ lenz d' = lenz d /\ has2 d' a (v + 1) /\ forall i, ~ a <= i < a + 2 -> get d' i = get d i.
Proof.
  intros Hd Hv Hv2. destruct (has2_bytes _ _ _ Hd Hv) as (hi & lo & E0 & E1 & R0 & R1 & Ev). pose proof (get_Some _ _ _ E0). pose proof (get_Some _ _ _ E1).
  destruct (poke_wrote d (a + 1) [wrap_u 8 (lo + 1)]) as (d1 & Ep & W1); [done|constructor; [apply wrap_byte|done]|lia|change (lenz [_]) with 1; lia|]. exists lo, d1.
  assert (G0 : get d1 a = Some hi) by (rewrite (w_out _ _ _ _ W1) by lia; done). assert (G1 : get d1 (a + 1) = Some (wrap_u 8 (lo + 1))) by (rewrite (w_in _ _ _ _ W1) by (change (lenz [_]) with 1; lia); by rewrite Z.sub_diag).
  unfold is_byte in *. unfold wrap_u in *. change (2 ^ 8) with 256 in *. destruct (Z.eqb_spec ((lo + 1) mod 256) 0) as [Ez|Ez].
  - assert (lo = 255) as -> by (destruct (Z.eq_dec lo 255); [done|]; rewrite Z.mod_small in Ez; lia). rewrite G0. cbn [mbind option_bind].
    destruct (poke_wrote d1 a [(hi + 1) mod 256]) as (d' & Ep' & W2); [apply W1|constructor; [apply (wrap_byte (hi + 1))|done]|lia|rewrite (w_len _ _ _ _ W1); change (lenz [_]) with 1; lia|].
    exists d'. do 3 (split; [done|]). split; [apply W2|]. split; [by rewrite (w_len _ _ _ _ W2), (w_len _ _ _ _ W1)|]. split.
    + unfold has2, get2byte. rewrite (w_in _ _ _ _ W2 a), (w_out _ _ _ _ W2 (a + 1)), G1, Z.sub_diag by (change (lenz [_]) with 1; lia). change (get [?x] 0) with (Some x). cbn [mbind option_bind]. f_equal. rewrite Z.shiftl_mul_pow2 by lia. change ((255 + 1) mod 256) with 0. rewrite Z.lor_0_r, Z.mod_small by lia. lia.
    + intros i Hi. rewrite (w_out _ _ _ _ W2), (w_out _ _ _ _ W1) by (change (lenz [_]) with 1; lia). done.
  - exists d1. do 3 (split; [done|]). split; [apply W1|]. split; [apply W1|]. split; [|intros i Hi; apply (w_out _ _ _ _ W1); change (lenz [_]) with 1; lia].
    unfold has2, get2byte. rewrite G0, G1. cbn [mbind option_bind]. f_equal. assert (lo <> 255) by (intros ->; done). rewrite (Z.mod_small (lo + 1)) by lia. rewrite Z.shiftl_mul_pow2 by lia. rewrite (lor_disjoint 8) by (change (2 ^ 8) with 256; lia). lia.
Qed.

Lemma memset0_zeros d a n : page_bytes d -> 0 <= n -> 0 <= a -> a + n <= lenz d -> exists d', memset0 d a n = Some d' /\ wrote d a (zeros n) d'.
Proof.
  intros Hd Hn Ha Hl. unfold memset0. rewrite (proj2 (Z.ltb_ge n 0)) by lia. apply poke_wrote; [done|apply Forall_replicate; done|done|rewrite lenz_zeros; lia].
Qed.

Section refinement.
Context (pBt : BtShared).

(** [p] with other contents, and the fields that count them. *)
Definition update (p : MemPage) (d : bytes) (n f : Z) : MemPage := with_nFree (with_nCell (with_data p d) n) f.

Lemma space_perm hdr d used used' fs top frag : used ≡ₚ used' -> space pBt hdr d used fs top frag -> space pBt hdr d used' fs top frag.
Proof. intros Hp [S1 S2 S3 S4 S5 S6 S7 S8 S9]. split; [done..|]. by apply (layout_perm _ _ used). Qed.

(** ** Removing a cell *)

Lemma freed_cell p addrs cells fs top frag i a c :
  page_state pBt p addrs cells fs top frag -> addrs !! i = Some a -> cells !! i = Some c ->
  exists d' fs' top' frag', freeSpace pBt p a (lenz c) = Some (SQLITE_OK, with_nFree (with_data p d') (nFree p + lenz c)) /\
    space pBt (hdrOffset p) d' (blocks (delete i addrs) (delete i cells)) fs' top' frag' /\ top <= top' /\
    pointers d' (cellOffset p) addrs /\ Forall2 (cell_at (get d')) (delete i addrs) (delete i cells) /\ kept pBt p d' /\ a + lenz c <= usableSize pBt /\ 0 <= a.
Proof.
  intros S Ha Hc. pose proof (blocks_delete i a c addrs cells Ha Hc) as Hp. pose proof (space_perm _ _ _ _ _ _ _ Hp (ps_space _ _ _ _ _ _ _ S)) as Sp.
  destruct (freeSpace_spec pBt p a (lenz c) _ fs top frag Sp) as (d' & fs' & top' & frag' & E & S' & Ht & He). exists d', fs', top', frag'. split; [done|]. split; [done|]. split; [done|].
  pose proof (sp_layout _ _ _ _ _ _ _ Sp) as L. destruct (lay_cell _ _ _ _ _ _ L ltac:(by left)) as (C1 & C2 & C3). cbn [fst snd] in *. pose proof (sp_low _ _ _ _ _ _ _ Sp). pose proof (sp_hdr _ _ _ _ _ _ _ Sp).
  destruct (page_length _ _ _ _ _ _ _ S) as [_ Hn]. destruct (ps_off _ _ _ _ _ _ _ S) as [_ Hoff]. pose proof (ps_gap _ _ _ _ _ _ _ S). split; [|split; [|split; [|lia]]].
  - apply (pointers_ext (aData p)); [|apply S]. intros j Hj. apply He. unfold lenz in Hj. lia.
  - apply (cells_ext (get (aData p))); [|apply Forall2_delete, S]. intros x j Hx Hj. apply He. do 4 right. by exists x.
  - intros j Hj. apply He. tauto.
Qed.

Lemma list_delete_nil {A} i (l : list A) : (i < length l)%nat -> length l = 1%nat -> delete i l = [].
Proof. destruct l as [|x [|y l]]; [done| |done]. intros Hi _. by destruct i as [|i]; [|cbn in Hi; lia]. Qed.

(** The page is empty: its header is reset. *)
Lemma reset_spec p d1 : page_kind p -> page_bytes d1 -> 480 <= usableSize pBt <= 65536 -> usableSize pBt <= lenz d1 -> 0 <= hdrOffset p -> cellOffset p = hdrOffset p + 12 - 4 * leaf p -> cellOffset p <= usableSize pBt -> aOvfl p = [] ->
  exists d2 d3 d4, memset0 d1 (hdrOffset p + 1) 4 = Some d2 /\ poke d2 (hdrOffset p + 7) [0] = Some d3 /\ put2byte d3 (hdrOffset p + 5) (usableSize pBt) = Some d4 /\
    page_state pBt (update p d4 0 (usableSize pBt - hdrOffset p - childPtrSize p - 8)) [] [] [] (usableSize pBt) 0 /\ forall j, j <= hdrOffset p \/ hdrOffset p + 8 <= j -> get d4 j = get d1 j.
Proof.
  intros (K0 & K1 & _) Hd Hu Hl Hh Hoff Hfit Hov. destruct (memset0_zeros d1 (hdrOffset p + 1) 4) as (d2 & E2 & W2); [done|lia|lia|lia|].
  destruct (poke_wrote d2 (hdrOffset p + 7) [0]) as (d3 & E3 & W3); [apply W2|by constructor|lia|rewrite (w_len _ _ _ _ W2); change (lenz [_]) with 1; lia|].
  destruct (put2_top d3 (hdrOffset p + 5) (usableSize pBt)) as (d4 & E4 & H4 & x & Lx & W4); [apply W3|lia|rewrite (w_len _ _ _ _ W3), (w_len _ _ _ _ W2); lia|lia|]. exists d2, d3, d4. do 3 (split; [done|]).
  change (lenz (zeros 4)) with 4 in W2. assert (Hz : forall j, hdrOffset p + 1 <= j < hdrOffset p + 5 -> get d4 j = Some 0).
  { intros j Hj. rewrite (w_out _ _ _ _ W4), (w_out _ _ _ _ W3), (w_in _ _ _ _ W2) by (change (lenz [_]) with 1; change (lenz (zeros 4)) with 4; lia).
    assert (j - (hdrOffset p + 1) = 0 \/ j - (hdrOffset p + 1) = 1 \/ j - (hdrOffset p + 1) = 2 \/ j - (hdrOffset p + 1) = 3) as [-> |[-> |[-> | ->]]] by lia; done. }
  assert (Hz2 : forall j, j = hdrOffset p + 1 \/ j = hdrOffset p + 3 -> has2 d4 j 0) by (intros j Hj; unfold has2, get2byte; by rewrite !Hz by lia). split.
  - split; [|cbn; lia|cbn; lia|done|apply Hz2; by right|done|constructor|constructor|cbn; lia|done].
    change (space pBt (hdrOffset p) d4 [] [] (usableSize pBt) 0). split; [done|apply W4|rewrite (w_len _ _ _ _ W4), (w_len _ _ _ _ W3), (w_len _ _ _ _ W2); lia|lia|done| |apply Hz2; by left|lia|].
    + rewrite (w_out _ _ _ _ W4), (w_in _ _ _ _ W3) by (change (lenz [_]) with 1; lia). by rewrite Z.sub_diag.
    + split; [lia|done..|cbn; lia|lia].
  - intros j Hj. rewrite (w_out _ _ _ _ W4), (w_out _ _ _ _ W3), (w_out _ _ _ _ W2) by (change (lenz [_]) with 1; change (lenz (zeros 4)) with 4; lia). done.
Qed.

(** Else the pointer is removed from the array. *)
Lemma remove_pointer p d1 addrs cells fs1 top1 frag1 i n f :
  page_bytes d1 -> space pBt (hdrOffset p) d1 (blocks (delete i addrs) (delete i cells)) fs1 top1 frag1 -> pointers d1 (cellOffset p) addrs -> Forall2 (cell_at (get d1)) (delete i addrs) (delete i cells) -> Forall (valid pBt p) (delete i cells) ->
  (i < length addrs)%nat -> length addrs = length cells -> n = Z.of_nat (length addrs) - 1 -> cellOffset p = hdrOffset p + 12 - 4 * leaf p /\ hdrOffset p + 8 <= cellOffset p -> cellOffset p + 2 * (n + 1) <= top1 ->
  f = usableSize pBt - (cellOffset p + 2 * n) - size_sum (delete i cells) -> aOvfl p = [] ->
  exists d2 d3, memmove d1 (cellOffset p + 2 * Z.of_nat i) (get d1) (cellOffset p + 2 * Z.of_nat i + 2) (2 * (n - Z.of_nat i)) = Some d2 /\ put2byte d2 (hdrOffset p + 3) n = Some d3 /\
    page_state pBt (update p d3 n f) (delete i addrs) (delete i cells) fs1 top1 frag1 /\ forall j, j <= hdrOffset p \/ top1 <= j -> get d3 j = get d1 j.
Proof.
  intros Hd Sp Hp Hc Hv Hi Hlc -> Hoff Hgap -> Hov. set (n := Z.of_nat (length addrs) - 1) in *. pose proof Sp as [Hh _ Hlen Hu Htop Hfrag Hl Hlow L]. pose proof (lay_top _ _ _ _ _ L).
  destruct (memmove_spec d1 (cellOffset p + 2 * Z.of_nat i) (get d1) (cellOffset p + 2 * Z.of_nat i + 2) (2 * (n - Z.of_nat i))) as (d2 & x2 & E2 & W2 & Lx2 & Hm); [done|by apply page_reader|lia|lia|lia|intros k Hk; apply get_is; lia|].
  destruct (put2_spec d2 (hdrOffset p + 3) n) as (d3 & E3 & H3 & x3 & Lx3 & W3); [apply W2|lia|rewrite (w_len _ _ _ _ W2); lia|unfold in_u; change (2 ^ 16) with 65536; lia|]. exists d2, d3. do 2 (split; [done|]).
  assert (Ho : forall j, ~ hdrOffset p + 3 <= j < hdrOffset p + 5 -> ~ cellOffset p <= j < top1 -> get d3 j = get d1 j) by (intros j Hj1 Hj2; rewrite (w_out _ _ _ _ W3), (w_out _ _ _ _ W2) by lia; done). split.
  - assert (Hld : length (delete i addrs) = (length addrs - 1)%nat) by (apply length_delete, lookup_lt_is_Some; done). assert (Hld' : length (delete i cells) = (length cells - 1)%nat) by (apply length_delete, lookup_lt_is_Some; lia). split.
    + change (space pBt (hdrOffset p) d3 (blocks (delete i addrs) (delete i cells)) fs1 top1 frag1). split; [done|apply W3|rewrite (w_len _ _ _ _ W3), (w_len _ _ _ _ W2); lia|done| | | |lia|done].
      * apply (has2_out d1); [apply Ho; lia..|done].
      * by rewrite Ho by lia.
      * apply (links_ext d1); [|done]. intros j [Hj|(y & Hy & Hj)]; apply Ho; [lia|lia| |]; destruct (lay_block _ _ _ _ _ y L Hy); lia.
    + cbn. lia.
    + done.
    + cbn. rewrite Hld'. lia.
    + done.
    + cbn. apply (pointers_delete d1 _ _ _ _ (n + 1)); [done|lia|done| |].
      * intros k Hk. rewrite (w_out _ _ _ _ W3) by lia. rewrite Hm by lia. done.
      * intros j Hj. rewrite (w_out _ _ _ _ W3), (w_out _ _ _ _ W2) by lia. done.
    + apply (cells_ext (get d1)); [|done]. intros y j Hy Hj. destruct (lay_cell _ _ _ _ _ y L Hy) as (? & ? & ?). cbn. apply Ho; lia.
    + done.
    + cbn. rewrite blocks_total by lia. done.
    + done.
  - intros j Hj. apply Ho; lia.
Qed.

Lemma dropCell_spec p addrs cells fs top frag i c :
  limits_ok pBt p -> page_kind p -> page_state pBt p addrs cells fs top frag -> cells !! i = Some c ->
  exists d' n' f' addrs' fs' top' frag', dropCell pBt p (Z.of_nat i) (lenz c) SQLITE_OK = Some (SQLITE_OK, update p d' n' f') /\
    page_state pBt (update p d' n' f') addrs' (delete i cells) fs' top' frag' /\ kept pBt p d'.
Proof.
  intros Hlim Hkind S Hc. pose proof (ps_space _ _ _ _ _ _ _ S) as Sp. destruct (page_length _ _ _ _ _ _ _ S) as [Hlc Hn]. pose proof (lookup_lt_Some _ _ _ Hc) as Hi. destruct (lookup_lt_is_Some_2 addrs i) as [a Ha]; [lia|].
  destruct (freed_cell _ _ _ _ _ _ _ _ _ S Ha Hc) as (d1 & fs1 & top1 & frag1 & Ef & Sp1 & Ht & Hp1 & Hc1 & K1 & Hau & Ha0). pose proof (ps_nfree _ _ _ _ _ _ _ S) as Hfree. pose proof (ps_gap _ _ _ _ _ _ _ S) as Hgap. destruct (ps_off _ _ _ _ _ _ _ S) as [Hoff1 Hoff].
  pose proof (proj1 (Forall_forall _ _) (ps_valid _ _ _ _ _ _ _ S) c ltac:(by apply list_elem_of_lookup; exists i)) as Hv. pose proof (valid_size pBt p Hlim c Hv) as Hsz. pose proof (sp_usable _ _ _ _ _ _ _ Sp) as Hu.
  pose proof (page_within _ _ _ _ _ _ _ S) as [Hw Hap]. pose proof (total_fits top (usableSize pBt) _ ltac:(apply (lay_top _ _ _ _ _ (sp_layout _ _ _ _ _ _ _ Sp))) Hw Hap) as Hfit.
  assert (Hlc' : length (delete i addrs) = length (delete i cells)) by (rewrite !length_delete by (by eexists); lia). assert (Hld : length (delete i cells) = (length cells - 1)%nat) by (rewrite length_delete by (by eexists); lia).
  assert (Htot : total (blocks addrs cells) = lenz c + size_sum (delete i cells)) by (rewrite (total_perm _ _ (blocks_delete i a c addrs cells Ha Hc)), <- (blocks_total (delete i addrs)) by done; done).
  unfold dropCell. change (SQLITE_OK =? SQLITE_OK) with true. cbn [negb]. rewrite option_guard_True by lia.
  pose proof (proj1 (pointers_lookup _ _ _) (ps_ptrs _ _ _ _ _ _ _ S) i a Ha) as Hptr. unfold has2 in Hptr. rewrite Hptr. go_on. unfold u32. rewrite u32_small by lia. rewrite (proj2 (Z.ltb_ge _ (a + lenz c))) by lia. rewrite u16_small by lia. rewrite Ef. go_on.
  assert (Hvd : Forall (valid pBt p) (delete i cells)) by (apply Forall_forall; intros x Hx%list_elem_of_delete_inv; apply (proj1 (Forall_forall _ _) (ps_valid _ _ _ _ _ _ _ S) _ Hx)).
  assert (Htop1 : top1 <= usableSize pBt) by apply (lay_top _ _ _ _ _ (sp_layout _ _ _ _ _ _ _ Sp1)).
  cbn [nCell hdrOffset childPtrSize aData nFree with_nCell with_nFree with_data]. destruct (Z.eqb_spec (nCell p - 1) 0) as [En|En].
  - destruct (reset_spec p d1) as (d2 & d3 & d4 & E2 & E3 & E4 & S' & Ho); [done|apply Sp1|apply Hlim|apply Sp1|apply Sp|done|lia|apply S|]. cbn [aData with_nCell with_nFree with_data]. rewrite E2. cbn [mbind option_bind]. rewrite E3. cbn [mbind option_bind]. rewrite E4. cbn [mbind option_bind].
    assert (Eu : update p d4 0 (usableSize pBt - hdrOffset p - childPtrSize p - 8) = update p d4 (nCell p - 1) (usableSize pBt - hdrOffset p - childPtrSize p - 8)) by by rewrite En. rewrite Eu in S'.
    exists d4, (nCell p - 1), (usableSize pBt - hdrOffset p - childPtrSize p - 8), [], [], (usableSize pBt), 0. rewrite (list_delete_nil i cells) by lia. split; [done|]. split; [done|].
    intros j Hj. rewrite Ho by (pose proof (lim_usable _ _ Hlim); lia). by apply K1.
  - destruct (remove_pointer p d1 addrs cells fs1 top1 frag1 i (nCell p - 1) (nFree p + lenz c + 2)) as (d2 & d3 & E2 & E3 & S' & Ho); [apply Sp1|done|done|done|done|lia|done|lia|done|lia|lia|apply S|]. cbn [aData with_nCell with_nFree with_data]. rewrite E2. cbn [mbind option_bind]. rewrite E3. cbn [mbind option_bind].
    exists d3, (nCell p - 1), (nFree p + lenz c + 2), (delete i addrs), fs1, top1, frag1. split; [done|]. split; [done|]. intros j Hj. rewrite Ho by lia. by apply K1.
Qed.
(** ** Adding a cell *)

(** The cell that is stored: [iChild] replaces the pointer to the child. *)
Definition with_child (iChild : Z) (c : bytes) : bytes := if iChild =? 0 then c else sqlite3Put4byte iChild ++ drop 4 c.

Lemma put4_bytes v : page_bytes (sqlite3Put4byte v).
Proof. unfold sqlite3Put4byte. repeat constructor; apply wrap_byte. Qed.

Lemma xCellSize_child p rd rd' n : limits_ok pBt p -> childPtrSize p = 4 -> byte_reader rd -> byte_reader rd' -> (forall k, 4 <= k -> rd' k = rd k) -> xCellSize pBt p rd 0 = Some n -> xCellSize pBt p rd' 0 = Some n.
Proof.
  intros Hlim Hch Hrd Hrd' He. assert (Hcop : forall m, copied rd rd' 4 4 m) by (intros m k Hk; apply He; lia). unfold xCellSize. destruct (xCellSize_p p).
  - rewrite !cellSizePtr_spec by done. rewrite Hch, Z.add_0_l. destruct (read_payload rd 4) as [[q v]|] eqn:E1; [|done]. cbn [mbind option_bind].
    destruct (read_payload_local rd rd' 4 4 _ _ _ E1) as [Hq Hl]. specialize (Hl q (Hcop q) ltac:(lia) ltac:(lia)). change (4 + (4 - 4)) with 4 in Hl. replace (4 + (q - 4)) with q in Hl by lia. rewrite Hl. cbn [mbind option_bind].
    destruct (intKey p); [|done]. destruct (skip_loop 9 rd (q + 9) q) as [z|] eqn:E2; [|done]. destruct (skip_loop_local rd rd' 4 4 _ _ _ _ E2) as [_ Hs]. specialize (Hs z (Hcop z) ltac:(lia) ltac:(lia)).
    replace (4 + (q + 9 - 4)) with (q + 9) in Hs by lia. replace (4 + (q - 4)) with q in Hs by lia. replace (4 + (z - 4)) with z in Hs by lia. by rewrite Hs.
  - unfold cellSizePtrNoPayload. destruct (guard _); [|done]. cbn [mbind option_bind]. rewrite Z.add_0_l. destruct (skip_loop 9 rd (4 + 9) 4) as [z|] eqn:E2; [|done]. destruct (skip_loop_local rd rd' 4 4 _ _ _ _ E2) as [_ Hs]. specialize (Hs z (Hcop z) ltac:(lia) ltac:(lia)).
    change (4 + (4 + 9 - 4)) with (4 + 9) in Hs. change (4 + (4 - 4)) with 4 in Hs. replace (4 + (z - 4)) with z in Hs by lia. by rewrite Hs.
Qed.

Lemma get_drop_4 x c k : lenz x = 4 -> 4 <= lenz c -> 0 <= k -> get (x ++ drop 4 c) k = if k <? 4 then get x k else get c k.
Proof.
  unfold lenz, get. intros Hx Hc Hk. rewrite (proj2 (Z.leb_le 0 k)) by lia. destruct (Z.ltb_spec k 4); [rewrite lookup_app_l by lia; done|]. rewrite lookup_app_r, lookup_drop by lia. f_equal. lia.
Qed.

Lemma with_child_valid p c iChild : limits_ok pBt p -> valid pBt p c -> iChild = 0 \/ childPtrSize p = 4 -> valid pBt p (with_child iChild c) /\ lenz (with_child iChild c) = lenz c.
Proof.
  intros Hlim Hv Hch. pose proof (valid_size pBt p Hlim c Hv) as Hs. destruct Hv as [Hb Hv]. unfold with_child. destruct (Z.eqb_spec iChild 0); [done|]. destruct Hch as [|Hch]; [done|].
  assert (Hl : lenz (sqlite3Put4byte iChild ++ drop 4 c) = lenz c) by (unfold lenz in *; rewrite length_app, length_drop; cbn [sqlite3Put4byte length]; lia).
  assert (Hb' : page_bytes (sqlite3Put4byte iChild ++ drop 4 c)) by (apply Forall_app; split; [apply put4_bytes|by apply Forall_drop]). split; [|done]. split; [done|]. rewrite Hl.
  apply (xCellSize_child p (get c)); [done|done|by apply page_reader|by apply page_reader| |done]. intros k Hk. rewrite get_drop_4 by (done || lia). by rewrite (proj2 (Z.ltb_ge k 4)) by lia.
Qed.

(** The cell is written. *)
Lemma write_cell p d a c iChild : limits_ok pBt p -> valid pBt p c -> page_bytes d -> 0 <= a -> a + lenz c <= lenz d ->
  exists d', (if iChild =? 0 then memmove d a (get c) 0 (lenz c) else d ← memmove d (a + 4) (get c) 4 (lenz c - 4); poke d a (sqlite3Put4byte iChild)) = Some d' /\
    page_bytes d' /\ lenz d' = lenz d /\ cell_at (get d') a (with_child iChild c) /\ forall j, ~ a <= j < a + lenz c -> get d' j = get d j.
Proof.
  intros Hlim Hv Hd Ha Hl. pose proof (valid_size pBt p Hlim c Hv) as Hs. destruct Hv as [Hb _]. unfold with_child. destruct (iChild =? 0).
  - destruct (memmove_spec d a (get c) 0 (lenz c)) as (d' & x & -> & W & Lx & Hm); [done|by apply page_reader|lia|lia|lia|intros k Hk; apply get_is; lia|]. exists d'. split; [done|]. split; [apply W|]. split; [apply W|]. split; [intros k Hk; by apply Hm|]. intros j Hj. apply (w_out _ _ _ _ W). lia.
  - destruct (memmove_spec d (a + 4) (get c) 4 (lenz c - 4)) as (d1 & x & -> & W & Lx & Hm); [done|by apply page_reader|lia|lia|lia|intros k Hk; apply get_is; lia|]. cbn [mbind option_bind].
    destruct (poke_wrote d1 a (sqlite3Put4byte iChild)) as (d' & -> & W2); [apply W|apply put4_bytes|done|rewrite (w_len _ _ _ _ W); change (lenz (sqlite3Put4byte iChild)) with 4; lia|]. change (lenz (sqlite3Put4byte iChild)) with 4 in W2. exists d'. split; [done|]. split; [apply W2|]. split; [by rewrite (w_len _ _ _ _ W2), (w_len _ _ _ _ W)|]. split.
    + intros k Hk. rewrite get_drop_4 by (done || lia). assert (k < lenz c) by (unfold lenz in *; rewrite length_app, length_drop in Hk; cbn [sqlite3Put4byte length] in Hk; lia). destruct (Z.ltb_spec k 4).
      * rewrite (w_in _ _ _ _ W2) by (change (lenz (sqlite3Put4byte iChild)) with 4; lia). f_equal. lia.
      * rewrite (w_out _ _ _ _ W2) by (change (lenz (sqlite3Put4byte iChild)) with 4; lia). replace (a + k) with (a + 4 + (k - 4)) by lia. rewrite Hm by lia. f_equal. lia.
    + intros j Hj. rewrite (w_out _ _ _ _ W2), (w_out _ _ _ _ W) by (change (lenz (sqlite3Put4byte iChild)) with 4; lia). done.
Qed.

(** The pointer is added to the array, and counted. *)
Lemma add_pointer p d1 a c addrs cells fs top frag i n :
  space pBt (hdrOffset p) d1 ((a, lenz c) :: blocks addrs cells) fs top frag -> cellOffset p + 2 * n + 2 <= top -> pointers d1 (cellOffset p) addrs -> Forall2 (cell_at (get d1)) addrs cells -> cell_at (get d1) a c -> has2 d1 (hdrOffset p + 3) n ->
  Forall (valid pBt p) cells -> valid pBt p c -> n = Z.of_nat (length addrs) -> length addrs = length cells -> (i <= length cells)%nat -> cellOffset p = hdrOffset p + 12 - 4 * leaf p /\ hdrOffset p + 8 <= cellOffset p -> aOvfl p = [] ->
  exists d2 d3 lo d4 d5, memmove d1 (cellOffset p + Z.of_nat i * 2 + 2) (get d1) (cellOffset p + Z.of_nat i * 2) (2 * (n - Z.of_nat i)) = Some d2 /\ put2byte d2 (cellOffset p + Z.of_nat i * 2) a = Some d3 /\
    get d3 (hdrOffset p + 4) = Some lo /\ poke d3 (hdrOffset p + 4) [wrap_u 8 (lo + 1)] = Some d4 /\ (if wrap_u 8 (lo + 1) =? 0 then hi ← get d4 (hdrOffset p + 3); poke d4 (hdrOffset p + 3) [wrap_u 8 (hi + 1)] else Some d4) = Some d5 /\
    page_state pBt (update p d5 (n + 1) (usableSize pBt - (cellOffset p + 2 * (n + 1)) - (lenz c + size_sum cells))) (insert_at i a addrs) (insert_at i c cells) fs top frag /\ forall j, j <= hdrOffset p \/ top <= j -> get d5 j = get d1 j.
Proof.
  intros Sp Hgap Hp Hc Hca Hcnt Hv Hvc -> Hlc Hi Hoff Hov. set (n := Z.of_nat (length addrs)) in *. pose proof Sp as [Hh Hd Hlen Hu Htop Hfrag Hl Hlow L]. pose proof (lay_top _ _ _ _ _ L).
  destruct (lay_cell _ _ _ _ _ (a, lenz c) L ltac:(by left)) as (A1 & A2 & A3). cbn [fst snd] in *.
  destruct (memmove_spec d1 (cellOffset p + Z.of_nat i * 2 + 2) (get d1) (cellOffset p + Z.of_nat i * 2) (2 * (n - Z.of_nat i))) as (d2 & x2 & E2 & W2 & Lx2 & Hm); [done|by apply page_reader|lia|lia|lia|intros k Hk; apply get_is; lia|].
  destruct (put2_spec d2 (cellOffset p + Z.of_nat i * 2) a) as (d3 & E3 & H3 & x3 & Lx3 & W3); [apply W2|lia|rewrite (w_len _ _ _ _ W2); lia|unfold in_u; change (2 ^ 16) with 65536; lia|].
  assert (Ho3 : forall j, ~ cellOffset p <= j < top -> get d3 j = get d1 j) by (intros j Hj; rewrite (w_out _ _ _ _ W3), (w_out _ _ _ _ W2) by lia; done).
  assert (Hcnt3 : has2 d3 (hdrOffset p + 3) n) by (apply (has2_out d1); [apply Ho3; lia..|done]).
  destruct (count_up d3 (hdrOffset p + 3) n) as (lo & d4 & d5 & E4 & E5 & E6 & Hd5 & Hl5 & H5 & Ho5); [apply W3|done|lia|]. replace (hdrOffset p + 3 + 1) with (hdrOffset p + 4) in * by lia. exists d2, d3, lo, d4, d5. do 5 (split; [done|]).
  assert (Ho : forall j, ~ hdrOffset p + 3 <= j < hdrOffset p + 5 -> ~ cellOffset p <= j < top -> get d5 j = get d1 j) by (intros j Hj1 Hj2; rewrite Ho5, Ho3 by lia; done). split; [|intros j Hj; apply Ho; lia].
  assert (Hperm : (a, lenz c) :: blocks addrs cells ≡ₚ blocks (insert_at i a addrs) (insert_at i c cells)) by (rewrite blocks_insert by done; symmetry; apply insert_at_perm). split.
  - apply (space_perm _ _ _ _ _ _ _ Hperm). change (space pBt (hdrOffset p) d5 ((a, lenz c) :: blocks addrs cells) fs top frag). split; [done|done|rewrite Hl5, (w_len _ _ _ _ W3), (w_len _ _ _ _ W2); lia|done| | | |lia|done].
    + apply (has2_out d1); [apply Ho; lia..|done].
    + by rewrite Ho by lia.
    + apply (links_ext d1); [|done]. intros j [Hj|(y & Hy & Hj)]; apply Ho; [lia|lia| |]; destruct (lay_block _ _ _ _ _ y L Hy); lia.
  - cbn. lia.
  - done.
  - cbn. rewrite insert_at_length. lia.
  - done.
  - cbn. apply (pointers_insert d1 _ _ _ _ _ n); [done|done|lia| | |].
    + intros k Hk. replace (cellOffset p + 2 * Z.of_nat i) with (cellOffset p + Z.of_nat i * 2) by lia. rewrite Ho5 by lia. rewrite (w_out _ _ _ _ W3) by lia. by rewrite Hm by lia.
    + replace (cellOffset p + 2 * Z.of_nat i) with (cellOffset p + Z.of_nat i * 2) by lia. apply (has2_out d3); [apply Ho5; lia..|done].
    + intros j Hj. rewrite Ho5, (w_out _ _ _ _ W3), (w_out _ _ _ _ W2) by lia. done.
  - change (Forall2 (cell_at (get d5)) (insert_at i a addrs) (insert_at i c cells)). apply (Forall2_insert_at _ i a c); [|apply (cell_at_ext (get d1)); [intros j Hj; apply Ho; lia|done]].
    apply (cells_ext (get d1)); [|done]. intros y j Hy Hj. destruct (lay_cell _ _ _ _ _ y L ltac:(by right)) as (? & ? & ?). apply Ho; lia.
  - change (Forall (valid pBt p) (insert_at i c cells)). by rewrite insert_at_perm, Forall_cons.
  - cbn. rewrite <- (total_perm _ _ Hperm). cbn. fold (total (blocks addrs cells)). change (foldr (fun x m => x.2 + m) 0 (blocks addrs cells)) with (total (blocks addrs cells)). rewrite (blocks_total addrs) by done. lia.
  - done.
Qed.

(** A cell that fits is stored, at its place in the array. *)
Lemma insertCell_fits p addrs cells fs top frag i c iChild :
  limits_ok pBt p -> page_kind p -> page_state pBt p addrs cells fs top frag -> valid pBt p c -> (i <= length cells)%nat -> iChild = 0 \/ childPtrSize p = 4 -> lenz c + 2 <= nFree p ->
  exists d' n' f' addrs' fs' top' frag', insertCell pBt p (Z.of_nat i) c (lenz c) iChild SQLITE_OK = Some (SQLITE_OK, update p d' n' f') /\
    page_state pBt (update p d' n' f') addrs' (insert_at i (with_child iChild c) cells) fs' top' frag' /\ kept pBt p d'.
Proof.
  intros Hlim Hkind S Hv Hi Hch Hfit. pose proof (valid_size pBt p Hlim c Hv) as Hs. destruct (page_length _ _ _ _ _ _ _ S) as [Hlc Hn]. unfold insertCell. rewrite (ps_ovfl _ _ _ _ _ _ _ S). change (Z.of_nat (length [])) with 0. cbn [length].
  rewrite option_guard_True by lia. rewrite (proj2 Hv). cbn [mbind option_bind]. rewrite option_guard_True by (by left). cbn [Z.eqb negb orb]. rewrite (proj2 (Z.ltb_ge (nFree p) (lenz c + 2))) by lia. change (SQLITE_OK =? SQLITE_OK) with true. cbn [negb].
  destruct (allocateSpace_spec pBt p addrs cells fs top frag (lenz c) Hlim S) as (a & d0 & addrs' & fs' & top' & frag' & -> & A); [lia..|]. go_on. destruct A as [A1 A2 A3 A4 A5 A6].
  destruct (lay_cell _ _ _ _ _ (a, lenz c) (sp_layout _ _ _ _ _ _ _ A1) ltac:(by left)) as (C1 & C2 & C3). cbn [fst snd] in *. destruct (lay_top _ _ _ _ _ (sp_layout _ _ _ _ _ _ _ A1)) as [Ht0 Htu]. pose proof (sp_usable _ _ _ _ _ _ _ A1) as Hu. destruct (with_child_valid p c iChild Hlim Hv Hch) as [Hv' Hl'].
  rewrite option_guard_True by lia. cbn [aData nCell cellOffset hdrOffset nFree with_nFree with_data with_nCell]. destruct (write_cell p d0 a c iChild Hlim Hv) as (d1 & -> & Hd1 & Hl1 & Hc1 & Ho1); [apply A1|lia|pose proof (sp_len _ _ _ _ _ _ _ A1); lia|]. cbn [mbind option_bind].
  assert (Hlc' : length addrs' = length cells) by (by apply Forall2_length in A4). destruct (ps_off _ _ _ _ _ _ _ S) as [Hoff1 Hoff].
  destruct (add_pointer p d1 a (with_child iChild c) addrs' cells fs' top' frag' i (nCell p)) as (d2 & d3 & lo & d4 & d5 & E2 & E3 & E4 & E5 & E6 & S' & Ho).
  - rewrite Hl'. destruct A1 as [B1 B2 B3 B4 B5 B6 B7 B8 B9]. split; [done|done|lia|done| | | |done|done].
    + apply (has2_out d0); [apply Ho1; lia..|done].
    + by rewrite Ho1 by lia.
    + apply (links_ext d0); [|done]. intros j [Hj|(y & Hy & Hj)]; apply Ho1; [lia|]. destruct (lay_block _ _ _ _ _ y B9 Hy) as [(? & ? & ?) ?]. pose proof (lay_disj _ _ _ _ _ (a, lenz c) y B9 ltac:(by left) Hy) as D. unfold disj in D. cbn in D. lia.
  - done.
  - apply (pointers_ext d0); [|done]. intros j Hj. apply Ho1. unfold lenz in Hj. pose proof (lenz_nonneg c). lia.
  - apply (cells_ext (get d0)); [|done]. intros y j Hy Hj. apply Ho1. pose proof (lay_apart _ _ _ _ _ (sp_layout _ _ _ _ _ _ _ A1)) as [Ha _]. apply Forall_app in Ha as [Ha _]. pose proof (proj1 (Forall_forall _ _) Ha y Hy) as D. unfold disj in D. cbn in D. lia.
  - done.
  - apply (has2_out d0); [apply Ho1; lia..|done].
  - apply S.
  - done.
  - lia.
  - done.
  - done.
  - done.
  - apply S.
  - rewrite E2. cbn [mbind option_bind]. rewrite E3. cbn [mbind option_bind]. rewrite E4. cbn [mbind option_bind]. rewrite E5. cbn [mbind option_bind]. rewrite E6. cbn [mbind option_bind].
    assert (Ef : usableSize pBt - (cellOffset p + 2 * (nCell p + 1)) - (lenz (with_child iChild c) + size_sum cells) = nFree p - wrap_u 16 (2 + lenz c)).
    { rewrite Hl', u16_small by lia. pose proof (ps_nfree _ _ _ _ _ _ _ S) as Hf. rewrite (blocks_total addrs) in Hf by done. lia. }
    rewrite Ef in S'. exists d5, (nCell p + 1), (nFree p - wrap_u 16 (2 + lenz c)), (insert_at i a addrs'), fs', top', frag'. split; [done|]. split; [done|].
    intros j Hj. pose proof (sp_low _ _ _ _ _ _ _ A1). rewrite Ho by lia. rewrite Ho1 by lia. by apply A6.
Qed.

(** A cell that does not fit goes to the overflow list, and the page stays as it is. *)
Lemma insertCell_overflows p addrs cells fs top frag i c iChild :
  limits_ok pBt p -> page_state pBt p addrs cells fs top frag -> valid pBt p c -> (i <= length cells)%nat -> nFree p < lenz c + 2 ->
  insertCell pBt p (Z.of_nat i) c (lenz c) iChild SQLITE_OK = Some (SQLITE_OK, with_aOvfl p [(Z.of_nat i, with_child iChild c)]).
Proof.
  intros Hlim S Hv Hi Hfit. pose proof (valid_size pBt p Hlim c Hv) as Hs. destruct (page_length _ _ _ _ _ _ _ S) as [Hlc Hn]. pose proof (ps_gap _ _ _ _ _ _ _ S). pose proof (ps_space _ _ _ _ _ _ _ S) as Sp. pose proof (sp_usable _ _ _ _ _ _ _ Sp). pose proof (sp_layout _ _ _ _ _ _ _ Sp) as L. pose proof (lay_top _ _ _ _ _ L) as Ht.
  destruct (page_within _ _ _ _ _ _ _ S) as [Hw Ha]. pose proof (total_fits top (usableSize pBt) _ ltac:(lia) Hw Ha). pose proof (ps_nfree _ _ _ _ _ _ _ S). destruct (ps_off _ _ _ _ _ _ _ S) as [_ Hoff]. pose proof (sp_hdr _ _ _ _ _ _ _ Sp).
  unfold insertCell. rewrite (ps_ovfl _ _ _ _ _ _ _ S). change (Z.of_nat (length [])) with 0. rewrite option_guard_True by lia. rewrite (proj2 Hv). cbn [mbind option_bind]. rewrite option_guard_True by (by left). cbn [Z.eqb negb orb]. rewrite (proj2 (Z.ltb_lt (nFree p) (lenz c + 2))) by lia.
  assert (Ec : (if iChild =? 0 then Some c else poke c 0 (sqlite3Put4byte iChild)) = Some (with_child iChild c)).
  { unfold with_child. destruct (iChild =? 0); [done|]. unfold poke. change (lenz (sqlite3Put4byte iChild)) with 4. cbn [Z.eqb]. rewrite (proj2 (Z.leb_le (0 + 4) (lenz c))) by lia. cbn [Z.leb Z.compare andb]. done. }
  rewrite Ec. cbn [mbind option_bind last]. rewrite option_guard_True by lia. rewrite option_guard_True by done. rewrite u16_small by lia. done.
Qed.

(** ** Free space *)

(** The free blocks from [pc] on, as [btreeComputeFreeSpace] accepts them. *)
Fixpoint chain (d : bytes) (pc : Z) (fs : list block) : Prop :=
  match fs with
  | [] => False
  | x :: fs => x.1 = pc /\ pc <= usableSize pBt - 4 /\ has2 d (pc + 2) x.2 /\
      ((fs = [] /\ has2 d pc 0 /\ pc + x.2 <= usableSize pBt) \/ exists next, has2 d pc next /\ pc + x.2 + 3 < next /\ chain d next fs)
  end.

Lemma chain_loop fuel d pc n fs : page_bytes d -> 0 <= pc -> chain d pc fs -> usableSize pBt - pc < Z.of_nat fuel -> computeFreeSpace_loop pBt fuel d pc n = Some (Some (n + total fs)).
Proof.
  intros Hd. revert pc n fs. induction fuel as [|fuel IH]; intros pc n fs Hpc H Hf; [destruct fs; cbn in H; [done|lia]|]. destruct fs as [|[b z] fs]; [done|]. destruct H as (E & Hmax & Hz & H). cbn [fst snd] in *. cbn [computeFreeSpace_loop]. rewrite (proj2 (Z.ltb_ge _ pc)) by lia.
  pose proof (has2_range _ _ _ Hd Hz) as Rz. unfold has2 in Hz. destruct H as [(-> & Hn & He)|(next & Hn & Hlt & H)].
  - unfold has2 in Hn. rewrite Hn, Hz. cbn [mbind option_bind]. rewrite (proj2 (Z.leb_le 0 (pc + z + 3))) by lia. cbn [Z.ltb Z.compare orb]. rewrite (proj2 (Z.ltb_ge _ (pc + z))) by lia. unfold total. cbn. do 2 f_equal. lia.
  - pose proof (has2_range _ _ _ Hd Hn) as Rn. unfold has2 in Hn. rewrite Hn, Hz. cbn [mbind option_bind]. rewrite (proj2 (Z.leb_gt next (pc + z + 3))) by lia. rewrite (IH next (n + z) fs) by (done || lia). do 2 f_equal. unfold total. cbn. lia.
Qed.

Lemma computeFreeSpace_loop_total fuel d pc n : page_bytes d -> usableSize pBt <= lenz d -> 0 <= pc -> usableSize pBt - pc < Z.of_nat fuel -> 0 < Z.of_nat fuel ->
  exists r, computeFreeSpace_loop pBt fuel d pc n = Some r /\ (r <> None -> exists fs, chain d pc fs).
Proof.
  intros Hd Hl. revert pc n. induction fuel as [|fuel IH]; intros pc n Hpc Hf Hf0; [lia|]. cbn [computeFreeSpace_loop]. destruct (Z.ltb_spec (usableSize pBt - 4) pc) as [Hmax|Hmax]; [by exists None|].
  destruct (has2_is d pc Hd) as [next Hn]; [lia|lia|]. destruct (has2_is d (pc + 2) Hd) as [size Hs]; [lia|lia|]. pose proof (has2_range _ _ _ Hd Hs) as Rs. pose proof Hn as Hn'. pose proof Hs as Hs'. unfold has2 in Hn', Hs'. rewrite Hn', Hs'. cbn [mbind option_bind].
  destruct (Z.leb_spec next (pc + size + 3)) as [Hle|Hlt].
  - eexists. split; [done|]. destruct (Z.ltb_spec 0 next); [done|]. destruct (Z.ltb_spec (usableSize pBt) (pc + size)); [done|]. intros _. exists [(pc, size)]. cbn. pose proof (has2_range _ _ _ Hd Hn). replace next with 0 in Hn by lia. split; [done|]. split; [lia|]. split; [done|]. left. split; [done|]. split; [done|lia].
  - destruct (IH next (n + size)) as (r & -> & Hr); [lia|lia|lia|]. exists r. split; [done|]. intros H. destruct (Hr H) as [fs Hfs]. exists ((pc, size) :: fs). cbn. split; [done|]. split; [lia|]. split; [done|]. right. exists next. split; [done|]. split; [lia|done].
Qed.

(** The free blocks of a page in order. *)
Lemma links_chain hdr d used fs top frag x : space pBt hdr d used (x :: fs) top frag -> chain d x.1 (x :: fs).
Proof.
  intros S. destruct (sp_free _ _ _ _ _ _ _ S) as (_ & Hz & Hl). pose proof (sp_layout _ _ _ _ _ _ _ S) as L. pose proof (lay_within _ _ _ _ _ L) as Hw. apply Forall_app in Hw as [_ Hw]. pose proof (lay_order _ _ _ _ _ L) as [_ Ho]. clear S L.
  revert x Hz Hl Hw Ho. induction fs as [|y fs IH]; intros x Hz Hl Hw Ho; apply Forall_cons in Hw as [(W1 & W2 & W3) Hw]; (split; [done|]); (split; [lia|]); (split; [done|]).
  - left. cbn in Hl. split; [done|]. split; [done|lia].
  - right. destruct Hl as (Hl1 & Hl2 & Hl3). destruct Ho as [Ho1 Ho]. exists y.1. split; [done|]. split; [lia|]. by apply IH.
Qed.

Definition free_sum_of (p : MemPage) (frag top : Z) (fs : list block) : Z := frag + (if top =? 0 then 65536 else top) + total fs.

Lemma get2byteNotZero_spec d a v : page_bytes d -> has2 d a v -> get2byteNotZero (get d) a = Some (if v =? 0 then 65536 else v).
Proof.
  intros Hd H. pose proof (has2_range _ _ _ Hd H) as R. unfold get2byteNotZero. unfold has2 in H. rewrite H. cbn [mbind option_bind]. f_equal. destruct (Z.eqb_spec v 0) as [->|]; [done|]. rewrite <- (not_zero_top v) at 2 by lia. by rewrite Z.mod_small by lia.
Qed.

(** [btreeComputeFreeSpace] on a page of this development. *)
Lemma computeFreeSpace_spec p addrs cells fs top frag :
  page_state pBt (with_nFree p (usableSize pBt - (cellOffset p + 2 * nCell p) - size_sum cells)) addrs cells fs top frag -> isInit p = true -> nFree p < 0 -> page_kind p ->
  btreeComputeFreeSpace pBt p = Some (SQLITE_OK, with_nFree p (usableSize pBt - (cellOffset p + 2 * nCell p) - size_sum cells)).
Proof.
  intros SS Hi Hf (K0 & K1 & _). pose proof (ps_space _ _ _ _ _ _ _ SS) as Sp. cbn in Sp. pose proof Sp as [Hh Hd Hlen Hu Htop Hfrag Hl Hlow L]. destruct (ps_off _ _ _ _ _ _ _ SS) as [Hoff1 Hoff]. pose proof (ps_gap _ _ _ _ _ _ _ SS) as Hgap. pose proof (ps_ncell _ _ _ _ _ _ _ SS) as Hn. cbn in Hoff1, Hoff, Hgap, Hn.
  unfold btreeComputeFreeSpace. rewrite option_guard_True by done. pose proof (lay_top _ _ _ _ _ L) as Ht. unfold get2byteNotZero. unfold has2 in Htop. rewrite Htop. cbn [mbind option_bind]. rewrite not_zero_top by lia.
  pose proof (links_first _ _ _ Hl) as Hfirst. unfold has2 in Hfirst. rewrite Hfirst. cbn [mbind option_bind]. rewrite Hfrag. cbn [mbind option_bind]. replace (hdrOffset p + 8 + childPtrSize p + 2 * nCell p) with (cellOffset p + 2 * nCell p) by lia.
  assert (Hsum : (if 0 <? first fs then if first fs <? cellOffset p + 2 * nCell p then Some None else computeFreeSpace_loop pBt (S (Z.to_nat (usableSize pBt))) (aData p) (first fs) (frag + top) else Some (Some (frag + top))) = Some (Some (frag + top + total fs))).
  { destruct fs as [|x fs]; [cbn; by rewrite Z.add_0_r|]. destruct (lay_block _ _ _ _ _ x L ltac:(by left)) as [(? & ? & ?) ?]. cbn [first]. rewrite (proj2 (Z.ltb_lt 0 x.1)), (proj2 (Z.ltb_ge x.1 _)) by lia.
    apply chain_loop; [done|lia|by apply (links_chain _ _ _ _ _ _ _ Sp)|lia]. }
  rewrite Hsum. cbn [mbind option_bind]. pose proof (lay_sum _ _ _ _ _ L) as Hs. rewrite total_app in Hs. pose proof (Forall2_length _ _ _ (ps_cells _ _ _ _ _ _ _ SS)) as Hlc. rewrite (blocks_total addrs) in Hs by done. pose proof (size_sum_nonneg cells).
  rewrite (proj2 (Z.ltb_ge _ (frag + top + total fs))) by lia. destruct (page_within _ _ _ _ _ _ _ SS) as [Hw Ha]. pose proof (total_fits _ _ _ (proj2 Ht) Hw Ha) as Hfit. rewrite (blocks_total addrs) in Hfit by done. rewrite u16_small by lia. do 3 f_equal. lia.
Qed.

(** ** Pages from their first byte on *)

(** A database file whose sizes [lockBtree] has computed. *)
Definition database : Prop := exists k usable secure check, 9 <= k <= 16 /\ 480 <= usable <= 2 ^ k /\ pBt = lockBtree_sizes (2 ^ k) usable secure check.

Lemma database_sizes : database -> exists k u secure check, pBt = lockBtree_sizes (2 ^ k) u secure check /\ pageSize pBt = 2 ^ k /\ usableSize pBt = u /\ 9 <= k <= 16 /\ 512 <= 2 ^ k <= 65536 /\ 480 <= u <= 2 ^ k.
Proof.
  intros (k & u & secure & check & Hk & Hu & E). exists k, u, secure, check. split; [done|]. rewrite E. split; [done|]. split; [done|]. split; [done|]. split; [|done]. change 512 with (2 ^ 9). change 65536 with (2 ^ 16). split; apply Z.pow_le_mono_r; lia.
Qed.

(** The four kinds of pages: inner pages and leaves of an index, and of a table. *)
Definition page_flags (f : Z) : Prop := f = 2 \/ f = 5 \/ f = 10 \/ f = 13.

(** [p] is of the kind that the flags [f] say. *)
Definition of_kind (p : MemPage) (f : Z) : Prop := decodeFlags pBt p f = (SQLITE_OK, p).

Lemma decode_again p q f : of_kind p f ->
  decodeFlags pBt q f = (SQLITE_OK, mkMemPage (isInit q) (intKey p) (intKeyLeaf p) (leaf p) (hdrOffset q) (childPtrSize p) (max1bytePayload p) (maxLocal p) (minLocal p) (cellOffset q) (nFree q) (nCell q) (maskPage q) (aOvfl q) (xCellSize_p p) (xParseCell_p p) (aData q)).
Proof.
  unfold of_kind, decodeFlags. destruct (Z.land f (Z.lnot PTF_LEAF) =? Z.lor PTF_LEAFDATA PTF_INTKEY); [|destruct (Z.land f (Z.lnot PTF_LEAF) =? PTF_ZERODATA); [|done]];
    destruct p; cbn; intros [= <- <- <- <- <- <- <- <- <-]; reflexivity.
Qed.

Lemma of_kind_update p f d n m : of_kind p f -> of_kind (update p d n m) f.
Proof. intros H. unfold of_kind. rewrite (decode_again p) by done. by destruct p. Qed.

Lemma flags_byte f : page_flags f -> is_byte f.
Proof. unfold page_flags, is_byte. lia. Qed.

Lemma sizes_facts u : 480 <= u <= 65536 -> 0 <= (u - 12) * 32 / 255 - 23 <= (u - 12) * 64 / 255 - 23 /\ (u - 12) * 64 / 255 - 23 <= u - 35.
Proof. intros Hu. pose proof (Z.div_mod ((u - 12) * 32) 255). pose proof (Z.mod_pos_bound ((u - 12) * 32) 255). pose proof (Z.div_mod ((u - 12) * 64) 255). pose proof (Z.mod_pos_bound ((u - 12) * 64) 255). lia. Qed.

(** What [decodeFlags] makes of a page: of a table or not, a leaf or not. *)
Definition kind_page (q : MemPage) (table : bool) (lf : Z) : MemPage :=
  mkMemPage (isInit q) table (table && (lf =? 1)) lf (hdrOffset q) (4 - 4 * lf) (bt_max1bytePayload pBt) (if table then maxLeaf pBt else bt_maxLocal pBt) (if table then minLeaf pBt else bt_minLocal pBt)
    (cellOffset q) (nFree q) (nCell q) (maskPage q) (aOvfl q) (if table && (lf =? 0) then cellSizePtrNoPayload_m else cellSizePtr_m)
    (if table then if lf =? 1 then btreeParseCellPtr_m else btreeParseCellPtrNoPayload_m else btreeParseCellPtrIndex_m) (aData q).

Lemma decode_kind f : page_flags f -> exists table lf, (lf = 0 \/ lf = 1) /\ (forall q, decodeFlags pBt q f = (SQLITE_OK, kind_page q table lf)).
Proof.
  intros [-> |[-> |[-> | ->]]]; [exists false, 0|exists true, 0|exists false, 1|exists true, 1]; (split; [tauto|reflexivity]).
Qed.

Lemma decode_sound q f : database -> page_flags f -> exists p, decodeFlags pBt q f = (SQLITE_OK, p) /\ of_kind p f /\ limits_ok pBt p /\ page_kind p.
Proof.
  intros (k & u & secure & check & Ebt & _ & _ & _ & Hp & Hu)%database_sizes Hf. destruct (sizes_facts u) as [S1 S2]; [lia|]. destruct (decode_kind f Hf) as (table & lf & Hlf & E). exists (kind_page q table lf). split; [apply E|]. split; [unfold of_kind; rewrite E; reflexivity|]. split.
  - split; cbn; rewrite ?Ebt; cbn -[Z.div Z.mul wrap_u]; [lia| |lia]. destruct table; rewrite !u16_small by lia; lia.
  - unfold page_kind. cbn. tauto.
Qed.

Lemma of_kind_sound p f : database -> page_flags f -> of_kind p f -> limits_ok pBt p /\ page_kind p.
Proof. intros Hdb Hf Hk. destruct (decode_sound p f Hdb Hf) as (p' & E & _ & H). unfold of_kind in Hk. rewrite Hk in E. by injection E as <-. Qed.

Lemma of_kind_leaf p f : page_flags f -> of_kind p f -> leaf p = if Z.land f PTF_LEAF =? 0 then 0 else 1.
Proof. intros Hf. unfold of_kind, decodeFlags. destruct p. destruct Hf as [-> |[-> |[-> | ->]]]; cbn; intros [=]; by subst. Qed.

(** An empty page. *)
Lemma zeroPage_spec q f : database -> page_flags f -> page_bytes (aData q) -> 0 <= hdrOffset q <= 100 -> usableSize pBt <= lenz (aData q) ->
  exists p, zeroPage pBt q f = Some p /\ of_kind p f /\ isInit p = true /\ hdrOffset p = hdrOffset q /\ get (aData p) (hdrOffset p) = Some f /\ page_state pBt p [] [] [] (usableSize pBt) 0 /\
    forall i, i < hdrOffset q \/ usableSize pBt <= i -> get (aData p) i = get (aData q) i.
Proof.
  intros Hdb Hf Hd Hh Hl. destruct (database_sizes Hdb) as (w & u & secure & check & Ebt & Epg & Eu & _ & Hp & Hu). rewrite Eu in *.
  unfold zeroPage. rewrite Eu. assert (H0 : exists d0, (if BTS_FAST_SECURE pBt then memset0 (aData q) (hdrOffset q) (u - hdrOffset q) else Some (aData q)) = Some d0 /\ page_bytes d0 /\ lenz d0 = lenz (aData q) /\ forall i, i < hdrOffset q \/ u <= i -> get d0 i = get (aData q) i).
  { destruct (BTS_FAST_SECURE pBt); [|by exists (aData q)]. destruct (memset0_spec (aData q) (hdrOffset q) (u - hdrOffset q)) as (d0 & x & -> & W & Lx); [done|lia..|]. exists d0. split; [done|]. split; [apply W|]. split; [apply W|]. intros i Hi. apply (w_out _ _ _ _ W). lia. }
  destruct H0 as (d0 & -> & Hd0 & Hl0 & Ho0). cbn [mbind option_bind]. destruct (poke_wrote d0 (hdrOffset q) [wrap_u 8 f]) as (d1 & -> & W1); [done|constructor; [apply wrap_byte|done]|lia|change (lenz [_]) with 1; lia|]. cbn [mbind option_bind].
  set (first := hdrOffset q + (if Z.land f PTF_LEAF =? 0 then 12 else 8)). destruct (decode_sound q f Hdb Hf) as (k & _ & Hk & Hlk & Hkk). pose proof (of_kind_leaf k f Hf Hk) as Elf. destruct Hkk as (K0 & K1 & K2 & K3 & K4).
  set (p0 := mkMemPage true (intKey k) (intKeyLeaf k) (leaf k) (hdrOffset q) (childPtrSize k) (max1bytePayload k) (maxLocal k) (minLocal k) first 0 0 (wrap_u 16 (pageSize pBt - 1)) [] (xCellSize_p k) (xParseCell_p k) d1).
  assert (Hfirst : first = hdrOffset q + 12 - 4 * leaf k) by (unfold first; rewrite Elf; destruct (Z.land f PTF_LEAF =? 0); lia).
  destruct (reset_spec p0 d1) as (d2 & d3 & d4 & E2 & E3 & E4 & S & Ho); [done|apply W1|lia|rewrite (w_len _ _ _ _ W1); lia|cbn; lia|done|cbn; lia|done|]. rewrite Eu in *. change (hdrOffset p0) with (hdrOffset q) in *. rewrite E2. cbn [mbind option_bind]. rewrite E3. cbn [mbind option_bind]. rewrite E4. cbn [mbind option_bind].
  rewrite option_guard_True by lia. rewrite (decode_again k) by done. cbn [snd isInit intKey intKeyLeaf leaf hdrOffset childPtrSize max1bytePayload maxLocal minLocal cellOffset nFree nCell maskPage aOvfl xCellSize_p xParseCell_p aData with_nFree with_data].
  eexists. split; [reflexivity|]. split; [unfold of_kind; rewrite (decode_again k) by done; reflexivity|]. split; [done|]. split; [done|]. split.
  - cbn. rewrite Ho, (w_in _ _ _ _ W1) by (change (lenz [_]) with 1; lia). rewrite Z.sub_diag. pose proof (flags_byte f Hf) as [? ?]. change (get [?x] 0) with (Some x). f_equal. unfold wrap_u. change (2 ^ 8) with 256. by rewrite Z.mod_small by lia.
  - split.
    + replace (wrap_u 16 (u - first)) with (u - hdrOffset q - childPtrSize k - 8) by (rewrite u16_small by lia; lia). exact S.
    + cbn. intros i Hi. rewrite Ho, (w_out _ _ _ _ W1), Ho0 by (change (lenz [_]) with 1; lia). done.
Qed.

(** ** Pages that are read *)

(** A cell of an inner page has a pointer in front. *)
Lemma inner_size p rd a n : limits_ok pBt p -> childPtrSize p = 4 -> byte_reader rd -> xCellSize pBt p rd a = Some n -> 5 <= n.
Proof.
  intros Hlim Hch Hrd. unfold xCellSize. destruct (xCellSize_p p).
  - rewrite cellSizePtr_spec by done. destruct (read_payload rd (a + childPtrSize p)) as [[q v]|] eqn:E1; [|done]. cbn [mbind option_bind]. destruct (if intKey p then skip_loop 9 rd (q + 9) q else Some q) as [z|] eqn:E2; [|done]. cbn [mbind option_bind]. intros [= <-].
    destruct (header_range pBt p Hlim _ _ _ _ _ E1 E2) as [Hqz Hh]. pose proof (proj1 (read_payload_local rd rd 0 0 _ _ _ E1)). pose proof (size_of_range pBt p Hlim (z - a) v). pose proof (read_payload_range rd Hrd _ _ _ E1). lia.
  - unfold cellSizePtrNoPayload. destruct (guard _); [|done]. cbn [mbind option_bind]. destruct (skip_loop 9 rd (a + 4 + 9) (a + 4)) as [z|] eqn:E2; [|done]. cbn [mbind option_bind]. intros [= <-]. pose proof (proj1 (skip_loop_local rd rd 0 0 _ _ _ _ E2)). pose proof (lim_usable _ _ Hlim). rewrite u16_small by lia. lia.
Qed.

(** A cell where its pointer says. *)
Lemma cell_there p addrs cells fs top frag k c : limits_ok pBt p -> page_state pBt p addrs cells fs top frag -> cells !! k = Some c ->
  exists a, addrs !! k = Some a /\ get2byte (get (aData p)) (cellOffset p + 2 * Z.of_nat k) = Some a /\ xCellSize pBt p (get (aData p)) a = Some (lenz c) /\ cell_at (get (aData p)) a c /\ top <= a /\ a + lenz c <= usableSize pBt.
Proof.
  intros Hlim S Hc. destruct (page_length _ _ _ _ _ _ _ S) as [Hlc _]. destruct (lookup_lt_is_Some_2 addrs k) as [a Ha]; [rewrite Hlc; by apply lookup_lt_Some in Hc|]. exists a. split; [done|]. split; [by apply (proj1 (pointers_lookup _ _ _) (ps_ptrs _ _ _ _ _ _ _ S))|].
  assert (Hat : cell_at (get (aData p)) a c). { pose proof (ps_cells _ _ _ _ _ _ _ S) as H. apply (Forall2_lookup _ _ _) with (i := k) in H. rewrite Ha, Hc in H. by inversion H. }
  split; [|split; [done|]].
  - apply (valid_at pBt p Hlim c); [|apply page_reader, (ps_space _ _ _ _ _ _ _ S)|done]. apply (proj1 (Forall_forall _ _) (ps_valid _ _ _ _ _ _ _ S)). apply list_elem_of_lookup. by exists k.
  - pose proof (proj1 (Forall_forall _ _) (proj1 (page_within _ _ _ _ _ _ _ S)) _ (blocks_lookup _ _ _ _ _ Ha Hc)) as (? & ? & ?). done.
Qed.

Lemma sizeCheck_spec p addrs cells fs top frag n k : limits_ok pBt p -> page_kind p -> page_state pBt p addrs cells fs top frag -> (k + n = length cells)%nat -> btreeCellSizeCheck_loop pBt n p (Z.of_nat k) = Some SQLITE_OK.
Proof.
  intros Hlim (K0 & K1 & _) S. revert k. induction n as [|n IH]; intros k Hk; [done|]. cbn [btreeCellSizeCheck_loop]. destruct (lookup_lt_is_Some_2 cells k) as [c Hc]; [lia|].
  destruct (cell_there _ _ _ _ _ _ _ _ Hlim S Hc) as (a & Ha & Hp & Hx & Hat & Hta & Hau). replace (Z.of_nat k * 2) with (2 * Z.of_nat k) by lia. rewrite Hp. cbn [mbind option_bind]. pose proof (ps_gap _ _ _ _ _ _ _ S) as Hgap.
  pose proof (xCellSize_range pBt p Hlim _ _ _ (page_reader _ (sp_bytes _ _ _ _ _ _ _ (ps_space _ _ _ _ _ _ _ S))) Hx) as Hs.
  assert (H5 : leaf p = 0 -> 5 <= lenz c) by (intros El; apply (inner_size p (get (aData p)) a); [done|lia|apply page_reader, (ps_space _ _ _ _ _ _ _ S)|done]).
  destruct (Z.ltb_spec a (cellOffset p + 2 * nCell p)); [lia|]. destruct (Z.ltb_spec (usableSize pBt - 4 - (if leaf p =? 0 then 1 else 0)) a) as [Hlt|]; [destruct (Z.eqb_spec (leaf p) 0); lia|]. cbn [orb]. rewrite Hx. cbn [mbind option_bind].
  rewrite (proj2 (Z.ltb_ge _ (a + lenz c))) by lia. replace (Z.of_nat k + 1) with (Z.of_nat (Datatypes.S k)) by lia. apply IH. lia.
Qed.

Lemma sizeCheck_nFree p f n i : btreeCellSizeCheck_loop pBt n p i = btreeCellSizeCheck_loop pBt n (with_nFree p f) i.
Proof.
  revert i. induction n as [|n IH]; intros i; [done|]. cbn [btreeCellSizeCheck_loop]. change (xCellSize pBt (with_nFree p f)) with (xCellSize pBt p). cbn [leaf nCell cellOffset aData with_nFree].
  destruct (get2byte _ _) as [pc|]; [|done]. cbn [mbind option_bind]. destruct (_ || _); [done|]. destruct (xCellSize _ _ _ _); [|done]. cbn [mbind option_bind]. by rewrite IH.
Qed.

(** A page that is read from its bytes: [p] without what is computed later. *)
Definition reread (p : MemPage) : MemPage :=
  mkMemPage true (intKey p) (intKeyLeaf p) (leaf p) (hdrOffset p) (childPtrSize p) (max1bytePayload p) (maxLocal p) (minLocal p) (cellOffset p) (-1) (nCell p) (wrap_u 16 (pageSize pBt - 1)) [] (xCellSize_p p) (xParseCell_p p) (aData p).

Lemma cells_fit p addrs cells fs top frag : limits_ok pBt p -> page_state pBt p addrs cells fs top frag -> cellOffset p + 6 * nCell p <= usableSize pBt.
Proof.
  intros Hlim S. destruct (page_length _ _ _ _ _ _ _ S) as [Hlc _]. pose proof (page_within _ _ _ _ _ _ _ S) as [Hw Ha]. pose proof (lay_top _ _ _ _ _ (sp_layout _ _ _ _ _ _ _ (ps_space _ _ _ _ _ _ _ S))) as Ht.
  pose proof (total_fits _ _ _ (proj2 Ht) Hw Ha) as Hfit. rewrite (blocks_total addrs) in Hfit by done. pose proof (ps_gap _ _ _ _ _ _ _ S). rewrite (ps_ncell _ _ _ _ _ _ _ S) in *.
  assert (H4 : 4 * Z.of_nat (length cells) <= size_sum cells); [|lia]. pose proof (ps_valid _ _ _ _ _ _ _ S) as Hv. clear -Hv Hlim. induction Hv as [|c cells Hc Hv IH]; [done|]. rewrite size_sum_cons. cbn [length]. pose proof (valid_size pBt p Hlim c Hc). lia.
Qed.

Lemma initPage_spec p q f addrs cells fs top frag :
  database -> page_flags f -> of_kind p f -> page_state pBt p addrs cells fs top frag -> get (aData p) (hdrOffset p) = Some f -> isInit q = false -> aData q = aData p -> hdrOffset q = hdrOffset p ->
  btreeInitPage pBt q = Some (SQLITE_OK, reread p).
Proof.
  intros Hdb Hf Hk S Hflag Hi Hdq Hhq. destruct (of_kind_sound p f Hdb Hf Hk) as [Hlim Hkind]. pose proof Hkind as (K0 & K1 & _). unfold btreeInitPage. rewrite option_guard_True by done. rewrite Hdq, Hhq, Hflag. cbn [mbind option_bind]. rewrite (decode_again p) by done. change (SQLITE_OK =? SQLITE_OK) with true. cbn [negb].
  destruct (database_sizes Hdb) as (w & u & secure & check & Ebt & Epg & Eu & _ & Hp & Hu). rewrite option_guard_True by lia.
  pose proof (ps_count _ _ _ _ _ _ _ S) as Hcnt. unfold has2 in Hcnt. rewrite Hcnt. cbn [mbind option_bind]. pose proof (cells_fit _ _ _ _ _ _ Hlim S) as Hfit. destruct (ps_off _ _ _ _ _ _ _ S) as [Hoff1 Hoff]. pose proof (sp_hdr _ _ _ _ _ _ _ (ps_space _ _ _ _ _ _ _ S)).
  assert (Hmx : nCell p <= MX_CELL pBt) by (unfold MX_CELL; apply Z.div_le_lower_bound; lia). rewrite (proj2 (Z.ltb_ge _ (nCell p))) by done.
  cbn [isInit intKey intKeyLeaf leaf hdrOffset childPtrSize max1bytePayload maxLocal minLocal cellOffset nFree nCell maskPage aOvfl xCellSize_p xParseCell_p aData].
  replace (hdrOffset p + 8 + childPtrSize p) with (cellOffset p) by lia. fold (reread p). destruct (SQLITE_CellSizeCk pBt); [|done]. unfold btreeCellSizeCheck. change (nCell (reread p)) with (nCell p). rewrite (ps_ncell _ _ _ _ _ _ _ S), Nat2Z.id.
  assert (Hck : btreeCellSizeCheck_loop pBt (length cells) (reread p) 0 = Some SQLITE_OK).
  { assert (S' : page_state pBt (with_nFree (reread p) (nFree p)) addrs cells fs top frag) by (destruct S as [S1 S2 S3 S4 S5 S6 S7 S8 S9 S10]; by split).
    assert (Hl' : limits_ok pBt (with_nFree (reread p) (nFree p))) by (destruct Hlim as [L1 L2 L3]; by split). assert (Hk' : page_kind (with_nFree (reread p) (nFree p))) by exact Hkind.
    rewrite <- (sizeCheck_spec _ _ _ _ _ _ (length cells) 0 Hl' Hk' S' eq_refl). apply sizeCheck_nFree. }
  by rewrite Hck.
Qed.

(** ** Sequences of insertions and deletions *)

(** A cell [c] with a child, if that is not 0, becomes cell [i]; cell [i] is removed. *)
Inductive cell_op := Ins (i : nat) (c : bytes) (iChild : Z) | Del (i : nat).

(** A page as a list of cells, and the cells that do not fit.  A page has room for a cell
    when the bytes of all the cells and pointers leave enough. *)
Definition room (p : MemPage) (cells : list bytes) : Z := usableSize pBt - (cellOffset p + 2 * Z.of_nat (length cells)) - size_sum cells.

Fixpoint list_run (p : MemPage) (cells : list bytes) (ops : list cell_op) : list bytes * list (Z * bytes) :=
  match ops with
  | [] => (cells, [])
  | Ins i c iChild :: ops => if lenz c + 2 <=? room p cells then list_run p (insert_at i (with_child iChild c) cells) ops else (cells, [(Z.of_nat i, with_child iChild c)])
  | Del i :: ops => list_run p (delete i cells) ops
  end.

(** The places are those of cells, and the cells are as long as their headers say. *)
Fixpoint legal (p : MemPage) (cells : list bytes) (ops : list cell_op) : Prop :=
  match ops with
  | [] => True
  | Ins i c iChild :: ops => (i <= length cells)%nat /\ valid pBt p c /\ (iChild = 0 \/ childPtrSize p = 4) /\ (lenz c + 2 <= room p cells -> legal p (insert_at i (with_child iChild c) cells) ops)
  | Del i :: ops => (i < length cells)%nat /\ legal p (delete i cells) ops
  end.

(** The cells as the page has them. *)
Definition page_cell (p : MemPage) (i : Z) : option bytes := pc ← findCell p i; sz ← cellSize pBt p i; peek (Z.to_nat sz) (get (aData p)) pc.
Definition page_cells (p : MemPage) : option (list bytes) := mapM (page_cell p) (seqZ 0 (nCell p)).

(** The operations on the page, up to the first cell that does not fit. *)
Definition page_step (p : MemPage) (op : cell_op) : option MemPage :=
  '(rc, p) ← match op with
             | Ins i c iChild => insertCell pBt p (Z.of_nat i) c (lenz c) iChild SQLITE_OK
             | Del i => sz ← cellSize pBt p (Z.of_nat i); dropCell pBt p (Z.of_nat i) sz SQLITE_OK
             end;
  if rc =? SQLITE_OK then Some p else None.

Fixpoint page_run (p : MemPage) (ops : list cell_op) : option MemPage :=
  match ops with
  | [] => Some p
  | op :: ops => p ← page_step p op; match aOvfl p with [] => page_run p ops | _ => Some p end
  end.

(** What is true of a page between the operations. *)
Record holds (f : Z) (p : MemPage) (cells : list bytes) : Prop := mkHolds {
  ho_kind : of_kind p f;
  ho_flag : get (aData p) (hdrOffset p) = Some f;
  ho_mask : maskPage p = wrap_u 16 (pageSize pBt - 1);
  ho_init : isInit p = true;
  ho_page : exists addrs fs top frag, page_state pBt p addrs cells fs top frag }.

Section runs.
Context (f : Z) (Hdb : database) (Hf : page_flags f).

Lemma mask_address a : 0 <= a < usableSize pBt -> Z.land (wrap_u 16 (pageSize pBt - 1)) a = a.
Proof.
  intros Ha. destruct (database_sizes Hdb) as (k & u & secure & check & Ebt & Epg & Eu & Hk & Hp & Hu). rewrite Epg, Eu in *. rewrite u16_small by lia. rewrite Z.land_comm, Z.sub_1_r, <- Z.ones_equiv, Z.land_ones by lia. apply Z.mod_small. lia.
Qed.

Lemma holds_kind p cells : holds f p cells -> limits_ok pBt p /\ page_kind p.
Proof. intros [H _ _ _ _]. by apply of_kind_sound with f. Qed.

Lemma peek_cell d a c : cell_at (get d) a c -> peek (Z.to_nat (lenz c)) (get d) a = Some c.
Proof.
  intros H. destruct (peek_spec (Z.to_nat (lenz c)) (get d) a) as (x & -> & Hl & Hx); [intros k Hk; rewrite H by (pose proof (lenz_nonneg c); lia); apply get_is; lia|]. pose proof (lenz_nonneg c). f_equal. apply list_eq. intros k. rewrite <- !get_nat.
  destruct (decide (Z.of_nat k < lenz c)); [rewrite Hx, H by lia; done|]. rewrite !get_None by lia. done.
Qed.

Lemma holds_cell p cells k c : holds f p cells -> cells !! k = Some c -> cellSize pBt p (Z.of_nat k) = Some (lenz c) /\ page_cell p (Z.of_nat k) = Some c.
Proof.
  intros H Hc. destruct (holds_kind _ _ H) as [Hlim _]. destruct H as [_ _ Hm _ (addrs & fs & top & frag & S)]. destruct (cell_there _ _ _ _ _ _ _ _ Hlim S Hc) as (a & Ha & Hp & Hx & Hat & Hta & Hau).
  pose proof (sp_low _ _ _ _ _ _ _ (ps_space _ _ _ _ _ _ _ S)). pose proof (sp_hdr _ _ _ _ _ _ _ (ps_space _ _ _ _ _ _ _ S)). pose proof (xCellSize_range pBt p Hlim _ _ _ (page_reader _ (sp_bytes _ _ _ _ _ _ _ (ps_space _ _ _ _ _ _ _ S))) Hx) as Hs.
  assert (Ef : findCell p (Z.of_nat k) = Some a) by (unfold findCell; rewrite Hp; cbn [mbind option_bind]; rewrite Hm, mask_address by lia; done).
  assert (Ec : cellSize pBt p (Z.of_nat k) = Some (lenz c)) by (unfold cellSize; rewrite Ef; cbn [mbind option_bind]; done). split; [done|]. unfold page_cell. rewrite Ef. cbn [mbind option_bind]. rewrite Ec. cbn [mbind option_bind]. by apply peek_cell.
Qed.

Lemma holds_cells p cells : holds f p cells -> page_cells p = Some cells /\ nCell p = Z.of_nat (length cells) /\ nFree p = room p cells /\ aOvfl p = [].
Proof.
  intros H. pose proof H as [_ _ _ _ (addrs & fs & top & frag & S)]. pose proof (ps_ncell _ _ _ _ _ _ _ S) as Hn. destruct (page_length _ _ _ _ _ _ _ S) as [Hlc _]. split; [|split; [done|split; [|apply S]]].
  - unfold page_cells. apply mapM_Some_2, Forall2_lookup. intros k. rewrite Hn. destruct (decide (k < length cells)%nat) as [Hk|Hk].
    + rewrite (lookup_seqZ_lt 0 (Z.of_nat (length cells)) k) by lia. destruct (lookup_lt_is_Some_2 cells k Hk) as [c Hc]. rewrite Hc. constructor. rewrite Z.add_0_l. by apply (holds_cell p cells).
    + rewrite lookup_seqZ_ge, lookup_ge_None_2 by lia. constructor.
  - rewrite (ps_nfree _ _ _ _ _ _ _ S), (blocks_total addrs), Hn by done. done.
Qed.

Lemma holds_update p d n m addrs cells fs top frag cells0 : holds f p cells0 -> kept pBt p d -> page_state pBt (update p d n m) addrs cells fs top frag -> holds f (update p d n m) cells.
Proof.
  intros [H1 H2 H3 H4 _] K S. split; [by apply of_kind_update|cbn; rewrite K by lia; done|done|done|by exists addrs, fs, top, frag].
Qed.

(** Geometry and validity do not depend on the contents. *)
Lemma list_run_update p d n m cells ops : list_run (update p d n m) cells ops = list_run p cells ops.
Proof. revert cells. induction ops as [|[i c ch|i] ops IH]; intros cells; [done| |apply IH]. cbn [list_run]. change (room (update p d n m)) with (room p). by destruct (_ <=? _); [rewrite IH|]. Qed.

Lemma legal_update p d n m cells ops : legal p cells ops -> legal (update p d n m) cells ops.
Proof. revert cells. induction ops as [|[i c ch|i] ops IH]; intros cells; [done| |intros [? ?]; split; [done|by apply IH]]. intros (? & ? & ? & H). do 3 (split; [done|]). intros Hr. apply IH, H, Hr. Qed.

(** One operation. *)
Lemma del_step p cells i : holds f p cells -> (i < length cells)%nat -> exists d n m, page_step p (Del i) = Some (update p d n m) /\ holds f (update p d n m) (delete i cells) /\ kept pBt p d.
Proof.
  intros H Hi. destruct (holds_kind _ _ H) as [Hlim Hkind]. destruct (lookup_lt_is_Some_2 cells i Hi) as [c Hc]. unfold page_step. rewrite (proj1 (holds_cell _ _ _ _ H Hc)). cbn [mbind option_bind]. pose proof (ho_page _ _ _ H) as (addrs & fs & top & frag & S).
  destruct (dropCell_spec p addrs cells fs top frag i c Hlim Hkind S Hc) as (d & n & m & addrs' & fs' & top' & frag' & -> & S' & K). go_on. exists d, n, m. split; [done|]. split; [by apply (holds_update _ _ _ _ addrs' _ fs' top' frag' cells)|done].
Qed.

Lemma ins_step p cells i c iChild : holds f p cells -> (i <= length cells)%nat -> valid pBt p c -> iChild = 0 \/ childPtrSize p = 4 -> lenz c + 2 <= room p cells ->
  exists d n m, page_step p (Ins i c iChild) = Some (update p d n m) /\ holds f (update p d n m) (insert_at i (with_child iChild c) cells) /\ kept pBt p d.
Proof.
  intros H Hi Hv Hch Hr. destruct (holds_kind _ _ H) as [Hlim Hkind]. destruct (holds_cells _ _ H) as (_ & _ & Hfree & _). pose proof (ho_page _ _ _ H) as (addrs & fs & top & frag & S). unfold page_step.
  destruct (insertCell_fits p addrs cells fs top frag i c iChild Hlim Hkind S Hv Hi Hch) as (d & n & m & addrs' & fs' & top' & frag' & -> & S' & K); [lia|]. go_on. exists d, n, m. split; [done|]. split; [by apply (holds_update _ _ _ _ addrs' _ fs' top' frag' cells)|done].
Qed.

Lemma kept_trans p d n m d' : kept pBt p d -> kept pBt (update p d n m) d' -> kept pBt p d'.
Proof. intros K1 K2 i Hi. etransitivity; [by apply K2|]. by apply K1. Qed.

(** All of them. *)
Lemma page_run_spec ops p cells : holds f p cells -> legal p cells ops ->
  exists d n m, page_run p ops = Some (with_aOvfl (update p d n m) (list_run p cells ops).2) /\ holds f (update p d n m) (list_run p cells ops).1 /\ kept pBt p d.
Proof.
  revert p cells. induction ops as [|op ops IH]; intros p cells H Hl.
  { exists (aData p), (nCell p), (nFree p). destruct (holds_cells _ _ H) as (_ & _ & _ & Ho). split; [|split; [|done]]; [cbn; destruct p; cbn in *; by rewrite Ho|by destruct p]. }
  assert (Hnext : forall d n m cells', page_step p op = Some (update p d n m) -> holds f (update p d n m) cells' -> kept pBt p d -> legal p cells' ops -> list_run p cells (op :: ops) = list_run p cells' ops ->
    exists d n m, page_run p (op :: ops) = Some (with_aOvfl (update p d n m) (list_run p cells (op :: ops)).2) /\ holds f (update p d n m) (list_run p cells (op :: ops)).1 /\ kept pBt p d).
  { intros d n m cells' E H' K Hl' Er. rewrite Er. cbn [page_run]. rewrite E. cbn [mbind option_bind]. destruct (holds_cells _ _ H') as (_ & _ & _ & ->). destruct (IH _ _ H' (legal_update _ d n m _ _ Hl')) as (d2 & n2 & m2 & -> & H2 & K2). rewrite list_run_update in *.
    exists d2, n2, m2. split; [done|]. split; [exact H2|by apply (kept_trans _ d n m)]. }
  destruct op as [i c iChild|i].
  - destruct Hl as (Hi & Hv & Hch & Hl). destruct (Z.leb_spec (lenz c + 2) (room p cells)) as [Hr|Hr].
    + destruct (ins_step p cells i c iChild H Hi Hv Hch Hr) as (d & n & m & E & H' & K). apply (Hnext d n m _ E H' K (Hl Hr)). cbn [list_run]. by rewrite (proj2 (Z.leb_le _ _) Hr).
    + cbn [page_run list_run]. rewrite (proj2 (Z.leb_gt _ _) Hr). pose proof (ho_page _ _ _ H) as (addrs & fs & top & frag & S). destruct (holds_cells _ _ H) as (_ & _ & Hfree & _). unfold page_step.
      rewrite (insertCell_overflows p addrs cells fs top frag i c iChild (proj1 (holds_kind _ _ H)) S Hv Hi) by lia. go_on. exists (aData p), (nCell p), (nFree p). split; [by destruct p|]. split; [by destruct p|done].
  - destruct Hl as [Hi Hl]. destruct (del_step p cells i H Hi) as (d & n & m & E & H' & K). by apply (Hnext d n m _ E H' K Hl).
Qed.
End runs.

(** What [zeroPage] makes holds no cells. *)
Lemma zeroPage_holds q f : database -> page_flags f -> page_bytes (aData q) -> 0 <= hdrOffset q <= 100 -> usableSize pBt <= lenz (aData q) ->
  exists p, zeroPage pBt q f = Some p /\ holds f p [] /\ hdrOffset p = hdrOffset q /\ forall i, i < hdrOffset q \/ usableSize pBt <= i -> get (aData p) i = get (aData q) i.
Proof.
  intros Hdb Hf Hd Hh Hl. destruct (zeroPage_spec q f Hdb Hf Hd Hh Hl) as (p & E & Hk & Hi & Hhp & Hfl & S & Ho). exists p. split; [done|]. split; [|by split]. split; [done|done| |done|by exists [], [], (usableSize pBt), 0].
  revert E. unfold zeroPage. repeat (match goal with |- context [mbind _ ?o] => destruct o; [|done]; cbn [mbind option_bind] end). by intros [= <-].
Qed.

(** C12: A b-tree page is a list of cells.  Starting from the page that [zeroPage] makes of
    any buffer, every sequence of [insertCell] and [dropCell] at places in range, of cells
    as long as their headers say, ends with SQLITE_OK and without an access outside of the
    page, however the free space has been fragmented; the cells that are then found
    through the array of pointers are those of the list that the operations make, in
    order and byte for byte, and [nFree] is what the cells and their pointers leave.
    A cell goes to the overflow list exactly when it needs more than that, and the page is
    then as before.  Nothing in front of the header of the page or behind its usable
    part is changed. *)
Theorem page_refines_list q f ops :
  database -> page_flags f -> page_bytes (aData q) -> 0 <= hdrOffset q <= 100 -> usableSize pBt <= lenz (aData q) -> (forall p, zeroPage pBt q f = Some p -> legal p [] ops) ->
  exists p p', zeroPage pBt q f = Some p /\ page_run p ops = Some p' /\ page_cells p' = Some (list_run p [] ops).1 /\ aOvfl p' = (list_run p [] ops).2 /\
    nCell p' = Z.of_nat (length (list_run p [] ops).1) /\ nFree p' = room p (list_run p [] ops).1 /\ forall i, i < hdrOffset q \/ usableSize pBt <= i -> get (aData p') i = get (aData q) i.
Proof.
  intros Hdb Hf Hd Hh Hl Hops. destruct (zeroPage_holds q f Hdb Hf Hd Hh Hl) as (p & E & H & Hhp & Ho). destruct (page_run_spec f Hdb Hf ops p [] H (Hops p E)) as (d & n & m & Er & H' & K).
  destruct (holds_cells f Hdb Hf _ _ H') as (Hc & Hn & Hfree & _). eexists p, _. split; [done|]. split; [exact Er|]. split; [exact Hc|]. split; [done|]. split; [exact Hn|]. split; [exact Hfree|].
  intros i Hi. rewrite <- Ho by done. apply K. lia.
Qed.

(** C13: The bytes of a page are all there is to it.  When the page that any such sequence
    of operations has left is read into a fresh [MemPage], [btreeInitPage] accepts it,
    with or without the check of the cell sizes, and [btreeComputeFreeSpace] accepts its
    free blocks; the cells, their number and [nFree] are those that the operations had
    kept in memory. *)
Theorem page_reload q f ops p p' fresh :
  database -> page_flags f -> page_bytes (aData q) -> 0 <= hdrOffset q <= 100 -> usableSize pBt <= lenz (aData q) -> zeroPage pBt q f = Some p -> legal p [] ops -> page_run p ops = Some p' ->
  isInit fresh = false -> aData fresh = aData p' -> hdrOffset fresh = hdrOffset p' ->
  exists p1 p2, btreeInitPage pBt fresh = Some (SQLITE_OK, p1) /\ btreeComputeFreeSpace pBt p1 = Some (SQLITE_OK, p2) /\ aData p2 = aData p' /\ page_cells p2 = page_cells p' /\ nCell p2 = nCell p' /\ nFree p2 = nFree p'.
Proof.
  intros Hdb Hf Hd Hh Hl Ez Hops Er Hi Hda Hho. destruct (zeroPage_holds q f Hdb Hf Hd Hh Hl) as (p0 & E & H & Hhp & Ho). rewrite Ez in E. injection E as <-.
  destruct (page_run_spec f Hdb Hf ops p [] H Hops) as (d & n & m & Er' & H' & K). rewrite Er in Er'. injection Er' as ->. set (cells := (list_run p [] ops).1) in *. set (p1 := update p d n m) in *.
  pose proof (holds_cells f Hdb Hf _ _ H') as (Hc & Hn & Hfree & _). destruct H' as [Hk Hflag Hm Hinit (addrs & fs & top & frag & S)]. destruct (of_kind_sound p1 f Hdb Hf Hk) as [Hlim Hkind].
  exists (reread p1). rewrite (initPage_spec p1 fresh f addrs cells fs top frag) by done. eexists. split; [done|].
  rewrite (computeFreeSpace_spec (reread p1) addrs cells fs top frag); [|destruct S as [S1 S2 S3 S4 S5 S6 S7 S8 S9 S10]; split; [done..| |done]; cbn; rewrite (blocks_total addrs) by (by apply Forall2_length in S7); done|done|done|exact Hkind].
  split; [done|]. split; [done|]. split; [|split; [done|]].
  - change (page_cells (with_aOvfl p1 (list_run p [] ops).2)) with (page_cells p1). unfold page_cells. change (nCell (with_nFree (reread p1) _)) with (nCell p1). apply mapM_ext. intros i. unfold page_cell, cellSize, findCell. cbn [maskPage aData cellOffset with_nFree reread]. by rewrite Hm.
  - cbn [nFree with_nFree with_aOvfl]. rewrite Hfree. unfold room. change (nCell (reread p1)) with (nCell p1). by rewrite Hn.
Qed.

(** The free blocks [fs], the fragments and the start of the content area of a page, as
    [btreeComputeFreeSpace] accepts them. *)
Record accepted (p : MemPage) (fs : list block) (frag top : Z) : Prop := mkAccepted {
  ac_frag : get (aData p) (hdrOffset p + 7) = Some frag;
  ac_top : has2 (aData p) (hdrOffset p + 5) top;
  ac_first : has2 (aData p) (hdrOffset p + 1) (first fs);
  ac_chain : fs = [] \/ (hdrOffset p + 8 + childPtrSize p + 2 * nCell p <= first fs /\ chain (aData p) (first fs) fs);
  ac_sum : free_sum_of p frag top fs <= usableSize pBt }.

(** C14: [btreeComputeFreeSpace] is safe on every page, whatever its bytes are.  It ends,
    and never reads outside of the usable part.  The answer is SQLITE_OK exactly when the
    free blocks are chained in ascending order behind the array of pointers, with at least
    four bytes between them, the last one ends within the page, and the start of the
    content area, the fragments and the free blocks together are at most the usable size;
    [nFree] is then that sum less the header and the pointers, modulo 2^16.  Else the
    answer is SQLITE_CORRUPT, and nothing is changed. *)
Theorem compute_free_space_safe p :
  page_bytes (aData p) -> usableSize pBt <= lenz (aData p) -> 0 <= hdrOffset p -> hdrOffset p + 8 <= usableSize pBt -> 0 <= childPtrSize p -> 0 <= nCell p -> isInit p = true -> nFree p < 0 ->
  (exists fs frag top, accepted p fs frag top /\ btreeComputeFreeSpace pBt p = Some (SQLITE_OK, with_nFree p (wrap_u 16 (free_sum_of p frag top fs - (hdrOffset p + 8 + childPtrSize p + 2 * nCell p))))) \/
  ((forall fs frag top, ~ accepted p fs frag top) /\ btreeComputeFreeSpace pBt p = Some (SQLITE_CORRUPT, p)).
Proof.
  intros Hd Hl Hh Hhu Hch Hn Hi Hf. unfold btreeComputeFreeSpace. rewrite option_guard_True by done. destruct (has2_is (aData p) (hdrOffset p + 5) Hd) as [top Ht]; [lia|lia|]. destruct (has2_is (aData p) (hdrOffset p + 1) Hd) as [pc Hpc]; [lia|lia|]. destruct (get_is (aData p) (hdrOffset p + 7)) as [frag Hfr]; [lia|].
  rewrite (get2byteNotZero_spec _ _ _ Hd Ht). pose proof (has2_range _ _ _ Hd Hpc) as Rpc. pose proof Hpc as Hpc'. unfold has2 in Hpc'. rewrite Hpc', Hfr. cbn [mbind option_bind]. set (lo := hdrOffset p + 8 + childPtrSize p + 2 * nCell p). set (t := if top =? 0 then 65536 else top).
  assert (Hsum : forall r, (if 0 <? pc then if pc <? lo then Some None else computeFreeSpace_loop pBt (S (Z.to_nat (usableSize pBt))) (aData p) pc (frag + t) else Some (Some (frag + t))) = Some r ->
    forall fs frag' top', accepted p fs frag' top' -> frag' = frag /\ top' = top /\ r = Some (frag + t + total fs)).
  { intros r Er fs frag' top' [A1 A2 A3 A4 A5]. rewrite Hfr in A1. injection A1 as <-. pose proof (has2_eq _ _ _ _ Ht A2) as <-. pose proof (has2_eq _ _ _ _ Hpc A3) as ->. split; [done|]. split; [done|]. destruct A4 as [->|[A4 A6]]; [cbn in Er; injection Er as <-; f_equal; cbn; lia|].
    rewrite (proj2 (Z.ltb_lt 0 (first fs))), (proj2 (Z.ltb_ge (first fs) lo)) in Er by lia. rewrite (chain_loop _ _ _ _ fs Hd) in Er by (done || lia). by injection Er as <-. }
  assert (Hex : exists r, (if 0 <? pc then if pc <? lo then Some None else computeFreeSpace_loop pBt (S (Z.to_nat (usableSize pBt))) (aData p) pc (frag + t) else Some (Some (frag + t))) = Some r /\
    (r <> None -> exists fs, first fs = pc /\ (fs = [] \/ (lo <= first fs /\ chain (aData p) (first fs) fs)))).
  { destruct (Z.ltb_spec 0 pc); [|eexists; split; [done|]; intros _; exists []; cbn; split; [lia|by left]]. destruct (Z.ltb_spec pc lo); [by exists None|].
    destruct (computeFreeSpace_loop_total (S (Z.to_nat (usableSize pBt))) (aData p) pc (frag + t) Hd Hl) as (r & -> & Hr); [lia..|]. exists r. split; [done|]. intros Hnn. destruct (Hr Hnn) as [fs Hfs]. exists fs. assert (Ef : first fs = pc) by (destruct fs; [done|by destruct Hfs]). rewrite Ef. split; [done|]. by right. }
  destruct Hex as (r & Er & Hr). pose proof (Hsum r Er) as Hacc. rewrite Er. cbn [mbind option_bind]. destruct r as [s|].
  - destruct (Hr ltac:(done)) as (fs & Ef & Hfs). destruct (Z.ltb_spec (usableSize pBt) s) as [Hlt|Hle].
    + right. split; [|done]. intros fs' frag' top' A. destruct (Hacc _ _ _ A) as (-> & -> & [= ->]). pose proof (ac_sum _ _ _ _ A) as Hs. unfold free_sum_of in Hs. fold t in Hs. lia.
    + left. assert (Es : s = frag + t + total fs).
      { destruct Hfs as [->|[Hlo Hfs]]; [cbn in Ef; subst pc; cbn in Er; injection Er as <-; cbn; lia|]. rewrite Ef in Hlo, Hfs. rewrite (proj2 (Z.ltb_lt 0 pc)), (proj2 (Z.ltb_ge pc lo)) in Er by lia. rewrite (chain_loop _ _ _ _ fs Hd) in Er by (done || lia). by injection Er as <-. }
      exists fs, frag, top. split; [split; [done|done|by rewrite Ef|done|unfold free_sum_of; fold t; lia]|]. unfold free_sum_of. fold t. by rewrite <- Es.
  - right. split; [|done]. intros fs frag' top' A. by destruct (Hacc _ _ _ A) as (_ & _ & ?).
Qed.

End refinement.

(** ** Examples *)

(** Pages of 512 bytes, and a sequence that splits free blocks, joins them, closes them and
    packs the page, up to a cell that does not fit. *)
Definition small_database : BtShared := lockBtree_sizes 512 512 false true.
Definition small_buffer : MemPage := mkMemPage false false false 0 0 0 0 0 0 0 0 0 0 [] cellSizePtr_m btreeParseCellPtr_m (replicate 512 170).
Definition table_cell (key n : Z) : bytes := [n; key] ++ replicate (Z.to_nat n) (key + 100).
Definition small_ops : list cell_op :=
  [Ins 0 (table_cell 1 100) 0; Ins 1 (table_cell 2 50) 0; Ins 1 (table_cell 3 120) 0; Ins 0 (table_cell 4 90) 0; Del 1; Del 1; Ins 2 (table_cell 5 120) 0; Ins 0 (table_cell 6 110) 0; Ins 1 (table_cell 7 90) 0; Ins 5 (table_cell 8 30) 0].
Definition small_page : MemPage := default small_buffer (zeroPage small_database small_buffer 13).
Definition small_end : MemPage := default small_buffer (page_run small_database small_page small_ops).
Definition small_fresh : MemPage := with_data small_buffer (aData small_end).

Lemma small_is_database : database small_database.
Proof. exists 9, 512, false, true. repeat split; lia. Qed.

Lemma small_buffer_bytes : page_bytes (aData small_buffer).
Proof. apply (bool_decide_unpack _). vm_compute. exact I. Qed.

Lemma small_zeroPage : zeroPage small_database small_buffer 13 = Some small_page.
Proof. vm_compute. reflexivity. Qed.

Lemma small_legal : legal small_database small_page [] small_ops.
Proof.
  assert (H : forall c, bool_decide (page_bytes c) = true -> xCellSize small_database small_page (get c) 0 = Some (lenz c) -> valid small_database small_page c) by (intros c Hb Hx; split; [by apply bool_decide_eq_true in Hb|done]).
  unfold small_ops. repeat (first [split; [vm_compute; lia|]; first [split; [apply H; vm_compute; reflexivity|]; split; [by left|intros _]|idtac] | exact I]).
Qed.

Lemma page_refines_list_witness :
  exists p p', zeroPage small_database small_buffer 13 = Some p /\ page_run small_database p small_ops = Some p' /\ page_cells small_database p' = Some (map (fun x => table_cell x.1 x.2) [(6, 110); (7, 90); (4, 90); (2, 50); (5, 120)]) /\
    aOvfl p' = [(5, table_cell 8 30)] /\ nCell p' = 5 /\ nFree p' = 24.
Proof.
  destruct (page_refines_list small_database small_buffer 13 small_ops) as (p & p' & E & H1 & H2 & H3 & H4 & H5 & _);
    [exact small_is_database|unfold page_flags; lia|exact small_buffer_bytes|cbn; lia|vm_compute; discriminate|intros p E; rewrite small_zeroPage in E; injection E as <-; exact small_legal|].
  exists p, p'. split; [exact E|]. split; [exact H1|]. rewrite small_zeroPage in E. injection E as <-. rewrite H2, H3, H4, H5. vm_compute. repeat split.
Defined.

Lemma page_reload_witness :
  exists p1 p2, btreeInitPage small_database small_fresh = Some (SQLITE_OK, p1) /\ btreeComputeFreeSpace small_database p1 = Some (SQLITE_OK, p2) /\ page_cells small_database p2 = page_cells small_database small_end /\ nFree p2 = 24.
Proof.
  destruct (page_reload small_database small_buffer 13 small_ops small_page small_end small_fresh) as (p1 & p2 & H1 & H2 & _ & H3 & _ & H4);
    [exact small_is_database|unfold page_flags; lia|exact small_buffer_bytes|cbn; lia|vm_compute; discriminate|exact small_zeroPage|exact small_legal|vm_compute; reflexivity|vm_compute; reflexivity|vm_compute; reflexivity|vm_compute; reflexivity|].
  exists p1, p2. split; [exact H1|]. split; [exact H2|]. split; [exact H3|]. rewrite H4. vm_compute. reflexivity.
Defined.

(** A page whose content area starts in its header is accepted, with more free bytes than
    the page has. *)
Definition low_page : MemPage := reread small_database (with_nCell (with_data small_page ([13; 0; 0; 0; 3; 0; 2; 0] ++ replicate 504 0)) 3).

Lemma compute_free_space_safe_witness :
  exists fs frag top, accepted small_database low_page fs frag top /\ btreeComputeFreeSpace small_database low_page = Some (SQLITE_OK, with_nFree low_page 65524).
Proof.
  destruct (compute_free_space_safe small_database low_page) as [(fs & frag & top & A & E)|[_ E]];
    [apply (bool_decide_unpack _); vm_compute; exact I|vm_compute; discriminate|vm_compute; discriminate|vm_compute; discriminate|vm_compute; discriminate|vm_compute; discriminate|reflexivity|reflexivity| |vm_compute in E; discriminate E].
  exists fs, frag, top. split; [exact A|]. vm_compute. reflexivity.
Defined.
